(* ===== verification/_CoqProject ===== *)
-Q . S2P
Prelude.v
External.v
ExternalModel.v
Serializer.v
Hash.v
Defaults.v
Text.v
Data.v
Bech32.v
Languages.v
VarUint.v
Difficulty.v
ExternalCrypto.v
Elgamal.v
Proofs.v
Transaction.v
Address.v
Mnemonics.v
Verify.v
VerifyFacts.v
VerifyModel.v
Block.v
Errors.v
Dag.v
Merkle.v
Account.v
Versions.v
Storage.v
ClientProtocol.v
VersionedTree.v
StorageFacts.v
Providers.v
DagOrder.v
DagWalks.v
BlockProviders.v
BlockStorage.v
BlockStorageFacts.v
DagBase.v
NonceChecker.v
Emission.v
StorageLaws.v
Rewind.v
ChainProviders.v
Reference.v
ChainState.v
BlockCheck.v
ChainFacts.v
ChainInvariant.v
ApplyChanges.v
Atomic.v
Execution.v
Reorder.v
ExecutionFacts.v
ReorderFacts.v
ExecutionModel.v
TxSelector.v
Mempool.v
MempoolFacts.v
MempoolClean.v
Template.v
TemplateFacts.v
TemplateTips.v
BlockPool.v
BlockPoolModel.v
Packets.v
PacketPeer.v
Bootstrap.v
Packet.v
PeerState.v
ChainSync.v
ChainValidator.v
PopBlocks.v
PopBlocksFacts.v
PopBlocksModel.v
ExtraData.v
Builder.v
WalletState.v
BuilderFacts.v
BuilderRun.v
BuilderModel.v
