(* ===== verification/Prelude.v ===== *)
(** * XELIS: a verification development

    XELIS is a proof-of-work blockchain whose blocks form a DAG and whose
    account balances are ElGamal ciphertexts.  A workspace of four crates:
    [xelis_common] (data, encodings, cryptography, verification of a
    transaction), [xelis_daemon] (the node: DAG, storage, execution of blocks,
    network, RPC), [xelis_wallet] and [xelis_miner].

    The development models the consensus core: from the bytes of a transaction
    to the versions of the balances the node stores once the blocks of the DAG
    are ordered and executed.  Rust code becomes functions in the outcome monad
    [res] of this file ([Ok], [Err], [Panic]; [Diverge] when the fuel of a loop
    is exhausted), or [stm] over an explicit state where the code mutates one.
    Machine integers are [Z], with the wrap-around of a release build written
    out ([wrap], [u64_add], ...) and the panics of [primitive_types] kept.
    Third-party crates are classes with their documented laws ([External],
    [ExternalCrypto]); each has a concrete instance ([ExternalModel], the
    witnesses) that shows the laws can hold.

    ** The parts, and how they interact

    A block arrives with its transactions; its header is hashed and checked
    against the difficulty its tips require; its transactions are verified
    against the state of the chain; the DAG above the last stable block is
    ordered again, and the blocks that have a new place are executed in that
    order on a chain state, whose changes are written to the storage as new
    versions of nonces and balances.

    - Encodings, [xelis_common/src/serializer/].  [Serializer]: [Reader],
      [Writer], the trait and its laws ([SerOk]: reading what was written gives
      the value back; [SerCanon]: only what is written is read; [SerSize]).
      [Defaults]: the implementations of [defaults.rs].
    - [Hash]: [crypto/hash.rs].  [VarUint]: [varuint.rs], [difficulty.rs] (the
      256-bit integers, the check of a hash).  [Difficulty]:
      [xelis_daemon/src/core/difficulty.rs] (the Kalman filter).
    - [Elgamal]: [crypto/elgamal/] (keys, ciphertexts, signatures).  [Proofs]:
      [crypto/transcript.rs], [crypto/proofs.rs] (the two sigma proofs, the
      batch collector).
    - Text: [Text] (characters and their classes), [Bech32] and [Address]
      ([crypto/bech32.rs], [crypto/address.rs]), [Data] (the integrated data of
      [api/data.rs]), [Languages] and [Mnemonics]
      ([xelis_wallet/src/mnemonics/], seed phrases).
    - [Transaction]: [transaction/mod.rs], the data and its encoding.
      [Verify]: [transaction/verify.rs], generic in the trait
      [BlockchainVerificationState] (a class).  [VerifyFacts]: [Ledger], the
      abstract state, with [StateLaws], the contract between a state and a
      ledger; verification and application refine the operations of the
      ledger.  [VerifyModel]: a ledger is a state that keeps the contract.
    - [Block]: [block/] (header, block, miner work and their hashes).
    - [Errors]: [core/error.rs].
    - The DAG, [core/blockdag.rs] and [core/blockchain.rs]: [Dag] (sorting the
      tips, best and newest tip), [DagOrder] (the full order), [DagWalks] (work
      of a tip, best tip, reachability, distance from the main chain),
      [DagBase] (sync blocks, the common base of the tips).  The blocks are seen
      through the classes of [Providers]; [BlockProviders] ties them to a
      [DagView], the abstract DAG the theorems speak of.
    - [Merkle]: [core/merkle.rs].
    - [Account]: [account/] (ciphertext cache, versioned balance and nonce).
    - The storage: [Versions] (the walks over versions), [Storage]
      ([core/storage/sled.rs] and [providers/] for assets, nonces, balances,
      accounts and order), [ClientProtocol] (execution records),
      [VersionedTree] and [StorageFacts] (the trees implement histories of
      versions), [Providers] and [ChainProviders] (the traits as classes),
      [StorageLaws] (their contract, kept by the sled storage).  [BlockStorage]
      and [BlockStorageFacts]: the blocks and transactions of the same database,
      which hold a [DagView].  [Rewind]: deleting what a range of topoheights
      wrote.  [PopBlocks], [PopBlocksFacts], [PopBlocksModel]:
      [pop_blocks], which takes blocks off the top of the chain.
    - [NonceChecker]: [core/nonce_checker.rs].  [Emission]: block rewards and
      fees.  [Reference]: the choice of the balance a transaction is verified
      against ([core/state/mod.rs]).
    - [ChainState]: [core/state/chain_state.rs].  [ChainFacts] shows it keeps
      [StateLaws]; [ChainInvariant] is its invariant during a block,
      [ApplyChanges] what it writes, [Atomic] its failures.
    - [Execution]: the loop of [add_new_block_for_storage] over an ordered
      block.  [ExecutionFacts]: its effect on the funds.  [ExecutionModel]:
      blocks executed and ordered again on a concrete storage.
    - [BlockCheck]: the checks of [add_new_block_for_storage] on a received
      block.  [Reorder], [ReorderFacts]: the part that undoes the
      old order, places and executes the blocks of the new one and rewards them.
      [BlockPool], [BlockPoolModel]: the composition of checks, storage, order
      and pool when a block is received, and a pool on a concrete storage.
    - [Mempool] ([core/mempool.rs], with its [MempoolFacts],
      [MempoolClean]): the transactions that wait, by source and nonce.
      [TxSelector] ([core/tx_selector.rs]) and [Template], [TemplateFacts],
      [TemplateTips] (the block template given to miners, [core/blockchain.rs]).
    - The network, [xelis_daemon/src/p2p/]: [Packets], [PacketPeer],
      [Bootstrap], [Packet] ([packet/]: what peers exchange, with the limits the
      readers enforce), [PeerState] (what a ping changes of a peer, the
      handshake), [ChainSync] (the common point of two chains, the answer to a
      request, what an answer makes a node do; [p2p/mod.rs]), [ChainValidator]
      ([chain_validator.rs], a chain of headers laid over the storage).
    - The side of the wallet: [Builder] ([transaction/builder.rs]: sizes, fees,
      the steps of [build]), over the interfaces [FeeHelper] and
      [AccountState]; [ExtraData] ([transaction/extra_data.rs], data encrypted
      for the two ends of a transfer); [WalletState]
      ([xelis_wallet/src/transaction_builder.rs], the state a wallet builds
      from, an instance of the interfaces).  [BuilderFacts] and [BuilderRun]
      relate what is built to what [Verify] checks;
      [BuilderModel] puts them together.

    ** What the theorems show

    - Funds: a block mints its reward and nothing else, executes each
      transaction at most once, and settles into the storage exactly the
      balances of the ledger ([ExecutionFacts], [Atomic], [ChainInvariant],
      [ApplyChanges]).
    - Verification: an accepted transaction is the one the ledger accepts, and
      its application is that of the ledger; nonces are consecutive but for those
      that are undone ([VerifyFacts], [NonceChecker]); a transaction is verified against the
      balance its reference selects ([Reference]).
    - Storage: trees of versions refine histories, lookups and rewinding
      included, and the walks end ([StorageFacts], [Rewind]); the trees of the
      blocks refine an abstract DAG ([BlockStorageFacts]); taking blocks off the
      chain leaves exactly what was there at the new top ([PopBlocksModel]).
    - Reception of a block: a block that passes the checks obeys the rules of the
      consensus ([BlockCheck]); a new order is stored as a whole, its histories
      being those that executing the blocks that moved makes of what lies below
      them ([ReorderFacts]); the pool is cleaned, takes back the transactions
      that lost their block and stays consistent ([BlockPool], [MempoolFacts], [MempoolClean]).
    - Templates: the selector drains the pool ([TxSelector]); the header of a
      template passes the checks on the tips and its transactions fit
      ([TemplateFacts], [TemplateTips]).
    - Network: every packet is read back as it was sent, and no bytes make a
      reader panic ([Packet]); a peer can only make its pruned topoheight grow
      and share foreign addresses ([PeerState]); two nodes of one genesis find
      a common point, the answer is complete, and within the limits unless a
      height has too many blocks, and a peer that is not trusted cannot rewind a
      node further than the blocks it sent, but can below its stable height
      ([ChainSync]); a chain of headers is refused at its first new header, an
      error of the code ([ChainValidator]).
    - Cryptography: completeness of the proofs, correctness of signatures and of
      the homomorphic operations ([Proofs], [Elgamal]).  The equality proof is
      not sound as it is verified: its weight is drawn too early, which lets the
      owner of an account spend more than it has ([Proofs.eq_proof_forged],
      [VerifyModel.overdraft_accepted]).
    - Wallets: a transaction that is built is accepted by every node the wallet
      agrees with, once it passes the checks of the node on the fee and the
      reference, and they agree afterwards; its size is the estimated
      one ([BuilderModel]); the data of a transfer is read back by both ends
      ([ExtraData]).
    - Encodings: round trips, canonical forms, sizes and the binding of the
      hashes, up to a collision among what was hashed ([Transaction], [Block],
      [Account], [Merkle]); the text of an address is read back and a substituted
      character is detected ([Address], [Bech32]); a seed phrase gives its key
      back ([Mnemonics]).
    - Consensus: the difficulty stays in bounds and its filter does not
      overflow, the check of a hash is the comparison of numbers, the order of
      the DAG is topological and does not depend on the caches, the work of a
      tip is a sum over a set, the tips are checked for reachability, the sync
      blocks and the common base are what they mean to be ([Difficulty],
      [VarUint], [DagOrder], [DagWalks], [DagBase], [Dag]); the emission
      never exceeds its maximum ([Emission]).

    ** Fuel

    Structural loops are [Fixpoint]s.  The others take fuel, and a theorem says
    that enough fuel gives the answer: the walks of the DAG need the number of
    paths under a block ([DagWalks.tree_sizes]), the walks over versions the
    number of stored versions ([Storage.nonce_fuel], [Storage.balance_fuel]),
    the Merkle tree the number of its leaves, the reader of an element of data
    one more than the bytes left, the selector one more than the transactions,
    the list of block ids 63, the answer to a chain request one more than the
    blocks asked, a rewind the number of blocks it removes.

    ** Not modelled

    The tasks of the network (sockets, timers, channels, encryption, the list
    of peers on disk), the RPC and websocket servers, the prompt and the
    command line are asynchronous I/O over third-party runtimes.  The rest of
    the wallet application (its encrypted storage, its scan of the chain), the
    miner's threads and the simulator drive the modelled parts.  Random generation, the discrete logarithm of [decrypt] and JSON
    forms are left to the crates that implement them.  The caches of the
    storage in front of the trees are transparent and not modelled, except
    those of the DAG algorithms.  Left for a later extension: pruning and the
    snapshots of the storage, the fast synchronisation beyond its packets. *)

From Stdlib Require Export ZArith Lia Sorting.Sorted.
From Corelib Require Export Init.Byte.
From Stdlib Require Strings.Byte.
From stdpp Require Export base gmap sets list strings vector numbers.

Open Scope Z_scope.

(** * Outcomes of a Rust call

    [Ok] and [Err] are the two constructors of [Result]; [Panic] is a Rust
    panic (an [unwrap] on [None], a slice out of bounds, an arithmetic
    overflow in a crate that checks it).  [Diverge] is produced only by the
    model, when the fuel given to a loop is exhausted: every loop comes with
    a theorem that some explicit fuel is enough. *)

Inductive res (E A : Type) : Type :=
  | Ok (a : A)
  | Err (e : E)
  | Panic
  | Diverge.
Arguments Ok {E A} a.
Arguments Err {E A} e.
Arguments Panic {E A}.
Arguments Diverge {E A}.

#[export] Instance res_ret {E} : MRet (res E) := fun A a => Ok a.
#[export] Instance res_bind {E} : MBind (res E) := fun A B f m =>
  match m with
  | Ok a => f a
  | Err e => Err e
  | Panic => Panic
  | Diverge => Diverge
  end.
#[export] Instance res_fmap {E} : FMap (res E) := fun A B f m =>
  match m with
  | Ok a => Ok (f a)
  | Err e => Err e
  | Panic => Panic
  | Diverge => Diverge
  end.

(** [Option::ok_or] *)
Definition ok_or {E A} (o : option A) (e : E) : res E A :=
  match o with Some a => Ok a | None => Err e end.

(** [Option::unwrap] *)
Definition unwrap {E A} (o : option A) : res E A :=
  match o with Some a => Ok a | None => Panic end.

(** [?] on a [Result] whose error type is converted with [From]. *)
Definition map_err {E F A} (f : E -> F) (m : res E A) : res F A :=
  match m with
  | Ok a => Ok a
  | Err e => Err (f e)
  | Panic => Panic
  | Diverge => Diverge
  end.

Definition is_ok {E A} (m : res E A) : bool :=
  match m with Ok _ => true | _ => false end.

Lemma res_bind_ok {E A B} (m : res E A) (f : A -> res E B) b :
  m ≫= f = Ok b <-> exists a, m = Ok a /\ f a = Ok b.
Proof.
  destruct m; simpl; split; try (by intros (? & ? & ?)); try done.
  - eauto.
  - by intros (? & [= <-] & ?).
Qed.

Lemma res_bind_panic {E A B} (m : res E A) (f : A -> res E B) :
  m <> Panic -> (forall a, m = Ok a -> f a <> Panic) -> m ≫= f <> Panic.
Proof. destruct m; simpl; auto. Qed.

Lemma res_bind_assoc {E A B C} (m : res E A) (f : A -> res E B) (g : B -> res E C) :
  (m ≫= f) ≫= g = m ≫= (fun a => f a ≫= g).
Proof. by destruct m. Qed.

(** [for x in l { ... }] with [?] inside the body. *)
Fixpoint foldM {E A S} (f : S -> A -> res E S) (s : S) (l : list A) : res E S :=
  match l with
  | [] => Ok s
  | a :: l => s' ← f s a; foldM f s' l
  end.

(** [iter.map(f).collect::<Result<Vec<_>, _>>()] *)
Fixpoint mapMr {E A B} (f : A -> res E B) (l : list A) : res E (list B) :=
  match l with
  | [] => Ok []
  | a :: l => b ← f a; bs ← mapMr f l; Ok (b :: bs)
  end.

Lemma foldM_app {E A S} (f : S -> A -> res E S) s l1 l2 :
  foldM f s (l1 ++ l2) = foldM f s l1 ≫= fun s' => foldM f s' l2.
Proof.
  revert s; induction l1 as [|a l1 IH]; intros s; simpl; [done|].
  destruct (f s a); simpl; auto.
Qed.

Lemma mapMr_Forall2 {E A B} (f : A -> res E B) l bs :
  mapMr f l = Ok bs <-> Forall2 (fun a b => f a = Ok b) l bs.
Proof.
  revert bs; induction l as [|a l IH]; intros bs; simpl.
  { split; [intros [= <-]; constructor|by inversion 1]. }
  split.
  - intros (b & Hb & (bs' & Hbs & [= <-])%res_bind_ok)%res_bind_ok.
    constructor; [done|by apply IH].
  - inversion 1 as [|?? b bs' Hb Hbs]; subst.
    rewrite Hb; simpl. apply IH in Hbs. by rewrite Hbs.
Qed.

(** * Calls on [&mut self] that may fail

    The state reached is kept when the call returns an error: the caller of a
    method that fails half-way still owns the object it was changing. *)

Definition stm (S E A : Type) : Type := S -> res E A * S.

#[export] Instance stm_ret {S E} : MRet (stm S E) := fun A a s => (Ok a, s).
#[export] Instance stm_bind {S E} : MBind (stm S E) := fun A B f m s =>
  match m s with
  | (Ok a, s') => f a s'
  | (Err e, s') => (Err e, s')
  | (Panic, s') => (Panic, s')
  | (Diverge, s') => (Diverge, s')
  end.
#[global] Typeclasses Opaque stm.

(** A call that only reads. *)
Definition lift_res {S E A} (m : res E A) : stm S E A := fun s => (m, s).
Definition st_get {S E} : stm S E S := fun s => (Ok s, s).
Definition st_modify {S E} (f : S -> S) : stm S E () := fun s => (Ok tt, f s).
Definition st_err {S E A} (e : E) : stm S E A := lift_res (Err e).
Definition st_map_err {S E F A} (f : E -> F) (m : stm S E A) : stm S F A := fun s =>
  let '(r, s') := m s in (map_err f r, s').

Fixpoint foldMs {S E A B} (f : B -> A -> stm S E B) (b : B) (l : list A) : stm S E B :=
  match l with
  | [] => mret b
  | a :: l => b' ← f b a; foldMs f b' l
  end.

Lemma stm_bind_ok {S E A B} (m : stm S E A) (f : A -> stm S E B) s b s' :
  (m ≫= f) s = (Ok b, s') <-> exists a s1, m s = (Ok a, s1) /\ f a s1 = (Ok b, s').
Proof.
  unfold mbind, stm_bind. destruct (m s) as [[a| | |] s1]; split; try (by intros (?&?&?&?)); try done.
  - eauto.
  - by intros (? & ? & [= <- <-] & ?).
Qed.

Lemma stm_bind_run {S E A B} (m : stm S E A) (f : A -> stm S E B) s a s1 :
  m s = (Ok a, s1) -> (m ≫= f) s = f a s1.
Proof. unfold mbind, stm_bind. by intros ->. Qed.

(** Either the first call fails, and the state is the one it leaves, or the
    second one runs. *)
Lemma stm_bind_cases {S E A B} (m : stm S E A) (f : A -> stm S E B) s r s' :
  (m ≫= f) s = (r, s') ->
  (exists a s1, m s = (Ok a, s1) /\ f a s1 = (r, s')) \/ s' = (m s).2.
Proof.
  unfold mbind, stm_bind. destruct (m s) as [[a| | |] s1]; [eauto|..]; intros [= _ <-]; by right.
Qed.

(** A loop that succeeds, by an invariant on what was processed. *)
Lemma foldMs_prefix {S E A} (f : () -> A -> stm S E ()) (P : list A -> S -> Prop) l s s' :
  P [] s ->
  (forall pre x post s1 s2, l = pre ++ x :: post -> P pre s1 -> f tt x s1 = (Ok tt, s2) -> P (pre ++ [x]) s2) ->
  foldMs f tt l s = (Ok tt, s') -> P l s'.
Proof.
  intros H0 Hstep. enough (forall post pre s, l = pre ++ post -> P pre s -> foldMs f tt post s = (Ok tt, s') -> P l s') as Hg
    by exact (Hg l [] s eq_refl H0).
  clear s H0. induction post as [|x post IH]; intros pre s -> Hp Hr; simpl in Hr.
  - injection Hr as <-. by rewrite app_nil_r.
  - apply stm_bind_ok in Hr as ([] & s1 & Hx & Hr). apply (IH (pre ++ [x]) s1); [by rewrite <- (assoc_L (++))| |done].
    by eapply Hstep.
Qed.

(** The state a call leaves, whatever its result. *)
Definition always {S E A} (P : S -> Prop) (m : stm S E A) : Prop := forall s, P s -> P (m s).2.

Lemma bind_state {S E A B} (P : S -> Prop) (m : stm S E A) (f : A -> stm S E B) s :
  P (m s).2 -> (forall a s1, m s = (Ok a, s1) -> P (f a s1).2) -> P ((m ≫= f) s).2.
Proof. unfold mbind, stm_bind. intros Hm Hf. destruct (m s) as [[a| | |] s1]; simpl in *; auto. Qed.

Lemma always_bind {S E A B} (P : S -> Prop) (m : stm S E A) (f : A -> stm S E B) :
  always P m -> (forall a, always P (f a)) -> always P (m ≫= f).
Proof.
  intros Hm Hf s Hs. apply bind_state; [by apply Hm|]. intros a s1 E1. apply Hf.
  specialize (Hm s Hs). by rewrite E1 in Hm.
Qed.

Lemma always_foldMs {S E A B} (P : S -> Prop) (f : B -> A -> stm S E B) b l :
  (forall b a, a ∈ l -> always P (f b a)) -> always P (foldMs f b l).
Proof.
  revert b. induction l as [|a l IH]; intros b Hf; [by intros s|].
  apply always_bind; [apply Hf; left|]. intros b'. apply IH. intros b1 a1 Hin. apply Hf. by right.
Qed.

Lemma always_lift {S E A} (P : S -> Prop) (m : res E A) : always P (lift_res m : stm S E A).
Proof. by intros s. Qed.
Lemma always_map_err {S E F A} (P : S -> Prop) (f : E -> F) (m : stm S E A) :
  always P m -> always P (st_map_err f m).
Proof. intros Hm s Hs. specialize (Hm s Hs). unfold st_map_err. by destruct (m s). Qed.

(** * Machine integers

    The workspace's release profile keeps [overflow-checks] off, so [+], [-]
    and [*] on the unsigned machine types wrap around. *)

Definition wrap (w z : Z) : Z := z mod 2 ^ w.
Definition u8_max : Z := 255.
Definition u16_max : Z := 65535.
Definition u64_max : Z := 18446744073709551615.

Definition u64_add (a b : Z) : Z := wrap 64 (a + b).
Definition u64_sub (a b : Z) : Z := wrap 64 (a - b).
Definition u64_mul (a b : Z) : Z := wrap 64 (a * b).

Definition in_u (w : Z) (z : Z) : Prop := 0 <= z < 2 ^ w.

#[export] Instance in_u_dec w z : Decision (in_u w z).
Proof. unfold in_u; apply _. Defined.

Lemma wrap_small w z : in_u w z -> wrap w z = z.
Proof. intros. by apply Z.mod_small. Qed.

Lemma wrap_range w z : 0 <= w -> in_u w (wrap w z).
Proof. intros. apply Z.mod_pos_bound. by apply Z.pow_pos_nonneg. Qed.

Lemma u64_add_small a b : in_u 64 (a + b) -> u64_add a b = a + b.
Proof. apply wrap_small. Qed.
Lemma u64_sub_small a b : in_u 64 (a - b) -> u64_sub a b = a - b.
Proof. apply wrap_small. Qed.
Lemma u64_mul_small a b : in_u 64 (a * b) -> u64_mul a b = a * b.
Proof. apply wrap_small. Qed.

Ltac u64_lia :=
  unfold in_u in *;
  rewrite ?u64_add_small, ?u64_sub_small, ?u64_mul_small in * by (unfold in_u; lia);
  unfold in_u in *; try lia.

(** * Bytes and big-endian integers *)

Definition byte_val (b : byte) : Z := Z.of_N (Byte.to_N b).
Definition to_byte (z : Z) : byte :=
  default x00 (Byte.of_N (Z.to_N (z mod 256))).

Lemma byte_val_range b : 0 <= byte_val b < 256.
Proof.
  unfold byte_val. pose proof (Byte.to_N_bounded b). lia.
Qed.

Lemma byte_val_to_byte z : byte_val (to_byte z) = z mod 256.
Proof.
  unfold byte_val, to_byte.
  pose proof (Z.mod_pos_bound z 256 eq_refl) as Hz.
  destruct (Byte.of_N (Z.to_N (z mod 256))) as [b|] eqn:Hb; simpl.
  - apply Byte.to_of_N in Hb. rewrite Hb. lia.
  - apply Byte.of_N_None_iff in Hb. lia.
Qed.

Lemma byte_val_inj b1 b2 : byte_val b1 = byte_val b2 -> b1 = b2.
Proof.
  unfold byte_val. intros H%N2Z.inj.
  pose proof (Byte.of_to_N b1) as H1. pose proof (Byte.of_to_N b2) as H2.
  congruence.
Qed.

Lemma to_byte_val b : to_byte (byte_val b) = b.
Proof.
  apply byte_val_inj. rewrite byte_val_to_byte.
  apply Z.mod_small, byte_val_range.
Qed.

#[export] Instance byte_eq_dec : EqDecision byte := Byte.byte_eq_dec.
#[export] Instance byte_countable : Countable byte :=
  inj_countable Byte.to_N Byte.of_N Byte.of_to_N.

(** [uN::to_be_bytes], for [N = 8 * n]. *)
Fixpoint be_bytes (n : nat) (z : Z) : list byte :=
  match n with
  | O => []
  | S m => to_byte (z / 256 ^ Z.of_nat m) :: be_bytes m z
  end.

(** [uN::from_be_bytes] *)
Fixpoint from_be (l : list byte) : Z :=
  match l with
  | [] => 0
  | b :: l => byte_val b * 256 ^ Z.of_nat (length l) + from_be l
  end.

Lemma length_be_bytes n z : length (be_bytes n z) = n.
Proof. induction n; simpl; congruence. Qed.

Lemma from_be_range l : 0 <= from_be l < 256 ^ Z.of_nat (length l).
Proof.
  induction l as [|b l IH]; simpl; [lia|].
  pose proof (byte_val_range b).
  replace (Z.of_nat (S (length l))) with (Z.of_nat (length l) + 1) by lia.
  rewrite Z.pow_add_r by lia. nia.
Qed.

Lemma from_be_mod n z : from_be (be_bytes n z) = z mod 256 ^ Z.of_nat n.
Proof.
  induction n as [|n IH]; simpl; [by rewrite Z.mod_1_r|].
  rewrite IH, length_be_bytes, byte_val_to_byte.
  replace (Z.of_nat (S n)) with (Z.of_nat n + 1) by lia.
  rewrite Z.pow_add_r by lia. change (256 ^ 1) with 256.
  rewrite (Z.rem_mul_r z) by lia. ring.
Qed.

Lemma from_be_bytes n z : 0 <= z < 256 ^ Z.of_nat n -> from_be (be_bytes n z) = z.
Proof. intros. rewrite from_be_mod. by apply Z.mod_small. Qed.

Lemma be_bytes_mod n z k :
  (n <= k)%nat -> be_bytes n (z mod 256 ^ Z.of_nat k) = be_bytes n z.
Proof.
  intros Hk. induction n as [|n IH]; simpl; [done|].
  f_equal; [|apply IH; lia].
  apply byte_val_inj. rewrite !byte_val_to_byte.
  replace (Z.of_nat k) with (Z.of_nat n + 1 + (Z.of_nat k - Z.of_nat n - 1)) by lia.
  set (a := 256 ^ Z.of_nat n).
  rewrite !Z.pow_add_r by lia. fold a. change (256 ^ 1) with 256.
  set (c := 256 ^ (Z.of_nat k - Z.of_nat n - 1)).
  assert (0 < a) by (apply Z.pow_pos_nonneg; lia).
  assert (0 < c) by (apply Z.pow_pos_nonneg; lia).
  rewrite <- Z.mul_assoc.
  rewrite (Z.rem_mul_r z a (256 * c)) by nia.
  rewrite (Z.mul_comm a), Z.div_add by lia.
  rewrite (Z.div_small (z mod a)) by (apply Z.mod_pos_bound; lia).
  rewrite Z.add_0_l, (Z.rem_mul_r _ 256 c) by lia.
  rewrite (Z.mul_comm 256), Z.mod_add by lia.
  by rewrite Z.mod_mod.
Qed.

Lemma be_bytes_from_be l : be_bytes (length l) (from_be l) = l.
Proof.
  induction l as [|b l IH]; simpl; [done|].
  pose proof (from_be_range l). pose proof (byte_val_range b).
  f_equal.
  - apply byte_val_inj. rewrite byte_val_to_byte.
    rewrite Z.add_comm, Z.div_add by lia.
    rewrite Z.div_small by lia. rewrite Z.add_0_l. by apply Z.mod_small.
  - rewrite <- (be_bytes_mod _ _ (length l)) by lia.
    rewrite (Z.add_comm (byte_val b * _)), Z.mod_add by lia.
    by rewrite Z.mod_small.
Qed.

#[global] Arguments be_bytes : simpl never.

(** * Fixed-size arrays [[u8; N]] *)

(** [<[T; N]>::try_from(slice)] *)
Fixpoint to_arr {A} (n : nat) (l : list A) : option (vec A n) :=
  match n, l with
  | O, [] => Some [#]
  | S n, a :: l => vcons a <$> to_arr n l
  | _, _ => None
  end.

Lemma to_arr_vec {A n} (v : vec A n) : to_arr n (vec_to_list v) = Some v.
Proof. induction v as [|a n v IH]; simpl; [done|]. by rewrite IH. Qed.

Lemma to_arr_Some {A n} (l : list A) (v : vec A n) :
  to_arr n l = Some v <-> l = vec_to_list v.
Proof.
  split; [|intros ->; apply to_arr_vec].
  revert l v; induction n as [|n IH]; intros [|a l] v; simpl; try done.
  - by inv_vec v.
  - destruct (to_arr n l) as [w|] eqn:Hw; simplify_eq/=; [|done].
    intros [= <-]. simpl. f_equal. by apply IH.
Qed.

Lemma to_arr_length {A} n (l : list A) : length l = n -> is_Some (to_arr n l).
Proof.
  revert n; induction l as [|a l IH]; intros n <-; simpl; [by eauto|].
  destruct (IH _ eq_refl) as [w ->]. simpl. by eauto.
Qed.

(** Arrays of bytes as keys of maps, through a code that computes. *)
#[export] Instance arr_countable n : Countable (vec byte n) :=
  inj_countable vec_to_list (to_arr n) to_arr_vec.

(** * Lists *)

(** Point update of a function. *)
Definition fn_upd `{EqDecision A} {B} (x : A) (v : B) (f : A -> B) : A -> B :=
  fun y => if decide (x = y) then v else f y.

Lemma fn_upd_eq `{EqDecision A} {B} (x : A) (v : B) f : fn_upd x v f x = v.
Proof. unfold fn_upd. by rewrite decide_True. Qed.
Lemma fn_upd_ne `{EqDecision A} {B} (x y : A) (v : B) f : y <> x -> fn_upd x v f y = f y.
Proof. intros. unfold fn_upd. by rewrite decide_False. Qed.

Lemma fn_upd_pair `{EqDecision A} `{EqDecision B} {C} (x x' : A) (y y' : B) (v : C) f :
  fn_upd x (fn_upd y v (f x)) f x' y' = if decide ((x, y) = (x', y')) then v else f x' y'.
Proof. unfold fn_upd. by repeat case_decide; simplify_eq. Qed.

(** [Vec::swap_remove] *)
Definition swap_remove {A} (i : nat) (l : list A) : list A :=
  match l !! i, list.last l with
  | Some _, Some z => take (length l - 1) (<[i := z]> l)
  | _, _ => l
  end.

(** Entries in insertion order; [insert] replaces in place or appends. *)
Fixpoint alist_insert {K V} `{EqDecision K} (k : K) (v : V) (l : list (K * V)) :=
  match l with
  | [] => [(k, v)]
  | (k', v') :: l =>
      if decide (k = k') then (k', v) :: l else (k', v') :: alist_insert k v l
  end.

Fixpoint alist_lookup {K V} `{EqDecision K} (k : K) (l : list (K * V)) : option V :=
  match l with
  | [] => None
  | (k', v) :: l => if decide (k = k') then Some v else alist_lookup k l
  end.

Lemma alist_insert_keys {K V} `{EqDecision K} (k : K) (v : V) l :
  (alist_insert k v l).*1 = if decide (k ∈ l.*1) then l.*1 else l.*1 ++ [k].
Proof.
  induction l as [|[k' v'] l IH]; csimpl; [done|].
  destruct (decide (k = k')) as [->|Hne]; csimpl.
  - rewrite decide_True by set_solver. done.
  - rewrite IH. repeat case_decide; set_solver.
Qed.

Lemma alist_insert_fresh {K V} `{EqDecision K} (k : K) (v : V) l :
  k ∉ l.*1 -> alist_insert k v l = l ++ [(k, v)].
Proof.
  induction l as [|[k' v'] l IH]; csimpl; [done|].
  rewrite not_elem_of_cons. intros [Hne Hk].
  rewrite decide_False by done. by rewrite IH.
Qed.

(** [slice::sort_by] is a stable sort: insertion sort is its reference. *)
Fixpoint sort_insert {A} (cmp : A -> A -> comparison) (x : A) (l : list A) :=
  match l with
  | [] => [x]
  | y :: l' =>
      match cmp x y with
      | Gt => y :: sort_insert cmp x l'
      | _ => x :: l
      end
  end.
Definition sort_by {A} (cmp : A -> A -> comparison) (l : list A) : list A :=
  foldr (sort_insert cmp) [] l.

Lemma sort_insert_Permutation {A} (cmp : A -> A -> comparison) x l :
  sort_insert cmp x l ≡ₚ x :: l.
Proof.
  induction l as [|y l IH]; simpl; [done|].
  destruct (cmp x y); try done.
  etransitivity; [apply perm_skip, IH|]. apply perm_swap.
Qed.

Lemma sort_by_Permutation {A} (cmp : A -> A -> comparison) l : sort_by cmp l ≡ₚ l.
Proof.
  induction l as [|x l IH]; [done|].
  change (sort_by cmp (x :: l)) with (sort_insert cmp x (sort_by cmp l)).
  by rewrite sort_insert_Permutation, IH.
Qed.

Lemma sort_by_sorted {A} (cmp : A -> A -> comparison) l :
  (forall x y, cmp x y = Gt -> cmp y x <> Gt) ->
  Sorted (fun x y => cmp x y <> Gt) (sort_by cmp l).
Proof.
  intros Hanti. induction l as [|x l IH]; [constructor|].
  change (sort_by cmp (x :: l)) with (sort_insert cmp x (sort_by cmp l)).
  set (m := sort_by cmp l) in *. clearbody m. clear l.
  induction IH as [|y l Hs IH Hhd]; simpl.
  { repeat constructor. }
  destruct (cmp x y) eqn:Hc.
  - repeat constructor; try done. congruence.
  - repeat constructor; try done. congruence.
  - constructor; [done|].
    destruct l as [|z l]; simpl in *.
    + constructor. by apply Hanti.
    + destruct (cmp x z); constructor; auto.
      by inversion Hhd.
Qed.
