(* ===== verification/External.v ===== *)
(** Interfaces of the third-party crates the workspace calls.

    None of this code is under [src/]: each crate is a class whose fields are
    the operations the sources use, with the documented behaviour of those
    operations as laws.  The development is generic in the instances; the
    [Model] module at the end builds one concrete instance of each class, so
    that witnesses can evaluate the definitions and so that the laws are seen
    to be satisfiable.

    - [U256Lib]: crate [primitive-types], type [U256];
    - [IndexSetLib], [IndexMapLib]: crate [indexmap];
    - [Blake3]: crate [blake3];
    - [XelisHashLib]: crate [xelis_hash];
    - [SledLib]: crate [sled];
    - [HashMapIter]: the unspecified order of the standard [HashMap];
    - [LruLib]: crate [lru]. *)

From S2P Require Import Prelude.

(** ** primitive-types: 256-bit unsigned integers

    The arithmetic operators panic on overflow and on division by zero ([None]
    below); shifts drop the bits that leave the word. *)
Class U256Lib := {
  u256 : Type;
  u256_val : u256 -> Z;
  u256_range u : in_u 256 (u256_val u);
  u256_inj u v : u256_val u = u256_val v -> u = v;

  (* the tuple constructor [U256([u64; 4])], least significant limb first *)
  u256_limbs : Z -> Z -> Z -> Z -> u256;
  u256_limbs_spec a b c d :
    in_u 64 a -> in_u 64 b -> in_u 64 c -> in_u 64 d ->
    u256_val (u256_limbs a b c d) = a + b * 2 ^ 64 + c * 2 ^ 128 + d * 2 ^ 192;
  u256_zero : u256;
  u256_zero_spec : u256_val u256_zero = 0;
  u256_one : u256;
  u256_one_spec : u256_val u256_one = 1;
  u256_max_value : u256;
  u256_max_value_spec : u256_val u256_max_value = 2 ^ 256 - 1;

  u256_to_big_endian : u256 -> vec byte 32;
  u256_to_big_endian_spec u : from_be (u256_to_big_endian u) = u256_val u;
  u256_from_big_endian : list byte -> u256;
  u256_from_big_endian_spec l :
    (length l <= 32)%nat -> u256_val (u256_from_big_endian l) = from_be l;

  u256_add : u256 -> u256 -> option u256;
  u256_add_spec u v :
    u256_val <$> u256_add u v =
      if decide (u256_val u + u256_val v < 2 ^ 256)
      then Some (u256_val u + u256_val v) else None;
  u256_sub : u256 -> u256 -> option u256;
  u256_sub_spec u v :
    u256_val <$> u256_sub u v =
      if decide (u256_val v <= u256_val u)
      then Some (u256_val u - u256_val v) else None;
  u256_mul : u256 -> u256 -> option u256;
  u256_mul_spec u v :
    u256_val <$> u256_mul u v =
      if decide (u256_val u * u256_val v < 2 ^ 256)
      then Some (u256_val u * u256_val v) else None;
  u256_div : u256 -> u256 -> option u256;
  u256_div_spec u v :
    u256_val <$> u256_div u v =
      if decide (u256_val v = 0) then None else Some (u256_val u / u256_val v);
  u256_rem : u256 -> u256 -> option u256;
  u256_rem_spec u v :
    u256_val <$> u256_rem u v =
      if decide (u256_val v = 0) then None else Some (u256_val u mod u256_val v);
  u256_shl : u256 -> Z -> u256;
  u256_shl_spec u n :
    in_u 64 n -> u256_val (u256_shl u n) = (u256_val u * 2 ^ n) mod 2 ^ 256;
  u256_shr : u256 -> Z -> u256;
  u256_shr_spec u n : in_u 64 n -> u256_val (u256_shr u n) = u256_val u / 2 ^ n;
  (* [as_u64] and [as_u128]: conversion with overflow checking *)
  u256_as_u64 : u256 -> option Z;
  u256_as_u64_spec u :
    u256_as_u64 u = if decide (u256_val u < 2 ^ 64) then Some (u256_val u) else None;
  u256_as_u128 : u256 -> option Z;
  u256_as_u128_spec u :
    u256_as_u128 u = if decide (u256_val u < 2 ^ 128) then Some (u256_val u) else None;
}.

#[export] Instance u256_eq_dec `{U256Lib} : EqDecision u256.
Proof.
  intros u v. destruct (decide (u256_val u = u256_val v)) as [E|E].
  - left. by apply u256_inj.
  - right. congruence.
Defined.

(** ** indexmap: a set that remembers the order of insertion

    [iset_list] is the sequence the crate's iterators walk and its indices
    address.  Two sets with the same sequence are identified. *)
Class IndexSetLib (A : Type) `{EqDecision A} := {
  iset : Type;
  iset_list : iset -> list A;
  iset_NoDup s : NoDup (iset_list s);
  iset_ext s t : iset_list s = iset_list t -> s = t;

  iset_new : iset;
  iset_new_spec : iset_list iset_new = [];
  (* [insert]: [false] and no change when the value is already there *)
  iset_insert : A -> iset -> bool * iset;
  iset_insert_spec a s :
    (iset_insert a s).1 = bool_decide (a ∉ iset_list s) /\
    iset_list (iset_insert a s).2 =
      if decide (a ∈ iset_list s) then iset_list s else iset_list s ++ [a];
  (* [shift_remove]: keeps the order of the other elements *)
  iset_shift_remove : A -> iset -> bool * iset;
  iset_shift_remove_spec a s :
    (iset_shift_remove a s).1 = bool_decide (a ∈ iset_list s) /\
    iset_list (iset_shift_remove a s).2 = filter (fun x => x <> a) (iset_list s);
  (* [swap_remove_index]: the last element takes the place of the removed one *)
  iset_swap_remove_index : nat -> iset -> option A * iset;
  iset_swap_remove_index_spec i s :
    (iset_swap_remove_index i s).1 = iset_list s !! i /\
    iset_list (iset_swap_remove_index i s).2 = swap_remove i (iset_list s);
  (* [retain]: keeps the elements that pass the test, in order *)
  iset_retain : (A -> bool) -> iset -> iset;
  iset_retain_spec f s :
    iset_list (iset_retain f s) = filter (fun x => f x = true) (iset_list s);
  (* [pop]: removes the last element *)
  iset_pop : iset -> option (A * iset);
  iset_pop_spec s :
    match iset_pop s with
    | None => iset_list s = []
    | Some (a, s') => iset_list s = iset_list s' ++ [a]
    end;
}.

Section IndexSetDerived.
Context `{IndexSetLib A}.

(** Observers, read off the iteration sequence. *)
Definition iset_len (s : iset) : nat := length (iset_list s).
Definition iset_contains (a : A) (s : iset) : bool :=
  bool_decide (a ∈ iset_list s).
Definition iset_get_index (i : nat) (s : iset) : option A := iset_list s !! i.
Definition iset_is_empty (s : iset) : bool :=
  match iset_list s with [] => true | _ => false end.

(** [IndexSet::extend], and [collect] on top of it *)
Definition iset_extend (s : iset) (l : list A) : iset :=
  foldl (fun s a => (iset_insert a s).2) s l.

#[export] Instance iset_eq_dec : EqDecision iset.
Proof.
  intros s t. destruct (decide (iset_list s = iset_list t)) as [E|E].
  - left. by apply iset_ext.
  - right. congruence.
Defined.

Lemma iset_insert_fresh a s :
  a ∉ iset_list s ->
  exists s', iset_insert a s = (true, s') /\ iset_list s' = iset_list s ++ [a].
Proof.
  intros Ha. destruct (iset_insert_spec a s) as [H1 H2].
  rewrite decide_False in H2 by done. rewrite bool_decide_true in H1 by done.
  destruct (iset_insert a s); naive_solver.
Qed.

Lemma iset_insert_dup a s :
  a ∈ iset_list s -> iset_insert a s = (false, s).
Proof.
  intros Ha. destruct (iset_insert_spec a s) as [H1 H2].
  rewrite decide_True in H2 by done.
  rewrite bool_decide_false in H1 by naive_solver.
  apply iset_ext in H2. destruct (iset_insert a s); naive_solver.
Qed.

Lemma iset_insert_true a s s' :
  iset_insert a s = (true, s') ->
  (a ∉ iset_list s) /\ iset_list s' = iset_list s ++ [a].
Proof.
  intros Hi. destruct (decide (a ∈ iset_list s)) as [Ha|Ha].
  - by rewrite (iset_insert_dup _ _ Ha) in Hi.
  - split; [done|]. destruct (iset_insert_fresh _ _ Ha) as (s1 & H1 & H2).
    congruence.
Qed.

Lemma iset_extend_list s l :
  NoDup (iset_list s ++ l) -> iset_list (iset_extend s l) = iset_list s ++ l.
Proof.
  revert s. induction l as [|a l IH]; intros s Hnd; simpl.
  - by rewrite app_nil_r.
  - assert (a ∉ iset_list s) as Ha.
    { intros Ha. apply list.NoDup_app in Hnd as (_ & Hd & _).
      apply (Hd a Ha). left. }
    destruct (iset_insert_fresh _ _ Ha) as (s' & -> & Hs'). simpl.
    rewrite IH; rewrite Hs', <- app_assoc; done.
Qed.
End IndexSetDerived.
Arguments iset A {_ _}.

(** ** indexmap: a map that remembers the order of insertion *)
Class IndexMapLib (K V : Type) `{EqDecision K} := {
  imap : Type;
  imap_list : imap -> list (K * V);
  imap_NoDup m : NoDup (imap_list m).*1;
  imap_ext m n : imap_list m = imap_list n -> m = n;

  imap_new : imap;
  imap_new_spec : imap_list imap_new = [];
  (* [insert] replaces the value in place, or appends a new entry *)
  imap_insert : K -> V -> imap -> imap;
  imap_insert_spec k v m :
    imap_list (imap_insert k v m) = alist_insert k v (imap_list m);
  imap_shift_remove : K -> imap -> imap;
  imap_shift_remove_spec k m :
    imap_list (imap_shift_remove k m) = filter (fun p => p.1 <> k) (imap_list m);
}.
Arguments imap K V {_ _}.

Section IndexMapDerived.
Context `{IndexMapLib K V}.
Definition imap_get (k : K) (m : imap K V) : option V :=
  alist_lookup k (imap_list m).
Definition imap_contains_key (k : K) (m : imap K V) : bool :=
  bool_decide (k ∈ (imap_list m).*1).
Definition imap_last (m : imap K V) : option (K * V) := list.last (imap_list m).
Definition imap_len (m : imap K V) : nat := length (imap_list m).
End IndexMapDerived.

(** ** blake3: a deterministic hash function onto 32 bytes *)
Class Blake3 := { blake3_hash : list byte -> vec byte 32 }.

(** ** xelis_hash: the proof-of-work hash

    The input is copied into an aligned buffer of a fixed length, whose slice
    is refused when it is misaligned.  The scratch pad is working memory: the
    hash is a function of the input alone. *)
Class XelisHashLib := {
  xelis_hash_error : Type;
  bytes_array_input : nat;
  bytes_array_input_min : (112 <= bytes_array_input)%nat;
  aligned_input : Type;
  aligned_default : aligned_input;
  (* [as_mut_slice]: reading the slice, and writing through it *)
  aligned_slice : aligned_input -> res xelis_hash_error (list byte);
  aligned_put : list byte -> aligned_input -> aligned_input;
  aligned_slice_length a l : aligned_slice a = Ok l -> length l = bytes_array_input;
  aligned_slice_put a l l' :
    aligned_slice a = Ok l -> length l' = bytes_array_input ->
    aligned_slice (aligned_put l' a) = Ok l';
  scratch_pad : Type;
  scratch_default : scratch_pad;
  xelis_hash : list byte -> scratch_pad -> res xelis_hash_error (vec byte 32) * scratch_pad;
  xelis_hash_scratch l s s' : (xelis_hash l s).1 = (xelis_hash l s').1;
}.

(** ** sled: an ordered map from byte strings to byte strings

    A tree is observed through its contents.  Failures of the disk are not
    modelled. *)
Class SledLib := {
  tree : Type;
  tree_map : tree -> gmap (list byte) (list byte);
  tree_empty : tree;
  tree_empty_spec : tree_map tree_empty = ∅;
  tree_get : list byte -> tree -> option (list byte);
  tree_get_spec k t : tree_get k t = tree_map t !! k;
  (* [insert] and [remove] return the previous value *)
  tree_insert : list byte -> list byte -> tree -> option (list byte) * tree;
  tree_insert_spec k v t :
    (tree_insert k v t).1 = tree_map t !! k /\ tree_map (tree_insert k v t).2 = <[k := v]> (tree_map t);
  tree_remove : list byte -> tree -> option (list byte) * tree;
  tree_remove_spec k t :
    (tree_remove k t).1 = tree_map t !! k /\ tree_map (tree_remove k t).2 = delete k (tree_map t);
  tree_len : tree -> nat;
  tree_len_spec t : tree_len t = base.size (tree_map t);
  (* [iter]: every entry once *)
  tree_iter : tree -> list (list byte * list byte);
  tree_iter_spec t : tree_iter t ≡ₚ map_to_list (tree_map t);
}.

Section SledDerived.
Context {SL : SledLib}.
Definition tree_contains (k : list byte) (t : tree) : bool :=
  match tree_get k t with Some _ => true | None => false end.

(** [scan_prefix]: the entries whose key starts with [p]. *)
Definition tree_scan_prefix (p : list byte) (t : tree) : list (list byte * list byte) :=
  filter (fun kv => take (length p) kv.1 = p) (tree_iter t).

Lemma tree_scan_prefix_spec p t k v :
  (k, v) ∈ tree_scan_prefix p t <-> take (length p) k = p /\ tree_get k t = Some v.
Proof.
  unfold tree_scan_prefix. rewrite list_elem_of_filter, tree_iter_spec, elem_of_map_to_list, tree_get_spec.
  done.
Qed.

Lemma tree_scan_prefix_NoDup p t : NoDup (tree_scan_prefix p t).*1.
Proof.
  eapply sublist_NoDup; [|apply fmap_sublist, sublist_filter].
  rewrite tree_iter_spec. apply NoDup_fst_map_to_list.
Qed.

Lemma tree_get_empty k : tree_get k tree_empty = None.
Proof. by rewrite tree_get_spec, tree_empty_spec. Qed.
Lemma tree_get_remove k t : tree_get k (tree_remove k t).2 = None.
Proof. rewrite tree_get_spec. destruct (tree_remove_spec k t) as [_ ->]. apply lookup_delete_eq. Qed.
Lemma tree_get_remove_ne k k' t : k <> k' -> tree_get k' (tree_remove k t).2 = tree_get k' t.
Proof.
  intros Hne. rewrite !tree_get_spec. destruct (tree_remove_spec k t) as [_ ->].
  by apply lookup_delete_ne.
Qed.
Lemma tree_insert_old k v t : (tree_insert k v t).1 = tree_get k t.
Proof. rewrite tree_get_spec. by destruct (tree_insert_spec k v t). Qed.
Lemma tree_remove_old k t : (tree_remove k t).1 = tree_get k t.
Proof. rewrite tree_get_spec. by destruct (tree_remove_spec k t). Qed.

Lemma tree_len_insert k v t :
  tree_len (tree_insert k v t).2 = match tree_get k t with Some _ => tree_len t | None => S (tree_len t) end.
Proof.
  rewrite !tree_len_spec, tree_get_spec. destruct (tree_insert_spec k v t) as [_ ->].
  by rewrite map_size_insert; destruct (tree_map t !! k).
Qed.
Lemma tree_len_remove k t :
  tree_len (tree_remove k t).2 = match tree_get k t with Some _ => Nat.pred (tree_len t) | None => tree_len t end.
Proof.
  rewrite !tree_len_spec, tree_get_spec. destruct (tree_remove_spec k t) as [_ ->].
  by rewrite map_size_delete; destruct (tree_map t !! k).
Qed.
Lemma tree_len_pos k v t : tree_get k t = Some v -> (0 < tree_len t)%nat.
Proof.
  rewrite tree_len_spec, tree_get_spec. intros Hk.
  assert (base.size (tree_map t) <> 0)%nat; [|lia]. apply map_size_ne_0_lookup_2 with k. by eauto.
Qed.

(** Distinct keys that are in the tree are at most [tree_len]. *)
Lemma tree_len_bound t (l : list (list byte)) :
  NoDup l -> (forall k, k ∈ l -> is_Some (tree_get k t)) -> (length l <= tree_len t)%nat.
Proof.
  intros Hnd Hl. rewrite tree_len_spec, <- size_dom, <- (size_list_to_set (C:=gset (list byte)) l) by done.
  apply subseteq_size. intros k Hk%elem_of_list_to_set. apply elem_of_dom. rewrite <- tree_get_spec. auto.
Qed.

Lemma tree_get_insert k v t : tree_get k (tree_insert k v t).2 = Some v.
Proof. rewrite tree_get_spec. destruct (tree_insert_spec k v t) as [_ ->]. apply lookup_insert_eq. Qed.
Lemma tree_get_insert_ne k k' v t : k <> k' -> tree_get k' (tree_insert k v t).2 = tree_get k' t.
Proof.
  intros Hne. rewrite !tree_get_spec. destruct (tree_insert_spec k v t) as [_ ->].
  by apply lookup_insert_ne.
Qed.
End SledDerived.

(** ** std: the iteration order of a [HashMap]

    The order in which a [HashMap] is iterated or drained is not specified:
    it is any arrangement of the entries. *)
Class HashMapIter := {
  hm_iter {K A : Type} `{Countable K} : gmap K A -> list (K * A);
  hm_iter_spec {K A : Type} `{Countable K} (m : gmap K A) : hm_iter m ≡ₚ map_to_list m;
}.

(** A [HashSet] is a [HashMap] without values, and as unordered. *)
Definition hs_iter `{HashMapIter} `{Countable A} (s : gset A) : list A := (hm_iter (gset_to_gmap () s)).*1.

Lemma hs_iter_spec `{HashMapIter} `{Countable A} (s : gset A) : hs_iter s ≡ₚ elements s.
Proof.
  unfold hs_iter. apply NoDup_Permutation.
  - rewrite hm_iter_spec. apply NoDup_fst_map_to_list.
  - apply NoDup_elements.
  - intros a. rewrite hm_iter_spec, elem_of_elements, list_elem_of_fmap. split.
    + by intros ([b []] & -> & [? _]%elem_of_map_to_list%lookup_gset_to_gmap_Some).
    + intros Ha. exists (a, ()). split; [done|]. apply elem_of_map_to_list. by apply lookup_gset_to_gmap_Some.
Qed.

(** ** lru: bounded caches

    A cache only ever answers with a value that was put under the key and not
    replaced since; what it forgets, and when, is not promised. *)
Class LruLib (K V : Type) := {
  lru : Type;
  lru_new : nat -> lru;
  lru_holds : lru -> K -> V -> Prop;
  lru_get : K -> lru -> option V * lru;
  lru_put : K -> V -> lru -> lru;
  lru_new_spec n k v : ~ lru_holds (lru_new n) k v;
  lru_get_some k c v : (lru_get k c).1 = Some v -> lru_holds c k v;
  lru_get_keeps k c k' v : lru_holds (lru_get k c).2 k' v -> lru_holds c k' v;
  lru_put_holds k v c k' v' : lru_holds (lru_put k v c) k' v' ->
    (k' = k /\ v' = v) \/ (k' <> k /\ lru_holds c k' v');
}.
Arguments lru K V {_}.
