(* ===== verification/ExternalModel.v ===== *)
(** Concrete instances of the interfaces of [External].

    They are definitions, not registered instances: a theorem stays generic
    in the crates, and a witness picks the model explicitly.  Building them
    discharges every law of every interface. *)

From S2P Require Import Prelude External.

(** ** 256-bit integers as range-checked [Z] *)

Definition m256 : Type := dsig (in_u 256).
Definition m256_mk (z : Z) : option m256 :=
  match decide (in_u 256 z) with left H => Some (dexist z H) | right _ => None end.
Definition m256_wrap (z : Z) : m256 :=
  dexist (wrap 256 z) (wrap_range 256 z ltac:(lia)).

Lemma m256_range (u : m256) : in_u 256 (`u).
Proof. apply (proj2_dsig u). Qed.

Lemma m256_inj (u v : m256) : `u = `v -> u = v.
Proof. apply dsig_eq. Qed.

Lemma m256_mk_spec z :
  proj1_sig <$> m256_mk z = if decide (in_u 256 z) then Some z else None.
Proof. unfold m256_mk. by destruct (decide (in_u 256 z)). Qed.

Lemma m256_mk_pos z :
  0 <= z ->
  proj1_sig <$> m256_mk z = if decide (z < 2 ^ 256) then Some z else None.
Proof.
  intros. rewrite m256_mk_spec. unfold in_u. repeat case_decide; lia || done.
Qed.

Lemma m256_wrap_small z : in_u 256 z -> proj1_sig (m256_wrap z) = z.
Proof. intros. unfold m256_wrap; simpl. by apply wrap_small. Qed.

Definition m256_be (u : m256) : vec byte 32 :=
  default (vreplicate 32 x00) (to_arr 32 (be_bytes 32 (`u))).

Lemma m256_be_spec u : from_be (m256_be u) = `u.
Proof.
  unfold m256_be.
  destruct (to_arr_length 32 (be_bytes 32 (`u))) as [v Hv].
  { apply length_be_bytes. }
  rewrite Hv; simpl. apply to_arr_Some in Hv. rewrite <- Hv.
  apply from_be_bytes. apply m256_range.
Qed.

Lemma from_be_in_u256 l : (length l <= 32)%nat -> in_u 256 (from_be l).
Proof.
  intros Hl. pose proof (from_be_range l). unfold in_u.
  change (2 ^ 256) with (256 ^ 32).
  assert (256 ^ Z.of_nat (length l) <= 256 ^ 32) by (apply Z.pow_le_mono_r; lia).
  lia.
Qed.

Lemma div_le_self a b : 0 <= a -> 0 < b -> a / b <= a.
Proof. intros. apply Z.div_le_upper_bound; [lia|]. nia. Qed.

Ltac m256_op :=
  intros u v; cbv beta; destruct (m256_range u) as [Hu Hu']; destruct (m256_range v) as [Hv Hv'];
  rewrite m256_mk_spec;
  match goal with |- (if decide ?P then _ else _) = _ =>
    destruct (decide P) as [[]|Hn]; [|apply Decidable.not_and in Hn; [|unfold Decidable.decidable; lia]] end;
  case_decide; try done; exfalso; lia || nia.

Program Definition u256_model : U256Lib := {|
  u256 := m256;
  u256_val := proj1_sig;
  u256_range := m256_range;
  u256_inj := m256_inj;
  u256_limbs a b c d := m256_wrap (a + b * 2 ^ 64 + c * 2 ^ 128 + d * 2 ^ 192);
  u256_zero := m256_wrap 0;
  u256_one := m256_wrap 1;
  u256_max_value := m256_wrap (2 ^ 256 - 1);
  u256_to_big_endian := m256_be;
  u256_to_big_endian_spec := m256_be_spec;
  u256_from_big_endian l := m256_wrap (from_be l);
  u256_add u v := m256_mk (`u + `v);
  u256_sub u v := m256_mk (`u - `v);
  u256_mul u v := m256_mk (`u * `v);
  u256_div u v := if decide (`v = 0) then None else m256_mk (`u / `v);
  u256_rem u v := if decide (`v = 0) then None else m256_mk (`u mod `v);
  u256_shl u n := m256_wrap (`u * 2 ^ n);
  u256_shr u n := m256_wrap (`u / 2 ^ n);
  u256_as_u64 u := if decide (`u < 2 ^ 64) then Some (`u) else None;
  u256_as_u128 u := if decide (`u < 2 ^ 128) then Some (`u) else None;
|}.
Next Obligation. intros a b c d Ha Hb Hc Hd. unfold in_u in *. apply Z.mod_small. lia. Qed.
Next Obligation. reflexivity. Qed.
Next Obligation. reflexivity. Qed.
Next Obligation. reflexivity. Qed.
Next Obligation. intros l Hl. by apply m256_wrap_small, from_be_in_u256. Qed.
Next Obligation. m256_op. Qed.
Next Obligation. m256_op. Qed.
Next Obligation. m256_op. Qed.
Next Obligation.
  intros u v. cbv beta. case_decide; [done|].
  destruct (m256_range u) as [Hu Hu'], (m256_range v) as [Hv Hv'].
  rewrite m256_mk_pos by (apply Z.div_pos; lia).
  rewrite decide_True; [done|].
  apply Z.le_lt_trans with (`u); [|lia]. apply div_le_self; lia.
Qed.
Next Obligation.
  intros u v. cbv beta. case_decide; [done|].
  destruct (m256_range u) as [Hu Hu'], (m256_range v) as [Hv Hv'].
  pose proof (Z.mod_pos_bound (`u) (`v)).
  rewrite m256_mk_pos by lia. rewrite decide_True; [done|lia].
Qed.
Next Obligation. intros u n Hn. done. Qed.
Next Obligation.
  intros u n [Hn _]. apply m256_wrap_small. destruct (m256_range u) as [Hu Hu'].
  assert (0 < 2 ^ n) by (apply Z.pow_pos_nonneg; lia).
  split; [apply Z.div_pos; lia|].
  apply Z.le_lt_trans with (`u); [|lia]. apply div_le_self; lia.
Qed.
Next Obligation. done. Qed.
Next Obligation. done. Qed.

(** ** Insertion-ordered sets and maps as duplicate-free lists *)

Section IndexModels.
Context {A : Type} `{EqDecision A}.

Lemma swap_remove_NoDup i (l : list A) : NoDup l -> NoDup (swap_remove i l).
Proof.
  intros Hl. unfold swap_remove.
  destruct (l !! i) as [x|] eqn:Hi; [|done].
  destruct (list.last l) as [z|] eqn:Hz; [|done].
  apply last_Some in Hz as [l' ->].
  rewrite length_app; simpl.
  replace (length l' + 1 - 1)%nat with (length l') by lia.
  apply list.NoDup_app in Hl as (Hl' & Hd & _).
  destruct (decide (i < length l')%nat) as [Hlt|Hge].
  - rewrite insert_app_l by done.
    rewrite <- (length_insert l' i z) at 1. rewrite take_app_length.
    apply NoDup_alt. intros j k y Hj Hk.
    rewrite !list_lookup_insert in Hj, Hk.
    assert (forall n, l' !! n = Some z -> False) as Hz.
    { intros n Hn%list_elem_of_lookup_2. apply (Hd z Hn). left. }
    repeat case_decide; destruct_and?; simplify_eq; try (exfalso; by eauto).
    + congruence.
    + by eapply NoDup_lookup.
  - rewrite insert_app_r_alt by lia.
    by rewrite take_app_length.
Qed.

Lemma swap_remove_last_or (l : list A) i : l !! i = None -> swap_remove i l = l.
Proof. unfold swap_remove. by intros ->. Qed.

Definition mset : Type := dsig (fun l : list A => NoDup l).
Definition mset_mk (l : list A) : mset :=
  match decide (NoDup l) with left H => dexist l H | right _ => dexist [] (NoDup_nil_2) end.

Lemma mset_mk_list l : NoDup l -> proj1_sig (mset_mk l) = l.
Proof. intros. unfold mset_mk. by destruct (decide (NoDup l)). Qed.

Lemma mset_NoDup (s : mset) : NoDup (`s).
Proof. apply (proj2_dsig s). Qed.

Definition mset_pop (s : mset) : option (A * mset) :=
  match list.last (`s) with
  | None => None
  | Some a => Some (a, mset_mk (take (length (`s) - 1) (`s)))
  end.

Program Definition iset_model : IndexSetLib A := {|
  iset := mset;
  iset_list := proj1_sig;
  iset_NoDup := mset_NoDup;
  iset_new := mset_mk [];
  iset_insert a s :=
    if decide (a ∈ `s) then (false, s) else (true, mset_mk (`s ++ [a]));
  iset_shift_remove a s :=
    (bool_decide (a ∈ `s), mset_mk (filter (fun x => x <> a) (`s)));
  iset_swap_remove_index i s := (`s !! i, mset_mk (swap_remove i (`s)));
  iset_retain f s := mset_mk (filter (fun x => f x = true) (`s));
  iset_pop := mset_pop;
|}.
Next Obligation. intros s t. apply dsig_eq. Qed.
Next Obligation. apply mset_mk_list. constructor. Qed.
Next Obligation.
  intros a s. cbv beta.
  repeat match goal with |- context [@decide ?P ?I] =>
    destruct (@decide P I) as [Ha|Ha]; try contradiction end;
  simpl; (split; [by apply eq_sym, bool_decide_eq_true || apply eq_sym, bool_decide_eq_false; naive_solver|]).
  { done. }
  apply mset_mk_list. apply list.NoDup_app. split_and!.
  - apply mset_NoDup.
  - intros x Hx ->%list_elem_of_singleton. done.
  - apply NoDup_singleton.
Qed.
Next Obligation.
  intros a s. split; [done|]. apply mset_mk_list, list.NoDup_filter, mset_NoDup.
Qed.
Next Obligation.
  intros i s. split; [done|]. apply mset_mk_list, swap_remove_NoDup, mset_NoDup.
Qed.
Next Obligation. intros f s. apply mset_mk_list, list.NoDup_filter, mset_NoDup. Qed.
Next Obligation.
  intros s. unfold mset_pop. destruct (list.last (`s)) as [a|] eqn:Ha; [|by apply last_None].
  apply last_Some in Ha as [l' Hl'].
  assert (NoDup (l' ++ [a])) as Hs by (rewrite <- Hl'; apply mset_NoDup).
  rewrite Hl'.
  rewrite length_app; simpl.
  replace (length l' + 1 - 1)%nat with (length l') by lia.
  rewrite take_app_length. rewrite mset_mk_list; [done|].
  by apply list.NoDup_app in Hs as [? _].
Qed.
End IndexModels.
Arguments iset_model A {_}.

Section IndexMapModel.
Context {K V : Type} `{EqDecision K}.

Definition mmap : Type := dsig (fun l : list (K * V) => NoDup l.*1).
Definition mmap_mk (l : list (K * V)) : mmap :=
  match decide (NoDup l.*1) with
  | left H => dexist l H
  | right _ => dexist [] (NoDup_nil_2 : NoDup ([] : list (K * V)).*1)
  end.

Lemma mmap_mk_list l : NoDup l.*1 -> proj1_sig (mmap_mk l) = l.
Proof. intros. unfold mmap_mk. by destruct (decide (NoDup l.*1)). Qed.

Lemma mmap_NoDup (m : mmap) : NoDup (`m).*1.
Proof. apply (proj2_dsig m). Qed.

Program Definition imap_model : IndexMapLib K V := {|
  imap := mmap;
  imap_list := proj1_sig;
  imap_NoDup := mmap_NoDup;
  imap_new := mmap_mk [];
  imap_insert k v m := mmap_mk (alist_insert k v (`m));
  imap_shift_remove k m := mmap_mk (filter (fun p => p.1 <> k) (`m));
|}.
Next Obligation.
  intros m n. apply dsig_eq.
Qed.
Next Obligation. apply mmap_mk_list. apply NoDup_nil_2. Qed.
Next Obligation.
  intros k v m. apply mmap_mk_list. rewrite alist_insert_keys.
  pose proof (mmap_NoDup m). case_decide; [done|].
  apply list.NoDup_app. split_and!; [done| |apply NoDup_singleton].
  by intros x Hx ->%list_elem_of_singleton.
Qed.
Next Obligation.
  intros k m. apply mmap_mk_list.
  eapply sublist_NoDup; [apply mmap_NoDup|].
  apply fmap_sublist, sublist_filter.
Qed.
End IndexMapModel.
Arguments imap_model K V {_}.

(** ** A toy hash: the big-endian value of the input modulo 2^256 *)
Definition blake3_model : Blake3 := {|
  blake3_hash l :=
    let v := foldl (fun a b => (a * 256 + byte_val b) mod 2 ^ 256) 0 l in
    default (vreplicate 32 x00) (to_arr 32 (be_bytes 32 v))
|}.

(** ** A proof-of-work hash on buffers of 200 bytes *)
Program Definition xelis_hash_model : XelisHashLib := {|
  xelis_hash_error := unit;
  bytes_array_input := 200;
  aligned_input := vec byte 200;
  aligned_default := vreplicate 200 x00;
  aligned_slice a := Ok (vec_to_list a);
  aligned_put l a := default a (to_arr 200 l);
  scratch_pad := unit;
  scratch_default := tt;
  xelis_hash l s := (Ok (@blake3_hash blake3_model l), s);
|}.
Next Obligation. lia. Qed.
Next Obligation. intros a l [= <-]. apply length_vec_to_list. Qed.
Next Obligation.
  intros a l l' _ Hl. destruct (to_arr_length 200 l' Hl) as [v Hv]. cbv beta.
  rewrite Hv. simpl. f_equal. symmetry. by apply to_arr_Some.
Qed.
Next Obligation. done. Qed.

(** ** A tree that is its contents *)
Program Definition sled_model : SledLib := {|
  tree := gmap (list byte) (list byte);
  tree_map t := t;
  tree_empty := ∅;
  tree_get k t := t !! k;
  tree_insert k v t := (t !! k, <[k := v]> t);
  tree_remove k t := (t !! k, delete k t);
  tree_len t := base.size t;
  tree_iter t := map_to_list t;
|}.
Solve All Obligations with done.

(** ** Hash maps iterated as [map_to_list] *)
Program Definition hash_map_model : HashMapIter := {|
  hm_iter K A _ _ m := map_to_list m;
|}.
Next Obligation. done. Qed.

(** ** A cache that forgets nothing *)
Program Definition lru_model (K V : Type) `{Countable K} : LruLib K V := {|
  lru := gmap K V;
  lru_new _ := ∅;
  lru_holds c k v := c !! k = Some v;
  lru_get k c := (c !! k, c);
  lru_put k v c := <[k := v]> c;
|}.
Next Obligation. intros K V ? ? n k v. simpl. by rewrite lookup_empty. Qed.
Next Obligation. done. Qed.
Next Obligation. done. Qed.
Next Obligation. intros K V ? ? k v c k' v' [[<- <-]|[? ?]]%lookup_insert_Some; auto. Qed.
