(* ===== verification/Serializer.v ===== *)
(** The serializer of [xelis_common]: [Reader], [Writer], the trait
    [Serializer], and the implementations of [serializer/defaults.rs].

    A reader is the byte buffer and the count of bytes already read, as in
    [reader.rs]; a reading function is a state-passing computation that fails
    with a [ReaderError].  The class [Codec] states what every client needs of
    a reading function: it inverts its encoder at any position of any buffer,
    it never panics and it only moves forward.  [CodecCanon] adds that it
    accepts no other encoding of the value it returns. *)

From S2P Require Import Prelude External.

Inductive ReaderError :=
  | InvalidSize
  | InvalidValue
  | InvalidHex
  | ErrorTryInto
  | TryFromSliceError
  | AnyError.

Record Reader := mkReader { bytes : list byte; total : nat }.
Record Writer := mkWriter { wbytes : list byte }.

Definition rd (A : Type) : Type := Reader -> res ReaderError (A * Reader).

#[export] Instance rd_ret : MRet rd := fun A a r => Ok (a, r).
#[export] Instance rd_bind : MBind rd := fun A B f m r =>
  match m r with
  | Ok (a, r') => f a r'
  | Err e => Err e
  | Panic => Panic
  | Diverge => Diverge
  end.
Definition rd_err {A} (e : ReaderError) : rd A := fun _ => Err e.
#[global] Typeclasses Opaque rd.

(** ** reader.rs *)
Module Reader.

Definition new (bytes : list byte) : Reader := mkReader bytes 0.

Definition total_size (r : Reader) : nat := length r.(bytes).
Definition size (r : Reader) : nat := (length r.(bytes) - r.(total))%nat.
Definition total_read (r : Reader) : nat := r.(total).

(** [&bytes[a..b]] panics when the range is not inside the slice. *)
Definition slice (l : list byte) (a b : nat) : res ReaderError (list byte) :=
  if bool_decide (a <= b <= length l)%nat then Ok (take (b - a) (drop a l)) else Panic.

Definition read_bytes {T} (try_into : list byte -> option T) (n : nat) : rd T := fun r =>
  if bool_decide (size r < n)%nat then Err InvalidSize
  else
    s ← slice r.(bytes) r.(total) (r.(total) + n);
    match try_into s with
    | Some v => Ok (v, mkReader r.(bytes) (r.(total) + n))
    | None => Err ErrorTryInto
    end.

Definition read_bytes_ref (n : nat) : rd (list byte) := fun r =>
  if bool_decide (size r < n)%nat then Err InvalidSize
  else
    s ← slice r.(bytes) r.(total) (r.(total) + n);
    Ok (s, mkReader r.(bytes) (r.(total) + n)).

Definition read_array (n : nat) : rd (vec byte n) := read_bytes (to_arr n) n.
Definition read_bytes_32 : rd (vec byte 32) := read_array 32.
Definition read_bytes_64 : rd (vec byte 64) := read_array 64.

Definition read_u8 : rd Z := fun r =>
  if bool_decide (size r = 0%nat) then Err InvalidSize
  else
    match r.(bytes) !! r.(total) with
    | Some b => Ok (byte_val b, mkReader r.(bytes) (r.(total) + 1))
    | None => Panic
    end.

(** [uN::from_be_bytes(self.read_bytes(n)?)] *)
Definition read_be (n : nat) : rd Z :=
  b ← read_array n; mret (from_be (vec_to_list b)).
Definition read_u16 : rd Z := read_be 2.
Definition read_u32 : rd Z := read_be 4.
Definition read_u64 : rd Z := read_be 8.
Definition read_u128 : rd Z := read_be 16.

Definition read_bool : rd bool :=
  b ← read_u8;
  if b =? 0 then mret false
  else if b =? 1 then mret true
  else rd_err InvalidValue.

Definition read_optional_non_zero_u8 : rd (option Z) :=
  byte ← read_u8;
  if byte =? 0 then mret None else mret (Some byte).
End Reader.

(** ** writer.rs *)
Module Writer.
Definition new : Writer := mkWriter [].
Definition write_bytes (b : list byte) (w : Writer) : Writer :=
  mkWriter (w.(wbytes) ++ b).
Definition write_bool (v : bool) (w : Writer) : Writer :=
  mkWriter (w.(wbytes) ++ [to_byte (if v then 1 else 0)]).
Definition write_u8 (v : Z) (w : Writer) : Writer := mkWriter (w.(wbytes) ++ [to_byte v]).
Definition write_u16 (v : Z) (w : Writer) : Writer := mkWriter (w.(wbytes) ++ be_bytes 2 v).
Definition write_u32 (v : Z) (w : Writer) : Writer := mkWriter (w.(wbytes) ++ be_bytes 4 v).
Definition write_u64 (v : Z) (w : Writer) : Writer := mkWriter (w.(wbytes) ++ be_bytes 8 v).
Definition write_u128 (v : Z) (w : Writer) : Writer := mkWriter (w.(wbytes) ++ be_bytes 16 v).
Definition write_optional_non_zero_u8 (opt : option Z) (w : Writer) : Writer :=
  match opt with
  | Some v => if v =? 0 then mkWriter (w.(wbytes) ++ [to_byte 0])
              else mkWriter (w.(wbytes) ++ [to_byte v])
  | None => mkWriter (w.(wbytes) ++ [to_byte 0])
  end.
Definition total_write (w : Writer) : nat := length w.(wbytes).
End Writer.

(** ** serializer/mod.rs: the trait *)
Class Serializer (A : Type) := {
  write : A -> Writer -> Writer;
  read : rd A;
  size : A -> nat;
}.

Section Trait.
Context {A : Type}.

Definition to_bytes `{Serializer A} (x : A) : list byte := wbytes (write x Writer.new).
(** [from_bytes]: trailing bytes are not looked at. *)
Definition from_bytes `{Serializer A} (b : list byte) : res ReaderError A :=
  p ← read (Reader.new b); Ok p.1.
(** The default body of [size]. *)
Definition default_size (w : A -> Writer -> Writer) (x : A) : nat :=
  Writer.total_write (w x Writer.new).
End Trait.

(** ** What a reading function promises *)

(** The reader that has consumed [pre] and still has [post] to read. *)
Definition reader_at (pre post : list byte) : Reader :=
  mkReader (pre ++ post) (length pre).

Class Codec (A : Type) (enc : A -> list byte) (dec : rd A) (wf : A -> Prop) : Prop := {
  codec_rt x pre post :
    wf x -> dec (reader_at pre (enc x ++ post)) = Ok (x, reader_at (pre ++ enc x) post);
  codec_safe pre post :
    match dec (reader_at pre post) with
    | Ok (_, r) => exists c post', post = c ++ post' /\ r = reader_at (pre ++ c) post'
    | Err _ => True
    | Panic | Diverge => False
    end;
}.

Class CodecCanon (A : Type) (enc : A -> list byte) (dec : rd A) (wf : A -> Prop) : Prop := {
  codec_canon_codec :: Codec A enc dec wf;
  codec_sound pre post x r :
    dec (reader_at pre post) = Ok (x, r) ->
    wf x /\ exists post', post = enc x ++ post' /\ r = reader_at (pre ++ enc x) post';
}.
#[export] Hint Mode Codec + - + - : typeclass_instances.
#[export] Hint Mode CodecCanon + - + - : typeclass_instances.

Abbreviation codec_of H := (@codec_canon_codec _ _ _ _ H).

(** The promise of an implementation of the trait. *)
Class SerOk (A : Type) `{Serializer A} := {
  ser_wf : A -> Prop;
  ser_append x w : write x w = Writer.write_bytes (to_bytes x) w;
  ser_codec :: Codec A to_bytes read ser_wf;
}.
Class SerCanon (A : Type) `{SerOk A} : Prop := {
  ser_canon :: CodecCanon A to_bytes read ser_wf;
}.
(** The hand-written [size] agrees with what [write] produces. *)
Class SerSize (A : Type) `{SerOk A} : Prop := {
  ser_size x : ser_wf x -> size x = length (to_bytes x);
}.

Lemma mk_codec_canon {A} (enc : A -> list byte) (dec : rd A) (wf : A -> Prop) :
  (forall x pre post,
     wf x -> dec (reader_at pre (enc x ++ post)) = Ok (x, reader_at (pre ++ enc x) post)) ->
  (forall pre post,
     match dec (reader_at pre post) with
     | Ok (_, r) => exists c post', post = c ++ post' /\ r = reader_at (pre ++ c) post'
     | Err _ => True
     | Panic | Diverge => False
     end) ->
  (forall pre post x r, dec (reader_at pre post) = Ok (x, r) ->
     wf x /\ exists post', post = enc x ++ post' /\ r = reader_at (pre ++ enc x) post') ->
  CodecCanon A enc dec wf.
Proof. intros H1 H2 H3. constructor; [constructor|]; assumption. Qed.

Lemma reader_new_at b : Reader.new b = reader_at [] b.
Proof. done. Qed.

Lemma codec_no_panic `{Codec A enc dec wf} pre post : dec (reader_at pre post) <> Panic.
Proof. pose proof (codec_safe (dec:=dec) pre post) as Hs. by destruct (dec _). Qed.

(** Round trip at the top of a buffer, and canonicity of what is accepted. *)
Lemma from_bytes_to_bytes `{SerOk A} x : ser_wf x -> from_bytes (to_bytes x) = Ok x.
Proof.
  intros Hx. unfold from_bytes. rewrite reader_new_at, <- (app_nil_r (to_bytes x)).
  by rewrite codec_rt.
Qed.

Lemma to_bytes_inj `{SerOk A} x y : ser_wf x -> ser_wf y -> to_bytes x = to_bytes y -> x = y.
Proof.
  intros Hx Hy E. apply from_bytes_to_bytes in Hx, Hy. rewrite E in Hx. congruence.
Qed.

Lemma from_bytes_sound `{SerCanon A} b x :
  from_bytes b = Ok x -> ser_wf x /\ exists rest, b = to_bytes x ++ rest.
Proof.
  unfold from_bytes. rewrite reader_new_at.
  intros ([y r] & Hr & [= <-])%res_bind_ok.
  apply codec_sound in Hr as (? & post' & ? & _). eauto.
Qed.

(** Building the promise from a description of the bytes. *)
Lemma to_bytes_enc `{Serializer A} (enc : A -> list byte) x :
  (forall x w, write x w = Writer.write_bytes (enc x) w) -> to_bytes x = enc x.
Proof. intros Hw. unfold to_bytes. by rewrite Hw. Qed.

Lemma mk_SerOk_codec `{Serializer A} (enc : A -> list byte) wf :
  (forall x w, write x w = Writer.write_bytes (enc x) w) ->
  Codec A enc read wf -> Codec A to_bytes read wf.
Proof.
  intros Hw HC. split; intros *.
  - rewrite (to_bytes_enc enc) by done. apply codec_rt.
  - apply (codec_safe (dec:=read)).
Qed.

Definition mk_SerOk `{HS : Serializer A} (enc : A -> list byte) (wf : A -> Prop)
    (Hw : forall x w, write x w = Writer.write_bytes (enc x) w)
    (HC : Codec A enc read wf) : SerOk A := {|
  ser_wf := wf;
  ser_append x w := eq_trans (Hw x w)
    (f_equal (fun b => Writer.write_bytes b w) (eq_sym (to_bytes_enc enc x Hw)));
  ser_codec := mk_SerOk_codec enc wf Hw HC;
|}.

Lemma mk_SerCanon `{HO : SerOk A} (enc : A -> list byte) wf :
  (forall x w, write x w = Writer.write_bytes (enc x) w) ->
  (forall x, wf x -> ser_wf x) ->
  CodecCanon A enc read wf -> SerCanon A.
Proof.
  intros Hw Hwf HC. constructor. apply mk_codec_canon; intros *.
  - apply codec_rt.
  - apply (codec_safe (dec:=read)).
  - intros Hr. apply codec_sound in Hr as (Hx & p & -> & ->). split; [auto|].
    exists p. by rewrite (to_bytes_enc enc).
Qed.

(** ** Running sequences of reads *)

Section Run.
Context `{HC : Codec A enc dec wf} {B : Type}.
Implicit Types f : A -> rd B.

Lemma run_bind f pre x post :
  wf x ->
  (dec ≫= f) (reader_at pre (enc x ++ post)) = f x (reader_at (pre ++ enc x) post).
Proof. intros Hx. unfold mbind, rd_bind. by rewrite codec_rt. Qed.

Lemma safe_bind (P : res ReaderError (B * Reader) -> Prop) f pre post :
  (forall e, P (Err e)) ->
  (forall x c post', post = c ++ post' -> P (f x (reader_at (pre ++ c) post'))) ->
  P ((dec ≫= f) (reader_at pre post)).
Proof.
  intros He Hf. unfold mbind, rd_bind. pose proof (codec_safe (dec:=dec) pre post) as Hs.
  destruct (dec (reader_at pre post)) as [[x r]| | |]; try done.
  destruct Hs as (c & post' & ? & ->). by apply Hf.
Qed.
End Run.

Lemma sound_bind `{HC : CodecCanon A enc dec wf} {B} (f : A -> rd B) pre post y r :
  (dec ≫= f) (reader_at pre post) = Ok (y, r) ->
  exists x post', wf x /\ post = enc x ++ post' /\
    f x (reader_at (pre ++ enc x) post') = Ok (y, r).
Proof.
  unfold mbind, rd_bind.
  destruct (dec (reader_at pre post)) as [[x r']| | |] eqn:Hd; try done.
  apply codec_sound in Hd as (? & post' & ? & ->). eauto 10.
Qed.

Lemma safe_ret {A} (x : A) pre post :
  match (mret x : rd A) (reader_at pre post) with
  | Ok (_, r) => exists c post', post = c ++ post' /\ r = reader_at (pre ++ c) post'
  | Err _ => True
  | Panic | Diverge => False
  end.
Proof. exists [], post. by rewrite app_nil_r. Qed.

(** The shape of [codec_safe], stable under what was read before. *)
Definition fwd {A} (pre post : list byte) (o : res ReaderError (A * Reader)) : Prop :=
  match o with
  | Ok (_, r) => exists c post', post = c ++ post' /\ r = reader_at (pre ++ c) post'
  | Err _ => True
  | Panic | Diverge => False
  end.

Lemma fwd_extend {A} pre c post (o : res ReaderError (A * Reader)) :
  fwd (pre ++ c) post o -> fwd pre (c ++ post) o.
Proof.
  destruct o as [[x r]| | |]; simpl; try done.
  intros (c' & post' & -> & ->). exists (c ++ c'), post'. by rewrite !(assoc_L (++)).
Qed.

Lemma fwd_bind `{HC : Codec A enc dec wf} {B} (f : A -> rd B) pre post :
  (forall x pre' post', fwd pre' post' (f x (reader_at pre' post'))) ->
  fwd pre post ((dec ≫= f) (reader_at pre post)).
Proof.
  intros Hf. pose proof (safe_bind (dec:=dec) (fwd pre post) f pre post) as Hs.
  apply Hs; [done|]. intros x c post' ->. apply fwd_extend, Hf.
Qed.

Lemma fwd_ret {A} (x : A) pre post : fwd pre post ((mret x : rd A) (reader_at pre post)).
Proof. apply (safe_ret x). Qed.

Lemma fwd_err {A} e pre post : fwd pre post ((rd_err e : rd A) (reader_at pre post)).
Proof. done. Qed.

Lemma fwd_codec `{HC : Codec A enc dec wf} pre post :
  fwd pre post (dec (reader_at pre post)).
Proof. apply (codec_safe (dec:=dec) pre post). Qed.

(** ** Tactics *)

Lemma write_bytes_write_bytes a b w :
  Writer.write_bytes b (Writer.write_bytes a w) = Writer.write_bytes (a ++ b) w.
Proof. unfold Writer.write_bytes; simpl. by rewrite (assoc_L (++)). Qed.

Lemma wbytes_write_bytes a w : wbytes (Writer.write_bytes a w) = wbytes w ++ a.
Proof. done. Qed.

Definition u8_bytes (v : Z) : list byte := [to_byte v].
Definition bool_bytes (v : bool) : list byte := [to_byte (if v then 1 else 0)].
Definition arr_bytes {n} (v : vec byte n) : list byte := vec_to_list v.

Lemma write_u8_append v w : Writer.write_u8 v w = Writer.write_bytes (u8_bytes v) w.
Proof. done. Qed.
Lemma write_u16_append v w : Writer.write_u16 v w = Writer.write_bytes (be_bytes 2 v) w.
Proof. done. Qed.
Lemma write_u32_append v w : Writer.write_u32 v w = Writer.write_bytes (be_bytes 4 v) w.
Proof. done. Qed.
Lemma write_u64_append v w : Writer.write_u64 v w = Writer.write_bytes (be_bytes 8 v) w.
Proof. done. Qed.
Lemma write_u128_append v w : Writer.write_u128 v w = Writer.write_bytes (be_bytes 16 v) w.
Proof. done. Qed.
Lemma write_bool_append v w : Writer.write_bool v w = Writer.write_bytes (bool_bytes v) w.
Proof. done. Qed.

Create Rewrite HintDb ser.
#[export] Hint Rewrite write_u8_append write_u16_append write_u32_append
  write_u64_append write_u128_append write_bool_append
  write_bytes_write_bytes : ser.
#[export] Hint Rewrite @ser_append using typeclasses eauto : ser.

(** Every [write] is a sequence of appends. *)
Ltac ser_append :=
  intros; cbn [write]; unfold to_bytes; cbn [write];
  autorewrite with ser; rewrite ?wbytes_write_bytes;
  cbn [Writer.new wbytes app]; rewrite <- ?(assoc_L (++)); try reflexivity.

(** The layout of the bytes of a value. *)
Ltac ser_layout :=
  intros; unfold to_bytes at 1; cbn [write];
  autorewrite with ser; rewrite ?wbytes_write_bytes;
  cbn [Writer.new wbytes app]; rewrite <- ?(assoc_L (++)); try reflexivity.

(** Expose the body of the [read] that is being run, and of no other. *)
Ltac head_of t := lazymatch t with ?f _ => head_of f | _ => t end.
Ltac read_body A S :=
  let h := head_of S in eval cbv beta iota delta [read h] in (@read A S).
Ltac unfold_read :=
  try match goal with
  | |- context [@read ?A ?S (reader_at _ _)] =>
      let r := read_body A S in change (@read A S) with r
  end.
Ltac unfold_read_in H :=
  try match type of H with
  | context [@read ?A ?S (reader_at _ _)] =>
      let r := read_body A S in change (@read A S) with r in H
  end.

(** One read of a known encoding: the codec of the reading function fixes the
    encoder before the buffer is matched against it. *)
Ltac rd_codec dec k :=
  let H := fresh in
  epose proof (_ : Codec _ _ dec _) as H; k H; clear H.
Ltac rd_step :=
  match goal with
  | |- context [mbind ?f ?dec (reader_at ?pre _)] =>
      rd_codec dec ltac:(fun H => rewrite (run_bind (HC:=H) f pre))
  end; cbn beta iota.

(** Run the reads of a known encoding. *)
Ltac run_read :=
  unfold_read; rewrite <- ?(assoc_L (++));
  repeat (rd_step; [|try done; eauto]);
  rewrite <- ?(assoc_L (++)).

(** Invert a successful sequence of reads. *)
Ltac inv_read H :=
  unfold_read_in H;
  repeat match type of H with
  | (mbind ?f ?dec) (reader_at ?pre ?post) = Ok _ =>
      let x := fresh "x" in let p := fresh "post" in
      let Hw := fresh "Hwf" in let Hp := fresh "Hpost" in
      apply sound_bind in H as (x & p & Hw & Hp & H); cbn beta iota in H
  | (mret _) _ = Ok _ => injection H as ? ?
  | rd_err _ _ = Ok _ => discriminate H
  end.

(** A sequence of reads is safe. *)
Ltac safe_read :=
  intros; unfold_read; match goal with |- context [?d (reader_at ?pre ?post)] =>
    change (fwd pre post (d (reader_at pre post))) end;
  repeat first
    [ apply fwd_err | apply fwd_ret
    | apply fwd_bind; intros
    | apply fwd_codec
    | case_match ].

(** ** The primitive reads *)

Lemma slice_at pre a post n :
  length a = n ->
  Reader.slice (pre ++ a ++ post) (length pre) (length pre + n) = Ok a.
Proof.
  intros <-. unfold Reader.slice. rewrite bool_decide_true; [|rewrite !length_app; lia].
  rewrite drop_app_length, Nat.add_comm, Nat.add_sub. by rewrite take_app_length.
Qed.

Lemma reader_size_at pre post : Reader.size (reader_at pre post) = length post.
Proof. unfold Reader.size, reader_at; simpl. rewrite length_app. lia. Qed.

Lemma reader_at_step pre a post :
  mkReader (pre ++ a ++ post) (length pre + length a) = reader_at (pre ++ a) post.
Proof. unfold reader_at. by rewrite length_app, (assoc_L (++)). Qed.

(** [read_bytes] of a type whose [TryFrom] takes exactly the right length. *)
Lemma read_bytes_at {T} (f : list byte -> option T) n pre a post v :
  length a = n -> f a = Some v ->
  Reader.read_bytes f n (reader_at pre (a ++ post)) = Ok (v, reader_at (pre ++ a) post).
Proof.
  intros Hl Hf. unfold Reader.read_bytes.
  rewrite reader_size_at, length_app, bool_decide_false by lia.
  cbn [reader_at bytes total]. rewrite slice_at by done. simpl. rewrite Hf.
  by rewrite <- reader_at_step, Hl.
Qed.

Lemma read_bytes_inv {T} (f : list byte -> option T) n pre post :
  match Reader.read_bytes f n (reader_at pre post) with
  | Ok (v, r) => exists a post', length a = n /\ f a = Some v /\
      post = a ++ post' /\ r = reader_at (pre ++ a) post'
  | Err _ => True
  | Panic | Diverge => False
  end.
Proof.
  destruct (decide (n <= length post)%nat) as [Hle|Hgt].
  - rewrite <- (take_drop n post).
    assert (length (take n post) = n) as Hl by (rewrite length_take; lia).
    destruct (f (take n post)) as [v|] eqn:Hf.
    + rewrite (read_bytes_at f n pre _ _ v Hl Hf). eauto 10.
    + unfold Reader.read_bytes.
      rewrite reader_size_at, length_app, bool_decide_false by lia.
      cbn [reader_at bytes total]. rewrite slice_at by done. simpl. by rewrite Hf.
  - unfold Reader.read_bytes. rewrite reader_size_at. by rewrite bool_decide_true by lia.
Qed.

#[export] Instance read_bytes_ref_codec n :
  CodecCanon (list byte) id (Reader.read_bytes_ref n) (fun l => length l = n).
Proof.
  assert (forall r, Reader.read_bytes_ref n r = Reader.read_bytes Some n r) as E.
  { intros r. unfold Reader.read_bytes_ref, Reader.read_bytes.
    destruct (bool_decide _); [done|]. by destruct (Reader.slice _ _ _). }
  apply mk_codec_canon; intros *; rewrite E.
  - intros. by apply read_bytes_at.
  - pose proof (read_bytes_inv Some n pre post) as Hi.
    destruct (Reader.read_bytes Some n _) as [[v r]| | |]; naive_solver.
  - intros Hr. pose proof (read_bytes_inv Some n pre post) as Hi.
    rewrite Hr in Hi. naive_solver.
Qed.

#[export] Instance read_array_codec n :
  CodecCanon (vec byte n) arr_bytes (Reader.read_array n) (fun _ => True).
Proof.
  unfold Reader.read_array. apply mk_codec_canon; intros *.
  - intros _. apply read_bytes_at; [apply length_vec_to_list|apply to_arr_vec].
  - pose proof (read_bytes_inv (to_arr n) n pre post) as Hi.
    destruct (Reader.read_bytes _ n _) as [[v r]| | |]; naive_solver.
  - intros Hr. pose proof (read_bytes_inv (to_arr n) n pre post) as Hi.
    rewrite Hr in Hi. destruct Hi as (a & post' & _ & Ha & -> & ->).
    apply to_arr_Some in Ha as ->. eauto.
Qed.
#[export] Instance read_bytes_32_codec :
  CodecCanon (vec byte 32) arr_bytes Reader.read_bytes_32 (fun _ => True) :=
  read_array_codec 32.
#[export] Instance read_bytes_64_codec :
  CodecCanon (vec byte 64) arr_bytes Reader.read_bytes_64 (fun _ => True) :=
  read_array_codec 64.

#[export] Instance read_u8_codec :
  CodecCanon Z u8_bytes Reader.read_u8 (in_u 8).
Proof.
  assert (forall pre b post, Reader.read_u8 (reader_at pre (b :: post)) =
    Ok (byte_val b, reader_at (pre ++ [b]) post)) as Hb.
  { intros. unfold Reader.read_u8. rewrite reader_size_at, bool_decide_false by done.
    cbn [reader_at bytes total].
    rewrite list_lookup_middle by done. unfold reader_at.
    by rewrite length_app, <- (assoc_L (++)). }
  assert (forall pre, Reader.read_u8 (reader_at pre []) = Err InvalidSize) as Hn.
  { intros. unfold Reader.read_u8. by rewrite reader_size_at, bool_decide_true. }
  apply mk_codec_canon; intros *.
  - intros Hx. simpl. rewrite Hb, byte_val_to_byte, Z.mod_small by exact Hx. done.
  - destruct post as [|b post]; [by rewrite Hn|]. rewrite Hb. by exists [b], post.
  - destruct post as [|b post]; [by rewrite Hn|]. rewrite Hb. intros [= <- <-].
    split; [apply byte_val_range|]. exists post. unfold u8_bytes. by rewrite to_byte_val.
Qed.

Lemma read_be_codec n :
  CodecCanon Z (be_bytes n) (Reader.read_be n) (fun z => 0 <= z < 256 ^ Z.of_nat n).
Proof.
  unfold Reader.read_be. apply mk_codec_canon; intros *.
  - intros Hx. destruct (to_arr_length n (be_bytes n x)) as [v Hv].
    { apply length_be_bytes. }
    apply to_arr_Some in Hv. rewrite Hv.
    rewrite (run_bind (dec:=Reader.read_array n) (enc:=arr_bytes)) by done.
    unfold mret, rd_ret, arr_bytes. by rewrite <- Hv, from_be_bytes.
  - safe_read.
  - intros H. inv_read H. subst. pose proof (from_be_range x0) as Hr.
    rewrite length_vec_to_list in Hr. split; [lia|]. exists post0.
    pose proof (be_bytes_from_be x0) as Hb. rewrite length_vec_to_list in Hb.
    by rewrite Hb.
Qed.

#[export] Instance read_u16_codec : CodecCanon Z (be_bytes 2) Reader.read_u16 (in_u 16) :=
  read_be_codec 2.
#[export] Instance read_u32_codec : CodecCanon Z (be_bytes 4) Reader.read_u32 (in_u 32) :=
  read_be_codec 4.
#[export] Instance read_u64_codec : CodecCanon Z (be_bytes 8) Reader.read_u64 (in_u 64) :=
  read_be_codec 8.
#[export] Instance read_u128_codec : CodecCanon Z (be_bytes 16) Reader.read_u128 (in_u 128) :=
  read_be_codec 16.

#[export] Instance read_bool_codec :
  CodecCanon bool bool_bytes Reader.read_bool (fun _ => True).
Proof.
  unfold Reader.read_bool. apply mk_codec_canon; intros *.
  - intros _. change (bool_bytes x) with (u8_bytes (if x then 1 else 0)).
    destruct x; by rewrite (run_bind (dec:=Reader.read_u8)).
  - safe_read.
  - intros H. inv_read H. subst.
    destruct (Z.eqb_spec x0 0) as [->|]; [|destruct (Z.eqb_spec x0 1) as [->|]; [|done]];
      cbv in H; injection H as <- <-; (split; [done|]); by exists post0.
Qed.
