(* ===== verification/Hash.v ===== *)
(** [xelis_common::crypto::hash]: the 32-byte hash, its order and its
    serialization, and the hash that identifies a set of tips
    ([block/mod.rs]). *)

From S2P Require Import Prelude External Serializer.

Definition HASH_SIZE : nat := 32.

Record Hash := mkHash { hash_arr : vec byte 32 }.

#[export] Instance hash_eq_dec : EqDecision Hash.
Proof. solve_decision. Defined.
#[export] Instance hash_countable : Countable Hash :=
  inj_countable' hash_arr mkHash (fun '(mkHash v) => eq_refl).

Module HashOps.
Definition zero : Hash := mkHash (vreplicate 32 x00).
Definition max : Hash := mkHash (vreplicate 32 xff).
Definition as_bytes (h : Hash) : vec byte 32 := h.(hash_arr).
End HashOps.

(** The derived [Ord]: lexicographic on the bytes. *)
Fixpoint bytes_cmp (a b : list byte) : comparison :=
  match a, b with
  | [], [] => Eq
  | [], _ => Lt
  | _, [] => Gt
  | x :: a, y :: b =>
      match byte_val x ?= byte_val y with
      | Eq => bytes_cmp a b
      | c => c
      end
  end.
Definition hash_cmp (a b : Hash) : comparison := bytes_cmp a.(hash_arr) b.(hash_arr).

Lemma bytes_cmp_eq a b : bytes_cmp a b = Eq <-> a = b.
Proof.
  revert b; induction a as [|x a IH]; intros [|y b]; simpl; try done.
  destruct (Z.compare_spec (byte_val x) (byte_val y)) as [E|E|E].
  - apply byte_val_inj in E as ->. rewrite IH. naive_solver.
  - split; [done|]. intros [= -> ->]. lia.
  - split; [done|]. intros [= -> ->]. lia.
Qed.

Lemma bytes_cmp_antisym a b : bytes_cmp b a = CompOpp (bytes_cmp a b).
Proof.
  revert b; induction a as [|x a IH]; intros [|y b]; simpl; try done.
  rewrite (Z.compare_antisym (byte_val x) (byte_val y)).
  destruct (byte_val x ?= byte_val y); simpl; auto.
Qed.

Lemma hash_cmp_eq a b : hash_cmp a b = Eq <-> a = b.
Proof.
  unfold hash_cmp. rewrite bytes_cmp_eq. split; [|by intros ->].
  destruct a, b. simpl. intros E%vec_to_list_inj2. by f_equal.
Qed.

Lemma hash_cmp_antisym a b : hash_cmp b a = CompOpp (hash_cmp a b).
Proof. apply bytes_cmp_antisym. Qed.

(** On arrays of one length the order of the bytes is the order of the
    big-endian integers they encode. *)
Lemma bytes_cmp_from_be a b :
  length a = length b -> bytes_cmp a b = (from_be a ?= from_be b).
Proof.
  revert b; induction a as [|x a IH]; intros [|y b] Hl; simpl in *; try done.
  injection Hl as Hl. rewrite (IH b Hl), Hl.
  pose proof (from_be_range a) as Ha. pose proof (from_be_range b) as Hb.
  rewrite Hl in Ha. set (k := 256 ^ Z.of_nat (length b)) in *.
  destruct (Z.compare_spec (byte_val x) (byte_val y)) as [E|E|E].
  - rewrite E. destruct (Z.compare_spec (from_be a) (from_be b)); symmetry;
      [apply Z.compare_eq_iff|apply Z.compare_lt_iff|apply Z.compare_gt_iff]; lia.
  - symmetry. apply Z.compare_lt_iff. nia.
  - symmetry. apply Z.compare_gt_iff. nia.
Qed.

Lemma hash_cmp_from_be a b :
  hash_cmp a b = (from_be a.(hash_arr) ?= from_be b.(hash_arr)).
Proof. apply bytes_cmp_from_be. by rewrite !length_vec_to_list. Qed.

(** [hash(value)] *)
Definition hash `{Blake3} (value : list byte) : Hash := mkHash (blake3_hash value).

Section Collisions.
Context {B3 : Blake3}.

(** These two inputs are different and have the same blake3 hash. *)
Definition collides (x y : list byte) : Prop := x <> y /\ blake3_hash x = blake3_hash y.
(** The inputs of two computations, taken in order, collide somewhere. *)
Definition collision_among (xs ys : list (list byte)) : Prop := Exists (fun p => collides p.1 p.2) (zip xs ys).

Lemma hash_inj_or x y : hash x = hash y -> x = y \/ collides x y.
Proof. intros [= E]. destruct (decide (x = y)) as [|Hne]; [by left|by right]. Qed.
End Collisions.

(** ** Serialization *)

Definition hash_bytes (h : Hash) : list byte := vec_to_list h.(hash_arr).

Lemma length_hash_bytes h : length (hash_bytes h) = HASH_SIZE.
Proof. apply length_vec_to_list. Qed.

Lemma hash_bytes_inj a b : hash_bytes a = hash_bytes b -> a = b.
Proof.
  destruct a, b. unfold hash_bytes; simpl. intros E%vec_to_list_inj2. by f_equal.
Qed.

Definition read_hash : rd Hash := b ← Reader.read_bytes_32; mret (mkHash b).
Definition write_hash (h : Hash) (w : Writer) : Writer :=
  mkWriter (w.(wbytes) ++ vec_to_list h.(hash_arr)).

#[export] Instance read_hash_codec :
  CodecCanon Hash hash_bytes read_hash (fun _ => True).
Proof.
  unfold read_hash. apply mk_codec_canon; intros *.
  - intros _. change (hash_bytes x) with (arr_bytes x.(hash_arr)).
    rewrite (run_bind (dec:=Reader.read_bytes_32)) by done. by destruct x.
  - safe_read.
  - intros H. inv_read H. subst. eauto.
Qed.

Lemma write_hash_append h w : write_hash h w = Writer.write_bytes (hash_bytes h) w.
Proof. done. Qed.
#[export] Hint Rewrite write_hash_append : ser.

#[export] Instance Hash_Serializer : Serializer Hash := {|
  read := hash ← read_hash; mret hash;
  write h w := write_hash h w;
  size _ := HASH_SIZE;
|}.

Lemma hash_layout h : to_bytes h = hash_bytes h.
Proof. done. Qed.

#[export] Instance Hash_SerOk : SerOk Hash.
Proof.
  refine {| ser_wf := fun _ => True |}.
  - done.
  - split; intros *.
    + intros _. rewrite hash_layout. by run_read.
    + safe_read.
Defined.
#[export] Instance Hash_SerCanon : SerCanon Hash.
Proof.
  constructor. apply mk_codec_canon.
  - apply codec_rt.
  - apply (codec_safe (dec:=read)).
  - intros * H. inv_read H. subst. eauto.
Qed.
#[export] Instance Hash_SerSize : SerSize Hash.
Proof. constructor. intros x _. by rewrite hash_layout, length_hash_bytes. Qed.

(** ** block/mod.rs: [get_combined_hash_for_tips] *)

Definition byte_xor (a b : byte) : byte := to_byte (Z.lxor (byte_val a) (byte_val b)).

Definition get_combined_hash_for_tips (tips : list Hash) : Hash :=
  mkHash (foldl (fun bytes tip => vzip_with byte_xor bytes tip.(hash_arr))
            (vreplicate 32 x00) tips).

Lemma byte_val_xor a b : byte_val (byte_xor a b) = Z.lxor (byte_val a) (byte_val b).
Proof.
  unfold byte_xor. rewrite byte_val_to_byte. apply Z.mod_small.
  pose proof (byte_val_range a). pose proof (byte_val_range b).
  assert (0 <= Z.lxor (byte_val a) (byte_val b)) by (apply Z.lxor_nonneg; lia).
  split; [done|]. destruct (Z.eq_dec (Z.lxor (byte_val a) (byte_val b)) 0) as [->|Hz]; [lia|].
  change 256 with (2 ^ 8). apply Z.log2_lt_pow2; [lia|].
  eapply Z.le_lt_trans; [apply Z.log2_lxor; lia|].
  assert (forall x, 0 <= x < 256 -> Z.log2 x < 8) as Hlog.
  { intros x Hx. destruct (Z.eq_dec x 0) as [->|]; [done|]. apply Z.log2_lt_pow2; lia. }
  apply Z.max_lub_lt; apply Hlog; lia.
Qed.

Lemma byte_xor_comm a b : byte_xor a b = byte_xor b a.
Proof. apply byte_val_inj. by rewrite !byte_val_xor, Z.lxor_comm. Qed.
Lemma byte_xor_assoc a b c : byte_xor (byte_xor a b) c = byte_xor a (byte_xor b c).
Proof. apply byte_val_inj. by rewrite !byte_val_xor, Z.lxor_assoc. Qed.
Lemma byte_xor_0_l a : byte_xor x00 a = a.
Proof. apply byte_val_inj. rewrite byte_val_xor. apply Z.lxor_0_l. Qed.
Lemma byte_xor_nilpotent a : byte_xor a a = x00.
Proof. apply byte_val_inj. by rewrite byte_val_xor, Z.lxor_nilpotent. Qed.

Lemma vxor_swap {n} (v a b : vec byte n) :
  vzip_with byte_xor (vzip_with byte_xor v a) b =
  vzip_with byte_xor (vzip_with byte_xor v b) a.
Proof.
  apply vec_eq. intros i. rewrite !vlookup_zip_with.
  by rewrite !byte_xor_assoc, (byte_xor_comm (a !!! i)).
Qed.

Lemma combined_hash_Permutation l l' :
  l ≡ₚ l' -> get_combined_hash_for_tips l = get_combined_hash_for_tips l'.
Proof.
  intros Hp. unfold get_combined_hash_for_tips. f_equal.
  generalize (vreplicate 32 x00). induction Hp as [|x l l' _ IH|x y l|l1 l2 l3 _ IH1 _ IH2]; intros v; simpl.
  - done.
  - apply IH.
  - by rewrite vxor_swap.
  - by rewrite IH1, IH2.
Qed.
