(* ===== verification/Defaults.v ===== *)
(** [serializer/defaults.rs] and the string methods of [Reader] and [Writer]:
    the implementations of the trait for the types of the standard library and
    of [indexmap]. *)

From S2P Require Import Prelude External Serializer Hash.

(** ** Rust strings: byte sequences that are well-formed UTF-8 *)

Definition in_rng (lo hi : Z) (b : byte) : bool :=
  (lo <=? byte_val b) && (byte_val b <=? hi).
Definition is_cont : byte -> bool := in_rng 128 191.

(** The well-formed sequences of the Unicode standard, table 3-7. *)
Fixpoint utf8_valid (l : list byte) : bool :=
  match l with
  | [] => true
  | b0 :: l0 =>
      if byte_val b0 <? 128 then utf8_valid l0 else
      match l0 with
      | [] => false
      | b1 :: l1 =>
          if in_rng 194 223 b0 then is_cont b1 && utf8_valid l1 else
          match l1 with
          | [] => false
          | b2 :: l2 =>
              if in_rng 224 239 b0 then
                (if byte_val b0 =? 224 then in_rng 160 191 b1
                 else if byte_val b0 =? 237 then in_rng 128 159 b1
                 else is_cont b1)
                && is_cont b2 && utf8_valid l2
              else
                match l2 with
                | [] => false
                | b3 :: l3 =>
                    in_rng 240 244 b0
                    && (if byte_val b0 =? 240 then in_rng 144 191 b1
                        else if byte_val b0 =? 244 then in_rng 128 143 b1
                        else is_cont b1)
                    && is_cont b2 && is_cont b3 && utf8_valid l3
                end
          end
      end
  end.

Definition RString : Type := dsig (fun l : list byte => utf8_valid l = true).
Definition str_bytes (s : RString) : list byte := `s.
Definition str_len (s : RString) : nat := length (str_bytes s).
Definition from_utf8 (l : list byte) : option RString :=
  match decide (utf8_valid l = true) with left H => Some (dexist l H) | right _ => None end.

Lemma from_utf8_str s : from_utf8 (str_bytes s) = Some s.
Proof.
  unfold from_utf8, str_bytes. destruct (decide _) as [H|H].
  - f_equal. by apply dsig_eq.
  - destruct H. apply (proj2_dsig s).
Qed.

Lemma from_utf8_Some l s : from_utf8 l = Some s -> l = str_bytes s.
Proof. unfold from_utf8, str_bytes. destruct (decide _); [|done]. by intros [= <-]. Qed.

(** ** reader.rs and writer.rs: strings *)

Definition read_string_with_size (size : nat) : rd RString :=
  bytes ← Reader.read_bytes (fun b => Some b) size;
  match from_utf8 bytes with
  | Some v => mret v
  | None => rd_err InvalidValue
  end.
Definition read_string : rd RString :=
  size ← Reader.read_u8; read_string_with_size (Z.to_nat size).
Definition read_optional_string : rd (option RString) :=
  n ← Reader.read_u8;
  if n =? 0 then mret None
  else s ← read_string_with_size (Z.to_nat n); mret (Some s).

Definition write_string (value : RString) (w : Writer) : Writer :=
  mkWriter ((w.(wbytes) ++ [to_byte (wrap 8 (Z.of_nat (str_len value)))]) ++ str_bytes value).
Definition write_optional_string (opt : option RString) (w : Writer) : Writer :=
  match opt with
  | Some v => write_string v w
  | None => mkWriter (w.(wbytes) ++ [to_byte 0])
  end.

Definition string_bytes (s : RString) : list byte :=
  u8_bytes (wrap 8 (Z.of_nat (str_len s))) ++ str_bytes s.

Lemma write_string_append s w : write_string s w = Writer.write_bytes (string_bytes s) w.
Proof. unfold write_string, Writer.write_bytes, string_bytes. by rewrite <- (assoc_L (++)). Qed.
#[export] Hint Rewrite write_string_append : ser.

#[export] Instance read_vec_u8_codec n :
  CodecCanon (list byte) id (Reader.read_bytes (fun b => Some b) n) (fun l => length l = n).
Proof.
  apply mk_codec_canon; intros *.
  - intros. by apply read_bytes_at.
  - pose proof (read_bytes_inv (fun b => Some b) n pre post) as Hi.
    destruct (Reader.read_bytes _ n _) as [[v r]| | |]; naive_solver.
  - intros Hr. pose proof (read_bytes_inv (fun b => Some b) n pre post) as Hi.
    rewrite Hr in Hi. naive_solver.
Qed.

#[export] Instance read_string_with_size_codec n :
  CodecCanon RString str_bytes (read_string_with_size n) (fun s => str_len s = n).
Proof.
  unfold read_string_with_size. apply mk_codec_canon; intros *.
  - intros Hx. change (str_bytes x) with (id (str_bytes x)).
    rewrite (run_bind (dec:=Reader.read_bytes _ n)) by done.
    cbn [id]. by rewrite from_utf8_str.
  - safe_read.
  - intros H. inv_read H.
    destruct (from_utf8 x0) as [s|] eqn:Hs; [|done].
    injection H as <- <-. apply from_utf8_Some in Hs. subst. eauto.
Qed.

#[export] Instance read_string_codec :
  CodecCanon RString string_bytes read_string (fun s => (str_len s <= 255)%nat).
Proof.
  unfold read_string, string_bytes. apply mk_codec_canon; intros *.
  - intros Hx. rewrite wrap_small by (unfold in_u; lia).
    rewrite <- (assoc_L (++)), (run_bind (dec:=Reader.read_u8)) by (unfold in_u; lia).
    rewrite Nat2Z.id, codec_rt by done. by rewrite <- (assoc_L (++)).
  - safe_read.
  - intros H. inv_read H. apply codec_sound in H as (Hl & p & -> & ->).
    unfold in_u in Hwf. split; [lia|]. exists p.
    rewrite wrap_small by (unfold in_u; lia).
    rewrite Hl, Z2Nat.id by lia. by rewrite <- !(assoc_L (++)), Hpost.
Qed.

(** [Option<String>] has its own encoding, which merges [None] and the empty
    string. *)
Definition optional_string_bytes (o : option RString) : list byte :=
  match o with Some s => string_bytes s | None => u8_bytes 0 end.

#[export] Instance read_optional_string_codec :
  CodecCanon (option RString) optional_string_bytes read_optional_string
    (from_option (fun s => (0 < str_len s <= 255)%nat) True).
Proof.
  unfold read_optional_string. apply mk_codec_canon; intros *.
  - destruct x as [s|]; cbn [from_option optional_string_bytes]; intros Hx.
    + unfold string_bytes. rewrite wrap_small by (unfold in_u; lia).
      rewrite <- (assoc_L (++)), (run_bind (dec:=Reader.read_u8)) by (unfold in_u; lia).
      destruct (Z.eqb_spec (Z.of_nat (str_len s)) 0); [lia|].
      rewrite (run_bind (dec:=read_string_with_size _)) by lia.
      by rewrite <- (assoc_L (++)).
    + by rewrite (run_bind (dec:=Reader.read_u8)).
  - safe_read.
  - intros H. inv_read H. unfold in_u in Hwf.
    destruct (Z.eqb_spec x0 0) as [->|Hne].
    + injection H as <- <-. split; [done|]. by exists post0.
    + inv_read H. subst. simpl. split; [lia|]. exists post1.
      unfold string_bytes. rewrite Hwf0, wrap_small, Z2Nat.id by (unfold in_u; lia).
      by rewrite <- !(assoc_L (++)).
Qed.

(** ** Loops that read [n] elements *)

Fixpoint read_n {A} (dec : rd A) (n : nat) : rd (list A) :=
  match n with
  | O => mret []
  | S n => x ← dec; l ← read_n dec n; mret (x :: l)
  end.

(** The loops that fill an [IndexSet] and refuse a duplicate. *)
Fixpoint read_set `{IndexSetLib A} (e : ReaderError) (dec : rd A) (n : nat) (s : iset A) :
    rd (iset A) :=
  match n with
  | O => mret s
  | S n =>
      x ← dec;
      let '(fresh, s') := iset_insert x s in
      if fresh then read_set e dec n s' else rd_err e
  end.

Definition concat_bytes {A} (enc : A -> list byte) (l : list A) : list byte :=
  mjoin (enc <$> l).

Lemma concat_bytes_cons {A} (enc : A -> list byte) x l :
  concat_bytes enc (x :: l) = enc x ++ concat_bytes enc l.
Proof. done. Qed.

Lemma length_concat_bytes {A} (enc : A -> list byte) k l :
  (forall x, x ∈ l -> length (enc x) = k) -> length (concat_bytes enc l) = (length l * k)%nat.
Proof.
  induction l as [|x l IH]; intros Hk; [done|].
  rewrite concat_bytes_cons, length_app, IH, Hk by set_solver. simpl. lia.
Qed.

Section Loops.
Context `{HC : CodecCanon A enc dec wf}.

#[export] Instance read_n_codec n :
  CodecCanon (list A) (concat_bytes enc) (read_n dec n)
    (fun l => length l = n /\ Forall wf l).
Proof.
  apply mk_codec_canon.
  - induction n as [|n IH]; intros [|x l] pre post [Hl Hwf]; try done; simpl in *.
    + by rewrite app_nil_r.
    + inversion_clear Hwf. rewrite concat_bytes_cons, <- (assoc_L (++)).
      rewrite run_bind by done. unfold mbind, rd_bind.
      rewrite IH by auto. by rewrite <- (assoc_L (++)).
  - intros pre post. change (fwd pre post (read_n dec n (reader_at pre post))).
    revert pre post. induction n as [|n IH]; intros pre post; simpl; [exact (fwd_ret (@nil A) pre post)|].
    apply fwd_bind. intros x pre' post'. specialize (IH pre' post').
    unfold mbind, rd_bind. destruct (read_n dec n _) as [[l r]| | |]; done.
  - induction n as [|n IH]; intros pre post l r H; simpl in H.
    + injection H as <- <-. split; [done|]. exists post. by rewrite app_nil_r.
    + apply sound_bind in H as (x & p & Hx & -> & H).
      unfold mbind, rd_bind in H.
      destruct (read_n dec n _) as [[l' r']| | |] eqn:Hr; try done.
      injection H as <- <-. apply IH in Hr as ([Hl Hf] & p' & -> & ->).
      split; [simpl; split; [lia|by constructor]|].
      exists p'. by rewrite concat_bytes_cons, <- !(assoc_L (++)).
Qed.

Context `{HS : IndexSetLib A} (e : ReaderError).

Lemma read_set_run n s l pre post :
  length l = n -> Forall wf l -> NoDup (iset_list s ++ l) ->
  read_set e dec n s (reader_at pre (concat_bytes enc l ++ post)) =
    Ok (iset_extend s l, reader_at (pre ++ concat_bytes enc l) post).
Proof.
  revert s l pre. induction n as [|n IH]; intros s [|x l] pre Hl Hwf Hnd; try done; simpl in *.
  { by rewrite app_nil_r. }
  inversion_clear Hwf. rewrite concat_bytes_cons, <- (assoc_L (++)).
  rewrite run_bind by done.
  assert (x ∉ iset_list s) as Hx.
  { intros Hx. apply list.NoDup_app in Hnd as (_ & Hd & _). apply (Hd x Hx). left. }
  destruct (iset_insert_fresh x s Hx) as (s' & -> & Hs').
  rewrite IH; [|lia|done|by rewrite Hs', <- (assoc_L (++))].
  by rewrite <- (assoc_L (++)).
Qed.

Lemma read_set_sound n s pre post t r :
  read_set e dec n s (reader_at pre post) = Ok (t, r) ->
  exists l post', iset_list t = iset_list s ++ l /\ length l = n /\ Forall wf l /\
    post = concat_bytes enc l ++ post' /\ r = reader_at (pre ++ concat_bytes enc l) post'.
Proof.
  revert s pre post. induction n as [|n IH]; intros s pre post H; simpl in H.
  { injection H as <- <-. exists [], post. by rewrite !app_nil_r. }
  apply sound_bind in H as (x & p & Hx & -> & H).
  destruct (iset_insert x s) as [[] s'] eqn:Hi; [|done].
  apply iset_insert_true in Hi as [Hfr Hs'].
  apply IH in H as (l & p' & Hl & Hn & Hf & -> & ->).
  exists (x :: l), p'. rewrite Hl, Hs', <- (assoc_L (++)), concat_bytes_cons.
  simpl. rewrite <- !(assoc_L (++)). repeat split; [lia|by constructor].
Qed.

Lemma read_set_fwd n s pre post : fwd pre post (read_set e dec n s (reader_at pre post)).
Proof.
  revert s pre post. induction n as [|n IH]; intros s pre post; simpl; [exact (fwd_ret s pre post)|].
  apply fwd_bind. intros x pre' post'. destruct (iset_insert x s) as [[] s']; auto.
  apply fwd_err.
Qed.

#[export] Instance read_set_codec n :
  CodecCanon (iset A) (fun s => concat_bytes enc (iset_list s)) (read_set e dec n iset_new)
    (fun s => iset_len s = n /\ Forall wf (iset_list s)).
Proof.
  apply mk_codec_canon.
  - intros s pre post [Hl Hwf]. rewrite read_set_run; try done.
    + repeat f_equal. apply iset_ext. rewrite iset_extend_list, iset_new_spec; [done|].
      rewrite iset_new_spec. apply iset_NoDup.
    + rewrite iset_new_spec. apply iset_NoDup.
  - intros. apply read_set_fwd.
  - intros pre post t r (l & p & Hl & Hn & Hf & -> & ->)%read_set_sound.
    rewrite iset_new_spec in Hl. unfold iset_len. rewrite Hl. eauto.
Qed.
End Loops.

(** ** The implementations of the trait *)

(** The machine integers all are [Z] in the model, so their implementations
    are definitions, named where they are needed. *)
Definition u128_Serializer : Serializer Z :=
  {| write v w := Writer.write_u128 v w; read := Reader.read_u128; size _ := 16%nat |}.
Definition u64_Serializer : Serializer Z :=
  {| write v w := Writer.write_u64 v w; read := Reader.read_u64; size _ := 8%nat |}.
Definition u32_Serializer : Serializer Z :=
  {| write v w := Writer.write_u32 v w; read := Reader.read_u32; size _ := 4%nat |}.
Definition u16_Serializer : Serializer Z :=
  {| write v w := Writer.write_u16 v w; read := Reader.read_u16; size _ := 2%nat |}.
Definition u8_Serializer : Serializer Z :=
  {| write v w := Writer.write_u8 v w; read := Reader.read_u8; size _ := 1%nat |}.

Definition u64_SerOk : @SerOk Z u64_Serializer :=
  mk_SerOk (HS:=u64_Serializer) (be_bytes 8) (in_u 64) (fun _ _ => eq_refl) _.
Definition u16_SerOk : @SerOk Z u16_Serializer :=
  mk_SerOk (HS:=u16_Serializer) (be_bytes 2) (in_u 16) (fun _ _ => eq_refl) _.
Definition u8_SerOk : @SerOk Z u8_Serializer :=
  mk_SerOk (HS:=u8_Serializer) u8_bytes (in_u 8) (fun _ _ => eq_refl) _.

(** [u8] as the element of a byte vector. *)
#[export] Instance byte_Serializer : Serializer byte := {|
  write b w := Writer.write_u8 (byte_val b) w;
  read := v ← Reader.read_u8; mret (to_byte v);
  size _ := 1%nat
|}.
Definition byte_enc (b : byte) : list byte := u8_bytes (byte_val b).
Lemma byte_codec : CodecCanon byte byte_enc read (fun _ => True).
Proof.
  apply mk_codec_canon; intros *.
  - intros _. unfold byte_enc. unfold_read. rd_step; [|apply byte_val_range].
    unfold mret, rd_ret. by rewrite to_byte_val.
  - safe_read.
  - intros Hr. inv_read Hr. subst. split; [done|]. unfold byte_enc.
    rewrite byte_val_to_byte, Z.mod_small by exact Hwf. eauto.
Qed.
#[export] Instance byte_SerOk : SerOk byte :=
  mk_SerOk byte_enc (fun _ => True) (fun _ _ => eq_refl) (codec_of byte_codec).
#[export] Instance byte_SerCanon : SerCanon byte.
Proof. by eapply (mk_SerCanon byte_enc (fun _ => True)), byte_codec. Qed.

#[export] Instance bool_Serializer : Serializer bool :=
  {| write v w := Writer.write_bool v w; read := Reader.read_bool; size _ := 1%nat |}.
#[export] Instance bool_SerOk : SerOk bool :=
  mk_SerOk bool_bytes (fun _ => True) (fun _ _ => eq_refl) (codec_of read_bool_codec).
#[export] Instance bool_SerCanon : SerCanon bool.
Proof. apply (mk_SerCanon bool_bytes (fun _ => True)); [done|done|apply read_bool_codec]. Qed.
#[export] Instance bool_SerSize : SerSize bool.
Proof. by constructor. Qed.

#[export] Instance unit_Serializer : Serializer unit :=
  {| read := mret tt; write _ w := w; size _ := 0%nat |}.

#[export] Instance array_Serializer N : Serializer (vec byte N) := {|
  write v w := Writer.write_bytes (vec_to_list v) w;
  read := bytes ← Reader.read_array N; mret bytes;
  size _ := N
|}.

#[export] Instance string_Serializer : Serializer RString := {|
  read := read_string;
  write v w := write_string v w;
  size v := (1 + str_len v)%nat
|}.
#[export] Instance string_SerOk : SerOk RString :=
  mk_SerOk string_bytes (fun s => (str_len s <= 255)%nat) write_string_append
    (codec_of read_string_codec).
#[export] Instance string_SerCanon : SerCanon RString.
Proof.
  apply (mk_SerCanon string_bytes (fun s => (str_len s <= 255)%nat));
    [apply write_string_append|done|apply read_string_codec].
Qed.
#[export] Instance string_SerSize : SerSize RString.
Proof.
  constructor. intros x _. rewrite (to_bytes_enc string_bytes) by apply write_string_append.
  unfold string_bytes. rewrite length_app. done.
Qed.

(** *** [Option<T>] *)
#[export] Instance option_Serializer `{Serializer T} : Serializer (option T) := {|
  read :=
    b ← Reader.read_bool;
    if (b : bool) then v ← read; mret (Some v) else mret None;
  write o w :=
    let w := Writer.write_bool (match o with Some _ => true | None => false end) w in
    match o with Some value => write value w | None => w end;
  size o := match o with Some value => (1 + size value)%nat | None => 1%nat end
|}.

Section OptionSer.
Context `{SerOk T}.

Definition option_enc (o : option T) : list byte :=
  match o with Some v => bool_bytes true ++ to_bytes v | None => bool_bytes false end.

Lemma write_option_append (o : option T) w :
  write o w = Writer.write_bytes (option_enc o) w.
Proof. destruct o; [|done]. cbn [write option_Serializer]. by autorewrite with ser. Qed.

Lemma option_read_rt (o : option T) pre post :
  from_option ser_wf True o ->
  read (reader_at pre (option_enc o ++ post)) = Ok (o, reader_at (pre ++ option_enc o) post).
Proof. destruct o as [v|]; cbn [from_option option_enc]; intros Hv; by run_read. Qed.

#[export] Instance option_SerOk : SerOk (option T).
Proof.
  refine (mk_SerOk option_enc (from_option ser_wf True) write_option_append _).
  split; intros *; [apply option_read_rt|safe_read].
Defined.

#[export] Instance option_SerCanon : SerCanon T -> SerCanon (option T).
Proof.
  intros HT. apply (mk_SerCanon option_enc (from_option ser_wf True)); [apply write_option_append|done|].
  apply mk_codec_canon; intros *; [apply option_read_rt|safe_read|].
  intros Hr. inv_read Hr. destruct x0; inv_read Hr; subst.
  - split; [done|]. exists post1. simpl. by rewrite <- !(assoc_L (++)).
  - split; [done|]. by exists post0.
Qed.

#[export] Instance option_SerSize : SerSize T -> SerSize (option T).
Proof.
  intros HT. constructor. intros [v|]; rewrite (to_bytes_enc option_enc) by apply write_option_append;
    [|done]. intros Hv. simpl. by rewrite ser_size.
Qed.
End OptionSer.

(** *** [Vec<T>], [IndexSet<T>] *)
Definition MAX_ITEMS : Z := 1024.

#[export] Instance vec_Serializer `{Serializer T} : Serializer (list T) := {|
  read :=
    count ← Reader.read_u16;
    if MAX_ITEMS <? count then rd_err InvalidSize
    else values ← read_n read (Z.to_nat count); mret values;
  write l w :=
    foldl (fun w el => write el w) (Writer.write_u16 (wrap 16 (Z.of_nat (length l))) w) l;
  size l := match l with first :: _ => (2 + length l * size first)%nat | [] => 2%nat end
|}.

Lemma foldl_write `{SerOk T} (l : list T) w :
  foldl (fun w el => write el w) w l = Writer.write_bytes (concat_bytes to_bytes l) w.
Proof.
  revert w; induction l as [|x l IH]; intros w; simpl.
  - unfold Writer.write_bytes. rewrite app_nil_r. by destruct w.
  - rewrite IH, ser_append. by rewrite write_bytes_write_bytes.
Qed.
#[export] Hint Rewrite @foldl_write using typeclasses eauto : ser.

Section VecSer.
Context `{SerCanon T}.

Definition vec_enc (l : list T) : list byte :=
  be_bytes 2 (wrap 16 (Z.of_nat (length l))) ++ concat_bytes to_bytes l.
Definition vec_wf (l : list T) : Prop := (length l <= 1024)%nat /\ Forall ser_wf l.

Lemma write_vec_append (l : list T) w : write l w = Writer.write_bytes (vec_enc l) w.
Proof. cbn [write vec_Serializer]. by autorewrite with ser. Qed.

Lemma vec_codec : CodecCanon (list T) vec_enc read vec_wf.
Proof.
  apply mk_codec_canon; intros *.
  - intros [Hl Hf]. unfold vec_enc. rewrite wrap_small by (unfold in_u; lia).
    unfold_read. rewrite <- (assoc_L (++)).
    rewrite (run_bind (dec:=Reader.read_u16)) by (unfold in_u; lia).
    destruct (Z.ltb_spec MAX_ITEMS (Z.of_nat (length x))); [unfold MAX_ITEMS in *; lia|].
    rewrite Nat2Z.id. rd_step; [|done].
    by rewrite <- (assoc_L (++)).
  - safe_read.
  - intros Hr. inv_read Hr. unfold in_u in Hwf.
    destruct (Z.ltb_spec MAX_ITEMS x0); [done|]. inv_read Hr. subst.
    destruct Hwf0 as [Hl Hf]. unfold MAX_ITEMS in *.
    split; [split; [lia|done]|]. exists post1. unfold vec_enc.
    rewrite Hl, wrap_small, Z2Nat.id by (unfold in_u; lia).
    by rewrite <- !(assoc_L (++)).
Qed.

#[export] Instance vec_SerOk : SerOk (list T) :=
  mk_SerOk vec_enc vec_wf write_vec_append (codec_of vec_codec).
#[export] Instance vec_SerCanon : SerCanon (list T).
Proof. apply (mk_SerCanon vec_enc vec_wf); [apply write_vec_append|done|apply vec_codec]. Qed.

(** [size] multiplies the size of the first element: it is right for
    elements of one size. *)
Lemma vec_size_uniform `{!SerSize T} k (l : list T) :
  vec_wf l -> (forall x, x ∈ l -> size x = k) -> size l = length (to_bytes l).
Proof.
  intros [Hl Hf] Hk. rewrite (to_bytes_enc vec_enc) by apply write_vec_append.
  unfold vec_enc. rewrite length_app, length_be_bytes.
  rewrite (length_concat_bytes _ k).
  - destruct l as [|x l]; [done|]. cbn [size vec_Serializer]. rewrite (Hk x) by left. done.
  - intros x Hx. rewrite <- ser_size; [auto|]. rewrite list.Forall_forall in Hf. auto.
Qed.
End VecSer.

Section IndexSetSer.
Context `{IndexSetLib T, !Serializer T}.

#[export] Instance iset_Serializer : Serializer (iset T) := {|
  read :=
    count ← Reader.read_u16;
    if MAX_ITEMS <? count then rd_err InvalidSize
    else set ← read_set InvalidSize read (Z.to_nat count) iset_new; mret set;
  write s w :=
    foldl (fun w el => write el w)
      (Writer.write_u16 (wrap 16 (Z.of_nat (iset_len s))) w) (iset_list s);
  size s :=
    match iset_list s with
    | first :: _ => (2 + iset_len s * size first)%nat
    | [] => 2%nat
    end
|}.

Context `{!SerOk T, !SerCanon T}.

Definition iset_enc (s : iset T) : list byte :=
  be_bytes 2 (wrap 16 (Z.of_nat (iset_len s))) ++ concat_bytes to_bytes (iset_list s).
Definition iset_wf (s : iset T) : Prop :=
  (iset_len s <= 1024)%nat /\ Forall ser_wf (iset_list s).

Lemma write_iset_append s w : write s w = Writer.write_bytes (iset_enc s) w.
Proof. cbn [write iset_Serializer]. by autorewrite with ser. Qed.

Lemma iset_codec : CodecCanon (iset T) iset_enc read iset_wf.
Proof.
  apply mk_codec_canon; intros *.
  - intros [Hl Hf]. unfold iset_enc. rewrite wrap_small by (unfold in_u; lia).
    unfold_read. rewrite <- (assoc_L (++)).
    rewrite (run_bind (dec:=Reader.read_u16)) by (unfold in_u; lia).
    destruct (Z.ltb_spec MAX_ITEMS (Z.of_nat (iset_len x))); [unfold MAX_ITEMS in *; lia|].
    rewrite Nat2Z.id. rd_step; [|done].
    by rewrite <- (assoc_L (++)).
  - safe_read.
  - intros Hr. inv_read Hr. unfold in_u in Hwf.
    destruct (Z.ltb_spec MAX_ITEMS x0); [done|]. inv_read Hr. subst.
    destruct Hwf0 as [Hl Hf]. unfold MAX_ITEMS in *.
    split; [split; [lia|done]|]. exists post1. unfold iset_enc.
    rewrite Hl, wrap_small, Z2Nat.id by (unfold in_u; lia).
    by rewrite <- !(assoc_L (++)).
Qed.

#[export] Instance iset_SerOk : SerOk (iset T) :=
  mk_SerOk iset_enc iset_wf write_iset_append (codec_of iset_codec).
#[export] Instance iset_SerCanon : SerCanon (iset T).
Proof. apply (mk_SerCanon iset_enc iset_wf); [apply write_iset_append|done|apply iset_codec]. Qed.
End IndexSetSer.

(** *** Tuples *)
#[export] Instance pair_Serializer `{Serializer L, Serializer R} : Serializer (L * R) := {|
  read := l ← read; r ← read; mret (l, r);
  write p w := write p.2 (write p.1 w);
  size p := (size p.1 + size p.2)%nat
|}.

Definition triple_Serializer `{Serializer A, Serializer B, Serializer C} :
    Serializer (A * B * C) := {|
  read := a ← read; b ← read; c ← read; mret (a, b, c);
  write p w := write p.2 (write p.1.2 (write p.1.1 w));
  size p := (size p.1.1 + size p.1.2 + size p.2)%nat
|}.

Section PairSer.
Context `{SerCanon L, SerCanon R}.

Definition pair_enc (p : L * R) : list byte := to_bytes p.1 ++ to_bytes p.2.
Definition pair_wf (p : L * R) : Prop := ser_wf p.1 /\ ser_wf p.2.

Lemma write_pair_append (p : L * R) w : write p w = Writer.write_bytes (pair_enc p) w.
Proof. cbn [write pair_Serializer]. by autorewrite with ser. Qed.

Lemma pair_codec : CodecCanon (L * R) pair_enc read pair_wf.
Proof.
  apply mk_codec_canon; intros *.
  - destruct x as [l r]. intros [Hl Hr]. unfold pair_enc; simpl in *. by run_read.
  - safe_read.
  - intros Hr. inv_read Hr. subst. split; [done|]. exists post1.
    unfold pair_enc; simpl. by rewrite <- !(assoc_L (++)).
Qed.

#[export] Instance pair_SerOk : SerOk (L * R) :=
  mk_SerOk pair_enc pair_wf write_pair_append (codec_of pair_codec).
#[export] Instance pair_SerCanon : SerCanon (L * R).
Proof. apply (mk_SerCanon pair_enc pair_wf); [apply write_pair_append|done|apply pair_codec]. Qed.
End PairSer.

(** *** Maps

    A map is written entry by entry, in the iteration order of the container,
    and read back by inserting: a duplicated key is not refused, the last
    entry wins. *)
Section MapSer.
Context `{SerCanon K, SerCanon V}.

Fixpoint read_entries {M} (ins : K -> V -> M -> M) (n : nat) (m : M) : rd M :=
  match n with
  | O => mret m
  | S n => k ← read; v ← read; read_entries ins n (ins k v m)
  end.

Definition write_entries (entries : list (K * V)) (w : Writer) : Writer :=
  foldl (fun w '(key, value) => write value (write key w))
    (Writer.write_u16 (wrap 16 (Z.of_nat (length entries))) w) entries.

Definition size_entries (entries : list (K * V)) : nat :=
  foldl (fun s '(key, value) => s + (size key + size value))%nat 2%nat entries.

Definition entries_enc (l : list (K * V)) : list byte :=
  be_bytes 2 (wrap 16 (Z.of_nat (length l))) ++ concat_bytes pair_enc l.

Lemma write_entries_append l w :
  write_entries l w = Writer.write_bytes (entries_enc l) w.
Proof.
  unfold write_entries, entries_enc. autorewrite with ser.
  rewrite <- write_bytes_write_bytes. generalize (Writer.write_bytes
    (be_bytes 2 (wrap 16 (Z.of_nat (length l)))) w). clear w.
  induction l as [|[k v] l IH]; intros w; simpl.
  - unfold Writer.write_bytes. rewrite app_nil_r. by destruct w.
  - rewrite IH. autorewrite with ser. rewrite concat_bytes_cons. unfold pair_enc; simpl.
    by rewrite <- !(assoc_L (++)).
Qed.

Lemma read_entries_run {M} (ins : K -> V -> M -> M) l m pre post :
  Forall pair_wf l ->
  read_entries ins (length l) m (reader_at pre (concat_bytes pair_enc l ++ post)) =
    Ok (foldl (fun m p => ins p.1 p.2 m) m l, reader_at (pre ++ concat_bytes pair_enc l) post).
Proof.
  revert m pre. induction l as [|[k v] l IH]; intros m pre Hf; cbn [read_entries length foldl].
  - by rewrite app_nil_r.
  - inversion_clear Hf as [|?? [Hk Hv] Hl]. rewrite concat_bytes_cons. unfold pair_enc at 1 3.
    simpl in *. rewrite <- !(assoc_L (++)). rd_step; [|done]. rd_step; [|done].
    rewrite IH by done. by rewrite <- !(assoc_L (++)).
Qed.

(** [HashMap]: a [gmap]; [iter] is the unspecified iteration order. *)
Section HashMap.
Context `{!EqDecision K, !Countable K} (iter : gmap K V -> list (K * V)).

Definition hashmap_read : rd (gmap K V) :=
  size ← Reader.read_u16; map ← read_entries (fun k v m => <[k := v]> m) (Z.to_nat size) ∅; mret map.
Definition hashmap_write (m : gmap K V) (w : Writer) : Writer := write_entries (iter m) w.
Definition hashmap_size (m : gmap K V) : nat := size_entries (iter m).

Lemma hashmap_rt m pre post :
  iter m ≡ₚ map_to_list m ->
  Forall pair_wf (iter m) -> Z.of_nat (length (iter m)) < 2 ^ 16 ->
  hashmap_read (reader_at pre (entries_enc (iter m) ++ post)) =
    Ok (m, reader_at (pre ++ entries_enc (iter m)) post).
Proof.
  intros Hp Hwf Hlen. unfold hashmap_read, entries_enc.
  rewrite wrap_small, <- (assoc_L (++)) by (unfold in_u; lia).
  rewrite (run_bind (dec:=Reader.read_u16)) by (unfold in_u; lia).
  rewrite Nat2Z.id. unfold mbind at 1, rd_bind at 1.
  rewrite read_entries_run by done. unfold mret, rd_ret. rewrite <- (assoc_L (++)).
  do 2 f_equal.
  assert (NoDup (iter m).*1) as Hnd.
  { rewrite Hp. apply NoDup_fst_map_to_list. }
  transitivity (list_to_map (iter m) : gmap K V).
  2: { rewrite <- (list_to_map_to_list m) at 2. by apply list_to_map_proper. }
  assert (forall l (m0 : gmap K V), NoDup l.*1 -> (forall k, k ∈ l.*1 -> m0 !! k = None) ->
    foldl (fun m p => <[p.1 := p.2]> m) m0 l = list_to_map l ∪ m0) as Hfold.
  { induction l as [|[k v] l IH]; intros m0 Hl Hm; csimpl in *.
    - by rewrite (left_id_L ∅ (∪)).
    - inversion_clear Hl as [|?? Hk Hl'].
      rewrite IH; [|done|].
      + rewrite <- insert_union_l, insert_union_r; [done|].
        by apply not_elem_of_list_to_map.
      + intros k' Hk'. rewrite lookup_insert_ne by set_solver. apply Hm. set_solver. }
  rewrite Hfold; [by rewrite (right_id_L ∅ (∪))|done|]. intros. apply lookup_empty.
Qed.
End HashMap.

(** [IndexMap] *)
Section IndexMap.
Context `{HM : IndexMapLib K V}.

Definition imap_read : rd (imap K V) :=
  size ← Reader.read_u16; map ← read_entries imap_insert (Z.to_nat size) imap_new; mret map.
Definition imap_write (m : imap K V) (w : Writer) : Writer := write_entries (imap_list m) w.
Definition imap_size (m : imap K V) : nat := size_entries (imap_list m).

Lemma imap_fold_insert l m :
  NoDup (imap_list m ++ l).*1 ->
  imap_list (foldl (fun m p => imap_insert p.1 p.2 m) m l) = imap_list m ++ l.
Proof.
  revert m; induction l as [|[k v] l IH]; intros m Hnd; simpl; [by rewrite app_nil_r|].
  assert (k ∉ (imap_list m).*1) as Hk.
  { rewrite fmap_app in Hnd. apply list.NoDup_app in Hnd as (_ & Hd & _).
    intros Hk. apply (Hd _ Hk). csimpl. left. }
  rewrite IH; rewrite imap_insert_spec, alist_insert_fresh by done;
    by rewrite <- (assoc_L (++)).
Qed.

Lemma imap_rt m pre post :
  Forall pair_wf (imap_list m) -> Z.of_nat (length (imap_list m)) < 2 ^ 16 ->
  imap_read (reader_at pre (entries_enc (imap_list m) ++ post)) =
    Ok (m, reader_at (pre ++ entries_enc (imap_list m)) post).
Proof.
  intros Hwf Hlen. unfold imap_read, entries_enc.
  rewrite wrap_small, <- (assoc_L (++)) by (unfold in_u; lia).
  rewrite (run_bind (dec:=Reader.read_u16)) by (unfold in_u; lia).
  rewrite Nat2Z.id. unfold mbind at 1, rd_bind at 1.
  rewrite read_entries_run by done. unfold mret, rd_ret. rewrite <- (assoc_L (++)).
  do 2 f_equal. apply imap_ext. rewrite imap_fold_insert.
  - by rewrite imap_new_spec.
  - rewrite imap_new_spec. apply imap_NoDup.
Qed.
End IndexMap.
End MapSer.

(** *** [HashSet<Hash>]: the tips on disk

    The set has no length prefix: it owns the whole buffer, and the count is
    the size of the buffer. *)
Section HashSet.
Context (iter : gset Hash -> list Hash).

Fixpoint read_hash_set (n : nat) (tips : gset Hash) : rd (gset Hash) :=
  match n with
  | O => mret tips
  | S n => hash ← read_hash; read_hash_set n ({[hash]} ∪ tips)
  end.

Definition hashset_read : rd (gset Hash) := fun reader =>
  let total_size := Reader.total_size reader in
  if bool_decide ((total_size mod HASH_SIZE)%nat <> 0%nat) then Err InvalidSize
  else
    let count := (total_size / HASH_SIZE)%nat in
    (tips ← read_hash_set count ∅;
     if bool_decide (base.size (tips : gset Hash) <> count) then rd_err InvalidSize
     else mret tips) reader.
Definition hashset_write (s : gset Hash) (w : Writer) : Writer :=
  foldl (fun w hash => write_hash hash w) w (iter s).
Definition hashset_size (s : gset Hash) : nat := (base.size s * HASH_SIZE)%nat.

Lemma hashset_write_append s w :
  hashset_write s w = Writer.write_bytes (concat_bytes hash_bytes (iter s)) w.
Proof.
  unfold hashset_write. revert w. induction (iter s) as [|h l IH]; intros w; simpl.
  - unfold Writer.write_bytes. rewrite app_nil_r. by destruct w.
  - rewrite IH, write_hash_append. by rewrite write_bytes_write_bytes.
Qed.

Lemma read_hash_set_run l s pre post :
  read_hash_set (length l) s (reader_at pre (concat_bytes hash_bytes l ++ post)) =
    Ok (list_to_set l ∪ s, reader_at (pre ++ concat_bytes hash_bytes l) post).
Proof.
  revert s pre. induction l as [|h l IH]; intros s pre; cbn [read_hash_set length].
  - rewrite app_nil_r. unfold mret, rd_ret. by rewrite list_to_set_nil, (left_id_L ∅ (∪)).
  - rewrite concat_bytes_cons, <- (assoc_L (++)). rd_step; [|done]. rewrite IH.
    rewrite <- (assoc_L (++)). do 2 f_equal. set_solver.
Qed.
End HashSet.

(** *** [SocketAddr] *)
Inductive IpAddr :=
  | V4 (octets : vec byte 4)
  | V6 (segments : list Z).
Record SocketAddr := mkSocketAddr { ip : IpAddr; port : Z }.

Definition v6_octets (segments : list Z) : list byte := concat_bytes (be_bytes 2) segments.

Definition read_ip : rd IpAddr :=
  is_v6 ← Reader.read_bool;
  if negb is_v6 then
    a ← Reader.read_u8; b ← Reader.read_u8; c ← Reader.read_u8; d ← Reader.read_u8;
    mret (V4 [# to_byte a; to_byte b; to_byte c; to_byte d])
  else
    segments ← read_n Reader.read_u16 8; mret (V6 segments).

Definition socket_read : rd SocketAddr :=
  ip ← read_ip; port ← Reader.read_u16; mret (mkSocketAddr ip port).

Definition socket_write (s : SocketAddr) (w : Writer) : Writer :=
  let w :=
    match s.(ip) with
    | V4 addr => Writer.write_bytes (vec_to_list addr) (Writer.write_u8 0 w)
    | V6 addr => Writer.write_bytes (v6_octets addr) (Writer.write_u8 1 w)
    end in
  Writer.write_u16 s.(port) w.

Definition socket_size (s : SocketAddr) : nat :=
  match s.(ip) with V4 _ => (1 + 4 + 2)%nat | V6 _ => (1 + 16 + 2)%nat end.

#[export] Instance SocketAddr_Serializer : Serializer SocketAddr :=
  {| read := socket_read; write := socket_write; size := socket_size |}.

(** The values of the Rust type: eight 16-bit segments and a 16-bit port. *)
Definition ip_wf (a : IpAddr) : Prop :=
  match a with V4 _ => True | V6 l => length l = 8%nat /\ Forall (in_u 16) l end.
Definition socket_wf (s : SocketAddr) : Prop := ip_wf s.(ip) /\ in_u 16 s.(port).

Definition ip_enc (a : IpAddr) : list byte :=
  match a with
  | V4 o => bool_bytes false ++ vec_to_list o
  | V6 l => bool_bytes true ++ v6_octets l
  end.
Definition socket_enc (s : SocketAddr) : list byte := ip_enc s.(ip) ++ be_bytes 2 s.(port).

Lemma socket_write_append s w : socket_write s w = Writer.write_bytes (socket_enc s) w.
Proof.
  destruct s as [[o|l] p]; unfold socket_write, socket_enc; simpl; by autorewrite with ser.
Qed.

Lemma u8_bytes_val b : u8_bytes (byte_val b) = [b].
Proof. unfold u8_bytes. by rewrite to_byte_val. Qed.

#[export] Instance read_ip_codec : CodecCanon IpAddr ip_enc read_ip ip_wf.
Proof.
  unfold read_ip. apply mk_codec_canon; intros *.
  - destruct x as [o|l]; unfold ip_wf, ip_enc.
    + intros _. inv_vec o; intros a b c d. cbn [vec_to_list].
      change [a; b; c; d] with ([a] ++ [b] ++ [c] ++ [d]). rewrite <- !u8_bytes_val.
      rewrite <- !(assoc_L (++)). rd_step; [cbn [negb]|done].
      do 4 (rd_step; [|apply byte_val_range]).
      unfold mret, rd_ret. by rewrite <- !(assoc_L (++)), !to_byte_val.
    + intros Hwf. rewrite <- !(assoc_L (++)). rd_step; [cbn [negb]|done].
      unfold v6_octets. rd_step; [|done]. unfold mret, rd_ret. by rewrite <- !(assoc_L (++)).
  - safe_read.
  - intros H. inv_read H. destruct x0; cbn [negb] in H; inv_read H; subst.
    + split; [done|]. exists post1. simpl. by rewrite <- !(assoc_L (++)).
    + split; [done|]. exists post4. cbn [ip_enc vec_to_list].
      by rewrite <- !(assoc_L (++)).
Qed.

Lemma socket_codec : CodecCanon SocketAddr socket_enc read socket_wf.
Proof.
  apply mk_codec_canon; intros *.
  - destruct x as [i p]. intros [Hi Hp]. unfold socket_enc; simpl in *.
    change (read (A:=SocketAddr)) with socket_read. unfold socket_read.
    rewrite <- !(assoc_L (++)). rd_step; [|done]. rd_step; [|done].
    unfold mret, rd_ret. by rewrite <- !(assoc_L (++)).
  - change (read (A:=SocketAddr)) with socket_read. unfold socket_read. safe_read.
  - change (read (A:=SocketAddr)) with socket_read. unfold socket_read.
    intros H. inv_read H. subst. split; [done|]. exists post1.
    unfold socket_enc; simpl. by rewrite <- !(assoc_L (++)).
Qed.

#[export] Instance socket_SerOk : SerOk SocketAddr :=
  mk_SerOk (HS:=SocketAddr_Serializer) socket_enc socket_wf socket_write_append (codec_of socket_codec).
#[export] Instance socket_SerCanon : SerCanon SocketAddr.
Proof. apply (mk_SerCanon socket_enc socket_wf); [apply socket_write_append|done|apply socket_codec]. Qed.
#[export] Instance socket_SerSize : SerSize SocketAddr.
Proof.
  constructor. intros [[o|l] p] [Hi Hp];
    rewrite (to_bytes_enc socket_enc) by apply socket_write_append;
    unfold socket_enc; simpl in *; rewrite ?length_app, ?length_vec_to_list; [done|].
  destruct Hi as [Hl _]. unfold v6_octets.
  rewrite (length_concat_bytes _ 2) by (intros; apply length_be_bytes). by rewrite Hl.
Qed.
