(* ===== verification/Text.v ===== *)
(** Text: what the sources use of Rust's [str] and [char].

    A string is its well-formed UTF-8 bytes ([Defaults.RString]), and a
    character the bytes that encode it.  The case mappings of Unicode are
    tables of the standard library: [UnicodeCase] keeps what the sources rely
    on, their effect on ASCII strings. *)

From S2P Require Import Prelude External Serializer Hash Defaults.
From Stdlib Require Strings.String.

Definition char : Type := list byte.

(** How many bytes the character that starts with [b] has. *)
Definition char_width (b : byte) : nat :=
  if byte_val b <? 128 then 1%nat else if byte_val b <? 224 then 2%nat
  else if byte_val b <? 240 then 3%nat else 4%nat.

(** [str::chars], on well-formed bytes. *)
Fixpoint bytes_chars (l : list byte) : list char :=
  match l with
  | [] => []
  | b0 :: l0 =>
      if byte_val b0 <? 128 then [b0] :: bytes_chars l0 else
      match l0 with
      | [] => []
      | b1 :: l1 =>
          if byte_val b0 <? 224 then [b0; b1] :: bytes_chars l1 else
          match l1 with
          | [] => []
          | b2 :: l2 =>
              if byte_val b0 <? 240 then [b0; b1; b2] :: bytes_chars l2 else
              match l2 with
              | [] => []
              | b3 :: l3 => [b0; b1; b2; b3] :: bytes_chars l3
              end
          end
      end
  end.
Definition chars (s : RString) : list char := bytes_chars (str_bytes s).

(** [c as u32], the scalar value. *)
Definition char_code (c : char) : Z :=
  match c with
  | [b0] => byte_val b0
  | [b0; b1] => byte_val b0 mod 32 * 64 + byte_val b1 mod 64
  | [b0; b1; b2] => (byte_val b0 mod 16 * 64 + byte_val b1 mod 64) * 64 + byte_val b2 mod 64
  | [b0; b1; b2; b3] =>
      ((byte_val b0 mod 8 * 64 + byte_val b1 mod 64) * 64 + byte_val b2 mod 64) * 64 + byte_val b3 mod 64
  | _ => 0
  end.

Definition ascii (l : list byte) : Prop := Forall (fun b => byte_val b < 128) l.
#[export] Instance ascii_dec l : Decision (ascii l).
Proof. unfold ascii. apply _. Defined.

(** A literal of the sources. *)
Definition empty_string : RString := dexist ([] : list byte) eq_refl.
Definition lit (s : string) : RString := default empty_string (from_utf8 (Strings.String.list_byte_of_string s)).

Definition lower_byte (b : byte) : byte :=
  if (65 <=? byte_val b) && (byte_val b <=? 90) then to_byte (byte_val b + 32) else b.
Definition upper_byte (b : byte) : byte :=
  if (97 <=? byte_val b) && (byte_val b <=? 122) then to_byte (byte_val b - 32) else b.

Class UnicodeCase := {
  to_lowercase : RString -> RString;
  to_uppercase : RString -> RString;
  to_lowercase_ascii s : ascii (str_bytes s) -> str_bytes (to_lowercase s) = lower_byte <$> str_bytes s;
  to_uppercase_ascii s : ascii (str_bytes s) -> str_bytes (to_uppercase s) = upper_byte <$> str_bytes s;
}.

(** The last occurrence of a byte: [str::rfind] of an ASCII character. *)
Fixpoint rfind (c : byte) (l : list byte) : option nat :=
  match l with
  | [] => None
  | b :: l =>
      match rfind c l with
      | Some i => Some (S i)
      | None => if decide (b = c) then Some O else None
      end
  end.

(** The first occurrence of a byte: [str::find]. *)
Fixpoint find (c : byte) (l : list byte) : option nat :=
  match l with
  | [] => None
  | b :: l => if decide (b = c) then Some O else S <$> find c l
  end.

(** [&s[..n]]: a panic when [n] is not the boundary of a character. *)
Definition str_prefix {E} (s : RString) (n : nat) : res E RString :=
  if bool_decide (n <= str_len s)%nat then unwrap (from_utf8 (take n (str_bytes s))) else Panic.

(** ** Facts *)

Lemma str_bytes_inj s t : str_bytes s = str_bytes t -> s = t.
Proof. intros Hst. apply dsig_eq, Hst. Qed.

Lemma str_valid s : utf8_valid (str_bytes s) = true.
Proof. apply (proj2_dsig s). Qed.

Lemma from_utf8_valid l : utf8_valid l = true -> exists s, from_utf8 l = Some s /\ str_bytes s = l.
Proof. intros Hl. unfold from_utf8. destruct (decide _) as [H|]; [|done]. by eexists. Qed.

Lemma ascii_valid l : ascii l -> utf8_valid l = true.
Proof. induction 1 as [|b l Hb Hl IH]; [done|]. simpl. by rewrite (proj2 (Z.ltb_lt _ _) Hb). Qed.

Lemma ascii_chars l : ascii l -> bytes_chars l = (fun b => [b]) <$> l.
Proof. induction 1 as [|b l Hb Hl IH]; [done|]. csimpl. by rewrite (proj2 (Z.ltb_lt _ _) Hb), IH. Qed.

(** Strings by the number of their bytes, character by character. *)
Lemma utf8_prefix l b l' :
  byte_val b < 128 -> utf8_valid (l ++ b :: l') = true -> utf8_valid l = true /\ utf8_valid l' = true.
Proof.
  intros Hb. remember (length l) as n eqn:Hn. revert l Hn.
  induction n as [n IH] using lt_wf_ind; intros l ->.
  assert (forall lo hi, 128 <= lo -> in_rng lo hi b = false) as Hrng.
  { intros lo hi Hlo. unfold in_rng. destruct (Z.leb_spec lo (byte_val b)); [lia|done]. }
  assert (forall m, (length m < length l)%nat -> utf8_valid (m ++ b :: l') = true ->
    utf8_valid m = true /\ utf8_valid l' = true) as IH' by (intros m Hm; by apply (IH (length m))).
  destruct l as [|b0 l0]; simpl app.
  { simpl. rewrite (proj2 (Z.ltb_lt _ _) Hb). done. }
  simpl. destruct (byte_val b0 <? 128) eqn:H0; [apply IH'; simpl; lia|].
  destruct l0 as [|b1 l1]; simpl.
  { unfold is_cont. rewrite !Hrng by lia. destruct (in_rng 194 223 b0); [done|].
    destruct l' as [|b2 l2]; [done|]. destruct (in_rng 224 239 b0).
    - by repeat case_match.
    - destruct l2; [done|]. destruct (in_rng 240 244 b0); [|done]. by repeat case_match. }
  destruct (in_rng 194 223 b0) eqn:Hb0.
  { rewrite !andb_true_iff. intros [H1 H2]. destruct (IH' l1) as [H3 H4]; [simpl; lia|done|]. done. }
  destruct l1 as [|b2 l2]; simpl.
  { unfold is_cont. rewrite !Hrng by lia. destruct (in_rng 224 239 b0); [by rewrite !andb_false_r|].
    destruct l' as [|b3 l3]; [done|]. by rewrite !andb_false_r. }
  destruct (in_rng 224 239 b0).
  { rewrite !andb_true_iff. intros [H1 H2]. destruct (IH' l2) as [H3 H4]; [simpl; lia|done|]. done. }
  destruct l2 as [|b3 l3]; simpl.
  { unfold is_cont. rewrite !Hrng by lia. by rewrite !andb_false_r. }
  rewrite !andb_true_iff. intros [H1 H2]. destruct (IH' l3) as [H3 H4]; [simpl; lia|done|]. done.
Qed.

Lemma rfind_None c l : rfind c l = None <-> c ∉ l.
Proof.
  induction l as [|b l IH]; simpl; [by split; [intros _ ?%elem_of_nil|]|]. rewrite not_elem_of_cons.
  destruct (rfind c l); [split; [done|]; intros [_ Hc]; by apply IH in Hc|].
  case_decide; naive_solver.
Qed.

Lemma rfind_app c l1 l2 : c ∉ l2 -> rfind c (l1 ++ c :: l2) = Some (length l1).
Proof.
  intros Hc%rfind_None. induction l1 as [|b l1 IH]; simpl; [by rewrite Hc, decide_True|]. by rewrite IH.
Qed.

Lemma rfind_Some c l i : rfind c l = Some i -> exists l1 l2, l = l1 ++ c :: l2 /\ length l1 = i /\ c ∉ l2.
Proof.
  revert i. induction l as [|b l IH]; intros i; simpl; [done|].
  destruct (rfind c l) as [j|] eqn:Hr.
  - intros [= <-]. destruct (IH j eq_refl) as (l1 & l2 & -> & <- & Hc). by exists (b :: l1), l2.
  - case_decide; [|done]. intros [= <-]. subst b. exists [], l. apply rfind_None in Hr. done.
Qed.

Lemma find_lookup c l i : find c l = Some i -> l !! i = Some c.
Proof.
  revert i. induction l as [|b l IH]; intros i; simpl; [done|]. case_decide as Hb; [by intros [= <-]; subst|].
  destruct (find c l) as [j|] eqn:Hf; [|done]. intros [= <-]. simpl. by apply IH.
Qed.

Lemma lookup_find c l i : NoDup l -> l !! i = Some c -> find c l = Some i.
Proof.
  revert i. induction l as [|b l IH]; intros i Hnd; [done|]. apply list.NoDup_cons in Hnd as [Hb Hnd].
  destruct i as [|i]; simpl; [intros [= ->]; by rewrite decide_True|]. intros Hi.
  rewrite decide_False by (intros ->; by apply Hb, (list_elem_of_lookup_2 _ i)). by rewrite (IH i).
Qed.

(** The part of a string before an ASCII character. *)
Lemma str_prefix_run {E} s l b l' :
  str_bytes s = l ++ b :: l' -> byte_val b < 128 ->
  exists t, str_prefix (E:=E) s (length l) = Ok t /\ str_bytes t = l.
Proof.
  intros Hs Hb. pose proof (str_valid s) as Hv. rewrite Hs in Hv.
  destruct (utf8_prefix l b l' Hb Hv) as [Hl _]. destruct (from_utf8_valid l Hl) as (t & Ht & Htl).
  exists t. split; [|done]. unfold str_prefix, str_len. rewrite Hs, length_app, bool_decide_true by lia.
  by rewrite take_app_length, Ht.
Qed.

Lemma lower_byte_ascii b : byte_val b < 128 -> byte_val (lower_byte b) < 128.
Proof.
  intros Hb. unfold lower_byte. case_match eqn:Hr; [|done]. apply andb_true_iff in Hr as [_ Hr%Z.leb_le].
  rewrite byte_val_to_byte. pose proof (byte_val_range b). rewrite Z.mod_small; lia.
Qed.
Lemma upper_byte_ascii b : byte_val b < 128 -> byte_val (upper_byte b) < 128.
Proof.
  intros Hb. unfold upper_byte. case_match eqn:Hr; [|done].
  apply andb_true_iff in Hr as [Hl%Z.leb_le Hr%Z.leb_le]. rewrite byte_val_to_byte, Z.mod_small; lia.
Qed.

Lemma ascii_map f l : (forall b, byte_val b < 128 -> byte_val (f b) < 128) -> ascii l -> ascii (f <$> l).
Proof. intros Hf Hl. apply list.Forall_fmap. by eapply list.Forall_impl. Qed.

(** A case mapping that only knows the ASCII letters. *)
Definition map_ascii (f : byte -> byte) (s : RString) : RString :=
  if decide (ascii (str_bytes s)) then default s (from_utf8 (f <$> str_bytes s)) else s.

Lemma map_ascii_spec f s :
  (forall b, byte_val b < 128 -> byte_val (f b) < 128) ->
  ascii (str_bytes s) -> str_bytes (map_ascii f s) = f <$> str_bytes s.
Proof.
  intros Hf Hs. unfold map_ascii. rewrite decide_True by done.
  destruct (from_utf8_valid (f <$> str_bytes s)) as (t & -> & Ht); [|done]. by apply ascii_valid, ascii_map.
Qed.

Definition unicode_model : UnicodeCase := {|
  to_lowercase := map_ascii lower_byte;
  to_uppercase := map_ascii upper_byte;
  to_lowercase_ascii s := map_ascii_spec lower_byte s lower_byte_ascii;
  to_uppercase_ascii s := map_ascii_spec upper_byte s upper_byte_ascii;
|}.
