(* ===== verification/Data.v ===== *)
(** [xelis_common::api::data]: the typed values that applications attach to
    addresses and transfers, with their lookup by key and their encoding.

    A [DataElement] nests to any depth, and its reader recurses on the bytes
    of the network: the reader takes fuel, and one more than the bytes that are
    left is enough ([read_element_safe]).  A [HashMap] is the list of its
    entries in the order it is iterated, which the standard library does not
    specify: [HashOrder] is that order, and [element_equiv] is the equality of
    elements, which does not see it. *)

From S2P Require Import Prelude External Serializer Hash Defaults.

Module ValueType.
Inductive ValueType := Bool | String | U8 | U16 | U32 | U64 | U128 | Hash.
#[global] Instance eq_dec : EqDecision ValueType.
Proof. solve_decision. Defined.

Definition is_number (t : ValueType) : bool :=
  match t with U128 | U64 | U32 | U16 | U8 => true | _ => false end.

Definition tag (t : ValueType) : Z :=
  match t with Bool => 0 | String => 1 | U8 => 2 | U16 => 3 | U32 => 4 | U64 => 5 | U128 => 6 | Hash => 7 end.

#[global] Instance serializer : Serializer ValueType := {|
  read :=
    t ← Reader.read_u8;
    match t with
    | 0 => mret Bool | 1 => mret String | 2 => mret U8 | 3 => mret U16
    | 4 => mret U32 | 5 => mret U64 | 6 => mret U128 | 7 => mret Hash
    | _ => rd_err InvalidValue
    end;
  write t w := Writer.write_u8 (tag t) w;
  size _ := 1%nat;
|}.
End ValueType.
Abbreviation ValueType := ValueType.ValueType.

Inductive DataConversionError :=
  | ExpectedValue | ExpectedArray | ExpectedElement | ExpectedMap
  | UnexpectedValue (_ : ValueType).

Module DataValue.
Inductive DataValue :=
  | Bool (_ : bool) | String (_ : RString) | U8 (_ : Z) | U16 (_ : Z) | U32 (_ : Z)
  | U64 (_ : Z) | U128 (_ : Z) | Hash (_ : Hash).
#[global] Instance eq_dec : EqDecision DataValue.
Proof. solve_decision. Defined.

Definition kind (v : DataValue) : ValueType :=
  match v with
  | Bool _ => ValueType.Bool | String _ => ValueType.String | U8 _ => ValueType.U8
  | U16 _ => ValueType.U16 | U32 _ => ValueType.U32 | U64 _ => ValueType.U64
  | U128 _ => ValueType.U128 | Hash _ => ValueType.Hash
  end.

Section Conversions.
Implicit Types v : DataValue.
Definition unexpected {A} v : res DataConversionError A := Err (UnexpectedValue (kind v)).
Definition to_bool v := match v with Bool b => Ok b | _ => unexpected v end.
Definition to_string v := match v with String s => Ok s | _ => unexpected v end.
Definition to_u8 v := match v with U8 n => Ok n | _ => unexpected v end.
Definition to_u16 v := match v with U16 n => Ok n | _ => unexpected v end.
Definition to_u32 v := match v with U32 n => Ok n | _ => unexpected v end.
Definition to_u64 v := match v with U64 n => Ok n | _ => unexpected v end.
Definition to_u128 v := match v with U128 n => Ok n | _ => unexpected v end.
Definition to_hash v := match v with Hash h => Ok h | _ => unexpected v end.
End Conversions.

Definition read_with_type (t : ValueType) : rd DataValue :=
  match t with
  | ValueType.Bool => b ← Reader.read_bool; mret (Bool b)
  | ValueType.String => s ← read_string; mret (String s)
  | ValueType.U8 => n ← Reader.read_u8; mret (U8 n)
  | ValueType.U16 => n ← Reader.read_u16; mret (U16 n)
  | ValueType.U32 => n ← Reader.read_u32; mret (U32 n)
  | ValueType.U64 => n ← Reader.read_u64; mret (U64 n)
  | ValueType.U128 => n ← Reader.read_u128; mret (U128 n)
  | ValueType.Hash => h ← read_hash; mret (Hash h)
  end.

Definition write_no_type (v : DataValue) (w : Writer) : Writer :=
  match v with
  | Bool b => Writer.write_bool b w
  | String s => write s w
  | U8 n => Writer.write_u8 n w
  | U16 n => Writer.write_u16 n w
  | U32 n => Writer.write_u32 n w
  | U64 n => Writer.write_u64 n w
  | U128 n => Writer.write_u128 n w
  | Hash h => write_hash h w
  end.

#[global] Instance serializer : Serializer DataValue := {|
  read := t ← read; read_with_type t;
  write v w := write_no_type v (write (kind v) w);
  size v :=
    (match v with
     | Bool b => size b | String s => size s | U8 n => u8_Serializer.(size) n
     | U16 n => u16_Serializer.(size) n | U32 n => u32_Serializer.(size) n
     | U64 n => u64_Serializer.(size) n | U128 n => u128_Serializer.(size) n
     | Hash h => size h
     end + 1)%nat;
|}.
End DataValue.
Abbreviation DataValue := DataValue.DataValue.

(** The order in which a [HashMap] that was filled in the order of a list is
    iterated. *)
Class HashOrder := {
  hash_order {A : Type} : list A -> list A;
  hash_order_perm {A : Type} (l : list A) : hash_order l ≡ₚ l;
}.

Module DataElement.
(** The entries of [Fields] are in the order of iteration of the map. *)
Inductive DataElement :=
  | Value (_ : DataValue)
  | Array (_ : list DataElement)
  | Fields (_ : list (DataValue * DataElement)).

Inductive ElementType := TypeValue (_ : ValueType) | TypeArray | TypeFields.

Definition has_key (e : DataElement) (key : DataValue) : bool :=
  match e with Fields fields => bool_decide (is_Some (alist_lookup key fields)) | _ => false end.

Definition get_value_by_key (e : DataElement) (key : DataValue) (value_type : option ValueType) :
    option DataValue :=
  match e with
  | Fields data =>
      match alist_lookup key data with
      | Some (Value value) =>
          match value_type with
          | Some data_type =>
              if bool_decide (DataValue.kind value <> data_type) then None else Some value
          | None => Some value
          end
      | _ => None
      end
  | _ => None
  end.

Definition get_value_by_string_key (e : DataElement) (name : RString) (value_type : ValueType) :
    option DataValue :=
  get_value_by_key e (DataValue.String name) (Some value_type).

Definition kind (e : DataElement) : ElementType :=
  match e with
  | Array _ => TypeArray
  | Fields _ => TypeFields
  | Value value => TypeValue (DataValue.kind value)
  end.

Definition to_value (e : DataElement) : res DataConversionError DataValue :=
  match e with Value v => Ok v | _ => Err ExpectedValue end.
Definition to_array (e : DataElement) : res DataConversionError (list DataElement) :=
  match e with Array v => Ok v | _ => Err ExpectedArray end.
Definition to_map (e : DataElement) : res DataConversionError (list (DataValue * DataElement)) :=
  match e with Fields v => Ok v | _ => Err ExpectedMap end.

Section Read.
Context {HO : HashOrder}.

(** The loop over the entries of a map. *)
Fixpoint read_fields (dec : rd DataElement) (n : nat) (fields : list (DataValue * DataElement)) :
    rd (list (DataValue * DataElement)) :=
  match n with
  | O => mret fields
  | S n =>
      key ← read (A:=DataValue);
      value ← dec;
      read_fields dec n (alist_insert key value fields)
  end.

Fixpoint read_element (fuel : nat) : rd DataElement :=
  match fuel with
  | O => fun _ => Diverge
  | S fuel =>
      t ← Reader.read_u8;
      match t with
      | 0 => v ← read (A:=DataValue); mret (Value v)
      | 1 =>
          size ← Reader.read_u8;
          values ← read_n (read_element fuel) (Z.to_nat size);
          mret (Array values)
      | 2 =>
          size ← Reader.read_u8;
          fields ← read_fields (read_element fuel) (Z.to_nat size) [];
          mret (Fields (hash_order fields))
      | _ => rd_err InvalidValue
      end
  end.
End Read.

Fixpoint write_element (e : DataElement) (w : Writer) : Writer :=
  match e with
  | Value value => write value (Writer.write_u8 0 w)
  | Array values =>
      foldl (fun w value => write_element value w)
        (Writer.write_u8 (wrap 8 (Z.of_nat (length values))) (Writer.write_u8 1 w)) values
  | Fields fields =>
      foldl (fun w '(key, value) => write_element value (write key w))
        (Writer.write_u8 (wrap 8 (Z.of_nat (length fields))) (Writer.write_u8 2 w)) fields
  end.

Fixpoint size_element (e : DataElement) : nat :=
  (1 + match e with
       | Value value => size value
       | Array values => foldl (fun size value => size + size_element value) 1 values
       | Fields fields =>
           foldl (fun s '(key, value) => s + (size key + size_element value)) 1 fields
       end)%nat.

#[global] Instance serializer {HO : HashOrder} : Serializer DataElement := {|
  read := fun r => read_element (Datatypes.S (Reader.size r)) r;
  write := write_element;
  size := size_element;
|}.
End DataElement.
Abbreviation DataElement := DataElement.DataElement.

(** ** Encodings *)

Definition value_payload (v : DataValue) : list byte :=
  match v with
  | DataValue.Bool b => bool_bytes b
  | DataValue.String s => string_bytes s
  | DataValue.U8 n => u8_bytes n
  | DataValue.U16 n => be_bytes 2 n
  | DataValue.U32 n => be_bytes 4 n
  | DataValue.U64 n => be_bytes 8 n
  | DataValue.U128 n => be_bytes 16 n
  | DataValue.Hash h => hash_bytes h
  end.
Definition type_enc (t : ValueType) : list byte := u8_bytes (ValueType.tag t).
Definition value_enc (v : DataValue) : list byte := type_enc (DataValue.kind v) ++ value_payload v.

(** The values a reader can return: integers of their width, strings whose
    length is one byte. *)
Definition value_wf (v : DataValue) : Prop :=
  match v with
  | DataValue.Bool _ | DataValue.Hash _ => True
  | DataValue.String s => (str_len s <= 255)%nat
  | DataValue.U8 n => in_u 8 n
  | DataValue.U16 n => in_u 16 n
  | DataValue.U32 n => in_u 32 n
  | DataValue.U64 n => in_u 64 n
  | DataValue.U128 n => in_u 128 n
  end.

#[export] Instance value_wf_dec v : Decision (value_wf v).
Proof. destruct v; apply _. Defined.

#[export] Instance value_type_codec :
  CodecCanon ValueType type_enc read (fun _ => True).
Proof.
  unfold type_enc. apply mk_codec_canon; intros *.
  - intros _. destruct x; by run_read.
  - safe_read.
  - intros Hr. inv_read Hr. repeat case_match; inv_read Hr; subst; split; try done; by eexists.
Qed.

Lemma write_value_append (v : DataValue) w : write v w = Writer.write_bytes (value_enc v) w.
Proof.
  unfold value_enc. rewrite <- write_bytes_write_bytes. destruct v; try done.
  apply write_string_append.
Qed.

Lemma read_value : read (A:=DataValue) = (t ← read (A:=ValueType); DataValue.read_with_type t).
Proof. done. Qed.

#[export] Instance value_codec : CodecCanon DataValue value_enc read value_wf.
Proof.
  apply mk_codec_canon; intros *.
  - intros Hx. unfold value_enc. rewrite read_value, <- !(assoc_L (++)).
    rewrite (run_bind (dec:=read (A:=ValueType))) by done. rewrite (assoc_L (++)).
    destruct x; cbn [DataValue.kind DataValue.read_with_type value_payload value_wf] in *;
      (rd_step; [done|exact Hx || done]).
  - rewrite read_value. change (fwd pre post ((read (A:=ValueType) ≫= DataValue.read_with_type) (reader_at pre post))).
    apply fwd_bind. intros [] pre' post'; cbn [DataValue.read_with_type]; safe_read.
  - rewrite read_value. intros ([] & p & _ & -> & Hr)%sound_bind; cbn [DataValue.read_with_type] in Hr;
      inv_read Hr; subst; (split; [done|]); eexists; split; rewrite <- ?(assoc_L (++)); reflexivity.
Qed.

Lemma length_value_enc v : length (value_enc v) = size v.
Proof.
  unfold value_enc. rewrite length_app. destruct v; cbn [value_payload];
    rewrite ?length_be_bytes, ?length_hash_bytes; try done.
  unfold string_bytes. rewrite length_app. unfold type_enc, u8_bytes.
  cbn [length size DataValue.serializer string_Serializer]. unfold str_len. lia.
Qed.

Section Element.
Import DataElement.

Lemma element_ind (P : DataElement -> Prop) :
  (forall v, P (Value v)) ->
  (forall l, Forall P l -> P (Array l)) ->
  (forall l, Forall (fun p => P p.2) l -> P (Fields l)) ->
  forall e, P e.
Proof.
  intros Hv Ha Hf. fix IH 1. intros [v|l|l]; [apply Hv|apply Ha|apply Hf]; clear Hv Ha Hf.
  - induction l as [|x l IHl]; constructor; [apply IH|exact IHl].
  - induction l as [|[k x] l IHl]; constructor; [apply IH|exact IHl].
Qed.

Fixpoint element_enc (e : DataElement) : list byte :=
  match e with
  | Value v => u8_bytes 0 ++ value_enc v
  | Array l => u8_bytes 1 ++ u8_bytes (wrap 8 (Z.of_nat (length l))) ++ concat_bytes element_enc l
  | Fields l =>
      u8_bytes 2 ++ u8_bytes (wrap 8 (Z.of_nat (length l))) ++
      concat_bytes (fun '(k, v) => value_enc k ++ element_enc v) l
  end.

Inductive element_wf : DataElement -> Prop :=
  | wf_value v : value_wf v -> element_wf (Value v)
  | wf_array l : (length l <= 255)%nat -> Forall element_wf l -> element_wf (Array l)
  | wf_fields l : (length l <= 255)%nat -> NoDup l.*1 -> Forall (fun p => value_wf p.1) l ->
      Forall (fun p => element_wf p.2) l -> element_wf (Fields l).

(** Equality of elements: the order of the entries of a map is not a part of it. *)
Inductive element_equiv : Equiv DataElement :=
  | equiv_value v : Value v ≡ Value v
  | equiv_array l l' : Forall2 (≡) l l' -> Array l ≡ Array l'
  | equiv_fields l m l' : Forall2 (fun p q => p.1 = q.1 /\ p.2 ≡ q.2) l m -> m ≡ₚ l' -> Fields l ≡ Fields l'.
#[export] Existing Instance element_equiv.

Abbreviation entry_equiv := (fun p q : DataValue * DataElement => p.1 = q.1 /\ p.2 ≡ q.2).

Lemma element_equiv_refl : Reflexive (≡@{DataElement}).
Proof.
  intros e. induction e as [v|l IH|l IH] using element_ind; [constructor|constructor|].
  - by apply list.Forall_Forall2_diag.
  - apply (equiv_fields l l l); [|done]. apply list.Forall_Forall2_diag.
    eapply list.Forall_impl; [exact IH|]. by intros p Hp.
Qed.

(** Entries equal up to their order, moved through a permutation. *)
Lemma entries_permute (R : DataValue * DataElement -> DataValue * DataElement -> Prop) l l' m :
  l ≡ₚ l' -> Forall2 R l m -> exists m', m ≡ₚ m' /\ Forall2 R l' m'.
Proof. intros Hp Hf. by apply (Permutation_Forall2 Hp) in Hf. Qed.

Lemma element_equiv_sym : Symmetric (≡@{DataElement}).
Proof.
  intros e. induction e as [v|l IH|l IH] using element_ind; intros e' He; inversion He as [|? l' Hl|? m l' Hl Hp]; subst.
  - constructor.
  - constructor. clear He. induction Hl; inversion_clear IH; constructor; auto.
  - assert (Forall2 entry_equiv m l) as Hm.
    { clear He Hp. induction Hl as [|p q l m [Hk Hv] Hl IHl]; inversion_clear IH; constructor; auto. }
    destruct (entries_permute _ _ _ _ Hp Hm) as (l1 & Hl1 & Hl').
    by apply (equiv_fields l' l1 l).
Qed.

Lemma element_equiv_trans : Transitive (≡@{DataElement}).
Proof.
  intros e. induction e as [v|l IH|l IH] using element_ind; intros e1 e2 H1 H2;
    inversion H1 as [|? l1 Hl1|? m1 l1 Hm1 Hp1]; subst; inversion H2 as [|? l2 Hl2|? m2 l2 Hm2 Hp2]; subst.
  - constructor.
  - constructor. clear H1 H2. revert l2 Hl2.
    induction Hl1; intros l2 Hl2; inversion_clear Hl2; inversion_clear IH; constructor; eauto.
  - symmetry in Hp1. destruct (entries_permute _ _ _ _ Hp1 Hm2) as (m & Hm & Hm').
    apply (equiv_fields l m l2); [|by rewrite <- Hm]. clear H1 H2 Hp1 Hp2 Hm Hm2. revert m Hm'.
    induction Hm1 as [|p q l m1 [Hk Hv] Hl IHl]; intros m Hm; inversion_clear Hm as [|? r ? ? [Hk' Hv']];
      inversion_clear IH; constructor; [split; [congruence|eauto]|auto].
Qed.

#[export] Instance element_equivalence : Equivalence (≡@{DataElement}).
Proof.
  split; [apply element_equiv_refl|apply element_equiv_sym|apply element_equiv_trans].
Qed.

(** ** Lookups do not see the order of the map *)

Lemma alist_lookup_elem {V} (k : DataValue) (v : V) l :
  NoDup l.*1 -> alist_lookup k l = Some v <-> (k, v) ∈ l.
Proof.
  induction l as [|[k' v'] l IH]; csimpl; [by split; [|intros ?%elem_of_nil]|].
  intros [Hk Hl]%list.NoDup_cons. rewrite list.elem_of_cons. case_decide as Heq.
  - subst k'. split; [by intros [= ->]; left|]. intros [[= ->]|Hin]; [done|].
    destruct Hk. apply list_elem_of_fmap. by exists (k, v).
  - rewrite IH by done. split; [by right|]. by intros [[= -> ->]|?].
Qed.

Lemma alist_lookup_permute {V} (k : DataValue) (l l' : list (DataValue * V)) :
  NoDup l.*1 -> l ≡ₚ l' -> alist_lookup k l = alist_lookup k l'.
Proof.
  intros Hl Hp. apply option_eq. intros v. rewrite !alist_lookup_elem; [|by rewrite <- Hp|done].
  by rewrite Hp.
Qed.

Lemma length_alist_insert {V} (k : DataValue) (v : V) l : (length (alist_insert k v l) <= S (length l))%nat.
Proof. induction l as [|[k' v'] l IH]; simpl; [lia|]. case_decide; simpl; lia. Qed.

Lemma Forall_alist_insert {V} (Q : DataValue * V -> Prop) k v l :
  Q (k, v) -> Forall Q l -> Forall Q (alist_insert k v l).
Proof.
  intros Hq. induction 1 as [|[k' v'] l Hx HF IH]; simpl; [by repeat constructor|].
  case_decide; [subst; by constructor|by constructor].
Qed.

Lemma entries_keys l m : Forall2 entry_equiv l m -> l.*1 = m.*1.
Proof. induction 1 as [|? ? ? ? []]; csimpl; congruence. Qed.

Lemma alist_lookup_entries (k : DataValue) l m :
  Forall2 entry_equiv l m -> option_Forall2 (≡) (alist_lookup k l) (alist_lookup k m).
Proof.
  induction 1 as [|[k1 v1] [k2 v2] l m [Hk Hv] Hl IH]; simpl in *; [constructor|]. subst k2.
  case_decide; [by constructor|done].
Qed.

Lemma get_value_equiv e e' key t :
  element_wf e -> e ≡ e' -> get_value_by_key e key t = get_value_by_key e' key t.
Proof.
  intros Hwf He. inversion He as [|? ? Hl|l m l' Hl Hp]; subst; [done|done|]. inversion Hwf as [| |? _ Hnd _ _]; subst.
  simpl. rewrite <- (alist_lookup_permute key m l') by (by rewrite <- ?(entries_keys _ _ Hl)).
  destruct (alist_lookup_entries key _ _ Hl) as [? ? Hv|]; [|done]. by inversion Hv.
Qed.

(** ** Reading *)

Definition field_enc (p : DataValue * DataElement) : list byte := value_enc p.1 ++ element_enc p.2.

Lemma element_enc_fields l :
  element_enc (Fields l) =
    u8_bytes 2 ++ u8_bytes (wrap 8 (Z.of_nat (length l))) ++ concat_bytes field_enc l.
Proof.
  simpl. do 2 f_equal. unfold concat_bytes. f_equal. apply list_fmap_ext. by intros ? [k v] _.
Qed.

Lemma length_concat_sum {A} (enc : A -> list byte) l : length (concat_bytes enc l) = sum_list ((length ∘ enc) <$> l).
Proof. induction l as [|a l IH]; [done|]. rewrite concat_bytes_cons, length_app, IH. done. Qed.

Definition fields_wf (l : list (DataValue * DataElement)) : Prop :=
  NoDup l.*1 /\ Forall (fun p => value_wf p.1) l /\ Forall (fun p => element_wf p.2) l.

Lemma fields_wf_insert key value l :
  value_wf key -> element_wf value -> fields_wf l -> fields_wf (alist_insert key value l).
Proof.
  intros Hkey Hval (Hn & Hk & Hv). split; [|by split; apply Forall_alist_insert].
  rewrite alist_insert_keys. case_decide as Hin; [done|]. apply list.NoDup_app. split; [done|].
  split; [|apply NoDup_singleton]. intros k Hk' ->%list_elem_of_singleton. done.
Qed.

Lemma length_fields_insert key value l :
  (length (concat_bytes field_enc (alist_insert key value l)) <=
    length (concat_bytes field_enc l) + length (field_enc (key, value)))%nat.
Proof.
  induction l as [|[k v] l IH]; cbn [alist_insert].
  - rewrite concat_bytes_cons, length_app. unfold concat_bytes. simpl. lia.
  - case_decide; subst; rewrite !concat_bytes_cons, !length_app; lia.
Qed.

Section Reading.
Context {HO : HashOrder}.

(** What a sequence of reads does, where [P] relates the value it returns and
    the number of bytes it takes. *)
Definition reads {A} (P : A -> nat -> Prop) (pre post : list byte) (o : res ReaderError (A * Reader)) : Prop :=
  match o with
  | Ok (x, r) => exists c post', P x (length c) /\ post = c ++ post' /\ r = reader_at (pre ++ c) post'
  | Err _ => True
  | Panic | Diverge => False
  end.

Lemma reads_ret {A} (P : A -> nat -> Prop) x pre post :
  P x 0%nat -> reads P pre post ((mret x : rd A) (reader_at pre post)).
Proof. intros Hx. exists [], post. by rewrite app_nil_r. Qed.

Lemma reads_bind {A B} (P : A -> nat -> Prop) (Q : B -> nat -> Prop) (m : rd A) (f : A -> rd B) pre post :
  reads P pre post (m (reader_at pre post)) ->
  (forall x c post', P x (length c) -> post = c ++ post' ->
     reads (fun y n => Q y (length c + n)%nat) (pre ++ c) post' (f x (reader_at (pre ++ c) post'))) ->
  reads Q pre post ((m ≫= f) (reader_at pre post)).
Proof.
  unfold mbind, rd_bind. destruct (m _) as [[x r]| | |]; try done. intros (c & post' & Hx & -> & ->) Hf.
  specialize (Hf x c post' Hx eq_refl). destruct (f x _) as [[y r]| | |]; try done.
  destruct Hf as (c' & post2 & Hy & -> & ->). exists (c ++ c'), post2. by rewrite length_app, !(assoc_L (++)).
Qed.

Lemma reads_codec `{CodecCanon A enc dec wf} pre post :
  reads (fun x n => wf x /\ n = length (enc x)) pre post (dec (reader_at pre post)).
Proof.
  pose proof (codec_safe (dec:=dec) pre post) as Hs. pose proof (codec_sound (dec:=dec) pre post) as Hc.
  destruct (dec _) as [[x r]| | |]; try done. destruct (Hc x r eq_refl) as (Hx & p & -> & ->).
  by eexists _, _.
Qed.

(** A byte read is a byte less to read. *)
Lemma reads_u8 {B} (Q : B -> nat -> Prop) (f : Z -> rd B) pre post :
  (forall n b post', in_u 8 n -> post = b :: post' ->
     reads (fun y n => Q y (S n)) (pre ++ [b]) post' (f n (reader_at (pre ++ [b]) post'))) ->
  reads Q pre post ((Reader.read_u8 ≫= f) (reader_at pre post)).
Proof.
  intros Hf. eapply reads_bind; [apply reads_codec|]. intros n c post' [Hn Hc] ->.
  unfold u8_bytes in Hc. destruct c as [|b [|]]; try done. by apply Hf.
Qed.

Lemma reads_weaken {A} (P Q : A -> nat -> Prop) pre post o :
  (forall x n, P x n -> Q x n) -> reads P pre post o -> reads Q pre post o.
Proof. intros HPQ. destruct o as [[x r]| | |]; simpl; naive_solver. Qed.

(** A well-formed value that does not take more bytes than were read. *)
Abbreviation within P enc := (fun x n => P x /\ (length (enc x) <= n)%nat).

Lemma read_n_reads {A} (P : A -> Prop) (enc : A -> list byte) (dec : rd A) n pre post :
  (forall pre' post', (length post' <= length post)%nat -> reads (within P enc) pre' post' (dec (reader_at pre' post'))) ->
  reads (within (fun l => length l = n /\ Forall P l) (concat_bytes enc)) pre post (read_n dec n (reader_at pre post)).
Proof.
  revert pre post. induction n as [|n IH]; intros pre post Hd; [by apply reads_ret|].
  simpl. eapply reads_bind; [by apply Hd|]. intros x c post' [Hx Hc] ->.
  eapply reads_bind; [apply IH; intros p q Hq; apply Hd; rewrite length_app; lia|].
  intros l c' post2 [[Hl Hf] Hc'] _. apply reads_ret. rewrite concat_bytes_cons, length_app.
  split; [split; [simpl; lia|by constructor]|lia].
Qed.

Lemma read_fields_reads dec n acc pre post :
  (forall pre' post', (length post' <= length post)%nat ->
     reads (within element_wf element_enc) pre' post' (dec (reader_at pre' post'))) ->
  fields_wf acc ->
  reads (fun l m => (length l <= length acc + n)%nat /\ fields_wf l /\
      (length (concat_bytes field_enc l) <= length (concat_bytes field_enc acc) + m)%nat)
    pre post (read_fields dec n acc (reader_at pre post)).
Proof.
  revert acc pre post. induction n as [|n IH]; intros acc pre post Hd Hacc.
  { apply reads_ret. split; [lia|]. split; [done|lia]. }
  simpl. eapply reads_bind; [apply reads_codec|]. intros key c post' [Hkey Hc] ->.
  eapply reads_bind; [apply Hd; rewrite length_app; lia|]. intros value c' post2 [Hval Hc'] ->.
  eapply reads_weaken; [|apply (IH (alist_insert key value acc))].
  - cbv beta. intros l m (Hl & Hwf & Hm). split.
    { pose proof (length_alist_insert key value acc) as Hlen. clear -Hl Hlen. lia. }
    split; [done|].
    pose proof (length_fields_insert key value acc) as Hi. unfold field_enc in Hi at 3. cbn [fst snd] in Hi.
    rewrite length_app in Hi. lia.
  - intros p q Hq. apply Hd. rewrite !length_app. lia.
  - by apply fields_wf_insert.
Qed.

(** One more than the bytes that are left is enough fuel, and what is read is
    well-formed. *)
Lemma read_element_safe fuel pre post :
  (length post < fuel)%nat ->
  reads (within element_wf element_enc) pre post (read_element fuel (reader_at pre post)).
Proof.
  revert pre post. induction fuel as [|fuel IH]; intros pre post Hl; [lia|].
  cbn [read_element]. apply reads_u8. intros t b p _ ->. simpl in Hl.
  assert (forall pre' post', (length post' <= length p)%nat ->
    reads (within element_wf element_enc) pre' post' (read_element fuel (reader_at pre' post'))) as Hd by (intros; apply IH; lia).
  destruct t as [|[[?|?|]|[?|?|]|]|]; try done.
  - eapply reads_bind; [apply reads_codec|]. intros v c p' [Hv Hc] _. apply reads_ret.
    cbn [element_enc]. rewrite length_app. split; [by constructor|]. unfold u8_bytes. cbn [length]. lia.
  - apply reads_u8. intros n b' p' Hn ->.
    eapply reads_bind; [apply read_fields_reads|].
    + intros ?? Hq. apply Hd. simpl. lia.
    + repeat split; constructor.
    + intros l c p2 (Hlen & (Hnd & Hk & Hv) & Hc) _. apply reads_ret. pose proof (hash_order_perm l) as Hp.
      unfold in_u in Hn. cbn [length Nat.add] in Hlen, Hc. split.
      * constructor; rewrite ?Hp; try done. lia.
      * rewrite element_enc_fields, !length_app, length_concat_sum, Hp, <- length_concat_sum.
        unfold u8_bytes. cbn [length]. simpl in Hc. lia.
  - apply reads_u8. intros n b' p' Hn ->.
    eapply reads_bind; [apply (read_n_reads element_wf element_enc)|].
    + intros ?? Hq. apply Hd. simpl. lia.
    + intros l c p2 [(Hlen & Hf) Hc] _. apply reads_ret. unfold in_u in Hn. split; [constructor; [lia|done]|].
      cbn [element_enc]. rewrite !length_app. unfold u8_bytes. simpl. lia.
Qed.

(** ** Reading what was written *)

Lemma foldl_write_elements l w :
  Forall (fun e => forall w, write_element e w = Writer.write_bytes (element_enc e) w) l ->
  foldl (fun w value => write_element value w) w l = Writer.write_bytes (concat_bytes element_enc l) w.
Proof.
  intros Hf. revert w. induction Hf as [|e l He Hf IH]; intros w; simpl.
  - unfold Writer.write_bytes. rewrite app_nil_r. by destruct w.
  - by rewrite IH, He, write_bytes_write_bytes.
Qed.

Lemma foldl_write_fields l w :
  Forall (fun p => forall w, write_element p.2 w = Writer.write_bytes (element_enc p.2) w) l ->
  foldl (fun w '(key, value) => write_element value (write key w)) w l =
    Writer.write_bytes (concat_bytes field_enc l) w.
Proof.
  intros Hf. revert w. induction Hf as [|[k e] l He Hf IH]; intros w; cbn [foldl fst snd] in *.
  - unfold Writer.write_bytes. simpl. rewrite app_nil_r. by destruct w.
  - rewrite IH, He, write_value_append, !write_bytes_write_bytes. unfold concat_bytes. simpl.
    unfold field_enc at 2. simpl. by rewrite <- (assoc_L (++)).
Qed.

Lemma write_element_append e w : write_element e w = Writer.write_bytes (element_enc e) w.
Proof.
  revert w. induction e as [v|l IH|l IH] using element_ind; intros w.
  - cbn [write_element element_enc]. by rewrite write_value_append, write_u8_append, write_bytes_write_bytes.
  - simpl. rewrite foldl_write_elements by done. by rewrite !write_u8_append, !write_bytes_write_bytes.
  - rewrite element_enc_fields. simpl. rewrite foldl_write_fields by done.
    by rewrite !write_u8_append, !write_bytes_write_bytes.
Qed.

Lemma read_elements_run dec l pre post :
  Forall (fun e => forall pre post, exists y, e ≡ y /\
    dec (reader_at pre (element_enc e ++ post)) = Ok (y, reader_at (pre ++ element_enc e) post)) l ->
  exists ys, Forall2 (≡) l ys /\
    read_n dec (length l) (reader_at pre (concat_bytes element_enc l ++ post)) =
      Ok (ys, reader_at (pre ++ concat_bytes element_enc l) post).
Proof.
  intros Hf. revert pre. induction Hf as [|e l He Hf IH]; intros pre.
  { exists []. split; [constructor|]. simpl. by rewrite app_nil_r. }
  destruct (He pre (concat_bytes element_enc l ++ post)) as (y & Hy & Hrun).
  destruct (IH (pre ++ element_enc e)) as (ys & Hys & Hruns). exists (y :: ys). split; [by constructor|].
  rewrite concat_bytes_cons, <- (assoc_L (++)). cbn [read_n length]. unfold mbind, rd_bind.
  rewrite Hrun, Hruns. by rewrite <- (assoc_L (++)).
Qed.

Lemma read_fields_run dec l acc pre post :
  Forall (fun p => value_wf p.1) l -> NoDup (acc.*1 ++ l.*1) ->
  Forall (fun p => forall pre post, exists y, p.2 ≡ y /\
    dec (reader_at pre (element_enc p.2 ++ post)) = Ok (y, reader_at (pre ++ element_enc p.2) post)) l ->
  exists ys, Forall2 entry_equiv l ys /\
    read_fields dec (length l) acc (reader_at pre (concat_bytes field_enc l ++ post)) =
      Ok (acc ++ ys, reader_at (pre ++ concat_bytes field_enc l) post).
Proof.
  intros Hk Hnd Hf. revert acc pre Hk Hnd. induction Hf as [|[k e] l He Hf IH]; intros acc pre Hk Hnd.
  { exists []. split; [constructor|]. simpl. by rewrite !app_nil_r. }
  cbn [fst snd] in He. inversion_clear Hk as [|?? Hkwf Hk']. cbn [fst] in Hkwf.
  destruct (He (pre ++ value_enc k) (concat_bytes field_enc l ++ post)) as (y & Hy & Hrun).
  csimpl in Hnd. assert (k ∉ acc.*1) as Hfresh.
  { apply list.NoDup_app in Hnd as (_ & Hd & _). intros Hin. apply (Hd k Hin). left. }
  destruct (IH (acc ++ [(k, y)]) (pre ++ field_enc (k, e))) as (ys & Hys & Hruns).
  { done. }
  { rewrite fmap_app, <- (assoc_L (++)). done. }
  exists ((k, y) :: ys). split; [by constructor|].
  rewrite concat_bytes_cons. unfold field_enc at 1. cbn [fst snd]. rewrite <- !(assoc_L (++)).
  cbn [read_fields length]. rewrite (run_bind (dec:=read (A:=DataValue))) by done.
  unfold mbind, rd_bind. rewrite Hrun, alist_insert_fresh by done.
  unfold field_enc in Hruns at 1. cbn [fst snd] in Hruns. rewrite (assoc_L (++)) in Hruns.
  rewrite Hruns. unfold field_enc at 2. cbn [fst snd]. by rewrite <- !(assoc_L (++)).
Qed.

Lemma concat_bytes_length_in {A} (enc : A -> list byte) e l :
  e ∈ l -> (length (enc e) <= length (concat_bytes enc l))%nat.
Proof.
  induction 1 as [e l|e x l Hin IH]; rewrite concat_bytes_cons, length_app; lia.
Qed.

Lemma read_element_run e fuel pre post :
  element_wf e -> (length (element_enc e) < fuel)%nat ->
  exists y, e ≡ y /\
    read_element fuel (reader_at pre (element_enc e ++ post)) = Ok (y, reader_at (pre ++ element_enc e) post).
Proof.
  revert fuel pre post. induction e as [v|l IH|l IH] using element_ind; intros [|fuel] pre post Hwf Hl;
    try (exfalso; lia); inversion Hwf as [? Hv|? Hlen Hels|? Hlen Hnd Hks Hels]; subst; cbn [read_element].
  - exists (Value v). split; [done|]. cbn [element_enc]. rewrite <- !(assoc_L (++)).
    rewrite (run_bind (dec:=Reader.read_u8)) by (unfold in_u; lia).
    rewrite (run_bind (dec:=read (A:=DataValue))) by done. by rewrite <- !(assoc_L (++)).
  - cbn [element_enc] in *. rewrite !length_app in Hl. simpl in Hl.
    rewrite wrap_small, <- !(assoc_L (++)) by (unfold in_u; lia).
    rewrite (run_bind (dec:=Reader.read_u8)), (run_bind (dec:=Reader.read_u8)) by (unfold in_u; lia).
    rewrite Nat2Z.id. edestruct (read_elements_run (read_element fuel) l) as (ys & Hys & Hrun).
    { rewrite list.Forall_forall in IH, Hels |- *. intros e He p q. apply IH; [done|by apply Hels|].
      pose proof (concat_bytes_length_in element_enc e l He). lia. }
    exists (Array ys). split; [by constructor|]. unfold mbind, rd_bind. rewrite Hrun.
    by rewrite <- !(assoc_L (++)).
  - rewrite element_enc_fields in *. rewrite !length_app in Hl. simpl in Hl.
    rewrite wrap_small, <- !(assoc_L (++)) by (unfold in_u; lia).
    rewrite (run_bind (dec:=Reader.read_u8)), (run_bind (dec:=Reader.read_u8)) by (unfold in_u; lia).
    rewrite Nat2Z.id. edestruct (read_fields_run (read_element fuel) l []) as (ys & Hys & Hrun); [done|done| |].
    { rewrite list.Forall_forall in IH, Hels |- *. intros e He p q. apply IH; [done|by apply Hels|].
      pose proof (concat_bytes_length_in field_enc e l He) as Hle. unfold field_enc in Hle at 1.
      rewrite length_app in Hle. lia. }
    exists (Fields (hash_order ys)). split.
    + apply (equiv_fields l ys); [done|]. by rewrite hash_order_perm.
    + unfold mbind, rd_bind. rewrite Hrun. by rewrite <- !(assoc_L (++)).
Qed.
End Reading.

Lemma foldl_sum {A} (f : A -> nat) n l : foldl (fun s a => s + f a)%nat n l = (n + sum_list (f <$> l))%nat.
Proof. revert n. induction l as [|a l IH]; intros n; csimpl; [lia|]. rewrite IH. lia. Qed.

Lemma foldl_fields_sum {A B} (g : A * B -> nat) f n l :
  (forall a b, f a b = g (a, b)) ->
  foldl (fun s '(a, b) => s + f a b)%nat n l = (n + sum_list (g <$> l))%nat.
Proof. intros Hg. revert n. induction l as [|[a b] l IH]; intros n; csimpl; [lia|]. rewrite IH, Hg. lia. Qed.

(** [size] is the length of the encoding. *)
Lemma size_element_spec e : size_element e = length (element_enc e).
Proof.
  induction e as [v|l IH|l IH] using element_ind.
  - cbn [size_element element_enc]. by rewrite length_app, length_value_enc.
  - cbn [size_element element_enc]. rewrite !length_app, foldl_sum, length_concat_sum. simpl. do 2 f_equal.
    f_equal. apply list_fmap_ext. intros i x Hx%list_elem_of_lookup_2. rewrite list.Forall_forall in IH. by apply IH.
  - rewrite element_enc_fields. cbn [size_element].
    rewrite (foldl_fields_sum (fun p => size p.1 + size_element p.2)%nat
               (fun key value => size key + size_element value)%nat) by done.
    rewrite !length_app, length_concat_sum. unfold u8_bytes. cbn [length Nat.add]. do 3 f_equal. apply list_fmap_ext. intros i [k x] Hx%list_elem_of_lookup_2.
    rewrite list.Forall_forall in IH. unfold compose, field_enc. cbn [fst snd]. rewrite length_app, length_value_enc.
    f_equal. by apply (IH (k, x)).
Qed.
End Element.
