(* ===== verification/Bech32.v ===== *)
(** [xelis_common::crypto::bech32]: the text form of binary data, a prefix, a
    separator, characters of five bits and a checksum of six of them. *)

From S2P Require Import Prelude External Serializer Hash Defaults Text.
From Stdlib Require Strings.String.

Definition CHARSET : RString := lit "qpzry9x8gf2tvdw0s3jn54khce6mua7l".
Definition GENERATOR : list Z := [0x3b6a57b2; 0x26508e6d; 0x1ea119fa; 0x3d4233dd; 0x2a1462b3].
(** [':'] *)
Definition SEPARATOR : byte := x3a.

Inductive Bech32Error :=
  | InvalidDataRange (data bits : Z)
  | IllegalZeroPadding
  | NonZeroPadding
  | HrpEmpty
  | HrpInvalidCharacter (_ : Z)
  | HrpMixCase
  | InvalidValue (value max : Z)
  | SeparatorNotFound
  | SeparatorInvalidPosition (_ : nat)
  | InvalidUTF8Sequence
  | InvalidPrefix (got expected : RString)
  | InvalidChecksum
  | InvalidIndex (_ : nat).

(** The loop over [GENERATOR], from the bit [i] of [top] on. *)
Fixpoint xor_generators (top : Z) (i : Z) (generators : list Z) (chk : Z) : Z :=
  match generators with
  | [] => chk
  | item :: generators =>
      xor_generators top (i + 1) generators
        (if Z.land (Z.shiftr top i) 1 =? 1 then Z.lxor chk item else chk)
  end.

Definition polymod_step (chk : Z) (value : byte) : Z :=
  let top := Z.shiftr chk 25 in
  let chk := Z.lxor (wrap 32 (Z.shiftl (Z.land chk 0x1ffffff) 5)) (byte_val value) in
  xor_generators top 0 GENERATOR chk.

Definition polymod (values : list byte) : Z := foldl polymod_step 1 values.

Definition hrp_expand (hrp : RString) : list byte :=
  ((fun c => to_byte (Z.shiftr (byte_val c) 5)) <$> str_bytes hrp) ++ [to_byte 0] ++
  ((fun c => to_byte (Z.land (byte_val c) 31)) <$> str_bytes hrp).

Definition verify_checksum (hrp : RString) (data : list byte) : bool :=
  polymod (hrp_expand hrp ++ data) =? 1.

Definition create_checksum (hrp : RString) (data : list byte) : list byte :=
  let values := hrp_expand hrp ++ data ++ replicate 6 x00 in
  let polymod := Z.lxor (polymod values) 1 in
  (fun i => to_byte (Z.land (Z.shiftr polymod (5 * (5 - i))) 31)) <$> [0; 1; 2; 3; 4; 5].

(** The shifts of [u16] take the count modulo 16. *)
Definition u16_shl (a n : Z) : Z := wrap 16 (Z.shiftl a (n mod 16)).
Definition u16_shr (a n : Z) : Z := Z.shiftr a (n mod 16).

(** [while bits >= to]: it does not end when [to] is 0. *)
Fixpoint emit (to max_value acc : Z) (fuel : nat) (bits : Z) (result : list byte) :
    res Bech32Error (Z * list byte) :=
  if to <=? bits then
    match fuel with
    | O => Diverge
    | S fuel =>
        let bits := wrap 16 (bits - to) in
        emit to max_value acc fuel bits (result ++ [to_byte (Z.land (u16_shr acc bits) max_value)])
    end
  else Ok (bits, result).

Definition convert_step (from to max_value : Z) (st : Z * Z * list byte) (v : byte) :
    res Bech32Error (Z * Z * list byte) :=
  let '(acc, bits, result) := st in
  let value := byte_val v in
  if bool_decide (u16_shr value from <> 0) then Err (InvalidDataRange value from)
  else
    let acc := Z.lor (u16_shl acc from) value in
    let bits := wrap 16 (bits + from) in
    '(bits, result) ← emit to max_value acc (Z.to_nat bits) bits result;
    Ok (acc, bits, result).

Definition convert_bits (data : list byte) (from to : Z) (pad : bool) : res Bech32Error (list byte) :=
  let max_value := wrap 16 (u16_shl 1 to - 1) in
  '(acc, bits, result) ← foldM (convert_step from to max_value) (0, 0, []) data;
  let last := Z.land (u16_shl acc (wrap 16 (to - bits))) max_value in
  if pad then
    if 0 <? bits then Ok (result ++ [to_byte last]) else Ok result
  else if from <=? bits then Err IllegalZeroPadding
  else if bool_decide (last <> 0) then Err NonZeroPadding
  else Ok result.

(** The characters a prefix may have. *)
Definition check_hrp (l : list byte) : res Bech32Error () :=
  foldM (fun _ value =>
    if (byte_val value <? 33) || (126 <? byte_val value) then Err (HrpInvalidCharacter (byte_val value))
    else Ok ()) () l.

(** One character of the data. *)
Definition encode_value (result : list byte) (value : byte) : res Bech32Error (list byte) :=
  if Z.of_nat (str_len CHARSET) <? byte_val value
  then Err (InvalidValue (byte_val value) (Z.of_nat (str_len CHARSET)))
  else
    c ← ok_or (str_bytes CHARSET !! Z.to_nat (byte_val value)) (InvalidIndex (Z.to_nat (byte_val value)));
    Ok (result ++ [c]).

Section Case.
Context {UC : UnicodeCase}.

(** Neither all in one case nor all in the other. *)
Definition mixed_case (s : RString) : bool :=
  bool_decide (to_uppercase s <> s) && bool_decide (to_lowercase s <> s).

Definition encode (hrp : RString) (data : list byte) : res Bech32Error RString :=
  if bool_decide (str_len hrp = 0%nat) then Err HrpEmpty
  else
    _ ← check_hrp (str_bytes hrp);
    if mixed_case hrp then Err HrpMixCase
    else
      let hrp := to_lowercase hrp in
      let combined := data ++ create_checksum hrp data in
      let result := str_bytes hrp ++ [SEPARATOR] in
      result ← foldM encode_value result combined;
      ok_or (from_utf8 result) InvalidUTF8Sequence.

(** The loop over the positions after the separator: [chars().nth(i)] counts
    characters where [i] counts bytes. *)
Definition decode_value (bech : RString) (data : list byte) (i : nat) : res Bech32Error (list byte) :=
  c ← ok_or (A:=char) (chars bech !! i) (InvalidIndex i);
  value ← ok_or (match c with [b] => find b (str_bytes CHARSET) | _ => None end)
            (HrpInvalidCharacter (char_code c mod 256));
  Ok (data ++ [to_byte (Z.of_nat value)]).

(** [data.remove(data.len() - 1)] panics on an empty vector. *)
Definition remove_last (data : list byte) : res Bech32Error (list byte) :=
  match data with [] => Panic | _ => Ok (take (length data - 1) data) end.

(** The checksum is the last six values. *)
Definition remove_checksum (data : list byte) : res Bech32Error (list byte) :=
  foldM (fun data _ => remove_last data) data (seq 0 6).
#[global] Arguments remove_checksum : simpl never.

Definition decode (bech : RString) : res Bech32Error (RString * list byte) :=
  if mixed_case bech then Err HrpMixCase
  else
    pos ← ok_or (rfind SEPARATOR (str_bytes bech)) SeparatorNotFound;
    if bool_decide (pos < 1 \/ str_len bech < pos + 7)%nat then Err (SeparatorInvalidPosition pos)
    else
      hrp ← str_prefix bech pos;
      _ ← check_hrp (str_bytes hrp);
      data ← foldM (decode_value bech) [] (seq (pos + 1) (str_len bech - (pos + 1)));
      if negb (verify_checksum hrp data) then Err InvalidChecksum
      else
        data ← remove_checksum data;
        Ok (hrp, data).
End Case.

(** ** The checksum is linear *)

Lemma lxor_range n a b : 0 <= n -> in_u n a -> in_u n b -> in_u n (Z.lxor a b).
Proof.
  unfold in_u. intros Hn [Ha Ha'] [Hb Hb'].
  assert (0 <= Z.lxor a b) by (apply Z.lxor_nonneg; lia). split; [done|].
  rewrite <- (Z.mod_small a (2 ^ n)), <- (Z.mod_small b (2 ^ n)) by lia.
  rewrite <- !Z.land_ones by done.
  replace (Z.lxor _ _) with (Z.land (Z.lxor a b) (Z.ones n)).
  - rewrite Z.land_ones by done. apply Z.mod_pos_bound. lia.
  - apply Z.bits_inj. intros i. rewrite Z.lxor_spec, !Z.land_spec, Z.lxor_spec.
    by destruct (Z.testbit (Z.ones n) i); rewrite ?andb_true_r, ?andb_false_r.
Qed.

(** Identities between exclusive or's, bit by bit. *)
Ltac xor_bits :=
  apply Z.bits_inj; intros ?i; rewrite ?Z.lxor_spec, ?Z.land_spec, ?Z.lxor_spec, ?Z.testbit_0_l;
  repeat match goal with |- context [Z.testbit ?a ?n] => destruct (Z.testbit a n) end; reflexivity.

(** The generators the bits of [top] select. *)
Definition selected (top : Z) : Z := xor_generators top 0 GENERATOR 0.

Lemma bit_set t i : 0 <= i -> (Z.land (Z.shiftr t i) 1 =? 1) = Z.testbit t i.
Proof.
  intros Hi. change (Z.land (Z.shiftr t i) 1) with (Z.land (Z.shiftr t i) (Z.ones 1)).
  rewrite Z.land_ones by lia. change (2 ^ 1) with 2.
  rewrite <- Z.bit0_mod, Z.shiftr_spec, Z.add_0_l by lia. by destruct (Z.testbit t i).
Qed.

Lemma xor_generators_acc t i gs chk : xor_generators t i gs chk = Z.lxor chk (xor_generators t i gs 0).
Proof.
  revert i chk. induction gs as [|g gs IH]; intros i chk; simpl; [by rewrite Z.lxor_0_r|].
  rewrite IH, (IH _ (if (_ : bool) then _ else 0)). destruct (_ =? 1); xor_bits.
Qed.

Lemma xor_generators_lxor a b i gs :
  0 <= i -> xor_generators (Z.lxor a b) i gs 0 = Z.lxor (xor_generators a i gs 0) (xor_generators b i gs 0).
Proof.
  revert i. induction gs as [|g gs IH]; intros i Hi; simpl; [done|].
  rewrite !bit_set, Z.lxor_spec by done. rewrite !(xor_generators_acc _ _ _ (if (_ : bool) then _ else _)), IH by lia.
  destruct (Z.testbit a i), (Z.testbit b i); simpl; xor_bits.
Qed.

Lemma selected_range t : in_u 30 (selected t).
Proof.
  unfold selected. assert (Forall (in_u 30) GENERATOR) as Hg by (by apply (bool_decide_unpack _); vm_compute).
  generalize 0 at 1. induction Hg as [|g gs Hg Hgs IH]; intros i; simpl; [done|].
  rewrite xor_generators_acc. apply lxor_range; [lia| |apply IH]. case_match; [|done].
  by rewrite Z.lxor_0_l.
Qed.

(** A step without its value. *)
Definition shift_step (chk : Z) : Z :=
  Z.lxor (Z.shiftl (Z.land chk 0x1ffffff) 5) (selected (Z.shiftr chk 25)).

Lemma land_low_range chk : 0 <= chk -> in_u 30 (Z.shiftl (Z.land chk 0x1ffffff) 5).
Proof.
  intros Hc. change 0x1ffffff with (Z.ones 25). rewrite Z.land_ones, Z.shiftl_mul_pow2 by lia.
  pose proof (Z.mod_pos_bound chk (2 ^ 25) eq_refl). unfold in_u. lia.
Qed.

Lemma polymod_step_eq chk v : 0 <= chk -> polymod_step chk v = Z.lxor (shift_step chk) (byte_val v).
Proof.
  intros Hc. unfold polymod_step, shift_step. rewrite xor_generators_acc. fold (selected (Z.shiftr chk 25)).
  rewrite wrap_small; [xor_bits|]. pose proof (land_low_range chk Hc). unfold in_u in *. lia.
Qed.

Lemma shift_step_range chk : 0 <= chk -> in_u 30 (shift_step chk).
Proof. intros. apply lxor_range; [lia|by apply land_low_range|apply selected_range]. Qed.

Lemma polymod_step_range chk v : 0 <= chk -> in_u 30 (polymod_step chk v).
Proof.
  intros Hc. rewrite polymod_step_eq by done. apply lxor_range; [lia|by apply shift_step_range|].
  pose proof (byte_val_range v). unfold in_u. lia.
Qed.

Lemma foldl_polymod_range l chk : in_u 30 chk -> in_u 30 (foldl polymod_step chk l).
Proof.
  revert chk. induction l as [|v l IH]; intros chk Hc; simpl; [done|]. apply IH, polymod_step_range, Hc.
Qed.

Lemma shift_step_lxor a b : shift_step (Z.lxor a b) = Z.lxor (shift_step a) (shift_step b).
Proof.
  unfold shift_step, selected. rewrite Z.shiftr_lxor, xor_generators_lxor by lia.
  replace (Z.land (Z.lxor a b) 0x1ffffff) with (Z.lxor (Z.land a 0x1ffffff) (Z.land b 0x1ffffff)) by xor_bits.
  rewrite Z.shiftl_lxor. xor_bits.
Qed.

(** The state after [l] is the one after as many zeros, and the one [l] gives
    from zero. *)
Lemma foldl_polymod_lxor l a b :
  in_u 30 a -> in_u 30 b ->
  foldl polymod_step (Z.lxor a b) l =
    Z.lxor (foldl polymod_step a (replicate (length l) x00)) (foldl polymod_step b l).
Proof.
  revert a b. induction l as [|v l IH]; intros a b Ha Hb; simpl; [done|].
  pose proof (lxor_range 30 a b ltac:(lia) Ha Hb) as Hab. unfold in_u in Ha, Hb, Hab.
  rewrite <- IH by (apply polymod_step_range; lia). f_equal.
  rewrite !polymod_step_eq, shift_step_lxor by lia. change (byte_val x00) with 0. xor_bits.
Qed.

(** ** A step loses nothing *)

Lemma selected_low t : 0 <= t < 32 -> Z.land (selected t) 31 = 0 -> t = 0.
Proof.
  intros Ht. assert (Forall (fun t => Z.land (selected t) 31 = 0 -> t = 0) (Z.of_nat <$> seq 0 32)) as Hf.
  { apply (bool_decide_unpack _). by vm_compute. }
  rewrite list.Forall_forall in Hf. apply Hf. apply list_elem_of_fmap. exists (Z.to_nat t).
  split; [lia|]. apply elem_of_seq. lia.
Qed.

Lemma shift_step_zero chk : in_u 30 chk -> shift_step chk = 0 -> chk = 0.
Proof.
  unfold in_u. intros Hc Hz. pose proof (f_equal (fun x => Z.land x 31) Hz) as Hlow. unfold shift_step in Hz, Hlow.
  rewrite Z.land_0_l in Hlow. assert (Z.shiftr chk 25 = 0) as Ht.
  { apply selected_low; [rewrite Z.shiftr_div_pow2 by lia; split; [apply Z.div_pos|apply Z.div_lt_upper_bound]; lia|].
    rewrite <- Hlow. set (t := selected _). replace (Z.land (Z.lxor _ t) 31) with
      (Z.lxor (Z.land (Z.shiftl (Z.land chk 33554431) 5) 31) (Z.land t 31)) by xor_bits.
    change 31 with (Z.ones 5) at 2. rewrite (Z.land_ones (Z.shiftl _ _)) by lia.
    rewrite Z.shiftl_mul_pow2, Z.mod_mul by lia. by rewrite Z.lxor_0_l. }
  rewrite Ht in Hz. change (selected 0) with 0 in Hz. rewrite Z.lxor_0_r in Hz.
  change 33554431 with (Z.ones 25) in Hz. rewrite Z.land_ones, Z.shiftl_mul_pow2 in Hz by lia.
  rewrite Z.shiftr_div_pow2 in Ht by lia. pose proof (Z.div_mod chk (2 ^ 25) ltac:(lia)). lia.
Qed.

Lemma shift_step_inj a b : in_u 30 a -> in_u 30 b -> shift_step a = shift_step b -> a = b.
Proof.
  intros Ha Hb E. apply Z.lxor_eq, shift_step_zero; [by apply lxor_range|].
  by rewrite shift_step_lxor, E, Z.lxor_nilpotent.
Qed.

Lemma lxor_cancel_r a b v : Z.lxor a v = Z.lxor b v -> a = b.
Proof.
  intros E. rewrite <- (Z.lxor_0_r a), <- (Z.lxor_nilpotent v), <- Z.lxor_assoc, E.
  by rewrite Z.lxor_assoc, Z.lxor_nilpotent, Z.lxor_0_r.
Qed.

Lemma polymod_step_inj a b v : in_u 30 a -> in_u 30 b -> polymod_step a v = polymod_step b v -> a = b.
Proof.
  intros Ha Hb. unfold in_u in *. rewrite !polymod_step_eq by lia. intros E%lxor_cancel_r.
  by apply shift_step_inj.
Qed.

Lemma foldl_polymod_inj l a b :
  in_u 30 a -> in_u 30 b -> foldl polymod_step a l = foldl polymod_step b l -> a = b.
Proof.
  revert a b. induction l as [|v l IH]; intros a b Ha Hb; simpl; [done|]. intros E.
  apply (polymod_step_inj _ _ v); [done|done|]. unfold in_u in *. apply IH; [apply polymod_step_range; lia..|done].
Qed.

(** Changing one value changes the checksum. *)
Lemma polymod_substitution l1 v w l2 :
  polymod (l1 ++ v :: l2) = polymod (l1 ++ w :: l2) -> v = w.
Proof.
  unfold polymod. rewrite !foldl_app. simpl. set (c := foldl _ _ l1).
  assert (in_u 30 c) as Hc by (by apply foldl_polymod_range).
  pose proof Hc as [Hc' _]. intros E%foldl_polymod_inj; [|by apply polymod_step_range..].
  rewrite !polymod_step_eq, !(Z.lxor_comm (shift_step c)) in E by done. by apply lxor_cancel_r, byte_val_inj in E.
Qed.

(** ** A created checksum is accepted *)

Lemma land_31 a : Z.land a 31 = a mod 32.
Proof. change 31 with (Z.ones 5). by rewrite Z.land_ones. Qed.

Lemma shift_step_small q : 0 <= q < 2 ^ 25 -> shift_step q = q * 32.
Proof.
  intros Hq. unfold shift_step. rewrite Z.shiftr_div_pow2, Z.div_small by lia. change (selected 0) with 0.
  change 0x1ffffff with (Z.ones 25). rewrite Z.lxor_0_r, Z.land_ones, Z.mod_small, Z.shiftl_mul_pow2 by lia. done.
Qed.

(** Five more bits of a number of thirty. *)
Lemma polymod_step_digit q :
  in_u 30 q -> polymod_step (Z.shiftr q 5) (to_byte (Z.land q 31)) = q.
Proof.
  unfold in_u. intros Hq. rewrite Z.shiftr_div_pow2 by lia. change (2 ^ 5) with 32.
  assert (0 <= q / 32 < 2 ^ 25) by (split; [apply Z.div_pos|apply Z.div_lt_upper_bound]; lia).
  pose proof (Z.mod_pos_bound q 32 eq_refl).
  rewrite polymod_step_eq, shift_step_small, byte_val_to_byte, land_31, (Z.mod_small _ 256) by lia.
  rewrite <- Z.add_nocarry_lxor; [pose proof (Z.div_mod q 32); lia|].
  change 32 with (2 ^ 5). rewrite <- Z.land_ones, <- Z.shiftl_mul_pow2 by lia. apply Z.bits_inj. intros i.
  rewrite !Z.land_spec, Z.testbit_0_l. destruct (Z.ltb_spec i 5); [by rewrite Z.shiftl_spec_low|].
  destruct (Z.ltb_spec i 0); [by rewrite Z.testbit_neg_r|]. rewrite Z.ones_spec_high by lia.
  by rewrite !andb_false_r.
Qed.

Lemma shiftr_range p n : 0 <= n -> in_u 30 p -> in_u 30 (Z.shiftr p n).
Proof.
  unfold in_u. intros Hn Hp. rewrite Z.shiftr_div_pow2 by done. pose proof (Z.pow_pos_nonneg 2 n).
  split; [apply Z.div_pos; lia|]. apply Z.div_lt_upper_bound; nia.
Qed.

Lemma checksum_digits p :
  in_u 30 p ->
  foldl polymod_step 0 ((fun i => to_byte (Z.land (Z.shiftr p (5 * (5 - i))) 31)) <$> [0; 1; 2; 3; 4; 5]) = p.
Proof.
  intros Hp. assert (forall m n, 0 <= n -> m = n + 5 ->
    polymod_step (Z.shiftr p m) (to_byte (Z.land (Z.shiftr p n) 31)) = Z.shiftr p n) as Hs.
  { intros m n Hn ->. rewrite <- Z.shiftr_shiftr by lia. apply polymod_step_digit. by apply shiftr_range. }
  assert (Z.shiftr p 30 = 0) as H0 by (unfold in_u in Hp; rewrite Z.shiftr_div_pow2, Z.div_small; lia).
  replace (foldl polymod_step 0) with (foldl polymod_step (Z.shiftr p 30)) by (by rewrite H0).
  cbn [fmap list_fmap foldl]. change (5 * (5 - 0)) with 25. change (5 * (5 - 1)) with 20.
  change (5 * (5 - 2)) with 15. change (5 * (5 - 3)) with 10. change (5 * (5 - 4)) with 5. change (5 * (5 - 5)) with 0.
  by rewrite (Hs 30 25), (Hs 25 20), (Hs 20 15), (Hs 15 10), (Hs 10 5), (Hs 5 0) by lia.
Qed.

Lemma checksum_verifies hrp data : verify_checksum hrp (data ++ create_checksum hrp data) = true.
Proof.
  unfold verify_checksum, create_checksum, polymod. apply Z.eqb_eq.
  rewrite !(assoc_L (++)), !foldl_app. set (c := foldl polymod_step (foldl _ 1 _) data).
  assert (in_u 30 c) as Hc by (by apply foldl_polymod_range, foldl_polymod_range).
  set (z := foldl polymod_step c (replicate 6 x00)).
  assert (in_u 30 z) as Hz by (by apply foldl_polymod_range).
  set (d := _ <$> _). rewrite <- (Z.lxor_0_r c), foldl_polymod_lxor by done.
  unfold d at 2. rewrite checksum_digits by (by apply lxor_range).
  change (length d) with 6%nat. fold z. by rewrite <- Z.lxor_assoc, Z.lxor_nilpotent.
Qed.

Lemma create_checksum_values hrp data : Forall (fun b => byte_val b < 32) (create_checksum hrp data).
Proof.
  unfold create_checksum. apply list.Forall_fmap, list.Forall_true. intros i. simpl.
  rewrite land_31, byte_val_to_byte. match goal with |- context [?a mod 32] =>
    pose proof (Z.mod_pos_bound a 32 eq_refl); set (q := a mod 32) in * end.
  rewrite Z.mod_small; lia.
Qed.

(** ** Regrouping bits

    The digits in base [2^w] of a number, most significant first. *)
Definition digits_val (w : Z) (l : list byte) : Z := foldl (fun a b => a * 2 ^ w + byte_val b) 0 l.
Definition digits (w : Z) (l : list byte) : Prop := Forall (fun b => byte_val b < 2 ^ w) l.

Lemma digits_val_snoc w l b : digits_val w (l ++ [b]) = digits_val w l * 2 ^ w + byte_val b.
Proof. unfold digits_val. by rewrite foldl_app. Qed.

Lemma digits_snoc w l b : digits w (l ++ [b]) <-> digits w l /\ byte_val b < 2 ^ w.
Proof. unfold digits. by rewrite list.Forall_app, list.Forall_singleton. Qed.

Lemma digits_val_inj w l1 l2 :
  0 <= w -> length l1 = length l2 -> digits w l1 -> digits w l2 -> digits_val w l1 = digits_val w l2 -> l1 = l2.
Proof.
  intros Hw. revert l2. induction l1 as [|b1 l1 IH] using rev_ind; intros l2.
  { destruct l2; [done|]. simpl. done. }
  destruct l2 as [|b2 l2 _] using rev_ind; rewrite ?length_app; simpl; [lia|].
  intros Hl [H1 Hb1]%digits_snoc [H2 Hb2]%digits_snoc. rewrite !digits_val_snoc. intros E. pose proof (byte_val_range b1). pose proof (byte_val_range b2).
  assert (digits_val w l1 = digits_val w l2 /\ byte_val b1 = byte_val b2) as [Hv Hb].
  { apply (Z.div_mod_unique (2 ^ w)); lia. }
  apply byte_val_inj in Hb as ->. f_equal. apply IH; [lia|done..].
Qed.

(** The state of the conversion after [l]: the bits of [l] are those of the
    result and the low [bits] ones of the accumulator. *)
Definition converted (from to : Z) (l : list byte) (st : Z * Z * list byte) : Prop :=
  let '(acc, bits, result) := st in
  in_u 16 acc /\ 0 <= bits < to /\ digits to result /\
  from * Z.of_nat (length l) = to * Z.of_nat (length result) + bits /\
  digits_val from l = digits_val to result * 2 ^ bits + acc mod 2 ^ bits.

Lemma max_value_eq to : 1 <= to <= 8 -> wrap 16 (u16_shl 1 to - 1) = Z.ones to.
Proof.
  intros Hto. assert (to = 1 \/ to = 2 \/ to = 3 \/ to = 4 \/ to = 5 \/ to = 6 \/ to = 7 \/ to = 8) as Hc by lia.
  by destruct Hc as [->|[->|[->|[->|[->|[->|[->| ->]]]]]]].
Qed.

Lemma emit_run to acc fuel bits result :
  1 <= to <= 8 -> 0 <= bits < 16 -> bits <= Z.of_nat fuel -> in_u 16 acc -> digits to result ->
  exists bits' result', emit to (Z.ones to) acc fuel bits result = Ok (bits', result') /\
    0 <= bits' < to /\ digits to result' /\
    to * Z.of_nat (length result) + bits = to * Z.of_nat (length result') + bits' /\
    digits_val to result * 2 ^ bits + acc mod 2 ^ bits = digits_val to result' * 2 ^ bits' + acc mod 2 ^ bits'.
Proof.
  intros Hto. revert bits result. induction fuel as [|fuel IH]; intros bits result Hb Hf Ha Hr; cbn [emit];
    destruct (Z.leb_spec to bits) as [Hle|Hlt]; try lia;
    try (exists bits, result; split_and!; [done|lia|lia|done..]).
  rewrite (wrap_small 16 (bits - to)) by (unfold in_u; lia). set (b' := bits - to).
  set (d := to_byte _). assert (byte_val d = (acc / 2 ^ b') mod 2 ^ to) as Hd.
  { unfold d, u16_shr. rewrite (Z.mod_small b') by lia. rewrite Z.land_ones, Z.shiftr_div_pow2, byte_val_to_byte by lia.
    pose proof (Z.mod_pos_bound (acc / 2 ^ b') (2 ^ to) ltac:(lia)).
    assert (2 ^ to <= 2 ^ 8) by (apply Z.pow_le_mono_r; lia). apply Z.mod_small. lia. }
  destruct (IH b' (result ++ [d])) as (bits' & result' & -> & Hbits & Hres & Hlen & Hval); [lia|lia|done| |].
  { apply digits_snoc. split; [done|]. rewrite Hd. apply Z.mod_pos_bound. lia. }
  exists bits', result'. split; [done|]. split; [done|]. split; [done|]. rewrite length_app in Hlen. simpl in Hlen.
  split; [lia|]. rewrite <- Hval, digits_val_snoc, Hd. replace bits with (b' + to) by lia.
  rewrite Z.pow_add_r, Z.rem_mul_r by lia. ring.
Qed.

Lemma shl_lor acc from v :
  0 <= from <= 8 -> in_u 16 acc -> 0 <= v < 2 ^ from ->
  Z.lor (u16_shl acc from) v = (acc * 2 ^ from) mod 2 ^ 16 + v.
Proof.
  intros Hf Ha Hv. unfold u16_shl, wrap. rewrite (Z.mod_small from), Z.shiftl_mul_pow2 by lia.
  rewrite Z.add_nocarry_lor; [done|]. apply Z.bits_inj. intros i. rewrite Z.land_spec, Z.testbit_0_l.
  rewrite <- Z.land_ones, Z.land_spec, <- Z.shiftl_mul_pow2 by lia.
  destruct (Z.ltb_spec i from).
  - destruct (Z.ltb_spec i 0); [by rewrite Z.testbit_neg_r|]. by rewrite Z.shiftl_spec_low.
  - replace v with (v mod 2 ^ from) by (by apply Z.mod_small). rewrite Z.mod_pow2_bits_high by lia. apply andb_false_r.
Qed.

Lemma convert_step_run from to l v st :
  1 <= from <= 8 -> 1 <= to <= 8 -> byte_val v < 2 ^ from -> converted from to l st ->
  exists st', convert_step from to (Z.ones to) st v = Ok st' /\ converted from to (l ++ [v]) st'.
Proof.
  intros Hfrom Hto Hv. destruct st as [[acc bits] result]. intros (Ha & Hb & Hr & Hlen & Hval).
  pose proof (byte_val_range v) as Hv0. unfold convert_step. rewrite bool_decide_false.
  2: { unfold u16_shr. rewrite (Z.mod_small from), Z.shiftr_div_pow2, Z.div_small by lia. naive_solver. }
  rewrite shl_lor by (done || lia). rewrite (wrap_small 16) by (unfold in_u; lia).
  set (acc' := _ + byte_val v). assert (in_u 16 acc') as Ha'.
  { unfold acc', in_u. pose proof (Z.pow_pos_nonneg 2 from).
    assert (2 ^ 16 = 2 ^ (16 - from) * 2 ^ from) as E by (rewrite <- Z.pow_add_r by lia; f_equal; lia).
    rewrite E, Z.mul_mod_distr_r by lia. pose proof (Z.mod_pos_bound acc (2 ^ (16 - from))). nia. }
  assert (acc' mod 2 ^ (bits + from) = acc mod 2 ^ bits * 2 ^ from + byte_val v) as Hacc.
  { unfold acc'. assert (2 ^ 16 = 2 ^ (bits + from) * 2 ^ (16 - bits - from)) as -> by (rewrite <- Z.pow_add_r by lia; f_equal; lia).
    rewrite Zplus_mod, Z.rem_mul_r by lia.
    rewrite (Z.mul_comm (2 ^ (bits + from)) (_ mod _)), Z.mod_add, Z.mod_mod, <- Zplus_mod by lia.
    rewrite Z.pow_add_r by lia. rewrite Zplus_mod, Z.mul_mod_distr_r by lia.
    pose proof (Z.mod_pos_bound acc (2 ^ bits) ltac:(lia)).
    rewrite (Z.mod_small (byte_val v)) by nia. apply Z.mod_small. nia. }
  destruct (emit_run to acc' (Z.to_nat (bits + from)) (bits + from) result) as (bits' & result' & -> & Hb' & Hr' & Hlen' & Hval');
    [done|lia|lia|done|done|].
  eexists. split; [reflexivity|]. split; [done|]. split; [done|]. split; [done|]. rewrite length_app. simpl.
  split; [lia|]. rewrite digits_val_snoc, <- Hval', Hacc, Hval, Z.pow_add_r by lia. ring.
Qed.

Lemma convert_fold_run from to l :
  1 <= from <= 8 -> 1 <= to <= 8 -> digits from l ->
  exists st, foldM (convert_step from to (Z.ones to)) (0, 0, []) l = Ok st /\ converted from to l st.
Proof.
  intros Hfrom Hto. induction l as [|v l IH] using rev_ind; intros Hl.
  { exists (0, 0, []). split; [done|]. split; [done|]. split; [lia|]. split; [constructor|]. by split; simpl; [lia|]. }
  apply digits_snoc in Hl as [Hl Hv]. destruct (IH Hl) as (st & Hst & Hc).
  rewrite foldM_app, Hst. cbn [mbind res_bind foldM].
  destruct (convert_step_run from to l v st) as (st' & -> & Hc'); try done. by exists st'.
Qed.

(** The bits that are left, at the top of a last digit. *)
Lemma last_digit to acc bits :
  1 <= to <= 8 -> in_u 16 acc -> 0 <= bits < to ->
  Z.land (u16_shl acc (wrap 16 (to - bits))) (Z.ones to) = acc mod 2 ^ bits * 2 ^ (to - bits).
Proof.
  intros Hto Ha Hb. rewrite wrap_small, Z.land_ones by (unfold in_u; lia).
  unfold u16_shl, wrap. rewrite (Z.mod_small (to - bits)), Z.shiftl_mul_pow2 by lia.
  assert (2 ^ 16 = 2 ^ to * 2 ^ (16 - to)) as -> by (rewrite <- Z.pow_add_r by lia; f_equal; lia).
  rewrite Z.rem_mul_r, (Z.mul_comm (2 ^ to)), Z.mod_add, Z.mod_mod by lia.
  replace (2 ^ to) with (2 ^ bits * 2 ^ (to - bits)) by (rewrite <- Z.pow_add_r by lia; f_equal; lia).
  apply Z.mul_mod_distr_r; lia.
Qed.

(** Bytes to groups of five bits, padded with zeros, and back. *)
Lemma convert_bits_roundtrip data :
  exists groups, convert_bits data 8 5 true = Ok groups /\ digits 5 groups /\
    Z.of_nat (length groups) = (Z.of_nat (length data) * 8 + 4) / 5 /\
    convert_bits groups 5 8 false = Ok data.
Proof.
  assert (digits 8 data) as H8.
  { apply list.Forall_true. intros b. apply byte_val_range. }
  unfold convert_bits. rewrite !max_value_eq by lia.
  destruct (convert_fold_run 8 5 data) as ([[acc bits] result] & -> & Ha & Hb & Hr & Hlen & Hval); [lia|lia|done|].
  cbn [mbind res_bind]. rewrite last_digit by (done || lia).
  set (groups := if 0 <? bits then result ++ [to_byte (acc mod 2 ^ bits * 2 ^ (5 - bits))] else result).
  set (pad := if 0 <? bits then 5 - bits else 0).
  assert (digits 5 groups /\ 5 * Z.of_nat (length groups) = 8 * Z.of_nat (length data) + pad /\
    digits_val 5 groups = digits_val 8 data * 2 ^ pad /\ 0 <= pad < 5) as (Hg & Hglen & Hgval & Hpad).
  { unfold groups, pad. destruct (Z.ltb_spec 0 bits).
    - pose proof (Z.mod_pos_bound acc (2 ^ bits) ltac:(lia)) as Hm.
      assert (2 ^ 5 = 2 ^ bits * 2 ^ (5 - bits)) as E by (rewrite <- Z.pow_add_r by lia; f_equal; lia).
      assert (byte_val (to_byte (acc mod 2 ^ bits * 2 ^ (5 - bits))) = acc mod 2 ^ bits * 2 ^ (5 - bits)) as Hd.
      { rewrite byte_val_to_byte. apply Z.mod_small. nia. }
      rewrite length_app, digits_val_snoc, Hd, Hval. simpl. split_and!; [|lia| |lia..].
      + apply digits_snoc. split; [done|]. rewrite Hd. nia.
      + rewrite E. ring.
    - assert (bits = 0) as -> by lia. split_and!; [done|lia| |lia..].
      rewrite Hval. change (2 ^ 0) with 1. rewrite Z.mod_1_r. lia. }
  exists groups. split; [by unfold groups; destruct (0 <? bits)|]. split; [done|].
  split; [apply (Z.div_unique _ 5 _ (4 - pad)); lia|].
  destruct (convert_fold_run 5 8 groups) as ([[acc2 bits2] result2] & -> & Ha2 & Hb2 & Hr2 & Hlen2 & Hval2); [lia|lia|done|].
  cbn [mbind res_bind]. rewrite last_digit by (done || lia).
  assert (length result2 = length data /\ bits2 = pad) as [Hl2 ->] by lia.
  pose proof (Z.mod_pos_bound acc2 (2 ^ pad) ltac:(lia)).
  assert (digits_val 8 result2 = digits_val 8 data /\ acc2 mod 2 ^ pad = 0) as [Hv Hz].
  { apply (Z.div_mod_unique (2 ^ pad)); lia. }
  rewrite Hz, Z.mul_0_l. destruct (Z.leb_spec 5 pad); [lia|]. cbn. f_equal.
  by apply (digits_val_inj 8).
Qed.

(** ** Characters *)

(** [c] is the character of the value [v]. *)
Definition char_of (v c : byte) : Prop := str_bytes CHARSET !! Z.to_nat (byte_val v) = Some c.

Lemma charset_facts :
  NoDup (str_bytes CHARSET) /\ length (str_bytes CHARSET) = 32%nat /\
  Forall (fun c => byte_val c < 128 /\ lower_byte c = c /\ c <> SEPARATOR) (str_bytes CHARSET).
Proof. apply (bool_decide_unpack _). by vm_compute. Qed.

Lemma char_of_facts v c : char_of v c -> byte_val c < 128 /\ lower_byte c = c /\ c <> SEPARATOR.
Proof.
  intros Hc. destruct charset_facts as (_ & _ & Hf). rewrite list.Forall_forall in Hf.
  by apply Hf, (list_elem_of_lookup_2 _ _ _ Hc).
Qed.

Lemma char_of_total v : byte_val v < 32 -> exists c, char_of v c.
Proof.
  intros Hv. pose proof (byte_val_range v). apply lookup_lt_is_Some_2.
  destruct charset_facts as (_ & -> & _). lia.
Qed.

Lemma find_char_of b i : find b (str_bytes CHARSET) = Some i -> char_of (to_byte (Z.of_nat i)) b.
Proof.
  intros Hf%find_lookup. pose proof (lookup_lt_Some _ _ _ Hf) as Hi. destruct charset_facts as (_ & Hl & _).
  unfold char_of. rewrite byte_val_to_byte, Z.mod_small, Nat2Z.id by lia. done.
Qed.

Lemma char_of_find v c :
  char_of v c -> find c (str_bytes CHARSET) = Some (Z.to_nat (byte_val v)).
Proof. intros Hc. apply lookup_find; [apply charset_facts|done]. Qed.

Lemma char_of_inj v w c : char_of v c -> char_of w c -> v = w.
Proof.
  intros Hv%char_of_find Hw%char_of_find. rewrite Hv in Hw. injection Hw as Hw.
  pose proof (byte_val_range v). pose proof (byte_val_range w). apply byte_val_inj. lia.
Qed.

Lemma char_of_fun v c d : char_of v c -> char_of v d -> c = d.
Proof. unfold char_of. congruence. Qed.

Lemma chars_of_ascii vals cs : Forall2 char_of vals cs -> ascii cs /\ (lower_byte <$> cs) = cs /\ SEPARATOR ∉ cs.
Proof.
  induction 1 as [|v c vals cs Hc Hcs (Ha & Hl & Hs)]; [split_and!; [constructor|done|by intros ?%elem_of_nil]|].
  destruct (char_of_facts _ _ Hc) as (H1 & H2 & H3). split; [by constructor|]. split; [csimpl; by rewrite H2, Hl|].
  by apply list.not_elem_of_cons.
Qed.

Lemma encode_value_run result v c : byte_val v < 32 -> char_of v c -> encode_value result v = Ok (result ++ [c]).
Proof.
  intros Hv Hc. unfold encode_value, str_len. rewrite Hc. destruct charset_facts as (_ & -> & _).
  by destruct (Z.ltb_spec (Z.of_nat 32) (byte_val v)); [lia|].
Qed.

Lemma encode_values_run result vals :
  Forall (fun v => byte_val v < 32) vals ->
  exists cs, Forall2 char_of vals cs /\ foldM encode_value result vals = Ok (result ++ cs).
Proof.
  intros Hv. revert result. induction Hv as [|v vals Hv Hvals IH]; intros result.
  { exists []. split; [constructor|]. by rewrite app_nil_r. }
  destruct (char_of_total v Hv) as (c & Hc). destruct (IH (result ++ [c])) as (cs & Hcs & Hrun).
  exists (c :: cs). split; [by constructor|]. cbn [foldM].
  rewrite (encode_value_run result v c) by done. cbn [mbind res_bind]. rewrite Hrun. by rewrite <- (assoc_L (++)).
Qed.

Lemma char_values_small data check cs :
  Forall2 char_of (data ++ check) cs -> Forall (fun v => byte_val v < 32) data.
Proof.
  intros Hcs. apply (list.Forall_app _ data check). induction Hcs as [|v c vals cs Hc Hcs IH]; constructor; [|done].
  pose proof (lookup_lt_Some _ _ _ Hc) as Hlt. destruct charset_facts as (_ & Hl & _). lia.
Qed.

(** Bytes a prefix may have. *)
Definition hrp_ok (l : list byte) : Prop := Forall (fun b => 33 <= byte_val b <= 126) l.

Lemma check_hrp_run l : hrp_ok l -> check_hrp l = Ok ().
Proof.
  unfold check_hrp. induction 1 as [|b l Hb Hl IH]; [done|]. simpl.
  destruct (Z.ltb_spec (byte_val b) 33), (Z.ltb_spec 126 (byte_val b)); try lia. done.
Qed.

Lemma check_hrp_inv l : match check_hrp l with Ok _ => hrp_ok l | Err _ => True | _ => False end.
Proof.
  unfold check_hrp. induction l as [|b l IH]; simpl; [constructor|].
  destruct (Z.ltb_spec (byte_val b) 33), (Z.ltb_spec 126 (byte_val b)); simpl; try done.
  destruct (foldM _ () l); try done. by constructor.
Qed.

Lemma hrp_ok_ascii l : hrp_ok l -> ascii l.
Proof. intros Hl. eapply list.Forall_impl; [exact Hl|]. intros b Hb. simpl in *. lia. Qed.

Section CaseFacts.
Context {UC : UnicodeCase}.

Lemma not_mixed s : ascii (str_bytes s) -> (lower_byte <$> str_bytes s) = str_bytes s -> to_lowercase s = s.
Proof. intros Ha Hl. apply str_bytes_inj. by rewrite to_lowercase_ascii. Qed.

Lemma not_mixed_case s : to_lowercase s = s -> mixed_case s = false.
Proof. intros Hs. unfold mixed_case. apply andb_false_iff. right. apply bool_decide_eq_false_2. by intros []. Qed.

Lemma bytes_chars_app p q : ascii p -> bytes_chars (p ++ q) = ((fun b => [b]) <$> p) ++ bytes_chars q.
Proof. induction 1 as [|b p Hb Hp IH]; [done|]. csimpl. by rewrite (proj2 (Z.ltb_lt _ _) Hb), IH. Qed.

Lemma chars_lookup s p q : str_bytes s = p ++ q -> ascii p -> chars s !! length p = head (bytes_chars q).
Proof.
  intros Hs Hp. unfold chars. rewrite Hs, bytes_chars_app by done.
  rewrite lookup_app_r by (by rewrite length_fmap). rewrite length_fmap, Nat.sub_diag. by destruct (bytes_chars q).
Qed.

Lemma head_chars b q : byte_val b < 128 -> head (bytes_chars (b :: q)) = Some [b].
Proof. intros Hb. simpl. by rewrite (proj2 (Z.ltb_lt _ _) Hb). Qed.

Lemma decode_value_run s p c q v acc :
  str_bytes s = p ++ c :: q -> ascii p -> char_of v c -> decode_value s acc (length p) = Ok (acc ++ [v]).
Proof.
  intros Hs Hp Hc. destruct (char_of_facts _ _ Hc) as (Ha & _). unfold decode_value.
  rewrite (chars_lookup s p (c :: q)), head_chars by done. cbn [ok_or mbind res_bind].
  rewrite (char_of_find v c Hc). cbn [ok_or mbind res_bind]. pose proof (byte_val_range v).
  by rewrite Z2Nat.id, to_byte_val by lia.
Qed.

Lemma decode_value_inv s p b q acc :
  str_bytes s = p ++ b :: q -> ascii p ->
  match decode_value s acc (length p) with
  | Ok data => byte_val b < 128 /\ exists v, data = acc ++ [v] /\ char_of v b
  | Err _ => True
  | Panic | Diverge => False
  end.
Proof.
  intros Hs Hp. unfold decode_value. rewrite (chars_lookup s p (b :: q)) by done.
  destruct (Z.ltb_spec (byte_val b) 128) as [Hb|Hb].
  - rewrite head_chars by done. cbn [ok_or mbind res_bind]. destruct (find b _) as [i|] eqn:Hf; [|done].
    cbn [ok_or mbind res_bind]. split; [done|]. eexists. split; [done|]. by apply find_char_of.
  - simpl. destruct (Z.ltb_spec (byte_val b) 128); [lia|].
    destruct q as [|b1 q]; [done|]. destruct (byte_val b <? 224); [done|].
    destruct q as [|b2 q]; [done|]. destruct (byte_val b <? 240); [done|]. by destruct q.
Qed.

Lemma decode_values_run s p q vals acc :
  str_bytes s = p ++ q -> ascii p -> Forall2 char_of vals q ->
  foldM (decode_value s) acc (seq (length p) (length q)) = Ok (acc ++ vals).
Proof.
  intros Hs Hp Hq. revert p acc Hs Hp. induction Hq as [|v c vals q Hc Hq IH]; intros p acc Hs Hp.
  { simpl. by rewrite app_nil_r. }
  destruct (char_of_facts _ _ Hc) as (Ha & _). cbn [foldM seq length].
  rewrite (decode_value_run s p c q v acc) by done. cbn [mbind res_bind].
  specialize (IH (p ++ [c]) (acc ++ [v])).
  rewrite length_app, Nat.add_1_r, <- !(assoc_L (++)) in IH. simpl in IH. rewrite IH; [done..|].
  apply list.Forall_app. split; [done|]. by apply list.Forall_singleton.
Qed.

(** The loop only accepts characters of [CHARSET], one for each byte. *)
Lemma decode_values_inv s p q acc :
  str_bytes s = p ++ q -> ascii p ->
  match foldM (decode_value s) acc (seq (length p) (length q)) with
  | Ok data => exists vals, data = acc ++ vals /\ Forall2 char_of vals q
  | Err _ => True
  | Panic | Diverge => False
  end.
Proof.
  revert p acc. induction q as [|b q IH]; intros p acc Hs Hp.
  { simpl. exists []. rewrite app_nil_r. by split. }
  cbn [foldM seq length]. pose proof (decode_value_inv s p b q acc Hs Hp) as Hb.
  destruct (decode_value s acc (length p)) as [acc'| | |]; try done. destruct Hb as (Hb & v & -> & Hv). cbn [mbind res_bind].
  specialize (IH (p ++ [b]) (acc ++ [v])). rewrite length_app, Nat.add_1_r, <- (assoc_L (++)) in IH.
  assert (ascii (p ++ [b])) as Hpb by (apply list.Forall_app; split; [done|by apply list.Forall_singleton]).
  specialize (IH Hs Hpb). destruct (foldM _ _ _) as [data| | |]; try done.
  destruct IH as (vals & -> & Hvals). exists (v :: vals). rewrite <- (assoc_L (++)). split; [done|]. by constructor.
Qed.

Lemma remove_last_run n data : (n <= length data)%nat ->
  foldM (fun data _ => remove_last data) data (seq 0 n) = Ok (take (length data - n) data).
Proof.
  generalize 0%nat. revert data. induction n as [|n IH]; intros data i Hn; simpl.
  { by rewrite Nat.sub_0_r, firstn_all. }
  destruct data as [|b data]; simpl in Hn; [lia|]. cbn [remove_last mbind res_bind].
  set (d := b :: data) in *. assert (length (take (length d - 1) d) = length d - 1)%nat as Hd by (rewrite length_take; lia).
  rewrite IH by (rewrite Hd; simpl; lia). rewrite Hd, take_take. do 2 f_equal. simpl. lia.
Qed.

(** What [decode] accepts; it never panics. *)
Lemma decode_inv s :
  match decode s with
  | Ok (hrp, data) => exists check cs,
      str_bytes s = str_bytes hrp ++ SEPARATOR :: cs /\ hrp_ok (str_bytes hrp) /\
      Forall2 char_of (data ++ check) cs /\ length check = 6%nat /\ verify_checksum hrp (data ++ check) = true
  | Err _ => True
  | Panic | Diverge => False
  end.
Proof.
  unfold decode. destruct (mixed_case s); [done|].
  destruct (rfind SEPARATOR (str_bytes s)) as [pos|] eqn:Hr; [|done]. simpl.
  case_bool_decide as Hpos; [done|]. apply rfind_Some in Hr as (l1 & cs & Hs & <- & Hcs).
  destruct (str_prefix_run (E:=Bech32Error) s l1 SEPARATOR cs Hs) as (hrp & -> & Hhrp); [done|]. simpl.
  rewrite Hhrp. pose proof (check_hrp_inv l1) as Hck. destruct (check_hrp l1) as [[]| | |]; try done. simpl.
  assert (str_bytes s = (l1 ++ [SEPARATOR]) ++ cs) as Hs' by (by rewrite <- (assoc_L (++))).
  assert (ascii (l1 ++ [SEPARATOR])) as Ha.
  { apply list.Forall_app. split; [by apply hrp_ok_ascii|]. by apply list.Forall_singleton. }
  unfold str_len in Hpos |- *. rewrite Hs, length_app in Hpos. rewrite Hs, length_app. simpl in Hpos |- *.
  replace (length l1 + S (length cs) - (length l1 + 1))%nat with (length cs) by lia.
  pose proof (decode_values_inv s _ cs [] Hs' Ha) as Hd. rewrite length_app in Hd. simpl in Hd.
  destruct (foldM (decode_value s) _ _) as [vals| | |]; try done. destruct Hd as (vals' & -> & Hv). simpl.
  destruct (verify_checksum hrp vals') eqn:Hc; [|done]. cbn [negb].
  pose proof (list.Forall2_length _ _ _ Hv) as Hlen.
  unfold remove_checksum. rewrite remove_last_run by lia. simpl.
  exists (drop (length vals' - 6) vals'), cs. rewrite Hhrp, take_drop, length_drop. split_and!; try done. lia.
Qed.

Lemma decode_run s hrp data check cs :
  str_bytes s = str_bytes hrp ++ SEPARATOR :: cs -> str_len hrp <> 0%nat -> hrp_ok (str_bytes hrp) ->
  mixed_case s = false -> Forall2 char_of (data ++ check) cs -> length check = 6%nat ->
  decode s = if verify_checksum hrp (data ++ check) then Ok (hrp, data) else Err InvalidChecksum.
Proof.
  intros Hs Hne Hhrp Hm Hcs Hck. destruct (chars_of_ascii _ _ Hcs) as (Ha & _ & Hsep).
  unfold decode. rewrite Hm, Hs, rfind_app by done. simpl.
  pose proof (list.Forall2_length _ _ _ Hcs) as Hlen. rewrite length_app in Hlen. unfold str_len in *.
  rewrite bool_decide_false by (rewrite Hs, length_app; simpl; lia).
  destruct (str_prefix_run (E:=Bech32Error) s _ SEPARATOR cs Hs) as (t & -> & Ht); [done|].
  apply str_bytes_inj in Ht as ->. simpl. rewrite check_hrp_run by done. simpl.
  rewrite Hs, length_app. simpl.
  replace (length (str_bytes hrp) + S (length cs) - (length (str_bytes hrp) + 1))%nat with (length cs) by lia.
  pose proof (decode_values_run s (str_bytes hrp ++ [SEPARATOR]) cs (data ++ check) []) as Hd.
  rewrite length_app, <- (assoc_L (++)) in Hd. simpl in Hd. rewrite Hd; [|done| |done].
  2: { apply list.Forall_app. split; [by apply hrp_ok_ascii|]. by apply list.Forall_singleton. }
  simpl. destruct (verify_checksum _ _); [|done]. simpl negb. cbn iota.
  unfold remove_checksum. rewrite remove_last_run by (rewrite length_app; lia). simpl.
  rewrite length_app, Hck, Nat.add_sub. by rewrite take_app_length.
Qed.

Lemma decode_encode hrp data :
  str_len hrp <> 0%nat -> hrp_ok (str_bytes hrp) -> (lower_byte <$> str_bytes hrp) = str_bytes hrp ->
  Forall (fun v => byte_val v < 32) data ->
  exists s, encode hrp data = Ok s /\ decode s = Ok (hrp, data).
Proof.
  intros Hne Hhrp Hlow Hdata. pose proof (hrp_ok_ascii _ Hhrp) as Ha.
  pose proof (not_mixed hrp Ha Hlow) as Hlh. unfold encode. rewrite bool_decide_false by done.
  rewrite check_hrp_run by done. simpl. rewrite not_mixed_case, Hlh by done.
  set (check := create_checksum hrp data).
  destruct (encode_values_run (str_bytes hrp ++ [SEPARATOR]) (data ++ check)) as (cs & Hcs & ->).
  { apply list.Forall_app. split; [done|]. apply create_checksum_values. }
  destruct (chars_of_ascii _ _ Hcs) as (Hac & Hlc & _). simpl.
  assert (ascii ((str_bytes hrp ++ [SEPARATOR]) ++ cs)) as Hall.
  { rewrite <- (assoc_L (++)). apply list.Forall_app. split; [done|]. by constructor. }
  destruct (from_utf8_valid _ (ascii_valid _ Hall)) as (s & -> & Hs). exists s. split; [done|].
  rewrite <- (assoc_L (++)) in Hs. rewrite (decode_run s hrp data check cs); try done.
  - unfold check. by rewrite checksum_verifies.
  - apply not_mixed_case, not_mixed; [by rewrite Hs, (assoc_L (++))|].
    rewrite Hs, fmap_app, Hlow. csimpl. by rewrite Hlc.
Qed.
End CaseFacts.

(** ** A mistyped character is noticed *)

Lemma split_at_last {A} (x : A) a1 a2 b1 b2 :
  a1 ++ x :: a2 = b1 ++ x :: b2 -> x ∉ a2 -> x ∉ b2 -> a1 = b1 /\ a2 = b2.
Proof.
  revert b1. induction a1 as [|y a1 IH]; intros [|z b1]; simpl; intros E Ha Hb; simplify_eq; [done|..].
  - destruct Ha. set_solver.
  - destruct Hb. set_solver.
  - match goal with E : _ ++ _ = _ ++ _ |- _ => by destruct (IH b1 E Ha Hb) as [-> ->] end.
Qed.

Lemma char_values_unique vals vals' cs : Forall2 char_of vals cs -> Forall2 char_of vals' cs -> vals = vals'.
Proof.
  intros Hv. revert vals'. induction Hv as [|v c vals cs Hc Hcs IH]; intros vals' Hv'; inversion_clear Hv'; [done|].
  f_equal; [by eapply char_of_inj|by apply IH].
Qed.

(** In a text that [decode] accepts, no character after the separator can
    be replaced by another one: whatever single character is changed there,
    the checksum is wrong or the character is refused, so that [decode]
    returns an error, for texts of any length.  It does not panic either. *)
Theorem decode_detects_substitution {UC : UnicodeCase} (s s' : RString) (hrp : RString)
    (data l1 l2 : list byte) (c c' : byte)
    (Hdec : decode s = Ok (hrp, data))
    (Hs : str_bytes s = l1 ++ c :: l2) (Hs' : str_bytes s' = l1 ++ c' :: l2)
    (Hafter : SEPARATOR ∉ c :: l2) (Hc' : c' <> SEPARATOR) (Hne : c <> c') :
  exists e, decode s' = Err e.
Proof.
  pose proof (decode_inv s) as Hi. rewrite Hdec in Hi. destruct Hi as (check & cs & Hb & _ & Hcs & _ & Hver).
  assert (SEPARATOR ∉ cs) as Hsep by by eapply chars_of_ascii.
  assert (exists m, l1 = str_bytes hrp ++ SEPARATOR :: m /\ cs = m ++ c :: l2) as (m & -> & ->).
  { rewrite Hb in Hs. apply list.not_elem_of_cons in Hafter as [Hc Hl2].
    apply app_eq_app in Hs as (k & [[_ Hk]|[-> Hk]]); destruct k as [|k0 k]; simplify_eq/=.
    - destruct Hl2. set_solver.
    - by eexists. }
  pose proof (decode_inv s') as Hi. destruct (decode s') as [[hrp' data']|e| |]; [|by eexists|done..].
  exfalso. destruct Hi as (check' & cs' & Hb' & _ & Hcs' & _ & Hver').
  assert (SEPARATOR ∉ cs') as Hsep' by by eapply chars_of_ascii.
  rewrite Hs', <- (assoc_L (++)) in Hb'. simpl in Hb'. apply split_at_last in Hb' as [Hh <-]; [|set_solver|done].
  apply str_bytes_inj in Hh as <-.
  apply list.Forall2_app_inv_r in Hcs as (a & vb & Ha & Hvb & Hv).
  apply list.Forall2_cons_inv_r in Hvb as (v & b & Hvc & Hb2 & ->).
  apply list.Forall2_app_inv_r in Hcs' as (a' & vb' & Ha' & Hvb' & Hv').
  apply list.Forall2_cons_inv_r in Hvb' as (v' & b' & Hvc' & Hb2' & ->).
  pose proof (char_values_unique _ _ _ Ha Ha') as <-. pose proof (char_values_unique _ _ _ Hb2 Hb2') as <-.
  unfold verify_checksum in Hver, Hver'. apply Z.eqb_eq in Hver, Hver'.
  rewrite Hv, (assoc_L (++)) in Hver. rewrite Hv', (assoc_L (++)) in Hver'.
  rewrite <- Hver' in Hver. apply polymod_substitution in Hver as ->. apply Hne. by eapply char_of_fun.
Qed.

(** The text of three values, and a mistake in it. *)
Example encode_text : encode (UC:=unicode_model) (lit "xel") [x00; x01; x02] = Ok (lit "xel:qpzh45ng0").
Proof. by vm_compute. Qed.

Lemma decode_detects_substitution_witness :
  exists e, decode (UC:=unicode_model) (lit "xel:qpxh45ng0") = Err e.
Proof.
  apply (decode_detects_substitution (UC:=unicode_model) (lit "xel:qpzh45ng0") (lit "xel:qpxh45ng0") (lit "xel")
    [x00; x01; x02] (Strings.String.list_byte_of_string "xel:qp") (Strings.String.list_byte_of_string "h45ng0") x7a x78).
  - vm_compute. reflexivity.
  - vm_compute. reflexivity.
  - vm_compute. reflexivity.
  - apply (bool_decide_unpack _). vm_compute. exact I.
  - discriminate.
  - discriminate.
Defined.
