(* ===== verification/VarUint.v ===== *)
(** [xelis_common::varuint] and [xelis_common::difficulty]: the 256-bit
    difficulty values, their arithmetic, their encoding, and the check of a
    block hash against a difficulty. *)

From S2P Require Import Prelude External ExternalModel Serializer Hash.

(** ** varuint.rs *)
Module VarUint.
Section VarUint.
Context `{U256Lib}.

Record t := mk { inner : u256 }.
Definition val (v : t) : Z := u256_val v.(inner).

#[global] Instance t_eq_dec : EqDecision t.
Proof. solve_decision. Defined.

Lemma val_inj a b : val a = val b -> a = b.
Proof. destruct a, b. unfold val; simpl. intros E%u256_inj. by f_equal. Qed.
Lemma val_range a : in_u 256 (val a).
Proof. apply u256_range. Qed.

Definition new (u : u256) : t := mk u.
Definition from_u64 (u : Z) : t := mk (u256_limbs u 0 0 0).
Definition from_u128 (u : Z) : t :=
  let a := Z.land u 0xFFFFFFFFFFFFFFFF in
  let b := wrap 64 (Z.shiftr u 64) in
  mk (u256_limbs a b 0 0).
Definition zero : t := mk u256_zero.
Definition one : t := mk u256_one.

(** The operators of the crate panic on overflow; so do these. *)
Section Operators.
Context {E : Type}.
Definition lift (o : option u256) : res E t := u ← unwrap o; Ok (mk u).
Definition add (a b : t) : res E t := lift (u256_add a.(inner) b.(inner)).
Definition sub (a b : t) : res E t := lift (u256_sub a.(inner) b.(inner)).
Definition mul (a b : t) : res E t := lift (u256_mul a.(inner) b.(inner)).
Definition div (a b : t) : res E t := lift (u256_div a.(inner) b.(inner)).
Definition rem (a b : t) : res E t := lift (u256_rem a.(inner) b.(inner)).
Definition mul_u64 (a : t) (b : Z) : res E t := mul a (from_u64 b).
Definition div_u64 (a : t) (b : Z) : res E t := div a (from_u64 b).
End Operators.
Definition shl (a : t) (n : Z) : t := mk (u256_shl a.(inner) n).
Definition shr (a : t) (n : Z) : t := mk (u256_shr a.(inner) n).

(** The derived comparison is the numeric one. *)
Definition cmp (a b : t) : comparison := val a ?= val b.
Definition ltb (a b : t) : bool := val a <? val b.
Definition leb (a b : t) : bool := val a <=? val b.

Lemma val_from_u64 u : in_u 64 u -> val (from_u64 u) = u.
Proof.
  intros Hu. unfold val, from_u64; simpl. rewrite u256_limbs_spec; try done. lia.
Qed.

Lemma val_from_u128 u : in_u 128 u -> val (from_u128 u) = u.
Proof.
  intros Hu. unfold val, from_u128; simpl.
  change 0xFFFFFFFFFFFFFFFF with (Z.ones 64). rewrite Z.land_ones by lia.
  rewrite Z.shiftr_div_pow2 by lia.
  rewrite u256_limbs_spec; try done; try (apply wrap_range; lia).
  rewrite wrap_small.
  - rewrite Z.mul_comm. pose proof (Z.div_mod u (2 ^ 64)). lia.
  - unfold in_u in *. split; [apply Z.div_pos; lia|apply Z.div_lt_upper_bound; lia].
Qed.

Lemma val_zero : val zero = 0.
Proof. apply u256_zero_spec. Qed.
Lemma val_one : val one = 1.
Proof. apply u256_one_spec. Qed.

(** Each operator, as an operation on numbers that may not be defined. *)
Definition val_res {E} (m : res E t) : res E Z := val <$> m.

Lemma lift_val {E} (o : option u256) :
  val_res (lift (E:=E) o) = unwrap (u256_val <$> o).
Proof. by destruct o. Qed.

Lemma add_val {E} a b :
  val_res (add (E:=E) a b) = if decide (val a + val b < 2 ^ 256) then Ok (val a + val b) else Panic.
Proof. unfold add. rewrite lift_val, u256_add_spec. unfold val. by case_decide. Qed.
Lemma sub_val {E} a b :
  val_res (sub (E:=E) a b) = if decide (val b <= val a) then Ok (val a - val b) else Panic.
Proof. unfold sub. rewrite lift_val, u256_sub_spec. unfold val. by case_decide. Qed.
Lemma mul_val {E} a b :
  val_res (mul (E:=E) a b) = if decide (val a * val b < 2 ^ 256) then Ok (val a * val b) else Panic.
Proof. unfold mul. rewrite lift_val, u256_mul_spec. unfold val. by case_decide. Qed.
Lemma div_val {E} a b :
  val_res (div (E:=E) a b) = if decide (val b = 0) then Panic else Ok (val a / val b).
Proof. unfold div. rewrite lift_val, u256_div_spec. unfold val. by case_decide. Qed.
Lemma shl_val a n : in_u 64 n -> val (shl a n) = (val a * 2 ^ n) mod 2 ^ 256.
Proof. apply u256_shl_spec. Qed.
Lemma shr_val a n : in_u 64 n -> val (shr a n) = val a / 2 ^ n.
Proof. apply u256_shr_spec. Qed.

Lemma val_res_ok {E} (m : res E t) z :
  val_res m = Ok z -> exists v, m = Ok v /\ val v = z.
Proof. destruct m; try done. intros [= <-]. eauto. Qed.

(** The operators on numbers, for the proofs of the clients. *)
Lemma add_ok {E} a b :
  val a + val b < 2 ^ 256 -> exists c, add (E:=E) a b = Ok c /\ val c = val a + val b.
Proof. intros Hlt. apply val_res_ok. rewrite add_val. by rewrite decide_True. Qed.
Lemma sub_ok {E} a b :
  val b <= val a -> exists c, sub (E:=E) a b = Ok c /\ val c = val a - val b.
Proof. intros Hlt. apply val_res_ok. rewrite sub_val. by rewrite decide_True. Qed.
Lemma mul_ok {E} a b :
  val a * val b < 2 ^ 256 -> exists c, mul (E:=E) a b = Ok c /\ val c = val a * val b.
Proof. intros Hlt. apply val_res_ok. rewrite mul_val. by rewrite decide_True. Qed.
Lemma div_ok {E} a b :
  val b <> 0 -> exists c, div (E:=E) a b = Ok c /\ val c = val a / val b.
Proof. intros Hlt. apply val_res_ok. rewrite div_val. by rewrite decide_False. Qed.

(** *** Serialization *)

Definition MAX_VARUINT_SIZE : nat := 32.

(** [while len > 0 && buffer[len - 1] == 0 { len -= 1 }] *)
Fixpoint trim (buffer : list byte) (len : nat) : nat :=
  match len with
  | O => O
  | S m => if decide (buffer !! m = Some x00) then trim buffer m else len
  end.

Definition var_write (v : t) (w : Writer) : Writer :=
  let buffer := vec_to_list (u256_to_big_endian v.(inner)) in
  let len := trim buffer (length buffer) in
  let w := Writer.write_u8 (Z.of_nat len) w in
  if (0 <? len)%nat then Writer.write_bytes (take len buffer) w else w.

Definition var_read : rd t :=
  len ← Reader.read_u8;
  let len := Z.to_nat len in
  if (MAX_VARUINT_SIZE <? len)%nat then rd_err InvalidSize
  else if (len =? 0)%nat then mret zero
  else
    bytes ← Reader.read_bytes_ref len;
    let buffer := bytes ++ replicate (32 - len) x00 in
    mret (mk (u256_from_big_endian buffer)).

#[global] Instance VarUint_Serializer : Serializer t :=
  {| write := var_write; read := var_read; size := default_size var_write |}.

Lemma trim_le buffer len : (trim buffer len <= len)%nat.
Proof. induction len; simpl; [lia|]. case_decide; lia. Qed.

Lemma trim_spec buffer len :
  (len <= length buffer)%nat ->
  take len buffer = take (trim buffer len) buffer ++ replicate (len - trim buffer len) x00.
Proof.
  induction len as [|m IH]; intros Hl; [done|]. cbn [trim].
  case_decide as Hb.
  - rewrite (take_S_r _ _ _ Hb), IH by lia. rewrite <- (assoc_L (++)). f_equal.
    pose proof (trim_le buffer m).
    replace (S m - trim buffer m)%nat with ((m - trim buffer m) + 1)%nat by lia.
    by rewrite replicate_add.
  - by rewrite Nat.sub_diag, app_nil_r.
Qed.

Definition var_len (v : t) : nat :=
  trim (u256_to_big_endian v.(inner)) 32.
Definition var_enc (v : t) : list byte :=
  u8_bytes (Z.of_nat (var_len v)) ++ take (var_len v) (u256_to_big_endian v.(inner)).

Lemma var_len_le v : (var_len v <= 32)%nat.
Proof. apply trim_le. Qed.

Lemma var_write_append v w : var_write v w = Writer.write_bytes (var_enc v) w.
Proof.
  unfold var_write, var_enc, var_len. rewrite length_vec_to_list.
  set (n := trim _ 32). destruct n as [|n]; simpl; by autorewrite with ser.
Qed.

Lemma var_buffer v :
  take (var_len v) (u256_to_big_endian v.(inner)) ++ replicate (32 - var_len v) x00 =
  u256_to_big_endian v.(inner).
Proof.
  unfold var_len. rewrite <- trim_spec by (rewrite length_vec_to_list; lia).
  apply take_ge. by rewrite length_vec_to_list.
Qed.

Lemma var_codec : Codec t var_enc var_read (fun _ => True).
Proof.
  unfold var_read. split; intros *.
  - intros _. pose proof (var_len_le x) as Hl. unfold var_enc.
    rewrite <- (assoc_L (++)). rd_step; [|unfold in_u; lia].
    rewrite Nat2Z.id. destruct (Nat.ltb_spec MAX_VARUINT_SIZE (var_len x)) as [Hlt|_].
    { unfold MAX_VARUINT_SIZE in Hlt. lia. }
    destruct (Nat.eqb_spec (var_len x) 0) as [Hz|Hz].
    + assert (zero = x) as <-.
      { apply val_inj. rewrite val_zero. unfold val.
        rewrite <- u256_to_big_endian_spec, <- var_buffer, Hz. reflexivity. }
      unfold mret, rd_ret. rewrite Hz; simpl. done.
    + change (take (var_len x) (u256_to_big_endian x.(inner)))
        with (id (take (var_len x) (u256_to_big_endian x.(inner)))).
      rd_step; [|rewrite length_take, length_vec_to_list; lia].
      unfold mret, rd_ret. cbn [id]. rewrite var_buffer, <- (assoc_L (++)).
      do 2 f_equal. apply val_inj. unfold val; simpl.
      rewrite u256_from_big_endian_spec by by rewrite length_vec_to_list.
      apply u256_to_big_endian_spec.
  - safe_read.
Qed.

#[global] Instance VarUint_SerOk : SerOk t :=
  mk_SerOk var_enc (fun _ => True) var_write_append var_codec.
#[global] Instance VarUint_SerSize : SerSize t.
Proof. constructor. by intros x _. Qed.

Lemma length_var_enc v : length (var_enc v) = S (var_len v).
Proof.
  unfold var_enc. rewrite length_app, length_take, length_vec_to_list.
  pose proof (var_len_le v). simpl. lia.
Qed.

Lemma from_be_snoc l b : from_be (l ++ [b]) = 256 * from_be l + byte_val b.
Proof.
  induction l as [|a l IH]; simpl; [lia|]. rewrite IH, length_app. simpl.
  replace (Z.of_nat (length l + 1)) with (Z.of_nat (length l) + 1) by lia.
  rewrite Z.pow_add_r by lia. ring.
Qed.

Lemma var_len_odd_byte v : val v mod 256 <> 0 -> var_len v = 32%nat.
Proof.
  intros Hv. unfold var_len. unfold val in Hv. rewrite <- u256_to_big_endian_spec in Hv.
  set (l := vec_to_list (u256_to_big_endian v.(inner))) in *.
  assert (length l = 32%nat) as Hl by apply length_vec_to_list.
  destruct (list.last l) as [b|] eqn:Hb.
  2: { apply last_None in Hb. by rewrite Hb in Hl. }
  apply last_Some in Hb as [l' Hl']. rewrite Hl' in *. rewrite length_app in Hl.
  simpl in Hl. change 32%nat with (S 31). cbn [trim].
  rewrite list_lookup_middle by lia. case_decide as Hx; [|done].
  injection Hx as ->. rewrite from_be_snoc in Hv. exfalso. apply Hv.
  change (byte_val x00) with 0. rewrite Z.add_0_r, Z.mul_comm. by apply Z_mod_mult.
Qed.
End VarUint.
End VarUint.

(** ** difficulty.rs *)
Inductive DifficultyError := DifficultyCannotBeZero | ErrorOnConversionBigUint.

Section Difficulty.
Context `{U256Lib}.

Definition compute_difficulty_target (difficulty : VarUint.t) : res DifficultyError u256 :=
  let diff := difficulty.(VarUint.inner) in
  if decide (u256_val diff = 0) then Err DifficultyCannotBeZero
  else unwrap (u256_div u256_max_value diff).

Definition check_difficulty_against_target (hash : Hash) (target : u256) : bool :=
  let hash_work := u256_from_big_endian (hash_bytes hash) in
  u256_val hash_work <=? u256_val target.

Definition check_difficulty (hash : Hash) (difficulty : VarUint.t) : res DifficultyError bool :=
  target ← compute_difficulty_target difficulty;
  Ok (check_difficulty_against_target hash target).

Definition difficulty_from_hash {E} (hash : Hash) : res E VarUint.t :=
  VarUint.lift (u256_div u256_max_value (u256_from_big_endian (hash_bytes hash))).

(** The number a hash stands for in the proof of work. *)
Definition hash_val (hash : Hash) : Z := from_be (hash_bytes hash).

Lemma hash_work_val h : u256_val (u256_from_big_endian (hash_bytes h)) = hash_val h.
Proof. apply u256_from_big_endian_spec. by rewrite length_hash_bytes. Qed.

Lemma hash_val_range h : in_u 256 (hash_val h).
Proof. rewrite <- hash_work_val. apply u256_range. Qed.

Lemma target_val d :
  VarUint.val d <> 0 ->
  exists target, compute_difficulty_target d = Ok target /\
    u256_val target = (2 ^ 256 - 1) / VarUint.val d.
Proof.
  intros Hd. unfold compute_difficulty_target. rewrite decide_False by done.
  pose proof (u256_div_spec u256_max_value d.(VarUint.inner)) as Hdiv.
  rewrite decide_False in Hdiv by done.
  destruct (u256_div _ _) as [q|]; [|done]. simpl in *.
  rewrite u256_max_value_spec in Hdiv. injection Hdiv as Hdiv. eauto.
Qed.

Lemma le_div_iff a b c : 0 < c -> a <= b / c <-> a * c <= b.
Proof.
  intros Hc. split; intros Hle.
  - pose proof (Z.mul_div_le b c Hc). nia.
  - apply Z.div_le_lower_bound; lia.
Qed.

Lemma check_difficulty_val h d :
  check_difficulty h d =
    if decide (VarUint.val d = 0) then Err DifficultyCannotBeZero
    else Ok (bool_decide (hash_val h * VarUint.val d <= 2 ^ 256 - 1)).
Proof.
  unfold check_difficulty. case_decide as Hd.
  - unfold compute_difficulty_target. by rewrite decide_True.
  - destruct (target_val d Hd) as (t & -> & Ht). simpl. f_equal.
    unfold check_difficulty_against_target. rewrite hash_work_val, Ht.
    pose proof (VarUint.val_range d) as [? _].
    destruct (Z.leb_spec (hash_val h) ((2 ^ 256 - 1) / VarUint.val d)) as [Hle|Hlt];
      symmetry; [apply bool_decide_true|apply bool_decide_false];
      rewrite <- le_div_iff by lia; lia.
Qed.

Lemma difficulty_from_hash_val {E} h :
  hash_val h <> 0 ->
  exists d, difficulty_from_hash (E:=E) h = Ok d /\ VarUint.val d = (2 ^ 256 - 1) / hash_val h.
Proof.
  intros Hh. apply VarUint.val_res_ok. unfold difficulty_from_hash.
  rewrite VarUint.lift_val, u256_div_spec, hash_work_val, u256_max_value_spec.
  by rewrite decide_False.
Qed.

(** ** Properties *)

(** A difficulty value written with [VarUint::write] is read back
    unchanged; it takes one length byte and up to 32 bytes, and always the
    full 33 bytes when its least significant byte is not zero (the bytes
    trimmed by the writer are the least significant ones). *)
Theorem varuint_roundtrip (v : VarUint.t) :
  from_bytes (to_bytes v) = Ok v /\
  (1 <= length (to_bytes v) <= 33)%nat /\
  (VarUint.val v mod 256 <> 0 -> length (to_bytes v) = 33%nat).
Proof.
  assert (to_bytes v = VarUint.var_enc v) as E
    by apply (to_bytes_enc VarUint.var_enc), VarUint.var_write_append.
  split; [by apply from_bytes_to_bytes|].
  rewrite E, VarUint.length_var_enc. pose proof (VarUint.var_len_le v). split; [lia|].
  intros Hv. by rewrite (VarUint.var_len_odd_byte v Hv).
Qed.

(** A hash is accepted at a difficulty exactly when their product stays
    below [2^256]; a zero difficulty is the error [DifficultyCannotBeZero], and
    the check never panics. *)
Theorem check_difficulty_spec (h : Hash) (d : VarUint.t) :
  check_difficulty h d =
    if decide (VarUint.val d = 0) then Err DifficultyCannotBeZero
    else Ok (bool_decide (hash_val h * VarUint.val d <= 2 ^ 256 - 1)).
Proof. apply check_difficulty_val. Qed.

(** The difficulty computed from a nonzero hash is the largest difficulty
    that this hash meets. *)
Theorem difficulty_from_hash_max {E} (h : Hash) (Hh : hash_val h <> 0) :
  exists d, difficulty_from_hash (E:=E) h = Ok d /\
    check_difficulty h d = Ok true /\
    forall d', check_difficulty h d' = Ok true -> VarUint.val d' <= VarUint.val d.
Proof.
  destruct (difficulty_from_hash_val (E:=E) h Hh) as (d & Hd & Hv).
  pose proof (hash_val_range h) as Hr. unfold in_u in Hr.
  assert (0 < VarUint.val d) as Hpos by (rewrite Hv; apply Z.div_str_pos; lia).
  exists d. split; [done|]. rewrite check_difficulty_val, decide_False by lia. split.
  - f_equal. apply bool_decide_true. rewrite Hv. apply Z.mul_div_le. lia.
  - intros d'. rewrite check_difficulty_val. case_decide; [done|].
    intros [= Hb%bool_decide_eq_true]. rewrite Hv. apply le_div_iff; lia.
Qed.
End Difficulty.

Definition sample_hash : Hash := mkHash (vmap (fun _ => x01) (vreplicate 32 x00)).

Lemma difficulty_from_hash_max_witness :
  exists d, @difficulty_from_hash u256_model unit sample_hash = Ok d /\
    @check_difficulty u256_model sample_hash d = Ok true /\
    forall d', @check_difficulty u256_model sample_hash d' = Ok true ->
      @VarUint.val u256_model d' <= @VarUint.val u256_model d.
Proof.
  apply (@difficulty_from_hash_max u256_model unit sample_hash). by vm_compute.
Defined.
