(* ===== verification/Difficulty.v ===== *)
(** [xelis_daemon::core::difficulty]: the Kalman filter that estimates the
    hashrate, and the difficulty required of the next block.

    The filter works on 256-bit integers whose operators panic on overflow, so
    the definitions live in [res].  [kalman_spec] is the filter on plain
    integers; [kalman_refines] shows that under the bounds [est_ok] and
    [cov_ok] the code computes it without a panic, and [cov_step] that the
    bound on the covariance is kept by every step. *)

From S2P Require Import Prelude External ExternalModel Serializer Hash VarUint.

(** [xelis_daemon::config] *)
Definition BLOCK_TIME_MILLIS : Z := 15 * 1000.

Module Difficulty.
Section Difficulty.
Context `{U256Lib}.

Definition SHIFT : Z := 32.
Definition LEFT_SHIFT : VarUint.t := VarUint.from_u64 (2 ^ 32).
Definition PROCESS_NOISE_COVAR : VarUint.t := VarUint.from_u64 (2 ^ 32 / 100 * 5).
Definition P : VarUint.t := LEFT_SHIFT.

Definition kalman_filter {E} (z x_est_prev p_prev : VarUint.t) : res E (VarUint.t * VarUint.t) :=
  z ← VarUint.mul z LEFT_SHIFT;
  r ← VarUint.mul_u64 z 2;
  x_est_prev ← VarUint.mul x_est_prev LEFT_SHIFT;
  (* Prediction step *)
  noise ← VarUint.mul x_est_prev PROCESS_NOISE_COVAR;
  p_pred ← VarUint.add (VarUint.shr noise SHIFT) p_prev;
  (* Update step *)
  pr ← VarUint.add p_pred r;
  pr1 ← VarUint.add pr VarUint.one;
  k ← VarUint.div (VarUint.shl p_pred SHIFT) pr1;
  x_est_new ←
    (if VarUint.leb x_est_prev z then
       d ← VarUint.sub z x_est_prev;
       kd ← VarUint.mul k d;
       VarUint.add x_est_prev (VarUint.shr kd SHIFT)
     else
       d ← VarUint.sub x_est_prev z;
       kd ← VarUint.mul k d;
       VarUint.sub x_est_prev (VarUint.shr kd SHIFT));
  lk ← VarUint.sub LEFT_SHIFT k;
  lkp ← VarUint.mul lk p_pred;
  let p_new := VarUint.shr lkp SHIFT in
  let x_est_new := VarUint.shr x_est_new SHIFT in
  Ok (x_est_new, p_new).

Definition calculate_difficulty {E} (parent_timestamp timestamp : Z)
    (previous_difficulty p minimum_difficulty : VarUint.t) : res E (VarUint.t * VarUint.t) :=
  let solve_time := u64_sub timestamp parent_timestamp in
  let solve_time := if solve_time =? 0 then 1 else solve_time in
  z ← VarUint.div_u64 previous_difficulty solve_time;
  x_prev ← VarUint.div_u64 previous_difficulty BLOCK_TIME_MILLIS;
  '(x_est_new, p_new) ← kalman_filter z x_prev p;
  difficulty ← VarUint.mul_u64 x_est_new BLOCK_TIME_MILLIS;
  if VarUint.ltb difficulty minimum_difficulty then Ok (minimum_difficulty, P)
  else Ok (difficulty, p_new).
End Difficulty.
End Difficulty.

(** ** The filter on integers *)

Definition S32 : Z := 2 ^ 32.
Definition NOISE : Z := 2 ^ 32 / 100 * 5.

Definition k_pred (x p : Z) : Z := x * S32 * NOISE / S32 + p.
Definition k_gain (z x p : Z) : Z := k_pred x p * S32 / (k_pred x p + z * S32 * 2 + 1).
Definition k_est (z x p : Z) : Z :=
  (if x <=? z then x * S32 + k_gain z x p * (z * S32 - x * S32) / S32
   else x * S32 - k_gain z x p * (x * S32 - z * S32) / S32) / S32.
Definition k_cov (z x p : Z) : Z := (S32 - k_gain z x p) * k_pred x p / S32.

(** The bounds under which no intermediate value overflows. *)
Definition est_ok (z : Z) : Prop := 0 <= z <= 2 ^ 180.
Definition cov_ok (p : Z) : Prop := 0 <= p <= 2 ^ 214.

Lemma noise_val : NOISE = 214748360.
Proof. reflexivity. Qed.

Lemma k_pred_eq x p : k_pred x p = x * NOISE + p.
Proof.
  unfold k_pred. replace (x * S32 * NOISE) with (x * NOISE * S32) by ring.
  by rewrite Z.div_mul.
Qed.

Lemma k_pred_bound x p : est_ok x -> cov_ok p -> 0 <= k_pred x p <= 2 ^ 215.
Proof. rewrite k_pred_eq, noise_val. unfold est_ok, cov_ok. nia. Qed.

Lemma k_gain_bound z x p : est_ok z -> est_ok x -> cov_ok p -> 0 <= k_gain z x p <= S32.
Proof.
  intros Hz Hx Hp. pose proof (k_pred_bound x p Hx Hp) as Hb. unfold k_gain, est_ok in *.
  set (a := k_pred x p) in *.
  assert (0 <= z * S32) by (unfold S32; lia). split.
  - apply Z.div_pos; unfold S32 in *; lia.
  - apply Z.div_le_upper_bound; unfold S32 in *; nia.
Qed.

(** The gain is a proportion: scaling a distance by it does not enlarge it. *)
Lemma gain_scale g d : 0 <= g <= S32 -> 0 <= d -> 0 <= g * d / S32 <= d.
Proof.
  intros Hg Hd. split; [apply Z.div_pos; unfold S32 in *; nia|].
  apply Z.div_le_upper_bound; unfold S32 in *; nia.
Qed.

(** The new estimate lies between the old estimate and the observation. *)
Lemma k_est_between z x p :
  est_ok z -> est_ok x -> cov_ok p -> Z.min z x <= k_est z x p <= Z.max z x.
Proof.
  intros Hz Hx Hp. pose proof (k_gain_bound z x p Hz Hx Hp) as Hg.
  unfold k_est. set (g := k_gain z x p) in *.
  destruct (Z.leb_spec x z) as [Hle|Hlt].
  - pose proof (gain_scale g (z * S32 - x * S32) Hg ltac:(unfold S32; lia)) as Hs.
    set (d := g * _ / S32) in *. rewrite Z.min_r, Z.max_l by lia. split.
    + apply Z.div_le_lower_bound; unfold S32 in *; lia.
    + apply Z.div_le_upper_bound; unfold S32 in *; lia.
  - pose proof (gain_scale g (x * S32 - z * S32) Hg ltac:(unfold S32; lia)) as Hs.
    set (d := g * _ / S32) in *. rewrite Z.min_l, Z.max_r by lia. split.
    + apply Z.div_le_lower_bound; unfold S32 in *; lia.
    + apply Z.div_le_upper_bound; unfold S32 in *; lia.
Qed.

(** The covariance never drifts: one step brings it back under the bound. *)
Lemma k_cov_bound z x p :
  est_ok z -> est_ok x -> cov_ok p -> 0 <= k_cov z x p <= z * S32 * 2 + 1 + k_pred x p / S32.
Proof.
  intros Hz Hx Hp. pose proof (k_gain_bound z x p Hz Hx Hp) as Hg.
  pose proof (k_pred_bound x p Hx Hp) as Ha. unfold k_cov.
  unfold est_ok in *. set (a := k_pred x p) in *. set (r := z * S32 * 2).
  assert (0 <= r) by (unfold r, S32; lia).
  assert (a * S32 < (k_gain z x p + 1) * (a + r + 1)) as Hlow.
  { unfold k_gain. fold a. fold r.
    pose proof (Z.mul_succ_div_gt (a * S32) (a + r + 1) ltac:(lia)). lia. }
  set (g := k_gain z x p) in *.
  split; [apply Z.div_pos; unfold S32 in *; nia|].
  assert ((S32 - g) * a <= S32 * (r + 1) + a) as Hup.
  { destruct (Z.le_gt_cases ((S32 - g) * a) (S32 * (r + 1) + a)) as [|Hgt]; [done|].
    exfalso. assert (0 < a) by (destruct (Z.eq_dec a 0) as [E|]; [rewrite E in *; unfold S32 in *; lia|lia]).
    assert ((S32 - g - 1) * (a + r + 1) < S32 * (r + 1)) by nia.
    assert (S32 * (r + 1) < (S32 - g - 1) * a) by lia.
    assert (0 < S32 - g - 1) by nia. nia. }
  transitivity ((S32 * (r + 1) + a) / S32).
  - apply Z.div_le_mono; [done|exact Hup].
  - rewrite Z.mul_comm, Z.add_comm, Z.div_add by done. lia.
Qed.

Lemma cov_step z x p : est_ok z -> est_ok x -> cov_ok p -> cov_ok (k_cov z x p).
Proof.
  intros Hz Hx Hp. pose proof (k_cov_bound z x p Hz Hx Hp) as [Hlo Hhi].
  pose proof (k_pred_bound x p Hx Hp) as Ha.
  assert (k_pred x p / S32 <= 2 ^ 183).
  { apply Z.div_le_upper_bound; unfold S32; lia. }
  unfold cov_ok, est_ok, S32 in *. lia.
Qed.

(** ** Refinement *)

Section Refinement.
Context `{U256Lib}.

(** Runs one operator: replaces it with its value, leaving its bound. *)
Ltac op lem c v :=
  let E := fresh in
  destruct lem as (c & E & v); [..|rewrite E; cbn [mbind res_bind]; clear E].

Lemma LEFT_SHIFT_val : VarUint.val Difficulty.LEFT_SHIFT = S32.
Proof. by apply VarUint.val_from_u64. Qed.
Lemma NOISE_val : VarUint.val Difficulty.PROCESS_NOISE_COVAR = NOISE.
Proof. by apply VarUint.val_from_u64. Qed.
Lemma shr_S32 a : VarUint.val (VarUint.shr a Difficulty.SHIFT) = VarUint.val a / S32.
Proof. by rewrite VarUint.shr_val. Qed.

(** The two branches of the estimate. *)
Lemma estimate_ok {E} (z x k : VarUint.t) g :
  VarUint.val k = g -> 0 <= g <= S32 ->
  VarUint.val z <= 2 ^ 212 -> VarUint.val x <= 2 ^ 212 ->
  exists e,
    (if VarUint.leb x z then
       d ← VarUint.sub z x; kd ← VarUint.mul k d;
       VarUint.add x (VarUint.shr kd Difficulty.SHIFT)
     else
       d ← VarUint.sub x z; kd ← VarUint.mul k d;
       VarUint.sub x (VarUint.shr kd Difficulty.SHIFT)) = Ok (E:=E) e /\
    VarUint.val e =
      if VarUint.val x <=? VarUint.val z
      then VarUint.val x + g * (VarUint.val z - VarUint.val x) / S32
      else VarUint.val x - g * (VarUint.val x - VarUint.val z) / S32.
Proof.
  intros Hk Hg Hz Hx.
  pose proof (VarUint.val_range z) as [Hz0 _]. pose proof (VarUint.val_range x) as [Hx0 _].
  unfold VarUint.leb. destruct (Z.leb_spec (VarUint.val x) (VarUint.val z)) as [Hle|Hlt].
  - op (VarUint.sub_ok (E:=E) z x Hle) d Hd.
    op (VarUint.mul_ok (E:=E) k d) kd Hkd; [rewrite Hk, Hd; unfold S32 in *; nia|].
    pose proof (gain_scale g (VarUint.val z - VarUint.val x) Hg ltac:(lia)) as Hs.
    destruct (VarUint.add_ok (E:=E) x (VarUint.shr kd Difficulty.SHIFT)) as (e & He & Hv);
      rewrite ?shr_S32, ?Hkd, ?Hk, ?Hd in *; [lia|eauto].
  - op (VarUint.sub_ok (E:=E) x z ltac:(lia)) d Hd.
    op (VarUint.mul_ok (E:=E) k d) kd Hkd; [rewrite Hk, Hd; unfold S32 in *; nia|].
    pose proof (gain_scale g (VarUint.val x - VarUint.val z) Hg ltac:(lia)) as Hs.
    destruct (VarUint.sub_ok (E:=E) x (VarUint.shr kd Difficulty.SHIFT)) as (e & He & Hv);
      rewrite ?shr_S32, ?Hkd, ?Hk, ?Hd in *; [lia|eauto].
Qed.

Lemma kalman_refines {E} (z x p : VarUint.t) :
  est_ok (VarUint.val z) -> est_ok (VarUint.val x) -> cov_ok (VarUint.val p) ->
  exists x' p', Difficulty.kalman_filter (E:=E) z x p = Ok (x', p') /\
    VarUint.val x' = k_est (VarUint.val z) (VarUint.val x) (VarUint.val p) /\
    VarUint.val p' = k_cov (VarUint.val z) (VarUint.val x) (VarUint.val p).
Proof.
  intros Hz Hx Hp. unfold Difficulty.kalman_filter, VarUint.mul_u64.
  pose proof (k_pred_bound _ _ Hx Hp) as Hpred.
  pose proof (k_gain_bound _ _ _ Hz Hx Hp) as Hgain.
  pose proof LEFT_SHIFT_val as HS. pose proof NOISE_val as HN.
  set (zv := VarUint.val z) in *. set (xv := VarUint.val x) in *. set (pv := VarUint.val p) in *.
  assert (S32 = 2 ^ 32) as HS32 by done. pose proof noise_val as HN'.
  unfold est_ok, cov_ok in *.
  op (VarUint.mul_ok (E:=E) z Difficulty.LEFT_SHIFT) z' Hz'; [rewrite HS; fold zv; lia|].
  rewrite HS in Hz'. fold zv in Hz'.
  op (VarUint.mul_ok (E:=E) z' (VarUint.from_u64 2)) r Hr;
    rewrite VarUint.val_from_u64, ?Hz' in * by done; [lia|].
  op (VarUint.mul_ok (E:=E) x Difficulty.LEFT_SHIFT) x' Hx'; [rewrite HS; fold xv; lia|].
  rewrite HS in Hx'. fold xv in Hx'.
  op (VarUint.mul_ok (E:=E) x' Difficulty.PROCESS_NOISE_COVAR) nz Hnz;
    rewrite ?HN, ?Hx' in *; [rewrite HN'; lia|].
  op (VarUint.add_ok (E:=E) (VarUint.shr nz Difficulty.SHIFT) p) a Ha;
    rewrite ?shr_S32, ?Hnz in *; fold pv in Ha || fold pv; [unfold k_pred in Hpred; lia|].
  change (VarUint.val a = k_pred xv pv) in Ha.
  op (VarUint.add_ok (E:=E) a r) pr Hpr; [lia|].
  op (VarUint.add_ok (E:=E) pr VarUint.one) pr1 Hpr1; rewrite VarUint.val_one in *; [lia|].
  assert (VarUint.val (VarUint.shl a Difficulty.SHIFT) = k_pred xv pv * S32) as Hshl.
  { rewrite VarUint.shl_val, Ha by done. unfold Difficulty.SHIFT. rewrite <- HS32.
    apply Z.mod_small. lia. }
  op (VarUint.div_ok (E:=E) (VarUint.shl a Difficulty.SHIFT) pr1) k Hk; [lia|].
  assert (VarUint.val k = k_gain zv xv pv) as Hkg.
  { rewrite Hk, Hshl, Hpr1, Hpr, Ha, Hr. done. }
  destruct (estimate_ok (E:=E) z' x' k _ Hkg Hgain) as (e & -> & He); [lia..|].
  cbn [mbind res_bind].
  op (VarUint.sub_ok (E:=E) Difficulty.LEFT_SHIFT k) lk Hlk; rewrite ?HS, ?Hkg in *; [lia|].
  op (VarUint.mul_ok (E:=E) lk a) lkp Hlkp; rewrite Hlk, Ha in *; [nia|].
  do 2 eexists. split; [done|]. rewrite !shr_S32, He, Hlkp, Hx', Hz'. split; [|done].
  unfold k_est. destruct (Z.leb_spec xv zv), (Z.leb_spec (xv * S32) (zv * S32)); try done; lia.
Qed.

(** [calculate_difficulty] on integers. *)
Definition solve_of (parent_timestamp timestamp : Z) : Z :=
  let s := u64_sub timestamp parent_timestamp in if s =? 0 then 1 else s.

Lemma solve_of_range pt t : 1 <= solve_of pt t < 2 ^ 64.
Proof.
  unfold solve_of. pose proof (wrap_range 64 (t - pt) ltac:(lia)) as Hr.
  fold (u64_sub t pt) in Hr. unfold in_u in Hr.
  destruct (Z.eqb_spec (u64_sub t pt) 0); lia.
Qed.

Lemma div_u64_ok {E} (a : VarUint.t) b :
  in_u 64 b -> b <> 0 ->
  exists q, VarUint.div_u64 (E:=E) a b = Ok q /\ VarUint.val q = VarUint.val a / b.
Proof.
  intros Hb Hz. destruct (VarUint.div_ok (E:=E) a (VarUint.from_u64 b)) as (q & Hq & Hv);
    rewrite VarUint.val_from_u64 in * by done; eauto.
Qed.

Lemma div_est_ok a b : 0 <= a <= 2 ^ 180 -> 1 <= b -> est_ok (a / b).
Proof.
  intros Ha Hb. split; [apply Z.div_pos; lia|].
  apply Z.div_le_upper_bound; nia.
Qed.

Lemma calculate_refines {E} pt t (prev p minimum : VarUint.t) :
  VarUint.val prev <= 2 ^ 180 -> cov_ok (VarUint.val p) ->
  let z := VarUint.val prev / solve_of pt t in
  let x := VarUint.val prev / BLOCK_TIME_MILLIS in
  let d := k_est z x (VarUint.val p) * BLOCK_TIME_MILLIS in
  exists d' p', Difficulty.calculate_difficulty (E:=E) pt t prev p minimum = Ok (d', p') /\
    (VarUint.val d', VarUint.val p') =
      if d <? VarUint.val minimum then (VarUint.val minimum, S32)
      else (d, k_cov z x (VarUint.val p)).
Proof.
  intros Hprev Hp z x d. pose proof (VarUint.val_range prev) as [Hprev0 _].
  pose proof (solve_of_range pt t) as Hs.
  assert (est_ok z) as Hz by (apply div_est_ok; lia).
  assert (est_ok x) as Hx by (apply div_est_ok; unfold BLOCK_TIME_MILLIS; lia).
  unfold Difficulty.calculate_difficulty. fold (solve_of pt t).
  op (div_u64_ok (E:=E) prev (solve_of pt t)) zv Hzv; [unfold in_u; lia|lia|].
  op (div_u64_ok (E:=E) prev BLOCK_TIME_MILLIS) xv Hxv; [done|done|].
  fold z in Hzv. fold x in Hxv.
  destruct (kalman_refines (E:=E) zv xv p) as (x' & p' & -> & Hx' & Hp'); try congruence.
  cbn [mbind res_bind]. rewrite Hzv, Hxv in Hx', Hp'.
  pose proof (k_est_between z x (VarUint.val p) Hz Hx Hp) as Hb.
  assert (VarUint.val (VarUint.from_u64 BLOCK_TIME_MILLIS) = BLOCK_TIME_MILLIS) as HBT
    by (by apply VarUint.val_from_u64).
  unfold VarUint.mul_u64.
  op (VarUint.mul_ok (E:=E) x' (VarUint.from_u64 BLOCK_TIME_MILLIS)) dv Hdv.
  { rewrite HBT, Hx'. unfold est_ok, BLOCK_TIME_MILLIS in *. lia. }
  rewrite HBT, Hx' in Hdv. fold d in Hdv. unfold VarUint.ltb. rewrite Hdv.
  destruct (d <? VarUint.val minimum).
  - do 2 eexists. split; [done|]. f_equal. apply LEFT_SHIFT_val.
  - do 2 eexists. split; [done|]. congruence.
Qed.

(** ** Properties *)

(** Within the bounds [est_ok] on the hashrates and [cov_ok] on the
    covariance no operation of [kalman_filter] overflows or divides by zero:
    it returns, the new estimate lies between the previous estimate and the
    observed value, and the new covariance satisfies [cov_ok] again. *)
Theorem kalman_filter_safe {E} (z x p : VarUint.t)
    (Hz : est_ok (VarUint.val z)) (Hx : est_ok (VarUint.val x)) (Hp : cov_ok (VarUint.val p)) :
  exists x' p', Difficulty.kalman_filter (E:=E) z x p = Ok (x', p') /\
    Z.min (VarUint.val z) (VarUint.val x) <= VarUint.val x'
      <= Z.max (VarUint.val z) (VarUint.val x) /\
    cov_ok (VarUint.val p').
Proof.
  destruct (kalman_refines (E:=E) z x p Hz Hx Hp) as (x' & p' & Hk & Hx' & Hp').
  exists x', p'. rewrite Hx', Hp'.
  eauto using k_est_between, cov_step.
Qed.

(** C40: [calculate_difficulty] never panics on a difficulty up to [2^180]
    whatever the two timestamps are; the result is at least the minimum
    difficulty, its covariance is bounded again, it does not exceed the
    previous difficulty (or the minimum) when the block was solved in no less
    than the target time, and it does not fall by a whole target time when
    the block was solved in no more than it. *)
Theorem calculate_difficulty_bounds {E} pt t (prev p minimum : VarUint.t)
    (Hprev : VarUint.val prev <= 2 ^ 180) (Hp : cov_ok (VarUint.val p)) :
  exists d p', Difficulty.calculate_difficulty (E:=E) pt t prev p minimum = Ok (d, p') /\
    VarUint.val minimum <= VarUint.val d /\
    cov_ok (VarUint.val p') /\
    (BLOCK_TIME_MILLIS <= solve_of pt t ->
      VarUint.val d <= Z.max (VarUint.val prev) (VarUint.val minimum)) /\
    (solve_of pt t <= BLOCK_TIME_MILLIS -> VarUint.val prev - BLOCK_TIME_MILLIS < VarUint.val d).
Proof.
  destruct (calculate_refines (E:=E) pt t prev p minimum Hprev Hp) as (d & p' & Hc & Hv).
  exists d, p'. split; [done|]. clear Hc.
  pose proof (VarUint.val_range prev) as [Hprev0 _]. pose proof (solve_of_range pt t) as Hs.
  assert (0 < BLOCK_TIME_MILLIS) as HB by done.
  set (z := VarUint.val prev / solve_of pt t) in *.
  set (x := VarUint.val prev / BLOCK_TIME_MILLIS) in *.
  assert (est_ok z) as Hz by (apply div_est_ok; lia).
  assert (est_ok x) as Hx by (apply div_est_ok; lia).
  pose proof (k_est_between z x _ Hz Hx Hp) as Hb.
  pose proof (cov_step z x _ Hz Hx Hp) as Hcov.
  set (e := k_est z x (VarUint.val p)) in *. clearbody e.
  assert (x * BLOCK_TIME_MILLIS <= VarUint.val prev) as Hxp
    by (rewrite Z.mul_comm; by apply Z.mul_div_le).
  assert (VarUint.val prev < (x + 1) * BLOCK_TIME_MILLIS) as Hxp'.
  { pose proof (Z.mul_succ_div_gt (VarUint.val prev) BLOCK_TIME_MILLIS HB). unfold x. lia. }
  assert (solve_of pt t <= BLOCK_TIME_MILLIS -> x <= z) as Hzx
    by (intros; apply Z.div_le_compat_l; lia).
  assert (BLOCK_TIME_MILLIS <= solve_of pt t -> z <= x) as Hxz
    by (intros; apply Z.div_le_compat_l; lia).
  destruct (Z.ltb_spec (e * BLOCK_TIME_MILLIS) (VarUint.val minimum)) as [Hlt|Hge];
    injection Hv as -> ->; (split; [lia|]); (split; [done|]); split; intros; nia.
Qed.
End Refinement.

(** The unit test of the source, evaluated on the model of the crate. *)
Definition U := @VarUint.from_u64 u256_model.
Definition vals {E} (r : res E (@VarUint.t u256_model * @VarUint.t u256_model)) : option (Z * Z) :=
  match r with Ok (a, b) => Some (VarUint.val a, VarUint.val b) | _ => None end.

Example test_kalman_filter_1 :
  vals (Difficulty.kalman_filter (E:=unit) (U 300) (U 1) Difficulty.P) = Some (1, 4501837440).
Proof. by vm_compute. Qed.
Example test_kalman_filter_2 :
  vals (Difficulty.kalman_filter (E:=unit) (U 150) (U 1) (U 4501837440)) = Some (1, 4699383461).
Proof. by vm_compute. Qed.

Lemma kalman_filter_safe_witness :
  exists x' p', Difficulty.kalman_filter (E:=unit) (U 300) (U 1) Difficulty.P = Ok (x', p') /\
    Z.min (VarUint.val (U 300)) (VarUint.val (U 1)) <= VarUint.val x'
      <= Z.max (VarUint.val (U 300)) (VarUint.val (U 1)) /\
    cov_ok (VarUint.val p').
Proof. apply kalman_filter_safe; by vm_compute. Defined.

Lemma calculate_difficulty_bounds_witness :
  exists d p', Difficulty.calculate_difficulty (E:=unit) 5000 25000 (U 300000) (U 4501837440) (U 1000)
      = Ok (d, p') /\
    VarUint.val (U 1000) <= VarUint.val d /\
    cov_ok (VarUint.val p') /\
    (BLOCK_TIME_MILLIS <= solve_of 5000 25000 ->
      VarUint.val d <= Z.max (VarUint.val (U 300000)) (VarUint.val (U 1000))) /\
    (solve_of 5000 25000 <= BLOCK_TIME_MILLIS ->
      VarUint.val (U 300000) - BLOCK_TIME_MILLIS < VarUint.val d).
Proof. apply calculate_difficulty_bounds; by vm_compute. Defined.
