(* ===== verification/ExternalCrypto.v ===== *)
(** Interfaces of the cryptographic crates, in the manner of [External]:

    - [Curve]: crates [curve25519-dalek] (scalars and Ristretto points) and
      [sha3];
    - [Merlin]: crate [merlin], the transcript of a Fiat-Shamir proof;
    - [RangeProofLib]: crate [bulletproofs].

    [curve_model], [merlin_model] and [range_proof_model] are concrete
    instances, on the field with 257 elements. *)

From Stdlib Require Import Ring_theory.
From S2P Require Import Prelude.

(** ** Scalars and points

    [decompress] accepts exactly the canonical encodings of points, and
    [from_canonical_bytes] exactly the canonical encodings of scalars. *)
Class Curve := {
  scalar : Type;
  scalar_eq_dec :: EqDecision scalar;
  s0 : scalar;
  s1 : scalar;
  sadd : scalar -> scalar -> scalar;
  smul : scalar -> scalar -> scalar;
  ssub : scalar -> scalar -> scalar;
  sopp : scalar -> scalar;
  sinv : scalar -> scalar;
  scalar_ring : ring_theory s0 s1 sadd smul ssub sopp (@eq scalar);
  sinv_l x : x <> s0 -> smul (sinv x) x = s1;
  s_from_u64 : Z -> scalar;
  s_from_u64_0 : s_from_u64 0 = s0;
  s_from_u64_succ z :
    0 <= z -> z + 1 < 2 ^ 64 -> s_from_u64 (z + 1) = sadd (s_from_u64 z) s1;
  s_bytes : scalar -> vec byte 32;
  s_from_canonical_bytes : vec byte 32 -> option scalar;
  s_from_canonical_spec b x : s_from_canonical_bytes b = Some x <-> b = s_bytes x;
  s_from_bytes_wide : vec byte 64 -> scalar;

  point : Type;
  point_eq_dec :: EqDecision point;
  pid : point;
  padd : point -> point -> point;
  popp : point -> point;
  pmul : scalar -> point -> point;
  padd_comm p q : padd p q = padd q p;
  padd_assoc p q r : padd p (padd q r) = padd (padd p q) r;
  padd_id_l p : padd pid p = p;
  padd_opp_r p : padd p (popp p) = pid;
  pmul_1 p : pmul s1 p = p;
  pmul_add_l x y p : pmul (sadd x y) p = padd (pmul x p) (pmul y p);
  pmul_add_r x p q : pmul x (padd p q) = padd (pmul x p) (pmul x q);
  pmul_mul x y p : pmul x (pmul y p) = pmul (smul x y) p;
  multiscalar_mul : list scalar -> list point -> point;
  multiscalar_mul_spec xs ps :
    length xs = length ps ->
    multiscalar_mul xs ps = foldr padd pid (zip_with pmul xs ps);
  compress : point -> vec byte 32;
  decompress : vec byte 32 -> option point;
  decompress_spec b p : decompress b = Some p <-> b = compress p;
  compress_id : compress pid = vreplicate 32 x00;
  G : point;
  from_uniform_bytes : vec byte 64 -> point;
  sha3_512 : list byte -> vec byte 64;
}.

Definition psub `{Curve} (p q : point) : point := padd p (popp q).

Section CurveFacts.
Context `{Curve}.

Lemma padd_id_r p : padd p pid = p.
Proof. by rewrite padd_comm, padd_id_l. Qed.

Lemma padd_cancel_l p q r : padd p q = padd p r -> q = r.
Proof.
  intros E. rewrite <- (padd_id_l q), <- (padd_id_l r), <- (padd_opp_r p).
  rewrite (padd_comm p (popp p)), <- !padd_assoc. by rewrite E.
Qed.

Lemma popp_unique p q : padd p q = pid -> q = popp p.
Proof. intros E. apply (padd_cancel_l p). by rewrite E, padd_opp_r. Qed.

Lemma padd_shuffle p q r s : padd (padd p q) (padd r s) = padd (padd p r) (padd q s).
Proof. by rewrite <- !padd_assoc, (padd_assoc q), (padd_comm q r), <- padd_assoc. Qed.

Lemma popp_add p q : popp (padd p q) = padd (popp p) (popp q).
Proof.
  symmetry. apply popp_unique. by rewrite padd_shuffle, !padd_opp_r, padd_id_l.
Qed.

Lemma popp_id : popp pid = pid.
Proof. symmetry. apply popp_unique, padd_id_l. Qed.

Lemma popp_opp p : popp (popp p) = p.
Proof. symmetry. apply popp_unique. by rewrite padd_comm, padd_opp_r. Qed.

Lemma pmul_0 p : pmul s0 p = pid.
Proof.
  apply (padd_cancel_l (pmul s0 p)). rewrite padd_id_r, <- pmul_add_l. f_equal.
  apply (Radd_0_l scalar_ring).
Qed.

Lemma pmul_id x : pmul x pid = pid.
Proof.
  apply (padd_cancel_l (pmul x pid)). by rewrite padd_id_r, <- pmul_add_r, padd_id_l.
Qed.

Lemma pmul_opp_l x p : pmul (sopp x) p = popp (pmul x p).
Proof.
  apply popp_unique. rewrite <- pmul_add_l, (Ropp_def scalar_ring). apply pmul_0.
Qed.

Lemma pmul_opp_r x p : pmul x (popp p) = popp (pmul x p).
Proof. apply popp_unique. by rewrite <- pmul_add_r, padd_opp_r, pmul_id. Qed.

Lemma decompress_compress p : decompress (compress p) = Some p.
Proof. by apply decompress_spec. Qed.

Lemma compress_inj p q : compress p = compress q -> p = q.
Proof. intros E. pose proof (decompress_compress p) as Hp. rewrite E, decompress_compress in Hp. congruence. Qed.

(** Amounts add up as long as they stay 64-bit integers. *)
Lemma s_from_u64_add a b :
  0 <= a -> 0 <= b -> a + b < 2 ^ 64 ->
  s_from_u64 (a + b) = sadd (s_from_u64 a) (s_from_u64 b).
Proof.
  intros Ha Hb. revert b Hb. apply (natlike_ind (fun b => a + b < 2 ^ 64 -> _)).
  - intros _. rewrite Z.add_0_r, s_from_u64_0.
    by rewrite (Radd_comm scalar_ring), (Radd_0_l scalar_ring).
  - intros b Hb IH Hlt. unfold Z.succ in *. rewrite Z.add_assoc.
    rewrite !s_from_u64_succ by lia. rewrite IH by lia.
    by rewrite (Radd_assoc scalar_ring).
Qed.
End CurveFacts.

(** ** Equations between points

    Scalars and points together form a commutative ring, in which a product of
    two points is zero.  An identity between sums of multiples of points is an
    identity of that ring, so [ring] proves it. *)
Section Idealization.
Context {CV : Curve}.

Definition ideal : Type := scalar * point.
Definition i_scalar (x : scalar) : ideal := (x, pid).
Definition i_point (p : point) : ideal := (s0, p).
Definition i_add (a b : ideal) : ideal := (sadd a.1 b.1, padd a.2 b.2).
Definition i_mul (a b : ideal) : ideal := (smul a.1 b.1, padd (pmul a.1 b.2) (pmul b.1 a.2)).
Definition i_opp (a : ideal) : ideal := (sopp a.1, popp a.2).
Definition i_sub (a b : ideal) : ideal := i_add a (i_opp b).

Add Ring ScalarRingI : scalar_ring.

Lemma ideal_ring :
  ring_theory (i_scalar s0) (i_scalar s1) i_add i_mul i_sub i_opp (@eq ideal).
Proof.
  split; unfold i_add, i_mul, i_opp, i_sub, i_scalar; intros; simpl; try done;
    repeat match goal with x : ideal |- _ => destruct x end; simpl; f_equal; try ring.
  - apply padd_id_l.
  - apply padd_comm.
  - apply padd_assoc.
  - by rewrite pmul_1, pmul_id, padd_id_r.
  - apply padd_comm.
  - rewrite !pmul_add_r, !pmul_mul, padd_assoc. f_equal; [f_equal; f_equal; ring|f_equal; ring].
  - by rewrite pmul_add_l, pmul_add_r, padd_shuffle.
  - apply padd_opp_r.
Qed.

Lemma i_point_inj p q : i_point p = i_point q -> p = q.
Proof. by intros [= ->]. Qed.
Lemma i_point_add p q : i_point (padd p q) = i_add (i_point p) (i_point q).
Proof. unfold i_point, i_add; simpl. f_equal. ring. Qed.
Lemma i_point_opp p : i_point (popp p) = i_opp (i_point p).
Proof. unfold i_point, i_opp; simpl. f_equal. ring. Qed.
Lemma i_point_mul x p : i_point (pmul x p) = i_mul (i_scalar x) (i_point p).
Proof. unfold i_point, i_scalar, i_mul; simpl. rewrite pmul_0, padd_id_r. f_equal. ring. Qed.
Lemma i_point_id : i_point pid = i_scalar s0.
Proof. done. Qed.
Lemma i_scalar_add x y : i_scalar (sadd x y) = i_add (i_scalar x) (i_scalar y).
Proof. unfold i_scalar, i_add; simpl. by rewrite padd_id_l. Qed.
Lemma i_scalar_mul x y : i_scalar (smul x y) = i_mul (i_scalar x) (i_scalar y).
Proof. unfold i_scalar, i_mul; simpl. by rewrite !pmul_id, padd_id_l. Qed.
Lemma i_scalar_opp x : i_scalar (sopp x) = i_opp (i_scalar x).
Proof. unfold i_scalar, i_opp; simpl. by rewrite popp_id. Qed.
Lemma i_scalar_sub x y : i_scalar (ssub x y) = i_sub (i_scalar x) (i_scalar y).
Proof.
  unfold i_sub. rewrite <- i_scalar_opp, <- i_scalar_add. f_equal. ring.
Qed.
End Idealization.

(** Needs [ideal_ring] declared as a ring in the section that uses it. *)
Ltac point_push :=
  rewrite ?i_point_add, ?i_point_opp, ?i_point_mul, ?i_point_id;
  repeat first [rewrite i_point_add | rewrite i_point_opp | rewrite i_point_mul | rewrite i_point_id];
  repeat first [rewrite i_scalar_add | rewrite i_scalar_mul | rewrite i_scalar_opp | rewrite i_scalar_sub].
Ltac point_ring :=
  unfold psub in *; apply i_point_inj; point_push; ring.

(** ** merlin *)
Class Merlin := {
  transcript : Type;
  t_new : list byte -> transcript;
  t_append_message : list byte -> list byte -> transcript -> transcript;
  t_append_u64 : list byte -> Z -> transcript -> transcript;
  t_challenge_bytes : list byte -> transcript -> vec byte 64 * transcript;
}.

(** ** bulletproofs

    A proof serializes to [9 + 2k] elements of 32 bytes. *)
Inductive ProofError :=
  | VerificationError'
  | FormatError
  | WrongNumBlindingFactors
  | InvalidBitsize
  | InvalidAggregation
  | InvalidGeneratorsLength.

Class RangeProofLib `{Curve, Merlin} := {
  range_proof : Type;
  rp_to_bytes : range_proof -> list byte;
  rp_from_bytes : list byte -> option range_proof;
  rp_from_bytes_spec b p : rp_from_bytes b = Some p <-> b = rp_to_bytes p;
  rp_length p : exists k, length (rp_to_bytes p) = (32 * (9 + 2 * k))%nat;
  rp_verify_multiple :
    range_proof -> transcript -> list (point * vec byte 32) -> nat -> res ProofError ();
  rp_verify_batch :
    list (range_proof * transcript * list (point * vec byte 32) * nat) -> res ProofError ();
}.

(** ** A model of the interfaces *)

Definition f257 : Type := dsig (fun z => 0 <= z < 257).
Definition f257_of (z : Z) : f257 :=
  match decide (0 <= z mod 257 < 257) with
  | left H => dexist (z mod 257) H
  | right _ => dexist (P:=fun z => 0 <= z < 257) 0 (conj (Z.le_refl 0) eq_refl)
  end.

Lemma f257_val z : proj1_sig (f257_of z) = z mod 257.
Proof.
  unfold f257_of. case_decide as Hd; [done|].
  exfalso. apply Hd, Z.mod_pos_bound. done.
Qed.

Lemma f257_range (x : f257) : 0 <= proj1_sig x < 257.
Proof. exact (proj2_dsig x). Qed.

Lemma f257_ext (x y : f257) : proj1_sig x = proj1_sig y -> x = y.
Proof. intros E. by apply dsig_eq. Qed.

#[export] Instance f257_eq_dec : EqDecision f257 := _.

Definition f257_add (x y : f257) : f257 := f257_of (proj1_sig x + proj1_sig y).
Definition f257_mul (x y : f257) : f257 := f257_of (proj1_sig x * proj1_sig y).
Definition f257_opp (x : f257) : f257 := f257_of (- proj1_sig x).
Definition f257_sub (x y : f257) : f257 := f257_add x (f257_opp y).
Definition pow_mod (x : Z) (n : nat) : Z := Nat.iter n (fun a => (a * x) mod 257) 1.
Definition f257_inv (x : f257) : f257 := f257_of (pow_mod (proj1_sig x) 255).
Definition f257_bytes (x : f257) : vec byte 32 :=
  default (vreplicate 32 x00) (to_arr 32 (be_bytes 32 (proj1_sig x))).
Definition f257_from_bytes (b : vec byte 32) : option f257 :=
  let x := f257_of (from_be b) in if decide (b = f257_bytes x) then Some x else None.

Lemma f257_self (x : f257) : x = f257_of (proj1_sig x).
Proof. apply f257_ext. rewrite f257_val. symmetry. apply Z.mod_small, f257_range. Qed.

Lemma f257_of_eq a b : a mod 257 = b mod 257 -> f257_of a = f257_of b.
Proof. intros E. apply f257_ext. by rewrite !f257_val. Qed.

Lemma f257_add_of a b : f257_add (f257_of a) (f257_of b) = f257_of (a + b).
Proof. apply f257_of_eq. rewrite !f257_val. by rewrite <- Z.add_mod. Qed.
Lemma f257_mul_of a b : f257_mul (f257_of a) (f257_of b) = f257_of (a * b).
Proof. apply f257_of_eq. rewrite !f257_val. by rewrite <- Z.mul_mod. Qed.
Lemma f257_opp_of a : f257_opp (f257_of a) = f257_of (- a).
Proof.
  apply f257_of_eq. rewrite f257_val.
  replace (- (a mod 257)) with (a mod 257 * -1) by ring.
  replace (- a) with (a * -1) by ring. by apply Z.mul_mod_idemp_l.
Qed.

(** An equation of the field is an equation of integers. *)
Ltac f257_elim x := let z := fresh "z" in rewrite (f257_self x); generalize (proj1_sig x); intros z.
Ltac f257_solve :=
  unfold f257_sub; rewrite ?f257_add_of, ?f257_mul_of, ?f257_opp_of, ?f257_add_of, ?f257_mul_of,
    ?f257_add_of, ?f257_mul_of; f_equal; ring.

Lemma f257_ring :
  ring_theory (f257_of 0) (f257_of 1) f257_add f257_mul f257_sub f257_opp (@eq f257).
Proof.
  split; [intros x|intros x y|intros x y z|intros x|intros x y|intros x y z|intros x y z|intros x y|intros x];
    try f257_elim x; try f257_elim y; try f257_elim z; f257_solve.
Qed.

Lemma f257_inv_l x : x <> f257_of 0 -> f257_mul (f257_inv x) x = f257_of 1.
Proof.
  intros Hx. apply f257_ext. unfold f257_mul, f257_inv. rewrite !f257_val.
  pose proof (f257_range x) as Hr.
  assert (proj1_sig x <> 0) as Hz.
  { intros E. apply Hx, f257_ext. by rewrite f257_val, E. }
  set (z := proj1_sig x) in *. clearbody z.
  assert (forallb (fun n => (pow_mod (Z.of_nat n) 255 mod 257 * Z.of_nat n) mod 257 =? 1) (seq 1 256) = true)
    as Hall by by vm_compute.
  rewrite forallb_forall in Hall. specialize (Hall (Z.to_nat z)).
  rewrite Z2Nat.id in Hall by lia. apply Z.eqb_eq, Hall, List.in_seq. lia.
Qed.

Lemma f257_bytes_spec x : vec_to_list (f257_bytes x) = be_bytes 32 (proj1_sig x).
Proof.
  unfold f257_bytes. destruct (to_arr_length 32 (be_bytes 32 (proj1_sig x))) as [v Hv].
  { apply length_be_bytes. }
  rewrite Hv. simpl. by apply to_arr_Some in Hv.
Qed.

Lemma f257_of_bytes x : f257_of (from_be (f257_bytes x)) = x.
Proof.
  rewrite f257_bytes_spec, from_be_bytes; [symmetry; apply f257_self|].
  pose proof (f257_range x). lia.
Qed.

Lemma f257_from_bytes_spec b x : f257_from_bytes b = Some x <-> b = f257_bytes x.
Proof.
  unfold f257_from_bytes. case_decide as Hd.
  - split; [by intros [= <-]|]. intros ->. by rewrite f257_of_bytes.
  - split; [done|]. intros ->. by rewrite f257_of_bytes in Hd.
Qed.

Definition f257_msm (xs ps : list f257) : f257 :=
  foldr f257_add (f257_of 0) (zip_with f257_mul xs ps).

(** The sum of the bytes of a list, modulo 256: a hash that is cheap to evaluate. *)
Definition checksum (z : Z) (l : list byte) : byte :=
  to_byte (foldl (fun a b => (a + byte_val b) mod 256) z l).

Program Definition curve_model : Curve := {|
  scalar := f257; s0 := f257_of 0; s1 := f257_of 1;
  sadd := f257_add; smul := f257_mul; ssub := f257_sub; sopp := f257_opp; sinv := f257_inv;
  scalar_ring := f257_ring; sinv_l := f257_inv_l;
  s_from_u64 := f257_of; s_bytes := f257_bytes; s_from_canonical_bytes := f257_from_bytes;
  s_from_canonical_spec := f257_from_bytes_spec;
  s_from_bytes_wide b := f257_of (from_be b);
  point := f257; pid := f257_of 0; padd := f257_add; popp := f257_opp; pmul := f257_mul;
  multiscalar_mul := f257_msm; compress := f257_bytes; decompress := f257_from_bytes;
  decompress_spec := f257_from_bytes_spec; G := f257_of 1;
  from_uniform_bytes b := f257_of (3 + from_be b);
  sha3_512 l := vreplicate 64 (checksum 1 l);
|}.
Next Obligation. done. Qed.
Next Obligation. intros. by rewrite <- f257_add_of. Qed.
Next Obligation. exact (Radd_comm f257_ring). Qed.
Next Obligation. exact (Radd_assoc f257_ring). Qed.
Next Obligation. exact (Radd_0_l f257_ring). Qed.
Next Obligation. exact (Ropp_def f257_ring). Qed.
Next Obligation. exact (Rmul_1_l f257_ring). Qed.
Next Obligation. exact (Rdistr_l f257_ring). Qed.
Next Obligation.
  intros. cbv beta. rewrite !(Rmul_comm f257_ring x). exact (Rdistr_l f257_ring _ _ _).
Qed.
Next Obligation. exact (Rmul_assoc f257_ring). Qed.
Next Obligation. done. Qed.
Next Obligation. apply vec_to_list_inj2. by vm_compute. Qed.

Definition merlin_model : Merlin := {|
  transcript := list byte;
  t_new l := l;
  t_append_message l m t := t ++ l ++ m;
  t_append_u64 l z t := t ++ l ++ be_bytes 8 z;
  t_challenge_bytes l t := (vreplicate 64 (checksum 0 t), t ++ l);
|}.

(** Any list of the documented length is a proof, and all of them verify. *)
Definition rp_ok (l : list byte) : Prop := (length l mod 64 = 32 /\ 288 <= length l)%nat.
Definition m_range_proof : Type := dsig rp_ok.
Definition m_rp_from_bytes (b : list byte) : option m_range_proof :=
  match decide (rp_ok b) with left H => Some (dexist b H) | right _ => None end.

Program Definition range_proof_model : @RangeProofLib curve_model merlin_model :=
  @Build_RangeProofLib curve_model merlin_model m_range_proof (fun p => proj1_sig p)
    m_rp_from_bytes
    _ _ (fun _ _ _ _ => Ok ()) (fun _ => Ok ()).
Next Obligation.
  intros b p. cbv beta. unfold m_rp_from_bytes. case_decide as Hd.
  - split; [by intros [= <-]|]. intros ->. f_equal. by apply dsig_eq.
  - split; [done|]. intros ->. by destruct (Hd (proj2_dsig p)).
Qed.
Next Obligation.
  intros p. cbv beta. destruct (proj2_dsig p) as [Hm Hl].
  set (n := length (proj1_sig p)) in *. exists ((n - 288) / 64)%nat.
  pose proof (Nat.div_mod_eq n 64). pose proof (Nat.div_mod_eq (n - 288) 64).
  pose proof (Nat.mod_upper_bound (n - 288) 64 ltac:(done)). lia.
Qed.
