(* ===== verification/Elgamal.v ===== *)
(** [xelis_common::crypto::elgamal]: compressed points, twisted ElGamal
    ciphertexts, keys and signatures, with their serialization. *)

From S2P Require Import Prelude External ExternalCrypto Serializer Hash Defaults.

(** ** compressed.rs *)

Definition RISTRETTO_COMPRESSED_SIZE : nat := 32.
Definition SCALAR_SIZE : nat := 32.

Record CompressedRistretto := mkRistretto { cr_bytes : vec byte 32 }.

Class SerializableCompressedPoint (T : Type) := {
  from_compressed_point : CompressedRistretto -> T;
  as_compressed_point : T -> CompressedRistretto;
  from_as_compressed x : from_compressed_point (as_compressed_point x) = x;
  as_from_compressed p : as_compressed_point (from_compressed_point p) = p;
}.

Record CompressedCommitment := mkCommitment { commitment_point : CompressedRistretto }.
Record CompressedHandle := mkHandle { handle_point : CompressedRistretto }.
Record CompressedPublicKey := mkPublicKey { key_point : CompressedRistretto }.
Record CompressedCiphertext := mkCompressedCiphertext {
  c_commitment : CompressedCommitment;
  c_handle : CompressedHandle;
}.
(** [crypto/mod.rs] *)
Definition PublicKey : Type := CompressedPublicKey.

#[export] Instance CompressedRistretto_eq_dec : EqDecision CompressedRistretto.
Proof. solve_decision. Defined.
#[export] Instance CompressedCommitment_eq_dec : EqDecision CompressedCommitment.
Proof. solve_decision. Defined.
#[export] Instance CompressedHandle_eq_dec : EqDecision CompressedHandle.
Proof. solve_decision. Defined.
#[export] Instance CompressedCiphertext_eq_dec : EqDecision CompressedCiphertext.
Proof. solve_decision. Defined.
#[export] Instance CompressedPublicKey_eq_dec : EqDecision CompressedPublicKey.
Proof. solve_decision. Defined.
#[export] Instance PublicKey_eq_dec : EqDecision PublicKey := CompressedPublicKey_eq_dec.
#[export] Instance PublicKey_countable : Countable PublicKey :=
  inj_countable' (fun k => k.(key_point).(cr_bytes)) (fun b => mkPublicKey (mkRistretto b))
    (fun '(mkPublicKey (mkRistretto b)) => eq_refl).

#[export] Instance Ristretto_scp : SerializableCompressedPoint CompressedRistretto.
Proof. by refine {| from_compressed_point p := p; as_compressed_point p := p |}. Defined.
#[export] Instance Commitment_scp : SerializableCompressedPoint CompressedCommitment.
Proof.
  by refine {| from_compressed_point := mkCommitment; as_compressed_point := commitment_point |};
    [intros [] | intros []].
Defined.
#[export] Instance Handle_scp : SerializableCompressedPoint CompressedHandle.
Proof.
  by refine {| from_compressed_point := mkHandle; as_compressed_point := handle_point |};
    [intros [] | intros []].
Defined.
#[export] Instance PublicKey_scp : SerializableCompressedPoint CompressedPublicKey.
Proof.
  by refine {| from_compressed_point := mkPublicKey; as_compressed_point := key_point |};
    [intros [] | intros []].
Defined.

(** [CompressedRistretto::from_slice] *)
Definition ristretto_from_slice (l : list byte) : option CompressedRistretto :=
  mkRistretto <$> to_arr 32 l.

(** [impl<T: SerializableCompressedPoint> Serializer for T] *)
Section Point.
Context `{SerializableCompressedPoint T}.

#[export] Instance point_Serializer : Serializer T := {|
  write x w := Writer.write_bytes (vec_to_list (as_compressed_point x).(cr_bytes)) w;
  read :=
    point ← Reader.read_bytes_ref RISTRETTO_COMPRESSED_SIZE;
    match ristretto_from_slice point with
    | Some compress => mret (from_compressed_point compress)
    | None => rd_err TryFromSliceError
    end;
  size _ := RISTRETTO_COMPRESSED_SIZE;
|}.

Definition point_enc (x : T) : list byte := vec_to_list (as_compressed_point x).(cr_bytes).

Lemma point_codec : CodecCanon T point_enc read (fun _ => True).
Proof.
  apply mk_codec_canon; intros *.
  - intros _. unfold_read. change (point_enc x) with (id (point_enc x)).
    rewrite (run_bind (dec:=Reader.read_bytes_ref _) (enc:=id)) by apply length_vec_to_list.
    unfold id, point_enc, ristretto_from_slice. rewrite to_arr_vec. simpl.
    unfold mret, rd_ret. by destruct (as_compressed_point x) eqn:E;
      simpl; rewrite <- E, from_as_compressed.
  - safe_read.
  - intros Hr. inv_read Hr. unfold ristretto_from_slice in Hr.
    destruct (to_arr 32 x0) as [v|] eqn:Hv; [|done]. apply to_arr_Some in Hv. simpl in Hr.
    injection Hr as <- <-. split; [done|]. exists post0. unfold point_enc.
    rewrite as_from_compressed. simpl. by rewrite <- Hv.
Qed.

#[export] Instance point_SerOk : SerOk T :=
  mk_SerOk point_enc (fun _ => True) (fun _ _ => eq_refl) (codec_of point_codec).
#[export] Instance point_SerCanon : SerCanon T.
Proof. by eapply (mk_SerCanon point_enc (fun _ => True)), point_codec. Qed.
#[export] Instance point_SerSize : SerSize T.
Proof. constructor. intros x _. symmetry. apply length_vec_to_list. Qed.
Lemma point_bytes (x : T) : to_bytes x = point_enc x.
Proof. done. Qed.
End Point.

#[export] Instance CompressedCiphertext_Serializer : Serializer CompressedCiphertext := {|
  write x w :=
    let w := Writer.write_bytes (vec_to_list x.(c_commitment).(commitment_point).(cr_bytes)) w in
    Writer.write_bytes (vec_to_list x.(c_handle).(handle_point).(cr_bytes)) w;
  read :=
    commitment ← read (A:=CompressedCommitment);
    handle ← read (A:=CompressedHandle);
    mret (mkCompressedCiphertext commitment handle);
  size x := (size x.(c_commitment) + size x.(c_handle))%nat;
|}.

Definition compressed_ct_enc (x : CompressedCiphertext) : list byte :=
  to_bytes x.(c_commitment) ++ to_bytes x.(c_handle).

Lemma compressed_ct_append x w :
  write x w = Writer.write_bytes (compressed_ct_enc x) w.
Proof. cbn [write CompressedCiphertext_Serializer]. by autorewrite with ser. Qed.

Lemma compressed_ct_codec :
  CodecCanon CompressedCiphertext compressed_ct_enc read (fun _ => True).
Proof.
  apply mk_codec_canon; intros *.
  - intros _. unfold compressed_ct_enc. run_read. by destruct x.
  - safe_read.
  - intros Hr. inv_read Hr. subst. split; [done|]. unfold compressed_ct_enc. simpl.
    eexists. rewrite <- !(assoc_L (++)). eauto.
Qed.
#[export] Instance CompressedCiphertext_SerOk : SerOk CompressedCiphertext :=
  mk_SerOk compressed_ct_enc (fun _ => True) compressed_ct_append (codec_of compressed_ct_codec).
#[export] Instance CompressedCiphertext_SerCanon : SerCanon CompressedCiphertext.
Proof.
  by eapply (mk_SerCanon compressed_ct_enc (fun _ => True));
    [apply compressed_ct_append| |apply compressed_ct_codec].
Qed.
#[export] Instance CompressedCiphertext_SerSize : SerSize CompressedCiphertext.
Proof.
  constructor. intros x _. rewrite (to_bytes_enc compressed_ct_enc) by apply compressed_ct_append.
  unfold compressed_ct_enc. rewrite length_app, <- !ser_size by done. done.
Qed.

(** ** Scalars and signatures *)

Section Curve.
Context {CV : Curve}.

(** The ring of scalars, for the tactic [ring]. *)
Add Ring ScalarRing : scalar_ring.

#[export] Instance Scalar_Serializer : Serializer scalar := {|
  write x w := Writer.write_bytes (vec_to_list (s_bytes x)) w;
  read :=
    bytes ← Reader.read_array SCALAR_SIZE;
    match s_from_canonical_bytes bytes with
    | Some scalar => mret scalar
    | None => rd_err InvalidValue
    end;
  size _ := SCALAR_SIZE;
|}.

Definition scalar_enc (x : scalar) : list byte := vec_to_list (s_bytes x).

Lemma scalar_codec : CodecCanon scalar scalar_enc read (fun _ => True).
Proof.
  apply mk_codec_canon; intros *.
  - intros _. unfold_read. change (scalar_enc x) with (arr_bytes (s_bytes x)). rd_step; [|done].
    assert (s_from_canonical_bytes (s_bytes x) = Some x) as -> by by apply s_from_canonical_spec.
    done.
  - safe_read.
  - intros Hr. inv_read Hr.
    destruct (s_from_canonical_bytes x0) as [y|] eqn:Hy; [|done].
    apply s_from_canonical_spec in Hy as ->. injection Hr as <- <-. split; [done|].
    by eexists.
Qed.
#[export] Instance Scalar_SerOk : SerOk scalar :=
  mk_SerOk scalar_enc (fun _ => True) (fun _ _ => eq_refl) (codec_of scalar_codec).
#[export] Instance Scalar_SerCanon : SerCanon scalar.
Proof. by eapply (mk_SerCanon scalar_enc (fun _ => True)), scalar_codec. Qed.
#[export] Instance Scalar_SerSize : SerSize scalar.
Proof. constructor. intros x _. symmetry. apply length_vec_to_list. Qed.

Record Signature := mkSignature { sig_s : scalar; sig_e : scalar }.
Definition SIGNATURE_SIZE : nat := SCALAR_SIZE * 2.

#[export] Instance Signature_Serializer : Serializer Signature := {|
  write x w := write x.(sig_e) (write x.(sig_s) w);
  read := s ← read (A:=scalar); e ← read (A:=scalar); mret (mkSignature s e);
  size _ := SIGNATURE_SIZE;
|}.

Definition signature_enc (x : Signature) : list byte := to_bytes x.(sig_s) ++ to_bytes x.(sig_e).
Lemma signature_append x w : write x w = Writer.write_bytes (signature_enc x) w.
Proof. cbn [write Signature_Serializer]. by autorewrite with ser. Qed.
Lemma signature_codec : CodecCanon Signature signature_enc read (fun _ => True).
Proof.
  apply mk_codec_canon; intros *.
  - intros _. unfold signature_enc. run_read. by destruct x.
  - safe_read.
  - intros Hr. inv_read Hr. subst. split; [done|]. unfold signature_enc. simpl.
    eexists. rewrite <- !(assoc_L (++)). eauto.
Qed.
#[export] Instance Signature_SerOk : SerOk Signature :=
  mk_SerOk signature_enc (fun _ => True) signature_append (codec_of signature_codec).
#[export] Instance Signature_SerCanon : SerCanon Signature.
Proof.
  by eapply (mk_SerCanon signature_enc (fun _ => True)); [apply signature_append| |apply signature_codec].
Qed.
Lemma length_scalar_bytes (x : scalar) : length (to_bytes x) = SCALAR_SIZE.
Proof. apply length_vec_to_list. Qed.
#[export] Instance Signature_SerSize : SerSize Signature.
Proof.
  constructor. intros x _. rewrite (to_bytes_enc signature_enc) by apply signature_append.
  unfold signature_enc. by rewrite length_app, !length_scalar_bytes.
Qed.

(** ** elgamal/mod.rs *)

(** [H] is derived from the encoding of the base point [G]. *)
Definition H : point := from_uniform_bytes (sha3_512 (vec_to_list (compress G))).

(** ** pedersen.rs *)

Record PedersenOpening := mkOpening { opening_scalar : scalar }.
Record PedersenCommitment := mkPedersen { commitment_pt : point }.
Record DecryptHandle := mkDecryptHandle { handle_pt : point }.

#[export] Instance PedersenCommitment_eq_dec : EqDecision PedersenCommitment.
Proof. solve_decision. Defined.
#[export] Instance DecryptHandle_eq_dec : EqDecision DecryptHandle.
Proof. solve_decision. Defined.

Definition pedersen_with_opening (amount : scalar) (opening : PedersenOpening) : PedersenCommitment :=
  mkPedersen (multiscalar_mul [amount; opening.(opening_scalar)] [G; H]).
Definition pedersen_compress (c : PedersenCommitment) : CompressedCommitment :=
  mkCommitment (mkRistretto (compress c.(commitment_pt))).
Definition handle_compress (h : DecryptHandle) : CompressedHandle :=
  mkHandle (mkRistretto (compress h.(handle_pt))).

Definition pc_add (a b : PedersenCommitment) := mkPedersen (padd a.(commitment_pt) b.(commitment_pt)).
Definition pc_sub (a b : PedersenCommitment) := mkPedersen (psub a.(commitment_pt) b.(commitment_pt)).
Definition pc_add_scalar (a : PedersenCommitment) (x : scalar) :=
  mkPedersen (padd a.(commitment_pt) (pmul x G)).
Definition pc_sub_scalar (a : PedersenCommitment) (x : scalar) :=
  mkPedersen (psub a.(commitment_pt) (pmul x G)).
Definition dh_add (a b : DecryptHandle) := mkDecryptHandle (padd a.(handle_pt) b.(handle_pt)).
Definition dh_sub (a b : DecryptHandle) := mkDecryptHandle (psub a.(handle_pt) b.(handle_pt)).

(** ** ciphertext.rs *)

Record Ciphertext := mkCiphertext { ct_commitment : PedersenCommitment; ct_handle : DecryptHandle }.

#[export] Instance Ciphertext_eq_dec : EqDecision Ciphertext.
Proof. solve_decision. Defined.

Definition ct_zero : Ciphertext := mkCiphertext (mkPedersen pid) (mkDecryptHandle pid).
Definition ct_compress (c : Ciphertext) : CompressedCiphertext :=
  mkCompressedCiphertext (pedersen_compress c.(ct_commitment)) (handle_compress c.(ct_handle)).
Definition ct_add (a b : Ciphertext) : Ciphertext :=
  mkCiphertext (pc_add a.(ct_commitment) b.(ct_commitment)) (dh_add a.(ct_handle) b.(ct_handle)).
Definition ct_sub (a b : Ciphertext) : Ciphertext :=
  mkCiphertext (pc_sub a.(ct_commitment) b.(ct_commitment)) (dh_sub a.(ct_handle) b.(ct_handle)).
Definition ct_add_scalar (a : Ciphertext) (x : scalar) : Ciphertext :=
  mkCiphertext (pc_add_scalar a.(ct_commitment) x) a.(ct_handle).
Definition ct_sub_scalar (a : Ciphertext) (x : scalar) : Ciphertext :=
  mkCiphertext (pc_sub_scalar a.(ct_commitment) x) a.(ct_handle).
Definition ct_add_u64 (a : Ciphertext) (x : Z) : Ciphertext := ct_add_scalar a (s_from_u64 x).
Definition ct_sub_u64 (a : Ciphertext) (x : Z) : Ciphertext := ct_sub_scalar a (s_from_u64 x).

(** Decompression of the compressed types *)
Inductive DecompressionError := DecompressionFailed.

Definition commitment_decompress (c : CompressedCommitment) : res DecompressionError PedersenCommitment :=
  ok_or (mkPedersen <$> decompress c.(commitment_point).(cr_bytes)) DecompressionFailed.
Definition handle_decompress (h : CompressedHandle) : res DecompressionError DecryptHandle :=
  ok_or (mkDecryptHandle <$> decompress h.(handle_point).(cr_bytes)) DecompressionFailed.
Definition ct_decompress (c : CompressedCiphertext) : res DecompressionError Ciphertext :=
  commitment ← commitment_decompress c.(c_commitment);
  handle ← handle_decompress c.(c_handle);
  Ok (mkCiphertext commitment handle).
End Curve.

(** ** key.rs *)
Module Key.
Section Key.
Context {CV : Curve}.

Record PublicKey := mkPublicKey { pk_point : point }.
Record PrivateKey := mkPrivateKey { sk_scalar : scalar }.
Record KeyPair := mkKeyPair { public_key : PublicKey; private_key : PrivateKey }.

Definition decompress (k : CompressedPublicKey) : res DecompressionError PublicKey :=
  ok_or (mkPublicKey <$> decompress k.(key_point).(cr_bytes)) DecompressionFailed.
Definition compress (k : PublicKey) : CompressedPublicKey :=
  Elgamal.mkPublicKey (mkRistretto (compress k.(pk_point))).

(** [assert!] panics on the zero scalar. *)
Definition public_new {E} (secret : PrivateKey) : res E PublicKey :=
  let s := secret.(sk_scalar) in
  if decide (s = s0) then Panic else Ok (mkPublicKey (pmul (sinv s) H)).
Definition from_scalar {E} (scalar : scalar) : res E PrivateKey :=
  if decide (scalar = s0) then Panic else Ok (mkPrivateKey scalar).

Definition decrypt_handle (k : PublicKey) (opening : PedersenOpening) : DecryptHandle :=
  mkDecryptHandle (pmul opening.(opening_scalar) k.(pk_point)).
Definition encrypt_with_opening (k : PublicKey) (amount : scalar) (opening : PedersenOpening) : Ciphertext :=
  let commitment := pedersen_with_opening amount opening in
  let handle := decrypt_handle k opening in
  mkCiphertext commitment handle.
Definition decrypt_to_point (k : PrivateKey) (ciphertext : Ciphertext) : point :=
  let commitment := ciphertext.(ct_commitment).(commitment_pt) in
  let handle := ciphertext.(ct_handle).(handle_pt) in
  psub commitment (pmul k.(sk_scalar) handle).

Definition from_private_key {E} (private_key : PrivateKey) : res E KeyPair :=
  public_key ← public_new private_key;
  Ok (mkKeyPair public_key private_key).

(** [signature.rs] *)
Definition hash_and_point_to_scalar (key : CompressedPublicKey) (message : list byte) (p : point) : scalar :=
  s_from_bytes_wide (sha3_512
    (vec_to_list key.(key_point).(cr_bytes) ++ message ++ vec_to_list (ExternalCrypto.compress p))).

(** [k] is the scalar drawn from [OsRng]. *)
Definition sign (pair : KeyPair) (k : scalar) (message : list byte) : Signature :=
  let r := pmul k H in
  let e := hash_and_point_to_scalar (compress pair.(public_key)) message r in
  let s := sadd (smul (sinv pair.(private_key).(sk_scalar)) e) k in
  mkSignature s e.

Definition verify (sig : Signature) (message : list byte) (key : PublicKey) : bool :=
  let r := padd (pmul sig.(sig_s) H) (pmul (sopp sig.(sig_e)) key.(pk_point)) in
  let calculated := hash_and_point_to_scalar (compress key) message r in
  bool_decide (sig.(sig_e) = calculated).

(** [PrivateKey]'s reader hands a zero scalar to the assertion of [from_scalar]. *)
Definition private_read : rd PrivateKey := fun r =>
  '(scalar, r) ← read (A:=scalar) r;
  k ← from_scalar scalar;
  Ok (k, r).
Definition private_write (k : PrivateKey) (w : Writer) : Writer := write k.(sk_scalar) w.
End Key.
End Key.

(** ** Facts *)

Section Facts.
Context {CV : Curve}.
Add Ring ScalarRing' : scalar_ring.

Lemma msm2 a b p q : multiscalar_mul [a; b] [p; q] = padd (pmul a p) (pmul b q).
Proof. rewrite multiscalar_mul_spec by done. simpl. by rewrite padd_id_r. Qed.

Lemma ct_eq (a b : Ciphertext) :
  a.(ct_commitment).(commitment_pt) = b.(ct_commitment).(commitment_pt) ->
  a.(ct_handle).(handle_pt) = b.(ct_handle).(handle_pt) -> a = b.
Proof. destruct a as [[] []], b as [[] []]; simpl. by intros -> ->. Qed.

Lemma ct_add_comm a b : ct_add a b = ct_add b a.
Proof. apply ct_eq; apply padd_comm. Qed.
Lemma ct_add_assoc a b c : ct_add a (ct_add b c) = ct_add (ct_add a b) c.
Proof. apply ct_eq; apply padd_assoc. Qed.
Lemma ct_add_zero a : ct_add ct_zero a = a.
Proof. apply ct_eq; apply padd_id_l. Qed.
Lemma ct_sub_add a b : ct_add (ct_sub a b) b = a.
Proof.
  apply ct_eq; unfold ct_sub, ct_add, pc_sub, pc_add, dh_sub, dh_add, psub; simpl;
    by rewrite <- padd_assoc, (padd_comm (popp _)), padd_opp_r, padd_id_r.
Qed.

Lemma ct_decompress_compress c : ct_decompress (ct_compress c) = Ok c.
Proof.
  unfold ct_decompress, commitment_decompress, handle_decompress; simpl.
  rewrite !decompress_compress. simpl. by destruct c as [[] []].
Qed.

Lemma key_inverse_pair {E} (sk : Key.PrivateKey) :
  sk.(Key.sk_scalar) <> s0 ->
  Key.from_private_key (E:=E) sk =
    Ok (Key.mkKeyPair (Key.mkPublicKey (pmul (sinv sk.(Key.sk_scalar)) H)) sk).
Proof.
  intros Hs. unfold Key.from_private_key, Key.public_new. by rewrite decide_False.
Qed.

(** Decryption as a homomorphism to points. *)
Lemma decrypt_add sk a b :
  Key.decrypt_to_point sk (ct_add a b) =
    padd (Key.decrypt_to_point sk a) (Key.decrypt_to_point sk b).
Proof.
  unfold Key.decrypt_to_point, psub; simpl.
  by rewrite pmul_add_r, popp_add, padd_shuffle.
Qed.
Lemma decrypt_sub sk a b :
  Key.decrypt_to_point sk (ct_sub a b) =
    psub (Key.decrypt_to_point sk a) (Key.decrypt_to_point sk b).
Proof.
  unfold Key.decrypt_to_point, ct_sub, pc_sub, dh_sub, psub; simpl.
  by rewrite pmul_add_r, pmul_opp_r, !popp_add, padd_shuffle.
Qed.
Lemma decrypt_add_scalar sk a x :
  Key.decrypt_to_point sk (ct_add_scalar a x) = padd (Key.decrypt_to_point sk a) (pmul x G).
Proof.
  unfold Key.decrypt_to_point, psub; simpl.
  by rewrite <- !padd_assoc, (padd_comm (pmul x G)).
Qed.
Lemma decrypt_zero sk : Key.decrypt_to_point sk ct_zero = pid.
Proof.
  unfold Key.decrypt_to_point, psub; simpl. by rewrite pmul_id, popp_id, padd_id_l.
Qed.

Lemma decrypt_encrypt (s x : scalar) (o : PedersenOpening) :
  s <> s0 ->
  Key.decrypt_to_point (Key.mkPrivateKey s)
    (Key.encrypt_with_opening (Key.mkPublicKey (pmul (sinv s) H)) x o) = pmul x G.
Proof.
  intros Hs. unfold Key.decrypt_to_point, Key.encrypt_with_opening, psub,
    pedersen_with_opening; simpl. rewrite msm2, !pmul_mul.
  replace (smul (smul s (opening_scalar o)) (sinv s)) with (opening_scalar o).
  - by rewrite <- padd_assoc, padd_opp_r, padd_id_r.
  - transitivity (smul (opening_scalar o) (smul (sinv s) s)); [rewrite sinv_l by done; ring|ring].
Qed.

(** ** Properties *)

(** A message signed by a key pair built from any non-zero private key,
    with any nonce [k], is accepted by [verify] under its public key. *)
Theorem sign_verify {E} (s k : scalar) (message : list byte) (Hs : s <> s0) :
  exists sk pair,
    Key.from_scalar (E:=E) s = Ok sk /\ Key.from_private_key (E:=E) sk = Ok pair /\
    Key.verify (Key.sign pair k message) message pair.(Key.public_key) = true.
Proof.
  exists (Key.mkPrivateKey s), (Key.mkKeyPair (Key.mkPublicKey (pmul (sinv s) H)) (Key.mkPrivateKey s)).
  split; [unfold Key.from_scalar; by rewrite decide_False|].
  split; [by apply key_inverse_pair|].
  unfold Key.verify, Key.sign; cbn -[Key.hash_and_point_to_scalar].
  apply bool_decide_true. f_equal.
  set (e := Key.hash_and_point_to_scalar _ _ _).
  rewrite pmul_mul, <- pmul_add_l. f_equal. ring.
Qed.

(** Decryption with a private key inverts encryption for its public key
    whatever the opening, and turns the additions and subtractions of
    ciphertexts and of plain amounts into those of the amounts. *)
Theorem decrypt_homomorphic (s x y : scalar) (o1 o2 : PedersenOpening) (Hs : s <> s0) :
  let sk := Key.mkPrivateKey s in
  let pk := Key.mkPublicKey (pmul (sinv s) H) in
  let c1 := Key.encrypt_with_opening pk x o1 in
  let c2 := Key.encrypt_with_opening pk y o2 in
  Key.public_new (E:=unit) sk = Ok pk /\
  Key.decrypt_to_point sk c1 = pmul x G /\
  Key.decrypt_to_point sk (ct_add c1 c2) = pmul (sadd x y) G /\
  Key.decrypt_to_point sk (ct_sub c1 c2) = pmul (ssub x y) G /\
  Key.decrypt_to_point sk (ct_add_scalar c1 y) = pmul (sadd x y) G /\
  Key.decrypt_to_point sk ct_zero = pid.
Proof.
  cbn zeta. rewrite decrypt_add, decrypt_sub, decrypt_add_scalar, !decrypt_encrypt, decrypt_zero by done.
  unfold Key.public_new. rewrite decide_False by done.
  unfold psub. rewrite <- pmul_opp_l, <- !pmul_add_l.
  replace (sadd x (sopp y)) with (ssub x y) by ring. done.
Qed.

(** The reader of private keys panics on the encoding of the zero scalar
    instead of returning an error: the decoded scalar goes to the assertion of
    [PrivateKey::from_scalar]. *)
Theorem private_read_zero_panics (rest : list byte) :
  Key.private_read (Reader.new (vec_to_list (s_bytes s0) ++ rest)) = Panic.
Proof.
  unfold Key.private_read. rewrite reader_new_at.
  change (vec_to_list (s_bytes s0)) with (scalar_enc s0).
  rewrite (codec_rt (Codec:=codec_of scalar_codec)) by done. simpl.
  unfold Key.from_scalar. by rewrite decide_True.
Qed.
End Facts.

Lemma sign_verify_witness :
  exists sk pair,
    @Key.from_scalar curve_model unit (f257_of 5) = Ok sk /\
    @Key.from_private_key curve_model unit sk = Ok pair /\
    @Key.verify curve_model (@Key.sign curve_model pair (f257_of 11) [x01; x02]) [x01; x02]
      pair.(Key.public_key) = true.
Proof. apply (@sign_verify curve_model unit (f257_of 5) (f257_of 11) [x01; x02]). by vm_compute. Defined.

Definition fs (z : Z) : @scalar curve_model := f257_of z.

Lemma decrypt_homomorphic_witness :
  let sk := Key.mkPrivateKey (fs 5) in
  let pk := Key.mkPublicKey (pmul (sinv (fs 5)) H) in
  let c1 := Key.encrypt_with_opening pk (fs 10) (mkOpening (fs 3)) in
  let c2 := Key.encrypt_with_opening pk (fs 20) (mkOpening (fs 4)) in
  Key.public_new (E:=unit) sk = Ok pk /\
  Key.decrypt_to_point sk c1 = pmul (fs 10) G /\
  Key.decrypt_to_point sk (ct_add c1 c2) = pmul (sadd (fs 10) (fs 20)) G /\
  Key.decrypt_to_point sk (ct_sub c1 c2) = pmul (ssub (fs 10) (fs 20)) G /\
  Key.decrypt_to_point sk (ct_add_scalar c1 (fs 20)) = pmul (sadd (fs 10) (fs 20)) G /\
  Key.decrypt_to_point sk ct_zero = pid.
Proof. apply (decrypt_homomorphic (fs 5) (fs 10) (fs 20)). by vm_compute. Defined.
