(* ===== verification/Proofs.v ===== *)
(** [xelis_common::crypto::transcript] and [xelis_common::crypto::proofs]: the
    Fiat-Shamir transcript, the two sigma proofs of a transfer, and the batch
    collector that checks their equations with one multiscalar product.

    The scalars the sources draw from [OsRng] are arguments. *)

From S2P Require Import Prelude External ExternalCrypto Serializer Hash Defaults Elgamal.

Definition MAX_TRANSFER_COUNT : nat := 255.
Definition BULLET_PROOF_SIZE : nat := 64.

(** A byte-string literal. *)
Definition lit (s : string) : list byte := String.list_byte_of_string s.
Arguments lit s%_string.

(** ** transcript.rs *)
Inductive TranscriptError := IdentityPoint.

Module Transcript.
Section Transcript.
Context {CV : Curve} {ML : Merlin}.

Definition append_scalar (label : list byte) (x : scalar) (t : transcript) : transcript :=
  t_append_message label (vec_to_list (s_bytes x)) t.
Definition append_point (label : list byte) (p : CompressedRistretto) (t : transcript) : transcript :=
  t_append_message label (vec_to_list p.(cr_bytes)) t.
Definition append_public_key (label : list byte) (k : CompressedPublicKey) (t : transcript) : transcript :=
  t_append_message label (vec_to_list k.(key_point).(cr_bytes)) t.
Definition append_ciphertext (label : list byte) (c : CompressedCiphertext) (t : transcript) : transcript :=
  t_append_message label (compressed_ct_enc c) t.
Definition append_commitment (label : list byte) (c : CompressedCommitment) (t : transcript) : transcript :=
  t_append_message label (vec_to_list c.(commitment_point).(cr_bytes)) t.
Definition append_handle (label : list byte) (h : CompressedHandle) (t : transcript) : transcript :=
  t_append_message label (vec_to_list h.(handle_point).(cr_bytes)) t.
Definition append_hash (label : list byte) (h : Hash) (t : transcript) : transcript :=
  t_append_message label (vec_to_list h.(hash_arr)) t.

Definition challenge_scalar (label : list byte) (t : transcript) : scalar * transcript :=
  let '(buf, t) := t_challenge_bytes label t in
  (s_from_bytes_wide buf, t).

(** [CompressedRistretto::is_identity] compares with the encoding of the identity. *)
Definition is_identity (p : CompressedRistretto) : bool :=
  bool_decide (p.(cr_bytes) = vreplicate 32 x00).

Definition validate_and_append_point (label : list byte) (p : CompressedRistretto) (t : transcript)
  : res TranscriptError transcript :=
  if is_identity p then Err IdentityPoint else Ok (append_point label p t).

Definition new_commitment_eq_proof_domain_separator (t : transcript) : transcript :=
  t_append_message (lit "dom-sep") (lit "new-commitment-proof") t.
Definition transfer_proof_domain_separator (t : transcript) : transcript :=
  t_append_message (lit "dom-sep") (lit "transfer-proof") t.
Definition equality_proof_domain_separator (t : transcript) : transcript :=
  t_append_message (lit "dom-sep") (lit "equality-proof") t.
Definition ciphertext_validity_proof_domain_separator (t : transcript) : transcript :=
  t_append_message (lit "dom-sep") (lit "validity-proof") t.
End Transcript.
End Transcript.

(** ** proofs.rs *)

Inductive ProofVerificationError :=
  | Decompression (e : DecompressionError)
  | CommitmentEqProofError
  | CiphertextValidityProofError
  | GenericProof
  | RangeProofError (e : ProofError)
  | TranscriptErr (e : TranscriptError)
  | Format.

Section Proofs.
Context {CV : Curve} {ML : Merlin}.

Record BatchCollector := mkCollector {
  dynamic_scalars : list scalar;
  dynamic_points : list point;
  g_scalar : scalar;
  h_scalar : scalar;
}.
Definition collector_default : BatchCollector := mkCollector [] [] s0 s0.

Inductive MultiscalarMulVerificationError := NonIdentity.

Definition collector_verify (c : BatchCollector) : res MultiscalarMulVerificationError () :=
  let mega_check := multiscalar_mul
    (c.(dynamic_scalars) ++ [c.(g_scalar)] ++ [c.(h_scalar)])
    (c.(dynamic_points) ++ [G] ++ [H]) in
  if decide (mega_check = pid) then Ok () else Err NonIdentity.

Definition collector_push (scalars : list scalar) (points : list point) (g h : scalar)
    (c : BatchCollector) : BatchCollector :=
  mkCollector (c.(dynamic_scalars) ++ scalars) (c.(dynamic_points) ++ points)
    (sadd c.(g_scalar) g) (sadd c.(h_scalar) h).

Definition validate (label : list byte) (p : CompressedRistretto) (t : transcript)
  : res ProofVerificationError transcript :=
  map_err TranscriptErr (Transcript.validate_and_append_point label p t).

Definition decompress_or (e : ProofVerificationError) (p : CompressedRistretto)
  : res ProofVerificationError point :=
  ok_or (decompress p.(cr_bytes)) e.

(** *** CommitmentEqProof *)
Record CommitmentEqProof := mkEqProof {
  eq_Y_0 : CompressedRistretto;
  eq_Y_1 : CompressedRistretto;
  eq_Y_2 : CompressedRistretto;
  eq_z_s : scalar;
  eq_z_x : scalar;
  eq_z_r : scalar;
}.

Definition eq_proof_new (source_keypair : Key.KeyPair) (source_ciphertext : Ciphertext)
    (opening : PedersenOpening) (amount : Z) (y_s y_x y_r : scalar) (t : transcript)
  : CommitmentEqProof * transcript :=
  let t := Transcript.equality_proof_domain_separator t in
  let P_source := source_keypair.(Key.public_key).(Key.pk_point) in
  let D_source := source_ciphertext.(ct_handle).(handle_pt) in
  let s := source_keypair.(Key.private_key).(Key.sk_scalar) in
  let x := s_from_u64 amount in
  let r := opening.(opening_scalar) in
  let Y_0 := mkRistretto (compress (pmul y_s P_source)) in
  let Y_1 := mkRistretto (compress (multiscalar_mul [y_x; y_s] [G; D_source])) in
  let Y_2 := mkRistretto (compress (multiscalar_mul [y_x; y_r] [G; H])) in
  let t := Transcript.append_point (lit "Y_0") Y_0 t in
  let t := Transcript.append_point (lit "Y_1") Y_1 t in
  let t := Transcript.append_point (lit "Y_2") Y_2 t in
  let '(c, t) := Transcript.challenge_scalar (lit "c") t in
  let '(_, t) := Transcript.challenge_scalar (lit "w") t in
  let z_s := sadd (smul c s) y_s in
  let z_x := sadd (smul c x) y_x in
  let z_r := sadd (smul c r) y_r in
  (mkEqProof Y_0 Y_1 Y_2 z_s z_x z_r, t).

Definition eq_proof_pre_verify (p : CommitmentEqProof) (source_pubkey : Key.PublicKey)
    (source_ciphertext : Ciphertext) (destination_commitment : PedersenCommitment)
    (batch_factor : scalar) (t : transcript) (batch : BatchCollector)
  : res ProofVerificationError (transcript * BatchCollector) :=
  let t := Transcript.equality_proof_domain_separator t in
  let P_source := source_pubkey.(Key.pk_point) in
  let C_source := source_ciphertext.(ct_commitment).(commitment_pt) in
  let D_source := source_ciphertext.(ct_handle).(handle_pt) in
  let C_destination := destination_commitment.(commitment_pt) in
  t ← validate (lit "Y_0") p.(eq_Y_0) t;
  t ← validate (lit "Y_1") p.(eq_Y_1) t;
  t ← validate (lit "Y_2") p.(eq_Y_2) t;
  let '(c, t) := Transcript.challenge_scalar (lit "c") t in
  let '(w, t) := Transcript.challenge_scalar (lit "w") t in
  let ww := smul w w in
  let w_negated := sopp w in
  let ww_negated := sopp ww in
  Y_0 ← decompress_or CommitmentEqProofError p.(eq_Y_0);
  Y_1 ← decompress_or CommitmentEqProofError p.(eq_Y_1);
  Y_2 ← decompress_or CommitmentEqProofError p.(eq_Y_2);
  let g := smul (sadd (smul w p.(eq_z_x)) (smul ww p.(eq_z_x))) batch_factor in
  let h := smul (sadd (sopp c) (smul ww p.(eq_z_r))) batch_factor in
  let scalars := (fun s => smul s batch_factor) <$>
    [ p.(eq_z_s); sopp s1; smul w p.(eq_z_s); smul w_negated c; w_negated;
      smul ww_negated c; ww_negated ] in
  let points := [P_source; Y_0; D_source; C_source; Y_1; C_destination; Y_2] in
  Ok (t, collector_push scalars points g h batch).

(** *** CiphertextValidityProof *)
Record CiphertextValidityProof := mkValidityProof {
  va_Y_0 : CompressedRistretto;
  va_Y_1 : CompressedRistretto;
  va_z_r : scalar;
  va_z_x : scalar;
}.

Definition validity_proof_new (destination_pubkey : Key.PublicKey) (amount : Z)
    (opening : PedersenOpening) (y_r y_x : scalar) (t : transcript)
  : CiphertextValidityProof * transcript :=
  let t := Transcript.ciphertext_validity_proof_domain_separator t in
  let P_dest := destination_pubkey.(Key.pk_point) in
  let x := s_from_u64 amount in
  let r := opening.(opening_scalar) in
  let Y_0 := mkRistretto (compress (multiscalar_mul [y_r; y_x] [H; G])) in
  let Y_1 := mkRistretto (compress (pmul y_r P_dest)) in
  let t := Transcript.append_point (lit "Y_0") Y_0 t in
  let t := Transcript.append_point (lit "Y_1") Y_1 t in
  let '(c, t) := Transcript.challenge_scalar (lit "c") t in
  let '(_, t) := Transcript.challenge_scalar (lit "w") t in
  let z_r := sadd (smul c r) y_r in
  let z_x := sadd (smul c x) y_x in
  (mkValidityProof Y_0 Y_1 z_r z_x, t).

Definition validity_proof_pre_verify (p : CiphertextValidityProof) (commitment : PedersenCommitment)
    (dest_pubkey : Key.PublicKey) (dest_handle : DecryptHandle)
    (batch_factor : scalar) (t : transcript) (batch : BatchCollector)
  : res ProofVerificationError (transcript * BatchCollector) :=
  let t := Transcript.ciphertext_validity_proof_domain_separator t in
  t ← validate (lit "Y_0") p.(va_Y_0) t;
  t ← validate (lit "Y_1") p.(va_Y_1) t;
  let '(c, t) := Transcript.challenge_scalar (lit "c") t in
  let '(w, t) := Transcript.challenge_scalar (lit "w") t in
  let w_negated := sopp w in
  Y_0 ← decompress_or CiphertextValidityProofError p.(va_Y_0);
  Y_1 ← decompress_or CiphertextValidityProofError p.(va_Y_1);
  let P_dest := dest_pubkey.(Key.pk_point) in
  let C := commitment.(commitment_pt) in
  let D_dest := dest_handle.(handle_pt) in
  let g := smul p.(va_z_x) batch_factor in
  let h := smul p.(va_z_r) batch_factor in
  let scalars := (fun s => smul s batch_factor) <$>
    [ sopp c; sopp s1; smul w p.(va_z_r); smul w_negated c; w_negated ] in
  let points := [C; Y_0; P_dest; D_dest; Y_1] in
  Ok (t, collector_push scalars points g h batch).
End Proofs.

(** ** What the collector accumulates *)

Section Facts.
Context {CV : Curve} {ML : Merlin}.
Add Ring IdealRing : ideal_ring.

Definition lin (xs : list scalar) (ps : list point) : point :=
  foldr padd pid (zip_with pmul xs ps).
Definition collector_wf (c : BatchCollector) : Prop :=
  length c.(dynamic_scalars) = length c.(dynamic_points).
Definition batch_val (c : BatchCollector) : point :=
  padd (lin c.(dynamic_scalars) c.(dynamic_points))
    (padd (pmul c.(g_scalar) G) (pmul c.(h_scalar) H)).

Lemma lin_app xs ps ys qs :
  length xs = length ps -> lin (xs ++ ys) (ps ++ qs) = padd (lin xs ps) (lin ys qs).
Proof.
  revert ps. induction xs as [|x xs IH]; intros [|p ps] Hl; simplify_eq/=.
  - unfold lin at 2. simpl. by rewrite padd_id_l.
  - unfold lin in *. simpl. rewrite IH by done. apply padd_assoc.
Qed.

Lemma collector_verify_spec c :
  collector_wf c ->
  collector_verify c = if decide (batch_val c = pid) then Ok () else Err NonIdentity.
Proof.
  intros Hwf. unfold collector_verify.
  assert (multiscalar_mul (dynamic_scalars c ++ [g_scalar c] ++ [h_scalar c])
    (dynamic_points c ++ [G] ++ [H]) = batch_val c) as ->.
  { rewrite multiscalar_mul_spec by (rewrite !length_app; simpl; rewrite Hwf; done).
    change (foldr padd pid (zip_with pmul ?a ?b)) with (lin a b).
    rewrite lin_app by done. unfold batch_val. f_equal. unfold lin; simpl. by rewrite padd_id_r. }
  done.
Qed.

Lemma collector_push_wf xs ps g h c :
  length xs = length ps -> collector_wf c -> collector_wf (collector_push xs ps g h c).
Proof. unfold collector_wf; simpl. rewrite !length_app. congruence. Qed.

Lemma collector_push_val xs ps g h c :
  collector_wf c ->
  batch_val (collector_push xs ps g h c) =
    padd (batch_val c) (padd (lin xs ps) (padd (pmul g G) (pmul h H))).
Proof.
  intros Hwf. unfold batch_val; simpl. rewrite lin_app by done. point_ring.
Qed.

Lemma collector_default_val : batch_val collector_default = pid.
Proof. unfold batch_val, lin; simpl. point_ring. Qed.

(** The equations the two proofs stand for, as points that must vanish. *)
Definition eq_eqn0 (c zs : scalar) (P Y0 : point) := psub (pmul zs P) (padd (pmul c H) Y0).
Definition eq_eqn1 (c zs zx : scalar) (C D Y1 : point) :=
  psub (padd (pmul zx G) (pmul zs D)) (padd (pmul c C) Y1).
Definition eq_eqn2 (c zx zr : scalar) (Cd Y2 : point) :=
  psub (padd (pmul zx G) (pmul zr H)) (padd (pmul c Cd) Y2).

Definition va_eqn0 (c zr zx : scalar) (C Y0 : point) :=
  psub (padd (pmul zx G) (pmul zr H)) (padd (pmul c C) Y0).
Definition va_eqn1 (c zr : scalar) (P D Y1 : point) := psub (pmul zr P) (padd (pmul c D) Y1).

(** The transcript after the messages of an equality proof, with its challenges. *)
Definition eq_transcript (p : CommitmentEqProof) (t : transcript) : scalar * scalar * transcript :=
  let t := Transcript.equality_proof_domain_separator t in
  let t := Transcript.append_point (lit "Y_0") p.(eq_Y_0) t in
  let t := Transcript.append_point (lit "Y_1") p.(eq_Y_1) t in
  let t := Transcript.append_point (lit "Y_2") p.(eq_Y_2) t in
  let '(c, t) := Transcript.challenge_scalar (lit "c") t in
  let '(w, t) := Transcript.challenge_scalar (lit "w") t in
  (c, w, t).
Definition va_transcript (p : CiphertextValidityProof) (t : transcript) : scalar * scalar * transcript :=
  let t := Transcript.ciphertext_validity_proof_domain_separator t in
  let t := Transcript.append_point (lit "Y_0") p.(va_Y_0) t in
  let t := Transcript.append_point (lit "Y_1") p.(va_Y_1) t in
  let '(c, t) := Transcript.challenge_scalar (lit "c") t in
  let '(w, t) := Transcript.challenge_scalar (lit "w") t in
  (c, w, t).

Definition valid_point (p : CompressedRistretto) (Y : point) : Prop :=
  Transcript.is_identity p = false /\ decompress p.(cr_bytes) = Some Y.

Lemma validate_ok label p Y t :
  valid_point p Y -> validate label p t = Ok (Transcript.append_point label p t).
Proof.
  intros [Hi _]. unfold validate, Transcript.validate_and_append_point. by rewrite Hi.
Qed.

Lemma eq_pre_verify_run p pk ct cd f t b Y0 Y1 Y2 c w t' :
  valid_point p.(eq_Y_0) Y0 -> valid_point p.(eq_Y_1) Y1 -> valid_point p.(eq_Y_2) Y2 ->
  eq_transcript p t = (c, w, t') -> collector_wf b ->
  exists b', eq_proof_pre_verify p pk ct cd f t b = Ok (t', b') /\ collector_wf b' /\
    batch_val b' = padd (batch_val b) (pmul f (padd
      (eq_eqn0 c p.(eq_z_s) pk.(Key.pk_point) Y0) (padd
      (pmul w (eq_eqn1 c p.(eq_z_s) p.(eq_z_x) ct.(ct_commitment).(commitment_pt)
                ct.(ct_handle).(handle_pt) Y1))
      (pmul (smul w w) (eq_eqn2 c p.(eq_z_x) p.(eq_z_r) cd.(commitment_pt) Y2))))).
Proof.
  intros H0 H1 H2 Ht Hwf. unfold eq_proof_pre_verify.
  rewrite (validate_ok _ _ Y0) by done.
  cbn [mbind res_bind]. rewrite (validate_ok _ _ Y1) by done.
  cbn [mbind res_bind]. rewrite (validate_ok _ _ Y2) by done. cbn [mbind res_bind].
  unfold eq_transcript in Ht. cbv zeta in Ht.
  destruct (Transcript.challenge_scalar (lit "c") _) as [c1 t1].
  destruct (Transcript.challenge_scalar (lit "w") _) as [w1 t2].
  injection Ht as -> -> ->.
  destruct H0 as [_ H0], H1 as [_ H1], H2 as [_ H2].
  unfold decompress_or. rewrite H0, H1, H2. cbn [ok_or mbind res_bind].
  eexists. split; [done|]. split; [by apply collector_push_wf|].
  rewrite collector_push_val by done. f_equal. unfold lin, eq_eqn0, eq_eqn1, eq_eqn2. simpl.
  point_ring.
Qed.

Lemma va_pre_verify_run p cm pk dh f t b Y0 Y1 c w t' :
  valid_point p.(va_Y_0) Y0 -> valid_point p.(va_Y_1) Y1 ->
  va_transcript p t = (c, w, t') -> collector_wf b ->
  exists b', validity_proof_pre_verify p cm pk dh f t b = Ok (t', b') /\ collector_wf b' /\
    batch_val b' = padd (batch_val b) (pmul f (padd
      (va_eqn0 c p.(va_z_r) p.(va_z_x) cm.(commitment_pt) Y0)
      (pmul w (va_eqn1 c p.(va_z_r) pk.(Key.pk_point) dh.(handle_pt) Y1)))).
Proof.
  intros H0 H1 Ht Hwf. unfold validity_proof_pre_verify.
  rewrite (validate_ok _ _ Y0) by done. cbn [mbind res_bind].
  rewrite (validate_ok _ _ Y1) by done. cbn [mbind res_bind].
  unfold va_transcript in Ht. cbv zeta in Ht.
  destruct (Transcript.challenge_scalar (lit "c") _) as [c1 t1].
  destruct (Transcript.challenge_scalar (lit "w") _) as [w1 t2].
  injection Ht as -> -> ->.
  destruct H0 as [_ H0], H1 as [_ H1].
  unfold decompress_or. rewrite H0, H1. cbn [ok_or mbind res_bind].
  eexists. split; [done|]. split; [by apply collector_push_wf|].
  rewrite collector_push_val by done. f_equal. unfold lin, va_eqn0, va_eqn1. simpl.
  point_ring.
Qed.

Lemma valid_compress Y :
  Transcript.is_identity (mkRistretto (compress Y)) = false ->
  valid_point (mkRistretto (compress Y)) Y.
Proof. intros Hi. split; [done|]. apply decompress_compress. Qed.

Lemma is_identity_compress Y :
  Transcript.is_identity (mkRistretto (compress Y)) = bool_decide (Y = pid).
Proof.
  unfold Transcript.is_identity; cbn [cr_bytes]. apply bool_decide_ext.
  rewrite <- compress_id. split; [apply compress_inj|by intros ->].
Qed.

Lemma pmul_inv_zero f P : f <> s0 -> pmul f P = pid -> P = pid.
Proof.
  intros Hf E. rewrite <- (pmul_1 P), <- (sinv_l f Hf), <- pmul_mul, E. apply pmul_id.
Qed.

(** A collector whose sum did not move gives the same verdict. *)
Lemma collector_verdict b b' :
  collector_wf b -> collector_wf b' -> batch_val b' = batch_val b ->
  collector_verify b' = collector_verify b.
Proof. intros ? ? E. by rewrite !collector_verify_spec, E by done. Qed.

Lemma validate_inv label p t t' :
  validate label p t = Ok t' ->
  Transcript.is_identity p = false /\ t' = Transcript.append_point label p t.
Proof.
  unfold validate, Transcript.validate_and_append_point.
  destruct (Transcript.is_identity p); [done|]. by intros [= <-].
Qed.

Lemma decompress_or_inv e p Y : decompress_or e p = Ok Y -> decompress p.(cr_bytes) = Some Y.
Proof. unfold decompress_or. destruct (decompress _); by intros [= ->]. Qed.

(** What the checks of [pre_verify] establish before the equations. *)
Lemma eq_pre_verify_inv p pk ct cd f t b t' b' :
  eq_proof_pre_verify p pk ct cd f t b = Ok (t', b') ->
  exists c w Y0 Y1 Y2, eq_transcript p t = (c, w, t') /\
    valid_point p.(eq_Y_0) Y0 /\ valid_point p.(eq_Y_1) Y1 /\ valid_point p.(eq_Y_2) Y2.
Proof.
  unfold eq_proof_pre_verify, eq_transcript, valid_point. cbv zeta. intros Hp.
  apply res_bind_ok in Hp as (t0 & [Hi0 ->]%validate_inv & Hp).
  apply res_bind_ok in Hp as (t1 & [Hi1 ->]%validate_inv & Hp).
  apply res_bind_ok in Hp as (t2 & [Hi2 ->]%validate_inv & Hp).
  destruct (Transcript.challenge_scalar (lit "c") _) as [c t3].
  destruct (Transcript.challenge_scalar (lit "w") _) as [w t4].
  apply res_bind_ok in Hp as (Y0 & H0%decompress_or_inv & Hp).
  apply res_bind_ok in Hp as (Y1 & H1%decompress_or_inv & Hp).
  apply res_bind_ok in Hp as (Y2 & H2%decompress_or_inv & Hp).
  injection Hp as -> _. eauto 12.
Qed.

Lemma va_pre_verify_inv p cm pk dh f t b t' b' :
  validity_proof_pre_verify p cm pk dh f t b = Ok (t', b') ->
  exists c w Y0 Y1, va_transcript p t = (c, w, t') /\
    valid_point p.(va_Y_0) Y0 /\ valid_point p.(va_Y_1) Y1.
Proof.
  unfold validity_proof_pre_verify, va_transcript, valid_point. cbv zeta. intros Hp.
  apply res_bind_ok in Hp as (t0 & [Hi0 ->]%validate_inv & Hp).
  apply res_bind_ok in Hp as (t1 & [Hi1 ->]%validate_inv & Hp).
  destruct (Transcript.challenge_scalar (lit "c") _) as [c t3].
  destruct (Transcript.challenge_scalar (lit "w") _) as [w t4].
  apply res_bind_ok in Hp as (Y0 & H0%decompress_or_inv & Hp).
  apply res_bind_ok in Hp as (Y1 & H1%decompress_or_inv & Hp).
  injection Hp as -> _. eauto 12.
Qed.

(** ** Properties *)

(** Completeness of the equality proof.  A proof made by [new] for the
    balance left to the sender -- a ciphertext that his private key decrypts to
    [amount], and a commitment to the same [amount] -- passes [pre_verify] on
    the same transcript, leaves the transcript in the prover's state and does
    not change the verdict of the batch, whatever the random scalars are, as
    long as none of its three points is the identity. *)
Theorem eq_proof_complete (s : scalar) ct (o : PedersenOpening) (amount : Z)
    (y_s y_x y_r f : scalar) t b
    (Hs : s <> s0) (Hwf : collector_wf b)
    (Hct : Key.decrypt_to_point (Key.mkPrivateKey s) ct = pmul (s_from_u64 amount) G)
    (H0 : pmul y_s (pmul (sinv s) H) <> pid)
    (H1 : padd (pmul y_x G) (pmul y_s ct.(ct_handle).(handle_pt)) <> pid)
    (H2 : padd (pmul y_x G) (pmul y_r H) <> pid) :
  let pk := Key.mkPublicKey (pmul (sinv s) H) in
  let pair := Key.mkKeyPair pk (Key.mkPrivateKey s) in
  let '(p, t') := eq_proof_new pair ct o amount y_s y_x y_r t in
  let cd := pedersen_with_opening (s_from_u64 amount) o in
  exists b', eq_proof_pre_verify p pk ct cd f t b = Ok (t', b') /\ collector_wf b' /\
    collector_verify b' = collector_verify b.
Proof.
  intros pk pair. destruct (eq_proof_new pair ct o amount y_s y_x y_r t) as [p t'] eqn:Hp.
  intros cd. unfold eq_proof_new in Hp. cbv zeta in Hp.
  destruct (Transcript.challenge_scalar (lit "c") _) as [c t1] eqn:Hc.
  destruct (Transcript.challenge_scalar (lit "w") _) as [w t2] eqn:Hw.
  injection Hp as <- <-. rewrite !msm2 in Hc |- *. simpl in Hc |- *.
  edestruct (eq_pre_verify_run (mkEqProof
      (mkRistretto (compress (pmul y_s (pmul (sinv s) H))))
      (mkRistretto (compress (padd (pmul y_x G) (pmul y_s ct.(ct_handle).(handle_pt)))))
      (mkRistretto (compress (padd (pmul y_x G) (pmul y_r H))))
      (sadd (smul c s) y_s) (sadd (smul c (s_from_u64 amount)) y_x)
      (sadd (smul c (opening_scalar o)) y_r)) pk ct cd f t b) as (b' & Hb & Hwf' & Hv).
  1-3: simpl; apply valid_compress; rewrite is_identity_compress; by apply bool_decide_false.
  { unfold eq_transcript. cbv zeta. simpl. rewrite Hc, Hw. done. }
  { done. }
  exists b'. split; [exact Hb|]. split; [done|]. apply collector_verdict; try done.
  rewrite Hv. simpl. set (Cs := commitment_pt (ct_commitment ct)) in *.
  assert (Cs = padd (pmul (s_from_u64 amount) G) (pmul s (handle_pt (ct_handle ct)))) as HCs.
  { unfold Key.decrypt_to_point in Hct. simpl in Hct. rewrite <- Hct. fold Cs. point_ring. }
  assert (H = pmul s (pmul (sinv s) H)) as HH.
  { rewrite pmul_mul. replace (smul s (sinv s)) with s1; [by rewrite pmul_1|].
    rewrite <- (sinv_l s Hs). apply (Ring_theory.Rmul_comm scalar_ring). }
  assert (eq_eqn0 c (sadd (smul c s) y_s) (pmul (sinv s) H) (pmul y_s (pmul (sinv s) H)) = pid) as ->.
  { unfold eq_eqn0. rewrite HH at 2. point_ring. }
  rewrite HCs. unfold eq_eqn1, eq_eqn2, cd, pedersen_with_opening. simpl. rewrite msm2.
  point_ring.
Qed.

(** Completeness of the validity proof.  A proof made by [new] for a
    commitment to [amount] and the handle of the receiver under the same
    opening passes [pre_verify] on the same transcript and does not change the
    verdict of the batch, as long as its two points are not the identity. *)
Theorem validity_proof_complete (pk : Key.PublicKey) (o : PedersenOpening) (amount : Z)
    (y_r y_x f : scalar) t b (Hwf : collector_wf b)
    (H0 : padd (pmul y_r H) (pmul y_x G) <> pid) (H1 : pmul y_r pk.(Key.pk_point) <> pid) :
  let '(p, t') := validity_proof_new pk amount o y_r y_x t in
  let ct := Key.encrypt_with_opening pk (s_from_u64 amount) o in
  exists b', validity_proof_pre_verify p ct.(ct_commitment) pk ct.(ct_handle) f t b = Ok (t', b') /\
    collector_wf b' /\ collector_verify b' = collector_verify b.
Proof.
  destruct (validity_proof_new pk amount o y_r y_x t) as [p t'] eqn:Hp. intros ct.
  unfold validity_proof_new in Hp. cbv zeta in Hp.
  destruct (Transcript.challenge_scalar (lit "c") _) as [c t1] eqn:Hc.
  destruct (Transcript.challenge_scalar (lit "w") _) as [w t2] eqn:Hw.
  injection Hp as <- <-. rewrite !msm2 in Hc |- *.
  edestruct (va_pre_verify_run (mkValidityProof
      (mkRistretto (compress (padd (pmul y_r H) (pmul y_x G))))
      (mkRistretto (compress (pmul y_r pk.(Key.pk_point))))
      (sadd (smul c (opening_scalar o)) y_r) (sadd (smul c (s_from_u64 amount)) y_x))
      ct.(ct_commitment) pk ct.(ct_handle) f t b) as (b' & Hb & Hwf' & Hv).
  1-2: simpl; apply valid_compress; rewrite is_identity_compress; by apply bool_decide_false.
  { unfold va_transcript. cbv zeta. simpl. rewrite Hc, Hw. done. }
  { done. }
  exists b'. split; [exact Hb|]. split; [done|]. apply collector_verdict; try done.
  rewrite Hv. unfold va_eqn0, va_eqn1, ct, Key.encrypt_with_opening, pedersen_with_opening. simpl.
  rewrite msm2. point_ring.
Qed.

(** What the batch check means for an equality proof: once [pre_verify]
    has accepted its points, verifying the collector succeeds exactly when the
    random combination of the three equations of the proof vanishes. *)
Theorem eq_proof_verify_iff p pk ct cd f t t' b'
    (Hf : f <> s0) (Hp : eq_proof_pre_verify p pk ct cd f t collector_default = Ok (t', b')) :
  exists c w Y0 Y1 Y2, eq_transcript p t = (c, w, t') /\
    valid_point p.(eq_Y_0) Y0 /\ valid_point p.(eq_Y_1) Y1 /\ valid_point p.(eq_Y_2) Y2 /\
    (collector_verify b' = Ok () <->
      padd (eq_eqn0 c p.(eq_z_s) pk.(Key.pk_point) Y0) (padd
        (pmul w (eq_eqn1 c p.(eq_z_s) p.(eq_z_x) ct.(ct_commitment).(commitment_pt)
                   ct.(ct_handle).(handle_pt) Y1))
        (pmul (smul w w) (eq_eqn2 c p.(eq_z_x) p.(eq_z_r) cd.(commitment_pt) Y2))) = pid).
Proof.
  destruct (eq_pre_verify_inv _ _ _ _ _ _ _ _ _ Hp) as (c & w & Y0 & Y1 & Y2 & Ht & H0 & H1 & H2).
  destruct (eq_pre_verify_run p pk ct cd f t collector_default Y0 Y1 Y2 c w t' H0 H1 H2 Ht)
    as (b1 & Hb & Hwf & Hv); [done|].
  assert (b1 = b') as -> by congruence.
  do 5 eexists. do 4 (split; [eassumption|]).
  rewrite collector_verify_spec, Hv, collector_default_val, padd_id_l by done.
  split.
  - case_decide as Hd; [|done]. intros _. by apply pmul_inv_zero in Hd.
  - intros ->. by rewrite pmul_id, decide_True.
Qed.

(** What the three equations are worth: two answers to different challenges with
    the same first points, both satisfying the three of them, yield the secret: a private key of the account and an amount that is both
    the decryption of the remaining balance and the content of the commitment. *)
Theorem eq_equations_extract (c c' zs zx zr zs' zx' zr' : scalar) (P C D Cd Y0 Y1 Y2 : point)
    (Hc : ssub c c' <> s0)
    (H0 : eq_eqn0 c zs P Y0 = pid) (H0' : eq_eqn0 c' zs' P Y0 = pid)
    (H1 : eq_eqn1 c zs zx C D Y1 = pid) (H1' : eq_eqn1 c' zs' zx' C D Y1 = pid)
    (H2 : eq_eqn2 c zx zr Cd Y2 = pid) (H2' : eq_eqn2 c' zx' zr' Cd Y2 = pid) :
  exists s x r, pmul s P = H /\ C = padd (pmul x G) (pmul s D) /\
    Cd = padd (pmul x G) (pmul r H).
Proof.
  set (i := sinv (ssub c c')).
  assert (smul i (ssub c c') = s1) as Hi by by apply sinv_l.
  exists (smul i (ssub zs zs')), (smul i (ssub zx zx')), (smul i (ssub zr zr')).
  assert (forall p, p = pmul i (pmul (ssub c c') p)) as Hinv.
  { intros p. by rewrite pmul_mul, Hi, pmul_1. }
  assert (forall a b p q, a = pid -> b = pid -> psub a b = psub p q -> p = q) as Hsub.
  { intros a b p q -> -> E. apply (padd_cancel_l (popp q)).
    rewrite (padd_comm _ q), padd_opp_r, padd_comm. unfold psub in E.
    rewrite <- E. point_ring. }
  repeat split.
  - rewrite <- pmul_mul. rewrite (Hinv H). f_equal.
    apply (Hsub _ _ _ _ H0 H0'). unfold eq_eqn0. point_ring.
  - rewrite <- !pmul_mul, <- pmul_add_r. rewrite (Hinv C) at 1. f_equal. symmetry.
    apply (Hsub _ _ _ _ H1 H1'). unfold eq_eqn1. point_ring.
  - rewrite <- !pmul_mul, <- pmul_add_r. rewrite (Hinv Cd) at 1. f_equal. symmetry.
    apply (Hsub _ _ _ _ H2 H2'). unfold eq_eqn2. point_ring.
Qed.

(** The verifier does not check the three equations but their sum with the
    weights 1, [w] and [w * w], and [w] is drawn before the answers are given.
    An answer can then be chosen with [w] at hand. *)
Definition eq_proof_forge (source_keypair : Key.KeyPair) (source_ciphertext : Ciphertext)
    (opening : PedersenOpening) (content : scalar) (amount : Z) (y_s y_x y_r : scalar) (t : transcript) : CommitmentEqProof :=
  let s := source_keypair.(Key.private_key).(Key.sk_scalar) in
  let D_source := source_ciphertext.(ct_handle).(handle_pt) in
  let Y_0 := mkRistretto (compress (pmul y_s source_keypair.(Key.public_key).(Key.pk_point))) in
  let Y_1 := mkRistretto (compress (padd (pmul y_x G) (pmul y_s D_source))) in
  let Y_2 := mkRistretto (compress (padd (pmul y_x G) (pmul y_r H))) in
  let '(c, w, _) := eq_transcript (mkEqProof Y_0 Y_1 Y_2 s0 s0 s0) t in
  let mean := smul (sinv (sadd s1 w)) (sadd content (smul w (s_from_u64 amount))) in
  mkEqProof Y_0 Y_1 Y_2 (sadd (smul c s) y_s) (sadd (smul c mean) y_x) (sadd (smul c opening.(opening_scalar)) y_r).

Add Ring ScalarRing : scalar_ring.
Lemma mean_balances (c w x x' y : scalar) : sadd s1 w <> s0 ->
  let z := sadd (smul c (smul (sinv (sadd s1 w)) (sadd x (smul w x')))) y in
  sadd (smul w (ssub z (sadd (smul c x) y))) (smul (smul w w) (ssub z (sadd (smul c x') y))) = s0.
Proof.
  intros Hw z. set (i := sinv (sadd s1 w)) in *. assert (smul i (sadd s1 w) = s1) as Hi by by apply sinv_l.
  transitivity (smul (smul c w) (smul (ssub (smul i (sadd s1 w)) s1) (sadd x (smul w x')))); [subst z; ring|].
  rewrite Hi. ring.
Qed.

(** C30: the equality proof is not sound.  An owner of a key makes, for any
    ciphertext he can decrypt and for any other amount, a proof that passes
    [pre_verify] and leaves the verdict of the batch as it is: the verifier
    accepts that the ciphertext of [content] and the commitment to [amount]
    hide the same value, although [content] and [amount] have nothing to do
    with one another.  This asks only that the weight drawn is not -1 and, as
    for an honest proof, that no point is the identity. *)
Theorem eq_proof_forged (s : scalar) ct (o : PedersenOpening) (content : scalar) (amount : Z)
    (y_s y_x y_r f : scalar) t b
    (Hs : s <> s0) (Hwf : collector_wf b)
    (Hct : Key.decrypt_to_point (Key.mkPrivateKey s) ct = pmul content G)
    (H0 : pmul y_s (pmul (sinv s) H) <> pid)
    (H1 : padd (pmul y_x G) (pmul y_s ct.(ct_handle).(handle_pt)) <> pid)
    (H2 : padd (pmul y_x G) (pmul y_r H) <> pid) :
  let pk := Key.mkPublicKey (pmul (sinv s) H) in
  let p := eq_proof_forge (Key.mkKeyPair pk (Key.mkPrivateKey s)) ct o content amount y_s y_x y_r t in
  let cd := pedersen_with_opening (s_from_u64 amount) o in
  sadd s1 (eq_transcript p t).1.2 <> s0 ->
  exists t' b', eq_proof_pre_verify p pk ct cd f t b = Ok (t', b') /\ collector_wf b' /\
    collector_verify b' = collector_verify b.
Proof.
  intros pk p cd. unfold p, eq_proof_forge.
  destruct (eq_transcript (mkEqProof _ _ _ s0 s0 s0) t) as [[c w] t'] eqn:Ht. set (q := mkEqProof _ _ _ _ _ _).
  assert (eq_transcript q t = (c, w, t')) as Hq by exact Ht. rewrite Hq. intros Hw. cbn [fst snd] in Hw.
  edestruct (eq_pre_verify_run q pk ct cd f t b) as (b' & Hb & Hwf' & Hv).
  1-3: subst q; simpl; apply valid_compress; rewrite is_identity_compress; by apply bool_decide_false.
  1-2: done.
  exists t', b'. split; [exact Hb|]. split; [done|]. apply collector_verdict; try done.
  rewrite Hv. subst q. simpl. set (Cs := commitment_pt (ct_commitment ct)) in *.
  assert (Cs = padd (pmul content G) (pmul s (handle_pt (ct_handle ct)))) as ->.
  { unfold Key.decrypt_to_point in Hct. simpl in Hct. rewrite <- Hct. fold Cs. point_ring. }
  assert (H = pmul s (pmul (sinv s) H)) as HH.
  { rewrite pmul_mul. replace (smul s (sinv s)) with s1; [by rewrite pmul_1|]. rewrite <- (sinv_l s Hs). ring. }
  assert (eq_eqn0 c (sadd (smul c s) y_s) (pmul (sinv s) H) (pmul y_s (pmul (sinv s) H)) = pid) as ->.
  { unfold eq_eqn0. rewrite HH at 2. point_ring. }
  pose proof (mean_balances c w content (s_from_u64 amount) y_x Hw) as Hm. cbv zeta in Hm.
  set (z := sadd (smul c (smul (sinv (sadd s1 w)) _)) y_x) in *.
  assert (forall x y : point, padd x (pmul f y) = x <-> pmul f y = pid) as Hid.
  { intros x y. split; [|intros ->; apply padd_id_r]. intros E. apply (padd_cancel_l x). by rewrite E, padd_id_r. }
  apply Hid. rewrite padd_id_l. replace (padd _ _) with (pmul s0 G); [by rewrite pmul_0, pmul_id|].
  rewrite <- Hm. unfold eq_eqn1, eq_eqn2, cd, pedersen_with_opening. simpl. rewrite msm2. point_ring.
Qed.
End Facts.

(** ** The properties at concrete inputs *)

#[local] Existing Instances curve_model merlin_model.

Definition w_key : Key.PublicKey := Key.mkPublicKey (pmul (sinv (fs 5)) H).
Definition w_pair : Key.KeyPair := Key.mkKeyPair w_key (Key.mkPrivateKey (fs 5)).
Definition w_ct : Ciphertext := Key.encrypt_with_opening w_key (s_from_u64 30) (mkOpening (fs 9)).
Definition w_new := eq_proof_new w_pair w_ct (mkOpening (fs 4)) 30 (fs 2) (fs 3) (fs 6) (t_new []).
Definition w_dest : PedersenCommitment := pedersen_with_opening (s_from_u64 30) (mkOpening (fs 4)).
Ltac decide_now := first [apply (bool_decide_unpack _); vm_compute; exact I | reflexivity].

Lemma eq_proof_complete_witness :
  let '(p, t') := w_new in
  exists b', @eq_proof_pre_verify curve_model merlin_model p w_key w_ct w_dest (fs 7) (t_new [])
      collector_default = Ok (t', b') /\
    collector_wf b' /\ collector_verify b' = collector_verify collector_default.
Proof.
  apply (@eq_proof_complete curve_model merlin_model (fs 5) w_ct (mkOpening (fs 4)) 30
    (fs 2) (fs 3) (fs 6) (fs 7) (@t_new merlin_model []) collector_default); decide_now.
Defined.

Lemma validity_proof_complete_witness :
  let '(p, t') := @validity_proof_new curve_model merlin_model w_key 30 (mkOpening (fs 4))
                    (fs 2) (fs 3) (t_new []) in
  let ct := Key.encrypt_with_opening w_key (s_from_u64 30) (mkOpening (fs 4)) in
  exists b', validity_proof_pre_verify p ct.(ct_commitment) w_key ct.(ct_handle) (fs 7) (t_new [])
      collector_default = Ok (t', b') /\
    collector_wf b' /\ collector_verify b' = collector_verify collector_default.
Proof.
  apply (@validity_proof_complete curve_model merlin_model w_key (mkOpening (fs 4)) 30
    (fs 2) (fs 3) (fs 7) (@t_new merlin_model []) collector_default); decide_now.
Defined.

Definition w_result := @eq_proof_pre_verify curve_model merlin_model w_new.1 w_key w_ct w_dest
  (fs 7) (t_new []) collector_default.
Definition w_batch : @BatchCollector curve_model :=
  match w_result with Ok (_, b) => b | _ => collector_default end.
Definition w_state : @transcript merlin_model :=
  match w_result with Ok (t, _) => t | _ => t_new [] end.

Lemma w_result_ok : w_result = Ok (w_state, w_batch).
Proof.
  assert (is_ok w_result = true) as Hok by by vm_compute.
  unfold w_state, w_batch. by destruct w_result as [[]| | |].
Qed.

Lemma eq_proof_verify_iff_witness :
  exists c w Y0 Y1 Y2, @eq_transcript curve_model merlin_model w_new.1 (t_new []) = (c, w, w_state) /\
    valid_point (eq_Y_0 w_new.1) Y0 /\ valid_point (eq_Y_1 w_new.1) Y1 /\
    valid_point (eq_Y_2 w_new.1) Y2 /\
    (collector_verify w_batch = Ok () <->
      padd (eq_eqn0 c (eq_z_s w_new.1) (Key.pk_point w_key) Y0) (padd
        (pmul w (eq_eqn1 c (eq_z_s w_new.1) (eq_z_x w_new.1) w_ct.(ct_commitment).(commitment_pt)
                   w_ct.(ct_handle).(handle_pt) Y1))
        (pmul (smul w w) (eq_eqn2 c (eq_z_x w_new.1) (eq_z_r w_new.1)
                   w_dest.(commitment_pt) Y2))) = pid).
Proof.
  apply (@eq_proof_verify_iff curve_model merlin_model w_new.1 w_key w_ct w_dest (fs 7)).
  - decide_now.
  - exact w_result_ok.
Defined.

(** The ciphertext of 30 is proved to be the one of 5000. *)
Definition w_forged := @eq_proof_forge curve_model merlin_model w_pair w_ct (mkOpening (fs 4)) (s_from_u64 30) 5000
  (fs 2) (fs 3) (fs 6) (t_new []).
Lemma eq_proof_forged_witness :
  let cd := pedersen_with_opening (s_from_u64 5000) (mkOpening (fs 4)) in
  exists t' b', @eq_proof_pre_verify curve_model merlin_model w_forged w_key w_ct cd (fs 7) (t_new [])
      collector_default = Ok (t', b') /\
    collector_wf b' /\ collector_verify b' = collector_verify collector_default.
Proof.
  apply (@eq_proof_forged curve_model merlin_model (fs 5) w_ct (mkOpening (fs 4)) (s_from_u64 30) 5000
    (fs 2) (fs 3) (fs 6) (fs 7) (@t_new merlin_model []) collector_default); decide_now.
Defined.

(** The proof of [w_new] answered a second time, with challenge [3] and [8]. *)
Lemma eq_equations_extract_witness :
  let D := w_ct.(ct_handle).(handle_pt) in
  let C := w_ct.(ct_commitment).(commitment_pt) in
  let Cd := w_dest.(commitment_pt) in
  exists s x r, pmul s (Key.pk_point w_key) = @H curve_model /\ C = padd (pmul x G) (pmul s D) /\
    Cd = padd (pmul x G) (pmul r H).
Proof.
  apply (@eq_equations_extract curve_model (fs 3) (fs 8)
    (fs 17) (fs 93) (fs 18) (fs 42) (fs 243) (fs 38)
    (Key.pk_point w_key) _ _ _
    (pmul (fs 2) (Key.pk_point w_key))
    (padd (pmul (fs 3) G) (pmul (fs 2) w_ct.(ct_handle).(handle_pt)))
    (padd (pmul (fs 3) G) (pmul (fs 6) H))); decide_now.
Defined.
