(* ===== verification/Transaction.v ===== *)
(** [xelis_common::transaction] and [xelis_common::asset]: the data of a
    transaction, its layout on the wire and its exact size. *)

From S2P Require Import Prelude External ExternalCrypto Serializer Hash Defaults Elgamal Proofs.

Definition EXTRA_DATA_LIMIT_SIZE : nat := 1024.

(** A record whose fields are read one after the other: the round trip runs
    the reads, soundness inverts them. *)
Ltac split_ands := repeat match goal with H : _ /\ _ |- _ => destruct H end.
Ltac record_codec enc unfold_wf :=
  apply mk_codec_canon;
  [ let x := fresh "x" in intros x ???; unfold_wf; split_ands; unfold enc; run_read; try done;
      by destruct x
  | safe_read
  | let Hr := fresh in intros ???? Hr; inv_read Hr; subst; unfold_wf; simpl in *; split_ands; split;
      [repeat match goal with |- _ /\ _ => split end; try done; auto
      |unfold enc; simpl; eexists; rewrite <- ?(assoc_L (++)); eauto] ].

(** ** asset.rs *)
Record AssetData := mkAssetData { asset_topoheight : Z; decimals : Z }.

#[export] Instance AssetData_Serializer : Serializer AssetData := {|
  write x w :=
    let w := Writer.write_u64 x.(asset_topoheight) w in
    Writer.write_u8 x.(decimals) w;
  read :=
    topoheight ← Reader.read_u64;
    decimals ← Reader.read_u8;
    mret (mkAssetData topoheight decimals);
  size _ := (8 + 1)%nat;
|}.

Definition asset_data_enc (x : AssetData) : list byte :=
  be_bytes 8 x.(asset_topoheight) ++ u8_bytes x.(decimals).
Definition asset_data_wf (x : AssetData) : Prop := in_u 64 x.(asset_topoheight) /\ in_u 8 x.(decimals).
Lemma asset_data_append x w : write x w = Writer.write_bytes (asset_data_enc x) w.
Proof. cbn [write AssetData_Serializer]. by autorewrite with ser. Qed.
Lemma asset_data_codec : CodecCanon AssetData asset_data_enc read asset_data_wf.
Proof. record_codec asset_data_enc ltac:(unfold asset_data_wf in *). Qed.
#[export] Instance AssetData_SerOk : SerOk AssetData :=
  mk_SerOk asset_data_enc asset_data_wf asset_data_append (codec_of asset_data_codec).
#[export] Instance AssetData_SerCanon : SerCanon AssetData.
Proof. by eapply (mk_SerCanon asset_data_enc asset_data_wf), asset_data_codec; [apply asset_data_append|]. Qed.
#[export] Instance AssetData_SerSize : SerSize AssetData.
Proof. constructor. intros x _. by rewrite (to_bytes_enc asset_data_enc) by apply asset_data_append. Qed.

Record AssetWithData := mkAssetWithData { awd_asset : Hash; awd_data : AssetData }.

#[export] Instance AssetWithData_Serializer : Serializer AssetWithData := {|
  write x w := write x.(awd_data) (write x.(awd_asset) w);
  read := asset ← read_hash; data ← read (A:=AssetData); mret (mkAssetWithData asset data);
  size x := (size x.(awd_asset) + size x.(awd_data))%nat;
|}.
Definition asset_with_data_enc (x : AssetWithData) : list byte :=
  hash_bytes x.(awd_asset) ++ to_bytes x.(awd_data).
Lemma asset_with_data_append x w : write x w = Writer.write_bytes (asset_with_data_enc x) w.
Proof. cbn [write AssetWithData_Serializer]. by autorewrite with ser. Qed.
Lemma asset_with_data_codec :
  CodecCanon AssetWithData asset_with_data_enc read (fun x => ser_wf x.(awd_data)).
Proof. record_codec asset_with_data_enc idtac. Qed.
#[export] Instance AssetWithData_SerOk : SerOk AssetWithData :=
  mk_SerOk asset_with_data_enc _ asset_with_data_append (codec_of asset_with_data_codec).
#[export] Instance AssetWithData_SerCanon : SerCanon AssetWithData.
Proof.
  by eapply (mk_SerCanon asset_with_data_enc), asset_with_data_codec; [apply asset_with_data_append|].
Qed.

(** ** extra_data.rs *)
Record UnknownExtraDataFormat := mkExtraData { extra_bytes : list byte }.

#[export] Instance ExtraData_Serializer : Serializer UnknownExtraDataFormat := {|
  write x w := write x.(extra_bytes) w;
  read := l ← read (A:=list byte); mret (mkExtraData l);
  size := default_size (fun x w => write x.(extra_bytes) w);
|}.
Definition extra_enc (x : UnknownExtraDataFormat) : list byte := to_bytes x.(extra_bytes).
Lemma extra_append x w : write x w = Writer.write_bytes (extra_enc x) w.
Proof. cbn [write ExtraData_Serializer]. by autorewrite with ser. Qed.
Lemma extra_codec :
  CodecCanon UnknownExtraDataFormat extra_enc read (fun x => ser_wf x.(extra_bytes)).
Proof. record_codec extra_enc idtac. Qed.
#[export] Instance ExtraData_SerOk : SerOk UnknownExtraDataFormat :=
  mk_SerOk extra_enc _ extra_append (codec_of extra_codec).
#[export] Instance ExtraData_SerCanon : SerCanon UnknownExtraDataFormat.
Proof. by eapply (mk_SerCanon extra_enc), extra_codec; [apply extra_append|]. Qed.
#[export] Instance ExtraData_SerSize : SerSize UnknownExtraDataFormat.
Proof. constructor. by intros x _. Qed.

(** ** proofs.rs: serialization of the proofs *)

Section Proofs.
Context {CV : Curve}.

#[export] Instance EqProof_Serializer : Serializer CommitmentEqProof := {|
  write p w :=
    let w := write p.(eq_Y_0) w in
    let w := write p.(eq_Y_1) w in
    let w := write p.(eq_Y_2) w in
    let w := write p.(eq_z_s) w in
    let w := write p.(eq_z_x) w in
    write p.(eq_z_r) w;
  read :=
    Y_0 ← read (A:=CompressedRistretto);
    Y_1 ← read (A:=CompressedRistretto);
    Y_2 ← read (A:=CompressedRistretto);
    z_s ← read (A:=scalar);
    z_x ← read (A:=scalar);
    z_r ← read (A:=scalar);
    mret (mkEqProof Y_0 Y_1 Y_2 z_s z_x z_r);
  size _ := (RISTRETTO_COMPRESSED_SIZE * 3 + SCALAR_SIZE * 3)%nat;
|}.
Definition eq_proof_enc (p : CommitmentEqProof) : list byte :=
  to_bytes p.(eq_Y_0) ++ to_bytes p.(eq_Y_1) ++ to_bytes p.(eq_Y_2) ++
  to_bytes p.(eq_z_s) ++ to_bytes p.(eq_z_x) ++ to_bytes p.(eq_z_r).
Lemma eq_proof_append p w : write p w = Writer.write_bytes (eq_proof_enc p) w.
Proof. cbn [write EqProof_Serializer]. by autorewrite with ser. Qed.
Lemma eq_proof_codec : CodecCanon CommitmentEqProof eq_proof_enc read (fun _ => True).
Proof. record_codec eq_proof_enc idtac. Qed.
#[export] Instance EqProof_SerOk : SerOk CommitmentEqProof :=
  mk_SerOk eq_proof_enc _ eq_proof_append (codec_of eq_proof_codec).
#[export] Instance EqProof_SerCanon : SerCanon CommitmentEqProof.
Proof. by eapply (mk_SerCanon eq_proof_enc), eq_proof_codec; [apply eq_proof_append|]. Qed.

Lemma length_point_bytes `{SerializableCompressedPoint T} (x : T) : length (to_bytes x) = 32%nat.
Proof. apply length_vec_to_list. Qed.

#[export] Instance EqProof_SerSize : SerSize CommitmentEqProof.
Proof.
  constructor. intros p _. rewrite (to_bytes_enc eq_proof_enc) by apply eq_proof_append.
  unfold eq_proof_enc. by rewrite !length_app, !length_point_bytes, !length_scalar_bytes.
Qed.

#[export] Instance ValidityProof_Serializer : Serializer CiphertextValidityProof := {|
  write p w :=
    let w := write p.(va_Y_0) w in
    let w := write p.(va_Y_1) w in
    let w := write p.(va_z_r) w in
    write p.(va_z_x) w;
  read :=
    Y_0 ← read (A:=CompressedRistretto);
    Y_1 ← read (A:=CompressedRistretto);
    z_r ← read (A:=scalar);
    z_x ← read (A:=scalar);
    mret (mkValidityProof Y_0 Y_1 z_r z_x);
  size _ := (RISTRETTO_COMPRESSED_SIZE * 2 + SCALAR_SIZE * 2)%nat;
|}.
Definition validity_enc (p : CiphertextValidityProof) : list byte :=
  to_bytes p.(va_Y_0) ++ to_bytes p.(va_Y_1) ++ to_bytes p.(va_z_r) ++ to_bytes p.(va_z_x).
Lemma validity_append p w : write p w = Writer.write_bytes (validity_enc p) w.
Proof. cbn [write ValidityProof_Serializer]. by autorewrite with ser. Qed.
Lemma validity_codec : CodecCanon CiphertextValidityProof validity_enc read (fun _ => True).
Proof. record_codec validity_enc idtac. Qed.
#[export] Instance ValidityProof_SerOk : SerOk CiphertextValidityProof :=
  mk_SerOk validity_enc _ validity_append (codec_of validity_codec).
#[export] Instance ValidityProof_SerCanon : SerCanon CiphertextValidityProof.
Proof. by eapply (mk_SerCanon validity_enc), validity_codec; [apply validity_append|]. Qed.
#[export] Instance ValidityProof_SerSize : SerSize CiphertextValidityProof.
Proof.
  constructor. intros p _. rewrite (to_bytes_enc validity_enc) by apply validity_append.
  unfold validity_enc. by rewrite !length_app, !length_point_bytes, !length_scalar_bytes.
Qed.

Context {ML : Merlin} {RP : RangeProofLib}.

(** [usize::next_power_of_two] *)
Definition next_power_of_two (n : Z) : Z := 2 ^ Z.log2_up n.
Definition range_min_size : Z := 4 * Z.of_nat RISTRETTO_COMPRESSED_SIZE + 5 * Z.of_nat SCALAR_SIZE.
Definition range_max_size : Z :=
  range_min_size
  + next_power_of_two (Z.of_nat MAX_TRANSFER_COUNT * 2) * Z.of_nat RISTRETTO_COMPRESSED_SIZE.

Definition range_proof_write (p : range_proof) (w : Writer) : Writer :=
  let bytes := rp_to_bytes p in
  let w := Writer.write_u16 (wrap 16 (Z.of_nat (length bytes))) w in
  Writer.write_bytes bytes w.
Definition range_proof_read : rd range_proof :=
  len ← Reader.read_u16;
  if negb (len mod 32 =? 0) || (len <? range_min_size) then rd_err InvalidSize
  else if negb ((len - range_min_size) mod 32 =? 0) then rd_err InvalidSize
  else if range_max_size <? len then rd_err InvalidSize
  else
    bytes ← Reader.read_bytes_ref (Z.to_nat len);
    match rp_from_bytes bytes with
    | Some p => mret p
    | None => rd_err InvalidValue
    end.

#[export] Instance RangeProof_Serializer : Serializer range_proof :=
  {| write := range_proof_write; read := range_proof_read; size := default_size range_proof_write |}.

Definition range_enc (p : range_proof) : list byte :=
  be_bytes 2 (wrap 16 (Z.of_nat (length (rp_to_bytes p)))) ++ rp_to_bytes p.
Definition range_wf (p : range_proof) : Prop := Z.of_nat (length (rp_to_bytes p)) <= range_max_size.

Lemma range_max_val : range_max_size = 16672.
Proof. done. Qed.
Lemma range_append p w : write p w = Writer.write_bytes (range_enc p) w.
Proof. cbn [write RangeProof_Serializer]. unfold range_proof_write. by autorewrite with ser. Qed.

Lemma rp_length_checks p n :
  n = Z.of_nat (length (rp_to_bytes p)) ->
  n mod 32 = 0 /\ range_min_size <= n /\ (n - range_min_size) mod 32 = 0.
Proof.
  intros ->. destruct (rp_length p) as [k ->]. change range_min_size with (9 * 32).
  replace (Z.of_nat (32 * (9 + 2 * k))) with ((9 + 2 * Z.of_nat k) * 32) by lia.
  rewrite <- Z.mul_sub_distr_r, !Z.mod_mul by done. lia.
Qed.

Lemma range_codec : CodecCanon range_proof range_enc range_proof_read range_wf.
Proof.
  unfold range_proof_read. apply mk_codec_canon; intros *.
  - unfold range_wf. rewrite range_max_val. intros Hx. unfold range_enc.
    rewrite wrap_small by (unfold in_u; lia). rewrite <- (assoc_L (++)).
    rd_step; [|unfold in_u; lia].
    destruct (rp_length_checks x _ eq_refl) as (H1 & H2 & H3). rewrite H1, H3. cbn [negb orb Z.eqb].
    destruct (Z.ltb_spec (Z.of_nat (length (rp_to_bytes x))) range_min_size); [lia|].
    destruct (Z.ltb_spec 16672 (Z.of_nat (length (rp_to_bytes x)))); [lia|].
    rewrite Nat2Z.id.
    change (rp_to_bytes x ++ post) with (id (rp_to_bytes x) ++ post).
    rd_step; [|done]. cbn [id].
    assert (rp_from_bytes (rp_to_bytes x) = Some x) as -> by by apply rp_from_bytes_spec.
    by rewrite <- (assoc_L (++)).
  - safe_read.
  - intros Hr. inv_read Hr.
    destruct (_ || _) eqn:E1; [done|]. destruct (negb _) eqn:E2 in Hr; [done|].
    destruct (Z.ltb_spec range_max_size x0) as [|Hmax]; [done|].
    inv_read Hr. destruct (rp_from_bytes x1) as [p|] eqn:Hp; [|done].
    apply rp_from_bytes_spec in Hp. injection Hr as <- <-. simpl in *. subst x1.
    unfold range_wf, in_u in *. split; [lia|]. exists post1. unfold range_enc. subst post0 post.
    rewrite Hwf0, wrap_small, Z2Nat.id by (unfold in_u; lia).
    by rewrite <- !(assoc_L (++)).
Qed.
#[export] Instance RangeProof_SerOk : SerOk range_proof :=
  mk_SerOk range_enc _ range_append (codec_of range_codec).
#[export] Instance RangeProof_SerCanon : SerCanon range_proof.
Proof. by eapply (mk_SerCanon range_enc), range_codec; [apply range_append|]. Qed.
#[export] Instance RangeProof_SerSize : SerSize range_proof.
Proof. constructor. by intros p _. Qed.
End Proofs.

(** ** transaction/mod.rs *)

Record Reference := mkReference { ref_hash : Hash; ref_topoheight : Z }.

#[export] Instance Reference_eq_dec : EqDecision Reference.
Proof. solve_decision. Defined.

Inductive Role := Sender | Receiver.

Record BurnPayload := mkBurn { burn_asset : Hash; amount : Z }.

Section Types.
Context {CV : Curve}.

Record SourceCommitment := mkSourceCommitment {
  sc_commitment : CompressedCommitment;
  sc_proof : CommitmentEqProof;
  sc_asset : Hash;
}.

Record TransferPayload := mkTransfer {
  tr_asset : Hash;
  destination : CompressedPublicKey;
  extra_data : option UnknownExtraDataFormat;
  tr_commitment : CompressedCommitment;
  sender_handle : CompressedHandle;
  receiver_handle : CompressedHandle;
  ct_validity_proof : CiphertextValidityProof;
}.

Inductive TransactionType :=
  | Transfers (transfers : list TransferPayload)
  | Burn (payload : BurnPayload).

Context {ML : Merlin} {RP : RangeProofLib}.

Record Transaction := mkTransaction {
  version : Z;
  source : CompressedPublicKey;
  data : TransactionType;
  fee : Z;
  nonce : Z;
  source_commitments : list SourceCommitment;
  tx_range_proof : range_proof;
  reference : Reference;
  signature : Signature;
}.

Definition transaction_new (source : CompressedPublicKey) (data : TransactionType) (fee nonce : Z)
    (source_commitments : list SourceCommitment) (range_proof : range_proof)
    (reference : Reference) (signature : Signature) : Transaction :=
  mkTransaction 0 source data fee nonce source_commitments range_proof reference signature.

Definition get_ciphertext (p : TransferPayload) (role : Role) : CompressedCiphertext :=
  let handle := match role with Receiver => p.(receiver_handle) | Sender => p.(sender_handle) end in
  mkCompressedCiphertext p.(tr_commitment) handle.
End Types.

(** *** Serialization *)

#[export] Instance Reference_Serializer : Serializer Reference := {|
  write x w :=
    let w := write x.(ref_hash) w in
    Writer.write_u64 x.(ref_topoheight) w;
  read := hash ← read (A:=Hash); topoheight ← Reader.read_u64; mret (mkReference hash topoheight);
  size x := (size x.(ref_hash) + 8)%nat;
|}.
Definition reference_enc (x : Reference) : list byte :=
  to_bytes x.(ref_hash) ++ be_bytes 8 x.(ref_topoheight).
Lemma reference_append x w : write x w = Writer.write_bytes (reference_enc x) w.
Proof. cbn [write Reference_Serializer]. by autorewrite with ser. Qed.
Lemma reference_codec : CodecCanon Reference reference_enc read (fun x => in_u 64 x.(ref_topoheight)).
Proof. record_codec reference_enc idtac. Qed.
#[export] Instance Reference_SerOk : SerOk Reference :=
  mk_SerOk reference_enc _ reference_append (codec_of reference_codec).
#[export] Instance Reference_SerCanon : SerCanon Reference.
Proof. by eapply (mk_SerCanon reference_enc), reference_codec; [apply reference_append|]. Qed.
#[export] Instance Reference_SerSize : SerSize Reference.
Proof.
  constructor. intros x _. rewrite (to_bytes_enc reference_enc) by apply reference_append.
  unfold reference_enc. rewrite length_app, <- ser_size, length_be_bytes by done. done.
Qed.

#[export] Instance Burn_Serializer : Serializer BurnPayload := {|
  write x w :=
    let w := write x.(burn_asset) w in
    Writer.write_u64 x.(amount) w;
  read := asset ← read (A:=Hash); amount ← Reader.read_u64; mret (mkBurn asset amount);
  size x := (size x.(burn_asset) + 8)%nat;
|}.
Definition burn_enc (x : BurnPayload) : list byte := to_bytes x.(burn_asset) ++ be_bytes 8 x.(amount).
Lemma burn_append x w : write x w = Writer.write_bytes (burn_enc x) w.
Proof. cbn [write Burn_Serializer]. by autorewrite with ser. Qed.
Lemma burn_codec : CodecCanon BurnPayload burn_enc read (fun x => in_u 64 x.(amount)).
Proof. record_codec burn_enc idtac. Qed.
#[export] Instance Burn_SerOk : SerOk BurnPayload :=
  mk_SerOk burn_enc _ burn_append (codec_of burn_codec).
#[export] Instance Burn_SerCanon : SerCanon BurnPayload.
Proof. by eapply (mk_SerCanon burn_enc), burn_codec; [apply burn_append|]. Qed.
#[export] Instance Burn_SerSize : SerSize BurnPayload.
Proof.
  constructor. intros x _. rewrite (to_bytes_enc burn_enc) by apply burn_append.
  unfold burn_enc. rewrite length_app, <- ser_size, length_be_bytes by done. done.
Qed.

Section Serialization.
Context {CV : Curve}.

#[export] Instance SourceCommitment_Serializer : Serializer SourceCommitment := {|
  write x w :=
    let w := write x.(sc_commitment) w in
    let w := write x.(sc_proof) w in
    write x.(sc_asset) w;
  read :=
    commitment ← read (A:=CompressedCommitment);
    proof ← read (A:=CommitmentEqProof);
    asset ← read (A:=Hash);
    mret (mkSourceCommitment commitment proof asset);
  size x := (size x.(sc_commitment) + size x.(sc_proof) + size x.(sc_asset))%nat;
|}.
Definition sc_enc (x : SourceCommitment) : list byte :=
  to_bytes x.(sc_commitment) ++ to_bytes x.(sc_proof) ++ to_bytes x.(sc_asset).
Lemma sc_append x w : write x w = Writer.write_bytes (sc_enc x) w.
Proof. cbn [write SourceCommitment_Serializer]. by autorewrite with ser. Qed.
Lemma sc_codec : CodecCanon SourceCommitment sc_enc read (fun _ => True).
Proof. record_codec sc_enc idtac. Qed.
#[export] Instance SourceCommitment_SerOk : SerOk SourceCommitment :=
  mk_SerOk sc_enc _ sc_append (codec_of sc_codec).
#[export] Instance SourceCommitment_SerCanon : SerCanon SourceCommitment.
Proof. by eapply (mk_SerCanon sc_enc), sc_codec; [apply sc_append|]. Qed.
#[export] Instance SourceCommitment_SerSize : SerSize SourceCommitment.
Proof.
  constructor. intros x _. rewrite (to_bytes_enc sc_enc) by apply sc_append.
  unfold sc_enc. rewrite !length_app, <- !ser_size by done. cbn [size SourceCommitment_Serializer]. lia.
Qed.

#[export] Instance Transfer_Serializer : Serializer TransferPayload := {|
  write x w :=
    let w := write x.(tr_asset) w in
    let w := write x.(destination) w in
    let w := write x.(extra_data) w in
    let w := write x.(tr_commitment) w in
    let w := write x.(sender_handle) w in
    let w := write x.(receiver_handle) w in
    write x.(ct_validity_proof) w;
  read :=
    asset ← read (A:=Hash);
    destination ← read (A:=CompressedPublicKey);
    extra_data ← read (A:=option UnknownExtraDataFormat);
    commitment ← read (A:=CompressedCommitment);
    sender_handle ← read (A:=CompressedHandle);
    receiver_handle ← read (A:=CompressedHandle);
    ct_validity_proof ← read (A:=CiphertextValidityProof);
    mret (mkTransfer asset destination extra_data commitment sender_handle receiver_handle
            ct_validity_proof);
  size x :=
    (size x.(tr_asset) + size x.(destination) + size x.(extra_data) + size x.(tr_commitment)
     + size x.(sender_handle) + size x.(receiver_handle) + size x.(ct_validity_proof))%nat;
|}.
Definition transfer_enc (x : TransferPayload) : list byte :=
  to_bytes x.(tr_asset) ++ to_bytes x.(destination) ++ to_bytes x.(extra_data) ++
  to_bytes x.(tr_commitment) ++ to_bytes x.(sender_handle) ++ to_bytes x.(receiver_handle) ++
  to_bytes x.(ct_validity_proof).
Lemma transfer_append x w : write x w = Writer.write_bytes (transfer_enc x) w.
Proof. cbn [write Transfer_Serializer]. by autorewrite with ser. Qed.
Lemma transfer_codec :
  CodecCanon TransferPayload transfer_enc read (fun x => ser_wf x.(extra_data)).
Proof. record_codec transfer_enc idtac. Qed.
#[export] Instance Transfer_SerOk : SerOk TransferPayload :=
  mk_SerOk transfer_enc _ transfer_append (codec_of transfer_codec).
#[export] Instance Transfer_SerCanon : SerCanon TransferPayload.
Proof. by eapply (mk_SerCanon transfer_enc), transfer_codec; [apply transfer_append|]. Qed.
#[export] Instance Transfer_SerSize : SerSize TransferPayload.
Proof.
  constructor. intros x Hx. rewrite (to_bytes_enc transfer_enc) by apply transfer_append.
  unfold transfer_enc. rewrite !length_app, <- !ser_size by done.
  cbn [size Transfer_Serializer]. lia.
Qed.
End Serialization.

(** The sum of the sizes of a list, as the code accumulates it. *)
Lemma foldl_size `{SerSize A} n (l : list A) :
  Forall ser_wf l ->
  foldl (fun acc x => (acc + size x)%nat) n l = (n + length (concat_bytes to_bytes l))%nat.
Proof.
  intros Hl. revert n. induction Hl as [|x l Hx Hl IH]; intros n; simpl; [lia|].
  rewrite IH, concat_bytes_cons, length_app, ser_size by done. lia.
Qed.

Section TxType.
Context {CV : Curve}.

Definition count_ok (n : nat) : Prop := (1 <= n <= MAX_TRANSFER_COUNT)%nat.

#[export] Instance TransactionType_Serializer : Serializer TransactionType := {|
  write x w :=
    match x with
    | Burn payload => write payload (Writer.write_u8 0 w)
    | Transfers txs =>
        let w := Writer.write_u8 1 w in
        let len := wrap 8 (Z.of_nat (length txs)) in
        let w := Writer.write_u8 len w in
        foldl (fun w tx => write tx w) w txs
    end;
  read :=
    tag ← Reader.read_u8;
    if tag =? 0 then
      payload ← read (A:=BurnPayload);
      mret (Burn payload)
    else if tag =? 1 then
      txs_count ← Reader.read_u8;
      if (txs_count =? 0) || (Z.of_nat MAX_TRANSFER_COUNT <? txs_count) then rd_err InvalidSize
      else
        txs ← read_n (read (A:=TransferPayload)) (Z.to_nat txs_count);
        mret (Transfers txs)
    else rd_err InvalidValue;
  size x :=
    match x with
    | Burn payload => (1 + size payload)%nat
    | Transfers txs => foldl (fun acc tx => (acc + size tx)%nat) (1 + 1)%nat txs
    end;
|}.

Definition type_enc (x : TransactionType) : list byte :=
  match x with
  | Burn payload => u8_bytes 0 ++ to_bytes payload
  | Transfers txs =>
      u8_bytes 1 ++ u8_bytes (wrap 8 (Z.of_nat (length txs))) ++ concat_bytes to_bytes txs
  end.
Definition type_wf (x : TransactionType) : Prop :=
  match x with
  | Burn payload => ser_wf payload
  | Transfers txs => count_ok (length txs) /\ Forall ser_wf txs
  end.

Lemma type_append x w : write x w = Writer.write_bytes (type_enc x) w.
Proof.
  destruct x; cbn [write TransactionType_Serializer type_enc]; by autorewrite with ser.
Qed.

Lemma count_checks n :
  count_ok n ->
  wrap 8 (Z.of_nat n) = Z.of_nat n /\ in_u 8 (Z.of_nat n) /\
  (Z.of_nat n =? 0) || (Z.of_nat MAX_TRANSFER_COUNT <? Z.of_nat n) = false.
Proof.
  unfold count_ok, MAX_TRANSFER_COUNT. intros Hn.
  assert (in_u 8 (Z.of_nat n)) as Hr by (unfold in_u; lia).
  rewrite wrap_small by done. do 2 (split; [done|]).
  apply orb_false_intro; [apply Z.eqb_neq; lia|apply Z.ltb_ge; lia].
Qed.

Lemma count_checks_inv z :
  in_u 8 z -> (z =? 0) || (Z.of_nat MAX_TRANSFER_COUNT <? z) = false ->
  count_ok (Z.to_nat z) /\ wrap 8 (Z.of_nat (Z.to_nat z)) = z.
Proof.
  unfold count_ok, MAX_TRANSFER_COUNT. intros Hz [H1 H2]%orb_false_elim.
  apply Z.eqb_neq in H1. apply Z.ltb_ge in H2. unfold in_u in *.
  rewrite Z2Nat.id by lia. split; [lia|]. by apply wrap_small.
Qed.

Lemma type_codec : CodecCanon TransactionType type_enc read type_wf.
Proof.
  apply mk_codec_canon.
  - intros [txs|payload] pre post; cbn [type_wf type_enc].
    + intros [Hc Hf]. destruct (count_checks _ Hc) as (-> & Hu & Hb).
      unfold_read. rewrite <- !(assoc_L (++)). rd_step; [|done]. cbn [Z.eqb Pos.eqb].
      rd_step; [|done]. rewrite Hb, Nat2Z.id. rd_step; [|done].
      by rewrite <- !(assoc_L (++)).
    + intros Hp. unfold_read. rewrite <- !(assoc_L (++)). rd_step; [|done].
      cbn [Z.eqb Pos.eqb]. rd_step; [|done]. by rewrite <- !(assoc_L (++)).
  - safe_read.
  - intros pre post x r Hr. inv_read Hr.
    destruct (Z.eqb_spec x0 0) as [->|_]; [|destruct (Z.eqb_spec x0 1) as [->|_]; [|done]].
    + inv_read Hr. subst. split; [done|]. exists post1. simpl. by rewrite <- !(assoc_L (++)).
    + inv_read Hr. destruct (_ || _) eqn:Hb; [done|]. inv_read Hr. subst.
      destruct (count_checks_inv _ Hwf0 Hb) as [Hc Hw]. destruct Hwf1 as [Hl Hf].
      split; [split; [by rewrite Hl|done]|]. exists post2. cbn [type_enc].
      rewrite Hl, Hw. by rewrite <- !(assoc_L (++)).
Qed.
#[export] Instance TransactionType_SerOk : SerOk TransactionType :=
  mk_SerOk type_enc type_wf type_append (codec_of type_codec).
#[export] Instance TransactionType_SerCanon : SerCanon TransactionType.
Proof. by eapply (mk_SerCanon type_enc type_wf), type_codec; [apply type_append|]. Qed.
#[export] Instance TransactionType_SerSize : SerSize TransactionType.
Proof.
  constructor. intros [txs|payload] Hx; rewrite (to_bytes_enc type_enc) by apply type_append;
    cbn [type_enc size TransactionType_Serializer]; rewrite !length_app.
  - destruct Hx as [_ Hf]. rewrite foldl_size by done. simpl. lia.
  - by rewrite <- ser_size.
Qed.

Context {ML : Merlin} {RP : RangeProofLib}.

#[export] Instance Transaction_Serializer : Serializer Transaction := {|
  write x w :=
    let w := Writer.write_u8 x.(version) w in
    let w := write x.(source) w in
    let w := write x.(data) w in
    let w := Writer.write_u64 x.(fee) w in
    let w := Writer.write_u64 x.(nonce) w in
    let w := Writer.write_u8 (wrap 8 (Z.of_nat (length x.(source_commitments)))) w in
    let w := foldl (fun w commitment => write commitment w) w x.(source_commitments) in
    let w := write x.(tx_range_proof) w in
    let w := write x.(reference) w in
    write x.(signature) w;
  read :=
    version ← Reader.read_u8;
    if negb (version =? 0) then rd_err InvalidValue
    else
      source ← read (A:=CompressedPublicKey);
      data ← read (A:=TransactionType);
      fee ← Reader.read_u64;
      nonce ← Reader.read_u64;
      commitments_len ← Reader.read_u8;
      if (commitments_len =? 0) || (Z.of_nat MAX_TRANSFER_COUNT <? commitments_len)
      then rd_err InvalidSize
      else
        source_commitments ← read_n (read (A:=SourceCommitment)) (Z.to_nat commitments_len);
        range_proof ← read (A:=range_proof);
        reference ← read (A:=Reference);
        signature ← read (A:=Signature);
        mret (mkTransaction version source data fee nonce source_commitments range_proof
                reference signature);
  size x :=
    (1 + size x.(source) + size x.(data) + 8 + 8 + 1
     + foldl (fun acc c => (acc + size c)%nat) 0%nat x.(source_commitments)
     + size x.(tx_range_proof) + size x.(reference) + size x.(signature))%nat;
|}.

Definition transaction_enc (x : Transaction) : list byte :=
  u8_bytes x.(version) ++ to_bytes x.(source) ++ to_bytes x.(data) ++
  be_bytes 8 x.(fee) ++ be_bytes 8 x.(nonce) ++
  u8_bytes (wrap 8 (Z.of_nat (length x.(source_commitments)))) ++
  concat_bytes to_bytes x.(source_commitments) ++
  to_bytes x.(tx_range_proof) ++ to_bytes x.(reference) ++ to_bytes x.(signature).
Definition transaction_wf (x : Transaction) : Prop :=
  x.(version) = 0 /\ ser_wf x.(data) /\ in_u 64 x.(fee) /\ in_u 64 x.(nonce) /\
  count_ok (length x.(source_commitments)) /\
  ser_wf x.(tx_range_proof) /\ ser_wf x.(reference).

Lemma transaction_append x w : write x w = Writer.write_bytes (transaction_enc x) w.
Proof.
  cbn [write Transaction_Serializer]. rewrite (ser_append (tx_range_proof x)).
  autorewrite with ser. unfold transaction_enc. by rewrite <- !(assoc_L (++)).
Qed.

Lemma all_sc_wf (l : list SourceCommitment) : Forall ser_wf l.
Proof. by apply list.Forall_forall. Qed.

Lemma transaction_codec : CodecCanon Transaction transaction_enc read transaction_wf.
Proof.
  apply mk_codec_canon.
  - intros x pre post (Hv & Hd & Hf & Hn & Hc & Hr & Href).
    destruct (count_checks _ Hc) as (Hw & Hu & Hb).
    unfold transaction_enc. rewrite Hw, Hv. unfold_read. rewrite <- !(assoc_L (++)).
    rd_step; [|done]. cbn [Z.eqb negb]. do 5 (rd_step; [|done]).
    rewrite Hb, Nat2Z.id. rd_step; [|by split; [|apply all_sc_wf]].
    do 3 (rd_step; [|done]). rewrite <- !(assoc_L (++)). destruct x; simpl in *; by subst.
  - safe_read.
  - intros pre post x r Hr. inv_read Hr. destruct (Z.eqb_spec x0 0) as [->|]; [|done].
    cbn [negb] in Hr. inv_read Hr.
    destruct (_ || _) eqn:Hb; [done|]. inv_read Hr. subst. destruct Hwf5 as [Hl _].
    destruct (count_checks_inv _ Hwf4 Hb) as [Hc Hw]. rewrite <- Hl in Hc, Hw.
    split; [by repeat match goal with |- _ /\ _ => split end|]. exists post9.
    unfold transaction_enc.
    cbn [version source data fee nonce source_commitments tx_range_proof reference signature].
    rewrite Hw. by rewrite <- !(assoc_L (++)).
Qed.
#[export] Instance Transaction_SerOk : SerOk Transaction :=
  mk_SerOk transaction_enc transaction_wf transaction_append (codec_of transaction_codec).
#[export] Instance Transaction_SerCanon : SerCanon Transaction.
Proof. by eapply (mk_SerCanon transaction_enc), transaction_codec; [apply transaction_append|]. Qed.
End TxType.

(** ** Properties *)

Section Properties.
Context {CV : Curve} {ML : Merlin} {RP : RangeProofLib}.

Lemma transaction_bytes (x : Transaction) : to_bytes x = transaction_enc x.
Proof. apply to_bytes_enc, transaction_append. Qed.

(** C35: a transaction of version 0 whose integers are in range, with 1 to 255
    transfers (or a burn), 1 to 255 commitments and a range proof of an
    accepted length is read back unchanged wherever its bytes stand in a
    buffer: the reader ends just after them and leaves the rest unread.  [size]
    is the exact number of these bytes. *)
Theorem transaction_roundtrip (x : Transaction) (pre post : list byte) (Hx : transaction_wf x) :
  read (reader_at pre (to_bytes x ++ post)) = Ok (x, reader_at (pre ++ to_bytes x) post) /\
  from_bytes (to_bytes x) = Ok x /\ size x = length (to_bytes x).
Proof.
  split; [rewrite transaction_bytes; by apply (@codec_rt _ _ _ _ (codec_of transaction_codec))|].
  split; [by apply from_bytes_to_bytes|].
  destruct Hx as (_ & Hd & _ & _ & _ & Hr & Href).
  rewrite transaction_bytes. unfold transaction_enc. cbn [size Transaction_Serializer].
  rewrite foldl_size by apply all_sc_wf. rewrite !length_app, !length_be_bytes.
  rewrite <- (ser_size x.(source)), <- (ser_size x.(data)), <- (ser_size x.(tx_range_proof)),
    <- (ser_size x.(reference)), <- (ser_size x.(signature)) by done.
  simpl length. lia.
Qed.

(** Reading a transaction never panics on any buffer, and what is accepted
    is canonical: the value read satisfies the format's invariant and the
    buffer starts with exactly the bytes that value serializes to. *)
Theorem transaction_read_canonical (b : list byte) :
  from_bytes (A:=Transaction) b <> Panic /\
  forall x, from_bytes (A:=Transaction) b = Ok x ->
    transaction_wf x /\ exists rest, b = to_bytes x ++ rest.
Proof.
  split; [|intros x Hx; by apply from_bytes_sound in Hx].
  unfold from_bytes. rewrite reader_new_at. apply res_bind_panic; [|done].
  apply codec_no_panic.
Qed.
End Properties.

#[local] Existing Instances curve_model merlin_model range_proof_model.

Definition w_point : CompressedRistretto := mkRistretto (vreplicate 32 x05).
Lemma w_range_ok : rp_ok (replicate 288 x00).
Proof. split; rewrite length_replicate; [done|lia]. Qed.
Definition w_range : range_proof := dexist (P:=rp_ok) (replicate 288 x00) w_range_ok.
Definition w_tx : Transaction :=
  transaction_new (mkPublicKey w_point) (Burn (mkBurn HashOps.zero 12)) 100 7
    [mkSourceCommitment (mkCommitment w_point)
       (mkEqProof w_point w_point w_point (fs 1) (fs 2) (fs 3)) HashOps.zero]
    w_range (mkReference HashOps.max 55) (mkSignature (fs 4) (fs 5)).

Lemma transaction_roundtrip_witness :
  read (reader_at [x07] (to_bytes w_tx ++ [x09; x01])) = Ok (w_tx, reader_at ([x07] ++ to_bytes w_tx) [x09; x01]) /\
  from_bytes (to_bytes w_tx) = Ok w_tx /\ size w_tx = length (to_bytes w_tx).
Proof.
  apply (transaction_roundtrip w_tx [x07] [x09; x01]). unfold transaction_wf, count_ok.
  repeat match goal with |- _ /\ _ => split end;
    first [done | apply (bool_decide_unpack _); vm_compute; exact I].
Defined.

Lemma transaction_read_canonical_witness :
  from_bytes (A:=Transaction) (to_bytes w_tx) <> Panic /\
  forall x, from_bytes (A:=Transaction) (to_bytes w_tx) = Ok x ->
    transaction_wf x /\ exists rest, to_bytes w_tx = to_bytes x ++ rest.
Proof. apply (transaction_read_canonical (to_bytes w_tx)). Defined.
