(* ===== verification/Address.v ===== *)
(** [xelis_common::crypto::address]: an address is a key, the network it is for
    and, for an integrated address, data of the application, with its text
    form. *)

From S2P Require Import Prelude External ExternalCrypto Serializer Hash Defaults Text Data Bech32 Elgamal Transaction.

(** [config.rs] *)
Definition PREFIX_ADDRESS : RString := lit "xel".
Definition TESTNET_PREFIX_ADDRESS : RString := lit "xet".

Module AddressType.
Inductive AddressType := Normal | Data (_ : DataElement).

Section Codec.
Context {HO : HashOrder}.

#[global] Instance serializer : Serializer AddressType := {|
  write t w :=
    match t with
    | Normal => Writer.write_u8 0 w
    | Data data => write data (Writer.write_u8 1 w)
    end;
  read :=
    t ← Reader.read_u8;
    match t with
    | 0 => mret Normal
    | 1 => fun reader =>
        let start := Reader.total_read reader in
        '(data, reader) ← read (A:=DataElement) reader;
        if bool_decide (EXTRA_DATA_LIMIT_SIZE < Reader.total_read reader - start)%nat
        then Err InvalidSize
        else Ok (Data data, reader)
    | _ => rd_err Serializer.InvalidValue
    end;
  size t := match t with Normal => 1%nat | Data data => (1 + size data)%nat end;
|}.
End Codec.
End AddressType.
Abbreviation AddressType := AddressType.AddressType.

Record Address := mkAddress { mainnet : bool; addr_type : AddressType; key : CompressedPublicKey }.

(** The errors of [from_string]. *)
Inductive AddressError := TextError (_ : Bech32Error) | ReadError (_ : ReaderError).

Section Address.
Context {HO : HashOrder}.
Implicit Types a : Address.

Definition new (mainnet : bool) (addr_type : AddressType) (key : CompressedPublicKey) : Address :=
  mkAddress mainnet addr_type key.

Definition split a : CompressedPublicKey * AddressType := (a.(key), a.(addr_type)).

(** The data is taken out of the address, which becomes a normal one. *)
Definition extract_data_only a : option DataElement * Address :=
  let taken := a.(addr_type) in
  let a := mkAddress a.(mainnet) AddressType.Normal a.(key) in
  match taken with
  | AddressType.Data data => (Some data, a)
  | AddressType.Normal => (None, a)
  end.

Definition extract_data a : option DataElement * Address :=
  match a.(addr_type) with
  | AddressType.Data data => (Some data, new a.(mainnet) AddressType.Normal a.(key))
  | AddressType.Normal => (None, a)
  end.

Definition get_extra_data a : option DataElement :=
  match a.(addr_type) with AddressType.Data data => Some data | _ => None end.

Definition is_normal a : bool :=
  match a.(addr_type) with AddressType.Normal => true | _ => false end.

Definition get_data a (name : RString) (value_type : ValueType) : option DataValue :=
  match a.(addr_type) with
  | AddressType.Normal => None
  | AddressType.Data data => DataElement.get_value_by_string_key data name value_type
  end.

Definition compress a : list byte := wbytes (write a.(addr_type) (write a.(key) Writer.new)).

Definition decompress (bytes : list byte) (hrp : RString) : res ReaderError Address :=
  let reader := Reader.new bytes in
  let mainnet := bool_decide (hrp = PREFIX_ADDRESS) in
  '(key, reader) ← read (A:=CompressedPublicKey) reader;
  '(addr_type, reader) ← read (A:=AddressType) reader;
  Ok (new mainnet addr_type key).

Context {UC : UnicodeCase}.

Definition as_string a : res Bech32Error RString :=
  bits ← convert_bits (compress a) 8 5 true;
  let hrp := if a.(mainnet) then PREFIX_ADDRESS else TESTNET_PREFIX_ADDRESS in
  encode hrp bits.

Definition from_string (address : RString) : res AddressError Address :=
  '(hrp, decoded) ← map_err TextError (decode address);
  if bool_decide (hrp <> PREFIX_ADDRESS /\ hrp <> TESTNET_PREFIX_ADDRESS)
  then Err (TextError (InvalidPrefix hrp (lit "xel or xet")))
  else
    bits ← map_err TextError (convert_bits decoded 5 8 false);
    addr ← map_err ReadError (decompress bits hrp);
    if bool_decide ((addr.(mainnet) = true /\ hrp <> PREFIX_ADDRESS) \/
                    (addr.(mainnet) = false /\ hrp <> TESTNET_PREFIX_ADDRESS))
    then
      let expected := if addr.(mainnet) then PREFIX_ADDRESS else TESTNET_PREFIX_ADDRESS in
      Err (TextError (InvalidPrefix hrp expected))
    else Ok addr.
End Address.

(** ** Facts *)

Section AddressFacts.
Context {HO : HashOrder}.

Definition type_wf (t : AddressType) : Prop :=
  match t with
  | AddressType.Normal => True
  | AddressType.Data data => element_wf data /\ (size data <= EXTRA_DATA_LIMIT_SIZE)%nat
  end.

(** What an address says: the order of the entries of its maps is not a part of it. *)
Inductive type_equiv : Equiv AddressType :=
  | equiv_normal : AddressType.Normal ≡ AddressType.Normal
  | equiv_data e e' : e ≡ e' -> AddressType.Data e ≡ AddressType.Data e'.
#[export] Existing Instance type_equiv.

#[export] Instance address_equiv : Equiv Address := fun a b =>
  a.(mainnet) = b.(mainnet) /\ a.(key) = b.(key) /\ a.(addr_type) ≡ b.(addr_type).

#[export] Instance type_equivalence : Equivalence (≡@{AddressType}).
Proof.
  split.
  - by intros []; constructor.
  - by intros ? ? []; constructor.
  - intros ? ? ? H1 H2. inversion H1; subst; inversion H2; subst; constructor. by etransitivity.
Qed.

#[export] Instance address_equivalence : Equivalence (≡@{Address}).
Proof.
  split.
  - by intros a; repeat split.
  - intros a b (H1 & H2 & H3). by repeat split.
  - intros a b c (H1 & H2 & H3) (H4 & H5 & H6). split; [congruence|]. split; [congruence|]. by etransitivity.
Qed.

(** The bytes of an address. *)
Definition type_enc (t : AddressType) : list byte :=
  match t with
  | AddressType.Normal => u8_bytes 0
  | AddressType.Data data => u8_bytes 1 ++ element_enc data
  end.

Lemma compress_eq a : compress a = to_bytes a.(key) ++ type_enc a.(addr_type).
Proof.
  unfold compress. rewrite (ser_append a.(key)).
  destruct (addr_type a) as [|e]; cbn [write AddressType.serializer DataElement.serializer type_enc].
  - by rewrite write_u8_append, wbytes_write_bytes.
  - by rewrite write_element_append, write_u8_append, write_bytes_write_bytes, wbytes_write_bytes.
Qed.

Lemma read_type_run t pre post :
  type_wf t -> exists t', t ≡ t' /\
    read (reader_at pre (type_enc t ++ post)) = Ok (t', reader_at (pre ++ type_enc t) post).
Proof.
  destruct t as [|e]; intros Hwf; cbn [type_enc].
  { exists AddressType.Normal. split; [done|]. unfold_read. by rewrite (run_bind (dec:=Reader.read_u8)). }
  destruct Hwf as [Hwf Hsize].
  destruct (read_element_run e (S (length (element_enc e ++ post))) (pre ++ u8_bytes 1) post Hwf) as (y & Hy & Hrun).
  { rewrite length_app. lia. }
  exists (AddressType.Data y). split; [by constructor|]. unfold_read. rewrite <- (assoc_L (++)).
  rewrite (run_bind (dec:=Reader.read_u8)) by (unfold in_u; lia).
  cbn [read DataElement.serializer]. rewrite reader_size_at, Hrun. cbn [mbind res_bind].
  rewrite bool_decide_false; [by rewrite <- (assoc_L (++))|].
  cbn [reader_at Reader.total_read total]. rewrite !length_app.
  change (size e) with (DataElement.size_element e) in Hsize. rewrite size_element_spec in Hsize. lia.
Qed.

Lemma read_type_safe pre post : reads (fun t _ => type_wf t) pre post (read (A:=AddressType) (reader_at pre post)).
Proof.
  unfold_read. apply reads_u8. intros t b p _ ->.
  destruct t as [|[?|?|]|]; try done; [by apply reads_ret|].
  cbn [read DataElement.serializer]. rewrite reader_size_at.
  pose proof (read_element_safe (S (length p)) (pre ++ [b]) p ltac:(lia)) as Hs.
  destruct (DataElement.read_element _ _) as [[e r]| | |]; try done. cbn [mbind res_bind].
  destruct Hs as (c & p' & [Hwf Hlen] & -> & ->). case_bool_decide as Hlim; [done|].
  exists c, p'. split; [|done]. split; [done|].
  cbn [reader_at Reader.total_read total] in Hlim. rewrite !length_app in Hlim.
  change (size e) with (DataElement.size_element e). rewrite size_element_spec. lia.
Qed.

Lemma address_decompress a hrp :
  type_wf a.(addr_type) -> bool_decide (hrp = PREFIX_ADDRESS) = a.(mainnet) ->
  exists a', decompress (compress a) hrp = Ok a' /\ a ≡ a'.
Proof.
  intros Hwf Hhrp. destruct (read_type_run a.(addr_type) (to_bytes a.(key)) [] Hwf) as (t' & Ht & Hrun).
  exists (mkAddress a.(mainnet) t' a.(key)). split; [|by repeat split].
  unfold decompress. rewrite compress_eq, reader_new_at.
  pose proof (codec_rt (dec:=read (A:=CompressedPublicKey)) a.(key) [] (type_enc a.(addr_type))) as Hk.
  rewrite Hk by done. cbn [mbind res_bind app].
  rewrite app_nil_r in Hrun. rewrite Hrun, Hhrp. done.
Qed.

Lemma decompress_safe bytes hrp :
  match decompress bytes hrp with Ok a => type_wf a.(addr_type) | Err _ => True | _ => False end.
Proof.
  unfold decompress. rewrite reader_new_at. pose proof (reads_codec (dec:=read (A:=CompressedPublicKey)) [] bytes) as Hk.
  destruct (read _) as [[k r]| | |]; try done. destruct Hk as (c & p & _ & -> & ->). cbn [mbind res_bind].
  pose proof (read_type_safe ([] ++ c) p) as Ht. destruct (read _) as [[t r]| | |]; try done.
  by destruct Ht as (? & ? & Ht & _).
Qed.

Context {UC : UnicodeCase}.

Lemma prefix_facts (b : bool) :
  let hrp := if b then PREFIX_ADDRESS else TESTNET_PREFIX_ADDRESS in
  str_len hrp <> 0%nat /\ hrp_ok (str_bytes hrp) /\ (lower_byte <$> str_bytes hrp) = str_bytes hrp.
Proof. destruct b; simpl; (split_and!; [done|by apply (bool_decide_unpack _); vm_compute|done]). Qed.

Lemma prefix_ne : PREFIX_ADDRESS <> TESTNET_PREFIX_ADDRESS.
Proof. by apply (bool_decide_unpack _); vm_compute. Qed.

Lemma address_run a :
  type_wf a.(addr_type) ->
  exists s a', as_string a = Ok s /\ from_string s = Ok a' /\ a ≡ a'.
Proof.
  intros Hwf. destruct (convert_bits_roundtrip (compress a)) as (groups & Hto & Hg & _ & Hfrom).
  destruct (prefix_facts a.(mainnet)) as (H1 & H2 & H3).
  set (hrp := if a.(mainnet) then PREFIX_ADDRESS else TESTNET_PREFIX_ADDRESS) in *.
  destruct (decode_encode hrp groups) as (s & Henc & Hdec); [done..|].
  assert (bool_decide (hrp = PREFIX_ADDRESS) = a.(mainnet)) as Hm.
  { unfold hrp. pose proof prefix_ne. destruct (mainnet a); [by apply bool_decide_eq_true_2|].
    by apply bool_decide_eq_false_2. }
  destruct (address_decompress a hrp Hwf Hm) as (a' & Hdc & Ha). exists s, a'.
  split; [unfold as_string; by rewrite Hto|]. split; [|done].
  unfold from_string. rewrite Hdec. cbn [map_err mbind res_bind].
  rewrite bool_decide_false by (unfold hrp; destruct (mainnet a); naive_solver).
  rewrite Hfrom. cbn [map_err mbind res_bind]. rewrite Hdc. cbn [map_err mbind res_bind].
  destruct Ha as (Hnet & _). rewrite bool_decide_false; [done|].
  rewrite <- Hnet. unfold hrp. destruct (mainnet a); naive_solver.
Qed.

Lemma convert_back_safe vals :
  Forall (fun v => byte_val v < 32) vals ->
  match convert_bits vals 5 8 false with Panic | Diverge => False | _ => True end.
Proof.
  intros Hv. unfold convert_bits. rewrite !max_value_eq by lia.
  destruct (convert_fold_run 5 8 vals) as ([[acc bits] result] & -> & _); [lia|lia|done|].
  cbn [mbind res_bind]. destruct (5 <=? bits); [done|]. by case_bool_decide.
Qed.

Lemma from_string_safe s :
  match from_string s with Ok a => type_wf a.(addr_type) | Err _ => True | _ => False end.
Proof.
  unfold from_string. pose proof (decode_inv s) as Hd.
  destruct (decode s) as [[hrp data]| | |]; try done. destruct Hd as (check & cs & _ & _ & Hcs & _).
  cbn [map_err mbind res_bind]. case_bool_decide; [done|].
  pose proof (convert_back_safe data) as Hc. destruct (convert_bits data 5 8 false) as [bits| | |];
    [|done|destruct Hc; apply (char_values_small _ _ _ Hcs)..].
  cbn [map_err mbind res_bind]. pose proof (decompress_safe bits hrp) as Hdc.
  destruct (decompress bits hrp) as [a| | |]; try done. cbn [map_err mbind res_bind]. by case_bool_decide.
Qed.

(** C36: Every address has a text, and parsing the text gives the address back:
    the same network, the same key, and the same data up to the order of the
    entries of its maps, which the text does not keep. *)
Theorem address_roundtrip a (Hwf : type_wf a.(addr_type)) :
  exists s a', as_string a = Ok s /\ from_string s = Ok a' /\ a ≡ a'.
Proof. by apply address_run. Qed.

(** Whatever text is given, parsing it as an address ends, without a panic,
    either in an error or in a well-formed address: the numbers of its data fit
    their types, its strings, arrays and maps have at most 255 elements, the
    keys of a map are distinct and the data does not exceed its maximal size;
    such an address has a text that parses to itself again. *)
Theorem address_parsed_wf s :
  match from_string s with
  | Ok a => type_wf a.(addr_type) /\ exists t a', as_string a = Ok t /\ from_string t = Ok a' /\ a ≡ a'
  | Err _ => True
  | Panic | Diverge => False
  end.
Proof.
  pose proof (from_string_safe s) as Hs. destruct (from_string s) as [a| | |]; try done.
  split; [done|by apply address_run].
Qed.
End AddressFacts.

(** An integrated address with a map of two entries. *)
Definition order_model : HashOrder := {| hash_order A l := l; hash_order_perm A l := reflexivity l |}.

Definition w_data : DataElement :=
  DataElement.Fields
    [(DataValue.String (lit "id"), DataElement.Value (DataValue.U64 42));
     (DataValue.String (lit "tags"), DataElement.Array [DataElement.Value (DataValue.Bool true)])].
Definition w_address : Address :=
  mkAddress false (AddressType.Data w_data) (mkPublicKey (mkRistretto (vreplicate 32 x07))).

Lemma w_data_wf : type_wf (HO:=order_model) (AddressType.Data w_data).
Proof.
  split; [|apply (bool_decide_unpack _); by vm_compute].
  apply wf_fields; [by apply (bool_decide_unpack _)..|].
  repeat constructor; by apply (bool_decide_unpack _).
Qed.

Lemma address_roundtrip_witness :
  exists s a', as_string (HO:=order_model) (UC:=unicode_model) w_address = Ok s /\
    from_string (HO:=order_model) (UC:=unicode_model) s = Ok a' /\ w_address ≡ a'.
Proof. exact (address_roundtrip (HO:=order_model) (UC:=unicode_model) w_address w_data_wf). Defined.
