(* ===== verification/Mnemonics.v ===== *)
(** [xelis_wallet::mnemonics]: a private key in twenty-four words of a
    language and a checksum, the twenty-fifth, which is one of them. *)

From S2P Require Import Prelude External ExternalCrypto Serializer Hash Defaults Text Elgamal Languages.

Definition KEY_SIZE : nat := 32.
Definition SEED_LENGTH : nat := 24.
Definition WORDS : Z := Z.of_nat WORDS_LIST.

(** Crate [crc32fast]. *)
Class Crc32 := {
  crc32_hash : list byte -> Z;
  crc32_range l : in_u 32 (crc32_hash l);
}.

Inductive MnemonicError :=
  | InvalidNumberOfWords | InvalidChecksumIndex | InvalidChecksumWord | InvalidSeedChecksum
  | NoIndices | IndexOutOfBounds | SanityCheck | KeyError (_ : ReaderError)
  | InvalidLanguageIndex | InvalidWordListLength | InvalidKeyLength | NoChecksum.

Section Mnemonics.
Context {CRC : Crc32}.

(** The first characters of the words, one after the other. *)
Definition checksum_chars (ws : list RString) (prefix_len : nat) : list char :=
  foldl (fun all word =>
    let word_chars := chars word in
    let word_chars := if bool_decide (prefix_len < length word_chars)%nat then take prefix_len word_chars else word_chars in
    all ++ word_chars) [] ws.

Definition calculate_checksum_index (ws : list RString) (prefix_len : nat) : res MnemonicError Z :=
  if bool_decide (length ws <> SEED_LENGTH) then Err InvalidNumberOfWords
  else
    let value := mjoin (checksum_chars ws prefix_len : list (list byte)) in
    let checksum := crc32_hash value in
    Ok (checksum mod Z.of_nat SEED_LENGTH).

(** [&words[0..SEED_LENGTH]] panics when there are fewer words. *)
Definition seed_words (ws : list RString) : res MnemonicError (list RString) :=
  if bool_decide (SEED_LENGTH <= length ws)%nat then Ok (take SEED_LENGTH ws) else Panic.

Definition verify_checksum (ws : list RString) (prefix_len : nat) : res MnemonicError bool :=
  seed ← seed_words ws;
  checksum_index ← calculate_checksum_index seed prefix_len;
  checksum_word ← ok_or (ws !! Z.to_nat checksum_index) InvalidChecksumIndex;
  expected_checksum_word ← ok_or (ws !! SEED_LENGTH) InvalidChecksumWord;
  Ok (bool_decide (checksum_word = expected_checksum_word)).

(** The [HashMap] from the words of a language to their indices. *)
Definition language_words (language : Language) : gmap (list byte) Z :=
  foldl (fun m '(j, w) => <[str_bytes w := j]> m) ∅
    (list.imap (fun j w => (Z.of_nat j, w)) language.(words)).

(** The indices of all the words, if they all are in the map. *)
Fixpoint word_indices (m : gmap (list byte) Z) (ws : list RString) : option (list Z) :=
  match ws with
  | [] => Some []
  | word :: ws => index ← m !! str_bytes word; indices ← word_indices m ws; Some (index :: indices)
  end.

Fixpoint find_in (languages : list Language) (i : nat) (ws : list RString) : res MnemonicError (option (list Z * nat)) :=
  match languages with
  | [] => Ok None
  | language :: languages =>
      match word_indices (language_words language) ws with
      | None => find_in languages (S i) ws
      | Some indices =>
          valid ← verify_checksum ws language.(prefix_length);
          if negb valid then Err InvalidSeedChecksum else Ok (Some (indices, i))
      end
  end.
Definition find_indices (ws : list RString) : res MnemonicError (option (list Z * nat)) :=
  find_in LANGUAGES 0 ws.

(** One step of the loop of [words_to_key]: four bytes from three indices.  The
    arithmetic is that of [usize], and the value is truncated to an [u32]. *)
Definition indices_step (indices : list Z) (dest : list byte) (i : nat) : res MnemonicError (list byte) :=
  a ← ok_or (indices !! i) IndexOutOfBounds;
  b ← ok_or (indices !! (i + 1)%nat) IndexOutOfBounds;
  c ← ok_or (indices !! (i + 2)%nat) IndexOutOfBounds;
  let val :=
    u64_add (u64_add a (u64_mul WORDS (u64_add (u64_sub WORDS a) b mod WORDS)))
      (u64_mul (u64_mul WORDS WORDS) (u64_add (u64_sub WORDS b) c mod WORDS)) in
  if bool_decide (val mod WORDS <> a) then Err SanityCheck
  else
    let val := wrap 32 val in
    Ok (dest ++ rev (be_bytes 4 val)).

(** [(0..n).step_by(s)], for [n] a multiple of [s]. *)
Definition step_by (n s : nat) : list nat := (fun k => s * k)%nat <$> seq 0 (n / s).

(** [words_to_key] up to the bytes of the key. *)
Definition words_to_bytes (ws : list RString) : res MnemonicError (list byte) :=
  if bool_decide (length ws <> SEED_LENGTH + 1)%nat then Err InvalidNumberOfWords
  else
    found ← find_indices ws;
    '(indices, language_index) ← ok_or found NoIndices;
    foldM (indices_step indices) [] (step_by SEED_LENGTH 3).

(** One step of the loop of [key_to_words_with_language]: three words from
    four bytes. *)
Definition bytes_step (language : Language) (bytes : list byte) (ws : list RString) (i : nat) :
    res MnemonicError (list RString) :=
  b0 ← unwrap (bytes !! i); b1 ← unwrap (bytes !! (i + 1)%nat);
  b2 ← unwrap (bytes !! (i + 2)%nat); b3 ← unwrap (bytes !! (i + 3)%nat);
  let val := from_be (rev [b0; b1; b2; b3]) in
  let a := val mod WORDS in
  let b := (val / WORDS + a) mod WORDS in
  let c := (val / WORDS / WORDS + b) mod WORDS in
  wa ← unwrap (language.(words) !! Z.to_nat a);
  wb ← unwrap (language.(words) !! Z.to_nat b);
  wc ← unwrap (language.(words) !! Z.to_nat c);
  Ok (ws ++ [wa; wb; wc]).

Definition bytes_to_words (bytes : list byte) (language : Language) : res MnemonicError (list RString) :=
  if bool_decide (length language.(words) <> WORDS_LIST) then Err InvalidWordListLength
  else if bool_decide (length bytes <> KEY_SIZE) then Err InvalidKeyLength
  else
    ws ← foldM (bytes_step language bytes) [] (step_by KEY_SIZE 4);
    checksum ← calculate_checksum_index ws language.(prefix_length);
    word ← ok_or (ws !! Z.to_nat checksum) NoChecksum;
    Ok (ws ++ [word]).

Context {CV : Curve}.

Definition words_to_key (ws : list RString) : res MnemonicError Key.PrivateKey :=
  dest ← words_to_bytes ws;
  '(key, _) ← map_err KeyError (Key.private_read (Reader.new dest));
  Ok key.

Definition key_to_words_with_language (key : Key.PrivateKey) (language : Language) : res MnemonicError (list RString) :=
  bytes_to_words (wbytes (Key.private_write key Writer.new)) language.

Definition key_to_words (key : Key.PrivateKey) (language_index : nat) : res MnemonicError (list RString) :=
  language ← ok_or (LANGUAGES !! language_index) InvalidLanguageIndex;
  key_to_words_with_language key language.
End Mnemonics.

(** ** The tables *)

Fixpoint distinct_from (seen : gmap (list byte) ()) (l : list (list byte)) : bool :=
  match l with
  | [] => true
  | x :: l => match seen !! x with Some _ => false | None => distinct_from (<[x := ()]> seen) l end
  end.

Lemma distinct_from_spec seen l :
  distinct_from seen l = true -> NoDup l /\ Forall (fun x => seen !! x = None) l.
Proof.
  revert seen. induction l as [|x l IH]; intros seen; simpl; [by split; constructor|].
  destruct (seen !! x) eqn:Hx; [done|]. intros [Hn Hf]%IH. rewrite list.Forall_forall in Hf. split.
  - apply list.NoDup_cons. split; [|done]. intros Hin. specialize (Hf x Hin). by rewrite lookup_insert_eq in Hf.
  - constructor; [done|]. apply list.Forall_forall. intros y Hy. specialize (Hf y Hy).
    by apply lookup_insert_None in Hf as [? _].
Qed.

(** A table of distinct words, of the length the code expects. *)
Definition table_ok (ls : list literal) : bool :=
  (length ls =? WORDS_LIST)%nat && forallb (fun l => utf8_valid (literal_bytes l)) ls &&
  distinct_from ∅ (literal_bytes <$> ls).

Lemma table_words ls :
  table_ok ls = true -> length (word <$> ls) = WORDS_LIST /\ NoDup (str_bytes <$> (word <$> ls)).
Proof.
  unfold table_ok. rewrite !andb_true_iff. intros [[Hl%Nat.eqb_eq Hv] [Hd _]%distinct_from_spec].
  rewrite length_fmap. split; [done|]. replace (str_bytes <$> (word <$> ls)) with (literal_bytes <$> ls); [done|].
  rewrite <- list_fmap_compose. apply list_fmap_ext. intros i x Hx%list_elem_of_lookup_2.
  rewrite forallb_forall in Hv. specialize (Hv x). rewrite <- list_elem_of_In in Hv. unfold compose, word.
  destruct (from_utf8_valid _ (Hv Hx)) as (s & Hs & Hb). rewrite Hs. by symmetry.
Qed.

Lemma tables_ok :
  forallb table_ok
    [ENGLISH_literals; FRENCH_literals; ITALIAN_literals; SPANISH_literals; PORTUGUESE_literals;
     JAPANESE_literals; CHINESE_SIMPLIFIED_literals; RUSSIAN_literals; ESPERANTO_literals;
     DUTCH_literals; GERMAN_literals] = true.
Proof. vm_cast_no_check (eq_refl true). Qed.

#[local] Opaque ENGLISH_literals FRENCH_literals ITALIAN_literals SPANISH_literals PORTUGUESE_literals
  JAPANESE_literals CHINESE_SIMPLIFIED_literals RUSSIAN_literals ESPERANTO_literals DUTCH_literals
  GERMAN_literals.

Lemma languages_ok :
  Forall (fun L => length L.(words) = WORDS_LIST /\ NoDup (str_bytes <$> L.(words))) LANGUAGES.
Proof.
  pose proof (proj1 (forallb_forall table_ok _) tables_ok) as Ht.
  repeat (apply list.Forall_cons; split; [apply table_words, Ht; simpl; tauto|]). constructor.
Qed.
#[global] Opaque LANGUAGES.

(** ** The indices of words *)

Lemma language_words_spec L w j :
  NoDup (str_bytes <$> L.(words)) ->
  language_words L !! str_bytes w = Some j <-> exists i, j = Z.of_nat i /\ L.(words) !! i = Some w.
Proof.
  unfold language_words. intros Hn. generalize (words L) Hn. clear L Hn. intros ws.
  induction ws as [|v ws IH] using rev_ind; intros Hn.
  { simpl. rewrite lookup_empty. split; [done|]. by intros (i & _ & ?). }
  rewrite imap_app, foldl_app. simpl. rewrite fmap_app in Hn. apply list.NoDup_app in Hn as (Hn & Hd & _).
  rewrite Nat.add_0_r. destruct (decide (v = w)) as [->|Hne].
  - rewrite lookup_insert_eq. split.
    + intros [= <-]. exists (length ws). by rewrite lookup_app_r, Nat.sub_diag.
    + intros (i & -> & Hi). apply lookup_app_Some in Hi as [Hi|[Hi Hw]].
      * destruct (Hd (str_bytes w)); [|simpl; by left]. apply list_elem_of_fmap. exists w. split; [done|].
        by apply list_elem_of_lookup_2 in Hi.
      * apply list_lookup_singleton_Some in Hw as [? _]. do 2 f_equal. lia.
  - rewrite lookup_insert_ne by (intros E; apply Hne, str_bytes_inj, E). rewrite (IH Hn). split; intros (i & -> & Hi); exists i; (split; [done|]).
    + by apply lookup_app_l_Some.
    + apply lookup_app_Some in Hi as [Hi|[Hi Hw]]; [done|]. apply list_lookup_singleton_Some in Hw as [_ ?]. congruence.
Qed.

Lemma word_indices_run L ws ids :
  NoDup (str_bytes <$> L.(words)) -> Forall2 (fun w i => 0 <= i /\ L.(words) !! Z.to_nat i = Some w) ws ids ->
  word_indices (language_words L) ws = Some ids.
Proof.
  intros Hn. induction 1 as [|w i ws ids [Hi Hw] Hws IH]; simpl; [done|].
  rewrite (proj2 (language_words_spec L w i Hn)); [simpl; by rewrite IH|].
  exists (Z.to_nat i). split; [lia|done].
Qed.

Lemma word_indices_none L ws w :
  NoDup (str_bytes <$> L.(words)) -> w ∈ ws -> w ∉ L.(words) -> word_indices (language_words L) ws = None.
Proof.
  intros Hn Hin Hw. induction Hin as [w ws|w v ws Hin IH]; simpl.
  - destruct (language_words L !! str_bytes w) as [j|] eqn:Hj; [|done].
    apply language_words_spec in Hj as (i & _ & Hi); [|done]. by apply list_elem_of_lookup_2 in Hi.
  - destruct (language_words L !! _); [simpl; by rewrite IH|done].
Qed.

Section SeedFacts.
Context {CRC : Crc32}.

(** The indices of three words and the number they stand for. *)
Lemma indices_value v :
  in_u 32 v ->
  let a := v mod WORDS in let b := (v / WORDS + a) mod WORDS in let c := (v / WORDS / WORDS + b) mod WORDS in
  u64_add (u64_add a (u64_mul WORDS (u64_add (u64_sub WORDS a) b mod WORDS)))
    (u64_mul (u64_mul WORDS WORDS) (u64_add (u64_sub WORDS b) c mod WORDS)) = v.
Proof.
  intros Hv a b c. unfold in_u in Hv. change WORDS with 1626 in *.
  assert (forall q x, (1626 - x + (q + x) mod 1626) mod 1626 = q mod 1626) as Hback.
  { intros q x. rewrite Zplus_mod_idemp_r. replace (1626 - x + (q + x)) with (q + 1 * 1626) by lia. by rewrite Z.mod_add. }
  assert (0 <= a < 1626 /\ 0 <= b < 1626 /\ 0 <= c < 1626) as (Ha & Hb & Hc).
  { unfold a, b, c. split_and!; try apply Z.mod_pos_bound; try lia; by apply Z.mod_pos_bound. }
  rewrite (u64_sub_small 1626 a), (u64_sub_small 1626 b) by (unfold in_u; lia).
  rewrite (u64_add_small (1626 - a) b), (u64_add_small (1626 - b) c) by (unfold in_u; lia).
  unfold b at 1, c at 1. rewrite !Hback.
  pose proof (Z.mod_pos_bound (v / 1626) 1626 eq_refl) as Hq.
  assert (0 <= v / 1626 / 1626 < 1626) as Hd.
  { rewrite Z.div_div by lia. split; [apply Z.div_pos; lia|]. apply Z.div_lt_upper_bound; lia. }
  rewrite (Z.mod_small (v / 1626 / 1626)) by done.
  pose proof (Z.div_mod v 1626 ltac:(done)) as E1. pose proof (Z.div_mod (v / 1626) 1626 ltac:(done)) as E2.
  assert (a = v mod 1626) as Ea by done. clearbody a b c.
  generalize dependent (v / 1626 / 1626). generalize dependent ((v / 1626) mod 1626). intros q Hq d E2 Hd.
  rewrite (u64_mul_small 1626 1626), (u64_mul_small 1626 q), (u64_mul_small _ d) by (unfold in_u; lia).
  rewrite (u64_add_small a), u64_add_small by (unfold in_u; lia). lia.
Qed.

(** The indices of the words of a group of four bytes. *)
Definition group_indices (v : Z) : list Z :=
  let a := v mod WORDS in let b := (v / WORDS + a) mod WORDS in let c := (v / WORDS / WORDS + b) mod WORDS in
  [a; b; c].
Definition group_bytes (v : Z) : list byte := rev (be_bytes 4 v).

Lemma group_bytes_spec v :
  in_u 32 v -> exists b0 b1 b2 b3, group_bytes v = [b0; b1; b2; b3] /\ from_be (rev [b0; b1; b2; b3]) = v.
Proof.
  intros Hv. unfold group_bytes. pose proof (length_be_bytes 4 v) as Hl.
  pose proof (from_be_bytes 4 v Hv) as Hb. destruct (be_bytes 4 v) as [|c0 [|c1 [|c2 [|c3 [|]]]]]; try done.
  by exists c3, c2, c1, c0.
Qed.

Lemma groups_of n bytes :
  length bytes = (n * 4)%nat ->
  exists vs, length vs = n /\ Forall (in_u 32) vs /\ concat_bytes group_bytes vs = bytes.
Proof.
  revert bytes. induction n as [|n IH]; intros bytes Hl.
  { destruct bytes; [|done]. exists []. by split_and!; [|constructor|]. }
  destruct bytes as [|b0 [|b1 [|b2 [|b3 bytes]]]]; simpl in Hl; try lia.
  destruct (IH bytes ltac:(lia)) as (vs & Hn & Hf & <-).
  exists (from_be [b3; b2; b1; b0] :: vs). split; [simpl; lia|]. split.
  - constructor; [|done]. pose proof (from_be_range [b3; b2; b1; b0]). done.
  - rewrite concat_bytes_cons. unfold group_bytes at 1.
    pose proof (be_bytes_from_be [b3; b2; b1; b0]) as Hb. cbn [length] in Hb. by rewrite Hb.
Qed.

Lemma lookup_plus {A} (l l' : list A) k : (l ++ l') !! (length l + k)%nat = l' !! k.
Proof. rewrite lookup_app_r by lia. f_equal. lia. Qed.
Lemma lookup_here {A} (l l' : list A) : (l ++ l') !! length l = l' !! 0%nat.
Proof. by rewrite lookup_app_r, Nat.sub_diag. Qed.

(** A word and its index in a language. *)
Definition indexed (L : Language) (w : RString) (i : Z) : Prop := 0 <= i /\ L.(words) !! Z.to_nat i = Some w.

Lemma indexed_total L i :
  length L.(words) = WORDS_LIST -> 0 <= i < WORDS -> exists w, indexed L w i.
Proof.
  intros Hl Hi. destruct (lookup_lt_is_Some_2 L.(words) (Z.to_nat i)) as [w Hw].
  { rewrite Hl. unfold WORDS in Hi. lia. }
  exists w. split; [lia|done].
Qed.

Lemma group_indices_range v : Forall (fun i => 0 <= i < WORDS) (group_indices v).
Proof. repeat constructor; by apply Z.mod_pos_bound. Qed.

Lemma bytes_step_run L pre v post ws :
  in_u 32 v -> length L.(words) = WORDS_LIST ->
  exists new, bytes_step L (pre ++ group_bytes v ++ post) ws (length pre) = Ok (ws ++ new) /\
    Forall2 (indexed L) new (group_indices v).
Proof.
  intros Hv Hl. destruct (group_bytes_spec v Hv) as (b0 & b1 & b2 & b3 & -> & Hval).
  pose proof (group_indices_range v) as Hr. unfold group_indices in *.
  apply list.Forall_cons in Hr as [Ha Hr]. apply list.Forall_cons in Hr as [Hb Hr].
  apply list.Forall_cons in Hr as [Hc _].
  destruct (indexed_total L _ Hl Ha) as [wa Hwa]. destruct (indexed_total L _ Hl Hb) as [wb Hwb].
  destruct (indexed_total L _ Hl Hc) as [wc Hwc].
  exists [wa; wb; wc]. split; [|constructor; [done|]; constructor; [done|]; constructor; [done|constructor]].
  unfold bytes_step. rewrite !lookup_plus, lookup_here.
  cbn [app lookup list_lookup unwrap mbind res_bind]. rewrite Hval.
  by rewrite (proj2 Hwa), (proj2 Hwb), (proj2 Hwc).
Qed.

Lemma bytes_fold_run L vs pre ws k :
  Forall (in_u 32) vs -> length L.(words) = WORDS_LIST -> length pre = (4 * k)%nat ->
  exists new, foldM (bytes_step L (pre ++ concat_bytes group_bytes vs)) ws
      ((fun k => 4 * k)%nat <$> seq k (length vs)) = Ok (ws ++ new) /\
    Forall2 (indexed L) new (mjoin (group_indices <$> vs)).
Proof.
  intros Hvs Hl. revert pre ws k. induction Hvs as [|v vs Hv Hvs IH]; intros pre ws k Hk.
  { exists []. rewrite (app_nil_r ws). split; [done|]. by apply list.Forall2_nil. }
  cbn [length seq fmap list_fmap foldM]. rewrite concat_bytes_cons, <- Hk.
  destruct (bytes_step_run L pre v (concat_bytes group_bytes vs) ws Hv Hl) as (new & -> & Hnew). cbn [mbind res_bind].
  destruct (IH (pre ++ group_bytes v) (ws ++ new) (S k)) as (rest & Hrun & Hrest).
  { rewrite length_app, Hk. unfold group_bytes. rewrite length_rev, length_be_bytes. lia. }
  exists (new ++ rest). rewrite <- (assoc_L (++)) in Hrun. rewrite Hrun, <- (assoc_L (++)). split; [done|].
  change (mjoin (group_indices <$> v :: vs)) with (group_indices v ++ mjoin (group_indices <$> vs)). by apply Forall2_app.
Qed.

Lemma indices_step_run pre v post dest :
  in_u 32 v -> indices_step (pre ++ group_indices v ++ post) dest (length pre) = Ok (dest ++ group_bytes v).
Proof.
  intros Hv. unfold indices_step. rewrite !lookup_plus, lookup_here.
  pose proof (indices_value v Hv) as Hval. unfold group_indices. cbv zeta in Hval |- *.
  cbn [app lookup list_lookup ok_or mbind res_bind]. rewrite Hval, bool_decide_false by naive_solver.
  by rewrite wrap_small.
Qed.

Lemma indices_fold_run vs pre post dest k :
  Forall (in_u 32) vs -> length pre = (3 * k)%nat ->
  foldM (indices_step (pre ++ mjoin (group_indices <$> vs) ++ post)) dest
    ((fun k => 3 * k)%nat <$> seq k (length vs)) = Ok (dest ++ concat_bytes group_bytes vs).
Proof.
  intros Hvs. revert pre dest k. induction Hvs as [|v vs Hv Hvs IH]; intros pre dest k Hk.
  { by rewrite app_nil_r. }
  cbn [length seq fmap list_fmap foldM]. rewrite <- Hk.
  change (mjoin (group_indices v :: _)) with (group_indices v ++ mjoin (group_indices <$> vs)). rewrite <- (assoc_L (++)).
  rewrite indices_step_run by done. cbn [mbind res_bind].
  specialize (IH (pre ++ group_indices v) (dest ++ group_bytes v) (S k)). rewrite <- !(assoc_L (++)) in IH.
  rewrite IH; [by rewrite concat_bytes_cons|]. rewrite length_app, Hk. simpl. lia.
Qed.

(** The language is the first one that has all the words. *)
Lemma find_in_run languages i j L ws ids :
  languages !! i = Some L ->
  Forall (fun L => NoDup (str_bytes <$> L.(words))) languages ->
  Forall (fun L' => exists w, w ∈ ws /\ w ∉ L'.(words)) (take i languages) ->
  Forall2 (indexed L) ws ids -> verify_checksum ws L.(prefix_length) = Ok true ->
  find_in languages j ws = Ok (Some (ids, (j + i)%nat)).
Proof.
  intros Hi Hn. revert i j Hi. induction Hn as [|L' languages HL Hn IH]; intros i j Hi Hf Hws Hck; [done|].
  destruct i as [|i]; simpl in *.
  - injection Hi as ->. rewrite (word_indices_run L ws ids HL Hws), Hck. simpl. do 3 f_equal. lia.
  - apply list.Forall_cons in Hf as [(w & Hw & HwL) Hf].
    rewrite (word_indices_none L' ws w HL Hw HwL). rewrite (IH i (S j)) by done. do 3 f_equal. lia.
Qed.

Lemma checksum_index_run ws n :
  length ws = SEED_LENGTH -> exists c, calculate_checksum_index ws n = Ok c /\ 0 <= c < 24.
Proof.
  intros Hl. unfold calculate_checksum_index. rewrite bool_decide_false by (intros Hne; by apply Hne).
  eexists. split; [done|]. by apply Z.mod_pos_bound.
Qed.

Lemma verify_checksum_run ws w n c :
  length ws = SEED_LENGTH -> calculate_checksum_index ws n = Ok c -> ws !! Z.to_nat c = Some w ->
  verify_checksum (ws ++ [w]) n = Ok true.
Proof.
  intros Hl Hc Hw. unfold verify_checksum, seed_words.
  rewrite bool_decide_true by (rewrite length_app, Hl; apply Nat.le_add_r). cbn [mbind res_bind].
  rewrite <- Hl, take_app_length, Hc. cbn [mbind res_bind].
  rewrite (lookup_app_l_Some _ _ _ _ Hw), lookup_app_r, Nat.sub_diag by lia. simpl. by rewrite bool_decide_true.
Qed.

(** The words of the bytes of a key, and back. *)
Lemma words_run i L bytes :
  LANGUAGES !! i = Some L -> length bytes = KEY_SIZE ->
  exists ws, bytes_to_words bytes L = Ok ws /\ length ws = 25%nat /\ Forall (fun w => w ∈ L.(words)) ws /\
    (Forall (fun L' => exists w, w ∈ ws /\ w ∉ L'.(words)) (take i LANGUAGES) -> words_to_bytes ws = Ok bytes).
Proof.
  intros HL Hlen. pose proof languages_ok as Hok. pose proof Hok as HLok. rewrite list.Forall_forall in HLok.
  destruct (HLok L) as [Hwl Hwn]; [by eapply list_elem_of_lookup_2|].
  destruct (groups_of 8 bytes Hlen) as (vs & Hvl & Hvs & Hbytes).
  destruct (bytes_fold_run L vs [] [] 0) as (ws & Hrun & Hws); [done..|].
  assert (length (mjoin (group_indices <$> vs)) = 24%nat) as Hids.
  { clear -Hvl. do 9 (destruct vs as [|? vs]; simpl in Hvl; try lia). done. }
  assert (length ws = SEED_LENGTH) as Hwsl by (by rewrite (list.Forall2_length _ _ _ Hws)).
  destruct (checksum_index_run ws L.(prefix_length) Hwsl) as (c & Hc & Hc24).
  destruct (lookup_lt_is_Some_2 ws (Z.to_nat c)) as [w Hw]; [rewrite Hwsl; unfold SEED_LENGTH; lia|].
  destruct (list.Forall2_lookup_l _ _ _ _ _ Hws Hw) as (id & _ & Hid).
  exists (ws ++ [w]). split_and!.
  - unfold bytes_to_words. rewrite !bool_decide_false by naive_solver.
    change (step_by KEY_SIZE 4) with ((fun k => 4 * k)%nat <$> seq 0 8). rewrite <- Hvl, <- Hbytes. simpl app in Hrun.
    rewrite Hrun. cbn [mbind res_bind]. rewrite Hc. cbn [mbind res_bind]. by rewrite Hw.
  - rewrite length_app, Hwsl. done.
  - assert (Forall (fun w => w ∈ L.(words)) ws) as Hin.
    { apply list.Forall_forall. intros x Hx. apply list_elem_of_lookup in Hx as (n & Hx).
      destruct (list.Forall2_lookup_l _ _ _ _ _ Hws Hx) as (ix & _ & _ & Hix). by eapply list_elem_of_lookup_2. }
    apply list.Forall_app. split; [done|]. apply list.Forall_singleton.
    rewrite list.Forall_forall in Hin. by eapply Hin, list_elem_of_lookup_2.
  - intros Hfirst. unfold words_to_bytes. rewrite bool_decide_false by (rewrite length_app, Hwsl; intros Hne; by apply Hne).
    unfold find_indices. rewrite (find_in_run LANGUAGES i 0 L (ws ++ [w]) (mjoin (group_indices <$> vs) ++ [id])); try done.
    + cbn [mbind res_bind ok_or]. change (step_by SEED_LENGTH 3) with ((fun k => 3 * k)%nat <$> seq 0 8).
      pose proof (indices_fold_run vs [] [id] [] 0 Hvs eq_refl) as Hback. rewrite Hvl in Hback. simpl app in Hback.
      by rewrite Hback, Hbytes.
    + eapply list.Forall_impl; [exact Hok|]. by intros ? [].
    + apply Forall2_app; [done|]. by constructor; [|constructor].
    + by eapply verify_checksum_run.
Qed.
End SeedFacts.

Section Seed.
Context {CRC : Crc32} {CV : Curve}.

(** C39: A key written as words, in any of the languages, is recovered from its
    words: [key_to_words] gives twenty-five words of the language, and
    [words_to_key] returns the key from them, provided that no language that is
    tried before has all of these words (for the first language, always). *)
Theorem seed_roundtrip (key : Key.PrivateKey) (i : nat) (L : Language)
    (HL : LANGUAGES !! i = Some L) (Hkey : key.(Key.sk_scalar) <> s0) :
  exists ws, key_to_words key i = Ok ws /\ length ws = 25%nat /\ Forall (fun w => w ∈ L.(words)) ws /\
    (Forall (fun L' => exists w, w ∈ ws /\ w ∉ L'.(words)) (take i LANGUAGES) -> words_to_key ws = Ok key).
Proof.
  set (bytes := vec_to_list (s_bytes key.(Key.sk_scalar))).
  destruct (words_run i L bytes HL) as (ws & Hws & Hlen & Hin & Hback); [apply length_vec_to_list|].
  exists ws. split; [|split; [done|split; [done|]]].
  - unfold key_to_words. rewrite HL. exact Hws.
  - intros Hfirst. unfold words_to_key. rewrite (Hback Hfirst). cbn [mbind res_bind].
    pose proof (codec_rt (Codec:=codec_of scalar_codec) key.(Key.sk_scalar) [] [] I) as Hr.
    rewrite app_nil_r in Hr. unfold Key.private_read. rewrite reader_new_at.
    change bytes with (scalar_enc key.(Key.sk_scalar)). rewrite Hr. cbn [mbind res_bind].
    unfold Key.from_scalar. rewrite decide_False by done. by destruct key.
Qed.
End Seed.

(** ** A word list is not the only one that has a word *)

(** The word 36 of the Spanish list and the word 23 of the Italian one. *)
Definition w_adulto : RString := lit "adulto".

Section Ambiguous.
Context {CRC : Crc32}.

Lemma same_word_checksum w n c :
  calculate_checksum_index (replicate 24 w) n = Ok c -> replicate 24 w !! Z.to_nat c = Some w.
Proof.
  intros Hc. destruct (checksum_index_run (replicate 24 w) n) as (c' & Hc' & Hr); [done|].
  rewrite Hc in Hc'. injection Hc' as ->. apply lookup_replicate_2. lia.
Qed.

Lemma find_third L1 L2 L3 rest ws ids :
  word_indices (language_words L1) ws = None -> word_indices (language_words L2) ws = None ->
  word_indices (language_words L3) ws = Some ids -> verify_checksum ws L3.(prefix_length) = Ok true ->
  find_in (L1 :: L2 :: L3 :: rest) 0 ws = Ok (Some (ids, 2%nat)).
Proof. intros H1 H2 H3 H4. cbn [find_in]. by rewrite H1, H2, H3, H4. Qed.

#[local] Transparent ENGLISH_literals FRENCH_literals ITALIAN_literals SPANISH_literals.

Lemma spanish_ok : length SPANISH.(words) = WORDS_LIST.
Proof. vm_compute. reflexivity. Qed.
Lemma adulto_english : word_indices (language_words ENGLISH) (replicate 25 w_adulto) = None.
Proof. vm_compute. reflexivity. Qed.
Lemma adulto_french : word_indices (language_words FRENCH) (replicate 25 w_adulto) = None.
Proof. vm_compute. reflexivity. Qed.
Lemma adulto_italian : word_indices (language_words ITALIAN) (replicate 25 w_adulto) = Some (replicate 25 23).
Proof. vm_compute. reflexivity. Qed.

Lemma adulto_phrase :
  foldM (bytes_step SPANISH (concat_bytes group_bytes (replicate 8 36))) [] (step_by KEY_SIZE 4) =
    Ok (replicate 24 w_adulto).
Proof.
  assert (forall m : res MnemonicError (list RString),
    (fun ws : list RString => str_bytes <$> ws) <$> m = Ok (str_bytes <$> replicate 24 w_adulto) ->
    m = Ok (replicate 24 w_adulto)) as Hm.
  { intros [ws| | |]; try done. intros E. f_equal. cbn [fmap res_fmap] in E.
    assert (str_bytes <$> ws = str_bytes <$> replicate 24 w_adulto) as Hws by congruence.
    revert Hws. apply list_fmap_eq_inj. intros a b. apply str_bytes_inj. }
  apply Hm. vm_compute. reflexivity.
Qed.
Lemma adulto_key : length (concat_bytes group_bytes (replicate 8 36)) = KEY_SIZE.
Proof. vm_compute. reflexivity. Qed.

Lemma adulto_bytes :
  foldM (indices_step (replicate 25 23)) [] (step_by SEED_LENGTH 3) = Ok (concat_bytes group_bytes (replicate 8 23)).
Proof. vm_compute. reflexivity. Qed.

#[local] Transparent LANGUAGES.
#[local] Opaque SPANISH ITALIAN ENGLISH FRENCH w_adulto.

Lemma adulto_indices ws :
  ws = replicate 25 w_adulto -> verify_checksum ws ITALIAN.(prefix_length) = Ok true ->
  find_indices ws = Ok (Some (replicate 25 23, 2%nat)).
Proof.
  intros E Hv. pose proof adulto_english as H1. pose proof adulto_french as H2. pose proof adulto_italian as H3.
  rewrite <- E in H1, H2, H3. clear E. exact (find_third _ _ _ _ _ _ H1 H2 H3 Hv).
Qed.
#[local] Opaque LANGUAGES.

(** Words of a language may all be words of another one, that is tried first:
    the Spanish phrase of a key is then read as the Italian phrase of another
    key, and its checksum is right. *)
Lemma seed_ambiguous :
  exists ws, bytes_to_words (concat_bytes group_bytes (replicate 8 36)) SPANISH = Ok ws /\
    words_to_bytes ws = Ok (concat_bytes group_bytes (replicate 8 23)).
Proof.
  exists (replicate 24 w_adulto ++ [w_adulto]). split.
  - destruct (checksum_index_run (replicate 24 w_adulto) (prefix_length SPANISH)) as (c & Hc & _); [done|].
    unfold bytes_to_words. rewrite bool_decide_false by (intros Hne; apply Hne, spanish_ok).
    rewrite bool_decide_false by (intros Hne; apply Hne, adulto_key).
    rewrite adulto_phrase. cbn [mbind res_bind]. rewrite Hc. cbn [mbind res_bind]. by rewrite (same_word_checksum _ _ _ Hc).
  - destruct (checksum_index_run (replicate 24 w_adulto) (prefix_length ITALIAN)) as (c & Hc & _); [done|].
    pose proof (verify_checksum_run (replicate 24 w_adulto) w_adulto (prefix_length ITALIAN) c eq_refl Hc (same_word_checksum _ _ _ Hc)) as H4.
    unfold words_to_bytes. rewrite bool_decide_false by (intros Hne; by apply Hne).
    rewrite (adulto_indices (replicate 24 w_adulto ++ [w_adulto]) eq_refl H4). cbn [mbind res_bind ok_or].
    exact adulto_bytes.
Qed.
End Ambiguous.

(** Three words stand for a number below [1626 ^ 3], which does not fit an
    [u32]: the high bits are dropped, and two phrases give the same bytes. *)
Lemma phrases_alias :
  indices_step (group_indices (2 ^ 32 + 7)) [] 0 = Ok (group_bytes 7) /\
  indices_step (group_indices 7) [] 0 = Ok (group_bytes 7) /\ group_indices (2 ^ 32 + 7) <> group_indices 7.
Proof. by vm_compute. Qed.

(** The CRC-32 of the standard, bit by bit. *)
Fixpoint crc_bits (n : nat) (c : Z) : Z :=
  match n with
  | O => c
  | S n => crc_bits n (if Z.odd c then Z.lxor (Z.shiftr c 1) 0xedb88320 else Z.shiftr c 1)
  end.
Definition crc_value (l : list byte) : Z :=
  wrap 32 (Z.lxor (foldl (fun c b => crc_bits 8 (Z.lxor c (byte_val b))) 0xffffffff l) 0xffffffff).
Definition crc_model : Crc32 := {| crc32_hash := crc_value; crc32_range l := wrap_range 32 _ ltac:(lia) |}.

Example crc_check : crc_value (str_bytes (lit "123456789")) = 0xcbf43926.
Proof. by vm_compute. Qed.

Lemma seed_roundtrip_witness :
  exists ws, key_to_words (CRC:=crc_model) (CV:=curve_model) (Key.mkPrivateKey (fs 5)) 0 = Ok ws /\
    words_to_key (CRC:=crc_model) (CV:=curve_model) ws = Ok (Key.mkPrivateKey (fs 5)).
Proof.
  destruct (seed_roundtrip (CRC:=crc_model) (CV:=curve_model) (Key.mkPrivateKey (fs 5)) 0 ENGLISH) as (ws & H1 & _ & _ & H2).
  - reflexivity.
  - intros E. apply (f_equal s_bytes) in E. vm_compute in E. discriminate E.
  - exists ws. split; [exact H1|]. apply H2. constructor.
Defined.
