(* ===== verification/Verify.v ===== *)
(** [xelis_common::transaction::verify]: the verification of a transaction
    against a state, and its application.

    The trait [BlockchainVerificationState] is a class over the type of states.
    A method that returns [&mut Ciphertext] is a pair of operations: the read,
    which may fetch and cache the account, and the write through the reference.
    [StateLaws] says what the two promise to the callers below. *)

From S2P Require Import Prelude External ExternalCrypto Serializer Hash Defaults Elgamal Proofs Transaction.

Definition XELIS_ASSET : Hash := HashOps.zero.

Inductive VerificationError (T : Type) : Type :=
  | State (e : T)
  | InvalidNonce (got expected : Z)
  | SenderIsReceiver
  | InvalidSignature
  | Proof (e : ProofVerificationError).
Arguments State {T} e.
Arguments InvalidNonce {T} got expected.
Arguments SenderIsReceiver {T}.
Arguments InvalidSignature {T}.
Arguments Proof {T} e.

Section Verify.
Context {CV : Curve} {ML : Merlin} {RP : RangeProofLib}.

Class BlockchainVerificationState (St E : Type) := {
  pre_verify_tx : Transaction -> stm St E ();
  get_receiver_balance : CompressedPublicKey -> Hash -> stm St E Ciphertext;
  set_receiver_balance : CompressedPublicKey -> Hash -> Ciphertext -> St -> St;
  get_sender_balance : CompressedPublicKey -> Hash -> Reference -> stm St E Ciphertext;
  set_sender_balance : CompressedPublicKey -> Hash -> Ciphertext -> St -> St;
  add_sender_output : CompressedPublicKey -> Hash -> Ciphertext -> stm St E ();
  get_account_nonce : CompressedPublicKey -> stm St E Z;
  update_account_nonce : CompressedPublicKey -> Z -> stm St E ();
}.

Record DecompressedTransferCt := mkDecompressed {
  d_commitment : PedersenCommitment;
  d_sender_handle : DecryptHandle;
  d_receiver_handle : DecryptHandle;
}.

Definition decompress_transfer (transfer : TransferPayload) : res DecompressionError DecompressedTransferCt :=
  commitment ← commitment_decompress transfer.(tr_commitment);
  sender_handle ← handle_decompress transfer.(sender_handle);
  receiver_handle ← handle_decompress transfer.(receiver_handle);
  Ok (mkDecompressed commitment sender_handle receiver_handle).

Definition d_get_ciphertext (d : DecompressedTransferCt) (role : Role) : Ciphertext :=
  let handle := match role with Receiver => d.(d_receiver_handle) | Sender => d.(d_sender_handle) end in
  mkCiphertext d.(d_commitment) handle.

(** [Transaction::get_sender_output_ct] *)
Definition get_sender_output_ct (tx : Transaction) (asset : Hash)
    (decompressed_transfers : list DecompressedTransferCt) : res DecompressionError Ciphertext :=
  let output := ct_zero in
  let output :=
    if decide (asset = XELIS_ASSET) then ct_add_scalar output (s_from_u64 tx.(fee)) else output in
  match tx.(data) with
  | Transfers transfers =>
      Ok (foldl (fun output '(transfer, d) =>
            if decide (asset = transfer.(tr_asset)) then ct_add output (d_get_ciphertext d Sender)
            else output)
          output (zip transfers decompressed_transfers))
  | Burn payload =>
      Ok (if decide (asset = payload.(burn_asset))
          then ct_add_scalar output (s_from_u64 payload.(amount)) else output)
  end.

Definition prepare_transcript (version : Z) (source_pubkey : CompressedPublicKey) (fee nonce : Z) : transcript :=
  let t := t_new (lit "transaction-proof") in
  let t := t_append_u64 (lit "version") version t in
  let t := Transcript.append_public_key (lit "source_pubkey") source_pubkey t in
  let t := t_append_u64 (lit "fee") fee t in
  t_append_u64 (lit "nonce") nonce t.

Definition has_commitment_for_asset (tx : Transaction) (asset : Hash) : bool :=
  existsb (fun c => bool_decide (c.(sc_asset) = asset)) tx.(source_commitments).

(** [i != i2 && c.asset == c2.asset] for some pair of positions *)
Definition has_duplicates (tx : Transaction) : bool :=
  let indexed := zip (seq 0 (length tx.(source_commitments))) tx.(source_commitments) in
  existsb (fun '(i, c) =>
    existsb (fun '(i2, c2) => negb (i =? i2)%nat && bool_decide (c.(sc_asset) = c2.(sc_asset))) indexed)
    indexed.

Definition verify_commitment_assets (tx : Transaction) : bool :=
  if negb (has_commitment_for_asset tx XELIS_ASSET) then false
  else if has_duplicates tx then false
  else
    match tx.(data) with
    | Transfers transfers => forallb (fun t => has_commitment_for_asset tx t.(tr_asset)) transfers
    | Burn payload => has_commitment_for_asset tx payload.(burn_asset)
    end.

Context {St E : Type} {BS : BlockchainVerificationState St E}.

Local Abbreviation V := (stm St (VerificationError E)).
Definition state {A} (m : stm St E A) : V A := st_map_err State m.
Definition proof {A} (m : res ProofVerificationError A) : V A := lift_res (map_err Proof m).

(** The body of the loop over [source_commitments]. *)
Definition verify_commitment (tx : Transaction) (owner : Key.PublicKey)
    (transfers_decompressed : list DecompressedTransferCt) (rnd : nat -> scalar)
    (acc : transcript * BatchCollector * nat) (p : SourceCommitment * PedersenCommitment)
  : V (transcript * BatchCollector * nat) :=
  let '(t, batch, draws) := acc in
  let '(commitment, new_source_commitment) := p in
  output ← proof (map_err Decompression (get_sender_output_ct tx commitment.(sc_asset) transfers_decompressed));
  balance ← state (get_sender_balance tx.(source) commitment.(sc_asset) tx.(reference));
  let source_verification_ciphertext := ct_sub balance output in
  _ ← st_modify (set_sender_balance tx.(source) commitment.(sc_asset) source_verification_ciphertext);
  let t := Transcript.new_commitment_eq_proof_domain_separator t in
  let t := Transcript.append_hash (lit "new_source_commitment_asset") commitment.(sc_asset) t in
  let t := Transcript.append_commitment (lit "new_source_commitment") commitment.(sc_commitment) t in
  '(t, batch) ← proof (eq_proof_pre_verify commitment.(sc_proof) owner source_verification_ciphertext
                        new_source_commitment (rnd draws) t batch);
  _ ← state (add_sender_output tx.(source) commitment.(sc_asset) output);
  mret (t, batch, S draws).

(** The body of the loop over the transfers. *)
Definition verify_transfer (rnd : nat -> scalar) (acc : transcript * BatchCollector * nat)
    (p : TransferPayload * DecompressedTransferCt) : V (transcript * BatchCollector * nat) :=
  let '(t, batch, draws) := acc in
  let '(transfer, decompressed) := p in
  receiver ← proof (map_err Decompression (Key.decompress transfer.(destination)));
  current_balance ← state (get_receiver_balance transfer.(destination) transfer.(tr_asset));
  let receiver_ct := d_get_ciphertext decompressed Receiver in
  _ ← st_modify (set_receiver_balance transfer.(destination) transfer.(tr_asset)
                   (ct_add current_balance receiver_ct));
  let t := Transcript.transfer_proof_domain_separator t in
  let t := Transcript.append_public_key (lit "dest_pubkey") transfer.(destination) t in
  let t := Transcript.append_commitment (lit "amount_commitment") transfer.(tr_commitment) t in
  let t := Transcript.append_handle (lit "amount_sender_handle") transfer.(sender_handle) t in
  let t := Transcript.append_handle (lit "amount_receiver_handle") transfer.(receiver_handle) t in
  '(t, batch) ← proof (validity_proof_pre_verify transfer.(ct_validity_proof)
                        decompressed.(d_commitment) receiver decompressed.(d_receiver_handle)
                        (rnd draws) t batch);
  mret (t, batch, S draws).

Definition transfers_of (tx : Transaction) : list TransferPayload :=
  match tx.(data) with Transfers transfers => transfers | Burn _ => [] end.

(** The checks on the transfers, up to their decompression. *)
Definition check_transfers (tx : Transaction) : V (list DecompressedTransferCt) :=
  match tx.(data) with
  | Transfers transfers =>
      if (MAX_TRANSFER_COUNT <? length transfers)%nat || (length transfers =? 0)%nat
      then st_err (Proof Format)
      else
        extra_data_size ← foldMs (fun extra_data_size transfer =>
          if decide (transfer.(destination) = tx.(source)) then st_err SenderIsReceiver
          else
            match transfer.(extra_data) with
            | Some extra_data => mret (extra_data_size + size extra_data)%nat
            | None => mret extra_data_size
            end) 0%nat transfers;
        if (EXTRA_DATA_LIMIT_SIZE <? extra_data_size)%nat then st_err (Proof Format)
        else proof (map_err Decompression (mapMr decompress_transfer transfers))
  | Burn _ => mret []
  end.

(** [usize::checked_next_power_of_two] *)
Definition checked_next_power_of_two (n : Z) : option Z :=
  let p := next_power_of_two n in if p <? 2 ^ 64 then Some p else None.

Definition pre_verify (tx : Transaction) (rnd : nat -> scalar) (batch : BatchCollector) (draws : nat)
  : V (transcript * list (point * CompressedRistretto) * BatchCollector * nat) :=
  _ ← state (pre_verify_tx tx);
  account_nonce ← state (get_account_nonce tx.(source));
  if negb (account_nonce =? tx.(nonce)) then st_err (InvalidNonce account_nonce tx.(nonce))
  else
    _ ← state (update_account_nonce tx.(source) (u64_add tx.(nonce) 1));
    if negb (verify_commitment_assets tx) then st_err (Proof Format)
    else
      transfers_decompressed ← check_transfers tx;
      new_source_commitments_decompressed ←
        proof (map_err Decompression
          (mapMr (fun c => commitment_decompress c.(sc_commitment)) tx.(source_commitments)));
      owner ← proof (map_err Decompression (Key.decompress tx.(source)));
      let t := prepare_transcript tx.(version) tx.(source) tx.(fee) tx.(nonce) in
      let bytes := to_bytes tx in
      if negb (Key.verify tx.(signature) (take (length bytes - SIGNATURE_SIZE) bytes) owner)
      then st_err InvalidSignature
      else
        '(t, batch, draws) ← foldMs (verify_commitment tx owner transfers_decompressed rnd)
          (t, batch, draws) (zip tx.(source_commitments) new_source_commitments_decompressed);
        '(t, batch, draws) ← foldMs (verify_transfer rnd) (t, batch, draws)
          (zip (transfers_of tx) transfers_decompressed);
        let new_source_commitments :=
          zip_with (fun commitment new_source_commitment =>
            (new_source_commitment.(commitment_pt), commitment.(sc_commitment).(commitment_point)))
            tx.(source_commitments) new_source_commitments_decompressed in
        let n_commitments := Z.of_nat (length tx.(source_commitments) + length (transfers_of tx)) in
        n_pow ← proof (ok_or (checked_next_power_of_two n_commitments) Format);
        let n_dud_commitments := Z.to_nat (n_pow - n_commitments) in
        let value_commitments :=
          new_source_commitments
          ++ zip_with (fun transfer decompressed =>
               (decompressed.(d_commitment).(commitment_pt), transfer.(tr_commitment).(commitment_point)))
               (transfers_of tx) transfers_decompressed
          ++ replicate n_dud_commitments (pid, mkRistretto (vreplicate 32 x00)) in
        mret (t, value_commitments, batch, draws).

(** The value commitments, as the crate takes them. *)
Definition value_view (l : list (point * CompressedRistretto)) : list (point * vec byte 32) :=
  (fun '(p, c) => (p, c.(cr_bytes))) <$> l.

Definition verify_batch (txs : list Transaction) (rnd : nat -> scalar) : V () :=
  '(batch, prepared, _) ← foldMs (fun '(batch, prepared, draws) tx =>
      '(t, commitments, batch, draws) ← pre_verify tx rnd batch draws;
      mret (batch, prepared ++ [(t, commitments)], draws))
    (collector_default, [], 0%nat) txs;
  _ ← proof (map_err (fun _ => GenericProof) (collector_verify batch));
  proof (map_err RangeProofError (rp_verify_batch
    (zip_with (fun tx '(t, commitments) =>
       (tx.(tx_range_proof), t, value_view commitments, BULLET_PROOF_SIZE)) txs prepared))).

Definition verify (tx : Transaction) (rnd : nat -> scalar) : V () :=
  '(t, commitments, batch, _) ← pre_verify tx rnd collector_default 0%nat;
  _ ← proof (map_err (fun _ => GenericProof) (collector_verify batch));
  proof (map_err RangeProofError
    (rp_verify_multiple tx.(tx_range_proof) t (value_view commitments) BULLET_PROOF_SIZE)).

(** [Result::unwrap] and [expect] *)
Definition expect {F A} (m : res F A) : stm St E A :=
  match m with Ok a => mret a | Err _ | Panic => lift_res Panic | Diverge => lift_res Diverge end.

Definition apply_commitment (tx : Transaction) (transfers_decompressed : list DecompressedTransferCt)
    (commitment : SourceCommitment) : stm St E () :=
  let asset := commitment.(sc_asset) in
  current_bal_sender ← get_sender_balance tx.(source) asset tx.(reference);
  output ← expect (get_sender_output_ct tx asset transfers_decompressed);
  _ ← st_modify (set_sender_balance tx.(source) asset (ct_sub current_bal_sender output));
  add_sender_output tx.(source) asset output.

Definition apply_transfer (transfer : TransferPayload) : stm St E () :=
  current_bal ← get_receiver_balance transfer.(destination) transfer.(tr_asset);
  receiver_ct ← expect (ct_decompress (get_ciphertext transfer Receiver));
  st_modify (set_receiver_balance transfer.(destination) transfer.(tr_asset)
               (ct_add current_bal receiver_ct)).

Definition apply_without_verify (tx : Transaction) : stm St E () :=
  _ ← update_account_nonce tx.(source) (u64_add tx.(nonce) 1);
  transfers_decompressed ← expect (mapMr decompress_transfer (transfers_of tx));
  _ ← foldMs (fun _ c => apply_commitment tx transfers_decompressed c) tt tx.(source_commitments);
  foldMs (fun _ t => apply_transfer t) tt (transfers_of tx).

(** [apply_with_partial_verify]: the first loop only reads the balances. *)
Definition partial_commitment (tx : Transaction) (owner : Key.PublicKey)
    (transfers_decompressed : list DecompressedTransferCt) (rnd : nat -> scalar)
    (acc : transcript * BatchCollector * nat * list (Ciphertext * Ciphertext * Hash))
    (p : SourceCommitment * PedersenCommitment)
  : V (transcript * BatchCollector * nat * list (Ciphertext * Ciphertext * Hash)) :=
  let '(t, batch, draws, changes) := acc in
  let '(commitment, new_source_commitment) := p in
  output ← proof (map_err Decompression (get_sender_output_ct tx commitment.(sc_asset) transfers_decompressed));
  balance ← state (get_sender_balance tx.(source) commitment.(sc_asset) tx.(reference));
  let source_verification_ciphertext := ct_sub balance output in
  let t := Transcript.new_commitment_eq_proof_domain_separator t in
  let t := Transcript.append_hash (lit "new_source_commitment_asset") commitment.(sc_asset) t in
  let t := Transcript.append_commitment (lit "new_source_commitment") commitment.(sc_commitment) t in
  '(t, batch) ← proof (eq_proof_pre_verify commitment.(sc_proof) owner source_verification_ciphertext
                        new_source_commitment (rnd draws) t batch);
  mret (t, batch, S draws, changes ++ [(source_verification_ciphertext, output, commitment.(sc_asset))]).

Definition apply_change (tx : Transaction) (change : Ciphertext * Ciphertext * Hash) : V () :=
  let '(source_verification_ciphertext, output, asset) := change in
  _ ← state (get_sender_balance tx.(source) asset tx.(reference));
  _ ← st_modify (set_sender_balance tx.(source) asset source_verification_ciphertext);
  state (add_sender_output tx.(source) asset output).

Definition apply_with_partial_verify (tx : Transaction) (rnd : nat -> scalar) : V () :=
  transfers_decompressed ← proof (map_err Decompression (mapMr decompress_transfer (transfers_of tx)));
  new_source_commitments_decompressed ←
    proof (map_err Decompression
      (mapMr (fun c => commitment_decompress c.(sc_commitment)) tx.(source_commitments)));
  owner ← proof (map_err Decompression (Key.decompress tx.(source)));
  let t := prepare_transcript tx.(version) tx.(source) tx.(fee) tx.(nonce) in
  '(_, batch, _, commitments_changes) ←
    foldMs (partial_commitment tx owner transfers_decompressed rnd) (t, collector_default, 0%nat, [])
      (zip tx.(source_commitments) new_source_commitments_decompressed);
  _ ← proof (map_err (fun _ => GenericProof) (collector_verify batch));
  _ ← foldMs (fun _ change => apply_change tx change) tt commitments_changes;
  foldMs (fun _ t => state (apply_transfer t)) tt (transfers_of tx).
End Verify.
