(* ===== verification/VerifyFacts.v ===== *)
(** What the verification and the application of a transaction do to a state.

    [Ledger] is the abstract state: the nonce of each account, the balance
    credited to each receiver, the balance each sender is verified against, and
    the sum of the outputs of each sender.  [StateLaws] is what an
    implementation of [BlockchainVerificationState] promises: each call that
    succeeds acts on the ledger it represents as its name says.  Against this
    interface, [apply_without_verify] and [verify] both refine [ledger_apply]. *)

From Stdlib Require Import Setoid Morphisms.
From S2P Require Import Prelude External ExternalCrypto Serializer Hash Defaults Elgamal Proofs Transaction Verify.

Section Ledger.
Context {CV : Curve}.

Record Ledger := mkLedger {
  l_nonce : CompressedPublicKey -> Z;
  l_recv : CompressedPublicKey -> Hash -> Ciphertext;
  l_send : CompressedPublicKey -> Hash -> Reference -> Ciphertext;
  l_out : CompressedPublicKey -> Hash -> Ciphertext;
}.

(** Two ledgers are the same when they agree at every point. *)
#[export] Instance ledger_equiv : Equiv Ledger := fun l1 l2 =>
  (forall k, l_nonce l1 k = l_nonce l2 k) /\
  (forall k a, l_recv l1 k a = l_recv l2 k a) /\
  (forall k a r, l_send l1 k a r = l_send l2 k a r) /\
  (forall k a, l_out l1 k a = l_out l2 k a).

#[export] Instance ledger_equivalence : Equivalence (≡@{Ledger}).
Proof.
  split; unfold equiv, ledger_equiv.
  - by intros l.
  - intros l1 l2 (? & ? & ? & ?). auto.
  - intros l1 l2 l3 (H1 & H2 & H3 & H4) (H5 & H6 & H7 & H8). repeat split; intros.
    + by rewrite H1.
    + by rewrite H2.
    + by rewrite H3.
    + by rewrite H4.
Qed.


Definition upd_nonce (k : CompressedPublicKey) (n : Z) (l : Ledger) : Ledger :=
  mkLedger (fn_upd k n l.(l_nonce)) l.(l_recv) l.(l_send) l.(l_out).
Definition upd_recv (k : CompressedPublicKey) (a : Hash) (c : Ciphertext) (l : Ledger) : Ledger :=
  mkLedger l.(l_nonce) (fn_upd k (fn_upd a c (l.(l_recv) k)) l.(l_recv)) l.(l_send) l.(l_out).
Definition upd_send (k : CompressedPublicKey) (a : Hash) (c : Ciphertext) (l : Ledger) : Ledger :=
  mkLedger l.(l_nonce) l.(l_recv) (fn_upd k (fn_upd a (fun _ => c) (l.(l_send) k)) l.(l_send)) l.(l_out).
Definition upd_out (k : CompressedPublicKey) (a : Hash) (c : Ciphertext) (l : Ledger) : Ledger :=
  mkLedger l.(l_nonce) l.(l_recv) l.(l_send) (fn_upd k (fn_upd a c (l.(l_out) k)) l.(l_out)).


#[export] Instance upd_nonce_proper k n : Proper ((≡) ==> (≡)) (upd_nonce k n).
Proof. intros l1 l2 (?&?&?&?). repeat split; simpl; auto. intros. unfold fn_upd. by case_decide. Qed.
#[export] Instance upd_recv_proper k a c : Proper ((≡) ==> (≡)) (upd_recv k a c).
Proof.
  intros l1 l2 (?&?&?&?). repeat split; simpl; auto. intros.
  unfold fn_upd. repeat case_decide; auto.
Qed.
#[export] Instance upd_send_proper k a c : Proper ((≡) ==> (≡)) (upd_send k a c).
Proof.
  intros l1 l2 (?&?&?&?). repeat split; simpl; auto. intros.
  unfold fn_upd. repeat case_decide; auto.
Qed.
#[export] Instance upd_out_proper k a c : Proper ((≡) ==> (≡)) (upd_out k a c).
Proof.
  intros l1 l2 (?&?&?&?). repeat split; simpl; auto. intros.
  unfold fn_upd. repeat case_decide; auto.
Qed.

(** Updates that are overwritten or that change nothing. *)
Implicit Types l : Ledger.

Ltac ledger_eq := split_and!; simpl; intros; rewrite ?fn_upd_pair; try done; by repeat case_decide; simplify_eq.

Lemma upd_recv_twice k a c c' l : upd_recv k a c' (upd_recv k a c l) ≡ upd_recv k a c' l.
Proof. ledger_eq. Qed.
Lemma upd_send_twice k a c c' l : upd_send k a c' (upd_send k a c l) ≡ upd_send k a c' l.
Proof. ledger_eq. Qed.
Lemma upd_entry_twice k a o c o' c' l :
  upd_out k a o' (upd_send k a c' (upd_out k a o (upd_send k a c l))) ≡ upd_out k a o' (upd_send k a c' l).
Proof. ledger_eq. Qed.
Lemma upd_recv_id k a c l : l_recv l k a = c -> upd_recv k a c l ≡ l.
Proof. intros <-. ledger_eq. Qed.
Lemma upd_send_id k a c l : (forall r, l_send l k a r = c) -> upd_send k a c l ≡ l.
Proof.
  intros Hc. split_and!; simpl; try done. intros k' a' r. rewrite fn_upd_pair. case_decide; [|done]. by simplify_eq.
Qed.
Lemma upd_out_id k a c l : l_out l k a = c -> upd_out k a c l ≡ l.
Proof. intros <-. ledger_eq. Qed.
Lemma upd_nonce_id k n l : l_nonce l k = n -> upd_nonce k n l ≡ l.
Proof. intros <-. split_and!; simpl; try done. intros k'. unfold fn_upd. by case_decide; subst. Qed.
End Ledger.

Section Facts.
Context {CV : Curve} {ML : Merlin} {RP : RangeProofLib}.

(** ** The amounts of a transaction *)

(** The output of the sender for an asset: it is always defined. *)
Definition output_of (tx : Transaction) (asset : Hash) (ds : list DecompressedTransferCt) : Ciphertext :=
  match get_sender_output_ct tx asset ds with Ok c => c | _ => ct_zero end.

Lemma output_of_ok tx asset ds : get_sender_output_ct tx asset ds = Ok (output_of tx asset ds).
Proof. unfold output_of, get_sender_output_ct. by destruct (data tx). Qed.

Definition commit (c : Ciphertext) : point := c.(ct_commitment).(commitment_pt).
Definition psum (l : list point) : point := foldr padd pid l.

(** The commitments of the transfers of one asset. *)
Definition moved (asset : Hash) (l : list (TransferPayload * DecompressedTransferCt)) : list point :=
  (fun p => p.2.(d_commitment).(commitment_pt)) <$> filter (fun p => asset = p.1.(tr_asset)) l.

(** The public amounts that leave the accounts: the fee and a burn. *)
Definition plain (tx : Transaction) (asset : Hash) : scalar :=
  sadd (if decide (asset = XELIS_ASSET) then s_from_u64 tx.(fee) else s0)
    match tx.(data) with
    | Burn p => if decide (asset = p.(burn_asset)) then s_from_u64 p.(amount) else s0
    | Transfers _ => s0
    end.

Add Ring IdealRing : ideal_ring.
Add Ring ScalarRing : scalar_ring.

Lemma commit_add a b : commit (ct_add a b) = padd (commit a) (commit b).
Proof. done. Qed.
Lemma commit_add_scalar a x : commit (ct_add_scalar a x) = padd (commit a) (pmul x G).
Proof. done. Qed.

Lemma commit_fold asset l c :
  commit (foldl (fun output '(transfer, d) =>
      if decide (asset = transfer.(tr_asset)) then ct_add output (d_get_ciphertext d Sender)
      else output) c l) = padd (commit c) (psum (moved asset l)).
Proof.
  revert c. induction l as [|[t d] l IH]; intros c; simpl.
  - unfold moved, psum; simpl. by rewrite padd_id_r.
  - rewrite IH. unfold moved. rewrite filter_cons. simpl. case_decide; [|done].
    csimpl. by rewrite commit_add, <- padd_assoc.
Qed.

(** What the sender pays is what the receivers get plus the public amounts. *)
Lemma commit_output tx asset ds :
  commit (output_of tx asset ds) =
    padd (pmul (plain tx asset) G) (psum (moved asset (zip (transfers_of tx) ds))).
Proof.
  unfold output_of, get_sender_output_ct, plain, transfers_of.
  destruct (data tx) as [ts|p].
  - rewrite commit_fold. case_decide; rewrite ?commit_add_scalar; unfold commit, ct_zero; simpl;
      point_ring.
  - unfold moved, psum. simpl. repeat case_decide; rewrite ?commit_add_scalar;
      unfold commit, ct_zero; simpl; point_ring.
Qed.

(** ** [verify_commitment_assets] *)

Definition assets_of (tx : Transaction) : list Hash := sc_asset <$> tx.(source_commitments).
Definition spent_assets (tx : Transaction) : list Hash :=
  match tx.(data) with Transfers ts => tr_asset <$> ts | Burn p => [p.(burn_asset)] end.

Lemma has_commitment_spec tx a : has_commitment_for_asset tx a = true <-> a ∈ assets_of tx.
Proof.
  unfold has_commitment_for_asset, assets_of. rewrite existsb_exists, list_elem_of_fmap.
  setoid_rewrite bool_decide_eq_true. setoid_rewrite <- list_elem_of_In. naive_solver.
Qed.

Lemma has_duplicates_spec tx : has_duplicates tx = false <-> NoDup (assets_of tx).
Proof.
  unfold has_duplicates, assets_of. rewrite NoDup_alt. setoid_rewrite list_lookup_fmap_Some.
  set (l := source_commitments tx).
  assert (forall i c, (i, c) ∈ zip (seq 0 (length l)) l <-> l !! i = Some c) as Hz.
  { intros i c. rewrite list_elem_of_lookup. setoid_rewrite lookup_zip_Some.
    setoid_rewrite lookup_seq. split.
    - intros (j & [-> _] & Hj). done.
    - intros Hi. exists i. split; [|done]. split; [done|]. by apply lookup_lt_Some in Hi. }
  split.
  - intros Hd i j a (c & -> & Hi) (c' & E & Hj).
    destruct (decide (i = j)) as [|Hne]; [done|]. exfalso.
    enough (existsb (fun '(i, c) => existsb (fun '(i2, c2) =>
      negb (i =? i2)%nat && bool_decide (sc_asset c = sc_asset c2)) (zip (seq 0 (length l)) l))
      (zip (seq 0 (length l)) l) = true) as Ht by congruence.
    apply existsb_exists. exists (i, c). rewrite <- list_elem_of_In, Hz. split; [done|].
    apply existsb_exists. exists (j, c'). rewrite <- list_elem_of_In, Hz. split; [done|].
    apply Nat.eqb_neq in Hne. rewrite Hne. simpl. by apply bool_decide_true.
  - intros Hnd. apply not_true_is_false. intros Ht.
    apply existsb_exists in Ht as ([i c] & Hi & Ht). apply existsb_exists in Ht as ([j c'] & Hj & Ht).
    rewrite <- list_elem_of_In, Hz in Hi, Hj.
    apply andb_true_iff in Ht as [Hne He%bool_decide_eq_true].
    apply negb_true_iff, Nat.eqb_neq in Hne. apply Hne.
    apply (Hnd i j (sc_asset c)); eauto.
Qed.

Lemma verify_commitment_assets_iff tx :
  verify_commitment_assets tx = true <->
    XELIS_ASSET ∈ assets_of tx /\ NoDup (assets_of tx) /\
    forall a, a ∈ spent_assets tx -> a ∈ assets_of tx.
Proof.
  unfold verify_commitment_assets, spent_assets. rewrite <- has_commitment_spec, <- has_duplicates_spec.
  destruct (has_commitment_for_asset tx XELIS_ASSET); simpl; [|naive_solver].
  destruct (has_duplicates tx); [naive_solver|].
  setoid_rewrite <- has_commitment_spec.
  destruct (data tx) as [ts|p].
  - rewrite forallb_forall. setoid_rewrite list_elem_of_fmap. setoid_rewrite <- list_elem_of_In.
    naive_solver.
  - setoid_rewrite list_elem_of_singleton. naive_solver.
Qed.
End Facts.

(** ** The interface of a state *)

Section Refinement.
Context {CV : Curve} {ML : Merlin} {RP : RangeProofLib}.
Context {St E : Type} {BS : BlockchainVerificationState St E}.

(** [inv] is the implementation's own invariant.  The first read of a sender
    balance fixes the balance the account is verified against, whatever the
    reference of the next transactions: [upd_send] forgets the reference. *)
Class StateLaws := {
  obs : St -> Ledger;
  inv : St -> Prop;
  law_pre_verify tx s s' :
    inv s -> pre_verify_tx tx s = (Ok tt, s') -> inv s' /\ obs s' ≡ obs s;
  law_get_receiver k a s c s' :
    inv s -> get_receiver_balance k a s = (Ok c, s') ->
    inv s' /\ obs s' ≡ obs s /\ l_recv (obs s) k a = c /\
    forall c', inv (set_receiver_balance k a c' s') /\
      obs (set_receiver_balance k a c' s') ≡ upd_recv k a c' (obs s);
  law_get_sender k a r s c s' :
    inv s -> get_sender_balance k a r s = (Ok c, s') ->
    inv s' /\ obs s' ≡ upd_send k a c (obs s) /\ l_send (obs s) k a r = c /\
    forall c', inv (set_sender_balance k a c' s') /\
      obs (set_sender_balance k a c' s') ≡ upd_send k a c' (obs s);
  law_add_output k a c s s' :
    inv s -> add_sender_output k a c s = (Ok tt, s') ->
    inv s' /\ obs s' ≡ upd_out k a (ct_add (l_out (obs s) k a) c) (obs s);
  law_get_nonce k s n s' :
    inv s -> get_account_nonce k s = (Ok n, s') -> inv s' /\ obs s' ≡ obs s /\ l_nonce (obs s) k = n;
  law_update_nonce k n s s' :
    inv s -> update_account_nonce k n s = (Ok tt, s') -> inv s' /\ obs s' ≡ upd_nonce k n (obs s);
}.

(** ** The effect of a transaction on a ledger *)

Definition commit_step (tx : Transaction) (ds : list DecompressedTransferCt) (l : Ledger) (a : Hash) : Ledger :=
  let o := output_of tx a ds in
  let l := upd_send tx.(source) a (ct_sub (l_send l tx.(source) a tx.(reference)) o) l in
  upd_out tx.(source) a (ct_add (l_out l tx.(source) a) o) l.

Definition transfer_step (l : Ledger) (p : TransferPayload * DecompressedTransferCt) : Ledger :=
  let k := p.1.(destination) in
  let a := p.1.(tr_asset) in
  upd_recv k a (ct_add (l_recv l k a) (d_get_ciphertext p.2 Receiver)) l.

Definition ledger_apply (tx : Transaction) (ds : list DecompressedTransferCt) (l : Ledger) : Ledger :=
  let l := upd_nonce tx.(source) (u64_add tx.(nonce) 1) l in
  let l := foldl (commit_step tx ds) l (assets_of tx) in
  foldl transfer_step l (zip (transfers_of tx) ds).

#[export] Instance commit_step_proper tx ds : Proper ((≡) ==> (=) ==> (≡)) (commit_step tx ds).
Proof.
  intros l1 l2 Hl a ? <-. unfold commit_step. cbn [l_out upd_send].
  destruct (Hl) as (_ & _ & Hs & Ho). by rewrite Hs, Ho, Hl.
Qed.
#[export] Instance transfer_step_proper : Proper ((≡) ==> (=) ==> (≡)) transfer_step.
Proof.
  intros l1 l2 Hl p ? <-. unfold transfer_step. destruct (Hl) as (_ & Hr & _). by rewrite Hr, Hl.
Qed.
#[export] Instance foldl_proper {A} (f : Ledger -> A -> Ledger) :
  Proper ((≡) ==> (=) ==> (≡)) f -> Proper ((≡) ==> (=) ==> (≡)) (foldl f).
Proof.
  intros Hf l1 l2 Hl xs ? <-. revert l1 l2 Hl.
  induction xs as [|x xs IH]; intros l1 l2 Hl; simpl; [done|]. apply IH. by apply Hf.
Qed.

Context {SL : StateLaws}.

(** The assets of the commitments, next to their decompressed forms. *)
Definition pc_asset (p : SourceCommitment * PedersenCommitment) : Hash := p.1.(sc_asset).
Lemma pc_assets tx cs :
  mapMr (fun c => commitment_decompress c.(sc_commitment)) tx.(source_commitments) = Ok cs ->
  pc_asset <$> zip tx.(source_commitments) cs = assets_of tx.
Proof.
  intros Hcs%mapMr_Forall2%Forall2_length. unfold assets_of.
  transitivity (sc_asset <$> (zip tx.(source_commitments) cs).*1);
    [by rewrite <- list_fmap_compose|by rewrite fst_zip by lia].
Qed.

(** ** Helpers on computations *)

Lemma st_modify_ok {A B F} (f : A -> A) (s : A) (b : B) (m : stm A F B) s' :
  (st_modify f ≫= fun _ => m) s = (Ok b, s') -> m (f s) = (Ok b, s').
Proof. done. Qed.

Lemma state_ok {A} (m : stm St E A) s a s' : state m s = (Ok a, s') <-> m s = (Ok a, s').
Proof.
  unfold state, st_map_err. destruct (m s) as [[?| | |] ?]; simpl; split; naive_solver.
Qed.
Lemma state_inv {A} (m : stm St E A) s a s' : state m s = (Ok a, s') -> m s = (Ok a, s').
Proof. by rewrite state_ok. Qed.
Lemma proof_ok {A} (m : res ProofVerificationError A) (s : St) a s' :
  proof (E:=E) m s = (Ok a, s') <-> m = Ok a /\ s' = s.
Proof. unfold proof, lift_res. destruct m; simpl; naive_solver. Qed.
Lemma expect_ok {A F} (m : res F A) (s : St) a s' :
  expect (E:=E) m s = (Ok a, s') <-> m = Ok a /\ s' = s.
Proof. unfold expect, lift_res. destruct m; unfold mret, stm_ret; naive_solver. Qed.
Lemma map_err_ok {A F F'} (f : F -> F') (m : res F A) a : map_err f m = Ok a <-> m = Ok a.
Proof. destruct m; simpl; naive_solver. Qed.
Lemma mret_ok {A S F} (a b : A) (s s' : S) : (mret a : stm S F A) s = (Ok b, s') <-> a = b /\ s' = s.
Proof. unfold mret, stm_ret. naive_solver. Qed.

(** A loop whose body acts on the ledger as [step] does. *)
Lemma foldMs_obs {F A B C} (f : B -> A -> stm St F B) (key : A -> C) (step : Ledger -> C -> Ledger)
    (l : list A) :
  Proper ((≡) ==> (=) ==> (≡)) step ->
  (forall b a s b' s', a ∈ l -> inv s -> f b a s = (Ok b', s') ->
     inv s' /\ obs s' ≡ step (obs s) (key a)) ->
  forall b s b' s', inv s -> foldMs f b l s = (Ok b', s') ->
    inv s' /\ obs s' ≡ foldl step (obs s) (key <$> l).
Proof.
  intros HP. induction l as [|a l IH]; intros Hf b s b' s' Hi Hr; simpl in Hr.
  - apply mret_ok in Hr as [_ ->]. done.
  - apply stm_bind_ok in Hr as (b1 & s1 & H1 & Hr).
    apply Hf in H1 as [Hi1 Ho1]; [|left|done].
    apply IH in Hr as [Hi' Ho']; [|intros; eapply Hf; eauto; by right|done].
    split; [done|]. csimpl. rewrite Ho'. by rewrite Ho1.
Qed.

Lemma get_ciphertext_decompressed t d :
  decompress_transfer t = Ok d ->
  ct_decompress (get_ciphertext t Receiver) = Ok (d_get_ciphertext d Receiver).
Proof.
  unfold decompress_transfer. intros (c & Hc & (sh & Hs & (rh & Hr & [= <-])%res_bind_ok)%res_bind_ok)%res_bind_ok.
  unfold ct_decompress. simpl. by rewrite Hc, Hr.
Qed.

(** The effect of the loop over the commitments, whatever the proofs say. *)
Lemma sender_update tx ds a s c s1 s2 :
  inv s -> get_sender_balance tx.(source) a tx.(reference) s = (Ok c, s1) ->
  add_sender_output tx.(source) a (output_of tx a ds)
    (set_sender_balance tx.(source) a (ct_sub c (output_of tx a ds)) s1) = (Ok tt, s2) ->
  inv s2 /\ obs s2 ≡ commit_step tx ds (obs s) a.
Proof.
  intros Hi Hg Ha. apply law_get_sender in Hg as (_ & _ & Hc & Hset); [|done].
  destruct (Hset (ct_sub c (output_of tx a ds))) as [Hi1 Ho1].
  apply law_add_output in Ha as [Hi2 Ho2]; [|done]. split; [done|].
  rewrite Ho2. unfold commit_step. rewrite Hc. destruct (Ho1) as (_ & _ & _ & Hout).
  by rewrite Hout, Ho1.
Qed.

Lemma receiver_update t d s c s1 :
  inv s -> get_receiver_balance t.(destination) t.(tr_asset) s = (Ok c, s1) ->
  inv (set_receiver_balance t.(destination) t.(tr_asset) (ct_add c (d_get_ciphertext d Receiver)) s1) /\
  obs (set_receiver_balance t.(destination) t.(tr_asset) (ct_add c (d_get_ciphertext d Receiver)) s1)
    ≡ transfer_step (obs s) (t, d).
Proof.
  intros Hi Hg. apply law_get_receiver in Hg as (_ & _ & Hc & Hset); [|done].
  unfold transfer_step; simpl. rewrite Hc. apply Hset.
Qed.

Lemma apply_commitment_obs tx ds c s s' :
  inv s -> apply_commitment tx ds c s = (Ok tt, s') ->
  inv s' /\ obs s' ≡ commit_step tx ds (obs s) c.(sc_asset).
Proof.
  unfold apply_commitment. intros Hi Ha.
  apply stm_bind_ok in Ha as (bal & s1 & Hg & Ha).
  apply stm_bind_ok in Ha as (o & s2 & Ho & Ha).
  apply expect_ok in Ho as [Ho ->]. rewrite output_of_ok in Ho. injection Ho as <-.
  apply st_modify_ok in Ha. by eapply sender_update.
Qed.

Lemma apply_transfer_obs t d s s' :
  decompress_transfer t = Ok d -> inv s -> apply_transfer t s = (Ok tt, s') ->
  inv s' /\ obs s' ≡ transfer_step (obs s) (t, d).
Proof.
  unfold apply_transfer. intros Hd Hi Ha.
  apply stm_bind_ok in Ha as (bal & s1 & Hg & Ha).
  apply stm_bind_ok in Ha as (c & s2 & Hc & Ha).
  apply expect_ok in Hc as [Hc ->]. rewrite (get_ciphertext_decompressed t d) in Hc by done.
  injection Hc as <-. injection Ha as <-. by apply receiver_update.
Qed.

Lemma apply_transfers_obs ts ds s b s' :
  mapMr decompress_transfer ts = Ok ds -> inv s ->
  foldMs (fun _ t => apply_transfer t) b ts s = (Ok tt, s') ->
  inv s' /\ obs s' ≡ foldl transfer_step (obs s) (zip ts ds).
Proof.
  intros Hds%mapMr_Forall2. revert s b. induction Hds as [|t d ts ds Hd _ IH]; intros s b Hi Hr; simpl in Hr.
  - by apply mret_ok in Hr as [_ ->].
  - apply stm_bind_ok in Hr as ([] & s1 & H1 & Hr).
    apply (apply_transfer_obs t d) in H1 as [Hi1 Ho1]; [|done..].
    apply IH in Hr as [Hi' Ho']; [|done]. split; [done|]. simpl. rewrite Ho'. by rewrite Ho1.
Qed.

(** The loops of the verification act on the ledger in the same way. *)
Lemma verify_commitment_obs tx owner ds rnd acc c pc s acc' s' :
  inv s -> verify_commitment tx owner ds rnd acc (c, pc) s = (Ok acc', s') ->
  inv s' /\ obs s' ≡ commit_step tx ds (obs s) c.(sc_asset).
Proof.
  unfold verify_commitment. destruct acc as [[t batch] draws]. intros Hi Ha.
  apply stm_bind_ok in Ha as (o & s1 & Ho & Ha).
  apply proof_ok in Ho as [Ho ->]. rewrite output_of_ok in Ho. injection Ho as <-.
  apply stm_bind_ok in Ha as (bal & s2 & Hg%state_ok & Ha).
  apply st_modify_ok in Ha.
  apply stm_bind_ok in Ha as ([t' b'] & s3 & [_ ->]%proof_ok & Ha).
  apply stm_bind_ok in Ha as ([] & s4 & Hadd%state_ok & [_ ->]%mret_ok).
  by eapply sender_update.
Qed.

Lemma verify_transfer_obs rnd acc t d s acc' s' :
  inv s -> verify_transfer rnd acc (t, d) s = (Ok acc', s') ->
  inv s' /\ obs s' ≡ transfer_step (obs s) (t, d).
Proof.
  unfold verify_transfer. destruct acc as [[tr batch] draws]. intros Hi Ha.
  apply stm_bind_ok in Ha as (o & s1 & [_ ->]%proof_ok & Ha).
  apply stm_bind_ok in Ha as (bal & s2 & Hg%state_ok & Ha).
  apply st_modify_ok in Ha.
  apply stm_bind_ok in Ha as ([t' b'] & s3 & [_ ->]%proof_ok & [_ ->]%mret_ok).
  by apply receiver_update.
Qed.

Lemma check_transfers_ok tx s ds s' :
  check_transfers (St:=St) (E:=E) tx s = (Ok ds, s') ->
  s' = s /\ mapMr decompress_transfer (transfers_of tx) = Ok ds /\
  Forall (fun t => t.(destination) <> tx.(source)) (transfers_of tx) /\
  (length (transfers_of tx) <= MAX_TRANSFER_COUNT)%nat.
Proof.
  unfold check_transfers, transfers_of. destruct (data tx) as [ts|p].
  2: { intros [<- ->]%mret_ok. repeat split; [constructor|simpl; lia]. }
  destruct (Nat.ltb_spec MAX_TRANSFER_COUNT (length ts)) as [|Hle]; [done|].
  destruct (_ =? _)%nat; [done|]. simpl. intros Hr.
  apply stm_bind_ok in Hr as (n & s1 & Hloop & Hr).
  destruct (_ <? _)%nat; [done|]. apply proof_ok in Hr as [Hm%map_err_ok ->].
  enough (s1 = s /\ Forall (fun t => t.(destination) <> tx.(source)) ts) as [-> ?] by done.
  clear -Hloop. revert Hloop. generalize 0%nat. revert s. induction ts as [|t ts IH]; intros s n0 Hl; simpl in Hl.
  - apply mret_ok in Hl as [_ ->]. done.
  - apply stm_bind_ok in Hl as (n1 & s2 & H1 & Hl). case_decide as Hd; [done|].
    assert (s2 = s) as -> by (destruct (extra_data t); by apply mret_ok in H1 as [_ ->]).
    apply IH in Hl as [-> Hf]. auto.
Qed.

Lemma pre_verify_inv tx rnd batch draws s out s' :
  inv s -> pre_verify tx rnd batch draws s = (Ok out, s') ->
  exists ds owner,
    mapMr decompress_transfer (transfers_of tx) = Ok ds /\
    l_nonce (obs s) tx.(source) = tx.(nonce) /\
    verify_commitment_assets tx = true /\
    Forall (fun t => t.(destination) <> tx.(source)) (transfers_of tx) /\
    Key.decompress tx.(source) = Ok owner /\
    Key.verify tx.(signature) (take (length (to_bytes tx) - SIGNATURE_SIZE) (to_bytes tx)) owner = true /\
    inv s' /\ obs s' ≡ ledger_apply tx ds (obs s).
Proof.
  unfold pre_verify. intros Hi Hr.
  apply stm_bind_ok in Hr as ([] & s1 & H1%state_ok & Hr).
  apply law_pre_verify in H1 as [Hi1 Ho1]; [|done].
  apply stm_bind_ok in Hr as (n & s2 & H2%state_ok & Hr).
  apply law_get_nonce in H2 as (Hi2 & Ho2 & Hn); [|done].
  destruct (Z.eqb_spec n tx.(nonce)) as [->|]; [|done]. simpl in Hr.
  apply stm_bind_ok in Hr as ([] & s3 & H3%state_ok & Hr).
  apply law_update_nonce in H3 as (Hi3 & Ho3); [|done].
  destruct (verify_commitment_assets tx) eqn:Hassets; [|done]. simpl in Hr.
  apply stm_bind_ok in Hr as (ds & s4 & H4 & Hr).
  apply check_transfers_ok in H4 as (-> & Hds & Hself & Hcount).
  apply stm_bind_ok in Hr as (cs & s5 & [Hcs%map_err_ok ->]%proof_ok & Hr).
  apply stm_bind_ok in Hr as (owner & s6 & [Hown%map_err_ok ->]%proof_ok & Hr).
  destruct (Key.verify _ _ owner) eqn:Hsig; [|done]. simpl in Hr.
  apply stm_bind_ok in Hr as ([[t1 b1] d1] & s7 & Hl1 & Hr).
  apply stm_bind_ok in Hr as ([[t2 b2] d2] & s8 & Hl2 & Hr).
  apply stm_bind_ok in Hr as (np & s9 & [_ ->]%proof_ok & [_ ->]%mret_ok).
  pose proof (foldMs_obs _ (fun p => p.1.(sc_asset)) (commit_step tx ds) _ _
    (fun b a s b' s' _ => match a with (c, pc) => verify_commitment_obs tx owner ds rnd b c pc s b' s' end)
    _ _ _ _ Hi3 Hl1) as [Hi7 Ho7].
  pose proof (foldMs_obs _ id transfer_step _ _
    (fun b a s b' s' _ => match a with (t, d) => verify_transfer_obs rnd b t d s b' s' end)
    _ _ _ _ Hi7 Hl2) as [Hi8 Ho8].
  exists ds, owner. repeat (split; [first [done | by destruct Ho1 as [<- _]]|]).
  rewrite Ho8, list_fmap_id, Ho7. unfold ledger_apply.
  fold pc_asset. rewrite (pc_assets tx cs Hcs). by rewrite Ho3, Ho2, Ho1.
Qed.
Lemma apply_without_verify_obs tx s s' :
  inv s -> apply_without_verify tx s = (Ok tt, s') ->
  exists ds, mapMr decompress_transfer (transfers_of tx) = Ok ds /\
    inv s' /\ obs s' ≡ ledger_apply tx ds (obs s).
Proof.
  unfold apply_without_verify. intros Hi Ha.
  apply stm_bind_ok in Ha as ([] & s1 & H1 & Ha). apply law_update_nonce in H1 as [Hi1 Ho1]; [|done].
  apply stm_bind_ok in Ha as (ds & s2 & [Hds ->]%expect_ok & Ha).
  apply stm_bind_ok in Ha as ([] & s3 & Hl & Ha).
  pose proof (foldMs_obs _ sc_asset (commit_step tx ds) _ _
    (fun b a s b' s' _ => match b' with tt => apply_commitment_obs tx ds a s s' end)
    _ _ _ _ Hi1 Hl) as [Hi3 Ho3].
  apply (apply_transfers_obs _ ds) in Ha as [Hi' Ho']; [|done..].
  exists ds. repeat (split; [done|]). rewrite Ho', Ho3. unfold ledger_apply. by rewrite Ho1.
Qed.

(** *** The partial verification

    The balances are first read and the proofs checked; the debits follow. *)

Definition pin_step (tx : Transaction) (l : Ledger) (a : Hash) : Ledger :=
  upd_send tx.(source) a (l_send l tx.(source) a tx.(reference)) l.
Definition debit_step (tx : Transaction) (ds : list DecompressedTransferCt) (l0 l : Ledger) (a : Hash) : Ledger :=
  let o := output_of tx a ds in
  let l := upd_send tx.(source) a (ct_sub (l_send l0 tx.(source) a tx.(reference)) o) l in
  upd_out tx.(source) a (ct_add (l_out l tx.(source) a) o) l.

(** What a transaction does apart from the nonce of its source. *)
Definition ledger_apply_balances (tx : Transaction) (ds : list DecompressedTransferCt) (l : Ledger) : Ledger :=
  foldl transfer_step (foldl (commit_step tx ds) l (assets_of tx)) (zip (transfers_of tx) ds).

#[export] Instance pin_step_proper tx : Proper ((≡) ==> (=) ==> (≡)) (pin_step tx).
Proof.
  intros l1 l2 Hl a ? <-. unfold pin_step. destruct (Hl) as (_ & _ & Hs & _). by rewrite Hs, Hl.
Qed.
#[export] Instance debit_step_proper tx ds l0 : Proper ((≡) ==> (=) ==> (≡)) (debit_step tx ds l0).
Proof.
  intros l1 l2 Hl a ? <-. unfold debit_step. cbn [l_out upd_send].
  destruct (Hl) as (_ & _ & _ & Ho). by rewrite Ho, Hl.
Qed.

(** Two ledgers that differ only in what other references than the one of the
    transaction see of the assets still to be debited. *)
Definition agree_but (tx : Transaction) (rem : list Hash) (l1 l2 : Ledger) : Prop :=
  (forall k, l_nonce l1 k = l_nonce l2 k) /\
  (forall k a, l_recv l1 k a = l_recv l2 k a) /\
  (forall k a r, (k = tx.(source) -> a ∈ rem -> r = tx.(reference)) -> l_send l1 k a r = l_send l2 k a r) /\
  (forall k a, l_out l1 k a = l_out l2 k a).

Lemma agree_but_nil tx l1 l2 : agree_but tx [] l1 l2 -> l1 ≡ l2.
Proof.
  intros (H1 & H2 & H3 & H4). repeat split; try done. intros. apply H3. set_solver.
Qed.

Lemma pin_agree tx assets l : agree_but tx assets (foldl (pin_step tx) l assets) l.
Proof.
  enough (forall seen l1, agree_but tx (seen ++ assets) l1 l ->
    agree_but tx (seen ++ assets) (foldl (pin_step tx) l1 assets) l) as He.
  { apply (He [] l). by repeat split. }
  induction assets as [|a assets IH]; intros seen l1 Hl; [done|].
  cbn [foldl]. replace (seen ++ a :: assets) with ((seen ++ [a]) ++ assets) in * by by rewrite <- (assoc_L (++)).
  apply IH. destruct Hl as (H1 & H2 & H3 & H4). unfold pin_step. repeat split; simpl; try done.
  intros k b r Hr. unfold fn_upd.
  destruct (decide (tx.(source) = k)) as [<-|]; [|by apply H3].
  destruct (decide (a = b)) as [<-|]; [|by apply H3].
  rewrite (Hr eq_refl) by set_solver. apply H3. auto.
Qed.

Lemma debit_agree tx ds l0 rem l1 l2 :
  NoDup rem -> agree_but tx rem l1 l2 ->
  (forall a, a ∈ rem -> l_send l2 tx.(source) a tx.(reference) = l_send l0 tx.(source) a tx.(reference)) ->
  foldl (debit_step tx ds l0) l1 rem ≡ foldl (commit_step tx ds) l2 rem.
Proof.
  intros Hnd. revert l1 l2. induction Hnd as [|a rem Ha _ IH]; intros l1 l2 Hl H0; [by eapply agree_but_nil|].
  cbn [foldl]. apply IH.
  - destruct Hl as (H1 & H2 & H3 & H4). unfold debit_step, commit_step. repeat split; simpl; try done.
    + intros k b r Hr. unfold fn_upd. rewrite H0 by left.
      destruct (decide (tx.(source) = k)) as [<-|]; [|apply H3; done].
      destruct (decide (a = b)) as [<-|Hne]; [done|]. apply H3. intros _ [->|Hb]%list.elem_of_cons; [done|auto].
    + intros k b. unfold fn_upd. rewrite H4. repeat case_decide; auto.
  - intros b Hb. unfold commit_step; simpl. rewrite fn_upd_eq, fn_upd_ne by (intros ->; done).
    apply H0. by right.
Qed.

Lemma partial_commitment_obs tx owner ds rnd t b d cs c pc s acc' s' :
  inv s -> partial_commitment tx owner ds rnd (t, b, d, cs) (c, pc) s = (Ok acc', s') ->
  inv s' /\ obs s' ≡ pin_step tx (obs s) c.(sc_asset) /\
  acc'.2 = cs ++ [(ct_sub (l_send (obs s) tx.(source) c.(sc_asset) tx.(reference))
                     (output_of tx c.(sc_asset) ds), output_of tx c.(sc_asset) ds, c.(sc_asset))].
Proof.
  unfold partial_commitment. intros Hi Ha.
  apply stm_bind_ok in Ha as (o & s1 & Ho & Ha).
  apply proof_ok in Ho as [Ho ->]. rewrite output_of_ok in Ho. injection Ho as <-.
  apply stm_bind_ok in Ha as (bal & s2 & Hg%state_ok & Ha).
  apply stm_bind_ok in Ha as ([t' b'] & s3 & [_ ->]%proof_ok & [<- ->]%mret_ok).
  apply law_get_sender in Hg as (Hi' & Ho & Hc & _); [|done].
  unfold pin_step. rewrite Hc. done.
Qed.

(** The changes computed by the first loop, and the state it leaves. *)

Lemma partial_commitments_obs tx owner ds rnd l acc s acc' s' :
  inv s -> foldMs (partial_commitment tx owner ds rnd) acc l s = (Ok acc', s') ->
  let changes := (fun a => (ct_sub (l_send (obs s) tx.(source) a tx.(reference)) (output_of tx a ds),
                            output_of tx a ds, a)) <$> (pc_asset <$> l) in
  inv s' /\ obs s' ≡ foldl (pin_step tx) (obs s) (pc_asset <$> l) /\
  acc'.2 = acc.2 ++ changes.
Proof.
  revert acc s. induction l as [|[c pc] l IH]; intros acc s Hi Hr.
  - apply mret_ok in Hr as [<- ->]. simpl. by rewrite app_nil_r.
  - cbn [foldMs] in Hr. apply stm_bind_ok in Hr as (acc1 & s1 & H1 & Hr).
    destruct acc as [[[t b] d] cs]. apply partial_commitment_obs in H1 as (Hi1 & Ho1 & Hc1); [|done].
    apply IH in Hr as (Hi' & Ho' & Hc'); [|done]. split; [done|]. csimpl. split; [by rewrite Ho', Ho1|].
    rewrite Hc', Hc1, <- (assoc_L (++)). f_equal. csimpl. f_equal.
    apply list_fmap_ext. intros i a _.
    destruct (Ho1) as (_ & _ & Hs & _). rewrite Hs. unfold pin_step; simpl. unfold fn_upd.
    rewrite decide_True by done. destruct (decide (sc_asset c = a)) as [->|]; done.
Qed.

Lemma apply_change_obs tx ds l0 a s s' :
  inv s ->
  apply_change tx (ct_sub (l_send l0 tx.(source) a tx.(reference)) (output_of tx a ds),
                   output_of tx a ds, a) s = (Ok tt, s') ->
  inv s' /\ obs s' ≡ debit_step tx ds l0 (obs s) a.
Proof.
  unfold apply_change. intros Hi Ha. apply stm_bind_ok in Ha as (c & s1 & Hg%state_ok & Ha).
  apply st_modify_ok in Ha. apply state_ok in Ha.
  apply law_get_sender in Hg as (_ & _ & _ & Hset); [|done].
  destruct (Hset (ct_sub (l_send l0 tx.(source) a tx.(reference)) (output_of tx a ds))) as [Hi1 Ho1].
  apply law_add_output in Ha as [Hi2 Ho2]; [|done]. split; [done|].
  rewrite Ho2. unfold debit_step. destruct (Ho1) as (_ & _ & _ & Hout). by rewrite Hout, Ho1.
Qed.

Lemma apply_changes_obs tx ds l0 assets s u s' :
  inv s ->
  foldMs (fun _ change => apply_change tx change) tt
    ((fun a => (ct_sub (l_send l0 tx.(source) a tx.(reference)) (output_of tx a ds),
                output_of tx a ds, a)) <$> assets) s = (Ok u, s') ->
  inv s' /\ obs s' ≡ foldl (debit_step tx ds l0) (obs s) assets.
Proof.
  revert s. induction assets as [|a assets IH]; intros s Hi Hr; csimpl in Hr.
  - by apply mret_ok in Hr as [_ ->].
  - apply stm_bind_ok in Hr as ([] & s1 & H1 & Hr).
    apply (apply_change_obs tx ds l0 a) in H1 as [Hi1 Ho1]; [|done].
    apply IH in Hr as [Hi' Ho']; [|done]. split; [done|]. simpl. by rewrite Ho', Ho1.
Qed.

Lemma state_transfers l s u s' :
  foldMs (fun (_ : ()) t => state (E:=E) (apply_transfer t)) tt l s = (Ok u, s') ->
  foldMs (fun (_ : ()) t => apply_transfer t) tt l s = (Ok tt, s').
Proof.
  revert s. induction l as [|t l IH]; intros s Hr; simpl in *.
  - by apply mret_ok in Hr as [_ ->].
  - apply stm_bind_ok in Hr as ([] & s1 & H1%state_ok & Hr). rewrite (stm_bind_run _ _ _ _ _ H1). auto.
Qed.

Lemma apply_with_partial_verify_obs tx rnd s s' :
  inv s -> NoDup (assets_of tx) -> apply_with_partial_verify tx rnd s = (Ok tt, s') ->
  exists ds, mapMr decompress_transfer (transfers_of tx) = Ok ds /\
    inv s' /\ obs s' ≡ ledger_apply_balances tx ds (obs s).
Proof.
  unfold apply_with_partial_verify. intros Hi Hnd Hr.
  apply stm_bind_ok in Hr as (ds & s1 & [Hds%map_err_ok ->]%proof_ok & Hr).
  apply stm_bind_ok in Hr as (cs & s2 & [Hcs%map_err_ok ->]%proof_ok & Hr).
  apply stm_bind_ok in Hr as (owner & s3 & [_ ->]%proof_ok & Hr).
  apply stm_bind_ok in Hr as ([[[t b] d] changes] & s4 & Hl1 & Hr).
  apply partial_commitments_obs in Hl1 as (Hi4 & Ho4 & Hch); [|done]. simpl in Hch.
  rewrite (pc_assets tx cs Hcs) in *. subst changes.
  apply stm_bind_ok in Hr as ([] & s5 & [_ ->]%proof_ok & Hr).
  apply stm_bind_ok in Hr as ([] & s6 & Hl2 & Hr).
  apply apply_changes_obs in Hl2 as [Hi6 Ho6]; [|done].
  apply state_transfers, (apply_transfers_obs _ ds) in Hr as [Hi' Ho']; [|done..].
  exists ds. split; [done|]. split; [done|]. rewrite Ho'. unfold ledger_apply_balances.
  rewrite Ho6, Ho4. by rewrite (debit_agree tx ds (obs s) (assets_of tx) _ (obs s) Hnd (pin_agree tx _ _)).
Qed.
End Refinement.

(** ** Conservation *)

Section Conservation.
Context {CV : Curve} {ML : Merlin} {RP : RangeProofLib}.
Add Ring IdealRing : ideal_ring.

(** The commitments to what a set of accounts has received. *)
Definition total_recv (l : Ledger) (ks : list CompressedPublicKey) (a : Hash) : point :=
  psum ((fun k => commit (l_recv l k a)) <$> ks).

Lemma psum_change (f g : CompressedPublicKey -> point) ks k c :
  NoDup ks -> k ∈ ks -> g k = padd (f k) c -> (forall k', k' <> k -> g k' = f k') ->
  psum (g <$> ks) = padd (psum (f <$> ks)) c.
Proof.
  intros Hnd Hin Hk Hne. induction Hnd as [|k0 ks Hk0 Hnd IH]; [by inversion Hin|].
  csimpl. unfold psum in *; simpl. destruct (decide (k0 = k)) as [->|Hd].
  - assert (g <$> ks = f <$> ks) as ->.
    { apply list_fmap_ext. intros i k' Hk'. apply Hne. intros ->.
      apply Hk0. by apply list_elem_of_lookup_2 in Hk'. }
    rewrite Hk. point_ring.
  - rewrite Hne, IH by set_solver. apply padd_assoc.
Qed.

Lemma total_recv_upd l ks k b c a :
  NoDup ks -> k ∈ ks ->
  total_recv (upd_recv k b (ct_add (l_recv l k b) c) l) ks a =
    padd (total_recv l ks a) (if decide (a = b) then commit c else pid).
Proof.
  intros Hnd Hin. apply (psum_change _ _ _ k); try done; simpl.
  - rewrite fn_upd_eq. unfold fn_upd. repeat case_decide; subst; try congruence.
    + apply commit_add.
    + by rewrite padd_id_r.
  - intros k' Hk'. by rewrite fn_upd_ne.
Qed.

Lemma total_recv_fold ks zs l a :
  NoDup ks -> Forall (fun p => p.1.(destination) ∈ ks) zs ->
  total_recv (foldl transfer_step l zs) ks a = padd (total_recv l ks a) (psum (moved a zs)).
Proof.
  intros Hnd Hf. revert l. induction Hf as [|[t d] zs Hin _ IH]; intros l; simpl.
  - unfold moved, psum; simpl. by rewrite padd_id_r.
  - rewrite IH. unfold transfer_step; simpl. rewrite total_recv_upd by done.
    unfold moved. rewrite filter_cons; simpl. case_decide; csimpl; unfold psum; simpl; [|point_ring].
    change (commit (d_get_ciphertext d Receiver)) with (commitment_pt (d_commitment d)). point_ring.
Qed.

Lemma fold_transfer_out zs l : l_out (foldl transfer_step l zs) = l_out l.
Proof. revert l. induction zs as [|p zs IH]; intros l; simpl; [done|]. by rewrite IH. Qed.
Lemma fold_transfer_nonce zs l : l_nonce (foldl transfer_step l zs) = l_nonce l.
Proof. revert l. induction zs as [|p zs IH]; intros l; simpl; [done|]. by rewrite IH. Qed.
Lemma fold_commit_recv tx ds assets l : l_recv (foldl (commit_step tx ds) l assets) = l_recv l.
Proof. revert l. induction assets as [|a assets IH]; intros l; simpl; [done|]. by rewrite IH. Qed.
Lemma fold_commit_nonce tx ds assets l : l_nonce (foldl (commit_step tx ds) l assets) = l_nonce l.
Proof. revert l. induction assets as [|a assets IH]; intros l; simpl; [done|]. by rewrite IH. Qed.

(** Each asset with a commitment is debited once. *)
Lemma fold_commit_out tx ds assets l a :
  NoDup assets ->
  l_out (foldl (commit_step tx ds) l assets) tx.(source) a =
    if decide (a ∈ assets) then ct_add (l_out l tx.(source) a) (output_of tx a ds)
    else l_out l tx.(source) a.
Proof.
  intros Hnd. revert l. induction Hnd as [|b assets Hb _ IH]; intros l; simpl.
  - destruct (decide (a ∈ [])); [set_solver|done].
  - rewrite IH. unfold commit_step; simpl. rewrite fn_upd_eq.
    destruct (decide (a = b)) as [->|Hne].
    + destruct (decide (b ∈ assets)) as [|_]; [done|].
      destruct (decide (b ∈ b :: assets)); [by rewrite fn_upd_eq|set_solver].
    + rewrite fn_upd_ne by done.
      destruct (decide (a ∈ assets)), (decide (a ∈ b :: assets)); set_solver.
Qed.

Lemma unspent_asset tx ds a :
  verify_commitment_assets tx = true -> a ∉ assets_of tx ->
  plain tx a = s0 /\ moved a (zip (transfers_of tx) ds) = [].
Proof.
  rewrite verify_commitment_assets_iff. intros (Hx & _ & Hspent) Ha.
  assert (a <> XELIS_ASSET) as Hax by (intros ->; done).
  assert (a ∉ spent_assets tx) as Hs by (intros Hin; by apply Ha, Hspent).
  unfold plain, spent_assets, transfers_of in *. rewrite decide_False by done.
  destruct (data tx) as [ts|p].
  - split; [apply (Ring_theory.Radd_0_l scalar_ring)|].
    unfold moved. clear -Hs. revert ds. induction ts as [|t ts IH]; intros [|d ds]; simpl; try done.
    rewrite filter_cons; simpl. csimpl in Hs. rewrite decide_False by set_solver. apply IH. set_solver.
  - rewrite decide_False by set_solver. split; [apply (Ring_theory.Radd_0_l scalar_ring)|done].
Qed.

Lemma ledger_apply_conserves tx ds l ks a :
  verify_commitment_assets tx = true -> NoDup ks ->
  Forall (fun t => t.(destination) ∈ ks) (transfers_of tx) ->
  padd (total_recv (ledger_apply tx ds l) ks a)
    (padd (pmul (plain tx a) G) (commit (l_out l tx.(source) a))) =
  padd (total_recv l ks a) (commit (l_out (ledger_apply tx ds l) tx.(source) a)).
Proof.
  intros Hv Hnd Hks. unfold ledger_apply. rewrite fold_transfer_out.
  rewrite fold_commit_out by (apply verify_commitment_assets_iff in Hv; naive_solver).
  rewrite total_recv_fold; [|done|].
  2: { apply list.Forall_forall. intros [t d] Hin%elem_of_zip_l. rewrite list.Forall_forall in Hks. auto. }
  assert (forall l', l_recv l' = l_recv l -> total_recv l' ks a = total_recv l ks a) as Hrecv
    by (intros l' E; unfold total_recv; by rewrite E).
  rewrite Hrecv by by rewrite fold_commit_recv.
  cbn [l_out upd_nonce]. case_decide as Ha.
  - rewrite commit_add, commit_output. point_ring.
  - destruct (unspent_asset tx ds a Hv Ha) as [-> ->]. unfold psum; simpl. point_ring.
Qed.
End Conservation.

(** ** Properties *)

Section Properties.
Context {CV : Curve} {ML : Merlin} {RP : RangeProofLib}.

(** [verify_commitment_assets] accepts a transaction exactly when it has a
    commitment for the native asset, at most one commitment per asset, and a
    commitment for each asset it transfers or burns. *)
Theorem verify_commitment_assets_spec (tx : Transaction) :
  verify_commitment_assets tx = true <->
    XELIS_ASSET ∈ assets_of tx /\ NoDup (assets_of tx) /\
    forall a, a ∈ spent_assets tx -> a ∈ assets_of tx.
Proof. apply verify_commitment_assets_iff. Qed.

Context {St E : Type} {BS : BlockchainVerificationState St E} {SL : StateLaws}.

(** Applying a transaction without verification to any state that keeps
    the promises of [StateLaws] does exactly [ledger_apply]: it sets the nonce
    of the source, debits it once per commitment, and credits each transfer. *)
Theorem apply_without_verify_refines (tx : Transaction) (s s' : St)
    (Hi : inv s) (Ha : apply_without_verify tx s = (Ok tt, s')) :
  exists ds, mapMr decompress_transfer (transfers_of tx) = Ok ds /\
    inv s' /\ obs s' ≡ ledger_apply tx ds (obs s).
Proof.
  by apply apply_without_verify_obs.
Qed.

(** C6: a transaction that [verify] accepts has the nonce the state expects, a
    well-formed set of commitments, no transfer to its own source and a valid
    signature over its bytes; and the state it leaves differs from the initial
    one by [ledger_apply], exactly as if the transaction had been applied
    without verification. *)
Theorem verify_refines (tx : Transaction) (rnd : nat -> scalar) (s s' : St)
    (Hi : inv s) (Hv : verify tx rnd s = (Ok tt, s')) :
  exists ds owner,
    mapMr decompress_transfer (transfers_of tx) = Ok ds /\
    l_nonce (obs s) tx.(source) = tx.(nonce) /\
    verify_commitment_assets tx = true /\
    Forall (fun t => t.(destination) <> tx.(source)) (transfers_of tx) /\
    Key.decompress tx.(source) = Ok owner /\
    Key.verify tx.(signature) (take (length (to_bytes tx) - SIGNATURE_SIZE) (to_bytes tx)) owner = true /\
    inv s' /\ obs s' ≡ ledger_apply tx ds (obs s).
Proof.
  unfold verify in Hv. apply stm_bind_ok in Hv as ([[[t cs] b] d] & s1 & Hp & Hv).
  apply stm_bind_ok in Hv as ([] & s2 & [_ ->]%proof_ok & [_ ->]%proof_ok).
  by eapply pre_verify_inv.
Qed.

(** The partial verification used when a block is executed debits and
    credits exactly what the full application does, and leaves the nonces
    alone: the caller sets the nonce. *)
Theorem partial_verify_refines (tx : Transaction) (rnd : nat -> scalar) (s s' : St)
    (Hi : inv s) (Hnd : NoDup (assets_of tx))
    (Ha : apply_with_partial_verify tx rnd s = (Ok tt, s')) :
  exists ds, mapMr decompress_transfer (transfers_of tx) = Ok ds /\
    inv s' /\ obs s' ≡ ledger_apply_balances tx ds (obs s).
Proof. by apply (apply_with_partial_verify_obs tx rnd). Qed.

(** Conservation.  When a transaction with well-formed commitments is
    applied, then for every asset the commitments credited to the receivers
    plus the public amounts (fee and burn) equal what is added to the outputs
    of the source: no asset is created or lost. *)
Theorem apply_conserves (tx : Transaction) (s s' : St) (ks : list CompressedPublicKey) (a : Hash)
    (Hi : inv s) (Hv : verify_commitment_assets tx = true)
    (Ha : apply_without_verify tx s = (Ok tt, s'))
    (Hnd : NoDup ks) (Hks : Forall (fun t => t.(destination) ∈ ks) (transfers_of tx)) :
  padd (total_recv (obs s') ks a)
    (padd (pmul (plain tx a) G) (commit (l_out (obs s) tx.(source) a))) =
  padd (total_recv (obs s) ks a) (commit (l_out (obs s') tx.(source) a)).
Proof.
  destruct (apply_without_verify_obs tx s s' Hi Ha) as (ds & _ & _ & (_ & Hr & _ & Ho)).
  rewrite Ho, <- (ledger_apply_conserves tx ds (obs s) ks a Hv Hnd Hks). f_equal.
  unfold total_recv. f_equal. apply list_fmap_ext. intros i k _. by rewrite Hr.
Qed.
End Properties.
