(* ===== verification/VerifyModel.v ===== *)
(** A ledger is itself a state that keeps [StateLaws]: the abstract
    specification is implementable.  A burn transaction, signed and proved with
    the functions of the code on the model of the curve, is then verified and
    applied on it. *)

From S2P Require Import Prelude External ExternalCrypto Serializer Hash Defaults Elgamal Proofs Transaction Verify VerifyFacts.

Section LedgerState.
Context {CV : Curve} {ML : Merlin} {RP : RangeProofLib}.

Definition ledger_state : BlockchainVerificationState Ledger () := {|
  pre_verify_tx tx := mret tt;
  get_receiver_balance k a := l ← st_get; mret (l_recv l k a);
  set_receiver_balance := upd_recv;
  get_sender_balance k a r :=
    l ← st_get; _ ← st_modify (upd_send k a (l_send l k a r)); mret (l_send l k a r);
  set_sender_balance := upd_send;
  add_sender_output k a c := st_modify (fun l => upd_out k a (ct_add (l_out l k a) c) l);
  get_account_nonce k := l ← st_get; mret (l_nonce l k);
  update_account_nonce k n := st_modify (upd_nonce k n);
|}.

#[local] Existing Instance ledger_state.

Definition ledger_laws : StateLaws (St:=Ledger) (E:=()).
Proof.
  refine {| obs l := l; inv _ := True |}; simpl.
  - by intros tx s s' _ [= ->].
  - by intros k a s c s' _ [= <- <-].
  - intros k a r s c s' _ [= <- <-]. do 3 (split; [done|]). intros c'. split; [done|].
    apply upd_send_twice.
  - by intros k a c s s' _ [= <-].
  - by intros k s n s' _ [= <- <-].
  - by intros k n s s' _ [= <-].
Defined.
End LedgerState.

#[local] Existing Instances curve_model merlin_model range_proof_model ledger_state ledger_laws.

(** The account of [w_pair] owns 1000 and burns 12, paying a fee of 100. *)
Definition v_key : CompressedPublicKey := Key.compress w_key.
Definition v_balance : Ciphertext := Key.encrypt_with_opening w_key (s_from_u64 200) (mkOpening (fs 9)).
Definition v_opening : PedersenOpening := mkOpening (fs 4).
Definition v_commitment : PedersenCommitment := pedersen_with_opening (s_from_u64 88) v_opening.

Definition v_ledger : Ledger :=
  mkLedger (fun _ => 7) (fun _ _ => ct_zero) (fun _ _ _ => v_balance) (fun _ _ => ct_zero).

(** The prover's transcript, as [pre_verify] builds it. *)
Definition v_transcript : transcript :=
  let t := prepare_transcript 0 v_key 100 7 in
  let t := Transcript.new_commitment_eq_proof_domain_separator t in
  let t := Transcript.append_hash (lit "new_source_commitment_asset") XELIS_ASSET t in
  Transcript.append_commitment (lit "new_source_commitment") (pedersen_compress v_commitment) t.

Definition v_unsigned (sig : Signature) : Transaction :=
  let left := ct_sub_u64 v_balance 112 in
  let p := eq_proof_new w_pair left v_opening 88 (fs 2) (fs 3) (fs 6) v_transcript in
  transaction_new v_key (Burn (mkBurn XELIS_ASSET 12)) 100 7
    [mkSourceCommitment (pedersen_compress v_commitment) p.1 XELIS_ASSET]
    w_range (mkReference HashOps.max 55) sig.

Definition v_tx : Transaction :=
  let bytes := to_bytes (v_unsigned (mkSignature (fs 0) (fs 0))) in
  v_unsigned (Key.sign w_pair (fs 11) (take (length bytes - SIGNATURE_SIZE) bytes)).

Definition v_rnd (n : nat) : scalar := fs (Z.of_nat n + 3).
#[local] Abbreviation v_result := (verify v_tx v_rnd v_ledger).
#[local] Abbreviation v_applied := (apply_without_verify v_tx v_ledger).

Definition is_done {A F S} (r : res F A * S) : bool := is_ok r.1.

Lemma is_done_ok {F S} (r : res F () * S) : is_done r = true -> r = (Ok tt, r.2).
Proof. by destruct r as [[[]| | |] s]. Qed.

Lemma v_result_done : is_done v_result = true.
Proof. vm_cast_no_check (eq_refl true). Qed.
Lemma v_applied_done : is_done v_applied = true.
Proof. vm_cast_no_check (eq_refl true). Qed.

Lemma apply_without_verify_refines_witness :
  exists ds, mapMr decompress_transfer (transfers_of v_tx) = Ok ds /\
    inv v_applied.2 /\ obs v_applied.2 ≡ ledger_apply v_tx ds (obs v_ledger).
Proof.
  exact (apply_without_verify_refines v_tx v_ledger v_applied.2 I (is_done_ok v_applied v_applied_done)).
Defined.

Lemma verify_refines_witness :
  exists ds owner,
    mapMr decompress_transfer (transfers_of v_tx) = Ok ds /\
    l_nonce (obs v_ledger) v_tx.(source) = v_tx.(nonce) /\
    verify_commitment_assets v_tx = true /\
    Forall (fun t => t.(destination) <> v_tx.(source)) (transfers_of v_tx) /\
    Key.decompress v_tx.(source) = Ok owner /\
    Key.verify v_tx.(signature) (take (length (to_bytes v_tx) - SIGNATURE_SIZE) (to_bytes v_tx)) owner
      = true /\
    inv v_result.2 /\ obs v_result.2 ≡ ledger_apply v_tx ds (obs v_ledger).
Proof. exact (verify_refines v_tx v_rnd v_ledger v_result.2 I (is_done_ok v_result v_result_done)). Defined.

#[local] Abbreviation v_partial := (apply_with_partial_verify v_tx v_rnd v_ledger).
Lemma v_partial_done : is_done v_partial = true.
Proof. vm_cast_no_check (eq_refl true). Qed.

Lemma partial_verify_refines_witness :
  exists ds, mapMr decompress_transfer (transfers_of v_tx) = Ok ds /\
    inv v_partial.2 /\ obs v_partial.2 ≡ ledger_apply_balances v_tx ds (obs v_ledger).
Proof.
  exact (partial_verify_refines v_tx v_rnd v_ledger v_partial.2 I (NoDup_singleton XELIS_ASSET)
    (is_done_ok v_partial v_partial_done)).
Defined.

Lemma apply_conserves_witness :
  padd (total_recv (obs v_applied.2) [v_key] XELIS_ASSET)
    (padd (pmul (plain v_tx XELIS_ASSET) G) (commit (l_out (obs v_ledger) v_tx.(source) XELIS_ASSET))) =
  padd (total_recv (obs v_ledger) [v_key] XELIS_ASSET)
    (commit (l_out (obs v_applied.2) v_tx.(source) XELIS_ASSET)).
Proof.
  exact (apply_conserves v_tx v_ledger v_applied.2 [v_key] XELIS_ASSET I
    (eq_refl true <: verify_commitment_assets v_tx = true)
    (is_done_ok v_applied v_applied_done) (NoDup_singleton v_key) (Forall_nil _)).
Defined.

(** ** An account spends what it does not have

    The same burn of 12 with a fee of 100, by an account that owns 5: with the
    proof of [eq_proof_forge], that 88 are left, the transaction is accepted. *)

Definition o_balance : Ciphertext := Key.encrypt_with_opening w_key (s_from_u64 5) (mkOpening (fs 9)).
Definition o_ledger : Ledger :=
  mkLedger (fun _ => 7) (fun _ _ => ct_zero) (fun _ _ _ => o_balance) (fun _ _ => ct_zero).
Definition o_unsigned (sig : Signature) : Transaction :=
  let left := ct_sub_u64 o_balance 112 in
  let p := eq_proof_forge w_pair left v_opening (ssub (s_from_u64 5) (s_from_u64 112)) 88 (fs 2) (fs 3) (fs 6) v_transcript in
  transaction_new v_key (Burn (mkBurn XELIS_ASSET 12)) 100 7
    [mkSourceCommitment (pedersen_compress v_commitment) p XELIS_ASSET]
    w_range (mkReference HashOps.max 55) sig.
Definition o_tx : Transaction :=
  let bytes := to_bytes (o_unsigned (mkSignature (fs 0) (fs 0))) in
  o_unsigned (Key.sign w_pair (fs 11) (take (length bytes - SIGNATURE_SIZE) bytes)).

Lemma overdraft_accepted :
  Key.decrypt_to_point (Key.private_key w_pair) (l_send o_ledger o_tx.(source) XELIS_ASSET o_tx.(reference)) = pmul (s_from_u64 5) G /\
  plain o_tx XELIS_ASSET = s_from_u64 112 /\ is_done (verify o_tx v_rnd o_ledger) = true.
Proof. split; [|split]; [apply (bool_decide_unpack _); vm_compute; exact I..|vm_cast_no_check (eq_refl true)]. Qed.
