(* ===== verification/Block.v ===== *)
(** [xelis_common::block]: the header, the block and the work unit of a miner.

    A header is identified by the fast hash of its 112-byte work buffer and is
    mined with the proof-of-work hash of the same buffer.  [MinerWork] is the
    miner's copy of that buffer, patched in place in a cache. *)

From S2P Require Import Prelude External ExternalModel ExternalCrypto Serializer Hash Defaults Elgamal Proofs Transaction.

Definition EXTRA_NONCE_SIZE : nat := 32.
Definition HEADER_WORK_SIZE : nat := 73.
Definition BLOCK_WORK_SIZE : nat := 112.
Definition TIPS_LIMIT : nat := 3.

(** [slice[off..off + src.len()].copy_from_slice(src)] *)
Definition copy_at {E} (off : nat) (src l : list byte) : res E (list byte) :=
  if bool_decide (off + length src <= length l)%nat
  then Ok (take off l ++ src ++ drop (off + length src) l)
  else Panic.

(** ** header.rs *)
Section Header.
Context {IS : IndexSetLib Hash}.

Record BlockHeader := mkHeader {
  bh_version : Z;
  bh_tips : iset Hash;
  bh_timestamp : Z;
  bh_height : Z;
  bh_nonce : Z;
  bh_extra_nonce : vec byte 32;
  bh_miner : CompressedPublicKey;
  bh_txs_hashes : iset Hash;
}.

Definition header_new (version height timestamp : Z) (tips : iset Hash) (extra_nonce : vec byte 32)
    (miner : CompressedPublicKey) (txs_hashes : iset Hash) : BlockHeader :=
  mkHeader version tips timestamp height 0 extra_nonce miner txs_hashes.

Definition set_header_miner (key : CompressedPublicKey) (h : BlockHeader) : BlockHeader :=
  mkHeader h.(bh_version) h.(bh_tips) h.(bh_timestamp) h.(bh_height) h.(bh_nonce)
    h.(bh_extra_nonce) key h.(bh_txs_hashes).
Definition set_header_extra_nonce (values : vec byte 32) (h : BlockHeader) : BlockHeader :=
  mkHeader h.(bh_version) h.(bh_tips) h.(bh_timestamp) h.(bh_height) h.(bh_nonce)
    values h.(bh_miner) h.(bh_txs_hashes).

Definition get_txs_count (h : BlockHeader) : nat := iset_len h.(bh_txs_hashes).

(** *** Serialization *)

#[export] Instance BlockHeader_Serializer : Serializer BlockHeader := {|
  write h w :=
    let w := Writer.write_u8 h.(bh_version) w in
    let w := Writer.write_u64 h.(bh_height) w in
    let w := Writer.write_u64 h.(bh_timestamp) w in
    let w := Writer.write_u64 h.(bh_nonce) w in
    let w := Writer.write_bytes (vec_to_list h.(bh_extra_nonce)) w in
    let w := Writer.write_u8 (wrap 8 (Z.of_nat (iset_len h.(bh_tips)))) w in
    let w := foldl (fun w tip => write_hash tip w) w (iset_list h.(bh_tips)) in
    let w := Writer.write_u16 (wrap 16 (Z.of_nat (iset_len h.(bh_txs_hashes)))) w in
    let w := foldl (fun w tx => write_hash tx w) w (iset_list h.(bh_txs_hashes)) in
    write h.(bh_miner) w;
  read :=
    version ← Reader.read_u8;
    if negb (version =? 0) then rd_err InvalidValue
    else
      height ← Reader.read_u64;
      timestamp ← Reader.read_u64;
      nonce ← Reader.read_u64;
      extra_nonce ← Reader.read_bytes_32;
      tips_count ← Reader.read_u8;
      if Z.of_nat TIPS_LIMIT <? tips_count then rd_err InvalidValue
      else
        tips ← read_set InvalidValue read_hash (Z.to_nat tips_count) iset_new;
        txs_count ← Reader.read_u16;
        txs_hashes ← read_set InvalidValue read_hash (Z.to_nat txs_count) iset_new;
        miner ← read (A:=CompressedPublicKey);
        mret (mkHeader version tips timestamp height nonce extra_nonce miner txs_hashes);
  size h :=
    let tips_size := (1 + iset_len h.(bh_tips) * HASH_SIZE)%nat in
    let txs_size := (2 + iset_len h.(bh_txs_hashes) * HASH_SIZE)%nat in
    let version_size := 1%nat in
    (EXTRA_NONCE_SIZE + tips_size + txs_size + version_size
     + size h.(bh_miner) + 8 + 8 + 8)%nat;
|}.

Definition hashes_enc (s : iset Hash) : list byte := concat_bytes hash_bytes (iset_list s).
Definition header_enc (h : BlockHeader) : list byte :=
  u8_bytes h.(bh_version) ++ be_bytes 8 h.(bh_height) ++ be_bytes 8 h.(bh_timestamp) ++
  be_bytes 8 h.(bh_nonce) ++ arr_bytes h.(bh_extra_nonce) ++
  u8_bytes (wrap 8 (Z.of_nat (iset_len h.(bh_tips)))) ++ hashes_enc h.(bh_tips) ++
  be_bytes 2 (wrap 16 (Z.of_nat (iset_len h.(bh_txs_hashes)))) ++ hashes_enc h.(bh_txs_hashes) ++
  to_bytes h.(bh_miner).
Definition header_wf (h : BlockHeader) : Prop :=
  h.(bh_version) = 0 /\ in_u 64 h.(bh_height) /\ in_u 64 h.(bh_timestamp) /\ in_u 64 h.(bh_nonce) /\
  (iset_len h.(bh_tips) <= TIPS_LIMIT)%nat /\ Z.of_nat (iset_len h.(bh_txs_hashes)) < 2 ^ 16.

Lemma fold_write_hash l w :
  foldl (fun w h => write_hash h w) w l = Writer.write_bytes (concat_bytes hash_bytes l) w.
Proof. exact (foldl_write l w). Qed.

Lemma header_append h w : write h w = Writer.write_bytes (header_enc h) w.
Proof.
  cbn [write BlockHeader_Serializer]. rewrite !fold_write_hash. autorewrite with ser.
  reflexivity.
Qed.

#[local] Instance tips_codec n :
  CodecCanon (iset Hash) hashes_enc (read_set InvalidValue read_hash n iset_new)
    (fun s => iset_len s = n /\ Forall (fun _ => True) (iset_list s)) := read_set_codec _ n.

Lemma Forall_true {A} (l : list A) : Forall (fun _ => True) l.
Proof. by apply list.Forall_forall. Qed.

Lemma header_codec : CodecCanon BlockHeader header_enc read header_wf.
Proof.
  apply mk_codec_canon.
  - intros h pre post (Hv & Hh & Ht & Hn & Htips & Htxs). unfold header_enc.
    rewrite Hv, !wrap_small by (unfold in_u, TIPS_LIMIT in *; lia).
    unfold_read. rewrite <- !(assoc_L (++)). rd_step; [|done]. cbn [Z.eqb negb].
    do 5 (rd_step; [|first [done | unfold in_u, TIPS_LIMIT in *; lia]]).
    destruct (Z.ltb_spec (Z.of_nat TIPS_LIMIT) (Z.of_nat (iset_len (bh_tips h)))); [lia|].
    rewrite Nat2Z.id. rd_step; [|split; [done|apply Forall_true]].
    rd_step; [|unfold in_u; lia]. rewrite Nat2Z.id. rd_step; [|split; [done|apply Forall_true]].
    rd_step; [|done]. rewrite <- !(assoc_L (++)). destruct h; simpl in *; by subst.
  - safe_read.
  - intros pre post h r Hr. inv_read Hr. destruct (Z.eqb_spec x 0) as [->|]; [|done].
    cbn [negb] in Hr. inv_read Hr.
    destruct (Z.ltb_spec (Z.of_nat TIPS_LIMIT) x3) as [|Hle]; [done|]. inv_read Hr. subst.
    destruct Hwf4, Hwf6, Hwf5 as [Hl1 _], Hwf7 as [Hl2 _].
    split; [unfold header_wf; simpl; rewrite Hl1, Hl2; split_and!; first [done | unfold in_u in *; lia]|].
    exists post9. unfold header_enc.
    cbn [bh_version bh_tips bh_timestamp bh_height bh_nonce bh_extra_nonce bh_miner bh_txs_hashes].
    rewrite Hl1, Hl2, !wrap_small, !Z2Nat.id by (unfold in_u; lia).
    by rewrite <- !(assoc_L (++)).
Qed.
#[export] Instance BlockHeader_SerOk : SerOk BlockHeader :=
  mk_SerOk header_enc header_wf header_append (codec_of header_codec).
#[export] Instance BlockHeader_SerCanon : SerCanon BlockHeader.
Proof. by eapply (mk_SerCanon header_enc header_wf), header_codec; [apply header_append|]. Qed.

Lemma length_hashes_enc s : length (hashes_enc s) = (iset_len s * HASH_SIZE)%nat.
Proof. apply length_concat_bytes. intros h _. apply length_hash_bytes. Qed.

#[export] Instance BlockHeader_SerSize : SerSize BlockHeader.
Proof.
  constructor. intros h _. rewrite (to_bytes_enc header_enc) by apply header_append.
  unfold header_enc. rewrite !length_app, !length_be_bytes, !length_hashes_enc, <- ser_size by done.
  unfold arr_bytes. rewrite length_vec_to_list. cbn [size BlockHeader_Serializer].
  unfold EXTRA_NONCE_SIZE, HASH_SIZE. cbn [u8_bytes length]. lia.
Qed.

(** *** Hashes *)
Context {B3 : Blake3} {XH : XelisHashLib}.

Definition get_tips_hash (h : BlockHeader) : Hash := hash (hashes_enc h.(bh_tips)).
Definition get_txs_hash (h : BlockHeader) : Hash := hash (hashes_enc h.(bh_txs_hashes)).

Definition get_work (h : BlockHeader) : list byte :=
  u8_bytes h.(bh_version) ++ be_bytes 8 h.(bh_height) ++
  hash_bytes (get_tips_hash h) ++ hash_bytes (get_txs_hash h).
Definition get_work_hash (h : BlockHeader) : Hash := hash (get_work h).

Definition get_serialized_header (h : BlockHeader) : list byte :=
  hash_bytes (get_work_hash h) ++ be_bytes 8 h.(bh_timestamp) ++ be_bytes 8 h.(bh_nonce) ++
  arr_bytes h.(bh_extra_nonce) ++ vec_to_list (as_compressed_point h.(bh_miner)).(cr_bytes).

(** [Hashable for BlockHeader] *)
Definition header_hash (h : BlockHeader) : Hash := hash (get_serialized_header h).

(** [pow_hash_with_scratch_pad] and [pow_hash] *)
Definition pow_hash_with_scratch_pad (input : list byte) (sp : scratch_pad) :
    res xelis_hash_error Hash * scratch_pad :=
  let '(r, sp) := xelis_hash input sp in (mkHash <$> r, sp).

Definition pow_hash (work : list byte) : res xelis_hash_error Hash :=
  slice ← aligned_slice aligned_default;
  slice ← copy_at 0 work slice;
  slice ← aligned_slice (aligned_put slice aligned_default);
  (pow_hash_with_scratch_pad slice scratch_default).1.

Definition get_pow_hash (h : BlockHeader) : res xelis_hash_error Hash :=
  pow_hash (get_serialized_header h).

Lemma length_get_work h : length (get_work h) = HEADER_WORK_SIZE.
Proof. unfold get_work. by rewrite !length_app, length_be_bytes, !length_hash_bytes. Qed.
Lemma length_serialized_header h : length (get_serialized_header h) = BLOCK_WORK_SIZE.
Proof.
  unfold get_serialized_header, arr_bytes.
  by rewrite !length_app, !length_be_bytes, length_hash_bytes, !length_vec_to_list.
Qed.
End Header.

(** ** miner.rs *)
Section Miner.
Context {IS : IndexSetLib Hash} {B3 : Blake3} {XH : XelisHashLib}.

Record MinerWork := mkWork {
  header_work_hash : Hash;
  mw_timestamp : Z;
  mw_nonce : Z;
  mw_miner : option CompressedPublicKey;
  mw_extra_nonce : vec byte 32;
  cache : option aligned_input;
}.

Definition miner_new (header_work_hash : Hash) (timestamp : Z) : MinerWork :=
  mkWork header_work_hash timestamp 0 None (vreplicate 32 x00) None.
Definition from_block (header : BlockHeader) : MinerWork :=
  mkWork (get_work_hash header) header.(bh_timestamp) 0 (Some header.(bh_miner))
    header.(bh_extra_nonce) None.

#[export] Instance MinerWork_Serializer : Serializer MinerWork := {|
  write x w :=
    let w := write_hash x.(header_work_hash) w in
    let w := Writer.write_u64 x.(mw_timestamp) w in
    let w := Writer.write_u64 x.(mw_nonce) w in
    let w := Writer.write_bytes (vec_to_list x.(mw_extra_nonce)) w in
    match x.(mw_miner) with
    | Some miner => write miner w
    | None => Writer.write_bytes (replicate RISTRETTO_COMPRESSED_SIZE x00) w
    end;
  read := fun reader =>
    if negb (Reader.total_size reader =? BLOCK_WORK_SIZE)%nat then Err InvalidSize
    else
      (header_work_hash ← read_hash;
       timestamp ← Reader.read_u64;
       nonce ← Reader.read_u64;
       extra_nonce ← Reader.read_bytes_32;
       miner ← read (A:=CompressedPublicKey);
       mret (mkWork header_work_hash timestamp nonce (Some miner) extra_nonce None)) reader;
  size _ := BLOCK_WORK_SIZE;
|}.

Definition set_work (f : MinerWork -> MinerWork) : stm MinerWork xelis_hash_error () := st_modify f.
Definition set_cache (c : option aligned_input) (w : MinerWork) : MinerWork :=
  mkWork w.(header_work_hash) w.(mw_timestamp) w.(mw_nonce) w.(mw_miner) w.(mw_extra_nonce) c.

(** [cache.as_mut_slice()?[off..].copy_from_slice(src)], when there is a cache *)
Definition patch_cache (off : nat) (src : list byte) : stm MinerWork xelis_hash_error () :=
  w ← st_get;
  match w.(cache) with
  | None => mret tt
  | Some c =>
      slice ← lift_res (aligned_slice c);
      slice ← lift_res (copy_at off src slice);
      st_modify (set_cache (Some (aligned_put slice c)))
  end.

Definition set_timestamp (timestamp : Z) : stm MinerWork xelis_hash_error () :=
  _ ← st_modify (fun w => mkWork w.(header_work_hash) timestamp w.(mw_nonce) w.(mw_miner)
                            w.(mw_extra_nonce) w.(cache));
  patch_cache 32 (be_bytes 8 timestamp).

Definition increase_nonce : stm MinerWork xelis_hash_error () :=
  _ ← st_modify (fun w => mkWork w.(header_work_hash) w.(mw_timestamp) (u64_add w.(mw_nonce) 1)
                            w.(mw_miner) w.(mw_extra_nonce) w.(cache));
  w ← st_get;
  patch_cache 40 (be_bytes 8 w.(mw_nonce)).

Definition set_miner (miner : CompressedPublicKey) (w : MinerWork) : MinerWork :=
  mkWork w.(header_work_hash) w.(mw_timestamp) w.(mw_nonce) (Some miner) w.(mw_extra_nonce) w.(cache).
(** Writing through [get_extra_nonce()] *)
Definition set_extra_nonce (extra : vec byte 32) (w : MinerWork) : MinerWork :=
  mkWork w.(header_work_hash) w.(mw_timestamp) w.(mw_nonce) w.(mw_miner) extra w.(cache).
Definition set_thread_id (id : Z) (w : MinerWork) : MinerWork :=
  set_extra_nonce (vinsert 31%fin (to_byte id) w.(mw_extra_nonce)) w.
Definition set_thread_id_u16 (id : Z) (w : MinerWork) : MinerWork :=
  set_extra_nonce (vinsert 30%fin (to_byte (id / 256)) (vinsert 31%fin (to_byte id) w.(mw_extra_nonce))) w.

Definition fill_cache : stm MinerWork xelis_hash_error aligned_input :=
  w ← st_get;
  match w.(cache) with
  | Some c => mret c
  | None =>
      slice ← lift_res (aligned_slice aligned_default);
      slice ← lift_res (copy_at 0 (to_bytes w) slice);
      let input := aligned_put slice aligned_default in
      _ ← st_modify (set_cache (Some input));
      mret input
  end.

Definition miner_get_pow_hash (sp : scratch_pad) : stm MinerWork xelis_hash_error Hash :=
  c ← fill_cache;
  bytes ← lift_res (aligned_slice c);
  lift_res (pow_hash_with_scratch_pad bytes sp).1.

(** [BlockHeader::apply_miner_work] *)
Definition apply_miner_work {E} (work : MinerWork) (h : BlockHeader) : res E BlockHeader :=
  miner ← unwrap work.(mw_miner);
  Ok (mkHeader h.(bh_version) h.(bh_tips) work.(mw_timestamp) h.(bh_height) work.(mw_nonce)
        work.(mw_extra_nonce) miner h.(bh_txs_hashes)).

(** *** The bytes of a work unit *)

Definition work_enc (w : MinerWork) : list byte :=
  hash_bytes w.(header_work_hash) ++ be_bytes 8 w.(mw_timestamp) ++ be_bytes 8 w.(mw_nonce) ++
  arr_bytes w.(mw_extra_nonce) ++
  match w.(mw_miner) with
  | Some miner => to_bytes miner
  | None => replicate RISTRETTO_COMPRESSED_SIZE x00
  end.

Lemma work_append x w : write x w = Writer.write_bytes (work_enc x) w.
Proof.
  cbn [write MinerWork_Serializer]. unfold work_enc.
  destruct (mw_miner x); autorewrite with ser; by rewrite <- ?(assoc_L (++)).
Qed.
Lemma work_bytes w : to_bytes w = work_enc w.
Proof. apply to_bytes_enc, work_append. Qed.

Lemma length_work_enc w : length (work_enc w) = BLOCK_WORK_SIZE.
Proof.
  unfold work_enc, arr_bytes. rewrite !length_app, !length_be_bytes, length_hash_bytes, length_vec_to_list.
  destruct (mw_miner w); [|by rewrite length_replicate].
  change (to_bytes c) with (point_enc c). unfold point_enc. by rewrite length_vec_to_list.
Qed.

(** The work buffer of a header is the work unit applied to it. *)
Lemma work_serialized {E} w h h' :
  w.(header_work_hash) = get_work_hash h -> apply_miner_work (E:=E) w h = Ok h' ->
  get_serialized_header h' = work_enc w.
Proof.
  unfold apply_miner_work, work_enc. intros ->. destruct (mw_miner w) as [k|]; [|done].
  simpl. intros [= <-]. reflexivity.
Qed.

(** *** The cache

    The cache is coherent when it holds the current bytes of the work unit,
    followed by the rest of a fresh buffer. *)
Definition coherent (w : MinerWork) : Prop :=
  match w.(cache) with
  | None => True
  | Some c => exists l0, aligned_slice aligned_default = Ok l0 /\
      aligned_slice c = Ok (work_enc w ++ drop BLOCK_WORK_SIZE l0)
  end.

Lemma copy_at_mid {E} off (a b c src : list byte) :
  length a = off -> length b = length src ->
  copy_at (E:=E) off src (a ++ b ++ c) = Ok (a ++ src ++ c).
Proof.
  intros <- Hb. unfold copy_at. rewrite bool_decide_true by (rewrite !length_app; lia).
  rewrite take_app_length, drop_app. repeat f_equal.
  rewrite (drop_ge a) by lia. simpl. rewrite drop_app, drop_ge by lia.
  replace (length a + length src - length a - length b)%nat with 0%nat by lia. done.
Qed.

Lemma copy_at_start {E} (src l : list byte) :
  (length src <= length l)%nat -> copy_at (E:=E) 0 src l = Ok (src ++ drop (length src) l).
Proof. intros Hl. unfold copy_at. by rewrite bool_decide_true by lia. Qed.

Lemma lift_res_bind {S E A B} (a : A) (f : A -> stm S E B) s : (lift_res (Ok a) ≫= f) s = f a s.
Proof. done. Qed.

(** Patching one field in the cache restores coherence. *)
Lemma patch_coherent off src (w w' : MinerWork) a b c :
  w'.(cache) = w.(cache) -> coherent w ->
  work_enc w = a ++ b ++ c -> work_enc w' = a ++ src ++ c ->
  length a = off -> length b = length src ->
  exists w2, patch_cache off src w' = (Ok tt, w2) /\ coherent w2 /\ work_enc w2 = work_enc w' /\
    w2 = set_cache w2.(cache) w'.
Proof.
  intros Hc Hw E1 E2 Ha Hb. unfold patch_cache, coherent in *.
  unfold mbind, stm_bind, st_get. rewrite Hc. destruct (cache w) as [c0|] eqn:Hcw.
  - destruct Hw as (l0 & Hl0 & Hs). rewrite Hs. cbn [lift_res].
    rewrite E1, <- !(assoc_L (++)), (copy_at_mid off a b) by done. cbn [st_modify lift_res].
    eexists. split; [done|]. cbn [cache set_cache]. split; [|done].
    exists l0. split; [done|]. assert (forall k, work_enc (set_cache k w') = work_enc w') as -> by done.
    rewrite E2, <- !(assoc_L (++)). eapply aligned_slice_put; [done|].
    apply aligned_slice_length in Hs. rewrite <- Hs, E1, !length_app. lia.
  - exists w'. split; [done|]. rewrite Hc. split_and!; try done. destruct w'; simpl in *. by rewrite Hc.
Qed.

Lemma set_timestamp_coherent t w :
  coherent w -> exists w2, set_timestamp t w = (Ok tt, w2) /\ coherent w2 /\
    w2.(header_work_hash) = w.(header_work_hash).
Proof.
  intros Hw. destruct (patch_coherent 32 (be_bytes 8 t) w
    (mkWork w.(header_work_hash) t w.(mw_nonce) w.(mw_miner) w.(mw_extra_nonce) w.(cache))
    (hash_bytes w.(header_work_hash)) (be_bytes 8 w.(mw_timestamp)) _ eq_refl Hw eq_refl eq_refl)
    as (w2 & Hp & Hc & _ & E); [apply length_hash_bytes|by rewrite !length_be_bytes|].
  exists w2. split; [exact Hp|]. split; [done|]. by rewrite E.
Qed.

Lemma increase_nonce_coherent w :
  coherent w -> exists w2, increase_nonce w = (Ok tt, w2) /\ coherent w2 /\
    w2.(header_work_hash) = w.(header_work_hash).
Proof.
  intros Hw. destruct (patch_coherent 40 (be_bytes 8 (u64_add w.(mw_nonce) 1)) w
    (mkWork w.(header_work_hash) w.(mw_timestamp) (u64_add w.(mw_nonce) 1) w.(mw_miner) w.(mw_extra_nonce) w.(cache))
    (hash_bytes w.(header_work_hash) ++ be_bytes 8 w.(mw_timestamp)) (be_bytes 8 w.(mw_nonce))
    (arr_bytes w.(mw_extra_nonce) ++ match w.(mw_miner) with
      | Some miner => to_bytes miner | None => replicate RISTRETTO_COMPRESSED_SIZE x00 end)
    eq_refl Hw)
    as (w2 & Hp & Hc & _ & E);
    [unfold work_enc; by rewrite <- !(assoc_L (++))..
    |by rewrite length_app, length_hash_bytes, length_be_bytes|by rewrite !length_be_bytes|].
  exists w2. split; [exact Hp|]. split; [done|]. by rewrite E.
Qed.

Lemma fill_cache_coherent w c w2 :
  coherent w -> fill_cache w = (Ok c, w2) ->
  coherent w2 /\ w2 = set_cache (Some c) w.
Proof.
  intros Hw. unfold fill_cache, mbind, stm_bind, st_get. destruct (cache w) as [c0|] eqn:Hc.
  - intros [= <- <-]. split; [done|]. destruct w; simpl in *. by rewrite Hc.
  - unfold lift_res. destruct (aligned_slice aligned_default) as [l0| | |] eqn:Hd; try done.
    rewrite work_bytes. rewrite copy_at_start.
    2: { rewrite length_work_enc. apply aligned_slice_length in Hd as ->. apply bytes_array_input_min. }
    intros [= <- <-]. split; [|done]. exists l0. split; [done|]. cbn [cache set_cache].
    assert (work_enc (set_cache (Some (aligned_put (work_enc w ++ drop (length (work_enc w)) l0)
      aligned_default)) w) = work_enc w) as -> by done.
    rewrite length_work_enc. eapply aligned_slice_put; [done|].
    apply aligned_slice_length in Hd. pose proof bytes_array_input_min.
    rewrite length_app, length_work_enc, length_drop, Hd. unfold BLOCK_WORK_SIZE in *. lia.
Qed.

Lemma fill_cache_state w :
  coherent w -> coherent (fill_cache w).2 /\
    (fill_cache w).2.(header_work_hash) = w.(header_work_hash).
Proof.
  intros Hw. destruct (fill_cache w) as [[c| | |] w2] eqn:Hf.
  1: by apply fill_cache_coherent in Hf as [? ->].
  all: enough (w2 = w) as -> by done; revert Hf; unfold fill_cache, mbind, stm_bind, st_get, lift_res;
    destruct (cache w); [done|]; destruct (aligned_slice aligned_default); try congruence;
    unfold copy_at; destruct (bool_decide _); intros; by simplify_eq/=.
Qed.

(** Hashing changes nothing but the cache. *)
Lemma miner_hash_state w sp : (miner_get_pow_hash sp w).2 = (fill_cache w).2.
Proof.
  unfold miner_get_pow_hash, mbind, stm_bind. destruct (fill_cache w) as [[c| | |] w2]; try done.
  unfold lift_res. by destruct (aligned_slice c).
Qed.

(** What a coherent work unit hashes to is the hash of its header. *)
Lemma pow_hash_coherent w sp hv w2 h h' {E} :
  coherent w -> w.(header_work_hash) = get_work_hash h ->
  miner_get_pow_hash sp w = (Ok hv, w2) -> apply_miner_work (E:=E) w2 h = Ok h' ->
  coherent w2 /\ w2.(header_work_hash) = get_work_hash h /\ get_pow_hash h' = Ok hv.
Proof.
  intros Hw Hh Hp Ha. unfold miner_get_pow_hash in Hp.
  apply stm_bind_ok in Hp as (c & w1 & Hf & Hp).
  apply fill_cache_coherent in Hf as [Hw1 ->]; [|done].
  apply stm_bind_ok in Hp as (l & w3 & [= Hl <-] & [= Hx <-]).
  split; [done|]. split; [done|]. destruct Hw1 as (l0 & Hl0 & Hc). cbn [cache set_cache] in Hc.
  rewrite Hc in Hl. injection Hl as <-.
  unfold get_pow_hash, pow_hash. rewrite Hl0. cbn [mbind res_bind].
  rewrite (work_serialized (set_cache (Some c) w) h h' Hh Ha).
  pose proof bytes_array_input_min. pose proof (aligned_slice_length _ _ Hl0) as Hn.
  rewrite copy_at_start by (rewrite length_work_enc; unfold BLOCK_WORK_SIZE; lia).
  cbn [mbind res_bind]. rewrite length_work_enc, (aligned_slice_put _ l0); [|done|].
  2: { rewrite length_app, length_work_enc, length_drop, Hn. unfold BLOCK_WORK_SIZE. lia. }
  unfold pow_hash_with_scratch_pad in *. cbn [mbind res_bind].
  pose proof (xelis_hash_scratch (work_enc (set_cache (Some c) w) ++ drop BLOCK_WORK_SIZE l0)
    scratch_default sp) as Hs.
  destruct (xelis_hash _ scratch_default), (xelis_hash _ sp). simpl in *. by rewrite Hs.
Qed.

(** *** A mining session

    The work units a miner reaches from the template of a block: the fields
    outside the cache may be changed only before the first hash. *)
Inductive miner_reach (h : BlockHeader) : MinerWork -> Prop :=
  | reach_start : miner_reach h (from_block h)
  | reach_timestamp w t : miner_reach h w -> miner_reach h (set_timestamp t w).2
  | reach_nonce w : miner_reach h w -> miner_reach h (increase_nonce w).2
  | reach_hash w sp : miner_reach h w -> miner_reach h (miner_get_pow_hash sp w).2
  | reach_miner w k : miner_reach h w -> w.(cache) = None -> miner_reach h (set_miner k w)
  | reach_extra w x : miner_reach h w -> w.(cache) = None -> miner_reach h (set_extra_nonce x w).

Lemma reach_coherent h w :
  miner_reach h w -> coherent w /\ w.(header_work_hash) = get_work_hash h.
Proof.
  induction 1 as [|w t _ [Hc Hh]|w _ [Hc Hh]|w sp _ [Hc Hh]|w k _ [_ Hh] Hn|w x _ [_ Hh] Hn].
  - done.
  - destruct (set_timestamp_coherent t w Hc) as (w3 & -> & Hc3 & Hh3). simpl. by rewrite Hh3.
  - destruct (increase_nonce_coherent w Hc) as (w3 & -> & Hc3 & Hh3). simpl. by rewrite Hh3.
  - rewrite miner_hash_state. by destruct (fill_cache_state w Hc) as [? ->].
  - unfold coherent. cbn [cache set_miner]. by rewrite Hn.
  - unfold coherent. cbn [cache set_extra_nonce]. by rewrite Hn.
Qed.
End Miner.

(** ** block.rs *)
Section Block.
Context {IS : IndexSetLib Hash} {B3 : Blake3}.
Context {CV : Curve} {ML : Merlin} {RP : RangeProofLib}.

(** [Immutable<T>] is a [T], owned or shared. *)
Record Block := mkBlock { header : BlockHeader; transactions : list Transaction }.

(** [Transaction::hash]: the default of [Hashable] *)
Definition tx_hash (tx : Transaction) : Hash := hash (to_bytes tx).

(** [Block::with] *)
Definition block_with (block : BlockHeader) (transactions : list Transaction) : Block :=
  let txs_hashes := foldl (fun s tx => (iset_insert (tx_hash tx) s).2) block.(bh_txs_hashes) transactions in
  mkBlock (mkHeader block.(bh_version) block.(bh_tips) block.(bh_timestamp) block.(bh_height)
             block.(bh_nonce) block.(bh_extra_nonce) block.(bh_miner) txs_hashes) transactions.

Definition block_hash (b : Block) : Hash := header_hash b.(header).

#[export] Instance Block_Serializer : Serializer Block := {|
  write b w := foldl (fun w tx => write tx w) (write b.(header) w) b.(transactions);
  read :=
    block ← read (A:=BlockHeader);
    txs ← read_n (read (A:=Transaction)) (get_txs_count block);
    mret (mkBlock block txs);
  size b := (size b.(header) + foldl (fun acc tx => acc + size tx)%nat 0%nat b.(transactions))%nat;
|}.
Definition block_enc (b : Block) : list byte :=
  to_bytes b.(header) ++ concat_bytes to_bytes b.(transactions).
Definition block_wf (b : Block) : Prop :=
  header_wf b.(header) /\ length b.(transactions) = get_txs_count b.(header) /\
  Forall transaction_wf b.(transactions).

Lemma block_append b w : write b w = Writer.write_bytes (block_enc b) w.
Proof.
  cbn [write Block_Serializer]. unfold block_enc. rewrite foldl_write, (ser_append (header b)).
  by rewrite write_bytes_write_bytes.
Qed.
Lemma block_codec : CodecCanon Block block_enc read block_wf.
Proof.
  apply mk_codec_canon; intros *.
  - intros (Hh & Hl & Hf). unfold block_enc. run_read. by destruct x.
  - safe_read.
  - intros Hr. inv_read Hr. subst. destruct Hwf0 as [Hl Hf].
    split; [by split_and!|]. exists post1. unfold block_enc. cbn [header transactions].
    by rewrite <- !(assoc_L (++)).
Qed.
#[export] Instance Block_SerOk : SerOk Block :=
  mk_SerOk block_enc block_wf block_append (codec_of block_codec).
#[export] Instance Block_SerCanon : SerCanon Block.
Proof. by eapply (mk_SerCanon block_enc), block_codec; [apply block_append|]. Qed.

(** *** What the hash of a header commits to *)

Lemma hashes_enc_inj s t : hashes_enc s = hashes_enc t -> s = t.
Proof.
  intros E. apply iset_ext. unfold hashes_enc in E. revert E.
  generalize (iset_list t) as l2, (iset_list s) as l1. intros l2 l1. revert l2.
  induction l1 as [|a l1 IH]; intros [|b l2]; rewrite ?concat_bytes_cons; try done.
  - intros E%(f_equal length). by rewrite length_app, length_hash_bytes in E.
  - intros E%(f_equal length). by rewrite length_app, length_hash_bytes in E.
  - intros E. apply app_inj_1 in E as [Ea El]; [|by rewrite !length_hash_bytes].
    f_equal; [by apply hash_bytes_inj|by apply IH].
Qed.

Lemma be_bytes_inj n a b :
  0 <= a < 256 ^ Z.of_nat n -> 0 <= b < 256 ^ Z.of_nat n -> be_bytes n a = be_bytes n b -> a = b.
Proof. intros Ha Hb E%(f_equal from_be). by rewrite !from_be_bytes in E. Qed.

(** Split an equality of concatenations at fields of known lengths. *)
Ltac split_fields H :=
  repeat match type of H with
  | ?a ++ _ = ?b ++ _ =>
      let Hx := fresh "Hfield" in
      apply app_inj_1 in H as [Hx H];
        [|by rewrite ?length_be_bytes, ?length_hash_bytes, ?length_vec_to_list]
  end.

(** The inputs of blake3 in the computation of the hash of a header. *)
Definition header_inputs (h : BlockHeader) : list (list byte) :=
  [hashes_enc h.(bh_tips); hashes_enc h.(bh_txs_hashes); get_work h; get_serialized_header h].

Lemma get_work_inj h1 h2 :
  in_u 8 h1.(bh_version) -> in_u 8 h2.(bh_version) ->
  in_u 64 h1.(bh_height) -> in_u 64 h2.(bh_height) ->
  get_work h1 = get_work h2 ->
  h1.(bh_version) = h2.(bh_version) /\ h1.(bh_height) = h2.(bh_height) /\
  (h1.(bh_tips) = h2.(bh_tips) /\ h1.(bh_txs_hashes) = h2.(bh_txs_hashes) \/
   collides (hashes_enc h1.(bh_tips)) (hashes_enc h2.(bh_tips)) \/
   collides (hashes_enc h1.(bh_txs_hashes)) (hashes_enc h2.(bh_txs_hashes))).
Proof.
  intros V1 V2 H1 H2 E. unfold get_work in E. split_fields E.
  split.
  { apply (be_bytes_inj 1); [exact V1|exact V2|]. unfold u8_bytes in Hfield.
    unfold be_bytes. rewrite !Z.div_1_r. exact Hfield. }
  split; [by apply (be_bytes_inj 8)|].
  apply hash_bytes_inj, hash_inj_or in Hfield1 as [Ht|]; [|right; by left].
  apply hash_bytes_inj, hash_inj_or in E as [Hx|]; [|right; by right].
  left. split; by apply hashes_enc_inj.
Qed.

Lemma serialized_inj h1 h2 :
  in_u 64 h1.(bh_timestamp) -> in_u 64 h2.(bh_timestamp) ->
  in_u 64 h1.(bh_nonce) -> in_u 64 h2.(bh_nonce) ->
  get_serialized_header h1 = get_serialized_header h2 ->
  get_work_hash h1 = get_work_hash h2 /\ h1.(bh_timestamp) = h2.(bh_timestamp) /\
  h1.(bh_nonce) = h2.(bh_nonce) /\ h1.(bh_extra_nonce) = h2.(bh_extra_nonce) /\
  h1.(bh_miner) = h2.(bh_miner).
Proof.
  intros T1 T2 N1 N2 E. unfold get_serialized_header, arr_bytes in E. split_fields E.
  split; [by apply hash_bytes_inj|]. split; [by apply (be_bytes_inj 8)|].
  split; [by apply (be_bytes_inj 8)|]. split; [by apply vec_to_list_inj2|].
  destruct (bh_miner h1) as [[v1]], (bh_miner h2) as [[v2]]. simpl in E.
  by apply vec_to_list_inj2 in E as ->.
Qed.
End Block.

(** ** Properties *)

Section Properties.
Context {IS : IndexSetLib Hash} {B3 : Blake3} {XH : XelisHashLib}.
Context {CV : Curve} {ML : Merlin} {RP : RangeProofLib}.

(** C37: a well-formed block (at most three tips, at most 65535 transactions,
    as many transactions as hashes in the header) is read back unchanged from
    its bytes; the reader never panics, and a block it accepts is well-formed
    and is the only one with the bytes that were consumed. *)
Theorem block_codec_correct (b : Block) (buffer : list byte) (Hb : block_wf b) :
  from_bytes (to_bytes b) = Ok b /\
  from_bytes (A:=Block) buffer <> Panic /\
  forall b', from_bytes buffer = Ok b' -> block_wf b' /\ exists rest, buffer = to_bytes b' ++ rest.
Proof.
  split; [by apply from_bytes_to_bytes|].
  split; [|intros b' Hx; by apply from_bytes_sound in Hx].
  unfold from_bytes. rewrite reader_new_at. apply res_bind_panic; [|done].
  apply codec_no_panic.
Qed.

(** C38: the hash of a header commits to every field of it, the ordered tips and
    transactions included: when two headers in range have the same hash, they
    are equal, or blake3 collides on what is hashed of one and, at the same
    step, of the other: the lists of tips, the lists of transactions, the works
    or the serialized headers. *)
Theorem header_hash_binding (h1 h2 : BlockHeader) (H1 : header_wf h1) (H2 : header_wf h2)
    (E : header_hash h1 = header_hash h2) :
  h1 = h2 \/ collision_among (header_inputs h1) (header_inputs h2).
Proof.
  destruct H1 as (V1 & G1 & T1 & N1 & _), H2 as (V2 & G2 & T2 & N2 & _).
  unfold collision_among, header_inputs. cbn [zip zip_with]. rewrite !Exists_cons, Exists_nil. cbn [fst snd].
  apply hash_inj_or in E as [E|]; [|tauto].
  apply serialized_inj in E as (Hw & Ht & Hn & Hx & Hm); try done.
  apply hash_inj_or in Hw as [Hw|]; [|tauto].
  apply get_work_inj in Hw as (Hv & Hh & [[Htips Htxs]|]);
    [| tauto | by rewrite ?V1, ?V2 | by rewrite ?V1, ?V2 | done..].
  left. destruct h1, h2. simpl in *. by subst.
Qed.

(** The proof-of-work hash a miner computes from its cached buffer, after
    any sequence of timestamp and nonce updates, is the proof-of-work hash of
    the header the work is applied to. *)
Theorem miner_pow_sound (h h' : BlockHeader) (w w' : MinerWork) (sp : scratch_pad) (hv : Hash)
    (Hr : miner_reach h w) (Hp : miner_get_pow_hash sp w = (Ok hv, w'))
    (Ha : apply_miner_work (E:=()) w' h = Ok h') :
  get_pow_hash h' = Ok hv.
Proof.
  destruct (reach_coherent h w Hr) as [Hc Hh].
  by destruct (pow_hash_coherent w sp hv w' h h' Hc Hh Hp Ha) as (_ & _ & Hx).
Qed.

(** Once the buffer is cached, changing the miner or the extra nonce of a
    work unit does not change the hash it computes: the miner must set them
    before the first hash. *)
Theorem miner_cache_stale (w : MinerWork) (c : aligned_input) (k : CompressedPublicKey)
    (x : vec byte 32) (sp : scratch_pad) (Hc : w.(cache) = Some c) :
  (miner_get_pow_hash sp (set_extra_nonce x (set_miner k w))).1 = (miner_get_pow_hash sp w).1.
Proof.
  unfold miner_get_pow_hash, fill_cache, mbind, stm_bind, st_get.
  cbn [cache set_extra_nonce set_miner]. rewrite Hc. unfold mret, stm_ret, lift_res.
  by destruct (aligned_slice c).
Qed.
End Properties.

(** ** Witnesses *)

#[local] Existing Instances iset_model blake3_model xelis_hash_model curve_model merlin_model range_proof_model.

Definition w_header : BlockHeader :=
  header_new 0 3 1000 (iset_insert HashOps.max iset_new).2 (vreplicate 32 x07)
    (mkPublicKey w_point) (iset_insert HashOps.zero iset_new).2.
Definition w_block : Block := mkBlock w_header [w_tx].

Lemma w_header_wf : header_wf w_header.
Proof.
  unfold header_wf. split_and!; apply (bool_decide_unpack _); vm_compute; exact I.
Qed.

Lemma block_codec_correct_witness :
  from_bytes (to_bytes w_block) = Ok w_block /\
  from_bytes (A:=Block) (to_bytes w_block) <> Panic /\
  forall b', from_bytes (to_bytes w_block) = Ok b' ->
    block_wf b' /\ exists rest, to_bytes w_block = to_bytes b' ++ rest.
Proof.
  apply (block_codec_correct w_block (to_bytes w_block)). split_and!.
  - exact w_header_wf.
  - reflexivity.
  - constructor; [|constructor]. unfold transaction_wf, count_ok.
    repeat match goal with |- _ /\ _ => split end;
      first [done | apply (bool_decide_unpack _); vm_compute; exact I].
Defined.

(** The toy hash does not see the timestamp. *)
Definition w_header' : BlockHeader :=
  header_new 0 3 2000 (iset_insert HashOps.max iset_new).2 (vreplicate 32 x07)
    (mkPublicKey w_point) (iset_insert HashOps.zero iset_new).2.
Lemma w_header_wf' : header_wf w_header'.
Proof.
  unfold header_wf. split_and!; apply (bool_decide_unpack _); vm_compute; exact I.
Qed.

Lemma header_hash_binding_witness :
  w_header = w_header' \/ collision_among (header_inputs w_header) (header_inputs w_header').
Proof.
  apply (header_hash_binding w_header w_header' w_header_wf w_header_wf').
  apply (bool_decide_unpack _); vm_compute; exact I.
Defined.

(** A session: hash, advance the nonce, hash again. *)
Definition w_work : MinerWork := (increase_nonce (miner_get_pow_hash scratch_default (from_block w_header)).2).2.
#[local] Abbreviation w_pow := (miner_get_pow_hash scratch_default w_work).
Definition w_pow_hash : Hash := Eval vm_compute in match w_pow.1 with Ok h => h | _ => HashOps.zero end.
Definition w_mined : BlockHeader :=
  mkHeader w_header.(bh_version) w_header.(bh_tips) w_pow.2.(mw_timestamp) w_header.(bh_height)
    w_pow.2.(mw_nonce) w_pow.2.(mw_extra_nonce) w_header.(bh_miner) w_header.(bh_txs_hashes).
Lemma w_pow_miner : w_pow.2.(mw_miner) = Some w_header.(bh_miner).
Proof. apply (bool_decide_unpack _). vm_compute. exact I. Qed.

Lemma ok_run {A E S} (x : A) (r : res E A * S) :
  match r.1 with Ok a => Some a | _ => None end = Some x -> r = (Ok x, r.2).
Proof. destruct r as [[a| | |] s]; simpl; congruence. Qed.

Lemma miner_pow_sound_witness : get_pow_hash w_mined = Ok w_pow_hash.
Proof.
  apply (miner_pow_sound w_header w_mined w_work w_pow.2 scratch_default).
  - apply reach_nonce, reach_hash, reach_start.
  - apply ok_run. vm_compute. reflexivity.
  - unfold apply_miner_work. rewrite w_pow_miner. reflexivity.
Defined.

Lemma w_cached : is_Some w_work.(cache).
Proof. apply (bool_decide_unpack _). vm_compute. exact I. Qed.

Lemma miner_cache_stale_witness :
  (miner_get_pow_hash scratch_default
    (set_extra_nonce (vreplicate 32 x01) (set_miner (mkPublicKey w_point) w_work))).1
  = (miner_get_pow_hash scratch_default w_work).1.
Proof. destruct w_cached as [c Hc]. exact (miner_cache_stale w_work c _ _ _ Hc). Defined.
