(* ===== verification/Errors.v ===== *)
(** [xelis_daemon::core::error]: the error of the daemon.

    A constructor that only transports the error of another crate (I/O, the
    database, bech32, the prompt, the peer-to-peer layer) has no payload
    here. *)

From S2P Require Import Prelude External ExternalCrypto Serializer Hash VarUint Elgamal Proofs Transaction Verify.

(** An address made by [as_address]: a key on a network. *)
Record Address := mkAddress { addr_mainnet : bool; addr_key : CompressedPublicKey }.
Definition as_address (key : CompressedPublicKey) (mainnet : bool) : Address := mkAddress mainnet key.

Module DiskContext.
Inductive t :=
  | GetTopBlock
  | GetTopMetadata
  | GetTopoHeightForHash
  | GetBlockHashAtTopoHeight (_ : Z)
  | GetTransaction
  | AccountRegistrationTopoHeight
  | Asset
  | LastBalance
  | BalanceAtTopoHeight
  | LastTopoHeightForBalance
  | BlockRewardAtTopoHeight
  | SupplyAtTopoHeight
  | BlocksAtHeight
  | BlockExecutorForTx
  | TxBlocks
  | DifficultyForBlockHash
  | CumulativeDifficultyForBlockHash
  | GetBlockHeaderByHash
  | EstimatedCovarianceForBlockHash
  | BalancesMerkleHashAtTopoHeight
  | LastTopoheightForNonce
  | LastNonce
  | NonceAtTopoHeight
  | Network
  | Tips
  | PrunedTopoHeight
  | AssetsCount
  | TxsCount
  | BlocksCount
  | AccountsCount
  | BlocksExecutionOrderCount
  | TopTopoHeight
  | TopHeight
  | DeleteData
  | LoadData
  | SearchBlockPositionInOrder.
End DiskContext.

Module BlockchainError.
Inductive t :=
  | BlockNotOrdered
  | InvalidBalancesMerkleHash (_ : Hash) (_ : Hash) (_ : Hash)
  | InvalidTipsMerkleHash (_ : Hash) (_ : Hash) (_ : Hash)
  | TxTooBig (_ : Z) (_ : Z)
  | TimestampIsLessThanParent (_ : Z)
  | TimestampIsInFuture (_ : Z) (_ : Z)
  | InvalidBlockHeight (_ : Z) (_ : Z)
  | BlockHeightZeroNotAllowed
  | InvalidBlockHeightStableHeight
  | InvalidDifficulty
  | TxNonceAlreadyUsed (_ : Z) (_ : Hash)
  | InvalidHash (_ : Hash) (_ : Hash)
  | InvalidPreviousBlockHash (_ : Hash) (_ : Hash)
  | InvalidBlockSize (_ : Z) (_ : Z)
  | InvalidBlockTxs (_ : Z) (_ : Z)
  | InvalidTxInBlock (_ : Hash)
  | TxNotFound (_ : Hash)
  | TxNotFoundInSortedList (_ : Hash)
  | TxAlreadyInMempool (_ : Hash)
  | TxEmpty (_ : Hash)
  | InvalidReferenceHash
  | InvalidReferenceTopoheight
  | TooManyOutputInTx (_ : Hash)
  | TxAlreadyInBlock (_ : Hash)
  | DuplicateRegistration (_ : Address)
  | InvalidTxFee (_ : Z) (_ : Z)
  | FeesToLowToOverride (_ : Z) (_ : Z)
  | AccountNotFound (_ : Address)
  | AddressNotRegistered (_ : Address)
  | AddressAlreadyRegistered (_ : Address)
  | NotEnoughFunds (_ : Address) (_ : Hash) (_ : Z) (_ : Z)
  | CoinbaseTxNotAllowed (_ : Hash)
  | InvalidBlockReward (_ : Z) (_ : Z)
  | InvalidFeeReward (_ : Z) (_ : Z)
  | InvalidCirculatingSupply (_ : Z) (_ : Z)
  | InvalidTxRegistrationPoW (_ : Hash)
  | InvalidTxRegistrationSignature (_ : Hash)
  | InvalidTransactionNonce (_ : Z) (_ : Z)
  | InvalidTransactionToSender (_ : Hash)
  | InvalidTransactionExtraDataTooBig (_ : Z) (_ : Z)
  | InvalidNetwork
  | BlockNotFound (_ : Hash)
  | BlockHeightNotFound (_ : Z)
  | LowerCumulativeDifficulty
  | NoCumulativeDifficulty
  | ErrorStd
  | ErrorOnBech32
  | ErrorOnP2p
  | ErrorOnReader (_ : ReaderError)
  | ErrorOnPrompt
  | ErrorOnSignature
  | PoisonError (_ : string)
  | IsSyncing
  | InvalidTransactionSignature
  | UnexpectedTransactionSignature
  | InvalidMinerTx
  | GenesisBlockMiner
  | InvalidGenesisBlock
  | NotEnoughBlocks
  | Unknown
  | NoTxSignature
  | SmartContractTodo
  | UnexpectedTransactionVariant
  | DatabaseError
  | UnsupportedOperation
  | NotFoundOnDisk (_ : DiskContext.t)
  | ConfigMaxChainResponseSize
  | ConfigSyncMode
  | ExpectedTips
  | InvalidTipsCount (_ : Hash) (_ : Z)
  | InvalidTipsNotFound (_ : Hash) (_ : Hash)
  | InvalidTipsDifficulty (_ : Hash) (_ : Hash)
  | InvalidBlockVersion
  | InvalidTxVersion
  | AlreadyInChain
  | InvalidReachability
  | BlockDeviation
  | InvalidGenesisHash
  | InvalidTxNonce (_ : Hash) (_ : Z) (_ : Z) (_ : Address)
  | InvalidTxNonceMempoolCache (_ : Z) (_ : Z) (_ : Z)
  | AssetNotFound (_ : Hash)
  | DifficultyError (_ : DifficultyError)
  | NoBalance (_ : Address)
  | NoBalanceChanges (_ : Address) (_ : Z) (_ : Hash)
  | NoNonce (_ : Address)
  | NoNonceChanges (_ : Address)
  | Overflow
  | DeadTx (_ : Hash)
  | NoValueForBurn
  | TxAlreadyInBlockchain (_ : Hash)
  | PruneHeightTooHigh
  | PruneZero
  | PruneLowerThanLastPruned
  | AutoPruneMode
  | TryFromSliceError
  | InvalidCiphertext
  | NoSenderOutput
  | NoTxSender (_ : Address)
  | DecompressionError (_ : DecompressionError)
  | Any
  | InvalidNonce (_ : Z) (_ : Z)
  | SenderIsReceiver
  | TransactionProof (_ : ProofVerificationError)
  | POWHashError.
End BlockchainError.
Abbreviation blockchain_error := BlockchainError.t.

(** A result of the daemon. *)
Abbreviation bres := (res blockchain_error).

(** [From<VerificationError<BlockchainError>>] *)
Definition from_verification_error (value : VerificationError blockchain_error) : blockchain_error :=
  match value with
  | InvalidNonce expected got => BlockchainError.InvalidNonce expected got
  | SenderIsReceiver => BlockchainError.NoSenderOutput
  | InvalidSignature => BlockchainError.InvalidTransactionSignature
  | State s => s
  | Proof proof => BlockchainError.TransactionProof proof
  end.
