(* ===== verification/Dag.v ===== *)
(** [xelis_daemon::core::blockdag]: the order of the tips of the DAG, the height
    above them, the best and the newest of them.

    The storage is seen through [DifficultyProvider], the trait of
    [storage/providers/difficulty.rs]. *)

From S2P Require Import Prelude External ExternalModel ExternalCrypto Serializer Hash VarUint Elgamal Block Errors.

(** The part of the trait [DifficultyProvider] these functions call. *)
Class DifficultyProvider {UL : U256Lib} {IS : IndexSetLib Hash} (S : Type) := {
  get_height_for_block_hash : S -> Hash -> bres Z;
  get_timestamp_for_block_hash : S -> Hash -> bres Z;
  get_difficulty_for_block_hash : S -> Hash -> bres VarUint.t;
  get_cumulative_difficulty_for_block_hash : S -> Hash -> bres VarUint.t;
  get_past_blocks_for_block_hash : S -> Hash -> bres (iset Hash);
  get_block_header_by_hash : S -> Hash -> bres BlockHeader;
  get_estimated_covariance_for_block_hash : S -> Hash -> bres VarUint.t;
  set_cumulative_difficulty_for_block_hash : Hash -> VarUint.t -> stm S blockchain_error ();
}.

(** What the accessors promise: they read the fields of the header. *)
Class DifficultyProviderLaws {UL : U256Lib} {IS : IndexSetLib Hash} (S : Type) {DP : DifficultyProvider S} := {
  height_of_header (provider : S) (h : Hash) :
    get_height_for_block_hash provider h = (b ← get_block_header_by_hash provider h; Ok b.(bh_height));
  timestamp_of_header (provider : S) (h : Hash) :
    get_timestamp_for_block_hash provider h = (b ← get_block_header_by_hash provider h; Ok b.(bh_timestamp));
  tips_of_header (provider : S) (h : Hash) :
    get_past_blocks_for_block_hash provider h = (b ← get_block_header_by_hash provider h; Ok b.(bh_tips));
}.

Section Dag.
Context {UL : U256Lib} {IS : IndexSetLib Hash} {S : Type} {DP : DifficultyProvider S}.

Definition score : Type := Hash * VarUint.t.

Definition cmp_descending (x y : score) : comparison :=
  let '(a_hash, a) := x in
  let '(b_hash, b) := y in
  if decide (a <> b) then VarUint.cmp b a else hash_cmp b_hash a_hash.
Definition cmp_ascending (x y : score) : comparison :=
  let '(a_hash, a) := x in
  let '(b_hash, b) := y in
  if decide (a <> b) then VarUint.cmp a b else hash_cmp a_hash b_hash.

Definition sort_descending_by_cumulative_difficulty (scores : list score) : list score :=
  sort_by cmp_descending scores.
Definition sort_ascending_by_cumulative_difficulty (scores : list score) : list score :=
  sort_by cmp_ascending scores.

Definition sort_tips (storage : S) (tips : list Hash) : bres (iset Hash) :=
  match length tips with
  | 0%nat => Err BlockchainError.ExpectedTips
  | 1%nat => Ok (iset_extend iset_new tips)
  | _ =>
      scores ← mapMr (fun hash =>
        cumulative_difficulty ← get_cumulative_difficulty_for_block_hash storage hash;
        Ok (hash, cumulative_difficulty)) tips;
      Ok (iset_extend iset_new (fst <$> sort_descending_by_cumulative_difficulty scores))
  end.

Definition calculate_height_at_tips (provider : S) (tips : list Hash) : bres Z :=
  height ← foldM (fun height hash =>
    past_height ← get_height_for_block_hash provider hash;
    Ok (if height <=? past_height then past_height else height)) 0 tips;
  Ok (if negb (length tips =? 0)%nat then u64_add height 1 else height).

Definition find_best_tip_by_cumulative_difficulty (provider : S) (tips : list Hash) : bres Hash :=
  match tips with
  | [] => Err BlockchainError.ExpectedTips
  | [hash] => Ok hash
  | _ =>
      '(_, selected_tip) ← foldM (fun '(highest_cumulative_difficulty, selected_tip) hash =>
          cumulative_difficulty ← get_cumulative_difficulty_for_block_hash provider hash;
          Ok (if VarUint.ltb highest_cumulative_difficulty cumulative_difficulty
              then (cumulative_difficulty, Some hash)
              else (highest_cumulative_difficulty, selected_tip)))
        (VarUint.zero, None) tips;
      ok_or selected_tip BlockchainError.ExpectedTips
  end.

Definition find_newest_tip_by_timestamp (provider : S) (tips : list Hash) : bres (Hash * Z) :=
  match tips with
  | [] => Err BlockchainError.ExpectedTips
  | [hash] =>
      timestamp ← get_timestamp_for_block_hash provider hash;
      Ok (hash, timestamp)
  | _ =>
      '(timestamp, newest_tip) ← foldM (fun '(timestamp, newest_tip) hash =>
          tip_timestamp ← get_timestamp_for_block_hash provider hash;
          Ok (if timestamp <? tip_timestamp then (tip_timestamp, Some hash)
              else (timestamp, newest_tip)))
        (0, None) tips;
      newest_tip ← ok_or newest_tip BlockchainError.ExpectedTips;
      Ok (newest_tip, timestamp)
  end.

(** ** The order of the scores *)

(** The score [x] comes strictly before [y]. *)
Definition before (x y : score) : Prop := cmp_descending x y = Lt.

Lemma cmp_descending_cases x y :
  cmp_descending x y =
    match VarUint.val y.2 ?= VarUint.val x.2 with
    | Eq => hash_cmp y.1 x.1
    | c => c
    end.
Proof.
  destruct x as [a va], y as [b vb]. simpl. unfold VarUint.cmp. case_decide as Hd.
  - destruct (Z.compare_spec (VarUint.val vb) (VarUint.val va)); [|done..].
    destruct Hd. by apply VarUint.val_inj.
  - assert (va = vb) as -> by (destruct (decide (va = vb)); tauto). by rewrite Z.compare_refl.
Qed.

Lemma cmp_descending_antisym x y : cmp_descending y x = CompOpp (cmp_descending x y).
Proof.
  rewrite !cmp_descending_cases, (Z.compare_antisym (VarUint.val y.2)).
  destruct (_ ?= _); simpl; auto. apply hash_cmp_antisym.
Qed.

Lemma cmp_descending_eq x y : cmp_descending x y = Eq <-> x = y.
Proof.
  rewrite cmp_descending_cases. destruct (Z.compare_spec (VarUint.val y.2) (VarUint.val x.2)) as [E|E|E].
  - rewrite hash_cmp_eq. apply VarUint.val_inj in E. destruct x, y; simpl in *; naive_solver.
  - split; [done|]. intros ->. lia.
  - split; [done|]. intros ->. lia.
Qed.

(** The order as one of integers: first the difficulty, then the hash. *)
Lemma before_iff x y :
  before x y <->
    VarUint.val y.2 < VarUint.val x.2 \/
    VarUint.val y.2 = VarUint.val x.2 /\ hash_val y.1 < hash_val x.1.
Proof.
  unfold before. rewrite cmp_descending_cases, hash_cmp_from_be.
  unfold hash_val, hash_bytes.
  destruct (Z.compare_spec (VarUint.val y.2) (VarUint.val x.2)); rewrite ?Z.compare_lt_iff;
    intuition (try lia; try done).
Qed.

#[export] Instance before_trans : Transitive before.
Proof. intros x y z. rewrite !before_iff. lia. Qed.
Lemma before_irrefl x : ~ before x x.
Proof. rewrite before_iff. lia. Qed.

Lemma not_gt_before x y : cmp_descending x y <> Gt -> x <> y -> before x y.
Proof.
  unfold before. intros H1 H2. destruct (cmp_descending x y) eqn:E; [|done|done].
  by apply cmp_descending_eq in E.
Qed.

(** The scores of distinct blocks are sorted strictly. *)
Lemma sort_descending_strict l :
  NoDup l -> StronglySorted before (sort_descending_by_cumulative_difficulty l).
Proof.
  intros Hnd. unfold sort_descending_by_cumulative_difficulty.
  assert (NoDup (sort_by cmp_descending l)) as Hnd' by by rewrite sort_by_Permutation.
  assert (Sorted (fun x y => cmp_descending x y <> Gt) (sort_by cmp_descending l)) as Hs.
  { apply sort_by_sorted. intros x y Hg. rewrite cmp_descending_antisym, Hg. done. }
  apply Sorted_StronglySorted; [exact before_trans|].
  induction Hs as [|x m Hs IH Hhd]; [constructor|].
  apply list.NoDup_cons in Hnd' as [Hx Hnd']. constructor; [by apply IH|].
  destruct Hhd as [|y m Hg]; constructor. apply not_gt_before; [done|]. set_solver.
Qed.

(** A strictly sorted list is determined by its elements. *)
Lemma strict_sorted_unique l1 l2 :
  StronglySorted before l1 -> StronglySorted before l2 -> l1 ≡ₚ l2 -> l1 = l2.
Proof.
  intros H1. revert l2. induction H1 as [|x l1 _ IH Hx]; intros l2 H2 Hp.
  - by apply Permutation_nil_l in Hp as ->.
  - destruct H2 as [|y l2 H2 Hy]; [by apply Permutation_nil_r in Hp|].
    assert (x = y) as ->.
    { assert (x ∈ y :: l2) as Hxin by (rewrite <- Hp; left).
      assert (y ∈ x :: l1) as Hyin by (rewrite Hp; left).
      apply list.elem_of_cons in Hxin as [->|Hxin]; [done|].
      apply list.elem_of_cons in Hyin as [->|Hyin]; [done|].
      rewrite list.Forall_forall in Hx, Hy. destruct (before_irrefl x).
      transitivity y; auto. }
    f_equal. apply IH; [done|]. by apply Permutation_cons_inv in Hp.
Qed.

Lemma sort_descending_Permutation l l' :
  NoDup l -> l ≡ₚ l' ->
  sort_descending_by_cumulative_difficulty l = sort_descending_by_cumulative_difficulty l'.
Proof.
  intros Hnd Hp. apply strict_sorted_unique.
  - by apply sort_descending_strict.
  - apply sort_descending_strict. by rewrite <- Hp.
  - unfold sort_descending_by_cumulative_difficulty. by rewrite !sort_by_Permutation.
Qed.

(** ** Loops that keep the first largest element *)

(** [b] is the first element of [l] where [f] is largest. *)
Definition first_max {A} (f : A -> Z) (l : list A) (b : A) : Prop :=
  exists l1 l2, l = l1 ++ b :: l2 /\ (forall x, x ∈ l1 -> f x < f b) /\ (forall x, x ∈ l2 -> f x <= f b).

(** The invariant of the loops: nothing selected and nothing above [m], or the
    first largest element of what was seen. *)
Definition selected {A} (f : A -> Z) (m : Z) (seen : list A) (r : Z * option A) : Prop :=
  match r.2 with
  | None => r.1 = m /\ forall x, x ∈ seen -> f x <= m
  | Some b => r.1 = f b /\ m < f b /\ first_max f seen b
  end.

Lemma selected_step {A} (f : A -> Z) m seen v s a :
  selected f m seen (v, s) ->
  selected f m (seen ++ [a]) (if v <? f a then (f a, Some a) else (v, s)).
Proof.
  unfold selected, first_max. simpl. intros Hs. destruct (Z.ltb_spec v (f a)) as [Hlt|Hle]; simpl.
  - destruct s as [b|].
    + destruct Hs as (-> & Hm & l1 & l2 & -> & H1 & H2). split; [done|]. split; [lia|].
      exists (l1 ++ b :: l2), []. rewrite <- !(assoc_L (++)). split; [done|]. split; [|set_solver].
      intros x [Hx|[->|Hx]%list.elem_of_cons]%elem_of_app; [|lia|].
      * specialize (H1 x Hx). lia.
      * specialize (H2 x Hx). lia.
    + destruct Hs as [-> Hs]. split; [done|]. split; [lia|]. exists seen, [].
      split; [done|]. split; [|set_solver]. intros x Hx. specialize (Hs x Hx). lia.
  - destruct s as [b|].
    + destruct Hs as (-> & Hm & l1 & l2 & -> & H1 & H2). split; [done|]. split; [lia|].
      exists l1, (l2 ++ [a]). rewrite <- !(assoc_L (++)). split; [done|]. split; [done|].
      intros x [Hx| ->%list_elem_of_singleton]%elem_of_app; auto.
    + destruct Hs as [-> Hs]. split; [done|].
      intros x [Hx| ->%list_elem_of_singleton]%elem_of_app; auto.
Qed.

(** A loop with this body over lookups that succeed. *)
Lemma selected_fold {A V} (val : V -> Z) (look : A -> bres V) (f : A -> V) m v0 l :
  (forall a, a ∈ l -> look a = Ok (f a)) -> val v0 = m ->
  exists r, foldM (fun '(v, s) a => x ← look a; Ok (if val v <? val x then (x, Some a) else (v, s)))
      (v0, None) l = Ok r /\ selected (fun a => val (f a)) m l (val r.1, r.2).
Proof.
  intros Hl Hv. enough (forall l2 seen v s,
    (forall a, a ∈ l2 -> look a = Ok (f a)) -> selected (fun a => val (f a)) m seen (val v, s) ->
    exists r, foldM (fun '(v, s) a => x ← look a; Ok (if val v <? val x then (x, Some a) else (v, s)))
      (v, s) l2 = Ok r /\ selected (fun a => val (f a)) m (seen ++ l2) (val r.1, r.2)) as He.
  { apply (He l [] v0 None Hl). split; [done|]. set_solver. }
  intros l2. induction l2 as [|a l2 IH]; intros seen v s Hl2 Hs; cbn [foldM].
  - exists (v, s). by rewrite app_nil_r.
  - rewrite (Hl2 a) by left. cbn [mbind res_bind].
    replace (seen ++ a :: l2) with ((seen ++ [a]) ++ l2) by by rewrite <- (assoc_L (++)).
    pose proof (selected_step _ _ _ _ _ a Hs) as Hs'. cbn beta in Hs'.
    destruct (val v <? val (f a)).
    + apply IH; [set_solver|]. exact Hs'.
    + apply IH; [set_solver|]. exact Hs'.
Qed.

(** ** The sorted tips *)

Lemma mapMr_scores storage tips cd :
  (forall h, h ∈ tips -> get_cumulative_difficulty_for_block_hash storage h = Ok (cd h)) ->
  mapMr (fun hash => cumulative_difficulty ← get_cumulative_difficulty_for_block_hash storage hash;
           Ok (hash, cumulative_difficulty)) tips = Ok ((fun h => (h, cd h)) <$> tips).
Proof.
  induction tips as [|h tips IH]; intros Hcd; [done|]. cbn [mapMr].
  rewrite (Hcd h) by left. cbn [mbind res_bind]. rewrite IH by set_solver. done.
Qed.

Lemma iset_of_list (l : list Hash) : NoDup l -> iset_list (iset_extend iset_new l) = l.
Proof. intros Hnd. rewrite iset_extend_list; rewrite iset_new_spec; done. Qed.

Definition tip_before (cd : Hash -> VarUint.t) (a b : Hash) : Prop := before (a, cd a) (b, cd b).

Lemma NoDup_scores (cd : Hash -> VarUint.t) tips : NoDup tips -> NoDup ((fun h => (h, cd h)) <$> tips).
Proof. apply NoDup_fmap_2. by intros a b [= ->]. Qed.

(** What [sort_tips] computes when the difficulty of each tip is known. *)
Lemma sort_tips_eq storage tips cd :
  tips <> [] -> NoDup tips ->
  (forall h, h ∈ tips -> get_cumulative_difficulty_for_block_hash storage h = Ok (cd h)) ->
  sort_tips storage tips = Ok (iset_extend iset_new
    (fst <$> sort_descending_by_cumulative_difficulty ((fun h => (h, cd h)) <$> tips))).
Proof.
  intros Hne Hnd Hcd. unfold sort_tips. destruct tips as [|a [|b tips]]; [done|done|].
  cbn [length]. by rewrite (mapMr_scores _ _ cd).
Qed.

Lemma sorted_scores_keys cd tips :
  NoDup tips ->
  let l := sort_descending_by_cumulative_difficulty ((fun h => (h, cd h)) <$> tips) in
  (fst <$> l) ≡ₚ tips /\ NoDup (fst <$> l) /\ StronglySorted (tip_before cd) (fst <$> l).
Proof.
  intros Hnd l. assert (l ≡ₚ (fun h => (h, cd h)) <$> tips) as Hp by apply sort_by_Permutation.
  assert (fst <$> l ≡ₚ tips) as Hk.
  { rewrite Hp, <- list_fmap_compose. by rewrite list_fmap_id. }
  split; [done|]. split; [by rewrite Hk|].
  assert (Forall (fun p => p.2 = cd p.1) l) as Hf.
  { rewrite Hp. apply list.Forall_forall. by intros p (h & -> & _)%list_elem_of_fmap. }
  assert (StronglySorted before l) as Hs by apply sort_descending_strict, NoDup_scores, Hnd.
  clearbody l. clear Hp Hk. induction Hs as [|[h v] l _ IH Hb]; csimpl; [constructor|].
  apply list.Forall_cons in Hf as [Hv Hf]. simpl in Hv. subst. constructor; [by apply IH|].
  apply Forall_fmap. clear IH. induction Hf as [|[h2 v2] l Hv2 Hf IHf]; constructor.
  - apply list.Forall_cons in Hb as [Hb _]. simpl in *. by subst.
  - apply IHf. by apply list.Forall_cons in Hb as [_ Hb].
Qed.
End Dag.

(** ** Properties *)

Section Properties.
Context {UL : U256Lib} {IS : IndexSetLib Hash} {S : Type} {DP : DifficultyProvider S}.
Context (storage : S) (tips : list Hash).

Section Difficulties.
Context (cd : Hash -> VarUint.t)
  (Hcd : forall h, h ∈ tips -> get_cumulative_difficulty_for_block_hash storage h = Ok (cd h)).

Lemma best_tip_selected :
  (2 <= length tips)%nat ->
  exists v s, selected (fun h => VarUint.val (cd h)) 0 tips (VarUint.val v, s) /\
    find_best_tip_by_cumulative_difficulty storage tips = ok_or s BlockchainError.ExpectedTips.
Proof using Hcd.
  intros Hlen. destruct (selected_fold VarUint.val
    (get_cumulative_difficulty_for_block_hash storage) cd 0 VarUint.zero tips Hcd VarUint.val_zero)
    as ([v s] & Hf & Hs).
  exists v, s. split; [exact Hs|].
  unfold find_best_tip_by_cumulative_difficulty, VarUint.ltb.
  destruct tips as [|a [|b l]]; [simpl in Hlen; lia..|]. by rewrite Hf.
Qed.

(** [sort_tips] returns exactly the given tips, strictly sorted by
    descending cumulative difficulty and then by descending hash; so the order
    does not depend on the order in which the tips were given. *)
Theorem sort_tips_sorted (Hne : tips <> []) (Hnd : NoDup tips) :
  exists s, sort_tips storage tips = Ok s /\
    iset_list s ≡ₚ tips /\ StronglySorted (tip_before cd) (iset_list s) /\
    forall tips', tips' ≡ₚ tips -> sort_tips storage tips' = Ok s.
Proof using Hcd.
  eexists. split; [by apply sort_tips_eq|].
  destruct (sorted_scores_keys cd tips Hnd) as (Hp & Hk & Hs).
  rewrite iset_of_list by done. split; [done|]. split; [done|]. intros tips' Hp'.
  rewrite (sort_tips_eq storage tips' cd).
  - do 3 f_equal. apply sort_descending_Permutation; [|by rewrite Hp'].
    apply NoDup_scores. by rewrite Hp'.
  - intros E. rewrite E in Hp'. by apply Permutation_nil_l in Hp'.
  - by rewrite Hp'.
  - intros h Hh. apply Hcd. by rewrite <- Hp'.
Qed.

(** Among several tips, [find_best_tip_by_cumulative_difficulty] returns the
    first one of the largest cumulative difficulty; it fails only when all the
    difficulties are zero. *)
Theorem find_best_tip_max (Hlen : (2 <= length tips)%nat) :
  match find_best_tip_by_cumulative_difficulty storage tips with
  | Ok b => 0 < VarUint.val (cd b) /\ first_max (fun h => VarUint.val (cd h)) tips b
  | Err e => e = BlockchainError.ExpectedTips /\ forall h, h ∈ tips -> VarUint.val (cd h) = 0
  | Panic | Diverge => False
  end.
Proof using Hcd.
  destruct (best_tip_selected Hlen) as (v & [b|] & Hs & ->); simpl.
  - by destruct Hs as (_ & Hb & Hm).
  - destruct Hs as [_ Hs]. split; [done|]. intros h Hh. specialize (Hs h Hh).
    pose proof (VarUint.val_range (cd h)) as Hr. unfold in_u in Hr. cbn beta in Hs. lia.
Qed.

(** When one tip is strictly the heaviest, the best tip is the first of the
    sorted tips; the two functions differ only on ties, which
    [find_best_tip_by_cumulative_difficulty] breaks by position and
    [sort_tips] by hash. *)
Theorem best_tip_is_first_sorted (b : Hash) (Hlen : (2 <= length tips)%nat) (Hnd : NoDup tips)
    (Hb : b ∈ tips)
    (Hmax : forall h, h ∈ tips -> h <> b -> VarUint.val (cd h) < VarUint.val (cd b)) :
  find_best_tip_by_cumulative_difficulty storage tips = Ok b /\
  exists s, sort_tips storage tips = Ok s /\ head (iset_list s) = Some b.
Proof using Hcd.
  split.
  - destruct (best_tip_selected Hlen) as (v & [c|] & Hs & ->); simpl in *.
    + destruct Hs as (_ & _ & l1 & l2 & E & H1 & H2).
      destruct (decide (b = c)) as [->|Hne]; [done|].
      assert (c ∈ tips) as Hc by (rewrite E; set_solver).
      specialize (Hmax c Hc (not_eq_sym Hne)). rewrite E in Hb.
      apply elem_of_app in Hb as [Hb|Hb]; [specialize (H1 b Hb); simpl in H1; lia|].
      apply list.elem_of_cons in Hb as [->|Hb]; [lia|]. specialize (H2 b Hb). simpl in H2. lia.
    + destruct Hs as [_ Hs]. assert (exists h, h ∈ tips /\ h <> b) as (h & Hh & Hne).
      { destruct tips as [|x [|y l]]; [simpl in Hlen; lia..|].
        apply list.NoDup_cons in Hnd as [Hx _]. destruct (decide (x = b)) as [->|]; [|by exists x; set_solver].
        exists y. split; [set_solver|]. intros ->. apply Hx. left. }
      specialize (Hmax h Hh Hne). specialize (Hs b Hb). simpl in Hs.
      pose proof (VarUint.val_range (cd h)) as Hr. unfold in_u in Hr. lia.
  - destruct (sorted_scores_keys cd tips Hnd) as (Hp & Hk & Hs).
    assert (tips <> []) as Hne0 by (intros Et; rewrite Et in Hlen; simpl in Hlen; lia).
    eexists. split; [apply (sort_tips_eq storage tips cd Hne0 Hnd Hcd)|].
    rewrite iset_of_list by done.
    destruct Hs as [|x l _ Hx]; [apply Permutation_nil_l in Hp; rewrite <- Hp in Hb; set_solver|].
    simpl. f_equal. destruct (decide (x = b)) as [|Hne]; [done|]. exfalso.
    rewrite list.Forall_forall in Hx. assert (b ∈ x :: l) as Hbl by by rewrite Hp.
    apply list.elem_of_cons in Hbl as [->|Hbl]; [done|]. specialize (Hx b Hbl).
    unfold tip_before in Hx. rewrite before_iff in Hx. simpl in Hx.
    assert (x ∈ tips) as Hxt by (rewrite <- Hp; left). specialize (Hmax x Hxt Hne). lia.
Qed.
End Difficulties.

(** The height above a set of tips is one more than the largest height
    among them, so strictly above each of them; it is zero for no tip. *)
Theorem height_above_tips (ht : Hash -> Z)
    (Hht : forall h, h ∈ tips -> get_height_for_block_hash storage h = Ok (ht h))
    (Hr : forall h, h ∈ tips -> 0 <= ht h < 2 ^ 64 - 1) :
  exists n, calculate_height_at_tips storage tips = Ok n /\
    (forall h, h ∈ tips -> ht h < n) /\
    (tips = [] /\ n = 0 \/ exists h, h ∈ tips /\ n = ht h + 1).
Proof.
  assert (forall l n0, (forall h, h ∈ l -> h ∈ tips) -> exists n,
    foldM (fun height hash => past_height ← get_height_for_block_hash storage hash;
      Ok (if height <=? past_height then past_height else height)) n0 l = Ok n /\
    n0 <= n /\ (forall h, h ∈ l -> ht h <= n) /\ (n = n0 \/ exists h, h ∈ l /\ n = ht h)) as Hloop.
  { induction l as [|a l IH]; intros n0 Hl; cbn [foldM].
    - exists n0. split; [done|]. split; [lia|]. split; [set_solver|by left].
    - rewrite Hht by (apply Hl; left). cbn [mbind res_bind].
      destruct (IH (if n0 <=? ht a then ht a else n0)) as (n & -> & Hn & Hall & Hx); [set_solver|].
      exists n. split; [done|]. destruct (Z.leb_spec n0 (ht a)).
      + split; [lia|]. split; [intros h [->|Hh]%list.elem_of_cons; [lia|auto]|].
        right. destruct Hx as [->|(h & Hh & ->)]; [exists a|exists h]; set_solver.
      + split; [lia|]. split; [intros h [->|Hh]%list.elem_of_cons; [lia|auto]|].
        destruct Hx as [->|(h & Hh & ->)]; [by left|]. right. exists h. set_solver. }
  unfold calculate_height_at_tips.
  destruct (Hloop tips 0 (fun h Hh => Hh)) as (n & -> & Hn & Hall & Hx). cbn [mbind res_bind].
  destruct tips as [|a l] eqn:Et.
  - exists n. split; [done|]. split; [set_solver|]. left. split; [done|]. set_solver.
  - assert (exists h, h ∈ a :: l /\ n = ht h) as (h & Hh & ->).
    { destruct Hx as [->|]; [|done]. exists a. split; [left|].
      specialize (Hall a ltac:(left)). specialize (Hr a ltac:(left)). lia. }
    exists (ht h + 1). specialize (Hr h Hh). cbn [length Nat.eqb negb].
    rewrite u64_add_small by (unfold in_u; lia). split; [done|].
    split; [intros x Hx'; specialize (Hall x Hx'); lia|]. right. eauto.
Qed.
End Properties.

(** ** Witnesses: three tips, two of the same difficulty *)

#[local] Existing Instances u256_model iset_model.

Definition w_tip (n : Z) : Hash := mkHash (vinsert 31%fin (to_byte n) (vreplicate 32 x00)).
Definition w_cd (h : Hash) : VarUint.t := VarUint.from_u64 (if decide (h = w_tip 3) then 9 else 5).
Definition w_ht (h : Hash) : Z := if decide (h = w_tip 2) then 7 else 6.

#[local] Instance w_provider : DifficultyProvider unit := {|
  get_height_for_block_hash _ h := Ok (w_ht h);
  get_timestamp_for_block_hash _ h := Ok 0;
  get_difficulty_for_block_hash _ h := Ok (w_cd h);
  get_cumulative_difficulty_for_block_hash _ h := Ok (w_cd h);
  get_past_blocks_for_block_hash _ _ := Ok iset_new;
  get_block_header_by_hash _ _ := Err BlockchainError.Unknown;
  get_estimated_covariance_for_block_hash _ _ := Ok VarUint.zero;
  set_cumulative_difficulty_for_block_hash _ _ := mret tt;
|}.
Definition w_tips : list Hash := [w_tip 1; w_tip 2; w_tip 3].

Lemma w_tips_NoDup : NoDup w_tips.
Proof. apply (bool_decide_unpack _). vm_compute. exact I. Qed.

Lemma w_look h : h ∈ w_tips -> get_cumulative_difficulty_for_block_hash tt h = Ok (w_cd h).
Proof. reflexivity. Qed.

Lemma sort_tips_sorted_witness :
  exists s, sort_tips tt w_tips = Ok s /\
    iset_list s ≡ₚ w_tips /\ StronglySorted (tip_before w_cd) (iset_list s) /\
    forall tips', tips' ≡ₚ w_tips -> sort_tips tt tips' = Ok s.
Proof. exact (sort_tips_sorted tt w_tips w_cd w_look ltac:(done) w_tips_NoDup). Defined.

Lemma find_best_tip_max_witness :
  match find_best_tip_by_cumulative_difficulty tt w_tips with
  | Ok b => 0 < VarUint.val (w_cd b) /\ first_max (fun h => VarUint.val (w_cd h)) w_tips b
  | Err e => e = BlockchainError.ExpectedTips /\ forall h, h ∈ w_tips -> VarUint.val (w_cd h) = 0
  | Panic | Diverge => False
  end.
Proof. exact (find_best_tip_max tt w_tips w_cd w_look ltac:(simpl; lia)). Defined.

Lemma best_tip_is_first_sorted_witness :
  find_best_tip_by_cumulative_difficulty tt w_tips = Ok (w_tip 3) /\
  exists s, sort_tips tt w_tips = Ok s /\ head (iset_list s) = Some (w_tip 3).
Proof.
  apply (best_tip_is_first_sorted tt w_tips w_cd w_look (w_tip 3)).
  - simpl; lia.
  - exact w_tips_NoDup.
  - set_solver.
  - intros h Hh Hne. unfold w_cd. rewrite (decide_False (P:=h = w_tip 3)) by done.
    rewrite decide_True by done. vm_compute. reflexivity.
Defined.

(** On a tie the best tip is the first given, and not the first sorted. *)
Example tie_broken_differently :
  find_best_tip_by_cumulative_difficulty tt [w_tip 1; w_tip 2] = Ok (w_tip 1) /\
  (s ← sort_tips tt [w_tip 1; w_tip 2]; Ok (head (iset_list s))) = Ok (Some (w_tip 2)).
Proof. split; vm_compute; reflexivity. Qed.

Lemma height_above_tips_witness :
  exists n, calculate_height_at_tips tt w_tips = Ok n /\
    (forall h, h ∈ w_tips -> w_ht h < n) /\
    (w_tips = [] /\ n = 0 \/ exists h, h ∈ w_tips /\ n = w_ht h + 1).
Proof.
  apply (height_above_tips tt w_tips w_ht); [reflexivity|].
  intros h _. unfold w_ht. case_decide; lia.
Defined.
