(* ===== verification/Merkle.v ===== *)
(** [xelis_daemon::core::merkle]: the Merkle root of a list of hashes.

    [build] reduces the list level by level, with the loops of the code; the
    reference is the root of a binary tree whose last node is paired with
    itself on odd levels. *)

From S2P Require Import Prelude External ExternalModel Serializer Hash.

Section Merkle.
Context {B3 : Blake3}.

Record MerkleBuilder := mkMerkle { hashes : list Hash }.

Definition merkle_new : MerkleBuilder := mkMerkle [].
Definition merkle_from_iter (iter : list Hash) : MerkleBuilder := mkMerkle iter.
Definition merkle_add (element : Hash) (b : MerkleBuilder) : MerkleBuilder :=
  mkMerkle (b.(hashes) ++ [element]).
Definition merkle_add_bytes (bytes : list byte) (b : MerkleBuilder) : MerkleBuilder :=
  mkMerkle (b.(hashes) ++ [hash bytes]).
Definition merkle_add_element `{Serializer A} (element : A) (b : MerkleBuilder) : MerkleBuilder :=
  mkMerkle (b.(hashes) ++ [hash (to_bytes element)]).
Definition merkle_add_as_hash (bytes : vec byte 32) (b : MerkleBuilder) : MerkleBuilder :=
  mkMerkle (b.(hashes) ++ [mkHash bytes]).

(** [hash(&[left.as_bytes(), right.as_bytes()].concat())] *)
Definition hash_pair (left right : Hash) : Hash := hash (hash_bytes left ++ hash_bytes right).

(** [(0..n).step_by(2)] *)
Definition step_by_2 (n : nat) : list nat := (fun k => (2 * k)%nat) <$> seq 0 (Nat.div2 (n + 1)).

(** One turn of the [while] loop. *)
Definition next_level {E} (l : list Hash) : res E (list Hash) :=
  mapMr (fun i =>
    left ← unwrap (l !! i);
    right ← if (i + 1 <? length l)%nat then unwrap (l !! (i + 1)%nat) else unwrap (l !! i);
    Ok (hash_pair left right)) (step_by_2 (length l)).

Fixpoint build_loop {E} (fuel : nat) (l : list Hash) : res E (list Hash) :=
  if (1 <? length l)%nat then
    match fuel with
    | O => Diverge
    | S fuel => new_hashes ← next_level l; build_loop fuel new_hashes
    end
  else Ok l.

(** [build]: the root is removed from the list it leaves. *)
Definition build {E} (b : MerkleBuilder) : res E (Hash * MerkleBuilder) :=
  l ← build_loop (length b.(hashes)) b.(hashes);
  match l with
  | [] => Panic
  | root :: l => Ok (root, mkMerkle l)
  end.

Definition merkle_verify {E} (root : Hash) (b : MerkleBuilder) : res E (bool * MerkleBuilder) :=
  '(h, b) ← build b; Ok (bool_decide (h = root), b).

(** ** The reference: the levels of the tree *)

Fixpoint pair_up (l : list Hash) : list Hash :=
  match l with
  | a :: b :: l => hash_pair a b :: pair_up l
  | [a] => [hash_pair a a]
  | [] => []
  end.

(** Induction two elements at a time. *)
Lemma pair_ind {A} (P : list A -> Prop) :
  P [] -> (forall a, P [a]) -> (forall a b l, P l -> P (a :: b :: l)) -> forall l, P l.
Proof.
  intros H0 H1 H2 l. enough (P l /\ forall a, P (a :: l)) as [? _] by done.
  induction l as [|b l [IH1 IH2]]; auto.
Qed.

Lemma step_by_2_SS n : step_by_2 (S (S n)) = 0%nat :: ((fun k => (2 + k)%nat) <$> step_by_2 n).
Proof.
  unfold step_by_2. change (Nat.div2 (S (S n) + 1)) with (S (Nat.div2 (n + 1))).
  cbn [seq]. csimpl. f_equal. rewrite <- fmap_S_seq, <- !list_fmap_compose.
  apply list_fmap_ext. intros i k _. simpl. lia.
Qed.

Lemma mapMr_fmap {E A B C} (f : B -> res E C) (g : A -> B) l :
  mapMr f (g <$> l) = mapMr (fun a => f (g a)) l.
Proof. induction l as [|a l IH]; csimpl; [done|]. by rewrite IH. Qed.

Lemma mapMr_ext {E A B} (f g : A -> res E B) l : (forall a, f a = g a) -> mapMr f l = mapMr g l.
Proof. intros Hfg. induction l as [|a l IH]; simpl; [done|]. by rewrite Hfg, IH. Qed.

(** The loop over the indices computes the level above. *)
Lemma next_level_spec {E} (l : list Hash) : next_level (E:=E) l = Ok (pair_up l).
Proof.
  unfold next_level. induction l as [|a|a b l IH] using pair_ind; [done..|].
  change (length (a :: b :: l)) with (S (S (length l))).
  rewrite step_by_2_SS. cbn [mapMr pair_up]. rewrite mapMr_fmap. cbn -[mapMr Nat.ltb step_by_2].
  erewrite mapMr_ext; [by rewrite IH|]. intros i. cbn -[Nat.ltb].
  by replace (S (S (i + 1)) <? S (S (length l)))%nat with (i + 1 <? length l)%nat by done.
Qed.

Lemma length_pair_up l : length (pair_up l) = Nat.div2 (length l + 1).
Proof.
  induction l as [|a|a b l IH] using pair_ind; [done..|]. cbn [pair_up length]. rewrite IH. done.
Qed.

Lemma pair_up_shorter l : (2 <= length l)%nat -> (1 <= length (pair_up l) < length l)%nat.
Proof.
  rewrite length_pair_up, Nat.div2_div. intros Hl.
  pose proof (Nat.div_mod_eq (length l + 1) 2). pose proof (Nat.mod_upper_bound (length l + 1) 2). lia.
Qed.

(** The length of the list is enough fuel: one root is left. *)
Lemma build_loop_total {E} fuel l :
  l <> [] -> (length l <= fuel)%nat -> exists root, build_loop (E:=E) fuel l = Ok [root].
Proof.
  revert l. induction fuel as [|fuel IH]; intros [|a [|b l]] Hne Hl; simpl in Hl; try done; try lia.
  - by exists a.
  - cbn [build_loop]. change (1 <? length (a :: b :: l))%nat with true.
    rewrite next_level_spec. cbn [mbind res_bind].
    pose proof (pair_up_shorter (a :: b :: l) ltac:(simpl; lia)) as Hs. apply IH.
    + intros E0. rewrite E0 in Hs. simpl in Hs. lia.
    + simpl in *. lia.
Qed.

(** More fuel changes nothing. *)
Lemma build_loop_fuel {E} fuel fuel' l :
  (length l <= fuel)%nat -> (length l <= fuel')%nat -> build_loop (E:=E) fuel l = build_loop fuel' l.
Proof.
  revert fuel' l. induction fuel as [|fuel IH]; intros fuel' [|a [|b l]] H1 H2; simpl in H1, H2; try lia;
    destruct fuel' as [|fuel']; simpl in H2; try done; try lia.
  cbn [build_loop]. change (1 <? length (a :: b :: l))%nat with true.
  rewrite next_level_spec. cbn [mbind res_bind].
  pose proof (pair_up_shorter (a :: b :: l) ltac:(simpl; lia)). simpl in *. apply IH; simpl; lia.
Qed.

(** One level is skipped at a time. *)
Lemma build_pair_up {E} l :
  (2 <= length l)%nat -> build (E:=E) (mkMerkle l) = build (mkMerkle (pair_up l)).
Proof.
  intros Hl. unfold build. cbn [hashes].
  pose proof (pair_up_shorter l Hl) as Hs.
  destruct (length l) as [|n] eqn:El; [lia|]. cbn [build_loop]. rewrite El.
  replace (1 <? S n)%nat with true by (symmetry; apply Nat.ltb_lt; lia).
  rewrite next_level_spec. cbn [mbind res_bind]. rewrite (build_loop_fuel n (length (pair_up l))); [done|lia..].
Qed.

Lemma build_single {E} a : build (E:=E) (mkMerkle [a]) = Ok (a, mkMerkle []).
Proof. done. Qed.

(** What is hashed to go from one level to the next. *)
Definition pair_input (left right : Hash) : list byte := hash_bytes left ++ hash_bytes right.
Fixpoint pair_inputs (l : list Hash) : list (list byte) :=
  match l with
  | [] => []
  | [a] => [pair_input a a]
  | a :: b :: l => pair_input a b :: pair_inputs l
  end.
(** A level of the trees over [l] and [m] on which two of these inputs collide. *)
Definition tree_collision (l m : list Hash) : Prop :=
  exists k, collision_among (pair_inputs (Nat.iter k pair_up l)) (pair_inputs (Nat.iter k pair_up m)).

Lemma hash_pair_inj a b c d : hash_pair a b = hash_pair c d -> a = c /\ b = d \/ collides (pair_input a b) (pair_input c d).
Proof.
  intros [E|Hc]%hash_inj_or; [|by right].
  apply app_inj_1 in E as [E1 E2]; [|by rewrite !length_hash_bytes].
  left. by split; apply hash_bytes_inj.
Qed.

(** A level is determined by the next one and its own length. *)
Lemma pair_up_inj l m : length l = length m -> pair_up l = pair_up m ->
  l = m \/ collision_among (pair_inputs l) (pair_inputs m).
Proof.
  revert m. induction l as [|a|a b l IH] using pair_ind; intros [|c [|d m]] Hl E; try done; simpl in Hl; try lia.
  - by left.
  - apply list.cons_eq_inj in E as [E _]. apply hash_pair_inj in E as [[-> _]|Hc]; [by left|]. right. by left.
  - cbn [pair_up] in E. apply list.cons_eq_inj in E as [E Em].
    apply hash_pair_inj in E as [[-> ->]|Hc]; [|right; by left].
    destruct (IH m) as [->|Hc]; [lia|done|by left|]. right. by right.
Qed.

Lemma build_inj {E} l m root bl bm :
  length l = length m -> l <> [] ->
  build (E:=E) (mkMerkle l) = Ok (root, bl) -> build (E:=E) (mkMerkle m) = Ok (root, bm) ->
  l = m \/ tree_collision l m.
Proof.
  remember (length l) as n eqn:Hn. revert l m Hn.
  induction n as [n IH] using lt_wf_ind. intros l m -> Hlm Hne H1 H2.
  destruct (decide (2 <= length l)%nat) as [Hge|Hlt].
  - rewrite build_pair_up in H1, H2 by lia. pose proof (pair_up_shorter l Hge) as Hs.
    destruct (IH (length (pair_up l)) ltac:(lia) (pair_up l) (pair_up m)) as [Hp|[k Hk]]; try done.
    + by rewrite !length_pair_up, Hlm.
    + intros E0. rewrite E0 in Hs. simpl in Hs. lia.
    + apply pair_up_inj in Hp as [->|Hc]; [by left| |done]. right. by exists O.
    + right. exists (S k). by rewrite !Nat.iter_succ_r.
  - destruct l as [|a [|? ?]], m as [|b [|? ?]]; simpl in *; try done; try lia.
    rewrite build_single in H1, H2. left. congruence.
Qed.

Lemma pair_up_app l m : Nat.Even (length l) -> pair_up (l ++ m) = pair_up l ++ pair_up m.
Proof.
  intros Hl. induction l as [|a|a b l IH] using pair_ind; [done| |].
  - by destruct Hl as [k Hk]; simpl in Hk; lia.
  - cbn [pair_up app]. rewrite IH; [done|]. by apply Nat.Even_succ_succ.
Qed.
End Merkle.

(** ** Properties *)

Section Properties.
Context {B3 : Blake3}.

(** The [while] loop of [build] terminates; it returns a root for any
    non-empty list of hashes and leaves the builder empty, and it panics
    exactly on the empty list. *)
Theorem merkle_build_total {E} (l : list Hash) :
  match build (E:=E) (mkMerkle l) with
  | Ok (_, b) => l <> [] /\ b = merkle_new
  | Panic => l = []
  | Err _ | Diverge => False
  end.
Proof.
  destruct l as [|a l]; [done|].
  destruct (build_loop_total (E:=E) (length (a :: l)) (a :: l)) as [root Hr]; [done|lia|].
  unfold build. cbn [hashes]. by rewrite Hr.
Qed.

(** The root binds the list: two non-empty lists of one length with the same
    root are equal, or on some level two of the pairs that are hashed, at the
    same place of the two trees, collide. *)
Theorem merkle_root_binding {E} (l m : list Hash) (root : Hash) (bl bm : MerkleBuilder)
    (Hlen : length l = length m) (Hne : l <> [])
    (Hl : build (E:=E) (mkMerkle l) = Ok (root, bl))
    (Hm : build (E:=E) (mkMerkle m) = Ok (root, bm)) :
  l = m \/ tree_collision l m.
Proof. by eapply build_inj. Qed.

(** The root does not bind the length: after an even, non-zero number of
    hashes, repeating the last hash of an odd list changes nothing. *)
Theorem merkle_odd_duplicate {E} (l : list Hash) (x : Hash)
    (Hl : Nat.Even (length l)) (Hne : l <> []) :
  build (E:=E) (mkMerkle (l ++ [x; x])) = build (mkMerkle (l ++ [x])).
Proof.
  assert (2 <= length l)%nat as Hge.
  { destruct l as [|a [|b l]]; [done| |simpl; lia]. destruct Hl as [k Hk]. simpl in Hk. lia. }
  rewrite (build_pair_up (l ++ [x; x])), (build_pair_up (l ++ [x])) by (rewrite length_app; lia).
  by rewrite !pair_up_app.
Qed.
End Properties.

#[local] Existing Instance blake3_model.

Definition w_hashes : list Hash := [HashOps.max; HashOps.zero].

(** The toy hash only sees the right child. *)
Definition w_hashes' : list Hash := [HashOps.zero; HashOps.zero].

Lemma merkle_root_binding_witness : w_hashes = w_hashes' \/ tree_collision w_hashes w_hashes'.
Proof.
  apply (merkle_root_binding (E:=()) w_hashes w_hashes' HashOps.zero merkle_new merkle_new); [done|done|..];
    vm_compute; reflexivity.
Defined.

Lemma merkle_odd_duplicate_witness :
  build (E:=()) (mkMerkle (w_hashes ++ [HashOps.max; HashOps.max])) =
  build (mkMerkle (w_hashes ++ [HashOps.max])).
Proof. apply merkle_odd_duplicate; [by exists 1%nat|done]. Defined.
