(* ===== verification/Account.v ===== *)
(** [xelis_common::account]: the lazily compressed ciphertext of a balance, and
    the versions of a balance and of a nonce as they are stored.

    Two caches are equal when they compress to the same bytes: this is the
    [PartialEq] of the code, and the setoid equality [≡] here. *)

From Stdlib Require Import Setoid Morphisms.
From S2P Require Import Prelude External ExternalCrypto Serializer Hash Defaults Elgamal.

Section Account.
Context {CV : Curve}.

(** ** mod.rs *)
Inductive CiphertextCache :=
  | Compressed (c : CompressedCiphertext)
  | Decompressed (e : Ciphertext)
  | Both (c : CompressedCiphertext) (e : Ciphertext) (dirty : bool).

(** [computable] returns a reference into the cache: its value, and the cache
    that now holds it.  [put_computable] is a write through that reference. *)
Definition computable (k : CiphertextCache) : res DecompressionError (Ciphertext * CiphertextCache) :=
  match k with
  | Compressed c => decompressed ← ct_decompress c; Ok (decompressed, Decompressed decompressed)
  | Decompressed e => Ok (e, k)
  | Both c e _ => Ok (e, Both c e true)
  end.
Definition put_computable (e' : Ciphertext) (k : CiphertextCache) : CiphertextCache :=
  match k with
  | Compressed c => Compressed c
  | Decompressed _ => Decompressed e'
  | Both c _ dirty => Both c e' dirty
  end.

(** [compress(&self)] *)
Definition cc_compress (k : CiphertextCache) : CompressedCiphertext :=
  match k with
  | Compressed c => c
  | Decompressed e => ct_compress e
  | Both c e dirty => if dirty then ct_compress e else c
  end.

(** [compressed(&mut self)] *)
Definition compressed (k : CiphertextCache) : CompressedCiphertext * CiphertextCache :=
  match k with
  | Compressed c => (c, k)
  | Decompressed e => (ct_compress e, Both (ct_compress e) e false)
  | Both c d dirty =>
      let c := if dirty then ct_compress d else c in (c, Both c d dirty)
  end.

Definition decompressed (k : CiphertextCache) : res DecompressionError (Ciphertext * CiphertextCache) :=
  match k with
  | Compressed c => decompressed ← ct_decompress c; Ok (decompressed, Both c decompressed false)
  | Decompressed e => Ok (e, k)
  | Both _ e _ => Ok (e, k)
  end.

Definition both (k : CiphertextCache) :
    res DecompressionError (CompressedCiphertext * Ciphertext * CiphertextCache) :=
  match k with
  | Both c e dirty =>
      let c := if dirty then ct_compress e else c in Ok (c, e, Both c e dirty)
  | Compressed c =>
      decompressed ← ct_decompress c; Ok (c, decompressed, Both c decompressed false)
  | Decompressed e => Ok (ct_compress e, e, Both (ct_compress e) e false)
  end.

Definition take_ciphertext (k : CiphertextCache) : res DecompressionError Ciphertext :=
  match k with
  | Compressed c => ct_decompress c
  | Decompressed e => Ok e
  | Both _ e _ => Ok e
  end.

#[export] Instance CiphertextCache_Serializer : Serializer CiphertextCache := {|
  write k w := write (cc_compress k) w;
  read := compressed ← read (A:=CompressedCiphertext); mret (Compressed compressed);
  size _ := (RISTRETTO_COMPRESSED_SIZE + RISTRETTO_COMPRESSED_SIZE)%nat;
|}.

#[export] Instance cache_equiv : Equiv CiphertextCache := fun a b => cc_compress a = cc_compress b.
#[export] Instance cache_equivalence : Equivalence (≡@{CiphertextCache}).
Proof. split; unfold equiv, cache_equiv; repeat intro; congruence. Qed.
#[export] Instance cache_equiv_dec : RelDecision (≡@{CiphertextCache}).
Proof. intros a b. unfold equiv, cache_equiv. apply _. Defined.
#[export] Instance cc_compress_proper : Proper ((≡) ==> (=)) cc_compress.
Proof. by intros a b E. Qed.

(** ** nonce.rs *)
Record VersionedNonce := mkVNonce { vn_nonce : Z; vn_previous_topoheight : option Z }.

Definition set_nonce (value : Z) (v : VersionedNonce) : VersionedNonce :=
  mkVNonce value v.(vn_previous_topoheight).
Definition vn_set_previous_topoheight (p : option Z) (v : VersionedNonce) : VersionedNonce :=
  mkVNonce v.(vn_nonce) p.

#[export] Instance VersionedNonce_Serializer : Serializer VersionedNonce := {|
  write v w :=
    let w := Writer.write_u64 v.(vn_nonce) w in
    match v.(vn_previous_topoheight) with Some topo => Writer.write_u64 topo w | None => w end;
  read :=
    nonce ← Reader.read_u64;
    (fun reader =>
      if (Reader.size reader =? 0)%nat then Ok (mkVNonce nonce None, reader)
      else (topo ← Reader.read_u64; mret (mkVNonce nonce (Some topo))) reader) : rd VersionedNonce;
  size v := (8 + match v.(vn_previous_topoheight) with Some _ => 8 | None => 0 end)%nat;
|}.

(** ** balance.rs *)
Inductive BalanceType := InputB | OutputB | BothB.
#[export] Instance BalanceType_eq_dec : EqDecision BalanceType.
Proof. solve_decision. Defined.

#[export] Instance BalanceType_Serializer : Serializer BalanceType := {|
  write x w := Writer.write_u8 match x with InputB => 0 | OutputB => 1 | BothB => 2 end w;
  read :=
    tag ← Reader.read_u8;
    if tag =? 0 then mret InputB
    else if tag =? 1 then mret OutputB
    else if tag =? 2 then mret BothB
    else rd_err InvalidValue;
  size _ := 1%nat;
|}.

Record VersionedBalance := mkVBalance {
  output_balance : option CiphertextCache;
  final_balance : CiphertextCache;
  balance_type : BalanceType;
  previous_topoheight : option Z;
}.

Definition balance_new (final_balance : CiphertextCache) (previous_topoheight : option Z) : VersionedBalance :=
  mkVBalance None final_balance InputB previous_topoheight.
Definition balance_zero : VersionedBalance := balance_new (Decompressed ct_zero) None.
Definition prepare_new (previous_topoheight : option Z) (b : VersionedBalance) : VersionedBalance :=
  mkVBalance None b.(final_balance) InputB previous_topoheight.
Definition has_output_balance (b : VersionedBalance) : bool :=
  match b.(output_balance) with Some _ => true | None => false end.
Definition take_balance_with (output : bool) (b : VersionedBalance) : CiphertextCache :=
  match b.(output_balance) with
  | Some balance => if output then balance else b.(final_balance)
  | None => b.(final_balance)
  end.
Definition set_output_balance (value : option CiphertextCache) (b : VersionedBalance) : VersionedBalance :=
  mkVBalance value b.(final_balance) b.(balance_type) b.(previous_topoheight).
Definition set_balance (value : CiphertextCache) (b : VersionedBalance) : VersionedBalance :=
  mkVBalance b.(output_balance) value b.(balance_type) b.(previous_topoheight).
Definition set_balance_type (t : BalanceType) (b : VersionedBalance) : VersionedBalance :=
  mkVBalance b.(output_balance) b.(final_balance) t b.(previous_topoheight).
Definition vb_set_previous_topoheight (p : option Z) (b : VersionedBalance) : VersionedBalance :=
  mkVBalance b.(output_balance) b.(final_balance) b.(balance_type) p.

(** [select_balance] returns a reference to one of the two balances and says
    whether it is the output; [put_selected] writes through it. *)
Definition select_balance (output : bool) (b : VersionedBalance) : CiphertextCache * bool :=
  match b.(output_balance) with
  | Some balance => if output then (balance, true) else (b.(final_balance), false)
  | None => (b.(final_balance), false)
  end.
Definition put_selected (output : bool) (k : CiphertextCache) (b : VersionedBalance) : VersionedBalance :=
  if (select_balance output b).2 then set_output_balance (Some k) b else set_balance k b.

Definition add_plaintext_to_balance (value : Z) (b : VersionedBalance) : res DecompressionError VersionedBalance :=
  '(e, k) ← computable b.(final_balance);
  Ok (set_balance (put_computable (ct_add_u64 e value) k) b).

Definition contains_input (b : VersionedBalance) : bool := bool_decide (b.(balance_type) <> OutputB).
Definition contains_output (b : VersionedBalance) : bool := bool_decide (b.(balance_type) <> InputB).

#[export] Instance VersionedBalance_Serializer : Serializer VersionedBalance := {|
  write b w :=
    let w := write b.(final_balance) w in
    let w := write b.(balance_type) w in
    let w := match b.(previous_topoheight) with Some topo => Writer.write_u64 topo w | None => w end in
    match b.(output_balance) with Some output => write output w | None => w end;
  read :=
    final_balance ← read (A:=CiphertextCache);
    balance_type ← read (A:=BalanceType);
    (fun reader =>
      if (Reader.size reader =? 0)%nat then Ok (mkVBalance None final_balance balance_type None, reader)
      else
        (previous_topo ←
           (if (Reader.size reader =? 8)%nat
               || bool_decide (balance_type = BothB) && (Reader.size reader =? 72)%nat
            then topo ← Reader.read_u64; mret (Some topo)
            else mret None);
         if decide (balance_type = BothB)
         then
           output ← read (A:=CiphertextCache);
           mret (mkVBalance (Some output) final_balance balance_type previous_topo)
         else mret (mkVBalance None final_balance balance_type previous_topo)) reader)
      : rd VersionedBalance;
  size b :=
    (size b.(final_balance) + size b.(balance_type)
     + match b.(previous_topoheight) with Some _ => 8 | None => 0 end
     + match b.(output_balance) with Some output => size output | None => 0 end)%nat;
|}.
(** ** The cache *)

(** A clean pair holds the two forms of one ciphertext. *)
Definition cache_ok (k : CiphertextCache) : Prop :=
  match k with Both c e dirty => dirty = false -> ct_compress e = c | _ => True end.

Lemma ct_decompress_inv c e : ct_decompress c = Ok e -> ct_compress e = c.
Proof.
  unfold ct_decompress, commitment_decompress, handle_decompress. destruct c as [[[c]] [[h]]]; simpl.
  destruct (decompress c) as [p|] eqn:Hp; [|done]. destruct (decompress h) as [q|] eqn:Hq; [|done].
  simpl. intros [= <-]. apply decompress_spec in Hp as ->. by apply decompress_spec in Hq as ->.
Qed.

(** ** The encodings *)

Definition topo_ok (p : option Z) : Prop := from_option (in_u 64) True p.
Definition topo_bytes (p : option Z) : list byte := from_option (be_bytes 8) [] p.
Definition cache_bytes (k : CiphertextCache) : list byte := to_bytes (cc_compress k).
Definition type_byte (t : BalanceType) : list byte :=
  u8_bytes match t with InputB => 0 | OutputB => 1 | BothB => 2 end.

Lemma length_cache_bytes k : length (cache_bytes k) = 64%nat.
Proof. unfold cache_bytes. by rewrite <- ser_size. Qed.

#[local] Instance cache_codec :
  Codec CiphertextCache cache_bytes read (fun k => k = Compressed (cc_compress k)).
Proof.
  split; intros *.
  - intros ->. unfold cache_bytes. cbn [cc_compress]. by run_read.
  - safe_read.
Qed.
#[local] Instance type_codec : CodecCanon BalanceType type_byte read (fun _ => True).
Proof.
  apply mk_codec_canon; intros *.
  - intros _. unfold type_byte. unfold_read.
    destruct x; (rd_step; [reflexivity|done]).
  - safe_read.
  - intros Hr. inv_read Hr.
    destruct (Z.eqb_spec x0 0) as [->|]; [|destruct (Z.eqb_spec x0 1) as [->|];
      [|destruct (Z.eqb_spec x0 2) as [->|]; [|done]]];
      injection Hr as <- <-; (split; [done|]); by exists post0.
Qed.

Definition vn_enc (v : VersionedNonce) : list byte :=
  be_bytes 8 v.(vn_nonce) ++ topo_bytes v.(vn_previous_topoheight).
Lemma vn_append v w : write v w = Writer.write_bytes (vn_enc v) w.
Proof.
  cbn [write VersionedNonce_Serializer]. unfold vn_enc.
  destruct (vn_previous_topoheight v); cbn [topo_bytes from_option];
    rewrite ?app_nil_r; by autorewrite with ser.
Qed.

Definition vb_enc (b : VersionedBalance) : list byte :=
  cache_bytes b.(final_balance) ++ type_byte b.(balance_type) ++
  topo_bytes b.(previous_topoheight) ++ from_option cache_bytes [] b.(output_balance).
Lemma vb_append b w : write b w = Writer.write_bytes (vb_enc b) w.
Proof.
  cbn [write VersionedBalance_Serializer CiphertextCache_Serializer BalanceType_Serializer].
  unfold vb_enc, cache_bytes, type_byte.
  destruct (previous_topoheight b), (output_balance b); cbn [topo_bytes from_option];
    rewrite ?app_nil_r; autorewrite with ser; by rewrite <- ?(assoc_L (++)).
Qed.

(** The combinations of fields that the encoding can tell apart: the output is
    stored only with the type [Both], and a previous topoheight with the type
    [Both] only next to an output. *)
Definition balance_wf (b : VersionedBalance) : Prop :=
  match b.(output_balance) with
  | Some _ => b.(balance_type) = BothB
  | None => b.(balance_type) = BothB -> b.(previous_topoheight) = None
  end.

#[export] Instance balance_equiv : Equiv VersionedBalance := fun a b =>
  option_Forall2 (≡) a.(output_balance) b.(output_balance) /\
  a.(final_balance) ≡ b.(final_balance) /\
  a.(balance_type) = b.(balance_type) /\ a.(previous_topoheight) = b.(previous_topoheight).

(** What is read back from the bytes of a balance. *)
Definition reread (b : VersionedBalance) : res ReaderError VersionedBalance :=
  let final := Compressed (cc_compress b.(final_balance)) in
  let out := Compressed ∘ cc_compress <$> b.(output_balance) in
  match b.(previous_topoheight), out with
  | Some topo, None =>
      if decide (b.(balance_type) = BothB) then Err InvalidSize
      else Ok (mkVBalance None final b.(balance_type) (Some topo))
  | topo, Some _ =>
      if decide (b.(balance_type) = BothB) then Ok (mkVBalance out final b.(balance_type) topo)
      else Ok (mkVBalance None final b.(balance_type) None)
  | None, None => Ok (mkVBalance None final b.(balance_type) None)
  end.

(** The first two fields, read from their bytes. *)
Lemma run_cache {B} (f : CiphertextCache -> rd B) pre k post :
  ((read (A:=CiphertextCache)) ≫= f) (reader_at pre (cache_bytes k ++ post)) =
    f (Compressed (cc_compress k)) (reader_at (pre ++ cache_bytes k) post).
Proof.
  change (cache_bytes k) with (cache_bytes (Compressed (cc_compress k))).
  by rewrite (run_bind (dec:=read (A:=CiphertextCache)) (enc:=cache_bytes)).
Qed.

Lemma run_type {B} (f : BalanceType -> rd B) pre t post :
  ((read (A:=BalanceType)) ≫= f) (reader_at pre (type_byte t ++ post)) =
    f t (reader_at (pre ++ type_byte t) post).
Proof. by rewrite (run_bind (dec:=read (A:=BalanceType)) (enc:=type_byte)). Qed.

Lemma run_topo {B} (f : Z -> rd B) pre z post :
  in_u 64 z ->
  (Reader.read_u64 ≫= f) (reader_at pre (be_bytes 8 z ++ post)) =
    f z (reader_at (pre ++ be_bytes 8 z) post).
Proof. intros. by rewrite (run_bind (dec:=Reader.read_u64)). Qed.

Lemma rd_bind_assoc {A B C} (m : rd A) (f : A -> rd B) (g : B -> rd C) r :
  ((m ≫= f) ≫= g) r = (m ≫= fun a => f a ≫= g) r.
Proof. unfold mbind, rd_bind. by destruct (m r) as [[a r']| | |]. Qed.

Lemma rd_ret_bind {A B} (a : A) (f : A -> rd B) r : ((mret a : rd A) ≫= f) r = f a r.
Proof. done. Qed.

Lemma read_cache_nil {B} (f : CiphertextCache -> rd B) pre :
  ((read (A:=CiphertextCache)) ≫= f) (reader_at pre []) = Err InvalidSize.
Proof.
  assert (Reader.read_bytes_ref RISTRETTO_COMPRESSED_SIZE (reader_at pre []) = Err InvalidSize) as E.
  { unfold Reader.read_bytes_ref. by rewrite reader_size_at. }
  unfold mbind, rd_bind. cbn [read CiphertextCache_Serializer CompressedCiphertext_Serializer point_Serializer].
  unfold mbind, rd_bind. by rewrite E.
Qed.

Lemma from_bytes_reread b : topo_ok b.(previous_topoheight) -> from_bytes (to_bytes b) = reread b.
Proof.
  intros Ht. rewrite (to_bytes_enc vb_enc) by apply vb_append.
  unfold from_bytes. rewrite reader_new_at. unfold vb_enc. cbn [read VersionedBalance_Serializer].
  rewrite run_cache, run_type. cbn beta. rewrite reader_size_at.
  unfold reread. destruct b as [[o|] f t [z|]]; cbn [output_balance final_balance balance_type
    previous_topoheight topo_bytes from_option option_fmap option_map fmap] in *.
  - rewrite length_app, length_be_bytes, length_cache_bytes. cbn [Nat.add Nat.eqb orb].
    destruct (decide (t = BothB)) as [->|Hne].
    + rewrite bool_decide_true by done. cbn [andb].
      rewrite rd_bind_assoc, run_topo, !rd_ret_bind by done.
      cbn beta. by rewrite <- (app_nil_r (cache_bytes o)), run_cache.
    + rewrite bool_decide_false by done. cbn [andb]. by rewrite rd_ret_bind.
  - cbn [app]. rewrite length_cache_bytes. cbn [Nat.add Nat.eqb orb].
    rewrite andb_false_r, rd_ret_bind. cbn beta. destruct (decide (t = BothB)) as [->|Hne]; [|done].
    by rewrite <- (app_nil_r (cache_bytes o)), run_cache.
  - rewrite app_nil_r, length_be_bytes. cbn [Nat.add Nat.eqb orb].
    rewrite <- (app_nil_r (be_bytes 8 z)), rd_bind_assoc, run_topo by done.
    rewrite rd_ret_bind. destruct (decide (t = BothB)) as [->|Hne]; [|done].
    by rewrite read_cache_nil.
  - done.
Qed.
Lemma vn_from_bytes v :
  in_u 64 v.(vn_nonce) -> topo_ok v.(vn_previous_topoheight) -> from_bytes (to_bytes v) = Ok v.
Proof.
  intros Hn Ht. rewrite (to_bytes_enc vn_enc) by apply vn_append.
  unfold from_bytes. rewrite reader_new_at. unfold vn_enc. cbn [read VersionedNonce_Serializer].
  rewrite run_topo by done. cbn beta.
  destruct v as [n [z|]]; cbn [vn_nonce vn_previous_topoheight topo_bytes topo_ok from_option] in *.
  - rewrite reader_size_at, length_be_bytes. cbn [Nat.eqb].
    by rewrite <- (app_nil_r (be_bytes 8 z)), run_topo.
  - done.
Qed.

(** The previous topoheight read from any bytes is a 64-bit integer. *)
Lemma rd_bind_ok {A B} (m : rd A) (f : A -> rd B) r y r' :
  (m ≫= f) r = Ok (y, r') -> exists x r1, m r = Ok (x, r1) /\ f x r1 = Ok (y, r').
Proof. unfold mbind, rd_bind. destruct (m r) as [[x r1]| | |]; eauto; done. Qed.

Lemma rd_ret_ok {A} (x y : A) r r' : (mret x : rd A) r = Ok (y, r') -> x = y /\ r = r'.
Proof. by intros [= -> ->]. Qed.

Lemma read_u64_range r z r' : Reader.read_u64 r = Ok (z, r') -> in_u 64 z.
Proof.
  intros (v & r1 & _ & [<- _]%rd_ret_ok)%rd_bind_ok.
  pose proof (from_be_range v) as Hr. by rewrite length_vec_to_list in Hr.
Qed.

Lemma from_bytes_ok `{Serializer A} b (v : A) :
  from_bytes b = Ok v -> exists r, read (Reader.new b) = Ok (v, r).
Proof. intros ([v' r] & Hr & [= ->])%res_bind_ok. eauto. Qed.

Lemma vn_from_bytes_range b v : from_bytes b = Ok v -> topo_ok v.(vn_previous_topoheight).
Proof.
  intros (r & (z & r1 & _ & Hr)%rd_bind_ok)%from_bytes_ok. destruct (_ =? _)%nat.
  - by injection Hr as <- _.
  - apply rd_bind_ok in Hr as (t & r2 & Ht & [<- _]%rd_ret_ok). by apply read_u64_range in Ht.
Qed.

Lemma vb_from_bytes_range b v : from_bytes b = Ok v -> topo_ok v.(previous_topoheight).
Proof.
  intros (r & (f & r1 & _ & (t & r2 & _ & Hr)%rd_bind_ok)%rd_bind_ok)%from_bytes_ok.
  destruct (_ =? _)%nat; [by injection Hr as <- _|].
  apply rd_bind_ok in Hr as (p & r3 & Hp & Hr). assert (topo_ok p) as Hok.
  { destruct (_ || _).
    - apply rd_bind_ok in Hp as (z & r4 & Hz & [<- _]%rd_ret_ok). by apply read_u64_range in Hz.
    - by apply rd_ret_ok in Hp as [<- _]. }
  case_decide; [apply rd_bind_ok in Hr as (o & r4 & _ & Hr)|]; by apply rd_ret_ok in Hr as [<- _].
Qed.

(** Reading terminates. *)
Lemma fwd_not_diverge {A} pre post (o : res ReaderError (A * Reader)) : fwd pre post o -> o <> Diverge.
Proof. by destruct o as [[]| | |]. Qed.

Lemma vn_from_bytes_safe b : from_bytes (A:=VersionedNonce) b <> Diverge.
Proof.
  unfold from_bytes. rewrite reader_new_at. set (o := read (reader_at [] b)).
  assert (fwd [] b o) as Hf%fwd_not_diverge; [|by destruct o].
  apply fwd_bind. intros nonce pre post. destruct (_ =? _)%nat; [apply fwd_ret|safe_read].
Qed.

Lemma vb_from_bytes_safe b : from_bytes (A:=VersionedBalance) b <> Diverge.
Proof.
  unfold from_bytes. rewrite reader_new_at. set (o := read (reader_at [] b)).
  assert (fwd [] b o) as Hf%fwd_not_diverge; [|by destruct o].
  apply (fwd_bind (dec:=read (A:=CiphertextCache))). intros final pre post.
  apply (fwd_bind (dec:=read (A:=BalanceType))). intros ty pre2 post2.
  destruct (_ =? _)%nat; [apply fwd_ret|].
  assert (forall p pre post, fwd pre post ((if decide (ty = BothB)
    then output ← read (A:=CiphertextCache); mret (mkVBalance (Some output) final ty p)
    else mret (mkVBalance None final ty p)) (reader_at pre post))) as Hlast.
  { intros p pre3 post3. case_decide; [|apply fwd_ret].
    apply (fwd_bind (dec:=read (A:=CiphertextCache))). intros. apply fwd_ret. }
  destruct (_ || _).
  - rewrite rd_bind_assoc. apply (fwd_bind (dec:=Reader.read_u64)). intros. by rewrite rd_ret_bind.
  - by rewrite rd_ret_bind.
Qed.

(** A balance as it is read back: its ciphertexts are compressed. *)
Definition stored (b : VersionedBalance) : VersionedBalance :=
  mkVBalance (Compressed ∘ cc_compress <$> b.(output_balance)) (Compressed (cc_compress b.(final_balance)))
    b.(balance_type) b.(previous_topoheight).

Lemma vb_from_bytes_stored b v : from_bytes b = Ok v -> stored v = v.
Proof.
  intros (r & (f & r1 & Hf & (t & r2 & _ & Hr)%rd_bind_ok)%rd_bind_ok)%from_bytes_ok.
  assert (forall k r r', (read (A:=CiphertextCache)) r = Ok (k, r') -> Compressed (cc_compress k) = k) as Hread.
  { intros k r0 r0' (c & r3 & _ & [<- _]%rd_ret_ok)%rd_bind_ok. done. }
  assert (forall p, stored (mkVBalance None f t p) = mkVBalance None f t p) as Hnone.
  { intros p. unfold stored. simpl. by rewrite (Hread _ _ _ Hf). }
  destruct (_ =? _)%nat; [by injection Hr as <- _|].
  apply rd_bind_ok in Hr as (p & r3 & _ & Hr). case_decide.
  - apply rd_bind_ok in Hr as (o & r4 & Ho & [<- _]%rd_ret_ok).
    unfold stored. simpl. by rewrite (Hread _ _ _ Hf), (Hread _ _ _ Ho).
  - by apply rd_ret_ok in Hr as [<- _].
Qed.

Lemma stored_equiv b : stored b ≡ b.
Proof. destruct b as [[o|] f t p]; split_and!; simpl; try done; by constructor. Qed.

Lemma vb_from_bytes b :
  balance_wf b -> topo_ok b.(previous_topoheight) -> from_bytes (to_bytes b) = Ok (stored b).
Proof.
  intros Hwf Ht. rewrite from_bytes_reread by done. unfold reread, balance_wf in *.
  destruct b as [[o|] f t [z|]]; simpl in *; subst; try done; by case_decide; [specialize (Hwf ltac:(done))|].
Qed.
End Account.

(** ** Properties *)

Section Properties.
Context {CV : Curve}.

(** The lazy cache behaves as the ciphertext it stands for.  Every accessor
    returns the current ciphertext in the form asked for and keeps the cache
    equal to itself; after a write through the reference given by [computable]
    the cache stands for the new ciphertext, whatever forms it had memorised. *)
Theorem ciphertext_cache_coherent (k : CiphertextCache) (Hk : cache_ok k) :
  (forall e k', computable k = Ok (e, k') ->
     ct_compress e = cc_compress k /\
     forall e', cache_ok (put_computable e' k') /\ cc_compress (put_computable e' k') = ct_compress e') /\
  ((compressed k).1 = cc_compress k /\ cache_ok (compressed k).2 /\ (compressed k).2 ≡ k) /\
  (forall e k', decompressed k = Ok (e, k') -> ct_compress e = cc_compress k /\ cache_ok k' /\ k' ≡ k) /\
  (forall c e k', both k = Ok (c, e, k') ->
     c = cc_compress k /\ ct_compress e = c /\ cache_ok k' /\ k' ≡ k) /\
  (forall e, take_ciphertext k = Ok e -> ct_compress e = cc_compress k).
Proof.
  unfold equiv, cache_equiv. destruct k as [c|e|c e []]; simpl in *.
  - assert (forall e k', (d ← ct_decompress c; Ok (d, Decompressed d)) = Ok (e, k') ->
      ct_compress e = c /\ k' = Decompressed e) as Hc.
    { intros e k' (d & Hd & [= <- <-])%res_bind_ok. split; [by apply ct_decompress_inv|done]. }
    split_and!; [|done..| | |].
    + intros e k' [<- ->]%Hc. by split.
    + intros e k' (d & Hd & [= <- <-])%res_bind_ok. simpl. by rewrite (ct_decompress_inv _ _ Hd).
    + intros c' e k' (d & Hd & [= <- <- <-])%res_bind_ok. simpl. by rewrite (ct_decompress_inv _ _ Hd).
    + intros e. apply ct_decompress_inv.
  - by split_and!; intros; simplify_eq/=.
  - by split_and!; intros; simplify_eq/=.
  - specialize (Hk eq_refl). by split_and!; intros; simplify_eq/=.
Qed.

(** A stored balance is read back (up to the form of its ciphertexts)
    exactly when the encoding can tell its shape: an output balance only with
    the type [Both], and with that type a previous topoheight only next to an
    output balance. *)
Theorem versioned_balance_roundtrip (b : VersionedBalance) (Ht : topo_ok b.(previous_topoheight)) :
  (exists b', from_bytes (to_bytes b) = Ok b' /\ b' ≡ b) <-> balance_wf b.
Proof.
  rewrite from_bytes_reread by done. unfold reread, balance_wf, equiv, balance_equiv.
  destruct b as [[o|] f t [z|]]; simpl; clear Ht.
  - destruct (decide (t = BothB)) as [->|Hne]; (split; [|]); try done.
    + intros _. eexists. split; [done|]. simpl. split_and!; [by constructor|done..].
    + intros (b' & [= <-] & Ho & _). by inversion Ho.
  - destruct (decide (t = BothB)) as [->|Hne]; (split; [|]); try done.
    + intros _. eexists. split; [done|]. simpl. split_and!; [by constructor|done..].
    + intros (b' & [= <-] & Ho & _). by inversion Ho.
  - destruct (decide (t = BothB)) as [->|Hne]; (split; [|]); try done.
    + by intros (b' & ? & _).
    + intros E. by specialize (E eq_refl).
    + intros _. eexists. split; [done|]. simpl. split_and!; [by constructor|done..].
  - split; [done|]. intros _. eexists. split; [done|]. simpl. split_and!; [by constructor|done..].
Qed.

(** A stored nonce is read back unchanged. *)
Theorem versioned_nonce_roundtrip (v : VersionedNonce)
    (Hn : in_u 64 v.(vn_nonce)) (Ht : topo_ok v.(vn_previous_topoheight)) :
  from_bytes (to_bytes v) = Ok v /\ size v = length (to_bytes v).
Proof.
  split; [by apply vn_from_bytes|]. rewrite (to_bytes_enc vn_enc) by apply vn_append.
  unfold vn_enc. rewrite length_app, length_be_bytes. by destruct v as [n [z|]].
Qed.
End Properties.

#[local] Existing Instance curve_model.

Definition w_cipher : Ciphertext := ct_add_u64 ct_zero 7.

Lemma ciphertext_cache_coherent_witness :
  (compressed (Both (ct_compress ct_zero) w_cipher true)).1 = ct_compress w_cipher.
Proof.
  destruct (ciphertext_cache_coherent (Both (ct_compress ct_zero) w_cipher true)) as (_ & [E _] & _);
    [done|exact E].
Defined.

Definition w_balance : VersionedBalance :=
  mkVBalance (Some (Decompressed w_cipher)) (Decompressed ct_zero) BothB (Some 42).

Lemma versioned_balance_roundtrip_witness :
  (exists b', from_bytes (to_bytes w_balance) = Ok b' /\ b' ≡ w_balance) <-> balance_wf w_balance.
Proof. apply (versioned_balance_roundtrip w_balance). apply (bool_decide_unpack _); vm_compute; exact I. Defined.

Lemma versioned_nonce_roundtrip_witness :
  from_bytes (to_bytes (mkVNonce 5 (Some 3))) = Ok (mkVNonce 5 (Some 3)) /\
  size (mkVNonce 5 (Some 3)) = length (to_bytes (mkVNonce 5 (Some 3))).
Proof. apply versioned_nonce_roundtrip; apply (bool_decide_unpack _); vm_compute; exact I. Defined.
