(* ===== verification/Versions.v ===== *)
(** Versions linked by their previous topoheight.

    The balance and the nonce of an account are stored one version per
    topoheight; a version knows the topoheight of the version before it, and a
    pointer gives the last one.  This file holds the loops that walk such a
    chain ([storage/providers/nonce.rs] and [balance.rs] repeat them for
    nonces and balances), the history a well-formed chain stands for, and the
    two facts the loops rest on: they find the right version of a history, and
    they terminate as soon as no version is its own predecessor. *)

From S2P Require Import Prelude External Errors.

Section Walk.
Context {V : Type} (prev : V -> option Z) (get : Z -> bres V).

(** The sanity check of the loops: [value > previous] is an error. *)
Definition check_order (previous : Z) (previous_version : V) : bres () :=
  match prev previous_version with
  | Some value => if previous <? value then Err BlockchainError.Unknown else Ok tt
  | None => Ok tt
  end.

(** The [while let] of [get_*_at_maximum_topoheight], from [version] on. *)
Fixpoint search_maximum (fuel : nat) (topoheight : Z) (version : V) : bres (option (Z * V)) :=
  match prev version with
  | None => Ok None
  | Some previous =>
      match fuel with
      | O => Diverge
      | S fuel =>
          previous_version ← get previous;
          if previous <=? topoheight then Ok (Some (previous, previous_version))
          else
            _ ← check_order previous previous_version;
            search_maximum fuel topoheight previous_version
      end
  end.

(** The [while let] of [has_key_updated_in_range]. *)
Fixpoint search_range (fuel : nat) (minimum_topoheight maximum_topoheight : Z) (version : V) : bres bool :=
  match prev version with
  | None => Ok false
  | Some previous =>
      match fuel with
      | O => Diverge
      | S fuel =>
          if previous <? minimum_topoheight then Ok false
          else
            previous_version ← get previous;
            if previous <=? maximum_topoheight then Ok true
            else
              _ ← check_order previous previous_version;
              search_range fuel minimum_topoheight maximum_topoheight previous_version
      end
  end.

(** The [while let] of [get_output_balance_at_maximum_topoheight]: it has no
    sanity check. *)
Fixpoint search_output (contains_output : V -> bool) (fuel : nat) (previous : option Z) : bres (option (Z * V)) :=
  match previous with
  | None => Ok None
  | Some topo =>
      match fuel with
      | O => Diverge
      | S fuel =>
          previous_version ← get topo;
          if contains_output previous_version then Ok (Some (topo, previous_version))
          else search_output contains_output fuel (prev previous_version)
      end
  end.

(** ** Histories *)

(** [chain p h]: from the pointer [p] the versions are those of [h], from the
    newest to the oldest. *)
Inductive chain : option Z -> list (Z * V) -> Prop :=
  | chain_end : chain None []
  | chain_version t v h :
      get t = Ok v -> in_u 64 t -> (forall p, prev v = Some p -> p < t) ->
      chain (prev v) h -> chain (Some t) ((t, v) :: h).

(** The newest version at or below a topoheight. *)
Fixpoint latest (topoheight : Z) (h : list (Z * V)) : option (Z * V) :=
  match h with
  | [] => None
  | (t, v) :: h => if t <=? topoheight then Some (t, v) else latest topoheight h
  end.

(** The newest version that passes a test. *)
Fixpoint latest_that (test : V -> bool) (h : list (Z * V)) : option (Z * V) :=
  match h with
  | [] => None
  | (t, v) :: h => if test v then Some (t, v) else latest_that test h
  end.

Lemma latest_that_elem test h t v : latest_that test h = Some (t, v) -> (t, v) ∈ h /\ test v = true.
Proof.
  induction h as [|[t' v'] h IH]; simpl; [done|]. destruct (test v') eqn:Ht.
  - intros [= -> ->]. split; [left|done].
  - intros Hl. destruct (IH Hl). split; [by right|done].
Qed.

Definition top (h : list (Z * V)) : option Z := fst <$> head h.

Lemma chain_top p h : chain p h -> p = top h.
Proof. by destruct 1. Qed.

Lemma chain_unique p h1 h2 : chain p h1 -> chain p h2 -> h1 = h2.
Proof.
  intros H1. revert h2. induction H1 as [|t v h Hg Hu Hp _ IH]; intros h2 H2; inversion H2; subst; [done|].
  assert (v0 = v) as -> by congruence. f_equal. by apply IH.
Qed.

Lemma chain_below p h t v :
  chain p h -> (t, v) ∈ h -> exists p', p = Some p' /\ t <= p'.
Proof.
  intros Hc. revert t v. induction Hc as [|t v h Hg Hu Hp Hc IH]; intros t' v' Hin; [by apply not_elem_of_nil in Hin|].
  exists t. split; [done|]. apply list.elem_of_cons in Hin as [[= -> ->]|Hin]; [lia|].
  destruct (IH _ _ Hin) as (p' & Hp' & Hle). specialize (Hp _ Hp'). lia.
Qed.

Lemma chain_get p h t v : chain p h -> (t, v) ∈ h -> get t = Ok v /\ in_u 64 t.
Proof.
  intros Hc. revert t v. induction Hc as [|t v h Hg Hu Hp Hc IH]; intros t' v' Hin; [by apply not_elem_of_nil in Hin|].
  apply list.elem_of_cons in Hin as [[= -> ->]|Hin]; [done|]. by apply IH.
Qed.

Lemma chain_NoDup p h : chain p h -> NoDup (h.*1).
Proof.
  induction 1 as [|t v h Hg Hu Hp Hc IH]; csimpl; constructor; [|done].
  intros ([t' v'] & -> & Hin)%list_elem_of_fmap. simpl in *.
  destruct (chain_below _ _ _ _ Hc Hin) as (p' & Hp' & Hle). specialize (Hp _ Hp'). lia.
Qed.

Lemma latest_elem topoheight h t v : latest topoheight h = Some (t, v) -> (t, v) ∈ h /\ t <= topoheight.
Proof.
  induction h as [|[t' v'] h IH]; simpl; [done|].
  destruct (Z.leb_spec t' topoheight).
  - intros [= -> ->]. split; [left|done].
  - intros Hl. destruct (IH Hl). split; [by right|done].
Qed.

(** [latest] is the greatest topoheight at or below the bound. *)
Lemma latest_max p h topoheight t v t' v' :
  chain p h -> latest topoheight h = Some (t, v) -> (t', v') ∈ h -> t' <= topoheight -> t' <= t.
Proof.
  induction 1 as [|t0 v0 h Hg Hu Hp Hc IH]; simpl; [done|]. intros Hl Hin Hle.
  destruct (Z.leb_spec t0 topoheight) as [H0|H0].
  - injection Hl as -> ->. apply list.elem_of_cons in Hin as [[= -> ->]|Hin]; [lia|].
    destruct (chain_below _ _ _ _ Hc Hin) as (p' & Hp' & ?). specialize (Hp _ Hp'). lia.
  - apply list.elem_of_cons in Hin as [[= -> ->]|Hin]; [lia|]. by apply IH.
Qed.

Lemma latest_None topoheight h t v : latest topoheight h = None -> (t, v) ∈ h -> topoheight < t.
Proof.
  induction h as [|[t' v'] h IH]; simpl; [by intros _ ?%not_elem_of_nil|].
  destruct (Z.leb_spec t' topoheight); [done|]. intros Hl [[= -> ->]|Hin]%list.elem_of_cons; [lia|auto].
Qed.

(** A bound above the newest version selects it. *)
Lemma latest_top topoheight t v h : t <= topoheight -> latest topoheight ((t, v) :: h) = Some (t, v).
Proof. intros Hle. simpl. by destruct (Z.leb_spec t topoheight); [|lia]. Qed.
Lemma latest_skip topoheight t v h : topoheight < t -> latest topoheight ((t, v) :: h) = latest topoheight h.
Proof. intros Hlt. simpl. by destruct (Z.leb_spec t topoheight); [lia|]. Qed.

Lemma latest_exact p h t v : chain p h -> (t, v) ∈ h -> latest t h = Some (t, v).
Proof.
  induction 1 as [|t0 v0 h Hg Hu Hp Hc IH]; [by intros ?%not_elem_of_nil|].
  intros [[= -> ->]|Hin]%list.elem_of_cons; [by apply latest_top|].
  destruct (chain_below _ _ _ _ Hc Hin) as (p' & Hp' & Hle). specialize (Hp _ Hp').
  rewrite latest_skip by lia. by apply IH.
Qed.

(** ** The loops on a history *)

Lemma chain_check_order p h t v : chain p ((t, v) :: h) -> check_order t v = Ok tt.
Proof.
  inversion 1; subst. unfold check_order. destruct (prev v) as [p'|]; [|done].
  destruct (Z.ltb_spec t p') as [Hlt|]; [|done]. assert (p' < t) by auto. lia.
Qed.

Lemma search_maximum_chain fuel topoheight version h :
  chain (prev version) h -> (length h <= fuel)%nat ->
  search_maximum fuel topoheight version = Ok (latest topoheight h).
Proof.
  revert version h. induction fuel as [|fuel IH]; intros version h Hc Hl; simpl;
    inversion Hc as [E1 E2|t v h' Hg Hu Hp Hc' E1 E2]; subst; try done; simpl in Hl; [lia|].
  rewrite <- E1 in Hc. rewrite Hg. cbn [mbind res_bind latest]. destruct (t <=? topoheight); [done|].
  rewrite (chain_check_order _ h' t v Hc). cbn [mbind res_bind]. apply IH; [done|lia].
Qed.

Lemma search_output_chain test fuel p h :
  chain p h -> (length h <= fuel)%nat ->
  search_output test fuel p = Ok (latest_that test h).
Proof.
  revert p h. induction fuel as [|fuel IH]; intros p h Hc Hl;
    destruct Hc as [|t v h Hg Hu Hp Hc]; try done; simpl in Hl; [lia|].
  cbn [search_output latest_that]. rewrite Hg. cbn [mbind res_bind].
  destruct (test v); [done|]. apply IH; [done|lia].
Qed.

Lemma search_range_chain fuel lo hi version h :
  chain (prev version) h -> (length h <= fuel)%nat ->
  search_range fuel lo hi version =
    Ok (match latest hi h with Some (t, _) => lo <=? t | None => false end).
Proof.
  revert version h. induction fuel as [|fuel IH]; intros version h Hc Hl; simpl;
    inversion Hc as [E1 E2|t v h' Hg Hu Hp Hc' E1 E2]; subst; try done; simpl in Hl; [lia|].
  rewrite <- E1 in Hc. cbn [latest].
  destruct (Z.ltb_spec t lo) as [Hlo|Hlo].
  - destruct (Z.leb_spec t hi); [by destruct (Z.leb_spec lo t); [lia|]|].
    destruct (latest hi h') as [[t' v']|] eqn:Hlat; [|done].
    apply latest_elem in Hlat as [Hin _]. destruct (chain_below _ _ _ _ Hc' Hin) as (p' & Hp' & ?).
    specialize (Hp _ Hp'). by destruct (Z.leb_spec lo t'); [lia|].
  - rewrite Hg. cbn [mbind res_bind].
    destruct (Z.leb_spec t hi); [by destruct (Z.leb_spec lo t); [|lia]|].
    rewrite (chain_check_order _ h' t v Hc). cbn [mbind res_bind]. apply IH; [done|lia].
Qed.

(** ** Termination *)

(** At most [n] topoheights hold a version. *)
Definition at_most (n : nat) : Prop :=
  forall l, NoDup l -> (forall t, t ∈ l -> in_u 64 t /\ exists v, get t = Ok v) -> (length l <= n)%nat.

Lemma chain_length n p h : at_most n -> chain p h -> (length h <= n)%nat.
Proof.
  intros Hn Hc. rewrite <- (length_fmap fst). apply Hn; [by eapply chain_NoDup|].
  intros t ([t' v] & -> & Hin)%list_elem_of_fmap. simpl.
  destruct (chain_get _ _ _ _ Hc Hin). eauto.
Qed.

Section Terminate.
Context (n : nat) (Hn : at_most n).
Context (Hnd : forall t, get t <> Diverge).
Context (Hu : forall t v p, get t = Ok v -> prev v = Some p -> in_u 64 p).
Context (Hself : forall t v, get t = Ok v -> prev v <> Some t).

(** One more step than there are versions is never needed: the visited
    topoheights are distinct. *)
Lemma search_maximum_terminates topoheight version :
  (forall p, prev version = Some p -> in_u 64 p) ->
  search_maximum (S n) topoheight version <> Diverge.
Proof using Hn Hnd Hu Hself.
  intros H0.
  enough (forall fuel visited version, (S n <= fuel + length visited)%nat -> NoDup visited ->
    (forall t, t ∈ visited -> in_u 64 t /\ exists v, get t = Ok v) ->
    (forall p, prev version = Some p -> in_u 64 p /\ forall t, t ∈ visited -> p < t) ->
    search_maximum fuel topoheight version <> Diverge) as Hg.
  { apply (Hg _ []); [simpl; lia|constructor|set_solver|]. intros p Hp. split; [auto|set_solver]. }
  clear version H0. induction fuel as [|fuel IH]; intros visited version Hlen Hdup Hvis Hlt; simpl;
    destruct (prev version) as [p|] eqn:Hp; try done; destruct (Hlt p eq_refl) as [Hpu Hpl].
  - specialize (Hn visited Hdup Hvis). simpl in Hlen. lia.
  - destruct (get p) as [v| | |] eqn:Hgp; simpl; try done; [|by destruct (Hnd p)].
    destruct (p <=? topoheight); [done|]. unfold check_order.
    destruct (prev v) as [q|] eqn:Hq.
    + destruct (Z.ltb_spec p q) as [|Hle]; [done|]. simpl. apply (IH (p :: visited)).
      * simpl. lia.
      * constructor; [|done]. intros Hin. specialize (Hpl p Hin). lia.
      * intros t [->|Hin]%list.elem_of_cons; eauto.
      * intros p' Hp'. assert (p' = q) as -> by congruence. split; [by apply (Hu p v)|].
        assert (q <> p) by (intros ->; by apply (Hself p v)).
        intros t [->|Hin]%list.elem_of_cons; [lia|]. specialize (Hpl t Hin). lia.
    + simpl. apply (IH (p :: visited)).
      * simpl. lia.
      * constructor; [|done]. intros Hin. specialize (Hpl p Hin). lia.
      * intros t [->|Hin]%list.elem_of_cons; eauto.
      * intros p' Hp'. congruence.
Qed.
End Terminate.
End Walk.

(** A version that is its own predecessor keeps the loop going, whatever the
    fuel: the check only refuses a predecessor above the version. *)
Lemma search_maximum_self {V} (prev : V -> option Z) get t v topoheight fuel :
  get t = Ok v -> prev v = Some t -> topoheight < t ->
  search_maximum prev get fuel topoheight v = Diverge.
Proof.
  intros Hg Hp Hlt. induction fuel as [|fuel IH]; simpl; rewrite Hp; [done|].
  rewrite Hg. simpl. destruct (Z.leb_spec t topoheight); [lia|].
  unfold check_order. rewrite Hp, Z.ltb_irrefl. simpl. done.
Qed.

(** What the loops return was looked up. *)
Lemma search_maximum_got {V} (prev : V -> option Z) get fuel topoheight version t v :
  search_maximum prev get fuel topoheight version = Ok (Some (t, v)) -> get t = Ok v.
Proof.
  revert version. induction fuel as [|fuel IH]; intros version; simpl; destruct (prev version) as [p|]; try done.
  intros (v' & Hg & Hr)%res_bind_ok. destruct (p <=? topoheight); [by injection Hr as <- <-|].
  apply res_bind_ok in Hr as (u & _ & Hr). by eapply IH.
Qed.

Lemma search_output_got {V} (prev : V -> option Z) get test fuel p t v :
  search_output prev get test fuel p = Ok (Some (t, v)) -> get t = Ok v.
Proof.
  revert p. induction fuel as [|fuel IH]; intros p; simpl; destruct p as [p|]; try done.
  intros (v' & Hg & Hr)%res_bind_ok. destruct (test v'); [by injection Hr as <- <-|]. by eapply IH.
Qed.

(** A history only depends on the versions it holds. *)
Lemma chain_ext {V} (prev : V -> option Z) get get' p h :
  chain prev get p h -> (forall t v, (t, v) ∈ h -> get' t = get t) -> chain prev get' p h.
Proof.
  induction 1 as [|t v h Hg Hu Hp Hc IH]; intros He; [constructor|].
  constructor; [|done..|].
  - rewrite (He t v); [done|left].
  - apply IH. intros t' v' Hin. apply (He t' v'). by right.
Qed.

(** Writing a version above the newest one prolongs the history. *)
Lemma chain_append {V} (prev : V -> option Z) get get' h t v :
  chain prev get (top h) h -> in_u 64 t -> get' t = Ok v -> prev v = top h ->
  (forall p, top h = Some p -> p < t) ->
  (forall t', t' <> t -> in_u 64 t' -> get' t' = get t') ->
  chain prev get' (Some t) ((t, v) :: h).
Proof.
  intros Hc Hu Hg Hp Hlt He. constructor; [done..|by rewrite Hp|].
  rewrite Hp. apply (chain_ext _ get); [done|]. intros t' v' Hin.
  destruct (chain_get _ _ _ _ _ _ Hc Hin) as [_ Hu'].
  apply He; [|done]. intros ->. destruct (chain_below _ _ _ _ _ _ Hc Hin) as (p' & Hp' & ?).
  specialize (Hlt _ Hp'). lia.
Qed.
