(* ===== verification/Storage.v ===== *)
(** [xelis_daemon::core::storage]: the accounts and the order of the blocks in
    the on-disk storage.

    [SledStorage] keeps the trees of [storage/sled.rs] that hold the assets,
    the nonces, the balances, the registrations and the topological order, as
    the providers of [storage/providers/] read and write them.  The LRU caches
    are those of a storage opened without a cache size ([None]).  A lookup
    that walks the versions of an account has the number of stored versions,
    plus one, as fuel: [Versions.search_maximum_terminates] shows it is enough
    unless a version is its own predecessor. *)

From S2P Require Import Prelude External ExternalCrypto Serializer Hash Defaults Elgamal Transaction Errors Account Versions.

Definition as_bytes (k : CompressedPublicKey) : list byte := vec_to_list k.(key_point).(cr_bytes).

Lemma length_as_bytes k : length (as_bytes k) = 32%nat.
Proof. apply length_vec_to_list. Qed.
Lemma as_bytes_inj a b : as_bytes a = as_bytes b -> a = b.
Proof.
  destruct a as [[a]], b as [[b]]. unfold as_bytes; simpl. intros E%vec_to_list_inj2. by subst.
Qed.

Section Sled.
Context {CV : Curve} {SL : SledLib}.

(** The trees of the blocks and of the transactions, what is kept in memory
    next to them, and their counters. *)
Record BlockTrees := mkBlockTrees {
  t_transactions : tree;
  t_blocks_execution_order : tree;
  t_blocks : tree;
  t_blocks_at_height : tree;
  t_cumulative_difficulty : tree;
  t_difficulty_covariance : tree;
  t_rewards : tree;
  t_supply : tree;
  t_difficulty : tree;
  t_merkle_hashes : tree;
  tips_cache : gset Hash;
  pruned_topoheight : option Z;
  transactions_count : Z;
  blocks_count : Z;
  blocks_execution_count : Z;
}.
Definition no_blocks : BlockTrees :=
  mkBlockTrees tree_empty tree_empty tree_empty tree_empty tree_empty tree_empty tree_empty tree_empty tree_empty
    tree_empty ∅ None 0 0 0.

Record SledStorage := mkSled {
  mainnet : bool;
  extra : tree;
  topo_by_hash : tree;
  hash_at_topo : tree;
  txs_executed : tree;
  tx_blocks : tree;
  assets : tree;
  nonces : tree;
  versioned_nonces : tree;
  balances : tree;
  versioned_balances : tree;
  registrations : tree;
  registrations_prefixed : tree;
  assets_count : Z;
  accounts_count : Z;
  block_trees : BlockTrees;
}.

Definition with_extra t s := mkSled s.(mainnet) t s.(topo_by_hash) s.(hash_at_topo) s.(txs_executed)
  s.(tx_blocks) s.(assets) s.(nonces) s.(versioned_nonces) s.(balances) s.(versioned_balances)
  s.(registrations) s.(registrations_prefixed) s.(assets_count) s.(accounts_count) s.(block_trees).
Definition with_order t h s := mkSled s.(mainnet) s.(extra) t h s.(txs_executed) s.(tx_blocks)
  s.(assets) s.(nonces) s.(versioned_nonces) s.(balances) s.(versioned_balances) s.(registrations)
  s.(registrations_prefixed) s.(assets_count) s.(accounts_count) s.(block_trees).
Definition with_txs_executed t s := mkSled s.(mainnet) s.(extra) s.(topo_by_hash) s.(hash_at_topo) t
  s.(tx_blocks) s.(assets) s.(nonces) s.(versioned_nonces) s.(balances) s.(versioned_balances)
  s.(registrations) s.(registrations_prefixed) s.(assets_count) s.(accounts_count) s.(block_trees).
Definition with_tx_blocks t s := mkSled s.(mainnet) s.(extra) s.(topo_by_hash) s.(hash_at_topo)
  s.(txs_executed) t s.(assets) s.(nonces) s.(versioned_nonces) s.(balances) s.(versioned_balances)
  s.(registrations) s.(registrations_prefixed) s.(assets_count) s.(accounts_count) s.(block_trees).
Definition with_assets t s := mkSled s.(mainnet) s.(extra) s.(topo_by_hash) s.(hash_at_topo)
  s.(txs_executed) s.(tx_blocks) t s.(nonces) s.(versioned_nonces) s.(balances)
  s.(versioned_balances) s.(registrations) s.(registrations_prefixed) s.(assets_count)
  s.(accounts_count) s.(block_trees).
Definition with_nonces t s := mkSled s.(mainnet) s.(extra) s.(topo_by_hash) s.(hash_at_topo)
  s.(txs_executed) s.(tx_blocks) s.(assets) t s.(versioned_nonces) s.(balances)
  s.(versioned_balances) s.(registrations) s.(registrations_prefixed) s.(assets_count)
  s.(accounts_count) s.(block_trees).
Definition with_versioned_nonces t s := mkSled s.(mainnet) s.(extra) s.(topo_by_hash)
  s.(hash_at_topo) s.(txs_executed) s.(tx_blocks) s.(assets) s.(nonces) t s.(balances)
  s.(versioned_balances) s.(registrations) s.(registrations_prefixed) s.(assets_count)
  s.(accounts_count) s.(block_trees).
Definition with_balances t s := mkSled s.(mainnet) s.(extra) s.(topo_by_hash) s.(hash_at_topo)
  s.(txs_executed) s.(tx_blocks) s.(assets) s.(nonces) s.(versioned_nonces) t s.(versioned_balances)
  s.(registrations) s.(registrations_prefixed) s.(assets_count) s.(accounts_count) s.(block_trees).
Definition with_versioned_balances t s := mkSled s.(mainnet) s.(extra) s.(topo_by_hash)
  s.(hash_at_topo) s.(txs_executed) s.(tx_blocks) s.(assets) s.(nonces) s.(versioned_nonces)
  s.(balances) t s.(registrations) s.(registrations_prefixed) s.(assets_count) s.(accounts_count) s.(block_trees).
Definition with_registrations t p s := mkSled s.(mainnet) s.(extra) s.(topo_by_hash)
  s.(hash_at_topo) s.(txs_executed) s.(tx_blocks) s.(assets) s.(nonces) s.(versioned_nonces)
  s.(balances) s.(versioned_balances) t p s.(assets_count) s.(accounts_count) s.(block_trees).
Definition with_assets_count n s := mkSled s.(mainnet) s.(extra) s.(topo_by_hash) s.(hash_at_topo)
  s.(txs_executed) s.(tx_blocks) s.(assets) s.(nonces) s.(versioned_nonces) s.(balances)
  s.(versioned_balances) s.(registrations) s.(registrations_prefixed) n s.(accounts_count) s.(block_trees).
Definition with_accounts_count n s := mkSled s.(mainnet) s.(extra) s.(topo_by_hash) s.(hash_at_topo)
  s.(txs_executed) s.(tx_blocks) s.(assets) s.(nonces) s.(versioned_nonces) s.(balances)
  s.(versioned_balances) s.(registrations) s.(registrations_prefixed) s.(assets_count) n s.(block_trees).

Definition with_block_trees b s := mkSled s.(mainnet) s.(extra) s.(topo_by_hash) s.(hash_at_topo)
  s.(txs_executed) s.(tx_blocks) s.(assets) s.(nonces) s.(versioned_nonces) s.(balances)
  s.(versioned_balances) s.(registrations) s.(registrations_prefixed) s.(assets_count) s.(accounts_count) b.

(** ** sled.rs *)

Definition load_optional_from_disk {T} {SZ : Serializer T} (t : tree) (key : list byte) : bres (option T) :=
  match tree_get key t with
  | Some bytes =>
      value ← map_err BlockchainError.ErrorOnReader (from_bytes bytes);
      Ok (Some value)
  | None => Ok None
  end.

Definition load_from_disk {T} {SZ : Serializer T} (t : tree) (key : list byte) (context : DiskContext.t) : bres T :=
  match tree_get key t with
  | Some bytes => map_err BlockchainError.ErrorOnReader (from_bytes bytes)
  | None => Err (BlockchainError.NotFoundOnDisk context)
  end.

Definition delete_cacheable_data {T} {SZ : Serializer T} (key : list byte) : stm tree blockchain_error T := fun t =>
  let '(old, t) := tree_remove key t in
  match old with
  | Some bytes => (map_err BlockchainError.ErrorOnReader (from_bytes bytes), t)
  | None => (Err (BlockchainError.NotFoundOnDisk DiskContext.DeleteData), t)
  end.

(** [&key[a..b]] *)
Definition slice (a b : nat) (l : list byte) : bres (list byte) :=
  map_err BlockchainError.ErrorOnReader (Reader.slice l a b).

(** The loops of [delete_versioned_tree_above_topoheight] and
    [delete_versioned_tree_below_topoheight]: [drop topo] says whether the
    versions at [topo] go. *)
Definition delete_versioned_tree (drop : Z -> bool) : stm tree blockchain_error () := fun t =>
  foldMs (fun _ kv =>
    topo ← lift_res (bytes ← slice 0 8 kv.1;
                     map_err BlockchainError.ErrorOnReader (from_bytes (H:=u64_Serializer) bytes));
    if drop topo then st_modify (fun t => (tree_remove kv.1 t).2) else mret tt) tt (tree_iter t) t.
Definition delete_versioned_tree_above_topoheight (topoheight : Z) : stm tree blockchain_error () :=
  delete_versioned_tree (fun topo => topoheight <? topo).
Definition delete_versioned_tree_below_topoheight (topoheight : Z) : stm tree blockchain_error () :=
  delete_versioned_tree (fun topo => topo <? topoheight).

Definition ACCOUNTS_COUNT : list byte := String.list_byte_of_string "CACC"%string.
Definition ASSETS_COUNT : list byte := String.list_byte_of_string "CAST"%string.
Definition insert_extra (key bytes : list byte) (st : SledStorage) : SledStorage :=
  with_extra (tree_insert key bytes st.(extra)).2 st.
Definition store_assets_count (count : Z) (st : SledStorage) : SledStorage :=
  insert_extra ASSETS_COUNT (be_bytes 8 count) (with_assets_count count st).
Definition store_accounts_count (count : Z) (st : SledStorage) : SledStorage :=
  insert_extra ACCOUNTS_COUNT (be_bytes 8 count) (with_accounts_count count st).

(** ** providers/asset.rs *)

Definition has_asset (hash : Hash) (st : SledStorage) : bres bool :=
  Ok (tree_contains (hash_bytes hash) st.(assets)).
Definition get_asset (hash : Hash) (st : SledStorage) : bres AssetData :=
  load_from_disk st.(assets) (hash_bytes hash) DiskContext.Asset.
Definition add_asset (hash : Hash) (data : AssetData) (st : SledStorage) : SledStorage :=
  let st := with_assets (tree_insert (hash_bytes hash) (to_bytes data) st.(assets)).2 st in
  store_assets_count (u64_add st.(assets_count) 1) st.
Definition get_assets_for (key : CompressedPublicKey) (st : SledStorage) : bres (list Hash) :=
  mapMr (fun kv =>
    bytes ← slice HASH_SIZE (HASH_SIZE * 2) kv.1;
    match to_arr 32 bytes with
    | Some h => Ok (mkHash h)
    | None => Err BlockchainError.TryFromSliceError
    end) (tree_scan_prefix (as_bytes key) st.(balances)).

(** ** providers/dag_order.rs *)

Definition set_topo_height_for_block (hash : Hash) (topoheight : Z) (st : SledStorage) : SledStorage :=
  with_order (tree_insert (hash_bytes hash) (be_bytes 8 topoheight) st.(topo_by_hash)).2
             (tree_insert (be_bytes 8 topoheight) (hash_bytes hash) st.(hash_at_topo)).2 st.
Definition get_topo_height_for_hash (hash : Hash) (st : SledStorage) : bres Z :=
  load_from_disk (SZ:=u64_Serializer) st.(topo_by_hash) (hash_bytes hash) DiskContext.GetTopoHeightForHash.
Definition get_hash_at_topo_height (topoheight : Z) (st : SledStorage) : bres Hash :=
  load_from_disk st.(hash_at_topo) (be_bytes 8 topoheight) (DiskContext.GetBlockHashAtTopoHeight topoheight).
(** An error is [false]. *)
Definition or_false {E A} (m : res E A) (f : A -> bres bool) : bres bool :=
  match m with Ok a => f a | Err _ => Ok false | Panic => Panic | Diverge => Diverge end.
Definition is_block_topological_ordered (hash : Hash) (st : SledStorage) : bres bool :=
  or_false (get_topo_height_for_hash hash st) (fun topoheight =>
    or_false (get_hash_at_topo_height topoheight st) (fun hash_at_topo =>
      Ok (bool_decide (hash_at_topo = hash)))).

(** ** providers/balance.rs *)

Definition get_balance_key_for (key : CompressedPublicKey) (asset : Hash) : list byte :=
  as_bytes key ++ hash_bytes asset.
Definition get_versioned_balance_key (key : CompressedPublicKey) (asset : Hash) (topoheight : Z) : list byte :=
  be_bytes 8 topoheight ++ as_bytes key ++ hash_bytes asset.

Definition has_balance_internal (key : list byte) (st : SledStorage) : bres bool :=
  Ok (tree_contains key st.(balances)).

Definition has_balance_for (key : CompressedPublicKey) (asset : Hash) (st : SledStorage) : bres bool :=
  b ← has_asset asset st;
  if negb b then Err (BlockchainError.AssetNotFound asset)
  else has_balance_internal (get_balance_key_for key asset) st.

Definition get_last_topoheight_for_balance (key : CompressedPublicKey) (asset : Hash) (st : SledStorage) : bres Z :=
  let k := get_balance_key_for key asset in
  b ← has_balance_internal k st;
  if negb b then Ok 0
  else load_from_disk (SZ:=u64_Serializer) st.(balances) k DiskContext.LastTopoHeightForBalance.

Definition set_last_topoheight_for_balance (key : CompressedPublicKey) (asset : Hash) (topoheight : Z)
    (st : SledStorage) : SledStorage :=
  with_balances (tree_insert (get_balance_key_for key asset) (be_bytes 8 topoheight) st.(balances)).2 st.
Definition delete_last_topoheight_for_balance (key : CompressedPublicKey) (asset : Hash)
    (st : SledStorage) : SledStorage :=
  with_balances (tree_remove (get_balance_key_for key asset) st.(balances)).2 st.

Definition has_balance_at_exact_topoheight (key : CompressedPublicKey) (asset : Hash) (topoheight : Z)
    (st : SledStorage) : bres bool :=
  b ← has_balance_for key asset st;
  if negb b then Ok false
  else Ok (tree_contains (get_versioned_balance_key key asset topoheight) st.(versioned_balances)).

Definition no_balance_changes (key : CompressedPublicKey) (asset : Hash) (topoheight : Z)
    (st : SledStorage) : blockchain_error :=
  BlockchainError.NoBalanceChanges (as_address key st.(mainnet)) topoheight asset.

Definition get_balance_at_exact_topoheight (key : CompressedPublicKey) (asset : Hash) (topoheight : Z)
    (st : SledStorage) : bres VersionedBalance :=
  b ← has_balance_at_exact_topoheight key asset topoheight st;
  if negb b then Err (no_balance_changes key asset topoheight st)
  else map_err (fun _ => no_balance_changes key asset topoheight st)
         (load_from_disk st.(versioned_balances) (get_versioned_balance_key key asset topoheight)
            DiskContext.BalanceAtTopoHeight).

Definition get_last_balance (key : CompressedPublicKey) (asset : Hash) (st : SledStorage)
  : bres (Z * VersionedBalance) :=
  b ← has_balance_for key asset st;
  if negb b then Err (BlockchainError.NoBalance (as_address key st.(mainnet)))
  else
    topoheight ← load_from_disk (SZ:=u64_Serializer) st.(balances) (get_balance_key_for key asset)
                   DiskContext.LastBalance;
    version ← get_balance_at_exact_topoheight key asset topoheight st;
    Ok (topoheight, version).

Definition balance_fuel (st : SledStorage) : nat := S (tree_len st.(versioned_balances)).

Definition get_balance_at_maximum_topoheight (key : CompressedPublicKey) (asset : Hash) (topoheight : Z)
    (st : SledStorage) : bres (option (Z * VersionedBalance)) :=
  b ← has_balance_for key asset st;
  if negb b then Ok None
  else
    exact ← has_balance_at_exact_topoheight key asset topoheight st;
    if (exact : bool) then
      version ← get_balance_at_exact_topoheight key asset topoheight st;
      Ok (Some (topoheight, version))
    else
      '(topo, version) ← get_last_balance key asset st;
      if topo <=? topoheight then Ok (Some (topo, version))
      else search_maximum previous_topoheight (fun t => get_balance_at_exact_topoheight key asset t st)
             (balance_fuel st) topoheight version.

Definition delete_balance_at_topoheight (key : CompressedPublicKey) (asset : Hash) (topoheight : Z)
  : stm SledStorage blockchain_error VersionedBalance := fun st =>
  let '(version, t) := delete_cacheable_data (get_versioned_balance_key key asset topoheight)
                         st.(versioned_balances) in
  (map_err (fun _ => no_balance_changes key asset topoheight st) version, with_versioned_balances t st).

Definition get_new_versioned_balance (key : CompressedPublicKey) (asset : Hash) (topoheight : Z)
    (st : SledStorage) : bres VersionedBalance :=
  found ← get_balance_at_maximum_topoheight key asset topoheight st;
  match found with
  | Some (topo, version) => Ok (prepare_new (Some topo) version)
  | None => Ok balance_zero
  end.

Definition get_output_balance_at_maximum_topoheight (key : CompressedPublicKey) (asset : Hash) (topoheight : Z)
    (st : SledStorage) : bres (option (Z * VersionedBalance)) :=
  found ← get_balance_at_maximum_topoheight key asset topoheight st;
  match found with
  | Some (topo, version) =>
      if contains_output version then Ok (Some (topo, version))
      else search_output previous_topoheight (fun t => get_balance_at_exact_topoheight key asset t st)
             contains_output (balance_fuel st) version.(previous_topoheight)
  | None => Ok None
  end.

Definition set_balance_at_topoheight (asset : Hash) (topoheight : Z) (key : CompressedPublicKey)
    (balance : VersionedBalance) (st : SledStorage) : SledStorage :=
  with_versioned_balances
    (tree_insert (get_versioned_balance_key key asset topoheight) (to_bytes balance) st.(versioned_balances)).2 st.

Definition set_last_balance_to (key : CompressedPublicKey) (asset : Hash) (topoheight : Z)
    (version : VersionedBalance) (st : SledStorage) : SledStorage :=
  set_last_topoheight_for_balance key asset topoheight (set_balance_at_topoheight asset topoheight key version st).

Definition get_versioned_balances (asset : Hash) (keys : list CompressedPublicKey) (maximum_topoheight : Z)
    (st : SledStorage) : bres (list (option VersionedBalance)) :=
  mapMr (fun key =>
    b ← has_balance_for key asset st;
    if (b : bool) then
      found ← get_balance_at_maximum_topoheight key asset maximum_topoheight st;
      Ok (option_map snd found)
    else Ok None : bres (option VersionedBalance)) keys.

(** ** providers/nonce.rs *)

Definition get_versioned_nonce_key (key : CompressedPublicKey) (topoheight : Z) : list byte :=
  be_bytes 8 topoheight ++ as_bytes key.

Definition count_accounts (st : SledStorage) : Z := st.(accounts_count).
Definition has_nonce (key : CompressedPublicKey) (st : SledStorage) : bres bool :=
  Ok (tree_contains (as_bytes key) st.(nonces)).
Definition has_nonce_at_exact_topoheight (key : CompressedPublicKey) (topoheight : Z) (st : SledStorage) : bres bool :=
  Ok (tree_contains (get_versioned_nonce_key key topoheight) st.(versioned_nonces)).
Definition get_last_topoheight_for_nonce (key : CompressedPublicKey) (st : SledStorage) : bres Z :=
  load_from_disk (SZ:=u64_Serializer) st.(nonces) (as_bytes key) DiskContext.LastTopoheightForNonce.
Definition get_nonce_at_exact_topoheight (key : CompressedPublicKey) (topoheight : Z) (st : SledStorage)
  : bres VersionedNonce :=
  load_from_disk st.(versioned_nonces) (get_versioned_nonce_key key topoheight) DiskContext.NonceAtTopoHeight.

Definition get_last_nonce (key : CompressedPublicKey) (st : SledStorage) : bres (Z * VersionedNonce) :=
  b ← has_nonce key st;
  if negb b then Err (BlockchainError.NoNonce (as_address key st.(mainnet)))
  else
    topoheight ← load_from_disk (SZ:=u64_Serializer) st.(nonces) (as_bytes key) DiskContext.LastNonce;
    version ← get_nonce_at_exact_topoheight key topoheight st;
    Ok (topoheight, version).

Definition nonce_fuel (st : SledStorage) : nat := S (tree_len st.(versioned_nonces)).

Definition get_nonce_at_maximum_topoheight (key : CompressedPublicKey) (topoheight : Z) (st : SledStorage)
  : bres (option (Z * VersionedNonce)) :=
  b ← has_nonce key st;
  if negb b then Ok None
  else
    '(topo, version) ← get_last_nonce key st;
    if topo <=? topoheight then Ok (Some (topo, version))
    else search_maximum vn_previous_topoheight (fun t => get_nonce_at_exact_topoheight key t st)
           (nonce_fuel st) topoheight version.

(** The loop of [has_key_updated_in_range] over the assets of the key. *)
Fixpoint any_balance_in_range (key : CompressedPublicKey) (minimum_topoheight maximum_topoheight : Z)
    (assets : list Hash) (st : SledStorage) : bres bool :=
  match assets with
  | [] => Ok false
  | asset :: assets =>
      '(topo, version) ← get_last_balance key asset st;
      if (minimum_topoheight <=? topo) && (topo <=? maximum_topoheight) then Ok true
      else
        found ← search_range previous_topoheight (fun t => get_balance_at_exact_topoheight key asset t st)
                  (balance_fuel st) minimum_topoheight maximum_topoheight version;
        if (found : bool) then Ok true
        else any_balance_in_range key minimum_topoheight maximum_topoheight assets st
  end.

Definition has_key_updated_in_range (key : CompressedPublicKey) (minimum_topoheight maximum_topoheight : Z)
    (st : SledStorage) : bres bool :=
  b ← has_nonce key st;
  if negb b then Ok false
  else
    '(topo, version) ← get_last_nonce key st;
    if (minimum_topoheight <=? topo) && (topo <=? maximum_topoheight) then Ok true
    else
      found ← search_range vn_previous_topoheight (fun t => get_nonce_at_exact_topoheight key t st)
                (nonce_fuel st) minimum_topoheight maximum_topoheight version;
      if (found : bool) then Ok true
      else
        assets ← get_assets_for key st;
        any_balance_in_range key minimum_topoheight maximum_topoheight assets st.

Definition set_nonce_at_topoheight (key : CompressedPublicKey) (topoheight : Z) (version : VersionedNonce)
    (st : SledStorage) : SledStorage :=
  with_versioned_nonces
    (tree_insert (get_versioned_nonce_key key topoheight) (to_bytes version) st.(versioned_nonces)).2 st.
Definition set_last_topoheight_for_nonce (key : CompressedPublicKey) (topoheight : Z)
    (st : SledStorage) : SledStorage :=
  let '(old, t) := tree_insert (as_bytes key) (be_bytes 8 topoheight) st.(nonces) in
  let st := with_nonces t st in
  match old with
  | None => store_accounts_count (u64_add (count_accounts st) 1) st
  | Some _ => st
  end.
Definition delete_last_topoheight_for_nonce (key : CompressedPublicKey) (st : SledStorage) : SledStorage :=
  let '(old, t) := tree_remove (as_bytes key) st.(nonces) in
  let st := with_nonces t st in
  match old with
  | Some _ => store_accounts_count (u64_sub (count_accounts st) 1) st
  | None => st
  end.
Definition set_last_nonce_to (key : CompressedPublicKey) (topoheight : Z) (version : VersionedNonce)
    (st : SledStorage) : SledStorage :=
  set_last_topoheight_for_nonce key topoheight (set_nonce_at_topoheight key topoheight version st).

(** The loop of [get_partial_keys] over the accounts. *)
Fixpoint partial_keys {IS : IndexSetLib CompressedPublicKey} (maximum skip minimum_topoheight maximum_topoheight : Z)
    (st : SledStorage) (entries : list (list byte * list byte)) (skip_count : Z) (keys : iset CompressedPublicKey)
  : bres (iset CompressedPublicKey) :=
  match entries with
  | [] => Ok keys
  | (key, _) :: entries =>
      pkey ← map_err BlockchainError.ErrorOnReader (from_bytes key);
      b ← has_key_updated_in_range pkey minimum_topoheight maximum_topoheight st;
      if negb b then partial_keys maximum skip minimum_topoheight maximum_topoheight st entries skip_count keys
      else if skip_count <? skip then
        partial_keys maximum skip minimum_topoheight maximum_topoheight st entries (skip_count + 1) keys
      else
        let keys := (iset_insert pkey keys).2 in
        if Z.of_nat (iset_len keys) =? maximum then Ok keys
        else partial_keys maximum skip minimum_topoheight maximum_topoheight st entries skip_count keys
  end.
Definition get_partial_keys {IS : IndexSetLib CompressedPublicKey} (maximum skip minimum_topoheight maximum_topoheight : Z)
    (st : SledStorage) : bres (iset CompressedPublicKey) :=
  partial_keys maximum skip minimum_topoheight maximum_topoheight st (tree_iter st.(nonces)) 0 iset_new.

(** ** providers/account.rs *)

(** [copy_from_slice] into the first eight bytes panics on another length. *)
Definition prefixed_db_key_no_u64 (topoheight : list byte) (key : CompressedPublicKey) : bres (list byte) :=
  if (length topoheight =? 8)%nat then Ok (topoheight ++ as_bytes key) else Panic.
Definition prefixed_db_key (topoheight : Z) (key : CompressedPublicKey) : list byte :=
  be_bytes 8 topoheight ++ as_bytes key.

Definition get_account_registration_topoheight (key : CompressedPublicKey) (st : SledStorage) : bres Z :=
  load_from_disk (SZ:=u64_Serializer) st.(registrations) (as_bytes key) DiskContext.AccountRegistrationTopoHeight.

Definition set_account_registration_topoheight (key : CompressedPublicKey) (topoheight : Z)
  : stm SledStorage blockchain_error () :=
  st ← st_get;
  let '(old, t) := tree_insert (as_bytes key) (be_bytes 8 topoheight) st.(registrations) in
  _ ← st_modify (with_registrations t st.(registrations_prefixed));
  _ ← match old with
      | Some old =>
          k ← lift_res (prefixed_db_key_no_u64 old key);
          st_modify (fun st => with_registrations st.(registrations) (tree_remove k st.(registrations_prefixed)).2 st)
      | None => mret tt
      end;
  st_modify (fun st => with_registrations st.(registrations)
    (tree_insert (prefixed_db_key topoheight key) [] st.(registrations_prefixed)).2 st).

Definition is_account_registered (key : CompressedPublicKey) (st : SledStorage) : bres bool :=
  value ← load_optional_from_disk (SZ:=u64_Serializer) st.(registrations) (as_bytes key);
  match value with
  | Some topo => Ok (tree_contains (prefixed_db_key topo key) st.(registrations_prefixed))
  | None => Ok false
  end.

Definition is_account_registered_below_topoheight (key : CompressedPublicKey) (topoheight : Z) (st : SledStorage)
  : bres bool :=
  b ← is_account_registered key st;
  if negb b then Ok false
  else
    registration_topoheight ← get_account_registration_topoheight key st;
    Ok (registration_topoheight <? topoheight).

Definition delete_registrations_at_topoheight (topoheight : Z) : stm SledStorage blockchain_error () :=
  st ← st_get;
  foldMs (fun _ kv =>
    _ ← st_modify (fun st => with_registrations st.(registrations) (tree_remove kv.1 st.(registrations_prefixed)).2 st);
    key ← lift_res (slice 8 40 kv.1);
    st_modify (fun st => with_registrations (tree_remove key st.(registrations)).2 st.(registrations_prefixed) st))
    tt (tree_scan_prefix (be_bytes 8 topoheight) st.(registrations_prefixed)).

(** ** sled.rs: rewinding the versions of one topoheight *)

(** [T::from_bytes(&key[a..b])] *)
Definition parse_slice {T} {SZ : Serializer T} (a b : nat) (l : list byte) : bres T :=
  bytes ← slice a b l;
  map_err BlockchainError.ErrorOnReader (from_bytes bytes).

Definition delete_versioned_balance (topoheight : Z) (kv : list byte * list byte)
  : stm SledStorage blockchain_error () :=
  _ ← st_modify (fun st => with_versioned_balances (tree_remove kv.1 st.(versioned_balances)).2 st);
  asset ← lift_res (parse_slice (T:=Hash) 40 72 kv.1);
  key ← lift_res (parse_slice (T:=CompressedPublicKey) 8 40 kv.1);
  st ← st_get;
  last_topoheight ← lift_res (get_last_topoheight_for_balance key asset st);
  if topoheight <=? last_topoheight then
    versioned_balance ← lift_res (map_err BlockchainError.ErrorOnReader (from_bytes (A:=VersionedBalance) kv.2));
    let db_key := get_balance_key_for key asset in
    match versioned_balance.(previous_topoheight) with
    | Some previous =>
        st_modify (fun st => with_balances (tree_insert db_key (be_bytes 8 previous) st.(balances)).2 st)
    | None => st_modify (fun st => with_balances (tree_remove db_key st.(balances)).2 st)
    end
  else mret tt.
Definition delete_versioned_balances_at_topoheight (topoheight : Z) : stm SledStorage blockchain_error () :=
  st ← st_get;
  foldMs (fun _ kv => delete_versioned_balance topoheight kv) tt
    (tree_scan_prefix (be_bytes 8 topoheight) st.(versioned_balances)).

Definition delete_versioned_nonce (topoheight : Z) (kv : list byte * list byte)
  : stm SledStorage blockchain_error () :=
  _ ← st_modify (fun st => with_versioned_nonces (tree_remove kv.1 st.(versioned_nonces)).2 st);
  key ← lift_res (parse_slice (T:=CompressedPublicKey) 8 40 kv.1);
  st ← st_get;
  match get_last_topoheight_for_nonce key st with
  | Ok last_topoheight =>
      if topoheight <=? last_topoheight then
        version ← lift_res (map_err BlockchainError.ErrorOnReader (from_bytes (A:=VersionedNonce) kv.2));
        match version.(vn_previous_topoheight) with
        | Some previous => st_modify (set_last_topoheight_for_nonce key previous)
        | None => st_modify (delete_last_topoheight_for_nonce key)
        end
      else mret tt
  | Err _ => mret tt
  | Panic => lift_res Panic
  | Diverge => lift_res Diverge
  end.
Definition delete_versioned_nonces_at_topoheight (topoheight : Z) : stm SledStorage blockchain_error () :=
  st ← st_get;
  foldMs (fun _ kv => delete_versioned_nonce topoheight kv) tt
    (tree_scan_prefix (be_bytes 8 topoheight) st.(versioned_nonces)).

Definition delete_versioned_balances_above_topoheight (topoheight : Z) : stm SledStorage blockchain_error () := fun st =>
  let '(r, t) := delete_versioned_tree_above_topoheight topoheight st.(versioned_balances) in
  (r, with_versioned_balances t st).
Definition delete_versioned_nonces_above_topoheight (topoheight : Z) : stm SledStorage blockchain_error () := fun st =>
  let '(r, t) := delete_versioned_tree_above_topoheight topoheight st.(versioned_nonces) in
  (r, with_versioned_nonces t st).
Definition delete_versioned_balances_below_topoheight (topoheight : Z) : stm SledStorage blockchain_error () := fun st =>
  let '(r, t) := delete_versioned_tree_below_topoheight topoheight st.(versioned_balances) in
  (r, with_versioned_balances t st).
Definition delete_versioned_nonces_below_topoheight (topoheight : Z) : stm SledStorage blockchain_error () := fun st =>
  let '(r, t) := delete_versioned_tree_below_topoheight topoheight st.(versioned_nonces) in
  (r, with_versioned_nonces t st).
End Sled.
