(* ===== verification/ClientProtocol.v ===== *)
(** [storage/providers/client_protocol.rs]: which block executed a transaction,
    and the blocks that include it. *)

From S2P Require Import Prelude External ExternalModel ExternalCrypto Serializer Hash Defaults Elgamal Transaction Errors Account Versions Storage.

Section ClientProtocol.
Context {CV : Curve} {SL : SledLib} {HM : HashMapIter}.

#[local] Instance hash_set_Serializer : Serializer (gset Hash) :=
  {| read := hashset_read; write := hashset_write hs_iter; size := hashset_size |}.

Definition get_block_executor_for_tx (tx : Hash) (st : SledStorage) : bres Hash :=
  load_from_disk st.(txs_executed) (hash_bytes tx) DiskContext.BlockExecutorForTx.
Definition set_tx_executed_in_block (tx block : Hash) (st : SledStorage) : SledStorage :=
  with_txs_executed (tree_insert (hash_bytes tx) (hash_bytes block) st.(txs_executed)).2 st.
Definition remove_tx_executed (tx : Hash) (st : SledStorage) : SledStorage :=
  with_txs_executed (tree_remove (hash_bytes tx) st.(txs_executed)).2 st.
Definition is_tx_executed_in_a_block (tx : Hash) (st : SledStorage) : bres bool :=
  Ok (tree_contains (hash_bytes tx) st.(txs_executed)).
Definition is_tx_executed_in_block (tx block : Hash) (st : SledStorage) : bres bool :=
  or_false (get_block_executor_for_tx tx st) (fun hash => Ok (bool_decide (hash = block))).

Definition has_tx_blocks (hash : Hash) (st : SledStorage) : bres bool :=
  Ok (tree_contains (hash_bytes hash) st.(tx_blocks)).
Definition get_blocks_for_tx (hash : Hash) (st : SledStorage) : bres (gset Hash) :=
  load_from_disk st.(tx_blocks) (hash_bytes hash) DiskContext.TxBlocks.
Definition has_block_linked_to_tx (tx block : Hash) (st : SledStorage) : bres bool :=
  b ← has_tx_blocks tx st;
  if (b : bool) then
    blocks ← get_blocks_for_tx tx st;
    Ok (bool_decide (block ∈ blocks))
  else Ok false.
Definition set_blocks_for_tx (tx : Hash) (blocks : gset Hash) (st : SledStorage) : SledStorage :=
  with_tx_blocks (tree_insert (hash_bytes tx) (to_bytes blocks) st.(tx_blocks)).2 st.
Definition add_block_linked_to_tx_if_not_present (tx block : Hash) : stm SledStorage blockchain_error bool :=
  st ← st_get;
  hashes ← lift_res (b ← has_tx_blocks tx st;
                     if (b : bool) then get_blocks_for_tx tx st else Ok ∅);
  let insert := negb (bool_decide (block ∈ (hashes : gset Hash))) in
  _ ← (if insert then st_modify (set_blocks_for_tx tx ({[block]} ∪ hashes)) else mret tt);
  mret insert.
Definition add_block_for_tx (tx block : Hash) : stm SledStorage blockchain_error () :=
  st ← st_get;
  blocks ← lift_res (b ← has_tx_blocks tx st;
                     if (b : bool) then get_blocks_for_tx tx st else Ok ∅);
  if bool_decide (block ∈ (blocks : gset Hash)) then mret tt
  else st_modify (set_blocks_for_tx tx ({[block]} ∪ blocks)).
End ClientProtocol.
