(* ===== verification/VersionedTree.v ===== *)
(** Histories stored in two trees.

    The versions of nonces and of balances are laid out in the same way: a
    tree of pointers, from the bytes of an account to the topoheight of its
    last version, and a tree of versions, whose keys start with the
    topoheight.  This file proves once what both need: the two trees implement
    one history per account ([trees_refine]), a write above the newest version
    prolongs a history, and deleting the versions of one topoheight cuts it off
    every history. *)

From S2P Require Import Prelude External ExternalCrypto Serializer Hash Defaults Elgamal Errors Account Versions Storage.

Section Bytes.
Context {CV : Curve} {SL : SledLib}.

Lemma be8_inj a b : in_u 64 a -> in_u 64 b -> be_bytes 8 a = be_bytes 8 b -> a = b.
Proof.
  intros Ha Hb E. rewrite <- (from_be_bytes 8 a), <- (from_be_bytes 8 b) by exact Ha || exact Hb. by rewrite E.
Qed.

Lemma from_bytes_u64 z : in_u 64 z -> from_bytes (H:=u64_Serializer) (be_bytes 8 z) = Ok z.
Proof. intros Hz. exact (from_bytes_to_bytes (H0:=u64_SerOk) z Hz). Qed.

Lemma load_u64 t k c z :
  in_u 64 z -> tree_get k t = Some (be_bytes 8 z) -> load_from_disk (SZ:=u64_Serializer) t k c = Ok z.
Proof. intros Hz E. unfold load_from_disk. by rewrite E, from_bytes_u64. Qed.

Lemma load_ok {T} {SZ : Serializer T} t k c (x : T) :
  load_from_disk t k c = Ok x <-> exists b, tree_get k t = Some b /\ from_bytes b = Ok x.
Proof.
  unfold load_from_disk. destruct (tree_get k t) as [b|].
  - split.
    + intros Hb. exists b. split; [done|]. destruct (from_bytes b); try done. by injection Hb as ->.
    + by intros (b' & [= <-] & ->).
  - split; [done|]. by intros (b & ? & _).
Qed.

Lemma tree_contains_get k t : tree_contains k t = true <-> is_Some (tree_get k t).
Proof. unfold tree_contains. destruct (tree_get k t); split; naive_solver. Qed.
End Bytes.

(** The versions of one topoheight, cut off a history. *)
Definition cut {V} (topoheight : Z) (h : list (Z * V)) : list (Z * V) :=
  filter (fun tv => tv.1 <> topoheight) h.

Lemma cut_id {V} topoheight (h : list (Z * V)) : (forall v, (topoheight, v) ∉ h) -> cut topoheight h = h.
Proof.
  intros Hn. unfold cut. induction h as [|[t v] h IH]; [done|]. rewrite filter_cons_True.
  - f_equal. apply IH. intros v' Hin. apply (Hn v'). by right.
  - simpl. intros ->. apply (Hn v). left.
Qed.

Lemma cut_top {V} t v (h : list (Z * V)) : cut t ((t, v) :: h) = cut t h.
Proof. unfold cut. rewrite filter_cons_False; [done|]. simpl. tauto. Qed.

(** The versions at or below a topoheight. *)
Definition upto {V} (topoheight : Z) (h : list (Z * V)) : list (Z * V) :=
  filter (fun tv => tv.1 <= topoheight) h.

Lemma upto_all {V} t (h : list (Z * V)) : (forall t' v, (t', v) ∈ h -> t' <= t) -> upto t h = h.
Proof.
  intros Hh. unfold upto. induction h as [|[t' v] h IH]; [done|]. rewrite filter_cons_True.
  - f_equal. apply IH. intros t'' v' Hin. apply (Hh t'' v'). by right.
  - simpl. apply (Hh t' v). left.
Qed.

Lemma latest_upto {V} t (h : list (Z * V)) : latest t h = head (upto t h).
Proof.
  unfold upto. induction h as [|[t' v] h IH]; [done|]. simpl. destruct (Z.leb_spec t' t).
  - by rewrite filter_cons_True.
  - rewrite filter_cons_False; [done|]. simpl. lia.
Qed.

(** What is at or below a topoheight is the history from the newest such
    version on. *)
Lemma upto_chain {V} (prev : V -> option Z) get p h t t' v h' :
  chain prev get p h -> upto t h = (t', v) :: h' -> chain prev get (prev v) h'.
Proof.
  induction 1 as [|t0 v0 h Hg Hu Hp Hc IH]; [done|]. unfold upto. destruct (decide (t0 <= t)) as [Hle|Hgt].
  - rewrite filter_cons_True by done. fold (upto t h). rewrite upto_all; [by intros [= -> -> ->]|].
    intros t1 v1 Hin. destruct (chain_below _ _ _ _ _ _ Hc Hin) as (p' & Hp' & ?).
    specialize (Hp _ Hp'). lia.
  - rewrite filter_cons_False by done. exact IH.
Qed.

Section Trees.
Context {SL : SledLib} {K : Type} `{EqDecision K} {V : Type} {SZ : Serializer V}.
Context (kb : K -> list byte) (prev : V -> option Z) (ctx : DiskContext.t).
Context (kb_inj : forall a b, kb a = kb b -> a = b).
Context (prev_range : forall b v, from_bytes b = Ok v -> topo_ok (prev v)).
Context (read_safe : forall b, from_bytes (A:=V) b <> Diverge).

Definition version_key (k : K) (t : Z) : list byte := be_bytes 8 t ++ kb k.
Definition look (versions : tree) (k : K) (t : Z) : bres V := load_from_disk versions (version_key k t) ctx.

Definition history (pointers versions : tree) (k : K) (h : list (Z * V)) : Prop :=
  tree_get (kb k) pointers = be_bytes 8 <$> top h /\ chain prev (look versions k) (top h) h.

(** The trees hold the histories and nothing else. *)
Record trees_refine (hist : K -> list (Z * V)) (pointers versions : tree) : Prop := {
  tr_history k : history pointers versions k (hist k);
  tr_stored b x : tree_get b versions = Some x ->
    exists k t v, (t, v) ∈ hist k /\ b = version_key k t;
}.

Lemma version_key_inj k k' t t' :
  in_u 64 t -> in_u 64 t' -> version_key k t = version_key k' t' -> k = k' /\ t = t'.
Proof using kb_inj.
  intros Ht Ht' E. apply app_inj_1 in E as [E1 E2]; [|by rewrite !length_be_bytes].
  split; [by apply kb_inj|by apply be8_inj].
Qed.

Lemma look_ok versions k t v :
  look versions k t = Ok v -> is_Some (tree_get (version_key k t) versions) /\ topo_ok (prev v).
Proof using prev_range. intros (b & Hb & Hv)%load_ok. split; [by eauto|]. by eapply prev_range. Qed.

Lemma look_not_diverge versions k t : look versions k t <> Diverge.
Proof using read_safe.
  unfold look, load_from_disk. destruct (tree_get _ _) as [b|]; [|done].
  pose proof (read_safe b). by destruct (from_bytes b).
Qed.

Lemma look_at_most versions k : at_most (look versions k) (tree_len versions).
Proof using kb_inj prev_range.
  intros l Hnd Hl. rewrite <- (length_fmap (version_key k)). apply tree_len_bound.
  - apply NoDup_fmap_2_strong; [|done]. intros x y Hx Hy E.
    apply version_key_inj in E; [tauto|by apply Hl..].
  - intros b (t & -> & Ht)%list_elem_of_fmap. destruct (Hl t Ht) as (_ & v & Hv).
    by apply look_ok in Hv as [? _].
Qed.

Lemma history_bound pointers versions k h :
  history pointers versions k h -> (length h <= tree_len versions)%nat.
Proof using kb_inj prev_range. intros [_ Hc]. eapply chain_length; [apply look_at_most|exact Hc]. Qed.

Lemma history_unique pointers versions k h h' :
  history pointers versions k h -> history pointers versions k h' -> h = h'.
Proof.
  intros [Hp Hc] [Hp' Hc']. rewrite Hp in Hp'.
  assert (top h = top h') as E; [|rewrite E in Hc; by eapply chain_unique].
  destruct Hc as [|t v h Hg Hu Hlt Hc], Hc' as [|t' v' h' Hg' Hu' Hlt' Hc']; try done.
  apply (inj Some) in Hp'. by apply be8_inj in Hp' as ->.
Qed.

(** A pointer is there exactly when the history is not empty. *)
Lemma history_contains pointers versions k h :
  history pointers versions k h -> tree_contains (kb k) pointers = match h with [] => false | _ => true end.
Proof. intros [Hp _]. unfold tree_contains. rewrite Hp. by destruct h as [|[]]. Qed.

Lemma history_last pointers versions k t v h c :
  history pointers versions k ((t, v) :: h) ->
  load_from_disk (SZ:=u64_Serializer) pointers (kb k) c = Ok t /\ look versions k t = Ok v /\ in_u 64 t.
Proof.
  intros [Hp Hc]. inversion Hc as [|? ? ? Hg Hu ? ?]; subst. split; [|done]. by apply load_u64.
Qed.

Lemma history_tail pointers versions k t v h :
  history pointers versions k ((t, v) :: h) -> chain prev (look versions k) (prev v) h.
Proof. intros [_ Hc]. by inversion Hc. Qed.

Lemma trees_refine_ext hist hist' pointers versions :
  (forall k, hist' k = hist k) -> trees_refine hist pointers versions -> trees_refine hist' pointers versions.
Proof.
  intros He [Hh Hs]. split; [intros k; by rewrite He|].
  intros b x Hb. destruct (Hs b x Hb) as (k & t & v & Hin & ->). exists k, t, v. by rewrite He.
Qed.

Lemma trees_refine_range hist pointers versions k t v :
  trees_refine hist pointers versions -> (t, v) ∈ hist k -> in_u 64 t.
Proof. intros [Hh _] Hin. destruct (Hh k) as [_ Hc]. by destruct (chain_get _ _ _ _ _ _ Hc Hin). Qed.

(** ** Writing a version *)

Lemma trees_refine_append hist pointers versions k t v bytes :
  trees_refine hist pointers versions -> in_u 64 t -> from_bytes bytes = Ok v ->
  prev v = top (hist k) -> (forall p, top (hist k) = Some p -> p < t) ->
  trees_refine (fn_upd k ((t, v) :: hist k) hist)
    (tree_insert (kb k) (be_bytes 8 t) pointers).2 (tree_insert (version_key k t) bytes versions).2.
Proof using kb_inj.
  intros [Hh Hs] Hu Hb Hprev Hlt. set (versions' := (tree_insert _ bytes versions).2).
  assert (forall k' t', in_u 64 t' -> (k', t') <> (k, t) -> look versions' k' t' = look versions k' t') as Hother.
  { intros k' t' Hu' Hne. unfold look, load_from_disk, versions'. rewrite tree_get_insert_ne; [done|].
    by intros [-> ->]%version_key_inj. }
  split.
  - intros k'. unfold history. destruct (decide (k' = k)) as [->|Hne].
    + rewrite fn_upd_eq. destruct (Hh k) as [Hp Hch]. rewrite tree_get_insert. split; [done|].
      apply (chain_append _ (look versions k)); try done.
      * apply load_ok. exists bytes. split; [apply tree_get_insert|done].
      * intros t' Hne Hu'. apply Hother; [done|congruence].
    + rewrite fn_upd_ne by done. destruct (Hh k') as [Hp Hch].
      rewrite tree_get_insert_ne by by intros ?%kb_inj. split; [done|].
      apply (chain_ext _ (look versions k')); [done|].
      intros t' v' Hin. destruct (chain_get _ _ _ _ _ _ Hch Hin) as [_ Hu']. apply Hother; [done|congruence].
  - intros b x. unfold versions'. destruct (decide (b = version_key k t)) as [->|Hne].
    + intros _. exists k, t, v. rewrite fn_upd_eq. split; [left|done].
    + rewrite tree_get_insert_ne by done. intros Hk. destruct (Hs b x Hk) as (k' & t' & v' & Hin & ->).
      exists k', t', v'. split; [|done].
      destruct (decide (k' = k)) as [->|Hk']; [rewrite fn_upd_eq; by right|by rewrite fn_upd_ne].
Qed.

(** ** Deleting the newest version *)

Lemma trees_refine_pop hist pointers versions k t v h pointers' :
  trees_refine hist pointers versions -> hist k = (t, v) :: h ->
  tree_get (kb k) pointers' = be_bytes 8 <$> prev v ->
  (forall b, b <> kb k -> tree_get b pointers' = tree_get b pointers) ->
  trees_refine (fn_upd k h hist) pointers' (tree_remove (version_key k t) versions).2.
Proof using kb_inj.
  intros [Hh Hs] Hk Hback Hsame. pose proof (Hh k) as [Hp Hch]. rewrite Hk in Hp, Hch.
  inversion Hch as [|? ? ? Hg Hu Hlt Hrest]; subst. pose proof (chain_top _ _ _ _ Hrest) as Htop.
  set (versions' := (tree_remove _ versions).2).
  assert (forall k' t', in_u 64 t' -> (k', t') <> (k, t) -> look versions' k' t' = look versions k' t') as Hother.
  { intros k' t' Hu' Hne. unfold look, load_from_disk, versions'. rewrite tree_get_remove_ne; [done|].
    by intros [-> ->]%version_key_inj. }
  split.
  - intros k'. destruct (decide (k' = k)) as [->|Hne].
    + rewrite fn_upd_eq. split; [by rewrite Hback, Htop|]. rewrite <- Htop.
      apply (chain_ext _ (look versions k)); [done|].
      intros t' v' Hin. destruct (chain_get _ _ _ _ _ _ Hrest Hin) as [_ Hu']. apply Hother; [done|].
      intros [= ->]. destruct (chain_below _ _ _ _ _ _ Hrest Hin) as (p & Hp' & ?). specialize (Hlt _ Hp'). lia.
    + rewrite fn_upd_ne by done. destruct (Hh k') as [Hp' Hch']. split.
      { rewrite Hsame; [done|]. by intros ?%kb_inj. }
      apply (chain_ext _ (look versions k')); [done|].
      intros t' v' Hin. destruct (chain_get _ _ _ _ _ _ Hch' Hin) as [_ Hu']. apply Hother; [done|congruence].
  - intros b x Hb. unfold versions' in Hb.
    destruct (decide (b = version_key k t)) as [->|Hne]; [by rewrite tree_get_remove in Hb|].
    rewrite tree_get_remove_ne in Hb by done. destruct (Hs b x Hb) as (k' & t' & v' & Hin & ->).
    exists k', t', v'. split; [|done]. destruct (decide (k' = k)) as [->|]; [|rewrite fn_upd_ne by done; exact Hin].
    rewrite fn_upd_eq. rewrite Hk in Hin. apply list.elem_of_cons in Hin as [[= -> ->]|]; done.
Qed.

(** ** Deleting the versions of one topoheight *)

Section Rewind.
Context {S E : Type} (ptr ver : S -> tree) (inv : S -> Prop) (del : list byte * list byte -> stm S E ()) (t : Z).

(** What one step of the loop does to the newest version of [k]. *)
Definition deletes_newest : Prop := forall hist s k v h b,
  inv s -> trees_refine hist (ptr s) (ver s) -> hist k = (t, v) :: h ->
  tree_get (version_key k t) (ver s) = Some b ->
  exists s', del (version_key k t, b) s = (Ok tt, s') /\ inv s' /\
    ver s' = (tree_remove (version_key k t) (ver s)).2 /\
    tree_get (kb k) (ptr s') = be_bytes 8 <$> prev v /\
    forall b', b' <> kb k -> tree_get b' (ptr s') = tree_get b' (ptr s).
Context (Hdel : deletes_newest).

Lemma rewind_loop l hist s :
  inv s -> trees_refine hist (ptr s) (ver s) -> NoDup l.*1 ->
  (forall b x, (b, x) ∈ l -> tree_get b (ver s) = Some x /\
     exists k v h, b = version_key k t /\ hist k = (t, v) :: h) ->
  (forall k v, (t, v) ∈ hist k -> exists x, (version_key k t, x) ∈ l) ->
  exists s', foldMs (fun _ kv => del kv) tt l s = (Ok tt, s') /\ inv s' /\
    trees_refine (fun k => cut t (hist k)) (ptr s') (ver s').
Proof using EqDecision0 Hdel kb_inj.
  revert hist s. induction l as [|[b x] l IH]; intros hist s Hi Hr Hnd Hl Hall; cbn [foldMs].
  { exists s. split; [done|]. split; [done|]. apply (trees_refine_ext hist); [|done].
    intros k. apply cut_id. intros v Hin. by destruct (Hall k v Hin) as (y & ?%not_elem_of_nil). }
  destruct (Hl b x) as (Hx & k & v & h & -> & Hk); [left|].
  csimpl in Hnd. apply list.NoDup_cons in Hnd as [Hnin Hnd].
  destruct (Hdel hist s k v h x Hi Hr Hk Hx) as (s1 & Hrun & Hi1 & Hver & Hback & Hsame).
  rewrite (stm_bind_run _ _ _ _ _ Hrun).
  pose proof (trees_refine_pop hist _ _ k t v h (ptr s1) Hr Hk Hback Hsame) as Hr1. rewrite <- Hver in Hr1.
  assert (forall k' y, (version_key k' t, y) ∈ l -> k' <> k) as Hother.
  { intros k' y Hin ->. apply Hnin. apply list_elem_of_fmap. by exists (version_key k t, y). }
  destruct (IH (fn_upd k h hist) s1) as (s' & Hrun' & Hi' & Hfin); [done|done|done| | |].
  - intros b y Hin. destruct (Hl b y) as (Hy & k' & v' & h' & -> & Hk'); [by right|].
    pose proof (Hother _ _ Hin). split.
    + rewrite Hver, tree_get_remove_ne; [done|]. intros Eq. apply Hnin.
      apply list_elem_of_fmap. exists (version_key k' t, y). by rewrite Eq.
    + exists k', v', h'. by rewrite fn_upd_ne.
  - intros k' v' Hin. destruct (decide (k' = k)) as [->|Hne].
    + rewrite fn_upd_eq in Hin. destruct Hr as [Hh _]. destruct (Hh k) as [_ Hch]. rewrite Hk in Hch.
      apply chain_NoDup in Hch. csimpl in Hch. apply list.NoDup_cons in Hch as [Hn _].
      destruct Hn. apply list_elem_of_fmap. by exists (t, v').
    + rewrite fn_upd_ne in Hin by done. destruct (Hall k' v' Hin) as (y & [Heq|Hin']%list.elem_of_cons).
      * exfalso. apply Hne. injection Heq as Eq _. by apply kb_inj.
      * by exists y.
  - exists s'. split; [done|]. split; [done|].
    apply (trees_refine_ext (fun k0 => cut t (fn_upd k h hist k0))); [|done].
    intros k'. destruct (decide (k' = k)) as [->|Hne].
    + by rewrite fn_upd_eq, Hk, cut_top.
    + by rewrite fn_upd_ne.
Qed.

Lemma rewind_refine hist s :
  inv s -> trees_refine hist (ptr s) (ver s) -> in_u 64 t -> (forall k t' v, (t', v) ∈ hist k -> t' <= t) ->
  exists s', foldMs (fun _ kv => del kv) tt (tree_scan_prefix (be_bytes 8 t) (ver s)) s = (Ok tt, s') /\ inv s' /\
    trees_refine (fun k => cut t (hist k)) (ptr s') (ver s').
Proof using EqDecision0 Hdel kb_inj prev_range.
  intros Hi Hr Hu Htop. pose proof Hr as [Hh Hs].
  assert (forall k v, (t, v) ∈ hist k -> exists v' h, hist k = (t, v') :: h) as Hhead.
  { intros k v Hin. destruct (Hh k) as [_ Hch].
    destruct (chain_below _ _ _ _ _ _ Hch Hin) as (p & Hp & Hle).
    destruct (hist k) as [|[t0 v0] h] eqn:Hk; [done|]. injection Hp as ->.
    assert (p <= t) by (apply (Htop k p v0); rewrite Hk; left). replace p with t by lia. eauto. }
  apply rewind_loop; [done|done|apply tree_scan_prefix_NoDup| |].
  - intros b x [Hpre Hb]%tree_scan_prefix_spec. split; [done|].
    destruct (Hs b x Hb) as (k & t' & v & Hin & ->).
    destruct (Hh k) as [_ Hch]. destruct (chain_get _ _ _ _ _ _ Hch Hin) as [_ Hu'].
    unfold version_key in Hpre. rewrite length_be_bytes in Hpre.
    replace 8%nat with (length (be_bytes 8 t')) in Hpre at 1 by apply length_be_bytes.
    rewrite take_app_length in Hpre. apply be8_inj in Hpre as ->; [|done..].
    destruct (Hhead k v Hin) as (v' & h & Eq). eauto.
  - intros k v Hin. destruct (Hh k) as [_ Hch].
    destruct (chain_get _ _ _ _ _ _ Hch Hin) as [[[x Hx] _]%look_ok _].
    exists x. apply tree_scan_prefix_spec. split; [|done]. unfold version_key. by rewrite take_app_length.
Qed.
End Rewind.
End Trees.
