(* ===== verification/StorageFacts.v ===== *)
(** The accounts of [Storage] implement histories.

    [NonceHistories] and [BalanceHistories] are the abstract states: the
    versions of each account, the newest first.  The lookups return the newest
    version at or below a topoheight, a write prolongs the history of one
    account, and a rewind cuts the versions of one topoheight off every
    history. *)

From S2P Require Import Prelude External ExternalModel ExternalCrypto Serializer Hash Defaults Elgamal Transaction Errors Account Versions Storage VersionedTree.

Lemma wrap_succ n : u64_add (wrap 64 (Z.of_nat n)) 1 = wrap 64 (Z.of_nat (S n)).
Proof. unfold u64_add, wrap. rewrite Zplus_mod_idemp_l. f_equal. lia. Qed.
Lemma wrap_pred n : (0 < n)%nat -> u64_sub (wrap 64 (Z.of_nat n)) 1 = wrap 64 (Z.of_nat (Nat.pred n)).
Proof. intros Hn. unfold u64_sub, wrap. rewrite Zminus_mod_idemp_l. f_equal. lia. Qed.

(** ** Nonces *)
Section Nonces.
Context {CV : Curve} {SL : SledLib}.

Definition NonceHistories : Type := CompressedPublicKey -> list (Z * VersionedNonce).

Abbreviation nonce_trees := (trees_refine as_bytes vn_previous_topoheight DiskContext.NonceAtTopoHeight).
Abbreviation nonce_history st :=
  (history as_bytes vn_previous_topoheight DiskContext.NonceAtTopoHeight st.(nonces) st.(versioned_nonces)).

(** The counter counts the accounts. *)
Definition accounts_counted (st : SledStorage) : Prop :=
  st.(accounts_count) = wrap 64 (Z.of_nat (tree_len st.(nonces))).

Definition nonces_refine (hist : NonceHistories) (st : SledStorage) : Prop :=
  nonce_trees hist st.(nonces) st.(versioned_nonces) /\ accounts_counted st.

Lemma nonce_look key t st :
  get_nonce_at_exact_topoheight key t st =
  look as_bytes DiskContext.NonceAtTopoHeight st.(versioned_nonces) key t.
Proof. done. Qed.

Lemma has_nonce_history st key h :
  nonce_history st key h -> has_nonce key st = Ok (match h with [] => false | _ => true end).
Proof. intros Hh. unfold has_nonce. by rewrite (history_contains _ _ _ _ _ _ _ Hh). Qed.

Lemma get_last_nonce_history st key h :
  nonce_history st key h ->
  get_last_nonce key st = ok_or (head h) (BlockchainError.NoNonce (as_address key st.(mainnet))).
Proof.
  intros Hh. unfold get_last_nonce. rewrite (has_nonce_history _ _ _ Hh). destruct h as [|[t v] h]; [done|].
  destruct (history_last _ _ _ _ _ _ _ _ _ DiskContext.LastNonce Hh) as (Hp & Hg & _). cbn [mbind res_bind negb].
  rewrite Hp. cbn [mbind res_bind]. by rewrite nonce_look, Hg.
Qed.

Lemma nonce_at_maximum_history st key h topoheight :
  nonce_history st key h -> get_nonce_at_maximum_topoheight key topoheight st = Ok (latest topoheight h).
Proof.
  intros Hh. unfold get_nonce_at_maximum_topoheight. rewrite (has_nonce_history _ _ _ Hh).
  destruct h as [|[t v] h]; [done|]. cbn [mbind res_bind negb].
  rewrite (get_last_nonce_history _ _ _ Hh). cbn [head ok_or mbind res_bind latest].
  destruct (t <=? topoheight); [done|].
  pose proof (history_bound _ _ _ as_bytes_inj vn_from_bytes_range _ _ _ _ Hh) as Hb.
  apply history_tail in Hh. apply search_maximum_chain; [done|]. unfold nonce_fuel. simpl in Hb. lia.
Qed.

Lemma set_last_nonce_refine hist st key t v :
  nonces_refine hist st -> in_u 64 t -> in_u 64 v.(vn_nonce) ->
  v.(vn_previous_topoheight) = top (hist key) -> (forall p, top (hist key) = Some p -> p < t) ->
  nonces_refine (fn_upd key ((t, v) :: hist key) hist) (set_last_nonce_to key t v st).
Proof.
  intros [Hr Hc] Hu Hn Hprev Hlt.
  assert (topo_ok v.(vn_previous_topoheight)) as Hok.
  { rewrite Hprev. destruct (tr_history _ _ _ _ _ _ Hr key) as [_ Hch].
    destruct Hch as [|t0 v0 h0 _ Hu0 _ _]; [done|]. exact Hu0. }
  pose proof (trees_refine_append _ _ _ as_bytes_inj hist st.(nonces) st.(versioned_nonces) key t v
    (to_bytes v) Hr Hu (vn_from_bytes v Hn Hok) Hprev Hlt) as Hr'.
  unfold set_last_nonce_to, set_last_topoheight_for_nonce, accounts_counted in *.
  cbn [nonces set_nonce_at_topoheight with_versioned_nonces].
  pose proof (tree_insert_old (as_bytes key) (be_bytes 8 t) st.(nonces)) as Ho.
  pose proof (tree_len_insert (as_bytes key) (be_bytes 8 t) st.(nonces)) as Hl. rewrite <- Ho in Hl. clear Ho.
  destruct (tree_insert _ _ (nonces st)) as [[o|] n]; cbn [fst snd] in *; (split; [exact Hr'|]).
  - unfold accounts_counted. simpl. by rewrite Hl, Hc.
  - unfold accounts_counted, count_accounts. simpl. by rewrite Hl, Hc, wrap_succ.
Qed.

Lemma set_last_nonce_frame key t v st :
  let st' := set_last_nonce_to key t v st in
  st'.(balances) = st.(balances) /\ st'.(versioned_balances) = st.(versioned_balances) /\
  st'.(assets) = st.(assets) /\ st'.(mainnet) = st.(mainnet) /\
  st'.(registrations) = st.(registrations) /\ st'.(registrations_prefixed) = st.(registrations_prefixed).
Proof.
  unfold set_last_nonce_to, set_last_topoheight_for_nonce. by destruct (tree_insert _ _ _) as [[o|] n].
Qed.

(** The pointer after the newest version is deleted. *)
Definition pointer_back (key : CompressedPublicKey) (p : option Z) (st : SledStorage) : SledStorage :=
  match p with
  | Some previous => set_last_topoheight_for_nonce key previous st
  | None => delete_last_topoheight_for_nonce key st
  end.

Lemma pointer_back_trees key p st :
  is_Some (tree_get (as_bytes key) st.(nonces)) -> accounts_counted st ->
  accounts_counted (pointer_back key p st) /\
  versioned_nonces (pointer_back key p st) = st.(versioned_nonces) /\
  tree_get (as_bytes key) (pointer_back key p st).(nonces) = be_bytes 8 <$> p /\
  (forall k, k <> as_bytes key -> tree_get k (pointer_back key p st).(nonces) = tree_get k st.(nonces)).
Proof.
  unfold accounts_counted. intros [old Hold] Hc. destruct p as [p|]; simpl.
  - unfold set_last_topoheight_for_nonce.
    pose proof (tree_insert_old (as_bytes key) (be_bytes 8 p) st.(nonces)) as Ho.
    pose proof (tree_get_insert (as_bytes key) (be_bytes 8 p) st.(nonces)) as Hg.
    pose proof (fun k => tree_get_insert_ne (as_bytes key) k (be_bytes 8 p) st.(nonces)) as Hn.
    pose proof (tree_len_insert (as_bytes key) (be_bytes 8 p) st.(nonces)) as Hl.
    rewrite Hold in Ho, Hl. destruct (tree_insert _ _ (nonces st)) as [o n]; simpl in *. subst o. simpl.
    split_and!; [by rewrite Hl|done|done|auto].
  - unfold delete_last_topoheight_for_nonce.
    pose proof (tree_remove_old (as_bytes key) st.(nonces)) as Ho.
    pose proof (tree_get_remove (as_bytes key) st.(nonces)) as Hg.
    pose proof (fun k => tree_get_remove_ne (as_bytes key) k st.(nonces)) as Hn.
    pose proof (tree_len_remove (as_bytes key) st.(nonces)) as Hl.
    rewrite Hold in Ho, Hl. destruct (tree_remove _ (nonces st)) as [o n]; simpl in *. subst o. simpl.
    split_and!; [|done|done|auto]. unfold count_accounts. simpl. rewrite Hc, Hl.
    apply wrap_pred. by eapply tree_len_pos.
Qed.

(** [&key[8..40]] is the account of a version key. *)
Lemma parse_key t key rest :
  parse_slice (T:=CompressedPublicKey) 8 40 (be_bytes 8 t ++ as_bytes key ++ rest) = Ok key.
Proof.
  unfold parse_slice, slice.
  pose proof (slice_at (be_bytes 8 t) (as_bytes key) rest 32 (length_as_bytes key)) as E.
  rewrite length_be_bytes in E. change 40%nat with (8 + 32)%nat. rewrite E. cbn [map_err mbind res_bind].
  change (as_bytes key) with (to_bytes key). by rewrite (from_bytes_to_bytes key).
Qed.
Lemma parse_nonce_key t key :
  parse_slice (T:=CompressedPublicKey) 8 40 (version_key as_bytes key t) = Ok key.
Proof. rewrite <- (parse_key t key []). unfold version_key. by rewrite app_nil_r. Qed.

Lemma delete_nonce_newest t :
  deletes_newest as_bytes vn_previous_topoheight DiskContext.NonceAtTopoHeight
    nonces versioned_nonces accounts_counted (delete_versioned_nonce t) t.
Proof.
  intros hist s key v h b Hc Hr Hkey Hb. pose proof (tr_history _ _ _ _ _ _ Hr key) as Hh. rewrite Hkey in Hh.
  destruct (history_last _ _ _ _ _ _ _ _ _ DiskContext.LastTopoheightForNonce Hh) as (Hp & Hg & Hu).
  apply load_ok in Hg as (b' & Hb' & Hv). assert (b' = b) as -> by congruence.
  set (s1 := with_versioned_nonces (tree_remove (version_key as_bytes key t) s.(versioned_nonces)).2 s).
  exists (pointer_back key v.(vn_previous_topoheight) s1).
  destruct (pointer_back_trees key v.(vn_previous_topoheight) s1) as (Hc' & Ev & Ek & En).
  { destruct Hh as [Hp' _]. by exists (be_bytes 8 t). }
  { done. }
  split; [|by rewrite Ev].
  unfold delete_versioned_nonce, mbind, stm_bind, st_modify, lift_res, st_get. cbn [fst snd].
  rewrite parse_nonce_key. fold s1. unfold get_last_topoheight_for_nonce. cbn [nonces s1 with_versioned_nonces].
  rewrite Hp, Z.leb_refl, Hv. cbn [map_err]. by destruct (vn_previous_topoheight v).
Qed.

Lemma delete_versioned_nonces_refine t hist st :
  nonces_refine hist st -> in_u 64 t -> (forall key t' v, (t', v) ∈ hist key -> t' <= t) ->
  exists st', delete_versioned_nonces_at_topoheight t st = (Ok tt, st') /\
    nonces_refine (fun key => cut t (hist key)) st'.
Proof.
  intros [Hr Hc] Hu Htop. destruct (rewind_refine as_bytes vn_previous_topoheight _ as_bytes_inj
    vn_from_bytes_range _ _ _ _ t (delete_nonce_newest t) hist st Hc Hr Hu Htop) as (st' & Hrun & Hc' & Hr').
  exists st'. split; [exact Hrun|]. by split.
Qed.
End Nonces.

(** ** Balances *)
Section Balances.
Context {CV : Curve} {SL : SledLib}.

Definition BalanceHistories : Type := CompressedPublicKey * Hash -> list (Z * VersionedBalance).

Definition balance_key (ka : CompressedPublicKey * Hash) : list byte := get_balance_key_for ka.1 ka.2.
Lemma balance_key_inj a b : balance_key a = balance_key b -> a = b.
Proof.
  destruct a as [k a], b as [k' a']. unfold balance_key, get_balance_key_for. simpl.
  intros [E1%as_bytes_inj E2%hash_bytes_inj]%app_inj_1; [by subst|by rewrite !length_as_bytes].
Qed.

Abbreviation balance_trees := (trees_refine balance_key previous_topoheight DiskContext.BalanceAtTopoHeight).
Abbreviation balance_history st :=
  (history balance_key previous_topoheight DiskContext.BalanceAtTopoHeight st.(balances) st.(versioned_balances)).

Definition registered (a : Hash) (st : SledStorage) : Prop := tree_contains (hash_bytes a) st.(assets) = true.

Definition balances_refine (hist : BalanceHistories) (st : SledStorage) : Prop :=
  balance_trees hist st.(balances) st.(versioned_balances).

Section Lookups.
Context (st : SledStorage) (k : CompressedPublicKey) (a : Hash) (Ha : registered a st).

Lemma has_balance_registered : has_balance_for k a st = Ok (tree_contains (balance_key (k, a)) st.(balances)).
Proof using Ha. unfold has_balance_for, has_asset. by rewrite Ha. Qed.

Lemma has_exact_registered t :
  has_balance_at_exact_topoheight k a t st =
    Ok (tree_contains (balance_key (k, a)) st.(balances)
        && tree_contains (version_key balance_key (k, a) t) st.(versioned_balances)).
Proof using Ha.
  unfold has_balance_at_exact_topoheight. rewrite has_balance_registered. cbn [mbind res_bind].
  by destruct (tree_contains (balance_key (k, a)) _).
Qed.

Lemma balance_look_exact t v :
  get_balance_at_exact_topoheight k a t st = Ok v ->
  look balance_key DiskContext.BalanceAtTopoHeight st.(versioned_balances) (k, a) t = Ok v.
Proof using Ha.
  unfold get_balance_at_exact_topoheight. rewrite has_exact_registered.
  destruct (_ && _); cbn [mbind res_bind negb]; [|done]. unfold look. intros E.
  by destruct (load_from_disk _ _ _).
Qed.

Lemma balance_exact_look t v :
  tree_contains (balance_key (k, a)) st.(balances) = true ->
  look balance_key DiskContext.BalanceAtTopoHeight st.(versioned_balances) (k, a) t = Ok v ->
  get_balance_at_exact_topoheight k a t st = Ok v.
Proof using Ha.
  intros Hc Hl. unfold get_balance_at_exact_topoheight. rewrite has_exact_registered, Hc.
  assert (tree_contains (version_key balance_key (k, a) t) st.(versioned_balances) = true) as ->.
  { apply tree_contains_get. apply load_ok in Hl as (b & Hb & _). by exists b. }
  cbn [mbind res_bind negb andb]. change (get_versioned_balance_key k a t) with (version_key balance_key (k, a) t).
  unfold look in Hl. by rewrite Hl.
Qed.

Lemma balance_exact_not_diverge t : get_balance_at_exact_topoheight k a t st <> Diverge.
Proof using Ha.
  unfold get_balance_at_exact_topoheight. rewrite has_exact_registered.
  destruct (_ && _); cbn [mbind res_bind negb]; [|done]. unfold load_from_disk.
  destruct (tree_get _ _) as [b|]; [|done]. pose proof (vb_from_bytes_safe b). by destruct (from_bytes b).
Qed.

Lemma balance_exact_stored t v : get_balance_at_exact_topoheight k a t st = Ok v -> stored v = v.
Proof using Ha.
  intros Hv%balance_look_exact. apply load_ok in Hv as (b & _ & Hb). by eapply vb_from_bytes_stored.
Qed.

Lemma balance_at_maximum_stored topoheight t v :
  get_balance_at_maximum_topoheight k a topoheight st = Ok (Some (t, v)) -> stored v = v.
Proof using Ha.
  unfold get_balance_at_maximum_topoheight. intros (b & _ & Hr)%res_bind_ok. destruct (negb b); [done|].
  apply res_bind_ok in Hr as (exact & _ & Hr). destruct exact.
  - apply res_bind_ok in Hr as (v' & Hv & [= _ <-]). by eapply balance_exact_stored.
  - apply res_bind_ok in Hr as ([topo v'] & Hl & Hr). destruct (topo <=? topoheight).
    + injection Hr as <- <-. unfold get_last_balance in Hl. apply res_bind_ok in Hl as (b' & _ & Hl).
      destruct (negb b'); [done|]. apply res_bind_ok in Hl as (t' & _ & (v0 & Hv & [= _ <-])%res_bind_ok).
      by eapply balance_exact_stored.
    + apply search_maximum_got in Hr. by eapply balance_exact_stored.
Qed.

Lemma output_balance_stored topoheight t v :
  get_output_balance_at_maximum_topoheight k a topoheight st = Ok (Some (t, v)) -> stored v = v.
Proof using Ha.
  unfold get_output_balance_at_maximum_topoheight. intros (found & Hf & Hr)%res_bind_ok.
  destruct found as [[topo v']|]; [|done]. destruct (contains_output v').
  - injection Hr as -> ->. by eapply balance_at_maximum_stored.
  - apply search_output_got in Hr. by eapply balance_exact_stored.
Qed.

(** The history, as the loops look versions up. *)
Lemma balance_exact_chain p h h0 :
  balance_history st (k, a) h0 -> h0 <> [] ->
  chain previous_topoheight (look balance_key DiskContext.BalanceAtTopoHeight st.(versioned_balances) (k, a)) p h ->
  chain previous_topoheight (fun t => get_balance_at_exact_topoheight k a t st) p h.
Proof using Ha.
  intros Hh Hne Hc. apply (chain_ext _ _ _ _ _ Hc). intros t v Hin.
  destruct (chain_get _ _ _ _ _ _ Hc Hin) as [Hg _]. rewrite Hg. apply balance_exact_look; [|done].
  rewrite (history_contains _ _ _ _ _ _ _ Hh). by destruct h0.
Qed.

Lemma get_last_balance_history h :
  balance_history st (k, a) h ->
  get_last_balance k a st = ok_or (head h) (BlockchainError.NoBalance (as_address k st.(mainnet))).
Proof using Ha.
  intros Hh. unfold get_last_balance. rewrite has_balance_registered, (history_contains _ _ _ _ _ _ _ Hh).
  destruct h as [|[t v] h]; [done|]. cbn [mbind res_bind negb].
  destruct (history_last _ _ _ _ _ _ _ _ _ DiskContext.LastBalance Hh) as (Hp & Hg & _).
  change (get_balance_key_for k a) with (balance_key (k, a)). rewrite Hp. cbn [mbind res_bind].
  rewrite (balance_exact_look t v); [done| |done]. by rewrite (history_contains _ _ _ _ _ _ _ Hh).
Qed.

Lemma balance_at_maximum_history hist topoheight :
  balances_refine hist st -> in_u 64 topoheight ->
  get_balance_at_maximum_topoheight k a topoheight st = Ok (latest topoheight (hist (k, a))).
Proof using Ha.
  intros Hr Hu. pose proof Hr as [Hh Hs]. specialize (Hh (k, a)). unfold get_balance_at_maximum_topoheight.
  rewrite has_balance_registered, has_exact_registered, (get_last_balance_history _ Hh). pose proof (history_contains _ _ _ _ _ _ _ Hh) as Hcont.
  pose proof (history_bound _ _ _ balance_key_inj vb_from_bytes_range _ _ _ _ Hh) as Hb.
  rewrite Hcont. destruct (hist (k, a)) as [|[t v] h] eqn:Ek; [done|]. cbn [mbind res_bind negb head ok_or andb].
  destruct (tree_contains (version_key balance_key (k, a) topoheight) _) eqn:He.
  - apply tree_contains_get in He as [x Hx]. destruct (Hs _ _ Hx) as (ka & t' & v' & Hin & Hkey).
    assert (ka = (k, a) /\ t' = topoheight) as [-> ->].
    { apply version_key_inj in Hkey as [-> ->]; [done|exact balance_key_inj|done|].
      by eapply trees_refine_range. }
    rewrite Ek in Hin. destruct Hh as [_ Hc]. destruct (chain_get _ _ _ _ _ _ Hc Hin) as [Hg _].
    rewrite (balance_exact_look _ v'); [|done|done]. cbn [mbind res_bind].
    by rewrite (latest_exact _ _ _ _ _ _ Hc Hin).
  - cbn [latest]. destruct (t <=? topoheight); [done|].
    pose proof (history_tail _ _ _ _ _ _ _ _ _ Hh) as Ht. apply search_maximum_chain.
    + by apply (balance_exact_chain _ _ _ Hh).
    + unfold balance_fuel. simpl in Hb. lia.
Qed.

Lemma output_balance_history hist topoheight :
  balances_refine hist st -> in_u 64 topoheight ->
  get_output_balance_at_maximum_topoheight k a topoheight st =
    Ok (latest_that contains_output (upto topoheight (hist (k, a)))).
Proof using Ha.
  intros Hr Hu. unfold get_output_balance_at_maximum_topoheight.
  rewrite (balance_at_maximum_history hist) by done. cbn [mbind res_bind]. rewrite latest_upto.
  destruct (upto topoheight (hist (k, a))) as [|[t v] h] eqn:Eu; [done|]. cbn [head latest_that].
  destruct (contains_output v); [done|]. destruct Hr as [Hh _]. specialize (Hh (k, a)).
  pose proof (history_bound _ _ _ balance_key_inj vb_from_bytes_range _ _ _ _ Hh) as Hb.
  pose proof Hh as [_ Hc]. apply (upto_chain _ _ _ _ _ _ _ _ Hc) in Eu as Ht.
  assert (length (upto topoheight (hist (k, a))) <= length (hist (k, a)))%nat as Hlen.
  { unfold upto. apply length_filter. }
  rewrite Eu in Hlen. simpl in Hlen. apply search_output_chain.
  - apply (balance_exact_chain _ _ _ Hh); [|done]. intros E. by rewrite E in Eu.
  - unfold balance_fuel. lia.
Qed.

Lemma new_versioned_balance_history hist topoheight :
  balances_refine hist st -> in_u 64 topoheight ->
  get_new_versioned_balance k a topoheight st =
    Ok (match latest topoheight (hist (k, a)) with
        | Some (t, v) => prepare_new (Some t) v
        | None => balance_zero
        end).
Proof using Ha.
  intros Hr Hu. unfold get_new_versioned_balance. rewrite (balance_at_maximum_history hist) by done.
  cbn [mbind res_bind]. by destruct (latest topoheight _) as [[]|].
Qed.
End Lookups.

Lemma set_last_balance_refine hist st k a t v :
  balances_refine hist st -> in_u 64 t -> balance_wf v ->
  v.(previous_topoheight) = top (hist (k, a)) -> (forall p, top (hist (k, a)) = Some p -> p < t) ->
  balances_refine (fn_upd (k, a) ((t, stored v) :: hist (k, a)) hist) (set_last_balance_to k a t v st).
Proof.
  intros Hr Hu Hwf Hprev Hlt. apply (trees_refine_append _ _ _ balance_key_inj); try done.
  apply vb_from_bytes; [done|]. rewrite Hprev. destruct (hist (k, a)) as [|[t0 v0] h] eqn:Ek; [done|].
  apply (trees_refine_range _ _ _ hist _ _ (k, a) t0 v0 Hr). rewrite Ek. left.
Qed.

Lemma set_last_balance_frame k a t v st :
  let st' := set_last_balance_to k a t v st in
  st'.(nonces) = st.(nonces) /\ st'.(versioned_nonces) = st.(versioned_nonces) /\
  st'.(assets) = st.(assets) /\ st'.(mainnet) = st.(mainnet) /\
  st'.(registrations) = st.(registrations) /\ st'.(registrations_prefixed) = st.(registrations_prefixed) /\
  st'.(accounts_count) = st.(accounts_count).
Proof. done. Qed.

Lemma parse_asset t k a :
  parse_slice (T:=Hash) 40 72 (version_key balance_key (k, a) t) = Ok a.
Proof.
  unfold parse_slice, slice, version_key, balance_key, get_balance_key_for. cbn [fst snd].
  pose proof (slice_at (be_bytes 8 t ++ as_bytes k) (hash_bytes a) [] 32 (length_hash_bytes a)) as E.
  rewrite length_app, length_be_bytes, length_as_bytes, app_nil_r, <- (assoc_L (++)) in E.
  change 72%nat with (8 + 32 + 32)%nat. change 40%nat with (8 + 32)%nat. rewrite E.
  cbn [map_err mbind res_bind]. change (hash_bytes a) with (to_bytes a). by rewrite (from_bytes_to_bytes a).
Qed.

Lemma delete_balance_newest t :
  deletes_newest balance_key previous_topoheight DiskContext.BalanceAtTopoHeight
    balances versioned_balances (fun _ => True) (delete_versioned_balance t) t.
Proof.
  intros hist s [k a] v h b _ Hr Hk Hb. pose proof (tr_history _ _ _ _ _ _ Hr (k, a)) as Hh. rewrite Hk in Hh.
  pose proof (history_contains _ _ _ _ _ _ _ Hh) as Hcont.
  destruct (history_last _ _ _ _ _ _ _ _ _ DiskContext.LastTopoHeightForBalance Hh) as (Hp & Hg & Hu).
  apply load_ok in Hg as (b' & Hb' & Hv). assert (b' = b) as -> by congruence.
  set (s1 := with_versioned_balances (tree_remove (version_key balance_key (k, a) t) s.(versioned_balances)).2 s).
  exists (match v.(previous_topoheight) with
          | Some p => with_balances (tree_insert (balance_key (k, a)) (be_bytes 8 p) s1.(balances)).2 s1
          | None => with_balances (tree_remove (balance_key (k, a)) s1.(balances)).2 s1
          end).
  split.
  - unfold delete_versioned_balance, mbind, stm_bind, st_modify, lift_res, st_get. cbn [fst snd].
    rewrite parse_asset. unfold version_key at 1, balance_key at 1, get_balance_key_for. cbn [fst snd].
    rewrite parse_key. fold s1. unfold get_last_topoheight_for_balance, has_balance_internal.
    change (get_balance_key_for k a) with (balance_key (k, a)).
    cbn [balances s1 with_versioned_balances]. rewrite Hcont. cbn [mbind res_bind negb].
    rewrite Hp, Z.leb_refl, Hv. cbn [map_err]. by destruct (previous_topoheight v).
  - split; [done|]. destruct (previous_topoheight v) as [p|]; (split; [done|]); simpl.
    + split; [apply tree_get_insert|]. intros b' Hne. by rewrite tree_get_insert_ne.
    + split; [apply tree_get_remove|]. intros b' Hne. by rewrite tree_get_remove_ne.
Qed.

Lemma delete_versioned_balances_refine t hist st :
  balances_refine hist st -> in_u 64 t -> (forall ka t' v, (t', v) ∈ hist ka -> t' <= t) ->
  exists st', delete_versioned_balances_at_topoheight t st = (Ok tt, st') /\
    balances_refine (fun ka => cut t (hist ka)) st'.
Proof.
  intros Hr Hu Htop. destruct (rewind_refine balance_key previous_topoheight _ balance_key_inj
    vb_from_bytes_range _ _ _ _ t (delete_balance_newest t) hist st I Hr Hu Htop) as (st' & Hrun & _ & Hr').
  exists st'. split; [exact Hrun|]. exact Hr'.
Qed.
End Balances.

(** ** An empty storage *)
Section Empty.
Context {CV : Curve} {SL : SledLib}.

Definition empty_storage (mainnet : bool) : SledStorage :=
  mkSled mainnet tree_empty tree_empty tree_empty tree_empty tree_empty tree_empty tree_empty tree_empty tree_empty tree_empty
    tree_empty tree_empty 0 0 no_blocks.

Lemma empty_trees_refine {K V} `{EqDecision K} {SZ : Serializer V} (kb : K -> list byte) (prev : V -> option Z) ctx :
  trees_refine kb prev ctx (fun _ => []) tree_empty tree_empty.
Proof.
  split; [intros k; split; [apply tree_get_empty|constructor]|].
  intros b x Hb. by rewrite tree_get_empty in Hb.
Qed.

Lemma empty_nonces_refine m : nonces_refine (fun _ => []) (empty_storage m).
Proof.
  split; [apply empty_trees_refine|]. unfold accounts_counted. simpl.
  by rewrite tree_len_spec, tree_empty_spec.
Qed.
Lemma empty_balances_refine m : balances_refine (fun _ => []) (empty_storage m).
Proof. apply empty_trees_refine. Qed.
End Empty.

(** ** Properties *)
Section Properties.
Context {CV : Curve} {SL : SledLib}.

(** The nonces of the storage implement one history of versions per
    account.  The lookup at a maximum topoheight terminates and returns the
    newest version at or below it, the last nonce is the head of the history,
    and writing a version above it, linked to it, prolongs that history and no
    other, counting each account once. *)
Theorem nonce_storage_refines (hist : NonceHistories) (st : SledStorage) (Hr : nonces_refine hist st) :
  (forall key topoheight,
     get_nonce_at_maximum_topoheight key topoheight st = Ok (latest topoheight (hist key))) /\
  (forall key, get_last_nonce key st =
     ok_or (head (hist key)) (BlockchainError.NoNonce (as_address key st.(mainnet)))) /\
  (forall key t v, in_u 64 t -> in_u 64 v.(vn_nonce) -> v.(vn_previous_topoheight) = top (hist key) ->
     (forall p, top (hist key) = Some p -> p < t) ->
     nonces_refine (fn_upd key ((t, v) :: hist key) hist) (set_last_nonce_to key t v st)).
Proof.
  pose proof Hr as [[Hh _] _]. split_and!.
  - intros key topoheight. apply nonce_at_maximum_history, Hh.
  - intros key. apply get_last_nonce_history, Hh.
  - intros key t v. by apply set_last_nonce_refine.
Qed.

(** C10: the balances of the storage implement one history per account and
    asset.  For a registered asset the lookups return the newest version at or
    below a topoheight, and the newest such version with an output; a new
    version is that version relinked to it; and a write above the newest
    version prolongs the history. *)
Theorem balance_storage_refines (hist : BalanceHistories) (st : SledStorage) (Hr : balances_refine hist st) :
  (forall k a topoheight, registered a st -> in_u 64 topoheight ->
     get_balance_at_maximum_topoheight k a topoheight st = Ok (latest topoheight (hist (k, a))) /\
     get_output_balance_at_maximum_topoheight k a topoheight st =
       Ok (latest_that contains_output (upto topoheight (hist (k, a)))) /\
     get_new_versioned_balance k a topoheight st =
       Ok (match latest topoheight (hist (k, a)) with
           | Some (t, v) => prepare_new (Some t) v
           | None => balance_zero
           end)) /\
  (forall k a t v, in_u 64 t -> balance_wf v -> v.(previous_topoheight) = top (hist (k, a)) ->
     (forall p, top (hist (k, a)) = Some p -> p < t) ->
     balances_refine (fn_upd (k, a) ((t, stored v) :: hist (k, a)) hist) (set_last_balance_to k a t v st) /\
     stored v ≡ v).
Proof.
  split.
  - intros k a topoheight Ha Hu. split_and!; [by apply balance_at_maximum_history|
      by apply output_balance_history|by apply new_versioned_balance_history].
  - intros k a t v Hu Hwf Hp Hlt. split; [by apply set_last_balance_refine|apply stored_equiv].
Qed.

(** Rewinding a topoheight that no version is above succeeds, and cuts the
    versions of that topoheight off every history: a version that was just
    written is undone. *)
Theorem rewind_refines (t : Z) (nhist : NonceHistories) (bhist : BalanceHistories) (st : SledStorage)
    (Hn : nonces_refine nhist st) (Hb : balances_refine bhist st) (Hu : in_u 64 t)
    (Hnt : forall key t' v, (t', v) ∈ nhist key -> t' <= t)
    (Hbt : forall ka t' v, (t', v) ∈ bhist ka -> t' <= t) :
  (exists st', delete_versioned_nonces_at_topoheight t st = (Ok tt, st') /\
     nonces_refine (fun key => cut t (nhist key)) st') /\
  (exists st', delete_versioned_balances_at_topoheight t st = (Ok tt, st') /\
     balances_refine (fun ka => cut t (bhist ka)) st').
Proof. split; [by apply delete_versioned_nonces_refine|by apply delete_versioned_balances_refine]. Qed.

Lemma load_u64_not_diverge t k c : load_from_disk (SZ:=u64_Serializer) t k c <> Diverge.
Proof.
  unfold load_from_disk. destruct (tree_get k t) as [b|]; [|done]. unfold from_bytes.
  rewrite reader_new_at. change (@read Z u64_Serializer) with Reader.read_u64.
  pose proof (fwd_not_diverge _ _ _ (fwd_codec (dec:=Reader.read_u64) [] b)) as Hf.
  by destruct (Reader.read_u64 _) as [[]| | |].
Qed.

Lemma nonce_lookup_terminates st key topoheight :
  (forall t v, get_nonce_at_exact_topoheight key t st = Ok v -> v.(vn_previous_topoheight) <> Some t) ->
  get_nonce_at_maximum_topoheight key topoheight st <> Diverge.
Proof.
  intros Hself. unfold get_nonce_at_maximum_topoheight, get_last_nonce.
  unfold has_nonce. destruct (tree_contains (as_bytes key) st.(nonces)); [|done]. cbn [mbind res_bind negb].
  pose proof (load_u64_not_diverge st.(nonces) (as_bytes key) DiskContext.LastNonce) as Hl.
  destruct (load_from_disk _ _ _) as [t| | |]; cbn [mbind res_bind]; try done.
  pose proof (look_not_diverge as_bytes DiskContext.NonceAtTopoHeight vn_from_bytes_safe
    st.(versioned_nonces) key) as Hd.
  specialize (Hd t) as Hdt. rewrite nonce_look. destruct (look _ _ _ _ t) as [v| | |] eqn:Hv; try done.
  cbn [mbind res_bind]. destruct (t <=? topoheight); [done|].
  apply (search_maximum_terminates vn_previous_topoheight _ (tree_len st.(versioned_nonces))).
  - apply (look_at_most as_bytes vn_previous_topoheight _ as_bytes_inj vn_from_bytes_range).
  - exact Hd.
  - intros t' v' p Hg Hp. apply (look_ok _ _ _ vn_from_bytes_range) in Hg as [_ Hr]. by rewrite Hp in Hr.
  - exact Hself.
  - intros p Hp. apply (look_ok _ _ _ vn_from_bytes_range) in Hv as [_ Hr]. by rewrite Hp in Hr.
Qed.

Lemma balance_lookup_terminates st k a topoheight :
  (forall t v, get_balance_at_exact_topoheight k a t st = Ok v -> v.(previous_topoheight) <> Some t) ->
  get_balance_at_maximum_topoheight k a topoheight st <> Diverge.
Proof.
  intros Hself. unfold get_balance_at_maximum_topoheight, get_last_balance.
  destruct (tree_contains (hash_bytes a) st.(assets)) eqn:Ha; [|by unfold has_balance_for, has_asset; rewrite Ha].
  rewrite (has_exact_registered _ _ _ Ha), (has_balance_registered _ _ _ Ha). cbn [mbind res_bind].
  destruct (tree_contains (balance_key (k, a)) st.(balances)); [|done]. cbn [mbind res_bind negb andb].
  pose proof (balance_exact_not_diverge _ k a Ha) as Hd.
  assert (forall t v, get_balance_at_exact_topoheight k a t st = Ok v -> topo_ok v.(previous_topoheight)) as Hrange.
  { intros t v Hv%balance_look_exact; [|done].
    by apply (look_ok _ _ _ vb_from_bytes_range) in Hv as [_ Hr]. }
  destruct (tree_contains (version_key _ _ _) _).
  { cbn [mbind res_bind]. specialize (Hd topoheight).
    by destruct (get_balance_at_exact_topoheight k a topoheight st). }
  pose proof (load_u64_not_diverge st.(balances) (get_balance_key_for k a) DiskContext.LastBalance) as Hl.
  destruct (load_from_disk _ _ _) as [t| | |]; cbn [mbind res_bind]; try done.
  specialize (Hd t) as Hdt. destruct (get_balance_at_exact_topoheight k a t st) as [v| | |] eqn:Hv; try done.
  cbn [mbind res_bind]. destruct (t <=? topoheight); [done|].
  apply (search_maximum_terminates previous_topoheight _ (tree_len st.(versioned_balances))).
  - intros l Hnd Hl'. apply (look_at_most balance_key previous_topoheight DiskContext.BalanceAtTopoHeight
      balance_key_inj vb_from_bytes_range st.(versioned_balances) (k, a) l Hnd).
    intros t' Hin. destruct (Hl' t' Hin) as (Hu & v' & Hv'). split; [done|]. exists v'.
    by apply balance_look_exact.
  - exact Hd.
  - intros t' v' p Hg Hp. apply Hrange in Hg. by rewrite Hp in Hg.
  - exact Hself.
  - intros p Hp. apply Hrange in Hv. by rewrite Hp in Hv.
Qed.

Lemma self_version_diverges (st : SledStorage) (k : CompressedPublicKey) (t topoheight : Z) (v : VersionedNonce)
    (Hlast : get_last_nonce k st = Ok (t, v)) (Hself : v.(vn_previous_topoheight) = Some t)
    (Hlt : topoheight < t) :
  get_nonce_at_maximum_topoheight k topoheight st = Diverge.
Proof.
  unfold get_nonce_at_maximum_topoheight. pose proof Hlast as Hl. unfold get_last_nonce in Hl.
  destruct (has_nonce k st) as [[]| | |]; try done. cbn [mbind res_bind negb] in *. rewrite Hlast.
  cbn [mbind res_bind]. destruct (Z.leb_spec t topoheight); [lia|].
  apply search_maximum_self with t; [|done..].
  apply res_bind_ok in Hl as (t' & _ & Hl). apply res_bind_ok in Hl as (v' & Hv & [= -> ->]). exact Hv.
Qed.

(** The lookups at a maximum topoheight terminate on every storage in which
    no version of the account is its own predecessor, however damaged it is
    otherwise.  The sanity check of the loop ([value > previous] is an error,
    equality is not) lets such a version through: when the last version is its
    own predecessor, a lookup below it never ends. *)
Theorem version_lookups_terminate (st : SledStorage) (k : CompressedPublicKey) (a : Hash) (topoheight : Z) :
  ((forall t v, get_nonce_at_exact_topoheight k t st = Ok v -> v.(vn_previous_topoheight) <> Some t) ->
   get_nonce_at_maximum_topoheight k topoheight st <> Diverge) /\
  ((forall t v, get_balance_at_exact_topoheight k a t st = Ok v -> v.(previous_topoheight) <> Some t) ->
   get_balance_at_maximum_topoheight k a topoheight st <> Diverge) /\
  (forall t v, get_last_nonce k st = Ok (t, v) -> v.(vn_previous_topoheight) = Some t -> topoheight < t ->
   get_nonce_at_maximum_topoheight k topoheight st = Diverge).
Proof.
  split_and!; [apply nonce_lookup_terminates|apply balance_lookup_terminates|]. intros t v.
  apply self_version_diverges.
Qed.
End Properties.

#[local] Existing Instances curve_model sled_model.

(** An account registered at topoheight 3 and used at 8. *)
Definition s_key : CompressedPublicKey := mkPublicKey (mkRistretto (vreplicate 32 x07)).
Definition s_asset : Hash := HashOps.zero.
Definition s_assets : SledStorage :=
  with_assets (tree_insert (hash_bytes s_asset) [] tree_empty).2 (empty_storage true).
Definition s_funded : SledStorage := set_last_balance_to s_key s_asset 3 balance_zero s_assets.
Definition s_storage : SledStorage := set_last_nonce_to s_key 3 (mkVNonce 0 None) s_funded.
Definition s_nonces : NonceHistories := fn_upd s_key [(3, mkVNonce 0 None)] (fun _ => []).
Definition s_balances : BalanceHistories := fn_upd (s_key, s_asset) [(3, stored balance_zero)] (fun _ => []).

Lemma s_nonces_refine : nonces_refine s_nonces s_storage.
Proof.
  apply (set_last_nonce_refine (fun _ => [])); [apply empty_nonces_refine|done..].
Qed.
Lemma s_balances_refine : balances_refine s_balances s_storage.
Proof.
  unfold balances_refine, s_storage.
  destruct (set_last_nonce_frame s_key 3 (mkVNonce 0 None) s_funded) as (-> & -> & _).
  apply (set_last_balance_refine (fun _ => []) s_assets); [apply empty_balances_refine|done..].
Qed.
Lemma s_nonces_top key t v : (t, v) ∈ s_nonces key -> t <= 3.
Proof. unfold s_nonces, fn_upd. case_decide; set_solver by lia. Qed.
Lemma s_balances_top ka t v : (t, v) ∈ s_balances ka -> t <= 3.
Proof. unfold s_balances, fn_upd. case_decide; set_solver by lia. Qed.

Lemma nonce_storage_refines_witness :
  get_nonce_at_maximum_topoheight s_key 7 s_storage = Ok (Some (3, mkVNonce 0 None)) /\
  nonces_refine (fn_upd s_key [(8, mkVNonce 1 (Some 3)); (3, mkVNonce 0 None)] s_nonces)
    (set_last_nonce_to s_key 8 (mkVNonce 1 (Some 3)) s_storage).
Proof.
  destruct (nonce_storage_refines s_nonces s_storage s_nonces_refine) as (Hl & _ & Ha). split.
  - rewrite Hl. unfold s_nonces. by rewrite fn_upd_eq.
  - pose proof (Ha s_key 8 (mkVNonce 1 (Some 3))) as H. unfold s_nonces at 2 3 4 in H. rewrite fn_upd_eq in H.
    apply H; [done..|]. by intros p [= <-].
Defined.

Lemma balance_storage_refines_witness :
  get_balance_at_maximum_topoheight s_key s_asset 7 s_storage = Ok (Some (3, stored balance_zero)).
Proof.
  destruct (balance_storage_refines s_balances s_storage s_balances_refine) as (Hl & _).
  destruct (Hl s_key s_asset 7) as (H & _); [done|done|]. rewrite H. unfold s_balances. by rewrite fn_upd_eq.
Defined.

Lemma rewind_refines_witness :
  exists st', delete_versioned_nonces_at_topoheight 3 s_storage = (Ok tt, st') /\
    nonces_refine (fun key => cut 3 (s_nonces key)) st'.
Proof.
  apply (rewind_refines 3 s_nonces s_balances s_storage s_nonces_refine s_balances_refine);
    [done|exact s_nonces_top|exact s_balances_top].
Defined.
