(* ===== verification/Providers.v ===== *)
(** The traits of [core/storage/providers/] as interfaces.

    The components above the storage are written against these classes, one
    per trait and restricted to the methods they call, as the code is generic
    in [S: Storage].  [SledStorage] implements them. *)

From S2P Require Import Prelude External ExternalCrypto Serializer Hash Defaults Elgamal Transaction Errors Account Versions Storage ClientProtocol.

Section Traits.
Context {CV : Curve}.

Class NonceProvider (S : Type) := {
  has_nonce : S -> CompressedPublicKey -> bres bool;
  get_last_nonce : S -> CompressedPublicKey -> bres (Z * VersionedNonce);
  get_nonce_at_maximum_topoheight : S -> CompressedPublicKey -> Z -> bres (option (Z * VersionedNonce));
  set_last_nonce_to : CompressedPublicKey -> Z -> VersionedNonce -> stm S blockchain_error ();
}.

Class BalanceProvider (S : Type) := {
  get_balance_at_maximum_topoheight : S -> CompressedPublicKey -> Hash -> Z -> bres (option (Z * VersionedBalance));
  get_output_balance_at_maximum_topoheight :
    S -> CompressedPublicKey -> Hash -> Z -> bres (option (Z * VersionedBalance));
  get_new_versioned_balance : S -> CompressedPublicKey -> Hash -> Z -> bres VersionedBalance;
  set_last_balance_to : CompressedPublicKey -> Hash -> Z -> VersionedBalance -> stm S blockchain_error ();
}.

Class AccountProvider (S : Type) := {
  is_account_registered_below_topoheight : S -> CompressedPublicKey -> Z -> bres bool;
  set_account_registration_topoheight : CompressedPublicKey -> Z -> stm S blockchain_error ();
}.

Class DagOrderProvider (S : Type) := {
  get_topo_height_for_hash : S -> Hash -> bres Z;
  get_hash_at_topo_height : S -> Z -> bres Hash;
  is_block_topological_ordered : S -> Hash -> bres bool;
  set_topo_height_for_block : Hash -> Z -> stm S blockchain_error ();
}.

Class ClientProtocolProvider (S : Type) := {
  is_tx_executed_in_a_block : S -> Hash -> bres bool;
  is_tx_executed_in_block : S -> Hash -> Hash -> bres bool;
  get_block_executor_for_tx : S -> Hash -> bres Hash;
  set_tx_executed_in_block : Hash -> Hash -> stm S blockchain_error ();
  remove_tx_executed : Hash -> stm S blockchain_error ();
  add_block_linked_to_tx_if_not_present : Hash -> Hash -> stm S blockchain_error bool;
}.

Class Storage (S : Type) := {
  is_mainnet : S -> bool;
  storage_nonces :: NonceProvider S;
  storage_balances :: BalanceProvider S;
  storage_accounts :: AccountProvider S;
  storage_order :: DagOrderProvider S;
}.
End Traits.

(** ** The implementation *)
Section Sled.
Context {CV : Curve} {SL : SledLib}.

#[export] Instance sled_nonces : NonceProvider SledStorage := {|
  has_nonce st k := Storage.has_nonce k st;
  get_last_nonce st k := Storage.get_last_nonce k st;
  get_nonce_at_maximum_topoheight st k t := Storage.get_nonce_at_maximum_topoheight k t st;
  set_last_nonce_to k t v := st_modify (Storage.set_last_nonce_to k t v);
|}.
#[export] Instance sled_balances : BalanceProvider SledStorage := {|
  get_balance_at_maximum_topoheight st k a t := Storage.get_balance_at_maximum_topoheight k a t st;
  get_output_balance_at_maximum_topoheight st k a t := Storage.get_output_balance_at_maximum_topoheight k a t st;
  get_new_versioned_balance st k a t := Storage.get_new_versioned_balance k a t st;
  set_last_balance_to k a t v := st_modify (Storage.set_last_balance_to k a t v);
|}.
#[export] Instance sled_accounts : AccountProvider SledStorage := {|
  is_account_registered_below_topoheight st k t := Storage.is_account_registered_below_topoheight k t st;
  set_account_registration_topoheight := Storage.set_account_registration_topoheight;
|}.
#[export] Instance sled_order : DagOrderProvider SledStorage := {|
  get_topo_height_for_hash st h := Storage.get_topo_height_for_hash h st;
  get_hash_at_topo_height st t := Storage.get_hash_at_topo_height t st;
  is_block_topological_ordered st h := Storage.is_block_topological_ordered h st;
  set_topo_height_for_block h t := st_modify (Storage.set_topo_height_for_block h t);
|}.
#[export] Instance sled_client_protocol {HM : HashMapIter} : ClientProtocolProvider SledStorage := {|
  is_tx_executed_in_a_block st tx := ClientProtocol.is_tx_executed_in_a_block tx st;
  is_tx_executed_in_block st tx block := ClientProtocol.is_tx_executed_in_block tx block st;
  get_block_executor_for_tx st tx := ClientProtocol.get_block_executor_for_tx tx st;
  set_tx_executed_in_block tx block := st_modify (ClientProtocol.set_tx_executed_in_block tx block);
  remove_tx_executed tx := st_modify (ClientProtocol.remove_tx_executed tx);
  add_block_linked_to_tx_if_not_present := ClientProtocol.add_block_linked_to_tx_if_not_present;
|}.
#[export] Instance sled_storage : Storage SledStorage := {|
  is_mainnet := Storage.mainnet;
|}.
End Sled.
