(* ===== verification/DagOrder.v ===== *)
(** The total order of the DAG: [generate_full_order] of [core/blockchain.rs].

    The function walks the DAG from the best tip down to the base with an
    explicit stack: a block that is met for the first time is put back under
    its tips, and takes its place when it is met again.  [post_order] is the
    recursive definition of the same order; [full_order_equiv] shows that the
    walk computes it, caches included, and [full_order_topological] that it is
    a topological order of what lies between the base and the best tip. *)

From S2P Require Import Prelude External ExternalModel ExternalCrypto Serializer Hash VarUint Elgamal Block Errors Dag Providers.

Section Order.
Context {UL : U256Lib} {IS : IndexSetLib Hash} {S : Type} {DP : DifficultyProvider S} {DO : DagOrderProvider S}.
Context {LR : LruLib (Hash * Hash * Z) (iset Hash)}.

(** [full_order_cache] *)
Abbreviation OrderCache := (lru (Hash * Hash * Z) (iset Hash)).

Definition cache_get (key : Hash * Hash * Z) : stm OrderCache blockchain_error (option (iset Hash)) := fun cache =>
  let '(found, cache) := lru_get key cache in (Ok found, cache).

(** [!is_ordered || (is_ordered && topoheight >= base_topo_height)] *)
Definition above_base (provider : S) (base_topo_height : Z) (tip_hash : Hash) : bres bool :=
  is_ordered ← is_block_topological_ordered provider tip_hash;
  if negb is_ordered then Ok true
  else
    topoheight ← get_topo_height_for_hash provider tip_hash;
    Ok (base_topo_height <=? topoheight).

(** The scores of the tips above the base. *)
Definition tip_scores (provider : S) (base_topo_height : Z) (block_tips : list Hash) : bres (list score) :=
  foldM (fun scores tip_hash =>
    above ← above_base provider base_topo_height tip_hash;
    if (above : bool) then
      diff ← get_cumulative_difficulty_for_block_hash provider tip_hash;
      Ok (scores ++ [(tip_hash, diff)])
    else Ok scores) [] block_tips.

(** The block is the genesis or the base. *)
Definition order_stops (base current_hash : Hash) (block_tips : iset Hash) : bool :=
  iset_is_empty block_tips || bool_decide (current_hash = base).

(** The loop; the head of the list is the back of the [VecDeque]. *)
Fixpoint full_order_loop (fuel : nat) (provider : S) (base : Hash) (base_height base_topo_height : Z)
    (full_order : iset Hash) (stack : list Hash) (processed : iset Hash) : stm OrderCache blockchain_error (iset Hash) :=
  match stack with
  | [] => mret full_order
  | current_hash :: stack =>
      match fuel with
      | O => lift_res Diverge
      | Datatypes.S fuel =>
          let continue full_order stack processed :=
            full_order_loop fuel provider base base_height base_topo_height full_order stack processed in
          if iset_contains current_hash processed then
            continue (iset_insert current_hash full_order).2 stack processed
          else
            let cache_key := (current_hash, base, base_height) in
            cached ← cache_get cache_key;
            match cached with
            | Some order_cache => continue (iset_extend full_order (iset_list order_cache)) stack processed
            | None =>
                block_tips ← lift_res (get_past_blocks_for_block_hash provider current_hash);
                if order_stops base current_hash block_tips then
                  let order := (iset_insert current_hash iset_new).2 in
                  _ ← st_modify (lru_put cache_key order);
                  continue (iset_extend full_order (iset_list order)) stack processed
                else
                  scores ← lift_res (tip_scores provider base_topo_height (iset_list block_tips));
                  let scores := sort_ascending_by_cumulative_difficulty scores in
                  let processed := (iset_insert current_hash processed).2 in
                  let stack := current_hash :: stack in
                  continue full_order (foldl (fun stack s => s.1 :: stack) stack scores) processed
            end
      end
  end.

Definition generate_full_order (fuel : nat) (provider : S) (hash base : Hash) (base_height base_topo_height : Z)
  : stm OrderCache blockchain_error (iset Hash) :=
  full_order ← full_order_loop fuel provider base base_height base_topo_height iset_new [hash] iset_new;
  _ ← st_modify (lru_put (hash, base, base_height) full_order);
  mret full_order.

(** ** The recursive definition *)

(** Below a block come the orders of its tips above the base, the heaviest tip
    first. *)
Fixpoint post_order (fuel : nat) (provider : S) (base : Hash) (base_topo_height : Z) (hash : Hash) : bres (list Hash) :=
  match fuel with
  | O => Diverge
  | Datatypes.S fuel =>
      block_tips ← get_past_blocks_for_block_hash provider hash;
      if order_stops base hash block_tips then Ok [hash]
      else
        scores ← tip_scores provider base_topo_height (iset_list block_tips);
        orders ← mapMr (post_order fuel provider base base_topo_height)
                   (fst <$> sort_descending_by_cumulative_difficulty scores);
        Ok (concat orders ++ [hash])
  end.

(** A block that is not ordered yet, or not ordered below the base. *)
Definition not_below_base (provider : S) (base_topo_height : Z) (t : Hash) : Prop :=
  is_block_topological_ordered provider t = Ok false \/
  (is_block_topological_ordered provider t = Ok true /\
   exists topoheight, get_topo_height_for_hash provider t = Ok topoheight /\ base_topo_height <= topoheight).

(** [t] is a tip of [x] above the base, and [x] is not the base. *)
Definition tip_above (provider : S) (base : Hash) (base_topo_height : Z) (t x : Hash) : Prop :=
  exists block_tips, get_past_blocks_for_block_hash provider x = Ok block_tips /\
    x <> base /\ t ∈ iset_list block_tips /\ not_below_base provider base_topo_height t.

(** The blocks between the base and [hash]. *)
Inductive between (provider : S) (base : Hash) (base_topo_height : Z) (hash : Hash) : Hash -> Prop :=
  | between_top : between provider base base_topo_height hash hash
  | between_tip x t : between provider base base_topo_height hash x ->
      tip_above provider base base_topo_height t x -> between provider base base_topo_height hash t.
End Order.

(** ** Sets extended in order *)
Section Extend.
Context `{IndexSetLib A}.
Implicit Types s : iset A.

Lemma iset_extend_app s l1 l2 : iset_extend s (l1 ++ l2) = iset_extend (iset_extend s l1) l2.
Proof. apply foldl_app. Qed.

Lemma iset_insert_elem a s x : x ∈ iset_list (iset_insert a s).2 <-> x ∈ iset_list s \/ x = a.
Proof. destruct (iset_insert_spec a s) as [_ ->]. case_decide; set_solver. Qed.

Lemma iset_extend_elem s l x : x ∈ iset_list (iset_extend s l) <-> x ∈ iset_list s \/ x ∈ l.
Proof.
  revert s. induction l as [|a l IH]; intros s; cbn [iset_extend foldl]; [set_solver|].
  fold (iset_extend (iset_insert a s).2 l). rewrite IH, iset_insert_elem. set_solver.
Qed.

Lemma iset_extend_old s l : l ⊆ iset_list s -> iset_extend s l = s.
Proof.
  intros Hl. induction l as [|a l IH]; [done|]. cbn [iset_extend foldl].
  rewrite iset_insert_dup by set_solver. apply IH. set_solver.
Qed.

(** Extending by the elements already gathered from a list is extending by the list. *)
Lemma iset_extend_gathered s l : iset_extend s (iset_list (iset_extend iset_new l)) = iset_extend s l.
Proof.
  induction l as [|a l IH] using rev_ind; [cbn [iset_extend foldl]; by rewrite iset_new_spec|].
  rewrite !iset_extend_app. cbn [iset_extend foldl].
  destruct (decide (a ∈ iset_list (iset_extend iset_new l))) as [Ha|Ha].
  - rewrite !iset_insert_dup; [done| |done]. rewrite <- IH, iset_extend_elem. by right.
  - destruct (iset_insert_fresh _ _ Ha) as (s' & -> & Hs'). simpl. rewrite Hs', iset_extend_app, IH. done.
Qed.

(** The first occurrences keep the order of the list. *)
Lemma iset_extend_split l f1 x f2 :
  iset_list (iset_extend iset_new l) = f1 ++ x :: f2 ->
  exists l1 l2, l = l1 ++ x :: l2 /\ l1 ⊆ f1.
Proof.
  revert f2. induction l as [|a l IH] using rev_ind; intros f2.
  { simpl. rewrite iset_new_spec. by destruct f1. }
  rewrite iset_extend_app. cbn [iset_extend foldl]. intros E.
  destruct (decide (a ∈ iset_list (iset_extend iset_new l))) as [Ha|Ha].
  - rewrite iset_insert_dup in E by done. apply IH in E as (l1 & l2 & -> & Hl1).
    exists l1, (l2 ++ [a]). by rewrite <- (assoc_L (++)).
  - destruct (iset_insert_fresh _ _ Ha) as (s' & Ei & Hs'). rewrite Ei in E. simpl in E. rewrite Hs' in E.
    destruct f2 as [|b f2 _] using rev_ind.
    + apply app_inj_tail in E as [E ->]. exists l, []. split; [done|]. rewrite <- E. intros y Hy.
      apply iset_extend_elem. by right.
    + replace (f1 ++ x :: f2 ++ [b]) with ((f1 ++ x :: f2) ++ [b]) in E by by rewrite <- (assoc_L (++)).
      apply app_inj_tail in E as [E ->]. apply IH in E as (l1 & l2 & -> & Hl1).
      exists l1, (l2 ++ [b]). by rewrite <- (assoc_L (++)).
Qed.
End Extend.

(** ** The order in which the tips are pushed *)
Section Pushed.
Context {UL : U256Lib}.

Lemma cmp_ascending_flip x y : cmp_ascending x y = cmp_descending y x.
Proof.
  destruct x as [a va], y as [b vb]. simpl. destruct (decide (va = vb)) as [->|Hne]; [done|].
  rewrite !decide_True; congruence.
Qed.

Lemma StronglySorted_snoc {A} (R : A -> A -> Prop) l x :
  StronglySorted R l -> Forall (fun y => R y x) l -> StronglySorted R (l ++ [x]).
Proof.
  induction 1 as [|y l Hl IH Hy]; intros Hx; simpl; [repeat constructor|].
  apply list.Forall_cons in Hx as [Hyx Hx]. constructor; [by apply IH|].
  apply list.Forall_app. by repeat constructor.
Qed.
Lemma StronglySorted_reverse {A} (R : A -> A -> Prop) l :
  StronglySorted (flip R) l -> StronglySorted R (reverse l).
Proof.
  induction 1 as [|x l _ IH Hx]; [constructor|]. rewrite reverse_cons. apply StronglySorted_snoc; [done|].
  by rewrite reverse_Permutation.
Qed.

Lemma sort_ascending_reverse l :
  NoDup l -> reverse (sort_ascending_by_cumulative_difficulty l) = sort_descending_by_cumulative_difficulty l.
Proof.
  intros Hnd. apply strict_sorted_unique.
  - apply StronglySorted_reverse. unfold sort_ascending_by_cumulative_difficulty.
    assert (NoDup (sort_by cmp_ascending l)) as Hnd' by by rewrite sort_by_Permutation.
    assert (Sorted (fun x y => cmp_ascending x y <> Gt) (sort_by cmp_ascending l)) as Hs.
    { apply sort_by_sorted. intros x y. rewrite !cmp_ascending_flip. intros Hg. by rewrite cmp_descending_antisym, Hg. }
    apply Sorted_StronglySorted; [intros x y z; unfold flip; intros; by etransitivity|].
    induction Hs as [|x m Hs IH Hhd]; [constructor|].
    apply list.NoDup_cons in Hnd' as [Hx Hnd']. constructor; [by apply IH|].
    destruct Hhd as [|y m Hg]; constructor. rewrite cmp_ascending_flip in Hg. apply not_gt_before; [done|]. set_solver.
  - by apply sort_descending_strict.
  - rewrite reverse_Permutation. unfold sort_ascending_by_cumulative_difficulty, sort_descending_by_cumulative_difficulty.
    by rewrite !sort_by_Permutation.
Qed.

Lemma push_all (scores : list score) (stack : list Hash) :
  foldl (fun stack s => s.1 :: stack) stack scores = (fst <$> reverse scores) ++ stack.
Proof.
  revert stack. induction scores as [|s scores IH]; intros stack; simpl; [done|].
  rewrite IH, reverse_cons, fmap_app, <- (assoc_L (++)). done.
Qed.
End Pushed.

(** ** The walk computes the recursive order *)
Section Walk.
Context {UL : U256Lib} {IS : IndexSetLib Hash} {S : Type} {DP : DifficultyProvider S} {DO : DagOrderProvider S}.
Context {LR : LruLib (Hash * Hash * Z) (iset Hash)}.
Context (provider : S) (base : Hash) (base_height base_topo_height : Z).

Abbreviation post n x := (post_order n provider base base_topo_height x).
Abbreviation walk fuel o s p :=
  (full_order_loop fuel provider base base_height base_topo_height o s p).

(** Every order kept in the cache for this base is the one of its block. *)
Definition order_coherent (cache : lru (Hash * Hash * Z) (iset Hash)) : Prop :=
  forall x order, lru_holds cache (x, base, base_height) order ->
    exists n l, post n x = Ok l /\ order = iset_extend iset_new l.

Lemma coherent_put cache n x l :
  order_coherent cache -> post n x = Ok l ->
  order_coherent (lru_put (x, base, base_height) (iset_extend iset_new l) cache).
Proof. intros Hc Hp y order [[[= ->] ->]|[_ Hy]]%lru_put_holds; [eauto|by apply Hc]. Qed.

Lemma above_base_iff t : above_base provider base_topo_height t = Ok true <-> not_below_base provider base_topo_height t.
Proof.
  unfold above_base, not_below_base. destruct (is_block_topological_ordered provider t) as [[]| | |]; cbn; try naive_solver.
  destruct (get_topo_height_for_hash provider t) as [z| | |]; cbn; [|naive_solver..].
  destruct (Z.leb_spec base_topo_height z); naive_solver lia.
Qed.

Lemma order_goes_on x t (tips : iset Hash) : x <> base -> t ∈ iset_list tips -> order_stops base x tips = false.
Proof.
  intros Hx Ht. unfold order_stops. rewrite bool_decide_eq_false_2 by done. rewrite orb_false_r.
  unfold iset_is_empty. destruct (iset_list tips); [set_solver|done].
Qed.

Lemma tip_scores_spec (tips : list Hash) acc scores :
  foldM (fun scores tip_hash =>
    above ← above_base provider base_topo_height tip_hash;
    if (above : bool) then
      diff ← get_cumulative_difficulty_for_block_hash provider tip_hash;
      Ok (scores ++ [(tip_hash, diff)])
    else Ok scores) acc tips = Ok scores ->
  exists new, scores = acc ++ new /\ sublist (fst <$> new) tips /\
    forall t, t ∈ fst <$> new <-> t ∈ tips /\ above_base provider base_topo_height t = Ok true.
Proof.
  revert acc. induction tips as [|t tips IH]; intros acc; cbn [foldM].
  { intros [= <-]. exists []. rewrite app_nil_r. split; [done|]. split; [constructor|]. set_solver. }
  intros (acc' & (above & Ha & Hacc)%res_bind_ok & Hr)%res_bind_ok. apply IH in Hr as (new & -> & Hsub & Hel).
  destruct above.
  - apply res_bind_ok in Hacc as (diff & _ & [= <-]). exists ((t, diff) :: new). rewrite <- (assoc_L (++)).
    split; [done|]. csimpl. split; [by constructor|]. set_solver.
  - injection Hacc as <-. exists new. split; [done|]. split; [by apply sublist_cons|].
    intros t'. rewrite Hel, list.elem_of_cons. split; [naive_solver|]. intros [[->|] ?]; [congruence|done].
Qed.

Lemma tip_scores_ok (tips : iset Hash) scores :
  tip_scores provider base_topo_height (iset_list tips) = Ok scores ->
  NoDup scores /\
  (forall t, t ∈ fst <$> sort_descending_by_cumulative_difficulty scores <->
     t ∈ iset_list tips /\ above_base provider base_topo_height t = Ok true).
Proof.
  intros (new & -> & Hsub & Hel)%tip_scores_spec. simpl. split.
  - apply (NoDup_fmap_1 fst). eapply sublist_NoDup; [apply iset_NoDup|exact Hsub].
  - intros t. rewrite <- Hel. unfold sort_descending_by_cumulative_difficulty. by rewrite sort_by_Permutation.
Qed.

(** *** The recursive order *)

Lemma post_step n x :
  post (Datatypes.S n) x =
    (block_tips ← get_past_blocks_for_block_hash provider x;
     if order_stops base x block_tips then Ok [x]
     else
       scores ← tip_scores provider base_topo_height (iset_list block_tips);
       orders ← mapMr (fun y => post n y) (fst <$> sort_descending_by_cumulative_difficulty scores);
       Ok (concat orders ++ [x])).
Proof. done. Qed.

(** Either the order stops at the block, or it follows the orders of the tips. *)
Lemma post_cases n x l :
  post (Datatypes.S n) x = Ok l -> exists block_tips, get_past_blocks_for_block_hash provider x = Ok block_tips /\
    (order_stops base x block_tips = true /\ l = [x] \/
     order_stops base x block_tips = false /\ exists scores orders,
       tip_scores provider base_topo_height (iset_list block_tips) = Ok scores /\
       Forall2 (fun y ly => post n y = Ok ly) (fst <$> sort_descending_by_cumulative_difficulty scores) orders /\
       l = concat orders ++ [x]).
Proof.
  rewrite post_step. intros (tips & Ht & Hl)%res_bind_ok. exists tips. split; [done|].
  destruct (order_stops base x tips).
  - left. by injection Hl.
  - right. split; [done|]. apply res_bind_ok in Hl as (scores & Hs & (orders & Ho & [= <-])%res_bind_ok).
    exists scores, orders. split; [done|]. split; [by apply mapMr_Forall2|done].
Qed.

Lemma post_mono n m x l : post n x = Ok l -> (n <= m)%nat -> post m x = Ok l.
Proof.
  revert m x l. induction n as [|n IH]; [done|]. intros [|m] x l Hl Hle; [lia|].
  apply post_cases in Hl as (tips & Ht & [[Hs ->]|(Hs & scores & orders & Hsc & Hf & ->)]);
    rewrite post_step, Ht; cbn [mbind res_bind]; rewrite Hs; [done|].
  rewrite Hsc. cbn [mbind res_bind]. assert (mapMr (fun y => post m y)
    (fst <$> sort_descending_by_cumulative_difficulty scores) = Ok orders) as ->; [|done].
  apply mapMr_Forall2. apply (list.Forall2_impl _ _ _ _ Hf). intros y ly Hy. apply (IH m); [done|lia].
Qed.

Lemma post_unique n m x l l' : post n x = Ok l -> post m x = Ok l' -> l = l'.
Proof.
  intros H1 H2. apply (post_mono n (n + m)) in H1; [|lia]. apply (post_mono m (n + m)) in H2; [|lia]. congruence.
Qed.

Lemma post_last n x l : post n x = Ok l -> exists l', l = l' ++ [x].
Proof.
  destruct n as [|n]; [done|]. intros (tips & _ & [[_ ->]|(_ & scores & orders & _ & _ & ->)])%post_cases; [by exists []|eauto].
Qed.

Lemma Forall2_elem_r {A B} (P : A -> B -> Prop) l k y : Forall2 P l k -> y ∈ k -> exists x, x ∈ l /\ P x y.
Proof. induction 1 as [|a b l k Hab _ IH]; set_solver. Qed.

(** The order of a block contains those of its blocks. *)
Lemma post_inside n x l y :
  post n x = Ok l -> y ∈ l -> exists m ly, post m y = Ok ly /\ ly ⊆ l /\ (length ly <= length l)%nat.
Proof.
  revert x l. induction n as [|n IH]; [done|]. intros x l Hl Hy. pose proof Hl as Hl'.
  apply post_cases in Hl' as (tips & _ & [[_ ->]|(_ & scores & orders & _ & Hf & ->)]).
  { apply list_elem_of_singleton in Hy as ->. by exists (Datatypes.S n), [x]. }
  apply elem_of_app in Hy as [Hy| ->%list_elem_of_singleton]; [|by exists (Datatypes.S n), (concat orders ++ [x])].
  apply list_elem_of_In, in_concat in Hy as (lc & Hin & Hy%list_elem_of_In). apply list_elem_of_In in Hin.
  destruct (Forall2_elem_r _ _ _ _ Hf Hin) as (c & _ & Hc). apply (IH c lc) in Hy as (m & ly & Hm & Hsub & Hlen); [|done].
  exists m, ly. apply list_elem_of_split in Hin as (o1 & o2 & ->). rewrite concat_app. simpl.
  split; [done|]. split; [set_solver|]. rewrite !length_app. lia.
Qed.

(** No block is below itself. *)
Lemma post_below n x orders :
  post n x = Ok (concat orders ++ [x]) -> forall m y ly, ly ∈ orders -> post m y = Ok ly -> x ∉ ly.
Proof.
  intros Hx m y ly Hin Hy Hxy. destruct (post_inside _ _ _ _ Hy Hxy) as (k & lx & Hk & _ & Hlen).
  pose proof (post_unique _ _ _ _ _ Hx Hk) as <-. apply list_elem_of_split in Hin as (o1 & o2 & ->).
  rewrite concat_app, !length_app in Hlen. simpl in Hlen. rewrite length_app in Hlen. lia.
Qed.

(** *** The walk *)

(** The blocks of [l] that are processed have all their blocks in the order. *)
Definition finished (order processed : iset Hash) (l : list Hash) : Prop :=
  forall y, y ∈ iset_list processed -> y ∈ l -> exists m ly, post m y = Ok ly /\ ly ⊆ iset_list order.

(** From a stack [todo ++ s] the walk comes to [s] having added [l]. *)
Definition walks (todo l : list Hash) : Prop :=
  forall order s processed cache, order_coherent cache -> finished order processed l ->
  exists k processed' cache',
    (forall fuel, walk (k + fuel)%nat order (todo ++ s) processed cache =
                  walk fuel (iset_extend order l) s processed' cache') /\
    order_coherent cache' /\ iset_list processed ⊆ iset_list processed' /\
    (forall y, y ∈ iset_list processed' -> y ∈ iset_list processed \/ y ∈ l).

Lemma walk_all n todo orders :
  Forall2 (fun y ly => post n y = Ok ly) todo orders -> (forall y ly, post n y = Ok ly -> walks [y] ly) ->
  walks todo (concat orders).
Proof.
  intros Hf Hone. induction Hf as [|y ly todo orders Hy _ IH]; intros order s processed cache Hc Hfin.
  { exists 0%nat, processed, cache. by auto. }
  destruct (Hone _ _ Hy order (todo ++ s) processed cache Hc) as (k1 & p1 & c1 & H1 & Hc1 & Hsub1 & Hnew1).
  { intros z Hz Hin. apply Hfin; [done|]. simpl. apply elem_of_app. by left. }
  destruct (IH (iset_extend order ly) s p1 c1 Hc1) as (k2 & p2 & c2 & H2 & Hc2 & Hsub2 & Hnew2).
  { intros z Hz Hin. destruct (Hnew1 z Hz) as [Hz'|Hz'].
    - destruct (Hfin z Hz') as (m & lz & Hm & Hsub); [simpl; apply elem_of_app; by right|].
      exists m, lz. split; [done|]. intros w Hw. apply iset_extend_elem. left. by apply Hsub.
    - destruct (post_inside _ _ _ _ Hy Hz') as (m & lz & Hm & Hsub & _). exists m, lz. split; [done|].
      intros w Hw. apply iset_extend_elem. right. by apply Hsub. }
  exists (k1 + k2)%nat, p2, c2. split; [|split; [done|split; [set_solver|]]].
  - intros fuel. simpl in *. rewrite <- Nat.add_assoc, H1, H2, iset_extend_app. done.
  - intros z Hz. simpl. destruct (Hnew2 z Hz) as [Hz'|]; [|set_solver]. destruct (Hnew1 z Hz'); set_solver.
Qed.

Lemma walk_one n x l : post n x = Ok l -> walks [x] l.
Proof.
  revert x l. induction n as [|n IH]; [done|]. intros x l Hl order s processed cache Hc Hfin.
  destruct (decide (x ∈ iset_list processed)) as [Hx|Hx].
  { destruct (post_last _ _ _ Hl) as [l' ->].
    destruct (Hfin x Hx) as (m & lx & Hm & Hsub); [set_solver|].
    pose proof (post_unique _ _ _ _ _ Hl Hm) as <-. exists 1%nat, processed, cache. split; [|auto].
    intros fuel. simpl. unfold iset_contains. rewrite bool_decide_true by done.
    rewrite iset_insert_dup by set_solver. by rewrite iset_extend_old. }
  destruct (lru_get (x, base, base_height) cache) as [[cached|] cache1] eqn:Hget.
  { pose proof (lru_get_some (x, base, base_height) cache cached) as Hheld. rewrite Hget in Hheld.
    destruct (Hc x cached (Hheld eq_refl)) as (m & lx & Hm & ->). pose proof (post_unique _ _ _ _ _ Hl Hm) as <-.
    exists 1%nat, processed, cache1. split_and!; [|..|done|by auto].
    - intros fuel. simpl. unfold iset_contains. rewrite bool_decide_false by done.
      unfold cache_get, mbind, stm_bind. rewrite Hget. by rewrite iset_extend_gathered.
    - intros y o Hy. apply Hc. apply (lru_get_keeps (x, base, base_height)). by rewrite Hget. }
  assert (order_coherent cache1) as Hc1.
  { intros y o Hy. apply Hc. apply (lru_get_keeps (x, base, base_height)). by rewrite Hget. }
  pose proof Hl as Hl'. apply post_cases in Hl' as (tips & Ht & [[Hs ->]|(Hs & scores & orders & Hsc & Hf & ->)]).
  - exists 1%nat, processed, (lru_put (x, base, base_height) (iset_extend iset_new [x]) cache1).
    split_and!; [|by apply (coherent_put _ (Datatypes.S n))|done|by auto].
    intros fuel. simpl. unfold iset_contains. rewrite bool_decide_false by done.
    unfold cache_get, mbind, stm_bind, lift_res, st_modify. rewrite Hget, Ht, Hs.
    change (iset_insert x iset_new).2 with (iset_extend iset_new [x]). by rewrite iset_extend_gathered.
  - destruct (tip_scores_ok _ _ Hsc) as [Hnd _].
    destruct (walk_all _ _ _ Hf IH order (x :: s) (iset_insert x processed).2 cache1 Hc1)
      as (k & p' & c' & Hk & Hc' & Hsub & Hnew).
    { intros z [Hz| ->]%iset_insert_elem Hin; [apply Hfin; [done|set_solver]|].
      apply list_elem_of_In, in_concat in Hin as (ly & Hly%list_elem_of_In & Hin%list_elem_of_In).
      destruct (Forall2_elem_r _ _ _ _ Hf Hly) as (y & _ & Hy).
      by destruct (post_below _ _ _ Hl _ _ _ Hly Hy). }
    assert (x ∈ iset_list p') as Hxp by (apply Hsub, iset_insert_elem; by right).
    exists (Datatypes.S (k + 1)), p', c'. split_and!; [|done| |].
    + intros fuel. cbn [Nat.add full_order_loop app]. unfold iset_contains. rewrite bool_decide_false by done.
      unfold cache_get, mbind, stm_bind, lift_res. rewrite Hget, Ht, Hs, Hsc.
      rewrite push_all, (sort_ascending_reverse scores) by done. rewrite <- Nat.add_assoc, Hk.
      cbn [Nat.add full_order_loop]. unfold iset_contains. rewrite bool_decide_true by done.
      by rewrite iset_extend_app.
    + intros y Hy. apply Hsub, iset_insert_elem. by left.
    + intros y Hy. destruct (Hnew y Hy) as [[?| ->]%iset_insert_elem|?]; set_solver.
Qed.

(** *** The recursive order is topological *)

Abbreviation above t x := (tip_above provider base base_topo_height t x).
Abbreviation below_of hash x := (between provider base base_topo_height hash x).

Lemma concat_split {A} (ls : list (list A)) l1 y l2 :
  concat ls = l1 ++ y :: l2 -> exists o1 a b o2, ls = o1 ++ (a ++ y :: b) :: o2 /\ l1 = concat o1 ++ a.
Proof.
  revert l1. induction ls as [|l ls IH]; intros l1; simpl; [by destruct l1|].
  intros [(k & -> & E)|(k & -> & E)]%app_eq_inv.
  - destruct k as [|z k]; simpl in E.
    + rewrite <- (app_nil_l (y :: l2)) in E. symmetry in E. apply IH in E as (o1 & a & b & o2 & -> & E').
      exists ((l1 ++ []) :: o1), a, b, o2. split; [done|]. simpl. rewrite app_nil_r, <- (assoc_L (++)), <- E'.
      by rewrite app_nil_r.
    + injection E as <- ->. exists [], l1, k, ls. done.
  - apply IH in E as (o1 & a & b & o2 & -> & ->). exists (l :: o1), a, b, o2. split; [done|]. simpl.
    by rewrite (assoc_L (++)).
Qed.

Lemma above_child n x t tips scores orders :
  get_past_blocks_for_block_hash provider x = Ok tips ->
  tip_scores provider base_topo_height (iset_list tips) = Ok scores ->
  Forall2 (fun y ly => post n y = Ok ly) (fst <$> sort_descending_by_cumulative_difficulty scores) orders ->
  above t x -> t ∈ concat orders.
Proof.
  intros Ht Hsc Hf (tips' & Ht' & _ & Hin & Hab%above_base_iff). rewrite Ht in Ht'. injection Ht' as <-.
  destruct (tip_scores_ok _ _ Hsc) as [_ Hel]. assert (t ∈ fst <$> sort_descending_by_cumulative_difficulty scores) as Hc by by apply Hel.
  apply list_elem_of_lookup in Hc as (i & Hi). destruct (Forall2_lookup_l _ _ _ _ _ Hf Hi) as (lt & Hlt & Hp).
  apply list_elem_of_In, in_concat. exists lt. split; apply list_elem_of_In; [by eapply list_elem_of_lookup_2|].
  destruct (post_last _ _ _ Hp) as [l' ->]. set_solver.
Qed.

(** A block comes after its tips. *)
Lemma post_before n x l l1 y l2 t : post n x = Ok l -> l = l1 ++ y :: l2 -> above t y -> t ∈ l1.
Proof.
  revert x l l1 l2. induction n as [|n IH]; [done|]. intros x l l1 l2 Hl E Hab.
  apply post_cases in Hl as (tips & Ht & [[Hs ->]|(Hs & scores & orders & Hsc & Hf & ->)]).
  - destruct l1 as [|? [|? ?]]; [|done..]. injection E as <- <-. destruct Hab as (tips' & Ht' & Hne & Hin & _).
    assert (tips' = tips) as -> by congruence. by rewrite (order_goes_on _ t) in Hs.
  - destruct l2 as [|z l2 _] using rev_ind.
    + apply app_inj_tail in E as [<- <-]. by eapply above_child.
    + replace (l1 ++ y :: l2 ++ [z]) with ((l1 ++ y :: l2) ++ [z]) in E by by rewrite <- (assoc_L (++)).
      apply app_inj_tail in E as [E _]. apply concat_split in E as (o1 & a & b & o2 & -> & ->).
      apply elem_of_app. right. destruct (Forall2_elem_r _ _ _ (a ++ y :: b) Hf) as (c & _ & Hc); [set_solver|].
      by apply (IH c (a ++ y :: b) a b).
Qed.

Lemma between_trans x y z : below_of x y -> below_of y z -> below_of x z.
Proof. intros Hxy. induction 1 as [|y1 t _ IH Ht]; [done|]. by eapply between_tip. Qed.

Lemma post_elem n x l y : post n x = Ok l -> y ∈ l <-> below_of x y.
Proof.
  intros Hl. split.
  - revert x l Hl. induction n as [|n IH]; [done|]. intros x l Hl Hy.
    apply post_cases in Hl as (tips & Ht & [[Hs ->]|(Hs & scores & orders & Hsc & Hf & ->)]).
    { apply list_elem_of_singleton in Hy as ->. constructor. }
    apply elem_of_app in Hy as [Hy| ->%list_elem_of_singleton]; [|constructor].
    apply list_elem_of_In, in_concat in Hy as (lc & Hin%list_elem_of_In & Hy%list_elem_of_In).
    destruct (Forall2_elem_r _ _ _ _ Hf Hin) as (c & Hcin & Hc). apply (between_trans _ c); [|by eapply IH].
    eapply between_tip; [constructor|]. destruct (tip_scores_ok _ _ Hsc) as [_ Hel]. apply Hel in Hcin as [H1 H2%above_base_iff].
    exists tips. split_and!; [done| |done|done]. intros ->. unfold order_stops in Hs.
    by rewrite bool_decide_eq_true_2, orb_true_r in Hs.
  - induction 1 as [|x0 t _ IH Ht].
    + destruct (post_last _ _ _ Hl) as [l' ->]. set_solver.
    + apply list_elem_of_split in IH as (l1 & l2 & E). rewrite E. apply elem_of_app. left. by eapply post_before.
Qed.

(** When the heights of the blocks decrease towards the base, the recursion
    ends. *)
Lemma post_total (rank : Hash -> nat) hash :
  (forall x, below_of hash x -> exists tips, get_past_blocks_for_block_hash provider x = Ok tips /\
     (order_stops base x tips = false ->
      is_ok (tip_scores provider base_topo_height (iset_list tips)) = true /\
      forall t, t ∈ iset_list tips -> (rank t < rank x)%nat)) ->
  exists n l, post n hash = Ok l.
Proof.
  intros Hall. enough (forall r x, (rank x < r)%nat -> below_of hash x -> exists n l, post n x = Ok l) as Hr
    by (apply (Hr (Datatypes.S (rank hash))); [lia|constructor]).
  induction r as [|r IH]; [lia|]. intros x Hx Hb. destruct (Hall x Hb) as (tips & Ht & Hok).
  destruct (order_stops base x tips) eqn:Hs.
  { exists 1%nat, [x]. by rewrite post_step, Ht; cbn [mbind res_bind]; rewrite Hs. }
  destruct (Hok eq_refl) as [Hsc Hrank].
  destruct (tip_scores provider base_topo_height (iset_list tips)) as [scores| | |] eqn:Esc; try done.
  destruct (tip_scores_ok _ _ Esc) as [_ Hel].
  assert (exists n orders, mapMr (fun y => post n y) (fst <$> sort_descending_by_cumulative_difficulty scores) = Ok orders)
    as (n & orders & Ho).
  { assert (forall t, t ∈ fst <$> sort_descending_by_cumulative_difficulty scores -> exists n l, post n t = Ok l) as Hch.
    { intros t [Hin Hab]%Hel. apply IH; [specialize (Hrank t Hin); lia|]. eapply between_tip; [done|].
      exists tips. apply above_base_iff in Hab. split_and!; [done| |done|done]. intros ->. unfold order_stops in Hs.
      by rewrite bool_decide_eq_true_2, orb_true_r in Hs. }
    clear Hel. induction (fst <$> _) as [|c cs IHc]; [by exists 0%nat, []|].
    destruct IHc as (n1 & os & Hos); [set_solver|]. destruct (Hch c ltac:(left)) as (n2 & lc & Hc).
    exists (n1 + n2)%nat, (lc :: os). cbn [mapMr]. rewrite (post_mono n2 (n1 + n2) c lc Hc) by lia. cbn [mbind res_bind].
    apply mapMr_Forall2 in Hos. assert (mapMr (fun y => post (n1 + n2)%nat y) cs = Ok os) as ->; [|done].
    apply mapMr_Forall2. apply (list.Forall2_impl _ _ _ _ Hos). intros y ly Hy. apply (post_mono n1); [done|lia]. }
  exists (Datatypes.S n), (concat orders ++ [x]). rewrite post_step, Ht. cbn [mbind res_bind]. rewrite Hs, Esc.
  cbn [mbind res_bind]. by rewrite Ho.
Qed.

Lemma generate_post n hash l cache :
  order_coherent cache -> post n hash = Ok l ->
  exists k cache', (forall fuel, (k <= fuel)%nat ->
      generate_full_order fuel provider hash base base_height base_topo_height cache = (Ok (iset_extend iset_new l), cache')) /\
    order_coherent cache'.
Proof.
  intros Hc Hl. destruct (walk_one n hash l Hl iset_new [] iset_new cache Hc) as (k & p' & c' & Hk & Hc' & _).
  { intros y Hy. rewrite iset_new_spec in Hy. set_solver. }
  exists k, (lru_put (hash, base, base_height) (iset_extend iset_new l) c'). split; [|by apply (coherent_put _ n)].
  intros fuel Hf. replace fuel with (k + (fuel - k))%nat by lia. unfold generate_full_order.
  unfold mbind at 1, stm_bind. cbn [app] in Hk. rewrite Hk. destruct (fuel - k)%nat; done.
Qed.

Lemma order_last n hash l : post n hash = Ok l -> list.last (iset_list (iset_extend iset_new l)) = Some hash.
Proof.
  intros Hl. destruct n as [|n]; [done|]. pose proof Hl as Hl'.
  assert (exists l', l = l' ++ [hash] /\ hash ∉ l') as (l' & -> & Hnin).
  { apply post_cases in Hl' as (tips & Ht & [[Hs ->]|(Hs & scores & orders & Hsc & Hf & ->)]).
    - exists []. split; [done|set_solver].
    - exists (concat orders). split; [done|]. intros Hin.
      apply list_elem_of_In, in_concat in Hin as (ly & Hly%list_elem_of_In & Hin%list_elem_of_In).
      destruct (Forall2_elem_r _ _ _ _ Hf Hly) as (y & _ & Hy). by destruct (post_below _ _ _ Hl _ _ _ Hly Hy). }
  rewrite iset_extend_app. cbn [iset_extend foldl].
  destruct (iset_insert_fresh hash (iset_extend iset_new l')) as (s' & -> & Hs').
  { rewrite iset_extend_elem, iset_new_spec. set_solver. }
  simpl. rewrite Hs'. apply last_snoc.
Qed.
End Walk.

(** ** Properties *)
Section Properties.
Context {UL : U256Lib} {IS : IndexSetLib Hash} {S : Type} {DP : DifficultyProvider S} {DO : DagOrderProvider S}.
Context {LR : LruLib (Hash * Hash * Z) (iset Hash)}.

(** C21: the walk with an explicit stack, blocks put back under their tips and
    orders taken from the cache computes the recursive order (the orders of the
    tips, the heaviest first, then the block), each block at its first place;
    and the cache stays right. *)
Theorem full_order_equiv (provider : S) (hash base : Hash) (base_height base_topo_height : Z)
    (cache : lru (Hash * Hash * Z) (iset Hash)) (n : nat) (l : list Hash)
    (Hc : order_coherent provider base base_height base_topo_height cache)
    (Hl : post_order n provider base base_topo_height hash = Ok l) :
  exists k cache', (forall fuel, (k <= fuel)%nat ->
      generate_full_order fuel provider hash base base_height base_topo_height cache =
        (Ok (iset_extend iset_new l), cache')) /\
    order_coherent provider base base_height base_topo_height cache'.
Proof. by eapply generate_post. Qed.

(** C20: the order of the DAG.  When the heights of the blocks decrease along
    their tips, the walk ends, and the order it returns holds each block
    between the base and the best tip once, every block after all its tips
    above the base, and the best tip last. *)
Theorem full_order_topological (provider : S) (hash base : Hash) (base_height base_topo_height : Z)
    (cache : lru (Hash * Hash * Z) (iset Hash)) (height : Hash -> nat)
    (Hc : order_coherent provider base base_height base_topo_height cache)
    (Hdag : forall x, between provider base base_topo_height hash x ->
       exists tips, get_past_blocks_for_block_hash provider x = Ok tips /\
         (order_stops base x tips = false ->
          is_ok (tip_scores provider base_topo_height (iset_list tips)) = true /\
          forall t, t ∈ iset_list tips -> (height t < height x)%nat)) :
  exists order k cache', (forall fuel, (k <= fuel)%nat ->
      generate_full_order fuel provider hash base base_height base_topo_height cache = (Ok order, cache')) /\
    list.last (iset_list order) = Some hash /\
    (forall x, x ∈ iset_list order <-> between provider base base_topo_height hash x) /\
    (forall before x after t, iset_list order = before ++ x :: after ->
       tip_above provider base base_topo_height t x -> t ∈ before).
Proof.
  destruct (post_total provider base base_topo_height height hash Hdag) as (n & l & Hl).
  destruct (generate_post provider base base_height base_topo_height n hash l cache Hc Hl) as (k & cache' & Hk & _).
  exists (iset_extend iset_new l), k, cache'. split_and!; [done|by eapply order_last| |].
  - intros x. rewrite iset_extend_elem, iset_new_spec, <- (post_elem _ _ _ _ _ _ _ Hl). set_solver.
  - intros f1 x f2 t E Hab. apply iset_extend_split in E as (l1 & l2 & E & Hsub). apply Hsub. by eapply post_before.
Qed.
End Properties.

(** ** Witnesses: two blocks on the genesis and one on both *)

#[local] Existing Instances u256_model iset_model.
#[local] Instance order_lru : LruLib (Hash * Hash * Z) (iset Hash) := lru_model _ _.

Definition g_hash (n : Z) : Hash := mkHash (vinsert 31%fin (to_byte n) (vreplicate 32 x00)).
Definition g_tips (h : Hash) : list Hash :=
  if decide (h = g_hash 4) then [g_hash 2; g_hash 3]
  else if decide (h = g_hash 2) then [g_hash 1]
  else if decide (h = g_hash 3) then [g_hash 1] else [].
Definition g_height (h : Hash) : nat :=
  if decide (h = g_hash 4) then 2 else if decide (h = g_hash 2) then 1 else if decide (h = g_hash 3) then 1 else 0.

Definition g_header (h : Hash) : BlockHeader :=
  mkHeader 0 (iset_extend iset_new (g_tips h)) (Z.of_nat (g_height h)) (Z.of_nat (g_height h)) 0 (vreplicate 32 x00)
    (mkPublicKey (mkRistretto (vreplicate 32 x00))) iset_new.

#[local] Instance g_difficulties : DifficultyProvider unit := {|
  get_height_for_block_hash _ h := Ok (Z.of_nat (g_height h));
  get_timestamp_for_block_hash _ h := Ok (Z.of_nat (g_height h));
  get_difficulty_for_block_hash _ h := Ok (VarUint.from_u64 1);
  get_cumulative_difficulty_for_block_hash _ h := Ok (VarUint.from_u64 (if decide (h = g_hash 3) then 9 else 5));
  get_past_blocks_for_block_hash _ h := Ok (iset_extend iset_new (g_tips h));
  get_block_header_by_hash _ h := Ok (g_header h);
  get_estimated_covariance_for_block_hash _ _ := Ok VarUint.zero;
  set_cumulative_difficulty_for_block_hash _ _ := mret tt;
|}.
#[local] Instance g_order : DagOrderProvider unit := {|
  get_topo_height_for_hash _ h := Ok 0;
  get_hash_at_topo_height _ t := Ok (g_hash 1);
  is_block_topological_ordered _ h := Ok (bool_decide (h = g_hash 1));
  set_topo_height_for_block _ _ := mret tt;
|}.

Lemma g_coherent n : order_coherent tt (g_hash 1) 0 0 (lru_new n).
Proof. by intros x order ?%lru_new_spec. Qed.

Lemma full_order_equiv_witness :
  exists k cache', (forall fuel, (k <= fuel)%nat ->
      generate_full_order fuel tt (g_hash 4) (g_hash 1) 0 0 (lru_new 0) =
        (Ok (iset_extend iset_new [g_hash 1; g_hash 3; g_hash 1; g_hash 2; g_hash 4]), cache')) /\
    order_coherent tt (g_hash 1) 0 0 cache'.
Proof.
  apply (full_order_equiv tt (g_hash 4) (g_hash 1) 0 0 (lru_new 0) 4 _ (g_coherent 0)). vm_compute. reflexivity.
Defined.

Lemma g_heights x : Forall (fun t => (g_height t < g_height x)%nat) (g_tips x).
Proof.
  unfold g_tips. destruct (decide (x = g_hash 4)) as [->|]; [|destruct (decide (x = g_hash 2)) as [->|];
    [|destruct (decide (x = g_hash 3)) as [->|]; [|constructor]]]; repeat constructor; vm_compute; lia.
Qed.
Lemma g_scored x : is_ok (tip_scores tt 0 (iset_list (iset_extend iset_new (g_tips x)))) = true.
Proof. unfold g_tips. repeat case_decide; vm_compute; reflexivity. Qed.
Lemma g_dag (x : Hash) : exists tips, get_past_blocks_for_block_hash tt x = Ok tips /\
  (order_stops (g_hash 1) x tips = false ->
   is_ok (tip_scores tt 0 (iset_list tips)) = true /\ forall t, t ∈ iset_list tips -> (g_height t < g_height x)%nat).
Proof.
  eexists. split; [done|]. intros _. split; [apply g_scored|]. intros t [Ht|Ht]%iset_extend_elem.
  - rewrite iset_new_spec in Ht. set_solver.
  - exact (proj1 (list.Forall_forall _ _) (g_heights x) t Ht).
Qed.

Lemma full_order_topological_witness :
  exists order k cache', (forall fuel, (k <= fuel)%nat ->
      generate_full_order fuel tt (g_hash 4) (g_hash 1) 0 0 (lru_new 0) = (Ok order, cache')) /\
    list.last (iset_list order) = Some (g_hash 4).
Proof.
  destruct (full_order_topological tt (g_hash 4) (g_hash 1) 0 0 (lru_new 0) g_height (g_coherent 0) (fun x _ => g_dag x))
    as (order & k & cache' & H1 & H2 & _).
  exists order, k, cache'. split; [exact H1|exact H2].
Defined.
