(* ===== verification/DagWalks.v ===== *)
(** The walks over the DAG of [core/blockchain.rs]: the work of a tip, the best
    tip, the reachability of a tip from another, the distance from the main
    chain.

    Each is a depth-first walk with an explicit stack along the tips of the
    blocks.  The heights of the blocks decrease along their tips, so that a
    walk is a walk in a finite tree; [tree_sizes] turns that into fuel that is
    enough. *)

From S2P Require Import Prelude External ExternalModel ExternalCrypto Serializer Hash VarUint Elgamal Block Errors Dag Providers DagOrder.

(** [STABLE_LIMIT] of [config.rs] *)
Definition STABLE_LIMIT : Z := 8.

(** ** Walks over a well-founded graph *)
Section Trees.
Context {A : Type} (next : A -> list A) (rank : A -> nat).

(** The number of paths that leave [x]. *)
Fixpoint tree_size (n : nat) (x : A) : nat :=
  match n with
  | O => O
  | Datatypes.S n => Datatypes.S (sum_list_with (tree_size n) (next x))
  end.

Lemma sum_list_with_ext (f g : A -> nat) l :
  (forall x, x ∈ l -> f x = g x) -> sum_list_with f l = sum_list_with g l.
Proof.
  induction l as [|x l IH]; [done|]. intros Hfg. cbn. rewrite (Hfg x) by left. rewrite IH; [done|]. set_solver.
Qed.

Lemma sum_list_with_filter (f : A -> nat) (P : A -> Prop) `{!forall x, Decision (P x)} l :
  (sum_list_with f (filter P l) <= sum_list_with f l)%nat.
Proof. induction l as [|x l IH]; [done|]. rewrite filter_cons. case_decide; cbn; lia. Qed.

Context (Hrank : forall x t, t ∈ next x -> (rank t < rank x)%nat).

Lemma tree_size_stable n m x :
  (rank x < n)%nat -> (rank x < m)%nat -> tree_size n x = tree_size m x.
Proof using Hrank.
  revert m x. induction n as [|n IH]; [lia|]. intros [|m] x Hn Hm; [lia|]. cbn [tree_size].
  f_equal. apply sum_list_with_ext. intros t Ht. pose proof (Hrank x t Ht). apply IH; lia.
Qed.

(** A size that decreases when a block is replaced by its tips. *)
Lemma tree_sizes : exists size : A -> nat, forall x, (sum_list_with size (next x) < size x)%nat.
Proof using Hrank.
  exists (fun x => tree_size (Datatypes.S (rank x)) x). intros x. cbn [tree_size].
  enough (sum_list_with (fun t => tree_size (Datatypes.S (rank t)) t) (next x) =
          sum_list_with (tree_size (rank x)) (next x)) as E by (cbn [tree_size] in E; lia).
  apply sum_list_with_ext. intros t Ht. pose proof (Hrank x t Ht). apply tree_size_stable; lia.
Qed.
End Trees.

Section Walks.
Context {UL : U256Lib} {IS : IndexSetLib Hash} {HM : HashMapIter}.
Context {S : Type} {DP : DifficultyProvider S} {DO : DagOrderProvider S}.

(** ** The work of a tip *)
Section Work.
Context {LR : LruLib (Hash * Hash * Z) (gset Hash * VarUint.t)}.

(** [tip_work_score_cache] *)
Abbreviation WorkCache := (lru (Hash * Hash * Z) (gset Hash * VarUint.t)).

Definition work_cache_get (key : Hash * Hash * Z) : stm WorkCache blockchain_error (option (gset Hash * VarUint.t)) :=
  fun cache => let '(found, cache) := lru_get key cache in (Ok found, cache).

(** The tips above the base that have no score yet. *)
Definition push_unscored (provider : S) (base_topoheight : Z) (map : gmap Hash VarUint.t) (stack tips : list Hash)
  : bres (list Hash) :=
  foldM (fun stack tip_hash =>
    if decide (is_Some (map !! tip_hash)) then Ok stack
    else
      above ← above_base provider base_topoheight tip_hash;
      Ok (if (above : bool) then tip_hash :: stack else stack)) stack tips.

(** The loop; the head of the list is the back of the [VecDeque]. *)
Fixpoint work_loop (fuel : nat) (provider : S) (map : gmap Hash VarUint.t) (base_topoheight : Z) (stack : list Hash)
  : bres (gmap Hash VarUint.t) :=
  match stack with
  | [] => Ok map
  | current_hash :: stack =>
      match fuel with
      | O => Diverge
      | Datatypes.S fuel =>
          tips ← get_past_blocks_for_block_hash provider current_hash;
          stack ← push_unscored provider base_topoheight map stack (iset_list tips);
          map ← match map !! current_hash with
                | Some _ => Ok map
                | None => difficulty ← get_difficulty_for_block_hash provider current_hash;
                          Ok (<[current_hash := difficulty]> map)
                end;
          work_loop fuel provider map base_topoheight stack
      end
  end.

Definition find_tip_work_score_internal (fuel : nat) (provider : S) (map : gmap Hash VarUint.t) (hash : Hash)
    (base_topoheight : Z) : bres (gmap Hash VarUint.t) :=
  work_loop fuel provider map base_topoheight [hash].

(** The scores of what is under the tips of the block. *)
Definition tips_work (fuel : nat) (provider : S) (base_topoheight : Z) (tips : list Hash)
  : bres (gmap Hash VarUint.t) :=
  foldM (fun map hash =>
    if decide (is_Some (map !! hash)) then Ok map
    else
      above ← above_base provider base_topoheight hash;
      if (above : bool) then find_tip_work_score_internal fuel provider map hash base_topoheight else Ok map) ∅ tips.

(** [for (hash, value) in map { set.insert(hash); score += value; }] *)
Definition sum_scores (map : gmap Hash VarUint.t) : bres (gset Hash * VarUint.t) :=
  foldM (fun '(set, score) '(hash, value) =>
    score ← VarUint.add score value;
    Ok ({[hash]} ∪ set, score)) (∅, VarUint.zero) (hm_iter map).

(** The work and the blocks it is the work of, when they are not in the cache. *)
Definition tip_work (fuel : nat) (provider : S) (hash base : Hash) : bres (gset Hash * VarUint.t) :=
  block ← get_block_header_by_hash provider hash;
  base_topoheight ← get_topo_height_for_hash provider base;
  map ← tips_work fuel provider base_topoheight (iset_list block.(bh_tips));
  map ← (if decide (base <> hash) then
           cumulative ← get_cumulative_difficulty_for_block_hash provider base;
           Ok (<[base := cumulative]> map)
         else Ok map);
  difficulty ← get_difficulty_for_block_hash provider hash;
  sum_scores (<[hash := difficulty]> map).

Definition find_tip_work_score (fuel : nat) (provider : S) (hash base : Hash) (base_height : Z)
  : stm WorkCache blockchain_error (gset Hash * VarUint.t) :=
  cached ← work_cache_get (hash, base, base_height);
  match cached with
  | Some value => mret value
  | None =>
      value ← lift_res (tip_work fuel provider hash base);
      _ ← st_modify (lru_put (hash, base, base_height) value);
      mret value
  end.

(** [find_best_tip]: the tip with the most work. *)
Definition find_best_tip (fuel : nat) (storage : S) (tips : gset Hash) (base : Hash) (base_height : Z)
  : stm WorkCache blockchain_error Hash :=
  if (base.size tips =? 0)%nat then st_err BlockchainError.ExpectedTips
  else
    scores ← foldMs (fun scores hash =>
      '(_, cumulative_difficulty) ← find_tip_work_score fuel storage hash base base_height;
      mret (scores ++ [(hash, cumulative_difficulty)])) [] (hs_iter tips);
    match sort_descending_by_cumulative_difficulty scores with
    | (best_tip, _) :: _ => mret best_tip
    | [] => lift_res Panic
    end.
End Work.

(** ** Reachability of a tip from another *)

Definition LEVEL_LIMIT : Z := 2 * STABLE_LIMIT.

(** The tips that are not visited yet, one level further. *)
Definition push_past (set : gset Hash) (current_level : Z) (stack : list (Hash * Z)) (tips : list Hash)
  : list (Hash * Z) :=
  foldl (fun stack past_hash =>
    if decide (past_hash ∈ set) then stack else (past_hash, u64_add current_level 1) :: stack) stack tips.

Fixpoint reachability_loop (fuel : nat) (storage : S) (set : gset Hash) (stack : list (Hash * Z))
  : bres (gset Hash) :=
  match stack with
  | [] => Ok set
  | (current_hash, current_level) :: stack =>
      match fuel with
      | O => Diverge
      | Datatypes.S fuel =>
          if LEVEL_LIMIT <=? current_level then
            reachability_loop fuel storage ({[current_hash]} ∪ set) stack
          else
            tips ← get_past_blocks_for_block_hash storage current_hash;
            let set := {[current_hash]} ∪ set in
            reachability_loop fuel storage set (push_past set current_level stack (iset_list tips))
      end
  end.

Definition build_reachability (fuel : nat) (storage : S) (hash : Hash) : bres (gset Hash) :=
  reachability_loop fuel storage ∅ [(hash, 0)].

(** The pairs [(i, j)] in the order of the two loops. *)
Definition verify_non_reachability (fuel : nat) (storage : S) (tips : iset Hash) : bres bool :=
  reach ← mapMr (fun hash => build_reachability fuel storage hash) (iset_list tips);
  let l := iset_list tips in
  Ok (forallb (fun i => forallb (fun j =>
        match l !! i, reach !! j with
        | Some tip, Some set => negb (negb (i =? j)%nat && bool_decide (tip ∈ set))
        | _, _ => true
        end) (seq 0 (length l))) (seq 0 (length l))).

(** ** Distance from the main chain *)

(** What [find_lowest_height_from_mainchain] does with one tip. *)
Definition visit_tip (provider : S) (acc : Z * list Hash) (tip_hash : Hash) : bres (Z * list Hash) :=
  let '(lowest_height, stack) := acc in
  is_ordered ← is_block_topological_ordered provider tip_hash;
  if (is_ordered : bool) then
    height ← get_height_for_block_hash provider tip_hash;
    Ok (if height <? lowest_height then height else lowest_height, stack)
  else Ok (lowest_height, tip_hash :: stack).

Fixpoint lowest_height_loop (fuel : nat) (provider : S) (lowest_height : Z) (processed : gset Hash) (stack : list Hash)
  : bres Z :=
  match stack with
  | [] => Ok lowest_height
  | current_hash :: stack =>
      match fuel with
      | O => Diverge
      | Datatypes.S fuel =>
          if decide (current_hash ∈ processed) then lowest_height_loop fuel provider lowest_height processed stack
          else
            tips ← get_past_blocks_for_block_hash provider current_hash;
            '(lowest_height, stack) ← foldM (visit_tip provider) (lowest_height, stack) (iset_list tips);
            lowest_height_loop fuel provider lowest_height ({[current_hash]} ∪ processed) stack
      end
  end.

Definition find_lowest_height_from_mainchain (fuel : nat) (provider : S) (hash : Hash) : bres Z :=
  lowest_height_loop fuel provider u64_max ∅ [hash].

Definition calculate_distance_from_mainchain (fuel : nat) (provider : S) (hash : Hash) : bres Z :=
  is_ordered ← is_block_topological_ordered provider hash;
  if (is_ordered : bool) then get_height_for_block_hash provider hash
  else find_lowest_height_from_mainchain fuel provider hash.
End Walks.

(** ** The graph *)
Section Graph.
Context {UL : U256Lib} {IS : IndexSetLib Hash} {S : Type} {DP : DifficultyProvider S} {DO : DagOrderProvider S}.

(** The tips of a stored block. *)
Definition tips_of (provider : S) (x : Hash) : list Hash :=
  match get_past_blocks_for_block_hash provider x with
  | Ok tips => iset_list tips
  | _ => []
  end.

(** The blocks form a DAG: the heights decrease along the tips. *)
Definition dag (provider : S) (height : Hash -> nat) : Prop :=
  forall x t, t ∈ tips_of provider x -> (height t < height x)%nat.

(** From a block to its tips above the base. *)
Definition above_step (provider : S) (base_topoheight : Z) (x t : Hash) : Prop :=
  t ∈ tips_of provider x /\ not_below_base provider base_topoheight t.

(** What a walk reads of a block can be read. *)
Definition readable_block (provider : S) (base_topoheight : Z) (x : Hash) : Prop :=
  is_ok (get_past_blocks_for_block_hash provider x) = true /\
  is_ok (get_difficulty_for_block_hash provider x) = true /\
  forall t, t ∈ tips_of provider x -> is_ok (above_base provider base_topoheight t) = true.

Lemma readable_tips provider base_topoheight x :
  readable_block provider base_topoheight x ->
  exists tips, get_past_blocks_for_block_hash provider x = Ok tips /\ tips_of provider x = iset_list tips.
Proof. unfold tips_of. intros [H _]. destruct (get_past_blocks_for_block_hash provider x); naive_solver. Qed.

(** *** The work of a tip *)
Section Work.
Context (provider : S) (base_topoheight : Z).
Implicit Types map : gmap Hash VarUint.t.

Abbreviation step := (above_step provider base_topoheight).

Lemma push_unscored_spec map stack tips (size : Hash -> nat) :
  (forall t, t ∈ tips -> is_ok (above_base provider base_topoheight t) = true) ->
  exists new, push_unscored provider base_topoheight map stack tips = Ok (new ++ stack) /\
    (sum_list_with size new <= sum_list_with size tips)%nat /\
    forall t, t ∈ new <-> t ∈ tips /\ map !! t = None /\ not_below_base provider base_topoheight t.
Proof.
  revert stack. induction tips as [|t tips IH]; intros stack Hok; cbn [push_unscored foldM].
  { exists []. split; [done|]. split; [done|]. set_solver. }
  destruct (IH (if decide (is_Some (map !! t)) then stack else
     match above_base provider base_topoheight t with Ok true => t :: stack | _ => stack end)) as (new & E & Hsz & Hel);
    [set_solver|]. unfold push_unscored in E.
  destruct (decide (is_Some (map !! t))) as [Hs|Hs].
  - exists new. cbn [mbind res_bind]. rewrite E. split; [done|]. cbn. split; [lia|]. intros t'.
    rewrite Hel, list.elem_of_cons. split; [naive_solver|]. intros ([->|] & Hn & ?); [|done].
    rewrite Hn in Hs. by destruct Hs.
  - specialize (Hok t ltac:(left)). apply eq_None_not_Some in Hs.
    pose proof (above_base_iff provider base_topoheight t) as Hb.
    destruct (above_base provider base_topoheight t) as [[]| | |]; try done; cbn [mbind res_bind]; rewrite E.
    + exists (new ++ [t]). rewrite <- (assoc_L (++)). split; [done|].
      rewrite sum_list_with_app. cbn. split; [lia|]. set_solver.
    + exists new. split; [done|]. cbn. split; [lia|]. intros t'. rewrite Hel, list.elem_of_cons.
      split; [naive_solver|]. intros ([->|] & ? & Hn); [|done]. by apply Hb in Hn.
Qed.

(** The invariant of the walk from [root]: what is scored is under the root,
    with its own difficulty, and its tips above the base are scored or wait on
    the stack. *)
Record work_inv (cone : Hash -> Prop) map (stack : list Hash) : Prop := {
  work_cone x : is_Some (map !! x) -> cone x;
  work_stack x : x ∈ stack -> cone x;
  work_weight x d : map !! x = Some d -> get_difficulty_for_block_hash provider x = Ok d;
  work_closed x t : is_Some (map !! x) -> step x t -> is_Some (map !! t) \/ t ∈ stack;
}.

Lemma work_loop_total cone (size : Hash -> nat) fuel map stack :
  (forall x, (sum_list_with size (tips_of provider x) < size x)%nat) ->
  (forall x, cone x -> readable_block provider base_topoheight x) ->
  (forall x t, cone x -> step x t -> cone t) ->
  (sum_list_with size stack <= fuel)%nat ->
  work_inv cone map stack ->
  exists map', work_loop fuel provider map base_topoheight stack = Ok map' /\
    work_inv cone map' [] /\ map ⊆ map' /\ forall x, x ∈ stack -> is_Some (map' !! x).
Proof.
  intros Hsize Hread Hcone. revert map stack.
  induction fuel as [|fuel IH]; intros map [|x stack] Hf Hinv; cbn [work_loop]; cbn [sum_list_with] in Hf.
  - exists map. split_and!; [done|done|done|set_solver].
  - specialize (Hsize x). lia.
  - exists map. split_and!; [done|done|done|set_solver].
  - assert (cone x) as Hx by (apply (work_stack _ _ _ Hinv); left).
    pose proof (Hread x Hx) as Hrx. destruct (readable_tips _ _ _ Hrx) as (tips & Ht & Et).
    destruct Hrx as (_ & Hd & Hab). rewrite Ht. cbn [mbind res_bind].
    rewrite Et in Hab. destruct (push_unscored_spec map stack (iset_list tips) size Hab) as (new & -> & Hsz & Hel).
    cbn [mbind res_bind]. specialize (Hsize x). rewrite Et in Hsize.
    assert (forall t, t ∈ new -> step x t) as Hnew by (intros t (? & _ & ?)%Hel; split; [by rewrite Et|done]).
    assert (exists map1, (match map !! x with Some _ => Ok map
       | None => difficulty ← get_difficulty_for_block_hash provider x; Ok (<[x := difficulty]> map) end) = @Ok blockchain_error _ map1 /\
       map ⊆ map1 /\ is_Some (map1 !! x) /\ forall y d, map1 !! y = Some d ->
         map !! y = Some d \/ y = x /\ get_difficulty_for_block_hash provider x = Ok d) as (map1 & -> & Hsub & Hsx & Hm1).
    { destruct (map !! x) as [d|] eqn:Em; [by exists map; eauto|].
      destruct (get_difficulty_for_block_hash provider x) as [d| | |]; try done. cbn [mbind res_bind].
      exists (<[x := d]> map). split; [done|]. split; [by apply insert_subseteq|]. split; [by rewrite lookup_insert_eq|].
      intros y d' [[<- <-]|[? ?]]%lookup_insert_Some; auto. }
    cbn [mbind res_bind]. destruct (IH map1 (new ++ stack)) as (map' & -> & Hinv' & Hsub' & Hall).
    + rewrite sum_list_with_app. lia.
    + split.
      * intros y [d [Hy|[-> _]]%Hm1]; [|done]. apply (work_cone _ _ _ Hinv). eauto.
      * intros y [Hy|Hy]%elem_of_app; [by eapply Hcone, Hnew|]. apply (work_stack _ _ _ Hinv). by right.
      * intros y d [Hy|[-> Hy]]%Hm1; [by apply (work_weight _ _ _ Hinv)|done].
      * intros y t [d [Hy|[-> _]]%Hm1] Hst.
        -- destruct (work_closed _ _ _ Hinv y t) as [[dt Hdt]|[->|Ht']%list.elem_of_cons]; [eauto|done| | |].
           ++ left. exists dt. by eapply lookup_weaken.
           ++ by left.
           ++ right. set_solver.
        -- destruct (map !! t) as [dt|] eqn:Et'.
           ++ left. exists dt. by eapply lookup_weaken.
           ++ right. apply elem_of_app. left. apply Hel. destruct Hst as [H1 H2]. by rewrite Et in H1.
    + exists map'. split; [done|]. split; [done|]. split; [by etrans|].
      intros y [->|Hy]%list.elem_of_cons; [|apply Hall; set_solver].
      destruct Hsx as [d Hd']. exists d. by eapply lookup_weaken.
Qed.

(** What is under the tips of [root] above the base. *)
Definition under (root x : Hash) : Prop := exists t, step root t /\ rtc step t x.

Lemma under_step root x t : under root x -> step x t -> under root t.
Proof. intros (r & Hr & Hx) Hst. exists r. split; [done|]. eapply rtc_r; done. Qed.

Lemma under_rtc root x : rtc step root x <-> x = root \/ under root x.
Proof.
  split.
  - intros [->|(y & Hy & Hz)]%rtc_inv; [by left|]. right. by exists y.
  - intros [->|(t & Ht & Hx)]; [constructor|]. by eapply rtc_l.
Qed.

Lemma work_inv_closed cone map x y : work_inv cone map [] -> is_Some (map !! x) -> rtc step x y -> is_Some (map !! y).
Proof.
  intros Hinv Hx. induction 1 as [|x t y Hst _ IH]; [done|]. apply IH.
  destruct (work_closed _ _ _ Hinv x t Hx Hst) as [|Hin]; [done|]. by apply not_elem_of_nil in Hin.
Qed.

Lemma tips_work_total (size : Hash -> nat) fuel root tips :
  (forall x, (sum_list_with size (tips_of provider x) < size x)%nat) ->
  (forall x, under root x -> readable_block provider base_topoheight x) ->
  (forall t, t ∈ tips -> is_ok (above_base provider base_topoheight t) = true) ->
  tips_of provider root = tips ->
  (sum_list_with size tips <= fuel)%nat ->
  exists map, tips_work fuel provider base_topoheight tips = Ok map /\
    (forall x, is_Some (map !! x) <-> under root x) /\
    forall x d, map !! x = Some d -> get_difficulty_for_block_hash provider x = Ok d.
Proof.
  intros Hsize Hread Hok Htips Hfuel.
  enough (forall l map, l ⊆ tips -> (sum_list_with size l <= fuel)%nat -> work_inv (under root) map [] ->
    exists map', foldM (fun map hash =>
      if decide (is_Some (map !! hash)) then Ok map
      else
        above ← above_base provider base_topoheight hash;
        if (above : bool) then find_tip_work_score_internal fuel provider map hash base_topoheight else Ok map) map l
        = @Ok blockchain_error _ map' /\ work_inv (under root) map' [] /\ map ⊆ map' /\
      forall t, t ∈ l -> not_below_base provider base_topoheight t -> is_Some (map' !! t)) as Hloop.
  { destruct (Hloop tips ∅) as (map & Hm & Hinv & _ & Hin); [done|done| |].
    - split; intros x; [intros [? ?]|intros ?|intros d ?|intros t [? ?]]; set_solver.
    - exists map. split; [exact Hm|]. split; [|apply (work_weight _ _ _ Hinv)].
      intros x. split; [apply (work_cone _ _ _ Hinv)|]. intros (t & [Ht Hab] & Hx).
      eapply work_inv_closed; [done| |done]. apply Hin; [|done]. by rewrite Htips in Ht. }
  intros l. induction l as [|t l IH]; intros map Hsub Hf Hinv; cbn [foldM].
  { exists map. split_and!; [done|done|done|set_solver]. }
  cbn in Hf. assert (t ∈ tips) as Hin by set_solver. specialize (Hok t Hin).
  assert (exists map1, (if decide (is_Some (map !! t)) then Ok map
      else
        above ← above_base provider base_topoheight t;
        if (above : bool) then find_tip_work_score_internal fuel provider map t base_topoheight else Ok map)
        = @Ok blockchain_error _ map1 /\ work_inv (under root) map1 [] /\ map ⊆ map1 /\
        (not_below_base provider base_topoheight t -> is_Some (map1 !! t))) as (map1 & -> & Hinv1 & Hsub1 & Ht1).
  { case_decide as Hs; [by exists map|].
    pose proof (above_base_iff provider base_topoheight t) as Hb.
    destruct (above_base provider base_topoheight t) as [[]| | |]; try done; cbn [mbind res_bind].
    - destruct (work_loop_total (under root) size fuel map [t] Hsize Hread (under_step root)) as (map1 & Hm1 & ? & ? & Hall).
      + cbn. lia.
      + split.
        * apply (work_cone _ _ _ Hinv).
        * intros x ->%list_elem_of_singleton. exists t. split; [|constructor]. split; [by rewrite Htips|by apply Hb].
        * apply (work_weight _ _ _ Hinv).
        * intros x y Hx Hy. left. eapply work_inv_closed; [done..|]. by apply rtc_once.
      + exists map1. split; [exact Hm1|]. split_and!; [done|done|]. intros _. apply Hall. left.
    - exists map. split_and!; [done..|]. intros Hn. by apply Hb in Hn. }
  cbn [mbind res_bind]. destruct (IH map1) as (map' & Hm' & Hinv' & Hsub' & Hall); [set_solver|lia|done|].
  exists map'. split; [exact Hm'|]. split; [done|]. split; [by etrans|].
  intros y [->|Hy]%list.elem_of_cons Hab; [|by apply Hall].
  destruct (Ht1 Hab) as [d Hd]. exists d. by eapply lookup_weaken.
Qed.
End Work.
End Graph.

(** ** Sums of difficulties *)
Section Sums.
Context {UL : U256Lib} {HM : HashMapIter}.

Definition sumZ {A} (f : A -> Z) (l : list A) : Z := foldr (fun x acc => f x + acc) 0 l.

Lemma sumZ_Permutation {A} (f : A -> Z) l l' : l ≡ₚ l' -> sumZ f l = sumZ f l'.
Proof. unfold sumZ. induction 1; cbn in *; lia. Qed.

Lemma sumZ_fmap {A B} (f : B -> Z) (g : A -> B) l : sumZ f (g <$> l) = sumZ (fun x => f (g x)) l.
Proof. unfold sumZ in *. induction l as [|x l IH]; [done|]. cbn in *. by rewrite IH. Qed.

Lemma sumZ_ext {A} (f g : A -> Z) l : (forall x, x ∈ l -> f x = g x) -> sumZ f l = sumZ g l.
Proof. induction l as [|x l IH]; intros Hfg; [done|]. unfold sumZ in *. cbn. rewrite (Hfg x) by left. f_equal. apply IH. set_solver. Qed.

Lemma sumZ_pos {A} (f : A -> Z) l : (forall x, x ∈ l -> 0 <= f x) -> 0 <= sumZ f l.
Proof.
  induction l as [|x l IH]; intros Hf; [done|]. cbn. specialize (Hf x ltac:(left)) as Hx.
  enough (0 <= sumZ f l) by (unfold sumZ in *; lia). apply IH. set_solver.
Qed.

Lemma val_pos v : 0 <= VarUint.val v < 2 ^ 256.
Proof. apply VarUint.val_range. Qed.

Lemma sum_scores_fold (l : list (Hash * VarUint.t)) set score :
  let r := foldM (fun '(set, score) '(hash, value) =>
    score ← VarUint.add score value; Ok ({[hash]} ∪ set, score)) (set, score) l : bres (gset Hash * VarUint.t) in
  let total := VarUint.val score + sumZ (fun p => VarUint.val p.2) l in
  (total < 2 ^ 256 -> exists score', r = Ok (list_to_set l.*1 ∪ set, score') /\ VarUint.val score' = total) /\
  (2 ^ 256 <= total -> r = Panic).
Proof.
  revert set score. induction l as [|[h v] l IH]; intros set score; cbn.
  { pose proof (val_pos score). split; [|lia]. intros _. exists score. split; [|lia]. do 2 f_equal. set_solver. }
  change (foldr _ 0 l) with (sumZ (fun p : Hash * VarUint.t => VarUint.val p.2) l).
  assert (0 <= sumZ (fun p : Hash * VarUint.t => VarUint.val p.2) l) as Hl by (apply sumZ_pos; intros; apply val_pos).
  destruct (decide (VarUint.val score + VarUint.val v < 2 ^ 256)) as [Hlt|Hge].
  - destruct (VarUint.add_ok (E:=blockchain_error) score v Hlt) as (c & -> & Hc). cbn [mbind res_bind].
    specialize (IH ({[h]} ∪ set) c). cbn in IH. rewrite Hc, <- !Z.add_assoc in IH. destruct IH as [IH1 IH2].
    split; [|done]. intros Ht. destruct (IH1 Ht) as (s' & -> & Hs'). exists s'. split; [|done]. do 2 f_equal. set_solver.
  - pose proof (VarUint.add_val (E:=blockchain_error) score v) as Ha. rewrite decide_False in Ha by done.
    destruct (VarUint.add score v); try done. split; [lia|done].
Qed.

(** The work of a set of blocks. *)
Definition work_of (weight : Hash -> Z) (set : gset Hash) : Z := sumZ weight (elements set).

Lemma work_of_map (weight : Hash -> Z) (m : gmap Hash VarUint.t) :
  (forall h v, m !! h = Some v -> VarUint.val v = weight h) ->
  sumZ (fun p => VarUint.val p.2) (hm_iter m) = work_of weight (dom m).
Proof.
  intros Hw. rewrite (sumZ_Permutation _ _ _ (hm_iter_spec m)).
  rewrite (sumZ_ext _ (fun p => weight p.1)) by (intros [h v] Hin%elem_of_map_to_list; by apply Hw).
  rewrite <- (sumZ_fmap weight fst). apply sumZ_Permutation, NoDup_Permutation.
  - apply NoDup_fst_map_to_list.
  - apply NoDup_elements.
  - intros h. rewrite elem_of_elements, elem_of_dom, list_elem_of_fmap. split.
    + intros ([k v] & -> & Hin%elem_of_map_to_list). eauto.
    + intros [v Hv]. exists (h, v). split; [done|]. by apply elem_of_map_to_list.
Qed.

Lemma sum_scores_spec (weight : Hash -> Z) (m : gmap Hash VarUint.t) :
  (forall h v, m !! h = Some v -> VarUint.val v = weight h) ->
  (work_of weight (dom m) < 2 ^ 256 ->
     exists score, sum_scores m = Ok (dom m, score) /\ VarUint.val score = work_of weight (dom m)) /\
  (2 ^ 256 <= work_of weight (dom m) -> sum_scores m = Panic).
Proof.
  intros Hw. pose proof (sum_scores_fold (hm_iter m) ∅ VarUint.zero) as Hf. cbn zeta in Hf.
  rewrite (work_of_map weight m Hw), VarUint.val_zero, Z.add_0_l in Hf.
  assert (list_to_set (hm_iter m).*1 ∪ ∅ = dom m) as E.
  { apply set_eq. intros h. rewrite (right_id_L ∅ (∪)), elem_of_list_to_set, elem_of_dom, list_elem_of_fmap.
    setoid_rewrite (hm_iter_spec m). setoid_rewrite elem_of_map_to_list'. cbn.
    split; [intros ([k v] & -> & Hin); eauto|]. intros [v Hv]. by exists (h, v). }
  rewrite E in Hf. destruct Hf as [H1 H2]. split; [|done]. intros Ht. destruct (H1 Ht) as (score & Hs & Hv). eauto.
Qed.
End Sums.

(** ** The work of a tip, with the cache *)
Section TipWork.
Context {UL : U256Lib} {IS : IndexSetLib Hash} {HM : HashMapIter}.
Context {S : Type} {DP : DifficultyProvider S} {DO : DagOrderProvider S} {DL : DifficultyProviderLaws S}.
Context {LR : LruLib (Hash * Hash * Z) (gset Hash * VarUint.t)}.

(** The base counts with all the work under it, every other block with its own. *)
Definition weight_in (provider : S) (hash base x : Hash) : Z :=
  match (if decide (x = base /\ base <> hash) then get_cumulative_difficulty_for_block_hash provider x
         else get_difficulty_for_block_hash provider x) with
  | Ok d => VarUint.val d
  | _ => 0
  end.

(** [set]: the block, what is under it above the base, and the base. *)
Definition work_set (provider : S) (hash base : Hash) (set : gset Hash) : Prop :=
  exists base_topoheight, get_topo_height_for_hash provider base = Ok base_topoheight /\
    forall x, x ∈ set <-> rtc (above_step provider base_topoheight) hash x \/ x = base.

(** Every value in the cache is the work of its block. *)
Definition work_coherent (provider : S) (cache : lru (Hash * Hash * Z) (gset Hash * VarUint.t)) : Prop :=
  forall hash base base_height set score, lru_holds cache (hash, base, base_height) (set, score) ->
    work_set provider hash base set /\ VarUint.val score = work_of (weight_in provider hash base) set.

Lemma work_set_unique provider hash base set set' :
  work_set provider hash base set -> work_set provider hash base set' -> set = set'.
Proof.
  intros (b & Hb & Hs) (b' & Hb' & Hs'). assert (b = b') as <- by congruence. apply set_eq. intros x.
  by rewrite Hs, Hs'.
Qed.

Lemma work_coherent_put provider cache hash base base_height set score :
  work_coherent provider cache -> work_set provider hash base set ->
  VarUint.val score = work_of (weight_in provider hash base) set ->
  work_coherent provider (lru_put (hash, base, base_height) (set, score) cache).
Proof. intros Hc Hs Hv h b bh set' score' [[[= -> -> ->] [= -> ->]]|[_ Hh]]%lru_put_holds; [done|by eapply Hc]. Qed.

Lemma work_coherent_get provider cache key : work_coherent provider cache -> work_coherent provider (lru_get key cache).2.
Proof. intros Hc h b bh set score Hh. by eapply Hc, lru_get_keeps. Qed.

(** The map whose scores are summed. *)
Lemma scored_map provider hash base base_topoheight (map : gmap Hash VarUint.t) cumulative difficulty :
  get_topo_height_for_hash provider base = Ok base_topoheight ->
  get_difficulty_for_block_hash provider hash = Ok difficulty ->
  (base <> hash -> get_cumulative_difficulty_for_block_hash provider base = Ok cumulative) ->
  (forall x, is_Some (map !! x) <-> under provider base_topoheight hash x) ->
  (forall x d, map !! x = Some d -> get_difficulty_for_block_hash provider x = Ok d) ->
  let m := <[hash := difficulty]> (if decide (base <> hash) then <[base := cumulative]> map else map) in
  work_set provider hash base (dom m) /\
  forall h v, m !! h = Some v -> VarUint.val v = weight_in provider hash base h.
Proof.
  intros Hb Hd Hc Hm Hw m. split.
  - exists base_topoheight. split; [done|]. intros x. unfold m. rewrite dom_insert_L, under_rtc, <- Hm, <- elem_of_dom.
    case_decide; rewrite ?dom_insert_L; set_solver.
  - intros h v Hv. unfold m in Hv. unfold weight_in.
    destruct (decide (h = hash)) as [->|Hh].
    + rewrite lookup_insert_eq in Hv. injection Hv as <-. by rewrite decide_False, Hd by naive_solver.
    + rewrite lookup_insert_ne in Hv by done. case_decide as Hbh.
      * destruct (decide (h = base)) as [->|Hhb].
        -- rewrite lookup_insert_eq in Hv. injection Hv as <-. by rewrite decide_True, Hc.
        -- rewrite lookup_insert_ne in Hv by done. rewrite decide_False by naive_solver. by rewrite (Hw h v).
      * rewrite decide_False by naive_solver. by rewrite (Hw h v).
Qed.

Section Uncached.
Context (provider : S) (hash base : Hash) (base_topoheight : Z) (block : BlockHeader) (height : Hash -> nat).
Context (Hdag : dag provider height)
  (Hblock : get_block_header_by_hash provider hash = Ok block)
  (Hbase : get_topo_height_for_hash provider base = Ok base_topoheight)
  (Hread : forall x, rtc (above_step provider base_topoheight) hash x -> readable_block provider base_topoheight x)
  (Hcum : base <> hash -> is_ok (get_cumulative_difficulty_for_block_hash provider base) = true).

(** The answer does not depend on the fuel, once there is enough. *)
Lemma tip_work_total :
  exists k set, work_set provider hash base set /\ forall fuel, (k <= fuel)%nat ->
    (work_of (weight_in provider hash base) set < 2 ^ 256 ->
       exists score, tip_work fuel provider hash base = Ok (set, score) /\
         VarUint.val score = work_of (weight_in provider hash base) set) /\
    (2 ^ 256 <= work_of (weight_in provider hash base) set -> tip_work fuel provider hash base = Panic).
Proof using All.
  destruct (tree_sizes (tips_of provider) height Hdag) as [size Hsize].
  assert (tips_of provider hash = iset_list block.(bh_tips)) as Etips
    by (unfold tips_of; by rewrite tips_of_header, Hblock).
  pose proof (Hread hash (rtc_refl _ _)) as (_ & Hd & Hab). rewrite Etips in Hab.
  assert (forall x, under provider base_topoheight hash x -> readable_block provider base_topoheight x) as Hread'
    by (intros x Hx; apply Hread, under_rtc; by right).
  destruct (get_difficulty_for_block_hash provider hash) as [difficulty| | |] eqn:Ed; try done.
  assert (exists cumulative, base <> hash -> get_cumulative_difficulty_for_block_hash provider base = Ok cumulative)
    as [cumulative Hcum'].
  { destruct (decide (base = hash)) as [->|Hne]; [by exists difficulty|]. specialize (Hcum Hne).
    destruct (get_cumulative_difficulty_for_block_hash provider base); naive_solver. }
  assert (exists set, work_set provider hash base set) as [set Hset].
  { destruct (tips_work_total provider base_topoheight size _ hash _ Hsize Hread' Hab Etips (le_n _)) as (map & _ & Hmap & Hw).
    eexists. by eapply (scored_map provider hash base base_topoheight map cumulative difficulty). }
  exists (sum_list_with size (iset_list block.(bh_tips))), set. split; [done|]. intros fuel Hfuel.
  destruct (tips_work_total provider base_topoheight size fuel hash _ Hsize Hread' Hab Etips Hfuel) as (map & Em & Hmap & Hw).
  destruct (scored_map provider hash base base_topoheight map cumulative difficulty Hbase Ed Hcum' Hmap Hw) as [Hset' Hweight].
  rewrite (work_set_unique _ _ _ _ _ Hset Hset').
  pose proof (sum_scores_spec _ _ Hweight) as Hsum.
  assert (tip_work fuel provider hash base = sum_scores (<[hash := difficulty]>
    (if decide (base <> hash) then <[base := cumulative]> map else map))) as ->; [|exact Hsum].
  unfold tip_work. rewrite Hblock, Hbase. cbn [mbind res_bind]. rewrite Em. cbn [mbind res_bind].
  case_decide as Hne; [rewrite (Hcum' Hne)|]; cbn [mbind res_bind]; by rewrite Ed.
Qed.
End Uncached.

(** What the walk reads from [hash] down to the base can be read. *)
Record workable (provider : S) (base hash : Hash) : Prop := {
  workable_header : is_ok (get_block_header_by_hash provider hash) = true;
  workable_blocks base_topoheight x : get_topo_height_for_hash provider base = Ok base_topoheight ->
    rtc (above_step provider base_topoheight) hash x -> readable_block provider base_topoheight x;
  workable_base : is_ok (get_topo_height_for_hash provider base) = true;
  workable_cumulative : base <> hash -> is_ok (get_cumulative_difficulty_for_block_hash provider base) = true;
}.

(** The answer to a query, when the set of its work is [set]. *)
Definition work_answer (provider : S) (hash base : Hash) (set : gset Hash) (r : bres (gset Hash * VarUint.t)) : Prop :=
  if decide (work_of (weight_in provider hash base) set < 2 ^ 256) then
    exists score, r = Ok (set, score) /\ VarUint.val score = work_of (weight_in provider hash base) set
  else r = Panic.

Lemma tip_score_run provider hash base height :
  dag provider height -> workable provider base hash ->
  exists k set, work_set provider hash base set /\ forall base_height fuel cache, (k <= fuel)%nat ->
    work_coherent provider cache ->
    let '(r, cache') := find_tip_work_score fuel provider hash base base_height cache in
    work_coherent provider cache' /\ work_answer provider hash base set r.
Proof.
  intros Hdag [Hh Hr Hb Hcum].
  destruct (get_block_header_by_hash provider hash) as [block| | |] eqn:Hblock; try done.
  destruct (get_topo_height_for_hash provider base) as [base_topoheight| | |] eqn:Hbase; try done.
  destruct (tip_work_total provider hash base base_topoheight block height Hdag Hblock Hbase (fun x => Hr _ x eq_refl) Hcum)
    as (k & set & Hset & Hwork).
  exists k, set. split; [done|]. intros base_height fuel cache Hfuel Hc. destruct (Hwork fuel Hfuel) as [Hok Hpanic].
  unfold find_tip_work_score, work_cache_get, mbind, stm_bind, work_answer.
  pose proof (work_coherent_get provider cache (hash, base, base_height) Hc) as Hc'.
  destruct (lru_get (hash, base, base_height) cache) as [found cache1] eqn:Eg. cbn in Hc'.
  destruct found as [[set' score]|].
  - cbn. split; [done|]. assert (lru_holds cache (hash, base, base_height) (set', score)) as Hheld
      by (apply lru_get_some; by rewrite Eg).
    apply Hc in Hheld as [Hs Hv]. rewrite <- (work_set_unique _ _ _ _ _ Hs Hset), <- Hv.
    rewrite decide_True by apply val_pos. by exists score.
  - unfold lift_res. destruct (decide (_ < _)) as [Hlt|Hge].
    + destruct (Hok Hlt) as (score & -> & Hv). cbn. split; [by apply work_coherent_put|]. by exists score.
    + rewrite Hpanic by lia. done.
Qed.

(** *** The best tip *)

(** The work of the tips as a function. *)
Definition works (provider : S) (base : Hash) (work : Hash -> Z) (tips : list Hash) : Prop :=
  forall h, h ∈ tips -> exists set, work_set provider h base set /\
    work h = work_of (weight_in provider h base) set /\ work h < 2 ^ 256.

Lemma best_tip_scores provider base base_height height work (tips : list Hash) :
  dag provider height -> (forall h, h ∈ tips -> workable provider base h) -> works provider base work tips ->
  exists k, forall fuel acc cache, (k <= fuel)%nat -> work_coherent provider cache ->
    exists scores cache', foldMs (fun scores hash =>
      '(_, cumulative_difficulty) ← find_tip_work_score fuel provider hash base base_height;
      mret (scores ++ [(hash, cumulative_difficulty)])) acc tips cache = (Ok (acc ++ scores), cache') /\
      work_coherent provider cache' /\ scores.*1 = tips /\ Forall (fun p => VarUint.val p.2 = work p.1) scores.
Proof.
  intros Hdag. induction tips as [|h tips IH]; intros Hw Hwork.
  { exists 0%nat. intros fuel acc cache _ Hc. exists [], cache. cbn. rewrite app_nil_r. split_and!; [done..|constructor]. }
  destruct IH as [k1 IH]; [set_solver| |]. { intros x Hx. apply Hwork. by right. }
  destruct (tip_score_run provider h base height Hdag (Hw h ltac:(left))) as (k2 & set & Hset & Hrun).
  exists (k1 + k2)%nat. intros fuel acc cache Hf Hc. cbn [foldMs].
  specialize (Hrun base_height fuel cache ltac:(lia) Hc).
  destruct (find_tip_work_score fuel provider h base base_height cache) as [r cache1] eqn:Er. destruct Hrun as [Hc1 Ha].
  destruct (Hwork h ltac:(left)) as (set' & Hset' & Hwh & Hlt). rewrite (work_set_unique _ _ _ _ _ Hset' Hset) in Hwh.
  unfold work_answer in Ha. rewrite decide_True in Ha by lia. destruct Ha as (score & -> & Hv).
  destruct (IH fuel (acc ++ [(h, score)]) cache1 ltac:(lia) Hc1) as (scores & cache' & Hs & Hc' & Hk & Hf').
  exists ((h, score) :: scores), cache'.
  unfold mbind at 1, stm_bind at 1. unfold mbind at 1, stm_bind at 1. rewrite Er. cbn [mret stm_ret].
  rewrite Hs, <- (assoc_L (++)). split_and!; [done|done|csimpl; by rewrite Hk|].
  constructor; [|done]. cbn. lia.
Qed.

(** The first of the sorted scores is the largest. *)
Lemma sorted_head (scores : list score) h v rest :
  NoDup scores -> sort_descending_by_cumulative_difficulty scores = (h, v) :: rest ->
  (h, v) ∈ scores /\ forall p, p ∈ scores -> p = (h, v) \/ before (h, v) p.
Proof.
  intros Hnd Es. assert (sort_descending_by_cumulative_difficulty scores ≡ₚ scores) as Hp by apply sort_by_Permutation.
  pose proof (sort_descending_strict scores Hnd) as Hs. rewrite Es in Hs, Hp. split.
  - rewrite <- Hp. left.
  - intros p Hin. rewrite <- Hp in Hin. apply list.elem_of_cons in Hin as [->|Hin]; [by left|]. right.
    inversion Hs as [|? ? _ Hall]; subst. by eapply list.Forall_forall.
Qed.

(** The scores are determined by the tips and their work. *)
Lemma scores_unique (work : Hash -> Z) (l1 l2 : list score) :
  l1.*1 = l2.*1 -> Forall (fun p => VarUint.val p.2 = work p.1) l1 ->
  Forall (fun p => VarUint.val p.2 = work p.1) l2 -> l1 = l2.
Proof.
  revert l2. induction l1 as [|[h v] l1 IH]; intros [|[h' v'] l2] E H1 H2; try done.
  apply list.Forall_cons in H1 as [Hv H1]. apply list.Forall_cons in H2 as [Hv' H2]. cbn in *. injection E as -> E.
  f_equal; [f_equal; apply VarUint.val_inj; congruence|by apply IH].
Qed.

(** The work of a tip is the cumulative difficulty of the base plus the
    difficulties of the blocks above it under the tip, each counted once: on a
    DAG whose heights decrease along the tips the walk ends, answers with
    exactly that set and that sum, panics exactly when the sum does not fit in
    256 bits, and keeps its cache right. *)
Theorem tip_work_score_spec (provider : S) (hash base : Hash) (height : Hash -> nat)
    (Hdag : dag provider height) (Hw : workable provider base hash) :
  exists k set, work_set provider hash base set /\
    forall base_height fuel (cache : lru (Hash * Hash * Z) (gset Hash * VarUint.t)),
    (k <= fuel)%nat -> work_coherent provider cache ->
    let '(r, cache') := find_tip_work_score fuel provider hash base base_height cache in
    work_coherent provider cache' /\
    if decide (work_of (weight_in provider hash base) set < 2 ^ 256) then
      exists score, r = Ok (set, score) /\ VarUint.val score = work_of (weight_in provider hash base) set
    else r = Panic.
Proof. exact (tip_score_run provider hash base height Hdag Hw). Qed.

(** The best of a set of tips is the one with the most work, the larger
    hash on ties, whatever the order the set is walked in. *)
Theorem find_best_tip_spec (storage : S) (tips : gset Hash) (base : Hash) (base_height : Z) (height : Hash -> nat)
    (work : Hash -> Z) (cache : lru (Hash * Hash * Z) (gset Hash * VarUint.t))
    (Hdag : dag storage height) (Hw : forall h, h ∈ tips -> workable storage base h)
    (Hwork : works storage base work (elements tips)) (Hne : tips <> ∅) (Hc : work_coherent storage cache) :
  exists best k, best ∈ tips /\
    (forall h, h ∈ tips -> h = best \/ work h < work best \/ work h = work best /\ hash_val h < hash_val best) /\
    forall fuel, (k <= fuel)%nat -> exists cache',
      find_best_tip fuel storage tips base base_height cache = (Ok best, cache') /\ work_coherent storage cache'.
Proof.
  assert (forall h, h ∈ hs_iter tips <-> h ∈ tips) as Hel by (intros h; by rewrite hs_iter_spec, elem_of_elements).
  destruct (best_tip_scores storage base base_height height work (hs_iter tips) Hdag) as [k Hk].
  { intros h Hh%Hel. by apply Hw. }
  { intros h Hh. apply Hwork. by rewrite <- hs_iter_spec. }
  destruct (Hk k [] cache (le_n _) Hc) as (scores & _ & _ & _ & Hkeys & Hv).
  assert (NoDup scores) as Hnd.
  { apply (NoDup_fmap_1 fst). change (NoDup scores.*1). rewrite Hkeys, hs_iter_spec. apply NoDup_elements. }
  destruct (sort_descending_by_cumulative_difficulty scores) as [|[b v] rest] eqn:Es.
  { exfalso. apply Hne, set_eq. intros h. rewrite <- Hel, <- Hkeys.
    assert (sort_descending_by_cumulative_difficulty scores ≡ₚ scores) as Hp by apply sort_by_Permutation.
    rewrite Es in Hp. apply Permutation_nil_l in Hp as <-. set_solver. }
  destruct (sorted_head scores b v rest Hnd Es) as [Hin Hbest]. rewrite list.Forall_forall in Hv.
  exists b, k. split; [|split].
  - apply Hel. rewrite <- Hkeys. apply list_elem_of_fmap. by exists (b, v).
  - intros h Hh. apply Hel in Hh. rewrite <- Hkeys in Hh. apply list_elem_of_fmap in Hh as ([h' vh] & -> & Hh).
    pose proof (Hv _ Hin) as Hvb. pose proof (Hv _ Hh) as Hvh. cbn in Hvb, Hvh.
    destruct (Hbest _ Hh) as [[= -> _]|Hlt%before_iff]; [by left|]. cbn in Hlt |- *. rewrite Hvb, Hvh in Hlt. by right.
  - intros fuel Hf. destruct (Hk fuel [] cache Hf Hc) as (scores' & cache' & Hrun & Hc' & Hkeys' & Hv').
    assert (scores' = scores) as -> by (apply (scores_unique work); [congruence|done|by apply list.Forall_forall]).
    exists cache'. split; [|done]. unfold find_best_tip.
    destruct (Nat.eqb_spec (base.size tips) 0) as [E|_]; [by apply size_empty_inv, leibniz_equiv in E|].
    unfold mbind, stm_bind. unfold mbind, stm_bind in Hrun. rewrite Hrun. cbn [app]. by rewrite Es.
Qed.
End TipWork.

(** ** Reachability *)
Section Reach.
Context {UL : U256Lib} {IS : IndexSetLib Hash}.
Context {S : Type} {DP : DifficultyProvider S}.
Context (storage : S).

(** From a block to its tips. *)
Definition past_step (x t : Hash) : Prop := t ∈ tips_of storage x.

Lemma push_past_spec set level stack tips (size : Hash -> nat) :
  exists new, push_past set level stack tips = ((fun t => (t, u64_add level 1)) <$> new) ++ stack /\
    (sum_list_with size new <= sum_list_with size tips)%nat /\ forall t, t ∈ new <-> t ∈ tips /\ t ∉ set.
Proof.
  revert stack. induction tips as [|t tips IH]; intros stack; cbn [push_past foldl].
  { exists []. split_and!; [done|done|set_solver]. }
  destruct (IH (if decide (t ∈ set) then stack else (t, u64_add level 1) :: stack)) as (new & E & Hsz & Hel).
  unfold push_past in E. rewrite E. cbn [sum_list_with]. destruct (decide (t ∈ set)) as [Ht|Ht].
  - exists new. split; [done|]. split; [lia|]. set_solver.
  - exists (new ++ [t]). rewrite fmap_app, <- (assoc_L (++)), sum_list_with_app. cbn [sum_list_with].
    split; [done|]. split; [lia|]. set_solver.
Qed.

Context (height : Hash -> nat) (Hdag : dag storage height).

(** The invariant of the walk from [root]. *)
Record reach_inv (root : Hash) (set : gset Hash) (stack : list (Hash * Z)) : Prop := {
  reach_set x : x ∈ set -> rtc past_step root x;
  reach_stack x level : (x, level) ∈ stack -> rtc past_step root x /\
    0 <= level <= LEVEL_LIMIT /\ Z.of_nat (height x) + level <= Z.of_nat (height root);
  reach_closed x t : x ∈ set -> Z.of_nat (height root) < Z.of_nat (height x) + LEVEL_LIMIT -> past_step x t ->
    t ∈ set \/ t ∈ stack.*1;
}.

Lemma reachability_loop_total (size : Hash -> nat) root fuel set stack :
  (forall x, (sum_list_with size (tips_of storage x) < size x)%nat) ->
  (forall x, rtc past_step root x -> is_ok (get_past_blocks_for_block_hash storage x) = true) ->
  (sum_list_with (fun p => size p.1) stack <= fuel)%nat ->
  reach_inv root set stack ->
  exists set', reachability_loop fuel storage set stack = Ok set' /\ reach_inv root set' [] /\
    set ⊆ set' /\ forall p, p ∈ stack -> p.1 ∈ set'.
Proof using Hdag.
  intros Hsize Hread. revert set stack.
  induction fuel as [|fuel IH]; intros set [|[x level] stack] Hf Hinv; cbn [reachability_loop]; cbn [sum_list_with fst] in Hf;
    [exists set; split_and!; [done..|set_solver] | specialize (Hsize x); lia | exists set; split_and!; [done..|set_solver] |].
  destruct (reach_stack _ _ _ Hinv x level ltac:(left)) as (Hx & Hl & Hh).
  destruct (Z.leb_spec LEVEL_LIMIT level) as [Hge|Hlt].
  - destruct (IH ({[x]} ∪ set) stack) as (set' & -> & Hinv' & Hsub & Hall).
    + specialize (Hsize x). lia.
    + split.
      * intros y [->%elem_of_singleton|Hy]%elem_of_union; [done|by eapply reach_set].
      * intros y l Hy. apply (reach_stack _ _ _ Hinv). by right.
      * intros y t [->%elem_of_singleton|Hy]%elem_of_union Hhy Hst; [lia|].
        destruct (reach_closed _ _ _ Hinv y t Hy Hhy Hst) as [?|Hin]; [left; set_solver|].
        csimpl in Hin. set_solver.
    + exists set'. split; [done|]. split; [done|]. split; [set_solver|].
      intros p [->|Hp]%list.elem_of_cons; [set_solver|by apply Hall].
  - specialize (Hread x Hx) as Hrx. specialize (Hsize x) as Hsx. unfold tips_of in Hsx.
    destruct (get_past_blocks_for_block_hash storage x) as [tips| | |] eqn:Et; try done. cbn [mbind res_bind].
    assert (tips_of storage x = iset_list tips) as Etips by (unfold tips_of; by rewrite Et).
    destruct (push_past_spec ({[x]} ∪ set) level stack (iset_list tips) size) as (new & -> & Hsz & Hel).
    assert (u64_add level 1 = level + 1) as El by (apply u64_add_small; unfold in_u, LEVEL_LIMIT, STABLE_LIMIT in *; lia).
    rewrite El.
    destruct (IH ({[x]} ∪ set) (((fun t => (t, level + 1)) <$> new) ++ stack)) as (set' & -> & Hinv' & Hsub & Hall).
    + rewrite sum_list_with_app. enough (sum_list_with (fun p : Hash * Z => size p.1) ((fun t => (t, level + 1)) <$> new) =
        sum_list_with size new) by lia. clear. induction new as [|t new IH]; [done|]. csimpl. by rewrite IH.
    + split.
      * intros y [->%elem_of_singleton|Hy]%elem_of_union; [done|by eapply reach_set].
      * intros y l [(t & [= -> ->] & [Ht _]%Hel)%list_elem_of_fmap|Hy]%elem_of_app.
        -- assert (past_step x t) as Hst by (unfold past_step; by rewrite Etips).
           split; [by eapply rtc_r|]. pose proof (Hdag x t Hst). lia.
        -- apply (reach_stack _ _ _ Hinv). by right.
      * intros y t Hy Hhy Hst. rewrite fmap_app, <- list_fmap_compose, list_fmap_id.
        destruct (decide (t ∈ {[x]} ∪ set)) as [|Hn]; [by left|]. right. apply elem_of_app.
        apply elem_of_union in Hy as [->%elem_of_singleton|Hy].
        -- left. apply Hel. unfold past_step in Hst. by rewrite Etips in Hst.
        -- destruct (reach_closed _ _ _ Hinv y t Hy Hhy Hst) as [?|Hin]; [set_solver|]. csimpl in Hin. set_solver.
    + exists set'. split; [done|]. split; [done|]. split; [set_solver|].
      intros p [->|Hp]%list.elem_of_cons; [set_solver|]. apply Hall, elem_of_app. by right.
Qed.

(** The set holds only what is reachable, and all of it down to the limit. *)
Lemma build_reachability_total root :
  (forall x, rtc past_step root x -> is_ok (get_past_blocks_for_block_hash storage x) = true) ->
  exists k, forall fuel, (k <= fuel)%nat -> exists set, build_reachability fuel storage root = Ok set /\
    (forall x, x ∈ set -> rtc past_step root x) /\
    forall x, rtc past_step root x -> Z.of_nat (height root) <= Z.of_nat (height x) + LEVEL_LIMIT -> x ∈ set.
Proof using Hdag.
  intros Hread. destruct (tree_sizes (tips_of storage) height Hdag) as [size Hsize].
  exists (size root). intros fuel Hf.
  destruct (reachability_loop_total size root fuel ∅ [(root, 0)] Hsize Hread) as (set & Hs & Hinv & _ & Hall).
  - cbn. lia.
  - split; [set_solver| |set_solver]. intros x l [= -> ->]%list_elem_of_singleton.
    split; [constructor|]. unfold LEVEL_LIMIT, STABLE_LIMIT. lia.
  - exists set. split; [exact Hs|]. split; [apply (reach_set _ _ _ Hinv)|]. intros x Hx. revert x Hx.
    apply (rtc_ind_r (fun x => Z.of_nat (height root) <= Z.of_nat (height x) + LEVEL_LIMIT -> x ∈ set) root);
      [intros _; apply (Hall (root, 0)); left|].
    intros x t Hx Hst IH Hh. pose proof (Hdag x t Hst).
    destruct (reach_closed _ _ _ Hinv x t) as [|Hin]; [apply IH; lia|lia|done|done|]. by apply not_elem_of_nil in Hin.
Qed.
End Reach.

(** *** The check of the tips *)
Section NonReachability.
Context {UL : U256Lib} {IS : IndexSetLib Hash}.
Context {S : Type} {DP : DifficultyProvider S}.

Lemma reach_sets (storage : S) (height : Hash -> nat) (l : list Hash) :
  dag storage height ->
  (forall a x, a ∈ l -> rtc (past_step storage) a x -> is_ok (get_past_blocks_for_block_hash storage x) = true) ->
  exists k, forall fuel, (k <= fuel)%nat -> exists reach,
    mapMr (fun hash => build_reachability fuel storage hash) l = Ok reach /\
    Forall2 (fun a set => (forall x, x ∈ set -> rtc (past_step storage) a x) /\
      forall x, rtc (past_step storage) a x -> Z.of_nat (height a) <= Z.of_nat (height x) + LEVEL_LIMIT -> x ∈ set) l reach.
Proof.
  intros Hdag. induction l as [|a l IH]; intros Hread.
  { exists 0%nat. intros fuel _. exists []. split; [done|constructor]. }
  destruct IH as [k1 H1]. { intros b x Hb. apply Hread. by right. }
  destruct (build_reachability_total storage height Hdag a) as [k2 H2]. { intros x. apply Hread. left. }
  exists (k1 + k2)%nat. intros fuel Hf. destruct (H2 fuel ltac:(lia)) as (set & Hs & Hset).
  destruct (H1 fuel ltac:(lia)) as (reach & Hr & Hreach). exists (set :: reach). cbn [mapMr]. rewrite Hs. cbn [mbind res_bind].
  rewrite Hr. split; [done|by constructor].
Qed.

Lemma forallb_pairs (f : nat -> nat -> bool) n :
  forallb (fun i => forallb (f i) (seq 0 n)) (seq 0 n) = true <->
  forall i j, (i < n)%nat -> (j < n)%nat -> f i j = true.
Proof.
  rewrite forallb_forall. setoid_rewrite forallb_forall. setoid_rewrite in_seq. split.
  - intros H i j Hi Hj. apply H; lia.
  - intros H i Hi j Hj. apply H; lia.
Qed.

Lemma not_forall_pairs (f : nat -> nat -> bool) n :
  ~ (forall i j, (i < n)%nat -> (j < n)%nat -> f i j = true) ->
  exists i j, (i < n)%nat /\ (j < n)%nat /\ f i j = false.
Proof.
  intros Hn. rewrite <- forallb_pairs in Hn. apply not_true_iff_false in Hn.
  assert (forall (g : nat -> bool) l, forallb g l = false -> exists i, In i l /\ g i = false) as Hex.
  { intros g l. induction l as [|a l IH]; [done|]. cbn. destruct (g a) eqn:E; [|by exists a; auto].
    intros (i & ? & ?)%IH. exists i. auto. }
  apply Hex in Hn as (i & [_ Hi]%in_seq & (j & [_ Hj]%in_seq & Hf)%Hex). eauto.
Qed.

Lemma non_reachability_run (storage : S) (tips : iset Hash) (height : Hash -> nat)
    (Hdag : dag storage height)
    (Hread : forall a x, a ∈ iset_list tips -> rtc (past_step storage) a x ->
       is_ok (get_past_blocks_for_block_hash storage x) = true) :
  exists k, forall fuel, (k <= fuel)%nat -> exists b, verify_non_reachability fuel storage tips = Ok b /\
    (b = false -> exists a c, a ∈ iset_list tips /\ c ∈ iset_list tips /\ a <> c /\ rtc (past_step storage) a c) /\
    (b = true -> forall a c, a ∈ iset_list tips -> c ∈ iset_list tips -> a <> c ->
       Z.of_nat (height a) <= Z.of_nat (height c) + LEVEL_LIMIT -> ~ rtc (past_step storage) a c).
Proof.
  destruct (reach_sets storage height (iset_list tips) Hdag Hread) as [k Hk]. exists k. intros fuel Hf.
  destruct (Hk fuel Hf) as (reach & Hr & Hreach).
  set (bad := fun i j => match iset_list tips !! i, reach !! j with
    | Some tip, Some set => negb (negb (i =? j)%nat && bool_decide (tip ∈ set)) | _, _ => true end).
  set (n := length (iset_list tips)). exists (forallb (fun i => forallb (bad i) (seq 0 n)) (seq 0 n)).
  unfold verify_non_reachability. rewrite Hr. split; [done|].
  split.
  - intros Hb. apply not_true_iff_false in Hb. rewrite (forallb_pairs bad) in Hb.
    assert (exists i j c a set, i <> j /\ iset_list tips !! i = Some c /\ iset_list tips !! j = Some a /\
      reach !! j = Some set /\ c ∈ set) as (i & j & c & a & set & Hij & Hi & Hj & Hsj & Hc).
    { assert (exists i j, (i < n)%nat /\ (j < n)%nat /\ bad i j = false) as (i & j & Hi & Hj & Hbad).
      { apply not_forall_pairs. intros Hall. by apply Hb. }
      destruct (lookup_lt_is_Some_2 _ _ Hi) as [c Hc]. destruct (lookup_lt_is_Some_2 _ _ Hj) as [a Ha].
        destruct (Forall2_lookup_l _ _ _ _ _ Hreach Ha) as (set & Hs & _). exists i, j, c, a, set.
        unfold bad in Hbad. rewrite Hc, Hs in Hbad. apply negb_false_iff, andb_true_iff in Hbad as [H1 H2].
        apply bool_decide_eq_true in H2. split_and!; [|done..]. by intros ->; rewrite Nat.eqb_refl in H1. }
    destruct (Forall2_lookup_lr _ _ _ _ _ _ Hreach Hj Hsj) as [Hsound _]. exists a, c.
    split_and!; [by eapply list_elem_of_lookup_2..| |by apply Hsound].
    intros ->. apply Hij. eapply NoDup_lookup; [apply iset_NoDup|done..].
  - intros Hb a c Ha Hc Hne Hh Hac. rewrite (forallb_pairs bad) in Hb.
    apply list_elem_of_lookup in Ha as [j Hj]. apply list_elem_of_lookup in Hc as [i Hi].
    destruct (Forall2_lookup_l _ _ _ _ _ Hreach Hj) as (set & Hs & _ & Hcomplete).
    specialize (Hb i j (lookup_lt_Some _ _ _ Hi) (lookup_lt_Some _ _ _ Hj)). unfold bad in Hb. rewrite Hi, Hs in Hb.
    rewrite bool_decide_eq_true_2 in Hb by (by apply Hcomplete). rewrite andb_true_r in Hb.
    destruct (Nat.eqb_spec i j) as [->|]; [congruence|done].
Qed.
(** The tips of a block must not be reachable from each other.  The check
    ends; when it rejects, one of the tips is a past block of another one; and
    as long as the heights of the tips differ by at most twice the stable
    limit, the depth its walk is limited to, it rejects them all. *)
Theorem non_reachability_spec (storage : S) (tips : iset Hash) (height : Hash -> nat)
    (Hdag : dag storage height)
    (Hread : forall a x, a ∈ iset_list tips -> rtc (past_step storage) a x ->
       is_ok (get_past_blocks_for_block_hash storage x) = true) :
  exists k, forall fuel, (k <= fuel)%nat -> exists b, verify_non_reachability fuel storage tips = Ok b /\
    (b = false -> exists a c, a ∈ iset_list tips /\ c ∈ iset_list tips /\ a <> c /\ rtc (past_step storage) a c) /\
    (b = true -> forall a c, a ∈ iset_list tips -> c ∈ iset_list tips -> a <> c ->
       Z.of_nat (height a) <= Z.of_nat (height c) + LEVEL_LIMIT -> ~ rtc (past_step storage) a c).
Proof. exact (non_reachability_run storage tips height Hdag Hread). Qed.
End NonReachability.

(** ** The distance from the main chain *)
Section Distance.
Context {UL : U256Lib} {IS : IndexSetLib Hash}.
Context {S : Type} {DP : DifficultyProvider S} {DO : DagOrderProvider S}.
Context (provider : S).

(** From a block to its tips that are not ordered. *)
Definition unordered_step (x t : Hash) : Prop :=
  t ∈ tips_of provider x /\ is_block_topological_ordered provider t = Ok false.

(** [h] is the height of an ordered block met first on the way down from
    [root]. *)
Definition frontier_height (root : Hash) (h : Z) : Prop :=
  exists x t, rtc unordered_step root x /\ t ∈ tips_of provider x /\
    is_block_topological_ordered provider t = Ok true /\ get_height_for_block_hash provider t = Ok h.

(** What the walk reads of a block can be read. *)
Definition readable_tips_of (x : Hash) : Prop :=
  is_ok (get_past_blocks_for_block_hash provider x) = true /\
  forall t, t ∈ tips_of provider x -> is_ok (is_block_topological_ordered provider t) = true /\
    (is_block_topological_ordered provider t = Ok true -> is_ok (get_height_for_block_hash provider t) = true).

Lemma visit_tips_spec x tips (lowest : Z) stack (size : Hash -> nat) :
  tips ⊆ tips_of provider x -> readable_tips_of x ->
  exists lowest' new, foldM (visit_tip provider) (lowest, stack) tips = Ok (lowest', new ++ stack) /\
    (sum_list_with size new <= sum_list_with size tips)%nat /\
    (forall t, t ∈ new <-> t ∈ tips /\ is_block_topological_ordered provider t = Ok false) /\
    lowest' <= lowest /\
    (forall t h, t ∈ tips -> is_block_topological_ordered provider t = Ok true ->
       get_height_for_block_hash provider t = Ok h -> lowest' <= h) /\
    (lowest' = lowest \/ exists t, t ∈ tips /\ is_block_topological_ordered provider t = Ok true /\
       get_height_for_block_hash provider t = Ok lowest').
Proof.
  intros Hsub [_ Hr]. revert lowest stack. induction tips as [|t tips IH]; intros lowest stack; cbn [foldM].
  { exists lowest, []. split_and!; [done|done|set_solver|lia|set_solver|by left]. }
  destruct (Hr t ltac:(set_solver)) as [Ho Hh].
  destruct (is_block_topological_ordered provider t) as [[]| | |] eqn:Eo; try done.
  - specialize (Hh eq_refl). destruct (get_height_for_block_hash provider t) as [h| | |] eqn:Eh; try done.
    assert (visit_tip provider (lowest, stack) t = Ok (if h <? lowest then h else lowest, stack)) as ->
      by (cbn; rewrite Eo; cbn; by rewrite Eh).
    cbn [mbind res_bind].
    destruct (IH ltac:(set_solver) (if h <? lowest then h else lowest) stack)
      as (lowest' & new & -> & Hsz & Hel & Hle & Hall & Hor).
    exists lowest', new. cbn [sum_list_with]. split; [done|]. split; [lia|].
    assert (lowest' <= h /\ lowest' <= lowest) as [? ?] by (destruct (Z.ltb_spec h lowest); lia).
    split; [|split; [done|split]].
    + intros t'. rewrite Hel, list.elem_of_cons. split; [naive_solver|]. intros [[->|] ?]; [congruence|done].
    + intros t' h' [->|Ht']%list.elem_of_cons ? ?; [|by eapply Hall]. by assert (h' = h) as -> by congruence.
    + destruct Hor as [->|(t' & ? & ? & ?)]; [|right; exists t'; set_solver].
      destruct (Z.ltb_spec h lowest); [|by left]. right. exists t. set_solver.
  - assert (visit_tip provider (lowest, stack) t = Ok (lowest, t :: stack)) as -> by (cbn; by rewrite Eo).
    cbn [mbind res_bind].
    destruct (IH ltac:(set_solver) lowest (t :: stack)) as (lowest' & new & -> & Hsz & Hel & Hle & Hall & Hor).
    exists lowest', (new ++ [t]). rewrite <- (assoc_L (++)), sum_list_with_app. cbn [sum_list_with].
    split; [done|]. split; [lia|]. split; [set_solver|]. split; [done|]. split.
    + intros t' h' [->|Ht']%list.elem_of_cons ? ?; [congruence|by eapply Hall].
    + destruct Hor as [->|(t' & ? & ? & ?)]; [by left|]. right. exists t'. set_solver.
Qed.

(** The invariant of the walk from [root]. *)
Record lowest_inv (root : Hash) (lowest : Z) (processed : gset Hash) (stack : list Hash) : Prop := {
  lowest_cone x : x ∈ processed \/ x ∈ stack -> rtc unordered_step root x;
  lowest_closed x t : x ∈ processed -> unordered_step x t -> t ∈ processed \/ t ∈ stack;
  lowest_below x t h : x ∈ processed -> t ∈ tips_of provider x -> is_block_topological_ordered provider t = Ok true ->
    get_height_for_block_hash provider t = Ok h -> lowest <= h;
  lowest_reached : lowest = u64_max \/ frontier_height root lowest;
  lowest_max : lowest <= u64_max;
}.

Lemma lowest_height_total (size : Hash -> nat) root fuel lowest processed stack :
  (forall x, (sum_list_with size (tips_of provider x) < size x)%nat) ->
  (forall x, rtc unordered_step root x -> readable_tips_of x) ->
  (sum_list_with size stack <= fuel)%nat ->
  lowest_inv root lowest processed stack ->
  exists lowest' processed', lowest_height_loop fuel provider lowest processed stack = Ok lowest' /\
    lowest_inv root lowest' processed' [] /\ processed ⊆ processed' /\ forall x, x ∈ stack -> x ∈ processed'.
Proof.
  intros Hsize Hread. revert lowest processed stack.
  induction fuel as [|fuel IH]; intros lowest processed [|x stack] Hf Hinv; cbn [lowest_height_loop];
    cbn [sum_list_with] in Hf;
    [exists lowest, processed; split_and!; [done..|set_solver] | specialize (Hsize x); lia
    | exists lowest, processed; split_and!; [done..|set_solver] |].
  specialize (Hsize x) as Hsx. case_decide as Hp.
  - destruct (IH lowest processed stack) as (l' & p' & -> & Hinv' & Hsub & Hall); [lia| |].
    + split; [|..|apply Hinv|apply Hinv].
      * intros y Hy. apply (lowest_cone _ _ _ _ Hinv). set_solver.
      * intros y t Hy Hst. destruct (lowest_closed _ _ _ _ Hinv y t Hy Hst); [by left|]. set_solver.
      * apply (lowest_below _ _ _ _ Hinv).
    + exists l', p'. split_and!; [done..|set_solver].
  - assert (rtc unordered_step root x) as Hx by (apply (lowest_cone _ _ _ _ Hinv); right; left).
    pose proof (Hread x Hx) as Hrx. pose proof Hrx as [Hok _]. unfold tips_of in Hsx.
    destruct (get_past_blocks_for_block_hash provider x) as [tips| | |] eqn:Et; try done. cbn [mbind res_bind].
    assert (tips_of provider x = iset_list tips) as Etips by (unfold tips_of; by rewrite Et).
    destruct (visit_tips_spec x (iset_list tips) lowest stack size) as (l1 & new & -> & Hsz & Hel & Hle & Hall & Hor);
      [by rewrite Etips|done|]. cbn [mbind res_bind].
    destruct (IH l1 ({[x]} ∪ processed) (new ++ stack)) as (l' & p' & -> & Hinv' & Hsub & Hall').
    + rewrite sum_list_with_app. lia.
    + split.
      * intros y Hy. assert (y = x \/ y ∈ new \/ (y ∈ processed \/ y ∈ x :: stack)) as [->|[Hn%Hel|Hy']].
        { rewrite elem_of_union, elem_of_singleton, elem_of_app in Hy. rewrite list.elem_of_cons. tauto. }
        { done. }
        -- destruct Hn as [Hn1 Hn2]. eapply rtc_r; [done|]. split; [by rewrite Etips|done].
        -- by apply (lowest_cone _ _ _ _ Hinv).
      * intros y t [->%elem_of_singleton|Hy]%elem_of_union Hst.
        -- right. apply elem_of_app. left. apply Hel. destruct Hst as [H1 H2]. by rewrite Etips in H1.
        -- destruct (lowest_closed _ _ _ _ Hinv y t Hy Hst); set_solver.
      * intros y t h [->%elem_of_singleton|Hy]%elem_of_union Ht Ho Hh.
        -- eapply Hall; [by rewrite Etips in Ht|done..].
        -- etrans; [exact Hle|]. by eapply (lowest_below _ _ _ _ Hinv).
      * destruct Hor as [->|(t & ? & ? & ?)]; [apply Hinv|]. right. exists x, t. by rewrite Etips.
      * pose proof (lowest_max _ _ _ _ Hinv). lia.
    + exists l', p'. split_and!; [done..|set_solver|]. intros y [->|Hy]%list.elem_of_cons; [set_solver|].
      apply Hall'. set_solver.
Qed.

(** The lowest height of the ordered blocks met first, if any. *)
Lemma find_lowest_height_total (height : Hash -> nat) root :
  dag provider height -> (forall x, rtc unordered_step root x -> readable_tips_of x) ->
  exists k, forall fuel, (k <= fuel)%nat -> exists lowest,
    find_lowest_height_from_mainchain fuel provider root = Ok lowest /\
    (lowest = u64_max \/ frontier_height root lowest) /\
    lowest <= u64_max /\ forall h, frontier_height root h -> lowest <= h.
Proof.
  intros Hdag Hread. destruct (tree_sizes (tips_of provider) height Hdag) as [size Hsize].
  exists (size root). intros fuel Hf.
  destruct (lowest_height_total size root fuel u64_max ∅ [root] Hsize Hread) as (lowest & processed & Hl & Hinv & _ & Hall).
  - cbn. lia.
  - split; [|set_solver|set_solver|by left|done].
    intros x [Hx|Hx]; [set_solver|]. apply list_elem_of_singleton in Hx as ->. constructor.
  - exists lowest. split; [exact Hl|]. split; [apply Hinv|]. split; [apply Hinv|].
    intros h (x & t & Hx & Ht & Ho & Hh). eapply (lowest_below _ _ _ _ Hinv); [|done..].
    clear Ht. revert x Hx. apply rtc_ind_r; [apply Hall; left|]. intros x y _ Hst IHx.
    destruct (lowest_closed _ _ _ _ Hinv x y IHx Hst) as [|Hin]; [done|]. by apply not_elem_of_nil in Hin.
Qed.

Lemma distance_run (height : Hash -> nat) (hash : Hash)
    (Hdag : dag provider height) (Hread : forall x, rtc unordered_step hash x -> readable_tips_of x)
    (Hself : is_ok (is_block_topological_ordered provider hash) = true) :
  exists k, forall fuel, (k <= fuel)%nat ->
    (is_block_topological_ordered provider hash = Ok true ->
       calculate_distance_from_mainchain fuel provider hash = get_height_for_block_hash provider hash) /\
    (is_block_topological_ordered provider hash = Ok false -> exists lowest,
       calculate_distance_from_mainchain fuel provider hash = Ok lowest /\
       (lowest = u64_max \/ frontier_height hash lowest) /\
       forall h, frontier_height hash h -> lowest <= h).
Proof.
  destruct (find_lowest_height_total height hash Hdag Hread) as [k Hk]. exists k. intros fuel Hf.
  unfold calculate_distance_from_mainchain. split; intros ->; [done|]. cbn [mbind res_bind].
  destruct (Hk fuel Hf) as (lowest & H1 & H2 & _ & H4). eauto.
Qed.
(** The distance of a tip from the main chain is its own height when it is
    ordered, and otherwise the lowest height among the ordered blocks that the
    unordered ones under it rest on; the walk ends. *)
Theorem distance_from_mainchain_spec (height : Hash -> nat) (hash : Hash)
    (Hdag : dag provider height) (Hread : forall x, rtc unordered_step hash x -> readable_tips_of x)
    (Hself : is_ok (is_block_topological_ordered provider hash) = true) :
  exists k, forall fuel, (k <= fuel)%nat ->
    (is_block_topological_ordered provider hash = Ok true ->
       calculate_distance_from_mainchain fuel provider hash = get_height_for_block_hash provider hash) /\
    (is_block_topological_ordered provider hash = Ok false -> exists lowest,
       calculate_distance_from_mainchain fuel provider hash = Ok lowest /\
       (lowest = u64_max \/ frontier_height hash lowest) /\
       forall h, frontier_height hash h -> lowest <= h).
Proof. exact (distance_run height hash Hdag Hread Hself). Qed.
End Distance.

(** ** Witnesses: two blocks on the genesis and one on both *)

#[local] Existing Instances u256_model iset_model hash_map_model g_difficulties g_order.
#[local] Instance work_lru : LruLib (Hash * Hash * Z) (gset Hash * VarUint.t) := lru_model _ _.
#[local] Instance g_laws : DifficultyProviderLaws unit.
Proof. by split. Qed.

Lemma g_tips_of x : tips_of tt x = g_tips x.
Proof.
  unfold tips_of. cbn [get_past_blocks_for_block_hash g_difficulties]. rewrite iset_of_list; [done|].
  unfold g_tips. repeat case_decide; apply (bool_decide_unpack _); vm_compute; exact I.
Qed.

Lemma g_dag_heights : dag tt g_height.
Proof. intros x t. rewrite g_tips_of. exact (proj1 (list.Forall_forall _ _) (g_heights x) t). Qed.

Lemma g_readable base_topoheight x : readable_block tt base_topoheight x.
Proof.
  split; [done|]. split; [done|]. intros t _. unfold above_base. cbn. by destruct (bool_decide _).
Qed.

Lemma g_workable base x : workable tt base x.
Proof. by split; [|intros; apply g_readable| |]. Qed.

Lemma g_work_coherent n : work_coherent tt (lru_new n).
Proof. by intros h b bh set score ?%lru_new_spec. Qed.

Lemma tip_work_score_spec_witness :
  exists k set, work_set tt (g_hash 4) (g_hash 1) set /\
    forall base_height fuel (cache : lru (Hash * Hash * Z) (gset Hash * VarUint.t)),
    (k <= fuel)%nat -> work_coherent tt cache ->
    let '(r, cache') := find_tip_work_score fuel tt (g_hash 4) (g_hash 1) base_height cache in
    work_coherent tt cache' /\
    if decide (work_of (weight_in tt (g_hash 4) (g_hash 1)) set < 2 ^ 256) then
      exists score, r = Ok (set, score) /\ VarUint.val score = work_of (weight_in tt (g_hash 4) (g_hash 1)) set
    else r = Panic.
Proof. exact (tip_work_score_spec tt (g_hash 4) (g_hash 1) g_height g_dag_heights (g_workable _ _)). Defined.

Lemma g_above_genesis : not_below_base tt 0 (g_hash 1).
Proof. right. split; [vm_compute; reflexivity|]. by exists 0. Qed.

Lemma g_side_cone n x : n = 2 \/ n = 3 -> rtc (above_step tt 0) (g_hash n) x <-> x = g_hash n \/ x = g_hash 1.
Proof.
  intros Hn. assert (g_tips (g_hash n) = [g_hash 1]) as En by (destruct Hn as [-> | ->]; vm_compute; reflexivity).
  assert (g_tips (g_hash 1) = []) as E1 by (vm_compute; reflexivity). split.
  - intros [->|(y & [Hy _] & Hyx)]%rtc_inv; [by left|]. right. rewrite g_tips_of, En in Hy.
    apply list_elem_of_singleton in Hy as ->.
    apply rtc_inv in Hyx as [->|(z & [Hz _] & _)]; [done|]. rewrite g_tips_of, E1 in Hz. by apply not_elem_of_nil in Hz.
  - intros [-> | ->]; [constructor|]. apply rtc_once. split; [rewrite g_tips_of, En; left|apply g_above_genesis].
Qed.

Lemma g_pair (a b x : Hash) : x ∈ ({[a; b]} : gset Hash) <-> (x = a \/ x = b) \/ x = b.
Proof. set_solver. Qed.

Lemma g_side_work n : n = 2 \/ n = 3 ->
  work_of (weight_in tt (g_hash n) (g_hash 1)) {[g_hash n; g_hash 1]} = 6.
Proof.
  intros Hn. assert (g_hash n <> g_hash 1) as Hne
    by (apply (bool_decide_eq_false_1 _); destruct Hn as [-> | ->]; vm_compute; reflexivity).
  unfold work_of. rewrite (sumZ_Permutation _ _ [g_hash n; g_hash 1]).
  - destruct Hn as [-> | ->]; vm_compute; reflexivity.
  - rewrite elements_disj_union, !elements_singleton; [reflexivity|].
    apply disjoint_singleton_l, not_elem_of_singleton. exact Hne.
Qed.

Lemma g_works : works tt (g_hash 1) (fun _ => 6) (elements ({[g_hash 2; g_hash 3]} : gset Hash)).
Proof.
  intros h [->%elem_of_singleton| ->%elem_of_singleton]%elem_of_elements%elem_of_union.
  - exists {[g_hash 2; g_hash 1]}. split; [|split; [symmetry; apply g_side_work; lia|lia]].
    exists 0. split; [done|]. intros x. rewrite g_side_cone by lia. apply g_pair.
  - exists {[g_hash 3; g_hash 1]}. split; [|split; [symmetry; apply g_side_work; lia|lia]].
    exists 0. split; [done|]. intros x. rewrite g_side_cone by lia. apply g_pair.
Qed.

Lemma find_best_tip_spec_witness :
  exists best k, best ∈ ({[g_hash 2; g_hash 3]} : gset Hash) /\
    (forall h, h ∈ ({[g_hash 2; g_hash 3]} : gset Hash) -> h = best \/ 6 < 6 \/ 6 = 6 /\ hash_val h < hash_val best) /\
    forall fuel, (k <= fuel)%nat -> exists cache',
      find_best_tip fuel tt {[g_hash 2; g_hash 3]} (g_hash 1) 0 (lru_new 0) = (Ok best, cache') /\ work_coherent tt cache'.
Proof.
  apply (find_best_tip_spec tt {[g_hash 2; g_hash 3]} (g_hash 1) 0 g_height (fun _ => 6) (lru_new 0) g_dag_heights
    (fun h _ => g_workable _ h) g_works).
  - intros E. apply (not_elem_of_empty (C:=gset Hash) (g_hash 2)). rewrite <- E. by apply elem_of_union_l, elem_of_singleton.
  - apply g_work_coherent.
Defined.

Lemma non_reachability_spec_witness :
  exists k, forall fuel, (k <= fuel)%nat -> exists b,
    verify_non_reachability fuel tt (iset_extend iset_new [g_hash 2; g_hash 3]) = Ok b /\
    (b = false -> exists a c, a ∈ iset_list (iset_extend iset_new [g_hash 2; g_hash 3]) /\
       c ∈ iset_list (iset_extend iset_new [g_hash 2; g_hash 3]) /\ a <> c /\ rtc (past_step tt) a c) /\
    (b = true -> forall a c, a ∈ iset_list (iset_extend iset_new [g_hash 2; g_hash 3]) ->
       c ∈ iset_list (iset_extend iset_new [g_hash 2; g_hash 3]) -> a <> c ->
       Z.of_nat (g_height a) <= Z.of_nat (g_height c) + LEVEL_LIMIT -> ~ rtc (past_step tt) a c).
Proof.
  exact (non_reachability_spec tt (iset_extend iset_new [g_hash 2; g_hash 3]) g_height g_dag_heights
    (fun a x _ _ => eq_refl)).
Defined.

Lemma distance_from_mainchain_spec_witness :
  exists k, forall fuel, (k <= fuel)%nat ->
    (is_block_topological_ordered tt (g_hash 4) = Ok true ->
       calculate_distance_from_mainchain fuel tt (g_hash 4) = get_height_for_block_hash tt (g_hash 4)) /\
    (is_block_topological_ordered tt (g_hash 4) = Ok false -> exists lowest,
       calculate_distance_from_mainchain fuel tt (g_hash 4) = Ok lowest /\
       (lowest = u64_max \/ frontier_height tt (g_hash 4) lowest) /\
       forall h, frontier_height tt (g_hash 4) h -> lowest <= h).
Proof.
  exact (distance_from_mainchain_spec tt g_height (g_hash 4) g_dag_heights
    (fun x _ => conj eq_refl (fun t _ => conj eq_refl (fun _ => eq_refl))) eq_refl).
Defined.
