(* ===== verification/BlockProviders.v ===== *)
(** The traits of [core/storage/providers/] that give access to the blocks, and
    what they promise.

    [DagView] is the abstract content of a block storage: the headers, the
    topoheight of the ordered blocks, the difficulties, the blocks of each
    height, the pruned topoheight.  [view_of] says that a provider shows such a
    content, and that the content is a DAG whose heights are those the chain
    checks ([calculate_height_at_tips]).  The algorithms of the DAG are proved
    against it. *)

From S2P Require Import Prelude External ExternalModel ExternalCrypto Serializer Hash VarUint Elgamal Block Errors Dag Providers DagOrder DagWalks.

Section Traits.
Context {IS : IndexSetLib Hash}.

Class BlocksAtHeightProvider (S : Type) := {
  get_blocks_at_height : S -> Z -> bres (iset Hash);
}.

Class PrunedTopoheightProvider (S : Type) := {
  get_pruned_topoheight : S -> bres (option Z);
}.

Class BlockProvider (S : Type) := {
  has_block_with_hash : S -> Hash -> bres bool;
}.
End Traits.

Section View.
Context {UL : U256Lib} {IS : IndexSetLib Hash}.

Record DagView := mkView {
  v_header : Hash -> option BlockHeader;
  v_topo : Hash -> option Z;
  v_difficulty : Hash -> VarUint.t;
  v_cumulative : Hash -> VarUint.t;
  v_pruned : option Z;
}.

Definition stored (v : DagView) (h : Hash) : Prop := is_Some (v.(v_header) h).
Definition v_tips (v : DagView) (h : Hash) : list Hash :=
  match v.(v_header) h with Some b => iset_list b.(bh_tips) | None => [] end.
Definition v_height (v : DagView) (h : Hash) : Z :=
  match v.(v_header) h with Some b => b.(bh_height) | None => 0 end.

(** The stored blocks form a DAG, and the height of a block is one more than
    the largest height of its tips. *)
Record view_wf (v : DagView) : Prop := {
  view_range h : stored v h -> in_u 63 (v_height v h);
  view_tips_stored h t : stored v h -> t ∈ v_tips v h -> stored v t;
  view_tips_height h t : stored v h -> t ∈ v_tips v h -> v_height v t < v_height v h;
  view_height_tips h : stored v h -> v_height v h <> 0 ->
    exists t, t ∈ v_tips v h /\ v_height v t = v_height v h - 1;
  view_topo_stored h topo : v.(v_topo) h = Some topo -> stored v h /\ in_u 64 topo;
}.

Context {S : Type} {DP : DifficultyProvider S} {DO : DagOrderProvider S}.
Context {BH : BlocksAtHeightProvider S} {PR : PrunedTopoheightProvider S}.

(** The provider shows the content [v]. *)
Record view_of (provider : S) (v : DagView) : Prop := {
  view_is_wf : view_wf v;
  view_header h : match v.(v_header) h with
    | Some b => get_block_header_by_hash provider h = Ok b
    | None => is_ok (get_block_header_by_hash provider h) = false
    end;
  view_ordered h : is_block_topological_ordered provider h = Ok (bool_decide (is_Some (v.(v_topo) h)));
  view_topo h topo : v.(v_topo) h = Some topo -> get_topo_height_for_hash provider h = Ok topo;
  view_difficulty h : stored v h -> get_difficulty_for_block_hash provider h = Ok (v.(v_difficulty) h);
  view_cumulative h : stored v h -> get_cumulative_difficulty_for_block_hash provider h = Ok (v.(v_cumulative) h);
  view_at_height x : stored v x -> exists s, get_blocks_at_height provider (v_height v x) = Ok s /\
    forall h, h ∈ iset_list s <-> stored v h /\ v_height v h = v_height v x;
  view_pruned : get_pruned_topoheight provider = Ok v.(v_pruned);
}.
End View.

(** ** The accessors of a view *)
Section ViewFacts.
Context {UL : U256Lib} {IS : IndexSetLib Hash}.
Context {S : Type} {DP : DifficultyProvider S} {DL : DifficultyProviderLaws S} {DO : DagOrderProvider S}.
Context {BH : BlocksAtHeightProvider S} {PR : PrunedTopoheightProvider S}.
Context (provider : S) (v : DagView) (Hv : view_of provider v).

Lemma stored_header h : stored v h -> exists b, v.(v_header) h = Some b /\ get_block_header_by_hash provider h = Ok b.
Proof using Hv. intros [b Hb]. exists b. split; [done|]. pose proof (view_header _ _ Hv h) as H. by rewrite Hb in H. Qed.

Lemma stored_height h : stored v h -> get_height_for_block_hash provider h = Ok (v_height v h).
Proof using Hv DL. intros (b & Hb & Hg)%stored_header. unfold v_height. by rewrite height_of_header, Hg, Hb. Qed.

Lemma stored_tips h : stored v h -> exists tips, get_past_blocks_for_block_hash provider h = Ok tips /\ iset_list tips = v_tips v h.
Proof using Hv DL. intros (b & Hb & Hg)%stored_header. unfold v_tips. exists b.(bh_tips). by rewrite tips_of_header, Hg, Hb. Qed.

Lemma tips_of_view h : tips_of provider h = v_tips v h.
Proof using Hv DL.
  unfold tips_of, v_tips. pose proof (view_header _ _ Hv h) as Hh. rewrite tips_of_header.
  destruct (v_header v h) as [b|]; [by rewrite Hh|].
  destruct (get_block_header_by_hash provider h); done.
Qed.

(** The heights make it a DAG. *)
Lemma dag_of_view : dag provider (fun h => Z.to_nat (v_height v h)).
Proof using Hv DL.
  intros x t. rewrite tips_of_view. intros Ht. pose proof (view_is_wf _ _ Hv) as Hwf.
  assert (stored v x) as Hx by (unfold v_tips in Ht; unfold stored; destruct (v_header v x); [eauto|set_solver]).
  pose proof (view_tips_height _ Hwf x t Hx Ht). pose proof (view_tips_stored _ Hwf x t Hx Ht) as Hst.
  pose proof (view_range _ Hwf t Hst) as [? _]. lia.
Qed.

Lemma above_base_view base_topo h : is_ok (above_base provider base_topo h) = true.
Proof using Hv.
  unfold above_base. rewrite (view_ordered _ _ Hv h). cbn [mbind res_bind].
  destruct (v_topo v h) as [topo|] eqn:E; cbn.
  - by rewrite (view_topo _ _ Hv h topo E).
  - done.
Qed.

Lemma stored_reach x y : stored v x -> rtc (past_step provider) x y -> stored v y.
Proof using Hv DL.
  intros Hx. induction 1 as [|x t y Hst _ IH]; [done|]. apply IH. unfold past_step in Hst. rewrite tips_of_view in Hst.
  eapply view_tips_stored; [by eapply view_is_wf|done..].
Qed.

(** What the walks of [DagWalks] ask for. *)
Lemma readable_of_view base_topo x : stored v x -> readable_block provider base_topo x.
Proof using Hv DL.
  intros Hx. destruct (stored_tips x Hx) as (tips & Ht & _). split; [by rewrite Ht|].
  rewrite (view_difficulty _ _ Hv x Hx). split; [done|]. intros t _. apply above_base_view.
Qed.

Lemma workable_of_view base hash :
  stored v hash -> is_Some (v.(v_topo) base) -> workable provider base hash.
Proof using Hv DL.
  intros Hh [topo Ht]. destruct (stored_header hash Hh) as (b & _ & Hb). split.
  - by rewrite Hb.
  - intros base_topo x _ Hx. apply readable_of_view. apply (stored_reach hash); [done|].
    eapply rtc_subrel; [|exact Hx]. by intros ? ? [? _].
  - by rewrite (view_topo _ _ Hv base topo Ht).
  - intros _. rewrite (view_cumulative _ _ Hv); [done|]. by eapply view_topo_stored; [eapply view_is_wf|].
Qed.

Lemma readable_tips_of_view x : stored v x -> readable_tips_of provider x.
Proof using Hv DL.
  intros Hx. destruct (stored_tips x Hx) as (tips & Ht & Et). split; [by rewrite Ht|]. intros t.
  rewrite tips_of_view. intros Hin. rewrite (view_ordered _ _ Hv t). split; [done|]. intros _.
  by rewrite stored_height by (by eapply view_tips_stored; [eapply view_is_wf|..]).
Qed.
End ViewFacts.

(** ** A concrete storage: the genesis, two blocks on it and one on both *)

#[local] Existing Instances u256_model iset_model.
#[local] Opaque g_hash.

Definition b_stored : list Hash := [g_hash 1; g_hash 2; g_hash 3; g_hash 4].
Definition b_header (h : Hash) : option BlockHeader := if decide (h ∈ b_stored) then Some (g_header h) else None.
Definition b_get (h : Hash) : bres BlockHeader := ok_or (b_header h) BlockchainError.Unknown.
Definition b_topo (h : Hash) : option Z := if decide (h = g_hash 1) then Some 0 else None.
Definition b_at (height : Z) : list Hash :=
  if height =? 0 then [g_hash 1] else if height =? 1 then [g_hash 2; g_hash 3] else if height =? 2 then [g_hash 4] else [].

Definition b_difficulties : DifficultyProvider unit := {|
  get_height_for_block_hash _ h := (b ← b_get h; Ok b.(bh_height));
  get_timestamp_for_block_hash _ h := (b ← b_get h; Ok b.(bh_timestamp));
  get_difficulty_for_block_hash _ _ := Ok (VarUint.from_u64 1);
  get_cumulative_difficulty_for_block_hash _ _ := Ok (VarUint.from_u64 5);
  get_past_blocks_for_block_hash _ h := (b ← b_get h; Ok b.(bh_tips));
  get_block_header_by_hash _ h := b_get h;
  get_estimated_covariance_for_block_hash _ _ := Ok VarUint.one;
  set_cumulative_difficulty_for_block_hash _ _ := mret tt;
|}.
Definition b_order : DagOrderProvider unit := {|
  get_topo_height_for_hash _ h := ok_or (b_topo h) BlockchainError.Unknown;
  get_hash_at_topo_height _ t := Ok (g_hash 1);
  is_block_topological_ordered _ h := Ok (bool_decide (is_Some (b_topo h)));
  set_topo_height_for_block _ _ := mret tt;
|}.
Definition b_heights : BlocksAtHeightProvider unit := {| get_blocks_at_height _ z := Ok (iset_extend iset_new (b_at z)) |}.
Definition b_pruned : PrunedTopoheightProvider unit := {| get_pruned_topoheight _ := Ok None |}.
Definition b_blocks : BlockProvider unit := {| has_block_with_hash _ h := Ok (bool_decide (is_Some (b_header h))) |}.
#[local] Existing Instances b_difficulties b_order b_heights b_pruned.

Lemma b_laws : DifficultyProviderLaws (DP:=b_difficulties) unit.
Proof. by split. Qed.

Definition b_view : DagView := {|
  v_header := b_header;
  v_topo := b_topo;
  v_difficulty _ := VarUint.from_u64 1;
  v_cumulative _ := VarUint.from_u64 5;
  v_pruned := None;
|}.

Lemma b_stored_iff h : stored b_view h <-> h ∈ b_stored.
Proof. unfold stored. cbn. unfold b_header. case_decide; [done|]. split; [by intros [? ?]|done]. Qed.

(** What a well-formed view asks of each stored block, computed. *)
Definition b_ok (h : Hash) : Prop :=
  in_u 63 (v_height b_view h) /\
  Forall (fun t => t ∈ b_stored /\ v_height b_view t < v_height b_view h) (v_tips b_view h) /\
  (v_height b_view h = 0 \/ Exists (fun t => v_height b_view t = v_height b_view h - 1) (v_tips b_view h)) /\
  b_at (v_height b_view h) = filter (fun x => v_height b_view x = v_height b_view h) b_stored.

Lemma b_all_ok : Forall b_ok b_stored.
Proof.
  assert (Forall (fun h => bool_decide (in_u 63 (v_height b_view h)) &&
    bool_decide (Forall (fun t => t ∈ b_stored /\ v_height b_view t < v_height b_view h) (v_tips b_view h)) &&
    bool_decide (v_height b_view h = 0 \/ Exists (fun t => v_height b_view t = v_height b_view h - 1) (v_tips b_view h)) &&
    bool_decide (b_at (v_height b_view h) = filter (fun x => v_height b_view x = v_height b_view h) b_stored) = true) b_stored)
    as Hall by (apply (bool_decide_unpack _); vm_compute; exact I).
  eapply list.Forall_impl; [exact Hall|]. intros h. rewrite !andb_true_iff, !bool_decide_eq_true. unfold b_ok. tauto.
Qed.

Lemma b_stored_ok h : stored b_view h -> b_ok h.
Proof. intros Hh%b_stored_iff. exact (proj1 (list.Forall_forall _ _) b_all_ok h Hh). Qed.

Lemma b_view_wf : view_wf b_view.
Proof.
  split; intros h; [|intros t|intros t| |].
  - by intros [? _]%b_stored_ok.
  - intros (_ & Ht & _)%b_stored_ok. rewrite list.Forall_forall in Ht. intros Hin. apply b_stored_iff. exact (proj1 (Ht t Hin)).
  - intros (_ & Ht & _)%b_stored_ok. rewrite list.Forall_forall in Ht. intros Hin. exact (proj2 (Ht t Hin)).
  - intros (_ & _ & [?|He] & _)%b_stored_ok Hn; [done|]. apply list.Exists_exists in He. exact He.
  - intros topo. cbn. unfold b_topo. case_decide as E; [|done]. intros [= <-]. split; [|done].
    apply b_stored_iff. rewrite E. left.
Qed.

Lemma b_at_NoDup z : NoDup (b_at z).
Proof. unfold b_at. repeat case_match; apply (bool_decide_unpack _); vm_compute; exact I. Qed.

(** The provider shows the view. *)
Lemma b_view_of : view_of tt b_view.
Proof.
  split; [apply b_view_wf|intros h..|done].
  - cbn. unfold b_get. by destruct (b_header h).
  - done.
  - intros topo E. cbn in E |- *. by rewrite E.
  - done.
  - done.
  - intros Hh%b_stored_iff. cbn [get_blocks_at_height b_heights]. eexists. split; [reflexivity|]. intros x.
    rewrite iset_of_list by apply b_at_NoDup.
    destruct (b_stored_ok h) as (_ & _ & _ & ->); [by apply b_stored_iff|]. rewrite list_elem_of_filter, b_stored_iff. tauto.
Qed.
