(* ===== verification/BlockStorage.v ===== *)
(** [xelis_daemon::core::storage]: the blocks and the transactions in the
    on-disk storage.

    The providers of [storage/providers/] over the trees of [BlockTrees]:
    [block.rs], [transaction.rs], [blockdag.rs], [blocks_at_height.rs],
    [block_execution_order.rs], [difficulty.rs], [merkle.rs],
    [pruned_topoheight.rs], and the parts of [sled.rs] that delete a block and
    keep the tips and the tops of the chain.  As in [Storage], the LRU caches
    are those of a storage opened without a cache size.
    [BlockStorageFacts] has its theorems. *)

From S2P Require Import Prelude External ExternalModel ExternalCrypto Serializer Hash VarUint Defaults Elgamal Proofs Transaction Block Errors Account Versions Storage ClientProtocol.

Section Trees.
Context {CV : Curve} {ML : Merlin} {RP : RangeProofLib} {SL : SledLib} {HM : HashMapIter} {UL : U256Lib} {IS : IndexSetLib Hash}.
#[local] Existing Instance hash_set_Serializer.

Definition put_transactions x b := mkBlockTrees x b.(t_blocks_execution_order) b.(t_blocks)
  b.(t_blocks_at_height) b.(t_cumulative_difficulty) b.(t_difficulty_covariance) b.(t_rewards) b.(t_supply)
  b.(t_difficulty) b.(t_merkle_hashes) b.(tips_cache) b.(pruned_topoheight) b.(transactions_count)
  b.(blocks_count) b.(blocks_execution_count).
Definition put_blocks_execution_order x b := mkBlockTrees b.(t_transactions) x b.(t_blocks)
  b.(t_blocks_at_height) b.(t_cumulative_difficulty) b.(t_difficulty_covariance) b.(t_rewards) b.(t_supply)
  b.(t_difficulty) b.(t_merkle_hashes) b.(tips_cache) b.(pruned_topoheight) b.(transactions_count)
  b.(blocks_count) b.(blocks_execution_count).
Definition put_blocks x b := mkBlockTrees b.(t_transactions) b.(t_blocks_execution_order) x
  b.(t_blocks_at_height) b.(t_cumulative_difficulty) b.(t_difficulty_covariance) b.(t_rewards) b.(t_supply)
  b.(t_difficulty) b.(t_merkle_hashes) b.(tips_cache) b.(pruned_topoheight) b.(transactions_count)
  b.(blocks_count) b.(blocks_execution_count).
Definition put_blocks_at_height x b := mkBlockTrees b.(t_transactions) b.(t_blocks_execution_order) b.(t_blocks)
  x b.(t_cumulative_difficulty) b.(t_difficulty_covariance) b.(t_rewards) b.(t_supply) b.(t_difficulty)
  b.(t_merkle_hashes) b.(tips_cache) b.(pruned_topoheight) b.(transactions_count) b.(blocks_count)
  b.(blocks_execution_count).
Definition put_cumulative_difficulty x b := mkBlockTrees b.(t_transactions) b.(t_blocks_execution_order)
  b.(t_blocks) b.(t_blocks_at_height) x b.(t_difficulty_covariance) b.(t_rewards) b.(t_supply) b.(t_difficulty)
  b.(t_merkle_hashes) b.(tips_cache) b.(pruned_topoheight) b.(transactions_count) b.(blocks_count)
  b.(blocks_execution_count).
Definition put_difficulty_covariance x b := mkBlockTrees b.(t_transactions) b.(t_blocks_execution_order)
  b.(t_blocks) b.(t_blocks_at_height) b.(t_cumulative_difficulty) x b.(t_rewards) b.(t_supply) b.(t_difficulty)
  b.(t_merkle_hashes) b.(tips_cache) b.(pruned_topoheight) b.(transactions_count) b.(blocks_count)
  b.(blocks_execution_count).
Definition put_rewards x b := mkBlockTrees b.(t_transactions) b.(t_blocks_execution_order) b.(t_blocks)
  b.(t_blocks_at_height) b.(t_cumulative_difficulty) b.(t_difficulty_covariance) x b.(t_supply) b.(t_difficulty)
  b.(t_merkle_hashes) b.(tips_cache) b.(pruned_topoheight) b.(transactions_count) b.(blocks_count)
  b.(blocks_execution_count).
Definition put_supply x b := mkBlockTrees b.(t_transactions) b.(t_blocks_execution_order) b.(t_blocks)
  b.(t_blocks_at_height) b.(t_cumulative_difficulty) b.(t_difficulty_covariance) b.(t_rewards) x
  b.(t_difficulty) b.(t_merkle_hashes) b.(tips_cache) b.(pruned_topoheight) b.(transactions_count)
  b.(blocks_count) b.(blocks_execution_count).
Definition put_difficulty x b := mkBlockTrees b.(t_transactions) b.(t_blocks_execution_order) b.(t_blocks)
  b.(t_blocks_at_height) b.(t_cumulative_difficulty) b.(t_difficulty_covariance) b.(t_rewards) b.(t_supply) x
  b.(t_merkle_hashes) b.(tips_cache) b.(pruned_topoheight) b.(transactions_count) b.(blocks_count)
  b.(blocks_execution_count).
Definition put_merkle_hashes x b := mkBlockTrees b.(t_transactions) b.(t_blocks_execution_order) b.(t_blocks)
  b.(t_blocks_at_height) b.(t_cumulative_difficulty) b.(t_difficulty_covariance) b.(t_rewards) b.(t_supply)
  b.(t_difficulty) x b.(tips_cache) b.(pruned_topoheight) b.(transactions_count) b.(blocks_count)
  b.(blocks_execution_count).
Definition put_tips_cache x b := mkBlockTrees b.(t_transactions) b.(t_blocks_execution_order) b.(t_blocks)
  b.(t_blocks_at_height) b.(t_cumulative_difficulty) b.(t_difficulty_covariance) b.(t_rewards) b.(t_supply)
  b.(t_difficulty) b.(t_merkle_hashes) x b.(pruned_topoheight) b.(transactions_count) b.(blocks_count)
  b.(blocks_execution_count).
Definition put_pruned_topoheight x b := mkBlockTrees b.(t_transactions) b.(t_blocks_execution_order)
  b.(t_blocks) b.(t_blocks_at_height) b.(t_cumulative_difficulty) b.(t_difficulty_covariance) b.(t_rewards)
  b.(t_supply) b.(t_difficulty) b.(t_merkle_hashes) b.(tips_cache) x b.(transactions_count) b.(blocks_count)
  b.(blocks_execution_count).
Definition put_transactions_count x b := mkBlockTrees b.(t_transactions) b.(t_blocks_execution_order)
  b.(t_blocks) b.(t_blocks_at_height) b.(t_cumulative_difficulty) b.(t_difficulty_covariance) b.(t_rewards)
  b.(t_supply) b.(t_difficulty) b.(t_merkle_hashes) b.(tips_cache) b.(pruned_topoheight) x b.(blocks_count)
  b.(blocks_execution_count).
Definition put_blocks_count x b := mkBlockTrees b.(t_transactions) b.(t_blocks_execution_order) b.(t_blocks)
  b.(t_blocks_at_height) b.(t_cumulative_difficulty) b.(t_difficulty_covariance) b.(t_rewards) b.(t_supply)
  b.(t_difficulty) b.(t_merkle_hashes) b.(tips_cache) b.(pruned_topoheight) b.(transactions_count) x
  b.(blocks_execution_count).
Definition put_blocks_execution_count x b := mkBlockTrees b.(t_transactions) b.(t_blocks_execution_order)
  b.(t_blocks) b.(t_blocks_at_height) b.(t_cumulative_difficulty) b.(t_difficulty_covariance) b.(t_rewards)
  b.(t_supply) b.(t_difficulty) b.(t_merkle_hashes) b.(tips_cache) b.(pruned_topoheight) b.(transactions_count)
  b.(blocks_count) x.

Definition on_trees (f : BlockTrees -> BlockTrees) (st : SledStorage) : SledStorage :=
  with_block_trees (f st.(block_trees)) st.

Definition on_tree {A} (get : SledStorage -> tree) (put : tree -> SledStorage -> SledStorage)
    (m : stm tree blockchain_error A) : stm SledStorage blockchain_error A := fun st =>
  let '(r, t) := m (get st) in (r, put t st).

(** [count.fetch_add], [count - done]: the counters are [u64]. *)
Definition TXS_COUNT : list byte := String.list_byte_of_string "CTXS"%string.
Definition BLOCKS_COUNT : list byte := String.list_byte_of_string "CBLK"%string.
Definition PRUNED_TOPOHEIGHT : list byte := String.list_byte_of_string "PRUN"%string.
Definition TIPS : list byte := String.list_byte_of_string "TIPS"%string.
Definition TOP_TOPO_HEIGHT : list byte := String.list_byte_of_string "TOPO"%string.
Definition TOP_HEIGHT : list byte := String.list_byte_of_string "TOPH"%string.

(** ** sled.rs *)

(** Without a cache, [delete_data] and [delete_cacheable_data] do the same, and
    [contains_data] looks at the tree alone. *)
Definition contains_data (t : tree) (key : list byte) : bres bool := Ok (tree_contains key t).
Definition delete_data {T} {SZ : Serializer T} (key : list byte) : stm tree blockchain_error T :=
  delete_cacheable_data key.

(** ** providers/transaction.rs *)

Definition store_transactions_count (count : Z) (st : SledStorage) : SledStorage :=
  insert_extra TXS_COUNT (be_bytes 8 count) (on_trees (put_transactions_count count) st).
Definition get_transaction (hash : Hash) (st : SledStorage) : bres Transaction :=
  load_from_disk st.(block_trees).(t_transactions) (hash_bytes hash) DiskContext.GetTransaction.
Definition get_transaction_size (hash : Hash) (st : SledStorage) : bres Z :=
  match tree_get (hash_bytes hash) st.(block_trees).(t_transactions) with
  | Some data => Ok (Z.of_nat (length data))
  | None => Err (BlockchainError.NotFoundOnDisk DiskContext.LoadData)
  end.
Definition has_transaction (hash : Hash) (st : SledStorage) : bres bool :=
  contains_data st.(block_trees).(t_transactions) (hash_bytes hash).
Definition count_transactions (st : SledStorage) : Z := st.(block_trees).(transactions_count).

Definition on_tx_blocks {A} := on_tree (A:=A) tx_blocks with_tx_blocks.
Definition on_transactions {A} :=
  on_tree (A:=A) (fun st => st.(block_trees).(t_transactions)) (fun t => on_trees (put_transactions t)).
Definition delete_transaction (hash : Hash) : stm SledStorage blockchain_error Transaction :=
  _ ← on_tx_blocks (delete_cacheable_data (T:=gset Hash) (hash_bytes hash));
  on_transactions (delete_data (hash_bytes hash)).

(** ** providers/difficulty.rs *)

Definition get_block_header_by_hash (hash : Hash) (st : SledStorage) : bres BlockHeader :=
  load_from_disk st.(block_trees).(t_blocks) (hash_bytes hash) DiskContext.GetBlockHeaderByHash.
Definition get_height_for_block_hash (hash : Hash) (st : SledStorage) : bres Z :=
  block ← get_block_header_by_hash hash st;
  Ok block.(bh_height).
Definition get_timestamp_for_block_hash (hash : Hash) (st : SledStorage) : bres Z :=
  block ← get_block_header_by_hash hash st;
  Ok block.(bh_timestamp).
Definition get_past_blocks_for_block_hash (hash : Hash) (st : SledStorage) : bres (iset Hash) :=
  block ← get_block_header_by_hash hash st;
  Ok block.(bh_tips).
Definition get_difficulty_for_block_hash (hash : Hash) (st : SledStorage) : bres VarUint.t :=
  load_from_disk st.(block_trees).(t_difficulty) (hash_bytes hash) DiskContext.DifficultyForBlockHash.
Definition get_cumulative_difficulty_for_block_hash (hash : Hash) (st : SledStorage) : bres VarUint.t :=
  load_from_disk st.(block_trees).(t_cumulative_difficulty) (hash_bytes hash) DiskContext.CumulativeDifficultyForBlockHash.
Definition get_estimated_covariance_for_block_hash (hash : Hash) (st : SledStorage) : bres VarUint.t :=
  load_from_disk st.(block_trees).(t_difficulty_covariance) (hash_bytes hash) DiskContext.EstimatedCovarianceForBlockHash.
Definition set_cumulative_difficulty_for_block_hash (hash : Hash) (cumulative_difficulty : VarUint.t) (st : SledStorage)
  : SledStorage :=
  on_trees (fun b => put_cumulative_difficulty
    (tree_insert (hash_bytes hash) (to_bytes cumulative_difficulty) b.(t_cumulative_difficulty)).2 b) st.
Definition set_estimated_covariance_for_block_hash (hash : Hash) (p : VarUint.t) (st : SledStorage) : SledStorage :=
  on_trees (fun b => put_difficulty_covariance
    (tree_insert (hash_bytes hash) (to_bytes p) b.(t_difficulty_covariance)).2 b) st.

(** ** providers/blocks_at_height.rs *)

Record OrderedHashes := mkOrderedHashes { ordered_hashes : iset Hash }.

(** The loop of [OrderedHashes::read]. *)
Fixpoint read_ordered (count : nat) (hashes : iset Hash) : rd (iset Hash) :=
  match count with
  | O => mret hashes
  | S count => hash ← read_hash; read_ordered count (iset_insert hash hashes).2
  end.
#[export] Instance OrderedHashes_Serializer : Serializer OrderedHashes := {|
  write s w := foldl (fun w hash => write_hash hash w) w (iset_list s.(ordered_hashes));
  read := fun reader =>
    let total_size := Reader.total_size reader in
    if negb (total_size mod HASH_SIZE =? 0)%nat then Err InvalidSize
    else
      let count := (total_size / HASH_SIZE)%nat in
      (hashes ← read_ordered count iset_new;
       if negb (iset_len hashes =? count)%nat then rd_err InvalidSize
       else mret (mkOrderedHashes hashes)) reader;
  size := default_size (fun s w => foldl (fun w hash => write_hash hash w) w (iset_list s.(ordered_hashes)));
|}.

Definition has_blocks_at_height (height : Z) (st : SledStorage) : bres bool :=
  Ok (tree_contains (be_bytes 8 height) st.(block_trees).(t_blocks_at_height)).
Definition get_blocks_at_height (height : Z) (st : SledStorage) : bres (iset Hash) :=
  hashes ← load_from_disk (T:=OrderedHashes) st.(block_trees).(t_blocks_at_height) (be_bytes 8 height) DiskContext.BlocksAtHeight;
  Ok hashes.(ordered_hashes).
Definition set_blocks_at_height (tips : iset Hash) (height : Z) (st : SledStorage) : SledStorage :=
  on_trees (fun b => put_blocks_at_height
    (tree_insert (be_bytes 8 height) (to_bytes (mkOrderedHashes tips)) b.(t_blocks_at_height)).2 b) st.
Definition add_block_hash_at_height (hash : Hash) (height : Z) : stm SledStorage blockchain_error () :=
  st ← st_get;
  tips ← lift_res (b ← has_blocks_at_height height st;
                   if (b : bool) then get_blocks_at_height height st else Ok iset_new);
  st_modify (set_blocks_at_height (iset_insert hash tips).2 height).
Definition remove_block_hash_at_height (hash : Hash) (height : Z) : stm SledStorage blockchain_error () :=
  st ← st_get;
  tips ← lift_res (get_blocks_at_height height st);
  let tips := (iset_shift_remove hash tips).2 in
  if iset_is_empty tips then
    st_modify (on_trees (fun b => put_blocks_at_height (tree_remove (be_bytes 8 height) b.(t_blocks_at_height)).2 b))
  else st_modify (set_blocks_at_height tips height).

(** ** providers/block.rs *)

Definition store_blocks_count (count : Z) (st : SledStorage) : SledStorage :=
  insert_extra BLOCKS_COUNT (be_bytes 8 count) (on_trees (put_blocks_count count) st).
Definition has_blocks (st : SledStorage) : bool := negb (tree_len st.(block_trees).(t_blocks) =? 0)%nat.
Definition count_blocks (st : SledStorage) : Z := st.(block_trees).(blocks_count).
Definition has_block_with_hash (hash : Hash) (st : SledStorage) : bres bool :=
  contains_data st.(block_trees).(t_blocks) (hash_bytes hash).

(** The loop of [save_block] over the transactions: it counts the new ones. *)
Definition save_transaction (txs_count : Z) (p : Hash * Transaction) : stm SledStorage blockchain_error Z :=
  st ← st_get;
  b ← lift_res (has_transaction p.1 st);
  if negb b then
    _ ← st_modify (on_trees (fun b => put_transactions
          (tree_insert (hash_bytes p.1) (to_bytes p.2) b.(t_transactions)).2 b));
    mret (txs_count + 1)
  else mret txs_count.

Definition store_header (hash : Hash) (block : BlockHeader) (st : SledStorage) : SledStorage :=
  let '(old, t) := tree_insert (hash_bytes hash) (to_bytes block) st.(block_trees).(t_blocks) in
  let st := on_trees (put_blocks t) st in
  match old with
  | None => store_blocks_count (u64_add (count_blocks st) 1) st
  | Some _ => st
  end.
Definition store_difficulty (hash : Hash) (difficulty : VarUint.t) (st : SledStorage) : SledStorage :=
  on_trees (fun b => put_difficulty (tree_insert (hash_bytes hash) (to_bytes difficulty) b.(t_difficulty)).2 b) st.

Definition save_block (block : BlockHeader) (txs : list Transaction) (difficulty p : VarUint.t) (hash : Hash)
  : stm SledStorage blockchain_error () :=
  txs_count ← foldMs save_transaction 0 (zip (iset_list block.(bh_txs_hashes)) txs);
  _ ← (if 0 <? txs_count
       then st_modify (fun st => store_transactions_count (u64_add (count_transactions st) txs_count) st)
       else mret tt);
  _ ← st_modify (store_header hash block);
  _ ← st_modify (store_difficulty hash difficulty);
  _ ← st_modify (set_estimated_covariance_for_block_hash hash p);
  add_block_hash_at_height hash block.(bh_height).

Definition get_block_by_hash (hash : Hash) (st : SledStorage) : bres Block :=
  block ← get_block_header_by_hash hash st;
  transactions ← mapMr (fun tx => get_transaction tx st) (iset_list block.(bh_txs_hashes));
  Ok (mkBlock block transactions).

(** ** providers/blockdag.rs *)

Definition get_block_header_at_topoheight (topoheight : Z) (st : SledStorage) : bres (Hash * BlockHeader) :=
  hash ← get_hash_at_topo_height topoheight st;
  block ← get_block_header_by_hash hash st;
  Ok (hash, block).
Definition get_block_reward_at_topo_height (topoheight : Z) (st : SledStorage) : bres Z :=
  load_from_disk (SZ:=u64_Serializer) st.(block_trees).(t_rewards) (be_bytes 8 topoheight) DiskContext.BlockRewardAtTopoHeight.
Definition get_supply_at_topo_height (topoheight : Z) (st : SledStorage) : bres Z :=
  load_from_disk (SZ:=u64_Serializer) st.(block_trees).(t_supply) (be_bytes 8 topoheight) DiskContext.SupplyAtTopoHeight.
Definition set_block_reward_at_topo_height (topoheight reward : Z) (st : SledStorage) : SledStorage :=
  on_trees (fun b => put_rewards (tree_insert (be_bytes 8 topoheight) (be_bytes 8 reward) b.(t_rewards)).2 b) st.
Definition set_supply_at_topo_height (topoheight supply : Z) (st : SledStorage) : SledStorage :=
  on_trees (fun b => put_supply (tree_insert (be_bytes 8 topoheight) (be_bytes 8 supply) b.(t_supply)).2 b) st.

(** ** providers/block_execution_order.rs *)

Definition get_blocks_execution_order (skip count : nat) (st : SledStorage) : bres (iset Hash) :=
  order ← mapMr (fun kv => map_err BlockchainError.ErrorOnReader (from_bytes (A:=Hash) kv.1))
            (take count (drop skip (tree_iter st.(block_trees).(t_blocks_execution_order))));
  Ok (iset_extend iset_new order).
Definition get_block_position_in_order (hash : Hash) (st : SledStorage) : bres Z :=
  load_from_disk (SZ:=u64_Serializer) st.(block_trees).(t_blocks_execution_order) (hash_bytes hash)
    DiskContext.SearchBlockPositionInOrder.
Definition has_block_position_in_order (hash : Hash) (st : SledStorage) : bres bool :=
  Ok (tree_contains (hash_bytes hash) st.(block_trees).(t_blocks_execution_order)).
Definition add_block_execution_to_order (hash : Hash) (st : SledStorage) : SledStorage :=
  let position := st.(block_trees).(blocks_execution_count) in
  let st := on_trees (put_blocks_execution_count (u64_add position 1)) st in
  on_trees (fun b => put_blocks_execution_order
    (tree_insert (hash_bytes hash) (be_bytes 8 position) b.(t_blocks_execution_order)).2 b) st.
Definition get_blocks_execution_count (st : SledStorage) : Z := st.(block_trees).(blocks_execution_count).

(** ** providers/merkle.rs, providers/pruned_topoheight.rs *)

Definition get_balances_merkle_hash_at_topoheight (topoheight : Z) (st : SledStorage) : bres Hash :=
  load_from_disk st.(block_trees).(t_merkle_hashes) (be_bytes 8 topoheight) DiskContext.BalancesMerkleHashAtTopoHeight.
Definition set_balances_merkle_hash_at_topoheight (topoheight : Z) (merkle_proof : Hash) (st : SledStorage) : SledStorage :=
  on_trees (fun b => put_merkle_hashes (tree_insert (be_bytes 8 topoheight) (hash_bytes merkle_proof) b.(t_merkle_hashes)).2 b) st.
Definition set_pruned_topoheight (pruned_topoheight : Z) (st : SledStorage) : SledStorage :=
  insert_extra PRUNED_TOPOHEIGHT (be_bytes 8 pruned_topoheight) (on_trees (put_pruned_topoheight (Some pruned_topoheight)) st).
Definition get_pruned_topoheight (st : SledStorage) : bres (option Z) := Ok st.(block_trees).(pruned_topoheight).

(** ** sled.rs: the tips and the tops of the chain *)

Definition get_tips (st : SledStorage) : bres (gset Hash) := Ok st.(block_trees).(tips_cache).
Definition store_tips (tips : gset Hash) (st : SledStorage) : SledStorage :=
  on_trees (put_tips_cache tips) (insert_extra TIPS (to_bytes tips) st).
Definition get_top_topoheight (st : SledStorage) : bres Z :=
  load_from_disk (SZ:=u64_Serializer) st.(extra) TOP_TOPO_HEIGHT DiskContext.TopTopoHeight.
Definition set_top_topoheight (topoheight : Z) (st : SledStorage) : SledStorage :=
  insert_extra TOP_TOPO_HEIGHT (be_bytes 8 topoheight) st.
Definition get_top_height (st : SledStorage) : bres Z :=
  load_from_disk (SZ:=u64_Serializer) st.(extra) TOP_HEIGHT DiskContext.TopHeight.
Definition set_top_height (height : Z) (st : SledStorage) : SledStorage :=
  insert_extra TOP_HEIGHT (be_bytes 8 height) st.
Definition get_top_block_hash (st : SledStorage) : bres Hash :=
  topoheight ← get_top_topoheight st;
  get_hash_at_topo_height topoheight st.
Definition get_top_block_header (st : SledStorage) : bres (BlockHeader * Hash) :=
  hash ← get_top_block_hash st;
  block ← get_block_header_by_hash hash st;
  Ok (block, hash).
Definition get_top_block (st : SledStorage) : bres Block :=
  '(block, _) ← get_top_block_header st;
  transactions ← mapMr (fun tx => get_transaction tx st) (iset_list block.(bh_txs_hashes));
  Ok (mkBlock block transactions).

(** ** sled.rs: deleting a block *)

Definition on_block_tree {A} (get : BlockTrees -> tree) (put : tree -> BlockTrees -> BlockTrees)
    (m : stm tree blockchain_error A) : stm SledStorage blockchain_error A :=
  on_tree (fun st => get st.(block_trees)) (fun t => on_trees (put t)) m.

(** The block leaves the set of those that include the transaction. *)
Definition unlink_tx (hash tx_hash : Hash) : stm SledStorage blockchain_error () :=
  st ← st_get;
  linked ← lift_res (has_tx_blocks tx_hash st);
  if (linked : bool) then
    blocks ← on_tx_blocks (delete_cacheable_data (T:=gset Hash) (hash_bytes tx_hash));
    st_modify (set_blocks_for_tx tx_hash (blocks ∖ {[hash]}))
  else mret tt.
Definition unexecute_tx (tx_hash : Hash) : stm SledStorage blockchain_error () :=
  st ← st_get;
  executed ← lift_res (is_tx_executed_in_a_block tx_hash st);
  if (executed : bool) then st_modify (remove_tx_executed tx_hash) else mret tt.
(** The loop of [delete_block_at_topoheight] over the transactions. *)
Definition delete_block_tx (hash : Hash) (txs : list (Hash * Transaction)) (tx_hash : Hash)
  : stm SledStorage blockchain_error (list (Hash * Transaction)) :=
  _ ← unlink_tx hash tx_hash;
  _ ← unexecute_tx tx_hash;
  st ← st_get;
  b ← lift_res (contains_data st.(block_trees).(t_transactions) (hash_bytes tx_hash));
  if (b : bool) then
    tx ← on_transactions (delete_data (T:=Transaction) (hash_bytes tx_hash));
    mret (txs ++ [(tx_hash, tx)])
  else mret txs.

Definition delete_block_at_topoheight (topoheight : Z)
  : stm SledStorage blockchain_error (Hash * BlockHeader * list (Hash * Transaction)) :=
  hash ← on_tree hash_at_topo (fun t st => with_order st.(topo_by_hash) t st)
           (delete_cacheable_data (T:=Hash) (be_bytes 8 topoheight));
  _ ← on_tree topo_by_hash (fun t st => with_order t st.(hash_at_topo) st)
        (delete_cacheable_data (SZ:=u64_Serializer) (hash_bytes hash));
  block ← on_block_tree t_blocks put_blocks (delete_data (T:=BlockHeader) (hash_bytes hash));
  _ ← on_block_tree t_supply put_supply (delete_cacheable_data (SZ:=u64_Serializer) (be_bytes 8 topoheight));
  _ ← on_block_tree t_rewards put_rewards (delete_cacheable_data (SZ:=u64_Serializer) (be_bytes 8 topoheight));
  _ ← on_block_tree t_difficulty put_difficulty (delete_cacheable_data (T:=VarUint.t) (hash_bytes hash));
  _ ← on_block_tree t_cumulative_difficulty put_cumulative_difficulty
        (delete_cacheable_data (T:=VarUint.t) (hash_bytes hash));
  txs ← foldMs (delete_block_tx hash) [] (iset_list block.(bh_txs_hashes));
  st ← st_get;
  b ← lift_res (has_blocks_at_height block.(bh_height) st);
  _ ← (if (b : bool) then remove_block_hash_at_height hash block.(bh_height) else mret tt);
  mret (hash, block, txs).
End Trees.
