(* ===== verification/BlockStorageFacts.v ===== *)
(** The on-disk storage of the blocks keeps the promises of its traits.

    [BlockContent] is the abstract content: the headers, transactions,
    difficulties and order of the blocks ([DagView], and the transactions).
    [blocks_hold] says that the trees hold it.  Such a storage shows the view
    ([blocks_hold_view]), and [save_block] adds one block to the content. *)

From S2P Require Import Prelude External ExternalModel ExternalCrypto Serializer Hash VarUint Defaults Elgamal Proofs Transaction Block Errors Account Versions Storage ClientProtocol VersionedTree StorageFacts BlockStorage Dag Providers DagOrder DagWalks BlockProviders.

(** ** The implementation of the traits *)
Section Sled.
Context {CV : Curve} {ML : Merlin} {RP : RangeProofLib} {SL : SledLib} {HM : HashMapIter} {UL : U256Lib} {IS : IndexSetLib Hash}.
#[local] Existing Instance hash_set_Serializer.

#[export] Instance sled_difficulty : DifficultyProvider SledStorage := {|
  get_height_for_block_hash st h := BlockStorage.get_height_for_block_hash h st;
  get_timestamp_for_block_hash st h := BlockStorage.get_timestamp_for_block_hash h st;
  get_difficulty_for_block_hash st h := BlockStorage.get_difficulty_for_block_hash h st;
  get_cumulative_difficulty_for_block_hash st h := BlockStorage.get_cumulative_difficulty_for_block_hash h st;
  get_past_blocks_for_block_hash st h := BlockStorage.get_past_blocks_for_block_hash h st;
  get_block_header_by_hash st h := BlockStorage.get_block_header_by_hash h st;
  get_estimated_covariance_for_block_hash st h := BlockStorage.get_estimated_covariance_for_block_hash h st;
  set_cumulative_difficulty_for_block_hash h d := st_modify (BlockStorage.set_cumulative_difficulty_for_block_hash h d);
|}.
#[export] Instance sled_difficulty_laws : DifficultyProviderLaws SledStorage.
Proof. by split. Qed.
#[export] Instance sled_at_height : BlocksAtHeightProvider SledStorage := {|
  get_blocks_at_height st z := BlockStorage.get_blocks_at_height z st;
|}.
#[export] Instance sled_pruned : PrunedTopoheightProvider SledStorage := {|
  get_pruned_topoheight st := BlockStorage.get_pruned_topoheight st;
|}.
#[export] Instance sled_blocks : BlockProvider SledStorage := {|
  has_block_with_hash st h := BlockStorage.has_block_with_hash h st;
|}.

(** ** [OrderedHashes] *)

Definition ordered_enc (s : iset Hash) : list byte := concat_bytes hash_bytes (iset_list s).
Lemma ordered_to_bytes s : to_bytes (mkOrderedHashes s) = ordered_enc s.
Proof.
  unfold to_bytes. cbn [write OrderedHashes_Serializer ordered_hashes].
  unfold ordered_enc. assert (forall l w, foldl (fun w h => write_hash h w) w l = Writer.write_bytes (concat_bytes hash_bytes l) w) as ->.
  { exact (fun l w => foldl_write l w). }
  done.
Qed.

Lemma read_ordered_run l s pre post :
  NoDup (iset_list s ++ l) ->
  exists s', read_ordered (length l) s (reader_at pre (concat_bytes hash_bytes l ++ post)) =
    Ok (s', reader_at (pre ++ concat_bytes hash_bytes l) post) /\ iset_list s' = iset_list s ++ l.
Proof.
  revert s pre. induction l as [|h l IH]; intros s pre Hnd; cbn [read_ordered length].
  - exists s. by rewrite !app_nil_r.
  - destruct (iset_insert_fresh h s) as (s1 & Hs1 & El1).
    { apply list.NoDup_app in Hnd as (_ & Hd & _). intros Hin. apply (Hd h Hin). left. }
    destruct (IH s1 (pre ++ hash_bytes h)) as (s' & Hr & El).
    { rewrite El1, <- (assoc_L (++)). exact Hnd. }
    exists s'. split; [|by rewrite El, El1, <- (assoc_L (++))].
    rewrite concat_bytes_cons, <- (assoc_L (++)). rd_step; [|done]. rewrite Hs1. cbn [snd]. rewrite Hr.
    by rewrite <- (assoc_L (++)).
Qed.

Lemma ordered_roundtrip s : from_bytes (to_bytes (mkOrderedHashes s)) = Ok (mkOrderedHashes s).
Proof.
  rewrite ordered_to_bytes. unfold from_bytes. cbn [read OrderedHashes_Serializer].
  assert (length (ordered_enc s) = (iset_len s * HASH_SIZE)%nat) as Hl by apply length_hashes_enc.
  assert (Reader.total_size (Reader.new (ordered_enc s)) = (iset_len s * HASH_SIZE)%nat) as -> by exact Hl.
  rewrite Nat.Div0.mod_mul, Nat.eqb_refl, Nat.div_mul by done. cbn [negb].
  destruct (read_ordered_run (iset_list s) iset_new [] []) as (s' & Hr & El).
  { rewrite iset_new_spec. apply iset_NoDup. }
  rewrite app_nil_r, iset_new_spec in *. cbn [app] in *.
  assert (s' = s) as -> by by apply iset_ext.
  change (Reader.new (ordered_enc s)) with (reader_at [] (concat_bytes hash_bytes (iset_list s))).
  unfold iset_len, mbind, rd_bind, res_bind in *. rewrite Hr. by rewrite Nat.eqb_refl.
Qed.

(** ** The content of the storage *)

Definition tx_store : Type := Hash -> option Transaction.

(** The trees hold the blocks of [v] and the transactions of [txs], each value
    as it is encoded. *)
Record blocks_hold (v : DagView) (txs : tx_store) (st : SledStorage) : Prop := {
  hold_wf : view_wf v;
  hold_header h : tree_get (hash_bytes h) st.(block_trees).(t_blocks) = to_bytes <$> v.(v_header) h;
  hold_header_wf h b : v.(v_header) h = Some b -> header_wf b;
  hold_tx h : tree_get (hash_bytes h) st.(block_trees).(t_transactions) = to_bytes <$> txs h;
  hold_tx_wf h tx : txs h = Some tx -> transaction_wf tx;
  hold_difficulty h : stored v h ->
    tree_get (hash_bytes h) st.(block_trees).(t_difficulty) = Some (to_bytes (v.(v_difficulty) h));
  hold_cumulative h : stored v h ->
    tree_get (hash_bytes h) st.(block_trees).(t_cumulative_difficulty) = Some (to_bytes (v.(v_cumulative) h));
  hold_at_height z : in_u 63 z -> exists s : iset Hash,
    tree_get (be_bytes 8 z) st.(block_trees).(t_blocks_at_height) =
      (if iset_is_empty s then None else Some (to_bytes (mkOrderedHashes s))) /\
    forall h, h ∈ iset_list s <-> stored v h /\ v_height v h = z;
  hold_topo h topo : v.(v_topo) h = Some topo ->
    tree_get (hash_bytes h) st.(topo_by_hash) = Some (be_bytes 8 topo) /\
    tree_get (be_bytes 8 topo) st.(hash_at_topo) = Some (hash_bytes h);
  hold_unordered h : v.(v_topo) h = None -> is_block_topological_ordered st h = Ok false;
  hold_pruned : st.(block_trees).(pruned_topoheight) = v.(v_pruned);
}.

Lemma load_value {T} {SZ : Serializer T} {SO : SerOk T} (t : tree) k c (x : T) :
  ser_wf x -> tree_get k t = Some (to_bytes x) -> load_from_disk t k c = Ok x.
Proof. intros Hx E. unfold load_from_disk. rewrite E. by rewrite (from_bytes_to_bytes x). Qed.

Lemma load_missing {T} {SZ : Serializer T} (t : tree) k c :
  tree_get k t = None -> load_from_disk (T:=T) t k c = Err (BlockchainError.NotFoundOnDisk c).
Proof. intros E. unfold load_from_disk. by rewrite E. Qed.

Section Hold.
Context (v : DagView) (txs : tx_store) (st : SledStorage) (Hst : blocks_hold v txs st).

Lemma hold_header_read h :
  BlockStorage.get_block_header_by_hash h st =
    ok_or (v.(v_header) h) (BlockchainError.NotFoundOnDisk DiskContext.GetBlockHeaderByHash).
Proof using Hst.
  unfold BlockStorage.get_block_header_by_hash. pose proof (hold_header _ _ _ Hst h) as E.
  destruct (v_header v h) as [b|] eqn:Hb; simpl in *.
  - apply load_value; [by eapply hold_header_wf|done].
  - by apply load_missing.
Qed.

Lemma hold_tx_read h :
  get_transaction h st = ok_or (txs h) (BlockchainError.NotFoundOnDisk DiskContext.GetTransaction).
Proof using Hst.
  unfold get_transaction. pose proof (hold_tx _ _ _ Hst h) as E. destruct (txs h) as [tx|] eqn:Ht; simpl in *.
  - apply load_value; [by eapply hold_tx_wf|done].
  - by apply load_missing.
Qed.

Lemma hold_topo_read h topo : v.(v_topo) h = Some topo ->
  get_topo_height_for_hash st h = Ok topo /\ is_block_topological_ordered st h = Ok true.
Proof using Hst.
  intros Ht. destruct (hold_topo _ _ _ Hst h topo Ht) as [E1 E2].
  pose proof (view_topo_stored _ (hold_wf _ _ _ Hst) h topo Ht) as [_ Hu].
  assert (get_topo_height_for_hash st h = Ok topo) as Hg by by apply load_u64. split; [done|].
  cbn [is_block_topological_ordered sled_order] in *. unfold Storage.is_block_topological_ordered.
  cbn [get_topo_height_for_hash sled_order] in Hg. rewrite Hg. cbn [or_false]. unfold Storage.get_hash_at_topo_height.
  change (hash_bytes h) with (to_bytes h) in E2. rewrite (load_value _ _ _ h) by done. cbn [or_false].
  by rewrite bool_decide_true.
Qed.

(** The storage shows the content. *)
Lemma blocks_hold_view : view_of st v.
Proof using Hst.
  pose proof (hold_wf _ _ _ Hst) as Hwf. split.
  - done.
  - intros h. cbn [get_block_header_by_hash sled_difficulty]. rewrite hold_header_read. by destruct (v_header v h).
  - intros h. destruct (v_topo v h) as [topo|] eqn:E.
    + destruct (hold_topo_read h topo E) as [_ ->]. by rewrite bool_decide_true by by eexists.
    + rewrite (hold_unordered _ _ _ Hst h E). by rewrite bool_decide_false by by intros [? ?].
  - intros h topo E. by apply hold_topo_read.
  - intros h Hh. by apply (load_value _ _ _ (v_difficulty v h)), (hold_difficulty _ _ _ Hst).
  - intros h Hh. by apply (load_value _ _ _ (v_cumulative v h)), (hold_cumulative _ _ _ Hst).
  - intros x Hx. destruct (hold_at_height _ _ _ Hst (v_height v x)) as (s & E & Hs); [by apply Hwf|].
    exists s. split; [|done]. cbn [get_blocks_at_height sled_at_height]. unfold BlockStorage.get_blocks_at_height.
    assert (iset_is_empty s = false) as Hne.
    { unfold iset_is_empty. assert (x ∈ iset_list s) as Hin by by apply Hs.
      destruct (iset_list s); [by apply not_elem_of_nil in Hin|done]. }
    rewrite Hne in E. unfold load_from_disk. rewrite E, ordered_roundtrip. done.
  - cbn [get_pruned_topoheight sled_pruned]. unfold BlockStorage.get_pruned_topoheight. by rewrite (hold_pruned _ _ _ Hst).
Qed.
End Hold.

(** ** Saving a block *)

Definition add_block (hash : Hash) (block : BlockHeader) (difficulty cumulative : VarUint.t) (v : DagView) : DagView := {|
  v_header := fn_upd hash (Some block) v.(v_header);
  v_topo := v.(v_topo);
  v_difficulty := fn_upd hash difficulty v.(v_difficulty);
  v_cumulative := fn_upd hash cumulative v.(v_cumulative);
  v_pruned := v.(v_pruned);
|}.
(** A transaction already stored is kept. *)
Definition add_tx (txs : tx_store) (p : Hash * Transaction) : tx_store :=
  match txs p.1 with Some _ => txs | None => fn_upd p.1 (Some p.2) txs end.

(** The block can be put on the blocks of [v]. *)
Record attachable (v : DagView) (block : BlockHeader) : Prop := {
  at_wf : header_wf block;
  at_height : in_u 63 block.(bh_height);
  at_tips t : t ∈ iset_list block.(bh_tips) -> stored v t /\ v_height v t < block.(bh_height);
  at_parent : block.(bh_height) <> 0 ->
    exists t, t ∈ iset_list block.(bh_tips) /\ v_height v t = block.(bh_height) - 1;
}.

Section AddView.
Context (v : DagView) (hash : Hash) (block : BlockHeader) (difficulty cumulative : VarUint.t).
Context (Hwf : view_wf v) (Hnew : v.(v_header) hash = None) (Hat : attachable v block).
Abbreviation v' := (add_block hash block difficulty cumulative v).

Lemma add_stored h : stored v' h <-> h = hash \/ stored v h.
Proof using Hnew.
  unfold stored. cbn. destruct (decide (h = hash)) as [->|Hne].
  - rewrite fn_upd_eq. split; [by left|by eexists].
  - rewrite fn_upd_ne by done. naive_solver.
Qed.
Lemma old_not_new h : stored v h -> h <> hash.
Proof using Hnew. intros [b Hb] ->. congruence. Qed.
Lemma add_height_old h : stored v h -> v_height v' h = v_height v h.
Proof using Hnew. intros Hh%old_not_new. unfold v_height. cbn. by rewrite fn_upd_ne. Qed.
Lemma add_height_new : v_height v' hash = block.(bh_height).
Proof. unfold v_height. cbn. by rewrite fn_upd_eq. Qed.
Lemma add_tips_old h : stored v h -> v_tips v' h = v_tips v h.
Proof using Hnew. intros Hh%old_not_new. unfold v_tips. cbn. by rewrite fn_upd_ne. Qed.
Lemma add_tips_new : v_tips v' hash = iset_list block.(bh_tips).
Proof. unfold v_tips. cbn. by rewrite fn_upd_eq. Qed.

Lemma add_view_wf : view_wf v'.
Proof using Hwf Hnew Hat.
  split.
  - intros h [->|Hh]%add_stored; [rewrite add_height_new; apply Hat|]. rewrite add_height_old by done. by apply Hwf.
  - intros h t [->|Hh]%add_stored; rewrite ?add_tips_new, ?add_tips_old by done; intros Ht; apply add_stored; right.
    + by apply (at_tips _ _ Hat).
    + by apply (view_tips_stored _ Hwf h).
  - intros h t [->|Hh]%add_stored; rewrite ?add_tips_new, ?add_tips_old by done; intros Ht.
    + destruct (at_tips _ _ Hat t Ht) as [Hs Hlt]. by rewrite add_height_new, add_height_old.
    + rewrite !add_height_old by first [done|by apply (view_tips_stored _ Hwf h)]. by apply (view_tips_height _ Hwf h).
  - intros h [->|Hh]%add_stored; rewrite ?add_height_new, ?add_tips_new, ?add_height_old, ?add_tips_old by done; intros Hn.
    + destruct (at_parent _ _ Hat Hn) as (t & Ht & Eh). exists t. split; [done|].
      rewrite add_height_old; [done|]. by apply (at_tips _ _ Hat).
    + destruct (view_height_tips _ Hwf h Hh Hn) as (t & Ht & Eh). exists t. split; [done|].
      rewrite add_height_old; [done|]. by apply (view_tips_stored _ Hwf h).
  - intros h topo Ht. destruct (view_topo_stored _ Hwf h topo Ht) as [Hs Hu]. split; [|done]. apply add_stored. by right.
Qed.
End AddView.

(** The loop over the transactions changes only their tree. *)
Definition same_but_txs (st st' : SledStorage) : Prop :=
  exists t, st' = on_trees (put_transactions t) st.

Lemma save_transaction_run txs n p st :
  (forall h, tree_get (hash_bytes h) st.(block_trees).(t_transactions) = to_bytes <$> txs h) ->
  exists n' st', save_transaction n p st = (Ok n', st') /\ same_but_txs st st' /\ (n' = n \/ n' = n + 1) /\
    forall h, tree_get (hash_bytes h) st'.(block_trees).(t_transactions) = to_bytes <$> add_tx txs p h.
Proof.
  intros Htx. unfold save_transaction, has_transaction, contains_data, tree_contains, add_tx.
  unfold mbind, stm_bind, st_get, lift_res, st_modify. cbn [fst snd]. rewrite Htx.
  destruct (txs p.1) as [tx|] eqn:Ep; cbn.
  - exists n, st. split_and!; [done| |by left|done]. exists st.(block_trees).(t_transactions).
    destruct st as [? ? ? ? ? ? ? ? ? ? ? ? ? ? ? []]. done.
  - eexists _, _. split_and!; [done|by eexists|by right|]. intros h. cbn. destruct (decide (h = p.1)) as [->|Hne].
    + by rewrite tree_get_insert, fn_upd_eq.
    + rewrite tree_get_insert_ne, fn_upd_ne by first [done|by intros ?%hash_bytes_inj]. apply Htx.
Qed.

Lemma same_but_txs_trans st1 st2 st3 : same_but_txs st1 st2 -> same_but_txs st2 st3 -> same_but_txs st1 st3.
Proof. intros [t ->] [t' ->]. by exists t'. Qed.

Lemma save_transactions_run l txs n st :
  (forall h, tree_get (hash_bytes h) st.(block_trees).(t_transactions) = to_bytes <$> txs h) ->
  exists n' st', foldMs save_transaction n l st = (Ok n', st') /\ same_but_txs st st' /\ n <= n' <= n + Z.of_nat (length l) /\
    forall h, tree_get (hash_bytes h) st'.(block_trees).(t_transactions) = to_bytes <$> foldl add_tx txs l h.
Proof.
  revert txs n st. induction l as [|p l IH]; intros txs n st Htx; cbn [foldMs foldl].
  - exists n, st. split_and!; [done| |lia|simpl; lia|done]. exists st.(block_trees).(t_transactions).
    destruct st as [? ? ? ? ? ? ? ? ? ? ? ? ? ? ? []]. done.
  - destruct (save_transaction_run txs n p st Htx) as (n1 & st1 & Hr & Hs & Hn & Ht).
    destruct (IH _ n1 st1 Ht) as (n' & st' & Hr' & Hs' & Hn' & Ht'). exists n', st'.
    rewrite (stm_bind_run _ _ _ _ _ Hr). cbn [length]. split_and!; [done|by eapply same_but_txs_trans|lia|lia|done].
Qed.

Lemma add_tx_keeps txs p h tx : txs h = Some tx -> add_tx txs p h = Some tx.
Proof.
  intros Hh. unfold add_tx. destruct (txs p.1) eqn:E; [done|]. rewrite fn_upd_ne; [done|]. intros ->. congruence.
Qed.
Lemma add_txs_keeps l txs h tx : txs h = Some tx -> foldl add_tx txs l h = Some tx.
Proof. revert txs. induction l as [|p l IH]; intros txs Hh; [done|]. simpl. by apply IH, add_tx_keeps. Qed.
Lemma add_txs_wf l txs :
  (forall h tx, txs h = Some tx -> transaction_wf tx) -> Forall (fun p => transaction_wf p.2) l ->
  forall h tx, foldl add_tx txs l h = Some tx -> transaction_wf tx.
Proof.
  revert txs. induction l as [|p l IH]; intros txs Htx Hl; [done|]. simpl. apply list.Forall_cons in Hl as [Hp Hl].
  apply IH; [|done]. intros h tx. unfold add_tx. destruct (txs p.1); [by apply Htx|].
  destruct (decide (h = p.1)) as [->|Hne]; [rewrite fn_upd_eq; by intros [= <-]|rewrite fn_upd_ne by done; by apply Htx].
Qed.
Lemma add_txs_lookup l txs h tx :
  NoDup l.*1 -> (h, tx) ∈ l -> txs h = None \/ txs h = Some tx -> foldl add_tx txs l h = Some tx.
Proof.
  revert txs. induction l as [|p l IH]; intros txs Hnd Hin Ht; [by apply not_elem_of_nil in Hin|]. simpl.
  csimpl in Hnd. apply list.NoDup_cons in Hnd as [Hn Hnd]. apply list.elem_of_cons in Hin as [<-|Hin].
  - apply add_txs_keeps. unfold add_tx. cbn. destruct Ht as [Ht|Ht]; rewrite Ht; [apply fn_upd_eq|done].
  - apply IH; [done|done|]. unfold add_tx. destruct (txs p.1); [done|]. rewrite fn_upd_ne; [done|].
    intros ->. apply Hn. apply list_elem_of_fmap. by exists (p.1, tx).
Qed.

(** What [save_block] writes besides the transactions. *)
Lemma add_at_height_run st hash height (s : iset Hash) :
  tree_get (be_bytes 8 height) st.(block_trees).(t_blocks_at_height) =
    (if iset_is_empty s then None else Some (to_bytes (mkOrderedHashes s))) ->
  add_block_hash_at_height hash height st = (Ok tt, set_blocks_at_height (iset_insert hash s).2 height st).
Proof.
  intros E. unfold add_block_hash_at_height, has_blocks_at_height, tree_contains, BlockStorage.get_blocks_at_height,
    load_from_disk, mbind, stm_bind, st_get, lift_res, st_modify, res_bind. rewrite E.
  destruct (iset_is_empty s) eqn:Es.
  - assert (s = iset_new) as ->; [|done]. apply iset_ext. rewrite iset_new_spec. unfold iset_is_empty in Es.
    by destruct (iset_list s).
  - by rewrite ordered_roundtrip.
Qed.

Section Save.
Context (v : DagView) (txs : tx_store) (st : SledStorage) (Hst : blocks_hold v txs st).
Context (hash : Hash) (block : BlockHeader) (body : list Transaction) (difficulty p cumulative : VarUint.t).
Context (Hnew : v.(v_header) hash = None) (Hat : attachable v block) (Hbody : Forall transaction_wf body).

Abbreviation entries := (zip (iset_list block.(bh_txs_hashes)) body).
Abbreviation saved := (save_block block body difficulty p hash ≫=
  fun _ => st_modify (BlockStorage.set_cumulative_difficulty_for_block_hash hash cumulative)).

Lemma save_block_run : exists st' n t s, saved st = (Ok tt, st') /\
  (forall h, tree_get (hash_bytes h) t = to_bytes <$> foldl add_tx txs entries h) /\
  tree_get (be_bytes 8 block.(bh_height)) st.(block_trees).(t_blocks_at_height) =
    (if iset_is_empty s then None else Some (to_bytes (mkOrderedHashes s))) /\
  (forall h, h ∈ iset_list s <-> stored v h /\ v_height v h = block.(bh_height)) /\
  st' = BlockStorage.set_cumulative_difficulty_for_block_hash hash cumulative
    (set_blocks_at_height (iset_insert hash s).2 block.(bh_height)
      (set_estimated_covariance_for_block_hash hash p
        (store_difficulty hash difficulty
          (store_header hash block
            (let st1 := on_trees (put_transactions t) st in
             if 0 <? n then store_transactions_count (u64_add (count_transactions st1) n) st1 else st1))))).
Proof using Hst Hat.
  destruct (save_transactions_run entries txs 0 st (hold_tx _ _ _ Hst)) as (n & st1 & Hr & [t ->] & _ & Ht).
  destruct (hold_at_height _ _ _ Hst block.(bh_height)) as (s & Es & Hs); [apply Hat|].
  eexists _, n, t, s. split_and!; [|exact Ht|exact Es|exact Hs|reflexivity]. unfold save_block.
  erewrite stm_bind_run; [reflexivity|]. erewrite stm_bind_run by exact Hr.
  set (st1 := on_trees (put_transactions t) st).
  assert ((if 0 <? n then st_modify (fun st => store_transactions_count (u64_add (count_transactions st) n) st) else mret tt)
    st1 = (Ok tt, if 0 <? n then store_transactions_count (u64_add (count_transactions st1) n) st1 else st1) :> res blockchain_error () * SledStorage)
    as Hc by by destruct (0 <? n).
  rewrite (stm_bind_run _ _ _ _ _ Hc). do 3 (erewrite stm_bind_run by reflexivity).
  apply add_at_height_run. unfold st1, store_header, store_blocks_count, store_transactions_count.
  by destruct (0 <? n), (tree_insert _ _ _) as [[old|] b].
Qed.

Lemma save_block_effect st' n t s :
  st' = BlockStorage.set_cumulative_difficulty_for_block_hash hash cumulative
    (set_blocks_at_height (iset_insert hash s).2 block.(bh_height)
      (set_estimated_covariance_for_block_hash hash p
        (store_difficulty hash difficulty
          (store_header hash block
            (let st1 := on_trees (put_transactions t) st in
             if 0 <? n then store_transactions_count (u64_add (count_transactions st1) n) st1 else st1))))) ->
  st'.(block_trees).(t_blocks) = (tree_insert (hash_bytes hash) (to_bytes block) st.(block_trees).(t_blocks)).2 /\
  st'.(block_trees).(t_transactions) = t /\
  st'.(block_trees).(t_difficulty) = (tree_insert (hash_bytes hash) (to_bytes difficulty) st.(block_trees).(t_difficulty)).2 /\
  st'.(block_trees).(t_cumulative_difficulty) =
    (tree_insert (hash_bytes hash) (to_bytes cumulative) st.(block_trees).(t_cumulative_difficulty)).2 /\
  st'.(block_trees).(t_difficulty_covariance) =
    (tree_insert (hash_bytes hash) (to_bytes p) st.(block_trees).(t_difficulty_covariance)).2 /\
  st'.(block_trees).(t_blocks_at_height) = (tree_insert (be_bytes 8 block.(bh_height))
    (to_bytes (mkOrderedHashes (iset_insert hash s).2)) st.(block_trees).(t_blocks_at_height)).2 /\
  st'.(topo_by_hash) = st.(topo_by_hash) /\ st'.(hash_at_topo) = st.(hash_at_topo) /\
  st'.(block_trees).(pruned_topoheight) = st.(block_trees).(pruned_topoheight) /\
  count_blocks st' = u64_add (count_blocks st) 1.
Proof using Hst Hnew.
  intros ->. cbv zeta.
  pose proof (tree_insert_old (hash_bytes hash) (to_bytes block) st.(block_trees).(t_blocks)) as Ho.
  rewrite (hold_header _ _ _ Hst hash), Hnew in Ho. change (to_bytes <$> None) with (@None (list byte)) in Ho.
  unfold store_header, store_transactions_count. generalize dependent (to_bytes block). intros bytes Ho.
  destruct (0 <? n); cbn -[to_bytes];
    destruct (tree_insert (hash_bytes hash) bytes _) as [o b]; cbn in Ho |- *; subst o; done.
Qed.

Lemma ordered_frame st' : st'.(topo_by_hash) = st.(topo_by_hash) -> st'.(hash_at_topo) = st.(hash_at_topo) ->
  forall h, is_block_topological_ordered st' h = is_block_topological_ordered st h.
Proof.
  intros E1 E2 h. cbn [is_block_topological_ordered sled_order]. unfold Storage.is_block_topological_ordered,
    Storage.get_topo_height_for_hash, Storage.get_hash_at_topo_height. by rewrite E1, E2.
Qed.

Lemma iset_insert_not_empty (s : iset Hash) : iset_is_empty (iset_insert hash s).2 = false.
Proof.
  unfold iset_is_empty. assert (hash ∈ iset_list (iset_insert hash s).2) as Hin by (apply iset_insert_elem; by right).
  destruct (iset_list _); [by apply not_elem_of_nil in Hin|done].
Qed.

Lemma save_block_hold st' t s :
  (forall h, tree_get (hash_bytes h) t = to_bytes <$> foldl add_tx txs entries h) ->
  (forall h, h ∈ iset_list s <-> stored v h /\ v_height v h = block.(bh_height)) ->
  st'.(block_trees).(t_blocks) = (tree_insert (hash_bytes hash) (to_bytes block) st.(block_trees).(t_blocks)).2 ->
  st'.(block_trees).(t_transactions) = t ->
  st'.(block_trees).(t_difficulty) = (tree_insert (hash_bytes hash) (to_bytes difficulty) st.(block_trees).(t_difficulty)).2 ->
  st'.(block_trees).(t_cumulative_difficulty) =
    (tree_insert (hash_bytes hash) (to_bytes cumulative) st.(block_trees).(t_cumulative_difficulty)).2 ->
  st'.(block_trees).(t_blocks_at_height) = (tree_insert (be_bytes 8 block.(bh_height))
    (to_bytes (mkOrderedHashes (iset_insert hash s).2)) st.(block_trees).(t_blocks_at_height)).2 ->
  st'.(topo_by_hash) = st.(topo_by_hash) -> st'.(hash_at_topo) = st.(hash_at_topo) ->
  st'.(block_trees).(pruned_topoheight) = st.(block_trees).(pruned_topoheight) ->
  blocks_hold (add_block hash block difficulty cumulative v) (foldl add_tx txs entries) st'.
Proof using Hst Hnew Hat Hbody.
  intros Ht Hs Eb Etx Ed Ec Eh Et1 Et2 Ep.
  assert (forall h, h <> hash -> hash_bytes hash <> hash_bytes h) as Hinj by by intros h Hne ?%hash_bytes_inj.
  pose proof (add_stored v hash block difficulty cumulative Hnew) as Hadd.
  split.
  - apply add_view_wf; [by eapply hold_wf|done|done].
  - intros h. rewrite Eb. cbn. destruct (decide (h = hash)) as [->|Hne].
    + by rewrite tree_get_insert, fn_upd_eq.
    + rewrite tree_get_insert_ne, fn_upd_ne by auto. by eapply hold_header.
  - intros h b. cbn. destruct (decide (h = hash)) as [->|Hne].
    + rewrite fn_upd_eq. intros [= <-]. apply Hat.
    + rewrite fn_upd_ne by done. by eapply hold_header_wf.
  - intros h. by rewrite Etx.
  - apply add_txs_wf; [by eapply hold_tx_wf|]. apply list.Forall_forall. intros [h tx] Hin. cbn.
    apply elem_of_zip_r in Hin. rewrite list.Forall_forall in Hbody. by apply Hbody.
  - intros h [->|Hh]%Hadd; rewrite Ed; cbn; [by rewrite tree_get_insert, fn_upd_eq|].
    pose proof (old_not_new v hash Hnew h Hh). rewrite tree_get_insert_ne, fn_upd_ne by auto. by eapply hold_difficulty.
  - intros h [->|Hh]%Hadd; rewrite Ec; cbn; [by rewrite tree_get_insert, fn_upd_eq|].
    pose proof (old_not_new v hash Hnew h Hh). rewrite tree_get_insert_ne, fn_upd_ne by auto. by eapply hold_cumulative.
  - intros z Hz. rewrite Eh. destruct (decide (z = block.(bh_height))) as [->|Hne].
    + exists (iset_insert hash s).2. rewrite tree_get_insert, iset_insert_not_empty. split; [done|]. intros h.
      rewrite iset_insert_elem, Hs, Hadd. split.
      * intros [[Hh Ez]| ->]; [|split; [by left|apply add_height_new]]. split; [by right|]. by rewrite add_height_old.
      * intros [[->|Hh] Ez]; [by right|left]. split; [done|]. by rewrite add_height_old in Ez.
    + destruct (hold_at_height _ _ _ Hst z Hz) as (s' & Es' & Hs'). exists s'. rewrite tree_get_insert_ne.
      2: { pose proof (at_height _ _ Hat). unfold in_u in *. intros E%be8_inj; [done|unfold in_u; lia..]. }
      split; [done|]. intros h. rewrite Hs', Hadd. split.
      * intros [Hh Ez]. split; [by right|]. by rewrite add_height_old.
      * intros [[->|Hh] Ez]; [by rewrite add_height_new in Ez|]. split; [done|]. by rewrite add_height_old in Ez.
  - intros h topo E. rewrite Et1, Et2. exact (hold_topo _ _ _ Hst h topo E).
  - intros h E. rewrite (ordered_frame st') by done. exact (hold_unordered _ _ _ Hst h E).
  - rewrite Ep. exact (hold_pruned _ _ _ Hst).
Qed.

Lemma saved_block_read st' :
  blocks_hold (add_block hash block difficulty cumulative v) (foldl add_tx txs entries) st' ->
  length body = iset_len block.(bh_txs_hashes) ->
  (forall h tx, (h, tx) ∈ entries -> txs h = None \/ txs h = Some tx) ->
  BlockStorage.get_block_by_hash hash st' = Ok (mkBlock block body).
Proof.
  intros Hst' Hl Htxs. unfold get_block_by_hash. rewrite (hold_header_read _ _ _ Hst'). cbn. rewrite fn_upd_eq. cbn.
  assert (mapMr (fun tx => get_transaction tx st') (iset_list block.(bh_txs_hashes)) = Ok body) as ->; [|done].
  apply mapMr_Forall2. apply Forall2_same_length_lookup. split; [done|]. intros i h tx Hh Htx.
  assert ((h, tx) ∈ entries) as Hin by (apply (list_elem_of_lookup_2 _ i); by rewrite lookup_zip_with, Hh; simpl; rewrite Htx).
  rewrite (hold_tx_read _ _ _ Hst'). erewrite add_txs_lookup; [done| |done|by apply Htxs].
  rewrite fst_zip by (unfold iset_len in Hl; lia). apply iset_NoDup.
Qed.
End Save.

(** ** Deleting a block *)

Definition remove_block (hash : Hash) (v : DagView) : DagView := {|
  v_header := fn_upd hash None v.(v_header);
  v_topo := fn_upd hash None v.(v_topo);
  v_difficulty := v.(v_difficulty);
  v_cumulative := v.(v_cumulative);
  v_pruned := v.(v_pruned);
|}.
Definition remove_tx (txs : tx_store) (h : Hash) : tx_store := fn_upd h None txs.

(** The transactions of [l] that are stored. *)
Definition stored_txs (txs : tx_store) (l : list Hash) : list (Hash * Transaction) :=
  omap (fun h => pair h <$> txs h) l.

Section RemoveView.
Context (v : DagView) (hash : Hash) (block : BlockHeader).
Context (Hwf : view_wf v) (Hleaf : forall x, stored v x -> hash ∉ v_tips v x).
Abbreviation v' := (remove_block hash v).

Lemma remove_stored h : stored v' h <-> h <> hash /\ stored v h.
Proof.
  unfold stored. cbn. destruct (decide (h = hash)) as [->|Hne].
  - rewrite fn_upd_eq. split; [by intros [? ?]|naive_solver].
  - rewrite fn_upd_ne by done. naive_solver.
Qed.
Lemma remove_height h : h <> hash -> v_height v' h = v_height v h.
Proof. intros Hh. unfold v_height. cbn. by rewrite fn_upd_ne. Qed.
Lemma remove_tips h : h <> hash -> v_tips v' h = v_tips v h.
Proof. intros Hh. unfold v_tips. cbn. by rewrite fn_upd_ne. Qed.

Lemma remove_view_wf : view_wf v'.
Proof using Hwf Hleaf.
  assert (forall x t, stored v x -> t ∈ v_tips v x -> t <> hash) as Ht by (intros x t Hx Ht ->; by apply (Hleaf x)).
  split.
  - intros h [Hn Hh]%remove_stored. rewrite remove_height by done. by apply Hwf.
  - intros h t [Hn Hh]%remove_stored. rewrite remove_tips by done. intros Hin. apply remove_stored.
    split; [by eapply Ht|by apply (view_tips_stored _ Hwf h)].
  - intros h t [Hn Hh]%remove_stored. rewrite remove_tips by done. intros Hin.
    rewrite !remove_height by first [done|by eapply Ht]. by apply (view_tips_height _ Hwf h).
  - intros h [Hn Hh]%remove_stored. rewrite remove_height, remove_tips by done. intros Hz.
    destruct (view_height_tips _ Hwf h Hh Hz) as (t & Hin & E). exists t. split; [done|].
    rewrite remove_height; [done|]. by eapply Ht.
  - intros h topo. cbn. destruct (decide (h = hash)) as [->|Hne]; [by rewrite fn_upd_eq|].
    rewrite fn_upd_ne by done. intros E. destruct (view_topo_stored _ Hwf h topo E) as [Hs Hu].
    split; [|done]. by apply remove_stored.
Qed.
End RemoveView.

Definition links_readable (l : list Hash) (st : SledStorage) : Prop :=
  forall h b, h ∈ l -> tree_get (hash_bytes h) st.(tx_blocks) = Some b -> exists s : gset Hash, from_bytes b = Ok s.

(** The parts of the storage the transactions of a block are not in. *)
Definition same_but_tx_trees (st st' : SledStorage) : Prop :=
  exists t, st'.(block_trees) = put_transactions t st.(block_trees) /\
  st'.(topo_by_hash) = st.(topo_by_hash) /\ st'.(hash_at_topo) = st.(hash_at_topo).

Lemma same_but_tx_trees_trans st1 st2 st3 :
  same_but_tx_trees st1 st2 -> same_but_tx_trees st2 st3 -> same_but_tx_trees st1 st3.
Proof. intros (t & E1 & E2 & E3) (t' & E1' & E2' & E3'). exists t'. rewrite E1', E2', E3', E1. done. Qed.

Lemma unlink_run hash h st :
  links_readable [h] st -> exists st', unlink_tx hash h st = (Ok tt, st') /\
    st'.(block_trees) = st.(block_trees) /\ st'.(topo_by_hash) = st.(topo_by_hash) /\ st'.(hash_at_topo) = st.(hash_at_topo) /\
    forall h', h' <> h -> tree_get (hash_bytes h') st'.(tx_blocks) = tree_get (hash_bytes h') st.(tx_blocks).
Proof.
  intros Hl. unfold unlink_tx, has_tx_blocks, tree_contains, mbind, stm_bind, st_get, lift_res.
  destruct (tree_get (hash_bytes h) (tx_blocks st)) as [b|] eqn:E; [|by exists st].
  destruct (Hl h b) as [s Hs]; [left|done|]. unfold on_tx_blocks, on_tree, delete_cacheable_data.
  pose proof (tree_remove_old (hash_bytes h) st.(tx_blocks)) as Ho. rewrite E in Ho.
  pose proof (fun k => tree_get_remove_ne (hash_bytes h) k st.(tx_blocks)) as Hn.
  destruct (tree_remove _ _) as [o t]. cbn [fst snd] in *. subst o. rewrite Hs. cbn [map_err]. unfold st_modify.
  eexists. split; [reflexivity|]. split_and!; [done..|]. intros h' Hne. cbn -[to_bytes].
  rewrite tree_get_insert_ne by by intros ?%hash_bytes_inj. apply Hn. by intros ?%hash_bytes_inj.
Qed.

Lemma unexecute_run h st : exists st', unexecute_tx h st = (Ok tt, st') /\
  st'.(block_trees) = st.(block_trees) /\ st'.(topo_by_hash) = st.(topo_by_hash) /\ st'.(hash_at_topo) = st.(hash_at_topo) /\
  st'.(tx_blocks) = st.(tx_blocks).
Proof.
  unfold unexecute_tx, ClientProtocol.is_tx_executed_in_a_block, mbind, stm_bind, st_get, lift_res.
  destruct (tree_contains (hash_bytes h) (txs_executed st)); (eexists; split; [reflexivity|by split_and!]).
Qed.

Lemma delete_block_tx_run txs hash acc h st :
  links_readable [h] st ->
  (forall h, tree_get (hash_bytes h) st.(block_trees).(t_transactions) = to_bytes <$> txs h) ->
  (forall h tx, txs h = Some tx -> transaction_wf tx) ->
  exists st', delete_block_tx hash acc h st = (Ok (acc ++ stored_txs txs [h]), st') /\ same_but_tx_trees st st' /\
    (forall h', h' <> h -> tree_get (hash_bytes h') st'.(tx_blocks) = tree_get (hash_bytes h') st.(tx_blocks)) /\
    forall h', tree_get (hash_bytes h') st'.(block_trees).(t_transactions) = to_bytes <$> remove_tx txs h h'.
Proof.
  intros Hl Htx Hwf. destruct (unlink_run hash h st Hl) as (st1 & R1 & B1 & T1 & A1 & L1).
  destruct (unexecute_run h st1) as (st2 & R2 & B2 & T2 & A2 & L2). unfold delete_block_tx.
  erewrite stm_bind_run by exact R1. erewrite stm_bind_run by exact R2.
  unfold contains_data, tree_contains, mbind, stm_bind, st_get, lift_res. unfold stored_txs. cbn [omap list_omap].
  rewrite B2, B1, Htx. destruct (txs h) as [tx|] eqn:Eh; cbn [fmap option_fmap option_map].
  - unfold on_transactions, on_tree, delete_data, delete_cacheable_data.
    pose proof (tree_remove_old (hash_bytes h) st.(block_trees).(t_transactions)) as Ho. rewrite Htx, Eh in Ho.
    pose proof (tree_get_remove (hash_bytes h) st.(block_trees).(t_transactions)) as Hg.
    pose proof (fun k => tree_get_remove_ne (hash_bytes h) k st.(block_trees).(t_transactions)) as Hn.
    rewrite B2, B1. destruct (tree_remove _ _) as [o t]. cbn [fst snd] in *. subst o.
    change (to_bytes <$> Some tx) with (Some (to_bytes tx)). cbn iota.
    rewrite (from_bytes_to_bytes tx) by by apply (Hwf h). cbn [map_err].
    eexists. split; [reflexivity|]. split_and!.
    + exists t. split_and!; [by rewrite <- B1, <- B2|by rewrite <- T1, <- T2|by rewrite <- A1, <- A2].
    + intros h' Hne. change (tree_get (hash_bytes h') st2.(tx_blocks) = tree_get (hash_bytes h') st.(tx_blocks)).
      rewrite L2. by apply L1.
    + intros h'. cbn -[to_bytes]. unfold remove_tx. destruct (decide (h' = h)) as [->|Hne]; [by rewrite Hg, fn_upd_eq|].
      rewrite Hn, fn_upd_ne by first [done|by intros ?%hash_bytes_inj]. apply Htx.
  - exists st2. rewrite app_nil_r. split; [done|]. split_and!.
    + exists st.(block_trees).(t_transactions). rewrite B2, B1, T2, T1, A2, A1.
      split_and!; [|done..]. by destruct (block_trees st).
    + intros h' Hne. rewrite L2. by apply L1.
    + intros h'. rewrite B2, B1, Htx. unfold remove_tx. destruct (decide (h' = h)) as [->|Hne].
      * by rewrite fn_upd_eq, Eh.
      * by rewrite fn_upd_ne.
Qed.

Lemma delete_block_txs_run l txs hash acc st :
  NoDup l -> links_readable l st ->
  (forall h, tree_get (hash_bytes h) st.(block_trees).(t_transactions) = to_bytes <$> txs h) ->
  (forall h tx, txs h = Some tx -> transaction_wf tx) ->
  exists st', foldMs (delete_block_tx hash) acc l st = (Ok (acc ++ stored_txs txs l), st') /\ same_but_tx_trees st st' /\
    forall h', tree_get (hash_bytes h') st'.(block_trees).(t_transactions) = to_bytes <$> foldl remove_tx txs l h'.
Proof.
  revert txs acc st. induction l as [|h l IH]; intros txs acc st Hnd Hl Htx Hwf; cbn [foldMs foldl].
  { exists st. unfold stored_txs. cbn [omap list_omap]. rewrite app_nil_r. split_and!; [done| |done].
    exists st.(block_trees).(t_transactions). split_and!; [|done..]. by destruct (block_trees st). }
  apply list.NoDup_cons in Hnd as [Hn Hnd].
  destruct (delete_block_tx_run txs hash acc h st) as (st1 & R1 & S1 & L1 & X1).
  { intros h' b ->%list_elem_of_singleton. apply (Hl h b). left. }
  1-2: done.
  destruct (IH (remove_tx txs h) (acc ++ stored_txs txs [h]) st1) as (st' & R & S' & X).
  - done.
  - intros h' b Hin. rewrite L1 by (by intros ->). apply (Hl h' b). by right.
  - done.
  - intros h' tx. unfold remove_tx. destruct (decide (h' = h)) as [->|Hne]; [by rewrite fn_upd_eq|].
    rewrite fn_upd_ne by done. apply Hwf.
  - exists st'. erewrite stm_bind_run by exact R1. rewrite R. split_and!; [|by eapply same_but_tx_trees_trans|done].
    do 2 f_equal. rewrite <- (assoc_L (++)). f_equal. unfold stored_txs. cbn [omap list_omap].
    assert (omap (fun h0 => pair h0 <$> remove_tx txs h h0) l = omap (fun h0 => pair h0 <$> txs h0) l) as ->.
    { clear -Hn. induction l as [|x l IH]; [done|]. cbn [omap list_omap]. unfold remove_tx at 1.
      rewrite fn_upd_ne by (intros ->; apply Hn; left). rewrite IH; [done|]. intros Hin. apply Hn. by right. }
    by destruct (txs h).
Qed.

Lemma delete_cacheable_run {T} {SZ : Serializer T} (k : list byte) (t : tree) b (x : T) :
  tree_get k t = Some b -> from_bytes b = Ok x ->
  delete_cacheable_data (T:=T) k t = (Ok x, (tree_remove k t).2).
Proof.
  intros Eb Ex. unfold delete_cacheable_data. pose proof (tree_remove_old k t) as Ho. rewrite Eb in Ho.
  destruct (tree_remove k t) as [o t']. cbn [fst snd] in *. subst o. by rewrite Ex.
Qed.

Lemma on_tree_run {A} get put (m : stm tree blockchain_error A) st a t :
  m (get st) = (Ok a, t) -> on_tree get put m st = (Ok a, put t st).
Proof. intros E. unfold on_tree. by rewrite E. Qed.

Section Delete.
Context (v : DagView) (txs : tx_store) (st : SledStorage) (Hst : blocks_hold v txs st).
Context (hash : Hash) (block : BlockHeader) (topo supply reward : Z).
Context (Hblock : v.(v_header) hash = Some block) (Htopo : v.(v_topo) hash = Some topo).
Context (Hleaf : forall x, stored v x -> hash ∉ v_tips v x).
Context (Hsupply : get_supply_at_topo_height topo st = Ok supply) (Hreward : get_block_reward_at_topo_height topo st = Ok reward).
Context (Hlinks : links_readable (iset_list block.(bh_txs_hashes)) st).

Abbreviation hashes := (iset_list block.(bh_txs_hashes)).

(** The storage without the block, its transactions still there. *)
Definition without_block : SledStorage :=
  on_trees (fun b => put_cumulative_difficulty (tree_remove (hash_bytes hash) b.(t_cumulative_difficulty)).2
    (put_difficulty (tree_remove (hash_bytes hash) b.(t_difficulty)).2
      (put_rewards (tree_remove (be_bytes 8 topo) b.(t_rewards)).2
        (put_supply (tree_remove (be_bytes 8 topo) b.(t_supply)).2
          (put_blocks (tree_remove (hash_bytes hash) b.(t_blocks)).2 b)))))
    (with_order (tree_remove (hash_bytes hash) st.(topo_by_hash)).2 (tree_remove (be_bytes 8 topo) st.(hash_at_topo)).2 st).

Lemma remove_at_height_run st1 (s : iset Hash) height :
  tree_get (be_bytes 8 height) st1.(block_trees).(t_blocks_at_height) = Some (to_bytes (mkOrderedHashes s)) ->
  exists t, (b ← lift_res (has_blocks_at_height height st1);
     if (b : bool) then remove_block_hash_at_height hash height else mret tt) st1 =
     (Ok tt, on_trees (put_blocks_at_height t) st1) /\
    tree_get (be_bytes 8 height) t = (let s' := (iset_shift_remove hash s).2 in
      if iset_is_empty s' then None else Some (to_bytes (mkOrderedHashes s'))) /\
    forall k, k <> be_bytes 8 height -> tree_get k t = tree_get k st1.(block_trees).(t_blocks_at_height).
Proof.
  intros E. unfold has_blocks_at_height, tree_contains, mbind, stm_bind, lift_res. rewrite E.
  unfold remove_block_hash_at_height, mbind, stm_bind, st_get, lift_res, BlockStorage.get_blocks_at_height, load_from_disk.
  rewrite E, ordered_roundtrip. cbn [map_err res_bind mbind ordered_hashes]. destruct (iset_is_empty _) eqn:Ee; cbn zeta; rewrite ?Ee.
  - eexists. split; [reflexivity|]. split; [apply tree_get_remove|]. intros k Hk. by apply tree_get_remove_ne.
  - eexists. split; [reflexivity|]. split; [apply tree_get_insert|]. intros k Hk. by apply tree_get_insert_ne.
Qed.

Lemma delete_block_run : exists st' t tx s, delete_block_at_topoheight topo st = (Ok (hash, block, stored_txs txs hashes), st') /\
  (forall h, tree_get (hash_bytes h) tx = to_bytes <$> foldl remove_tx txs hashes h) /\
  (forall h, h ∈ iset_list s <-> stored v h /\ v_height v h = block.(bh_height)) /\
  tree_get (be_bytes 8 block.(bh_height)) t = (let s' := (iset_shift_remove hash s).2 in
      if iset_is_empty s' then None else Some (to_bytes (mkOrderedHashes s'))) /\
  (forall k, k <> be_bytes 8 block.(bh_height) -> tree_get k t = tree_get k st.(block_trees).(t_blocks_at_height)) /\
  st'.(block_trees) = put_blocks_at_height t (put_transactions tx without_block.(block_trees)) /\
  st'.(topo_by_hash) = without_block.(topo_by_hash) /\ st'.(hash_at_topo) = without_block.(hash_at_topo).
Proof using Hst Hblock Htopo Hsupply Hreward Hlinks.
  pose proof (hold_wf _ _ _ Hst) as Hwf. destruct (hold_topo _ _ _ Hst hash topo Htopo) as [E1 E2].
  destruct (view_topo_stored _ Hwf hash topo Htopo) as [Hs Hu].
  assert (v_height v hash = block.(bh_height)) as Eh by (unfold v_height; by rewrite Hblock).
  destruct (hold_at_height _ _ _ Hst block.(bh_height)) as (s & Es & Hin); [rewrite <- Eh; by apply Hwf|].
  assert (iset_is_empty s = false) as Hne.
  { unfold iset_is_empty. assert (hash ∈ iset_list s) as Hi by by apply Hin.
    destruct (iset_list s); [by apply not_elem_of_nil in Hi|done]. }
  rewrite Hne in Es.
  apply load_ok in Hsupply as (bs & Ebs & Hbs). apply load_ok in Hreward as (br & Ebr & Hbr).
  pose proof (hold_header _ _ _ Hst hash) as Eb. rewrite Hblock in Eb.
  destruct (delete_block_txs_run hashes txs hash [] without_block) as (st2 & R2 & (tx & B2 & T2 & A2) & X2).
  { apply iset_NoDup. }
  { exact Hlinks. }
  { exact (hold_tx _ _ _ Hst). }
  { exact (hold_tx_wf _ _ _ Hst). }
  destruct (remove_at_height_run st2 s block.(bh_height)) as (t & R3 & G3 & N3); [by rewrite B2|].
  exists (on_trees (put_blocks_at_height t) st2), t, tx, s. split_and!.
  - unfold delete_block_at_topoheight.
    erewrite stm_bind_run; [|apply on_tree_run; eapply delete_cacheable_run; [exact E2|exact (from_bytes_to_bytes hash I)]].
    erewrite stm_bind_run; [|apply on_tree_run; eapply delete_cacheable_run; [exact E1|by apply from_bytes_u64]].
    erewrite stm_bind_run; [|apply on_tree_run; eapply delete_cacheable_run; [exact Eb|by apply from_bytes_to_bytes; eapply hold_header_wf]].
    erewrite stm_bind_run; [|apply on_tree_run; eapply delete_cacheable_run; [exact Ebs|exact Hbs]].
    erewrite stm_bind_run; [|apply on_tree_run; eapply delete_cacheable_run; [exact Ebr|exact Hbr]].
    erewrite stm_bind_run; [|apply on_tree_run; eapply delete_cacheable_run; [by apply (hold_difficulty _ _ _ Hst)|by apply from_bytes_to_bytes]].
    erewrite stm_bind_run; [|apply on_tree_run; eapply delete_cacheable_run; [by apply (hold_cumulative _ _ _ Hst)|by apply from_bytes_to_bytes]].
    change (with_block_trees _ _) with without_block.
    erewrite stm_bind_run by exact R2. unfold mbind, stm_bind, st_get, lift_res in R3 |- *.
    destruct (has_blocks_at_height _ _); [|done..]. by rewrite R3.
  - intros h. rewrite <- X2, B2. done.
  - done.
  - done.
  - intros k Hk. rewrite N3 by done. by rewrite B2.
  - cbn. by rewrite B2.
  - cbn. by rewrite T2.
  - cbn. by rewrite A2.
Qed.

Lemma remove_txs_wf l (f : tx_store) : (forall h tx, f h = Some tx -> transaction_wf tx) ->
  forall h tx, foldl remove_tx f l h = Some tx -> transaction_wf tx.
Proof.
  revert f. induction l as [|x l IH]; intros f Hf; [done|]. apply IH. intros h tx. unfold remove_tx.
  destruct (decide (h = x)) as [->|Hne]; [by rewrite fn_upd_eq|]. rewrite fn_upd_ne by done. apply Hf.
Qed.

Lemma iset_shift_remove_elem (s : iset Hash) h :
  h ∈ iset_list (iset_shift_remove hash s).2 <-> h <> hash /\ h ∈ iset_list s.
Proof. destruct (iset_shift_remove_spec hash s) as [_ ->]. by rewrite list_elem_of_filter. Qed.

(** Another block does not have the place of the deleted one. *)
Lemma other_place h topo' : h <> hash -> v.(v_topo) h = Some topo' -> topo' <> topo.
Proof using Hst Htopo.
  intros Hne E ->. destruct (hold_topo _ _ _ Hst h topo E) as [_ E2]. destruct (hold_topo _ _ _ Hst hash topo Htopo) as [_ E3].
  rewrite E2 in E3. injection E3 as E3. by apply hash_bytes_inj in E3.
Qed.

(** What is not ordered stays so when entries disappear. *)
Lemma unordered_removed st' h :
  st'.(topo_by_hash) = without_block.(topo_by_hash) -> st'.(hash_at_topo) = without_block.(hash_at_topo) ->
  h = hash \/ is_block_topological_ordered st h = Ok false -> is_block_topological_ordered st' h = Ok false.
Proof.
  cbn [is_block_topological_ordered sled_order]. unfold Storage.is_block_topological_ordered,
    Storage.get_topo_height_for_hash, Storage.get_hash_at_topo_height. intros -> -> Hh. cbn [without_block on_trees
    with_block_trees with_order topo_by_hash hash_at_topo]. unfold load_from_disk.
  destruct (decide (h = hash)) as [->|Hne]; [by rewrite tree_get_remove|]. destruct Hh as [->|Hh]; [done|].
  rewrite tree_get_remove_ne by by intros ?%hash_bytes_inj. unfold load_from_disk in Hh.
  destruct (tree_get (hash_bytes h) (topo_by_hash st)) as [b|]; [|done].
  destruct (from_bytes b) as [z| | |]; cbn [map_err or_false] in *; try done.
  destruct (decide (be_bytes 8 topo = be_bytes 8 z)) as [<-|Hz]; [by rewrite tree_get_remove|].
  by rewrite tree_get_remove_ne.
Qed.

Lemma delete_block_hold st' t tx s :
  (forall h, tree_get (hash_bytes h) tx = to_bytes <$> foldl remove_tx txs hashes h) ->
  (forall h, h ∈ iset_list s <-> stored v h /\ v_height v h = block.(bh_height)) ->
  tree_get (be_bytes 8 block.(bh_height)) t = (let s' := (iset_shift_remove hash s).2 in
      if iset_is_empty s' then None else Some (to_bytes (mkOrderedHashes s'))) ->
  (forall k, k <> be_bytes 8 block.(bh_height) -> tree_get k t = tree_get k st.(block_trees).(t_blocks_at_height)) ->
  st'.(block_trees) = put_blocks_at_height t (put_transactions tx without_block.(block_trees)) ->
  st'.(topo_by_hash) = without_block.(topo_by_hash) -> st'.(hash_at_topo) = without_block.(hash_at_topo) ->
  blocks_hold (remove_block hash v) (foldl remove_tx txs hashes) st'.
Proof using Hst Hblock Htopo Hleaf.
  intros Htx Hs Eh Eo Eb Et Ea. pose proof (hold_wf _ _ _ Hst) as Hwf.
  assert (forall h, h <> hash -> hash_bytes hash <> hash_bytes h) as Hinj by by intros h Hne ?%hash_bytes_inj.
  assert (v_height v hash = block.(bh_height)) as Ehh by (unfold v_height; by rewrite Hblock).
  assert (in_u 63 block.(bh_height)) as Hr by (rewrite <- Ehh; apply Hwf; by exists block).
  split.
  - by apply remove_view_wf.
  - intros h. rewrite Eb. cbn. destruct (decide (h = hash)) as [->|Hne].
    + by rewrite tree_get_remove, fn_upd_eq.
    + rewrite tree_get_remove_ne, fn_upd_ne by auto. by eapply hold_header.
  - intros h b. cbn. destruct (decide (h = hash)) as [->|Hne]; [by rewrite fn_upd_eq|].
    rewrite fn_upd_ne by done. by eapply hold_header_wf.
  - intros h. rewrite Eb. exact (Htx h).
  - apply remove_txs_wf. by eapply hold_tx_wf.
  - intros h [Hne Hh]%remove_stored. rewrite Eb. cbn -[to_bytes]. rewrite tree_get_remove_ne by auto. by eapply hold_difficulty.
  - intros h [Hne Hh]%remove_stored. rewrite Eb. cbn -[to_bytes]. rewrite tree_get_remove_ne by auto. by eapply hold_cumulative.
  - intros z Hz. rewrite Eb. cbn [block_trees put_blocks_at_height t_blocks_at_height].
    destruct (decide (z = block.(bh_height))) as [->|Hne].
    + exists (iset_shift_remove hash s).2. split; [exact Eh|]. intros h. rewrite iset_shift_remove_elem, Hs, remove_stored.
      split; [intros (? & ? & ?)|intros [[? ?] E]]; [by rewrite remove_height|by rewrite remove_height in E].
    + destruct (hold_at_height _ _ _ Hst z Hz) as (s' & Es' & Hs'). exists s'. rewrite Eo.
      2: { unfold in_u in *. intros E%be8_inj; [done|unfold in_u; lia..]. }
      split; [done|]. intros h. rewrite Hs', remove_stored. split.
      * intros [Hh E]. assert (h <> hash) by (intros ->; by rewrite Ehh in E). by rewrite remove_height.
      * intros [[? ?] E]. by rewrite remove_height in E.
  - intros h topo'. cbn. destruct (decide (h = hash)) as [->|Hne]; [by rewrite fn_upd_eq|]. rewrite fn_upd_ne by done.
    intros E. destruct (hold_topo _ _ _ Hst h topo' E) as [G1 G2]. rewrite Et, Ea.
    cbn [without_block on_trees with_block_trees with_order topo_by_hash hash_at_topo].
    rewrite !tree_get_remove_ne; [done| |by auto].
    pose proof (other_place h topo' Hne E). destruct (view_topo_stored _ Hwf h topo' E) as [_ ?].
    destruct (view_topo_stored _ Hwf hash topo Htopo) as [_ ?]. by intros ?%be8_inj.
  - intros h E. apply unordered_removed; [done|done|]. cbn in E. destruct (decide (h = hash)) as [->|Hne]; [by left|right].
    rewrite fn_upd_ne in E by done. by eapply hold_unordered.
  - rewrite Eb. exact (hold_pruned _ _ _ Hst).
Qed.
End Delete.

(** ** Ordering a block *)

(** The block takes the place; the one that had it is no longer ordered. *)
Definition order_block (hash : Hash) (topo : Z) (v : DagView) : DagView := {|
  v_header := v.(v_header);
  v_topo := fun h => if decide (h = hash) then Some topo
                     else if decide (v.(v_topo) h = Some topo) then None else v.(v_topo) h;
  v_difficulty := v.(v_difficulty);
  v_cumulative := v.(v_cumulative);
  v_pruned := v.(v_pruned);
|}.

Lemma order_view_wf hash topo v : view_wf v -> stored v hash -> in_u 64 topo -> view_wf (order_block hash topo v).
Proof.
  intros Hwf Hh Hu. split; try (intros; by eapply Hwf). intros h t. cbn. case_decide as E1; [|case_decide as E2; [done|]].
  - intros [= <-]. by rewrite E1.
  - by apply Hwf.
Qed.

Lemma u64_from_bytes_safe b : match from_bytes (H:=u64_Serializer) b with Ok _ | Err _ => True | _ => False end.
Proof.
  unfold from_bytes. rewrite reader_new_at. cbn [read u64_Serializer].
  pose proof (codec_safe (Codec:=ser_codec (SerOk:=u64_SerOk)) [] b) as Hs. cbn [read u64_Serializer] in Hs.
  by destruct (Reader.read_u64 (reader_at [] b)) as [[z r]| | |].
Qed.

Lemma order_block_hold v txs st hash topo :
  blocks_hold v txs st -> stored v hash -> in_u 64 topo ->
  blocks_hold (order_block hash topo v) txs (Storage.set_topo_height_for_block hash topo st).
Proof.
  intros Hst Hh Hu. split; try (exact (hold_header _ _ _ Hst) || exact (hold_header_wf _ _ _ Hst) || exact (hold_tx _ _ _ Hst)
    || exact (hold_tx_wf _ _ _ Hst) || exact (hold_difficulty _ _ _ Hst) || exact (hold_cumulative _ _ _ Hst)
    || exact (hold_at_height _ _ _ Hst) || exact (hold_pruned _ _ _ Hst)).
  - apply order_view_wf; [by eapply hold_wf|done|done].
  - intros h t. cbn. case_decide as E1; [|case_decide as E2; [done|]].
    + intros [= <-]. subst h. by rewrite !tree_get_insert.
    + intros E. destruct (hold_topo _ _ _ Hst h t E) as [G1 G2].
      rewrite !tree_get_insert_ne; [done| |by intros ?%hash_bytes_inj].
      destruct (view_topo_stored _ (hold_wf _ _ _ Hst) h t E) as [_ Ht]. intros ->%be8_inj; done.
  - intros h. cbn [v_topo order_block]. case_decide as E1; [done|]. intros E.
    cbn [is_block_topological_ordered sled_order]. unfold Storage.is_block_topological_ordered,
      Storage.get_topo_height_for_hash, Storage.get_hash_at_topo_height. cbn [Storage.set_topo_height_for_block with_order
      topo_by_hash hash_at_topo]. unfold load_from_disk at 1. rewrite tree_get_insert_ne by by intros ?%hash_bytes_inj.
    destruct (tree_get (hash_bytes h) (topo_by_hash st)) as [b|] eqn:Eb; [|done].
    destruct (from_bytes b) as [z|e| |] eqn:Ez; cbn [map_err or_false]; try done.
    2-3: pose proof (u64_from_bytes_safe b) as Hz; by rewrite Ez in Hz.
    destruct (decide (be_bytes 8 z = be_bytes 8 topo)) as [Hz|Hz].
    + rewrite Hz. change (hash_bytes hash) with (to_bytes hash). erewrite load_value; [|done|apply tree_get_insert].
      cbn [or_false]. by rewrite bool_decide_false by congruence.
    + unfold load_from_disk. rewrite tree_get_insert_ne by done. case_decide as E2.
      * destruct (hold_topo_read _ _ _ Hst h topo E2) as [Hg _]. cbn [get_topo_height_for_hash sled_order] in Hg.
        unfold Storage.get_topo_height_for_hash, load_from_disk in Hg. rewrite Eb, Ez in Hg. injection Hg as ->. done.
      * pose proof (hold_unordered _ _ _ Hst h E) as Ho. cbn [is_block_topological_ordered sled_order] in Ho.
        unfold Storage.is_block_topological_ordered, Storage.get_topo_height_for_hash, Storage.get_hash_at_topo_height,
          load_from_disk in Ho. rewrite Eb, Ez in Ho. exact Ho.
Qed.

(** The supply and the reward are not part of the content. *)
Lemma supply_reward_hold v txs st topo supply reward :
  blocks_hold v txs st ->
  blocks_hold v txs (set_supply_at_topo_height topo supply (set_block_reward_at_topo_height topo reward st)).
Proof. intros []. by split. Qed.
End Sled.

(** ** Properties *)
Section Properties.
Context {CV : Curve} {ML : Merlin} {RP : RangeProofLib} {SL : SledLib} {HM : HashMapIter} {UL : U256Lib} {IS : IndexSetLib Hash}.

(** C12: a storage whose trees hold the blocks and the transactions of an
    abstract DAG shows that DAG to the algorithms.  Saving a block that can be
    put on it succeeds and adds exactly that block: it is read back with its
    transactions, its covariance and one more block counted, a transaction
    already stored is kept.  Ordering a block gives it its place and takes it
    from the block that had it.  Deleting the block at a topoheight, once nothing
    is above it, returns it with those of its transactions that are stored and
    removes exactly them. *)
Theorem block_storage_refines (v : DagView) (txs : tx_store) (st : SledStorage) (Hst : blocks_hold v txs st) :
  view_of st v /\
  (forall hash block body difficulty p cumulative,
     v.(v_header) hash = None -> attachable v block -> Forall transaction_wf body ->
     length body = iset_len block.(bh_txs_hashes) ->
     (forall h tx, (h, tx) ∈ zip (iset_list block.(bh_txs_hashes)) body -> txs h = None \/ txs h = Some tx) ->
     exists st', (save_block block body difficulty p hash ≫=
         fun _ => set_cumulative_difficulty_for_block_hash hash cumulative) st = (Ok tt, st') /\
       blocks_hold (add_block hash block difficulty cumulative v)
         (foldl add_tx txs (zip (iset_list block.(bh_txs_hashes)) body)) st' /\
       get_block_by_hash hash st' = Ok (mkBlock block body) /\
       get_estimated_covariance_for_block_hash st' hash = Ok p /\
       count_blocks st' = u64_add (count_blocks st) 1) /\
  (forall hash topo, stored v hash -> in_u 64 topo ->
     exists st', set_topo_height_for_block hash topo st = (Ok tt, st') /\ blocks_hold (order_block hash topo v) txs st') /\
  (forall hash block topo supply reward,
     v.(v_header) hash = Some block -> v.(v_topo) hash = Some topo -> (forall x, stored v x -> hash ∉ v_tips v x) ->
     get_supply_at_topo_height topo st = Ok supply -> get_block_reward_at_topo_height topo st = Ok reward ->
     links_readable (iset_list block.(bh_txs_hashes)) st ->
     exists st', delete_block_at_topoheight topo st =
         (Ok (hash, block, stored_txs txs (iset_list block.(bh_txs_hashes))), st') /\
       blocks_hold (remove_block hash v) (foldl remove_tx txs (iset_list block.(bh_txs_hashes))) st').
Proof.
  split_and!; [by eapply blocks_hold_view|..].
  - intros hash block body difficulty p cumulative Hnew Hat Hbody Hl Htxs.
    destruct (save_block_run v txs st Hst hash block body difficulty p cumulative Hat)
      as (st' & n & t & s & Hr & Ht & _ & Hs & Est).
    destruct (save_block_effect v txs st Hst hash block difficulty p cumulative Hnew st' n t s Est)
      as (Eb & Etx & Ed & Ec & Ep & Eh & E1 & E2 & Epr & En).
    assert (blocks_hold (add_block hash block difficulty cumulative v)
      (foldl add_tx txs (zip (iset_list block.(bh_txs_hashes)) body)) st') as Hst' by by eapply save_block_hold.
    exists st'. split_and!; [exact Hr|done|by eapply saved_block_read| |done].
    apply (load_value (T:=VarUint.t) _ _ _ p); [done|]. rewrite Ep. apply tree_get_insert.
  - intros hash topo Hh Hu. eexists. split; [reflexivity|]. by apply order_block_hold.
  - intros hash block topo supply reward Hb Ht Hleaf Hs Hr Hl.
    destruct (delete_block_run v txs st Hst hash block topo supply reward Hb Ht Hs Hr Hl)
      as (st' & t & tx & s & Hrun & Htx & Hin & Eh & Eo & Eb & Et & Ea).
    exists st'. split; [done|]. by eapply delete_block_hold.
Qed.
End Properties.

(** ** A witness: the first block saved, ordered and deleted *)

#[local] Existing Instances curve_model merlin_model range_proof_model sled_model hash_map_model u256_model iset_model.
#[local] Existing Instance hash_set_Serializer.

Definition s_view : DagView := mkView (fun _ => None) (fun _ => None) (fun _ => VarUint.zero) (fun _ => VarUint.zero) None.
Definition s_block : BlockHeader :=
  mkHeader 0 iset_new 1000 0 0 (vreplicate 32 x00) (mkPublicKey w_point) (iset_insert HashOps.max iset_new).2.

Lemma s_empty_hold : blocks_hold s_view (fun _ => None) (empty_storage true).
Proof.
  assert (forall h, ~ stored s_view h) as Hno by by intros h [b Hb].
  split; try done; try (by intros h Hh; destruct (Hno h)).
  - split; try (by intros h Hh; destruct (Hno h)); try (by intros h t Hh; destruct (Hno h)); done.
  - intros z _. exists iset_new. split; [apply tree_get_empty|]. intros h. split; [by intros ?%not_elem_of_nil|by intros [[b Hb] _]].
Qed.

Lemma s_attachable : attachable s_view s_block.
Proof. split; [|by split|by intros t ?%not_elem_of_nil|done]. unfold header_wf. split_and!; apply (bool_decide_unpack _); vm_compute; exact I. Qed.

Lemma s_tx_wf : transaction_wf w_tx.
Proof.
  unfold transaction_wf, count_ok. repeat match goal with |- _ /\ _ => split end;
    first [done | apply (bool_decide_unpack _); vm_compute; exact I].
Qed.

Lemma block_storage_refines_witness : exists st1 st2 st3,
  save_block s_block [w_tx] VarUint.one VarUint.one HashOps.zero (empty_storage true) = (Ok tt, st1) /\
  set_topo_height_for_block HashOps.zero 0 (BlockStorage.set_cumulative_difficulty_for_block_hash HashOps.zero VarUint.one st1) = (Ok tt, st2) /\
  get_block_by_hash HashOps.zero st2 = Ok (mkBlock s_block [w_tx]) /\
  delete_block_at_topoheight 0 (set_supply_at_topo_height 0 5 (set_block_reward_at_topo_height 0 5 st2)) =
    (Ok (HashOps.zero, s_block, [(HashOps.max, w_tx)]), st3).
Proof.
  destruct (block_storage_refines _ _ _ s_empty_hold) as (_ & Hsave & _).
  destruct (Hsave HashOps.zero s_block [w_tx] VarUint.one VarUint.one VarUint.one) as (st & Hr & Hst & Hg & _);
    [done|exact s_attachable|by constructor; [exact s_tx_wf|]|done|by left|].
  apply stm_bind_ok in Hr as ([] & st1 & Hr & [= <-]).
  destruct (block_storage_refines _ _ _ Hst) as (_ & _ & Horder & _).
  destruct (Horder HashOps.zero 0) as (st2 & [= <-] & Hst2); [by eexists|done|].
  destruct (block_storage_refines _ _ _ (supply_reward_hold _ _ _ 0 5 5 Hst2)) as (_ & _ & _ & Hdel).
  destruct (Hdel HashOps.zero s_block 0 5 5) as (st3 & Hd & _).
  - cbn. apply fn_upd_eq.
  - cbn. by rewrite decide_True.
  - intros x Hx. assert (x = HashOps.zero) as ->; [|by intros ?%not_elem_of_nil].
    destruct Hx as [b Hb]. cbn in Hb. destruct (decide (x = HashOps.zero)) as [->|Hne]; [done|]. by rewrite fn_upd_ne in Hb.
  - apply load_u64; [done|apply tree_get_insert].
  - apply load_u64; [done|apply tree_get_insert].
  - assert (tree_get (hash_bytes HashOps.max) st1.(tx_blocks) = None) as Hn.
    { apply (f_equal snd) in Hr. cbn [snd] in Hr. rewrite <- Hr. vm_compute. reflexivity. }
    intros h b ->%list_elem_of_singleton Hb. change (tree_get (hash_bytes HashOps.max) st1.(tx_blocks) = Some b) in Hb.
    congruence.
  - eexists st1, _, st3. split_and!; [exact Hr|reflexivity|exact Hg|exact Hd].
Defined.
