(* ===== verification/DagBase.v ===== *)
(** The stable base of the DAG: [is_sync_block_at_height], [find_tip_base] and
    [find_common_base] of [core/blockchain.rs].

    A sync block is an ordered block deep enough, alone in the order at its
    height and heavier than what is ordered just under it; everything under it
    is stable.  The base of a tip is the lowest sync block met on the way down
    from it, and the common base the lowest base of the tips. *)

From S2P Require Import Prelude External ExternalModel ExternalCrypto Serializer Hash VarUint Elgamal Block Errors Dag Providers DagOrder DagWalks BlockProviders.

Section Base.
Context {UL : U256Lib} {IS : IndexSetLib Hash} {HM : HashMapIter}.
Context {S : Type} {DP : DifficultyProvider S} {DO : DagOrderProvider S}.
Context {BH : BlocksAtHeightProvider S} {PR : PrunedTopoheightProvider S}.

(** ** Sync blocks *)

(** More than one of the blocks is ordered; [count] of the earlier ones are. *)
Fixpoint several_ordered (provider : S) (count : Z) (tips_at_height : list Hash) : bres bool :=
  match tips_at_height with
  | [] => Ok false
  | hash :: tips_at_height =>
      is_ordered ← is_block_topological_ordered provider hash;
      if (is_ordered : bool) then
        let count := count + 1 in
        if 1 <? count then Ok true else several_ordered provider count tips_at_height
      else several_ordered provider count tips_at_height
  end.

(** [while i >= stable_point && i != 0] *)
Fixpoint collect_pre_blocks (fuel : nat) (provider : S) (stable_point i : Z) (pre_blocks : gset Hash) : bres (gset Hash) :=
  if (stable_point <=? i) && negb (i =? 0) then
    match fuel with
    | O => Diverge
    | Datatypes.S fuel =>
        blocks ← get_blocks_at_height provider i;
        collect_pre_blocks fuel provider stable_point (i - 1) (list_to_set (iset_list blocks) ∪ pre_blocks)
    end
  else Ok pre_blocks.

(** One of the blocks is ordered and not lighter. *)
Fixpoint outweighed (provider : S) (sync_block_cumulative_difficulty : VarUint.t) (pre_blocks : list Hash) : bres bool :=
  match pre_blocks with
  | [] => Ok false
  | pre_hash :: pre_blocks =>
      is_ordered ← is_block_topological_ordered provider pre_hash;
      if (is_ordered : bool) then
        cumulative_difficulty ← get_cumulative_difficulty_for_block_hash provider pre_hash;
        if VarUint.leb sync_block_cumulative_difficulty cumulative_difficulty then Ok true
        else outweighed provider sync_block_cumulative_difficulty pre_blocks
      else outweighed provider sync_block_cumulative_difficulty pre_blocks
  end.

Definition stable_point (block_height : Z) : Z :=
  if STABLE_LIMIT <=? block_height then block_height - STABLE_LIMIT else STABLE_LIMIT - block_height.

(** The node is pruned exactly at the block. *)
Definition at_pruned_point (provider : S) (hash : Hash) : bres bool :=
  pruned ← get_pruned_topoheight provider;
  match pruned with
  | None => Ok false
  | Some pruned_topo =>
      topoheight ← get_topo_height_for_hash provider hash;
      Ok (pruned_topo =? topoheight)
  end.

Definition is_sync_block_at_height (provider : S) (hash : Hash) (height : Z) : bres bool :=
  block_height ← get_height_for_block_hash provider hash;
  if block_height =? 0 then Ok true
  else
    too_recent ← (if height <? u64_add block_height STABLE_LIMIT then Ok true
                  else is_ordered ← is_block_topological_ordered provider hash; Ok (negb is_ordered));
    if (too_recent : bool) then Ok false
    else
      at_pruned ← at_pruned_point provider hash;
      if (at_pruned : bool) then Ok true
      else
        tips_at_height ← get_blocks_at_height provider block_height;
        several ← several_ordered provider 0 (iset_list tips_at_height);
        if (several : bool) then Ok false
        else
          pre_blocks ← collect_pre_blocks (Z.to_nat block_height) provider (stable_point block_height) (block_height - 1) ∅;
          sync_block_cumulative_difficulty ← get_cumulative_difficulty_for_block_hash provider hash;
          heavier ← outweighed provider sync_block_cumulative_difficulty (hs_iter pre_blocks);
          Ok (negb heavier).

(** ** The base of a tip *)
Context {LR : LruLib (Hash * Z) (Hash * Z)}.

(** [tip_base_cache] *)
Abbreviation BaseCache := (lru (Hash * Z) (Hash * Z)).

Definition base_cache_get (key : Hash * Z) : stm BaseCache blockchain_error (option (Hash * Z)) := fun cache =>
  let '(found, cache) := lru_get key cache in (Ok found, cache).

(** [pruned_topoheight > 0 && is_ordered && topoheight <= pruned_topoheight] *)
Definition under_pruned (provider : S) (pruned_topoheight : Z) (hash : Hash) : bres bool :=
  if 0 <? pruned_topoheight then
    is_ordered ← is_block_topological_ordered provider hash;
    if (is_ordered : bool) then
      topoheight ← get_topo_height_for_hash provider hash;
      Ok (topoheight <=? pruned_topoheight)
    else Ok false
  else Ok false.

(** The loop over the tips: the base it stops at, if any, and the stack. *)
Fixpoint scan_tips (provider : S) (hash : Hash) (height pruned_topoheight : Z) (processed : gset Hash)
    (stack tips : list Hash) : stm BaseCache blockchain_error (option (Hash * Z) * list Hash) :=
  match tips with
  | [] => mret (None, stack)
  | tip_hash :: tips =>
      pruned ← lift_res (under_pruned provider pruned_topoheight tip_hash);
      if (pruned : bool) then
        block_height ← lift_res (get_height_for_block_hash provider tip_hash);
        mret (Some (tip_hash, block_height), stack)
      else
        sync ← lift_res (is_sync_block_at_height provider tip_hash height);
        if (sync : bool) then
          block_height ← lift_res (get_height_for_block_hash provider tip_hash);
          _ ← st_modify (lru_put (hash, height) (tip_hash, block_height));
          mret (Some (tip_hash, block_height), stack)
        else
          scan_tips provider hash height pruned_topoheight processed
            (if decide (tip_hash ∈ processed) then stack else tip_hash :: stack) tips
  end.

(** What one iteration does with the block on top of the stack: the base it
    finds, if any, and the stack it leaves. *)
Definition visit_block (provider : S) (hash : Hash) (height pruned_topoheight : Z) (processed : gset Hash)
    (stack : list Hash) (current_hash : Hash) : stm BaseCache blockchain_error (option (Hash * Z) * list Hash) :=
  pruned ← lift_res (under_pruned provider pruned_topoheight current_hash);
  if (pruned : bool) then
    block_height ← lift_res (get_height_for_block_hash provider current_hash);
    mret (Some (current_hash, block_height), stack)
  else
    cached ← base_cache_get (current_hash, height);
    match cached with
    | Some base => mret (Some base, stack)
    | None =>
        tips ← lift_res (get_past_blocks_for_block_hash provider current_hash);
        if (iset_len tips =? 0)%nat then
          _ ← st_modify (lru_put (hash, height) (current_hash, height));
          mret (Some (current_hash, 0), stack)
        else scan_tips provider hash height pruned_topoheight processed stack (iset_list tips)
    end.

(** [bases.insert(base)]: the sequence of the [IndexSet]. *)
Definition push_base (base : option (Hash * Z)) (bases : list (Hash * Z)) : list (Hash * Z) :=
  match base with
  | Some b => if decide (b ∈ bases) then bases else bases ++ [b]
  | None => bases
  end.

Fixpoint tip_base_loop (fuel : nat) (provider : S) (hash : Hash) (height pruned_topoheight : Z)
    (bases : list (Hash * Z)) (processed : gset Hash) (stack : list Hash) : stm BaseCache blockchain_error (list (Hash * Z)) :=
  match stack with
  | [] => mret bases
  | current_hash :: stack =>
      match fuel with
      | O => lift_res Diverge
      | Datatypes.S fuel =>
          let processed := {[current_hash]} ∪ processed in
          '(base, stack) ← visit_block provider hash height pruned_topoheight processed stack current_hash;
          tip_base_loop fuel provider hash height pruned_topoheight (push_base base bases) processed stack
      end
  end.

(** [bases.sort_by(|(_, a), (_, b)| b.cmp(a))] *)
Definition sort_bases (bases : list (Hash * Z)) : list (Hash * Z) := sort_by (fun a b => b.2 ?= a.2) bases.

Definition find_tip_base (fuel : nat) (provider : S) (hash : Hash) (height pruned_topoheight : Z)
  : stm BaseCache blockchain_error (Hash * Z) :=
  bases ← tip_base_loop fuel provider hash height pruned_topoheight [] ∅ [hash];
  base ← lift_res (ok_or (list.last (sort_bases bases)) BlockchainError.ExpectedTips);
  _ ← st_modify (lru_put (hash, height) base);
  mret base.

(** [find_common_base] *)
Definition find_common_base (fuel : nat) (provider : S) (tips : list Hash)
  : stm BaseCache blockchain_error (Hash * Z) :=
  best_height ← lift_res (foldM (fun best_height hash =>
    height ← get_height_for_block_hash provider hash;
    Ok (if best_height <? height then height else best_height)) 0 tips);
  pruned ← lift_res (get_pruned_topoheight provider);
  let pruned_topoheight := default 0 pruned in
  bases ← foldMs (fun bases hash =>
    base ← find_tip_base fuel provider hash best_height pruned_topoheight;
    mret (bases ++ [base])) [] tips;
  match list.last (sort_bases bases) with
  | None => st_err BlockchainError.ExpectedTips
  | Some base => mret base
  end.
End Base.

(** ** Sync blocks of a view *)
Section SyncFacts.
Context {UL : U256Lib} {IS : IndexSetLib Hash} {HM : HashMapIter}.
Context {S : Type} {DP : DifficultyProvider S} {DL : DifficultyProviderLaws S} {DO : DagOrderProvider S}.
Context {BH : BlocksAtHeightProvider S} {PR : PrunedTopoheightProvider S}.

(** A block is in the order. *)
Definition in_order (v : DagView) (h : Hash) : Prop := is_Some (v.(v_topo) h).

(** The rule of the sync blocks: the genesis; or a block in the order, deep
    enough under [height], that is where the node is pruned, or is alone in the
    order at its height and heavier than every ordered block between the stable
    point and itself. *)
Definition sync_block (v : DagView) (height : Z) (h : Hash) : Prop :=
  v_height v h = 0 \/
  (v_height v h + STABLE_LIMIT <= height /\ exists topo, v.(v_topo) h = Some topo /\
    (v.(v_pruned) = Some topo \/
     (forall h', in_order v h' -> v_height v h' = v_height v h -> h' = h) /\
     (forall h', in_order v h' -> stable_point (v_height v h) <= v_height v h' < v_height v h -> v_height v h' <> 0 ->
        VarUint.val (v.(v_cumulative) h') < VarUint.val (v.(v_cumulative) h)))).

Context (provider : S) (v : DagView) (Hv : view_of provider v).

Lemma in_order_stored h : in_order v h -> stored v h.
Proof using Hv. intros [topo Ht]. by eapply view_topo_stored; [eapply view_is_wf|]. Qed.

Lemma several_ordered_spec l count :
  0 <= count <= 1 ->
  several_ordered provider count l =
    Ok (bool_decide (1 < count + Z.of_nat (length (filter (in_order v) l)))).
Proof using Hv.
  revert count. induction l as [|h l IH]; intros count Hc; cbn [several_ordered].
  - f_equal. symmetry. apply bool_decide_eq_false_2. cbn. lia.
  - rewrite (view_ordered _ _ Hv h). cbn [mbind res_bind]. rewrite filter_cons. case_decide as Ho; unfold in_order in Ho.
    + rewrite bool_decide_eq_true_2 by done. destruct (Z.ltb_spec 1 (count + 1)).
      * f_equal. symmetry. apply bool_decide_eq_true_2. rewrite length_cons. lia.
      * rewrite IH by lia. f_equal. apply bool_decide_ext. rewrite length_cons. lia.
    + rewrite bool_decide_eq_false_2 by done. by rewrite IH.
Qed.

(** Every height under a stored block has a block. *)
Lemma height_inhabited z h : stored v h -> 0 <= z <= v_height v h -> exists x, stored v x /\ v_height v x = z.
Proof using Hv.
  intros Hh Hz. pose proof (view_is_wf _ _ Hv) as Hwf.
  remember (Z.to_nat (v_height v h - z)) as n eqn:En. revert h Hh Hz En. induction n as [|n IH]; intros h Hh Hz En.
  - exists h. split; [done|]. lia.
  - destruct (view_height_tips _ Hwf h Hh) as (t & Ht & Eh); [lia|].
    apply (IH t); [by eapply view_tips_stored|lia|lia].
Qed.

Lemma collect_pre_blocks_spec fuel point i pre_blocks h0 :
  stored v h0 -> 0 <= i <= v_height v h0 -> (Z.to_nat i <= fuel)%nat ->
  exists pre', collect_pre_blocks fuel provider point i pre_blocks = Ok pre' /\
    forall h, h ∈ pre' <-> h ∈ pre_blocks \/ stored v h /\ point <= v_height v h <= i /\ 0 < v_height v h.
Proof using Hv.
  intros Hh0. revert i pre_blocks. induction fuel as [|fuel IH]; intros i pre_blocks Hi Hf; cbn [collect_pre_blocks].
  { assert (i = 0) as -> by lia. rewrite Z.eqb_refl, andb_false_r. exists pre_blocks. split; [done|].
    intros h. split; [by left|]. intros [|]; [done|lia]. }
  destruct ((point <=? i) && negb (i =? 0)) eqn:E.
  - apply andb_true_iff in E as [Hp%Z.leb_le Hn%negb_true_iff%Z.eqb_neq].
    destruct (height_inhabited i h0 Hh0 Hi) as (x & Hx & <-).
    destruct (view_at_height _ _ Hv x Hx) as (s & -> & Hs). cbn [mbind res_bind].
    destruct (IH (v_height v x - 1) (list_to_set (iset_list s) ∪ pre_blocks)) as (pre' & -> & Hel); [lia|lia|].
    exists pre'. split; [done|]. intros h. rewrite Hel, elem_of_union, elem_of_list_to_set, Hs.
    destruct (decide (v_height v h = v_height v x)); intuition lia.
  - exists pre_blocks. split; [done|]. intros h. apply andb_false_iff in E as [E%Z.leb_gt|E%negb_false_iff%Z.eqb_eq];
      intuition lia.
Qed.

Lemma outweighed_spec difficulty l :
  outweighed provider difficulty l = Ok (bool_decide (Exists (fun h => in_order v h /\
    VarUint.val difficulty <= VarUint.val (v.(v_cumulative) h)) l)).
Proof using Hv.
  induction l as [|h l IH]; cbn [outweighed].
  - reflexivity.
  - rewrite (view_ordered _ _ Hv h). cbn [mbind res_bind]. destruct (decide (in_order v h)) as [Ho|Ho].
    + rewrite bool_decide_eq_true_2 by done. rewrite (view_cumulative _ _ Hv h) by (by apply in_order_stored).
      cbn [mbind res_bind]. unfold VarUint.leb. destruct (Z.leb_spec (VarUint.val difficulty) (VarUint.val (v_cumulative v h))).
      * f_equal. symmetry. apply bool_decide_eq_true_2. left. done.
      * rewrite IH. f_equal. apply bool_decide_ext. rewrite Exists_cons. intuition lia.
    + rewrite bool_decide_eq_false_2 by done. rewrite IH. f_equal. apply bool_decide_ext. rewrite Exists_cons. tauto.
Qed.

Lemma stable_point_pos z : 0 < z -> 0 <= stable_point z.
Proof. unfold stable_point, STABLE_LIMIT. destruct (Z.leb_spec 8 z); lia. Qed.

(** The ordered blocks of a height, when one of them is known. *)
Lemma alone_at_height h s :
  in_order v h -> NoDup (iset_list s) ->
  (forall x, x ∈ iset_list s <-> stored v x /\ v_height v x = v_height v h) ->
  (Z.of_nat (length (filter (in_order v) (iset_list s))) <= 1 <->
   forall h', in_order v h' -> v_height v h' = v_height v h -> h' = h).
Proof using Hv.
  intros Ho Hnd Hs. assert (h ∈ filter (in_order v) (iset_list s)) as Hin.
  { apply list_elem_of_filter. split; [done|]. apply Hs. split; [by apply in_order_stored|done]. }
  assert (NoDup (filter (in_order v) (iset_list s))) as Hnd' by by apply list.NoDup_filter.
  assert (forall h', h' ∈ filter (in_order v) (iset_list s) <-> in_order v h' /\ v_height v h' = v_height v h) as Hel.
  { intros h'. rewrite list_elem_of_filter, Hs. pose proof (in_order_stored h'). tauto. }
  destruct (filter (in_order v) (iset_list s)) as [|a [|b l]] eqn:E; [by apply not_elem_of_nil in Hin| |].
  - apply list_elem_of_singleton in Hin as ->. split; [|cbn; lia]. intros _ h' H1 H2. by apply list_elem_of_singleton, Hel.
  - split; [cbn; lia|]. intros Hall. exfalso.
    assert (a = h) as -> by (apply Hall; apply Hel; left). assert (b = h) as -> by (apply Hall; apply Hel; right; left).
    apply list.NoDup_cons in Hnd' as [Hn _]. apply Hn. left.
Qed.

Lemma at_pruned_view h topo :
  v.(v_topo) h = Some topo -> at_pruned_point provider h = Ok (bool_decide (v.(v_pruned) = Some topo)).
Proof using Hv.
  intros Ht. unfold at_pruned_point. rewrite (view_pruned _ _ Hv). cbn [mbind res_bind].
  destruct (v_pruned v) as [p|]; [|done]. rewrite (view_topo _ _ Hv h topo Ht). cbn [mbind res_bind]. f_equal.
  destruct (Z.eqb_spec p topo); symmetry; [apply bool_decide_eq_true_2|apply bool_decide_eq_false_2]; congruence.
Qed.

(** The check decides the rule. *)
Lemma sync_block_run height h :
  stored v h ->
  exists b, is_sync_block_at_height provider h height = Ok b /\ (b = true <-> sync_block v height h).
Proof using Hv DL.
  intros Hh. unfold is_sync_block_at_height, sync_block. pose proof (view_is_wf _ _ Hv) as Hwf.
  pose proof (view_range _ Hwf h Hh) as Hr. unfold in_u in Hr.
  rewrite (stored_height provider v Hv h Hh). cbn [mbind res_bind].
  destruct (Z.eqb_spec (v_height v h) 0) as [E|Hn]; [exists true; split; [done|]; by rewrite E; tauto|].
  rewrite u64_add_small by (unfold in_u, STABLE_LIMIT; lia).
  destruct (Z.ltb_spec height (v_height v h + STABLE_LIMIT)) as [Hlt|Hge]; cbn [mbind res_bind].
  { exists false. split; [done|]. split; [done|]. intros [?|[? _]]; lia. }
  rewrite (view_ordered _ _ Hv h). cbn [mbind res_bind]. destruct (v_topo v h) as [topo|] eqn:Et; cbn [negb bool_decide decide].
  2: { rewrite bool_decide_eq_false_2 by (by intros [? ?]). exists false. split; [done|]. split; [done|].
       intros [?|(_ & topo & ? & _)]; [lia|done]. }
  rewrite bool_decide_eq_true_2 by done. cbn [negb mbind res_bind]. rewrite (at_pruned_view h topo Et). cbn [mbind res_bind].
  case_bool_decide as Hp.
  { exists true. split; [done|]. split; [|done]. intros _. right. split; [lia|]. eauto. }
  assert (in_order v h) as Ho by (by exists topo).
  destruct (view_at_height _ _ Hv h Hh) as (s & -> & Hs). cbn [mbind res_bind].
  rewrite several_ordered_spec by lia. cbn [mbind res_bind]. rewrite Z.add_0_l.
  pose proof (alone_at_height h s Ho (iset_NoDup s) Hs) as Halone.
  case_bool_decide as Hsev.
  { exists false. split; [done|]. split; [done|].
    intros [?|(_ & topo' & [= <-] & [?|[Ha%Halone _]])]; [lia|done|lia]. }
  destruct (collect_pre_blocks_spec (Z.to_nat (v_height v h)) (stable_point (v_height v h)) (v_height v h - 1) ∅ h Hh)
    as (pre & -> & Hpre); [lia|lia|]. cbn [mbind res_bind].
  rewrite (view_cumulative _ _ Hv h Hh). cbn [mbind res_bind]. rewrite outweighed_spec. cbn [mbind res_bind].
  pose proof (stable_point_pos (v_height v h) ltac:(lia)) as Hsp.
  eexists. split; [done|]. rewrite negb_true_iff, bool_decide_eq_false, list.Exists_exists. split.
  - intros Hall. right. split; [lia|]. exists topo. split; [done|]. right. split.
    + apply Halone. lia.
    + intros h' Ho' Hh' Hn'. apply Z.nle_gt. intros Hle. apply Hall. exists h'. split; [|done].
      rewrite hs_iter_spec, elem_of_elements. apply Hpre. right. split; [by apply in_order_stored|lia].
  - intros [?|(_ & topo' & [= <-] & [?|[_ Hall]])]; [lia|done|]. intros (h' & Hin & Ho' & Hle).
    rewrite hs_iter_spec, elem_of_elements in Hin. apply Hpre in Hin as [Hin|(Hst & Hh' & Hpos)]; [set_solver|].
    specialize (Hall h' Ho' ltac:(lia) ltac:(lia)). lia.
Qed.

(** Where the node is not pruned, one block at most is a sync block at a height. *)
Lemma sync_block_unique height h1 h2 :
  v_height v h1 = v_height v h2 -> v_height v h1 <> 0 -> v.(v_pruned) = None ->
  sync_block v height h1 -> sync_block v height h2 -> h1 = h2.
Proof.
  intros Eh Hn Hp [?|(_ & t1 & H1 & [?|[Ha _]])] [?|(_ & t2 & H2 & _)]; try congruence.
  symmetry. apply Ha; [by exists t2|done].
Qed.
End SyncFacts.

(** ** The bases of a tip *)
Section Bases.
Context {UL : U256Lib} {IS : IndexSetLib Hash} {HM : HashMapIter}.
Context (v : DagView) (height pruned : Z).

(** The order of the block is pruned away. *)
Definition pruned_under (x : Hash) : Prop := 0 < pruned /\ exists topo, v.(v_topo) x = Some topo /\ topo <= pruned.

(** A tip the walk stops at. *)
Definition base_tip (t : Hash) : Prop := pruned_under t \/ sync_block v height t.

(** The base found at the block [x], if any, and where the walk goes on. *)
Inductive stops_at (x : Hash) : Hash -> Prop :=
  | stop_pruned : pruned_under x -> stops_at x x
  | stop_genesis : ~ pruned_under x -> v_tips v x = [] -> stops_at x x
  | stop_tip pre t post : ~ pruned_under x -> v_tips v x = pre ++ t :: post ->
      Forall (fun y => ~ base_tip y) pre -> base_tip t -> stops_at x t.

Definition goes_to (x t : Hash) : Prop :=
  ~ pruned_under x /\ exists pre post, v_tips v x = pre ++ t :: post /\ Forall (fun y => ~ base_tip y) (pre ++ [t]).

(** The bases met on the way down from [x]. *)
Inductive base_of (x : Hash) : Hash -> Prop :=
  | base_here b : stops_at x b -> base_of x b
  | base_below t b : goes_to x t -> base_of t b -> base_of x b.

(** The lowest of them, with its height. *)
Definition lowest_base (x : Hash) (base : Hash * Z) : Prop :=
  base_of x base.1 /\ base.2 = v_height v base.1 /\ forall b, base_of x b -> base.2 <= v_height v b.

(** The list is cut at its first element with the property. *)
Lemma cut_first {A} (P : A -> Prop) pre1 s post1 pre2 y post2 :
  pre1 ++ s :: post1 = pre2 ++ y :: post2 -> Forall (fun x => ~ P x) pre1 -> P s ->
  Forall (fun x => ~ P x) (pre2 ++ [y]) -> y ∈ pre1.
Proof.
  revert pre2. induction pre1 as [|a pre1 IH]; intros [|c pre2] E Hpre Hs Hall; cbn in *;
    injection E as -> E; apply list.Forall_cons in Hall as [Hc Hall].
  - done.
  - done.
  - left.
  - right. apply list.Forall_cons in Hpre as [_ Hpre]. eapply IH; done.
Qed.

Lemma cut_first_unique {A} (P : A -> Prop) pre1 s post1 pre2 y post2 :
  pre1 ++ s :: post1 = pre2 ++ y :: post2 -> Forall (fun x => ~ P x) pre1 -> P s ->
  Forall (fun x => ~ P x) pre2 -> P y -> s = y.
Proof.
  revert pre2. induction pre1 as [|a pre1 IH]; intros [|c pre2] E Hpre Hs Hall Hy; cbn in *; injection E as -> E;
    rewrite ?list.Forall_cons in *; [done|tauto|tauto|]. eapply IH; naive_solver.
Qed.

Lemma cut_none {A} (P : A -> Prop) l pre s post : Forall (fun x => ~ P x) l -> l = pre ++ s :: post -> ~ P s.
Proof. intros Hl ->. rewrite list.Forall_app, list.Forall_cons in Hl. tauto. Qed.

Lemma goes_to_tip x t : goes_to x t -> t ∈ v_tips v x.
Proof. intros (_ & pre & post & -> & _). set_solver. Qed.

(** *** The lowest of a list of bases *)

Lemma sort_bases_last (l : list (Hash * Z)) :
  l <> [] -> exists b, list.last (sort_bases l) = Some b /\ b ∈ l /\ forall r, r ∈ l -> b.2 <= r.2.
Proof.
  intros Hne. assert (sort_bases l ≡ₚ l) as Hp by apply sort_by_Permutation.
  assert (StronglySorted (fun a b : Hash * Z => b.2 <= a.2) (sort_bases l)) as Hs.
  { assert (Sorted (fun a b : Hash * Z => (b.2 ?= a.2) <> Gt) (sort_bases l)) as Hs.
    { apply sort_by_sorted. intros a b. rewrite (Z.compare_antisym a.2 b.2). destruct (a.2 ?= b.2); done. }
    apply Sorted_StronglySorted in Hs; [|intros a b c; rewrite !Z.compare_le_iff; lia].
    clear Hp. induction Hs as [|a m Hs IH Hf]; [constructor|]. constructor; [by apply IH|].
    eapply list.Forall_impl; [exact Hf|]. cbn. intros c. by rewrite Z.compare_le_iff. }
  assert (forall m : list (Hash * Z), StronglySorted (fun a b => b.2 <= a.2) m -> m <> [] ->
    exists b, list.last m = Some b /\ b ∈ m /\ forall r, r ∈ m -> b.2 <= r.2) as Hlast.
  { induction 1 as [|a m Hm IH Hf]; [done|]. intros _. destruct m as [|c m].
    - exists a. split; [done|]. split; [left|]. intros r ->%list_elem_of_singleton. lia.
    - destruct IH as (b & Hb & Hin & Hle); [done|]. exists b. split; [exact Hb|]. split; [by right|].
      intros r [->|Hr]%list.elem_of_cons; [|by apply Hle]. rewrite list.Forall_forall in Hf. by apply Hf. }
  destruct (Hlast (sort_bases l) Hs) as (b & Hb & Hin & Hle).
  { intros E. rewrite E in Hp. by apply Permutation_nil_l in Hp as <-. }
  exists b. split; [done|]. rewrite Hp in Hin. split; [done|]. intros r Hr. apply Hle. by rewrite Hp.
Qed.
End Bases.

(** ** The base of a tip *)
Section TipBase.
Context {UL : U256Lib} {IS : IndexSetLib Hash} {HM : HashMapIter}.
Context {S : Type} {DP : DifficultyProvider S} {DL : DifficultyProviderLaws S} {DO : DagOrderProvider S}.
Context {BH : BlocksAtHeightProvider S} {PR : PrunedTopoheightProvider S}.
Context {LR : LruLib (Hash * Z) (Hash * Z)}.
Context (provider : S) (v : DagView) (Hv : view_of provider v).

(** What the cache answers is the lowest base, for this pruned topoheight. *)
Definition base_coherent (pruned : Z) (cache : lru (Hash * Z) (Hash * Z)) : Prop :=
  forall x height base, stored v x -> lru_holds cache (x, height) base -> lowest_base v height pruned x base.

(** The same, but for one key. *)
Definition base_coherent_but (pruned : Z) (key : Hash * Z) (cache : lru (Hash * Z) (Hash * Z)) : Prop :=
  forall x height base, stored v x -> (x, height) <> key -> lru_holds cache (x, height) base -> lowest_base v height pruned x base.

Lemma coherent_but_put pruned key base cache :
  base_coherent_but pruned key cache -> base_coherent_but pruned key (lru_put key base cache).
Proof. intros Hc x h b Hx Hne [[? _]|[_ Hh]]%lru_put_holds; [done|by eapply Hc]. Qed.

Context (height pruned : Z).
Abbreviation base_tip' := (base_tip v height pruned).
Abbreviation stops := (stops_at v height pruned).
Abbreviation goes := (goes_to v height pruned).

Lemma under_pruned_run x :
  exists b, under_pruned provider pruned x = Ok b /\ (b = true <-> pruned_under v pruned x).
Proof using Hv.
  unfold under_pruned, pruned_under. destruct (Z.ltb_spec 0 pruned) as [Hp|Hp].
  2: { exists false. split; [done|]. split; [done|]. lia. }
  rewrite (view_ordered _ _ Hv x). cbn [mbind res_bind]. destruct (v_topo v x) as [topo|] eqn:E.
  - rewrite bool_decide_eq_true_2 by done. rewrite (view_topo _ _ Hv x topo E). cbn [mbind res_bind].
    eexists. split; [done|]. rewrite Z.leb_le. naive_solver.
  - rewrite bool_decide_eq_false_2 by (by intros [? ?]). exists false. naive_solver.
Qed.

(** The loop over the tips of a block: [done_] are behind it. *)
Lemma scan_tips_run hash (size : Hash -> nat) processed stack tips cache :
  Forall (stored v) tips ->
  exists base new cache', scan_tips provider hash height pruned processed stack tips cache = (Ok (base, new ++ stack), cache') /\
    (base_coherent_but pruned (hash, height) cache -> base_coherent_but pruned (hash, height) cache') /\
    (sum_list_with size new <= sum_list_with size tips)%nat /\
    exists pre, Forall (fun y => ~ base_tip' y) pre /\ (forall t, t ∈ new -> t ∈ pre) /\
      (forall t, t ∈ pre -> t ∈ new \/ t ∈ processed) /\
      match base with
      | None => tips = pre
      | Some b => exists post, tips = pre ++ b.1 :: post /\ base_tip' b.1 /\ b.2 = v_height v b.1
      end.
Proof using Hv DL.
  revert stack cache. induction tips as [|t tips IH]; intros stack cache Hst; cbn [scan_tips].
  { exists None, [], cache. split_and!; [done|done|done|]. exists []. split_and!; [constructor|set_solver|set_solver|done]. }
  apply list.Forall_cons in Hst as [Ht Hst]. unfold mbind, stm_bind, lift_res.
  destruct (under_pruned_run t) as (p & -> & Hp). rewrite (stored_height provider v Hv t Ht).
  destruct p.
  { exists (Some (t, v_height v t)), [], cache. split_and!; [done|done|cbn; lia|].
    exists []. split; [constructor|]. split; [set_solver|]. split; [set_solver|]. exists tips. split_and!; [done|left; by apply Hp|done]. }
  destruct (sync_block_run provider v Hv height t Ht) as (b & -> & Hb). destruct b.
  { exists (Some (t, v_height v t)), []. eexists. split; [done|]. split; [apply coherent_but_put|].
    split; [cbn; lia|].
    exists []. split; [constructor|]. split; [set_solver|]. split; [set_solver|]. exists tips. split_and!; [done|right; by apply Hb|done]. }
  assert (~ base_tip' t) as Hn by (intros [?%Hp|?%Hb]; done).
  destruct (IH (if decide (t ∈ processed) then stack else t :: stack) cache Hst)
    as (base & new & cache' & -> & Hc & Hsz & pre & Hpre & Hsub & Hin & Hbase).
  exists base, (if decide (t ∈ processed) then new else new ++ [t]), cache'.
  split; [case_decide; [done|by rewrite <- (assoc_L (++))]|]. split; [done|].
  split; [case_decide; rewrite ?sum_list_with_app; cbn; lia|].
  exists (t :: pre). split; [by constructor|]. split; [case_decide; set_solver|]. split.
  - intros t' [->|Ht']%list.elem_of_cons; case_decide; set_solver.
  - destruct base as [b|]; [|by subst]. destruct Hbase as (post & -> & ? & ?). exists post. done.
Qed.

(** What a visit of [x] leaves: the base of all that is under it, or its own
    and the tips to go on with. *)
Definition handled (x : Hash) (bases : list (Hash * Z)) (todo : Hash -> Prop) : Prop :=
  (exists b, b ∈ bases /\ forall b', base_of v height pruned x b' -> b.2 <= v_height v b') \/
  ((forall b', stops x b' -> exists b, b ∈ bases /\ b.2 = v_height v b') /\ forall t, goes x t -> todo t).

Lemma visit_block_run hash (size : Hash -> nat) processed stack x cache :
  (sum_list_with size (v_tips v x) < size x)%nat -> stored v x ->
  base_coherent_but pruned (hash, height) cache ->
  (forall base, lru_holds cache (x, height) base -> lowest_base v height pruned x base) ->
  exists base new cache', visit_block provider hash height pruned processed stack x cache = (Ok (base, new ++ stack), cache') /\
    base_coherent_but pruned (hash, height) cache' /\ (sum_list_with size new < size x)%nat /\
    (forall t, t ∈ new -> goes x t) /\
    (forall b, base = Some b -> base_of v height pruned x b.1 /\ b.2 = v_height v b.1) /\
    handled x (option_list base) (fun t => t ∈ new \/ t ∈ processed).
Proof using Hv DL.
  intros Hsize Hx Hc Hcx. unfold visit_block, base_cache_get, mbind, stm_bind, lift_res.
  destruct (under_pruned_run x) as (p & -> & Hp). rewrite (stored_height provider v Hv x Hx). destruct p.
  { assert (pruned_under v pruned x) as Hpx by by apply Hp.
    exists (Some (x, v_height v x)), [], cache. split_and!; [done|done|cbn; lia|set_solver| |].
    - intros b [= <-]. split; [|done]. by apply base_here, stop_pruned.
    - right. split; [|by intros t [? _]]. intros b' Hb'. exists (x, v_height v x). split; [left|].
      by inversion Hb'. }
  assert (~ pruned_under v pruned x) as Hnp by (intros ?%Hp; done).
  destruct (lru_get (x, height) cache) as [found cache1] eqn:Eg.
  assert (base_coherent_but pruned (hash, height) cache1) as Hc1.
  { intros y h b Hy Hne Hh. eapply Hc; [done|done|]. apply (lru_get_keeps (x, height)). by rewrite Eg. }
  destruct found as [base|].
  { assert (lowest_base v height pruned x base) as (Hb1 & Hb2 & Hb3).
    { apply Hcx, lru_get_some. by rewrite Eg. }
    exists (Some base), [], cache1. split_and!; [done|done|cbn; lia|set_solver| |].
    - by intros b [= <-].
    - left. exists base. split; [left|done]. }
  destruct (stored_tips provider v Hv x Hx) as (tips & -> & Et).
  assert (iset_len tips = length (v_tips v x)) as -> by (unfold iset_len; by rewrite Et). rewrite Et.
  destruct (Nat.eqb_spec (length (v_tips v x)) 0) as [E0%nil_length_inv|Hne0].
  { assert (v_height v x = 0) as Eh.
    { destruct (decide (v_height v x = 0)) as [|Hn]; [done|]. exfalso.
      destruct (view_height_tips _ (view_is_wf _ _ Hv) x Hx Hn) as (t & Ht & _). rewrite E0 in Ht. set_solver. }
    exists (Some (x, 0)), []. eexists. split; [done|]. split; [by apply coherent_but_put|].
    split; [cbn; lia|]. split; [set_solver|]. split.
    - intros b [= <-]. cbn. split; [by apply base_here, stop_genesis|done].
    - right. split.
      + intros b' Hb'. exists (x, 0). split; [left|]. cbn. inversion Hb' as [| |pre t post ? E]; subst; [done|done|].
        rewrite E0 in E. by destruct pre.
      + intros t Ht%goes_to_tip. rewrite E0 in Ht. set_solver. }
  destruct (scan_tips_run hash size processed stack (v_tips v x) cache1)
    as (base & new & cache' & -> & Hc' & Hsz & pre & Hpre & Hsub & Hin & Hbase).
  { apply list.Forall_forall. intros t. by apply (view_tips_stored _ (view_is_wf _ _ Hv)). }
  exists base, new, cache'. split_and!; [done|by apply Hc'|lia| | |].
  - intros t Ht%Hsub. split; [done|]. apply list_elem_of_split in Ht as (l1 & l2 & ->).
    assert (exists post, v_tips v x = (l1 ++ t :: l2) ++ post) as [post ->].
    { destruct base as [b|]; [|exists []; by rewrite app_nil_r]. destruct Hbase as (post & -> & _). eauto. }
    exists l1, (l2 ++ post). rewrite <- (assoc_L (++)). split; [done|].
    rewrite list.Forall_app, list.Forall_cons in Hpre. rewrite list.Forall_app, list.Forall_singleton. tauto.
  - intros b ->. destruct Hbase as (post & E & Hb & Eh). split; [|done]. eapply base_here, stop_tip; done.
  - right. split.
    + intros b' Hb'. inversion Hb' as [|? E|pre' t' post' ? E Hpre' Ht']; subst; [done|by rewrite E in Hne0|].
      destruct base as [b|].
      * destruct Hbase as (post & E1 & Hb & Eh). exists b. split; [left|].
        rewrite Eh. f_equal. rewrite E1 in E. by eapply (cut_first_unique base_tip').
      * rewrite Hbase in E. by destruct (cut_none base_tip' pre pre' b' post' Hpre E).
    + intros t (_ & pre' & post' & E & Hpre'). destruct base as [b|].
      * destruct Hbase as (post & E1 & Hb & Eh). apply Hin. rewrite E1 in E. by eapply (cut_first base_tip').
      * apply Hin. rewrite <- Hbase, E. set_solver.
Qed.

(** *** The loop *)

(** The invariant of the walk from [hash]. *)
Record base_inv (hash : Hash) (bases : list (Hash * Z)) (processed : gset Hash) (stack : list Hash) : Prop := {
  inv_stack x : x ∈ stack -> stored v x /\ (x = hash \/ v_height v x < v_height v hash);
  inv_cone x b : x ∈ stack -> base_of v height pruned x b -> base_of v height pruned hash b;
  inv_bases b : b ∈ bases -> base_of v height pruned hash b.1 /\ b.2 = v_height v b.1;
  inv_handled x : x ∈ processed -> handled x bases (fun t => t ∈ processed \/ t ∈ stack);
}.

(** [hash] itself is only visited first. *)
Definition base_cache_ok (hash : Hash) (stack : list Hash) (cache : lru (Hash * Z) (Hash * Z)) : Prop :=
  base_coherent_but pruned (hash, height) cache /\
  ((forall x, x ∈ stack -> x <> hash) \/
   stack = [hash] /\ forall base, lru_holds cache (hash, height) base -> lowest_base v height pruned hash base).

Lemma handled_mono x bases bases' (todo todo' : Hash -> Prop) :
  (forall b, b ∈ bases -> b ∈ bases') -> (forall t, todo t -> todo' t) -> handled x bases todo -> handled x bases' todo'.
Proof.
  intros Hb Ht [(b & Hin & Hle)|[Hs Hg]]; [left; eauto|]. right. split; [|eauto].
  intros b' (b & Hin & E)%Hs. eauto.
Qed.

Lemma push_base_elem base bases b : b ∈ push_base base bases <-> b ∈ bases \/ base = Some b.
Proof. unfold push_base. destruct base as [b'|]; [|naive_solver]. case_decide; set_solver. Qed.

Lemma tip_base_loop_run hash (size : Hash -> nat) fuel bases processed stack cache :
  (forall x, (sum_list_with size (v_tips v x) < size x)%nat) ->
  (sum_list_with size stack <= fuel)%nat ->
  base_inv hash bases processed stack -> base_cache_ok hash stack cache ->
  exists bases' processed' cache',
    tip_base_loop fuel provider hash height pruned bases processed stack cache = (Ok bases', cache') /\
    base_coherent_but pruned (hash, height) cache' /\ base_inv hash bases' processed' [] /\
    (forall x, x ∈ processed \/ x ∈ stack -> x ∈ processed').
Proof using Hv DL.
  intros Hsize. revert bases processed stack cache.
  induction fuel as [|fuel IH]; intros bases processed [|x stack] cache Hf Hinv [Hc Hfirst]; cbn [tip_base_loop];
    cbn [sum_list_with] in Hf;
    [exists bases, processed, cache; split_and!; [done..|set_solver] | specialize (Hsize x); lia
    | exists bases, processed, cache; split_and!; [done..|set_solver] |].
  destruct (inv_stack _ _ _ _ Hinv x ltac:(left)) as [Hx Hhx].
  destruct (visit_block_run hash size ({[x]} ∪ processed) stack x cache (Hsize x) Hx Hc) as
    (base & new & cache1 & E & Hc1 & Hsz & Hnew & Hbase & Hh).
  { intros b Hb. destruct Hfirst as [Hne|[[= -> _] Hok]]; [|by apply Hok].
    eapply Hc; [done| |done]. intros [= ->]. by apply (Hne hash); [left|]. }
  unfold mbind, stm_bind. rewrite E. cbv beta iota.
  assert (forall t, t ∈ new -> stored v t /\ v_height v t < v_height v x) as Hnt.
  { intros t Ht%Hnew%goes_to_tip. pose proof (view_is_wf _ _ Hv) as Hwf.
    split; [by eapply view_tips_stored|by eapply view_tips_height]. }
  destruct (IH (push_base base bases) ({[x]} ∪ processed) (new ++ stack) cache1)
    as (bases' & processed' & cache' & -> & Hc' & Hinv' & Hsub).
  - rewrite sum_list_with_app. lia.
  - split.
    + intros y [Hy|Hy]%elem_of_app.
      * destruct (Hnt y Hy). split; [done|]. right. destruct Hhx as [->|]; lia.
      * apply (inv_stack _ _ _ _ Hinv). by right.
    + intros y b [Hy|Hy]%elem_of_app Hb.
      * apply (inv_cone _ _ _ _ Hinv x); [left|]. eapply base_below; [by apply Hnew|done].
      * apply (inv_cone _ _ _ _ Hinv y); [by right|done].
    + intros b [Hb| ->]%push_base_elem; [by apply (inv_bases _ _ _ _ Hinv)|].
      destruct (Hbase b eq_refl) as [Hb1 Hb2]. split; [|done]. apply (inv_cone _ _ _ _ Hinv x); [left|done].
    + intros y [->%elem_of_singleton|Hy]%elem_of_union.
      * eapply handled_mono; [..|exact Hh]; [|set_solver]. intros b Hb. apply push_base_elem. right.
        destruct base; [by apply list_elem_of_singleton in Hb as ->|by apply not_elem_of_nil in Hb].
      * eapply handled_mono; [..|by apply (inv_handled _ _ _ _ Hinv)]; [|set_solver].
        intros b Hb. apply push_base_elem. by left.
  - split; [done|]. left. intros y [Hy|Hy]%elem_of_app.
    + intros ->. destruct (Hnt hash Hy). destruct Hhx as [->|]; lia.
    + destruct Hfirst as [Hne|[[= -> ->] _]]; [|by apply not_elem_of_nil in Hy]. apply Hne. by right.
  - exists bases', processed', cache'. split_and!; [done..|]. intros y Hy. apply Hsub. set_solver.
Qed.

(** Every base under a block that was processed is reached. *)
Lemma bases_complete hash bases processed x b :
  base_inv hash bases processed [] -> x ∈ processed -> base_of v height pruned x b ->
  exists r, r ∈ bases /\ r.2 <= v_height v b.
Proof.
  intros Hinv Hx Hb. revert Hx. induction Hb as [x b Hs|x t b Hg Hb IH]; intros Hx;
    destruct (inv_handled _ _ _ _ Hinv x Hx) as [(r & Hr & Hle)|[Hst Hgo]].
  - exists r. split; [done|]. by apply Hle, base_here.
  - destruct (Hst b Hs) as (r & Hr & E). exists r. split; [done|lia].
  - exists r. split; [done|]. apply Hle. by eapply base_below.
  - destruct (Hgo t Hg) as [Ht|Ht]; [by apply IH|]. by apply not_elem_of_nil in Ht.
Qed.

(** Every stored block has a base: going down it ends at the genesis. *)
Lemma base_exists x : stored v x -> exists b, base_of v height pruned x b.
Proof using Hv DL HM.
  remember (Z.to_nat (v_height v x)) as n eqn:En. revert x En.
  induction (lt_wf n) as [n _ IH]. intros x -> Hx. pose proof (view_is_wf _ _ Hv) as Hwf.
  assert (forall t, pruned_under v pruned t \/ ~ pruned_under v pruned t) as Hdp.
  { intros t. destruct (under_pruned_run t) as ([] & _ & Hp); [left; by apply Hp|right; by intros ?%Hp]. }
  destruct (Hdp x) as [Hp|Hnp]; [exists x; by apply base_here, stop_pruned|].
  destruct (v_tips v x) as [|t tips] eqn:Et; [exists x; by apply base_here, stop_genesis|].
  assert (stored v t /\ v_height v t < v_height v x) as [Ht Hlt].
  { split; [eapply (view_tips_stored _ Hwf x)|eapply (view_tips_height _ Hwf x)]; rewrite ?Et; [done|left|done|left]. }
  pose proof (view_range _ Hwf t Ht) as [? _].
  assert (base_tip' t \/ ~ base_tip' t) as [Hb|Hb].
  { destruct (Hdp t); [left; by left|]. destruct (sync_block_run provider v Hv height t Ht) as ([] & _ & Hs).
    - left. right. by apply Hs.
    - right. intros [?|?%Hs]; done. }
  - exists t. apply base_here. eapply (stop_tip _ _ _ _ [] t tips); [done..|constructor|done].
  - destruct (IH (Z.to_nat (v_height v t)) ltac:(lia) t eq_refl Ht) as [b Hbt].
    exists b. eapply base_below; [|done]. split; [done|]. exists [], tips. split; [done|]. by repeat constructor.
Qed.

(** The answer is the lowest base, whatever the fuel beyond [size hash]. *)
Lemma find_tip_base_run hash (size : Hash -> nat) fuel cache :
  (forall x, (sum_list_with size (v_tips v x) < size x)%nat) -> stored v hash ->
  (size hash <= fuel)%nat -> base_coherent pruned cache ->
  exists base cache', find_tip_base fuel provider hash height pruned cache = (Ok base, cache') /\
    lowest_base v height pruned hash base /\ base_coherent pruned cache'.
Proof using Hv DL.
  intros Hsize Hh Hf Hc.
  destruct (tip_base_loop_run hash size fuel [] ∅ [hash] cache Hsize) as (bases & processed & cache1 & E & Hc1 & Hinv & Hsub).
  - cbn. lia.
  - split; [|by intros x b ->%list_elem_of_singleton|set_solver|set_solver].
    intros x ->%list_elem_of_singleton. by split; [|left].
  - split; [intros x h b Hx _ Hb; by eapply Hc|]. right. split; [done|]. intros b Hb. by eapply Hc.
  - assert (hash ∈ processed) as Hp by (apply Hsub; right; left).
    destruct (base_exists hash Hh) as [b0 Hb0]. destruct (bases_complete _ _ _ hash b0 Hinv Hp Hb0) as (r0 & Hr0 & _).
    destruct (sort_bases_last bases) as (base & El & Hin & Hle); [by intros ->; apply not_elem_of_nil in Hr0|].
    assert (lowest_base v height pruned hash base) as Hlow.
    { destruct (inv_bases _ _ _ _ Hinv base Hin) as [H1 H2]. split; [done|]. split; [done|]. intros b Hb.
      destruct (bases_complete _ _ _ hash b Hinv Hp Hb) as (r & Hr & ?). specialize (Hle r Hr). lia. }
    unfold find_tip_base, mbind, stm_bind. rewrite E, El. cbn. exists base. eexists. split; [done|]. split; [done|].
    intros x h b Hx [[[= -> ->] ->]|[Hne Hb]]%lru_put_holds; [done|]. eapply Hc1; [done| |done]. done.
Qed.
End TipBase.

(** ** Properties *)
Section Properties.
Context {UL : U256Lib} {IS : IndexSetLib Hash} {HM : HashMapIter}.
Context {S : Type} {DP : DifficultyProvider S} {DL : DifficultyProviderLaws S} {DO : DagOrderProvider S}.
Context {BH : BlocksAtHeightProvider S} {PR : PrunedTopoheightProvider S}.
Context {LR : LruLib (Hash * Z) (Hash * Z)}.

(** A base lies under the block, and is where the walk may stop. *)
Lemma base_of_stop v height pruned x b :
  base_of v height pruned x b ->
  rtc (fun y t => t ∈ v_tips v y) x b /\ (base_tip v height pruned b \/ v_tips v b = []).
Proof.
  induction 1 as [x b Hs|x t b Hg _ [IH1 IH2]].
  - destruct Hs as [|? E|pre t post ? E ? Ht].
    + split; [constructor|]. left. by left.
    + split; [constructor|]. by right.
    + split; [|by left]. apply rtc_once. rewrite E. set_solver.
  - split; [|done]. eapply rtc_l; [by eapply goes_to_tip|done].
Qed.

Lemma best_height_run provider v tips best :
  view_of provider v -> Forall (stored v) tips ->
  exists best', foldM (fun best_height hash =>
      height ← get_height_for_block_hash provider hash;
      Ok (if best_height <? height then height else best_height)) best tips = @Ok blockchain_error _ best' /\
    best <= best' /\ (forall t, t ∈ tips -> v_height v t <= best') /\ (best' = best \/ exists t, t ∈ tips /\ v_height v t = best').
Proof.
  intros Hv. revert best. induction tips as [|t tips IH]; intros best Hst; cbn [foldM].
  { exists best. split_and!; [done|lia|set_solver|by left]. }
  apply list.Forall_cons in Hst as [Ht Hst]. rewrite (stored_height provider v Hv t Ht). cbn [mbind res_bind].
  destruct (IH (if best <? v_height v t then v_height v t else best) Hst) as (best' & -> & Hle & Hall & Hor).
  assert (best <= best' /\ v_height v t <= best') as [? ?] by (destruct (Z.ltb_spec best (v_height v t)); lia).
  exists best'. split_and!; [done|done| |].
  - intros t' [->|Ht']%list.elem_of_cons; [done|by apply Hall].
  - destruct Hor as [->|(t' & ? & ?)]; [|right; exists t'; set_solver].
    destruct (Z.ltb_spec best (v_height v t)); [|by left]. right. exists t. set_solver.
Qed.

(** The tip bases of a list of tips. *)
Lemma tip_bases_run provider v height pruned (size : Hash -> nat) fuel tips acc cache :
  view_of provider v -> (forall x, (sum_list_with size (v_tips v x) < size x)%nat) ->
  Forall (stored v) tips -> (sum_list_with size tips <= fuel)%nat -> base_coherent v pruned cache ->
  exists bases cache', foldMs (fun bases hash =>
      base ← find_tip_base fuel provider hash height pruned;
      mret (bases ++ [base])) acc tips cache = (Ok (acc ++ bases), cache') /\
    Forall2 (lowest_base v height pruned) tips bases /\ base_coherent v pruned cache'.
Proof.
  intros Hv Hsize. revert acc cache. induction tips as [|t tips IH]; intros acc cache Hst Hf Hc; cbn [foldMs].
  { exists [], cache. rewrite app_nil_r. split_and!; [done|constructor|done]. }
  apply list.Forall_cons in Hst as [Ht Hst]. cbn [sum_list_with] in Hf.
  destruct (find_tip_base_run provider v Hv height pruned t size fuel cache Hsize Ht) as (base & cache1 & E & Hlow & Hc1);
    [lia|done|].
  destruct (IH (acc ++ [base]) cache1 Hst) as (bases & cache' & E' & Hlows & Hc'); [lia|done|].
  exists (base :: bases), cache'. unfold mbind, stm_bind in E' |- *. rewrite E. cbn [mret stm_ret]. rewrite E', <- (assoc_L (++)).
  split_and!; [done|by constructor|done].
Qed.

(** C22: the check decides the rule of the sync blocks on every stored block: the
    genesis is one, and otherwise a block in the order and deep enough, where
    the node is pruned or alone in the order at its height and heavier than
    every ordered block between the stable point and itself. *)
Theorem sync_block_spec (provider : S) (v : DagView) (height : Z) (h : Hash)
    (Hv : view_of provider v) (Hh : stored v h) :
  exists b, is_sync_block_at_height provider h height = Ok b /\ (b = true <-> sync_block v height h).
Proof. by apply sync_block_run. Qed.

(** C23: the common base of the tips of the DAG.  The search ends on every
    stored DAG; the base is found under one of the tips, is a sync block, a
    block the node is pruned at or the genesis, and no base of any tip is
    lower; the cache stays right. *)
Theorem common_base_spec (provider : S) (v : DagView) (tips : list Hash) (cache : lru (Hash * Z) (Hash * Z))
    (Hv : view_of provider v) (Hst : Forall (stored v) tips) (Hne : tips <> [])
    (Hc : base_coherent v (default 0 v.(v_pruned)) cache) :
  exists best k, (forall t, t ∈ tips -> v_height v t <= best) /\ (exists t, t ∈ tips /\ v_height v t = best) /\
    forall fuel, (k <= fuel)%nat -> exists base base_height cache',
      find_common_base fuel provider tips cache = (Ok (base, base_height), cache') /\
      base_coherent v (default 0 v.(v_pruned)) cache' /\
      base_height = v_height v base /\
      (exists t, t ∈ tips /\ rtc (fun y p => p ∈ v_tips v y) t base) /\
      (base_tip v best (default 0 v.(v_pruned)) base \/ v_tips v base = []) /\
      (forall t b, t ∈ tips -> base_of v best (default 0 v.(v_pruned)) t b -> base_height <= v_height v b).
Proof.
  destruct (tree_sizes (v_tips v) (fun h => Z.to_nat (v_height v h))) as [size Hsize].
  { intros x t Ht. rewrite <- (tips_of_view provider v Hv) in Ht. by eapply (dag_of_view provider v Hv). }
  destruct (best_height_run provider v tips 0 Hv Hst) as (best & Ebest & Hb0 & Hball & Hbor).
  exists best, (sum_list_with size tips). split; [done|]. split.
  { destruct Hbor as [->|]; [|done]. destruct tips as [|t tips]; [done|]. exists t. split; [left|].
    apply list.Forall_cons in Hst as [Ht _]. pose proof (view_range _ (view_is_wf _ _ Hv) t Ht) as [? _].
    specialize (Hball t ltac:(left)). lia. }
  intros fuel Hf.
  destruct (tip_bases_run provider v best (default 0 (v_pruned v)) size fuel tips [] cache Hv Hsize Hst Hf Hc)
    as (bases & cache' & E & Hlows & Hc').
  destruct (sort_bases_last bases) as ([base bh] & El & Hin & Hle).
  { intros ->. by apply Forall2_nil_inv_r in Hlows. }
  destruct (Forall2_elem_r _ _ _ _ Hlows Hin) as (t & Ht & Hb1 & Hb2 & _). cbn in Hb1, Hb2.
  destruct (base_of_stop _ _ _ _ _ Hb1) as [Hpast Hstop].
  exists base, bh, cache'. split_and!; [|done|done|by eauto|done|].
  - unfold find_common_base. erewrite stm_bind_run by (unfold lift_res; by rewrite Ebest).
    erewrite stm_bind_run by (unfold lift_res; by rewrite (view_pruned _ _ Hv)).
    erewrite stm_bind_run by exact E. cbn [app]. by rewrite El.
  - intros t' b Ht' Hb. apply list_elem_of_lookup in Ht' as [i Hi].
    destruct (Forall2_lookup_l _ _ _ _ _ Hlows Hi) as (r & Hr & _ & _ & Hall).
    specialize (Hle r (list_elem_of_lookup_2 _ _ _ Hr)). specialize (Hall b Hb). cbn in Hle. lia.
Qed.
End Properties.

(** ** Witnesses: the storage of [BlockProviders] *)

#[local] Existing Instances u256_model iset_model hash_map_model b_difficulties b_order b_heights b_pruned b_laws.
#[local] Instance base_lru : LruLib (Hash * Z) (Hash * Z) := lru_model _ _.

Lemma sync_block_spec_witness :
  exists b, is_sync_block_at_height tt (g_hash 2) 20 = Ok b /\ (b = true <-> sync_block b_view 20 (g_hash 2)).
Proof.
  apply (sync_block_spec tt b_view 20 (g_hash 2) b_view_of). apply b_stored_iff. right; left.
Defined.

Lemma b_tips_stored : Forall (stored b_view) [g_hash 2; g_hash 3].
Proof. repeat constructor; apply b_stored_iff; unfold b_stored; [right; left|right; right; left]. Qed.

Lemma b_base_coherent n : base_coherent b_view 0 (lru_new n).
Proof. by intros x h b _ ?%lru_new_spec. Qed.

Lemma common_base_spec_witness :
  exists best k, (forall t, t ∈ [g_hash 2; g_hash 3] -> v_height b_view t <= best) /\
    (exists t, t ∈ [g_hash 2; g_hash 3] /\ v_height b_view t = best) /\
    forall fuel, (k <= fuel)%nat -> exists base base_height cache',
      find_common_base fuel tt [g_hash 2; g_hash 3] (lru_new 0) = (Ok (base, base_height), cache') /\
      base_coherent b_view 0 cache' /\
      base_height = v_height b_view base /\
      (exists t, t ∈ [g_hash 2; g_hash 3] /\ rtc (fun y p => p ∈ v_tips b_view y) t base) /\
      (base_tip b_view best 0 base \/ v_tips b_view base = []) /\
      (forall t b, t ∈ [g_hash 2; g_hash 3] -> base_of b_view best 0 t b -> base_height <= v_height b_view b).
Proof.
  exact (common_base_spec tt b_view [g_hash 2; g_hash 3] (lru_new 0) b_view_of b_tips_stored ltac:(discriminate)
    (b_base_coherent 0)).
Defined.
