(* ===== verification/NonceChecker.v ===== *)
(** [core/nonce_checker.rs]: the cache that refuses a nonce already used while
    the blocks of a new DAG order are executed. *)

From S2P Require Import Prelude External ExternalModel ExternalCrypto Serializer Hash Defaults Elgamal Errors Account Storage Providers.

Section NonceChecker.
Context {IM : IndexMapLib Z Z}.

Record AccountEntry := mkEntry {
  initial_nonce : Z;
  expected_nonce : Z;
  used_nonces : imap Z Z;
}.

Definition entry_new (nonce : Z) : AccountEntry := mkEntry nonce nonce imap_new.
Definition contains_nonce (nonce : Z) (e : AccountEntry) : bool := imap_contains_key nonce e.(used_nonces).
Definition insert_nonce_at_topoheight (nonce topoheight : Z) (e : AccountEntry) : bool * AccountEntry :=
  if contains_nonce nonce e || negb (nonce =? e.(expected_nonce)) then (false, e)
  else (true, mkEntry e.(initial_nonce) (u64_add nonce 1) (imap_insert nonce topoheight e.(used_nonces))).

(** The cache: the map from the accounts to their entries. *)
Abbreviation NonceChecker := (gmap CompressedPublicKey AccountEntry).
Definition nonce_checker_new : NonceChecker := ∅.

Definition undo_entry (nonce : Z) (e : AccountEntry) : AccountEntry :=
  let used := imap_shift_remove nonce e.(used_nonces) in
  let expected := match imap_last used with
                  | Some (prev_nonce, _) => u64_add prev_nonce 1
                  | None => e.(initial_nonce)
                  end in
  mkEntry e.(initial_nonce) expected used.
Definition undo_nonce (key : CompressedPublicKey) (nonce : Z) (c : NonceChecker) : NonceChecker :=
  match c !! key with
  | Some entry => <[key := undo_entry nonce entry]> c
  | None => c
  end.

Context {CV : Curve} {St : Type} {NP : NonceProvider St}.

Definition use_nonce (storage : St) (mainnet : bool) (key : CompressedPublicKey) (nonce topoheight : Z)
  : stm NonceChecker blockchain_error bool := fun c =>
  match c !! key with
  | Some entry =>
      let '(valid, entry) := insert_nonce_at_topoheight nonce topoheight entry in
      (Ok valid, <[key := entry]> c)
  | None =>
      let stored :=
        found ← get_nonce_at_maximum_topoheight storage key topoheight;
        ok_or found (BlockchainError.AccountNotFound (as_address key mainnet)) in
      match stored with
      | Ok (_, version) =>
          let '(valid, entry) := insert_nonce_at_topoheight nonce topoheight (entry_new version.(vn_nonce)) in
          (Ok valid, <[key := entry]> c)
      | Err e => (Err e, c)
      | Panic => (Panic, c)
      | Diverge => (Diverge, c)
      end
  end.

Definition get_new_nonce (key : CompressedPublicKey) (mainnet : bool) (c : NonceChecker) : bres Z :=
  entry ← ok_or (c !! key) (BlockchainError.AccountNotFound (as_address key mainnet));
  Ok entry.(expected_nonce).

(** ** The invariant of an entry *)

(** [n] nonces from [z] on. *)
Fixpoint nonces_from (z : Z) (n : nat) : list Z :=
  match n with O => [] | S n => z :: nonces_from (u64_add z 1) n end.

(** The used nonces are consecutive from the initial nonce on, in the order of
    their use, and the expected nonce is the next one. *)
Definition entry_ok (e : AccountEntry) : Prop :=
  exists n, (imap_list e.(used_nonces)).*1 = nonces_from e.(initial_nonce) n /\
    nonces_from e.(initial_nonce) (n + 1) = nonces_from e.(initial_nonce) n ++ [e.(expected_nonce)].

Lemma nonces_from_snoc z n : nonces_from z (n + 1) = nonces_from z n ++ [Nat.iter n (fun z => u64_add z 1) z].
Proof.
  revert z. induction n as [|n IH]; intros z; [done|]. cbn [Nat.add nonces_from app]. f_equal.
  rewrite IH. do 2 f_equal. clear IH. induction n as [|n IH]; [done|]. simpl. by rewrite IH.
Qed.

Lemma entry_ok_expected e :
  entry_ok e <-> exists n, (imap_list e.(used_nonces)).*1 = nonces_from e.(initial_nonce) n /\
    e.(expected_nonce) = Nat.iter n (fun z => u64_add z 1) e.(initial_nonce).
Proof.
  unfold entry_ok. split; intros (n & Hu & He); exists n; (split; [done|]); rewrite nonces_from_snoc in *.
  - apply app_inj_2 in He as [_ [= He]]; [by rewrite He|done].
  - by rewrite He.
Qed.

Lemma entry_new_ok nonce : entry_ok (entry_new nonce).
Proof. exists 0%nat. simpl. by rewrite imap_new_spec. Qed.

(** A nonce is accepted exactly when it is the expected one and unused. *)
Lemma insert_nonce_accepts nonce topo e e' :
  insert_nonce_at_topoheight nonce topo e = (true, e') ->
  nonce = e.(expected_nonce) /\ (nonce ∉ (imap_list e.(used_nonces)).*1) /\
  imap_list e'.(used_nonces) = imap_list e.(used_nonces) ++ [(nonce, topo)] /\
  e'.(initial_nonce) = e.(initial_nonce) /\ e'.(expected_nonce) = u64_add nonce 1.
Proof.
  unfold insert_nonce_at_topoheight, contains_nonce, imap_contains_key.
  destruct (bool_decide _) eqn:Hin; [done|]. simpl. destruct (Z.eqb_spec nonce e.(expected_nonce)) as [->|]; [|done].
  intros [= <-]. apply bool_decide_eq_false in Hin. simpl. split_and!; try done.
  by rewrite imap_insert_spec, alist_insert_fresh.
Qed.

Lemma insert_nonce_refuses nonce topo e e' : insert_nonce_at_topoheight nonce topo e = (false, e') -> e' = e.
Proof. unfold insert_nonce_at_topoheight. destruct (_ || _); by intros [= <-]. Qed.

Lemma insert_nonce_ok nonce topo e : entry_ok e -> entry_ok (insert_nonce_at_topoheight nonce topo e).2.
Proof.
  intros He. destruct (insert_nonce_at_topoheight nonce topo e) as [[] e'] eqn:Hi; simpl.
  - apply insert_nonce_accepts in Hi as (-> & _ & Hu & Hi & Hx). apply entry_ok_expected in He as (n & Hn & He).
    apply entry_ok_expected. exists (n + 1)%nat. rewrite Hu, Hi, fmap_app, Hn, nonces_from_snoc, Hx, He. split; [done|].
    by rewrite Nat.add_1_r.
  - by apply insert_nonce_refuses in Hi as ->.
Qed.

(** The nonce given after an accepted use. *)
Lemma used_next storage mainnet key nonce topo c c' next :
  use_nonce storage mainnet key nonce topo c = (Ok true, c') ->
  get_new_nonce key mainnet c' = Ok next -> next = u64_add nonce 1.
Proof.
  unfold use_nonce, get_new_nonce. intros Hu.
  assert (exists e e', insert_nonce_at_topoheight nonce topo e = (true, e') /\ c' = <[key := e']> c) as (e & e' & Hi & ->).
  { destruct (c !! key) as [e|].
    - destruct (insert_nonce_at_topoheight nonce topo e) as [b e'] eqn:Hi. injection Hu as -> <-. eauto.
    - destruct (found ← get_nonce_at_maximum_topoheight storage key topo; _) as [[t v]|e| |]; try done.
      destruct (insert_nonce_at_topoheight nonce topo (entry_new (vn_nonce v))) as [b e'] eqn:Hi.
      injection Hu as -> <-. eauto. }
  rewrite lookup_insert_eq. intros [= <-]. by apply insert_nonce_accepts in Hi as (_ & _ & _ & _ & ->).
Qed.

(** ** Any uses and undos *)

Definition used_keys (e : AccountEntry) : list Z := (imap_list e.(used_nonces)).*1.

Lemma filter_id {A} (P : A -> Prop) `{forall x, Decision (P x)} (l : list A) :
  Forall P l -> filter P l = l.
Proof. induction 1 as [|x l Hx _ IH]; [done|]. rewrite filter_cons_True by done. by rewrite IH. Qed.

(** The nonce after [n] uses from [z] on. *)
Abbreviation nth_nonce n first := (Nat.iter n (fun x => u64_add x 1) first).

Lemma last_nonce z n : list.last (nonces_from z n) = match n with O => None | S n => Some (nth_nonce n z) end.
Proof. destruct n as [|n]; [done|]. rewrite <- Nat.add_1_r, nonces_from_snoc. apply last_snoc. Qed.
Lemma nonces_from_mono z n m x : (n <= m)%nat -> x ∈ nonces_from z n -> x ∈ nonces_from z m.
Proof.
  induction 1 as [|m _ IH]; [done|]. intros Hx. rewrite <- Nat.add_1_r, nonces_from_snoc.
  apply list.elem_of_app. left. by apply IH.
Qed.
Lemma sublist_run z n l v :
  sublist (l ++ [v]) (nonces_from z n) ->
  exists j, (j < n)%nat /\ v = nth_nonce j z /\ sublist (l ++ [v]) (nonces_from z (j + 1)).
Proof.
  induction n as [|n IH]; [intros Hs%sublist_nil_r; by destruct l|].
  intros Hs. pose proof Hs as Hall. rewrite <- Nat.add_1_r, nonces_from_snoc in Hs. apply sublist_app_r in Hs as (k1 & k2 & E & H1 & H2).
  destruct (nil_or_length_pos k2) as [->|Hk].
  - rewrite app_nil_r in E. subst k1. destruct (IH H1) as (j & Hj & Hv & Hs). exists j. split; [lia|done].
  - assert (k2 = [nth_nonce n z]) as ->.
    { inversion H2 as [|? ? ? H3 E2|? ? ? H3 E2]; subst; [|by apply sublist_nil_r in H3 as ->; cbn in Hk].
      apply sublist_nil_r in H3 as ->. done. }
    apply app_inj_2 in E as [-> [= ->]]; [|done]. exists n. split; [lia|]. split; [done|]. by rewrite Nat.add_1_r.
Qed.

(** The used nonces are part of the [n] consecutive ones from the initial nonce
    on and end with the last of them; the expected nonce is the next one. *)
Record entry_run (e : AccountEntry) (n : nat) : Prop := {
  er_sub : sublist (used_keys e) (nonces_from e.(initial_nonce) n);
  er_last : list.last (used_keys e) = list.last (nonces_from e.(initial_nonce) n);
  er_expected : e.(expected_nonce) = nth_nonce n e.(initial_nonce);
}.

Lemma insert_run nonce topo e e' n :
  entry_run e n -> insert_nonce_at_topoheight nonce topo e = (true, e') ->
  entry_run e' (n + 1) /\ used_keys e' = used_keys e ++ [nonce] /\ e'.(initial_nonce) = e.(initial_nonce) /\
  nonces_from e.(initial_nonce) (n + 1) = nonces_from e.(initial_nonce) n ++ [nonce].
Proof.
  intros [Hs _ Hx] (Hn & _ & Hu & Hi & Hx')%insert_nonce_accepts.
  assert (used_keys e' = used_keys e ++ [nonce]) as Hk by (unfold used_keys; by rewrite Hu, fmap_app).
  rewrite nonces_from_snoc, <- Hx, <- Hn. split; [|done].
  split; rewrite Hi; [|rewrite Hk|]; rewrite ?nonces_from_snoc, <- ?Hx, <- ?Hn, ?last_snoc.
  - rewrite Hk. by apply sublist_app.
  - done.
  - rewrite Hx', Hn, Hx. by rewrite Nat.add_1_r.
Qed.

(** What is left when a nonce is undone. *)
Definition without (nonce : Z) (l : list Z) : list Z := filter (fun x => x <> nonce) l.
Lemma undo_keys nonce e : used_keys (undo_entry nonce e) = without nonce (used_keys e).
Proof.
  unfold used_keys, without, undo_entry. cbn [used_nonces]. rewrite imap_shift_remove_spec.
  induction (imap_list _) as [|[x t] l IH]; [done|]. rewrite !filter_cons, fmap_cons, filter_cons. cbn [fst].
  destruct (decide (x <> nonce)), (decide (x <> nonce)); try done. rewrite fmap_cons. by rewrite IH.
Qed.
Lemma without_absent nonce l : nonce ∉ l -> without nonce l = l.
Proof. intros Hn. apply filter_id, list.Forall_forall. by intros x Hx ->. Qed.
Lemma without_last nonce l : NoDup (l ++ [nonce]) -> without nonce (l ++ [nonce]) = l.
Proof.
  intros (_ & Hd & _)%list.NoDup_app. unfold without. rewrite list.filter_app, filter_cons_False, app_nil_r by tauto.
  apply without_absent. intros Hx. apply (Hd nonce Hx). left.
Qed.

Lemma undo_expected nonce e :
  (undo_entry nonce e).(expected_nonce) =
    match list.last (used_keys (undo_entry nonce e)) with Some x => u64_add x 1 | None => e.(initial_nonce) end.
Proof.
  unfold undo_entry, used_keys, imap_last. cbn [expected_nonce used_nonces].
  rewrite fmap_last. by destruct (list.last _) as [[]|].
Qed.

(** Undoing the last nonce, or one that is not used, keeps a full run full. *)
Definition in_order (l : list Z) (nonce : Z) : bool := bool_decide (list.last l = Some nonce \/ nonce ∉ l).
Lemma undo_run nonce e n :
  entry_run e n -> exists m, (m <= n)%nat /\ entry_run (undo_entry nonce e) m /\
    (used_keys e = nonces_from e.(initial_nonce) n -> in_order (used_keys e) nonce = true ->
     used_keys (undo_entry nonce e) = nonces_from e.(initial_nonce) m).
Proof.
  intros [Hs Hl Hx]. pose proof (imap_NoDup e.(used_nonces)) as Hnd. change (NoDup (used_keys e)) in Hnd.
  pose proof (undo_expected nonce e) as Hexp. rewrite undo_keys in *.
  assert (forall m, sublist (without nonce (used_keys e)) (nonces_from e.(initial_nonce) m) ->
    list.last (without nonce (used_keys e)) = list.last (nonces_from e.(initial_nonce) m) -> entry_run (undo_entry nonce e) m) as Hrun.
  { intros m H1 H2. split; rewrite ?undo_keys; [done|done|]. rewrite Hexp, H2, last_nonce. by destruct m. }
  destruct (decide (used_keys e = nonces_from e.(initial_nonce) n /\ in_order (used_keys e) nonce = true)) as [[Ef Ho]|Hno].
  - apply bool_decide_eq_true in Ho. destruct (decide (nonce ∈ used_keys e)) as [Hin|Hout].
    + destruct Ho as [Ho|]; [|done]. destruct n as [|n]; [by rewrite Ef in Ho|].
      rewrite <- Nat.add_1_r, nonces_from_snoc in Ef. rewrite Ef, last_snoc in Ho. injection Ho as Ho. rewrite Ho in Ef.
      rewrite Ef in *. rewrite without_last in * by done. exists n. split; [lia|]. split; [|done]. by apply Hrun.
    + rewrite without_absent in * by done. exists n. split; [done|]. split; [by apply Hrun|done].
  - assert (sublist (without nonce (used_keys e)) (nonces_from (initial_nonce e) n)) as Hs'
      by (etransitivity; [apply sublist_filter|exact Hs]).
    destruct (list.last (without nonce (used_keys e))) as [v|] eqn:Ev.
    + apply last_Some in Ev as [l' El]. rewrite El in *. apply sublist_run in Hs' as (j & Hj & -> & Hs').
      exists (j + 1)%nat. split; [lia|]. split; [|tauto]. apply Hrun; [done|]. by rewrite nonces_from_snoc, !last_snoc.
    + apply last_None in Ev. rewrite Ev in *. exists O. split; [lia|]. split; [by apply Hrun|done].
Qed.

(** The caches reached by any calls, with the uses that were accepted and not
    undone, in order, and what was undone: the nonces, and whether each was the
    last one used (or not used at all) at that time. *)
Abbreviation Uses := (list (CompressedPublicKey * Z)).
Definition used_by (key : CompressedPublicKey) (tr : Uses) : list Z := (filter (fun p => p.1 = key) tr).*2.

Inductive nc_reach : NonceChecker -> Uses -> list (CompressedPublicKey * Z * bool) -> Prop :=
  | nc_new : nc_reach nonce_checker_new [] []
  | nc_accept c tr undone storage mainnet key nonce topo c' :
      nc_reach c tr undone -> use_nonce storage mainnet key nonce topo c = (Ok true, c') ->
      nc_reach c' (tr ++ [(key, nonce)]) undone
  | nc_refuse c tr undone storage mainnet key nonce topo r c' :
      nc_reach c tr undone -> use_nonce storage mainnet key nonce topo c = (r, c') -> r <> Ok true ->
      nc_reach c' tr undone
  | nc_undo c tr undone key nonce :
      nc_reach c tr undone ->
      nc_reach (undo_nonce key nonce c) (filter (fun p => p <> (key, nonce)) tr)
        ((key, nonce, in_order (used_by key tr) nonce) :: undone).

Lemma used_by_snoc key tr key' nonce :
  used_by key (tr ++ [(key', nonce)]) = used_by key tr ++ (if decide (key' = key) then [nonce] else []).
Proof.
  unfold used_by. rewrite list.filter_app, fmap_app. f_equal. rewrite filter_cons. cbn [fst]. by destruct (decide _).
Qed.
Lemma used_by_undo key tr key' nonce :
  used_by key (filter (fun p => p <> (key', nonce)) tr) = if decide (key' = key) then without nonce (used_by key tr) else used_by key tr.
Proof.
  unfold used_by, without. induction tr as [|[k x] tr IH]; [by destruct (decide _)|]. rewrite !filter_cons. cbn [fst].
  destruct (decide ((k, x) <> (key', nonce))) as [Hne|He]; [rewrite filter_cons; cbn [fst]|].
  - destruct (decide (k = key)) as [->|Hk]; [|done]. rewrite !fmap_cons, IH. cbn [snd]. destruct (decide (key' = key)) as [->|]; [|done].
    rewrite filter_cons. destruct (decide (x <> nonce)) as [|Hx]; [done|]. exfalso. apply Hne. by apply dec_stable in Hx as ->.
  - apply dec_stable in He as [= -> ->]. rewrite IH. destruct (decide (key' = key)); [|done].
    rewrite fmap_cons, filter_cons. cbn [snd]. by rewrite decide_False by tauto.
Qed.

(** The invariant: the entry of an account holds its accepted nonces. *)
Record tracks (key : CompressedPublicKey) (tr : Uses) (undone : list (CompressedPublicKey * Z * bool)) (e : AccountEntry) (n : nat) : Prop := {
  tk_run : entry_run e n;
  tk_used : used_keys e = used_by key tr;
  tk_holes x : x ∈ nonces_from e.(initial_nonce) n -> x ∈ used_keys e \/ exists b, (key, x, b) ∈ undone;
  tk_full : (forall x, (key, x, false) ∉ undone) -> used_keys e = nonces_from e.(initial_nonce) n;
}.
Definition nc_ok (c : NonceChecker) (tr : Uses) undone : Prop := forall key,
  match c !! key with Some e => exists n, tracks key tr undone e n | None => used_by key tr = [] end.

Lemma tracks_insert key tr undone e n nonce topo :
  tracks key tr undone e n -> insert_nonce_at_topoheight nonce topo e = (true, (insert_nonce_at_topoheight nonce topo e).2) ->
  tracks key (tr ++ [(key, nonce)]) undone (insert_nonce_at_topoheight nonce topo e).2 (n + 1).
Proof.
  intros [Hr Hu Hh Hf] Hi. set (e' := (insert_nonce_at_topoheight nonce topo e).2) in *.
  apply (insert_run _ _ _ _ _ Hr) in Hi as (Hr' & Hk & Ei & En). split; [done|..]; rewrite ?Hk, ?Ei, ?En.
  - by rewrite used_by_snoc, decide_True, Hu.
  - intros x [Hx|Hx]%list.elem_of_app; [|left; apply list.elem_of_app; by right].
    destruct (Hh x Hx); [left; apply list.elem_of_app; by left|by right].
  - intros Hno. by rewrite Hf.
Qed.

Lemma use_nonce_ok c tr undone storage mainnet key nonce topo r c' :
  nc_ok c tr undone -> use_nonce storage mainnet key nonce topo c = (r, c') ->
  nc_ok c' (tr ++ match r with Ok true => [(key, nonce)] | _ => [] end) undone.
Proof.
  intros Hok Hr.
  assert (forall e n, tracks key tr undone e n ->
    nc_ok (<[key := (insert_nonce_at_topoheight nonce topo e).2]> c)
      (tr ++ (if (insert_nonce_at_topoheight nonce topo e).1 then [(key, nonce)] else [])) undone) as Hins.
  { intros e n He k. destruct (insert_nonce_at_topoheight nonce topo e) as [b e'] eqn:Hi. cbn [fst snd].
    destruct (decide (k = key)) as [->|Hne].
    - rewrite lookup_insert_eq. destruct b.
      + pose proof (tracks_insert key tr undone e n nonce topo He) as Ht. rewrite Hi in Ht. exists (n + 1)%nat. by apply Ht.
      + apply insert_nonce_refuses in Hi as ->. rewrite app_nil_r. by exists n.
    - rewrite lookup_insert_ne by done. specialize (Hok k). destruct b; [|by rewrite app_nil_r].
      assert (used_by k (tr ++ [(key, nonce)]) = used_by k tr) as E by (by rewrite used_by_snoc, decide_False, app_nil_r by done).
      destruct (c !! k) as [e0|]; [|by rewrite E]. destruct Hok as [n0 [H1 H2 H3 H4]]. exists n0. by split; rewrite ?E. }
  unfold use_nonce in Hr. pose proof (Hok key) as Hk. destruct (c !! key) as [e|].
  - destruct Hk as [n He]. specialize (Hins e n He). destruct (insert_nonce_at_topoheight nonce topo e) as [b e'].
    injection Hr as <- <-. by destruct b.
  - destruct (found ← get_nonce_at_maximum_topoheight storage key topo; _) as [[t v]|e| |];
      try (injection Hr as <- <-; by rewrite app_nil_r).
    assert (used_keys (entry_new v.(vn_nonce)) = []) as Hnew by (unfold used_keys; cbn; by rewrite imap_new_spec).
    specialize (Hins (entry_new v.(vn_nonce)) O). destruct (insert_nonce_at_topoheight nonce topo _) as [b e'].
    injection Hr as <- <-. assert (tracks key tr undone (entry_new v.(vn_nonce)) 0) as Ht; [|specialize (Hins Ht); by destruct b].
    split; [split|..]; rewrite ?Hnew; try done. by intros x ?%not_elem_of_nil.
Qed.

Lemma undo_ok c tr undone key nonce :
  nc_ok c tr undone ->
  nc_ok (undo_nonce key nonce c) (filter (fun p => p <> (key, nonce)) tr)
    ((key, nonce, in_order (used_by key tr) nonce) :: undone).
Proof.
  intros Hok k. unfold undo_nonce. pose proof (Hok k) as Hk. destruct (decide (k = key)) as [->|Hne].
  - destruct (c !! key) as [e|] eqn:E; [rewrite lookup_insert_eq|rewrite E; by rewrite used_by_undo, decide_True, Hk].
    destruct Hk as [n [Hr Hu Hh Hf]]. destruct (undo_run nonce e n Hr) as (m & Hm & Hr' & Hfull). exists m. split; [done|..].
    + by rewrite undo_keys, Hu, used_by_undo, decide_True.
    + intros x Hx. rewrite undo_keys. change (initial_nonce (undo_entry nonce e)) with e.(initial_nonce) in Hx.
      destruct (decide (x = nonce)) as [->|Hxn]; [right; eexists; left|].
      destruct (Hh x (nonces_from_mono _ _ _ _ Hm Hx)) as [Hin|[b Hb]]; [left; by apply list_elem_of_filter|right; exists b; by right].
    + intros Hno. apply Hfull.
      * apply Hf. intros x Hx. apply (Hno x). by right.
      * rewrite Hu. destruct (in_order (used_by key tr) nonce); [done|]. exfalso. apply (Hno nonce). left.
  - assert (forall k', k' <> key -> match c !! key with Some entry => <[key:=undo_entry nonce entry]> c | None => c end !! k' = c !! k') as El
      by (intros k' Hk'; destruct (c !! key); [by rewrite lookup_insert_ne|done]).
    rewrite El by done. rewrite used_by_undo, decide_False by done. destruct (c !! k) as [e|]; [|done].
    destruct Hk as [n [Hr Hu Hh Hf]]. exists n. split; [done|by rewrite used_by_undo, decide_False| |].
    + intros x Hx. destruct (Hh x Hx) as [|[b Hb]]; [by left|right; exists b; by right].
    + intros Hno. apply Hf. intros x Hx. apply (Hno x). by right.
Qed.

Lemma nc_reach_ok c tr undone : nc_reach c tr undone -> nc_ok c tr undone.
Proof.
  induction 1 as [|c tr undone st m key nonce topo c' _ IH Hu|c tr undone st m key nonce topo r c' _ IH Hu Hne|
                  c tr undone key nonce _ IH].
  - intros key. unfold nonce_checker_new. by rewrite lookup_empty.
  - exact (use_nonce_ok _ _ _ _ _ _ _ _ _ _ IH Hu).
  - apply (use_nonce_ok _ _ _ _ _ _ _ _ _ _ IH) in Hu. destruct r as [[]| | |]; try done; by rewrite app_nil_r in Hu.
  - by apply undo_ok.
Qed.

Lemma undo_last e l nonce :
  entry_ok e -> used_keys e = l ++ [nonce] ->
  entry_ok (undo_entry nonce e) /\ used_keys (undo_entry nonce e) = l.
Proof.
  intros He Hu. pose proof (imap_NoDup e.(used_nonces)) as Hnd. unfold used_keys in Hu.
  apply fmap_app_inv in Hu as (l1 & l2 & -> & El2 & El).
  destruct l2 as [|[n v] [|]]; try done. injection El2 as ->.
  assert (imap_list (imap_shift_remove n e.(used_nonces)) = l1) as Hrem.
  { rewrite imap_shift_remove_spec, El, list.filter_app, filter_cons_False by (simpl; tauto).
    rewrite El, fmap_app in Hnd. apply list.NoDup_app in Hnd as (_ & Hd & _).
    rewrite app_nil_r. apply filter_id, list.Forall_forall. intros p Hp E. apply (Hd n); [|left].
    apply list_elem_of_fmap. by exists p. }
  split; [|unfold used_keys, undo_entry; simpl; by rewrite Hrem].
  apply entry_ok_expected in He as (k & Hk & _). rewrite El, fmap_app in Hk.
  apply entry_ok_expected. unfold undo_entry, imap_last. simpl. rewrite Hrem.
  destruct k as [|k]; [by destruct l1|].
  rewrite <- Nat.add_1_r, nonces_from_snoc in Hk. apply app_inj_2 in Hk as [Hk _]; [|done].
  exists k. split; [done|]. destruct (list.last l1) as [[p v']|] eqn:Hlast.
  - apply last_Some in Hlast as [l' ->]. destruct k as [|k]; [by destruct l'|].
    rewrite <- Nat.add_1_r, nonces_from_snoc, fmap_app in Hk.
    apply app_inj_2 in Hk as [_ [= ->]]; [|done]. done.
  - apply last_None in Hlast as ->. by destruct k.
Qed.

Lemma nonces_from_range z n x : in_u 64 z -> x ∈ nonces_from z n -> in_u 64 x.
Proof.
  revert z. induction n as [|n IH]; intros z Hz; [by intros ?%not_elem_of_nil|].
  intros [->|Hx]%list.elem_of_cons; [done|]. apply (IH (u64_add z 1)); [|done]. by apply wrap_range.
Qed.
(** ** Properties *)

(** C19: whatever uses are asked for, over whatever storages, accepted, refused
    or failed, and whatever nonces are undone: none is used twice by an account,
    and the nonces its accepted uses hold are those of a run of consecutive
    nonces, up to its last one, but for some that were undone; when only the
    last use was ever undone, they are the whole run.  The next nonce given is
    the one after the run. *)
Theorem nonce_checker_consecutive (c : NonceChecker) (tr : Uses) (undone : list (CompressedPublicKey * Z * bool))
    (key : CompressedPublicKey) (mainnet : bool) (Hr : nc_reach c tr undone) :
  NoDup (used_by key tr) /\
  exists first n, sublist (used_by key tr) (nonces_from first n) /\
    list.last (used_by key tr) = list.last (nonces_from first n) /\
    (forall x, x ∈ nonces_from first n -> x ∈ used_by key tr \/ exists b, (key, x, b) ∈ undone) /\
    ((forall x, (key, x, false) ∉ undone) -> used_by key tr = nonces_from first n) /\
    forall next, get_new_nonce key mainnet c = Ok next -> nonces_from first (n + 1) = nonces_from first n ++ [next].
Proof.
  pose proof (nc_reach_ok c tr undone Hr key) as Hk. unfold get_new_nonce. destruct (c !! key) as [e|].
  - destruct Hk as [n [[Hs Hl Hx] Hu Hh Hf]]. rewrite <- Hu. split; [apply imap_NoDup|].
    exists e.(initial_nonce), n. split_and!; try done. intros next [= <-]. by rewrite nonces_from_snoc, Hx.
  - rewrite Hk. split; [constructor|]. exists 0, 0%nat. split_and!; try done. by intros x ?%not_elem_of_nil.
Qed.

Lemma undo_restores c storage mainnet key nonce topo c' e :
  c !! key = Some e -> entry_ok e -> use_nonce storage mainnet key nonce topo c = (Ok true, c') ->
  exists e', undo_nonce key nonce c' !! key = Some e' /\ e'.(expected_nonce) = nonce /\
    used_keys e' = used_keys e.
Proof.
  intros Hc He Hu. unfold use_nonce in Hu. rewrite Hc in Hu.
  pose proof (insert_nonce_ok nonce topo e He) as Hok.
  destruct (insert_nonce_at_topoheight nonce topo e) as [b e1] eqn:Hi. injection Hu as -> <-.
  apply insert_nonce_accepts in Hi as (Hx & Hnin & Hl & Hinit & _). simpl in Hok.
  unfold undo_nonce. rewrite lookup_insert_eq, insert_insert_eq, lookup_insert_eq.
  exists (undo_entry nonce e1). split; [done|].
  destruct (undo_last e1 (used_keys e) nonce) as [Hok' Hk]; [done|unfold used_keys; by rewrite Hl, fmap_app|].
  split; [|done]. apply entry_ok_expected in He as (n & Hn & Hxe). apply entry_ok_expected in Hok' as (m & Hm & ->).
  fold (used_keys (undo_entry nonce e1)) in Hm. rewrite Hk in Hm. unfold used_keys in Hm. rewrite Hn in Hm.
  rewrite Hx, Hxe. unfold undo_entry in *. simpl in *. rewrite Hinit in *.
  f_equal. apply (f_equal length) in Hm.
  assert (forall z k, length (nonces_from z k) = k) as Hlen.
  { intros z k. revert z. induction k as [|k IH]; intros z; simpl; [done|]. by rewrite IH. }
  by rewrite !Hlen in Hm.
Qed.

(** A use that is undone leaves the nonce expected again; a use that is not
    undone consumes it, so that the same nonce is refused from then on even if
    the transaction it was for was never executed. *)
Theorem undo_nonce_restores (c : NonceChecker) (storage : St) (mainnet : bool) (key : CompressedPublicKey)
    (nonce topo : Z) (c' : NonceChecker) (e : AccountEntry)
    (Hc : c !! key = Some e) (He : entry_ok e)
    (Hu : use_nonce storage mainnet key nonce topo c = (Ok true, c')) :
  get_new_nonce key mainnet (undo_nonce key nonce c') = Ok nonce /\
  forall storage' topo', exists c'', use_nonce storage' mainnet key nonce topo' c' = (Ok false, c'').
Proof.
  split.
  - destruct (undo_restores _ _ _ _ _ _ _ _ Hc He Hu) as (e' & Hl & Hx & _).
    unfold get_new_nonce. by rewrite Hl, <- Hx.
  - intros storage' topo'. unfold use_nonce in *. rewrite Hc in Hu.
    destruct (insert_nonce_at_topoheight nonce topo e) as [b e1] eqn:Hi. injection Hu as -> <-.
    apply insert_nonce_accepts in Hi as (_ & _ & Hl & _). rewrite lookup_insert_eq.
    unfold insert_nonce_at_topoheight, contains_nonce, imap_contains_key.
    rewrite bool_decide_true; [simpl; eauto|]. rewrite Hl, fmap_app. apply elem_of_app. right. left.
Qed.
End NonceChecker.

(** ** Witnesses *)

#[local] Existing Instances curve_model sled_model.
#[local] Instance imap_Z : IndexMapLib Z Z := imap_model Z Z.

Definition n_key : CompressedPublicKey := mkPublicKey (mkRistretto (vreplicate 32 x07)).
(** An account whose last nonce is 5. *)
Definition n_storage : SledStorage :=
  Storage.set_last_nonce_to n_key 3 (mkVNonce 5 None)
    (mkSled true tree_empty tree_empty tree_empty tree_empty tree_empty tree_empty tree_empty tree_empty tree_empty tree_empty
      tree_empty tree_empty 0 0 no_blocks).
#[local] Abbreviation n_use nonce := (use_nonce n_storage true n_key nonce 4).
Definition n_first : gmap CompressedPublicKey AccountEntry := (n_use 5 nonce_checker_new).2.
Definition n_second : gmap CompressedPublicKey AccountEntry := (n_use 6 n_first).2.

(** The result of a use, as a boolean. *)
Definition accepted (r : bres bool * gmap CompressedPublicKey AccountEntry) : bool :=
  match r.1 with Ok b => b | _ => false end.
Lemma accepted_ok r : accepted r = true -> r = (Ok true, r.2).
Proof. destruct r as [[[]| | |] c]; done. Qed.

Lemma n_first_ok : accepted (n_use 5 nonce_checker_new) = true.
Proof. vm_compute. reflexivity. Qed.
Lemma n_second_ok : accepted (n_use 6 n_first) = true.
Proof. vm_compute. reflexivity. Qed.

Lemma n_first_reach : nc_reach n_first [(n_key, 5)] [].
Proof.
  apply (nc_accept nonce_checker_new [] [] n_storage true n_key 5 4); [constructor|apply accepted_ok, n_first_ok].
Qed.
Lemma n_second_reach : nc_reach n_second [(n_key, 5); (n_key, 6)] [].
Proof. apply (nc_accept n_first [(n_key, 5)] [] n_storage true n_key 6 4); [apply n_first_reach|apply accepted_ok, n_second_ok]. Qed.

(** The first of two uses is undone: the next nonce is still the one after the
    second. *)
Definition n_undone : gmap CompressedPublicKey AccountEntry := undo_nonce n_key 5 n_second.
Lemma nonce_checker_consecutive_witness :
  exists first n tr, nc_reach n_undone tr [(n_key, 5, false)] /\ get_new_nonce n_key true n_undone = Ok 7 /\
    sublist (used_by n_key tr) (nonces_from first n) /\ nonces_from first (n + 1) = nonces_from first n ++ [7].
Proof.
  pose proof (nc_undo n_second _ [] n_key 5 n_second_reach) as Hr.
  assert (in_order (used_by n_key [(n_key, 5); (n_key, 6)]) 5 = false) as Ho by by vm_compute.
  rewrite Ho in Hr. assert (get_new_nonce n_key true n_undone = Ok 7) as Hn by by vm_compute.
  destruct (nonce_checker_consecutive n_undone _ [(n_key, 5, false)] n_key true Hr) as (_ & first & n & Hs & _ & _ & _ & Hx).
  exists first, n. eexists. split; [exact Hr|]. split; [exact Hn|]. split; [exact Hs|by apply Hx].
Defined.

Lemma undo_nonce_restores_witness : get_new_nonce n_key true (undo_nonce n_key 6 n_second) = Ok 6.
Proof.
  destruct (n_first !! n_key) as [e|] eqn:Hc; [|by vm_compute in Hc].
  assert (entry_ok e) as He.
  { pose proof (nc_reach_ok _ _ _ n_first_reach n_key) as Hk. rewrite Hc in Hk. destruct Hk as [n [[_ _ Hx] _ _ Hf]].
    apply entry_ok_expected. exists n. split; [|done]. apply Hf. by intros x ?%not_elem_of_nil. }
  refine (proj1 (undo_nonce_restores n_first n_storage true n_key 6 4 n_second e Hc He _)).
  exact (accepted_ok (n_use 6 n_first) n_second_ok).
Defined.
