(* ===== verification/Emission.v ===== *)
(** The emission of the coin and the fees: [get_block_reward],
    [side_block_reward_percentage], [get_block_dev_fee] and
    [internal_get_block_reward] of [core/blockchain.rs], and
    [calculate_tx_fee] of [utils.rs]. *)

From S2P Require Import Prelude External Errors Difficulty.

Definition COIN_DECIMALS : Z := 8.
Definition COIN_VALUE : Z := 10 ^ COIN_DECIMALS.
Definition MAXIMUM_SUPPLY : Z := 18400000 * COIN_VALUE.
Definition MILLIS_PER_SECOND : Z := 1000.
Definition EMISSION_SPEED_FACTOR : Z := 20.
Definition SIDE_BLOCK_REWARD_PERCENT : Z := 30.
Definition SIDE_BLOCK_REWARD_MAX_BLOCKS : Z := 3.
Definition SIDE_BLOCK_REWARD_MIN_PERCENT : Z := 5.

Record DevFeeThreshold := mkThreshold { th_height : Z; fee_percentage : Z }.
Definition DEV_FEES : list DevFeeThreshold := [mkThreshold 0 10; mkThreshold 3250000 5].

Definition side_block_reward_percentage (side_blocks : Z) : Z :=
  if 0 <? side_blocks then
    if side_blocks <? SIDE_BLOCK_REWARD_MAX_BLOCKS
    then SIDE_BLOCK_REWARD_PERCENT / u64_mul side_blocks 2
    else SIDE_BLOCK_REWARD_MIN_PERCENT
  else SIDE_BLOCK_REWARD_PERCENT.

Definition get_block_reward (supply : Z) : Z :=
  if MAXIMUM_SUPPLY <=? supply then 0
  else
    let base_reward := Z.shiftr (u64_sub MAXIMUM_SUPPLY supply) EMISSION_SPEED_FACTOR in
    u64_mul base_reward BLOCK_TIME_MILLIS / MILLIS_PER_SECOND / 180.

Definition get_block_dev_fee (height : Z) : Z :=
  foldl (fun percentage threshold =>
    if threshold.(th_height) <=? height then threshold.(fee_percentage) else percentage) 0 DEV_FEES.

Definition internal_get_block_reward (past_supply : Z) (is_side_block : bool) (side_blocks_count : Z) : Z :=
  if is_side_block then
    let reward := get_block_reward past_supply in
    let side_block_percent := side_block_reward_percentage side_blocks_count in
    u64_mul reward side_block_percent / 100
  else get_block_reward past_supply.

(** The accounting of [add_new_block_for_storage] for one ordered block: the new
    supply, what the developers get and what the miner gets without the fees. *)
Definition dev_fee_part (block_reward height : Z) : Z :=
  u64_mul block_reward (get_block_dev_fee height) / 100.
Record Emission := mkEmission { em_supply : Z; em_dev : Z; em_miner : Z }.
Definition emit_block (past_supply : Z) (is_side_block : bool) (side_blocks_count height : Z) : Emission :=
  let block_reward := internal_get_block_reward past_supply is_side_block side_blocks_count in
  let supply := u64_add past_supply block_reward in
  if negb (get_block_dev_fee height =? 0) then
    mkEmission supply (dev_fee_part block_reward height) (u64_sub block_reward (dev_fee_part block_reward height))
  else mkEmission supply 0 block_reward.

(** ** Fees *)

Definition FEE_PER_KB : Z := 10000.
Definition FEE_PER_ACCOUNT_CREATION : Z := 100000.
Definition FEE_PER_TRANSFER : Z := 5000.

Definition calculate_tx_fee (tx_size output_count new_addresses : Z) : Z :=
  let size_in_kb := tx_size / 1024 in
  let size_in_kb := if negb (tx_size mod 1024 =? 0) then u64_add size_in_kb 1 else size_in_kb in
  u64_add (u64_add (u64_mul size_in_kb FEE_PER_KB) (u64_mul output_count FEE_PER_TRANSFER))
          (u64_mul new_addresses FEE_PER_ACCOUNT_CREATION).

(** ** Facts *)

Lemma MAXIMUM_SUPPLY_val : MAXIMUM_SUPPLY = 1840000000000000.
Proof. reflexivity. Qed.

Lemma shiftr_20 x : Z.shiftr x EMISSION_SPEED_FACTOR = x / 1048576.
Proof. unfold EMISSION_SPEED_FACTOR. rewrite Z.shiftr_div_pow2 by lia. reflexivity. Qed.

(** The reward is exact integer arithmetic: a twelfth of what is left, divided
    by 2^20. *)
Lemma get_block_reward_eq supply :
  0 <= supply ->
  get_block_reward supply =
    if decide (supply < MAXIMUM_SUPPLY)
    then (MAXIMUM_SUPPLY - supply) / 1048576 * 15 / 180 else 0.
Proof.
  intros H0. unfold get_block_reward. rewrite MAXIMUM_SUPPLY_val.
  destruct (Z.leb_spec 1840000000000000 supply) as [Hle|Hlt]; case_decide; try lia.
  rewrite shiftr_20. rewrite u64_sub_small by (unfold in_u; lia).
  set (q := (1840000000000000 - supply) / 1048576).
  assert (0 <= q <= 1754760743) as Hq.
  { unfold q. split; [apply Z.div_pos; lia|].
    apply Z.div_le_upper_bound; lia. }
  unfold BLOCK_TIME_MILLIS, MILLIS_PER_SECOND. rewrite u64_mul_small by (unfold in_u; lia).
  change (15 * 1000) with 15000. replace (q * 15000) with (q * 15 * 1000) by lia. by rewrite Z.div_mul.
Qed.

Lemma get_block_reward_bounds supply :
  0 <= supply ->
  0 <= get_block_reward supply <= Z.max 0 (MAXIMUM_SUPPLY - supply) /\ get_block_reward supply <= 146230062.
Proof.
  intros H0. rewrite get_block_reward_eq by done. case_decide as Hs; [|lia].
  rewrite MAXIMUM_SUPPLY_val in *. set (r := 1840000000000000 - supply).
  assert (0 <= r / 1048576) by (apply Z.div_pos; lia).
  assert (r / 1048576 <= r) by (apply Z.div_le_upper_bound; lia).
  assert (r / 1048576 <= 1754760743) by (apply Z.div_le_upper_bound; lia).
  split; [split; [apply Z.div_pos; lia|]|].
  - rewrite Z.max_r by lia. apply Z.div_le_upper_bound; lia.
  - apply Z.div_le_upper_bound; lia.
Qed.

Lemma side_block_percent_bounds n :
  0 <= n -> 5 <= side_block_reward_percentage n <= 30.
Proof.
  intros Hn. unfold side_block_reward_percentage, SIDE_BLOCK_REWARD_PERCENT, SIDE_BLOCK_REWARD_MAX_BLOCKS,
    SIDE_BLOCK_REWARD_MIN_PERCENT.
  destruct (Z.ltb_spec 0 n); [|lia]. destruct (Z.ltb_spec n 3); [|lia].
  assert (n = 1 \/ n = 2) as [-> | ->] by lia; by vm_compute.
Qed.

Lemma dev_fee_cases height : 0 <= height -> get_block_dev_fee height = if decide (height < 3250000) then 10 else 5.
Proof.
  intros Hh. unfold get_block_dev_fee. simpl.
  destruct (Z.leb_spec 0 height); [|lia]. destruct (Z.leb_spec 3250000 height); case_decide; lia.
Qed.

Lemma percent_le a p : 0 <= a -> 0 <= p <= 100 -> 0 <= a * p / 100 <= a.
Proof. intros. split; [apply Z.div_pos; nia|apply Z.div_le_upper_bound; nia]. Qed.

Lemma internal_reward_bounds supply side n :
  0 <= supply -> 0 <= n ->
  0 <= internal_get_block_reward supply side n <= get_block_reward supply.
Proof.
  intros H0 Hn. destruct (get_block_reward_bounds supply H0) as ([Hr _] & Hm).
  unfold internal_get_block_reward. destruct side; [|lia].
  pose proof (side_block_percent_bounds n Hn). rewrite u64_mul_small by (unfold in_u; nia).
  apply percent_le; lia.
Qed.

(** What one block emits, without wrapping around. *)
Lemma emit_block_spec supply side n height :
  0 <= supply -> 0 <= n -> 0 <= height ->
  let e := emit_block supply side n height in
  let reward := internal_get_block_reward supply side n in
  (supply <= MAXIMUM_SUPPLY -> em_supply e = supply + reward /\ supply <= em_supply e <= MAXIMUM_SUPPLY) /\
  em_dev e + em_miner e = reward /\ em_dev e = reward * (if decide (height < 3250000) then 10 else 5) / 100 /\
  0 <= em_dev e <= em_miner e.
Proof.
  intros H0 Hn Hh e reward.
  destruct (get_block_reward_bounds supply H0) as ([_ Hleft] & Hm).
  pose proof (internal_reward_bounds supply side n H0 Hn) as Hr. fold reward in Hr.
  assert (em_supply e = u64_add supply reward /\ em_dev e = dev_fee_part reward height /\
    em_miner e = u64_sub reward (dev_fee_part reward height)) as (Es & Ed & Em).
  { unfold e, emit_block. fold reward. rewrite (dev_fee_cases height Hh). by case_decide. }
  rewrite Es, Ed, Em. unfold dev_fee_part. rewrite (dev_fee_cases height Hh).
  set (p := if decide (height < 3250000) then 10 else 5).
  assert (p = 10 \/ p = 5) as Hp by (unfold p; case_decide; lia).
  rewrite u64_mul_small by (unfold in_u; nia).
  assert (2 * (reward * p / 100) <= reward).
  { pose proof (Z.mul_div_le (reward * p) 100). lia. }
  pose proof (percent_le reward p) as Hpl.
  split; [|split; [|split]].
  - intros Hs. rewrite MAXIMUM_SUPPLY_val in *. rewrite u64_add_small by (unfold in_u; lia). lia.
  - rewrite u64_sub_small by (unfold in_u; lia). lia.
  - done.
  - rewrite u64_sub_small by (unfold in_u; lia). lia.
Qed.

(** ** The chain of emissions *)

(** The supply after a list of blocks: whether each is a side block, how many
    side blocks were counted at its height, and its height. *)
Definition supply_after (supply : Z) (blocks : list (bool * Z * Z)) : Z :=
  foldl (fun supply '(side, n, height) => em_supply (emit_block supply side n height)) supply blocks.

(** C29: the supply never exceeds the maximum and never decreases or wraps
    around, whatever blocks follow each other; each block adds exactly its
    reward, which is split between the developers and the miner without losing
    a unit, the miner getting the larger part. *)
Theorem emission_bounded (supply : Z) (blocks : list (bool * Z * Z))
    (Hs : 0 <= supply <= MAXIMUM_SUPPLY)
    (Hb : Forall (fun b => 0 <= b.1.2 /\ 0 <= b.2) blocks) :
  supply <= supply_after supply blocks <= MAXIMUM_SUPPLY /\
  forall side n height, 0 <= n -> 0 <= height ->
    let s := supply_after supply blocks in
    let e := emit_block s side n height in
    em_supply e = s + em_dev e + em_miner e /\ 0 <= em_dev e <= em_miner e.
Proof.
  assert (forall bs s, 0 <= s <= MAXIMUM_SUPPLY -> Forall (fun b => 0 <= b.1.2 /\ 0 <= b.2) bs ->
    s <= supply_after s bs <= MAXIMUM_SUPPLY) as Hloop.
  { induction bs as [|[[side n] height] bs IH]; intros s Hs0 Hbs; [simpl; lia|].
    apply list.Forall_cons in Hbs as [[Hn Hh] Hbs].
    destruct (emit_block_spec s side n height) as (Hsup & _); [lia|done|done|].
    destruct Hsup as [_ Hsup]; [lia|]. specialize (IH (em_supply (emit_block s side n height)) ltac:(lia) Hbs).
    unfold supply_after in *. cbn [foldl]. lia. }
  specialize (Hloop blocks supply Hs Hb). split; [done|]. intros side n height Hn Hh s e.
  destruct (emit_block_spec s side n height) as (Hsup & Hsplit & _ & Hdev); [lia|done|done|].
  destruct Hsup as [Hsup _]; [lia|]. fold e in Hsup, Hsplit, Hdev. lia.
Qed.

Lemma emission_bounded_witness :
  let s := supply_after 1839999999000000 [(false, 0, 3250001); (true, 1, 3250001)] in
  1839999999000000 <= s <= MAXIMUM_SUPPLY.
Proof.
  refine (proj1 (emission_bounded 1839999999000000 [(false, 0, 3250001); (true, 1, 3250001)] _ _)).
  - rewrite MAXIMUM_SUPPLY_val. lia.
  - repeat constructor; simpl; lia.
Defined.
