(* ===== verification/StorageLaws.v ===== *)
(** What the storage promises to the components above it.

    [StorageLaws] is the contract of an implementation of the traits of
    [Providers]: it stores a history of versions per account, the lookups the
    chain state performs return its newest versions, and each write prolongs
    one history.  [sled_laws] shows that [SledStorage] keeps it. *)

From S2P Require Import Prelude External ExternalModel ExternalCrypto Serializer Hash Defaults Elgamal Transaction Errors Account Versions Storage ClientProtocol VersionedTree StorageFacts Providers.

(** No version is at or above a topoheight. *)
Definition below {K V} (t : Z) (hist : K -> list (Z * V)) : Prop := forall k t' v, (t', v) ∈ hist k -> t' < t.

Section Below.
Context {K V : Type} `{EqDecision K}.
Implicit Types hist : K -> list (Z * V).

Lemma below_latest t hist k : below t hist -> latest t (hist k) = head (hist k).
Proof.
  intros Hb. specialize (Hb k). destruct (hist k) as [|[t' v] h]; [done|]. simpl.
  specialize (Hb t' v ltac:(left)). destruct (Z.leb_spec t' t); [done|lia].
Qed.
Lemma below_top t hist k p : below t hist -> top (hist k) = Some p -> p < t.
Proof.
  intros Hb. specialize (Hb k). destruct (hist k) as [|[t' v] h]; [done|]. intros [= <-].
  apply (Hb t' v). left.
Qed.
End Below.

Section Laws.
Context {CV : Curve}.

Class StorageLaws (S : Type) {SP : Storage S} := {
  stores : NonceHistories -> BalanceHistories -> S -> Prop;

  law_ext nh nh' bh bh' st :
    (forall k, nh' k = nh k) -> (forall ka, bh' ka = bh ka) -> stores nh bh st -> stores nh' bh' st;
  law_nonce_range nh bh st k t v :
    stores nh bh st -> (t, v) ∈ nh k -> in_u 64 v.(vn_nonce);
  law_nonce_at_maximum nh bh st k t :
    stores nh bh st -> get_nonce_at_maximum_topoheight st k t = Ok (latest t (nh k));
  law_has_nonce nh bh st k :
    stores nh bh st -> has_nonce st k = Ok (match nh k with [] => false | _ => true end);
  law_new_balance nh bh st k a t v :
    stores nh bh st -> in_u 64 t -> get_new_versioned_balance st k a t = Ok v ->
    v = match latest t (bh (k, a)) with
        | Some (t, v) => prepare_new (Some t) v
        | None => balance_zero
        end;
  (* the assets the storage knows *)
  asset_registered : S -> Hash -> Prop;
  law_asset_output st k a t o :
    get_output_balance_at_maximum_topoheight st k a t = Ok o -> asset_registered st a;
  law_asset_new st k a t v : get_new_versioned_balance st k a t = Ok v -> asset_registered st a;
  law_new_balance_total nh bh st k a t :
    stores nh bh st -> asset_registered st a -> in_u 64 t -> exists v, get_new_versioned_balance st k a t = Ok v;

  law_balance_stored st k a t t' v :
    get_balance_at_maximum_topoheight st k a t = Ok (Some (t', v)) \/
    get_output_balance_at_maximum_topoheight st k a t = Ok (Some (t', v)) -> stored v = v;
  law_history_stored nh bh st k a t v : stores nh bh st -> (t, v) ∈ bh (k, a) -> stored v = v;

  law_set_nonce nh bh st k t v :
    stores nh bh st -> in_u 64 t -> in_u 64 v.(vn_nonce) -> v.(vn_previous_topoheight) = top (nh k) ->
    (forall p, top (nh k) = Some p -> p < t) ->
    exists st', set_last_nonce_to k t v st = (Ok tt, st') /\ stores (fn_upd k ((t, v) :: nh k) nh) bh st';
  law_set_balance nh bh st k a t v :
    stores nh bh st -> in_u 64 t -> balance_wf v -> v.(previous_topoheight) = top (bh (k, a)) ->
    (forall p, top (bh (k, a)) = Some p -> p < t) ->
    exists st', set_last_balance_to k a t v st = (Ok tt, st') /\
      stores nh (fn_upd (k, a) ((t, stored v) :: bh (k, a)) bh) st';
  law_register nh bh st k t r st' :
    stores nh bh st -> set_account_registration_topoheight k t st = (r, st') -> stores nh bh st';
}.

(** Two storages that hold the same accounts: the calls of the chain state read
    the same from both. *)
Record same_accounts {S} {SP : Storage S} {SLaws : StorageLaws S} (st st' : S) : Prop := {
  sa_stores nh bh : stores nh bh st -> stores nh bh st';
  sa_asset a : asset_registered st a -> asset_registered st' a;
  sa_nonce k t : get_nonce_at_maximum_topoheight st' k t = get_nonce_at_maximum_topoheight st k t;
  sa_balance k a t : get_balance_at_maximum_topoheight st' k a t = get_balance_at_maximum_topoheight st k a t;
  sa_output k a t :
    get_output_balance_at_maximum_topoheight st' k a t = get_output_balance_at_maximum_topoheight st k a t;
  sa_new k a t : get_new_versioned_balance st' k a t = get_new_versioned_balance st k a t;
  sa_topo h : get_topo_height_for_hash st' h = get_topo_height_for_hash st h;
  sa_ordered h : is_block_topological_ordered st' h = is_block_topological_ordered st h;
}.

(** What the storage promises about the execution of transactions. *)
Class ClientProtocolLaws (S : Type) {SP : Storage S} {SLaws : StorageLaws S} {CP : ClientProtocolProvider S} := {
  law_is_executed st tx : exists b, is_tx_executed_in_a_block st tx = Ok b;
  law_link tx b st r st' :
    add_block_linked_to_tx_if_not_present tx b st = (r, st') ->
    same_accounts st st' /\ forall tx', is_tx_executed_in_a_block st' tx' = is_tx_executed_in_a_block st tx';
  law_set_executed tx b st r st' :
    set_tx_executed_in_block tx b st = (r, st') ->
    same_accounts st st' /\ is_tx_executed_in_a_block st' tx = Ok true /\
    forall tx', tx' <> tx -> is_tx_executed_in_a_block st' tx' = is_tx_executed_in_a_block st tx';
}.
End Laws.

(** ** The implementation *)
Section Sled.
Context {CV : Curve} {SL : SledLib}.

(** The keys of the registrations by topoheight are those the storage writes. *)
Definition registrations_wf (st : SledStorage) : Prop :=
  forall b x, tree_get b st.(registrations_prefixed) = Some x -> (40 <= length b)%nat.

Lemma empty_registrations_wf m : registrations_wf (empty_storage m).
Proof. intros b x. cbn. by rewrite tree_get_empty. Qed.

Definition sled_stores (nh : NonceHistories) (bh : BalanceHistories) (st : SledStorage) : Prop :=
  nonces_refine nh st /\ balances_refine bh st /\ registrations_wf st.

Lemma vn_from_bytes_nonce b v : from_bytes b = Ok v -> in_u 64 v.(vn_nonce).
Proof.
  intros (r & (z & r1 & Hz & Hr)%rd_bind_ok)%from_bytes_ok. apply read_u64_range in Hz.
  destruct (_ =? _)%nat; [by injection Hr as <- _|]. by apply rd_bind_ok in Hr as (t & r2 & _ & [<- _]%rd_ret_ok).
Qed.

Lemma has_balance_asset k a st b : has_balance_for k a st = Ok b -> registered a st.
Proof. unfold has_balance_for, has_asset, registered. by destruct (tree_contains (hash_bytes a) st.(assets)). Qed.

Lemma new_balance_registered k a t st v :
  Storage.get_new_versioned_balance k a t st = Ok v -> registered a st.
Proof.
  unfold Storage.get_new_versioned_balance, Storage.get_balance_at_maximum_topoheight, has_balance_for, has_asset,
    registered. by destruct (tree_contains (hash_bytes a) st.(assets)).
Qed.

Lemma output_balance_registered k a t st o :
  Storage.get_output_balance_at_maximum_topoheight k a t st = Ok o -> registered a st.
Proof.
  unfold Storage.get_output_balance_at_maximum_topoheight, Storage.get_balance_at_maximum_topoheight.
  by intros (f & (b & Hb%has_balance_asset & _)%res_bind_ok & _)%res_bind_ok.
Qed.

Lemma register_frame k t st r st' :
  Storage.set_account_registration_topoheight k t st = (r, st') ->
  st'.(nonces) = st.(nonces) /\ st'.(versioned_nonces) = st.(versioned_nonces) /\
  st'.(balances) = st.(balances) /\ st'.(versioned_balances) = st.(versioned_balances) /\
  st'.(accounts_count) = st.(accounts_count).
Proof.
  unfold Storage.set_account_registration_topoheight, mbind, stm_bind, st_get, st_modify.
  destruct (tree_insert _ _ _) as [[old|] t0]; [|by intros [= <- <-]].
  unfold lift_res. destruct (prefixed_db_key_no_u64 old k); by intros [= <- <-].
Qed.

Lemma register_wf k t st r st' :
  registrations_wf st -> Storage.set_account_registration_topoheight k t st = (r, st') -> registrations_wf st'.
Proof.
  intros Hw.
  assert (forall s, registrations_wf s -> registrations_wf (with_registrations s.(registrations)
    (tree_insert (prefixed_db_key t k) [] s.(registrations_prefixed)).2 s)) as Hadd.
  { intros s Hs b x. cbn. destruct (decide (b = prefixed_db_key t k)) as [->|Hne].
    - intros _. unfold prefixed_db_key. rewrite length_app, length_be_bytes, length_as_bytes. lia.
    - rewrite tree_get_insert_ne by done. apply Hs. }
  assert (forall s key, registrations_wf s -> registrations_wf (with_registrations s.(registrations)
    (tree_remove key s.(registrations_prefixed)).2 s)) as Hremove.
  { intros s key Hs b x. cbn. destruct (decide (b = key)) as [->|Hne]; [by rewrite tree_get_remove|].
    rewrite tree_get_remove_ne by done. apply Hs. }
  unfold Storage.set_account_registration_topoheight, mbind, stm_bind, st_get, st_modify.
  destruct (tree_insert (as_bytes k) _ _) as [[old|] t0].
  - unfold lift_res. destruct (prefixed_db_key_no_u64 old k); intros [= <- <-]; try exact Hw.
    by apply (Hadd (with_registrations _ _ (with_registrations _ _ _))), (Hremove (with_registrations _ _ _)).
  - intros [= <- <-]. by apply (Hadd (with_registrations _ _ _)).
Qed.

#[export] Program Instance sled_laws : StorageLaws SledStorage := {|
  stores := sled_stores;
  asset_registered st a := registered a st;
|}.
Next Obligation.
  intros nh nh' bh bh' st Hn Hb [[Hr Hc] [Hr' Hw]]. split_and!; [split; [|done]| |done]; by eapply trees_refine_ext.
Qed.
Next Obligation.
  intros nh bh st k t v [[[Hh _] _] _] Hin. destruct (Hh k) as [_ Hch].
  destruct (chain_get _ _ _ _ _ _ Hch Hin) as [Hg _]. apply load_ok in Hg as (b & _ & Hb).
  by eapply vn_from_bytes_nonce.
Qed.
Next Obligation.
  intros nh bh st k t [[[Hh _] _] _]. apply nonce_at_maximum_history, Hh.
Qed.
Next Obligation. intros nh bh st k [[[Hh _] _] _]. apply has_nonce_history, Hh. Qed.
Next Obligation.
  intros nh bh st k a t v [_ [Hb _]] Hu Hv. pose proof (new_balance_registered _ _ _ _ _ Hv) as Ha.
  pose proof (new_versioned_balance_history st k a Ha bh t Hb Hu) as E. 
  change (Storage.get_new_versioned_balance k a t st = Ok v) in Hv. rewrite E in Hv. by injection Hv as <-.
Qed.
Next Obligation. intros st k a t o. apply output_balance_registered. Qed.
Next Obligation. intros st k a t v. apply new_balance_registered. Qed.
Next Obligation.
  intros nh bh st k a t [_ [Hb _]] Ha Hu. eexists. by apply new_versioned_balance_history.
Qed.
Next Obligation.
  intros st k a t t' v [Hv|Hv]; [assert (registered a st) as Ha|assert (registered a st) as Ha].
  - change (Storage.get_balance_at_maximum_topoheight k a t st = Ok (Some (t', v))) in Hv.
    unfold Storage.get_balance_at_maximum_topoheight in Hv. by apply res_bind_ok in Hv as (b & Hb%has_balance_asset & _).
  - exact (balance_at_maximum_stored st k a Ha _ _ _ Hv).
  - change (Storage.get_output_balance_at_maximum_topoheight k a t st = Ok (Some (t', v))) in Hv.
    by apply output_balance_registered in Hv.
  - exact (output_balance_stored st k a Ha _ _ _ Hv).
Qed.
Next Obligation.
  intros nh bh st k a t v [_ [[Hh _] _]] Hin. destruct (Hh (k, a)) as [_ Hch].
  destruct (chain_get _ _ _ _ _ _ Hch Hin) as [Hg _]. apply load_ok in Hg as (b & _ & Hb).
  by eapply vb_from_bytes_stored.
Qed.
Next Obligation.
  intros nh bh st k t v [Hn [Hb Hw]] Hu Hr Hp Hlt. eexists. split; [done|]. split; [by apply set_last_nonce_refine|].
  unfold balances_refine, registrations_wf. by destruct (set_last_nonce_frame k t v st) as (-> & -> & _ & _ & _ & ->).
Qed.
Next Obligation.
  intros nh bh st k a t v [Hn [Hb Hw]] Hu Hwf Hp Hlt. eexists. split; [done|].
  split_and!; [exact Hn|by apply set_last_balance_refine|exact Hw].
Qed.
Next Obligation.
  intros nh bh st k t r st' [[Hn Hc] [Hb Hw]] Hr. pose proof (register_wf _ _ _ _ _ Hw Hr) as Hw'.
  apply register_frame in Hr as (E1 & E2 & E3 & E4 & E5).
  unfold sled_stores, nonces_refine, balances_refine, accounts_counted. by rewrite E1, E2, E3, E4, E5.
Qed.

(** The trees of the transactions are not those of the accounts. *)
Lemma with_txs_executed_same t st : same_accounts st (with_txs_executed t st).
Proof. by split. Qed.
Lemma with_tx_blocks_same t st : same_accounts st (with_tx_blocks t st).
Proof. by split. Qed.
Lemma same_accounts_refl (st : SledStorage) : same_accounts st st.
Proof. by split. Qed.

#[export] Instance sled_client_laws {HM : HashMapIter} : ClientProtocolLaws SledStorage.
Proof.
  split.
  - intros st tx. by eexists.
  - intros tx b st r st'. cbn [add_block_linked_to_tx_if_not_present sled_client_protocol].
    unfold ClientProtocol.add_block_linked_to_tx_if_not_present, mbind at 1 2, stm_bind, st_get, lift_res.
    destruct (b' ← has_tx_blocks tx st; _) as [hashes| | |];
      [|intros [= _ <-]; split; [apply same_accounts_refl|done]..].
    destruct (bool_decide (b ∈ hashes)); intros [= _ <-].
    + split; [apply same_accounts_refl|done].
    + split; [apply with_tx_blocks_same|done].
  - intros tx b st r st' [= _ <-]. split; [apply with_txs_executed_same|].
    cbn [is_tx_executed_in_a_block sled_client_protocol].
    unfold ClientProtocol.is_tx_executed_in_a_block, ClientProtocol.set_tx_executed_in_block. simpl. split.
    + f_equal. apply tree_contains_get. eexists. apply tree_get_insert.
    + intros tx' Hne. f_equal. unfold tree_contains. rewrite tree_get_insert_ne; [done|].
      by intros ?%hash_bytes_inj.
Qed.
End Sled.
