(* ===== verification/Rewind.v ===== *)
(** Undoing a range of topoheights, and pruning ([storage/sled.rs]).

    When the order of the DAG changes, [add_new_block_for_storage] deletes the
    versions of every topoheight from the first one that changed, in ascending
    order.  While it goes on, the pointers of the accounts are already those of
    the result and newer versions are still stored: [partly_cut] describes
    these states, between two topoheights and inside one. *)

From S2P Require Import Prelude External ExternalModel ExternalCrypto Serializer Hash Defaults Elgamal Transaction Errors Account Versions Storage ClientProtocol VersionedTree StorageFacts Providers StorageLaws.

(** ** Histories and bounds *)
Section Histories.
Context {V : Type} (prev : V -> option Z) (get : Z -> bres V).
Implicit Types h : list (Z * V).

(** Around a version: newer ones, it, and the older ones it points to. *)
Lemma chain_split p h t v :
  chain prev get p h -> (t, v) ∈ h -> exists newer older, h = newer ++ (t, v) :: older /\ prev v = top older /\
    (forall t' v', (t', v') ∈ newer -> t < t') /\ (forall t' v', (t', v') ∈ older -> t' < t).
Proof.
  induction 1 as [|t0 v0 h Hg Hu Hp Hc IH]; [by intros ?%not_elem_of_nil|].
  intros [[= -> ->]|Hin]%list.elem_of_cons.
  - exists [], h. split_and!; [done|by apply (chain_top prev get)|by intros ? ? ?%not_elem_of_nil|].
    intros t' v' Hin. destruct (chain_below _ _ _ _ _ _ Hc Hin) as (q & Hq & ?). specialize (Hp _ Hq). lia.
  - destruct (IH Hin) as (newer & older & -> & Ho & Hn & Hl). exists ((t0, v0) :: newer), older.
    split_and!; [done|done| |done]. intros t' v' [[= -> ->]|Hin']%list.elem_of_cons; [|by eapply Hn].
    destruct (chain_below _ _ _ _ _ _ Hc Hin) as (q & Hq & ?). specialize (Hp _ Hq). lia.
Qed.

Lemma upto_app m h1 h2 : upto m (h1 ++ h2) = upto m h1 ++ upto m h2.
Proof. apply list.filter_app. Qed.
Lemma upto_none m h : (forall t v, (t, v) ∈ h -> m < t) -> upto m h = [].
Proof.
  intros Hh. unfold upto. induction h as [|[t v] h IH]; [done|]. rewrite filter_cons_False.
  - apply IH. intros t' v' Hin. apply (Hh t' v'). by right.
  - specialize (Hh t v ltac:(left)). simpl. lia.
Qed.

(** The version before the first deleted one is what the history ends at. *)
Lemma upto_before p h m t v :
  chain prev get p h -> (t, v) ∈ h -> m < t -> (forall t' v', (t', v') ∈ h -> t' <= m \/ t <= t') ->
  prev v = top (upto m h).
Proof.
  intros Hc Hin Hm Hgap. destruct (chain_split p h t v Hc Hin) as (newer & older & -> & -> & Hn & Ho).
  rewrite upto_app, (upto_none m newer).
  - unfold upto. cbn [app]. rewrite filter_cons_False by (simpl; lia). fold (upto m older). rewrite upto_all; [done|].
    intros t' v' Hin'. specialize (Ho _ _ Hin'). destruct (Hgap t' v'); [|done|lia].
    apply list.elem_of_app. right. by right.
  - intros t' v' Hin'. specialize (Hn _ _ Hin'). lia.
Qed.

Lemma chain_upto p h m : chain prev get p h -> chain prev get (top (upto m h)) (upto m h).
Proof.
  induction 1 as [|t v h Hg Hu Hp Hc IH]; [constructor|]. unfold upto. destruct (decide (t <= m)) as [Hle|Hgt].
  - rewrite filter_cons_True by done. fold (upto m h). rewrite upto_all; [by constructor|].
    intros t' v' Hin. destruct (chain_below _ _ _ _ _ _ Hc Hin) as (q & Hq & ?). specialize (Hp _ Hq). lia.
  - rewrite filter_cons_False by done. exact IH.
Qed.
Lemma elem_of_upto m h t v : (t, v) ∈ upto m h <-> t <= m /\ (t, v) ∈ h.
Proof. unfold upto. by rewrite list_elem_of_filter. Qed.
End Histories.

(** ** Trees from which the versions of a range disappear *)
Section PartlyCut.
Context {SL : SledLib} {K : Type} `{EqDecision K} {V : Type} {SZ : Serializer V}.
Context (kb : K -> list byte) (prev : V -> option Z) (ctx : DiskContext.t).
Context (kb_inj : forall a b, kb a = kb b -> a = b).
Context (prev_range : forall b v, from_bytes b = Ok v -> topo_ok (prev v)).

Abbreviation vk := (version_key kb).
Abbreviation refines := (trees_refine kb prev ctx).

(** From the trees of [hist], the versions of the topoheights [m <= t < c] are
    gone, and the accounts that had one point to their newest version below
    [m]. *)
Definition touched (m c : Z) (h : list (Z * V)) : Prop := Exists (fun tv => m <= tv.1 < c) h.
#[local] Instance touched_dec m c h : Decision (touched m c h).
Proof. unfold touched. apply _. Defined.
Lemma touched_iff m c h : touched m c h <-> exists t v, (t, v) ∈ h /\ m <= t < c.
Proof.
  unfold touched. rewrite list.Exists_exists. split.
  - intros ([t v] & Hin & Ht). by exists t, v.
  - intros (t & v & Hin & Ht). by exists (t, v).
Qed.

Record partly_cut (m c : Z) (hist : K -> list (Z * V)) (ptr0 ver0 ptr ver : tree) : Prop := {
  pc_refines : refines hist ptr0 ver0;
  pc_version k t : in_u 64 t -> tree_get (vk k t) ver = if decide (m <= t < c) then None else tree_get (vk k t) ver0;
  pc_stored b x : tree_get b ver = Some x -> tree_get b ver0 = Some x;
  pc_touched k : touched m c (hist k) -> tree_get (kb k) ptr = be_bytes 8 <$> top (upto (m - 1) (hist k));
  pc_untouched k : ~ touched m c (hist k) -> tree_get (kb k) ptr = tree_get (kb k) ptr0;
}.

Lemma partly_cut_start m hist ptr ver : refines hist ptr ver -> partly_cut m m hist ptr ver ptr ver.
Proof.
  intros Hr. split; [done| |done| |done].
  - intros k t Hu. by rewrite decide_False by lia.
  - intros k (t & v & _ & ?)%touched_iff. lia.
Qed.

(** Once nothing is left above, the trees hold what is below [m]. *)
Lemma partly_cut_end m c hist ptr0 ver0 ptr ver :
  partly_cut m c hist ptr0 ver0 ptr ver -> m <= c -> (forall k t v, (t, v) ∈ hist k -> t < c) ->
  refines (fun k => upto (m - 1) (hist k)) ptr ver.
Proof using prev_range.
  intros [[Hh Hs] Hv Hst Ht Hun] Hmc Htop.
  assert (forall k t v, (t, v) ∈ hist k -> in_u 64 t) as Hrange.
  { intros k t v Hin. destruct (Hh k) as [_ Hch]. by destruct (chain_get _ _ _ _ _ _ Hch Hin). }
  split.
  - intros k. destruct (Hh k) as [Hp Hch]. split.
    + destruct (decide (Exists (fun tv => m <= tv.1) (hist k))) as [He|He].
      * apply list.Exists_exists in He as ([t v] & Hin & Hle). apply Ht, touched_iff. exists t, v. split; [done|].
        specialize (Htop _ _ _ Hin). simpl in Hle. lia.
      * assert (forall t v, (t, v) ∈ hist k -> t <= m - 1) as Hall.
        { intros t v Hin. destruct (decide (t <= m - 1)); [done|]. destruct He. apply list.Exists_exists.
          exists (t, v). simpl. split; [done|lia]. }
        rewrite (upto_all _ _ Hall), Hun; [done|]. intros (t & v & Hin & ?)%touched_iff. specialize (Hall _ _ Hin). lia.
    + apply (chain_ext _ (look kb ctx ver0 k)); [by eapply chain_upto|].
      intros t v [Hle Hin]%elem_of_upto. unfold look, load_from_disk. rewrite Hv by by eapply Hrange.
      by rewrite decide_False by lia.
  - intros b x Hb. destruct (Hs b x (Hst _ _ Hb)) as (k & t & v & Hin & ->). exists k, t, v. split; [|done].
    apply elem_of_upto. split; [|done]. rewrite Hv in Hb by by eapply Hrange. case_decide; [done|].
    specialize (Htop _ _ _ Hin). lia.
Qed.

(** *** One topoheight *)
Section Step.
Context {S Err : Type} (ptr ver : S -> tree) (inv : S -> Prop) (del : list byte * list byte -> stm S Err ()) (t : Z).

(** What one call does to a version: the pointer moves back unless it is
    already below. *)
Definition deletes_version : Prop := forall s k v b p,
  inv s -> in_u 64 t -> tree_get (vk k t) (ver s) = Some b -> from_bytes b = Ok v ->
  tree_get (kb k) (ptr s) = be_bytes 8 <$> p -> topo_ok p -> (p = None -> 0 < t) ->
  exists s', del (vk k t, b) s = (Ok tt, s') /\ inv s' /\
    ver s' = (tree_remove (vk k t) (ver s)).2 /\
    tree_get (kb k) (ptr s') = be_bytes 8 <$> (match p with Some q => if t <=? q then prev v else p | None => None end) /\
    forall b', b' <> kb k -> tree_get b' (ptr s') = tree_get b' (ptr s).
Context (Hdel : deletes_version).

Context (m : Z) (hist : K -> list (Z * V)) (ptr0 ver0 : tree).
Context (Hr0 : refines hist ptr0 ver0) (Hu : in_u 64 t) (Hm : 0 <= m <= t).

Lemma pointer_ok k : topo_ok (top (hist k)) /\ forall n, topo_ok (top (upto n (hist k))).
Proof using Hr0.
  destruct (tr_history _ _ _ _ _ _ Hr0 k) as [_ Hch].
  assert (forall h : list (Z * V), (forall t' v, (t', v) ∈ h -> (t', v) ∈ hist k) -> topo_ok (top h)) as Hok.
  { intros [|[t' v] h] Hh; [done|]. simpl. by destruct (chain_get _ _ _ _ _ _ Hch (Hh t' v ltac:(left))). }
  split; [by apply Hok|]. intros n. apply Hok. by intros t' v [_ Hin]%elem_of_upto.
Qed.

Lemma touched_range k t' v : (t', v) ∈ hist k -> in_u 64 t'.
Proof using Hr0. intros Hin. destruct (tr_history _ _ _ _ _ _ Hr0 k) as [_ Hch]. by destruct (chain_get _ _ _ _ _ _ Hch Hin). Qed.

(** The pointer of an account, when the versions from [m] on are gone ([gone])
    or none is yet. *)
Definition pointer_at (gone : bool) (k : K) : option (list byte) :=
  if gone then be_bytes 8 <$> top (upto (m - 1) (hist k)) else tree_get (kb k) ptr0.

Lemma delete_one s k v b :
  inv s -> (t, v) ∈ hist k -> tree_get (vk k t) (ver s) = Some b -> from_bytes b = Ok v ->
  tree_get (kb k) (ptr s) = pointer_at (bool_decide (touched m t (hist k))) k ->
  exists s', del (vk k t, b) s = (Ok tt, s') /\ inv s' /\ ver s' = (tree_remove (vk k t) (ver s)).2 /\
    tree_get (kb k) (ptr s') = pointer_at true k /\
    forall b', b' <> kb k -> tree_get b' (ptr s') = tree_get b' (ptr s).
Proof using Hdel Hr0 Hu Hm.
  intros Hi Hin Hb Hv Hp. destruct (tr_history _ _ _ _ _ _ Hr0 k) as [Hptr Hch]. destruct (pointer_ok k) as [Ok0 Okm].
  unfold pointer_at in *. destruct (bool_decide_reflect (touched m t (hist k))) as [Ht|Ht].
  - destruct (Hdel s k v b _ Hi Hu Hb Hv Hp (Okm _)) as (s' & Hrun & Hi' & Hver & Hk & Hsame).
    { intros E. apply touched_iff in Ht as (t' & v' & Hin' & ?). lia. }
    exists s'. split_and!; [done..| |done]. rewrite Hk. destruct (top (upto (m - 1) (hist k))) as [q|] eqn:Eq; [|done].
    destruct (Z.leb_spec t q); [|done]. destruct (upto (m - 1) (hist k)) as [|[q' w] h] eqn:Eh; [done|]. injection Eq as ->.
    assert ((q, w) ∈ upto (m - 1) (hist k)) as Hq by (rewrite Eh; left). apply elem_of_upto in Hq as [? _]. lia.
  - rewrite Hptr in Hp. destruct (Hdel s k v b _ Hi Hu Hb Hv Hp Ok0) as (s' & Hrun & Hi' & Hver & Hk & Hsame).
    { destruct (hist k); [by apply not_elem_of_nil in Hin|by destruct p]. }
    exists s'. split_and!; [done..| |done]. rewrite Hk. destruct (chain_below _ _ _ _ _ _ Hch Hin) as (q & -> & Hle).
    destruct (Z.leb_spec t q); [|lia]. f_equal. eapply upto_before; [done|done|lia|]. intros t' v' Hin'.
    destruct (decide (m <= t')) as [?|?]; [|left; lia]. right. destruct (decide (t' < t)) as [?|?]; [|lia].
    destruct Ht. apply touched_iff. by exists t', v'.
Qed.

Lemma touched_next k : touched m (t + 1) (hist k) <-> touched m t (hist k) \/ exists v, (t, v) ∈ hist k.
Proof using Hm.
  rewrite !touched_iff. split.
  - intros (t' & v & Hin & ?). destruct (decide (t' = t)) as [->|]; [right; by exists v|left; exists t', v; split; [done|lia]].
  - intros [(t' & v & Hin & ?)|(v & Hin)]; [exists t', v|exists t, v]; (split; [done|lia]).
Qed.

(** The loop over the versions at [t]. *)
Lemma delete_loop l pre s st :
  partly_cut m t hist ptr0 ver0 (ptr st) (ver st) -> pre ++ l = tree_scan_prefix (be_bytes 8 t) (ver st) ->
  inv s -> (forall b, tree_get b (ver s) = if decide (b ∈ pre.*1) then None else tree_get b (ver st)) ->
  (forall k, tree_get (kb k) (ptr s) =
    pointer_at (bool_decide (touched m t (hist k)) || bool_decide (vk k t ∈ pre.*1)) k) ->
  exists s', foldMs (fun _ kv => del kv) tt l s = (Ok tt, s') /\ inv s' /\
    (forall b, tree_get b (ver s') = if decide (b ∈ (pre ++ l).*1) then None else tree_get b (ver st)) /\
    (forall k, tree_get (kb k) (ptr s') =
      pointer_at (bool_decide (touched m t (hist k)) || bool_decide (vk k t ∈ (pre ++ l).*1)) k).
Proof using EqDecision0 Hdel Hr0 Hu Hm kb_inj.
  intros Hst. revert pre s. induction l as [|[b x] l IH]; intros pre s Hl Hi Hv Hp; cbn [foldMs].
  { exists s. rewrite app_nil_r. by split_and!. }
  assert ((b, x) ∈ tree_scan_prefix (be_bytes 8 t) (ver st)) as Hin.
  { rewrite <- Hl. apply list.elem_of_app. right. left. }
  pose proof (tree_scan_prefix_NoDup (be_bytes 8 t) (ver st)) as Hnd. rewrite <- Hl, fmap_app in Hnd.
  assert (b ∉ pre.*1) as Hfresh.
  { apply list.NoDup_app in Hnd as (_ & Hd & _). intros Hb. apply (Hd b Hb). left. }
  apply tree_scan_prefix_spec in Hin as [Hpre Hb].
  destruct (tr_stored _ _ _ _ _ _ Hr0 b x (pc_stored _ _ _ _ _ _ _ Hst _ _ Hb)) as (k & t' & v & Hhist & ->).
  assert (t' = t) as ->.
  { unfold version_key in Hpre. rewrite length_be_bytes in Hpre.
    replace 8%nat with (length (be_bytes 8 t')) in Hpre at 1 by apply length_be_bytes.
    rewrite take_app_length in Hpre. apply be8_inj in Hpre; [done|by eapply touched_range|done]. }
  assert (from_bytes x = Ok v) as Hx.
  { destruct (tr_history _ _ _ _ _ _ Hr0 k) as [_ Hch]. destruct (chain_get _ _ _ _ _ _ Hch Hhist) as [Hg _].
    apply load_ok in Hg as (x' & Hx' & Hv'). rewrite (pc_stored _ _ _ _ _ _ _ Hst _ _ Hb) in Hx'. congruence. }
  destruct (delete_one s k v x Hi Hhist) as (s1 & Hrun & Hi1 & Hver & Hk & Hsame); [|done|..].
  { rewrite Hv, decide_False by done. done. }
  { rewrite Hp. rewrite (bool_decide_eq_false_2 (vk k t ∈ _)) by done. by rewrite orb_false_r. }
  erewrite stm_bind_run by exact Hrun.
  assert (pre ++ (vk k t, x) :: l = (pre ++ [(vk k t, x)]) ++ l) as Eapp by by rewrite <- (assoc_L (++)).
  rewrite Eapp in Hl |- *. apply IH; [done|done| |].
  - intros b'. rewrite Hver, fmap_app. destruct (decide (b' = vk k t)) as [->|Hne].
    + rewrite tree_get_remove, decide_True; [done|]. apply list.elem_of_app. right. left.
    + rewrite tree_get_remove_ne, Hv by done. apply decide_ext. rewrite list.elem_of_app. cbn. rewrite list_elem_of_singleton. tauto.
  - intros k'. destruct (decide (k' = k)) as [->|Hne].
    + rewrite Hk. rewrite (bool_decide_eq_true_2 (vk k t ∈ _)); [by rewrite orb_true_r|].
      rewrite fmap_app. apply list.elem_of_app. right. left.
    + rewrite Hsame, Hp by by intros ?%kb_inj. do 2 f_equal. apply bool_decide_ext.
      rewrite fmap_app, list.elem_of_app. cbn. rewrite list_elem_of_singleton. split; [by left|]. intros [?|E]; [done|].
      apply version_key_inj in E as [? _]; done.
Qed.

Lemma delete_at_step st :
  partly_cut m t hist ptr0 ver0 (ptr st) (ver st) -> inv st ->
  exists s', foldMs (fun _ kv => del kv) tt (tree_scan_prefix (be_bytes 8 t) (ver st)) st = (Ok tt, s') /\ inv s' /\
    partly_cut m (t + 1) hist ptr0 ver0 (ptr s') (ver s').
Proof using EqDecision0 Hdel Hr0 Hu Hm kb_inj.
  intros Hst Hi. destruct (delete_loop (tree_scan_prefix (be_bytes 8 t) (ver st)) [] st st) as (s' & Hrun & Hi' & Hv & Hp);
    [done|done|done| | |].
  { intros b. by rewrite decide_False by apply not_elem_of_nil. }
  { intros k. rewrite (bool_decide_eq_false_2 (vk k t ∈ _)) by apply not_elem_of_nil. rewrite orb_false_r. unfold pointer_at.
    case_bool_decide; [by apply (pc_touched _ _ _ _ _ _ _ Hst)|by apply (pc_untouched _ _ _ _ _ _ _ Hst)]. }
  cbn [app] in Hv, Hp. exists s'. split; [done|]. split; [done|].
  assert (forall k, vk k t ∈ (tree_scan_prefix (be_bytes 8 t) (ver st)).*1 <-> exists v, (t, v) ∈ hist k) as Hat.
  { intros k. split.
    - intros ([b x] & E & Hin)%list_elem_of_fmap. apply tree_scan_prefix_spec in Hin as [_ Hb]. simpl in E. subst b.
      destruct (tr_stored _ _ _ _ _ _ Hr0 _ x (pc_stored _ _ _ _ _ _ _ Hst _ _ Hb)) as (k' & t' & v & Hin & E).
      apply version_key_inj in E as [-> ->]; [by exists v|done|done|by eapply touched_range].
    - intros (v & Hin). destruct (tr_history _ _ _ _ _ _ Hr0 k) as [_ Hch].
      destruct (chain_get _ _ _ _ _ _ Hch Hin) as [(x & Hx & _)%load_ok _]. apply list_elem_of_fmap. exists (vk k t, x).
      split; [done|]. apply tree_scan_prefix_spec. split; [unfold version_key; by rewrite take_app_length|].
      rewrite (pc_version _ _ _ _ _ _ _ Hst) by done. by rewrite decide_False by lia. }
  split; [done| | | |].
  - intros k t' Hu'. rewrite Hv. case_decide as E1.
    + apply list_elem_of_fmap in E1 as ([b x] & E & Hin). simpl in E. subst b. apply tree_scan_prefix_spec in Hin as [Hpre _].
      unfold version_key in Hpre. rewrite length_be_bytes in Hpre.
      replace 8%nat with (length (be_bytes 8 t')) in Hpre at 1 by apply length_be_bytes.
      rewrite take_app_length in Hpre. apply be8_inj in Hpre as ->; [|done..]. by rewrite decide_True by lia.
    + rewrite (pc_version _ _ _ _ _ _ _ Hst) by done. destruct (decide (t' = t)) as [->|Hne].
      * rewrite decide_False, decide_True by lia. destruct (tree_get (vk k t) ver0) as [x|] eqn:Ex; [|done].
        destruct E1. apply Hat. destruct (tr_stored _ _ _ _ _ _ Hr0 _ x Ex) as (k' & t' & v & Hin & E).
        apply version_key_inj in E as [-> ->]; [by exists v|done|done|by eapply touched_range].
      * apply decide_ext. lia.
  - intros b x. rewrite Hv. case_decide; [done|]. apply (pc_stored _ _ _ _ _ _ _ Hst).
  - intros k Hk%touched_next. rewrite Hp. unfold pointer_at. destruct Hk as [Hk|Hk].
    + by rewrite (bool_decide_eq_true_2 _ Hk).
    + rewrite (bool_decide_eq_true_2 (vk k t ∈ _)) by by apply Hat. by rewrite orb_true_r.
  - intros k Hk. rewrite Hp. unfold pointer_at. rewrite !bool_decide_eq_false_2; [done| |].
    + intros E%Hat. apply Hk, touched_next. by right.
    + intros E. apply Hk, touched_next. by left.
Qed.
End Step.
End PartlyCut.

(** ** The accounts of the storage *)
Section Sled.
Context {CV : Curve} {SL : SledLib}.

(** The parts of the storage the deletions of nonces and of balances leave. *)
Definition order_part (st : SledStorage) :=
  (st.(mainnet), st.(topo_by_hash), st.(hash_at_topo), st.(txs_executed), st.(tx_blocks), st.(assets), st.(assets_count),
   st.(block_trees)).
Definition registration_part (st : SledStorage) := (st.(registrations), st.(registrations_prefixed)).
Definition nonce_part (st : SledStorage) := (st.(nonces), st.(versioned_nonces), st.(accounts_count)).
Definition balance_part (st : SledStorage) := (st.(balances), st.(versioned_balances)).

Lemma pointer_back_frame key p st :
  order_part (pointer_back key p st) = order_part st /\ registration_part (pointer_back key p st) = registration_part st /\
  balance_part (pointer_back key p st) = balance_part st.
Proof.
  destruct p as [p|]; cbn [pointer_back]; unfold set_last_topoheight_for_nonce, delete_last_topoheight_for_nonce.
  - by destruct (tree_insert _ _ _) as [[old|] t].
  - by destruct (tree_remove _ _) as [[old|] t].
Qed.

Definition nonce_inv (st0 st : SledStorage) : Prop :=
  accounts_counted st /\ order_part st = order_part st0 /\ registration_part st = registration_part st0 /\
  balance_part st = balance_part st0.

Lemma delete_nonce_version t st0 :
  deletes_version as_bytes vn_previous_topoheight nonces versioned_nonces (nonce_inv st0) (delete_versioned_nonce t) t.
Proof.
  intros s key v b p (Hc & F1 & F2 & F3) Hu Hb Hv Hp Hok Hz.
  set (s1 := with_versioned_nonces (tree_remove (version_key as_bytes key t) s.(versioned_nonces)).2 s).
  unfold delete_versioned_nonce, mbind, stm_bind, st_modify, lift_res, st_get. cbn [fst snd].
  rewrite parse_nonce_key. fold s1. unfold get_last_topoheight_for_nonce. cbn [nonces s1 with_versioned_nonces].
  destruct p as [q|]; cbn [fmap option_fmap option_map] in Hp.
  - rewrite (load_u64 _ _ _ q Hok Hp). destruct (Z.leb_spec t q).
    + rewrite Hv. cbn [map_err]. exists (pointer_back key v.(vn_previous_topoheight) s1).
      destruct (pointer_back_trees key v.(vn_previous_topoheight) s1) as (Hc' & Ev & Ek & En); [by eexists|done|].
      destruct (pointer_back_frame key v.(vn_previous_topoheight) s1) as (G1 & G2 & G3).
      split; [by destruct (vn_previous_topoheight v)|]. split; [split_and!; [done|by rewrite G1|by rewrite G2|by rewrite G3]|].
      by rewrite Ev.
    + exists s1. split; [done|]. split; [done|]. split; [done|]. split; [exact Hp|done].
  - unfold load_from_disk. rewrite Hp. exists s1. split; [done|]. split; [done|]. split; [done|]. split; [exact Hp|done].
Qed.

Definition balance_inv (st0 st : SledStorage) : Prop :=
  order_part st = order_part st0 /\ registration_part st = registration_part st0 /\ nonce_part st = nonce_part st0.

Lemma delete_balance_version t st0 :
  deletes_version balance_key previous_topoheight balances versioned_balances (balance_inv st0) (delete_versioned_balance t) t.
Proof.
  intros s [k a] v b p Hi Hu Hb Hv Hp Hok Hz.
  set (s1 := with_versioned_balances (tree_remove (version_key balance_key (k, a) t) s.(versioned_balances)).2 s).
  unfold delete_versioned_balance, mbind, stm_bind, st_modify, lift_res, st_get. cbn [fst snd].
  rewrite parse_asset. unfold version_key at 1, balance_key at 1, get_balance_key_for. cbn [fst snd].
  rewrite parse_key. fold s1. unfold get_last_topoheight_for_balance, has_balance_internal.
  change (get_balance_key_for k a) with (balance_key (k, a)). cbn [balances s1 with_versioned_balances].
  unfold tree_contains. rewrite Hp. destruct p as [q|]; cbn [fmap option_fmap option_map mbind res_bind negb] in *.
  - rewrite (load_u64 _ _ _ q Hok Hp). destruct (Z.leb_spec t q).
    + rewrite Hv. cbn [map_err]. destruct (previous_topoheight v) as [z|]; (eexists; split; [reflexivity|]; split; [done|]; split; [done|]; simpl).
      * split; [apply tree_get_insert|]. intros b' Hne. by rewrite tree_get_insert_ne.
      * split; [apply tree_get_remove|]. intros b' Hne. by rewrite tree_get_remove_ne.
    + exists s1. split; [done|]. split; [done|]. split; [done|]. split; [exact Hp|done].
  - destruct (Z.leb_spec t 0); [specialize (Hz eq_refl); lia|]. exists s1. split; [done|]. split; [done|]. split; [done|]. split; [exact Hp|done].
Qed.

Lemma slice_long b : (40 <= length b)%nat -> exists l, slice 8 40 b = Ok l.
Proof. intros Hl. unfold slice, Reader.slice. rewrite bool_decide_true by lia. by eexists. Qed.

Lemma delete_registrations_run t st :
  registrations_wf st -> exists st', delete_registrations_at_topoheight t st = (Ok tt, st') /\ registrations_wf st' /\
    order_part st' = order_part st /\ nonce_part st' = nonce_part st /\ balance_part st' = balance_part st.
Proof.
  intros Hwf. unfold delete_registrations_at_topoheight. erewrite stm_bind_run by reflexivity.
  assert (Forall (fun kv => 40 <= length kv.1)%nat (tree_scan_prefix (be_bytes 8 t) st.(registrations_prefixed))) as Hl.
  { apply list.Forall_forall. intros [b x] [_ Hb]%tree_scan_prefix_spec. by eapply Hwf. }
  revert Hl. generalize (tree_scan_prefix (be_bytes 8 t) st.(registrations_prefixed)) as l. intros l. revert st Hwf.
  induction l as [|[b x] l IH]; intros st Hwf Hl; cbn [foldMs]; [by exists st|].
  apply list.Forall_cons in Hl as [[key Hk]%slice_long Hl]. cbn [fst snd].
  set (st1 := with_registrations (tree_remove key st.(registrations)).2 (tree_remove b st.(registrations_prefixed)).2 st).
  destruct (IH st1) as (st' & Hrun & Hwf' & F1 & F2 & F3); [|done|].
  { intros b' x'. cbn. destruct (decide (b' = b)) as [->|Hne]; [by rewrite tree_get_remove|].
    rewrite tree_get_remove_ne by done. apply Hwf. }
  exists st'. split; [|by split_and!]. erewrite stm_bind_run; [exact Hrun|].
  unfold mbind, stm_bind, st_modify, lift_res. cbn [fst snd] in *. by rewrite Hk.
Qed.

(** What a block changed ([add_new_block_for_storage], the end of the loop that
    cleans the topoheights). *)
Definition delete_changes_at_topoheight (topoheight : Z) : stm SledStorage blockchain_error () :=
  _ ← delete_versioned_balances_at_topoheight topoheight;
  _ ← delete_versioned_nonces_at_topoheight topoheight;
  delete_registrations_at_topoheight topoheight.

Abbreviation nonces_cut m c nh := (partly_cut as_bytes vn_previous_topoheight DiskContext.NonceAtTopoHeight m c nh).
Abbreviation balances_cut m c bh := (partly_cut balance_key previous_topoheight DiskContext.BalanceAtTopoHeight m c bh).

(** The storage while the topoheights from [m] are cleaned, up to [c]. *)
Record sled_cleaning (m c : Z) (nh : NonceHistories) (bh : BalanceHistories) (st : SledStorage) : Prop := {
  cl_nonces : exists ptr ver, nonces_cut m c nh ptr ver st.(nonces) st.(versioned_nonces);
  cl_balances : exists ptr ver, balances_cut m c bh ptr ver st.(balances) st.(versioned_balances);
  cl_counted : accounts_counted st;
  cl_registrations : registrations_wf st;
}.

Lemma cleaning_start m nh bh st :
  nonces_refine nh st -> balances_refine bh st -> registrations_wf st -> sled_cleaning m m nh bh st.
Proof.
  intros [Hn Hc] Hb Hw. split; [|by eexists _, _; apply partly_cut_start..|done|done].
  eexists _, _. by apply partly_cut_start.
Qed.

Lemma cleaning_step m c nh bh st :
  sled_cleaning m c nh bh st -> 0 <= m <= c -> in_u 64 c ->
  exists st', delete_changes_at_topoheight c st = (Ok tt, st') /\ sled_cleaning m (c + 1) nh bh st' /\
    order_part st' = order_part st.
Proof.
  intros [(np & nv & Hn) (bp & bv & Hb) Hc Hw] Hm Hu.
  destruct (delete_at_step balance_key previous_topoheight _ balance_key_inj balances versioned_balances (balance_inv st) _ c
    (delete_balance_version c st) m bh bp bv (pc_refines _ _ _ _ _ _ _ _ _ _ Hb) Hu Hm st Hb) as (st1 & R1 & (F1 & G1 & N1) & Hb1); [done|].
  assert (nonces_cut m c nh np nv st1.(nonces) st1.(versioned_nonces)) as Hn1 by (injection N1 as -> -> _; exact Hn).
  assert (accounts_counted st1) as Hc1 by (unfold accounts_counted; injection N1 as -> _ ->; exact Hc).
  destruct (delete_at_step as_bytes vn_previous_topoheight _ as_bytes_inj nonces versioned_nonces (nonce_inv st1) _ c
    (delete_nonce_version c st1) m nh np nv (pc_refines _ _ _ _ _ _ _ _ _ _ Hn) Hu Hm st1 Hn1) as (st2 & R2 & (Hc2 & F2 & G2 & B2) & Hn2); [done|].
  assert (registrations_wf st2) as Hw2 by (unfold registrations_wf; injection G2 as _ ->; injection G1 as _ ->; exact Hw).
  destruct (delete_registrations_run c st2 Hw2) as (st3 & R3 & Hw3 & F3 & N3 & B3).
  exists st3. split.
  { unfold delete_changes_at_topoheight. erewrite stm_bind_run by exact R1. erewrite stm_bind_run by exact R2. exact R3. }
  split; [|by rewrite F3, F2, F1]. split; [| | |done].
  - eexists _, _. injection N3 as -> -> _. exact Hn2.
  - eexists _, _. injection B3 as -> ->. injection B2 as -> ->. exact Hb1.
  - unfold accounts_counted. injection N3 as -> _ ->. exact Hc2.
Qed.

Lemma cleaning_end m c nh bh st :
  sled_cleaning m c nh bh st -> m <= c -> below c nh -> below c bh ->
  nonces_refine (fun k => upto (m - 1) (nh k)) st /\ balances_refine (fun ka => upto (m - 1) (bh ka)) st /\ registrations_wf st.
Proof.
  intros [(np & nv & Hn) (bp & bv & Hb) Hc Hw] Hm Htn Htb. split_and!; [split; [|done]| |done].
  - eapply partly_cut_end; [exact vn_from_bytes_range|exact Hn|done|exact Htn].
  - eapply partly_cut_end; [exact vb_from_bytes_range|exact Hb|done|exact Htb].
Qed.

Lemma clean_run n m c nh bh st :
  sled_cleaning m c nh bh st -> 0 <= m <= c -> c + Z.of_nat n <= 2 ^ 64 ->
  exists st', foldMs (fun _ t => delete_changes_at_topoheight t) tt (seqZ c (Z.of_nat n)) st = (Ok tt, st') /\
    sled_cleaning m (c + Z.of_nat n) nh bh st' /\ order_part st' = order_part st.
Proof.
  revert c st. induction n as [|n IH]; intros c st Hst Hm Hc.
  { exists st. rewrite Z.add_0_r. done. }
  destruct (cleaning_step m c nh bh st Hst Hm) as (st1 & R1 & H1 & F1); [unfold in_u; lia|].
  destruct (IH (c + 1) st1) as (st' & R & H & F); [done|lia|lia|].
  exists st'. split_and!; [|by replace (c + Z.of_nat (Datatypes.S n)) with (c + 1 + Z.of_nat n) by lia|by rewrite F].
  rewrite seqZ_cons by lia. cbn [foldMs]. erewrite stm_bind_run by exact R1.
  replace (Z.succ c) with (c + 1) by lia. replace (Z.pred (Z.of_nat (Datatypes.S n))) with (Z.of_nat n) by lia. exact R.
Qed.
End Sled.

(** ** Properties *)
Section Properties.
Context {CV : Curve} {SL : SledLib}.

(** Deleting what the blocks of a range of topoheights changed, in the
    ascending order of the code, succeeds when no version is above the range,
    and leaves every account, of nonces and of balances, with exactly its
    versions below the range; the order of the blocks and the records of the
    transactions are untouched. *)
Theorem clean_refines (m : Z) (n : nat) (nh : NonceHistories) (bh : BalanceHistories) (st : SledStorage)
    (Hn : nonces_refine nh st) (Hb : balances_refine bh st) (Hw : registrations_wf st)
    (Hm : 0 <= m) (Hr : m + Z.of_nat n <= 2 ^ 64) (Htn : below (m + Z.of_nat n) nh) (Htb : below (m + Z.of_nat n) bh) :
  exists st', foldMs (fun _ t => delete_changes_at_topoheight t) tt (seqZ m (Z.of_nat n)) st = (Ok tt, st') /\
    nonces_refine (fun k => upto (m - 1) (nh k)) st' /\ balances_refine (fun ka => upto (m - 1) (bh ka)) st' /\
    registrations_wf st' /\ order_part st' = order_part st.
Proof.
  destruct (clean_run n m m nh bh st) as (st' & Hrun & Hcl & Hf); [by apply cleaning_start|lia|done|].
  destruct (cleaning_end _ _ _ _ _ Hcl) as (H1 & H2 & H3); [lia|done|done|]. by exists st'.
Qed.
End Properties.

(** ** A witness: an account with versions at 3, 5 and 6 *)

#[local] Existing Instances curve_model sled_model.

Definition c_funded : SledStorage := Storage.set_last_balance_to s_key s_asset 6 (prepare_new (Some 3) balance_zero) s_storage.
Definition c_used : SledStorage := Storage.set_last_nonce_to s_key 5 (mkVNonce 1 (Some 3)) c_funded.
Definition c_storage : SledStorage := Storage.set_last_nonce_to s_key 6 (mkVNonce 2 (Some 5)) c_used.
Definition c_nonces5 : NonceHistories := fn_upd s_key ((5, mkVNonce 1 (Some 3)) :: s_nonces s_key) s_nonces.
Definition c_nonces : NonceHistories := fn_upd s_key ((6, mkVNonce 2 (Some 5)) :: c_nonces5 s_key) c_nonces5.
Definition c_balances : BalanceHistories :=
  fn_upd (s_key, s_asset) ((6, stored (prepare_new (Some 3) balance_zero)) :: s_balances (s_key, s_asset)) s_balances.

Lemma s_top : top (s_nonces s_key) = Some 3 /\ top (c_nonces5 s_key) = Some 5 /\ top (s_balances (s_key, s_asset)) = Some 3.
Proof. unfold c_nonces5, s_nonces, s_balances. by rewrite !fn_upd_eq. Qed.

Lemma c_nonces_refine : nonces_refine c_nonces c_storage.
Proof.
  destruct s_top as (E1 & E2 & _).
  apply set_last_nonce_refine; [apply set_last_nonce_refine; [exact s_nonces_refine|..]|..]; rewrite ?E1, ?E2; try done;
    by intros p [= <-].
Qed.
Lemma c_balances_refine : balances_refine c_balances c_storage.
Proof.
  destruct s_top as (_ & _ & E3). unfold balances_refine, c_storage, c_used.
  destruct (set_last_nonce_frame s_key 6 (mkVNonce 2 (Some 5)) (Storage.set_last_nonce_to s_key 5 (mkVNonce 1 (Some 3)) c_funded))
    as (-> & -> & _).
  destruct (set_last_nonce_frame s_key 5 (mkVNonce 1 (Some 3)) c_funded) as (-> & -> & _).
  apply set_last_balance_refine; [exact s_balances_refine|..]; rewrite ?E3; try done. by intros p [= <-].
Qed.
Lemma c_registrations_wf : registrations_wf c_storage.
Proof.
  unfold registrations_wf, c_storage, c_used.
  destruct (set_last_nonce_frame s_key 6 (mkVNonce 2 (Some 5)) (Storage.set_last_nonce_to s_key 5 (mkVNonce 1 (Some 3)) c_funded))
    as (_ & _ & _ & _ & _ & ->).
  destruct (set_last_nonce_frame s_key 5 (mkVNonce 1 (Some 3)) c_funded) as (_ & _ & _ & _ & _ & ->).
  destruct (set_last_nonce_frame s_key 3 (mkVNonce 0 None) s_funded) as (_ & _ & _ & _ & _ & E).
  unfold c_funded, s_storage. cbn -[Storage.set_last_nonce_to]. rewrite E. exact (empty_registrations_wf true).
Qed.
Lemma c_below : below 7 c_nonces /\ below 7 c_balances.
Proof.
  split; intros k t v; unfold c_nonces, c_nonces5, s_nonces, c_balances, s_balances, fn_upd; repeat case_decide; set_solver by lia.
Qed.

Lemma clean_refines_witness : exists st', foldMs (fun _ t => delete_changes_at_topoheight t) tt (seqZ 5 2) c_storage = (Ok tt, st') /\
  nonces_refine (fun k => upto 4 (c_nonces k)) st' /\ upto 4 (c_nonces s_key) = [(3, mkVNonce 0 None)].
Proof.
  destruct (clean_refines 5 2 c_nonces c_balances c_storage c_nonces_refine c_balances_refine c_registrations_wf)
    as (st' & Hrun & Hn & _); [done|done|apply c_below|apply c_below|].
  exists st'. split_and!; [exact Hrun|exact Hn|]. unfold c_nonces, c_nonces5, s_nonces. by rewrite !fn_upd_eq.
Defined.
