(* ===== verification/ChainProviders.v ===== *)
(** The rest of the traits of the storage, as [add_new_block_for_storage] uses
    them: the stored blocks with their supply and reward, the tips and tops of
    the chain, and the deletion of what a topoheight changed.

    [OrderLaws] says how the order of the blocks, their supply and their reward
    are read and written, and that the other calls leave them.  [RewindLaws]
    says that deleting the changes of a range of topoheights, in ascending
    order, cuts the histories.  The sled storage keeps both. *)

From S2P Require Import Prelude External ExternalModel ExternalCrypto Serializer Hash VarUint Defaults Elgamal Proofs Transaction Block Errors Account Versions Storage ClientProtocol VersionedTree StorageFacts BlockStorage Dag Providers DagOrder DagWalks BlockProviders BlockStorageFacts StorageLaws Rewind.

Section Traits.
Context {CV : Curve} {ML : Merlin} {RP : RangeProofLib} {UL : U256Lib} {IS : IndexSetLib Hash}.

Class BlockDagProvider (S : Type) := {
  get_block_by_hash : S -> Hash -> bres Block;
  save_block : BlockHeader -> list Transaction -> VarUint.t -> VarUint.t -> Hash -> stm S blockchain_error ();
  add_block_execution_to_order : Hash -> stm S blockchain_error ();
  get_supply_at_topo_height : S -> Z -> bres Z;
  get_block_reward_at_topo_height : S -> Z -> bres Z;
  set_supply_at_topo_height : Z -> Z -> stm S blockchain_error ();
  set_block_reward_at_topo_height : Z -> Z -> stm S blockchain_error ();
}.

Class TipsProvider (S : Type) := {
  get_tips : S -> bres (gset Hash);
  store_tips : gset Hash -> stm S blockchain_error ();
  set_top_topoheight : Z -> stm S blockchain_error ();
  set_top_height : Z -> stm S blockchain_error ();
}.

Class RewindProvider (S : Type) := {
  delete_versioned_balances_at_topoheight : Z -> stm S blockchain_error ();
  delete_versioned_nonces_at_topoheight : Z -> stm S blockchain_error ();
  delete_registrations_at_topoheight : Z -> stm S blockchain_error ();
}.

(** The storages with the same topological order, supplies, rewards and blocks. *)
Definition same_order {S} {SP : Storage S} {BD : BlockDagProvider S} (st st' : S) : Prop :=
  (forall h, get_topo_height_for_hash st' h = get_topo_height_for_hash st h) /\
  (forall t, get_hash_at_topo_height st' t = get_hash_at_topo_height st t) /\
  (forall t, get_supply_at_topo_height st' t = get_supply_at_topo_height st t) /\
  (forall t, get_block_reward_at_topo_height st' t = get_block_reward_at_topo_height st t) /\
  (forall h, get_block_by_hash st' h = get_block_by_hash st h).

Lemma same_order_refl {S} {SP : Storage S} {BD : BlockDagProvider S} (st : S) : same_order st st.
Proof. by split_and!. Qed.
Lemma same_order_trans {S} {SP : Storage S} {BD : BlockDagProvider S} (st1 st2 st3 : S) :
  same_order st1 st2 -> same_order st2 st3 -> same_order st1 st3.
Proof. intros (A1 & A2 & A3 & A4 & A5) (B1 & B2 & B3 & B4 & B5). split_and!; intros x; by rewrite ?B1, ?B2, ?B3, ?B4, ?B5. Qed.

(** A call that leaves the order. *)
Definition keeps_order {S} {SP : Storage S} {BD : BlockDagProvider S} {A} (m : stm S blockchain_error A) : Prop :=
  forall st, same_order st (m st).2.

Class OrderLaws (S : Type) {SP : Storage S} {SLaws : StorageLaws S} {CP : ClientProtocolProvider S} {BD : BlockDagProvider S} := {
  law_ordered st h : is_block_topological_ordered st h =
    match get_topo_height_for_hash st h with
    | Ok t => match get_hash_at_topo_height st t with
              | Ok h' => Ok (bool_decide (h' = h))
              | Err _ => Ok false | Panic => Panic | Diverge => Diverge
              end
    | Err _ => Ok false | Panic => Panic | Diverge => Diverge
    end;
  law_topo_range st h t : get_topo_height_for_hash st h = Ok t -> in_u 64 t;
  law_supply_range st t s : get_supply_at_topo_height st t = Ok s -> in_u 64 s;
  law_set_topo h t st : in_u 64 t -> exists st', set_topo_height_for_block h t st = (Ok tt, st') /\
    get_topo_height_for_hash st' h = Ok t /\ get_hash_at_topo_height st' t = Ok h /\
    (forall h', h' <> h -> get_topo_height_for_hash st' h' = get_topo_height_for_hash st h') /\
    (forall t', in_u 64 t' -> t' <> t -> get_hash_at_topo_height st' t' = get_hash_at_topo_height st t') /\
    (forall t', get_supply_at_topo_height st' t' = get_supply_at_topo_height st t') /\
    (forall t', get_block_reward_at_topo_height st' t' = get_block_reward_at_topo_height st t') /\
    (forall h', get_block_by_hash st' h' = get_block_by_hash st h') /\
    forall nh bh, stores nh bh st -> stores nh bh st';
  law_set_reward t r st : in_u 64 t -> in_u 64 r -> exists st', set_block_reward_at_topo_height t r st = (Ok tt, st') /\
    (forall h, get_topo_height_for_hash st' h = get_topo_height_for_hash st h) /\
    (forall t', get_hash_at_topo_height st' t' = get_hash_at_topo_height st t') /\
    (forall t', get_supply_at_topo_height st' t' = get_supply_at_topo_height st t') /\
    get_block_reward_at_topo_height st' t = Ok r /\
    (forall t', in_u 64 t' -> t' <> t -> get_block_reward_at_topo_height st' t' = get_block_reward_at_topo_height st t') /\
    (forall h', get_block_by_hash st' h' = get_block_by_hash st h') /\
    forall nh bh, stores nh bh st -> stores nh bh st';
  law_set_supply t s st : in_u 64 t -> in_u 64 s -> exists st', set_supply_at_topo_height t s st = (Ok tt, st') /\
    (forall h, get_topo_height_for_hash st' h = get_topo_height_for_hash st h) /\
    (forall t', get_hash_at_topo_height st' t' = get_hash_at_topo_height st t') /\
    get_supply_at_topo_height st' t = Ok s /\
    (forall t', in_u 64 t' -> t' <> t -> get_supply_at_topo_height st' t' = get_supply_at_topo_height st t') /\
    (forall t', get_block_reward_at_topo_height st' t' = get_block_reward_at_topo_height st t') /\
    (forall h', get_block_by_hash st' h' = get_block_by_hash st h') /\
    forall nh bh, stores nh bh st -> stores nh bh st';
  law_order_nonce k t v : keeps_order (set_last_nonce_to k t v);
  law_order_balance k a t v : keeps_order (set_last_balance_to k a t v);
  law_order_register k t : keeps_order (set_account_registration_topoheight k t);
  law_order_link tx b : keeps_order (add_block_linked_to_tx_if_not_present tx b);
  law_order_executed tx b : keeps_order (set_tx_executed_in_block tx b);
}.

Class RewindLaws (S : Type) {SP : Storage S} {SLaws : StorageLaws S} {CP : ClientProtocolProvider S} {BD : BlockDagProvider S}
    {RW : RewindProvider S} := {
  (* the topoheights [m <= t < c] were cleaned *)
  cleaning : Z -> Z -> NonceHistories -> BalanceHistories -> S -> Prop;
  law_clean_start m nh bh st : stores nh bh st -> cleaning m m nh bh st;
  law_clean_step m c nh bh st : cleaning m c nh bh st -> 0 <= m <= c -> in_u 64 c ->
    exists st', (_ ← delete_versioned_balances_at_topoheight c;
                 _ ← delete_versioned_nonces_at_topoheight c;
                 delete_registrations_at_topoheight c) st = (Ok tt, st') /\
      cleaning m (c + 1) nh bh st' /\ same_order st st';
  law_clean_remove_tx m c nh bh tx st : cleaning m c nh bh st ->
    exists st', remove_tx_executed tx st = (Ok tt, st') /\ cleaning m c nh bh st' /\ same_order st st';
  law_clean_end m c nh bh st : cleaning m c nh bh st -> m <= c -> below c nh -> below c bh ->
    stores (fun k => upto (m - 1) (nh k)) (fun ka => upto (m - 1) (bh ka)) st;
}.
End Traits.

(** ** The sled storage *)
Section Sled.
Context {CV : Curve} {ML : Merlin} {RP : RangeProofLib} {SL : SledLib} {HM : HashMapIter} {UL : U256Lib} {IS : IndexSetLib Hash}.

#[export] Instance sled_dag : BlockDagProvider SledStorage := {|
  get_block_by_hash st h := BlockStorage.get_block_by_hash h st;
  save_block := BlockStorage.save_block;
  add_block_execution_to_order h := st_modify (BlockStorage.add_block_execution_to_order h);
  get_supply_at_topo_height st t := BlockStorage.get_supply_at_topo_height t st;
  get_block_reward_at_topo_height st t := BlockStorage.get_block_reward_at_topo_height t st;
  set_supply_at_topo_height t s := st_modify (BlockStorage.set_supply_at_topo_height t s);
  set_block_reward_at_topo_height t r := st_modify (BlockStorage.set_block_reward_at_topo_height t r);
|}.
#[export] Instance sled_tips : TipsProvider SledStorage := {|
  get_tips st := BlockStorage.get_tips st;
  store_tips tips := st_modify (BlockStorage.store_tips tips);
  set_top_topoheight t := st_modify (BlockStorage.set_top_topoheight t);
  set_top_height h := st_modify (BlockStorage.set_top_height h);
|}.
#[export] Instance sled_rewind : RewindProvider SledStorage := {|
  delete_versioned_balances_at_topoheight := Storage.delete_versioned_balances_at_topoheight;
  delete_versioned_nonces_at_topoheight := Storage.delete_versioned_nonces_at_topoheight;
  delete_registrations_at_topoheight := Storage.delete_registrations_at_topoheight;
|}.

(** A block is read from the trees of the headers and of the transactions. *)
Lemma same_block (st st' : SledStorage) h :
  st'.(block_trees).(t_blocks) = st.(block_trees).(t_blocks) ->
  st'.(block_trees).(t_transactions) = st.(block_trees).(t_transactions) ->
  BlockStorage.get_block_by_hash h st' = BlockStorage.get_block_by_hash h st.
Proof.
  intros E1 E2. unfold BlockStorage.get_block_by_hash, BlockStorage.get_block_header_by_hash, get_transaction.
  by rewrite E1, E2.
Qed.

Lemma same_trees (st st' : SledStorage) :
  st'.(topo_by_hash) = st.(topo_by_hash) -> st'.(hash_at_topo) = st.(hash_at_topo) -> st'.(block_trees) = st.(block_trees) ->
  same_order st st'.
Proof.
  intros E1 E2 E3. split_and!; intros x; [..|apply same_block; by rewrite E3]; cbn; unfold Storage.get_topo_height_for_hash, Storage.get_hash_at_topo_height,
    BlockStorage.get_supply_at_topo_height, BlockStorage.get_block_reward_at_topo_height; by rewrite ?E1, ?E2, ?E3.
Qed.
Lemma order_part_same st st' : order_part st' = order_part st -> same_order st st'.
Proof. unfold order_part. intros [= _ E1 E2 _ _ _ _ E3]. by apply same_trees. Qed.

(** A load of the tree of an integer, after an insertion. *)
Lemma load_u64_insert k z c (t : tree) :
  in_u 64 z -> load_from_disk (SZ:=u64_Serializer) (tree_insert k (be_bytes 8 z) t).2 k c = Ok z.
Proof. intros Hz. apply load_u64; [done|apply tree_get_insert]. Qed.
Lemma load_insert_ne {T} {SZ : Serializer T} k k' b c (t : tree) :
  k' <> k -> load_from_disk (T:=T) (tree_insert k b t).2 k' c = load_from_disk t k' c.
Proof. intros Hk. unfold load_from_disk. by rewrite tree_get_insert_ne by auto. Qed.
Lemma be8_ne a b : in_u 64 a -> in_u 64 b -> a <> b -> be_bytes 8 a <> be_bytes 8 b.
Proof. by intros Ha Hb Hne ?%be8_inj. Qed.

#[export] Instance sled_order_laws : OrderLaws SledStorage.
Proof.
  split.
  - intros st h. cbn. unfold Storage.is_block_topological_ordered, or_false. by destruct (Storage.get_topo_height_for_hash h st).
  - intros st h t Ht. apply load_ok in Ht as (b & _ & Hb). apply from_bytes_ok in Hb as (r & Hb). by eapply read_u64_range.
  - intros st t s Ht. apply load_ok in Ht as (b & _ & Hb). apply from_bytes_ok in Hb as (r & Hb). by eapply read_u64_range.
  - intros h t st Ht. eexists. split; [reflexivity|]. cbn. unfold Storage.get_topo_height_for_hash, Storage.get_hash_at_topo_height,
      BlockStorage.get_supply_at_topo_height, BlockStorage.get_block_reward_at_topo_height. cbn. split_and!; try done; try (by intros h'; apply same_block).
    + by apply load_u64_insert.
    + change (hash_bytes h) with (to_bytes h). by apply load_value, tree_get_insert.
    + intros h' Hne. apply load_insert_ne. by intros ?%hash_bytes_inj.
    + intros t' Ht' Hne. apply load_insert_ne. by apply be8_ne.
  - intros t r st Ht Hr. eexists. split; [reflexivity|]. cbn. unfold Storage.get_topo_height_for_hash, Storage.get_hash_at_topo_height,
      BlockStorage.get_supply_at_topo_height, BlockStorage.get_block_reward_at_topo_height. cbn. split_and!; try done; try (by intros h'; apply same_block).
    + by apply load_u64_insert.
    + intros t' Ht' Hne. apply load_insert_ne. by apply be8_ne.
  - intros t s st Ht Hs. eexists. split; [reflexivity|]. cbn. unfold Storage.get_topo_height_for_hash, Storage.get_hash_at_topo_height,
      BlockStorage.get_supply_at_topo_height, BlockStorage.get_block_reward_at_topo_height. cbn. split_and!; try done; try (by intros h'; apply same_block).
    + by apply load_u64_insert.
    + intros t' Ht' Hne. apply load_insert_ne. by apply be8_ne.
  - intros k t v st. cbn. unfold Storage.set_last_nonce_to, Storage.set_last_topoheight_for_nonce.
    destruct (tree_insert _ _ _) as [[o|] n]; by apply same_trees.
  - intros k a t v st. by apply same_trees.
  - intros k t st. cbn. unfold Storage.set_account_registration_topoheight, mbind, stm_bind, st_get, st_modify.
    destruct (tree_insert _ _ _) as [[o|] n]; [|by apply same_trees]. unfold lift_res.
    by destruct (prefixed_db_key_no_u64 o k); apply same_trees.
  - intros tx b st. cbn. unfold ClientProtocol.add_block_linked_to_tx_if_not_present, mbind at 1 2, stm_bind, st_get, lift_res.
    destruct (b' ← has_tx_blocks tx st; _) as [hashes| | |]; try by apply same_trees.
    destruct (bool_decide (b ∈ hashes)); by apply same_trees.
  - intros tx b st. by apply same_trees.
Qed.

#[export] Program Instance sled_rewind_laws : RewindLaws SledStorage := {| cleaning := sled_cleaning |}.
Next Obligation. intros m nh bh st (Hn & Hb & Hw). by apply cleaning_start. Qed.
Next Obligation.
  intros m c nh bh st Hc Hm Hu. destruct (cleaning_step m c nh bh st Hc Hm Hu) as (st' & Hr & Hc' & Hf).
  exists st'. split_and!; [exact Hr|done|by apply order_part_same].
Qed.
Next Obligation.
  intros m c nh bh tx st [H1 H2 H3 H4]. eexists. split; [reflexivity|]. split; [by split|by apply same_trees].
Qed.
Next Obligation. intros m c nh bh st Hc Hm Hn Hb. by apply cleaning_end with c. Qed.
End Sled.
