(* ===== verification/Reference.v ===== *)
(** What both verification states of the daemon share: the balance a
    transaction is verified against, chosen from its reference
    ([core/state/mod.rs]), and the fee it must pay
    ([estimate_required_tx_fees] of [core/blockchain.rs]). *)

From S2P Require Import Prelude External ExternalModel ExternalCrypto Serializer Hash Defaults Elgamal Proofs Transaction Errors Account Versions Storage VersionedTree StorageFacts Providers Emission.

Section Reference.
Context {CV : Curve} {ML : Merlin} {RP : RangeProofLib} {S : Type} {SP : Storage S}.

(** [search_versioned_balance_for_reference]: whether the output balance must
    be used, whether the version is new, and the version. *)
Definition search_versioned_balance_for_reference (storage : S) (key : CompressedPublicKey) (asset : Hash)
    (current_topoheight : Z) (reference : Reference) : bres (bool * bool * VersionedBalance) :=
  ordered ← is_block_topological_ordered storage reference.(ref_hash);
  reference_block_topo ←
    (if (ordered : bool) then
       topo ← get_topo_height_for_hash storage reference.(ref_hash);
       Ok (if topo =? reference.(ref_topoheight) then topo
           else if reference.(ref_topoheight) <? current_topoheight then reference.(ref_topoheight)
           else current_topoheight)
     else Ok current_topoheight);
  last_output ← get_output_balance_at_maximum_topoheight storage key asset current_topoheight;
  '(use_output_balance, version) ←
    match last_output with
    | Some (topo, v) =>
        if (reference.(ref_topoheight) <? topo) || (reference_block_topo <? topo) then Ok (true, Some v)
        else if (topo <? reference.(ref_topoheight)) || (topo <? reference_block_topo) then
          found ← get_balance_at_maximum_topoheight storage key asset (Z.max topo reference_block_topo);
          Ok (false, option_map snd found)
        else Ok (false, Some v)
    | None =>
        found ← get_balance_at_maximum_topoheight storage key asset reference_block_topo;
        Ok (false, option_map snd found)
    end;
  match version with
  | Some version => Ok (use_output_balance, false, version)
  | None =>
      version ← get_new_versioned_balance storage key asset current_topoheight;
      Ok (use_output_balance, true, version)
  end.

Definition estimate_required_tx_fees (provider : S) (current_topoheight : Z) (tx : Transaction) : bres Z :=
  '(output_count, new_addresses) ←
    match tx.(data) with
    | Transfers transfers =>
        new_addresses ← foldM (fun new_addresses transfer =>
          registered ← is_account_registered_below_topoheight provider transfer.(destination) current_topoheight;
          Ok (if negb registered then u64_add new_addresses 1 else new_addresses)) 0 transfers;
        Ok (Z.of_nat (length transfers), new_addresses)
    | Burn _ => Ok (0, 0)
    end;
  Ok (calculate_tx_fee (Z.of_nat (size tx)) output_count new_addresses).
End Reference.

(** ** The balance chosen, in terms of the history of the account *)
Section Choice.
Context {CV : Curve} {SL : SledLib}.

(** The newest version with an output at or below [current]. *)
Definition last_output (current : Z) (h : list (Z * VersionedBalance)) : option (Z * VersionedBalance) :=
  latest_that contains_output (upto current h).

(** The topoheight up to which the balance is looked for: the one of the
    reference when its block is ordered there, or ordered elsewhere while the
    reference is below the current topoheight, and otherwise the current one. *)
Definition reference_base (place : option Z) (reference : Reference) (current : Z) : Z :=
  match place with
  | Some topo => if topo =? reference.(ref_topoheight) then topo else Z.min reference.(ref_topoheight) current
  | None => current
  end.

End Choice.

#[local] Existing Instances curve_model sled_model.

(** A block ordered at topoheight 3, where the account of [s_storage] was
    registered. *)
Definition r_storage : SledStorage := Storage.set_topo_height_for_block HashOps.max 3 s_storage.

