(* ===== verification/ChainState.v ===== *)
(** [core/state/chain_state.rs]: the state transactions are executed on, at one
    topoheight, and the writing of its changes to the storage.

    [ChainState] implements the trait [BlockchainVerificationState]; a map of
    maps is a [gmap] of [gmap]s, and the writes through the references the
    methods return are the [set_*] operations of the trait. *)

From S2P Require Import Prelude External ExternalModel ExternalCrypto Serializer Hash Defaults Elgamal Proofs Transaction Verify VerifyFacts Errors Account Versions Storage Providers Emission Reference.

Section ChainState.
Context {CV : Curve} {ML : Merlin} {RP : RangeProofLib} {HM : HashMapIter} {S : Type} {SP : Storage S}.

Record Echange := mkEchange {
  allow_output_balance : bool;
  new_version : bool;
  e_version : VersionedBalance;
  output_sum : Ciphertext;
  output_balance_used : bool;
}.
Definition echange_new (allow_output_balance new_version : bool) (version : VersionedBalance) : Echange :=
  mkEchange allow_output_balance new_version version ct_zero false.

(** Which balance [get_balance] selects. *)
Definition selects_output (e : Echange) : bool := e.(output_balance_used) || e.(allow_output_balance).
Definition get_balance (e : Echange) : CiphertextCache * Echange :=
  let '(ct, used) := select_balance (selects_output e) e.(e_version) in
  (ct, if negb e.(output_balance_used)
       then mkEchange e.(allow_output_balance) e.(new_version) e.(e_version) e.(output_sum) used
       else e).
(** A write through the reference returned by [get_balance]. *)
Definition put_balance (k : CiphertextCache) (e : Echange) : Echange :=
  mkEchange e.(allow_output_balance) e.(new_version) (put_selected (selects_output e) k e.(e_version))
    e.(output_sum) e.(output_balance_used).
Definition add_output_to_sum (output : Ciphertext) (e : Echange) : Echange :=
  mkEchange e.(allow_output_balance) e.(new_version) e.(e_version) (ct_add e.(output_sum) output)
    e.(output_balance_used).

Record ChainAccount := mkAccount { a_nonce : VersionedNonce; a_assets : gmap Hash Echange }.

Record ChainState := mkChain {
  storage : S;
  receiver_balances : gmap CompressedPublicKey (gmap Hash VersionedBalance);
  accounts : gmap CompressedPublicKey ChainAccount;
  topoheight : Z;
}.
Definition chain_with (storage : S) (topoheight : Z) : ChainState := mkChain storage ∅ ∅ topoheight.

Definition with_storage (st : S) (s : ChainState) : ChainState :=
  mkChain st s.(receiver_balances) s.(accounts) s.(topoheight).
Definition with_receivers m (s : ChainState) : ChainState :=
  mkChain s.(storage) m s.(accounts) s.(topoheight).
Definition with_accounts m (s : ChainState) : ChainState :=
  mkChain s.(storage) s.(receiver_balances) m s.(topoheight).

(** A call on the storage held by the state. *)
Definition on_storage {A} (m : stm S blockchain_error A) : stm ChainState blockchain_error A := fun s =>
  let '(r, st) := m s.(storage) in (r, with_storage st s).

(** ** Receivers *)

(** [receiver_balances.entry(key).or_insert_with(HashMap::new)] *)
Definition open_receiver (key : CompressedPublicKey) (s : ChainState) : ChainState :=
  with_receivers (<[key := default ∅ (s.(receiver_balances) !! key)]> s.(receiver_balances)) s.
Definition receiver_version (key : CompressedPublicKey) (asset : Hash) (s : ChainState) : option VersionedBalance :=
  s.(receiver_balances) !! key ≫= fun m => m !! asset.
Definition put_receiver (key : CompressedPublicKey) (asset : Hash) (v : VersionedBalance) (s : ChainState) : ChainState :=
  with_receivers
    (<[key := <[asset := v]> (default ∅ (s.(receiver_balances) !! key))]> s.(receiver_balances)) s.

(** [version.get_mut_balance().computable()?] on a version held by a map: the
    ciphertext, and the version with the cache [computable] leaves. *)
Definition computable_version (v : VersionedBalance) : bres (Ciphertext * VersionedBalance) :=
  '(c, k) ← map_err BlockchainError.DecompressionError (computable v.(final_balance));
  Ok (c, Account.set_balance k v).

Definition internal_get_receiver_balance (key : CompressedPublicKey) (asset : Hash)
  : stm ChainState blockchain_error Ciphertext :=
  _ ← st_modify (open_receiver key);
  s ← st_get;
  version ← match receiver_version key asset s with
            | Some version => mret version
            | None =>
                version ← lift_res (get_new_versioned_balance s.(storage) key asset s.(topoheight));
                _ ← st_modify (put_receiver key asset version);
                mret version
            end;
  '(c, version) ← lift_res (computable_version version);
  _ ← st_modify (put_receiver key asset version);
  mret c.

Definition set_receiver (key : CompressedPublicKey) (asset : Hash) (c : Ciphertext) (s : ChainState) : ChainState :=
  match receiver_version key asset s with
  | Some v => put_receiver key asset (Account.set_balance (put_computable c v.(final_balance)) v) s
  | None => s
  end.

(** ** Senders *)

Definition create_sender_echange (storage : S) (key : CompressedPublicKey) (asset : Hash)
    (current_topoheight : Z) (reference : Reference) : bres Echange :=
  '(use_output_balance, new_version, version) ←
    search_versioned_balance_for_reference storage key asset current_topoheight reference;
  Ok (echange_new use_output_balance new_version version).

Definition create_sender_account (key : CompressedPublicKey) (storage : S) (topoheight : Z) : bres ChainAccount :=
  found ← get_nonce_at_maximum_topoheight storage key topoheight;
  '(topo, version) ← ok_or found (BlockchainError.AccountNotFound (as_address key (is_mainnet storage)));
  Ok (mkAccount (vn_set_previous_topoheight (Some topo) version) ∅).

Definition put_account (key : CompressedPublicKey) (a : ChainAccount) (s : ChainState) : ChainState :=
  with_accounts (<[key := a]> s.(accounts)) s.
Definition put_echange (key : CompressedPublicKey) (asset : Hash) (e : Echange) (a : ChainAccount)
    (s : ChainState) : ChainState :=
  put_account key (mkAccount a.(a_nonce) (<[asset := e]> a.(a_assets))) s.
Definition sender_echange (key : CompressedPublicKey) (asset : Hash) (s : ChainState) : option Echange :=
  s.(accounts) !! key ≫= fun a => a.(a_assets) !! asset.

Definition internal_get_sender_verification_balance (key : CompressedPublicKey) (asset : Hash) (reference : Reference)
  : stm ChainState blockchain_error CiphertextCache :=
  s ← st_get;
  '(account, echange) ← lift_res
    match s.(accounts) !! key with
    | Some account =>
        match account.(a_assets) !! asset with
        | Some echange => Ok (account, echange)
        | None =>
            echange ← create_sender_echange s.(storage) key asset s.(topoheight) reference;
            Ok (account, echange)
        end
    | None =>
        account ← create_sender_account key s.(storage) s.(topoheight);
        echange ← create_sender_echange s.(storage) key asset s.(topoheight) reference;
        Ok (account, echange)
    end;
  let '(ct, echange) := get_balance echange in
  _ ← st_modify (put_echange key asset echange account);
  mret ct.

(** [computable] on the balance the reference points to. *)
Definition get_sender (key : CompressedPublicKey) (asset : Hash) (reference : Reference)
  : stm ChainState blockchain_error Ciphertext :=
  ct ← internal_get_sender_verification_balance key asset reference;
  '(c, k) ← lift_res (map_err BlockchainError.DecompressionError (computable ct));
  _ ← st_modify (fun s =>
    match s.(accounts) !! key, sender_echange key asset s with
    | Some a, Some e => put_echange key asset (put_balance k e) a s
    | _, _ => s
    end);
  mret c.

Definition set_sender (key : CompressedPublicKey) (asset : Hash) (c : Ciphertext) (s : ChainState) : ChainState :=
  match s.(accounts) !! key, sender_echange key asset s with
  | Some a, Some e =>
      put_echange key asset
        (put_balance (put_computable c (select_balance (selects_output e) e.(e_version)).1) e) a s
  | _, _ => s
  end.

Definition internal_update_sender_echange (key : CompressedPublicKey) (asset : Hash) (new_ct : Ciphertext)
  : stm ChainState blockchain_error () :=
  s ← st_get;
  match s.(accounts) !! key, sender_echange key asset s with
  | Some a, Some change => st_modify (put_echange key asset (add_output_to_sum new_ct change) a)
  | _, _ => st_err (BlockchainError.NoTxSender (as_address key (is_mainnet s.(storage))))
  end.

Definition internal_get_account_nonce (key : CompressedPublicKey) : stm ChainState blockchain_error Z :=
  s ← st_get;
  match s.(accounts) !! key with
  | Some account => mret account.(a_nonce).(vn_nonce)
  | None =>
      account ← lift_res (create_sender_account key s.(storage) s.(topoheight));
      _ ← st_modify (put_account key account);
      mret account.(a_nonce).(vn_nonce)
  end.

Definition internal_update_account_nonce (key : CompressedPublicKey) (new_nonce : Z)
  : stm ChainState blockchain_error () :=
  s ← st_get;
  account ← match s.(accounts) !! key with
            | Some account => mret account
            | None => lift_res (create_sender_account key s.(storage) s.(topoheight))
            end;
  st_modify (put_account key (mkAccount (set_nonce new_nonce account.(a_nonce)) account.(a_assets))).

Definition reward_miner (miner : CompressedPublicKey) (reward : Z) : stm ChainState blockchain_error () :=
  miner_balance ← internal_get_receiver_balance miner XELIS_ASSET;
  st_modify (set_receiver miner XELIS_ASSET (ct_add_u64 miner_balance reward)).

(** [pre_verify_tx]: version, fees and reference. *)
Definition chain_pre_verify_tx (tx : Transaction) : stm ChainState blockchain_error () :=
  if negb (tx.(version) =? 0) then st_err BlockchainError.InvalidTxVersion
  else
    s ← st_get;
    required_fees ← lift_res (estimate_required_tx_fees s.(storage) s.(topoheight) tx);
    if tx.(fee) <? required_fees then st_err (BlockchainError.InvalidTxFee required_fees tx.(fee))
    else if s.(topoheight) <? tx.(reference).(ref_topoheight)
    then st_err BlockchainError.InvalidReferenceTopoheight
    else mret tt.

#[export] Instance chain_verification : BlockchainVerificationState ChainState blockchain_error := {|
  pre_verify_tx := chain_pre_verify_tx;
  get_receiver_balance := internal_get_receiver_balance;
  set_receiver_balance := set_receiver;
  get_sender_balance := get_sender;
  set_sender_balance := set_sender;
  add_sender_output := internal_update_sender_echange;
  get_account_nonce := internal_get_account_nonce;
  update_account_nonce := internal_update_account_nonce;
|}.

(** ** [apply_changes] *)

(** The version an asset of a sender ends with, given the version that already
    holds its incoming funds. *)
Definition merge_echange (key : CompressedPublicKey) (asset : Hash) (e : Echange)
    (incoming : option VersionedBalance) (storage : S) (topoheight : Z) : bres VersionedBalance :=
  match incoming with
  | Some final_version =>
      let final_version := set_balance_type BothB final_version in
      let output_balance := take_balance_with e.(output_balance_used) e.(e_version) in
      let final_version := set_output_balance (Some output_balance) final_version in
      '(c, final_version) ← computable_version final_version;
      Ok (Account.set_balance (put_computable (ct_sub c e.(output_sum)) final_version.(final_balance)) final_version)
  | None =>
      version ←
        (if e.(output_balance_used) || negb e.(new_version) then
           version ← get_new_versioned_balance storage key asset topoheight;
           '(c, version) ← computable_version version;
           Ok (Account.set_balance (put_computable (ct_sub c e.(output_sum)) version.(final_balance)) version)
         else Ok e.(e_version));
      Ok (set_balance_type OutputB version)
  end.

Definition apply_sender (p : CompressedPublicKey * ChainAccount) : stm ChainState blockchain_error () :=
  let '(key, account) := p in
  s ← st_get;
  _ ← on_storage (set_last_nonce_to key s.(topoheight) account.(a_nonce));
  _ ← st_modify (open_receiver key);
  foldMs (fun _ '(asset, echange) =>
    s ← st_get;
    version ← lift_res (merge_echange key asset echange (receiver_version key asset s) s.(storage) s.(topoheight));
    st_modify (put_receiver key asset version)) tt (hm_iter account.(a_assets)).

Definition apply_receiver (p : CompressedPublicKey * gmap Hash VersionedBalance)
  : stm ChainState blockchain_error () :=
  let '(account, balances) := p in
  s ← st_get;
  _ ← foldMs (fun _ '(asset, version) =>
        on_storage (set_last_balance_to account asset s.(topoheight) version)) tt (hm_iter balances);
  s ← st_get;
  _ ← match s.(accounts) !! account with
      | Some _ => mret tt
      | None =>
          b ← lift_res (has_nonce s.(storage) account);
          if negb b then on_storage (set_last_nonce_to account s.(topoheight) (mkVNonce 0 None)) else mret tt
      end;
  s ← st_get;
  b ← lift_res (is_account_registered_below_topoheight s.(storage) account s.(topoheight));
  if negb b then on_storage (set_account_registration_topoheight account s.(topoheight)) else mret tt.

Definition apply_changes : stm ChainState blockchain_error () :=
  s ← st_get;
  _ ← foldMs (fun _ p => apply_sender p) tt (hm_iter s.(accounts));
  s ← st_get;
  foldMs (fun _ p => apply_receiver p) tt (hm_iter s.(receiver_balances)).
End ChainState.
