(* ===== verification/BlockCheck.v ===== *)
(** The checks of a received block: the first half of
    [add_new_block_for_storage] of [core/blockchain.rs], with the difficulty at
    the tips and the proof of work.

    [check_block] is the sequence of the checks, in the order of the code;
    [accepted_block] says what an accepted block obeys. *)

From S2P Require Import Prelude External ExternalModel ExternalCrypto Serializer Hash Defaults VarUint Difficulty Elgamal Proofs Transaction Verify Block Errors Dag Account Providers DagOrder DagWalks BlockProviders ChainState.

(** ** Constants and configuration ([network.rs], [config.rs]) *)

Inductive Network := Mainnet | Testnet | Dev.
Definition is_mainnet_network (n : Network) : bool := match n with Mainnet => true | _ => false end.

Definition TIMESTAMP_IN_FUTURE_LIMIT : Z := 2 * 1000.
Definition MAX_BLOCK_SIZE : nat := N.to_nat (1024 * 1024 + 256 * 1024).
Definition MAX_TRANSACTION_SIZE : nat := N.to_nat (1024 * 1024).

Section Constants.
Context {UL : U256Lib}.
Definition GENESIS_BLOCK_DIFFICULTY : VarUint.t := VarUint.from_u64 1.
Definition MAINNET_MINIMUM_DIFFICULTY : VarUint.t := VarUint.from_u64 (Difficulty.BLOCK_TIME_MILLIS * 20).
Definition OTHER_MINIMUM_DIFFICULTY : VarUint.t := VarUint.from_u64 (Difficulty.BLOCK_TIME_MILLIS * 2).
Definition get_minimum_difficulty (network : Network) : VarUint.t :=
  match network with
  | Mainnet => MAINNET_MINIMUM_DIFFICULTY
  | _ => OTHER_MINIMUM_DIFFICULTY
  end.
End Constants.

(** The fields of [Blockchain] the checks read. *)
Record Blockchain := mkBlockchain {
  bc_height : Z;
  bc_topoheight : Z;
  bc_stable_height : Z;
  bc_network : Network;
  bc_simulator : bool;
  bc_skip_pow_verification : bool;
}.

Definition get_version_at_height (_height : Z) : Z := 0.

(** [if b { return Err(e) }] *)
Definition reject_if (b : bool) (e : blockchain_error) : bres () := if b then Err e else Ok tt.

Section Check.
Context {UL : U256Lib} {IS : IndexSetLib Hash} {B3 : Blake3} {XH : XelisHashLib}.
Context {CV : Curve} {ML : Merlin} {RP : RangeProofLib} {HM : HashMapIter}.
Context {S : Type} {SP : Storage S} {DP : DifficultyProvider S} {CP : ClientProtocolProvider S} {BP : BlockProvider S}.

(** ** The difficulty *)

Definition MAX_DEVIATION : VarUint.t := VarUint.from_u64 91.
Definition PERCENTAGE : VarUint.t := VarUint.from_u64 100.

Definition validate_tips (provider : S) (best_tip tip : Hash) : bres bool :=
  best_difficulty ← get_difficulty_for_block_hash provider best_tip;
  block_difficulty ← get_difficulty_for_block_hash provider tip;
  scaled ← VarUint.mul best_difficulty MAX_DEVIATION;
  minimum ← VarUint.div scaled PERCENTAGE;
  Ok (VarUint.ltb minimum block_difficulty).

Definition get_difficulty_at_tips (self : Blockchain) (provider : S) (tips : list Hash) : bres (VarUint.t * VarUint.t) :=
  if (length tips =? 0)%nat then Ok (GENESIS_BLOCK_DIFFICULTY, Difficulty.P)
  else
    height ← calculate_height_at_tips provider tips;
    if (height <=? 1) || self.(bc_simulator) then Ok (get_minimum_difficulty self.(bc_network), Difficulty.P)
    else
      best_tip ← find_best_tip_by_cumulative_difficulty provider tips;
      biggest_difficulty ← get_difficulty_for_block_hash provider best_tip;
      '(_, newest_tip_timestamp) ← find_newest_tip_by_timestamp provider tips;
      parent_tips ← get_past_blocks_for_block_hash provider best_tip;
      '(_, parent_newest_tip_timestamp) ← find_newest_tip_by_timestamp provider (iset_list parent_tips);
      p ← get_estimated_covariance_for_block_hash provider best_tip;
      Difficulty.calculate_difficulty parent_newest_tip_timestamp newest_tip_timestamp biggest_difficulty p
        (get_minimum_difficulty self.(bc_network)).

Definition verify_proof_of_work (self : Blockchain) (provider : S) (hash : Hash) (tips : list Hash)
  : bres (VarUint.t * VarUint.t) :=
  '(difficulty, p) ← get_difficulty_at_tips self provider tips;
  valid ← map_err BlockchainError.DifficultyError (check_difficulty hash difficulty);
  if (valid : bool) then Ok (difficulty, p) else Err BlockchainError.InvalidDifficulty.

(** ** The transactions executed above a height *)

(** The transactions of one block that it executed. *)
Definition add_executed_txs (provider : S) (hash : Hash) (hashes : gset Hash) (txs : list Hash) : bres (gset Hash) :=
  foldM (fun hashes tx =>
    if decide (tx ∈ hashes) then Ok hashes
    else
      executed ← is_tx_executed_in_block provider tx hash;
      Ok (if (executed : bool) then {[tx]} ∪ hashes else hashes)) hashes txs.

(** The tips that were not queued by another block. *)
Definition queue_tips (processed queue : iset Hash) (tips : list Hash) : iset Hash * iset Hash :=
  foldl (fun '(processed, queue) tip =>
    if iset_contains tip processed then (processed, queue)
    else ((iset_insert tip processed).2, (iset_insert tip queue).2)) (processed, queue) tips.

Fixpoint executed_txs_loop (fuel : nat) (provider : S) (until_height : Z) (hashes : gset Hash) (queue processed : iset Hash)
  : bres (gset Hash) :=
  match iset_pop queue with
  | None => Ok hashes
  | Some (hash, queue) =>
      match fuel with
      | O => Diverge
      | Datatypes.S fuel =>
          block ← get_block_header_by_hash provider hash;
          if until_height <? block.(bh_height) then
            hashes ← add_executed_txs provider hash hashes (iset_list block.(bh_txs_hashes));
            let '(processed, queue) := queue_tips processed queue (iset_list block.(bh_tips)) in
            executed_txs_loop fuel provider until_height hashes queue processed
          else executed_txs_loop fuel provider until_height hashes queue processed
      end
  end.

Definition get_all_executed_txs_until_height (fuel : nat) (provider : S) (until_height : Z) (tips : list Hash)
  : bres (gset Hash) :=
  executed_txs_loop fuel provider until_height ∅ (iset_extend iset_new tips) iset_new.

(** ** The header *)

(** The checks that need no other block. *)
Definition check_form (self : Blockchain) (storage : S) (block : Block) (current_timestamp : Z) : bres () :=
  let h := block.(header) in
  let block_hash := header_hash h in
  let tips_count := iset_len h.(bh_tips) in
  _ ← reject_if (negb (h.(bh_version) =? get_version_at_height h.(bh_height))) BlockchainError.InvalidBlockVersion;
  has_block ← has_block_with_hash storage block_hash;
  _ ← reject_if has_block BlockchainError.AlreadyInChain;
  _ ← reject_if (u64_add current_timestamp TIMESTAMP_IN_FUTURE_LIMIT <? h.(bh_timestamp))
        (BlockchainError.TimestampIsInFuture current_timestamp h.(bh_timestamp));
  _ ← reject_if (TIPS_LIMIT <? tips_count)%nat (BlockchainError.InvalidTipsCount block_hash (Z.of_nat tips_count));
  _ ← reject_if ((tips_count =? 0)%nat && negb (self.(bc_height) =? 0)) BlockchainError.ExpectedTips;
  _ ← reject_if ((0 <? tips_count)%nat && (h.(bh_height) =? 0)) BlockchainError.BlockHeightZeroNotAllowed;
  _ ← reject_if ((tips_count =? 0)%nat && negb (h.(bh_height) =? 0))
        (BlockchainError.InvalidTipsCount block_hash (Z.of_nat tips_count));
  reject_if (MAX_BLOCK_SIZE <? size block)%nat
    (BlockchainError.InvalidBlockSize (Z.of_nat MAX_BLOCK_SIZE) (Z.of_nat (size block))).

(** The checks of one tip. *)
Definition check_tip (fuel : nat) (self : Blockchain) (storage : S) (h : BlockHeader) (hash : Hash) : bres () :=
  previous_timestamp ← get_timestamp_for_block_hash storage hash;
  _ ← reject_if (h.(bh_timestamp) <? previous_timestamp) (BlockchainError.TimestampIsLessThanParent h.(bh_timestamp));
  distance ← calculate_distance_from_mainchain fuel storage hash;
  reject_if ((distance <=? self.(bc_height)) && (STABLE_LIMIT <=? u64_sub self.(bc_height) distance))
    BlockchainError.BlockDeviation.

(** The checks against the tips. *)
Definition check_tips (fuel : nat) (self : Blockchain) (storage : S) (block : Block) : bres () :=
  let h := block.(header) in
  let block_hash := header_hash h in
  let tips := iset_list h.(bh_tips) in
  let tips_count := iset_len h.(bh_tips) in
  _ ← foldM (fun _ tip =>
        present ← has_block_with_hash storage tip;
        reject_if (negb present) (BlockchainError.InvalidTipsNotFound block_hash tip)) tt tips;
  block_height_by_tips ← calculate_height_at_tips storage tips;
  _ ← reject_if (negb (block_height_by_tips =? h.(bh_height)))
        (BlockchainError.InvalidBlockHeight block_height_by_tips h.(bh_height));
  _ ← reject_if ((0 <? tips_count)%nat && (block_height_by_tips <? self.(bc_stable_height)))
        BlockchainError.InvalidBlockHeightStableHeight;
  non_reachable ← verify_non_reachability fuel storage h.(bh_tips);
  _ ← reject_if (negb non_reachable) BlockchainError.InvalidReachability;
  _ ← foldM (fun _ hash => check_tip fuel self storage h hash) tt tips;
  if (1 <? tips_count)%nat then
    best_tip ← find_best_tip_by_cumulative_difficulty storage tips;
    foldM (fun _ hash =>
      if decide (best_tip <> hash) then
        valid ← validate_tips storage best_tip hash;
        reject_if (negb valid) (BlockchainError.InvalidTipsDifficulty block_hash hash)
      else Ok tt) tt tips
  else Ok tt.

(** The proof of work. *)
Definition check_pow (self : Blockchain) (storage : S) (block : Block) : bres (VarUint.t * VarUint.t) :=
  pow_hash ← (if self.(bc_skip_pow_verification) then Ok HashOps.zero
              else map_err (fun _ => BlockchainError.POWHashError) (get_pow_hash block.(header)));
  verify_proof_of_work self storage pow_hash (iset_list block.(header).(bh_tips)).

(** ** The transactions *)

(** A transaction of the block: is it to be verified?  The set of the
    transactions executed by the tips is computed at its first use. *)
Definition check_tx (fuel : nat) (self : Blockchain) (storage : S) (block : Block)
    (acc : option (gset Hash) * list Transaction) (p : Transaction * Hash) : bres (option (gset Hash) * list Transaction) :=
  let '(all_parents_txs, batch) := acc in
  let '(tx, hash) := p in
  _ ← reject_if (MAX_TRANSACTION_SIZE <? size tx)%nat
        (BlockchainError.TxTooBig (Z.of_nat (size tx)) (Z.of_nat MAX_TRANSACTION_SIZE));
  _ ← reject_if (negb (bool_decide (tx_hash tx = hash))) (BlockchainError.InvalidTxInBlock (tx_hash tx));
  executed ← is_tx_executed_in_a_block storage hash;
  if (executed : bool) then
    block_executed ← get_block_executor_for_tx storage hash;
    block_height ← get_height_for_block_hash storage block_executed;
    if block_height <=? self.(bc_stable_height) then Err (BlockchainError.DeadTx (tx_hash tx))
    else
      txs ← match all_parents_txs with
            | Some txs => Ok txs
            | None => get_all_executed_txs_until_height fuel storage self.(bc_stable_height)
                        (iset_list block.(header).(bh_tips))
            end;
      if decide (tx_hash tx ∈ txs) then Err (BlockchainError.DeadTx (tx_hash tx))
      else Ok (Some txs, batch)
  else Ok (all_parents_txs, batch ++ [tx]).

Definition check_txs (fuel : nat) (self : Blockchain) (storage : S) (block : Block) (rnd : nat -> scalar) : bres () :=
  let hashes := iset_list block.(header).(bh_txs_hashes) in
  _ ← reject_if (negb (length hashes =? length block.(transactions))%nat)
        (BlockchainError.InvalidBlockTxs (Z.of_nat (length hashes)) (Z.of_nat (length block.(transactions))));
  '(_, batch) ← foldM (check_tx fuel self storage block) (None, []) (zip block.(transactions) hashes);
  map_err from_verification_error
    (verify_batch (St:=ChainState (S:=S)) (E:=blockchain_error) batch rnd (chain_with storage self.(bc_topoheight))).1.

(** ** The whole check: the difficulty the block is saved with *)
Definition check_block (fuel : nat) (self : Blockchain) (storage : S) (block : Block) (current_timestamp : Z)
    (rnd : nat -> scalar) : bres (VarUint.t * VarUint.t) :=
  _ ← check_form self storage block current_timestamp;
  _ ← check_tips fuel self storage block;
  difficulty ← check_pow self storage block;
  _ ← check_txs fuel self storage block rnd;
  Ok difficulty.
End Check.

(** ** The transactions executed above a height *)
Section Executed.
Context {UL : U256Lib} {IS : IndexSetLib Hash} {CV : Curve}.
Context {S : Type} {SP : Storage S} {DP : DifficultyProvider S} {DL : DifficultyProviderLaws S}.
Context {BH : BlocksAtHeightProvider S} {PR : PrunedTopoheightProvider S} {CP : ClientProtocolProvider S}.

(** The blocks from the tips down to the height, which is excluded. *)
Inductive block_above (v : DagView) (until_height : Z) (tips : list Hash) : Hash -> Prop :=
  | above_tip x : x ∈ tips -> until_height < v_height v x -> block_above v until_height tips x
  | above_past x t : block_above v until_height tips x -> t ∈ v_tips v x -> until_height < v_height v t ->
      block_above v until_height tips t.

Definition v_txs (v : DagView) (h : Hash) : list Hash :=
  match v.(v_header) h with Some b => iset_list b.(bh_txs_hashes) | None => [] end.

(** What the walk asks of the execution records. *)
Definition records_readable (storage : S) : Prop :=
  forall tx block, is_ok (is_tx_executed_in_block storage tx block) = true.

Definition executed_above (storage : S) (v : DagView) (until_height : Z) (tips : list Hash) (tx : Hash) : Prop :=
  exists x, block_above v until_height tips x /\ tx ∈ v_txs v x /\ is_tx_executed_in_block storage tx x = Ok true.

Context (storage : S) (v : DagView) (Hv : view_of storage v) (Hrec : records_readable storage).
Context (until_height : Z) (tips : list Hash) (Htips : Forall (stored v) tips).

Lemma add_executed_txs_run x txs hashes :
  exists hashes', add_executed_txs storage x hashes txs = Ok hashes' /\
    forall tx, tx ∈ hashes' <-> tx ∈ hashes \/ tx ∈ txs /\ is_tx_executed_in_block storage tx x = Ok true.
Proof using Hrec.
  clear Hv Htips. revert hashes. induction txs as [|tx txs IH]; intros hashes; cbn [add_executed_txs foldM].
  { exists hashes. split; [done|]. intros tx. split; [by left|]. by intros [?|[?%not_elem_of_nil _]]. }
  unfold add_executed_txs in IH. case_decide as Hin; cbn [mbind res_bind].
  { destruct (IH hashes) as (hashes' & -> & Hel). exists hashes'. split; [done|]. intros tx'. rewrite Hel, list.elem_of_cons.
    split; [tauto|]. intros [?|[[->|?] ?]]; tauto. }
  specialize (Hrec tx x) as Hr. destruct (is_tx_executed_in_block storage tx x) as [e| | |] eqn:Ee; try done. cbn [mbind res_bind].
  destruct (IH (if e then {[tx]} ∪ hashes else hashes)) as (hashes' & -> & Hel). exists hashes'. split; [done|].
  intros tx'. rewrite Hel, list.elem_of_cons. destruct e; rewrite ?elem_of_union, ?elem_of_singleton; split.
  - intros [[->|?]|[? ?]]; tauto.
  - intros [?|[[->|?] ?]]; tauto.
  - tauto.
  - intros [?|[[->|?] ?]]; [tauto|congruence|tauto].
Qed.

Lemma queue_tips_run (size : Hash -> nat) l processed queue :
  exists processed' queue', queue_tips processed queue l = (processed', queue') /\
    (forall x, x ∈ iset_list processed' <-> x ∈ iset_list processed \/ x ∈ l) /\
    (forall x, x ∈ iset_list queue' <-> x ∈ iset_list queue \/ x ∈ l /\ x ∉ iset_list processed) /\
    (sum_list_with size (iset_list queue') <= sum_list_with size (iset_list queue) + sum_list_with size l)%nat.
Proof.
  clear Hv Htips Hrec. revert processed queue. induction l as [|t l IH]; intros processed queue; cbn [queue_tips foldl].
  { exists processed, queue. split_and!; [done|set_solver|set_solver|cbn; lia]. }
  destruct (decide (t ∈ iset_list processed)) as [Hin|Hin].
  - assert (iset_contains t processed = true) as -> by by apply bool_decide_eq_true_2.
    destruct (IH processed queue) as (p' & q' & E & Hp & Hq & Hs).
    unfold queue_tips in E. rewrite E.
    exists p', q'. split; [done|]. split; [set_solver|]. split; [|cbn; lia]. intros x. rewrite Hq. set_solver.
  - assert (iset_contains t processed = false) as -> by by apply bool_decide_eq_false_2.
    destruct (IH (iset_insert t processed).2 (iset_insert t queue).2) as (p' & q' & E & Hp & Hq & Hs).
    unfold queue_tips in E. rewrite E.
    exists p', q'. split; [done|]. split; [intros x; rewrite Hp, iset_insert_elem; set_solver|]. split.
    + intros x. rewrite Hq, !iset_insert_elem. rewrite list.elem_of_cons.
      destruct (decide (x = t)) as [->|]; [|tauto]. tauto.
    + cbn [sum_list_with]. destruct (iset_insert_spec t queue) as [_ Ei]. rewrite Ei in Hs. case_decide; [lia|].
      rewrite sum_list_with_app in Hs. cbn in Hs. lia.
Qed.

(** The invariant of the walk; [seen] are the blocks taken from the queue. *)
Record executed_inv (seen : Hash -> Prop) (hashes : gset Hash) (queue processed : iset Hash) : Prop := {
  ex_queue x : x ∈ iset_list queue -> stored v x /\ (until_height < v_height v x -> block_above v until_height tips x);
  ex_hashes tx : tx ∈ hashes -> executed_above storage v until_height tips tx;
  ex_processed x : x ∈ iset_list processed -> seen x \/ x ∈ iset_list queue;
  ex_tips x : x ∈ tips -> seen x \/ x ∈ iset_list queue;
  ex_seen x : seen x -> until_height < v_height v x ->
    (forall t, t ∈ v_tips v x -> t ∈ iset_list processed) /\
    forall tx, tx ∈ v_txs v x -> is_tx_executed_in_block storage tx x = Ok true -> tx ∈ hashes;
}.

Lemma iset_pop_cases (s : iset Hash) :
  (iset_pop s = None /\ iset_list s = []) \/
  exists a s', iset_pop s = Some (a, s') /\ iset_list s = iset_list s' ++ [a].
Proof. pose proof (iset_pop_spec s) as Hp. destruct (iset_pop s) as [[a s']|]; [right; eauto|by left]. Qed.

Lemma executed_txs_run (size : Hash -> nat) fuel seen hashes queue processed :
  (forall x, (sum_list_with size (v_tips v x) < size x)%nat) ->
  (sum_list_with size (iset_list queue) <= fuel)%nat -> executed_inv seen hashes queue processed ->
  exists hashes' seen' queue' processed', executed_txs_loop fuel storage until_height hashes queue processed = Ok hashes' /\
    iset_list queue' = [] /\ executed_inv seen' hashes' queue' processed'.
Proof using Hv Hrec Htips DL.
  intros Hsize. revert seen hashes queue processed. induction fuel as [|fuel IH]; intros seen hashes queue processed Hf Hinv;
    cbn [executed_txs_loop]; destruct (iset_pop_cases queue) as [[-> Eq]|(x & q & -> & Eq)];
    [by exists hashes, seen, queue, processed | | by exists hashes, seen, queue, processed|].
  { rewrite Eq, sum_list_with_app in Hf. cbn in Hf. specialize (Hsize x). lia. }
  rewrite Eq, sum_list_with_app in Hf. cbn in Hf.
  destruct (ex_queue _ _ _ _ Hinv x) as [Hx Hab]; [rewrite Eq; set_solver|].
  destruct (stored_header storage v Hv x Hx) as (b & Eb & ->). cbn [mbind res_bind].
  assert (v_height v x = b.(bh_height)) as Eh by (unfold v_height; by rewrite Eb).
  assert (v_tips v x = iset_list b.(bh_tips)) as Et by (unfold v_tips; by rewrite Eb).
  assert (v_txs v x = iset_list b.(bh_txs_hashes)) as Etx by (unfold v_txs; by rewrite Eb).
  rewrite <- Eh, <- Et, <- Etx. specialize (Hsize x) as Hsx.
  destruct (Z.ltb_spec until_height (v_height v x)) as [Hlt|Hge].
  - destruct (add_executed_txs_run x (v_txs v x) hashes) as (hashes1 & -> & Hh1). cbn [mbind res_bind].
    destruct (queue_tips_run size (v_tips v x) processed q) as (p1 & q1 & -> & Hp1 & Hq1 & Hs1).
    apply (IH (fun y => seen y \/ y = x)); [lia|]. split.
    + intros y [Hy|[Hy _]]%Hq1; [apply (ex_queue _ _ _ _ Hinv); rewrite Eq; set_solver|].
      split; [by eapply view_tips_stored; [eapply view_is_wf|..]|]. intros Hhy. eapply above_past; [by apply Hab|done..].
    + intros tx [Htx|[Htx He]]%Hh1; [by apply (ex_hashes _ _ _ _ Hinv)|]. exists x. split; [by apply Hab|done].
    + intros y [Hy|Hy]%Hp1.
      * destruct (ex_processed _ _ _ _ Hinv y Hy) as [?|Hin]; [tauto|]. rewrite Eq in Hin.
        apply elem_of_app in Hin as [Hin| ->%list_elem_of_singleton]; [|tauto]. right. apply Hq1. by left.
      * destruct (decide (y ∈ iset_list processed)) as [Hin|]; [|right; apply Hq1; tauto].
        destruct (ex_processed _ _ _ _ Hinv y Hin) as [?|Hin']; [tauto|]. rewrite Eq in Hin'.
        apply elem_of_app in Hin' as [Hin'| ->%list_elem_of_singleton]; [|tauto]. right. apply Hq1. by left.
    + intros y Hy. destruct (ex_tips _ _ _ _ Hinv y Hy) as [?|Hin]; [tauto|]. rewrite Eq in Hin.
      apply elem_of_app in Hin as [Hin| ->%list_elem_of_singleton]; [|tauto]. right. apply Hq1. by left.
    + intros y [Hy| ->] Hhy.
      * destruct (ex_seen _ _ _ _ Hinv y Hy Hhy) as [H1 H2]. split; [intros t Ht; apply Hp1; left; by apply H1|].
        intros tx Htx He. apply Hh1. left. by apply H2.
      * split; [intros t Ht; apply Hp1; by right|]. intros tx Htx He. apply Hh1. by right.
  - apply (IH (fun y => seen y \/ y = x)); [lia|]. split.
    + intros y Hy. apply (ex_queue _ _ _ _ Hinv). rewrite Eq. set_solver.
    + apply (ex_hashes _ _ _ _ Hinv).
    + intros y Hy. destruct (ex_processed _ _ _ _ Hinv y Hy) as [?|Hin]; [tauto|]. rewrite Eq in Hin. set_solver.
    + intros y Hy. destruct (ex_tips _ _ _ _ Hinv y Hy) as [?|Hin]; [tauto|]. rewrite Eq in Hin. set_solver.
    + intros y [Hy| ->] Hhy; [by apply (ex_seen _ _ _ _ Hinv)|lia].
Qed.

(** Exactly the transactions executed between the tips and the height. *)
Lemma get_all_executed_run :
  exists k txs, (forall tx, tx ∈ txs <-> executed_above storage v until_height tips tx) /\
    forall fuel, (k <= fuel)%nat -> get_all_executed_txs_until_height fuel storage until_height tips = Ok txs.
Proof using Hv Hrec Htips DL.
  destruct (tree_sizes (v_tips v) (fun h => Z.to_nat (v_height v h))) as [size Hsize].
  { intros x t Ht. rewrite <- (tips_of_view storage v Hv) in Ht. by eapply (dag_of_view storage v Hv). }
  set (k := sum_list_with size (iset_list (iset_extend iset_new tips))).
  assert (forall fuel, (k <= fuel)%nat -> exists txs, get_all_executed_txs_until_height fuel storage until_height tips = Ok txs /\
    forall tx, tx ∈ txs <-> executed_above storage v until_height tips tx) as Hall.
  { intros fuel Hf. destruct (executed_txs_run size fuel (fun _ => False) ∅ (iset_extend iset_new tips) iset_new Hsize Hf)
      as (txs & seen & q & p & E & Eq & Hinv).
    - split; try set_solver.
      + intros x Hx. apply iset_extend_elem in Hx as [Hx|Hx]; [rewrite iset_new_spec in Hx; set_solver|].
        rewrite list.Forall_forall in Htips. split; [by apply Htips|]. by intros; apply above_tip.
      + intros x Hx. rewrite iset_new_spec in Hx. set_solver.
      + intros x Hx. right. apply iset_extend_elem. by right.
    - exists txs. split; [exact E|]. intros tx. split; [apply (ex_hashes _ _ _ _ Hinv)|].
      intros (x & Hx & Htx & He). assert (seen x /\ until_height < v_height v x) as [Hs Hh]; [|by eapply (ex_seen _ _ _ _ Hinv)].
      clear Htx He. induction Hx as [x Hx Hh|x t _ [IH Hhx] Ht Hh]; (split; [|done]).
      + destruct (ex_tips _ _ _ _ Hinv x Hx) as [|Hin]; [done|]. rewrite Eq in Hin. by apply not_elem_of_nil in Hin.
      + destruct (ex_seen _ _ _ _ Hinv x IH Hhx) as [Hp _].
        destruct (ex_processed _ _ _ _ Hinv t (Hp t Ht)) as [|Hin]; [done|]. rewrite Eq in Hin. by apply not_elem_of_nil in Hin. }
  destruct (Hall k (le_n _)) as (txs & _ & Htxs). exists k, txs. split; [done|]. intros fuel Hf.
  destruct (Hall fuel Hf) as (txs' & -> & Htxs'). f_equal. apply set_eq. intros tx. by rewrite Htxs, Htxs'.
Qed.
End Executed.

(** ** What an accepted block obeys *)
Section Accepted.
Context {UL : U256Lib} {IS : IndexSetLib Hash} {B3 : Blake3} {XH : XelisHashLib}.
Context {CV : Curve} {ML : Merlin} {RP : RangeProofLib} {HM : HashMapIter}.
Context {S : Type} {SP : Storage S} {DP : DifficultyProvider S} {DL : DifficultyProviderLaws S}.
Context {BH : BlocksAtHeightProvider S} {PR : PrunedTopoheightProvider S}.
Context {CP : ClientProtocolProvider S} {BP : BlockProvider S}.

(** The storage knows which blocks it has. *)
Definition shows_blocks (storage : S) (v : DagView) : Prop :=
  forall h, has_block_with_hash storage h = Ok (bool_decide (is_Some (v.(v_header) h))).

Definition block_tips (block : Block) : list Hash := iset_list block.(header).(bh_tips).

(** The header: its version, its time, its size, its place above its tips. *)
Record valid_header (self : Blockchain) (v : DagView) (now : Z) (block : Block) : Prop := {
  vh_version : block.(header).(bh_version) = 0;
  vh_new : ~ stored v (header_hash block.(header));
  vh_time : block.(header).(bh_timestamp) <= now + TIMESTAMP_IN_FUTURE_LIMIT;
  vh_size : (size block <= MAX_BLOCK_SIZE)%nat;
  vh_tips_count : (length (block_tips block) <= TIPS_LIMIT)%nat;
  vh_tips_stored t : t ∈ block_tips block -> stored v t;
  vh_genesis : block_tips block = [] -> block.(header).(bh_height) = 0 /\ self.(bc_height) = 0;
  vh_height : block_tips block <> [] ->
    (forall t, t ∈ block_tips block -> v_height v t < block.(header).(bh_height)) /\
    (exists t, t ∈ block_tips block /\ block.(header).(bh_height) = v_height v t + 1) /\
    self.(bc_stable_height) <= block.(header).(bh_height);
}.

(** The tips: independent, older, close to the main chain, of similar
    difficulty. *)
Record valid_tips (self : Blockchain) (storage : S) (v : DagView) (block : Block) : Prop := {
  vt_unreachable a c : a ∈ block_tips block -> c ∈ block_tips block -> a <> c ->
    v_height v a <= v_height v c + LEVEL_LIMIT -> ~ rtc (past_step storage) a c;
  vt_older t b : t ∈ block_tips block -> v.(v_header) t = Some b -> b.(bh_timestamp) <= block.(header).(bh_timestamp);
  vt_near t : t ∈ block_tips block -> exists distance,
    (is_Some (v.(v_topo) t) -> distance = v_height v t) /\
    (v.(v_topo) t = None -> (distance = u64_max \/ frontier_height storage t distance) /\
       forall h, frontier_height storage t h -> distance <= h) /\
    self.(bc_height) < distance + STABLE_LIMIT;
  vt_difficulty : (1 < length (block_tips block))%nat -> exists best, best ∈ block_tips block /\
    (forall t, t ∈ block_tips block -> VarUint.val (v.(v_cumulative) t) <= VarUint.val (v.(v_cumulative) best)) /\
    forall t, t ∈ block_tips block -> t <> best ->
      VarUint.val (v.(v_difficulty) best) * 91 / 100 < VarUint.val (v.(v_difficulty) t);
}.

(** The work: the proof-of-work hash is under the target of the difficulty at
    the tips. *)
Definition valid_work (self : Blockchain) (storage : S) (block : Block) (difficulty p : VarUint.t) : Prop :=
  get_difficulty_at_tips self storage (block_tips block) = Ok (difficulty, p) /\
  (self.(bc_skip_pow_verification) = false -> exists h, get_pow_hash block.(header) = Ok h /\
     hash_val h * VarUint.val difficulty <= 2 ^ 256 - 1).

Definition to_verify (storage : S) (tx : Transaction) : bool :=
  match is_tx_executed_in_a_block storage (tx_hash tx) with Ok false => true | _ => false end.

(** The transactions: those of the header, none executed in stable height or
    under the tips, and the others valid together on the state of the chain. *)
Record valid_txs (self : Blockchain) (storage : S) (v : DagView) (block : Block) (rnd : nat -> scalar) : Prop := {
  vx_hashes : tx_hash <$> block.(transactions) = iset_list block.(header).(bh_txs_hashes);
  vx_size tx : tx ∈ block.(transactions) -> (size tx <= MAX_TRANSACTION_SIZE)%nat;
  vx_dead tx : tx ∈ block.(transactions) -> to_verify storage tx = false ->
    (exists executor h, get_block_executor_for_tx storage (tx_hash tx) = Ok executor /\
       get_height_for_block_hash storage executor = Ok h /\ self.(bc_stable_height) < h) /\
    ~ executed_above storage v self.(bc_stable_height) (block_tips block) (tx_hash tx);
  vx_verified : (verify_batch (St:=ChainState (S:=S)) (E:=blockchain_error)
    (filter (fun tx => to_verify storage tx = true) block.(transactions)) rnd
    (chain_with storage self.(bc_topoheight))).1 = Ok tt;
}.

(** *** Each group of checks *)

Lemma reject_if_ok b e u : reject_if b e = Ok u -> b = false.
Proof. by destruct b. Qed.

Lemma foldM_unit_ok {A} (f : A -> bres ()) l u : foldM (fun _ x => f x) tt l = Ok u -> forall x, x ∈ l -> f x = Ok tt.
Proof.
  induction l as [|a l IH]; cbn [foldM]; [intros _ x Hx; by apply not_elem_of_nil in Hx|].
  intros ([] & Ha & Hl)%res_bind_ok x [->|Hx]%list.elem_of_cons; [done|by apply IH].
Qed.

Lemma check_form_ok self storage v block now u :
  shows_blocks storage v -> in_u 64 (now + TIMESTAMP_IN_FUTURE_LIMIT) ->
  check_form self storage block now = Ok u ->
  block.(header).(bh_version) = 0 /\ ~ stored v (header_hash block.(header)) /\
  block.(header).(bh_timestamp) <= now + TIMESTAMP_IN_FUTURE_LIMIT /\ (size block <= MAX_BLOCK_SIZE)%nat /\
  (length (block_tips block) <= TIPS_LIMIT)%nat /\
  (block_tips block = [] -> block.(header).(bh_height) = 0 /\ self.(bc_height) = 0) /\
  (block_tips block <> [] -> block.(header).(bh_height) <> 0).
Proof.
  intros Hb Hnow. unfold check_form. change (iset_len (bh_tips (header block))) with (length (block_tips block)).
  intros (? & H1%reject_if_ok & H)%res_bind_ok. rewrite Hb in H. cbn [mbind res_bind] in H.
  apply res_bind_ok in H as (? & H2%reject_if_ok & H). apply res_bind_ok in H as (? & H3%reject_if_ok & H).
  apply res_bind_ok in H as (? & H4%reject_if_ok & H). apply res_bind_ok in H as (? & H5%reject_if_ok & H).
  apply res_bind_ok in H as (? & H6%reject_if_ok & H). apply res_bind_ok in H as (? & H7%reject_if_ok & H8%reject_if_ok).
  apply negb_false_iff, Z.eqb_eq in H1. apply bool_decide_eq_false in H2. rewrite u64_add_small in H3 by done.
  apply Z.ltb_ge in H3. apply Nat.ltb_ge in H4. apply Nat.ltb_ge in H8. split_and!; [done..| |].
  - intros E. rewrite E in H5, H7. cbn in H5, H7. apply negb_false_iff, Z.eqb_eq in H5, H7. done.
  - intros Hne. destruct (block_tips block); [done|]. cbn in H6. by apply Z.eqb_neq in H6.
Qed.

Section View.
Context (storage : S) (v : DagView) (Hv : view_of storage v) (Hb : shows_blocks storage v).

(** Enough fuel for the distances of all the tips. *)
Lemma distances_run (tips : list Hash) :
  Forall (stored v) tips ->
  exists k, forall fuel t, (k <= fuel)%nat -> t ∈ tips -> exists distance,
    calculate_distance_from_mainchain fuel storage t = Ok distance /\
    (is_Some (v.(v_topo) t) -> distance = v_height v t) /\
    (v.(v_topo) t = None -> (distance = u64_max \/ frontier_height storage t distance) /\
       forall h, frontier_height storage t h -> distance <= h).
Proof using Hv DL.
  induction 1 as [|t tips Ht _ [k1 IH]]; [exists 0%nat; intros fuel t _ ?%not_elem_of_nil; done|].
  assert (is_ok (is_block_topological_ordered storage t) = true) as Hself by (by rewrite (view_ordered _ _ Hv t)).
  destruct (distance_run storage (fun h => Z.to_nat (v_height v h)) t (dag_of_view storage v Hv)) as [k2 Hk2]; [|done|].
  { intros x Hx. apply (readable_tips_of_view storage v Hv). apply (stored_reach storage v Hv t); [done|].
    eapply rtc_subrel; [|exact Hx]. by intros ? ? [? _]. }
  exists (k1 + k2)%nat. intros fuel t' Hf [->|Ht']%list.elem_of_cons; [|apply IH; [lia|done]].
  destruct (Hk2 fuel ltac:(lia)) as [Hord Hun]. rewrite (view_ordered _ _ Hv t) in Hord, Hun.
  destruct (v_topo v t) as [topo|].
  - exists (v_height v t). rewrite Hord by (by rewrite bool_decide_eq_true_2).
    split; [by apply (stored_height storage v Hv)|]. split; [done|]. intros ?. done.
  - destruct Hun as (d & Hd & H1 & H2); [by rewrite bool_decide_eq_false_2 by (by intros [? ?])|].
    exists d. split; [done|]. split; [by intros [? ?]|]. intros _. by split.
Qed.

Lemma check_tip_ok fuel self h t distance u :
  stored v t -> in_u 64 self.(bc_height) -> 0 <= distance ->
  calculate_distance_from_mainchain fuel storage t = Ok distance ->
  check_tip fuel self storage h t = Ok u ->
  (forall b, v.(v_header) t = Some b -> b.(bh_timestamp) <= h.(bh_timestamp)) /\
  self.(bc_height) < distance + STABLE_LIMIT.
Proof using Hv DL.
  intros Ht Hh Hd Hdist. unfold check_tip. destruct (stored_header storage v Hv t Ht) as (b & Eb & Hget).
  rewrite timestamp_of_header, Hget, Hdist. cbn [mbind res_bind].
  intros (? & H1%reject_if_ok & H2%reject_if_ok)%res_bind_ok. apply Z.ltb_ge in H1. split; [congruence|].
  destruct (Z.leb_spec distance (bc_height self)); [|unfold STABLE_LIMIT; lia]. cbn in H2. apply Z.leb_gt in H2.
  rewrite u64_sub_small in H2 by (unfold in_u in *; lia). lia.
Qed.

Lemma validate_tips_ok best t :
  stored v best -> stored v t -> validate_tips storage best t = Ok true ->
  VarUint.val (v.(v_difficulty) best) * 91 / 100 < VarUint.val (v.(v_difficulty) t).
Proof using Hv.
  intros Hbest Ht. unfold validate_tips. rewrite (view_difficulty _ _ Hv best Hbest), (view_difficulty _ _ Hv t Ht).
  cbn [mbind res_bind]. intros (m & Hm & (q & Hq & Hlt)%res_bind_ok)%res_bind_ok.
  injection Hlt as Hlt%Z.ltb_lt. pose proof (VarUint.mul_val (E:=blockchain_error) (v_difficulty v best) MAX_DEVIATION) as Em.
  rewrite Hm in Em. case_decide; [|done]. injection Em as Em. unfold MAX_DEVIATION in Em. rewrite VarUint.val_from_u64 in Em by done.
  pose proof (VarUint.div_val (E:=blockchain_error) m PERCENTAGE) as Eq. rewrite Hq in Eq. unfold PERCENTAGE in Eq.
  rewrite VarUint.val_from_u64 in Eq by done. rewrite decide_False in Eq by done. injection Eq as Eq. by rewrite <- Em, <- Eq.
Qed.

(** The best of several tips. *)
Lemma best_tip_ok tips best :
  Forall (stored v) tips -> (1 < length tips)%nat -> find_best_tip_by_cumulative_difficulty storage tips = Ok best ->
  best ∈ tips /\ forall t, t ∈ tips -> VarUint.val (v.(v_cumulative) t) <= VarUint.val (v.(v_cumulative) best).
Proof using Hv.
  intros Hst Hlen E. rewrite list.Forall_forall in Hst.
  pose proof (find_best_tip_max storage tips (v_cumulative v) (fun h Hh => view_cumulative _ _ Hv h (Hst h Hh))
    ltac:(lia)) as Hbest.
  rewrite E in Hbest. destruct Hbest as (_ & l1 & l2 & -> & H1 & H2). split; [apply elem_of_app; right; left|].
  intros t [Ht|[->|Ht]%list.elem_of_cons]%elem_of_app; [specialize (H1 t Ht); lia|lia|by apply H2].
Qed.

Lemma check_tips_ok fuel self block u :
  in_u 64 self.(bc_height) ->
  check_tips fuel self storage block = Ok u ->
  Forall (stored v) (block_tips block) /\
  (block_tips block <> [] ->
    (forall t, t ∈ block_tips block -> v_height v t < block.(header).(bh_height)) /\
    (exists t, t ∈ block_tips block /\ block.(header).(bh_height) = v_height v t + 1) /\
    self.(bc_stable_height) <= block.(header).(bh_height)) /\
  verify_non_reachability fuel storage block.(header).(bh_tips) = Ok true /\
  (forall t, t ∈ block_tips block -> check_tip fuel self storage block.(header) t = Ok tt) /\
  ((1 < length (block_tips block))%nat -> exists best, best ∈ block_tips block /\
    (forall t, t ∈ block_tips block -> VarUint.val (v.(v_cumulative) t) <= VarUint.val (v.(v_cumulative) best)) /\
    forall t, t ∈ block_tips block -> t <> best ->
      VarUint.val (v.(v_difficulty) best) * 91 / 100 < VarUint.val (v.(v_difficulty) t)).
Proof using Hv Hb DL.
  intros Hh. unfold check_tips. change (iset_len (bh_tips (header block))) with (length (block_tips block)).
  change (iset_list (bh_tips (header block))) with (block_tips block).
  intros ([] & Hpresent & H)%res_bind_ok.
  assert (Forall (stored v) (block_tips block)) as Hst.
  { apply list.Forall_forall. intros t Ht. pose proof (foldM_unit_ok _ _ _ Hpresent t Ht) as Hp. cbn in Hp.
    rewrite Hb in Hp. cbn [mbind res_bind] in Hp. apply reject_if_ok, negb_false_iff, bool_decide_eq_true in Hp. done. }
  assert (forall t, t ∈ block_tips block -> stored v t /\ in_u 63 (v_height v t)) as Hst'.
  { intros t Ht. rewrite list.Forall_forall in Hst. split; [by apply Hst|]. apply (view_range _ (view_is_wf _ _ Hv)). by apply Hst. }
  destruct (height_above_tips storage (block_tips block) (v_height v)) as (n & En & Hn & Hor).
  { intros t Ht. apply (stored_height storage v Hv). by apply Hst'. }
  { intros t Ht. destruct (Hst' t Ht) as [_ Hr]. unfold in_u in Hr. lia. }
  rewrite En in H. cbn [mbind res_bind] in H.
  apply res_bind_ok in H as (? & H1%reject_if_ok & H). apply res_bind_ok in H as (? & H2%reject_if_ok & H).
  apply res_bind_ok in H as (nr & H3 & H). apply res_bind_ok in H as (? & H4%reject_if_ok & H).
  apply res_bind_ok in H as (? & H5 & H). apply negb_false_iff in H4 as ->. apply negb_false_iff, Z.eqb_eq in H1 as <-.
  split_and!; [done| |done| |].
  - intros Hne. split; [done|]. destruct Hor as [[E _]|?]; [done|]. split; [done|].
    destruct (block_tips block); [done|]. cbn in H2. by apply Z.ltb_ge in H2.
  - by apply (foldM_unit_ok _ _ _ H5).
  - intros Hlen. assert ((1 <? length (block_tips block))%nat = true) as E by by apply Nat.ltb_lt. rewrite E in H.
    apply res_bind_ok in H as (best & Hbest & H).
    destruct (best_tip_ok _ _ Hst Hlen Hbest) as [Hin Hmax]. exists best. split; [done|]. split; [done|].
    intros t Ht Hne. pose proof (foldM_unit_ok _ _ _ H t Ht) as Hval. cbn in Hval. rewrite decide_True in Hval by done.
    apply res_bind_ok in Hval as (ok & Hok & Hval%reject_if_ok%negb_false_iff). subst ok.
    apply validate_tips_ok; [by apply Hst'..|done].
Qed.

Lemma distance_pos t distance :
  stored v t -> (is_Some (v.(v_topo) t) -> distance = v_height v t) ->
  (v.(v_topo) t = None -> distance = u64_max \/ frontier_height storage t distance) -> 0 <= distance.
Proof using Hv DL.
  intros Ht H1 H2. destruct (v_topo v t) as [topo|].
  - rewrite H1 by done. by pose proof (view_range _ (view_is_wf _ _ Hv) t Ht) as [? _].
  - destruct (H2 eq_refl) as [->|(x & y & Hx & Hy & _ & Hg)]; [done|].
    assert (stored v y) as Hst.
    { rewrite (tips_of_view storage v Hv) in Hy. eapply view_tips_stored; [by eapply view_is_wf| |done].
      apply (stored_reach storage v Hv t); [done|]. eapply rtc_subrel; [|exact Hx]. by intros ? ? [? _]. }
    rewrite (stored_height storage v Hv y Hst) in Hg. injection Hg as <-.
    by pose proof (view_range _ (view_is_wf _ _ Hv) y Hst) as [? _].
Qed.

Lemma check_pow_ok self block difficulty p :
  check_pow self storage block = Ok (difficulty, p) -> valid_work self storage block difficulty p.
Proof.
  clear Hv Hb. unfold check_pow, verify_proof_of_work, valid_work.
  intros (h & Hh & ([d p'] & Hd & (ok & Hok & Hr)%res_bind_ok)%res_bind_ok)%res_bind_ok.
  destruct ok; [|done]. injection Hr as -> ->. split; [done|]. intros Hskip. rewrite Hskip in Hh.
  destruct (get_pow_hash (header block)) as [h'| | |]; try done. injection Hh as ->. exists h. split; [done|].
  rewrite check_difficulty_val in Hok. case_decide; [done|]. injection Hok as Hok. by apply bool_decide_eq_true in Hok.
Qed.

Section Txs.
Context (self : Blockchain) (block : Block) (fuel : nat) (executed : gset Hash).
Context (Hexec : get_all_executed_txs_until_height fuel storage self.(bc_stable_height) (block_tips block) = Ok executed).

(** What the check of one transaction guarantees. *)
Definition tx_checked (p : Transaction * Hash) : Prop :=
  (size p.1 <= MAX_TRANSACTION_SIZE)%nat /\ tx_hash p.1 = p.2 /\
  (to_verify storage p.1 = false ->
    (exists executor h, get_block_executor_for_tx storage (tx_hash p.1) = Ok executor /\
       get_height_for_block_hash storage executor = Ok h /\ self.(bc_stable_height) < h) /\ tx_hash p.1 ∉ executed).

Lemma check_tx_ok cached batch p cached' batch' :
  (forall txs, cached = Some txs -> txs = executed) ->
  check_tx fuel self storage block (cached, batch) p = Ok (cached', batch') ->
  tx_checked p /\ (forall txs, cached' = Some txs -> txs = executed) /\
  batch' = batch ++ (if to_verify storage p.1 then [p.1] else []).
Proof using Hexec.
  destruct p as [tx hash]. intros Hc. unfold check_tx, tx_checked, to_verify. cbn [fst snd].
  intros (? & H1%reject_if_ok & (? & H2%reject_if_ok & (e & He & H)%res_bind_ok)%res_bind_ok)%res_bind_ok.
  apply Nat.ltb_ge in H1. apply negb_false_iff, bool_decide_eq_true in H2. subst hash. rewrite He.
  destruct e.
  - apply res_bind_ok in H as (executor & Hx & (h & Hh & H)%res_bind_ok). destruct (Z.leb_spec h (bc_stable_height self)); [done|].
    apply res_bind_ok in H as (txs & Htxs & H).
    assert (txs = executed) as ->.
    { destruct cached as [c|]; [injection Htxs as <-; by apply Hc|]. change (iset_list (bh_tips (header block))) with (block_tips block) in Htxs.
      rewrite Hexec in Htxs. by injection Htxs. }
    case_decide; [done|]. injection H as <- <-. rewrite app_nil_r. split; [|split; [by intros txs [= <-]|done]].
    split_and!; [done|done|]. intros _. split; [|done]. exists executor, h. split_and!; [done|done|lia].
  - injection H as <- <-. split; [|split; done]. split_and!; [done|done|]. done.
Qed.

Lemma check_all_txs_ok l cached batch cached' batch' :
  (forall txs, cached = Some txs -> txs = executed) ->
  foldM (check_tx fuel self storage block) (cached, batch) l = Ok (cached', batch') ->
  Forall tx_checked l /\ batch' = batch ++ filter (fun tx => to_verify storage tx = true) l.*1.
Proof using Hexec.
  revert cached batch. induction l as [|p l IH]; intros cached batch Hc; cbn [foldM].
  { intros [= <- <-]. split; [constructor|]. cbn. by rewrite app_nil_r. }
  intros ([c1 b1] & H1 & H)%res_bind_ok. destruct (check_tx_ok _ _ _ _ _ Hc H1) as (Hp & Hc1 & ->).
  destruct (IH _ _ Hc1 H) as [Hl ->]. split; [by constructor|]. rewrite <- (assoc_L (++)). f_equal.
  csimpl. rewrite filter_cons. destruct (to_verify storage p.1); [by rewrite decide_True|by rewrite decide_False].
Qed.
End Txs.

Lemma check_txs_ok fuel self block rnd executed u :
  get_all_executed_txs_until_height fuel storage self.(bc_stable_height) (block_tips block) = Ok executed ->
  (forall tx, tx ∈ executed <-> executed_above storage v self.(bc_stable_height) (block_tips block) tx) ->
  check_txs fuel self storage block rnd = Ok u -> valid_txs self storage v block rnd.
Proof.
  clear Hv Hb. intros Hexec Hspec. unfold check_txs. intros (? & Hlen%reject_if_ok & ([c batch] & Hl & Hver)%res_bind_ok)%res_bind_ok.
  apply negb_false_iff, Nat.eqb_eq in Hlen. destruct u.
  apply (check_all_txs_ok self block fuel executed Hexec) in Hl as [Hall ->]; [|by intros ? [=]].
  rewrite fst_zip in Hver by lia. cbn [app] in Hver.
  assert (forall tx, tx ∈ transactions block -> tx_checked self executed (tx, tx_hash tx)) as Htx.
  { intros tx (i & Hi)%list_elem_of_lookup. rewrite list.Forall_forall in Hall.
    destruct (lookup_lt_is_Some_2 (iset_list (bh_txs_hashes (header block))) i) as [h Hh].
    { rewrite Hlen. by eapply lookup_lt_Some. }
    assert ((tx, h) ∈ zip (transactions block) (iset_list (bh_txs_hashes (header block)))) as Hin.
    { apply list_elem_of_lookup. exists i. apply lookup_zip_with_Some. eauto. }
    specialize (Hall _ Hin) as Ht. pose proof Ht as (_ & E & _). cbn in E. by rewrite E. }
  split.
  - apply list_eq. intros i. rewrite list_lookup_fmap.
    destruct (transactions block !! i) as [tx|] eqn:Ei.
    + destruct (lookup_lt_is_Some_2 (iset_list (bh_txs_hashes (header block))) i) as [h Hh].
      { rewrite Hlen. by eapply lookup_lt_Some. }
      rewrite list.Forall_forall in Hall.
      assert ((tx, h) ∈ zip (transactions block) (iset_list (bh_txs_hashes (header block)))) as Hin.
      { apply list_elem_of_lookup. exists i. apply lookup_zip_with_Some. eauto. }
      destruct (Hall _ Hin) as (_ & E & _). cbn in E. cbn. by rewrite Hh, E.
    + cbn. symmetry. apply lookup_ge_None. apply lookup_ge_None in Ei. lia.
  - intros tx Hin. by apply (Htx tx Hin).
  - intros tx Hin Hv'. destruct (Htx tx Hin) as (_ & _ & H). destruct (H Hv') as [H1 H2]. split; [done|]. by rewrite <- Hspec.
  - by destruct (verify_batch _ _ _).1 as [[]| | |].
Qed.
End View.

(** C4: a block that passes the checks obeys the rules of the consensus: its
    header is new, timely, of bounded size and at the height its tips give it;
    its tips are known, not reachable from each other, older than it, close to
    the main chain and of similar difficulty; its proof of work meets the
    difficulty at its tips; its transactions are those of its header, none of
    them executed in stable height or under its tips, and the ones to verify
    are valid together.  Enough fuel is known beforehand. *)
Theorem accepted_block (storage : S) (v : DagView) (self : Blockchain) (block : Block) (now : Z) (rnd : nat -> scalar)
    (Hv : view_of storage v) (Hb : shows_blocks storage v) (Hrec : records_readable storage)
    (Hheight : in_u 64 self.(bc_height)) (Hnow : in_u 64 (now + TIMESTAMP_IN_FUTURE_LIMIT)) :
  exists k, forall fuel difficulty p, (k <= fuel)%nat ->
    check_block fuel self storage block now rnd = Ok (difficulty, p) ->
    valid_header self v now block /\ valid_tips self storage v block /\
    valid_work self storage block difficulty p /\ valid_txs self storage v block rnd.
Proof.
  destruct (decide (Forall (fun t => is_Some (v_header v t)) (block_tips block))) as [Hst|Hst].
  2: { exists 0%nat. intros fuel d p _. unfold check_block. intros (? & _ & (? & Ht & _)%res_bind_ok)%res_bind_ok.
       exfalso. apply Hst. by apply (check_tips_ok storage v Hv Hb) in Ht as [? _]. }
  destruct (distances_run storage v Hv (block_tips block) Hst) as [k1 Hdist].
  destruct (get_all_executed_run storage v Hv Hrec self.(bc_stable_height) (block_tips block) Hst) as (k2 & executed & Hex & Hrun).
  destruct (non_reachability_run storage block.(header).(bh_tips) (fun h => Z.to_nat (v_height v h)) (dag_of_view storage v Hv))
    as [k3 Hreach].
  { intros a x Ha Hax. rewrite list.Forall_forall in Hst.
    destruct (stored_tips storage v Hv x) as (tips & -> & _); [|done]. by apply (stored_reach storage v Hv a); [apply Hst|]. }
  exists (k1 + k2 + k3)%nat. intros fuel difficulty p Hf. unfold check_block.
  intros (? & Hform & (? & Htips & ([d' p'] & Hpow & (? & Htxs & [= -> ->])%res_bind_ok)%res_bind_ok)%res_bind_ok)%res_bind_ok.
  apply (check_form_ok self storage v) in Hform as (H1 & H2 & H3 & H4 & H5 & H6 & H7); [|done..].
  apply (check_tips_ok storage v Hv Hb) in Htips as (_ & Hheights & Hnr & Heach & Hbest); [|done].
  rewrite list.Forall_forall in Hst.
  split; [|split; [|split; [by apply check_pow_ok|]]].
  - split; try done.
  - destruct (Hreach fuel ltac:(lia)) as (b & Eb & _ & Hfree). rewrite Hnr in Eb. injection Eb as <-. split.
    + intros a c Ha Hc Hne Hh. apply (Hfree eq_refl a c Ha Hc Hne).
      pose proof (view_range _ (view_is_wf _ _ Hv) a (Hst a Ha)) as [? _].
      pose proof (view_range _ (view_is_wf _ _ Hv) c (Hst c Hc)) as [? _]. lia.
    + intros t b Ht Eb. destruct (Hdist fuel t ltac:(lia) Ht) as (d & Hd & Ho & Hu).
      eapply (check_tip_ok storage v Hv fuel self (header block) t d); [by apply Hst|done| |done|by apply Heach|done].
      eapply distance_pos; [done|by apply Hst|done|]. intros E. by destruct (Hu E).
    + intros t Ht. destruct (Hdist fuel t ltac:(lia) Ht) as (d & Hd & Ho & Hu). exists d. split_and!; [done|done|].
      eapply (check_tip_ok storage v Hv fuel self (header block) t d); [by apply Hst|done| |done|by apply Heach].
      eapply distance_pos; [done|by apply Hst|done|]. intros E. by destruct (Hu E).
    + exact Hbest.
  - eapply check_txs_ok; [|exact Hex|exact Htxs]. apply Hrun. lia.
Qed.
End Accepted.

(** ** Witness: an empty block on the storage of [BlockProviders] *)

#[local] Existing Instances u256_model iset_model hash_map_model blake3_model xelis_hash_model
  curve_model merlin_model range_proof_model b_difficulties b_heights b_pruned b_blocks b_laws.

(** A chain without accounts and without executed transactions. *)
#[local] Instance b_nonces : NonceProvider unit := {|
  has_nonce _ _ := Ok false;
  get_last_nonce _ _ := Err BlockchainError.Unknown;
  get_nonce_at_maximum_topoheight _ _ _ := Ok None;
  set_last_nonce_to _ _ _ := mret tt;
|}.
#[local] Instance b_balances : BalanceProvider unit := {|
  get_balance_at_maximum_topoheight _ _ _ _ := Ok None;
  get_output_balance_at_maximum_topoheight _ _ _ _ := Ok None;
  get_new_versioned_balance _ _ _ _ := Err BlockchainError.Unknown;
  set_last_balance_to _ _ _ _ := mret tt;
|}.
#[local] Instance b_accounts : AccountProvider unit := {|
  is_account_registered_below_topoheight _ _ _ := Ok false;
  set_account_registration_topoheight _ _ := mret tt;
|}.
#[local] Instance b_storage : Storage unit := {|
  is_mainnet _ := false;
  storage_nonces := b_nonces;
  storage_balances := b_balances;
  storage_accounts := b_accounts;
  storage_order := b_order;
|}.
#[local] Instance b_records : ClientProtocolProvider unit := {|
  is_tx_executed_in_a_block _ _ := Ok false;
  is_tx_executed_in_block _ _ _ := Ok false;
  get_block_executor_for_tx _ _ := Err BlockchainError.Unknown;
  set_tx_executed_in_block _ _ := mret tt;
  remove_tx_executed _ := mret tt;
  add_block_linked_to_tx_if_not_present _ _ := mret true;
|}.

Definition b_self : Blockchain := mkBlockchain 2 0 0 Testnet true true.
Definition b_block : Block :=
  mkBlock (mkHeader 0 (iset_extend iset_new [g_hash 4]) 7 3 0 (vreplicate 32 x00)
    (mkPublicKey (mkRistretto (vreplicate 32 x00))) iset_new) [].

Lemma accepted_block_witness :
  exists k, forall fuel difficulty p, (k <= fuel)%nat ->
    check_block fuel b_self tt b_block 10 (fun _ => s0) = Ok (difficulty, p) ->
    valid_header b_self b_view 10 b_block /\ valid_tips b_self tt b_view b_block /\
    valid_work b_self tt b_block difficulty p /\ valid_txs b_self tt b_view b_block (fun _ => s0).
Proof.
  refine (accepted_block tt b_view b_self b_block 10 (fun _ => s0) b_view_of (fun _ => eq_refl) (fun _ _ => eq_refl) _ _).
  - split; [discriminate|reflexivity].
  - split; [discriminate|reflexivity].
Defined.

(** The block is accepted. *)
Example b_block_accepted :
  (v ← check_block 20 b_self tt b_block 10 (fun _ => s0); Ok (VarUint.val v.1)) = Ok 30000.
Proof. vm_compute. reflexivity. Qed.
