(* ===== verification/ChainFacts.v ===== *)
(** The chain state implements a ledger.

    [chain_laws] shows that [ChainState] keeps the promises of [StateLaws]: the
    accounts and balances it caches, and those it would fetch from the storage,
    are one ledger on which the calls act as their names say.  The second part
    follows the flags of the cached balances through the execution of a
    transaction, which [apply_changes] relies on to build the final balances. *)

From Stdlib Require Import Setoid Morphisms.
From S2P Require Import Prelude External ExternalModel ExternalCrypto Serializer Hash Defaults Elgamal Proofs Transaction Verify VerifyFacts Errors Account Versions Storage Providers Emission Reference ChainState.

(** ** Caches *)
Section Cache.
Context {CV : Curve}.

(** The ciphertext a cache stands for. *)
Definition ct_of (k : CiphertextCache) : Ciphertext :=
  match take_ciphertext k with Ok c => c | _ => ct_zero end.

Lemma computable_ct k c k' :
  computable k = Ok (c, k') -> ct_of k = c /\ ct_of k' = c /\ forall c', ct_of (put_computable c' k') = c'.
Proof.
  destruct k as [cc|e|cc e d]; simpl.
  - intros (e & He & [= <- <-])%res_bind_ok. unfold ct_of. simpl. by rewrite He.
  - by intros [= <- <-].
  - by intros [= <- <-].
Qed.

Lemma computable_version_ct v c v' :
  computable_version v = Ok (c, v') ->
  exists k, v' = Account.set_balance k v /\ ct_of v.(final_balance) = c /\ ct_of k = c /\
    forall c', ct_of (put_computable c' k) = c'.
Proof.
  unfold computable_version. intros ([c' k] & Hk%map_err_ok & [= -> <-])%res_bind_ok.
  apply computable_ct in Hk. exists k. naive_solver.
Qed.

(** The balance an entry selects. *)
Definition selected (e : Echange) : CiphertextCache := (select_balance (selects_output e) e.(e_version)).1.

Lemma select_put b k v : (select_balance b (put_selected b k v)).1 = k.
Proof. unfold put_selected, select_balance. by destruct v as [[o|] f t p], b. Qed.

Lemma get_balance_eq e ct e' :
  ChainState.get_balance e = (ct, e') ->
  ct = selected e /\ selected e' = ct /\ selects_output e' = selects_output e /\
  e'.(e_version) = e.(e_version) /\ e'.(output_sum) = e.(output_sum).
Proof.
  unfold ChainState.get_balance, selected, selects_output, select_balance.
  destruct e as [al nv [[o|] f t p] sum used]; destruct al, used; simpl; by intros [= <- <-].
Qed.
End Cache.

(** ** The laws *)
Section Laws.
Context {CV : Curve} {ML : Merlin} {RP : RangeProofLib} {S : Type} {SP : Storage S}.

Abbreviation chain := (ChainState (S:=S)).
Implicit Types s : chain.

Definition stored_nonce (s : chain) (k : CompressedPublicKey) : Z :=
  match get_nonce_at_maximum_topoheight s.(storage) k s.(topoheight) with
  | Ok (Some (_, v)) => v.(vn_nonce)
  | _ => 0
  end.
Definition stored_balance (s : chain) (k : CompressedPublicKey) (a : Hash) : Ciphertext :=
  match get_new_versioned_balance s.(storage) k a s.(topoheight) with
  | Ok v => ct_of v.(final_balance)
  | _ => ct_zero
  end.
Definition stored_selected (s : chain) (k : CompressedPublicKey) (a : Hash) (r : Reference) : Ciphertext :=
  match create_sender_echange s.(storage) k a s.(topoheight) r with
  | Ok e => ct_of (selected e)
  | _ => ct_zero
  end.

(** The ledger: what is cached, or else what would be fetched. *)
Definition chain_ledger (s : chain) : Ledger := {|
  l_nonce k := match s.(accounts) !! k with
               | Some a => a.(a_nonce).(vn_nonce)
               | None => stored_nonce s k
               end;
  l_recv k a := match receiver_version k a s with
                | Some v => ct_of v.(final_balance)
                | None => stored_balance s k a
                end;
  l_send k a r := match sender_echange k a s with
                  | Some e => ct_of (selected e)
                  | None => stored_selected s k a r
                  end;
  l_out k a := match sender_echange k a s with
               | Some e => e.(output_sum)
               | None => ct_zero
               end;
|}.

(** *** Lookups after an update *)

Lemma receiver_version_open k a k' s : receiver_version k a (open_receiver k' s) = receiver_version k a s.
Proof.
  unfold receiver_version, open_receiver. simpl. destruct (decide (k' = k)) as [->|Hne].
  - rewrite lookup_insert_eq. by destruct (receiver_balances s !! k).
  - by rewrite lookup_insert_ne.
Qed.

Lemma receiver_version_put k a v k' a' s :
  receiver_version k' a' (put_receiver k a v s) =
    if decide ((k, a) = (k', a')) then Some v else receiver_version k' a' s.
Proof.
  unfold receiver_version, put_receiver. simpl. destruct (decide (k = k')) as [->|Hne].
  - rewrite lookup_insert_eq. simpl. destruct (decide (a = a')) as [->|Hne].
    + by rewrite lookup_insert_eq, decide_True.
    + rewrite lookup_insert_ne, decide_False by congruence.
      by destruct (receiver_balances s !! k').
  - by rewrite lookup_insert_ne, decide_False by congruence.
Qed.

Lemma sender_echange_put k a e acc k' a' s :
  (forall b, a_assets acc !! b = sender_echange k b s) ->
  sender_echange k' a' (put_echange k a e acc s) =
    if decide ((k, a) = (k', a')) then Some e else sender_echange k' a' s.
Proof.
  intros Hacc. unfold put_echange, put_account, with_accounts. unfold sender_echange at 1. cbn [accounts].
  destruct (decide (k = k')) as [->|Hne].
  - rewrite lookup_insert_eq. cbn. destruct (decide (a = a')) as [->|Hne].
    + by rewrite lookup_insert_eq, decide_True.
    + by rewrite lookup_insert_ne, decide_False by congruence.
  - by rewrite lookup_insert_ne, decide_False by congruence.
Qed.

(** The account of [k] as the state has it, or as it would be created. *)
Definition account_of (k : CompressedPublicKey) (acc : ChainAccount) (s : chain) : Prop :=
  acc.(a_nonce).(vn_nonce) = l_nonce (chain_ledger s) k /\ forall b, a_assets acc !! b = sender_echange k b s.

Lemma account_cached k acc s : s.(accounts) !! k = Some acc -> account_of k acc s.
Proof. intros Ha. split; simpl; unfold sender_echange; by rewrite Ha. Qed.

Lemma account_created k acc s :
  s.(accounts) !! k = None -> create_sender_account k s.(storage) s.(topoheight) = Ok acc -> account_of k acc s.
Proof.
  intros Ha. unfold create_sender_account.
  intros (found & Hf & ([topo v] & Hv & [= <-])%res_bind_ok)%res_bind_ok.
  destruct found as [[? ?]|]; [|done]. injection Hv as -> ->.
  split; simpl; unfold sender_echange, stored_nonce; rewrite Ha; [by rewrite Hf|done].
Qed.

(** The account of [k] when it is needed: cached, or else created. *)
Definition account_from (k : CompressedPublicKey) (acc : ChainAccount) (s : chain) : Prop :=
  s.(accounts) !! k = Some acc \/
  s.(accounts) !! k = None /\ create_sender_account k s.(storage) s.(topoheight) = Ok acc.

Lemma account_from_of k acc s : account_from k acc s -> account_of k acc s.
Proof. intros [?|[? ?]]; [by apply account_cached|by apply account_created]. Qed.

(** *** The effect of the updates on the ledger *)

Lemma ledger_receiver k a v s :
  chain_ledger (put_receiver k a v s) ≡ upd_recv k a (ct_of v.(final_balance)) (chain_ledger s).
Proof.
  split_and!; [done| |done|done]. intros k' a'. cbn [l_recv upd_recv].
  rewrite fn_upd_pair. simpl. rewrite receiver_version_put. by case_decide.
Qed.

Lemma ledger_open k s : chain_ledger (open_receiver k s) ≡ chain_ledger s.
Proof.
  split_and!; try done. intros k' a'. cbn [l_recv chain_ledger].
  by rewrite receiver_version_open.
Qed.

Lemma ledger_echange k a e acc s :
  account_of k acc s ->
  chain_ledger (put_echange k a e acc s) ≡
    upd_out k a e.(output_sum) (upd_send k a (ct_of (selected e)) (chain_ledger s)).
Proof.
  intros [Hn Hacc]. split_and!; [|done| |].
  - intros k'. cbn [l_nonce chain_ledger put_echange put_account with_accounts accounts upd_out upd_send].
    destruct (decide (k = k')) as [->|Hne]; [by rewrite lookup_insert_eq|by rewrite lookup_insert_ne].
  - intros k' a' r. cbn [l_send upd_out upd_send]. rewrite fn_upd_pair. simpl.
    rewrite sender_echange_put by done. by case_decide.
  - intros k' a'. cbn [l_out upd_out upd_send]. rewrite fn_upd_pair. simpl.
    rewrite sender_echange_put by done. by case_decide.
Qed.

Lemma ledger_account k acc s :
  (forall b, a_assets acc !! b = sender_echange k b s) ->
  chain_ledger (put_account k acc s) ≡ upd_nonce k acc.(a_nonce).(vn_nonce) (chain_ledger s).
Proof.
  intros Hacc.
  assert (forall k' a', sender_echange k' a' (put_account k acc s) = sender_echange k' a' s) as He.
  { intros k' a'. unfold put_account, with_accounts. unfold sender_echange at 1. cbn [accounts].
    destruct (decide (k = k')) as [->|Hne]; [rewrite lookup_insert_eq; apply Hacc|by rewrite lookup_insert_ne]. }
  split_and!; [|done| |].
  - intros k'. cbn [l_nonce chain_ledger put_account with_accounts accounts upd_nonce]. unfold fn_upd.
    destruct (decide (k = k')) as [->|Hne]; [by rewrite lookup_insert_eq|by rewrite lookup_insert_ne].
  - intros k' a' r. cbn [l_send chain_ledger upd_nonce]. by rewrite He.
  - intros k' a'. cbn [l_out chain_ledger upd_nonce]. by rewrite He.
Qed.

(** *** The calls *)

Lemma pre_verify_law tx s s' : chain_pre_verify_tx tx s = (Ok tt, s') -> s' = s.
Proof.
  unfold chain_pre_verify_tx. case_match; [done|].
  intros (s0 & s1 & [= <- <-] & (fees & s2 & [= _ <-] & Hr)%stm_bind_ok)%stm_bind_ok.
  repeat case_match; try done. by injection Hr as <-.
Qed.

(** What a read of a receiver balance may store, whatever its result: the
    version of the storage, and a version of the map with its cache computed. *)
Lemma receiver_always (P : chain -> Prop) k a :
  (forall s, P s -> P (open_receiver k s)) ->
  (forall s v, P s ->
     get_new_versioned_balance s.(storage) k a s.(topoheight) = Ok v \/
     (exists v0 c, receiver_version k a s = Some v0 /\ computable_version v0 = Ok (c, v)) ->
     P (put_receiver k a v s)) ->
  always P (internal_get_receiver_balance k a).
Proof.
  intros Hopen Hput s Hs. unfold internal_get_receiver_balance.
  apply bind_state; [by apply Hopen|]. intros u s1 [= _ <-]. apply Hopen in Hs as Ho. clear Hs.
  set (s0 := open_receiver k s) in *. clearbody s0. clear s.
  apply bind_state; [done|]. intros s2 s3 [= <- <-].
  assert (forall v c v' s4, P s4 -> receiver_version k a s4 = Some v -> computable_version v = Ok (c, v') ->
    P (put_receiver k a v' s4)) as Hlast by (intros; apply Hput; [done|right; eauto]).
  assert (forall v s4, P s4 -> receiver_version k a s4 = Some v ->
    P (('(c, version) ← lift_res (computable_version v);
        _ ← st_modify (put_receiver k a version); mret c) s4).2) as Hend.
  { intros v s4 Hp Hv. apply bind_state; [done|]. intros [c v'] s5 [= Hc <-]. by apply (Hlast v c v'). }
  destruct (receiver_version k a s0) as [v|] eqn:Hv; [by apply (Hend v)|].
  apply bind_state.
  - apply bind_state; [done|]. intros v s4 [= Hnew <-]. apply Hput; auto.
  - intros v s4 (v0 & s5 & [= Hnew <-] & (u' & s6 & [= _ <-] & [= -> <-])%stm_bind_ok)%stm_bind_ok.
    apply (Hend v); [apply Hput; auto|]. by rewrite receiver_version_put, decide_True.
Qed.

(** Reading a receiver balance: the version it leaves in the state. *)
Lemma receiver_read k a s c s' :
  internal_get_receiver_balance k a s = (Ok c, s') ->
  exists v, ct_of v.(final_balance) = c /\ l_recv (chain_ledger s) k a = c /\
    (forall c', ct_of (put_computable c' v.(final_balance)) = c') /\
    receiver_version k a s' = Some v /\ chain_ledger s' ≡ upd_recv k a c (chain_ledger s).
Proof.
  unfold internal_get_receiver_balance.
  intros (u & s0 & [= _ <-] & (s1 & s2 & [= <- <-] & (v & s3 & Hv & Hr)%stm_bind_ok)%stm_bind_ok)%stm_bind_ok.
  apply stm_bind_ok in Hr as ([c0 v'] & s4 & [= Hc <-] & Hr).
  apply stm_bind_ok in Hr as (u' & s5 & [= _ <-] & [= -> <-]).
  apply computable_version_ct in Hc as (q & -> & Hv0 & Hq & Hput).
  exists (Account.set_balance q v). rewrite receiver_version_put, decide_True by done.
  rewrite ledger_receiver. cbn [final_balance Account.set_balance]. rewrite Hq. split_and!; try done.
  - cbn [l_recv chain_ledger]. rewrite receiver_version_open in Hv.
    destruct (receiver_version k a s) as [v0|]; [by injection Hv as -> <-|].
    apply stm_bind_ok in Hv as (v0 & s6 & [= Hn <-] & Hv).
    apply stm_bind_ok in Hv as (u'' & s7 & [= _ <-] & [= -> <-]).
    unfold stored_balance. cbn in Hn. by rewrite Hn.
  - assert (chain_ledger s3 ≡ upd_recv k a c (chain_ledger s)) as ->; [|by apply upd_recv_twice].
    rewrite receiver_version_open in Hv. destruct (receiver_version k a s) as [v0|] eqn:Hv1.
    + injection Hv as -> <-. rewrite ledger_open. symmetry. apply upd_recv_id. simpl. by rewrite Hv1.
    + apply stm_bind_ok in Hv as (v0 & s6 & [= Hn <-] & Hv).
      apply stm_bind_ok in Hv as (u'' & s7 & [= _ <-] & [= -> <-]). by rewrite ledger_receiver, ledger_open, Hv0.
Qed.

Lemma selected_put k e : selected (put_balance k e) = k.
Proof. apply select_put. Qed.

Lemma echange_put k a e acc s : sender_echange k a (put_echange k a e acc s) = Some e.
Proof. unfold sender_echange, put_echange. simpl. rewrite lookup_insert_eq. simpl. by rewrite lookup_insert_eq. Qed.

Lemma create_echange_sum st k a topo r e : create_sender_echange st k a topo r = Ok e -> e.(output_sum) = ct_zero.
Proof. unfold create_sender_echange. by intros ([[b1 b2] v] & _ & [= <-])%res_bind_ok. Qed.

(** The first part of a read of a sender balance: the account and the entry. *)
Lemma sender_entry k a r s ct s1 :
  internal_get_sender_verification_balance k a r s = (Ok ct, s1) ->
  exists acc e e1, account_from k acc s /\
    (sender_echange k a s = Some e \/
     sender_echange k a s = None /\ create_sender_echange s.(storage) k a s.(topoheight) r = Ok e) /\
    ChainState.get_balance e = (ct, e1) /\ s1 = put_echange k a e1 acc s.
Proof.
  unfold internal_get_sender_verification_balance.
  intros (s0 & s2 & [= <- <-] & ([acc e] & s3 & Hae & Hr)%stm_bind_ok)%stm_bind_ok.
  injection Hae as Hae <-. destruct (ChainState.get_balance e) as [ct' e1] eqn:Hb.
  apply stm_bind_ok in Hr as (u & s4 & [= _ <-] & [= -> <-]). exists acc, e, e1. split_and!; [| |done..].
  - destruct (accounts s !! k) as [acc0|] eqn:Ha.
    + left. destruct (a_assets acc0 !! a) as [e0|]; [by injection Hae as -> ->|].
      by apply res_bind_ok in Hae as (e0 & _ & [= -> ->]).
    + right. by apply res_bind_ok in Hae as (acc0 & Hacc & (e0 & _ & [= -> ->])%res_bind_ok).
  - unfold sender_echange. destruct (accounts s !! k) as [acc0|]; simpl.
    + destruct (a_assets acc0 !! a) as [e0|]; [injection Hae as -> ->; by left|].
      apply res_bind_ok in Hae as (e0 & He & [= -> ->]). by right.
    + apply res_bind_ok in Hae as (acc0 & _ & (e0 & He & [= -> ->])%res_bind_ok). by right.
Qed.

Lemma sender_entry_fails k a r s res s1 :
  internal_get_sender_verification_balance k a r s = (res, s1) -> (forall ct, res <> Ok ct) -> s1 = s.
Proof.
  unfold internal_get_sender_verification_balance, mbind at 1 2, stm_bind, st_get, lift_res.
  destruct (match accounts s !! k with Some acc => _ | None => _ end) as [[acc e]| | |];
    [|by intros [= <- <-]..]. destruct (ChainState.get_balance e) as [ct e1]. intros [= <- _] Hr. by destruct (Hr ct).
Qed.

Lemma sender_read k a r s c s' :
  get_sender k a r s = (Ok c, s') ->
  exists acc e, s'.(accounts) !! k = Some acc /\ sender_echange k a s' = Some e /\
    (forall c', ct_of (put_computable c' (selected e)) = c') /\
    l_send (chain_ledger s) k a r = c /\ e.(output_sum) = l_out (chain_ledger s) k a /\
    chain_ledger s' ≡ upd_send k a c (chain_ledger s).
Proof.
  unfold get_sender. intros (ct & s1 & Hs & Hr)%stm_bind_ok.
  apply stm_bind_ok in Hr as ([c0 q] & s2 & Hq & Hr). apply stm_bind_ok in Hr as (u & s3 & [= _ <-] & [= -> <-]).
  unfold lift_res in Hq. injection Hq as Hq <-. apply map_err_ok, computable_ct in Hq as (Hct & Hq & Hput).
  apply sender_entry in Hs as (acc & e & e1 & Hacc%account_from_of & He & Hb & ->).
  apply get_balance_eq in Hb as (-> & Hsel & _ & _ & Hsum).
  set (s1 := put_echange k a e1 acc s). assert (sender_echange k a s1 = Some e1) as He1 by apply echange_put.
  assert (accounts s1 !! k = Some (mkAccount (a_nonce acc) (<[a:=e1]> (a_assets acc)))) as Hk
    by apply lookup_insert_eq.
  rewrite Hk, He1. eexists _, (put_balance q e1). split_and!.
  - apply lookup_insert_eq.
  - apply echange_put.
  - by rewrite selected_put.
  - simpl. destruct He as [->|[-> He]]; [done|]. unfold stored_selected. by rewrite He.
  - simpl. destruct He as [->|[-> He]]; [done|]. simpl. rewrite Hsum.
    by apply create_echange_sum in He.
  - rewrite ledger_echange by by apply account_cached. unfold s1. rewrite selected_put, Hq, ledger_echange by done.
    rewrite upd_entry_twice. apply upd_out_id. simpl. rewrite Hsum.
    destruct He as [->|[-> He]]; [done|]. by apply create_echange_sum in He.
Qed.

(** A write through the reference. *)
Lemma sender_write k a r s c s' c' :
  get_sender k a r s = (Ok c, s') ->
  chain_ledger (set_sender k a c' s') ≡ upd_send k a c' (chain_ledger s).
Proof.
  intros (acc & e & Hk & He & Hput & _ & Hsum & Hl)%sender_read. unfold set_sender. rewrite Hk, He.
  rewrite ledger_echange by by apply account_cached. fold (selected e). rewrite selected_put, Hput, Hl.
  rewrite upd_send_twice. by apply upd_out_id.
Qed.

Lemma receiver_write k a s c s' c' :
  internal_get_receiver_balance k a s = (Ok c, s') ->
  chain_ledger (ChainState.set_receiver k a c' s') ≡ upd_recv k a c' (chain_ledger s).
Proof.
  intros (v & _ & _ & Hput & Hv & Hl)%receiver_read. unfold ChainState.set_receiver. rewrite Hv, ledger_receiver.
  cbn [final_balance Account.set_balance]. by rewrite Hput, Hl, upd_recv_twice.
Qed.

Lemma add_output_law k a c s s' :
  internal_update_sender_echange k a c s = (Ok tt, s') ->
  chain_ledger s' ≡ upd_out k a (ct_add (l_out (chain_ledger s) k a) c) (chain_ledger s).
Proof.
  unfold internal_update_sender_echange. intros (s0 & s1 & [= <- <-] & Hr)%stm_bind_ok.
  destruct (accounts s !! k) as [acc|] eqn:Hk; [|done].
  destruct (sender_echange k a s) as [e|] eqn:He; [|done]. injection Hr as <-.
  rewrite ledger_echange by by apply account_cached. simpl. rewrite He.
  by rewrite upd_send_id by (intros r; simpl; by rewrite He).
Qed.

Lemma get_nonce_law k s n s' :
  internal_get_account_nonce k s = (Ok n, s') ->
  l_nonce (chain_ledger s) k = n /\ chain_ledger s' ≡ chain_ledger s.
Proof.
  unfold internal_get_account_nonce. intros (s0 & s1 & [= <- <-] & Hr)%stm_bind_ok.
  destruct (accounts s !! k) as [acc|] eqn:Hk; [injection Hr as <- <-; simpl; by rewrite Hk|].
  apply stm_bind_ok in Hr as (acc & s2 & [= Ha <-] & (u & s3 & [= _ <-] & [= <- <-])%stm_bind_ok).
  apply account_created in Ha as [Hn Ha]; [|done]. split; [done|].
  rewrite ledger_account by done. by apply upd_nonce_id.
Qed.

Lemma update_nonce_law k n s s' :
  internal_update_account_nonce k n s = (Ok tt, s') -> chain_ledger s' ≡ upd_nonce k n (chain_ledger s).
Proof.
  unfold internal_update_account_nonce. intros (s0 & s1 & [= <- <-] & (acc & s2 & Ha & [= <-])%stm_bind_ok)%stm_bind_ok.
  assert (account_from k acc s /\ s2 = s) as [[_ Hacc]%account_from_of ->]; [|by rewrite ledger_account].
  unfold account_from. destruct (accounts s !! k) as [acc0|]; injection Ha as Ha <-; subst; auto.
Qed.

(** [ChainState] keeps the promises of the interface. *)
#[export] Instance chain_laws : StateLaws (St:=chain) (E:=blockchain_error).
Proof.
  refine {| obs := chain_ledger; inv _ := True |}; intros * _ Hr.
  - apply pre_verify_law in Hr. by subst.
  - pose proof (receiver_read _ _ _ _ _ Hr) as (v & _ & Hc & _ & _ & Hl).
    split_and!; [done|rewrite Hl; by apply upd_recv_id|done|]. intros c'. split; [done|]. by eapply receiver_write.
  - pose proof (sender_read _ _ _ _ _ _ Hr) as (acc & e & _ & _ & _ & Hc & _ & Hl).
    split_and!; [done|done|done|]. intros c'. split; [done|]. exact (sender_write _ _ _ _ _ _ c' Hr).
  - split; [done|]. by apply add_output_law.
  - apply get_nonce_law in Hr as [? ?]. done.
  - split; [done|]. by apply update_nonce_law.
Defined.
Lemma put_echange_twice k a e1 e2 acc s :
  put_echange k a e2 (mkAccount acc.(a_nonce) (<[a := e1]> acc.(a_assets))) (put_echange k a e1 acc s) =
    put_echange k a e2 acc s.
Proof.
  unfold put_echange, put_account, with_accounts. simpl. by rewrite insert_insert_eq, insert_insert_eq.
Qed.

(** *** One debit of the second loop of [apply_with_partial_verify] *)

Lemma change_fails tx c' o a s r s1 :
  get_sender tx.(source) a tx.(reference) s = (r, s1) -> (forall c, r <> Ok c) ->
  (apply_change tx (c', o, a) s).2 = s1.
Proof.
  intros Hr Hne. unfold apply_change, state, mbind, stm_bind, st_map_err. cbn [get_sender_balance chain_verification].
  rewrite Hr. destruct r as [c| | |]; try done. by destruct (Hne c).
Qed.

Lemma change_run tx c' o a s c s1 :
  get_sender tx.(source) a tx.(reference) s = (Ok c, s1) ->
  exists acc e, s1.(accounts) !! tx.(source) = Some acc /\ sender_echange tx.(source) a s1 = Some e /\
    (forall c', ct_of (put_computable c' (selected e)) = c') /\ ct_of (selected e) = c /\
    l_send (chain_ledger s) tx.(source) a tx.(reference) = c /\
    apply_change tx (c', o, a) s =
      (Ok tt, put_echange tx.(source) a (add_output_to_sum o (put_balance (put_computable c' (selected e)) e)) acc s1).
Proof.
  set (k := source tx). set (r := reference tx). intros Hr.
  destruct (sender_read _ _ _ _ _ _ Hr) as (acc & e & Ha & He & Hput & Hc & _ & Hl).
  exists acc, e. split_and!; try done.
  { destruct Hl as (_ & _ & Hl & _). specialize (Hl k a r). cbn [l_send upd_send] in Hl.
    rewrite fn_upd_pair, decide_True in Hl by done. cbn [l_send chain_ledger] in Hl. by rewrite He in Hl. }
  set (e2 := put_balance (put_computable c' (selected e)) e).
  assert (set_sender k a c' s1 = put_echange k a e2 acc s1) as Hset by (unfold set_sender; by rewrite Ha, He).
  unfold apply_change, state, mbind, stm_bind, st_modify, st_map_err.
  cbn [get_sender_balance set_sender_balance add_sender_output chain_verification]. fold k. fold r.
  rewrite Hr. cbn [map_err]. rewrite Hset.
  unfold internal_update_sender_echange, mbind, stm_bind, st_get. rewrite echange_put.
  assert (accounts (put_echange k a e2 acc s1) !! k =
    Some (mkAccount acc.(a_nonce) (<[a := e2]> acc.(a_assets)))) as -> by apply lookup_insert_eq.
  cbn [st_modify map_err]. by rewrite put_echange_twice.
Qed.
End Laws.
