(* ===== verification/ChainInvariant.v ===== *)
(** The invariant of the chain state while a block is executed.

    The balances an account spends are verified against the balance its
    reference points to, and only their sum is subtracted from the latest
    balance when the changes are applied.  [chain_inv] says what
    [apply_changes] needs: the cached versions extend the histories of the
    storage, and a balance that was taken from the latest version has lost
    exactly the outputs summed beside it. *)

From Stdlib Require Import Setoid Morphisms.
From S2P Require Import Prelude External ExternalModel ExternalCrypto Serializer Hash Defaults Elgamal Proofs Transaction Verify VerifyFacts Errors Account Versions Storage StorageFacts Providers Emission Reference StorageLaws ChainState ChainFacts.

Section Group.
Context {CV : Curve}.
Add Ring IdealRing : ideal_ring.

Lemma ct_spend x y o : ct_add (ct_sub x o) (ct_add y o) = ct_add x y.
Proof. apply ct_eq; simpl; point_ring. Qed.
Lemma ct_add_zero_r x : ct_add x ct_zero = x.
Proof. apply ct_eq; simpl; point_ring. Qed.
Lemma ct_sub_zero x : ct_sub x ct_zero = x.
Proof. apply ct_eq; simpl; point_ring. Qed.
Lemma ct_sub_of_add x o y : ct_add x o = y -> x = ct_sub y o.
Proof. intros <-. apply ct_eq; simpl; point_ring. Qed.

(** No compressed form that a write through [computable] would leave behind. *)
Definition no_stale (k : CiphertextCache) : Prop :=
  match k with Both _ _ dirty => dirty = true | _ => True end.

Lemma ct_of_compressed k : no_stale k -> ct_of (Compressed (cc_compress k)) = ct_of k.
Proof. unfold ct_of. destruct k as [c|e|c e []]; simpl; intros Hk; by rewrite ?ct_decompress_compress. Qed.

Lemma computable_no_stale k c k' : computable k = Ok (c, k') -> no_stale k'.
Proof.
  destruct k as [cc|e|cc e d]; simpl; [|by intros [= <- <-]..].
  by intros (e & He & [= <- <-])%res_bind_ok.
Qed.
Lemma put_no_stale c k : no_stale k -> no_stale (put_computable c k).
Proof. by destruct k. Qed.
Lemma stored_no_stale v :
  stored v = v -> no_stale v.(final_balance) /\ from_option no_stale True v.(output_balance).
Proof.
  destruct v as [[o|] f t p]; unfold stored; simpl; [intros [= <- <-]|intros [= <-]]; done.
Qed.
End Group.

Section Invariant.
Context {CV : Curve} {ML : Merlin} {RP : RangeProofLib} {S : Type} {SP : Storage S} {SLaws : StorageLaws S}.
Context (nh : NonceHistories) (bh : BalanceHistories) (T : Z).

Abbreviation chain := (ChainState (S:=S)).
Implicit Types s : chain.

(** The version a new balance starts from: the latest one, relinked. *)
Definition fresh (k : CompressedPublicKey) (a : Hash) : VersionedBalance :=
  match head (bh (k, a)) with
  | Some (t, v) => prepare_new (Some t) v
  | None => balance_zero
  end.

Record echange_ok (k : CompressedPublicKey) (a : Hash) (e : Echange) : Prop := {
  eo_used : e.(output_balance_used) = selects_output e && has_output_balance e.(e_version);
  eo_live : no_stale (selected e);
  eo_new : e.(new_version) = true ->
    e.(e_version) = Account.set_balance e.(e_version).(final_balance) (fresh k a) /\
    ct_add (ct_of (selected e)) e.(output_sum) = ct_of (fresh k a).(final_balance);
}.

Record chain_inv (s : chain) : Prop := {
  ci_storage : stores nh bh s.(storage);
  ci_topoheight : s.(topoheight) = T;
  ci_receiver k a v : receiver_version k a s = Some v ->
    v = Account.set_balance v.(final_balance) (fresh k a) /\ no_stale v.(final_balance);
  ci_nonce k acc : s.(accounts) !! k = Some acc ->
    acc.(a_nonce).(vn_previous_topoheight) = top (nh k) /\ in_u 64 acc.(a_nonce).(vn_nonce) /\ nh k <> [];
  ci_echange k a e : sender_echange k a s = Some e -> echange_ok k a e;
  ci_asset k a e : sender_echange k a s = Some e -> asset_registered s.(storage) a;
}.

Context (Hst : forall k a t v, (t, v) ∈ bh (k, a) -> stored v = v) (HT : in_u 64 T) (Hn : below T nh) (Hb : below T bh).

Lemma new_balance_fresh st k a v :
  stores nh bh st -> get_new_versioned_balance st k a T = Ok v -> v = fresh k a.
Proof using Hst HT Hn Hb.
  intros Hs Hv. rewrite (law_new_balance _ _ _ _ _ _ _ Hs HT Hv), below_latest by done. done.
Qed.

Lemma fresh_live k a : no_stale (fresh k a).(final_balance) /\ (fresh k a).(output_balance) = None.
Proof using Hst HT Hn Hb.
  unfold fresh. destruct (bh (k, a)) as [|[t v] h] eqn:E; [done|]. simpl. split; [|done].
  apply stored_no_stale. apply (Hst k a t v). rewrite E. left.
Qed.

(** *** Receivers *)

Lemma inv_open k s : chain_inv s -> chain_inv (open_receiver k s).
Proof. intros [H1 H2 H3 H4 H5 H6]. split; try done. intros k' a v. rewrite receiver_version_open. apply H3. Qed.

Lemma inv_put_receiver k a v s :
  v = Account.set_balance v.(final_balance) (fresh k a) -> no_stale v.(final_balance) ->
  chain_inv s -> chain_inv (put_receiver k a v s).
Proof.
  intros Hv Hl [H1 H2 H3 H4 H5 H6]. split; try done. intros k' a' v'. rewrite receiver_version_put.
  case_decide; [|apply H3]. intros [= <-]. by simplify_eq.
Qed.

Lemma inv_receiver k a : always chain_inv (internal_get_receiver_balance k a).
Proof using Hst HT Hn Hb.
  apply receiver_always; [apply inv_open|]. intros s v Hs [Hnew|(v0 & c & Hv0 & Hc)].
  - rewrite (ci_topoheight s Hs) in Hnew. apply (new_balance_fresh _ _ _ _ (ci_storage s Hs)) in Hnew as ->.
    apply inv_put_receiver; [by destruct (fresh k a)|by apply fresh_live|done].
  - apply (ci_receiver s Hs) in Hv0 as [Hv0 _]. unfold computable_version in Hc.
    apply res_bind_ok in Hc as ([c' q] & Hq%map_err_ok & [= _ <-]).
    apply inv_put_receiver; [by rewrite Hv0|by eapply computable_no_stale|done].
Qed.

Lemma inv_set_receiver k a c s : chain_inv s -> chain_inv (ChainState.set_receiver k a c s).
Proof.
  intros Hs. unfold ChainState.set_receiver. destruct (receiver_version k a s) as [v|] eqn:Hv; [|done].
  apply (ci_receiver s Hs) in Hv as [Hv Hl]. apply inv_put_receiver; [|by apply put_no_stale|done].
  by rewrite Hv.
Qed.

(** *** Senders *)

Lemma create_account_inv st k acc :
  stores nh bh st ->
  create_sender_account k st T = Ok acc ->
  acc.(a_nonce).(vn_previous_topoheight) = top (nh k) /\ in_u 64 acc.(a_nonce).(vn_nonce) /\ nh k <> [] /\
  acc.(a_assets) = ∅.
Proof using Hst HT Hn Hb.
  intros Hs. unfold create_sender_account. rewrite (law_nonce_at_maximum _ _ _ _ _ Hs), below_latest by done.
  cbn [mbind res_bind]. destruct (nh k) as [|[t v] h] eqn:E; [done|]. intros [= <-]. split_and!; try done. simpl.
  apply (law_nonce_range _ _ _ k t v Hs). rewrite E. left.
Qed.

Lemma create_echange_inv st k a r e :
  stores nh bh st ->
  create_sender_echange st k a T r = Ok e ->
  e.(output_balance_used) = false /\ e.(output_sum) = ct_zero /\ (forall b, no_stale (select_balance b e.(e_version)).1) /\
  (e.(new_version) = true -> e.(e_version) = fresh k a).
Proof using Hst HT Hn Hb.
  intros Hs. unfold create_sender_echange, search_versioned_balance_for_reference.
  intros ([[b1 b2] v] & Hv & [= <-])%res_bind_ok. cbn [output_balance_used output_sum e_version new_version echange_new].
  apply res_bind_ok in Hv as (ord & _ & Hv). apply res_bind_ok in Hv as (rt & _ & Hv).
  apply res_bind_ok in Hv as (lo & Hlo & Hv). apply res_bind_ok in Hv as ([uo ver] & Hver & Hv).
  assert (forall v, ver = Some v -> stored v = v) as Hsto.
  { intros v' ->. destruct lo as [[topo vo]|].
    - assert (stored vo = vo) as Hvo by (eapply law_balance_stored; by right).
      destruct (_ || _); [by injection Hver as _ <-|]. destruct (_ || _); [|by injection Hver as _ <-].
      apply res_bind_ok in Hver as ([[t1 v1]|] & Hf & [= _ ->]).
      eapply law_balance_stored. by left.
    - apply res_bind_ok in Hver as ([[t1 v1]|] & Hf & [= _ ->]).
      eapply law_balance_stored. by left. }
  destruct ver as [v'|].
  - injection Hv as <- <- <-. split_and!; try done. intros b.
    destruct (stored_no_stale v' (Hsto v' eq_refl)) as [Hf Ho].
    unfold select_balance. destruct (output_balance v'), b; done.
  - apply res_bind_ok in Hv as (v' & Hv'%(new_balance_fresh _ _ _ _ Hs) & [= <- <- <-]). subst v'. split_and!; try done.
    intros b. destruct (fresh_live k a) as [Hl Ho]. unfold select_balance. by rewrite Ho.
Qed.

(** An entry after [get_balance], which records whether the output is used. *)
Lemma get_balance_ok k a e ct e1 :
  ChainState.get_balance e = (ct, e1) ->
  (echange_ok k a e \/ exists st r, stores nh bh st /\ create_sender_echange st k a T r = Ok e) -> echange_ok k a e1.
Proof using Hst HT Hn Hb.
  intros Hg He. pose proof (get_balance_eq _ _ _ Hg) as (Hct & Hsel & Hs & Hver & Hsum).
  assert (new_version e1 = new_version e) as Hnew.
  { unfold ChainState.get_balance in Hg. destruct (select_balance _ _). simplify_eq. by destruct e as [? ? ? ? []]. }
  destruct He as [[Hu Hl Hw]|(st & r & Hs0 & He)].
  - split.
    + rewrite Hs, Hver, <- Hu. unfold ChainState.get_balance, select_balance in Hg.
      destruct e as [al nv [[o|] f t p] sum used]; destruct used, al; simpl in *; by injection Hg as _ <-.
    + by rewrite Hsel, Hct.
    + rewrite Hnew, Hver, Hsum, Hsel, Hct. apply Hw.
  - apply (create_echange_inv _ _ _ _ _ Hs0) in He as (Hu & Hz & Hl & Hw). split.
    + rewrite Hs, Hver. clear -Hg Hu. unfold ChainState.get_balance, select_balance, selects_output in *.
      destruct e as [al nv [[o|] f t p] sum used]; simpl in Hu; subst; destruct al; by simplify_eq/=.
    + rewrite Hsel, Hct. apply Hl.
    + rewrite Hnew, Hver, Hsum, Hsel, Hct, Hz, ct_add_zero_r. intros Hv%Hw. unfold selected. rewrite Hv.
      destruct (fresh_live k a) as [_ Ho]. unfold select_balance. rewrite Ho. simpl. split; [by destruct (fresh k a)|done].
Qed.

Lemma inv_put_echange k a e acc s :
  account_of k acc s -> acc.(a_nonce).(vn_previous_topoheight) = top (nh k) -> in_u 64 acc.(a_nonce).(vn_nonce) ->
  nh k <> [] -> echange_ok k a e -> asset_registered s.(storage) a -> chain_inv s ->
  chain_inv (put_echange k a e acc s).
Proof.
  intros [_ Hacc] Hp Hu Hne He Has [H1 H2 H3 H4 H5 H6]. split; try done.
  - intros k' acc'. unfold put_echange, put_account. simpl. destruct (decide (k = k')) as [->|Hk].
    + rewrite lookup_insert_eq. by intros [= <-].
    + rewrite lookup_insert_ne by done. apply H4.
  - intros k' a' e'. rewrite sender_echange_put by done. case_decide; [|apply H5]. intros [= <-]. by simplify_eq.
  - intros k' a' e'. rewrite sender_echange_put by done. case_decide; [|apply H6]. intros _. by simplify_eq.
Qed.

Lemma account_from_inv k acc s :
  chain_inv s -> account_from k acc s ->
  account_of k acc s /\ acc.(a_nonce).(vn_previous_topoheight) = top (nh k) /\
  in_u 64 acc.(a_nonce).(vn_nonce) /\ nh k <> [].
Proof using Hst HT Hn Hb.
  intros Hs Ha. split; [by apply account_from_of|]. destruct Ha as [Ha|[Hk Ha]]; [by apply (ci_nonce s Hs)|].
  rewrite (ci_topoheight s Hs) in Ha.
  by apply (create_account_inv _ _ _ (ci_storage s Hs)) in Ha as (? & ? & ? & _).
Qed.

Lemma echange_ok_update k a e q o :
  echange_ok k a e -> no_stale q -> ct_add (ct_of q) o = ct_add (ct_of (selected e)) e.(output_sum) ->
  echange_ok k a (mkEchange e.(allow_output_balance) e.(new_version)
    (put_selected (selects_output e) q e.(e_version)) o e.(output_balance_used)).
Proof using Hst HT Hn Hb.
  intros [Hu Hl Hw] Hq Hsum. destruct (fresh_live k a) as [_ Ho].
  split; unfold selected, selects_output in *; cbn [output_balance_used allow_output_balance e_version output_sum new_version].
  - rewrite Hu. unfold put_selected, select_balance, has_output_balance.
    by destruct e as [al nv [[oo|] f t p] sum used]; destruct al, used; simpl.
  - by rewrite select_put.
  - rewrite select_put, Hsum. intros Hv. destruct (Hw Hv) as [Hver ->]. split; [|done].
    rewrite Hver. unfold put_selected, select_balance. simpl. by rewrite Ho.
Qed.

Lemma sender_asset k a r s e :
  chain_inv s ->
  sender_echange k a s = Some e \/
  sender_echange k a s = None /\ create_sender_echange s.(storage) k a s.(topoheight) r = Ok e ->
  asset_registered s.(storage) a.
Proof.
  intros Hs [He|[_ He]]; [by eapply (ci_asset s Hs)|]. unfold create_sender_echange in He.
  apply res_bind_ok in He as (x & He & _). unfold search_versioned_balance_for_reference in He.
  apply res_bind_ok in He as (ord & _ & He). apply res_bind_ok in He as (rt & _ & He).
  apply res_bind_ok in He as (lo & Hlo & _). by eapply law_asset_output.
Qed.

Lemma inv_internal_sender k a r : always chain_inv (internal_get_sender_verification_balance k a r).
Proof using Hst HT Hn Hb.
  intros s Hs. destruct (internal_get_sender_verification_balance k a r s) as [[ct| | |] s1] eqn:Hr; simpl.
  { apply sender_entry in Hr as (acc & e & e1 & (Ha & Hp & Hu & Hne)%account_from_inv & He & Hg & ->); [|done].
    apply inv_put_echange; try done; [|by eapply sender_asset]. eapply get_balance_ok; [done|].
    destruct He as [He|[_ He]]; [left; by apply (ci_echange s Hs)|].
    rewrite (ci_topoheight s Hs) in He. right. exists s.(storage), r. split; [apply Hs|done]. }
  all: by apply sender_entry_fails in Hr as ->.
Qed.

Lemma echange_put_balance k a e q acc s :
  chain_inv s -> s.(accounts) !! k = Some acc -> sender_echange k a s = Some e ->
  no_stale q -> ct_of q = ct_of (selected e) -> chain_inv (put_echange k a (put_balance q e) acc s).
Proof using Hst HT Hn Hb.
  intros Hs Ha He Hq Hct. destruct (account_from_inv k acc s Hs (or_introl Ha)) as (Hacc & Hp & Hu & Hne).
  apply inv_put_echange; try done; [|by eapply (ci_asset s Hs)]. apply echange_ok_update; [by apply (ci_echange s Hs)|done|]. by rewrite Hct.
Qed.

Lemma inv_get_sender k a r : always chain_inv (get_sender k a r).
Proof using Hst HT Hn Hb.
  intros s Hs. unfold get_sender. apply bind_state; [by apply inv_internal_sender|]. intros ct s1 Hr.
  pose proof (inv_internal_sender k a r s Hs) as H1. rewrite Hr in H1. simpl in H1.
  apply bind_state; [done|]. intros [c q] s2 [= Hc <-]. simpl.
  destruct (accounts s1 !! k) as [acc|] eqn:Ha; [|done]. destruct (sender_echange k a s1) as [e|] eqn:He; [|done].
  apply map_err_ok in Hc. pose proof (computable_no_stale _ _ _ Hc) as Hq. apply computable_ct in Hc as (Hct & Hqc & _).
  apply echange_put_balance; try done. apply sender_entry in Hr as (acc' & e0 & e1 & _ & _ & Hg & ->).
  rewrite echange_put in He. injection He as <-. apply get_balance_eq in Hg as (-> & Hsel & _). by rewrite Hqc, Hsel.
Qed.

(** *** Nonces *)

Lemma inv_put_account k acc s :
  (forall b, a_assets acc !! b = sender_echange k b s) -> acc.(a_nonce).(vn_previous_topoheight) = top (nh k) ->
  in_u 64 acc.(a_nonce).(vn_nonce) -> nh k <> [] -> chain_inv s -> chain_inv (put_account k acc s).
Proof.
  intros Hacc Hp Hu Hne [H1 H2 H3 H4 H5 H6]. split; try done.
  - intros k' acc'. unfold put_account. simpl. destruct (decide (k = k')) as [->|Hk].
    + rewrite lookup_insert_eq. by intros [= <-].
    + rewrite lookup_insert_ne by done. apply H4.
  - intros k' a' e'. unfold put_account, with_accounts. unfold sender_echange at 1. cbn [accounts].
    destruct (decide (k = k')) as [->|Hk]; [|rewrite lookup_insert_ne by done; apply H5].
    rewrite lookup_insert_eq. cbn. rewrite Hacc. apply H5.
  - intros k' a' e'. unfold put_account, with_accounts. unfold sender_echange at 1. cbn [accounts].
    destruct (decide (k = k')) as [->|Hk]; [|rewrite lookup_insert_ne by done; apply H6].
    rewrite lookup_insert_eq. cbn. rewrite Hacc. apply H6.
Qed.

Lemma inv_update_nonce k n : in_u 64 n -> always chain_inv (internal_update_account_nonce k n).
Proof using Hst HT Hn Hb.
  intros Hu s Hs. unfold internal_update_account_nonce. apply bind_state; [done|]. intros s0 s1 [= <- <-].
  apply bind_state; [by destruct (accounts s !! k)|]. intros acc s2 Ha.
  assert (account_from k acc s /\ s2 = s) as [Hacc ->].
  { unfold account_from. destruct (accounts s !! k) as [acc0|]; injection Ha as Ha <-; subst; auto. }
  destruct (account_from_inv k acc s Hs Hacc) as ([_ Hb'] & Hp & _ & Hne). by apply inv_put_account.
Qed.

Lemma inv_get_nonce k : always chain_inv (internal_get_account_nonce k).
Proof using Hst HT Hn Hb.
  intros s Hs. unfold internal_get_account_nonce. apply bind_state; [done|]. intros s0 s1 [= <- <-].
  destruct (accounts s !! k) as [acc0|] eqn:Hk; [done|]. apply bind_state; [done|]. intros acc s2 [= Ha <-].
  destruct (account_from_inv k acc s Hs) as ([_ Hb'] & Hp & Hu & Hne); [by right|]. by apply inv_put_account.
Qed.

Lemma inv_reward miner reward : always chain_inv (reward_miner miner reward).
Proof using Hst HT Hn Hb.
  apply always_bind; [by apply inv_receiver|]. intros c s Hs. by apply inv_set_receiver.
Qed.

(** *** Transactions *)

(** One debit: the balance verified loses what the sum gains. *)
Lemma inv_change tx o a s :
  chain_inv s ->
  chain_inv (apply_change tx (ct_sub (l_send (obs s) tx.(source) a tx.(reference)) o, o, a) s).2.
Proof using Hst HT Hn Hb.
  intros Hs. set (k := source tx). set (r := reference tx).
  destruct (get_sender k a r s) as [[c| | |] s1] eqn:Hr; cycle 1.
  1-3: pose proof (inv_get_sender k a r s Hs) as H1; rewrite Hr in H1; simpl in H1;
    by rewrite (change_fails tx _ o a s _ s1 Hr).
  pose proof (inv_get_sender k a r s Hs) as H1. rewrite Hr in H1. simpl in H1.
  destruct (change_run tx (ct_sub (l_send (obs s) k a r) o) o a s c s1 Hr) as (acc & e & Ha & He & Hput & Hsel & Hc & ->).
  change (l_send (obs s) k a r) with (l_send (chain_ledger s) tx.(source) a tx.(reference)). rewrite Hc. simpl.
  destruct (account_from_inv k acc s1 H1 (or_introl Ha)) as (Hacc & Hp & Hu & Hne).
  apply inv_put_echange; try done; [|by eapply (ci_asset s1 H1)].
  set (q := put_computable (ct_sub c o) (selected e)).
  apply (echange_ok_update k a e q (ct_add e.(output_sum) o)); [by apply (ci_echange s1 H1)| |].
  - apply put_no_stale, (eo_live _ _ _ (ci_echange s1 H1 _ _ _ He)).
  - unfold q. by rewrite Hput, Hsel, ct_spend.
Qed.

(** The two writes of a debit, in the order of the code. *)
Lemma inv_debit tx a o s c s1 :
  chain_inv s -> get_sender tx.(source) a tx.(reference) s = (Ok c, s1) ->
  chain_inv (internal_update_sender_echange tx.(source) a o (set_sender tx.(source) a (ct_sub c o) s1)).2.
Proof using Hst HT Hn Hb.
  intros Hs Hr. destruct (change_run tx (ct_sub c o) o a s c s1 Hr) as (_ & _ & _ & _ & _ & _ & Hc & _).
  pose proof (inv_change tx o a s Hs) as Hi. change (l_send (obs s)) with (l_send (chain_ledger s)) in Hi. rewrite Hc in Hi.
  unfold apply_change, state, mbind, stm_bind, st_modify, st_map_err in Hi.
  cbn [get_sender_balance set_sender_balance add_sender_output chain_verification] in Hi. rewrite Hr in Hi. cbn [map_err] in Hi.
  by destruct (internal_update_sender_echange _ _ _ _) as [[]].
Qed.
Lemma inv_pre_verify tx : always chain_inv (chain_pre_verify_tx tx).
Proof.
  intros s Hs. unfold chain_pre_verify_tx. destruct (negb _); [done|]. apply bind_state; [done|]. intros s0 s1 [= <- <-].
  apply bind_state; [done|]. intros fees s2 [= _ <-]. destruct (_ <? _); [done|]. by destruct (_ <? _).
Qed.

Lemma inv_changes tx ds l0 assets s :
  NoDup assets -> chain_inv s ->
  (forall a, a ∈ assets ->
     l_send (obs s) tx.(source) a tx.(reference) = l_send l0 tx.(source) a tx.(reference)) ->
  chain_inv (foldMs (fun _ change => apply_change tx change) tt
    ((fun a => (ct_sub (l_send l0 tx.(source) a tx.(reference)) (output_of tx a ds),
                output_of tx a ds, a)) <$> assets) s).2.
Proof using Hst HT Hn Hb.
  intros Hnd. revert s. induction Hnd as [|a assets Ha _ IH]; intros s Hs Hl; [done|]. csimpl.
  pose proof (inv_change tx (output_of tx a ds) a s Hs) as H1. rewrite (Hl a) in H1 by left.
  apply bind_state; [done|]. intros [] s1 Hr. change (apply_change tx (ct_sub (l_send l0 (source tx) a (reference tx)) (output_of tx a ds),
    output_of tx a ds, a) s = (Ok tt, s1)) in Hr. rewrite Hr in H1. simpl in H1. apply IH; [done|].
  apply apply_change_obs in Hr as [_ (_ & _ & Hsend & _)]; [|done]. intros b Hin. rewrite Hsend.
  unfold debit_step. cbn [l_send upd_out upd_send]. rewrite fn_upd_pair, decide_False by (intros [= ->]; done).
  apply Hl. by right.
Qed.

Lemma inv_partial_commitment tx owner ds rnd acc p : always chain_inv (partial_commitment tx owner ds rnd acc p).
Proof using Hst HT Hn Hb.
  destruct acc as [[[t b] d] cs], p as [c pc]. unfold partial_commitment.
  apply always_bind; [apply always_lift|]. intros o.
  apply always_bind; [apply always_map_err, inv_get_sender|]. intros bal.
  apply always_bind; [apply always_lift|]. by intros [t' b'] s.
Qed.

Lemma inv_transfer t : always chain_inv (apply_transfer (St:=chain) (E:=blockchain_error) t).
Proof using Hst HT Hn Hb.
  apply always_bind; [apply inv_receiver|]. intros c. apply always_bind.
  - intros s Hs. unfold expect. by destruct (ct_decompress _).
  - intros ct s Hs. by apply inv_set_receiver.
Qed.

(** The two loops over the commitments. *)
Lemma inv_debits tx owner ds rnd cs t s acc s1 :
  NoDup (assets_of tx) -> chain_inv s ->
  mapMr (fun c => commitment_decompress c.(sc_commitment)) tx.(source_commitments) = Ok cs ->
  foldMs (partial_commitment tx owner ds rnd) (t, collector_default, 0%nat, []) (zip tx.(source_commitments) cs) s =
    (Ok acc, s1) ->
  chain_inv s1 /\ chain_inv (foldMs (fun _ change => apply_change tx change) tt acc.2 s1).2 /\
  acc.2.*2 = assets_of tx.
Proof using Hst HT Hn Hb.
  intros Hnd Hs Hcs Hr.
  pose proof (always_foldMs chain_inv (partial_commitment tx owner ds rnd) (t, collector_default, 0%nat, [])
    (zip (source_commitments tx) cs) (fun b a _ => inv_partial_commitment tx owner ds rnd b a) s Hs) as H1.
  rewrite Hr in H1. simpl in H1. split; [done|].
  apply partial_commitments_obs in Hr as (_ & Ho & Hch); [|done]. cbn [snd app] in Hch.
  rewrite pc_assets in * by done. rewrite Hch. split.
  - apply (inv_changes tx ds (obs s) (assets_of tx) s1 Hnd H1). intros a Ha.
    destruct Ho as (_ & _ & -> & _). destruct (pin_agree tx (assets_of tx) (obs s)) as (_ & _ & -> & _); done.
  - rewrite <- list_fmap_compose. by rewrite <- (list_fmap_id (assets_of tx)) at 2.
Qed.

Lemma inv_apply_partial tx rnd s :
  NoDup (assets_of tx) -> chain_inv s -> chain_inv (apply_with_partial_verify tx rnd s).2.
Proof using Hst HT Hn Hb.
  intros Hnd Hs. unfold apply_with_partial_verify. apply bind_state; [exact Hs|].
  intros ds s1 [Hds ->]%proof_ok. apply bind_state; [exact Hs|].
  intros cs s2 [Hcs%map_err_ok ->]%proof_ok. apply bind_state; [exact Hs|].
  intros owner s3 [_ ->]%proof_ok. apply bind_state.
  { apply (always_foldMs chain_inv); [|done]. intros b a _. apply inv_partial_commitment. }
  intros [[[t b] d] changes] s4 Hr. apply (inv_debits tx owner ds rnd cs) in Hr as (H4 & H6 & _); [|done..].
  apply bind_state; [exact H4|]. intros u s5 [_ ->]%proof_ok. apply bind_state; [exact H6|]. intros u6 s6 Hr6.
  cbn [snd] in H6. rewrite Hr6 in H6.
  apply (always_foldMs chain_inv); [|done]. intros b' a _. apply always_map_err, inv_transfer.
Qed.
End Invariant.

(** The chain state of a new block. *)
Section Start.
Context {CV : Curve} {ML : Merlin} {RP : RangeProofLib} {S : Type} {SP : Storage S} {SLaws : StorageLaws S}.

Lemma inv_start nh bh T (st : S) : stores nh bh st -> chain_inv nh bh T (chain_with st T).
Proof. intros Hs. split; try done; intros *; unfold receiver_version, sender_echange; simpl; by rewrite ?lookup_empty. Qed.

(** C8: the invariant of the chain state.  It holds of a new chain state over a
    storage whose versions are all below its topoheight, and these calls keep
    it, whatever their result: the checks before a transaction, the reads of
    balances and nonces, a write of the balance of a receiver, the rewards, the
    setting of a nonce to a machine integer, and the execution of a transaction
    whose commitments are for distinct assets, which is checked when it is
    verified.  The two writes of a debit keep it together, in the order of the
    code: the new balance of the sender and the output added to the sum are
    only consistent with each other. *)
Theorem chain_state_invariant (nh : NonceHistories) (bh : BalanceHistories) (T : Z) (st : S)
    (Hs : stores nh bh st) (HT : in_u 64 T) (Hn : below T nh) (Hb : below T bh) :
  chain_inv nh bh T (chain_with st T) /\
  (forall k a, always (chain_inv nh bh T) (internal_get_receiver_balance (S:=S) k a)) /\
  (forall k a r, always (chain_inv nh bh T) (get_sender (S:=S) k a r)) /\
  (forall k, always (chain_inv nh bh T) (internal_get_account_nonce (S:=S) k)) /\
  (forall k n, in_u 64 n -> always (chain_inv nh bh T) (internal_update_account_nonce (S:=S) k n)) /\
  (forall miner reward, always (chain_inv nh bh T) (reward_miner (S:=S) miner reward)) /\
  (forall tx, always (chain_inv nh bh T) (chain_pre_verify_tx (S:=S) tx)) /\
  (forall k a c s, chain_inv nh bh T s -> chain_inv nh bh T (set_receiver (S:=S) k a c s)) /\
  (forall tx a o s c s1, chain_inv nh bh T s -> get_sender (S:=S) tx.(source) a tx.(reference) s = (Ok c, s1) ->
     chain_inv nh bh T (internal_update_sender_echange tx.(source) a o (set_sender tx.(source) a (ct_sub c o) s1)).2) /\
  (forall tx rnd, NoDup (assets_of tx) ->
     always (chain_inv nh bh T) (apply_with_partial_verify (St:=ChainState (S:=S)) (E:=blockchain_error) tx rnd)).
Proof.
  pose proof (fun k a t v => law_history_stored nh bh st k a t v Hs) as Hst.
  split_and!; [by apply inv_start|intros..].
  - by apply inv_receiver.
  - by apply inv_get_sender.
  - by apply inv_get_nonce.
  - by apply inv_update_nonce.
  - by apply inv_reward.
  - apply inv_pre_verify.
  - by apply inv_set_receiver.
  - by eapply inv_debit.
  - intros s Hi. by apply inv_apply_partial.
Qed.
End Start.
