(* ===== verification/ApplyChanges.v ===== *)
(** [apply_changes]: what the execution of a block leaves in the storage.

    [merged] describes the version written for a balance that was spent, and
    [apply_changes_histories] the storage after the call: one new version on
    top of the history of each balance that was touched. *)

From Stdlib Require Import Setoid Morphisms.
From S2P Require Import Prelude External ExternalModel ExternalCrypto Serializer Hash Defaults Elgamal Proofs Transaction Verify VerifyFacts Errors Account Versions Storage StorageFacts Providers Emission Reference StorageLaws ChainState ChainFacts ChainInvariant.

(** ** Iterations over a map *)
Section Iter.
Context {HM : HashMapIter}.

Lemma iter_NoDup {K A} `{Countable K} (m : gmap K A) : NoDup ((hm_iter m).*1).
Proof. rewrite hm_iter_spec. apply NoDup_fst_map_to_list. Qed.
Lemma iter_elem {K A} `{Countable K} (m : gmap K A) k x : (k, x) ∈ hm_iter m <-> m !! k = Some x.
Proof. rewrite hm_iter_spec. apply elem_of_map_to_list. Qed.
Lemma iter_split {K A} `{Countable K} (m : gmap K A) pre k x post :
  hm_iter m = pre ++ (k, x) :: post -> m !! k = Some x /\ k ∉ pre.*1.
Proof.
  intros E. split.
  - apply iter_elem. rewrite E. set_solver.
  - pose proof (iter_NoDup m) as Hnd. rewrite E, fmap_app in Hnd. csimpl in Hnd.
    apply list.NoDup_app in Hnd as (_ & Hnd & _). intros Hin. apply (Hnd k Hin). left.
Qed.
Lemma iter_dom {K A} `{Countable K} (m : gmap K A) k : k ∈ (hm_iter m).*1 <-> is_Some (m !! k).
Proof.
  rewrite list_elem_of_fmap. split.
  - intros ([k' x] & -> & Hin%iter_elem). by exists x.
  - intros [x Hx%iter_elem]. by exists (k, x).
Qed.

End Iter.

Section Apply.
Context {CV : Curve} {ML : Merlin} {RP : RangeProofLib} {HM : HashMapIter}.
Context {S : Type} {SP : Storage S} {SLaws : StorageLaws S}.
Context (nh : NonceHistories) (bh : BalanceHistories) (T : Z).
Context (Hst : forall k a t v, (t, v) ∈ bh (k, a) -> stored v = v) (HT : in_u 64 T) (Hn : below T nh) (Hb : below T bh).

Abbreviation chain := (ChainState (S:=S)).
Implicit Types s : chain.

(** The balance that is in the account before the outputs are subtracted. *)
Definition credited (k : CompressedPublicKey) (a : Hash) (incoming : option VersionedBalance) : Ciphertext :=
  match incoming with Some v => ct_of v.(final_balance) | None => ct_of (fresh bh k a).(final_balance) end.

(** A version that may be written. *)
Record writable (k : CompressedPublicKey) (a : Hash) (v : VersionedBalance) : Prop := {
  wr_previous : v.(previous_topoheight) = top (bh (k, a));
  wr_wf : balance_wf v;
  wr_live : no_stale v.(final_balance);
}.

Record merged (k : CompressedPublicKey) (a : Hash) (e : Echange) (incoming : option VersionedBalance)
    (v : VersionedBalance) : Prop := {
  me_writable : writable k a v;
  me_final : ct_of v.(final_balance) = ct_sub (credited k a incoming) e.(output_sum);
  me_kind : match incoming with
            | Some _ => v.(balance_type) = BothB /\
                exists q, v.(output_balance) = Some q /\ no_stale q /\ ct_of q = ct_of (selected e)
            | None => v.(balance_type) = OutputB /\ v.(output_balance) = None
            end;
}.

Lemma fresh_previous k a : (fresh bh k a).(previous_topoheight) = top (bh (k, a)).
Proof. unfold fresh. by destruct (bh (k, a)) as [|[t v] h]. Qed.
Lemma fresh_shape k a : (fresh bh k a).(output_balance) = None /\ (fresh bh k a).(balance_type) = InputB.
Proof. unfold fresh. by destruct (bh (k, a)) as [|[t v] h]. Qed.

Lemma take_selected e : e.(output_balance_used) = selects_output e && has_output_balance e.(e_version) ->
  take_balance_with e.(output_balance_used) e.(e_version) = selected e.
Proof.
  intros ->. unfold selected, take_balance_with, select_balance, has_output_balance.
  by destruct (output_balance (e_version e)); destruct (selects_output e).
Qed.

Lemma computable_version_live v c v' :
  computable_version v = Ok (c, v') ->
  exists q, v' = Account.set_balance q v /\ ct_of v.(final_balance) = c /\ no_stale q /\
    forall c', ct_of (put_computable c' q) = c'.
Proof.
  unfold computable_version. intros ([c' k] & Hk%map_err_ok & [= -> <-])%res_bind_ok.
  pose proof (computable_no_stale _ _ _ Hk). apply computable_ct in Hk. exists k. naive_solver.
Qed.

Lemma merge_merged k a e incoming nh' st' v :
  stores nh' bh st' -> echange_ok bh k a e ->
  (forall v0, incoming = Some v0 -> v0 = Account.set_balance v0.(final_balance) (fresh bh k a)) ->
  merge_echange k a e incoming st' T = Ok v -> merged k a e incoming v.
Proof using HT Hb.
  intros Hs' He Hin. destruct (fresh_shape k a) as [Ho Hty]. pose proof (fresh_previous k a) as Hp.
  destruct incoming as [v0|]; simpl.
  - specialize (Hin v0 eq_refl). rewrite (take_selected e) by apply He.
    intros ([c v1] & (q & -> & Hc & Hq & Hput)%computable_version_live & [= <-])%res_bind_ok. simpl in *.
    split; [split|..]; simpl.
    + by rewrite Hin.
    + done.
    + by apply put_no_stale.
    + by rewrite Hput, Hc.
    + split; [done|]. exists (selected e). split_and!; [done|apply He|done].
  - intros (v1 & Hv1 & [= <-])%res_bind_ok.
    enough (writable k a v1 /\ ct_of v1.(final_balance) = ct_sub (ct_of (fresh bh k a).(final_balance)) e.(output_sum) /\
      v1.(output_balance) = None) as ([Hp1 Hw1 Hl1] & Hct & Ho1).
    { split; [split|done|done]; simpl; [done| |done]. unfold balance_wf. simpl. by rewrite Ho1. }
    destruct (output_balance_used e || negb (new_version e)) eqn:Hcase.
    + apply res_bind_ok in Hv1 as (v2 & Hv2 & ([c v3] & (q & -> & Hc & Hq & Hput)%computable_version_live & [= <-])%res_bind_ok).
      rewrite (law_new_balance _ _ _ _ _ _ _ Hs' HT Hv2), below_latest in * by done. fold (fresh bh k a) in *.
      split; [split; simpl|split; simpl]; try done.
      * unfold balance_wf. simpl. by rewrite Ho, Hty.
      * by apply put_no_stale.
      * by rewrite Hput, Hc.
    + injection Hv1 as <-. apply orb_false_iff in Hcase as [_ Hnew%negb_false_iff].
      destruct (eo_new _ _ _ _ He Hnew) as [Hver Hsum]. pose proof (eo_live _ _ _ _ He) as Hl.
      unfold selected, select_balance in Hsum, Hl. rewrite Hver in *. simpl in *. rewrite Ho in *. simpl in *.
      split; [split; simpl|split; simpl]; try done.
      * unfold balance_wf. simpl. by rewrite Ho, Hty.
      * by apply ct_sub_of_add.
Qed.

(** ** The senders *)

Section Senders.
Context (s0 : chain) (Hs0 : chain_inv nh bh T s0).

(** The receiver versions once the entries that satisfy [P] are merged. *)
Definition merged_at (P : CompressedPublicKey -> Hash -> Prop) (s : chain) : Prop := forall k a,
  match sender_echange k a s0 with
  | Some e =>
      (P k a -> exists v, receiver_version k a s = Some v /\ merged k a e (receiver_version k a s0) v) /\
      (~ P k a -> receiver_version k a s = receiver_version k a s0)
  | None => receiver_version k a s = receiver_version k a s0
  end.

Lemma merged_at_ext P Q s : (forall k a, is_Some (sender_echange k a s0) -> P k a <-> Q k a) ->
  merged_at P s -> merged_at Q s.
Proof.
  intros He Hm k a. specialize (Hm k a). specialize (He k a). destruct (sender_echange k a s0) as [e|]; [|done].
  destruct (He ltac:(done)) as [H1 H2]. destruct Hm. split; auto.
Qed.

(** The nonces once those of the keys in [l] are written. *)
Definition nonces_after (l : list CompressedPublicKey) : NonceHistories := fun k =>
  match s0.(accounts) !! k with
  | Some acc => if decide (k ∈ l) then (T, acc.(a_nonce)) :: nh k else nh k
  | None => nh k
  end.

Record senders_inv (l : list CompressedPublicKey) (P : CompressedPublicKey -> Hash -> Prop) (s : chain) : Prop := {
  si_accounts : s.(accounts) = s0.(accounts);
  si_topoheight : s.(topoheight) = T;
  si_stores : stores (nonces_after l) bh s.(storage);
  si_merged : merged_at P s;
  si_keys k : is_Some (s.(receiver_balances) !! k) <-> is_Some (s0.(receiver_balances) !! k) \/ k ∈ l;
}.

Lemma put_receiver_keys k a v s k' :
  is_Some (s.(receiver_balances) !! k) ->
  is_Some ((put_receiver k a v s).(receiver_balances) !! k') <-> is_Some (s.(receiver_balances) !! k').
Proof.
  intros Hk. unfold put_receiver. simpl. destruct (decide (k = k')) as [->|Hne].
  - by rewrite lookup_insert_eq.
  - by rewrite lookup_insert_ne.
Qed.

(** One entry is merged. *)
Lemma sender_asset_step l P k a e s s' :
  senders_inv l P s -> ~ P k a -> k ∈ l -> sender_echange k a s0 = Some e ->
  (s1 ← st_get;
   version ← lift_res (merge_echange k a e (receiver_version k a s1) s1.(storage) s1.(topoheight));
   st_modify (put_receiver k a version)) s = (Ok tt, s') ->
  senders_inv l (fun k' a' => P k' a' \/ (k', a') = (k, a)) s'.
Proof using HT Hb Hs0.
  intros [H1 H2 H3 H4 H5] HP Hk He (s1 & s2 & [= <- <-] & (v & s3 & [= Hv <-] & [= <-])%stm_bind_ok)%stm_bind_ok.
  pose proof (H4 k a) as Hrec. rewrite He in Hrec. destruct Hrec as [_ Hrec]. specialize (Hrec HP).
  rewrite Hrec, H2 in Hv. apply (merge_merged _ _ _ _ _ _ _ H3) in Hv.
  2: { by apply (ci_echange _ _ _ s0 Hs0). }
  2: { intros v0 Hv0. by apply (ci_receiver _ _ _ s0 Hs0) in Hv0 as [? _]. }
  split; try done.
  - intros k' a'. specialize (H4 k' a'). rewrite receiver_version_put. case_decide as Hd.
    + injection Hd as <- <-. rewrite He in *. split; [|tauto]. intros _. eauto.
    + destruct (sender_echange k' a' s0) as [e'|]; [|done]. destruct H4 as [Hy Hno]. split.
      * intros [Hp|[= -> ->]]; [auto|done].
      * intros Hnot. apply Hno. tauto.
  - intros k'. rewrite put_receiver_keys; [apply H5|]. apply H5. by right.
Qed.

(** One account is written. *)
Lemma sender_step pre k acc s s' :
  k ∉ pre -> s0.(accounts) !! k = Some acc ->
  senders_inv pre (fun k' _ => k' ∈ pre) s -> apply_sender (k, acc) s = (Ok tt, s') ->
  senders_inv (pre ++ [k]) (fun k' _ => k' ∈ pre ++ [k]) s'.
Proof using Hst HT Hn Hb Hs0.
  intros Hk Ha [H1 H2 H3 H4 H5]. unfold apply_sender.
  intros (s1 & s2 & [= <- <-] & (u & s3 & Hset & (u' & s4 & [= _ <-] & Hr)%stm_bind_ok)%stm_bind_ok)%stm_bind_ok.
  destruct (ci_nonce _ _ _ s0 Hs0 k acc Ha) as (Hp & Hu & Hne).
  assert (nonces_after pre k = nh k) as Ek by (unfold nonces_after; by rewrite Ha, decide_False).
  destruct (law_set_nonce _ _ _ k T acc.(a_nonce) H3 HT Hu) as (st' & Hrun & Hst'); rewrite ?Ek in *; [done| |].
  { intros p Hp'. by apply (below_top T nh k). }
  unfold on_storage in Hset. rewrite H2, Hrun in Hset. injection Hset as _ <-.
  set (s5 := open_receiver k (with_storage st' s)) in *.
  assert (senders_inv (pre ++ [k]) (fun k' a' => k' ∈ pre \/ k' = k /\ a' ∈ ([] : list Hash)) s5) as H6.
  { split; try done.
    - simpl. eapply law_ext; [|done|exact Hst']. intros k'. unfold nonces_after. destruct (decide (k' = k)) as [->|Hne'].
      + by rewrite Ha, fn_upd_eq, decide_True by set_solver.
      + rewrite fn_upd_ne by done. destruct (accounts s0 !! k'); [|done].
        destruct (decide (k' ∈ pre)), (decide (k' ∈ pre ++ [k])); set_solver.
    - unfold s5. apply (merged_at_ext (fun k' _ => k' ∈ pre)); [set_solver|]. intros k' a'. specialize (H4 k' a').
      rewrite receiver_version_open. exact H4.
    - intros k'. unfold s5, open_receiver. simpl. destruct (decide (k' = k)) as [->|Hne'].
      + rewrite lookup_insert_eq. set_solver.
      + rewrite lookup_insert_ne by done. rewrite H5. set_solver. }
  clearbody s5. clear - Hr H6 Ha HT Hb Hs0 Hk.
  apply (foldMs_prefix _ (fun Q s => senders_inv (pre ++ [k]) (fun k' a' => k' ∈ pre \/ k' = k /\ a' ∈ Q.*1) s)) in Hr.
  - destruct Hr as [R1 R2 R3 R4 R5]. split; try done. eapply merged_at_ext; [|exact R4].
    intros k' a' [e He]. simpl. rewrite elem_of_app, list_elem_of_singleton.
    split; [tauto|]. intros [Hin| ->]; [by left|right]. split; [done|].
    apply iter_dom. unfold sender_echange in He. rewrite Ha in He. by exists e.
  - exact H6.
  - intros Q [a e] post s1 s2 HQ Hs1 Hstep. apply iter_split in HQ as [He Hnin].
    apply (sender_asset_step _ _ k a e s1 s2 Hs1) in Hstep.
    + destruct Hstep as [R1 R2 R3 R4 R5]. split; try done. eapply merged_at_ext; [|exact R4].
      intros k' a' _. simpl. rewrite fmap_app, elem_of_app. csimpl. rewrite list_elem_of_singleton. naive_solver.
    + intros [?|[_ ?]]; done.
    + set_solver.
    + unfold sender_echange. by rewrite Ha.
Qed.

(** All the accounts are written. *)
Lemma senders_done s1 :
  foldMs (fun _ p => apply_sender p) tt (hm_iter s0.(accounts)) s0 = (Ok tt, s1) ->
  senders_inv (hm_iter s0.(accounts)).*1 (fun _ _ => True) s1.
Proof using Hst HT Hn Hb Hs0.
  intros Hr. apply (foldMs_prefix _ (fun pre s => senders_inv pre.*1 (fun k _ => k ∈ pre.*1) s)) in Hr.
  - destruct Hr as [R1 R2 R3 R4 R5]. split; try done. eapply merged_at_ext; [|exact R4].
    intros k a [e He]. split; [done|]. intros _. apply iter_dom. unfold sender_echange in He.
    destruct (accounts s0 !! k); [by eexists|done].
  - split; try done.
    + by apply (ci_topoheight _ _ _ s0 Hs0).
    + eapply law_ext; [|done|exact (ci_storage _ _ _ s0 Hs0)]. intros k. unfold nonces_after.
      destruct (accounts s0 !! k); [|done]. by rewrite decide_False by set_solver.
    + intros k a. destruct (sender_echange k a s0); [|done]. split; [set_solver|done].
    + intros k. set_solver.
  - intros pre [k acc] post s2 s3 HQ Hs2 Hstep. apply iter_split in HQ as [He Hnin].
    rewrite fmap_app. exact (sender_step _ k acc s2 s3 Hnin He Hs2 Hstep).
Qed.

Lemma merged_writable s1 k a v :
  merged_at (fun _ _ => True) s1 -> receiver_version k a s1 = Some v -> writable k a v.
Proof using Hs0.
  intros Hm Hv. specialize (Hm k a). destruct (sender_echange k a s0) as [e|].
  - destruct Hm as [Hm _]. destruct (Hm I) as (v' & Hv' & [Hw _ _]). congruence.
  - rewrite Hv in Hm. symmetry in Hm. apply (ci_receiver _ _ _ s0 Hs0) in Hm as [Hv' Hl].
    destruct (fresh_shape k a) as [Ho Hty]. pose proof (fresh_previous k a) as Hp.
    rewrite Hv' in *. split; simpl in *; [done| |done]. unfold balance_wf. simpl. by rewrite Ho, Hty.
Qed.
End Senders.

(** ** The receivers *)

Section Receivers.
Context (nh1 : NonceHistories) (s1 : chain).
Context (Hw : forall k a v, receiver_version k a s1 = Some v -> writable k a v).

Definition defaulted (k : CompressedPublicKey) : list (Z * VersionedNonce) :=
  match s1.(accounts) !! k, nh1 k with None, [] => [(T, mkVNonce 0 None)] | _, h => h end.

Definition stored_after (l : list CompressedPublicKey) (P : CompressedPublicKey -> Hash -> Prop) (st' : S) : Prop :=
  exists nh' bh', stores nh' bh' st' /\ (forall k, nh' k = if decide (k ∈ l) then defaulted k else nh1 k) /\
    forall k a, match receiver_version k a s1 with
                | Some v => (P k a -> bh' (k, a) = (T, stored v) :: bh (k, a)) /\ (~ P k a -> bh' (k, a) = bh (k, a))
                | None => bh' (k, a) = bh (k, a)
                end.

Record receivers_inv (l : list CompressedPublicKey) (P : CompressedPublicKey -> Hash -> Prop) (s : chain) : Prop := {
  ri_accounts : s.(accounts) = s1.(accounts);
  ri_receivers : s.(receiver_balances) = s1.(receiver_balances);
  ri_topoheight : s.(topoheight) = T;
  ri_stored : stored_after l P s.(storage);
}.

Lemma stored_after_ext l P Q st' :
  (forall k a, is_Some (receiver_version k a s1) -> P k a <-> Q k a) -> stored_after l P st' -> stored_after l Q st'.
Proof.
  intros He (nh' & bh' & Hs & Hnh & Hbh). exists nh', bh'. split_and!; [done..|]. intros k a.
  specialize (Hbh k a). specialize (He k a). destruct (receiver_version k a s1) as [v|]; [|done].
  destruct (He ltac:(done)). destruct Hbh. split; auto.
Qed.

(** One balance is written. *)
Lemma receiver_asset_step l P k a v s s' :
  receivers_inv l P s -> ~ P k a -> receiver_version k a s1 = Some v ->
  on_storage (set_last_balance_to k a T v) s = (Ok tt, s') ->
  receivers_inv l (fun k' a' => P k' a' \/ (k', a') = (k, a)) s'.
Proof using Hst HT Hn Hb Hw.
  intros [H1 H2 H3 (nh' & bh' & Hs & Hnh & Hbh)] HP Hv Hr. destruct (Hw k a v Hv) as [Hp Hwf _].
  assert (bh' (k, a) = bh (k, a)) as Ebh by (specialize (Hbh k a); rewrite Hv in Hbh; by apply Hbh).
  destruct (law_set_balance _ _ _ k a T v Hs HT Hwf) as (st' & Hrun & Hst'); rewrite ?Ebh in *; [done| |].
  { intros p Hp'. by apply (below_top T bh (k, a)). }
  unfold on_storage in Hr. rewrite Hrun in Hr. injection Hr as <-. split; try done.
  exists nh', (fn_upd (k, a) ((T, stored v) :: bh (k, a)) bh'). split_and!; [done..|]. intros k' a'. specialize (Hbh k' a').
  destruct (decide ((k', a') = (k, a))) as [[= -> ->]|Hne].
  - rewrite Hv, fn_upd_eq. split; [done|tauto].
  - rewrite fn_upd_ne by done. destruct (receiver_version k' a' s1); [|done]. destruct Hbh as [Hy Hno].
    split; [intros [?|?]; [auto|done]|]. intros Hnot. apply Hno. tauto.
Qed.

(** The balances of one account are written. *)
Lemma receiver_balances_step pre k m s s' :
  s1.(receiver_balances) !! k = Some m -> k ∉ pre -> receivers_inv pre (fun k' _ => k' ∈ pre) s ->
  foldMs (fun _ '(asset, version) => on_storage (set_last_balance_to k asset T version)) tt (hm_iter m) s = (Ok tt, s') ->
  receivers_inv pre (fun k' _ => k' ∈ pre ++ [k]) s'.
Proof using Hst HT Hn Hb Hw.
  intros Hm Hk Hs Hloop.
  apply (foldMs_prefix _ (fun Q s => receivers_inv pre (fun k' a' => k' ∈ pre \/ k' = k /\ a' ∈ Q.*1) s)) in Hloop.
  - destruct Hloop as [R1 R2 R3 R4]. split; try done. eapply stored_after_ext; [|exact R4].
    intros k' a' [v Hv]. simpl. rewrite elem_of_app, list_elem_of_singleton.
    split; [tauto|]. intros [Hin| ->]; [by left|right]. split; [done|]. apply iter_dom.
    unfold receiver_version in Hv. rewrite Hm in Hv. by exists v.
  - destruct Hs as [R1 R2 R3 R4]. split; try done. eapply stored_after_ext; [|exact R4]. set_solver.
  - intros Q [a v] post s2 s3 HQ Hs2 Hstep. apply iter_split in HQ as [He Hnin].
    apply (receiver_asset_step _ _ k a v s2 s3 Hs2) in Hstep.
    + destruct Hstep as [R1 R2 R3 R4]. split; try done. eapply stored_after_ext; [|exact R4].
      intros k' a' _. simpl. rewrite fmap_app, elem_of_app. csimpl. rewrite list_elem_of_singleton. naive_solver.
    + intros [?|[_ ?]]; done.
    + unfold receiver_version. by rewrite Hm.
Qed.

(** An account without a nonce gets the default one. *)
Lemma default_nonce_step pre k P s s' :
  k ∉ pre -> receivers_inv pre P s ->
  match s.(accounts) !! k with
  | Some _ => mret tt
  | None =>
      b ← lift_res (has_nonce s.(storage) k);
      if negb b then on_storage (set_last_nonce_to k s.(topoheight) (mkVNonce 0 None)) else mret tt
  end s = (Ok tt, s') ->
  receivers_inv (pre ++ [k]) P s'.
Proof using Hst HT Hn Hb Hw.
  intros Hk [R1 R2 R3 (nh' & bh' & Hst' & Hnh & Hbh)] Hdef.
  assert (nh' k = nh1 k) as Ek by (rewrite Hnh; by rewrite decide_False).
  assert (forall st' nh2, stores nh2 bh' st' -> nh2 k = defaulted k -> (forall k', k' <> k -> nh2 k' = nh' k') ->
    stored_after (pre ++ [k]) P st') as Hafter.
  { intros st' nh2 Hst2 Hd Hne. exists nh2, bh'. split_and!; [done| |done]. intros k'.
    destruct (decide (k' = k)) as [->|Hk']; [rewrite Hd, decide_True by set_solver; done|].
    rewrite Hne, Hnh by done. destruct (decide (k' ∈ pre)), (decide (k' ∈ pre ++ [k])); set_solver. }
  unfold defaulted in Hafter. rewrite R1 in Hdef. destruct (accounts s1 !! k) as [acc|] eqn:Ha.
  { injection Hdef as <-. split; try done. by apply (Hafter _ nh'). }
  apply stm_bind_ok in Hdef as (b & s8 & [= Hhas <-] & Hdef). rewrite (law_has_nonce _ _ _ _ Hst'), Ek in Hhas.
  destruct (nh1 k) as [|nv h] eqn:En; injection Hhas as <-; simpl in Hdef.
  - rewrite R3 in Hdef.
    destruct (law_set_nonce _ _ _ k T (mkVNonce 0 None) Hst' HT) as (st2 & Hrun & Hst2); rewrite ?Ek; try done.
    unfold on_storage in Hdef. rewrite Hrun in Hdef. injection Hdef as <-. split; try done.
    eapply Hafter; [exact Hst2|by rewrite fn_upd_eq, Ek|]. intros k' Hne. by rewrite fn_upd_ne.
  - injection Hdef as <-. split; try done. by apply (Hafter _ nh').
Qed.

(** One account is written. *)
Lemma receiver_step pre k m s s' :
  k ∉ pre -> s1.(receiver_balances) !! k = Some m ->
  receivers_inv pre (fun k' _ => k' ∈ pre) s -> apply_receiver (k, m) s = (Ok tt, s') ->
  receivers_inv (pre ++ [k]) (fun k' _ => k' ∈ pre ++ [k]) s'.
Proof using Hst HT Hn Hb Hw.
  intros Hk Hm Hs. unfold apply_receiver.
  intros (s2 & s3 & [= <- <-] & ([] & s4 & Hloop & Hr)%stm_bind_ok)%stm_bind_ok.
  rewrite (ri_topoheight _ _ _ Hs) in Hloop. apply (receiver_balances_step pre k m) in Hloop; [|done..].
  apply stm_bind_ok in Hr as (s5 & s6 & [= <- <-] & ([] & s7 & Hdef & Hr)%stm_bind_ok).
  apply (default_nonce_step pre k _ _ _ Hk Hloop) in Hdef as H7.
  apply stm_bind_ok in Hr as (s8 & s9 & [= <- <-] & (b & s10 & [= _ <-] & Hr)%stm_bind_ok).
  destruct (negb b); [|by injection Hr as <-].
  destruct H7 as [R1 R2 R3 (nh' & bh' & Hst' & Hnh & Hbh)]. unfold on_storage in Hr.
  destruct (set_account_registration_topoheight k (topoheight s7) (storage s7)) as [r st2] eqn:Hreg.
  injection Hr as -> <-. split; try done. exists nh', bh'. split_and!; [|done..]. by eapply law_register.
Qed.

Lemma receivers_done s' :
  s1.(topoheight) = T -> stores nh1 bh s1.(storage) ->
  foldMs (fun _ p => apply_receiver p) tt (hm_iter s1.(receiver_balances)) s1 = (Ok tt, s') ->
  receivers_inv (hm_iter s1.(receiver_balances)).*1 (fun _ _ => True) s'.
Proof using Hst HT Hn Hb Hw.
  intros Ht Hs Hr. apply (foldMs_prefix _ (fun pre s => receivers_inv pre.*1 (fun k _ => k ∈ pre.*1) s)) in Hr.
  - destruct Hr as [R1 R2 R3 R4]. split; try done. eapply stored_after_ext; [|exact R4].
    intros k a [v Hv]. split; [done|]. intros _. apply iter_dom. unfold receiver_version in Hv.
    destruct (receiver_balances s1 !! k); [by eexists|done].
  - split; try done. exists nh1, bh. split_and!; [done| |].
    + intros k. by rewrite decide_False by set_solver.
    + intros k a. destruct (receiver_version k a s1); [|done]. split; [set_solver|done].
  - intros pre [k m] post s2 s3 HQ Hs2 Hstep. apply iter_split in HQ as [He Hnin].
    rewrite fmap_app. exact (receiver_step _ k m s2 s3 Hnin He Hs2 Hstep).
Qed.
End Receivers.

(** ** The storage after the call *)

(** What is written for a balance, given its entry as a sender and its version
    as a receiver. *)
Definition written (k : CompressedPublicKey) (a : Hash) (sent : option Echange) (received : option VersionedBalance)
    (w : VersionedBalance) : Prop :=
  ct_of w.(final_balance) = ct_sub (credited k a received) (from_option output_sum ct_zero sent) /\
  match sent, received with
  | Some e, Some _ => w.(balance_type) = BothB /\
      exists q, w.(output_balance) = Some q /\ ct_of q = ct_of (selected e)
  | Some _, None => w.(balance_type) = OutputB /\ w.(output_balance) = None
  | None, _ => w.(balance_type) = InputB /\ w.(output_balance) = None
  end.

Definition nonce_written (s : chain) (k : CompressedPublicKey) : list (Z * VersionedNonce) :=
  match s.(accounts) !! k with
  | Some acc => (T, acc.(a_nonce)) :: nh k
  | None => match s.(receiver_balances) !! k, nh k with
            | Some _, [] => [(T, mkVNonce 0 None)]
            | _, h => h
            end
  end.

Lemma merged_written k a e received v :
  merged k a e received v -> written k a (Some e) received (stored v).
Proof.
  intros [[Hp Hwf Hl] Hct Hk]. split; [simpl; by rewrite ct_of_compressed|].
  destruct received as [v0|]; simpl.
  - destruct Hk as (Hty & q & Hq & Hlq & Hsel). split; [done|]. rewrite Hq. simpl. eexists. split; [done|].
    by rewrite ct_of_compressed.
  - destruct Hk as [Hty ->]. done.
Qed.

Lemma apply_changes_histories s s' :
  chain_inv nh bh T s -> apply_changes s = (Ok tt, s') ->
  exists nh' bh', stores nh' bh' s'.(storage) /\
    (forall k, nh' k = nonce_written s k) /\
    (forall k a, match sender_echange k a s, receiver_version k a s with
                 | None, None => bh' (k, a) = bh (k, a)
                 | sent, received =>
                     exists w, bh' (k, a) = (T, w) :: bh (k, a) /\ written k a sent received w
                 end).
Proof using Hst HT Hn Hb.
  intros Hs. unfold apply_changes.
  intros (s0 & s1 & [= <- <-] & ([] & s2 & Hsend & (s3 & s4 & [= <- <-] & Hrecv)%stm_bind_ok)%stm_bind_ok)%stm_bind_ok.
  apply (senders_done s Hs) in Hsend as [R1 R2 R3 R4 R5].
  pose proof (fun k a v => merged_writable s Hs s2 k a v R4) as Hw.
  destruct (receivers_done _ s2 Hw s' R2 R3 Hrecv) as [Q1 Q2 Q3 (nh' & bh' & Hst' & Hnh & Hbh)].
  exists nh', bh'. split_and!; [done| |].
  - intros k. rewrite Hnh. unfold defaulted, nonces_after, nonce_written. rewrite R1.
    assert (k ∈ (hm_iter s.(accounts)).*1 <-> is_Some (s.(accounts) !! k)) as Ek by apply iter_dom.
    assert (k ∈ (hm_iter s2.(receiver_balances)).*1 <->
      is_Some (s.(receiver_balances) !! k) \/ is_Some (s.(accounts) !! k)) as Er by (by rewrite iter_dom, R5, Ek).
    destruct (accounts s !! k) as [acc|].
    + rewrite decide_True by (apply Er; by right). by rewrite decide_True by by apply Ek.
    + destruct (receiver_balances s !! k) as [m|].
      * by rewrite decide_True by (apply Er; by left).
      * rewrite decide_False; [by destruct (nh k)|]. rewrite Er. by intros [[]|[]].
  - intros k a. specialize (R4 k a). specialize (Hbh k a).
    destruct (sender_echange k a s) as [e|].
    + destruct R4 as [R4 _]. destruct (R4 I) as (v & Hv & Hm). rewrite Hv in Hbh. destruct Hbh as [Hbh _].
      exists (stored v). split; [by apply Hbh|]. by apply merged_written.
    + rewrite R4 in Hbh. destruct (receiver_version k a s) as [v|] eqn:Hv; [|done]. destruct Hbh as [Hbh _].
      exists (stored v). split; [by apply Hbh|].
      destruct (ci_receiver _ _ _ s Hs k a v Hv) as [Hv' Hl]. destruct (fresh_shape k a) as [Ho Hty].
      split; [simpl; by rewrite ct_of_compressed, ct_sub_zero|]. rewrite Hv'. simpl. by rewrite Ho, Hty.
Qed.
End Apply.

Section Properties.
Context {CV : Curve} {ML : Merlin} {RP : RangeProofLib} {HM : HashMapIter}.
Context {S : Type} {SP : Storage S} {SLaws : StorageLaws S}.

(** C9: the changes of a block are written once.  From a chain state that
    satisfies the invariant, [apply_changes] puts exactly one version at the
    block's topoheight on top of the history of each balance that was spent or
    credited, and of each nonce that was used; it leaves every other history
    alone.  The final balance written is the latest balance with the incoming
    funds, minus the sum of the outputs; a balance both spent and credited also
    keeps, as its output balance, the one its owner verified against; and an
    account credited for the first time gets the nonce zero. *)
Theorem apply_changes_refines (nh : NonceHistories) (bh : BalanceHistories) (T : Z) (s s' : ChainState (S:=S))
    (Hi : chain_inv nh bh T s) (HT : in_u 64 T) (Hn : below T nh) (Hb : below T bh)
    (Ha : apply_changes s = (Ok tt, s')) :
  exists nh' bh', stores nh' bh' s'.(storage) /\
    (forall k, nh' k = nonce_written nh T s k) /\
    (forall k a, match sender_echange k a s, receiver_version k a s with
                 | None, None => bh' (k, a) = bh (k, a)
                 | sent, received =>
                     exists w, bh' (k, a) = (T, w) :: bh (k, a) /\ written bh k a sent received w
                 end).
Proof.
  apply apply_changes_histories; try done. intros k a t v.
  exact (law_history_stored nh bh s.(storage) k a t v (ci_storage _ _ _ s Hi)).
Qed.
End Properties.
