(* ===== verification/Atomic.v ===== *)
(** The failures of the execution of a transaction.

    Once the proofs of a transaction are checked, [apply_with_partial_verify]
    cannot fail on a chain state: the balances it debits were just read, and
    those it credits can be read.  So a transaction that fails has only read
    balances, and the funds are what they were. *)

From Stdlib Require Import Setoid Morphisms.
From S2P Require Import Prelude External ExternalModel ExternalCrypto Serializer Hash Defaults Elgamal Proofs Transaction Verify VerifyFacts Errors Account Versions Storage StorageFacts Providers Emission Reference StorageLaws ChainState ChainFacts ChainInvariant.

(** Two ledgers with the same received balances and the same outputs. *)
Section Funds.
Context {CV : Curve} {ML : Merlin} {RP : RangeProofLib}.

Definition same_funds (l1 l2 : Ledger) : Prop :=
  (forall k a, l_recv l1 k a = l_recv l2 k a) /\ (forall k a, l_out l1 k a = l_out l2 k a).

#[export] Instance same_funds_equivalence : Equivalence same_funds.
Proof.
  split; unfold same_funds.
  - done.
  - intros l1 l2 [H1 H2]. auto.
  - intros l1 l2 l3 [H1 H2] [H3 H4]. split; intros; by rewrite ?H1, ?H2.
Qed.
#[export] Instance equiv_same_funds : subrelation (≡@{Ledger}) same_funds.
Proof. intros l1 l2 (_ & H1 & _ & H2). by split. Qed.
#[export] Instance same_funds_proper : Proper ((≡) ==> (≡) ==> iff) same_funds.
Proof. intros l1 l2 H12%equiv_same_funds l3 l4 H34%equiv_same_funds. by rewrite H12, H34. Qed.

#[export] Instance transfer_step_funds : Proper (same_funds ==> (=) ==> same_funds) transfer_step.
Proof.
  intros l1 l2 [H1 H2] p ? <-. split; [|done]. intros k a. cbn [l_recv transfer_step upd_recv].
  unfold transfer_step. cbn [l_recv upd_recv]. rewrite !fn_upd_pair, H1. by case_decide.
Qed.
#[export] Instance commit_step_funds tx ds : Proper (same_funds ==> (=) ==> same_funds) (commit_step tx ds).
Proof.
  intros l1 l2 [H1 H2] b ? <-. split; [done|]. intros k a. unfold commit_step. cbn [l_out upd_out upd_send].
  rewrite !fn_upd_pair, H2. by case_decide.
Qed.

Lemma foldl_funds {A} (f : Ledger -> A -> Ledger) l1 l2 xs :
  Proper (same_funds ==> (=) ==> same_funds) f -> same_funds l1 l2 -> same_funds (foldl f l1 xs) (foldl f l2 xs).
Proof.
  intros Hf. revert l1 l2. induction xs as [|x xs IH]; intros l1 l2 Hl; simpl; [done|]. apply IH. by apply Hf.
Qed.
#[export] Instance ledger_apply_funds tx ds : Proper (same_funds ==> same_funds) (ledger_apply_balances tx ds).
Proof. intros l1 l2 Hl. unfold ledger_apply_balances. apply foldl_funds; [apply _|]. by apply foldl_funds; [apply _|]. Qed.

Lemma upd_send_funds k a c l : same_funds (upd_send k a c l) l.
Proof. done. Qed.
Lemma upd_nonce_funds k n l : same_funds (upd_nonce k n l) l.
Proof. done. Qed.
End Funds.

Section Failures.
Context {CV : Curve} {ML : Merlin} {RP : RangeProofLib} {S : Type} {SP : Storage S} {SLaws : StorageLaws S}.

Abbreviation chain := (ChainState (S:=S)).
Implicit Types s : chain.

(** A cache whose ciphertext is at hand. *)
Definition at_hand (k : CiphertextCache) : bool := match k with Compressed _ => false | _ => true end.

Lemma computable_at_hand k : at_hand k = true -> exists c k', computable k = Ok (c, k').
Proof. destruct k as [c|e|c e d]; [done|eauto..]. Qed.
Lemma at_hand_computable k c k' : computable k = Ok (c, k') -> at_hand k' = true.
Proof. destruct k as [cc|e|cc e d]; simpl; [by intros (e & _ & [= <- <-])%res_bind_ok|by intros [= <- <-]..]. Qed.
Lemma at_hand_put c k : at_hand (put_computable c k) = at_hand k.
Proof. by destruct k. Qed.

(** The balance of a sender was read before. *)
Definition hot (k : CompressedPublicKey) (a : Hash) (s : chain) : Prop :=
  exists acc e, s.(accounts) !! k = Some acc /\ sender_echange k a s = Some e /\ at_hand (selected e) = true.

Lemma hot_put k a e acc s k' a' :
  account_of k acc s -> at_hand (selected e) = true -> hot k' a' s -> hot k' a' (put_echange k a e acc s).
Proof.
  intros [_ Hacc] He (acc' & e' & Ha & He' & Hh). unfold hot. rewrite sender_echange_put by done.
  assert (exists acc2, accounts (put_echange k a e acc s) !! k' = Some acc2) as [acc2 Ha2].
  { unfold put_echange, put_account. simpl. destruct (decide (k = k')) as [->|Hne]; [rewrite lookup_insert_eq; eauto|].
    rewrite lookup_insert_ne by done. eauto. }
  exists acc2. case_decide; [exists e|exists e']; done.
Qed.
Lemma hot_self k a e acc s : at_hand (selected e) = true -> hot k a (put_echange k a e acc s).
Proof.
  intros He. eexists _, e. split; [apply lookup_insert_eq|]. split; [apply echange_put|done].
Qed.

(** A read that succeeds makes the balance hot, and succeeds when it is hot. *)
Lemma get_sender_run k a r s c s' :
  get_sender k a r s = (Ok c, s') ->
  exists acc e, account_of k acc s /\ at_hand (selected e) = true /\ s' = put_echange k a e acc s.
Proof.
  unfold get_sender. intros (ct & s1 & Hs & Hr)%stm_bind_ok.
  apply stm_bind_ok in Hr as ([c0 q] & s2 & [= Hq%map_err_ok <-] & Hr).
  apply stm_bind_ok in Hr as (u & s3 & [= _ <-] & [= -> <-]).
  apply sender_entry in Hs as (acc & e & e1 & Hacc%account_from_of & He & Hb & ->).
  exists acc, (put_balance q e1). split; [done|]. rewrite selected_put. split; [by eapply at_hand_computable|].
  rewrite echange_put. assert (accounts (put_echange k a e1 acc s) !! k =
    Some (mkAccount acc.(a_nonce) (<[a := e1]> acc.(a_assets)))) as -> by apply lookup_insert_eq.
  by rewrite put_echange_twice.
Qed.

Lemma get_sender_hot k a r s : hot k a s -> exists c s', get_sender k a r s = (Ok c, s').
Proof.
  intros (acc & e & Ha & He & Hh). unfold get_sender, internal_get_sender_verification_balance.
  destruct (ChainState.get_balance e) as [ct e1] eqn:Hb. pose proof (get_balance_eq _ _ _ Hb) as (-> & _).
  destruct (computable_at_hand _ Hh) as (c & q & Hc). unfold sender_echange in He. rewrite Ha in He. simpl in He.
  unfold mbind, stm_bind, st_get, lift_res, st_modify. rewrite Ha, He, Hb. cbn [mret stm_ret]. unfold mret, stm_ret.
  rewrite Hc. simpl. eauto.
Qed.

Lemma changes_succeed tx l s :
  Forall (fun ch => hot tx.(source) ch.2 s) l ->
  exists s', foldMs (fun _ change => apply_change tx change) tt l s = (Ok tt, s').
Proof.
  revert s. induction l as [|[[c' o] a] l IH]; intros s Hl; [by exists s|].
  apply list.Forall_cons in Hl as [Ha Hl]. simpl in Ha. destruct (get_sender_hot _ _ tx.(reference) _ Ha) as (c & s1 & Hr).
  destruct (change_run tx c' o a s c s1 Hr) as (acc & e & Hacc & He & _ & _ & _ & Hrun). cbn [foldMs].
  rewrite (stm_bind_run _ _ _ _ _ Hrun). apply IH.
  destruct (get_sender_run _ _ _ _ _ _ Hr) as (acc0 & e0 & Hacc0 & Hh & ->).
  rewrite echange_put in He. injection He as <-.
  apply (list.Forall_impl _ _ _ Hl). intros [[c1 o1] a1] H1. simpl in *.
  apply hot_put; [by apply account_cached| |by apply hot_put].
  change (at_hand (selected (put_balance (put_computable c' (selected e0)) e0)) = true).
  by rewrite selected_put, at_hand_put.
Qed.

(** *** Predicates kept by all the calls *)

Lemma sender_always (P : chain -> Prop) k a r :
  (forall s e acc, P s -> P (put_echange k a e acc s)) -> always P (get_sender k a r).
Proof.
  intros Hput s Hs. unfold get_sender.
  destruct (internal_get_sender_verification_balance k a r s) as [res s1] eqn:Hr.
  assert (P s1) as H1.
  { destruct res as [ct| | |]; [|by apply sender_entry_fails in Hr as ->..].
    apply sender_entry in Hr as (acc & e & e1 & _ & _ & _ & ->). by apply Hput. }
  apply bind_state; [by rewrite Hr|]. intros ct s2 E. rewrite Hr in E. injection E as -> <-.
  apply bind_state; [done|]. intros [c q] s3 [= _ <-]. simpl.
  destruct (accounts s1 !! k); [|done]. destruct (sender_echange k a s1); [by apply Hput|done].
Qed.

Section Always.
Context (P : chain -> Prop).
Context (Hput : forall k a e acc s, P s -> P (put_echange k a e acc s)).
Context (Hrecv : forall k a, always P (internal_get_receiver_balance k a)).
Context (Hset : forall k a c s, P s -> P (ChainState.set_receiver k a c s)).

Lemma partial_commitment_always tx owner ds rnd acc p : always P (partial_commitment tx owner ds rnd acc p).
Proof using Hput.
  destruct acc as [[[t b] d] cs], p as [c pc]. unfold partial_commitment.
  apply always_bind; [apply always_lift|]. intros o.
  apply always_bind; [apply always_map_err, sender_always; auto|]. intros bal.
  apply always_bind; [apply always_lift|]. by intros [t' b'] s.
Qed.

Lemma apply_change_always tx ch : always P (apply_change tx ch).
Proof using Hput.
  destruct ch as [[c o] a]. intros s Hs.
  assert (always P (get_sender tx.(source) a tx.(reference))) as Hal by (apply sender_always; auto).
  specialize (Hal s Hs). destruct (get_sender tx.(source) a tx.(reference) s) as [[c0| | |] s1] eqn:Hr; cycle 1.
  1-3: by rewrite (change_fails tx c o a s _ s1 Hr).
  destruct (change_run tx c o a s c0 s1 Hr) as (acc & e & _ & _ & _ & _ & _ & ->). by apply Hput.
Qed.

Lemma apply_transfer_always t : always P (apply_transfer (St:=chain) (E:=blockchain_error) t).
Proof using Hrecv Hset.
  apply always_bind; [apply Hrecv|]. intros c. apply always_bind.
  - intros s Hs. unfold expect. by destruct (ct_decompress _).
  - intros ct s Hs. by apply Hset.
Qed.

Lemma partial_always tx rnd : always P (apply_with_partial_verify tx rnd).
Proof using Hput Hrecv Hset.
  unfold apply_with_partial_verify. apply always_bind; [apply always_lift|]. intros ds.
  apply always_bind; [apply always_lift|]. intros cs. apply always_bind; [apply always_lift|]. intros owner.
  apply always_bind.
  { apply always_foldMs. intros acc p _. apply partial_commitment_always. }
  intros [[[t b] d] changes]. apply always_bind; [apply always_lift|]. intros _.
  apply always_bind; [apply always_foldMs; intros _ ch _; apply apply_change_always|]. intros _.
  apply always_foldMs. intros _ t' _. apply always_map_err, apply_transfer_always.
Qed.
End Always.

Lemma storage_put_receiver k a c s : (ChainState.set_receiver k a c s).(storage) = s.(storage).
Proof. unfold ChainState.set_receiver. by destruct (receiver_version k a s). Qed.

(** The execution of a transaction does not touch the storage. *)
Lemma partial_storage tx rnd s : (apply_with_partial_verify tx rnd s).2.(storage) = s.(storage).
Proof.
  apply (partial_always (fun s' => s'.(storage) = s.(storage))); try done.
  - intros k a. by apply receiver_always.
  - intros k a c s1. by rewrite storage_put_receiver.
Qed.

(** *** The first loop *)

Lemma get_sender_state k a r s :
  (get_sender k a r s).2 = s \/
  exists acc e, account_of k acc s /\ e.(output_sum) = l_out (chain_ledger s) k a /\
    (get_sender k a r s).2 = put_echange k a e acc s.
Proof.
  unfold get_sender. destruct (internal_get_sender_verification_balance k a r s) as [res s1] eqn:Hr.
  destruct res as [ct| | |]; [|left; unfold mbind, stm_bind; rewrite Hr; by apply sender_entry_fails in Hr..].
  rewrite (stm_bind_run _ _ _ _ _ Hr). right.
  apply sender_entry in Hr as (acc & e & e1 & Hacc%account_from_of & He & Hb & ->).
  apply get_balance_eq in Hb as (_ & _ & _ & _ & Hsum).
  assert (output_sum e1 = l_out (chain_ledger s) k a) as Hout.
  { rewrite Hsum. cbn [l_out chain_ledger]. destruct He as [->|[-> He]]; [done|]. by apply create_echange_sum in He. }
  unfold mbind, stm_bind, lift_res, st_modify. destruct (map_err _ (computable ct)) as [[c q]| | |];
    [|by exists acc, e1..]. rewrite echange_put. assert (accounts (put_echange k a e1 acc s) !! k =
    Some (mkAccount acc.(a_nonce) (<[a := e1]> acc.(a_assets)))) as -> by apply lookup_insert_eq.
  rewrite put_echange_twice. by exists acc, (put_balance q e1).
Qed.

Lemma get_sender_funds k a r s : same_funds (chain_ledger (get_sender k a r s).2) (chain_ledger s).
Proof.
  destruct (get_sender_state k a r s) as [->|(acc & e & Hacc & Hsum & ->)]; [done|].
  rewrite ledger_echange by done. split; [done|]. intros k' a'. cbn [l_out upd_out upd_send].
  rewrite fn_upd_pair. case_decide; [|done]. by simplify_eq.
Qed.

Lemma partial_commitment_funds tx owner ds rnd acc p l :
  always (fun s => same_funds (chain_ledger s) l) (partial_commitment tx owner ds rnd acc p).
Proof.
  destruct acc as [[[t b] d] cs], p as [c pc]. unfold partial_commitment.
  apply always_bind; [apply always_lift|]. intros o. apply always_bind.
  { apply always_map_err. intros s Hs. by etransitivity; [apply get_sender_funds|]. }
  intros bal. apply always_bind; [apply always_lift|]. by intros [t' b'] s.
Qed.

Lemma partial_commitment_hot tx owner ds rnd acc p s acc' s' :
  partial_commitment tx owner ds rnd acc p s = (Ok acc', s') ->
  hot tx.(source) (pc_asset p) s' /\ forall a, hot tx.(source) a s -> hot tx.(source) a s'.
Proof.
  destruct acc as [[[t b] d] cs], p as [c pc]. unfold partial_commitment.
  intros (o & s1 & [_ ->]%proof_ok & (bal & s2 & Hg%state_inv & ([t' b'] & s3 & [_ ->]%proof_ok & [_ ->]%mret_ok)%stm_bind_ok)%stm_bind_ok)%stm_bind_ok.
  apply get_sender_run in Hg as (ac & e & Hacc & Hh & ->). split; [by apply hot_self|].
  intros a Ha. by apply hot_put.
Qed.

Lemma partial_commitments_hot tx owner ds rnd l acc s acc' s' :
  foldMs (partial_commitment tx owner ds rnd) acc l s = (Ok acc', s') ->
  forall a, a ∈ pc_asset <$> l \/ hot tx.(source) a s -> hot tx.(source) a s'.
Proof.
  revert acc s. induction l as [|p l IH]; intros acc s Hr a Ha.
  - apply mret_ok in Hr as [_ ->]. destruct Ha as [Ha|]; [set_solver|done].
  - cbn [foldMs] in Hr. apply stm_bind_ok in Hr as (acc1 & s1 & H1%partial_commitment_hot & Hr).
    destruct H1 as [Hp Hkeep]. apply (IH _ _ Hr). csimpl in Ha. set_solver.
Qed.

(** *** The receivers *)

(** The received balances can be read. *)
Definition readable (s : chain) : Prop := forall k a v,
  receiver_version k a s = Some v -> exists c q, computable v.(final_balance) = Ok (c, q).

Lemma readable_put k a v s :
  (exists c q, computable v.(final_balance) = Ok (c, q)) -> readable s -> readable (put_receiver k a v s).
Proof. intros Hv Hs k' a' v'. rewrite receiver_version_put. case_decide; [by intros [= <-]|apply Hs]. Qed.

Lemma readable_set k a c s : readable s -> readable (ChainState.set_receiver k a c s).
Proof.
  intros Hs. unfold ChainState.set_receiver. destruct (receiver_version k a s) as [v|] eqn:Hv; [|done].
  apply readable_put; [|done]. destruct (Hs _ _ _ Hv) as (c0 & q & Hq). simpl.
  destruct (final_balance v); simpl in *; eauto.
Qed.

Context (nh : NonceHistories) (bh : BalanceHistories) (T : Z).
Context (Hst : forall k a t v, (t, v) ∈ bh (k, a) -> stored v = v) (HT : in_u 64 T) (Hn : below T nh) (Hb : below T bh).
(** The latest balances decompress. *)
Context (Hread : forall k a, exists c q, computable (fresh bh k a).(final_balance) = Ok (c, q)).

Abbreviation chain_inv := (chain_inv nh bh T).

Definition readable_state (s : chain) : Prop := stores nh bh s.(storage) /\ s.(topoheight) = T /\ readable s.

Lemma receiver_readable k a : always readable_state (internal_get_receiver_balance k a).
Proof using Hst HT Hn Hb Hread.
  apply receiver_always.
  - intros s (H1 & H2 & H3). split_and!; [done..|]. intros k' a' v. rewrite receiver_version_open. apply H3.
  - intros s v (H1 & H2 & H3) Hv. split_and!; [done..|]. apply readable_put; [|done].
    destruct Hv as [Hnew|(v0 & c & Hv0 & Hc)].
    + rewrite H2 in Hnew. apply (new_balance_fresh _ _ _ Hst HT Hn Hb _ _ _ _ H1) in Hnew as ->. apply Hread.
    + unfold computable_version in Hc. apply res_bind_ok in Hc as ([c' q] & Hq%map_err_ok & [= _ <-]). simpl.
      apply computable_at_hand. by eapply at_hand_computable.
Qed.

Lemma set_readable k a c s : readable_state s -> readable_state (ChainState.set_receiver k a c s).
Proof.
  intros (H1 & H2 & H3). split_and!; [by rewrite storage_put_receiver| |by apply readable_set].
  unfold ChainState.set_receiver. by destruct (receiver_version k a s).
Qed.

Lemma partial_readable tx rnd : always readable_state (apply_with_partial_verify tx rnd).
Proof using Hst HT Hn Hb Hread. apply partial_always; [done|apply receiver_readable|intros; by apply set_readable]. Qed.

Lemma always_readable k a : always (fun s => chain_inv s /\ readable s) (internal_get_receiver_balance k a).
Proof using Hst HT Hn Hb Hread.
  intros s [Hi Hs]. split; [by apply inv_receiver|]. apply receiver_readable.
  split; [apply Hi|]. split; [apply Hi|done].
Qed.

Lemma receiver_succeeds k a s :
  chain_inv s -> readable s -> asset_registered s.(storage) a ->
  exists c s', internal_get_receiver_balance k a s = (Ok c, s').
Proof using HT Hst Hn Hb Hread.
  intros Hi Hs Ha. unfold internal_get_receiver_balance, mbind at 1 2, stm_bind, st_modify, st_get.
  rewrite receiver_version_open. destruct (receiver_version k a s) as [v|] eqn:Hv.
  - destruct (Hs _ _ _ Hv) as (c & q & Hc). unfold mbind, stm_bind, lift_res, mret, stm_ret, computable_version.
    rewrite Hc. simpl. eauto.
  - destruct (law_new_balance_total nh bh s.(storage) k a T (ci_storage _ _ _ s Hi) Ha HT) as [v Hnew].
    pose proof (new_balance_fresh _ _ _ Hst HT Hn Hb _ _ _ _ (ci_storage _ _ _ s Hi) Hnew) as ->.
    destruct (Hread k a) as (c & q & Hc). unfold mbind, stm_bind, lift_res, mret, stm_ret.
    change (storage (open_receiver k s)) with s.(storage).
    change (topoheight (open_receiver k s)) with s.(topoheight). rewrite (ci_topoheight _ _ _ s Hi), Hnew.
    unfold computable_version. rewrite Hc. simpl. eauto.
Qed.

Lemma transfer_succeeds t d s :
  chain_inv s -> readable s -> asset_registered s.(storage) t.(tr_asset) -> decompress_transfer t = Ok d ->
  exists s', apply_transfer (St:=chain) (E:=blockchain_error) t s = (Ok tt, s') /\
    chain_inv s' /\ readable s' /\ s'.(storage) = s.(storage).
Proof using HT Hst Hn Hb Hread.
  intros Hi Hs Ha Hd. destruct (receiver_succeeds t.(destination) _ s Hi Hs Ha) as (c & s1 & Hr).
  destruct (always_readable t.(destination) t.(tr_asset) s (conj Hi Hs)) as [Hi1 Hs1]. rewrite Hr in Hi1, Hs1. simpl in *.
  assert (s1.(storage) = s.(storage)) as Est.
  { assert (always (fun s' => s'.(storage) = s.(storage)) (internal_get_receiver_balance t.(destination) t.(tr_asset)))
      as Hal by by apply receiver_always.
    specialize (Hal s eq_refl). by rewrite Hr in Hal. }
  exists (ChainState.set_receiver t.(destination) t.(tr_asset) (ct_add c (d_get_ciphertext d Receiver)) s1).
  unfold apply_transfer. cbn [get_receiver_balance set_receiver_balance chain_verification].
  rewrite (stm_bind_run _ _ _ _ _ Hr), (get_ciphertext_decompressed _ _ Hd).
  split_and!; [done|by apply inv_set_receiver|by apply readable_set|]. by rewrite storage_put_receiver.
Qed.

Lemma transfers_succeed ts ds s :
  chain_inv s -> readable s -> Forall (fun t => asset_registered s.(storage) t.(tr_asset)) ts ->
  mapMr decompress_transfer ts = Ok ds ->
  exists s', foldMs (fun _ t => state (apply_transfer t)) tt ts s =
    ((Ok tt : res (VerificationError blockchain_error) ()), s').
Proof using HT Hst Hn Hb Hread.
  revert ds s. induction ts as [|t ts IH]; intros ds s Hi Hs Ha Hd; [by exists s|].
  apply list.Forall_cons in Ha as [Ha Has]. apply mapMr_Forall2 in Hd. inversion Hd as [|? d ? ds' Hd1 Hds]; subst.
  destruct (transfer_succeeds t d s Hi Hs Ha Hd1) as (s1 & Hrun & Hi1 & Hs1 & Est). cbn [foldMs].
  assert (state (apply_transfer t) s = ((Ok tt : res (VerificationError blockchain_error) ()), s1)) as Hrun'
    by (unfold state, st_map_err; by rewrite Hrun).
  rewrite (stm_bind_run _ _ _ _ _ Hrun'). apply (IH ds'); [done|done|by rewrite Est|]. by apply mapMr_Forall2.
Qed.

(** A failure comes before the first debit. *)
Lemma partial_atomic tx rnd s r s' :
  chain_inv s -> readable s -> verify_commitment_assets tx = true ->
  apply_with_partial_verify tx rnd s = (r, s') ->
  r = Ok tt \/ same_funds (chain_ledger s') (chain_ledger s).
Proof using HT Hst Hn Hb Hread.
  intros Hi Hs Hv. pose proof Hv as Hassets. apply verify_commitment_assets_iff in Hassets as (_ & Hnd & Hspent).
  unfold apply_with_partial_verify.
  intros [(ds & s1 & [Hds%map_err_ok ->]%proof_ok & Hr)| ->]%stm_bind_cases; [|by right].
  apply stm_bind_cases in Hr as [(cs & s1 & [Hcs%map_err_ok ->]%proof_ok & Hr)| ->]; [|by right].
  apply stm_bind_cases in Hr as [(owner & s1 & [_ ->]%proof_ok & Hr)| ->]; [|by right].
  set (acc0 := (prepare_transcript (version tx) (source tx) (fee tx) (nonce tx), collector_default, 0%nat, [])) in Hr.
  set (l := zip (source_commitments tx) cs) in Hr.
  assert (same_funds (chain_ledger (foldMs (partial_commitment tx owner ds rnd) acc0 l s).2) (chain_ledger s)) as Hf.
  { apply (always_foldMs (fun s' => same_funds (chain_ledger s') (chain_ledger s))); [|done].
    intros b a _. apply partial_commitment_funds. }
  apply stm_bind_cases in Hr as [([[[t b] d] changes] & s1 & H1 & Hr)| ->]; [|by right].
  rewrite H1 in Hf. simpl in Hf.
  apply stm_bind_cases in Hr as [(u & s2 & [_ ->]%proof_ok & Hr)| ->]; [|by right].
  left. destruct (inv_debits nh bh T Hst HT Hn Hb tx owner ds rnd cs _ s _ s1 Hnd Hi Hcs H1) as (Hi1 & Hi3 & Hch).
  cbn [snd] in Hi3, Hch.
  pose proof (partial_commitments_hot _ _ _ _ _ _ _ _ _ H1) as Hhot. unfold l in Hhot. rewrite (pc_assets tx cs Hcs) in Hhot.
  destruct (changes_succeed tx changes s1) as [s3 H3].
  { apply list.Forall_forall. intros ch Hin. apply Hhot. left. rewrite <- Hch. by apply list_elem_of_fmap_2. }
  rewrite H3 in Hi3. rewrite (stm_bind_run _ _ _ _ _ H3) in Hr. simpl in Hi3.
  assert (readable s3 /\ s3.(storage) = s1.(storage)) as [Hs3 E3].
  { assert (always (fun s' => readable s' /\ s'.(storage) = s1.(storage))
      (foldMs (fun (_ : ()) change => apply_change (St:=chain) (E:=blockchain_error) tx change) tt changes)) as Hal.
    { apply always_foldMs. intros _ ch _. by apply apply_change_always. }
    specialize (Hal s1). rewrite H3 in Hal. apply Hal. split; [|done].
    assert (always readable (foldMs (partial_commitment tx owner ds rnd) acc0 l)) as Hal1.
    { apply always_foldMs. intros b0 p _. by apply partial_commitment_always. }
    specialize (Hal1 s Hs). by rewrite H1 in Hal1. }
  assert (Forall (fun t => asset_registered s3.(storage) t.(tr_asset)) (transfers_of tx)) as Hreg.
  { apply list.Forall_forall. intros t' Hin. rewrite E3.
    destruct (Hhot t'.(tr_asset)) as (acc & e & _ & He & _); [left|by eapply (ci_asset _ _ _ s1 Hi1)].
    apply Hspent. unfold spent_assets, transfers_of in *. destruct (data tx); [by apply list_elem_of_fmap_2|set_solver]. }
  destruct (transfers_succeed (transfers_of tx) ds s3 Hi3 Hs3 Hreg Hds) as [s4 H4].
  rewrite H4 in Hr. by injection Hr as <- _.
Qed.
End Failures.

Section Properties.
Context {CV : Curve} {ML : Merlin} {RP : RangeProofLib} {S : Type} {SP : Storage S} {SLaws : StorageLaws S}.

(** C7: executing a transaction on the chain state.  When the partial
    verification succeeds, the ledger the state stands for (cached balances, and
    the stored ones for what is not cached) is the old one with the transaction
    applied; when it fails, for whatever reason, no received balance and no sum
    of outputs has changed.  It never touches the storage. *)
Theorem chain_execution_atomic (nh : NonceHistories) (bh : BalanceHistories) (T : Z) (s : ChainState (S:=S))
    (tx : Transaction) (rnd : nat -> scalar) r s'
    (Hi : chain_inv nh bh T s) (HT : in_u 64 T) (Hn : below T nh) (Hb : below T bh)
    (Hr : forall k a, exists c q, computable (fresh bh k a).(final_balance) = Ok (c, q)) (Hs : readable s)
    (Hv : verify_commitment_assets tx = true)
    (Ha : apply_with_partial_verify tx rnd s = (r, s')) :
  s'.(storage) = s.(storage) /\
  (r = Ok tt -> exists ds, mapMr decompress_transfer (transfers_of tx) = Ok ds /\
     chain_ledger s' ≡ ledger_apply_balances tx ds (chain_ledger s)) /\
  (r <> Ok tt -> same_funds (chain_ledger s') (chain_ledger s)).
Proof.
  pose proof (fun k a t v => law_history_stored nh bh _ k a t v (ci_storage _ _ _ s Hi)) as Hst. split.
  { pose proof (partial_storage tx rnd s) as E. by rewrite Ha in E. }
  split; [intros ->|].
  - apply apply_with_partial_verify_obs in Ha as (ds & Hds & _ & Ho); [eauto|done|].
    apply verify_commitment_assets_iff in Hv. naive_solver.
  - intros Hne. by destruct (partial_atomic nh bh T Hst HT Hn Hb Hr tx rnd s r s' Hi Hs Hv Ha).
Qed.
End Properties.
