(* ===== verification/Execution.v ===== *)
(** The execution of one ordered block ([add_new_block_for_storage] of
    [core/blockchain.rs], the loop over the transactions and the rewards).

    [x_orphaned] and [x_checker] live across the blocks of one call; the chain
    state and the fees are those of the block. *)

From S2P Require Import Prelude External ExternalModel ExternalCrypto Serializer Hash Defaults Elgamal Proofs Transaction Verify VerifyFacts Errors Account Versions Storage StorageFacts Providers NonceChecker Emission StorageLaws Reference ChainState.

Section Execution.
Context {CV : Curve} {ML : Merlin} {RP : RangeProofLib} {HM : HashMapIter} {IM : IndexMapLib Z Z}.
Context {S : Type} {SP : Storage S} {CP : ClientProtocolProvider S}.
(** [DEV_PUBLIC_KEY], parsed from the address of the configuration. *)
Context (DEV_PUBLIC_KEY : CompressedPublicKey).

Local Abbreviation NonceChecker := (gmap CompressedPublicKey AccountEntry).

Record ExecState := mkExec {
  x_chain : ChainState (S:=S);
  x_checker : NonceChecker;
  x_orphaned : gset Hash;
  x_fees : Z;
}.

Definition on_chain {A} (m : stm (ChainState (S:=S)) blockchain_error A) : stm ExecState blockchain_error A := fun x =>
  let '(r, c) := m x.(x_chain) in (r, mkExec c x.(x_checker) x.(x_orphaned) x.(x_fees)).
Definition on_checker {A} (m : stm NonceChecker blockchain_error A) : stm ExecState blockchain_error A := fun x =>
  let '(r, c) := m x.(x_checker) in (r, mkExec x.(x_chain) c x.(x_orphaned) x.(x_fees)).

(** [if let Err(e) = ...]: the error is not returned. *)
Definition succeeds {St E F A} (m : stm St E A) : stm St F bool := fun s =>
  match m s with
  | (Ok _, s') => (Ok true, s')
  | (Err _, s') => (Ok false, s')
  | (Panic, s') => (Panic, s')
  | (Diverge, s') => (Diverge, s')
  end.

Definition orphan (tx_hash : Hash) (x : ExecState) : ExecState :=
  mkExec x.(x_chain) x.(x_checker) ({[tx_hash]} ∪ x.(x_orphaned)) x.(x_fees).
Definition count_fee (tx_hash : Hash) (fee : Z) (x : ExecState) : ExecState :=
  mkExec x.(x_chain) x.(x_checker) (x.(x_orphaned) ∖ {[tx_hash]}) (u64_add x.(x_fees) fee).

(** A transaction of the block, its hash, and the randomness of its proofs. *)
Record BlockTx := mkBlockTx { bt_tx : Transaction; bt_hash : Hash; bt_rnd : nat -> scalar }.

(** The body of the loop over the transactions. *)
Definition execute_tx (block : Hash) (p : BlockTx) : stm ExecState blockchain_error () :=
  let tx := p.(bt_tx) in
  let tx_hash := p.(bt_hash) in
  _ ← on_chain (on_storage (add_block_linked_to_tx_if_not_present tx_hash block));
  x ← st_get;
  executed ← lift_res (is_tx_executed_in_a_block x.(x_chain).(storage) tx_hash);
  if (executed : bool) then mret tt
  else
    let mainnet := is_mainnet x.(x_chain).(storage) in
    used ← on_checker (use_nonce x.(x_chain).(storage) mainnet tx.(source) tx.(nonce) x.(x_chain).(topoheight));
    if negb used then st_modify (orphan tx_hash)
    else
      applied ← on_chain (succeeds (apply_with_partial_verify tx p.(bt_rnd)));
      if negb applied then st_modify (orphan tx_hash)
      else
        x ← st_get;
        next_nonce ← lift_res (get_new_nonce tx.(source) mainnet x.(x_checker));
        _ ← on_chain (internal_update_account_nonce tx.(source) next_nonce);
        _ ← on_chain (on_storage (set_tx_executed_in_block tx_hash block));
        st_modify (count_fee tx_hash tx.(fee)).

(** The block, once its position is known: its hash, height and miner, and its
    transactions. *)
Record OrderedBlock := mkOrdered {
  ob_hash : Hash;
  ob_height : Z;
  ob_miner : CompressedPublicKey;
  ob_txs : list BlockTx;
}.

Definition reward_block (b : OrderedBlock) (block_reward : Z) : stm ExecState blockchain_error () :=
  let dev_fee_percentage := get_block_dev_fee b.(ob_height) in
  miner_reward ←
    (if negb (dev_fee_percentage =? 0) then
       _ ← on_chain (reward_miner DEV_PUBLIC_KEY (dev_fee_part block_reward b.(ob_height)));
       mret (u64_sub block_reward (dev_fee_part block_reward b.(ob_height)))
     else mret block_reward);
  x ← st_get;
  on_chain (reward_miner b.(ob_miner) (u64_add miner_reward x.(x_fees))).

(** The execution of a block at a topoheight: a new chain state, the
    transactions, the rewards, and the changes written. *)
Definition execute_block (b : OrderedBlock) (topoheight block_reward : Z)
  : stm (S * NonceChecker * gset Hash) blockchain_error () := fun '(st, checker, orphaned) =>
  let '(r, x) :=
    (_ ← foldMs (fun _ p => execute_tx b.(ob_hash) p) tt b.(ob_txs);
     _ ← reward_block b block_reward;
     on_chain apply_changes) (mkExec (chain_with st topoheight) checker orphaned 0) in
  (r, (x.(x_chain).(storage), x.(x_checker), x.(x_orphaned))).
End Execution.
