(* ===== verification/Reorder.v ===== *)
(** The new order of the DAG: [add_new_block_for_storage] of
    [core/blockchain.rs], once the block passed its checks.

    The block is saved with its cumulative difficulty, the best tip is chosen
    and the blocks above the common base of the tips are ordered again.  The
    prefix of the new order that is already in place stays; from there on what
    the blocks of the old order changed is deleted ([clean_loop]) and the
    blocks of the new order are executed one after the other ([order_loop]).
    Then the tips, the tops and the stable height of the chain are updated.
    The notifications, the mempool and the pruning that follow are not part of
    it. *)

From S2P Require Import Prelude External ExternalModel ExternalCrypto Serializer Hash VarUint Defaults Elgamal Proofs Transaction Verify Block Errors Account Versions Storage Providers Dag DagOrder DagWalks BlockProviders DagBase NonceChecker Emission ChainState BlockCheck ChainProviders Execution.

Section Reorder.
Context {UL : U256Lib} {IS : IndexSetLib Hash} {B3 : Blake3} {XH : XelisHashLib}.
Context {CV : Curve} {ML : Merlin} {RP : RangeProofLib} {HM : HashMapIter} {IM : IndexMapLib Z Z}.
Context {S : Type} {SP : Storage S} {DP : DifficultyProvider S} {CP : ClientProtocolProvider S}.
Context {BH : BlocksAtHeightProvider S} {PR : PrunedTopoheightProvider S} {BD : BlockDagProvider S}.
Context {TP : TipsProvider S} {RW : RewindProvider S}.
Context (DEV_PUBLIC_KEY : CompressedPublicKey).
(** The randomness of the proofs of a transaction. *)
Context (rnd : Hash -> nat -> scalar).

(** ** Side blocks *)

Fixpoint side_loop (count : nat) (provider : S) (height i : Z) : bres bool :=
  match count with
  | O => Ok false
  | Datatypes.S count =>
      if 0 <? i then
        hash ← get_hash_at_topo_height provider i;
        previous_height ← get_height_for_block_hash provider hash;
        if height <=? previous_height then Ok true
        else side_loop count provider height (i - 1)
      else Ok false
  end.
Definition is_side_block_internal (provider : S) (hash : Hash) (current_topoheight : Z) : bres bool :=
  ordered ← is_block_topological_ordered provider hash;
  if negb ordered then Ok false
  else
    topoheight ← get_topo_height_for_hash provider hash;
    if (topoheight =? 0) || (current_topoheight <? topoheight) then Ok false
    else
      height ← get_height_for_block_hash provider hash;
      side_loop (Z.to_nat STABLE_LIMIT) provider height (topoheight - 1).

(** The side blocks at a height, the block itself excepted. *)
Definition count_side_blocks (provider : S) (hash : Hash) (height highest_topo : Z) : bres Z :=
  blocks_at_height ← get_blocks_at_height provider height;
  foldM (fun count block =>
    if decide (block <> hash) then
      side ← is_side_block_internal provider block highest_topo;
      Ok (if (side : bool) then u64_add count 1 else count)
    else Ok count) 0 (iset_list blocks_at_height).

(** ** Cleaning the topoheights that change *)

Definition clean_txs (hash_at_topo : Hash) (is_orphaned : bool) (orphaned : gset Hash) (txs_hashes : list Hash)
  : stm S blockchain_error (gset Hash) :=
  foldMs (fun orphaned tx_hash =>
    st ← st_get;
    executed ← lift_res (is_tx_executed_in_block st tx_hash hash_at_topo);
    if (executed : bool) then
      _ ← remove_tx_executed tx_hash;
      mret (if is_orphaned then {[tx_hash]} ∪ orphaned else orphaned)
    else mret orphaned) orphaned txs_hashes.

Definition clean_topoheight (full_order : list Hash) (orphaned : gset Hash) (topoheight : Z) (hash_at_topo : Hash)
  : stm S blockchain_error (gset Hash) :=
  st ← st_get;
  block ← lift_res (get_block_header_by_hash st hash_at_topo);
  let is_orphaned := negb (bool_decide (hash_at_topo ∈ full_order)) in
  orphaned ← clean_txs hash_at_topo is_orphaned orphaned (iset_list block.(bh_txs_hashes));
  _ ← (_ ← delete_versioned_balances_at_topoheight topoheight;
       _ ← delete_versioned_nonces_at_topoheight topoheight;
       delete_registrations_at_topoheight topoheight);
  mret orphaned.

(** The variables of the loop: what is left of the order, whether a topoheight
    changed, how many did not, the orphaned transactions. *)
Record CleanState := mkClean {
  cs_order : list Hash;
  cs_written : bool;
  cs_skipped : Z;
  cs_orphaned : gset Hash;
}.

(** [if !is_written { if let Some(order) = full_order.first() { ... } }] *)
Definition stays_first (st : S) (c : CleanState) (hash_at_topo : Hash) : bres bool :=
  if c.(cs_written) then Ok false
  else match c.(cs_order) with
       | [] => Ok false
       | order :: _ =>
           ordered ← is_block_topological_ordered st order;
           Ok (ordered && bool_decide (order = hash_at_topo))
       end.

Fixpoint clean_loop (count : nat) (topoheight : Z) (c : CleanState) : stm S blockchain_error CleanState :=
  match count with
  | O => mret c
  | Datatypes.S count =>
      st ← st_get;
      hash_at_topo ← lift_res (get_hash_at_topo_height st topoheight);
      stays ← lift_res (stays_first st c hash_at_topo);
      if (stays : bool) then
        clean_loop count (u64_add topoheight 1)
          (mkClean (tail c.(cs_order)) false (u64_add c.(cs_skipped) 1) c.(cs_orphaned))
      else
        orphaned ← clean_topoheight c.(cs_order) c.(cs_orphaned) topoheight hash_at_topo;
        clean_loop count (u64_add topoheight 1) (mkClean c.(cs_order) true c.(cs_skipped) orphaned)
  end.

(** ** Ordering and executing the blocks *)

Local Abbreviation NonceChecker := (gmap CompressedPublicKey AccountEntry).

Record OrderState := mkOrder {
  os_storage : S;
  os_checker : NonceChecker;
  os_side_blocks : gmap Z Z;
  os_orphaned : gset Hash;
  os_written : bool;
  os_highest : Z;
}.

Definition on_store {A} (m : stm S blockchain_error A) : stm OrderState blockchain_error A := fun o =>
  let '(r, st) := m o.(os_storage) in
  (r, mkOrder st o.(os_checker) o.(os_side_blocks) o.(os_orphaned) o.(os_written) o.(os_highest)).
Definition on_execution {A} (m : stm (S * NonceChecker * gset Hash) blockchain_error A) : stm OrderState blockchain_error A := fun o =>
  let '(r, (st, checker, orphaned)) := m (o.(os_storage), o.(os_checker), o.(os_orphaned)) in
  (r, mkOrder st checker o.(os_side_blocks) orphaned o.(os_written) o.(os_highest)).

Definition set_highest (highest_topo : Z) (o : OrderState) : OrderState :=
  mkOrder o.(os_storage) o.(os_checker) o.(os_side_blocks) o.(os_orphaned) o.(os_written) highest_topo.
Definition set_written (o : OrderState) : OrderState :=
  mkOrder o.(os_storage) o.(os_checker) o.(os_side_blocks) o.(os_orphaned) true o.(os_highest).
Definition set_side_blocks (height count : Z) (o : OrderState) : OrderState :=
  mkOrder o.(os_storage) o.(os_checker) (<[height := count]> o.(os_side_blocks)) o.(os_orphaned) o.(os_written) o.(os_highest).

(** [if !is_written && tips_count != 0 && ...]: the block is already there. *)
Definition stays_ordered (o : OrderState) (tips_count : nat) (hash : Hash) (highest_topo : Z) : bres bool :=
  if negb o.(os_written) && negb (tips_count =? 0)%nat then
    ordered ← is_block_topological_ordered o.(os_storage) hash;
    if (ordered : bool) then
      topoheight ← get_topo_height_for_hash o.(os_storage) hash;
      Ok (topoheight =? highest_topo)
    else Ok false
  else Ok false.

(** The block with its transactions, as it is executed. *)
Definition to_execute (hash : Hash) (block : Block) : OrderedBlock :=
  mkOrdered hash block.(header).(bh_height) block.(header).(bh_miner)
    (zip_with (fun tx tx_hash => mkBlockTx tx tx_hash (rnd tx_hash)) block.(transactions)
       (iset_list block.(header).(bh_txs_hashes))).

(** The reward of a block and the supply after it, recorded at its topoheight. *)
Definition record_reward (hash : Hash) (height highest_topo : Z) : stm OrderState blockchain_error Z :=
  o ← st_get;
  past_supply ← lift_res (if highest_topo =? 0 then Ok 0
                          else get_supply_at_topo_height o.(os_storage) (u64_sub highest_topo 1));
  is_side_block ← lift_res (is_side_block_internal o.(os_storage) hash highest_topo);
  side_blocks_count ← lift_res (match o.(os_side_blocks) !! height with
                                | Some count => Ok count
                                | None => count_side_blocks o.(os_storage) hash height highest_topo
                                end);
  let block_reward := internal_get_block_reward past_supply is_side_block side_blocks_count in
  _ ← st_modify (set_side_blocks height (if (is_side_block : bool) then u64_add side_blocks_count 1 else side_blocks_count));
  _ ← on_store (set_block_reward_at_topo_height highest_topo block_reward);
  _ ← on_store (set_supply_at_topo_height highest_topo (u64_add past_supply block_reward));
  mret block_reward.

Definition place_block (hash : Hash) (highest_topo : Z) : stm OrderState blockchain_error () :=
  _ ← st_modify set_written;
  _ ← on_store (set_topo_height_for_block hash highest_topo);
  o ← st_get;
  block ← lift_res (get_block_by_hash o.(os_storage) hash);
  block_reward ← record_reward hash block.(header).(bh_height) highest_topo;
  on_execution (execute_block DEV_PUBLIC_KEY (to_execute hash block) highest_topo block_reward).

Definition order_step (base_topo_height skipped : Z) (tips_count : nat) (i : Z) (hash : Hash) : stm OrderState blockchain_error () :=
  let highest_topo := u64_add (u64_add base_topo_height skipped) i in
  _ ← st_modify (set_highest highest_topo);
  o ← st_get;
  stays ← lift_res (stays_ordered o tips_count hash highest_topo);
  if (stays : bool) then mret tt else place_block hash highest_topo.

Fixpoint order_loop (base_topo_height skipped : Z) (tips_count : nat) (i : Z) (full_order : list Hash)
  : stm OrderState blockchain_error () :=
  match full_order with
  | [] => mret tt
  | hash :: full_order =>
      _ ← order_step base_topo_height skipped tips_count i hash;
      order_loop base_topo_height skipped tips_count (i + 1) full_order
  end.

(** The loop over the order, on what the cleaning left. *)
Definition run_order (base_topo_height : Z) (tips_count : nat) (c : CleanState) : stm S blockchain_error (Z * gset Hash) := fun st =>
  match order_loop base_topo_height c.(cs_skipped) tips_count 0 c.(cs_order)
          (mkOrder st nonce_checker_new ∅ c.(cs_orphaned) c.(cs_written) 0) with
  | (Ok _, o) => (Ok (o.(os_highest), o.(os_orphaned)), o.(os_storage))
  | (Err e, o) => (Err e, o.(os_storage))
  | (Panic, o) => (Panic, o.(os_storage))
  | (Diverge, o) => (Diverge, o.(os_storage))
  end.

(** The cleaning, then the new order: the highest topoheight reached and the
    transactions that are no longer executed. *)
Definition reorder_blocks (full_order : list Hash) (base_topo_height current_topoheight : Z) (tips_count : nat)
  : stm S blockchain_error (Z * gset Hash) :=
  c ← clean_loop (Z.to_nat (current_topoheight + 1 - base_topo_height)) base_topo_height
        (mkClean full_order (base_topo_height =? 0) 0 ∅);
  run_order base_topo_height tips_count c.

(** ** The tips that stay *)

(** The tips that are not too far from the main chain. *)
Definition keep_tip (fuel : nat) (storage : S) (current_height : Z) (new_tips : list Hash) (hash : Hash) : bres (list Hash) :=
  distance ← calculate_distance_from_mainchain fuel storage hash;
  Ok (if (distance <=? current_height) && (STABLE_LIMIT <=? u64_sub current_height distance) then new_tips
      else new_tips ++ [hash]).

(** The best tip, and those whose difficulty is close enough to its own. *)
Definition select_tips (fuel : nat) (storage : S) (current_height : Z) (tips : gset Hash) : bres (gset Hash) :=
  new_tips ← foldM (keep_tip fuel storage current_height) [] (hs_iter tips);
  best_tip ← find_best_tip_by_cumulative_difficulty storage new_tips;
  tips ← foldM (fun (tips : gset Hash) hash =>
    if decide (best_tip <> hash) then
      valid ← validate_tips storage best_tip hash;
      Ok (if (valid : bool) then {[hash]} ∪ tips else tips)
    else Ok tips) ∅ new_tips;
  Ok ({[best_tip]} ∪ tips).

(** ** The node: its storage, the caches of the DAG algorithms and the atomics
    of [Blockchain] *)

Context {LB : LruLib (Hash * Z) (Hash * Z)} {LW : LruLib (Hash * Hash * Z) (gset Hash * VarUint.t)}.
Context {LO : LruLib (Hash * Hash * Z) (iset Hash)}.

Record Node := mkNode {
  n_storage : S;
  n_base_cache : lru (Hash * Z) (Hash * Z);
  n_work_cache : lru (Hash * Hash * Z) (gset Hash * VarUint.t);
  n_order_cache : lru (Hash * Hash * Z) (iset Hash);
  n_chain : Blockchain;
  n_stable_topoheight : Z;
  n_difficulty : VarUint.t;
}.

Definition on_node {A} (m : stm S blockchain_error A) : stm Node blockchain_error A := fun n =>
  let '(r, st) := m n.(n_storage) in
  (r, mkNode st n.(n_base_cache) n.(n_work_cache) n.(n_order_cache) n.(n_chain) n.(n_stable_topoheight) n.(n_difficulty)).
Definition read_node {A} (m : S -> bres A) : stm Node blockchain_error A := fun n => (m n.(n_storage), n).
Definition with_base_cache {A} (m : S -> stm (lru (Hash * Z) (Hash * Z)) blockchain_error A) : stm Node blockchain_error A := fun n =>
  let '(r, c) := m n.(n_storage) n.(n_base_cache) in
  (r, mkNode n.(n_storage) c n.(n_work_cache) n.(n_order_cache) n.(n_chain) n.(n_stable_topoheight) n.(n_difficulty)).
Definition with_work_cache {A} (m : S -> stm (lru (Hash * Hash * Z) (gset Hash * VarUint.t)) blockchain_error A)
  : stm Node blockchain_error A := fun n =>
  let '(r, c) := m n.(n_storage) n.(n_work_cache) in
  (r, mkNode n.(n_storage) n.(n_base_cache) c n.(n_order_cache) n.(n_chain) n.(n_stable_topoheight) n.(n_difficulty)).
Definition with_order_cache {A} (m : S -> stm (lru (Hash * Hash * Z) (iset Hash)) blockchain_error A) : stm Node blockchain_error A :=
  fun n =>
  let '(r, c) := m n.(n_storage) n.(n_order_cache) in
  (r, mkNode n.(n_storage) n.(n_base_cache) n.(n_work_cache) c n.(n_chain) n.(n_stable_topoheight) n.(n_difficulty)).

Definition set_topoheight (topoheight : Z) (c : Blockchain) : Blockchain :=
  mkBlockchain c.(bc_height) topoheight c.(bc_stable_height) c.(bc_network) c.(bc_simulator) c.(bc_skip_pow_verification).
Definition set_height (height : Z) (c : Blockchain) : Blockchain :=
  mkBlockchain height c.(bc_topoheight) c.(bc_stable_height) c.(bc_network) c.(bc_simulator) c.(bc_skip_pow_verification).
Definition set_stable_height (stable_height : Z) (c : Blockchain) : Blockchain :=
  mkBlockchain c.(bc_height) c.(bc_topoheight) stable_height c.(bc_network) c.(bc_simulator) c.(bc_skip_pow_verification).
Definition on_chain_atomics (f : Blockchain -> Blockchain) (n : Node) : Node :=
  mkNode n.(n_storage) n.(n_base_cache) n.(n_work_cache) n.(n_order_cache) (f n.(n_chain)) n.(n_stable_topoheight) n.(n_difficulty).
Definition set_stable (stable_height stable_topoheight : Z) (n : Node) : Node :=
  mkNode n.(n_storage) n.(n_base_cache) n.(n_work_cache) n.(n_order_cache) (set_stable_height stable_height n.(n_chain))
    stable_topoheight n.(n_difficulty).
Definition set_difficulty (difficulty : VarUint.t) (n : Node) : Node :=
  mkNode n.(n_storage) n.(n_base_cache) n.(n_work_cache) n.(n_order_cache) n.(n_chain) n.(n_stable_topoheight) difficulty.

(** ** The block joins the chain *)

Definition record_cumulative_difficulty (fuel : nat) (block_hash : Hash) (block : BlockHeader) : stm Node blockchain_error () :=
  cumulative_difficulty ←
    (if (iset_len block.(bh_tips) =? 0)%nat then mret GENESIS_BLOCK_DIFFICULTY
     else
       '(base, base_height) ← with_base_cache (fun st => find_common_base fuel st (iset_list block.(bh_tips)));
       '(_, cumulative_difficulty) ← with_work_cache (fun st => find_tip_work_score fuel st block_hash base base_height);
       mret cumulative_difficulty);
  on_node (set_cumulative_difficulty_for_block_hash block_hash cumulative_difficulty).

(** The top topoheight of the chain. *)
Definition update_top_topoheight (highest_topo : Z) : stm Node blockchain_error () :=
  n ← st_get;
  if (n.(n_chain).(bc_height) =? 0) || (n.(n_chain).(bc_topoheight) <? highest_topo) then
    _ ← on_node (set_top_topoheight highest_topo);
    st_modify (on_chain_atomics (set_topoheight highest_topo))
  else mret tt.

(** The tips of the chain and its top height. *)
Definition update_tips (block : BlockHeader) (tips : gset Hash) : stm Node blockchain_error () :=
  n ← st_get;
  let current_height := n.(n_chain).(bc_height) in
  _ ← on_node (store_tips tips);
  if (current_height =? 0) || (current_height <? block.(bh_height)) then
    _ ← on_node (set_top_height block.(bh_height));
    st_modify (on_chain_atomics (set_height block.(bh_height)))
  else mret tt.

(** The stable height and the difficulty kept by the node. *)
Definition update_stable (fuel : nat) (tips : gset Hash) : stm Node blockchain_error () :=
  '(stable_hash, stable_height) ← with_base_cache (fun st => find_common_base fuel st (hs_iter tips));
  n ← st_get;
  _ ← st_modify (set_stable stable_height n.(n_stable_topoheight));
  stable_topoheight ← read_node (fun st => get_topo_height_for_hash st stable_hash);
  _ ← st_modify (set_stable stable_height stable_topoheight);
  '(difficulty, _) ← read_node (fun st => get_difficulty_at_tips n.(n_chain) st (hs_iter tips));
  st_modify (set_difficulty difficulty).

(** [add_new_block_for_storage] from the saving of the block on, for a block of
    difficulty [difficulty] and covariance [p]: the highest topoheight of the
    new order and the transactions to add back to the mempool. *)
Definition add_checked_block (fuel : nat) (block_hash : Hash) (block : Block) (difficulty p : VarUint.t)
  : stm Node blockchain_error (Z * gset Hash) :=
  n ← st_get;
  let current_height := n.(n_chain).(bc_height) in
  let current_topoheight := n.(n_chain).(bc_topoheight) in
  let header := block.(header) in
  let tips_count := iset_len header.(bh_tips) in
  _ ← on_node (save_block header block.(transactions) difficulty p block_hash);
  _ ← on_node (add_block_execution_to_order block_hash);
  _ ← record_cumulative_difficulty fuel block_hash header;
  tips ← read_node get_tips;
  let tips : gset Hash := foldl (fun tips hash => tips ∖ {[hash]}) ({[block_hash]} ∪ tips) (iset_list header.(bh_tips)) in
  '(base_hash, base_height) ← with_base_cache (fun st => find_common_base fuel st (hs_iter tips));
  best_tip ← with_work_cache (fun st => find_best_tip fuel st tips base_hash base_height);
  base_topo_height ← read_node (fun st => get_topo_height_for_hash st base_hash);
  full_order ← with_order_cache (fun st => generate_full_order fuel st best_tip base_hash base_height base_topo_height);
  let block_is_ordered := iset_contains block_hash full_order in
  '(highest_topo, orphaned_transactions) ←
    on_node (reorder_blocks (iset_list full_order) base_topo_height current_topoheight tips_count);
  _ ← read_node (fun st => get_height_for_block_hash st best_tip);
  tips ← read_node (fun st => select_tips fuel st current_height tips);
  _ ← update_top_topoheight highest_topo;
  _ ← (if block_is_ordered then mret tt
       else on_node (foldMs (fun _ tx_hash => _ ← add_block_linked_to_tx_if_not_present tx_hash block_hash; mret tt) tt
              (iset_list header.(bh_txs_hashes))));
  _ ← update_tips header tips;
  _ ← update_stable fuel tips;
  mret (highest_topo, orphaned_transactions).
End Reorder.
