(* ===== verification/ExecutionFacts.v ===== *)
(** What the execution of a block does to the funds.

    The loop executes each transaction at most once, skips the ones that fail
    without any effect on the funds, and the funds it leaves are those of the
    executed transactions applied in order; the rewards and [apply_changes]
    then settle them in the storage.  [block_conserves] adds the balances up:
    a block creates the reward and destroys what is burnt, nothing else. *)

From Stdlib Require Import Setoid Morphisms.
From S2P Require Import Prelude External ExternalModel ExternalCrypto Serializer Hash Defaults Elgamal Proofs Transaction Verify VerifyFacts Errors Account Versions Storage StorageFacts Providers NonceChecker Emission StorageLaws Reference ChainState ChainFacts ChainInvariant ApplyChanges Atomic Execution.

Section Frame.
Context {CV : Curve} {ML : Merlin} {RP : RangeProofLib} {S : Type} {SP : Storage S} {SLaws : StorageLaws S}.
Abbreviation chain := (ChainState (S:=S)).
Implicit Types s : chain.

Lemma search_same st st' k a t r :
  same_accounts st st' ->
  search_versioned_balance_for_reference st' k a t r = search_versioned_balance_for_reference st k a t r.
Proof.
  intros [H1 H2 H3 H4 H5 H6 H7 H8]. unfold search_versioned_balance_for_reference. rewrite H8, H7, H5, H6.
  destruct (is_block_topological_ordered st _) as [ord| | |]; cbn [mbind res_bind]; try done.
  destruct (if ord then _ else _) as [rt| | |]; cbn [mbind res_bind]; try done.
  destruct (get_output_balance_at_maximum_topoheight st k a t) as [[[topo v]|]| | |]; cbn [mbind res_bind]; by rewrite ?H4.
Qed.

Lemma ledger_same st' s : same_accounts s.(storage) st' -> chain_ledger (with_storage st' s) ≡ chain_ledger s.
Proof.
  intros Hs. pose proof Hs as [H1 H2 H3 H4 H5 H6 H7 H8]. split_and!; simpl; [|..|done].
  - intros k. unfold stored_nonce. simpl. by rewrite H3.
  - intros k a. unfold receiver_version, stored_balance. simpl. by rewrite H6.
  - intros k a r. unfold sender_echange, stored_selected, create_sender_echange. simpl. by rewrite (search_same s.(storage) st').
Qed.

Context (nh : NonceHistories) (bh : BalanceHistories) (T : Z).

Lemma inv_same st' s : same_accounts s.(storage) st' -> chain_inv nh bh T s -> chain_inv nh bh T (with_storage st' s).
Proof.
  intros [Hs Ha _ _ _ _ _ _] [H1 H2 H3 H4 H5 H6]. split; simpl; [by apply Hs|done|exact H3|exact H4|exact H5|].
  intros k a e He. apply Ha. by eapply H6.
Qed.
End Frame.

Section Loop.
Context {CV : Curve} {ML : Merlin} {RP : RangeProofLib} {HM : HashMapIter} {IM : IndexMapLib Z Z}.
Context {S : Type} {SP : Storage S} {SLaws : StorageLaws S} {CP : ClientProtocolProvider S} {CL : ClientProtocolLaws S}.
Context (nh : NonceHistories) (bh : BalanceHistories) (T : Z).
Context (Hst : forall k a t v, (t, v) ∈ bh (k, a) -> stored v = v) (HT : in_u 64 T) (Hn : below T nh) (Hb : below T bh).
Context (Hread : forall k a, exists c q, computable (fresh bh k a).(final_balance) = Ok (c, q)).

Abbreviation chain := (ChainState (S:=S)).
Abbreviation chain_inv := (chain_inv nh bh T).

(** A transaction that was executed, with its decompressed transfers. *)
Definition Executed : Type := BlockTx * list DecompressedTransferCt.
Definition decompressed_ok (d : Executed) : Prop := mapMr decompress_transfer (transfers_of d.1.(bt_tx)) = Ok d.2.
Definition apply_executed (l : Ledger) (d : Executed) : Ledger := ledger_apply_balances d.1.(bt_tx) d.2 l.
Definition fees_of (done : list Executed) : Z := foldr (fun d z => d.1.(bt_tx).(fee) + z) 0 done.

#[export] Instance apply_executed_funds : Proper (same_funds ==> (=) ==> same_funds) apply_executed.
Proof. intros l1 l2 Hl d ? <-. by apply ledger_apply_funds. Qed.

(** The state of the loop after some transactions, of which [done] were
    executed. *)
Context (st0 : S).
Record loop_inv (l0 : Ledger) (done : list Executed) (x : ExecState (S:=S)) : Prop := {
  li_chain : chain_inv x.(x_chain);
  li_readable : readable x.(x_chain);
  li_funds : same_funds (chain_ledger x.(x_chain)) (foldl apply_executed l0 done);
  li_fees : x.(x_fees) = wrap 64 (fees_of done);
  li_done : Forall decompressed_ok done;
  li_executed : Forall (fun d => is_tx_executed_in_a_block x.(x_chain).(storage) d.1.(bt_hash) = Ok true) done;
  li_once : NoDup ((fun d => d.1.(bt_hash)) <$> done);
  li_assets a : asset_registered st0 a -> asset_registered x.(x_chain).(storage) a;
}.

(** *** The parts of the loop *)

Lemma on_chain_ok {A} (m : stm chain blockchain_error A) x a x' :
  on_chain m x = (Ok a, x') ->
  exists c, m x.(x_chain) = (Ok a, c) /\ x' = mkExec c x.(x_checker) x.(x_orphaned) x.(x_fees).
Proof. unfold on_chain. destruct (m (x_chain x)) as [r c]. intros [= -> <-]. eauto. Qed.
Lemma on_checker_ok {A} (m : stm (gmap CompressedPublicKey AccountEntry) blockchain_error A) (x : ExecState (S:=S)) a x' :
  on_checker m x = (Ok a, x') ->
  exists c, m x.(x_checker) = (Ok a, c) /\ x' = mkExec x.(x_chain) c x.(x_orphaned) x.(x_fees).
Proof. unfold on_checker. destruct (m (x_checker x)) as [r c]. intros [= -> <-]. eauto. Qed.
Lemma on_storage_ok {A} (m : stm S blockchain_error A) (s : chain) a s' :
  on_storage m s = (Ok a, s') -> exists st', m s.(storage) = (Ok a, st') /\ s' = with_storage st' s.
Proof. unfold on_storage. destruct (m (storage s)) as [r st']. intros [= -> <-]. eauto. Qed.

Definition with_chain (c : chain) (x : ExecState (S:=S)) : ExecState (S:=S) :=
  mkExec c x.(x_checker) x.(x_orphaned) x.(x_fees).

(** A step that leaves the funds and what was executed. *)
Lemma loop_inv_keep l0 done (x : ExecState (S:=S)) x' :
  loop_inv l0 done x -> chain_inv x'.(x_chain) -> readable x'.(x_chain) ->
  same_funds (chain_ledger x'.(x_chain)) (chain_ledger x.(x_chain)) -> x'.(x_fees) = x.(x_fees) ->
  (forall tx, is_tx_executed_in_a_block x'.(x_chain).(storage) tx = is_tx_executed_in_a_block x.(x_chain).(storage) tx) ->
  (forall a, asset_registered x.(x_chain).(storage) a -> asset_registered x'.(x_chain).(storage) a) ->
  loop_inv l0 done x'.
Proof.
  intros [H1 H2 H3 H4 H5 H6 H7 H8] Hi Hr Hf Hx He Ha.
  split; [done|done|by rewrite Hf|by rewrite Hx|done| |done|by intros a ?%H8%Ha].
  apply (list.Forall_impl _ _ _ H6). intros d. by rewrite He.
Qed.

Lemma link_keep l0 done x tx b r x' :
  loop_inv l0 done x -> on_chain (on_storage (add_block_linked_to_tx_if_not_present tx b)) x = (Ok r, x') ->
  loop_inv l0 done x'.
Proof using Hst HT Hn Hb Hread CL.
  intros Hx (c & (st' & Hl & ->)%on_storage_ok & ->)%on_chain_ok. apply law_link in Hl as [Hs He].
  apply (loop_inv_keep _ _ x); simpl; try done.
  - apply inv_same; [done|apply Hx].
  - exact (li_readable _ _ _ Hx).
  - by rewrite ledger_same.
  - by destruct Hs.
Qed.

Lemma orphan_keep l0 done x h : loop_inv l0 done x -> loop_inv l0 done (orphan h x).
Proof. intros Hx. apply (loop_inv_keep _ _ x); try done; apply Hx. Qed.

Lemma partial_topoheight tx rnd (s : chain) : (apply_with_partial_verify tx rnd s).2.(topoheight) = s.(topoheight).
Proof.
  apply (partial_always (fun s' : chain => s'.(topoheight) = s.(topoheight))); try done.
  - intros k a. by apply receiver_always.
  - intros k a c s1. unfold ChainState.set_receiver. by destruct (receiver_version k a s1).
Qed.

Lemma succeeds_ok {St E F A} (m : stm St E A) s b s' :
  succeeds (F:=F) m s = (Ok b, s') ->
  (b = true /\ exists a, m s = (Ok a, s')) \/ (b = false /\ exists e, m s = (Err e, s')).
Proof. unfold succeeds. destruct (m s) as [[a|e| |] s1]; intros [= <- <-]; eauto. Qed.

(** The partial verification, whether it succeeds or not. *)
Lemma partial_step (s : chain) tx rnd b s' :
  chain_inv s -> readable s -> verify_commitment_assets tx = true ->
  succeeds (F:=blockchain_error) (apply_with_partial_verify tx rnd) s = (Ok b, s') ->
  chain_inv s' /\ readable s' /\ s'.(storage) = s.(storage) /\
  (if b then exists ds, mapMr decompress_transfer (transfers_of tx) = Ok ds /\
     same_funds (chain_ledger s') (ledger_apply_balances tx ds (chain_ledger s))
   else same_funds (chain_ledger s') (chain_ledger s)).
Proof using Hst HT Hn Hb Hread.
  intros Hi Hr Hv Hs. pose proof Hv as Hnd. apply verify_commitment_assets_iff in Hnd as (_ & Hnd & _).
  assert (s' = (apply_with_partial_verify tx rnd s).2) as Es.
  { unfold succeeds in Hs. by destruct (apply_with_partial_verify tx rnd s) as [[a|e| |] s1]; injection Hs as _ <-. }
  split_and!.
  - rewrite Es. by apply (inv_apply_partial nh bh T Hst HT Hn Hb).
  - rewrite Es. apply (partial_readable nh bh T Hst HT Hn Hb Hread tx rnd s).
    split; [apply Hi|]. split; [apply Hi|done].
  - rewrite Es. apply partial_storage.
  - apply succeeds_ok in Hs as [[-> [[] Ha]]|[-> [e Ha]]].
    + apply apply_with_partial_verify_obs in Ha as (ds & Hds & _ & Ho); [|done..]. exists ds. split; [done|]. by rewrite Ho.
    + destruct (partial_atomic nh bh T Hst HT Hn Hb Hread tx rnd s _ s' Hi Hr Hv Ha) as [|]; done.
Qed.

(** Setting the nonce of the source. *)
Lemma nonce_step (s : chain) k n s' :
  chain_inv s -> readable s -> in_u 64 n -> internal_update_account_nonce k n s = (Ok tt, s') ->
  chain_inv s' /\ readable s' /\ s'.(storage) = s.(storage) /\ same_funds (chain_ledger s') (chain_ledger s).
Proof using Hst HT Hn Hb.
  intros Hi Hr Hu Hs. pose proof (inv_update_nonce nh bh T Hst HT Hn Hb k n Hu s Hi) as Hi'. rewrite Hs in Hi'.
  pose proof (update_nonce_law _ _ _ _ Hs) as Hl. split; [done|].
  unfold internal_update_account_nonce in Hs.
  apply stm_bind_ok in Hs as (s0 & s1 & [= <- <-] & (acc & s2 & Ha & [= <-])%stm_bind_ok).
  assert (s2 = s) as -> by (destruct (accounts s !! k); by injection Ha as _ <-).
  split_and!; [exact Hr|done|by rewrite Hl].
Qed.

Lemma fees_snoc done d : fees_of (done ++ [d]) = fees_of done + d.1.(bt_tx).(fee).
Proof. unfold fees_of. induction done as [|d' done IH]; simpl; [lia|]. rewrite IH. lia. Qed.

(** The transaction joins the executed ones. *)
Lemma loop_inv_push l0 done x p ds (s' : chain) st' block :
  loop_inv l0 done x -> is_tx_executed_in_a_block x.(x_chain).(storage) p.(bt_hash) = Ok false ->
  mapMr decompress_transfer (transfers_of p.(bt_tx)) = Ok ds ->
  chain_inv s' -> readable s' -> s'.(storage) = x.(x_chain).(storage) ->
  same_funds (chain_ledger s') (ledger_apply_balances p.(bt_tx) ds (chain_ledger x.(x_chain))) ->
  set_tx_executed_in_block p.(bt_hash) block x.(x_chain).(storage) = (Ok tt, st') ->
  loop_inv l0 (done ++ [(p, ds)])
    (count_fee p.(bt_hash) p.(bt_tx).(fee) (with_chain (with_storage st' s') x)).
Proof using Hst HT Hn Hb Hread CL.
  intros [_ _ K3 K4 K5 K6 K7 K8] He Hds Hi Hr Est Hf Hset.
  apply law_set_executed in Hset as (Hsame & Hexec & Hother).
  assert (p.(bt_hash) ∉ (fun d : Executed => d.1.(bt_hash)) <$> done) as Hfresh.
  { intros (d & Hd & Hin)%list_elem_of_fmap. rewrite list.Forall_forall in K6. specialize (K6 d Hin).
    simpl in K6. rewrite <- Hd in K6. congruence. }
  rewrite <- Est in Hsame. split; simpl.
  - by apply inv_same.
  - exact Hr.
  - rewrite ledger_same by done. rewrite Hf, foldl_app. simpl. unfold apply_executed at 1. simpl. by rewrite K3.
  - rewrite K4, fees_snoc. unfold u64_add, wrap. rewrite Zplus_mod_idemp_l. done.
  - apply list.Forall_app. split; [done|]. by repeat constructor.
  - apply list.Forall_app. split; [|by repeat constructor]. apply list.Forall_forall. intros d Hin.
    rewrite list.Forall_forall in K6. rewrite Hother; [by apply K6|]. intros E. apply Hfresh. rewrite <- E.
    apply list_elem_of_fmap. eauto.
  - rewrite fmap_app. apply list.NoDup_app. split; [done|]. split; [|apply NoDup_singleton]. set_solver.
  - intros a Ha. apply Hsame. rewrite Est. by apply K8.
Qed.

Lemma execute_tx_step l0 block done x p x' :
  loop_inv l0 done x -> verify_commitment_assets p.(bt_tx) = true -> execute_tx block p x = (Ok tt, x') ->
  exists done', (done' = done \/ exists ds, done' = done ++ [(p, ds)]) /\ loop_inv l0 done' x'.
Proof using Hst HT Hn Hb Hread CL.
  intros Hx Hv Hr. unfold execute_tx in Hr.
  apply stm_bind_ok in Hr as (b & x1 & Hl & Hr). apply (link_keep _ _ _ _ _ _ _ Hx) in Hl as H1. clear Hl Hx x.
  apply stm_bind_ok in Hr as (x & x2 & [= <- <-] & (executed & x3 & [= He <-] & Hr)%stm_bind_ok).
  destruct executed; [injection Hr as <-; exists done; auto|].
  apply stm_bind_ok in Hr as (used & x2 & (c & Hu & ->)%on_checker_ok & Hr).
  set (x2 := mkExec (x_chain x1) c (x_orphaned x1) (x_fees x1)) in Hr.
  assert (loop_inv l0 done x2) as H2 by (apply (loop_inv_keep _ _ x1); try done; apply H1).
  destruct used; [|injection Hr as <-; exists done; split; [auto|by apply orphan_keep]]. cbn [negb] in Hr.
  apply stm_bind_ok in Hr as (applied & x3 & (s3 & Hs & ->)%on_chain_ok & Hr).
  destruct (partial_step _ _ _ _ _ (li_chain _ _ _ H2) (li_readable _ _ _ H2) Hv Hs) as (Hi3 & Hr3 & E3 & Hf3).
  destruct applied; cbn [negb] in Hr; cycle 1.
  { injection Hr as <-. exists done. split; [auto|]. apply orphan_keep, (loop_inv_keep _ _ x2); try done; simpl; by rewrite E3. }
  apply stm_bind_ok in Hr as (x & x4 & [= <- <-] & (next & x5 & [= Hnext <-] & Hr)%stm_bind_ok). simpl in Hnext.
  apply (used_next _ _ _ _ _ _ _ _ Hu) in Hnext as ->.
  apply stm_bind_ok in Hr as ([] & x6 & (s4 & Hn4 & ->)%on_chain_ok & Hr). simpl in Hn4.
  destruct (nonce_step _ _ _ _ Hi3 Hr3 (wrap_range 64 _ ltac:(lia)) Hn4) as (Hi4 & Hr4 & E4 & Hf4).
  apply stm_bind_ok in Hr as ([] & x7 & (s5 & (st5 & Hset & ->)%on_storage_ok & ->)%on_chain_ok & [= <-]). simpl in Hset.
  destruct Hf3 as (ds & Hds & Hf3). exists (done ++ [(p, ds)]). split; [eauto|].
  apply (loop_inv_push l0 done x2 p ds s4 st5 block); try done; [by rewrite E4|by rewrite Hf4|by rewrite E4, E3 in Hset].
Qed.

Lemma execute_txs l0 block txs x x' :
  loop_inv l0 [] x -> Forall (fun p => verify_commitment_assets p.(bt_tx) = true) txs ->
  foldMs (fun _ p => execute_tx block p) tt txs x = (Ok tt, x') ->
  exists done, sublist done.*1 txs /\ loop_inv l0 done x'.
Proof using Hst HT Hn Hb Hread CL.
  intros Hx Hv Hr.
  apply (foldMs_prefix _ (fun pre x => exists done, sublist done.*1 pre /\ loop_inv l0 done x)) in Hr; [done|..].
  - exists []. split; [constructor|done].
  - intros pre p post x1 x2 -> (done & Hsub & H1) Hstep.
    apply list.Forall_app in Hv as [_ [Hp _]%list.Forall_cons].
    apply (execute_tx_step l0 block done) in Hstep as (done' & Hd & H2); [|done..]. exists done'. split; [|done].
    destruct Hd as [->|[ds ->]]; [by apply sublist_inserts_r|]. rewrite fmap_app. by apply sublist_app.
Qed.

(** *** The rewards *)

Definition reward_ledger (miner : CompressedPublicKey) (reward : Z) (l : Ledger) : Ledger :=
  upd_recv miner XELIS_ASSET (ct_add_u64 (l_recv l miner XELIS_ASSET) reward) l.
#[export] Instance reward_ledger_funds miner reward : Proper (same_funds ==> same_funds) (reward_ledger miner reward).
Proof.
  intros l1 l2 [H1 H2]. split; [|done]. intros k a. unfold reward_ledger. cbn [l_recv upd_recv].
  rewrite !fn_upd_pair, !H1. by case_decide.
Qed.

Lemma reward_step (s : chain) miner reward s' :
  chain_inv s -> reward_miner miner reward s = (Ok tt, s') ->
  chain_inv s' /\ s'.(storage) = s.(storage) /\ same_funds (chain_ledger s') (reward_ledger miner reward (chain_ledger s)).
Proof using Hst HT Hn Hb.
  intros Hi Hr. pose proof (inv_reward nh bh T Hst HT Hn Hb miner reward s Hi) as Hi'. rewrite Hr in Hi'.
  split; [done|]. unfold reward_miner in Hr. apply stm_bind_ok in Hr as (c & s1 & Hg & [= <-]). split.
  - rewrite storage_put_receiver.
    assert (always (fun s' : chain => s'.(storage) = s.(storage)) (internal_get_receiver_balance miner XELIS_ASSET)) as Hal
      by by apply receiver_always.
    specialize (Hal s eq_refl). by rewrite Hg in Hal.
  - rewrite (receiver_write _ _ _ _ _ _ Hg). pose proof (receiver_read _ _ _ _ _ Hg) as (v & _ & Hc & _).
    unfold reward_ledger. by rewrite Hc.
Qed.

Context (DEV_PUBLIC_KEY : CompressedPublicKey).

(** The payments of a block: the developers, when they have a part, and the
    miner, who also gets the fees. *)
Definition payments (b : OrderedBlock) (block_reward fees : Z) : list (CompressedPublicKey * Z) :=
  if negb (get_block_dev_fee b.(ob_height) =? 0) then
    [(DEV_PUBLIC_KEY, dev_fee_part block_reward b.(ob_height));
     (b.(ob_miner), u64_add (u64_sub block_reward (dev_fee_part block_reward b.(ob_height))) fees)]
  else [(b.(ob_miner), u64_add block_reward fees)].
Definition pay (l : Ledger) (p : CompressedPublicKey * Z) : Ledger := reward_ledger p.1 p.2 l.

Lemma reward_block_step b block_reward x x' :
  chain_inv x.(x_chain) -> reward_block DEV_PUBLIC_KEY b block_reward x = (Ok tt, x') ->
  chain_inv x'.(x_chain) /\ x'.(x_chain).(storage) = x.(x_chain).(storage) /\
  same_funds (chain_ledger x'.(x_chain)) (foldl pay (chain_ledger x.(x_chain)) (payments b block_reward x.(x_fees))).
Proof using Hst HT Hn Hb.
  intros Hi Hr. unfold reward_block, payments in *. apply stm_bind_ok in Hr as (mr & x1 & Hdev & Hr).
  apply stm_bind_ok in Hr as (x2 & x3 & [= <- <-] & Hr). apply on_chain_ok in Hr as (s' & Hr & ->).
  destruct (negb _).
  - apply stm_bind_ok in Hdev as ([] & x4 & (s1 & H1 & ->)%on_chain_ok & [= <- <-]). simpl in *.
    apply (reward_step _ _ _ _ Hi) in H1 as (Hi1 & E1 & F1). apply (reward_step _ _ _ _ Hi1) in Hr as (Hi2 & E2 & F2).
    split; [done|]. split; [by rewrite E2|]. rewrite F2. unfold pay. simpl. by rewrite F1.
  - injection Hdev as <- <-. by apply (reward_step _ _ _ _ Hi) in Hr as (Hi2 & E2 & F2).
Qed.

(** *** The block *)

Definition balance_of (bh : BalanceHistories) (k : CompressedPublicKey) (a : Hash) : Ciphertext :=
  ct_of (fresh bh k a).(final_balance).

Lemma balance_of_cons (bh' : BalanceHistories) k a t w h :
  bh' (k, a) = (t, w) :: h -> balance_of bh' k a = ct_of w.(final_balance).
Proof. unfold balance_of, fresh. by intros ->. Qed.

(** What [apply_changes] leaves is the received balance without the outputs. *)
Lemma settled (s s' : chain) :
  chain_inv s -> apply_changes s = (Ok tt, s') ->
  exists nh' bh', stores nh' bh' s'.(storage) /\ forall k a, asset_registered s.(storage) a ->
    balance_of bh' k a = ct_sub (l_recv (chain_ledger s) k a) (l_out (chain_ledger s) k a).
Proof using Hst HT Hn Hb.
  intros Hi Ha. apply (apply_changes_histories nh bh T Hst HT Hn Hb) in Ha as (nh' & bh' & Hs' & _ & Hbh); [|done].
  exists nh', bh'. split; [done|]. intros k a Hreg. specialize (Hbh k a). cbn [l_recv l_out chain_ledger].
  assert (stored_balance s k a = balance_of bh k a) as Hsb.
  { unfold stored_balance. rewrite (ci_topoheight _ _ _ s Hi).
    destruct (law_new_balance_total nh bh s.(storage) k a T (ci_storage _ _ _ s Hi) Hreg HT) as [v Hv]. rewrite Hv.
    by rewrite (new_balance_fresh _ _ _ Hst HT Hn Hb _ _ _ _ (ci_storage _ _ _ s Hi) Hv). }
  destruct (sender_echange k a s) as [e|], (receiver_version k a s) as [v|].
  1-3: destruct Hbh as (w & Hw & Hct & _); rewrite (balance_of_cons bh' k a T w _ Hw), Hct; simpl; by rewrite ?Hsb.
  rewrite Hsb, ct_sub_zero. unfold balance_of, fresh. by rewrite Hbh.
Qed.

Lemma loop_start checker orphaned :
  stores nh bh st0 ->
  loop_inv (chain_ledger (chain_with st0 T)) [] (mkExec (chain_with st0 T) checker orphaned 0).
Proof using Hst HT Hn Hb Hread CL.
  intros Hs. split; try done. constructor.
Qed.

Lemma execute_block_settles b block_reward checker orphaned st' checker' orphaned' :
  stores nh bh st0 -> Forall (fun p => verify_commitment_assets p.(bt_tx) = true) b.(ob_txs) ->
  execute_block DEV_PUBLIC_KEY b T block_reward (st0, checker, orphaned) = (Ok tt, (st', checker', orphaned')) ->
  exists nh' bh' done, stores nh' bh' st' /\ sublist done.*1 b.(ob_txs) /\
    NoDup ((fun d : Executed => d.1.(bt_hash)) <$> done) /\ Forall decompressed_ok done /\
    forall k a, asset_registered st0 a ->
      let l := foldl pay (foldl apply_executed (chain_ledger (chain_with st0 T)) done)
                 (payments b block_reward (wrap 64 (fees_of done))) in
      l_recv (chain_ledger (chain_with st0 T)) k a = balance_of bh k a /\
      balance_of bh' k a = ct_sub (l_recv l k a) (l_out l k a).
Proof using Hst HT Hn Hb Hread CL.
  intros Hs Hv. unfold execute_block.
  match goal with |- context [let '(_, _) := ?m in _] => destruct m as [r x] eqn:Hr end. intros [= -> <- _ _].
  apply stm_bind_ok in Hr as ([] & x1 & Htxs & ([] & x2 & Hrew & (s' & Happly & ->)%on_chain_ok)%stm_bind_ok).
  apply (execute_txs (chain_ledger (chain_with st0 T))) in Htxs as (dn & Hsub & Hx1); [|by apply loop_start|done].
  apply reward_block_step in Hrew as (Hi2 & E2 & F2); [|apply Hx1].
  apply settled in Happly as (nh' & bh' & Hs' & Hbh); [|done].
  exists nh', bh', dn. split_and!; [done|done|exact (li_once _ _ _ Hx1)|exact (li_done _ _ _ Hx1)|]. intros k a Ha. set (l := foldl pay _ _). split.
  - simpl. unfold receiver_version. simpl. rewrite lookup_empty. simpl. unfold stored_balance. simpl.
    destruct (law_new_balance_total nh bh st0 k a T Hs Ha HT) as [v Hv']. rewrite Hv'.
    by rewrite (new_balance_fresh _ _ _ Hst HT Hn Hb _ _ _ _ Hs Hv').
  - rewrite Hbh by (rewrite E2; by apply (li_assets _ _ _ Hx1)).
    rewrite (li_fees _ _ _ Hx1) in F2.
    assert (same_funds (chain_ledger (x_chain x2)) l) as [Fr Fo]; [|by rewrite Fr, Fo].
    unfold l. rewrite F2. apply foldl_funds; [|apply Hx1]. intros l1 l2 Hl p ? <-. by apply reward_ledger_funds.
Qed.
End Loop.

(** ** The sum of the balances *)

Section Sum.
Context {CV : Curve} {ML : Merlin} {RP : RangeProofLib}.
Add Ring IdealRing : ideal_ring.

(** The outputs of a set of accounts. *)
Definition total_out (l : Ledger) (ks : list CompressedPublicKey) (a : Hash) : point :=
  psum ((fun k => commit (l_out l k a)) <$> ks).

Lemma fold_commit_out_other tx ds assets l k a :
  k <> tx.(source) -> l_out (foldl (commit_step tx ds) l assets) k a = l_out l k a.
Proof.
  intros Hk. revert l. induction assets as [|b assets IH]; intros l; simpl; [done|].
  rewrite IH. unfold commit_step. simpl. by rewrite fn_upd_ne.
Qed.

(** What the public amounts of the executed transactions take away. *)
Definition plain_total (done : list Executed) (a : Hash) : point :=
  psum ((fun d : Executed => pmul (plain d.1.(bt_tx) a) G) <$> done).
(** What the payments add. *)
Definition paid_total (ps : list (CompressedPublicKey * Z)) (a : Hash) : point :=
  psum ((fun p => if decide (a = XELIS_ASSET) then pmul (s_from_u64 p.2) G else pid) <$> ps).

Lemma apply_balances_conserves tx ds l ks a :
  verify_commitment_assets tx = true -> NoDup ks -> tx.(source) ∈ ks ->
  Forall (fun t => t.(destination) ∈ ks) (transfers_of tx) ->
  let l' := ledger_apply_balances tx ds l in
  padd (total_recv l' ks a) (padd (pmul (plain tx a) G) (total_out l ks a)) =
  padd (total_recv l ks a) (total_out l' ks a).
Proof.
  intros Hv Hnd Hsrc Hks l'. unfold l', ledger_apply_balances.
  assert (NoDup (assets_of tx)) as Hnda by (apply verify_commitment_assets_iff in Hv; naive_solver).
  rewrite total_recv_fold; [|done|].
  2: { apply list.Forall_forall. intros [t d] Hin%elem_of_zip_l. rewrite list.Forall_forall in Hks. auto. }
  assert (forall l', l_recv l' = l_recv l -> total_recv l' ks a = total_recv l ks a) as Hrecv
    by (intros l2 E; unfold total_recv; by rewrite E).
  rewrite Hrecv by by rewrite fold_commit_recv.
  set (c := if decide (a ∈ assets_of tx) then commit (output_of tx a ds) else pid).
  assert (total_out (foldl transfer_step (foldl (commit_step tx ds) l (assets_of tx)) (zip (transfers_of tx) ds)) ks a =
    padd (total_out l ks a) c) as ->.
  { apply (psum_change _ _ _ tx.(source)); [done|done| |].
    - rewrite fold_transfer_out, fold_commit_out by done. unfold c. case_decide; [apply commit_add|by rewrite padd_id_r].
    - intros k Hk. by rewrite fold_transfer_out, fold_commit_out_other. }
  unfold c. case_decide as Ha.
  - rewrite commit_output. point_ring.
  - destruct (unspent_asset tx ds a Hv Ha) as [-> ->]. unfold psum; simpl. point_ring.
Qed.

Lemma executed_conserves done l ks a :
  Forall (fun d : Executed => verify_commitment_assets d.1.(bt_tx) = true) done -> NoDup ks ->
  Forall (fun d : Executed => d.1.(bt_tx).(source) ∈ ks /\
    Forall (fun t => t.(destination) ∈ ks) (transfers_of d.1.(bt_tx))) done ->
  let l' := foldl apply_executed l done in
  padd (total_recv l' ks a) (padd (plain_total done a) (total_out l ks a)) =
  padd (total_recv l ks a) (total_out l' ks a).
Proof.
  intros Hv Hnd Hks. revert l. induction done as [|d done IH]; intros l; cbv zeta.
  - unfold plain_total, psum. simpl. point_ring.
  - apply list.Forall_cons in Hv as [Hv1 Hv]. apply list.Forall_cons in Hks as [[Hs1 Hd1] Hks].
    specialize (IH Hv Hks (apply_executed l d)). cbv zeta in IH. cbn [foldl].
    pose proof (apply_balances_conserves d.1.(bt_tx) d.2 l ks a Hv1 Hnd Hs1 Hd1) as H1. cbv zeta in H1.
    change (ledger_apply_balances d.1.(bt_tx) d.2 l) with (apply_executed l d) in H1.
    set (l1 := apply_executed l d) in *. set (l2 := foldl apply_executed l1 done) in *.
    change (plain_total (d :: done) a) with (padd (pmul (plain d.1.(bt_tx) a) G) (plain_total done a)).
    apply (padd_cancel_l (total_out l1 ks a)).
    transitivity (padd (padd (total_recv l2 ks a) (padd (plain_total done a) (total_out l1 ks a)))
      (padd (pmul (plain d.1.(bt_tx) a) G) (total_out l ks a))); [point_ring|].
    rewrite IH. transitivity (padd (padd (total_recv l1 ks a) (padd (pmul (plain d.1.(bt_tx) a) G) (total_out l ks a)))
      (total_out l2 ks a)); [point_ring|]. rewrite H1. point_ring.
Qed.

Lemma payments_conserve ps l ks a :
  NoDup ks -> Forall (fun p => p.1 ∈ ks) ps ->
  total_recv (foldl pay l ps) ks a = padd (total_recv l ks a) (paid_total ps a) /\
  total_out (foldl pay l ps) ks a = total_out l ks a.
Proof.
  intros Hnd Hks. revert l. induction Hks as [|p ps Hp _ IH]; intros l; simpl.
  - unfold paid_total, psum. simpl. split; [|done]. point_ring.
  - destruct (IH (pay l p)) as [-> ->]. split; [|done].
    assert (total_recv (pay l p) ks a =
      padd (total_recv l ks a) (if decide (a = XELIS_ASSET) then pmul (s_from_u64 p.2) G else pid)) as ->.
    { apply (psum_change _ _ _ p.1); [done|done| |].
      - unfold pay, reward_ledger. cbn [l_recv upd_recv]. rewrite fn_upd_pair.
        destruct (decide (a = XELIS_ASSET)) as [->|Hne]; [by rewrite decide_True|].
        rewrite decide_False by congruence. by rewrite padd_id_r.
      - intros k Hk. unfold pay, reward_ledger. cbn [l_recv upd_recv]. rewrite fn_upd_pair.
        by rewrite decide_False by congruence. }
    unfold paid_total, psum. csimpl. point_ring.
Qed.

(** The commitments to the balances of a set of accounts. *)
Definition supply_of (bh : BalanceHistories) (ks : list CompressedPublicKey) (a : Hash) : point :=
  psum ((fun k => commit (balance_of bh k a)) <$> ks).

Lemma settled_supply l bh ks a :
  (forall k, balance_of bh k a = ct_sub (l_recv l k a) (l_out l k a)) ->
  padd (supply_of bh ks a) (total_out l ks a) = total_recv l ks a.
Proof.
  intros Hb. unfold supply_of, total_out, total_recv, psum. induction ks as [|k ks IH]; csimpl; [point_ring|].
  rewrite Hb, <- IH. unfold commit, ct_sub, pc_sub. simpl. point_ring.
Qed.

Lemma psum_zero (f : CompressedPublicKey -> point) ks : (forall k, f k = pid) -> psum (f <$> ks) = pid.
Proof. intros Hf. unfold psum. induction ks as [|k ks IH]; csimpl; [done|]. by rewrite Hf, IH, padd_id_l. Qed.

Lemma block_sum l0 bh bh' done ps ks a :
  (forall k, l_recv l0 k a = balance_of bh k a) -> (forall k, l_out l0 k a = ct_zero) ->
  (let l := foldl pay (foldl apply_executed l0 done) ps in
   forall k, balance_of bh' k a = ct_sub (l_recv l k a) (l_out l k a)) ->
  Forall (fun d : Executed => verify_commitment_assets d.1.(bt_tx) = true) done -> NoDup ks ->
  Forall (fun d : Executed => d.1.(bt_tx).(source) ∈ ks /\
    Forall (fun t => t.(destination) ∈ ks) (transfers_of d.1.(bt_tx))) done ->
  Forall (fun p => p.1 ∈ ks) ps ->
  padd (supply_of bh' ks a) (plain_total done a) = padd (supply_of bh ks a) (paid_total ps a).
Proof.
  intros Hr0 Ho0 Hl Hv Hnd Hks Hps. cbv zeta in Hl. apply settled_supply with (ks := ks) in Hl.
  destruct (payments_conserve ps (foldl apply_executed l0 done) ks a Hnd Hps) as [Er Eo]. rewrite Er, Eo in Hl.
  pose proof (executed_conserves done l0 ks a Hv Hnd Hks) as Hc. cbv zeta in Hc.
  assert (total_out l0 ks a = pid) as E0 by (apply psum_zero; intros k; by rewrite Ho0).
  assert (supply_of bh ks a = total_recv l0 ks a) as ->.
  { unfold supply_of, total_recv. f_equal. apply list_fmap_ext. intros i k _. by rewrite Hr0. }
  rewrite E0, padd_id_r in Hc. apply (padd_cancel_l (total_out (foldl apply_executed l0 done) ks a)).
  transitivity (padd (padd (supply_of bh' ks a) (total_out (foldl apply_executed l0 done) ks a)) (plain_total done a));
    [point_ring|]. rewrite Hl.
  transitivity (padd (padd (total_recv (foldl apply_executed l0 done) ks a) (plain_total done a)) (paid_total ps a));
    [point_ring|]. rewrite Hc. point_ring.
Qed.
End Sum.

(** ** Properties *)

Section Properties.
Context {CV : Curve} {ML : Merlin} {RP : RangeProofLib} {HM : HashMapIter} {IM : IndexMapLib Z Z}.
Context {S : Type} {SP : Storage S} {SLaws : StorageLaws S} {CP : ClientProtocolProvider S} {CL : ClientProtocolLaws S}.

(** The latest balances decompress. *)
Definition balances_readable (bh : BalanceHistories) : Prop :=
  forall k a, is_ok (computable (fresh bh k a).(final_balance)) = true.
(** The accounts a block involves are among [ks]. *)
Definition involved (dev : CompressedPublicKey) (b : OrderedBlock) (ks : list CompressedPublicKey) : Prop :=
  NoDup ks /\ dev ∈ ks /\ b.(ob_miner) ∈ ks /\
  Forall (fun p => p.(bt_tx).(source) ∈ ks /\ Forall (fun t => t.(destination) ∈ ks) (transfers_of p.(bt_tx))) b.(ob_txs).
Definition verified (b : OrderedBlock) : Prop :=
  Forall (fun p => verify_commitment_assets p.(bt_tx) = true) b.(ob_txs).

Lemma readable_computable bh : balances_readable bh ->
  forall k a, exists c q, computable (fresh bh k a).(final_balance) = Ok (c, q).
Proof. intros Hr k a. specialize (Hr k a). destruct (computable _) as [[c q]| | |]; [eauto|done..]. Qed.

Lemma payments_involved dev b ks reward fees :
  involved dev b ks -> Forall (fun p => p.1 ∈ ks) (payments dev b reward fees).
Proof. intros (_ & Hd & Hm & _). unfold payments. destruct (negb _); by repeat constructor. Qed.

Lemma sublist_Forall {A} (P : A -> Prop) l1 l2 : sublist l1 l2 -> Forall P l2 -> Forall P l1.
Proof.
  induction 1 as [|x l1 l2 _ IH|x l1 l2 _ IH]; intros Hf; [done|..];
    apply list.Forall_cons in Hf as [Hx Hf]; [constructor; auto|auto].
Qed.

(** C2: the execution of a block settles the funds.  Each transaction is
    executed at most once; the ones that fail leave no trace in the balances;
    and for every registered asset the new balance of each account is its old
    balance with the transfers and the payments it received added and the
    outputs it sent subtracted, however the accounts are iterated over. *)
Theorem block_settles (nh : NonceHistories) (bh : BalanceHistories) (T : Z) (dev : CompressedPublicKey)
    (b : OrderedBlock) (reward : Z) (st st' : S) checker orphaned checker' orphaned'
    (Hs : stores nh bh st) (HT : in_u 64 T) (Hn : below T nh) (Hb : below T bh) (Hr : balances_readable bh)
    (Hv : verified b)
    (He : execute_block dev b T reward (st, checker, orphaned) = (Ok tt, (st', checker', orphaned'))) :
  exists nh' bh' done, stores nh' bh' st' /\ sublist done.*1 b.(ob_txs) /\
    NoDup ((fun d : Executed => d.1.(bt_hash)) <$> done) /\ Forall decompressed_ok done /\
    forall k a, asset_registered st a ->
      let l := foldl pay (foldl apply_executed (chain_ledger (chain_with st T)) done)
                 (payments dev b reward (wrap 64 (fees_of done))) in
      l_recv (chain_ledger (chain_with st T)) k a = balance_of bh k a /\
      balance_of bh' k a = ct_sub (l_recv l k a) (l_out l k a).
Proof.
  pose proof (fun k a t v => law_history_stored nh bh st k a t v Hs) as Hst.
  by apply (execute_block_settles nh bh T Hst HT Hn Hb (readable_computable bh Hr) st dev b reward
    checker orphaned st' checker' orphaned').
Qed.

(** C1: conservation.  Over any set of accounts that contains those the block
    involves, the commitments to the balances after the block, plus the public
    amounts of the executed transactions (their fees and what they burn), are
    the commitments before it plus the payments (the reward and the fees): a
    block neither creates nor destroys any other amount of any asset. *)
Theorem block_conserves (nh : NonceHistories) (bh : BalanceHistories) (T : Z) (dev : CompressedPublicKey)
    (b : OrderedBlock) (reward : Z) (st st' : S) checker orphaned checker' orphaned'
    (ks : list CompressedPublicKey) (a : Hash)
    (Hs : stores nh bh st) (HT : in_u 64 T) (Hn : below T nh) (Hb : below T bh) (Hr : balances_readable bh)
    (Hv : verified b) (Hks : involved dev b ks) (Ha : asset_registered st a)
    (He : execute_block dev b T reward (st, checker, orphaned) = (Ok tt, (st', checker', orphaned'))) :
  exists nh' bh' done, stores nh' bh' st' /\ sublist done.*1 b.(ob_txs) /\
    padd (supply_of bh' ks a) (plain_total done a) =
    padd (supply_of bh ks a) (paid_total (payments dev b reward (wrap 64 (fees_of done))) a).
Proof.
  pose proof (fun k a t v => law_history_stored nh bh st k a t v Hs) as Hst.
  destruct (execute_block_settles nh bh T Hst HT Hn Hb (readable_computable bh Hr) st dev b reward
    checker orphaned st' checker' orphaned' Hs Hv He) as (nh' & bh' & dn & Hs' & Hsub & _ & _ & Hbal).
  exists nh', bh', dn. split; [done|]. split; [done|]. pose proof Hks as (Hnd & _ & _ & Htx).
  assert (forall Q, Forall Q b.(ob_txs) -> Forall (fun d : Executed => Q d.1) dn) as Hsubs
    by (intros Q HQ; apply Forall_fmap; by eapply sublist_Forall).
  apply (block_sum (chain_ledger (chain_with st T)) bh bh').
  - intros k. by apply Hbal.
  - intros k. simpl. unfold sender_echange. simpl. by rewrite lookup_empty.
  - intros l k. by apply Hbal.
  - by apply (Hsubs (fun p => verify_commitment_assets p.(bt_tx) = true)).
  - done.
  - by apply (Hsubs (fun p => p.(bt_tx).(source) ∈ ks /\ Forall (fun t => t.(destination) ∈ ks) (transfers_of p.(bt_tx)))).
  - exact (payments_involved dev b ks _ _ Hks).
Qed.
End Properties.
