(* ===== verification/ReorderFacts.v ===== *)
(** What a change of the order of the DAG does to the storage.

    [block_grows] : the execution of a block puts at most one version, at its
    topoheight, on top of each history, and leaves the order of the blocks.
    [clean_loop_spec] and [order_loop_spec] follow the two loops of
    [reorder_blocks]; [reorder_settles] puts them together. *)

From S2P Require Import Prelude External ExternalModel ExternalCrypto Serializer Hash VarUint Defaults Elgamal Proofs Transaction Verify VerifyFacts Block Errors Account Versions Storage VersionedTree StorageFacts Providers Dag DagOrder DagWalks BlockProviders DagBase NonceChecker Emission StorageLaws Rewind ChainProviders Reference ChainState BlockCheck ChainFacts ChainInvariant ApplyChanges Atomic Execution Reorder ExecutionFacts.

(** A call of the storage that the chain state makes, seen from a predicate of
    the storage. *)
Section Frame.
Context {CV : Curve} {ML : Merlin} {RP : RangeProofLib} {HM : HashMapIter} {IM : IndexMapLib Z Z}.
Context {S : Type} {SP : Storage S} {CP : ClientProtocolProvider S}.
Context (P : S -> Prop).
Abbreviation chain := (ChainState (S:=S)).
Definition chain_holds (s : chain) : Prop := P s.(storage).
Definition exec_holds (x : ExecState (S:=S)) : Prop := P x.(x_chain).(storage).

Lemma on_storage_always {A} (m : stm S blockchain_error A) : always P m -> always chain_holds (on_storage m).
Proof. intros Hm s Hs. specialize (Hm _ Hs). unfold on_storage. by destruct (m (storage s)). Qed.
Lemma on_chain_always {A} (m : stm chain blockchain_error A) : always chain_holds m -> always exec_holds (on_chain m).
Proof. intros Hm x Hx. specialize (Hm _ Hx). unfold on_chain. by destruct (m (x_chain x)). Qed.
Lemma same_storage_always {A} (m : stm chain blockchain_error A) :
  (forall s, (m s).2.(storage) = s.(storage)) -> always chain_holds m.
Proof. intros Hm s Hs. unfold chain_holds. by rewrite Hm. Qed.

Context (Hnonce : forall k t v, always P (set_last_nonce_to k t v)).
Context (Hbalance : forall k a t v, always P (set_last_balance_to k a t v)).
Context (Hregister : forall k t, always P (set_account_registration_topoheight k t)).
Context (Hlink : forall tx b, always P (add_block_linked_to_tx_if_not_present tx b)).
Context (Hexecuted : forall tx b, always P (set_tx_executed_in_block tx b)).

Lemma apply_changes_always : always chain_holds apply_changes.
Proof using Hnonce Hbalance Hregister.
  apply always_bind; [by intros s|]. intros s. apply always_bind.
  { apply always_foldMs. intros _ [k acc] _. apply always_bind; [by intros ?|]. intros s1.
    apply always_bind; [apply on_storage_always, Hnonce|]. intros _. apply always_bind; [by intros ?|]. intros _.
    apply always_foldMs. intros _ [a e] _. apply always_bind; [by intros ?|]. intros s2.
    apply always_bind; [apply always_lift|]. by intros v ?. }
  intros _. apply always_bind; [by intros ?|]. intros s1. apply always_foldMs. intros _ [k m] _.
  apply always_bind; [by intros ?|]. intros s2. apply always_bind.
  { apply always_foldMs. intros _ [a v] _. apply on_storage_always, Hbalance. }
  intros _. apply always_bind; [by intros ?|]. intros s3. apply always_bind.
  { destruct (accounts s3 !! k); [by intros ?|]. apply always_bind; [apply always_lift|]. intros b.
    destruct (negb b); [apply on_storage_always, Hnonce|by intros ?]. }
  intros _. apply always_bind; [by intros ?|]. intros s4. apply always_bind; [apply always_lift|]. intros b.
  destruct (negb b); [apply on_storage_always, Hregister|by intros ?].
Qed.

Lemma succeeds_state {St E F A} (m : stm St E A) s : (succeeds (F:=F) m s).2 = (m s).2.
Proof. unfold succeeds. by destruct (m s) as [[]]. Qed.

Lemma reward_storage miner reward (s : chain) : (reward_miner miner reward s).2.(storage) = s.(storage).
Proof.
  assert (always (fun s' : chain => s'.(storage) = s.(storage)) (reward_miner miner reward)) as Hal; [|by apply Hal].
  apply always_bind; [by apply receiver_always|]. intros c s1 H1. unfold st_modify. simpl. by rewrite storage_put_receiver.
Qed.
Lemma update_nonce_storage k n (s : chain) : (internal_update_account_nonce k n s).2.(storage) = s.(storage).
Proof.
  unfold internal_update_account_nonce. apply (bind_state (fun s' : chain => s'.(storage) = s.(storage))); [done|].
  intros s1 s2 [= <- <-]. apply bind_state; [by destruct (accounts s !! k)|]. intros acc s3.
  destruct (accounts s !! k); by intros [= _ <-].
Qed.

Lemma execute_tx_always block p : always exec_holds (execute_tx block p).
Proof using Hlink Hexecuted.
  apply always_bind; [apply on_chain_always, on_storage_always, Hlink|]. intros _. apply always_bind; [by intros ?|]. intros x.
  apply always_bind; [apply always_lift|]. intros [|]; [by intros ?|]. apply always_bind.
  { intros y Hy. unfold on_checker. by destruct (use_nonce _ _ _ _ _ _). }
  intros [|]; [|by intros ?]. cbn [negb]. apply always_bind.
  { apply on_chain_always, same_storage_always. intros s. rewrite succeeds_state. apply partial_storage. }
  intros [|]; [|by intros ?]. cbn [negb]. apply always_bind; [by intros ?|]. intros y. apply always_bind; [apply always_lift|].
  intros n. apply always_bind; [apply on_chain_always, same_storage_always; intros s; apply update_nonce_storage|]. intros _.
  apply always_bind; [apply on_chain_always, on_storage_always, Hexecuted|]. by intros _ ?.
Qed.

Lemma reward_block_storage dev b reward x : (reward_block dev b reward x).2.(x_chain).(storage) = x.(x_chain).(storage).
Proof.
  pose proof (fun m r (s : chain) => reward_storage m r s) as Hr.
  assert (forall m r (y : ExecState (S:=S)), (on_chain (reward_miner m r) y).2.(x_chain).(storage) = y.(x_chain).(storage)) as Hr'.
  { intros m r y. unfold on_chain. specialize (Hr m r (x_chain y)). by destruct (reward_miner m r (x_chain y)). }
  unfold reward_block. apply (bind_state (fun y : ExecState (S:=S) => y.(x_chain).(storage) = x.(x_chain).(storage))).
  { destruct (negb _); [|done]. apply bind_state; [apply Hr'|]. intros [] y Hy.
    specialize (Hr' dev (dev_fee_part reward b.(ob_height)) x). by rewrite Hy in Hr'. }
  intros mr y Hy. assert (y.(x_chain).(storage) = x.(x_chain).(storage)) as <-.
  { destruct (negb _); [|by injection Hy as _ <-]. apply stm_bind_ok in Hy as ([] & y1 & Hy & [= _ <-]).
    specialize (Hr' dev (dev_fee_part reward b.(ob_height)) x). by rewrite Hy in Hr'. }
  apply (bind_state (fun z : ExecState (S:=S) => z.(x_chain).(storage) = y.(x_chain).(storage))); [done|].
  intros z z1 [= <- <-]. apply Hr'.
Qed.

Lemma execute_block_always dev b t reward st checker orphaned :
  P st -> P (execute_block dev b t reward (st, checker, orphaned)).2.1.1.
Proof using Hnonce Hbalance Hregister Hlink Hexecuted.
  intros Hs. unfold execute_block.
  set (m := foldMs _ _ _ ≫= _).
  assert (always exec_holds m) as Hm; [|specialize (Hm (mkExec (chain_with st t) checker orphaned 0) Hs); by destruct (m _)].
  apply always_bind; [apply always_foldMs; intros _ p _; apply execute_tx_always|]. intros _. apply always_bind.
  { intros x Hx. unfold exec_holds. by rewrite reward_block_storage. }
  intros _. apply on_chain_always, apply_changes_always.
Qed.
End Frame.

(** ** The histories after a block *)
Section Grows.
Context {CV : Curve} {ML : Merlin} {RP : RangeProofLib} {HM : HashMapIter} {IM : IndexMapLib Z Z}.
Context {S : Type} {SP : Storage S} {SLaws : StorageLaws S} {CP : ClientProtocolProvider S} {CL : ClientProtocolLaws S}.
Context (nh : NonceHistories) (bh : BalanceHistories) (T : Z).
Context (Hst : forall k a t v, (t, v) ∈ bh (k, a) -> Account.stored v = v) (HT : in_u 64 T) (Hn : below T nh) (Hb : below T bh).
Abbreviation chain_inv := (chain_inv nh bh T).

Lemma execute_tx_inv block p (x x' : ExecState (S:=S)) :
  verify_commitment_assets p.(bt_tx) = true -> chain_inv x.(x_chain) -> execute_tx block p x = (Ok tt, x') ->
  chain_inv x'.(x_chain).
Proof using Hst HT Hn Hb CL.
  intros Hv H0 Hr. unfold execute_tx in Hr. apply stm_bind_ok in Hr as (b & x1 & Hl & Hr).
  apply on_chain_ok in Hl as (c & (st' & Hl & ->)%on_storage_ok & ->). apply law_link in Hl as [Hs _].
  apply stm_bind_ok in Hr as (x2 & x3 & [= <- <-] & (executed & x4 & [= He <-] & Hr)%stm_bind_ok). cbn [x_chain] in *.
  pose proof (inv_same nh bh T _ _ Hs H0) as H1. destruct executed; [by injection Hr as <-|].
  apply stm_bind_ok in Hr as (used & x2 & (c & Hu & ->)%on_checker_ok & Hr).
  destruct used; [|by injection Hr as <-]. cbn [negb] in Hr.
  apply stm_bind_ok in Hr as (applied & x3 & (s3 & Hp & ->)%on_chain_ok & Hr). cbn [x_chain] in *.
  assert (chain_inv s3) as H3.
  { apply verify_commitment_assets_iff in Hv as (_ & Hnd & _).
    pose proof (inv_apply_partial nh bh T Hst HT Hn Hb p.(bt_tx) p.(bt_rnd) _ Hnd H1) as Hi.
    rewrite <- (succeeds_state (F:=blockchain_error)) in Hi. by rewrite Hp in Hi. }
  destruct applied; [|by injection Hr as <-]. cbn [negb] in Hr.
  apply stm_bind_ok in Hr as (y & x4 & [= <- <-] & (next & x5 & [= Hnext <-] & Hr)%stm_bind_ok). cbn in Hnext.
  apply (used_next _ _ _ _ _ _ _ _ Hu) in Hnext as ->.
  apply stm_bind_ok in Hr as ([] & x6 & (s4 & Hn4 & ->)%on_chain_ok & Hr). cbn in Hn4.
  pose proof (inv_update_nonce nh bh T Hst HT Hn Hb p.(bt_tx).(source) (u64_add p.(bt_tx).(nonce) 1)
    (wrap_range 64 _ ltac:(lia)) s3 H3) as H4.
 rewrite Hn4 in H4. cbn [snd] in H4.
  apply stm_bind_ok in Hr as ([] & x7 & (s5 & (st5 & Hset & ->)%on_storage_ok & ->)%on_chain_ok & [= <-]). cbn in Hset.
  apply law_set_executed in Hset as (Hsame & _). by apply inv_same.
Qed.

(** A history with at most one more version, at [T]. *)
Definition grows {V} (h h' : list (Z * V)) : Prop := h' = h \/ exists v, h' = (T, v) :: h.
Lemma grows_below {K V} (h h' : K -> list (Z * V)) : (forall k, grows (h k) (h' k)) -> below T h -> below (T + 1) h'.
Proof.
  intros Hg Hbl k t v. destruct (Hg k) as [->|[w ->]]; [intros Hin%Hbl; lia|].
  intros [[= -> _]|Hin%Hbl]%list.elem_of_cons; lia.
Qed.
Lemma grows_upto {V} m (h h' : list (Z * V)) : grows h h' -> m < T -> upto m h' = upto m h.
Proof. intros [->|[w ->]] Hm; [done|]. unfold upto. rewrite filter_cons_False; [done|]. simpl. lia. Qed.

Lemma block_grows dev b reward st checker orphaned st' checker' orphaned' :
  stores nh bh st -> Forall (fun p => verify_commitment_assets p.(bt_tx) = true) b.(ob_txs) ->
  execute_block dev b T reward (st, checker, orphaned) = (Ok tt, (st', checker', orphaned')) ->
  exists nh' bh', stores nh' bh' st' /\ (forall k, grows (nh k) (nh' k)) /\ (forall ka, grows (bh ka) (bh' ka)).
Proof using Hst HT Hn Hb CL.
  intros Hs Hv. unfold execute_block.
  match goal with |- context [let '(_, _) := ?m in _] => destruct m as [r x] eqn:Hr end. intros [= -> <- _ _].
  apply stm_bind_ok in Hr as ([] & x1 & Htxs & ([] & x2 & Hrew & (s' & Happly & ->)%on_chain_ok)%stm_bind_ok).
  assert (chain_inv x1.(x_chain)) as H1.
  { apply (foldMs_prefix _ (fun _ (y : ExecState (S:=S)) => chain_inv y.(x_chain))) in Htxs; [done|by apply inv_start|].
    intros pre p post y1 y2 Heq Hy1 Hstep. eapply execute_tx_inv; [|exact Hy1|exact Hstep].
    rewrite Heq in Hv. by apply list.Forall_app in Hv as [_ [Hp _]%list.Forall_cons]. }
  apply (reward_block_step nh bh T Hst HT Hn Hb) in Hrew as (H2 & _); [|done].
  apply (apply_changes_histories nh bh T Hst HT Hn Hb) in Happly as (nh' & bh' & Hs' & Hnh & Hbh); [|done].
  exists nh', bh'. split; [done|]. split.
  - intros k. rewrite Hnh. unfold nonce_written, grows. destruct (accounts _ !! k); [eauto|].
    destruct (receiver_balances _ !! k), (nh k); eauto.
  - intros [k a]. specialize (Hbh k a). unfold grows.
    destruct (sender_echange k a _), (receiver_version k a _); [destruct Hbh as (w & -> & _); eauto..|by left].
Qed.
End Grows.

(** ** The cleaning *)
Section Cleaning.
Context {CV : Curve} {ML : Merlin} {RP : RangeProofLib} {UL : U256Lib} {IS : IndexSetLib Hash}.
Context {S : Type} {SP : Storage S} {SLaws : StorageLaws S} {CP : ClientProtocolProvider S} {DP : DifficultyProvider S}.
Context {BD : BlockDagProvider S} {RW : RewindProvider S} {OL : OrderLaws S} {RL : RewindLaws S}.
Context (nh : NonceHistories) (bh : BalanceHistories).

Lemma clean_txs_keeps m c st hash is_orphaned orphaned txs :
  always (fun st' => cleaning m c nh bh st' /\ same_order st st') (clean_txs hash is_orphaned orphaned txs).
Proof using OL.
  apply always_foldMs. intros o tx _. apply always_bind; [by intros ?|]. intros s. apply always_bind; [apply always_lift|].
  intros [|]; [|by intros ?]. apply always_bind; [|by intros [] ?]. intros s1 [Hc Ho].
  destruct (law_clean_remove_tx m c nh bh tx s1 Hc) as (s2 & -> & Hc2 & Ho2). split; [done|]. by eapply same_order_trans.
Qed.

Lemma clean_topoheight_step m t full_order orphaned hash st orphaned' st' :
  cleaning m t nh bh st -> 0 <= m <= t -> in_u 64 t ->
  clean_topoheight full_order orphaned t hash st = (Ok orphaned', st') ->
  cleaning m (t + 1) nh bh st' /\ same_order st st'.
Proof using OL RL.
  intros Hc Hm Ht Hr. unfold clean_topoheight in Hr.
  apply stm_bind_ok in Hr as (s & s1 & [= <- <-] & (block & s2 & [= Hblock <-] & Hr)%stm_bind_ok).
  apply stm_bind_ok in Hr as (o1 & s3 & Htxs & Hr).
  pose proof (clean_txs_keeps m t st hash (negb (bool_decide (hash ∈ full_order))) orphaned (iset_list block.(bh_txs_hashes)) st
    (conj Hc (same_order_refl st))) as Hk. rewrite Htxs in Hk. destruct Hk as [Hc3 Ho3]. cbn [snd] in *.
  destruct (law_clean_step m t nh bh s3 Hc3 Hm Ht) as (s4 & Hdel & Hc4 & Ho4).
  apply stm_bind_ok in Hr as ([] & s5 & Hdel' & [= _ <-]). rewrite Hdel in Hdel'. injection Hdel' as <-.
  split; [done|]. by eapply same_order_trans.
Qed.

(** Once a topoheight changed, all those that follow are cleaned. *)
Lemma clean_loop_written count m t c st c' st' :
  cs_written c = true -> cleaning m t nh bh st -> 0 <= m <= t -> t + Z.of_nat count < 2 ^ 64 ->
  clean_loop count t c st = (Ok c', st') ->
  cs_order c' = cs_order c /\ cs_skipped c' = cs_skipped c /\ cs_written c' = true /\
  cleaning m (t + Z.of_nat count) nh bh st' /\ same_order st st'.
Proof using OL RL.
  revert t c st. induction count as [|count IH]; intros t c st Hw Hc Hm Hu Hr; cbn [clean_loop] in Hr.
  { injection Hr as <- <-. rewrite Z.add_0_r. by split_and!. }
  apply stm_bind_ok in Hr as (s & s1 & [= <- <-] & (hash & s2 & [= Hhash <-] & Hr)%stm_bind_ok).
  apply stm_bind_ok in Hr as (stays & s3 & [= Hstays <-] & Hr). unfold stays_first in Hstays. rewrite Hw in Hstays.
  injection Hstays as <-. apply stm_bind_ok in Hr as (orphaned & s4 & Hclean & Hr).
  assert (in_u 64 t) as Ht by (unfold in_u; lia).
  apply (clean_topoheight_step m) in Hclean as [Hc4 Ho4]; [|done..].
  rewrite u64_add_small in Hr by (unfold in_u; lia).
  apply IH in Hr as (E1 & E2 & E3 & H4 & H5); [|done|done|lia|lia]. cbn in E1, E2.
  split_and!; [done..| |by eapply same_order_trans]. by replace (t + Z.of_nat (Datatypes.S count)) with (t + 1 + Z.of_nat count) by lia.
Qed.

Lemma stays_first_spec st c hash :
  stays_first st c hash = Ok true -> cs_written c = false /\ exists order, cs_order c = hash :: order.
Proof.
  unfold stays_first. destruct (cs_written c); [done|]. destruct (cs_order c) as [|h order]; [done|].
  intros (ordered & _ & [= Hb])%res_bind_ok. apply andb_true_iff in Hb as [_ ->%bool_decide_eq_true]. eauto.
Qed.

(** The blocks that stay are a prefix of the new order; the histories are those
    below the first one that does not. *)
Lemma clean_loop_spec count t c st c' st' :
  stores nh bh st -> below (t + Z.of_nat count) nh -> below (t + Z.of_nat count) bh -> 0 <= t ->
  t + Z.of_nat count < 2 ^ 64 -> 0 <= cs_skipped c -> cs_skipped c + Z.of_nat count < 2 ^ 64 ->
  clean_loop count t c st = (Ok c', st') ->
  exists n, (n <= length (cs_order c))%nat /\ (n <= count)%nat /\ cs_order c' = drop n (cs_order c) /\
    cs_skipped c' = cs_skipped c + Z.of_nat n /\
    (forall i h, (i < n)%nat -> cs_order c !! i = Some h -> get_hash_at_topo_height st (t + Z.of_nat i) = Ok h) /\
    stores (fun k => upto (t + Z.of_nat n - 1) (nh k)) (fun ka => upto (t + Z.of_nat n - 1) (bh ka)) st' /\
    same_order st st' /\ (cs_written c' = false -> n = count /\ cs_written c = false) /\ (cs_written c = true -> n = O).
Proof using OL RL.
  intros Hs. revert t c. induction count as [|count IH]; intros t c Hn Hb Ht Hu Hk Hk' Hr; cbn [clean_loop] in Hr.
  { injection Hr as <- <-. exists O. rewrite !Z.add_0_r in *. cbn [drop].
    split_and!; [lia..|done|done|intros; lia| |apply same_order_refl|done|done].
    eapply law_ext; [| |exact Hs]; intros k; apply upto_all; intros t' v Hin; [apply Hn in Hin|apply Hb in Hin]; lia. }
  apply stm_bind_ok in Hr as (s & s1 & [= <- <-] & (hash & s2 & [= Hhash <-] & Hr)%stm_bind_ok).
  apply stm_bind_ok in Hr as (stays & s3 & [= Hstays <-] & Hr).
  destruct stays.
  - apply stays_first_spec in Hstays as (Hw & order & Eo). rewrite !u64_add_small in Hr by (unfold in_u; lia).
    rewrite Eo in Hr. cbn [tail] in Hr.
    apply IH in Hr as (n & H1 & H2 & H3 & H4 & H5 & H6 & H7 & H8 & H9); cbn [cs_skipped]; [|try lia; by
      replace (t + 1 + Z.of_nat count) with (t + Z.of_nat (Datatypes.S count)) by lia..].
    cbn [cs_order cs_skipped cs_written] in *. exists (Datatypes.S n). rewrite Eo. cbn [length drop].
    replace (t + Z.of_nat (Datatypes.S n)) with (t + 1 + Z.of_nat n) by lia.
    split_and!; [lia|lia|done|lia| |done|done| |by rewrite Hw].
    + intros [|i] h Hi Eh; [injection Eh as <-; by rewrite Z.add_0_r|].
      replace (t + Z.of_nat (Datatypes.S i)) with (t + 1 + Z.of_nat i) by lia. apply H5; [lia|done].
    + intros Hw'. destruct (H8 Hw') as [-> _]. done.
  - apply stm_bind_ok in Hr as (orphaned & s4 & Hclean & Hr).
    apply (clean_topoheight_step t) in Hclean as [Hc4 Ho4]; [|by apply law_clean_start|lia|unfold in_u; lia].
    rewrite u64_add_small in Hr by (unfold in_u; lia).
    apply (clean_loop_written _ t) in Hr as (E1 & E2 & E3 & H4 & H5); [|done|done|lia|lia]. cbn [cs_order cs_skipped] in *.
    exists O. cbn [drop]. rewrite !Z.add_0_r. split_and!; [lia|lia|done|done|intros; lia| |by eapply same_order_trans| |done].
    + apply law_clean_end in H4; [done|lia|..]; by replace (t + 1 + Z.of_nat count) with (t + Z.of_nat (Datatypes.S count)) by lia.
    + by rewrite E3.
Qed.
End Cleaning.

(** ** Ordering one block *)
Section Placing.
Context {UL : U256Lib} {IS : IndexSetLib Hash} {B3 : Blake3} {XH : XelisHashLib}.
Context {CV : Curve} {ML : Merlin} {RP : RangeProofLib} {HM : HashMapIter} {IM : IndexMapLib Z Z}.
Context {S : Type} {SP : Storage S} {SLaws : StorageLaws S} {DP : DifficultyProvider S} {CP : ClientProtocolProvider S}.
Context {CL : ClientProtocolLaws S} {BH : BlocksAtHeightProvider S} {BD : BlockDagProvider S} {OL : OrderLaws S}.
Context (DEV_PUBLIC_KEY : CompressedPublicKey) (rnd : Hash -> nat -> scalar).

(** The transactions of the stored blocks have consistent commitments. *)
Definition verified_blocks (st : S) : Prop := forall h b, get_block_by_hash st h = Ok b ->
  Forall (fun tx => verify_commitment_assets tx = true) b.(transactions).
Lemma verified_blocks_same st st' :
  (forall h, get_block_by_hash st' h = get_block_by_hash st h) -> verified_blocks st -> verified_blocks st'.
Proof. intros He Hv h b. rewrite He. apply Hv. Qed.

Lemma to_execute_verified hash b :
  Forall (fun tx => verify_commitment_assets tx = true) b.(transactions) ->
  Forall (fun p => verify_commitment_assets p.(bt_tx) = true) (to_execute rnd hash b).(ob_txs).
Proof.
  cbn. generalize (iset_list b.(header).(bh_txs_hashes)). induction (transactions b) as [|tx txs IH]; intros l Hv.
  - by destruct l.
  - apply list.Forall_cons in Hv as [Hx Hv]. destruct l as [|h l]; [constructor|]. cbn. constructor; [done|]. by apply IH.
Qed.

(** What is recorded at a topoheight is written over; the other topoheights
    keep theirs. *)
Definition writes_at (T : Z) (st st' : S) : Prop :=
  (forall t, in_u 64 t -> t <> T -> get_hash_at_topo_height st' t = get_hash_at_topo_height st t) /\
  (forall t, in_u 64 t -> t <> T -> get_supply_at_topo_height st' t = get_supply_at_topo_height st t) /\
  (forall t, in_u 64 t -> t <> T -> get_block_reward_at_topo_height st' t = get_block_reward_at_topo_height st t) /\
  (forall h, get_block_by_hash st' h = get_block_by_hash st h).
Lemma writes_at_trans T st1 st2 st3 : writes_at T st1 st2 -> writes_at T st2 st3 -> writes_at T st1 st3.
Proof. intros (A1 & A2 & A3 & A4) (B1 & B2 & B3' & B4). split_and!; intros; by rewrite ?B1, ?B2, ?B3', ?B4, ?A1, ?A2, ?A3, ?A4. Qed.
Lemma same_order_writes T st st' : same_order st st' -> writes_at T st st'.
Proof. by intros (A1 & A2 & A3 & A4 & A5). Qed.

(** The supply at a topoheight is the one before it and the reward. *)
Definition rewarded (st : S) (T : Z) : Prop := exists past r,
  (if T =? 0 then past = 0 else get_supply_at_topo_height st (T - 1) = Ok past) /\
  get_block_reward_at_topo_height st T = Ok r /\ get_supply_at_topo_height st T = Ok (past + r) /\
  0 <= r <= get_block_reward past.
(** A block at its place. *)
Definition placed (st : S) (T : Z) (h : Hash) : Prop :=
  get_topo_height_for_hash st h = Ok T /\ get_hash_at_topo_height st T = Ok h.

Definition counts_ok (m : gmap Z Z) : Prop := map_Forall (fun _ c => 0 <= c) m.

Lemma count_side_ok st hash height T n : count_side_blocks st hash height T = Ok n -> 0 <= n.
Proof.
  unfold count_side_blocks. intros (blocks & _ & Hf)%res_bind_ok. revert Hf.
  enough (forall l c n, 0 <= c -> foldM (fun count block => if decide (block <> hash) then
    side ← is_side_block_internal st block T; Ok (if (side : bool) then u64_add count 1 else count) else Ok count) c l = Ok n ->
    0 <= n) as Hg by by apply Hg.
  induction l as [|b l IH]; intros c n' Hc; cbn [foldM]; [by intros [= <-]|].
  intros (c' & Hstep & Hl)%res_bind_ok. apply IH in Hl; [done|]. case_decide; [|by injection Hstep as <-].
  apply res_bind_ok in Hstep as ([] & _ & [= <-]); [|done]. unfold u64_add. apply wrap_range. lia.
Qed.

Lemma on_store_ok {A} (m : stm S blockchain_error A) (o : OrderState (S:=S)) a o' :
  on_store m o = (Ok a, o') -> exists st, m o.(os_storage) = (Ok a, st) /\
    o' = mkOrder st o.(os_checker) o.(os_side_blocks) o.(os_orphaned) o.(os_written) o.(os_highest).
Proof. unfold on_store. destruct (m (os_storage o)) as [r st]. intros [= -> <-]. eauto. Qed.

(** The reward of a block and the supply after it are written. *)
Definition recorded (T reward : Z) (st st' : S) : Prop := exists supply s,
  set_block_reward_at_topo_height T reward st = (Ok tt, s) /\ set_supply_at_topo_height T supply s = (Ok tt, st') /\
  get_block_reward_at_topo_height st' T = Ok reward /\ get_supply_at_topo_height st' T = Ok supply.

Lemma record_reward_spec hash height T (o o' : OrderState (S:=S)) r :
  in_u 64 T -> counts_ok o.(os_side_blocks) -> record_reward hash height T o = (Ok r, o') ->
  counts_ok o'.(os_side_blocks) /\ o'.(os_written) = o.(os_written) /\ o'.(os_highest) = o.(os_highest) /\
  writes_at T o.(os_storage) o'.(os_storage) /\
  (forall h, get_topo_height_for_hash o'.(os_storage) h = get_topo_height_for_hash o.(os_storage) h) /\
  get_hash_at_topo_height o'.(os_storage) T = get_hash_at_topo_height o.(os_storage) T /\
  rewarded o'.(os_storage) T /\ (forall nh bh, stores nh bh o.(os_storage) -> stores nh bh o'.(os_storage)) /\
  o'.(os_checker) = o.(os_checker) /\ o'.(os_orphaned) = o.(os_orphaned) /\ recorded T r o.(os_storage) o'.(os_storage).
Proof using OL.
  intros HT Hc Hr. unfold record_reward in Hr. apply stm_bind_ok in Hr as (o1 & o2 & [= <- <-] & Hr).
  apply stm_bind_ok in Hr as (past & o1 & [= Hpast <-] & (side & o2 & [= Hside <-] & Hr)%stm_bind_ok).
  apply stm_bind_ok in Hr as (count & o1 & [= Hcount <-] & (u & o2 & [= _ <-] & Hr)%stm_bind_ok).
  set (reward := internal_get_block_reward past side count) in Hr.
  assert (0 <= count) as H0.
  { destruct (os_side_blocks o !! height) as [c|] eqn:Ec; [|by eapply count_side_ok]. injection Hcount as <-. by apply Hc in Ec. }
  assert (in_u 64 past) as Hp.
  { destruct (T =? 0); [by injection Hpast as <-|]. by eapply law_supply_range. }
  assert (0 <= reward <= get_block_reward past) as Hrew by (apply internal_reward_bounds; unfold in_u in Hp; lia).
  destruct (get_block_reward_bounds past ltac:(unfold in_u in Hp; lia)) as [[_ Hmax] Hmax'].
  rewrite MAXIMUM_SUPPLY_val in Hmax.
  assert (in_u 64 reward) as Hru by (unfold in_u; lia).
  assert (in_u 64 (past + reward)) as Hsu by (unfold in_u in *; lia).
  rewrite (u64_add_small past reward) in Hr by done.
  apply stm_bind_ok in Hr as ([] & o3 & (st1 & H1 & ->)%on_store_ok & Hr). cbn [os_storage set_side_blocks] in H1.
  apply stm_bind_ok in Hr as ([] & o4 & (st2 & H2 & ->)%on_store_ok & [= <- <-]). cbn [os_storage] in H2.
  destruct (law_set_reward T reward o.(os_storage) HT Hru) as (s & Es & A1 & A2 & A3 & A4 & A5 & A6 & A7).
  rewrite H1 in Es. injection Es as <-.
  destruct (law_set_supply T (past + reward) st1 HT Hsu) as (s & Es & B1 & B2 & B3' & B4 & B5 & B6 & B7).
  rewrite H2 in Es. injection Es as <-. cbn [os_side_blocks os_written os_highest os_storage set_side_blocks].
  split_and!; [|done|done| |by intros h; rewrite B1|by rewrite B2| |by auto|done|done|
    exists (past + reward), st1; split_and!; [exact H1|exact H2|by rewrite B5|exact B3']].
  - apply map_Forall_insert_2; [|done]. destruct side; [|done]. unfold u64_add. apply wrap_range. lia.
  - split_and!; intros; by rewrite ?B2, ?B4, ?B5, ?B6, ?A2, ?A3, ?A5, ?A6.
  - exists past, reward. split_and!; [|by rewrite B5|done|lia..]. destruct (Z.eqb_spec T 0) as [->|Hne]; [by injection Hpast as <-|].
    rewrite u64_sub_small in Hpast by (unfold in_u in *; lia). rewrite B4, A3; [done|unfold in_u in *; lia|lia].
Qed.

Lemma execute_block_order dev b t reward st checker orphaned :
  same_order st (execute_block dev b t reward (st, checker, orphaned)).2.1.1.
Proof using OL.
  apply (execute_block_always (same_order st)); [..|by apply same_order_refl]; intros; intros s Hs;
    (eapply same_order_trans; [exact Hs|]).
  - apply law_order_nonce.
  - apply law_order_balance.
  - apply law_order_register.
  - apply law_order_link.
  - apply law_order_executed.
Qed.

(** The blocks of an order put at the topoheights from [m] on, one after the
    other, from a storage with the histories [nh0] and [bh0] and a nonce checker
    without any nonce: each is given its topoheight, its reward and the supply
    are written, and it is executed there with that reward on what the blocks
    before it left, which adds at most one version to a history.  [reward_at]
    says what the reward at a topoheight is. *)
Inductive blocks_executed (reward_at : Z -> bres Z) (m : Z) (st0 : S) (nh0 : NonceHistories) (bh0 : BalanceHistories)
    (orphaned0 : gset Hash)
  : list Hash -> S -> NonceHistories -> BalanceHistories -> gmap CompressedPublicKey AccountEntry -> gset Hash -> Prop :=
  | executed_none : blocks_executed reward_at m st0 nh0 bh0 orphaned0 [] st0 nh0 bh0 nonce_checker_new orphaned0
  | executed_block pre st nh bh checker orphaned h block reward s1 s2 st' nh' bh' checker' orphaned' :
      blocks_executed reward_at m st0 nh0 bh0 orphaned0 pre st nh bh checker orphaned ->
      get_block_by_hash st h = Ok block ->
      reward_at (m + Z.of_nat (length pre)) = Ok reward ->
      set_topo_height_for_block h (m + Z.of_nat (length pre)) st = (Ok tt, s1) ->
      recorded (m + Z.of_nat (length pre)) reward s1 s2 ->
      execute_block DEV_PUBLIC_KEY (to_execute rnd h block) (m + Z.of_nat (length pre)) reward (s2, checker, orphaned) =
        (Ok tt, (st', checker', orphaned')) ->
      stores nh' bh' st' ->
      (forall k, grows (m + Z.of_nat (length pre)) (nh k) (nh' k)) ->
      (forall ka, grows (m + Z.of_nat (length pre)) (bh ka) (bh' ka)) ->
      blocks_executed reward_at m st0 nh0 bh0 orphaned0 (pre ++ [h]) st' nh' bh' checker' orphaned'.

Lemma executed_rewards (f g : Z -> bres Z) m st0 nh0 bh0 orphaned0 pre st nh bh checker orphaned :
  (forall i, (i < length pre)%nat -> g (m + Z.of_nat i) = f (m + Z.of_nat i)) ->
  blocks_executed f m st0 nh0 bh0 orphaned0 pre st nh bh checker orphaned ->
  blocks_executed g m st0 nh0 bh0 orphaned0 pre st nh bh checker orphaned.
Proof.
  intros He Hx. induction Hx as [|pre st nh bh checker orphaned h block reward s1 s2 st' nh' bh' checker' orphaned' _ IH]; [constructor|].
  rewrite length_app in He. cbn [length] in He. econstructor; try done; [apply IH; intros; apply He; lia|].
  rewrite He by lia. done.
Qed.

(** A block gets its topoheight, its reward is recorded and its execution adds
    versions at that topoheight only. *)
Lemma place_block_spec nh bh hash T (o o' : OrderState (S:=S)) :
  stores nh bh o.(os_storage) -> below T nh -> below T bh -> in_u 64 T -> verified_blocks o.(os_storage) ->
  counts_ok o.(os_side_blocks) -> place_block DEV_PUBLIC_KEY rnd hash T o = (Ok tt, o') ->
  exists nh' bh', stores nh' bh' o'.(os_storage) /\ (forall k, grows T (nh k) (nh' k)) /\ (forall ka, grows T (bh ka) (bh' ka)) /\
    counts_ok o'.(os_side_blocks) /\ o'.(os_written) = true /\ o'.(os_highest) = o.(os_highest) /\
    writes_at T o.(os_storage) o'.(os_storage) /\ placed o'.(os_storage) T hash /\ rewarded o'.(os_storage) T /\
    (forall h, h <> hash -> get_topo_height_for_hash o'.(os_storage) h = get_topo_height_for_hash o.(os_storage) h) /\
    exists block reward s1 s2, get_block_by_hash o.(os_storage) hash = Ok block /\
      get_block_reward_at_topo_height o'.(os_storage) T = Ok reward /\
      set_topo_height_for_block hash T o.(os_storage) = (Ok tt, s1) /\ recorded T reward s1 s2 /\
      execute_block DEV_PUBLIC_KEY (to_execute rnd hash block) T reward (s2, o.(os_checker), o.(os_orphaned)) =
        (Ok tt, (o'.(os_storage), o'.(os_checker), o'.(os_orphaned))).
Proof using CL OL.
  intros Hs Hn Hb HT Hv Hc Hr. unfold place_block in Hr. apply stm_bind_ok in Hr as (u & o1 & [= _ <-] & Hr).
  apply stm_bind_ok in Hr as ([] & o2 & (st1 & H1 & ->)%on_store_ok & Hr). cbn [os_storage set_written] in H1.
  destruct (law_set_topo hash T o.(os_storage) HT) as (s & Es & A1 & A2 & A3 & A4 & A5 & A6 & A7 & A8).
  rewrite H1 in Es. injection Es as <-. apply stm_bind_ok in Hr as (o3 & o4 & [= <- <-] & Hr).
  apply stm_bind_ok in Hr as (block & o3 & [= Hblock <-] & Hr). cbn [os_storage] in Hblock.
  apply stm_bind_ok in Hr as (reward & o5 & Hrec & Hr).
  apply record_reward_spec in Hrec as (C1 & C2 & C3 & C4 & C5 & C6 & C7 & C8 & C9 & C10 & C11); [|done|done].
  cbn [os_storage os_written os_highest os_checker os_orphaned] in *.
  apply A8 in Hs. apply C8 in Hs. pose proof (fun k a t v => law_history_stored nh bh _ k a t v Hs) as Hst.
  unfold on_execution in Hr.
  pose proof (execute_block_order DEV_PUBLIC_KEY (to_execute rnd hash block) T reward (os_storage o5) (os_checker o5) (os_orphaned o5))
    as Hord.
  destruct (execute_block _ _ _ _ _) as [r [[st checker] orphaned]] eqn:Hex. injection Hr as -> <-. cbn [snd fst] in Hord.
  destruct (block_grows nh bh T Hst HT Hn Hb _ _ _ _ _ _ _ _ _ Hs (to_execute_verified hash block ltac:(apply (Hv hash); by rewrite <- A7)) Hex)
    as (nh' & bh' & Hs' & Gn & Gb).
  exists nh', bh'. cbn [os_storage os_side_blocks os_written os_highest os_checker os_orphaned].
  destruct Hord as (D1 & D2 & D3 & D4 & D5). split_and!; [done..| | | | |].
  - apply (writes_at_trans _ _ (os_storage o5)); [|by split_and!; auto]. eapply writes_at_trans; [|exact C4].
    by split_and!; auto.
  - split; [by rewrite D1, C5|by rewrite D2, C6].
  - destruct C7 as (past & r & E1 & E2 & E3 & E4). exists past, r. rewrite !D3, D4. split_and!; [exact E1|exact E2|exact E3|apply E4|apply E4].
  - intros h Hne. by rewrite D1, C5, A3.
  - exists block, reward, st1, (os_storage o5). rewrite <- C9, <- C10, D4. split_and!; try done.
    + by rewrite <- A7.
    + by destruct C11 as (supply & s & _ & _ & ? & _).
Qed.

(** ** The loop over the new order *)

Lemma stays_ordered_spec (o : OrderState (S:=S)) tips_count hash T :
  stays_ordered o tips_count hash T = Ok true -> o.(os_written) = false /\ placed o.(os_storage) T hash.
Proof using OL.
  unfold stays_ordered. destruct (os_written o); [done|]. destruct (negb (tips_count =? 0)%nat); [|done]. cbn [negb andb].
  intros (ordered & Ho & Hr)%res_bind_ok. destruct ordered; [|done]. apply res_bind_ok in Hr as (t & Ht & [= ->%Z.eqb_eq]).
  split; [done|]. rewrite law_ordered, Ht in Ho. split; [done|]. destruct (get_hash_at_topo_height _ T) as [h'| | |]; [|done..].
  injection Ho as Ho%bool_decide_eq_true. by subst h'.
Qed.

Lemma rewarded_other st st' T t : writes_at T st st' -> in_u 64 t -> t < T -> rewarded st t -> rewarded st' t.
Proof.
  intros (_ & W2 & W3 & _) Hu Hlt (past & r & E1 & E2 & E3 & E4). exists past, r. rewrite (W2 t), (W3 t) by (done || lia).
  split_and!; [|exact E2|exact E3|apply E4|apply E4]. destruct (Z.eqb_spec t 0); [done|].
  rewrite W2; [done|unfold in_u in *; lia|lia].
Qed.

Section Loop.
(** The storage and the histories at the start, the topoheight of the first
    block, and whether a topoheight changed already. *)
Context (st0 : S) (m : Z) (w0 : bool) (nh0 : NonceHistories) (bh0 : BalanceHistories) (orphaned0 : gset Hash).
Context (Hs0 : stores nh0 bh0 st0) (Hn0 : below m nh0) (Hb0 : below m bh0) (Hm : 0 <= m) (Hv0 : verified_blocks st0).

(** The blocks [pre] are ordered, the first [k] of them where they were. *)
Record ordered_to (k : nat) (pre : list Hash) (o : OrderState (S:=S)) : Prop := {
  od_bound : (k <= length pre)%nat;
  od_start : w0 = true -> k = O /\ o.(os_written) = true;
  od_stays : o.(os_written) = false -> k = length pre /\ o.(os_storage) = st0 /\ o.(os_checker) = nonce_checker_new /\
    o.(os_orphaned) = orphaned0;
  od_stores : exists nh bh, stores nh bh o.(os_storage) /\
    blocks_executed (get_block_reward_at_topo_height o.(os_storage)) (m + Z.of_nat k) st0 nh0 bh0 orphaned0 (drop k pre)
      o.(os_storage) nh bh o.(os_checker) o.(os_orphaned) /\
    below (m + Z.of_nat (length pre)) nh /\ below (m + Z.of_nat (length pre)) bh /\
    (forall x, upto (m + Z.of_nat k - 1) (nh x) = nh0 x) /\ (forall x, upto (m + Z.of_nat k - 1) (bh x) = bh0 x);
  od_placed i h : pre !! i = Some h -> placed o.(os_storage) (m + Z.of_nat i) h;
  od_others h : h ∉ pre -> get_topo_height_for_hash o.(os_storage) h = get_topo_height_for_hash st0 h;
  od_below t : in_u 64 t -> t < m + Z.of_nat k \/ m + Z.of_nat (length pre) <= t ->
    get_hash_at_topo_height o.(os_storage) t = get_hash_at_topo_height st0 t /\
    get_supply_at_topo_height o.(os_storage) t = get_supply_at_topo_height st0 t /\
    get_block_reward_at_topo_height o.(os_storage) t = get_block_reward_at_topo_height st0 t;
  od_rewarded i : (k <= i < length pre)%nat -> rewarded o.(os_storage) (m + Z.of_nat i);
  od_counts : counts_ok o.(os_side_blocks);
  od_highest : o.(os_highest) = match pre with [] => 0 | _ => m + Z.of_nat (length pre) - 1 end;
  od_blocks h : get_block_by_hash o.(os_storage) h = get_block_by_hash st0 h;
}.

Lemma ordered_start : ordered_to O [] (mkOrder st0 nonce_checker_new ∅ orphaned0 w0 0).
Proof using Hs0 Hn0 Hb0.
  split; cbn; try done; [|by intros; lia].
  exists nh0, bh0. rewrite Z.add_0_r. split_and!; try done; [constructor|..]; intros x; apply upto_all; intros t v Hin;
    [apply Hn0 in Hin|apply Hb0 in Hin]; lia.
Qed.

Lemma length_snoc (pre : list Hash) h : length (pre ++ [h]) = Datatypes.S (length pre).
Proof. rewrite length_app. cbn. lia. Qed.
Lemma snoc_cases (pre : list Hash) h i h' :
  (pre ++ [h]) !! i = Some h' -> pre !! i = Some h' /\ (i < length pre)%nat \/ i = length pre /\ h' = h.
Proof.
  intros Hi. destruct (decide (i < length pre)%nat) as [Hl|Hl]; [left; by rewrite lookup_app_l in Hi|right].
  pose proof (lookup_lt_Some _ _ _ Hi) as Hlt. rewrite length_snoc in Hlt. assert (i = length pre) as -> by lia.
  rewrite lookup_app_r, Nat.sub_diag in Hi by lia. by injection Hi as <-.
Qed.

(** The block stays. *)
Lemma ordered_stay k pre o h :
  ordered_to k pre o -> o.(os_written) = false -> placed o.(os_storage) (m + Z.of_nat (length pre)) h ->
  ordered_to (Datatypes.S k) (pre ++ [h]) (set_highest (m + Z.of_nat (length pre)) o).
Proof using Hs0 Hn0 Hb0.
  intros [H1 H2 H3 H4 H5 H6 H7 H8 H9 H10 H11] Hw Hp. destruct (H3 Hw) as (-> & Est & Eck & Eor).
  split; cbn [os_storage os_written os_side_blocks os_highest os_checker os_orphaned set_highest]; rewrite ?length_snoc; try done.
  - intros W. destruct (H2 W) as [_ ?]. congruence.
  - exists nh0, bh0. rewrite Est, Eck, Eor, drop_ge by (rewrite length_snoc; lia).
    split_and!; [done|constructor|intros x t v Hin; apply Hn0 in Hin; lia|intros x t v Hin; apply Hb0 in Hin; lia|..];
      intros x; apply upto_all; intros t v Hin; [apply Hn0 in Hin|apply Hb0 in Hin]; lia.
  - intros i h' [[Hi _]|[-> ->]]%snoc_cases; [by apply H5|done].
  - intros h' Hh. apply H6. intros Hin. apply Hh, list.elem_of_app. by left.
  - intros t Ht _. by rewrite Est.
  - intros; lia.
  - destruct pre; cbn; lia.
Qed.

Lemma executed_snoc k pre st nh bh checker orphaned h block reward s1 s2 st' nh' bh' checker' orphaned' :
  (k <= length pre)%nat -> in_u 64 (m + Z.of_nat (length pre)) -> writes_at (m + Z.of_nat (length pre)) st st' ->
  blocks_executed (get_block_reward_at_topo_height st) (m + Z.of_nat k) st0 nh0 bh0 orphaned0 (drop k pre) st nh bh checker orphaned ->
  get_block_by_hash st h = Ok block ->
  get_block_reward_at_topo_height st' (m + Z.of_nat (length pre)) = Ok reward ->
  set_topo_height_for_block h (m + Z.of_nat (length pre)) st = (Ok tt, s1) ->
  recorded (m + Z.of_nat (length pre)) reward s1 s2 ->
  execute_block DEV_PUBLIC_KEY (to_execute rnd h block) (m + Z.of_nat (length pre)) reward (s2, checker, orphaned) =
    (Ok tt, (st', checker', orphaned')) ->
  stores nh' bh' st' -> (forall x, grows (m + Z.of_nat (length pre)) (nh x) (nh' x)) ->
  (forall x, grows (m + Z.of_nat (length pre)) (bh x) (bh' x)) ->
  blocks_executed (get_block_reward_at_topo_height st') (m + Z.of_nat k) st0 nh0 bh0 orphaned0 (drop k (pre ++ [h]))
    st' nh' bh' checker' orphaned'.
Proof using Hm.
  intros Hk HT (_ & _ & W & _) Hx. rewrite drop_app_le by done.
  replace (m + Z.of_nat (length pre)) with (m + Z.of_nat k + Z.of_nat (length (drop k pre))) in * by (rewrite length_drop; lia).
  econstructor; try done. eapply executed_rewards; [|done]. intros i Hi. apply W; unfold in_u in *; lia.
Qed.

(** The block is put at its place and executed. *)
Lemma ordered_place k pre o o' h :
  ordered_to k pre o -> h ∉ pre -> in_u 64 (m + Z.of_nat (length pre)) ->
  place_block DEV_PUBLIC_KEY rnd h (m + Z.of_nat (length pre)) (set_highest (m + Z.of_nat (length pre)) o) = (Ok tt, o') ->
  ordered_to k (pre ++ [h]) o'.
Proof using Hs0 Hn0 Hb0 Hm Hv0 CL OL.
  intros [H1 H2 H3 (nh & bh & Hs & Hex & Hn & Hb & Un & Ub) H5 H6 H7 H8 H9 H10 H11] Hh HT Hr.
  set (T := m + Z.of_nat (length pre)) in *.
  apply (place_block_spec nh bh) in Hr as (nh' & bh' & Hs' & Gn & Gb & C1 & C2 & C3 & Hw & Hp & Hrew & Hother & Hexec);
    cbn [os_storage os_side_blocks set_highest os_highest os_checker os_orphaned] in *; [|done..|by apply (verified_blocks_same st0)|done].
  pose proof Hw as (W1 & W2 & W3 & W4). destruct Hexec as (block & reward & s1 & s2 & X1 & X2 & X3 & X4 & X5).
  split; rewrite ?length_snoc; try done.
  - lia.
  - intros E. by destruct (H2 E).
  - congruence.
  - exists nh', bh'. replace (m + Z.of_nat (Datatypes.S (length pre))) with (T + 1) by lia.
    split_and!; [done|by eapply (executed_snoc k pre (os_storage o))|by eapply grows_below|by eapply grows_below|..]; intros x.
    + rewrite (grows_upto T _ (nh x)) by (done || lia). apply Un.
    + rewrite (grows_upto T _ (bh x)) by (done || lia). apply Ub.
  - intros i h' [[Hi Hlt]|[-> ->]]%snoc_cases; [|done]. destruct (H5 i h' Hi) as [P1 P2].
    assert (h' <> h) as Hne by (intros ->; by apply Hh, list_elem_of_lookup_2 with i).
    split; [by rewrite Hother|]. rewrite W1; [done|unfold in_u in *; lia|lia].
  - intros h' Hin. assert (h' <> h /\ h' ∉ pre) as [Hne Hni].
    { split; intros Hx; apply Hin, list.elem_of_app; [right; rewrite Hx; left|by left]. }
    rewrite Hother by done. by apply H6.
  - intros t Ht Hcase. assert (t <> T) as Hne by lia. rewrite W1, W2, W3 by done. apply H7; [done|lia].
  - intros i Hi. destruct (decide (i = length pre)) as [->|Hne]; [done|].
    apply (rewarded_other (os_storage o) _ T); [done|unfold in_u in *; lia|lia|]. apply H8. lia.
  - rewrite C3. destruct pre; cbn [app]; lia.
  - intros h'. by rewrite W4.
Qed.

Lemma order_loop_spec base skipped tips_count l pre k o o' :
  u64_add base skipped = m -> NoDup (pre ++ l) -> m + Z.of_nat (length (pre ++ l)) <= 2 ^ 64 -> ordered_to k pre o ->
  order_loop DEV_PUBLIC_KEY rnd base skipped tips_count (Z.of_nat (length pre)) l o = (Ok tt, o') ->
  exists k', ordered_to k' (pre ++ l) o'.
Proof using Hs0 Hn0 Hb0 Hm Hv0 CL OL.
  intros Em. revert pre k o. induction l as [|h l IH]; intros pre k o Hnd Hu Ho Hr; cbn [order_loop] in Hr.
  { injection Hr as <-. rewrite app_nil_r. eauto. }
  apply stm_bind_ok in Hr as ([] & o1 & Hstep & Hr).
  assert (h ∉ pre) as Hh.
  { apply list.NoDup_app in Hnd as (_ & Hd & _). intros Hin. apply (Hd h Hin). left. }
  assert (in_u 64 (m + Z.of_nat (length pre))) as HT by (rewrite length_app in Hu; cbn in Hu; unfold in_u; lia).
  unfold order_step in Hstep. rewrite Em, u64_add_small in Hstep by done.
  assert (exists k1, ordered_to k1 (pre ++ [h]) o1) as [k1 H1].
  { apply stm_bind_ok in Hstep as (u & o2 & [= _ <-] & (o3 & o4 & [= <- <-] & Hstep)%stm_bind_ok).
    apply stm_bind_ok in Hstep as (stays & o2 & [= Hstays <-] & Hstep). destruct stays.
    - injection Hstep as <-. apply stays_ordered_spec in Hstays as [Hw Hp]. exists (Datatypes.S k). by apply ordered_stay.
    - exists k. by apply (ordered_place k pre o). }
  replace (pre ++ h :: l) with ((pre ++ [h]) ++ l) in * by by rewrite <- (assoc_L (++)).
  apply (IH (pre ++ [h]) k1 o1); [done..|].
  rewrite length_snoc. by replace (Z.of_nat (Datatypes.S (length pre))) with (Z.of_nat (length pre) + 1) by lia.
Qed.
End Loop.
End Placing.

(** ** Properties *)
Section Properties.
Context {UL : U256Lib} {IS : IndexSetLib Hash} {B3 : Blake3} {XH : XelisHashLib}.
Context {CV : Curve} {ML : Merlin} {RP : RangeProofLib} {HM : HashMapIter} {IM : IndexMapLib Z Z}.
Context {S : Type} {SP : Storage S} {SLaws : StorageLaws S} {DP : DifficultyProvider S} {CP : ClientProtocolProvider S}.
Context {CL : ClientProtocolLaws S} {BH : BlocksAtHeightProvider S} {BD : BlockDagProvider S} {OL : OrderLaws S}.
Context {RW : RewindProvider S} {RL : RewindLaws S}.

(** The blocks of a range of topoheights are at their place. *)
Definition well_ordered (base cur : Z) (st : S) : Prop := forall t h,
  base <= t <= cur -> get_hash_at_topo_height st t = Ok h -> get_topo_height_for_hash st h = Ok t.

(** What is recorded below a topoheight. *)
Definition same_below (t : Z) (st st' : S) : Prop := forall t', in_u 64 t' -> t' < t ->
  get_hash_at_topo_height st' t' = get_hash_at_topo_height st t' /\
  get_supply_at_topo_height st' t' = get_supply_at_topo_height st t' /\
  get_block_reward_at_topo_height st' t' = get_block_reward_at_topo_height st t'.

(** C3: a change of the order of the DAG.  When [reorder_blocks] succeeds, the
    blocks of the new order are at the topoheights from the base on, in that
    order.  The first [k] of them did not move: below them, no version of an
    account and no recorded block, supply or reward has changed.  From there on
    the versions of the old order are gone: the cleaning leaves [st1], with the
    blocks of [st] and only the versions below, and the histories stored at the
    end are those that the execution of the other blocks of the new order makes
    of these, each at its topoheight with the reward recorded for it, in that
    order and with one nonce checker; they end below the topoheight after the
    last block.  Each reward is within the emission schedule, and the supply is
    the one before it with that reward added, without a wrap around. *)
Theorem reorder_settles (dev : CompressedPublicKey) (rnd : Hash -> nat -> scalar) (nh : NonceHistories) (bh : BalanceHistories)
    (full_order : list Hash) (base cur : Z) (tips_count : nat) (st st' : S) (highest : Z) (orphaned : gset Hash)
    (Hs : stores nh bh st) (Hn : below (cur + 1) nh) (Hb : below (cur + 1) bh) (H0 : 0 <= base <= cur + 1)
    (Hcur : cur + 1 < 2 ^ 64) (Hlen : base + Z.of_nat (length full_order) <= 2 ^ 64) (Hnd : NoDup full_order)
    (Hv : verified_blocks st) (Hw : well_ordered base cur st)
    (Hr : reorder_blocks dev rnd full_order base cur tips_count st = (Ok (highest, orphaned), st')) :
  exists k st1 nh1 bh1 orphaned1 nh' bh' checker, (k <= length full_order)%nat /\ (base = 0 -> k = O) /\
    same_order st st1 /\ stores nh1 bh1 st1 /\
    (forall x, nh1 x = upto (base + Z.of_nat k - 1) (nh x)) /\ (forall x, bh1 x = upto (base + Z.of_nat k - 1) (bh x)) /\
    blocks_executed dev rnd (get_block_reward_at_topo_height st') (base + Z.of_nat k) st1 nh1 bh1 orphaned1 (drop k full_order)
      st' nh' bh' checker orphaned /\
    stores nh' bh' st' /\
    below (base + Z.of_nat (length full_order)) nh' /\ below (base + Z.of_nat (length full_order)) bh' /\
    (forall x, upto (base + Z.of_nat k - 1) (nh' x) = upto (base + Z.of_nat k - 1) (nh x)) /\
    (forall x, upto (base + Z.of_nat k - 1) (bh' x) = upto (base + Z.of_nat k - 1) (bh x)) /\
    same_below (base + Z.of_nat k) st st' /\
    (forall i h, full_order !! i = Some h -> placed st' (base + Z.of_nat i) h) /\
    (forall i, (k <= i < length full_order)%nat -> rewarded st' (base + Z.of_nat i)) /\
    (highest = base + Z.of_nat (length full_order) - 1 \/ highest = 0 /\ k = length full_order).
Proof.
  unfold reorder_blocks in Hr. apply stm_bind_ok in Hr as (c & st1 & Hclean & Hr).
  set (count := Z.to_nat (cur + 1 - base)) in *. assert (base + Z.of_nat count = cur + 1) as Ecount by lia.
  apply (clean_loop_spec nh bh) in Hclean as (n & N1 & N2 & N3 & N4 & N5 & N6 & N7 & N8 & N9);
    rewrite ?Ecount; cbn [cs_skipped]; [|done || lia..]. cbn [cs_order cs_skipped cs_written] in *. rewrite Z.add_0_l in N4.
  unfold run_order in Hr.
  destruct (order_loop _ _ _ _ _ _ _ _) as [[[]| | |] o] eqn:Hloop; [|done..]. injection Hr as <- <- <-.
  rewrite N3, N4 in Hloop. set (m := base + Z.of_nat n) in *.
  set (nh1 := fun k => upto (m - 1) (nh k)) in *. set (bh1 := fun ka => upto (m - 1) (bh ka)) in *.
  assert (below m nh1 /\ below m bh1) as [Hn1 Hb1].
  { split; intros x t v [Hle _]%elem_of_upto; lia. }
  pose proof N7 as (S1 & S2 & S3 & S4 & S5).
  assert (verified_blocks st1) as Hv1 by by apply (verified_blocks_same st).
  assert (take n full_order ++ drop n full_order = full_order) as Efull by apply take_drop.
  assert (length (drop n full_order) = length full_order - n)%nat as Elen by apply length_drop.
  assert (length (take n full_order) = n) as Etake by (rewrite length_take; lia).
  pose proof Hnd as Hnd'. rewrite <- Efull in Hnd'. apply list.NoDup_app in Hnd' as (_ & Hdisj & Hnd2).
  apply (order_loop_spec dev rnd st1 m (cs_written c) nh1 bh1 (cs_orphaned c) N6 Hn1 Hb1 ltac:(lia) Hv1 _ _ _ _ [] O) in Hloop as [k' Hord];
    [|apply u64_add_small; unfold in_u; lia|done|cbn [app]; lia|by apply ordered_start].
  cbn [app] in Hord. destruct Hord as [O1 O2 O3 (nh' & bh' & Os & Ox & On & Ob & Un & Ub) O5 O6 O7 O8 O9 O10 O11].
  assert (k' = O \/ n = count) as Hk.
  { destruct (cs_written c) eqn:Ew; [left; by apply O2|right; by apply N8]. }
  assert ((forall x, nh1 x = upto (m + Z.of_nat k' - 1) (nh x)) /\ (forall x, bh1 x = upto (m + Z.of_nat k' - 1) (bh x))) as [Enh Ebh].
  { unfold nh1, bh1. destruct Hk as [->| ->]; [by rewrite Z.add_0_r|].
    split; intros x; rewrite !upto_all; try done; intros t v Hin; [apply Hn in Hin|apply Hn in Hin|apply Hb in Hin|apply Hb in Hin]; lia. }
  exists (n + k')%nat, st1, nh1, bh1, (cs_orphaned c), nh', bh', (os_checker o). rewrite Elen in *.
  replace (base + Z.of_nat (n + k')) with (m + Z.of_nat k') by lia.
  replace (base + Z.of_nat (length full_order)) with (m + Z.of_nat (length full_order - n)) by lia.
  rewrite drop_drop in Ox.
  split_and!; [lia| |done|done| | |done|done|done|done| | | | | |].
  - intros ->. specialize (N9 eq_refl). subst n. destruct Hk as [->|E0]; [done|].
    destruct (cs_written c) eqn:Ew; [by destruct (O2 eq_refl) as [-> _]|]. by destruct (N8 eq_refl).
  - exact Enh.
  - exact Ebh.
  - intros x. by rewrite Un, Enh.
  - intros x. by rewrite Ub, Ebh.
  - intros t Ht Hlt. destruct (O7 t Ht ltac:(by left)) as (-> & -> & ->). by rewrite S2, S3, S4.
  - intros i h Hi. destruct (decide (i < n)%nat) as [Hlt|Hge].
    + pose proof (N5 i h Hlt Hi) as Hat. assert (h ∉ drop n full_order) as Hnot.
      { apply Hdisj. apply list_elem_of_lookup_2 with i. by rewrite lookup_take_lt. }
      split.
      * rewrite O6, S1 by done. apply Hw; [lia|done].
      * destruct (O7 (base + Z.of_nat i) ltac:(unfold in_u; lia) ltac:(left; lia)) as (-> & _). by rewrite S2.
    + replace (base + Z.of_nat i) with (m + Z.of_nat (i - n)) by lia. apply O5. rewrite lookup_drop. by replace (n + (i - n))%nat with i by lia.
  - intros i Hi. replace (base + Z.of_nat i) with (m + Z.of_nat (i - n)) by lia. apply O8. lia.
  - rewrite O10. destruct (drop n full_order) eqn:Ed; cbn [length] in Elen; [right; split; [done|lia]|left; lia].
Qed.
End Properties.
