(* ===== verification/ExecutionModel.v ===== *)
(** Blocks on a concrete storage.

    The account that burns in [VerifyModel] owns a stored balance; a block with
    its transaction is executed, and the properties of the chain state are
    applied to it.

    Then a change of the order.  The chain has a block at topoheight 4 and one
    at 5; a sibling of the latter takes its place, so that the new order has
    three blocks, the first of which stays.  An account has a version at 5,
    which goes. *)

From S2P Require Import Prelude External ExternalModel Serializer Hash Defaults VarUint ExternalCrypto Elgamal Proofs Transaction Verify VerifyFacts VerifyModel Block Errors Dag Account Versions Storage VersionedTree StorageFacts Providers DagOrder BlockProviders BlockStorage BlockStorageFacts NonceChecker Emission StorageLaws Rewind ChainProviders Reference ChainState ChainFacts ChainInvariant ApplyChanges Atomic Execution Reorder ExecutionFacts ReorderFacts.

#[local] Existing Instances curve_model merlin_model range_proof_model sled_model hash_map_model.
#[local] Instance imap_Z : IndexMapLib Z Z := imap_model Z Z.

(** The account was funded at topoheight 3, with the nonce 7. *)
Definition e_balance : VersionedBalance := balance_new (Decompressed v_balance) None.
Definition e_funded : SledStorage := Storage.set_last_balance_to v_key XELIS_ASSET 3 e_balance s_assets.
Definition e_storage : SledStorage := Storage.set_last_nonce_to v_key 3 (mkVNonce 7 None) e_funded.
Definition e_nonces : NonceHistories := fn_upd v_key [(3, mkVNonce 7 None)] (fun _ => []).
Definition e_balances : BalanceHistories := fn_upd (v_key, XELIS_ASSET) [(3, Account.stored e_balance)] (fun _ => []).

Lemma e_stores : stores e_nonces e_balances e_storage.
Proof.
  split_and!.
  - apply (set_last_nonce_refine (fun _ => [])); [apply empty_nonces_refine|done..].
  - unfold balances_refine, e_storage.
    destruct (set_last_nonce_frame v_key 3 (mkVNonce 7 None) e_funded) as (-> & -> & _).
    apply (set_last_balance_refine (fun _ => []) s_assets); [apply empty_balances_refine|done..].
  - unfold registrations_wf, e_storage.
    destruct (set_last_nonce_frame v_key 3 (mkVNonce 7 None) e_funded) as (_ & _ & _ & _ & _ & ->).
    exact (empty_registrations_wf true).
Qed.
Lemma e_nonces_below : below 60 e_nonces.
Proof. intros k t v. unfold e_nonces, fn_upd. case_decide; set_solver by lia. Qed.
Lemma e_balances_below : below 60 e_balances.
Proof. intros k t v. unfold e_balances, fn_upd. case_decide; set_solver by lia. Qed.
Lemma e_readable : balances_readable e_balances.
Proof.
  intros k a. unfold fresh, e_balances, fn_upd. case_decide; [|done]. vm_cast_no_check (eq_refl true).
Qed.

Definition e_state : ChainState := chain_with e_storage 60.
#[local] Abbreviation e_applied := (apply_with_partial_verify (St:=ChainState) (E:=blockchain_error) v_tx v_rnd e_state).
Lemma e_applied_done : is_done e_applied = true.
Proof. vm_cast_no_check (eq_refl true). Qed.

Lemma chain_state_invariant_witness :
  chain_inv e_nonces e_balances 60 e_state /\
  chain_inv e_nonces e_balances 60 (reward_miner s_key 100 e_state).2.
Proof.
  destruct (chain_state_invariant e_nonces e_balances 60 e_storage e_stores ltac:(done) e_nonces_below e_balances_below)
    as (Hi & _ & _ & _ & _ & Hr & _).
  split; [exact Hi|]. exact (Hr s_key 100 e_state Hi).
Defined.

(** Helpers for the other witnesses. *)
Lemma e_inv : chain_inv e_nonces e_balances 60 e_state.
Proof. apply inv_start, e_stores. Qed.
Lemma e_state_readable : readable e_state.
Proof. intros k a v. unfold receiver_version. simpl. by rewrite lookup_empty. Qed.

Lemma chain_execution_atomic_witness :
  exists ds, mapMr decompress_transfer (transfers_of v_tx) = Ok ds /\
    chain_ledger e_applied.2 ≡ ledger_apply_balances v_tx ds (chain_ledger e_state).
Proof.
  destruct (chain_execution_atomic e_nonces e_balances 60 e_state v_tx v_rnd (Ok tt) e_applied.2 e_inv ltac:(done)
    e_nonces_below e_balances_below (readable_computable _ e_readable) e_state_readable
    (eq_refl true <: verify_commitment_assets v_tx = true) (is_done_ok e_applied e_applied_done)) as (_ & Hok & _).
  by apply Hok.
Defined.

(** The state after the transaction, with its invariant, and after the changes
    are applied. *)
#[local] Abbreviation e_after := e_applied.2.
Lemma e_after_inv : chain_inv e_nonces e_balances 60 e_after.
Proof.
  apply inv_apply_partial; [|done|exact e_nonces_below|exact e_balances_below|exact (NoDup_singleton XELIS_ASSET)|exact e_inv].
  intros k a t v. exact (law_history_stored _ _ _ k a t v e_stores).
Qed.
#[local] Abbreviation e_written := (apply_changes e_after).
Lemma e_written_done : is_done e_written = true.
Proof. vm_cast_no_check (eq_refl true). Qed.

Lemma apply_changes_refines_witness :
  exists nh' bh', stores nh' bh' e_written.2.(storage) /\
    nh' v_key = nonce_written e_nonces 60 e_after v_key.
Proof.
  destruct (apply_changes_refines e_nonces e_balances 60 e_after e_written.2 e_after_inv ltac:(done) e_nonces_below
    e_balances_below (is_done_ok e_written e_written_done)) as (nh' & bh' & Hs & Hn & _).
  exists nh', bh'. split; [exact Hs|]. apply Hn.
Defined.

(** A block with the transaction, and its accounts. *)
Definition e_dev : CompressedPublicKey := mkPublicKey (mkRistretto (vreplicate 32 x01)).
Definition e_block : OrderedBlock := mkOrdered HashOps.max 10 s_key [mkBlockTx v_tx HashOps.max v_rnd].
Definition e_keys : list CompressedPublicKey := [v_key; s_key; e_dev].
Definition e_start : SledStorage * gmap CompressedPublicKey AccountEntry * gset Hash := (e_storage, nonce_checker_new, ∅).
#[local] Abbreviation e_result := (execute_block e_dev e_block 60 1000 e_start).
Lemma e_result_done : is_done e_result = true.
Proof. vm_cast_no_check (eq_refl true). Qed.
Lemma e_involved : involved e_dev e_block e_keys.
Proof.
  split; [|split; [|split]].
  - apply (bool_decide_unpack _). vm_cast_no_check I.
  - right. right. left.
  - right. left.
  - repeat constructor.
Qed.
Lemma e_verified : verified e_block.
Proof. repeat constructor. Qed.
Lemma e_result_run : e_result = (Ok tt, (e_result.2.1.1, e_result.2.1.2, e_result.2.2)).
Proof. pose proof (is_done_ok e_result e_result_done) as E. destruct e_result as [r [[st c] o]]. simpl in *. congruence. Qed.

Lemma block_settles_witness :
  exists nh' bh' done, stores nh' bh' e_result.2.1.1 /\ sublist done.*1 e_block.(ob_txs) /\
    let l := foldl pay (foldl apply_executed (chain_ledger e_state) done)
               (payments e_dev e_block 1000 (wrap 64 (fees_of done))) in
    balance_of bh' s_key XELIS_ASSET = ct_sub (l_recv l s_key XELIS_ASSET) (l_out l s_key XELIS_ASSET).
Proof.
  destruct (block_settles e_nonces e_balances 60 e_dev e_block 1000 e_storage _ _ _ _ _ e_stores ltac:(done)
    e_nonces_below e_balances_below e_readable e_verified e_result_run) as (nh' & bh' & dn & Hs & Hsub & _ & _ & Hb).
  exists nh', bh', dn. split; [exact Hs|]. split; [exact Hsub|]. apply Hb.
  exact (eq_refl true <: tree_contains (hash_bytes XELIS_ASSET) e_storage.(assets) = true).
Defined.

Lemma block_conserves_witness :
  exists nh' bh' done, stores nh' bh' e_result.2.1.1 /\ sublist done.*1 e_block.(ob_txs) /\
    padd (supply_of bh' e_keys XELIS_ASSET) (plain_total done XELIS_ASSET) =
    padd (supply_of e_balances e_keys XELIS_ASSET)
      (paid_total (payments e_dev e_block 1000 (wrap 64 (fees_of done))) XELIS_ASSET).
Proof.
  exact (block_conserves e_nonces e_balances 60 e_dev e_block 1000 e_storage _ _ _ _ _ e_keys XELIS_ASSET e_stores
    ltac:(done) e_nonces_below e_balances_below e_readable e_verified e_involved
    (eq_refl true <: tree_contains (hash_bytes XELIS_ASSET) e_storage.(assets) = true) e_result_run).
Defined.

(** ** A change of the order *)

#[local] Existing Instances u256_model iset_model blake3_model xelis_hash_model.
Definition r_base : Hash := HashOps.zero.
Definition r_old : Hash := HashOps.max.
Definition r_new : Hash := mkHash (vreplicate 32 x01).
Definition r_header (height : Z) (tips : iset Hash) : BlockHeader :=
  mkHeader 0 tips 1000 height 0 (vreplicate 32 x00) s_key iset_new.
Definition r_tips : iset Hash := (iset_insert r_base iset_new).2.

(** The blocks at the topoheights 1 to 3. *)
Definition r_past (n : Z) : Hash := mkHash (vreplicate 32 (to_byte (n + 1))).
Definition r_fill (n : Z) : stm SledStorage blockchain_error () :=
  _ ← BlockStorage.save_block (r_header n iset_new) [] VarUint.zero VarUint.zero (r_past n);
  st_modify (Storage.set_topo_height_for_block (r_past n) n).
Definition r_save : stm SledStorage blockchain_error () :=
  _ ← r_fill 1;
  _ ← r_fill 2;
  _ ← r_fill 3;
  _ ← BlockStorage.save_block (r_header 4 iset_new) [] VarUint.zero VarUint.zero r_base;
  _ ← BlockStorage.save_block (r_header 5 r_tips) [] VarUint.zero VarUint.zero r_old;
  _ ← BlockStorage.save_block (r_header 5 r_tips) [] VarUint.zero VarUint.zero r_new;
  _ ← st_modify (Storage.set_topo_height_for_block r_base 4);
  _ ← st_modify (Storage.set_topo_height_for_block r_old 5);
  st_modify (BlockStorage.set_supply_at_topo_height 4 1000).
Definition r_blocks : SledStorage := (r_save e_storage).2.
Definition r_nonce : VersionedNonce := mkVNonce 8 (Some 3).
Definition r_storage : SledStorage := Storage.set_last_nonce_to v_key 5 r_nonce r_blocks.
Definition r_nonces : NonceHistories := fn_upd v_key ((5, r_nonce) :: e_nonces v_key) e_nonces.

(** Saving blocks leaves the accounts. *)
Definition accounts_of (st : SledStorage) :=
  (nonces st, versioned_nonces st, accounts_count st, balances st, versioned_balances st, registrations_prefixed st).
Lemma save_block_accounts A block difficulty p hash :
  always (fun st => accounts_of st = A) (BlockStorage.save_block block [] difficulty p hash).
Proof.
  unfold BlockStorage.save_block. rewrite zip_with_nil_r. intros st Hst. apply bind_state; [done|]. intros n s [= <- <-].
  apply bind_state; [done|]. intros u s [= _ <-]. apply bind_state.
  { cbn [snd st_modify]. unfold store_header. by destruct (tree_insert _ _ _) as [[o|] t]. }
  intros u' s [= _ <-]. assert (accounts_of (store_header hash block st) = A) as E1
    by (unfold store_header; by destruct (tree_insert _ _ _) as [[o|] t]).
  apply bind_state; [done|]. intros u2 s [= _ <-]. apply bind_state; [done|]. intros u3 s [= _ <-].
  unfold add_block_hash_at_height. apply bind_state; [done|]. intros s1 s2 [= <- <-]. apply bind_state; [done|].
  by intros tips s3 [= _ <-].
Qed.
Lemma r_save_accounts A : always (fun st => accounts_of st = A) r_save.
Proof.
  assert (forall n, always (fun st => accounts_of st = A) (r_fill n)) as Hf.
  { intros n. apply always_bind; [apply save_block_accounts|]. intros u st Hst. exact Hst. }
  unfold r_save. do 3 (apply always_bind; [apply Hf|intros _]). do 3 (apply always_bind; [apply save_block_accounts|intros _]).
  do 2 (apply always_bind; [intros st Hst; exact Hst|intros _]). intros st Hst. exact Hst.
Qed.
Lemma r_accounts : accounts_of r_blocks = accounts_of e_storage.
Proof. exact (r_save_accounts (accounts_of e_storage) e_storage eq_refl). Qed.

Lemma accounts_of_stores (nh : NonceHistories) (bh : BalanceHistories) (st st' : SledStorage) :
  accounts_of st' = accounts_of st -> stores nh bh st -> stores nh bh st'.
Proof.
  intros [= E1 E2 E3 E4 E5 E6] ([Hn Hc] & Hb & Hw). split_and!.
  - split; [by rewrite E1, E2|]. unfold accounts_counted in *. by rewrite E1, E3.
  - unfold balances_refine. by rewrite E4, E5.
  - unfold registrations_wf. by rewrite E6.
Qed.

Lemma set_nonce_stores nh bh (st : SledStorage) k t v p :
  stores nh bh st -> in_u 64 t -> in_u 64 v.(vn_nonce) -> top (nh k) = Some p -> v.(vn_previous_topoheight) = Some p -> p < t ->
  stores (fn_upd k ((t, v) :: nh k) nh) bh (Storage.set_last_nonce_to k t v st).
Proof.
  intros Hs Ht Hv Etop Ep Hlt. destruct (law_set_nonce nh bh st k t v Hs Ht Hv) as (st' & [= <-] & Hs');
    [by rewrite Ep, Etop|by rewrite Etop; intros p' [= <-]|exact Hs'].
Qed.
Lemma r_top : top (e_nonces v_key) = Some 3.
Proof. unfold e_nonces. by rewrite fn_upd_eq. Qed.
Lemma r_small : in_u 64 5 /\ in_u 64 8 /\ 3 < 5.
Proof. unfold in_u. lia. Qed.
Lemma r_stores : stores r_nonces e_balances r_storage.
Proof.
  exact (set_nonce_stores e_nonces e_balances r_blocks v_key 5 r_nonce 3 (accounts_of_stores _ _ _ _ r_accounts e_stores)
    (proj1 r_small) (proj1 (proj2 r_small)) r_top eq_refl (proj2 (proj2 r_small))).
Qed.
Lemma below_upd {K V} `{EqDecision K} t t' (v : V) (h : K -> list (Z * V)) k :
  below t h -> t' < t -> below t (fn_upd k ((t', v) :: h k) h).
Proof.
  intros Hb Hlt k' t1 v1. unfold fn_upd. case_decide as Hk; [|apply Hb].
  intros [[= -> ->]|Hin]%list.elem_of_cons; [done|by apply Hb in Hin].
Qed.
Lemma below_none {K V} t : below t (fun _ : K => [] : list (Z * V)).
Proof. by intros k t' v ?%not_elem_of_nil. Qed.
Lemma r_below : below 6 r_nonces /\ below 6 e_balances.
Proof.
  assert (3 < 6 /\ 5 < 6) as [H3 H5] by lia. split.
  - exact (below_upd 6 5 r_nonce e_nonces v_key (below_upd 6 3 (mkVNonce 7 None) _ v_key (below_none 6) H3) H5).
  - exact (below_upd 6 3 (Account.stored e_balance) _ (v_key, XELIS_ASSET) (below_none 6) H3).
Qed.

(** No transaction is stored, so no block has one. *)
Lemma verified_without_txs (st : SledStorage) : t_transactions (block_trees st) = tree_empty -> verified_blocks st.
Proof.
  intros Hno h b. cbn [get_block_by_hash sled_dag]. unfold BlockStorage.get_block_by_hash.
  intros (block & _ & (txs & Htxs & [= <-])%res_bind_ok)%res_bind_ok. cbn [transactions].
  destruct (iset_list block.(bh_txs_hashes)) as [|h' l]; [by injection Htxs as <-|].
  cbn [mapMr] in Htxs. apply res_bind_ok in Htxs as (tx & Htx & _). unfold get_transaction, load_from_disk in Htx.
  by rewrite Hno, tree_get_empty in Htx.
Qed.
Lemma r_no_txs : t_transactions (block_trees r_storage) = tree_empty.
Proof. vm_cast_no_check (eq_refl (tree_empty (SledLib:=sled_model))). Qed.
Lemma r_verified : verified_blocks r_storage.
Proof. exact (verified_without_txs r_storage r_no_txs). Qed.

Definition is_hash (r : bres Hash) (h : Hash) : bool := match r with Ok h' => bool_decide (h' = h) | _ => false end.
Definition is_topo (r : bres Z) (t : Z) : bool := match r with Ok t' => t' =? t | _ => false end.
Lemma is_hash_ok r h : is_hash r h = true -> r = Ok h.
Proof. destruct r; [|discriminate..]. intros ->%bool_decide_eq_true. reflexivity. Qed.
Lemma is_topo_ok r t : is_topo r t = true -> r = Ok t.
Proof. destruct r; [|discriminate..]. intros ->%Z.eqb_eq. reflexivity. Qed.

Lemma well_ordered_two (st : SledStorage) t h1 h2 :
  get_hash_at_topo_height st t = Ok h1 -> get_hash_at_topo_height st (t + 1) = Ok h2 ->
  get_topo_height_for_hash st h1 = Ok t -> get_topo_height_for_hash st h2 = Ok (t + 1) -> well_ordered t (t + 1) st.
Proof.
  intros E1 E2 T1 T2 t' h Ht. assert (t' = t \/ t' = t + 1) as [-> | ->] by lia.
  - intros Hh. pose proof (eq_trans (eq_sym E1) Hh) as [= <-]. exact T1.
  - intros Hh. pose proof (eq_trans (eq_sym E2) Hh) as [= <-]. exact T2.
Qed.
Lemma r_checked : is_hash (get_hash_at_topo_height r_storage 4) r_base && is_hash (get_hash_at_topo_height r_storage 5) r_old &&
  is_topo (get_topo_height_for_hash r_storage r_base) 4 && is_topo (get_topo_height_for_hash r_storage r_old) 5 = true.
Proof. vm_cast_no_check (eq_refl true). Qed.
Lemma r_well_ordered : well_ordered 4 5 r_storage.
Proof.
  pose proof r_checked as Hc. apply andb_true_iff in Hc as [Hc T2]. apply andb_true_iff in Hc as [Hc T1].
  apply andb_true_iff in Hc as [E1 E2].
  exact (well_ordered_two r_storage 4 r_base r_old (is_hash_ok _ _ E1) (is_hash_ok _ _ E2) (is_topo_ok _ _ T1) (is_topo_ok _ _ T2)).
Qed.

Definition r_order : list Hash := [r_base; r_new; r_old].
Lemma r_order_nodup : NoDup r_order.
Proof. apply (bool_decide_unpack _). vm_cast_no_check I. Qed.
#[local] Abbreviation r_result :=
  (reorder_blocks e_dev (fun _ => v_rnd) r_order 4 5 1 r_storage).
Definition reorder_ok (r : res blockchain_error (Z * gset Hash) * SledStorage) : bool :=
  match r.1 with Ok (highest, _) => highest =? 6 | _ => false end.
Lemma r_result_ok : reorder_ok r_result = true.
Proof. vm_cast_no_check (eq_refl true). Qed.
Lemma reorder_ok_run r : reorder_ok r = true -> exists orphaned, r = (Ok (6, orphaned), r.2).
Proof. destruct r as [[[h o]| | |] s]; [|discriminate..]. intros ->%Z.eqb_eq. by exists o. Qed.
Lemma r_result_run : exists orphaned, r_result = (Ok (6, orphaned), r_result.2).
Proof. exact (reorder_ok_run _ r_result_ok). Qed.

Lemma reorder_settles_witness : exists k st1 nh1 bh1 orphaned1 nh' bh' checker orphaned, (k <= 3)%nat /\ stores nh1 bh1 st1 /\
  blocks_executed e_dev (fun _ => v_rnd) (get_block_reward_at_topo_height r_result.2) (4 + Z.of_nat k) st1 nh1 bh1 orphaned1
    (drop k r_order) r_result.2 nh' bh' checker orphaned /\
  stores nh' bh' r_result.2 /\ below 7 nh' /\ below 7 bh' /\
  placed r_result.2 5 r_new /\ placed r_result.2 6 r_old.
Proof.
  destruct r_result_run as [orphaned Hr].
  destruct (reorder_settles e_dev (fun _ => v_rnd) r_nonces e_balances r_order 4 5 1 r_storage r_result.2 6 orphaned r_stores
    (proj1 r_below) (proj2 r_below) ltac:(lia) ltac:(lia) ltac:(done)
    r_order_nodup r_verified r_well_ordered Hr)
    as (k & st1 & nh1 & bh1 & orphaned1 & nh' & bh' & checker & Hk & _ & _ & Hs1 & _ & _ & Hx & Hs & Hn & Hb & _ & _ & _ & Hp & _).
  exists k, st1, nh1, bh1, orphaned1, nh', bh', checker, orphaned.
  split_and!; [exact Hk|exact Hs1|exact Hx|exact Hs|exact Hn|exact Hb|exact (Hp 1%nat r_new eq_refl)|exact (Hp 2%nat r_old eq_refl)].
Defined.
