(* ===== verification/TxSelector.v ===== *)
(** The selection of the transactions of a block ([core/tx_selector.rs]).

    Each sender has a group of transactions, in the order of their nonces; the
    groups are in a [BinaryHeap], ordered by the fee of their first
    transaction.  [selector_drains] says that the loop over [next] ends and
    gives every transaction, in a greedy order that keeps the groups. *)

From S2P Require Import Prelude External ExternalModel ExternalCrypto Serializer Hash Defaults Elgamal Proofs Transaction.

(** ** std: [BinaryHeap]

    [push] adds an element, [pop] takes a greatest one for the order of [Ord];
    which of several is not promised. *)
Class BinaryHeapLib (A : Type) (le : A -> A -> bool) := {
  heap : Type;
  heap_list : heap -> list A;
  heap_new : heap;
  heap_new_spec : heap_list heap_new = [];
  heap_push : A -> heap -> heap;
  heap_push_spec a h : heap_list (heap_push a h) ≡ₚ a :: heap_list h;
  heap_pop : heap -> option (A * heap);
  heap_pop_spec h :
    match heap_pop h with
    | None => heap_list h = []
    | Some (a, h') => heap_list h ≡ₚ a :: heap_list h' /\ Forall (fun b => le b a = true) (heap_list h')
    end;
}.
Arguments heap A le {_}.

Section Selector.
Context {CV : Curve} {ML : Merlin} {RP : RangeProofLib}.

Record TxSelectorEntry := mkEntry { e_hash : Hash; e_tx : Transaction; e_size : nat }.

(** The transactions of a sender. *)
Definition Transactions := list TxSelectorEntry.

Definition front_fee (t : Transactions) : option Z :=
  match t with [] => None | e :: _ => Some e.(e_tx).(fee) end.
(** [Option<u64>] is ordered with [None] first. *)
Definition option_le (a b : option Z) : bool :=
  match a, b with
  | None, _ => true
  | Some _, None => false
  | Some x, Some y => x <=? y
  end.
Definition transactions_le (a b : Transactions) : bool := option_le (front_fee a) (front_fee b).

Context {BH : BinaryHeapLib Transactions transactions_le}.

Record TxSelector := mkSelector { queue : heap Transactions transactions_le }.

Definition grouped (groups : list Transactions) : TxSelector :=
  mkSelector (foldl (fun queue group => heap_push group queue) heap_new groups).

(** [sort_by] is stable: an insertion keeps the order of equal nonces. *)
Fixpoint insert_by_nonce (e : TxSelectorEntry) (v : list TxSelectorEntry) : list TxSelectorEntry :=
  match v with
  | [] => [e]
  | e' :: v' => if e.(e_tx).(nonce) <=? e'.(e_tx).(nonce) then e :: v else e' :: insert_by_nonce e v'
  end.
Definition sort_by_nonce (v : list TxSelectorEntry) : list TxSelectorEntry := foldr insert_by_nonce [] v.

(** [TxSelector::new] *)
Definition selector_groups (iter : list TxSelectorEntry) : gmap CompressedPublicKey (list TxSelectorEntry) :=
  foldl (fun groups entry =>
    let source := entry.(e_tx).(source) in
    <[source := default [] (groups !! source) ++ [entry]]> groups) ∅ iter.
Definition selector_new {HM : HashMapIter} (iter : list TxSelectorEntry) : TxSelector :=
  grouped ((fun '(_, v) => sort_by_nonce v) <$> hm_iter (selector_groups iter)).

Definition next (s : TxSelector) : option TxSelectorEntry * TxSelector :=
  match heap_pop s.(queue) with
  | None => (None, s)
  | Some (group, queue) =>
      match group with
      | [] => (None, mkSelector queue)
      | entry :: group =>
          (Some entry, mkSelector (match group with [] => queue | _ => heap_push group queue end))
      end
  end.

(** [while let Some(entry) = selector.next()]: [None] when the fuel runs out. *)
Fixpoint drain (fuel : nat) (s : TxSelector) : option (list TxSelectorEntry) :=
  match fuel with
  | O => None
  | S fuel =>
      match next s with
      | (None, _) => Some []
      | (Some entry, s) => (fun l => entry :: l) <$> drain fuel s
      end
  end.

(** ** The order of the selection *)

(** Taking, as long as a group has a transaction, one that is first in its
    group and pays the most among the first ones. *)
Inductive greedy : list Transactions -> list TxSelectorEntry -> Prop :=
  | greedy_end groups : Forall (fun g => g = []) groups -> greedy groups []
  | greedy_take groups entry g rest l :
      groups ≡ₚ (entry :: g) :: rest ->
      Forall (fun g' => transactions_le g' (entry :: g) = true) rest ->
      greedy (g :: rest) l -> greedy groups (entry :: l).

#[export] Instance greedy_perm : Proper ((≡ₚ) ==> (=) ==> iff) greedy.
Proof.
  assert (forall gs gs' l, gs ≡ₚ gs' -> greedy gs l -> greedy gs' l) as Hg; [|by intros gs gs' E l ? <-; split; apply Hg].
  intros gs gs' l E Hl. destruct Hl as [gs Hn|gs e g rest l Ep Hf Hl].
  - apply greedy_end. by rewrite <- E.
  - by apply (greedy_take _ e g rest); [rewrite <- E|..].
Qed.

(** A group without transactions adds nothing. *)
Lemma greedy_nil groups l : greedy groups l -> greedy ([] :: groups) l.
Proof.
  induction 1 as [gs Hn|gs e g rest l Ep Hf Hl IH]; [by apply greedy_end; constructor|].
  apply (greedy_take _ e g ([] :: rest)); [by rewrite Ep; constructor|by constructor|].
  by rewrite (Permutation_swap [] g rest).
Qed.

Lemma concat_perm (gs gs' : list Transactions) : gs ≡ₚ gs' -> concat gs ≡ₚ concat gs'.
Proof.
  intros E. induction E as [|g gs gs' _ IH|g g' gs|gs1 gs2 gs3 _ IH1 _ IH2]; cbn [concat]; [done|by rewrite IH| |by rewrite IH1].
  rewrite !app_assoc. by rewrite (Permutation_app_comm g' g).
Qed.

Lemma greedy_all groups l : greedy groups l -> l ≡ₚ concat groups.
Proof.
  induction 1 as [gs Hn|gs e g rest l Ep Hf Hl IH].
  - induction Hn as [|g gs -> _ IH]; [done|]. done.
  - rewrite (concat_perm _ _ Ep), IH. done.
Qed.
Lemma greedy_sublist groups l : greedy groups l -> Forall (fun g => sublist g l) groups.
Proof.
  induction 1 as [gs Hn|gs e g rest l Ep Hf Hl IH]; [by apply (list.Forall_impl _ _ _ Hn); intros g ->|].
  rewrite Ep. apply list.Forall_cons in IH as [Hg Hr]. constructor; [by constructor|].
  apply (list.Forall_impl _ _ _ Hr). intros g' Hg'. by constructor.
Qed.

(** ** The loop *)

Lemma grouped_list groups : heap_list (grouped groups).(queue) ≡ₚ groups.
Proof.
  unfold grouped. cbn [queue]. rewrite <- (app_nil_r groups) at 2. rewrite <- heap_new_spec. generalize heap_new.
  induction groups as [|g groups IH]; intros h; cbn [foldl]; [done|].
  rewrite IH, heap_push_spec. symmetry. apply Permutation_middle.
Qed.

Lemma all_empty (groups : list Transactions) : Forall (fun g => transactions_le g [] = true) groups -> Forall (fun g => g = []) groups.
Proof. intros Hf. apply (list.Forall_impl _ _ _ Hf). by intros [|e g]. Qed.

(** [next] takes a greatest first transaction, or says that none is left. *)
Lemma next_spec s :
  match next s with
  | (None, _) => Forall (fun g => g = []) (heap_list s.(queue))
  | (Some entry, s') => exists (g : Transactions) (rest : list Transactions), heap_list s.(queue) ≡ₚ (entry :: g) :: rest /\
      Forall (fun g' => transactions_le g' (entry :: g) = true) rest /\
      ((g :: rest) ≡ₚ heap_list s'.(queue) \/ (g = [] /\ rest = heap_list s'.(queue)))
  end.
Proof.
  unfold next. pose proof (heap_pop_spec s.(queue)) as Hp. destruct (heap_pop (queue s)) as [[group q]|]; [|by rewrite Hp].
  destruct Hp as [Ep Hf]. destruct group as [|entry g].
  - rewrite Ep. constructor; [done|]. by apply all_empty.
  - exists g, (heap_list q). split; [done|]. split; [done|]. cbn [queue]. destruct g; [by right|left]. by rewrite heap_push_spec.
Qed.

Lemma drain_greedy fuel s :
  (length (concat (heap_list s.(queue))) < fuel)%nat -> exists l, drain fuel s = Some l /\ greedy (heap_list s.(queue)) l.
Proof.
  revert s. induction fuel as [|fuel IH]; intros s Hl; [lia|]. cbn [drain]. pose proof (next_spec s) as Hn.
  destruct (next s) as [[entry|] s'].
  - destruct Hn as (g & rest & Ep & Hf & Hs).
    assert (length (concat (heap_list s'.(queue))) = length (concat (g :: rest))) as El.
    { destruct Hs as [E|[-> ->]]; [by rewrite (concat_perm _ _ E)|done]. }
    rewrite (concat_perm _ _ Ep) in Hl. cbn [concat] in *. rewrite ?length_app in *. cbn [length] in Hl.
    destruct (IH s') as (l & -> & Hg); [lia|]. exists (entry :: l). split; [done|].
    apply (greedy_take _ entry g rest); [done|done|]. destruct Hs as [E|[-> ->]]; [by rewrite E|by apply greedy_nil].
  - exists []. split; [done|]. by apply greedy_end.
Qed.

(** C18: the selection is fair.  Whatever the groups, empty ones included, the
    loop over [next] ends after as many calls as there are transactions and one
    more, with any larger bound; it gives every transaction of every group once,
    each group in its own order, and each time one that pays the most among
    the first transactions left in the groups. *)
Theorem selector_drains (groups : list Transactions) (extra : nat) :
  exists l, drain (S (length (concat groups)) + extra) (grouped groups) = Some l /\ greedy groups l /\
    l ≡ₚ concat groups /\ Forall (fun g => sublist g l) groups.
Proof.
  destruct (drain_greedy (S (length (concat groups)) + extra) (grouped groups)) as (l & Hd & Hg).
  - rewrite (concat_perm _ _ (grouped_list groups)). lia.
  - rewrite grouped_list in Hg. exists l. split_and!; [done|done|by apply greedy_all|by apply greedy_sublist].
Qed.
End Selector.

(** ** An instance: the heap as a list, from which the first greatest element
    is taken. *)
Section HeapModel.
Context {A : Type} (le : A -> A -> bool).

Fixpoint pick (a : A) (l : list A) : A * list A :=
  match l with
  | [] => (a, [])
  | b :: l => if le b a then let '(m, r) := pick a l in (m, b :: r) else let '(m, r) := pick b l in (m, a :: r)
  end.

Context (le_refl : forall a, le a a = true) (le_trans : forall a b c, le a b = true -> le b c = true -> le a c = true).
Context (le_total : forall a b, le a b = true \/ le b a = true).

Lemma pick_spec a l : a :: l ≡ₚ (pick a l).1 :: (pick a l).2 /\ le a (pick a l).1 = true /\
  Forall (fun b => le b (pick a l).1 = true) (pick a l).2.
Proof using le_refl le_trans le_total.
  revert a. induction l as [|b l IH]; intros a; cbn [pick]; [by split_and!|]. destruct (le b a) eqn:Hb.
  - destruct (IH a) as (E & Ha & Hf). destruct (pick a l) as [m r]. cbn [fst snd] in *.
    split_and!; [|done|constructor; [by eapply le_trans|done]].
    rewrite (Permutation_swap b a l), E. apply Permutation_swap.
  - destruct (IH b) as (E & Ha & Hf). destruct (pick b l) as [m r]. cbn [fst snd] in *.
    assert (le a m = true) as Ham by (destruct (le_total a b) as [Hab|Hba]; [exact (le_trans a b m Hab Ha)|congruence]).
    split_and!; [|done|by constructor]. rewrite E. apply Permutation_swap.
Qed.

Program Definition heap_model : BinaryHeapLib A le := {|
  heap := list A;
  heap_list l := l;
  heap_new := [];
  heap_push a l := a :: l;
  heap_pop l := match l with [] => None | a :: l => Some (pick a l) end;
|}.
Next Obligation. done. Qed.
Next Obligation. done. Qed.
Next Obligation.
  intros [|a l]; [done|]. destruct (pick_spec a l) as (E & _ & Hf). cbn. destruct (pick a l) as [m r]. exact (conj E Hf).
Qed.
End HeapModel.

Section TransactionsModel.
Context {CV : Curve} {ML : Merlin} {RP : RangeProofLib}.
Lemma option_le_refl a : option_le a a = true.
Proof. destruct a; [apply Z.leb_refl|done]. Qed.
Lemma option_le_trans a b c : option_le a b = true -> option_le b c = true -> option_le a c = true.
Proof. destruct a, b, c; cbn; try done. rewrite !Z.leb_le. lia. Qed.
Lemma option_le_total a b : option_le a b = true \/ option_le b a = true.
Proof. destruct a as [x|], b as [y|]; cbn; auto. rewrite !Z.leb_le. lia. Qed.
Definition transactions_heap : BinaryHeapLib Transactions transactions_le :=
  heap_model transactions_le (fun a => option_le_refl (front_fee a))
    (fun a b c => option_le_trans (front_fee a) (front_fee b) (front_fee c))
    (fun a b => option_le_total (front_fee a) (front_fee b)).
End TransactionsModel.
