(* ===== verification/Mempool.v ===== *)
(** The pool of pending transactions ([core/mempool.rs]), the state they are
    verified on ([core/state/mempool_state.rs]) and their entry
    ([add_tx_to_mempool_with_storage_and_hash] of [core/blockchain.rs]).

    A sender has a cache with the hashes of its transactions, in the order of
    their nonces, and the bounds of these nonces: the place of a nonce in the
    list is computed from the bounds.  [mempool_wf] says when that is right. *)

From S2P Require Import Prelude External ExternalModel ExternalCrypto Serializer Hash Defaults Elgamal Proofs Transaction Verify Errors Account Versions Storage ClientProtocol Providers Emission Reference BlockCheck.

Section Mempool.
Context {CV : Curve} {ML : Merlin} {RP : RangeProofLib} {HM : HashMapIter} {IS : IndexSetLib Hash}.
Context {S : Type} {SP : Storage S} {CP : ClientProtocolProvider S}.

Record SortedTx := mkSortedTx { st_tx : Transaction; first_seen : Z; st_size : nat }.

Record AccountCache := mkCache {
  ac_min : Z;
  ac_max : Z;
  ac_txs : iset Hash;
  ac_balances : gmap Hash Ciphertext;
}.

Record Mempool := mkMempool {
  mp_mainnet : bool;
  mp_txs : gmap Hash SortedTx;
  mp_caches : gmap CompressedPublicKey AccountCache;
}.
Definition mempool_new (mainnet : bool) : Mempool := mkMempool mainnet ∅ ∅.

Definition with_txs txs (m : Mempool) : Mempool := mkMempool m.(mp_mainnet) txs m.(mp_caches).
Definition with_caches caches (m : Mempool) : Mempool := mkMempool m.(mp_mainnet) m.(mp_txs) caches.

Definition get_next_nonce (c : AccountCache) : Z := u64_add c.(ac_max) 1.
Definition set_balances balances (c : AccountCache) : AccountCache := mkCache c.(ac_min) c.(ac_max) c.(ac_txs) balances.
Definition set_bounds (min max : Z) (c : AccountCache) : AccountCache := mkCache min max c.(ac_txs) c.(ac_balances).
Definition set_txs txs (c : AccountCache) : AccountCache := mkCache c.(ac_min) c.(ac_max) txs c.(ac_balances).
Definition update_nonce_range (nonce : Z) (c : AccountCache) : AccountCache :=
  set_bounds (if nonce <? c.(ac_min) then nonce else c.(ac_min)) (if c.(ac_max) <? nonce then nonce else c.(ac_max)) c.
Definition update (nonce : Z) (hash : Hash) (c : AccountCache) : AccountCache :=
  let c := update_nonce_range nonce c in set_txs (iset_insert hash c.(ac_txs)).2 c.

(** [(nonce - min) % (max + 1 - min)]: the remainder by zero panics. *)
Definition nonce_index (nonce : Z) (c : AccountCache) : bres nat :=
  let count := u64_sub (u64_add c.(ac_max) 1) c.(ac_min) in
  if count =? 0 then Panic else Ok (Z.to_nat (u64_sub nonce c.(ac_min) mod count)).
Definition has_tx_with_same_nonce (nonce : Z) (c : AccountCache) : bres (option Hash) :=
  if (nonce <? c.(ac_min)) || (c.(ac_max) <? nonce) || iset_is_empty c.(ac_txs) then Ok None
  else
    index ← nonce_index nonce c;
    Ok (iset_get_index index c.(ac_txs)).

(** ** The state of the verification *)

Record MempoolAccount := mkMAccount { ma_nonce : Z; ma_assets : gmap Hash Ciphertext }.
Record MempoolState := mkMState {
  ms_mempool : Mempool;
  ms_storage : S;
  ms_receivers : gmap CompressedPublicKey (gmap Hash Ciphertext);
  ms_accounts : gmap CompressedPublicKey MempoolAccount;
  ms_topoheight : Z;
}.
Definition mempool_state_new (mempool : Mempool) (storage : S) (topoheight : Z) : MempoolState :=
  mkMState mempool storage ∅ ∅ topoheight.
Definition put_maccount (key : CompressedPublicKey) (a : MempoolAccount) (s : MempoolState) : MempoolState :=
  mkMState s.(ms_mempool) s.(ms_storage) s.(ms_receivers) (<[key := a]> s.(ms_accounts)) s.(ms_topoheight).
Definition put_received (key : CompressedPublicKey) (m : gmap Hash Ciphertext) (s : MempoolState) : MempoolState :=
  mkMState s.(ms_mempool) s.(ms_storage) (<[key := m]> s.(ms_receivers)) s.(ms_accounts) s.(ms_topoheight).

(** The account is removed from the state and its assets returned. *)
Definition get_sender_balances (key : CompressedPublicKey) (s : MempoolState) : option (gmap Hash Ciphertext) :=
  ma_assets <$> s.(ms_accounts) !! key.

Definition take_final (v : VersionedBalance) : bres Ciphertext :=
  map_err BlockchainError.DecompressionError (take_ciphertext v.(final_balance)).

Definition m_receiver_balance (account : CompressedPublicKey) (asset : Hash) : stm MempoolState blockchain_error Ciphertext :=
  _ ← st_modify (fun s => put_received account (default ∅ (s.(ms_receivers) !! account)) s);
  s ← st_get;
  let balances := default ∅ (s.(ms_receivers) !! account) in
  match balances !! asset with
  | Some ct => mret ct
  | None =>
      version ← lift_res (get_new_versioned_balance s.(ms_storage) account asset s.(ms_topoheight));
      ct ← lift_res (take_final version);
      _ ← st_modify (put_received account (<[asset := ct]> balances));
      mret ct
  end.
Definition m_set_receiver_balance (account : CompressedPublicKey) (asset : Hash) (ct : Ciphertext) (s : MempoolState) : MempoolState :=
  put_received account (<[asset := ct]> (default ∅ (s.(ms_receivers) !! account))) s.

Definition get_versioned_balance_for_reference (storage : S) (key : CompressedPublicKey) (asset : Hash)
    (current_topoheight : Z) (reference : Reference) : bres Ciphertext :=
  '(output, _, version) ← search_versioned_balance_for_reference storage key asset current_topoheight reference;
  map_err BlockchainError.DecompressionError (take_ciphertext (take_balance_with output version)).

(** The nonce of an account in the storage, zero when it has none. *)
Definition stored_nonce_or_zero (storage : S) (key : CompressedPublicKey) (topoheight : Z) : bres Z :=
  found ← get_nonce_at_maximum_topoheight storage key topoheight;
  Ok (match found with Some (_, v) => v.(vn_nonce) | None => 0 end).

Definition m_sender_balance (key : CompressedPublicKey) (asset : Hash) (reference : Reference)
  : stm MempoolState blockchain_error Ciphertext :=
  s ← st_get;
  match s.(ms_accounts) !! key with
  | Some account =>
      match account.(ma_assets) !! asset with
      | Some ct => mret ct
      | None =>
          ct ← lift_res match s.(ms_mempool).(mp_caches) !! key ≫= (fun cache => cache.(ac_balances) !! asset) with
                        | Some version => Ok version
                        | None => get_versioned_balance_for_reference s.(ms_storage) key asset s.(ms_topoheight) reference
                        end;
          _ ← st_modify (put_maccount key (mkMAccount account.(ma_nonce) (<[asset := ct]> account.(ma_assets))));
          mret ct
      end
  | None =>
      nonce ← lift_res (stored_nonce_or_zero s.(ms_storage) key s.(ms_topoheight));
      _ ← st_modify (put_maccount key (mkMAccount nonce ∅));
      version ← lift_res (get_new_versioned_balance s.(ms_storage) key asset s.(ms_topoheight));
      ct ← lift_res (take_final version);
      _ ← st_modify (put_maccount key (mkMAccount nonce {[asset := ct]}));
      mret ct
  end.
Definition m_set_sender_balance (key : CompressedPublicKey) (asset : Hash) (ct : Ciphertext) (s : MempoolState) : MempoolState :=
  match s.(ms_accounts) !! key with
  | Some account => put_maccount key (mkMAccount account.(ma_nonce) (<[asset := ct]> account.(ma_assets))) s
  | None => s
  end.

Definition m_account_nonce (key : CompressedPublicKey) : stm MempoolState blockchain_error Z :=
  s ← st_get;
  match s.(ms_accounts) !! key with
  | Some account => mret account.(ma_nonce)
  | None =>
      match s.(ms_mempool).(mp_caches) !! key with
      | Some cache => mret (get_next_nonce cache)
      | None =>
          nonce ← lift_res (stored_nonce_or_zero s.(ms_storage) key s.(ms_topoheight));
          _ ← st_modify (put_maccount key (mkMAccount nonce ∅));
          mret nonce
      end
  end.
Definition m_update_account_nonce (key : CompressedPublicKey) (new_nonce : Z) : stm MempoolState blockchain_error () :=
  st_modify (fun s =>
    put_maccount key (mkMAccount new_nonce (from_option ma_assets ∅ (s.(ms_accounts) !! key))) s).

Definition m_pre_verify_tx (tx : Transaction) : stm MempoolState blockchain_error () :=
  if negb (tx.(version) =? 0) then st_err BlockchainError.InvalidTxVersion
  else
    s ← st_get;
    required_fees ← lift_res (estimate_required_tx_fees s.(ms_storage) s.(ms_topoheight) tx);
    if tx.(fee) <? required_fees then st_err (BlockchainError.InvalidTxFee required_fees tx.(fee))
    else if s.(ms_topoheight) <? tx.(reference).(ref_topoheight)
    then st_err BlockchainError.InvalidReferenceTopoheight
    else mret tt.

#[export] Instance mempool_verification : BlockchainVerificationState MempoolState blockchain_error := {|
  pre_verify_tx := m_pre_verify_tx;
  get_receiver_balance := m_receiver_balance;
  set_receiver_balance := m_set_receiver_balance;
  get_sender_balance := m_sender_balance;
  set_sender_balance := m_set_sender_balance;
  add_sender_output _ _ _ := mret tt;
  get_account_nonce := m_account_nonce;
  update_account_nonce := m_update_account_nonce;
|}.

(** ** The pool *)

Definition contains_tx (hash : Hash) (m : Mempool) : bool := bool_decide (is_Some (m.(mp_txs) !! hash)).
Definition get_sorted_tx (hash : Hash) (m : Mempool) : bres SortedTx :=
  ok_or (m.(mp_txs) !! hash) (BlockchainError.TxNotFound hash).
Definition is_nonce_used (key : CompressedPublicKey) (nonce : Z) (m : Mempool) : bres bool :=
  match m.(mp_caches) !! key with
  | Some cache =>
      if (cache.(ac_min) <=? nonce) && (nonce <=? cache.(ac_max)) then
        found ← has_tx_with_same_nonce nonce cache;
        Ok (match found with Some _ => true | None => false end)
      else Ok false
  | None => Ok false
  end.
Definition mempool_size (m : Mempool) : nat := base.size m.(mp_txs).
Definition clear (m : Mempool) : Mempool := mkMempool m.(mp_mainnet) ∅ ∅.

(** The randomness of the proofs, and the clock. *)
Context (rnd : nat -> scalar) (now : Z).

(** A transaction with a nonce already in the cache takes the place of the one
    that has it. *)
Definition replace_tx (nonce : Z) (hash : Hash) (cache : AccountCache) (txs : gmap Hash SortedTx)
  : bres (AccountCache * gmap Hash SortedTx) :=
  index ← nonce_index nonce cache;
  let '(old, hashes) := iset_swap_remove_index index (iset_insert hash cache.(ac_txs)).2 in
  Ok (set_txs hashes cache, match old with Some tx_hash => delete tx_hash txs | None => txs end).

Definition add_tx (storage : S) (topoheight : Z) (hash : Hash) (tx : Transaction) (size : nat)
  : stm Mempool blockchain_error () :=
  m ← st_get;
  let '(verified, state) := verify tx rnd (mempool_state_new m storage topoheight) in
  _ ← lift_res (map_err from_verification_error verified);
  balances ← lift_res (ok_or (get_sender_balances tx.(source) state)
                         (BlockchainError.AccountNotFound (as_address tx.(source) (is_mainnet storage))));
  '(cache, txs) ← lift_res match m.(mp_caches) !! tx.(source) with
                           | Some cache =>
                               '(cache, txs) ← (if (cache.(ac_min) <=? tx.(nonce)) && (tx.(nonce) <=? cache.(ac_max))
                                                then replace_tx tx.(nonce) hash cache m.(mp_txs)
                                                else Ok (update tx.(nonce) hash cache, m.(mp_txs)));
                               Ok (set_balances balances cache, txs)
                           | None => Ok (mkCache tx.(nonce) tx.(nonce) (iset_insert hash iset_new).2 balances, m.(mp_txs))
                           end;
  st_modify (fun m => mkMempool m.(mp_mainnet) (<[hash := mkSortedTx tx now size]> txs) (<[tx.(source) := cache]> m.(mp_caches))).

(** The lowest and the highest nonce seen. *)
Definition widen (nonce : Z) (b : option Z * option Z) : option Z * option Z :=
  let '(min, max) := b in
  (Some (match min with Some v => if nonce <? v then nonce else v | None => nonce end),
   Some (match max with Some v => if v <? nonce then nonce else v | None => nonce end)).
Definition apply_bounds (b : option Z * option Z) (c : AccountCache) : AccountCache :=
  match b with (Some min, Some max) => set_bounds min max c | _ => c end.

Definition remove_tx (hash : Hash) : stm Mempool blockchain_error () :=
  m ← st_get;
  tx ← lift_res (get_sorted_tx hash m);
  _ ← st_modify (fun m => with_txs (delete hash m.(mp_txs)) m);
  let key := tx.(st_tx).(source) in
  match m.(mp_caches) !! key with
  | None => mret tt
  | Some cache =>
      let '(removed, hashes) := iset_shift_remove hash cache.(ac_txs) in
      let cache := set_txs hashes cache in
      let put (cache : AccountCache) := st_modify (fun m => with_caches (<[key := cache]> m.(mp_caches)) m) in
      _ ← put cache;
      if negb removed then mret tt
      else if iset_is_empty hashes then st_modify (fun m => with_caches (delete key m.(mp_caches)) m)
      else
        m ← st_get;
        bounds ← lift_res (foldM (fun b tx_hash =>
          tx ← ok_or (m.(mp_txs) !! tx_hash) (BlockchainError.TxNotFound hash);
          Ok (widen tx.(st_tx).(nonce) b)) (None, None) (iset_list hashes));
        put (apply_bounds bounds cache)
  end.

(** ** Cleaning after a block *)

(** Each account is verified with a randomness of its own. *)
Context (rnds : CompressedPublicKey -> nat -> scalar).

(** Transactions that are there leave the pool. *)
Definition take_out (hashes : list Hash) : stm Mempool blockchain_error (list (Hash * SortedTx)) :=
  foldMs (fun deleted hash =>
    m ← st_get;
    match m.(mp_txs) !! hash with
    | Some sorted_tx => _ ← st_modify (fun m => with_txs (delete hash m.(mp_txs)) m); mret (deleted ++ [(hash, sorted_tx)])
    | None => mret deleted
    end) [] hashes.

(** A transaction of the pool with a nonce that is still to come. *)
Definition still_pending (m : Mempool) (nonce : Z) (hash : Hash) : bool :=
  match m.(mp_txs) !! hash with Some tx => nonce <=? tx.(st_tx).(Transaction.nonce) | None => false end.
Definition pending_nonce (m : Mempool) (hash : Hash) : Z :=
  match m.(mp_txs) !! hash with Some tx => tx.(st_tx).(nonce) | None => 0 end.

(** The transactions left are verified together: the cache with the balances
    after them, or nothing when the cache is to be deleted. *)
Definition check_left (storage : S) (topoheight : Z) (m : Mempool) (key : CompressedPublicKey) (cache : AccountCache)
  : bres (option AccountCache) :=
  if iset_is_empty cache.(ac_txs) then Ok None
  else
    match mapM (fun hash => m.(mp_txs) !! hash) (iset_list cache.(ac_txs)) with
    | None => Ok None
    | Some txs =>
        match verify_batch (st_tx <$> txs) (rnds key) (mempool_state_new m storage topoheight) with
        | (Ok _, state) =>
            Ok (Some (match get_sender_balances key state with
                      | Some balances => set_balances balances cache
                      | None => cache
                      end))
        | (Err _, _) => Ok None
        | (Panic, _) => Panic
        | (Diverge, _) => Diverge
        end
    end.

Definition clean_account (storage : S) (topoheight : Z) (key : CompressedPublicKey) (cache : AccountCache)
  : stm Mempool blockchain_error (list (Hash * SortedTx)) :=
  m ← st_get;
  last ← lift_res match get_last_nonce storage key with
                  | Ok (_, version) => Ok (Some version.(vn_nonce))
                  | Err _ => Ok None
                  | Panic => Panic
                  | Diverge => Diverge
                  end;
  match last with
  | None => take_out (iset_list cache.(ac_txs))
  | Some nonce =>
      if nonce <? cache.(ac_min) then take_out (iset_list cache.(ac_txs))
      else
        let kept := iset_retain (still_pending m nonce) cache.(ac_txs) in
        let hashes : gset Hash := list_to_set (filter (fun hash => still_pending m nonce hash = false) (iset_list cache.(ac_txs))) in
        let bounds := foldl (fun b hash => widen (pending_nonce m hash) b) (None, None) (iset_list kept) in
        let cache := apply_bounds bounds (set_txs kept cache) in
        checked ← lift_res (check_left storage topoheight m key cache);
        match checked with
        | Some cache =>
            deleted ← take_out (hs_iter hashes);
            _ ← st_modify (fun m => with_caches (<[key := cache]> m.(mp_caches)) m);
            mret deleted
        | None => take_out (hs_iter (hashes ∪ list_to_set (iset_list kept)))
        end
  end.

Definition clean_up (storage : S) (topoheight : Z) : stm Mempool blockchain_error (list (Hash * SortedTx)) :=
  m ← st_get;
  let caches := m.(mp_caches) in
  _ ← st_modify (with_caches ∅);
  foldMs (fun deleted '(key, cache) =>
    gone ← clean_account storage topoheight key cache;
    mret (deleted ++ gone)) [] (hm_iter caches).

(** ** The entry of a transaction *)

Definition check_nonce_range (tx : Transaction) (m : Mempool) : bres () :=
  match m.(mp_caches) !! tx.(source) with
  | None => Ok tt
  | Some cache =>
      used ← has_tx_with_same_nonce tx.(nonce) cache;
      match used with
      | Some hash => Err (BlockchainError.TxNonceAlreadyUsed tx.(nonce) hash)
      | None =>
          reject_if (negb ((tx.(nonce) <=? u64_add cache.(ac_max) 1) && (cache.(ac_min) <=? tx.(nonce))))
            (BlockchainError.InvalidTxNonceMempoolCache tx.(nonce) cache.(ac_min) cache.(ac_max))
      end
  end.

Definition add_tx_to_mempool (storage : S) (current_topoheight : Z) (tx : Transaction) (hash : Hash)
  : stm Mempool blockchain_error () :=
  let tx_size := size tx in
  _ ← lift_res (reject_if (MAX_TRANSACTION_SIZE <? tx_size)%nat
        (BlockchainError.TxTooBig (Z.of_nat tx_size) (Z.of_nat MAX_TRANSACTION_SIZE)));
  m ← st_get;
  _ ← lift_res (reject_if (contains_tx hash m) (BlockchainError.TxAlreadyInMempool hash));
  executed ← lift_res (is_tx_executed_in_a_block storage hash);
  _ ← lift_res (reject_if executed (BlockchainError.TxAlreadyInBlockchain hash));
  _ ← lift_res (check_nonce_range tx m);
  add_tx storage current_topoheight hash tx tx_size.
End Mempool.
