(* ===== verification/MempoolFacts.v ===== *)
(** The pool of pending transactions stays consistent.

    [mempool_wf]: each sender has transactions with consecutive nonces, listed
    in their order, and the pool holds exactly the transactions of the lists.
    Then the place of a nonce computed from the bounds is right.  Entering a
    transaction and cleaning after a block keep it; taking one transaction out
    with [remove_tx] does not. *)

From S2P Require Import Prelude External ExternalModel ExternalCrypto Serializer Hash Defaults Elgamal Proofs Transaction Verify Errors Account Versions Storage ClientProtocol Providers Emission Reference BlockCheck Mempool.

Section Facts.
Context {CV : Curve} {ML : Merlin} {RP : RangeProofLib} {HM : HashMapIter} {IS : IndexSetLib Hash}.
Context {S : Type} {SP : Storage S} {CP : ClientProtocolProvider S}.
Implicit Types (m : Mempool) (txs : gmap Hash SortedTx) (c : AccountCache).

Record cache_wf txs (key : CompressedPublicKey) c : Prop := {
  cw_nonempty : iset_list c.(ac_txs) <> [];
  cw_min : 0 <= c.(ac_min);
  cw_max : c.(ac_max) < 2 ^ 64 - 1;
  cw_length : c.(ac_max) + 1 - c.(ac_min) = Z.of_nat (length (iset_list c.(ac_txs)));
  cw_txs i h : iset_list c.(ac_txs) !! i = Some h -> exists tx, txs !! h = Some tx /\
    tx.(st_tx).(source) = key /\ tx.(st_tx).(nonce) = c.(ac_min) + Z.of_nat i;
}.

Record mempool_wf m : Prop := {
  mw_caches key c : m.(mp_caches) !! key = Some c -> cache_wf m.(mp_txs) key c;
  mw_txs h tx : m.(mp_txs) !! h = Some tx -> exists c, m.(mp_caches) !! tx.(st_tx).(source) = Some c /\ h ∈ iset_list c.(ac_txs);
}.

Lemma cache_bounds txs key c : cache_wf txs key c -> in_u 64 c.(ac_min) /\ in_u 64 c.(ac_max) /\ c.(ac_min) <= c.(ac_max).
Proof.
  intros [H1 H2 H3 H4 _]. destruct (iset_list (ac_txs c)) as [|h l]; [done|]. cbn in H4. unfold in_u. lia.
Qed.

Lemma mempool_new_wf b : mempool_wf (mempool_new b).
Proof. split; cbn; intros *; by rewrite lookup_empty. Qed.

(** ** The place of a nonce *)

Lemma nonce_index_wf txs key c nonce : cache_wf txs key c -> c.(ac_min) <= nonce <= c.(ac_max) ->
  nonce_index nonce c = Ok (Z.to_nat (nonce - c.(ac_min))).
Proof.
  intros Hw Hn. destruct (cache_bounds _ _ _ Hw) as (Hmin & Hmax & Hle). destruct Hw as [_ _ H3 _ _]. unfold in_u in *.
  unfold nonce_index. rewrite (u64_add_small (ac_max c)) by (unfold in_u; lia). rewrite !u64_sub_small by (unfold in_u; lia).
  destruct (Z.eqb_spec (ac_max c + 1 - ac_min c) 0); [lia|]. do 2 f_equal. apply Z.mod_small. lia.
Qed.

Lemma has_tx_wf txs key c nonce : cache_wf txs key c -> in_u 64 nonce ->
  exists found, has_tx_with_same_nonce nonce c = Ok found /\
    match found with
    | Some h => c.(ac_min) <= nonce <= c.(ac_max) /\ iset_list c.(ac_txs) !! Z.to_nat (nonce - c.(ac_min)) = Some h
    | None => ~ c.(ac_min) <= nonce <= c.(ac_max)
    end.
Proof.
  intros Hw Hn. unfold has_tx_with_same_nonce, iset_is_empty.
  destruct (Z.ltb_spec nonce (ac_min c)); [exists None; split; [done|lia]|].
  destruct (Z.ltb_spec (ac_max c) nonce); [exists None; split; [done|lia]|]. cbn [orb].
  rewrite (nonce_index_wf _ _ _ _ Hw) by lia. pose proof (cw_nonempty _ _ _ Hw) as Hne. pose proof (cw_length _ _ _ Hw) as Hl.
  destruct (lookup_lt_is_Some_2 (iset_list (ac_txs c)) (Z.to_nat (nonce - ac_min c))) as [h Hh]; [lia|].
  exists (Some h). destruct (iset_list (ac_txs c)) eqn:E; [done|]. cbn. unfold iset_get_index. rewrite E, Hh. split; [done|].
  split; [lia|done].
Qed.

Lemma nonce_used_run m key nonce : mempool_wf m -> in_u 64 nonce -> exists b, is_nonce_used key nonce m = Ok b /\
  (b = true <-> exists h tx, m.(mp_txs) !! h = Some tx /\ tx.(st_tx).(source) = key /\ tx.(st_tx).(Transaction.nonce) = nonce).
Proof.
  intros [Hc Ht] Hn. unfold is_nonce_used. destruct (mp_caches m !! key) as [c|] eqn:Ek.
  - pose proof (Hc _ _ Ek) as Hw. destruct (has_tx_wf _ _ _ nonce Hw Hn) as (found & Hf & Hs).
    assert ((exists h tx, m.(mp_txs) !! h = Some tx /\ tx.(st_tx).(source) = key /\ tx.(st_tx).(Transaction.nonce) = nonce) ->
      c.(ac_min) <= nonce <= c.(ac_max)) as Hrange.
    { intros (h & tx & Hh & Hs' & En). destruct (Ht _ _ Hh) as (c' & Ec & [i Hi]%list_elem_of_lookup_1).
      rewrite Hs', Ek in Ec. injection Ec as <-. destruct (cw_txs _ _ _ Hw i h Hi) as (tx' & Htx' & _ & En').
      rewrite Hh in Htx'. injection Htx' as <-. pose proof (cw_length _ _ _ Hw). apply lookup_lt_Some in Hi. lia. }
    destruct ((ac_min c <=? nonce) && (nonce <=? ac_max c)) eqn:Eb.
    + apply andb_true_iff in Eb as [H1%Z.leb_le H2%Z.leb_le]. rewrite Hf. cbn. destruct found as [h|]; [|destruct Hs; lia].
      exists true. split; [done|]. split; [|done]. intros _. destruct Hs as [_ Hh].
      destruct (cw_txs _ _ _ Hw _ _ Hh) as (tx & Htx & Hk & En). exists h, tx. split_and!; [done|done|lia].
    + exists false. split; [done|]. split; [done|]. intros Hex%Hrange. apply andb_false_iff in Eb as [Eb%Z.leb_gt|Eb%Z.leb_gt]; lia.
  - exists false. split; [done|]. split; [done|]. intros (h & tx & Hh & Hs & _). destruct (Ht _ _ Hh) as (c & Ec & _). congruence.
Qed.

(** ** A transaction enters *)

(** The nonce the next transaction of an account must have. *)
Definition expected_nonce (storage : S) (topoheight : Z) m (key : CompressedPublicKey) : bres Z :=
  match m.(mp_caches) !! key with
  | Some c => Ok (get_next_nonce c)
  | None => stored_nonce_or_zero storage key topoheight
  end.

Lemma m_pre_verify_state tx s u s' : m_pre_verify_tx tx s = (Ok u, s') -> s' = s.
Proof.
  unfold m_pre_verify_tx. destruct (negb _); [done|]. intros (s1 & s2 & [= <- <-] & (f & s3 & [= _ <-] & Hr)%stm_bind_ok)%stm_bind_ok.
  destruct (_ <? _); [done|]. destruct (_ <? _); [done|]. by injection Hr as _ <-.
Qed.

Lemma st_map_err_ok {St E F A} (f : E -> F) (m : stm St E A) s a s' : st_map_err f m s = (Ok a, s') -> m s = (Ok a, s').
Proof. unfold st_map_err. destruct (m s) as [[]]; cbn; congruence. Qed.

(** A verified transaction has the expected nonce. *)
Lemma verified_nonce rnd storage topoheight m tx r s' :
  verify tx rnd (mempool_state_new m storage topoheight) = (Ok r, s') ->
  expected_nonce storage topoheight m tx.(source) = Ok tx.(nonce).
Proof.
  unfold verify. intros (x & s1 & Hp & _)%stm_bind_ok. unfold pre_verify in Hp.
  apply stm_bind_ok in Hp as (u & s2 & Hpre%st_map_err_ok & Hp). apply m_pre_verify_state in Hpre as ->.
  apply stm_bind_ok in Hp as (n & s3 & Hn%st_map_err_ok & Hp). destruct (Z.eqb_spec n tx.(nonce)) as [->|]; [|done]. clear Hp.
  cbn [get_account_nonce mempool_verification] in Hn. unfold m_account_nonce in Hn.
  apply stm_bind_ok in Hn as (s4 & s5 & [= <- <-] & Hn). cbn [ms_accounts ms_mempool mempool_state_new] in Hn.
  rewrite lookup_empty in Hn. unfold expected_nonce. destruct (mp_caches m !! source tx); [by injection Hn as -> _|].
  apply stm_bind_ok in Hn as (n & s6 & [= Hst <-] & (u2 & s7 & _ & [= -> _])%stm_bind_ok). exact Hst.
Qed.

(** What the pool knows of other transactions is kept when one is added. *)
Lemma cache_wf_insert txs key c hash tx : txs !! hash = None -> cache_wf txs key c -> cache_wf (<[hash := tx]> txs) key c.
Proof.
  intros Hh [H1 H2 H3 H4 H5]. split; try done. intros i h Hi. destruct (H5 i h Hi) as (tx' & Htx & Hr). exists tx'.
  rewrite lookup_insert_ne by congruence. done.
Qed.

Lemma cache_snoc txs key c hash tx balances :
  txs !! hash = None -> cache_wf txs key c -> tx.(st_tx).(source) = key -> tx.(st_tx).(nonce) = c.(ac_max) + 1 ->
  tx.(st_tx).(nonce) < 2 ^ 64 - 1 ->
  let c' := set_balances balances (update tx.(st_tx).(nonce) hash c) in
  cache_wf (<[hash := tx]> txs) key c' /\ iset_list c'.(ac_txs) = iset_list c.(ac_txs) ++ [hash].
Proof.
  intros Hh Hw Hk Hn Hu c'. destruct (cache_bounds _ _ _ Hw) as (Hmin & Hmax & Hle). destruct Hw as [H1 H2 H3 H4 H5].
  assert (iset_list c'.(ac_txs) = iset_list c.(ac_txs) ++ [hash]) as El.
  { cbn. destruct (iset_insert_spec hash (ac_txs c)) as [_ ->]. rewrite decide_False; [done|].
    intros [i Hi]%list_elem_of_lookup_1. destruct (H5 i hash Hi) as (tx' & Htx & _). congruence. }
  split; [|exact El]. assert (c'.(ac_min) = c.(ac_min) /\ c'.(ac_max) = tx.(st_tx).(nonce)) as [Emin Emax].
  { cbn. rewrite Hn. destruct (Z.ltb_spec (ac_max c + 1) (ac_min c)); [lia|]. destruct (Z.ltb_spec (ac_max c) (ac_max c + 1)); [done|lia]. }
  split; rewrite ?El, ?Emin, ?Emax; [by destruct (iset_list (ac_txs c))|done|done|rewrite length_app; cbn; lia|].
  intros i h Hi. apply lookup_app_Some in Hi as [Hi|[Hge Hi]].
  - destruct (H5 i h Hi) as (tx' & Htx & Hr). exists tx'. rewrite lookup_insert_ne by congruence. done.
  - apply list_lookup_singleton_Some in Hi as [Hi <-]. exists tx. rewrite lookup_insert_eq. split_and!; [done|done|].
    rewrite Hn. lia.
Qed.

Lemma cache_single hash tx balances txs :
  0 <= tx.(st_tx).(nonce) < 2 ^ 64 - 1 ->
  let c := mkCache tx.(st_tx).(nonce) tx.(st_tx).(nonce) (iset_insert hash iset_new).2 balances in
  cache_wf (<[hash := tx]> txs) tx.(st_tx).(source) c /\ iset_list c.(ac_txs) = [hash].
Proof.
  intros Hn c. assert (iset_list c.(ac_txs) = [hash]) as El.
  { cbn. destruct (iset_insert_spec hash iset_new) as [_ ->]. rewrite iset_new_spec. by rewrite decide_False by apply not_elem_of_nil. }
  split; [|done]. split; rewrite ?El; cbn [ac_min ac_max c length]; [done|lia|lia|lia|].
  intros i h Hi. apply list_lookup_singleton_Some in Hi as [-> <-]. exists tx. rewrite lookup_insert_eq. split_and!; [done|done|lia].
Qed.

Context (rnd : nat -> scalar) (now : Z).

(** [expected_nonce] is one more than the nonces of the cache: the branch that
    replaces a transaction is not taken. *)
Lemma add_tx_run storage topoheight hash tx size m m' :
  mempool_wf m -> m.(mp_txs) !! hash = None -> 0 <= tx.(nonce) < 2 ^ 64 - 1 ->
  add_tx rnd now storage topoheight hash tx size m = (Ok tt, m') ->
  mempool_wf m' /\ m'.(mp_txs) = <[hash := mkSortedTx tx now size]> m.(mp_txs) /\
  expected_nonce storage topoheight m tx.(source) = Ok tx.(nonce).
Proof.
  intros [Hc Ht] Hh Hu. unfold add_tx. intros (m0 & m1 & [= <- <-] & Hr)%stm_bind_ok.
  destruct (verify tx rnd (mempool_state_new m storage topoheight)) as [verified state] eqn:Hv.
  apply stm_bind_ok in Hr as (u & m1 & [= Hok <-] & Hr). destruct verified as [[]| | |]; [|done..]. apply verified_nonce in Hv as Hn.
  apply stm_bind_ok in Hr as (balances & m1 & [= _ <-] & Hr). apply stm_bind_ok in Hr as ([cache txs] & m1 & [= Hcache <-] & [= <-]).
  set (sorted := mkSortedTx tx now size).
  assert (cache_wf (<[hash := sorted]> m.(mp_txs)) tx.(source) cache /\ txs = m.(mp_txs) /\ hash ∈ iset_list cache.(ac_txs) /\
    forall c h, m.(mp_caches) !! tx.(source) = Some c -> h ∈ iset_list c.(ac_txs) -> h ∈ iset_list cache.(ac_txs)) as (Hw & -> & Hin & Hsub).
  { unfold expected_nonce in Hn. destruct (mp_caches m !! source tx) as [c|] eqn:Ec.
    - pose proof (Hc _ _ Ec) as Hcw. destruct (cache_bounds _ _ _ Hcw) as (Hmin & Hmax & Hle). pose proof (cw_max _ _ _ Hcw).
      injection Hn as Hn. unfold get_next_nonce in Hn. rewrite u64_add_small in Hn by (unfold in_u in *; lia).
      destruct (Z.leb_spec (nonce tx) (ac_max c)); [lia|]. rewrite andb_false_r in Hcache. injection Hcache as <- <-.
      destruct (cache_snoc m.(mp_txs) tx.(source) c hash sorted balances Hh Hcw eq_refl) as [Hw El]; [cbn; lia|cbn; lia|].
      cbn [st_tx sorted] in *. split_and!; [done|done| |].
      + rewrite El. apply list.elem_of_app. right. left.
      + intros c' h [= <-] Hin. rewrite El. apply list.elem_of_app. by left.
    - injection Hcache as <- <-. destruct (cache_single hash sorted balances m.(mp_txs)) as [Hw El]; [cbn; lia|].
      cbn [st_tx sorted] in *. split_and!; [done|done|rewrite El; left|done]. }
  split_and!; [|done|done]. split; cbn [mp_caches mp_txs].
  - intros key c [[<- <-]|[Hne Hk]]%lookup_insert_Some; [done|]. by apply cache_wf_insert, Hc.
  - intros h tx' [[<- <-]|[Hne Hk]]%lookup_insert_Some.
    + exists cache. cbn. by rewrite lookup_insert_eq.
    + destruct (Ht _ _ Hk) as (c & Ec & Hhc). destruct (decide (tx.(source) = tx'.(st_tx).(source))) as [E|E].
      * exists cache. rewrite <- E in Ec |- *. rewrite lookup_insert_eq. split; [done|]. by eapply Hsub.
      * exists c. by rewrite lookup_insert_ne.
Qed.

(** ** What fails leaves the pool as it is *)

Definition keeps_on_error {St E A} (f : stm St E A) : Prop :=
  forall s r s', f s = (r, s') -> s' = s \/ exists a, r = Ok a.

Lemma keeps_lift {St E A B} (r : res E A) (f : A -> stm St E B) :
  (forall a, r = Ok a -> keeps_on_error (f a)) -> keeps_on_error (lift_res r ≫= f).
Proof. intros Hf s r' s' Hr. unfold mbind, stm_bind, lift_res in Hr. destruct r; [by eapply Hf|by left; congruence..]. Qed.
Lemma lift_bind_ok {St E A B} (r : res E A) (f : A -> stm St E B) s b s' :
  (lift_res r ≫= f) s = (Ok b, s') -> exists a, r = Ok a /\ f a s = (Ok b, s').
Proof. unfold mbind, stm_bind, lift_res. destruct r as [a| | |]; [eauto|congruence..]. Qed.
Lemma keeps_get {St E B} (f : St -> stm St E B) : (forall a, keeps_on_error (f a)) -> keeps_on_error (st_get ≫= f).
Proof. intros Hf s r s'. exact (Hf s s r s'). Qed.
Lemma keeps_modify {St E} (f : St -> St) : keeps_on_error (st_modify (E:=E) f).
Proof. intros s r s' [= <- <-]. eauto. Qed.

Lemma pool_add_keeps storage topoheight hash tx size : keeps_on_error (add_tx rnd now storage topoheight hash tx size).
Proof.
  unfold add_tx. apply keeps_get. intros m. destruct (verify _ _ _) as [verified state].
  apply keeps_lift. intros u _. apply keeps_lift. intros b _. apply keeps_lift. intros [cache txs] _. apply keeps_modify.
Qed.
Lemma entry_keeps storage topoheight tx hash : keeps_on_error (add_tx_to_mempool rnd now storage topoheight tx hash).
Proof.
  unfold add_tx_to_mempool. apply keeps_lift. intros u _. apply keeps_get. intros m.
  do 4 (apply keeps_lift; intros ? _). apply pool_add_keeps.
Qed.

(** The checks before [add_tx]. *)
Lemma entry_ok storage topoheight tx hash m m' : add_tx_to_mempool rnd now storage topoheight tx hash m = (Ok tt, m') ->
  (MAX_TRANSACTION_SIZE <? size tx)%nat = false /\ contains_tx hash m = false /\
  is_tx_executed_in_a_block storage hash = Ok false /\ add_tx rnd now storage topoheight hash tx (size tx) m = (Ok tt, m').
Proof.
  unfold add_tx_to_mempool. generalize MAX_TRANSACTION_SIZE. intros limit Hr. apply lift_bind_ok in Hr as (u1 & Hsize%reject_if_ok & Hr).
  apply stm_bind_ok in Hr as (s2 & s3 & [= <- <-] & Hr). apply lift_bind_ok in Hr as (u2 & Hin%reject_if_ok & Hr).
  apply lift_bind_ok in Hr as (executed & Hexec & Hr). apply lift_bind_ok in Hr as (u3 & ->%reject_if_ok & Hr).
  apply lift_bind_ok in Hr as (u4 & _ & Hr). split_and!; done.
Qed.

(** Nobody of the pool has the nonce that is expected. *)
Lemma expected_free storage topoheight m key n : mempool_wf m -> expected_nonce storage topoheight m key = Ok n ->
  forall h tx, m.(mp_txs) !! h = Some tx -> tx.(st_tx).(source) = key -> tx.(st_tx).(Transaction.nonce) < n.
Proof.
  intros [Hc Ht] Hn h tx Hh Hs. destruct (Ht h tx Hh) as (c & Ec & [i Hi]%list_elem_of_lookup_1). rewrite Hs in Ec.
  pose proof (Hc _ _ Ec) as Hw. destruct (cw_txs _ _ _ Hw _ _ Hi) as (tx' & Htx' & _ & En). rewrite Hh in Htx'. injection Htx' as <-.
  destruct (cache_bounds _ _ _ Hw) as (Hmin & Hmax & Hle). pose proof (cw_max _ _ _ Hw). pose proof (cw_length _ _ _ Hw) as Hl.
  apply lookup_lt_Some in Hi. unfold expected_nonce in Hn. rewrite Ec in Hn. injection Hn as <-. unfold get_next_nonce.
  rewrite u64_add_small by (unfold in_u in *; lia). lia.
Qed.

Lemma entry_run storage topoheight tx hash m r m' :
  mempool_wf m -> 0 <= tx.(nonce) < 2 ^ 64 - 1 ->
  add_tx_to_mempool rnd now storage topoheight tx hash m = (r, m') ->
  mempool_wf m' /\
  match r with
  | Ok _ => m'.(mp_txs) = <[hash := mkSortedTx tx now (size tx)]> m.(mp_txs) /\
      contains_tx hash m = false /\ is_tx_executed_in_a_block storage hash = Ok false /\ (size tx <= MAX_TRANSACTION_SIZE)%nat /\
      expected_nonce storage topoheight m tx.(source) = Ok tx.(nonce) /\
      (forall h other, m.(mp_txs) !! h = Some other -> other.(st_tx).(source) = tx.(source) -> other.(st_tx).(nonce) < tx.(nonce))
  | _ => m' = m
  end.
Proof.
  intros Hw Hn Hr. destruct r as [[]| | |].
  2-4: by destruct (entry_keeps storage topoheight tx hash m _ m' Hr) as [->|[? ?]].
  apply entry_ok in Hr as (Hsize & Hin & Hexec & Hr).
  assert (m.(mp_txs) !! hash = None) as Hnone.
  { apply bool_decide_eq_false in Hin. by destruct (mp_txs m !! hash); [destruct Hin; eauto|]. }
  destruct (add_tx_run storage topoheight hash tx (size tx) m m' Hw Hnone Hn Hr) as (Hw' & Et & He). split; [done|].
  split_and!; [done..| |done|by apply (expected_free storage topoheight)]. exact (proj1 (Nat.ltb_ge _ _) Hsize).
Qed.

(** In short: the pool is as before, or has one transaction more. *)
Lemma entry_settled storage topoheight tx hash m r m' :
  mempool_wf m -> 0 <= tx.(nonce) < 2 ^ 64 - 1 ->
  add_tx_to_mempool rnd now storage topoheight tx hash m = (r, m') ->
  mempool_wf m' /\ (m' = m \/ m'.(mp_txs) = <[hash := mkSortedTx tx now (size tx)]> m.(mp_txs)).
Proof.
  intros Hw Hn Hr. destruct (entry_keeps storage topoheight tx hash m r m' Hr) as [->|[[] ->]]; [by split; [|left]|].
  apply entry_run in Hr as [Hw' [Htxs _]]; [|done..]. split; [exact Hw'|right; exact Htxs].
Qed.

(** C14: the entry of a transaction keeps the pool consistent.
    [add_tx_to_mempool_with_storage_and_hash] on a pool whose senders have
    consecutive nonces listed in order: when it succeeds the pool still has this
    form and holds one transaction more, which has an acceptable size, was
    neither in the pool nor executed in a block, and whose nonce is the one
    expected, after all those of its sender in the pool (so the replacement of
    a transaction with the same nonce never happens); when it fails, for any
    reason, the pool is as before. *)
Theorem entry_keeps_pool storage topoheight tx hash m r m' :
  mempool_wf m -> 0 <= tx.(nonce) < 2 ^ 64 - 1 ->
  add_tx_to_mempool rnd now storage topoheight tx hash m = (r, m') ->
  mempool_wf m' /\
  match r with
  | Ok _ => m'.(mp_txs) = <[hash := mkSortedTx tx now (size tx)]> m.(mp_txs) /\
      contains_tx hash m = false /\ is_tx_executed_in_a_block storage hash = Ok false /\ (size tx <= MAX_TRANSACTION_SIZE)%nat /\
      expected_nonce storage topoheight m tx.(source) = Ok tx.(nonce) /\
      (forall h other, m.(mp_txs) !! h = Some other -> other.(st_tx).(source) = tx.(source) -> other.(st_tx).(nonce) < tx.(nonce))
  | _ => m' = m
  end.
Proof. apply entry_run. Qed.

(** The index of the nonces is exact.  In a consistent pool, [is_nonce_used]
    answers without a panic whether a transaction of the sender with the nonce
    is in the pool: the place computed from the bounds never names nothing. *)
Theorem nonce_used_exact m key nonce :
  mempool_wf m -> in_u 64 nonce -> exists b, is_nonce_used key nonce m = Ok b /\
    (b = true <-> exists h tx, m.(mp_txs) !! h = Some tx /\ tx.(st_tx).(source) = key /\ tx.(st_tx).(Transaction.nonce) = nonce).
Proof. apply nonce_used_run. Qed.
End Facts.
