(* ===== verification/MempoolClean.v ===== *)
(** Cleaning the pool after a block keeps it consistent: [clean_account] for
    one sender, and [clean_up] for all of them. *)

From S2P Require Import Prelude External ExternalModel ExternalCrypto Serializer Hash Defaults Elgamal Proofs Transaction Verify Errors Account Versions Storage ClientProtocol Providers Emission Reference BlockCheck Mempool MempoolFacts.

Section Clean.
Context {CV : Curve} {ML : Merlin} {RP : RangeProofLib} {HM : HashMapIter} {IS : IndexSetLib Hash}.
Context {S : Type} {SP : Storage S} {CP : ClientProtocolProvider S}.
Context (rnds : CompressedPublicKey -> nat -> scalar).
Implicit Types (m : Mempool) (txs : gmap Hash SortedTx) (c : AccountCache).

Lemma take_out_run hashes m : NoDup hashes -> exists d,
  take_out hashes m = (Ok d, with_txs (filter (fun p => p.1 ∉ hashes) m.(mp_txs)) m) /\
  forall h tx, (h, tx) ∈ d <-> h ∈ hashes /\ m.(mp_txs) !! h = Some tx.
Proof.
  unfold take_out. intros Hnd.
  enough (forall acc m, exists d, foldMs (fun deleted hash =>
      m ← st_get;
      match m.(mp_txs) !! hash with
      | Some sorted_tx => _ ← st_modify (fun m => with_txs (delete hash m.(mp_txs)) m); mret (deleted ++ [(hash, sorted_tx)])
      | None => mret deleted
      end) acc hashes m = (Ok (acc ++ d) : bres _, with_txs (filter (fun p => p.1 ∉ hashes) m.(mp_txs)) m) /\
    forall h tx, (h, tx) ∈ d <-> h ∈ hashes /\ m.(mp_txs) !! h = Some tx) as Hg by exact (Hg [] m).
  clear m. induction Hnd as [|h l Hh Hnd IH]; intros acc m; cbn [foldMs].
  - exists []. rewrite app_nil_r. split.
    + f_equal. destruct m as [b txs caches]. unfold with_txs. cbn. f_equal. symmetry. apply map_filter_id.
      intros i x _. cbn. by apply not_elem_of_nil.
    + intros h tx. split; [by intros ?%not_elem_of_nil|by intros [?%not_elem_of_nil _]].
  - destruct (mp_txs m !! h) as [tx|] eqn:Eh.
    + erewrite stm_bind_run by (erewrite stm_bind_run by reflexivity; cbv beta; rewrite Eh; reflexivity).
      destruct (IH (acc ++ [(h, tx)]) (with_txs (delete h (mp_txs m)) m)) as (d & Hrun & Hd). exists ((h, tx) :: d).
      rewrite Hrun. rewrite <- (assoc_L (++)). cbn [app]. split.
      * f_equal. unfold with_txs. cbn. f_equal. apply map_eq. intros i. apply option_eq. intros x.
        rewrite !map_lookup_filter_Some, lookup_delete_Some. cbn. rewrite list.not_elem_of_cons. naive_solver.
      * intros h' tx'. rewrite !list.elem_of_cons, Hd. cbn [mp_txs with_txs]. rewrite lookup_delete_Some. split.
        -- intros [[= -> ->]|(Hin & Hne & Htx)]; [split; [by left|done]|]. split; [by right|done].
        -- intros [[->|Hin] Htx]; [left; congruence|right]. split_and!; [done|by intros ->|done].
    + erewrite stm_bind_run by (erewrite stm_bind_run by reflexivity; cbv beta; rewrite Eh; reflexivity).
      destruct (IH acc m) as (d & Hrun & Hd). exists d. rewrite Hrun. split.
      * f_equal. unfold with_txs. f_equal. apply map_eq. intros i. apply option_eq. intros x.
        rewrite !map_lookup_filter_Some. cbn. rewrite list.not_elem_of_cons. naive_solver.
      * intros h' tx'. rewrite list.elem_of_cons, Hd. naive_solver.
Qed.

Lemma taken_lookup (hashes : list Hash) m h :
  mp_txs (with_txs (filter (fun p => p.1 ∉ hashes) m.(mp_txs)) m) !! h = if decide (h ∈ hashes) then None else m.(mp_txs) !! h.
Proof.
  cbn. destruct (decide (h ∈ hashes)) as [Hin|Hin].
  - apply map_lookup_filter_None. right. intros x _ Hn. by apply Hn.
  - apply option_eq. intros x. rewrite map_lookup_filter_Some. naive_solver.
Qed.

(** The nonces of a list of hashes, from one on. *)
Definition numbered (nonces : Hash -> option Z) (n : Z) (l : list Hash) : Prop :=
  forall i h, l !! i = Some h -> nonces h = Some (n + Z.of_nat i).
Definition nonce_of m (h : Hash) : option Z := (fun tx => tx.(st_tx).(Transaction.nonce)) <$> m.(mp_txs) !! h.

Lemma numbered_cons nonces n h l : numbered nonces n (h :: l) <-> nonces h = Some n /\ numbered nonces (n + 1) l.
Proof.
  split.
  - intros Hn. split; [rewrite (Hn 0%nat h eq_refl); f_equal; lia|]. intros i h' Hi. rewrite (Hn (Datatypes.S i) h' Hi). f_equal. lia.
  - intros [Hh Hl] [|i] h'; cbn; [intros [= <-]; rewrite Hh; f_equal; lia|]. intros Hi. rewrite (Hl i h' Hi). f_equal. lia.
Qed.

Lemma still_pending_nonce m nonce h n : nonce_of m h = Some n -> still_pending m nonce h = (nonce <=? n) /\ pending_nonce m h = n.
Proof. unfold nonce_of, still_pending, pending_nonce. destruct (mp_txs m !! h); [by intros [= ->]|done]. Qed.

(** The transactions with a nonce to come are the last ones. *)
Lemma pending_filter m nonce n l : numbered (nonce_of m) n l ->
  filter (fun h => still_pending m nonce h = true) l = drop (Z.to_nat (nonce - n)) l /\
  filter (fun h => still_pending m nonce h = false) l = take (Z.to_nat (nonce - n)) l.
Proof.
  revert n. induction l as [|h l IH]; intros n Hn; [by destruct (Z.to_nat _)|]. apply numbered_cons in Hn as [Hh Hl].
  destruct (IH _ Hl) as [E1 E2]. destruct (still_pending_nonce _ nonce _ _ Hh) as [Hp _].
  destruct (Z.leb_spec nonce n) as [Hle|Hgt].
  - replace (Z.to_nat (nonce - n)) with O by lia. replace (Z.to_nat (nonce - (n + 1))) with O in E1, E2 by lia.
    rewrite filter_cons_True, E1 by done. rewrite filter_cons_False, E2 by congruence. done.
  - replace (Z.to_nat (nonce - n)) with (Datatypes.S (Z.to_nat (nonce - (n + 1)))) by lia. cbn [drop take].
    rewrite filter_cons_False, E1 by congruence. rewrite filter_cons_True, E2 by done. done.
Qed.

Lemma numbered_drop nonces n l k : numbered nonces n l -> numbered nonces (n + Z.of_nat k) (drop k l).
Proof. intros Hn i h. rewrite lookup_drop. intros Hi. rewrite (Hn _ _ Hi). f_equal. lia. Qed.

(** The bounds of the nonces of such a list. *)
Lemma widen_numbered m n l min max : numbered (nonce_of m) n l -> min <= n - 1 -> max = n - 1 ->
  foldl (fun b h => widen (pending_nonce m h) b) (Some min, Some max) l = (Some min, Some (n - 1 + Z.of_nat (length l))).
Proof.
  revert n max. induction l as [|h l IH]; intros n max Hn Hmin ->; cbn [foldl length]; [do 2 f_equal; lia|].
  apply numbered_cons in Hn as [Hh Hl]. destruct (still_pending_nonce _ 0 _ _ Hh) as [_ ->]. unfold widen.
  destruct (Z.ltb_spec n min); [lia|]. destruct (Z.ltb_spec (n - 1) n); [|lia].
  rewrite (IH (n + 1)) by (done || lia). do 2 f_equal. lia.
Qed.
Lemma bounds_numbered m n l : numbered (nonce_of m) n l -> l <> [] ->
  foldl (fun b h => widen (pending_nonce m h) b) (None, None) l = (Some n, Some (n - 1 + Z.of_nat (length l))).
Proof.
  destruct l as [|h l]; [done|]. intros [Hh Hl]%numbered_cons _. cbn [foldl length].
  destruct (still_pending_nonce _ 0 _ _ Hh) as [_ ->]. cbn [widen]. rewrite (widen_numbered m (n + 1)) by (done || lia).
  do 2 f_equal. lia.
Qed.

Lemma cache_numbered m key c : cache_wf m.(mp_txs) key c -> numbered (nonce_of m) c.(ac_min) (iset_list c.(ac_txs)).
Proof. intros Hw i h Hi. destruct (cw_txs _ _ _ Hw i h Hi) as (tx & Htx & _ & Hn). unfold nonce_of. rewrite Htx. cbn. by rewrite Hn. Qed.

Lemma check_left_ok storage topoheight m key c r : check_left rnds storage topoheight m key c = Ok (Some r) ->
  iset_list c.(ac_txs) <> [] /\ r.(ac_min) = c.(ac_min) /\ r.(ac_max) = c.(ac_max) /\ r.(ac_txs) = c.(ac_txs).
Proof.
  unfold check_left, iset_is_empty. destruct (iset_list (ac_txs c)) as [|h l]; [done|]. destruct (mapM _ _); [|done].
  destruct (verify_batch _ _ _) as [[[]| | |] state]; [|done..]. intros [= <-]. by destruct (get_sender_balances key state).
Qed.

(** What the cleaning does to an account: some of its transactions leave the
    pool and are returned; its cache goes with the last of them, or stays with
    the others, from the nonce of the account on. *)
Record cleaned (storage : S) key c m (d : list (Hash * SortedTx)) m' (gone : list Hash) : Prop := {
  cl_gone h : h ∈ gone -> h ∈ iset_list c.(ac_txs);
  cl_txs h : m'.(mp_txs) !! h = if decide (h ∈ gone) then None else m.(mp_txs) !! h;
  cl_deleted h tx : (h, tx) ∈ d <-> h ∈ gone /\ m.(mp_txs) !! h = Some tx;
  cl_cache : m'.(mp_caches) = m.(mp_caches) /\ (forall h, h ∈ iset_list c.(ac_txs) -> h ∈ gone) \/
    exists c', m'.(mp_caches) = <[key := c']> m.(mp_caches) /\ cache_wf m'.(mp_txs) key c' /\
      (forall h, h ∈ iset_list c.(ac_txs) -> h ∉ gone -> h ∈ iset_list c'.(ac_txs)) /\
      exists t v, get_last_nonce storage key = Ok (t, v) /\ c'.(ac_min) = v.(vn_nonce);
}.

Lemma take_all storage key c m d m' : take_out (iset_list c.(ac_txs)) m = (Ok d, m') ->
  cleaned storage key c m d m' (iset_list c.(ac_txs)).
Proof.
  intros Hr. destruct (take_out_run _ m (iset_NoDup (ac_txs c))) as (d' & Hrun & Hd). rewrite Hr in Hrun. injection Hrun as <- ->.
  split; [done| |done|by left]. intros h. apply taken_lookup.
Qed.

Lemma hs_iter_elem (s : gset Hash) h : h ∈ hs_iter s <-> h ∈ s.
Proof. rewrite hs_iter_spec. apply elem_of_elements. Qed.
Lemma hs_iter_NoDup (s : gset Hash) : NoDup (hs_iter s).
Proof. rewrite hs_iter_spec. apply NoDup_elements. Qed.

(** The cache that is left, once the transactions before it are gone. *)
Lemma left_wf m key c nonce k c' txs' :
  cache_wf m.(mp_txs) key c -> c.(ac_min) <= nonce -> k = Z.to_nat (nonce - c.(ac_min)) ->
  iset_list c'.(ac_txs) = drop k (iset_list c.(ac_txs)) -> iset_list c'.(ac_txs) <> [] ->
  c'.(ac_min) = nonce -> c'.(ac_max) = nonce - 1 + Z.of_nat (length (iset_list c'.(ac_txs))) ->
  (forall h, h ∈ iset_list c'.(ac_txs) -> txs' !! h = m.(mp_txs) !! h) ->
  cache_wf txs' key c'.
Proof.
  intros Hw Hle Hk El Hne Emin Emax Htxs. destruct Hw as [H1 H2 H3 H4 H5].
  assert (length (iset_list c'.(ac_txs)) = length (iset_list c.(ac_txs)) - k)%nat as Elen by by rewrite El, length_drop.
  assert (0 < length (iset_list c'.(ac_txs)))%nat by (destruct (iset_list c'.(ac_txs)); [done|cbn; lia]).
  split; [done|lia|lia|lia|]. intros i h Hi. rewrite Htxs by by eapply list_elem_of_lookup_2. rewrite El, lookup_drop in Hi.
  destruct (H5 _ _ Hi) as (tx & Htx & Hs & Hn). exists tx. split_and!; [done|done|lia].
Qed.

Lemma clean_account_spec storage topoheight key c m d m' :
  cache_wf m.(mp_txs) key c -> clean_account rnds storage topoheight key c m = (Ok d, m') ->
  exists gone, cleaned storage key c m d m' gone.
Proof.
  intros Hw. unfold clean_account. intros (m0 & m1 & [= <- <-] & Hr)%stm_bind_ok.
  apply stm_bind_ok in Hr as (last & m1 & [= Hlast <-] & Hr).
  destruct last as [nonce|]; [|eexists; by eapply take_all].
  assert (exists t v, get_last_nonce storage key = Ok (t, v) /\ nonce = v.(vn_nonce)) as Hnonce.
  { destruct (get_last_nonce storage key) as [[t v]| | |]; [|done..]. injection Hlast as <-. eauto. }
  destruct (Z.ltb_spec nonce (ac_min c)) as [Hlt|Hle]; [eexists; by eapply take_all|].
  pose proof (cache_numbered m key c Hw) as Hnum. set (k := Z.to_nat (nonce - ac_min c)) in *.
  destruct (pending_filter m nonce _ _ Hnum) as [Ekept Egone]. fold k in Ekept, Egone.
  apply stm_bind_ok in Hr as (checked & m1 & [= Hchecked <-] & Hr). rewrite Egone in Hr.
  assert (iset_list (iset_retain (still_pending m nonce) (ac_txs c)) = drop k (iset_list (ac_txs c))) as Eret
    by by rewrite iset_retain_spec.
  destruct checked as [c'|].
  - apply check_left_ok in Hchecked as (Hne & Emin & Emax & Etxs).
    apply stm_bind_ok in Hr as (d' & m1 & Htake & (u & m2 & [= _ <-] & [= <- <-])%stm_bind_ok).
    set (gone := hs_iter (list_to_set (take k (iset_list (ac_txs c))) : gset Hash)) in *.
    destruct (take_out_run gone m (hs_iter_NoDup _)) as (d2 & Hrun & Hd). rewrite Htake in Hrun. injection Hrun as <- ->.
    assert (forall h, h ∈ gone <-> h ∈ take k (iset_list (ac_txs c))) as Hgone.
    { intros h. unfold gone. by rewrite hs_iter_elem, elem_of_list_to_set. }
    assert (iset_list c'.(ac_txs) = drop k (iset_list (ac_txs c))) as El.
    { rewrite Etxs. unfold apply_bounds. by destruct (foldl _ _ _) as [[]  []]. }
    assert (iset_list c'.(ac_txs) <> []) as Hne' by by rewrite Etxs.
    pose proof (numbered_drop _ _ _ k Hnum) as Hnd. replace (ac_min c + Z.of_nat k) with nonce in Hnd by lia.
    rewrite Eret, (bounds_numbered m nonce) in Emin, Emax by (done || by rewrite <- El). cbn in Emin, Emax.
    exists gone. split; [intros h Hh%Hgone; rewrite <- (take_drop k); apply list.elem_of_app; by left|apply taken_lookup|done|].
    right. exists c'. split; [done|]. split; [|split].
    + apply (left_wf m key c nonce k c'); try done; [by rewrite El|]. cbn [mp_txs with_caches]. intros h Hh. rewrite taken_lookup.
      rewrite decide_False; [done|]. rewrite Hgone. intros Ht. rewrite El in Hh.
      pose proof (iset_NoDup (ac_txs c)) as Hnodup. rewrite <- (take_drop k (iset_list (ac_txs c))) in Hnodup.
      apply list.NoDup_app in Hnodup as (_ & Hdis & _). by apply (Hdis h).
    + intros h Hh Hn. rewrite El. rewrite Hgone in Hn. rewrite <- (take_drop k (iset_list (ac_txs c))) in Hh.
      apply list.elem_of_app in Hh as [?|?]; done.
    + destruct Hnonce as (t & v & E & ->). eauto.
  - rewrite Eret in Hr.
    set (gone := hs_iter (list_to_set (take k (iset_list (ac_txs c))) ∪ list_to_set (drop k (iset_list (ac_txs c))) : gset Hash)) in *.
    destruct (take_out_run gone m (hs_iter_NoDup _)) as (d2 & Hrun & Hd). rewrite Hr in Hrun. injection Hrun as <- ->.
    assert (forall h, h ∈ gone <-> h ∈ iset_list (ac_txs c)) as Hgone.
    { intros h. unfold gone. rewrite hs_iter_elem, elem_of_union, !elem_of_list_to_set.
      rewrite <- (take_drop k (iset_list (ac_txs c))) at 3. by rewrite list.elem_of_app. }
    exists gone. split; [by intros h ?%Hgone|apply taken_lookup|done|]. left. split; [done|]. by intros h ?%Hgone.
Qed.

(** ** All the accounts *)

(** The pool while the caches of [l] are out of it, to be cleaned. *)
Record cleaning (storage : S) m (l : list (CompressedPublicKey * AccountCache)) : Prop := {
  cn_keys : NoDup l.*1;
  cn_left key c : (key, c) ∈ l -> cache_wf m.(mp_txs) key c /\ m.(mp_caches) !! key = None;
  cn_done key c : m.(mp_caches) !! key = Some c -> cache_wf m.(mp_txs) key c /\
    exists t v, get_last_nonce storage key = Ok (t, v) /\ c.(ac_min) = v.(vn_nonce);
  cn_txs h tx : m.(mp_txs) !! h = Some tx -> exists c,
    ((tx.(st_tx).(source), c) ∈ l \/ m.(mp_caches) !! tx.(st_tx).(source) = Some c) /\ h ∈ iset_list c.(ac_txs);
}.

(** The transactions of another sender stay. *)
Lemma other_stays m key c key' c' (gone : list Hash) h :
  cache_wf m.(mp_txs) key c -> cache_wf m.(mp_txs) key' c' -> key' <> key ->
  (forall h, h ∈ gone -> h ∈ iset_list c.(ac_txs)) -> h ∈ iset_list c'.(ac_txs) -> h ∉ gone.
Proof.
  intros Hw Hw' Hne Hg [i Hi]%list_elem_of_lookup_1 Hin. apply Hg, list_elem_of_lookup_1 in Hin as [j Hj].
  destruct (cw_txs _ _ _ Hw _ _ Hj) as (tx & Htx & Hs & _). destruct (cw_txs _ _ _ Hw' _ _ Hi) as (tx' & Htx' & Hs' & _). congruence.
Qed.
Lemma other_wf m key c key' c' (gone : list Hash) txs' :
  cache_wf m.(mp_txs) key c -> cache_wf m.(mp_txs) key' c' -> key' <> key ->
  (forall h, h ∈ gone -> h ∈ iset_list c.(ac_txs)) ->
  (forall h, txs' !! h = if decide (h ∈ gone) then None else m.(mp_txs) !! h) -> cache_wf txs' key' c'.
Proof.
  intros Hw Hw' Hne Hg Htxs. pose proof (fun h => other_stays m key c key' c' gone h Hw Hw' Hne Hg) as Hstay. destruct Hw' as [H1 H2 H3 H4 H5]. split; try done.
  intros i h Hi. rewrite Htxs, decide_False; [by apply H5|].
  apply Hstay. by eapply list_elem_of_lookup_2.
Qed.

Lemma cleaning_account storage m key c l d m' gone :
  cleaning storage m ((key, c) :: l) -> cleaned storage key c m d m' gone -> cleaning storage m' l.
Proof.
  intros [Hnd Hl Hd Ht] [Hg Htxs Hdel Hc]. cbn [fmap list_fmap fst] in Hnd. apply list.NoDup_cons in Hnd as [Hkey Hnd].
  destruct (Hl key c) as [Hw Hnone]; [by left|].
  assert (forall key' c', (key', c') ∈ l -> key' <> key) as Hne.
  { intros key' c' Hin ->. apply Hkey. apply list_elem_of_fmap. by exists (key, c'). }
  assert (forall key', key' <> key -> m'.(mp_caches) !! key' = m.(mp_caches) !! key') as Hsame.
  { intros key' Hk. destruct Hc as [[-> _]|(c' & -> & _)]; [done|by rewrite lookup_insert_ne]. }
  split.
  - done.
  - intros key' c' Hin. destruct (Hl key' c') as [Hw' Hn']; [by right|]. pose proof (Hne _ _ Hin) as Hk.
    rewrite Hsame by done. split; [|done]. by apply (other_wf m key c key' c' gone).
  - intros key' c' Hk'. destruct (decide (key' = key)) as [->|Hk].
    + destruct Hc as [[Ec _]|(c2 & Ec & Hw2 & _ & Hmin)]; rewrite Ec in Hk'; [congruence|].
      rewrite lookup_insert_eq in Hk'. by injection Hk' as ->.
    + rewrite Hsame in Hk' by done. destruct (Hd _ _ Hk') as [Hw' Hmin]. split; [|done]. by apply (other_wf m key c key' c' gone).
  - intros h tx Hh. rewrite Htxs in Hh. destruct (decide (h ∈ gone)) as [|Hn]; [done|]. destruct (Ht h tx Hh) as (c' & Hc' & Hin).
    destruct (decide (tx.(st_tx).(source) = key)) as [E|E].
    + assert (h ∈ iset_list c.(ac_txs)) as Hin2.
      { rewrite E in Hc'. destruct Hc' as [[[= ->]|Hc']%list.elem_of_cons|Hc']; [done| |congruence]. by apply Hne in Hc'. }
      destruct Hc as [[_ Hall]|(c2 & Ec & _ & Hkeep & _)]; [by apply Hall in Hin2|]. exists c2. split; [|by apply Hkeep].
      right. by rewrite Ec, E, lookup_insert_eq.
    + exists c'. split; [|done]. rewrite Hsame by done. destruct Hc' as [[[= Ek _]|Hc']%list.elem_of_cons|Hc']; [done|by left|by right].
Qed.

Lemma clean_loop storage topoheight l : forall d0 m r m',
  cleaning storage m l ->
  foldMs (fun deleted '(key, cache) =>
    gone ← clean_account rnds storage topoheight key cache;
    mret (deleted ++ gone)) d0 l m = (Ok r, m') ->
  cleaning storage m' [] /\ exists d, r = d0 ++ d /\ (forall h, m'.(mp_txs) !! h = None \/ m'.(mp_txs) !! h = m.(mp_txs) !! h) /\
    forall h tx, (h, tx) ∈ d <-> m.(mp_txs) !! h = Some tx /\ m'.(mp_txs) !! h = None.
Proof.
  induction l as [|[key c] l IH]; intros d0 m r m' Hinv Hr; cbn [foldMs] in Hr.
  - injection Hr as <- <-. split; [done|]. exists []. rewrite app_nil_r. split_and!; [done|by right|].
    intros h tx. split; [by intros ?%not_elem_of_nil|by intros [-> ?]].
  - apply stm_bind_ok in Hr as (d1 & m1 & (gone & m2 & Hclean & [= <- <-])%stm_bind_ok & Hr).
    destruct (clean_account_spec storage topoheight key c m gone m2) as [hashes Hc];
      [by apply (cn_left _ _ _ Hinv); left|done|].
    pose proof (cleaning_account _ _ _ _ _ _ _ _ Hinv Hc) as Hinv2. destruct (IH _ _ _ _ Hinv2 Hr) as (Hend & d & -> & Hsub & Hd).
    split; [done|]. exists (gone ++ d). rewrite app_assoc. destruct Hc as [_ Htxs Hdel _]. split_and!; [done| |].
    + intros h. destruct (Hsub h) as [|E]; [by left|]. rewrite E, Htxs. destruct (decide _); [by left|by right].
    + intros h tx. rewrite list.elem_of_app, Hdel, Hd. specialize (Hsub h). specialize (Htxs h).
      destruct (decide (h ∈ hashes)); rewrite Htxs in *; naive_solver.
Qed.

Lemma clean_up_run storage topoheight m d m' :
  mempool_wf m -> clean_up rnds storage topoheight m = (Ok d, m') ->
  mempool_wf m' /\
  (forall key c, m'.(mp_caches) !! key = Some c -> exists t v, get_last_nonce storage key = Ok (t, v) /\ c.(ac_min) = v.(vn_nonce)) /\
  (forall h, m'.(mp_txs) !! h = None \/ m'.(mp_txs) !! h = m.(mp_txs) !! h) /\
  forall h tx, (h, tx) ∈ d <-> m.(mp_txs) !! h = Some tx /\ m'.(mp_txs) !! h = None.
Proof.
  intros [Hc Ht]. unfold clean_up. intros (m0 & m1 & [= <- <-] & Hr)%stm_bind_ok.
  apply stm_bind_ok in Hr as (u & m1 & [= _ <-] & Hr).
  assert (forall key c, (key, c) ∈ hm_iter m.(mp_caches) <-> m.(mp_caches) !! key = Some c) as Hin
    by (intros key c; rewrite hm_iter_spec; apply elem_of_map_to_list).
  apply clean_loop in Hr as ([_ _ Hd He] & d' & -> & Hsub & Hdel).
  - split; [|split; [|split]].
    + split; [by intros key c [? _]%Hd|]. intros h tx Hh. destruct (He h tx Hh) as (c & [?%not_elem_of_nil|Hk] & Hi); [done|eauto].
    + by intros key c [_ ?]%Hd.
    + exact Hsub.
    + exact Hdel.
  - split; cbn [mp_caches mp_txs with_caches].
    + rewrite hm_iter_spec. apply NoDup_fst_map_to_list.
    + intros key c Hk%Hin. split; [by apply Hc|]. apply lookup_empty.
    + intros key c. by rewrite lookup_empty.
    + intros h tx Hh. destruct (Ht h tx Hh) as (c & Hk & Hi). exists c. split; [|done]. left. by apply Hin.
Qed.

(** ** Cleaning has no error *)

Definition no_error {St E A} (f : stm St E A) : Prop := forall s e s', f s <> (Err e, s').

Lemma no_error_bind {St E A B} (f : stm St E A) (g : A -> stm St E B) :
  no_error f -> (forall a, no_error (g a)) -> no_error (f ≫= g).
Proof.
  intros Hf Hg s e s' Hr. unfold mbind, stm_bind in Hr. destruct (f s) as [[a|err| |] s2] eqn:Ef; [by apply Hg in Hr|by eapply Hf|done..].
Qed.
Lemma no_error_ret {St E A} (a : A) : no_error (mret a : stm St E A).
Proof. intros s e s'. done. Qed.
Lemma no_error_get {St E} : no_error (st_get : stm St E St).
Proof. intros s e s'. done. Qed.
Lemma no_error_modify {St E} (f : St -> St) : no_error (st_modify f : stm St E ()).
Proof. intros s e s'. done. Qed.
Lemma no_error_lift {St E A} (r : res E A) : (forall e, r <> Err e) -> no_error (lift_res r : stm St E A).
Proof. intros Hr s e s' [= He _]. by apply (Hr e). Qed.
Lemma no_error_fold {St E A B} (f : B -> A -> stm St E B) l : (forall b a, no_error (f b a)) -> forall b, no_error (foldMs f b l).
Proof. intros Hf. induction l as [|a l IH]; intros b; cbn [foldMs]; [apply no_error_ret|by apply no_error_bind]. Qed.
Create HintDb no_error.
#[local] Hint Resolve no_error_bind no_error_ret no_error_get no_error_modify no_error_lift : no_error.

Lemma take_out_no_error hashes : no_error (take_out hashes).
Proof. apply no_error_fold. intros d h. apply no_error_bind; [auto with no_error|]. intros m. destruct (_ !! _); auto with no_error. Qed.
Lemma clean_account_no_error storage topoheight key c : no_error (clean_account rnds storage topoheight key c).
Proof.
  pose proof take_out_no_error. apply no_error_bind; [auto with no_error|]. intros m. apply no_error_bind.
  { apply no_error_lift. intros e. by destruct (get_last_nonce storage key) as [[]| | |]. }
  intros [nonce|]; [|done]. destruct (_ <? _); [done|]. cbv zeta. apply no_error_bind.
  - apply no_error_lift. intros e. unfold check_left. destruct (iset_is_empty _); [done|]. destruct (mapM _ _); [|done].
    by destruct (verify_batch _ _ _) as [[] state].
  - intros [c'|]; auto with no_error.
Qed.

Lemma clean_up_no_error storage topoheight : no_error (clean_up rnds storage topoheight).
Proof.
  apply no_error_bind; [apply no_error_get|]. intros m0. apply no_error_bind; [apply no_error_modify|].
  intros _. apply no_error_fold. intros d [key c]. apply no_error_bind; [apply clean_account_no_error|]. intros gone. apply no_error_ret.
Qed.

(** C15: cleaning the pool after a block keeps it consistent and up to date.
    From a pool whose senders have consecutive nonces listed in order,
    [clean_up] has no error, and when it ends the pool is of this form again;
    the first transaction left of each sender has the nonce of the sender's
    account in the storage, so that it can be executed; the transactions left
    are unchanged, and the ones returned are exactly the ones that are gone. *)
Theorem clean_up_keeps_pool storage topoheight m r m' :
  mempool_wf m -> clean_up rnds storage topoheight m = (r, m') ->
  (forall e, r <> Err e) /\
  forall d, r = Ok d ->
    mempool_wf m' /\
    (forall key c, m'.(mp_caches) !! key = Some c ->
       exists t v, get_last_nonce storage key = Ok (t, v) /\ c.(ac_min) = v.(vn_nonce)) /\
    (forall h tx, m'.(mp_txs) !! h = Some tx -> m.(mp_txs) !! h = Some tx) /\
    forall h tx, (h, tx) ∈ d <-> m.(mp_txs) !! h = Some tx /\ m'.(mp_txs) !! h = None.
Proof.
  intros Hw Hr. split.
  - intros e ->. by apply clean_up_no_error in Hr.
  - intros d ->. apply clean_up_run in Hr as (Hw' & Hmin & Hsub & Hd); [|done]. split_and!; [done..| |done].
    intros h tx Hh. destruct (Hsub h) as [|<-]; [congruence|done].
Qed.
End Clean.
