(* ===== verification/Template.v ===== *)
(** The block a miner works on: its header from the tips of the chain, and its
    transactions from the pool ([get_block_header_template_for_storage],
    [get_block_template_for_storage] and [build_block_from_header] of
    [core/blockchain.rs]); then some questions to the chain of the same file. *)

From S2P Require Import Prelude External ExternalModel ExternalCrypto Serializer Hash Defaults VarUint Difficulty Elgamal Proofs Transaction Verify Block Errors Account Versions Storage VersionedTree StorageFacts ClientProtocol BlockStorage Dag Providers DagOrder DagWalks BlockProviders StorageLaws Rewind ChainProviders Reference ChainState BlockCheck TxSelector Mempool.

(** What [Storage] promises of the transactions it keeps. *)
Class TransactionProvider {CV : Curve} {ML : Merlin} {RP : RangeProofLib} (S : Type) := {
  get_transaction : S -> Hash -> bres Transaction;
  has_transaction : S -> Hash -> bres bool;
}.

#[export] Instance sled_transactions {CV : Curve} {ML : Merlin} {RP : RangeProofLib} {SL : SledLib} {UL : U256Lib} {IS : IndexSetLib Hash}
  : TransactionProvider SledStorage := {|
  get_transaction st hash := BlockStorage.get_transaction hash st;
  has_transaction st hash := BlockStorage.has_transaction hash st;
|}.

Section Template.
Context {UL : U256Lib} {IS : IndexSetLib Hash} {B3 : Blake3} {XH : XelisHashLib}.
Context {CV : Curve} {ML : Merlin} {RP : RangeProofLib} {HM : HashMapIter}.
Context {BH : BinaryHeapLib Transactions transactions_le}.
Context {S : Type} {SP : Storage S} {DP : DifficultyProvider S} {CP : ClientProtocolProvider S} {BP : BlockProvider S}.
Context {TP : TipsProvider S} {TXP : TransactionProvider S}.

(** ** The header *)

(** Is a tip kept next to the best one? *)
Definition tip_selected (fuel : nat) (self : Blockchain) (storage : S) (best_tip hash : Hash) : bres bool :=
  if decide (best_tip <> hash) then
    valid ← validate_tips storage best_tip hash;
    if negb valid then Ok false
    else
      distance ← calculate_distance_from_mainchain fuel storage hash;
      Ok (negb ((distance <=? self.(bc_height)) && (STABLE_LIMIT <=? u64_sub self.(bc_height) distance)))
  else Ok true.

Definition template_tips (fuel : nat) (self : Blockchain) (storage : S) (tips : list Hash) : bres (list Hash) :=
  if (1 <? length tips)%nat then
    best_tip ← find_best_tip_by_cumulative_difficulty storage tips;
    selected_tips ← foldM (fun selected_tips hash =>
      selected ← tip_selected fuel self storage best_tip hash;
      Ok (if (selected : bool) then selected_tips ++ [hash] else selected_tips)) [] tips;
    Ok (match selected_tips with [] => [best_tip] | _ => selected_tips end)
  else Ok tips.

Definition get_block_header_template (fuel : nat) (self : Blockchain) (storage : S) (address : CompressedPublicKey)
    (now : Z) (extra_nonce : vec byte 32) : bres BlockHeader :=
  tips_set ← get_tips storage;
  tips ← template_tips fuel self storage (hs_iter tips_set);
  sorted_tips ← sort_tips storage tips;
  let sorted_tips := if (TIPS_LIMIT <? iset_len sorted_tips)%nat
                     then iset_extend iset_new (take TIPS_LIMIT (iset_list sorted_tips)) else sorted_tips in
  height ← calculate_height_at_tips storage (iset_list sorted_tips);
  Ok (header_new (get_version_at_height height) height now sorted_tips extra_nonce address iset_new).

(** ** The transactions *)

(** The transactions of the pool, by account. *)
Definition cache_entries (m : Mempool) (cache : AccountCache) : bres (list TxSelectorEntry) :=
  mapMr (fun tx_hash =>
    sorted_tx ← get_sorted_tx tx_hash m;
    Ok (mkEntry tx_hash sorted_tx.(st_tx) sorted_tx.(st_size))) (iset_list cache.(ac_txs)).
Definition pool_groups (m : Mempool) : bres (list (list TxSelectorEntry)) :=
  mapMr (fun '(_, cache) => cache_entries m cache) (hm_iter m.(mp_caches)).

Definition insert_tx_hash (hash : Hash) (h : BlockHeader) : BlockHeader :=
  mkHeader h.(bh_version) h.(bh_tips) h.(bh_timestamp) h.(bh_height) h.(bh_nonce) h.(bh_extra_nonce) h.(bh_miner)
    (iset_insert hash h.(bh_txs_hashes)).2.

(** The variables of the loop. *)
Record Selection := mkSelection {
  sl_block : BlockHeader;
  sl_block_size : nat;
  sl_total_txs_size : nat;
  sl_chain_state : ChainState (S:=S);
  sl_failed_sources : gset CompressedPublicKey;
}.

(** The proofs of a transaction are verified with a randomness of its own. *)
Context (rnds : Hash -> nat -> scalar).

(** One transaction: [None] ends the loop. *)
Definition consider (e : TxSelectorEntry) (s : Selection) : bres (option Selection) :=
  if (MAX_BLOCK_SIZE <=? s.(sl_block_size) + s.(sl_total_txs_size) + e.(e_size))%nat then Ok None
  else if decide (e.(e_tx).(source) ∈ s.(sl_failed_sources)) then Ok (Some s)
  else
    match verify (St:=ChainState (S:=S)) (E:=blockchain_error) e.(e_tx) (rnds e.(e_hash)) s.(sl_chain_state) with
    | (Ok _, state) =>
        Ok (Some (mkSelection (insert_tx_hash e.(e_hash) s.(sl_block)) (s.(sl_block_size) + HASH_SIZE)
              (s.(sl_total_txs_size) + e.(e_size)) state s.(sl_failed_sources)))
    | (Err _, state) =>
        Ok (Some (mkSelection s.(sl_block) s.(sl_block_size) s.(sl_total_txs_size) state
              ({[e.(e_tx).(source)]} ∪ s.(sl_failed_sources))))
    | (Panic, _) => Panic
    | (Diverge, _) => Diverge
    end.
Fixpoint select_txs (fuel : nat) (selector : TxSelector) (s : Selection) : bres Selection :=
  match fuel with
  | O => Diverge
  | Datatypes.S fuel =>
      match next selector with
      | (None, _) => Ok s
      | (Some e, selector) =>
          considered ← consider e s;
          match considered with
          | None => Ok s
          | Some s => select_txs fuel selector s
          end
      end
  end.

(** The header with the transactions of the pool. *)
Definition fill_block (self : Blockchain) (storage : S) (m : Mempool) (block : BlockHeader) : bres BlockHeader :=
  entries ← pool_groups m;
  selection ← select_txs (Datatypes.S (length (concat entries))) (grouped entries)
    (mkSelection block (size block) 0 (chain_with storage self.(bc_topoheight)) ∅);
  Ok selection.(sl_block).

Definition get_block_template (fuel : nat) (self : Blockchain) (storage : S) (m : Mempool) (address : CompressedPublicKey)
    (now : Z) (extra_nonce : vec byte 32) : bres BlockHeader :=
  block ← get_block_header_template fuel self storage address now extra_nonce;
  fill_block self storage m block.

(** ** Back from the miner *)

(** A transaction of the pool, or else of the storage. *)
Definition find_tx (storage : S) (m : Mempool) (hash : Hash) : bres Transaction :=
  if contains_tx hash m then sorted_tx ← get_sorted_tx hash m; Ok sorted_tx.(st_tx)
  else get_transaction storage hash.
Definition build_block_from_header (storage : S) (m : Mempool) (header : BlockHeader) : bres Block :=
  transactions ← mapMr (find_tx storage m) (iset_list header.(bh_txs_hashes));
  Ok (mkBlock header transactions).

(** ** Questions to the chain *)

Definition chain_has_tx (storage : S) (m : Mempool) (hash : Hash) : bres bool :=
  if contains_tx hash m then Ok true else has_transaction storage hash.
Definition chain_get_tx (storage : S) (m : Mempool) (hash : Hash) : bres Transaction :=
  match get_sorted_tx hash m with
  | Ok sorted_tx => Ok sorted_tx.(st_tx)
  | _ => get_transaction storage hash
  end.

Definition has_block_stable_order (provider : S) (hash : Hash) (topoheight : Z) : bres bool :=
  ordered ← is_block_topological_ordered provider hash;
  if (ordered : bool) then
    block_topo_height ← get_topo_height_for_hash provider hash;
    Ok (u64_add block_topo_height STABLE_LIMIT <=? topoheight)
  else Ok false.

Context {PR : PrunedTopoheightProvider S}.

Definition get_average_block_time (self : Blockchain) (provider : S) : bres Z :=
  let topoheight := self.(bc_topoheight) in
  if negb (50 <? topoheight) && (topoheight <=? 1) then Ok Difficulty.BLOCK_TIME_MILLIS
  else
    let count := if 50 <? topoheight then 50 else u64_sub topoheight 1 in
    pruned ← get_pruned_topoheight provider;
    let count := match pruned with
                 | Some pruned_topoheight => if u64_sub topoheight count <? pruned_topoheight then pruned_topoheight else count
                 | None => count
                 end in
    now_hash ← Providers.get_hash_at_topo_height provider topoheight;
    now_timestamp ← get_timestamp_for_block_hash provider now_hash;
    count_hash ← Providers.get_hash_at_topo_height provider (u64_sub topoheight count);
    count_timestamp ← get_timestamp_for_block_hash provider count_hash;
    if count =? 0 then Panic else Ok (u64_sub now_timestamp count_timestamp / count).
End Template.
