(* ===== verification/TemplateFacts.v ===== *)
(** The template of a block: what is selected from the pool, and the tips. *)

From S2P Require Import Prelude External ExternalModel ExternalCrypto Serializer Hash Defaults VarUint Difficulty Elgamal Proofs Transaction Verify Block Errors Account Versions Storage VersionedTree StorageFacts ClientProtocol BlockStorage Dag Providers DagOrder DagWalks BlockProviders StorageLaws Rewind ChainProviders Reference ChainState BlockCheck TxSelector Mempool MempoolFacts Template.

(** ** Lists *)

Lemma sublist_same_length {A} (l k : list A) : sublist l k -> (length k <= length l)%nat -> l = k.
Proof.
  intros Hs Hl. induction Hs as [|x l k Hs IH|x l k Hs IH]; [done| |].
  - f_equal. apply IH. cbn in Hl. lia.
  - apply sublist_length in Hs. cbn in Hl. lia.
Qed.
Lemma filter_sublist_of {A} (P : A -> Prop) `{forall x, Decision (P x)} (l k : list A) :
  sublist l k -> sublist (filter P l) (filter P k).
Proof.
  induction 1 as [|x l k Hs IH|x l k Hs IH]; [done| |]; rewrite ?filter_cons.
  - case_decide; [by constructor|done].
  - case_decide; [by constructor|done].
Qed.
Lemma filter_none {A} (P : A -> Prop) `{forall x, Decision (P x)} (l : list A) : Forall (fun x => ~ P x) l -> filter P l = [].
Proof. induction 1 as [|x l Hx _ IH]; [done|]. by rewrite filter_cons, decide_False. Qed.
Lemma filter_all {A} (P : A -> Prop) `{forall x, Decision (P x)} (l : list A) : Forall P l -> filter P l = l.
Proof. induction 1 as [|x l Hx _ IH]; [done|]. by rewrite filter_cons, decide_True, IH. Qed.
Lemma filter_of_map {A B} (f : A -> B) (P : B -> Prop) `{forall x, Decision (P x)} (l : list A) :
  filter P (f <$> l) = f <$> filter (fun x => P (f x)) l.
Proof. induction l as [|x l IH]; [done|]. rewrite fmap_cons, !filter_cons. case_decide; by rewrite IH. Qed.

(** Groups told apart by a key are found again in a list that keeps them. *)
Section Groups.
Context {K B : Type} `{EqDecision K} (key_of : B -> K).

Lemma filter_concat (ks : list K) (gs : list (list B)) key :
  NoDup ks -> Forall2 (fun k g => Forall (fun b => key_of b = k) g) ks gs ->
  (key ∉ ks -> filter (fun b => key_of b = key) (concat gs) = []) /\
  forall i g, ks !! i = Some key -> gs !! i = Some g -> filter (fun b => key_of b = key) (concat gs) = g.
Proof.
  intros Hnd Hf. induction Hf as [|k g ks gs Hg Hf IH]; cbn [concat]; [split; [done|intros i g; by destruct i]|].
  apply list.NoDup_cons in Hnd as [Hk Hnd]. destruct (IH Hnd) as [IH1 IH2]. rewrite list.filter_app. split.
  - intros Hn. rewrite IH1, app_nil_r by set_solver. apply filter_none. apply (list.Forall_impl _ _ _ Hg). intros b -> ->. set_solver.
  - intros [|i] g'; cbn.
    + intros [= ->] [= ->]. rewrite IH1, app_nil_r by done. by apply filter_all.
    + intros Hi Hg'. rewrite (IH2 i g' Hi Hg'), filter_none; [done|]. apply (list.Forall_impl _ _ _ Hg). intros b -> ->.
      apply Hk. by eapply list_elem_of_lookup_2.
Qed.

Lemma filter_group (ks : list K) (gs : list (list B)) (l : list B) i key g :
  NoDup ks -> Forall2 (fun k g => Forall (fun b => key_of b = k) g) ks gs ->
  l ≡ₚ concat gs -> Forall (fun g => sublist g l) gs -> ks !! i = Some key -> gs !! i = Some g ->
  filter (fun b => key_of b = key) l = g.
Proof.
  intros Hnd Hf Hp Hs Hi Hg. symmetry. apply sublist_same_length.
  - rewrite list.Forall_forall in Hs. pose proof (filter_sublist_of (fun b => key_of b = key) g l) as Hsub.
    rewrite (filter_all _ g) in Hsub; [by apply Hsub, Hs; eapply list_elem_of_lookup_2|]. by eapply Forall2_lookup_lr in Hf.
  - rewrite Hp. destruct (filter_concat ks gs key Hnd Hf) as [_ H2]. by rewrite (H2 i g Hi Hg).
Qed.
End Groups.

(** ** The loop *)
Section Select.
Context {UL : U256Lib} {IS : IndexSetLib Hash} {B3 : Blake3} {XH : XelisHashLib}.
Context {CV : Curve} {ML : Merlin} {RP : RangeProofLib} {HM : HashMapIter}.
Context {BH : BinaryHeapLib Transactions transactions_le}.
Context {S : Type} {SP : Storage S} {DP : DifficultyProvider S} {CP : ClientProtocolProvider S} {BP : BlockProvider S}.
Context {TP : TipsProvider S} {TXP : TransactionProvider S}.
Context (rnds : Hash -> nat -> scalar).

(** The loop over the transactions in the order in which they are given. *)
Fixpoint consider_all (l : list TxSelectorEntry) (s : Selection (S:=S)) : bres Selection :=
  match l with
  | [] => Ok s
  | e :: l =>
      considered ← consider rnds e s;
      match considered with
      | None => Ok s
      | Some s => consider_all l s
      end
  end.

Lemma select_drained fuel selector s l : drain fuel selector = Some l -> select_txs rnds fuel selector s = consider_all l s.
Proof.
  revert selector s l. induction fuel as [|fuel IH]; intros selector s l; cbn [drain select_txs]; [done|].
  destruct (next selector) as [[e|] selector']; [|by intros [= <-]]. intros Hd.
  destruct (drain fuel selector') as [l'|] eqn:El; [|done]. injection Hd as <-. cbn [consider_all].
  destruct (consider rnds e s) as [[s'|]| | |]; [|done..]. by apply IH.
Qed.

Definition source_of (e : TxSelectorEntry) : CompressedPublicKey := e.(e_tx).(source).
Definition total_size (l : list TxSelectorEntry) : nat := sum_list_with e_size l.

(** What is chosen: for each sender the first of its transactions, none after
    one that fails, within the limit of the size. *)
Record chosen (l : list TxSelectorEntry) (s s' : Selection (S:=S)) (c : list TxSelectorEntry) : Prop := {
  ch_sublist : sublist c l;
  ch_block : s'.(sl_block) = foldl (fun h e => insert_tx_hash e.(e_hash) h) s.(sl_block) c;
  ch_block_size : s'.(sl_block_size) = (s.(sl_block_size) + HASH_SIZE * length c)%nat;
  ch_total : s'.(sl_total_txs_size) = (s.(sl_total_txs_size) + total_size c)%nat;
  ch_limit : c <> [] -> (s'.(sl_block_size) + s'.(sl_total_txs_size) < MAX_BLOCK_SIZE + HASH_SIZE)%nat;
  ch_prefix key :
    if decide (key ∈ s.(sl_failed_sources)) then filter (fun e => source_of e = key) c = []
    else filter (fun e => source_of e = key) c `prefix_of` filter (fun e => source_of e = key) l;
}.

Lemma chosen_none l s : chosen l s s [].
Proof. split; [apply sublist_nil_l|done|cbn; lia|cbn; lia|done|]. intros key. case_decide; [done|apply prefix_nil]. Qed.

Lemma chosen_skip e l s s1 s' c :
  s1.(sl_block) = s.(sl_block) -> s1.(sl_block_size) = s.(sl_block_size) -> s1.(sl_total_txs_size) = s.(sl_total_txs_size) ->
  s1.(sl_failed_sources) = {[source_of e]} ∪ s.(sl_failed_sources) -> chosen l s1 s' c -> chosen (e :: l) s s' c.
Proof.
  intros E1 E2 E3 E4 [H1 H2 H3 H4 H5 H6]. rewrite E1 in H2. rewrite E2 in H3. rewrite E3 in H4.
  split; [by constructor|done|done|done|done|]. clear H1 H2 H3 H4 H5 E1 E2 E3.
  intros key. specialize (H6 key). rewrite E4 in H6. rewrite filter_cons.
  destruct (decide (key ∈ sl_failed_sources s)) as [Hk|Hk]; [by rewrite decide_True in H6 by set_solver|].
  destruct (decide (key ∈ {[source_of e]} ∪ sl_failed_sources s)) as [Hin|Hin]; [rewrite H6; apply prefix_nil|].
  by rewrite decide_False by set_solver.
Qed.

Lemma chosen_take e l s s1 s' c :
  source_of e ∉ s.(sl_failed_sources) ->
  s1.(sl_block) = insert_tx_hash e.(e_hash) s.(sl_block) -> s1.(sl_block_size) = (s.(sl_block_size) + HASH_SIZE)%nat ->
  s1.(sl_total_txs_size) = (s.(sl_total_txs_size) + e.(e_size))%nat -> s1.(sl_failed_sources) = s.(sl_failed_sources) ->
  (s.(sl_block_size) + s.(sl_total_txs_size) + e.(e_size) < MAX_BLOCK_SIZE)%nat ->
  chosen l s1 s' c -> chosen (e :: l) s s' (e :: c).
Proof.
  intros Hn E1 E2 E3 E4 Hlim [H1 H2 H3 H4 H5 H6]. rewrite E1 in H2. rewrite E2 in H3. rewrite E3 in H4. split.
  - by constructor.
  - done.
  - cbn [length]. clear Hlim H5. lia.
  - cbn. unfold total_size in H4. clear Hlim H5. lia.
  - intros _. destruct c as [|e' c]; [clear H5|by apply H5]. unfold total_size in H4. cbn [length sum_list_with] in H3, H4.
    rewrite Nat.mul_0_r, Nat.add_0_r in H3.
    rewrite Nat.add_0_r in H4. rewrite H3, H4. revert Hlim. generalize MAX_BLOCK_SIZE. intros limit Hlim. lia.
  - intros key. specialize (H6 key). rewrite E4 in H6. rewrite !filter_cons. case_decide as Hk.
    + rewrite decide_False by congruence. done.
    + case_decide; [by apply prefix_cons|done].
Qed.

(** A step that does not end the loop skips the transaction or takes it. *)
Lemma consider_step e s s1 : consider rnds e s = Ok (Some s1) ->
  (s1.(sl_block) = s.(sl_block) /\ s1.(sl_block_size) = s.(sl_block_size) /\ s1.(sl_total_txs_size) = s.(sl_total_txs_size) /\
   s1.(sl_failed_sources) = {[source_of e]} ∪ s.(sl_failed_sources)) \/
  ((source_of e ∉ s.(sl_failed_sources)) /\ s1.(sl_block) = insert_tx_hash e.(e_hash) s.(sl_block) /\
   s1.(sl_block_size) = (s.(sl_block_size) + HASH_SIZE)%nat /\ s1.(sl_total_txs_size) = (s.(sl_total_txs_size) + e.(e_size))%nat /\
   s1.(sl_failed_sources) = s.(sl_failed_sources) /\
   (s.(sl_block_size) + s.(sl_total_txs_size) + e.(e_size) < MAX_BLOCK_SIZE)%nat).
Proof.
  unfold consider. generalize MAX_BLOCK_SIZE. intros limit.
  destruct (Nat.leb_spec limit (sl_block_size s + sl_total_txs_size s + e_size e)) as [|Hlim]; [done|].
  destruct (decide (source (e_tx e) ∈ sl_failed_sources s)) as [Hin|Hin].
  - intros [= <-]. left. split_and!; [done..|]. clear Hlim. unfold source_of. set_solver.
  - destruct (verify _ _ _) as [[u| | |] state]; [| |done..]; intros [= <-]; [right|left]; split_and!; done.
Qed.

Lemma consider_all_chosen l s s' : consider_all l s = Ok s' -> exists c, chosen l s s' c.
Proof.
  revert s. induction l as [|e l IH]; intros s; cbn [consider_all]; [intros [= <-]; exists []; apply chosen_none|].
  intros (considered & Hc & Hr)%res_bind_ok.
  destruct considered as [s1|]; [|injection Hr as <-; exists []; apply chosen_none]. apply IH in Hr as [c Hch].
  destruct (consider_step e s s1 Hc) as [(E1 & E2 & E3 & E4)|(Hn & E1 & E2 & E3 & E4 & Hlim)].
  - exists c. exact (chosen_skip _ _ _ _ _ _ E1 E2 E3 E4 Hch).
  - exists (e :: c). exact (chosen_take _ _ _ _ _ _ Hn E1 E2 E3 E4 Hlim Hch).
Qed.

(** The loop fails only when the verification panics or does not end. *)
Definition verification_breaks (r : bres ()) : Prop :=
  exists e state, map_err from_verification_error (verify (St:=ChainState (S:=S)) (E:=blockchain_error) e.(e_tx) (rnds e.(e_hash)) state).1 = r.
Lemma consider_all_fails l s :
  match consider_all l s with
  | Ok _ => True
  | Err _ => False
  | Panic => verification_breaks Panic
  | Diverge => verification_breaks Diverge
  end.
Proof.
  revert s. induction l as [|e l IH]; intros s; cbn [consider_all]; [done|].
  assert (match consider rnds e s with
          | Ok _ => True | Err _ => False | Panic => verification_breaks Panic | Diverge => verification_breaks Diverge end) as Hc.
  { unfold consider. generalize MAX_BLOCK_SIZE. intros limit. destruct (_ <=? _)%nat; [done|]. case_decide; [done|].
    destruct (verify (e_tx e) (rnds (e_hash e)) (sl_chain_state s)) as [[u| | |] state] eqn:Ev; [done|done|..];
      exists e, (sl_chain_state s); by rewrite Ev. }
  destruct (consider rnds e s) as [[s'|]| | |]; cbn [mbind res_bind]; [apply IH|done..].
Qed.

(** ** The transactions of the pool *)

Definition entry_ok (m : Mempool) (e : TxSelectorEntry) : Prop :=
  exists tx, m.(mp_txs) !! e.(e_hash) = Some tx /\ e.(e_tx) = tx.(st_tx) /\ e.(e_size) = tx.(st_size).

Lemma cache_entries_run m key c : cache_wf m.(mp_txs) key c -> exists g, cache_entries m c = Ok g /\
  e_hash <$> g = iset_list c.(ac_txs) /\ Forall (entry_ok m) g /\ Forall (fun e => source_of e = key) g.
Proof.
  intros [_ _ _ _ Htxs]. unfold cache_entries.
  assert (forall h, h ∈ iset_list c.(ac_txs) -> exists tx, m.(mp_txs) !! h = Some tx /\ tx.(st_tx).(source) = key) as Hl.
  { intros h [i Hi]%list_elem_of_lookup_1. destruct (Htxs i h Hi) as (tx & Htx & Hk & _). eauto. }
  clear Htxs. induction (iset_list (ac_txs c)) as [|h l IH]; cbn [mapMr]; [exists []; split_and!; [done|done|constructor..]|].
  destruct (Hl h) as (tx & Htx & Hk); [left|]. assert (get_sorted_tx h m = Ok tx) as -> by (unfold get_sorted_tx; by rewrite Htx).
  cbn [mbind res_bind].
  destruct IH as (g & -> & Eh & He & Hs); [intros h' Hh'; apply Hl; by right|]. cbn [mbind res_bind].
  exists (mkEntry h tx.(st_tx) tx.(st_size) :: g). split_and!; [done|by rewrite <- Eh|constructor; [exists tx|]|constructor]; done.
Qed.

(** The group of each cache. *)
Definition group_of m (p : CompressedPublicKey * AccountCache) (g : list TxSelectorEntry) : Prop :=
  e_hash <$> g = iset_list p.2.(ac_txs) /\ Forall (entry_ok m) g /\ Forall (fun e => source_of e = p.1) g.

Lemma pool_groups_run m : mempool_wf m -> exists gs, pool_groups m = Ok gs /\ Forall2 (group_of m) (hm_iter m.(mp_caches)) gs.
Proof.
  intros [Hc _]. unfold pool_groups.
  assert (forall p, p ∈ hm_iter m.(mp_caches) -> cache_wf m.(mp_txs) p.1 p.2) as Hl.
  { intros [key c] Hin. rewrite hm_iter_spec in Hin. by apply elem_of_map_to_list, Hc in Hin. }
  induction (hm_iter (mp_caches m)) as [|[key c] l IH]; cbn [mapMr]; [exists []; split; [done|constructor]|].
  destruct (cache_entries_run m key c) as (g & -> & H1 & H2 & H3); [apply (Hl (key, c)); left|].
  destruct IH as (gs & -> & Hg); [intros p Hp; apply Hl; by right|]. exists (g :: gs). split; [done|]. by constructor.
Qed.

Lemma entry_source m e : entry_ok m e -> (fun tx => tx.(st_tx).(source)) <$> m.(mp_txs) !! e.(e_hash) = Some (source_of e).
Proof. intros (tx & -> & E & _). cbn. unfold source_of. by rewrite E. Qed.

Lemma groups_NoDup m ps gs : NoDup ps.*1 -> Forall2 (group_of m) ps gs -> NoDup (e_hash <$> concat gs).
Proof.
  intros Hnd Hf. enough (NoDup (e_hash <$> concat gs) /\ forall e, e ∈ concat gs -> source_of e ∈ ps.*1 /\ entry_ok m e) as [? _] by done.
  induction Hf as [|[key c] g ps gs (Eh & He & Hs) Hf IH]; cbn [concat]; [split; [constructor|by intros e ?%not_elem_of_nil]|].
  rewrite fmap_cons in Hnd. apply list.NoDup_cons in Hnd as [Hk Hnd]. destruct (IH Hnd) as [IH1 IH2]. rewrite list.Forall_forall in He, Hs.
  split.
  - rewrite fmap_app. apply list.NoDup_app. split; [rewrite Eh; apply iset_NoDup|]. split; [|done].
    intros h (e & -> & Hin)%list_elem_of_fmap (e' & E & Hin')%list_elem_of_fmap.
    destruct (IH2 _ Hin') as [Hk' He']. apply entry_source in He'. pose proof (entry_source m e (He _ Hin)) as He1.
    rewrite E in He1. rewrite He1 in He'. injection He' as He'. rewrite <- He', (Hs _ Hin) in Hk'. done.
  - intros e [Hin|Hin]%list.elem_of_app; [|destruct (IH2 e Hin); rewrite fmap_cons; split; [by right|done]].
    split; [|by apply He]. rewrite (Hs e Hin), fmap_cons. left.
Qed.

(** ** The header with the chosen transactions *)

Lemma filled_header c h : NoDup (iset_list h.(bh_txs_hashes) ++ (e_hash <$> c)) -> exists hashes,
  foldl (fun h e => insert_tx_hash e.(e_hash) h) h c =
    mkHeader h.(bh_version) h.(bh_tips) h.(bh_timestamp) h.(bh_height) h.(bh_nonce) h.(bh_extra_nonce) h.(bh_miner) hashes /\
  iset_list hashes = iset_list h.(bh_txs_hashes) ++ (e_hash <$> c).
Proof.
  revert h. induction c as [|e c IH]; intros h Hnd; cbn [foldl].
  { exists h.(bh_txs_hashes). split; [by destruct h|]. cbn. by rewrite app_nil_r. }
  assert (iset_list (insert_tx_hash e.(e_hash) h).(bh_txs_hashes) = iset_list h.(bh_txs_hashes) ++ [e.(e_hash)]) as El.
  { cbn. destruct (iset_insert_spec (e_hash e) (bh_txs_hashes h)) as [_ ->]. rewrite decide_False; [done|].
    intros Hin. apply list.NoDup_app in Hnd as (_ & Hd & _). apply (Hd _ Hin). left. }
  destruct (IH (insert_tx_hash e.(e_hash) h)) as (hashes & -> & Eh).
  - rewrite El, <- app_assoc. exact Hnd.
  - exists hashes. split; [done|]. by rewrite Eh, El, <- app_assoc.
Qed.

Lemma find_chosen storage m c : Forall (entry_ok m) c -> mapMr (find_tx storage m) (e_hash <$> c) = Ok (e_tx <$> c).
Proof.
  induction 1 as [|e c (tx & Htx & E & _) _ IH]; [done|]. cbn [fmap list_fmap mapMr]. fold (e_hash <$> c).
  assert (find_tx storage m (e_hash e) = Ok (e_tx e)) as ->.
  { unfold find_tx, contains_tx, get_sorted_tx. rewrite Htx, bool_decide_eq_true_2 by eauto. cbn. by rewrite E. }
  by rewrite IH.
Qed.

Lemma size_chosen (txs : list Transaction) acc : foldl (fun acc tx => acc + size tx)%nat acc txs = (acc + sum_list_with size txs)%nat.
Proof. revert acc. induction txs as [|tx txs IH]; intros acc; cbn [foldl sum_list_with]; [lia|]. rewrite IH. lia. Qed.

Lemma header_size_with version tips ts height nonce extra miner hashes h :
  iset_list h.(bh_txs_hashes) = [] -> tips = h.(bh_tips) -> miner = h.(bh_miner) ->
  size (mkHeader version tips ts height nonce extra miner hashes) = (size h + HASH_SIZE * iset_len hashes)%nat.
Proof.
  intros Hn -> ->. cbn [size BlockHeader_Serializer bh_tips bh_txs_hashes bh_miner]. unfold iset_len at 4. rewrite Hn.
  cbn [length]. generalize (size (bh_miner h)). unfold HASH_SIZE. lia.
Qed.
Lemma header_size_small h : iset_list h.(bh_txs_hashes) = [] -> (iset_len h.(bh_tips) <= TIPS_LIMIT)%nat ->
  (size h < MAX_BLOCK_SIZE + HASH_SIZE)%nat.
Proof.
  intros Hn Ht. cbn [size BlockHeader_Serializer]. unfold iset_len at 2. rewrite Hn. cbn [length].
  change (size (bh_miner h)) with 32%nat. unfold TIPS_LIMIT, HASH_SIZE, EXTRA_NONCE_SIZE, MAX_BLOCK_SIZE in *. lia.
Qed.

Lemma chosen_size m c : (forall h tx, m.(mp_txs) !! h = Some tx -> tx.(st_size) = size tx.(st_tx)) -> Forall (entry_ok m) c ->
  sum_list_with size (e_tx <$> c) = total_size c.
Proof.
  intros Hs. induction 1 as [|e c (tx & Htx & E & Es) _ IH]; [done|]. cbn [fmap list_fmap sum_list_with]. unfold total_size in *.
  cbn [sum_list_with]. fold (e_tx <$> c). rewrite IH, E, Es, (Hs _ _ Htx). done.
Qed.

(** The first transactions of a sender have the nonces of the cache. *)
Lemma chosen_nonces m key gs l c i e :
  mempool_wf m -> Forall2 (group_of m) (hm_iter m.(mp_caches)) gs ->
  l ≡ₚ concat gs -> Forall (fun g => sublist g l) gs ->
  filter (fun e => source_of e = key) c `prefix_of` filter (fun e => source_of e = key) l ->
  filter (fun e => source_of e = key) c !! i = Some e ->
  exists cache, m.(mp_caches) !! key = Some cache /\ e.(e_tx).(nonce) = cache.(ac_min) + Z.of_nat i.
Proof.
  intros [Hc _] Hgs Hp Hsub Hpre Hi. apply (prefix_lookup_Some _ _ _ _ Hi) in Hpre as Hl.
  assert (e ∈ concat gs /\ source_of e = key) as [Hin Hk].
  { apply list_elem_of_lookup_2, list_elem_of_filter in Hl as [Hk Hl]. by rewrite Hp in Hl. }
  apply list_elem_of_In, in_concat in Hin as (g & Hg%list_elem_of_In & Heg%list_elem_of_In).
  apply list_elem_of_lookup_1 in Hg as [j Hj]. pose proof Hgs as Hgs'. eapply Forall2_lookup_r in Hgs' as ([key' cache] & Hj' & Eh & He & Hs); [|done].
  cbn [fst snd] in *. assert (key' = key) as ->.
  { rewrite list.Forall_forall in Hs. by rewrite <- (Hs e Heg). }
  assert (m.(mp_caches) !! key = Some cache) as Ek.
  { apply elem_of_map_to_list. rewrite <- hm_iter_spec. by eapply list_elem_of_lookup_2. }
  exists cache. split; [done|].
  rewrite (filter_group source_of ((hm_iter (mp_caches m)).*1) gs l j key g) in Hl; try done.
  - assert (iset_list cache.(ac_txs) !! i = Some e.(e_hash)) as Hh by by rewrite <- Eh, list_lookup_fmap, Hl.
    destruct (cw_txs _ _ _ (Hc _ _ Ek) i _ Hh) as (tx & Htx & _ & En). rewrite list.Forall_forall in He.
    destruct (He e Heg) as (tx' & Htx' & -> & _). rewrite Htx in Htx'. by injection Htx' as <-.
  - rewrite hm_iter_spec. apply NoDup_fst_map_to_list.
  - apply Forall2_fmap_l. eapply list.Forall2_impl; [exact Hgs|]. by intros ? ? (_ & _ & ?).
  - by rewrite list_lookup_fmap, Hj'.
Qed.

(** C16: the transactions of a block template.  From a consistent pool,
    [get_block_template_for_storage] ends without an error (it breaks only if
    the verification of a transaction does); the block that
    [build_block_from_header] makes of the template has, for each sender, the
    first transactions of the pool with consecutive nonces from the first one
    of its cache, and its size is less than the limit plus the hash of one
    transaction: the code does not count the hash a transaction adds. *)
Theorem template_block (self : Blockchain) (storage : S) (m : Mempool) (block : BlockHeader) :
  mempool_wf m -> (forall h tx, m.(mp_txs) !! h = Some tx -> tx.(st_size) = size tx.(st_tx)) ->
  iset_list block.(bh_txs_hashes) = [] -> (iset_len block.(bh_tips) <= TIPS_LIMIT)%nat ->
  match fill_block rnds self storage m block with
  | Ok h => exists b, build_block_from_header storage m h = Ok b /\ b.(header) = h /\
      h = mkHeader block.(bh_version) block.(bh_tips) block.(bh_timestamp) block.(bh_height) block.(bh_nonce)
            block.(bh_extra_nonce) block.(bh_miner) h.(bh_txs_hashes) /\
      (size b < MAX_BLOCK_SIZE + HASH_SIZE)%nat /\
      forall key i tx, filter (fun tx => tx.(source) = key) b.(transactions) !! i = Some tx ->
        exists cache, m.(mp_caches) !! key = Some cache /\ tx.(nonce) = cache.(ac_min) + Z.of_nat i
  | Err _ => False
  | Panic => verification_breaks Panic
  | Diverge => verification_breaks Diverge
  end.
Proof.
  intros Hw Hsizes Hnone Htips. unfold fill_block. destruct (pool_groups_run m Hw) as (gs & -> & Hgs). cbn [mbind res_bind].
  destruct (drain_greedy (Datatypes.S (length (concat gs))) (grouped gs)) as (l & Hd & Hg).
  { rewrite (concat_perm _ _ (grouped_list gs)). lia. }
  rewrite grouped_list in Hg. rewrite (select_drained _ _ _ _ Hd).
  set (s0 := mkSelection block (size block) 0 (chain_with storage self.(bc_topoheight)) ∅).
  pose proof (consider_all_fails l s0) as Hfails. destruct (consider_all l s0) as [s| | |] eqn:Er; [|done..]. clear Hfails.
  cbn [mbind res_bind]. apply consider_all_chosen in Er as [c [Hsub Hblock Hbs Htotal Hlim Hprefix]].
  cbn [s0 sl_block sl_block_size sl_total_txs_size sl_failed_sources] in *.
  pose proof (greedy_all _ _ Hg) as Hp. pose proof (greedy_sublist _ _ Hg) as Hsubs.
  assert (NoDup (e_hash <$> c)) as Hnd.
  { apply (sublist_NoDup _ (e_hash <$> l)); [|by apply fmap_sublist]. rewrite Hp. eapply groups_NoDup; [|done].
    rewrite hm_iter_spec. apply NoDup_fst_map_to_list. }
  assert (Forall (entry_ok m) c) as Hok.
  { apply list.Forall_forall. intros e He. assert (e ∈ concat gs) as Hin by (rewrite <- Hp; by eapply sublist_subseteq).
    apply list_elem_of_In, in_concat in Hin as (g & Hgin%list_elem_of_In & Heg%list_elem_of_In).
    apply list_elem_of_lookup_1 in Hgin as [j Hj]. eapply Forall2_lookup_r in Hgs as (p & _ & _ & He' & _); [|done].
    rewrite list.Forall_forall in He'. by apply He'. }
  destruct (filled_header c block) as (hashes & Eh & El); [by rewrite Hnone|]. rewrite Hnone in El. cbn [app] in El.
  rewrite Hblock, Eh. cbn [bh_txs_hashes]. unfold build_block_from_header. cbn [bh_txs_hashes]. rewrite El, find_chosen by done.
  cbn [mbind res_bind]. eexists. split; [done|]. cbn [header transactions]. split; [done|]. split; [done|]. split.
  - cbn [size Block_Serializer header transactions]. rewrite size_chosen, (header_size_with _ _ _ _ _ _ _ _ block) by done.
    rewrite (chosen_size m c Hsizes Hok). unfold iset_len. rewrite El, length_fmap. destruct c as [|e c].
    + unfold total_size. cbn [length sum_list_with]. rewrite Nat.mul_0_r, !Nat.add_0_r. by apply header_size_small.
    + rewrite Hbs, Htotal in Hlim. specialize (Hlim ltac:(discriminate)). exact Hlim.
  - intros key i tx Hi. rewrite filter_of_map, list_lookup_fmap in Hi. change (fun x => source (e_tx x) = key) with (fun e => source_of e = key) in Hi.
    destruct (filter (fun e => source_of e = key) c !! i) as [e|] eqn:Ei; [|done]. injection Hi as <-. specialize (Hprefix key).
    destruct (decide (key ∈ ∅)) as [Hin|_]; [destruct (not_elem_of_empty _ Hin)|].
    exact (chosen_nonces m key gs l c i e Hw Hgs Hp Hsubs Hprefix Ei).
Qed.
End Select.
