(* ===== verification/TemplateTips.v ===== *)
(** The tips of a block template: the header built for a miner obeys the rules
    that [check_block] asks of a received block. *)

From stdpp Require Import sorting.
From S2P Require Import Prelude External ExternalModel ExternalCrypto Serializer Hash Defaults VarUint Difficulty Elgamal Proofs Transaction Verify Block Errors Account Versions Storage VersionedTree StorageFacts ClientProtocol BlockStorage Dag Providers DagOrder DagWalks BlockProviders StorageLaws Rewind ChainProviders Reference ChainState BlockCheck TxSelector Mempool Template.

Section Tips.
Context {UL : U256Lib} {IS : IndexSetLib Hash} {B3 : Blake3} {XH : XelisHashLib}.
Context {CV : Curve} {ML : Merlin} {RP : RangeProofLib} {HM : HashMapIter}.
Context {S : Type} {SP : Storage S} {DP : DifficultyProvider S} {DL : DifficultyProviderLaws S}.
Context {BH : BlocksAtHeightProvider S} {PR : PrunedTopoheightProvider S}.
Context {TP : TipsProvider S}.
Context (storage : S) (v : DagView) (Hv : view_of storage v).

(** A tip close to the main chain, as in [valid_tips]. *)
Definition near_main_chain (self : Blockchain) (t : Hash) : Prop := exists distance,
  (is_Some (v.(v_topo) t) -> distance = v_height v t) /\
  (v.(v_topo) t = None -> (distance = u64_max \/ frontier_height storage t distance) /\
     forall h, frontier_height storage t h -> distance <= h) /\
  self.(bc_height) < distance + STABLE_LIMIT.
Definition close_difficulty (best t : Hash) : Prop :=
  VarUint.val (v.(v_difficulty) best) * 91 / 100 < VarUint.val (v.(v_difficulty) t).

Lemma validate_tips_run best t : stored v best -> stored v t -> VarUint.val (v.(v_difficulty) best) * 91 < 2 ^ 256 ->
  exists b, validate_tips storage best t = Ok b /\ (b = true -> close_difficulty best t).
Proof using Hv.
  intros Hb Ht Hlt. assert (exists b, validate_tips storage best t = Ok b) as [b E].
  - unfold validate_tips. rewrite (view_difficulty _ _ Hv best Hb), (view_difficulty _ _ Hv t Ht). cbn [mbind res_bind].
    pose proof (VarUint.mul_val (E:=blockchain_error) (v_difficulty v best) MAX_DEVIATION) as Em.
    assert (VarUint.val MAX_DEVIATION = 91) as E91 by by apply VarUint.val_from_u64.
    rewrite decide_True in Em by by rewrite E91.
    apply VarUint.val_res_ok in Em as (m & -> & _). cbn [mbind res_bind].
    pose proof (VarUint.div_val (E:=blockchain_error) m PERCENTAGE) as Eq.
    assert (VarUint.val PERCENTAGE = 100) as E100 by by apply VarUint.val_from_u64.
    rewrite decide_False in Eq by by rewrite E100.
    apply VarUint.val_res_ok in Eq as (q & -> & _). by eexists.
  - exists b. split; [done|]. intros ->. by apply (validate_tips_ok storage v Hv).
Qed.

(** A tip is kept, or not, once the fuel is enough for its distance. *)
Lemma tip_selected_run self fuel best t distance :
  stored v best -> stored v t -> VarUint.val (v.(v_difficulty) best) * 91 < 2 ^ 256 -> in_u 64 self.(bc_height) ->
  calculate_distance_from_mainchain fuel storage t = Ok distance ->
  (is_Some (v.(v_topo) t) -> distance = v_height v t) ->
  (v.(v_topo) t = None -> (distance = u64_max \/ frontier_height storage t distance) /\
     forall h, frontier_height storage t h -> distance <= h) ->
  exists b, tip_selected fuel self storage best t = Ok b /\ (t = best -> b = true) /\
    (b = true -> t <> best -> close_difficulty best t /\ near_main_chain self t).
Proof using Hv DL.
  intros Hb Ht Hlt Hh Hd Ho Hu. unfold tip_selected. destruct (decide (best <> t)) as [Hne|He].
  2: { exists true. split; [done|]. split; [done|]. intros _ Hn. exfalso. apply He. by intros ->. }
  destruct (validate_tips_run best t Hb Ht Hlt) as (b & -> & Hclose). cbn [mbind res_bind].
  destruct b; cbn [negb]; [|exists false; split_and!; [done|by intros ->|done]].
  rewrite Hd. cbn [mbind res_bind]. eexists. split; [done|]. split; [by intros ->|].
  intros E%negb_true_iff _. split; [by apply Hclose|]. exists distance. split_and!; [done|done|].
  assert (0 <= distance) as Hpos.
  { apply (distance_pos storage v Hv t); [done|done|]. intros E'. by destruct (Hu E'). }
  destruct (Z.leb_spec distance (bc_height self)); [|unfold STABLE_LIMIT; lia]. cbn in E. apply Z.leb_gt in E.
  rewrite u64_sub_small in E by (unfold in_u in *; lia). lia.
Qed.

Lemma select_fold fuel self best (l : list Hash) acc :
  (forall t, t ∈ l -> exists b, tip_selected fuel self storage best t = Ok b /\ (t = best -> b = true) /\
    (b = true -> t <> best -> close_difficulty best t /\ near_main_chain self t)) ->
  exists kept, foldM (fun selected_tips hash =>
      selected ← tip_selected fuel self storage best hash;
      Ok (if (selected : bool) then selected_tips ++ [hash] else selected_tips)) acc l = Ok (acc ++ kept) /\
    sublist kept l /\ (best ∈ l -> best ∈ kept) /\
    forall t, t ∈ kept -> t <> best -> close_difficulty best t /\ near_main_chain self t.
Proof.
  revert acc. induction l as [|t l IH]; intros acc Hl; cbn [foldM].
  { exists []. rewrite app_nil_r. split_and!; [done|done|done|]. by intros t ?%not_elem_of_nil. }
  destruct (Hl t) as (b & -> & Hb & Hok); [left|]. cbn [mbind res_bind].
  destruct (IH (if b then acc ++ [t] else acc)) as (kept & -> & Hs & Hin & Hk); [intros t' Ht'; apply Hl; by right|].
  destruct b.
  - exists (t :: kept). rewrite <- app_assoc. split; [done|]. split; [by constructor|]. split.
    + intros [->|Hbest]%list.elem_of_cons; [left|right; by apply Hin].
    + intros t' [->|Ht']%list.elem_of_cons Hne; [by apply Hok|by apply Hk].
  - exists kept. split; [done|]. split; [by constructor|]. split; [|done].
    intros [->|Hbest]%list.elem_of_cons; [by specialize (Hb eq_refl)|by apply Hin].
Qed.

(** The tips of a header template. *)
Record template_tips_ok (self : Blockchain) (tips : gset Hash) (l : list Hash) : Prop := {
  tt_nonempty : l <> [];
  tt_count : (length l <= TIPS_LIMIT)%nat;
  tt_tips t : t ∈ l -> t ∈ tips;
  tt_sorted : StronglySorted (tip_before (v_cumulative v)) l;
  tt_best : exists best, best ∈ tips /\
    (forall t, t ∈ tips -> VarUint.val (v.(v_cumulative) t) <= VarUint.val (v.(v_cumulative) best)) /\
    (forall t, t ∈ l -> t <> best -> close_difficulty best t /\ near_main_chain self t) /\
    ((forall t, t ∈ tips -> t <> best -> VarUint.val (v.(v_cumulative) t) < VarUint.val (v.(v_cumulative) best)) ->
     head l = Some best);
}.

Lemma tips_list (tips : gset Hash) : tips <> ∅ -> NoDup (hs_iter tips) /\ (forall t, t ∈ hs_iter tips <-> t ∈ tips) /\ hs_iter tips <> [].
Proof.
  clear Hv. intros Hne. split; [rewrite hs_iter_spec; apply NoDup_elements|].
  assert (forall t, t ∈ hs_iter tips <-> t ∈ tips) as Hin by (intros t; rewrite hs_iter_spec; apply elem_of_elements).
  split; [done|]. intros E. apply Hne. apply set_eq. intros t. rewrite <- Hin, E. set_solver.
Qed.

Section Given.
Context (self : Blockchain) (tips : gset Hash) (Hne : tips <> ∅) (Hst : forall t, t ∈ tips -> stored v t).
Context (Hh : in_u 64 self.(bc_height)).
Context (Hcum : forall t, t ∈ tips -> 0 < VarUint.val (v.(v_cumulative) t)).
Context (Hdiff : forall t, t ∈ tips -> VarUint.val (v.(v_difficulty) t) * 91 < 2 ^ 256).

(** The tips kept before the sort, with the best one. *)
Lemma template_tips_run : exists k, forall fuel, (k <= fuel)%nat -> exists kept best,
  template_tips fuel self storage (hs_iter tips) = Ok kept /\ sublist kept (hs_iter tips) /\ best ∈ kept /\
  (forall t, t ∈ tips -> VarUint.val (v.(v_cumulative) t) <= VarUint.val (v.(v_cumulative) best)) /\
  forall t, t ∈ kept -> t <> best -> close_difficulty best t /\ near_main_chain self t.
Proof using Hv DL Hne Hst Hh Hcum Hdiff.
  destruct (tips_list tips Hne) as (Hnd & Hin & Hnil).
  destruct (distances_run storage v Hv (hs_iter tips)) as [k Hk]; [apply list.Forall_forall; intros t Ht; by apply Hst, Hin|].
  exists k. intros fuel Hf. unfold template_tips. destruct (Nat.ltb_spec 1 (length (hs_iter tips))) as [Hlen|Hlen].
  - assert (forall h, h ∈ hs_iter tips -> get_cumulative_difficulty_for_block_hash storage h = Ok (v_cumulative v h)) as Hcd
      by (intros h Hin'; by apply (view_cumulative _ _ Hv), Hst, Hin).
    pose proof (find_best_tip_max storage (hs_iter tips) (v_cumulative v) Hcd ltac:(lia)) as Hbest.
    destruct (find_best_tip_by_cumulative_difficulty storage (hs_iter tips)) as [best|e| |] eqn:Eb; [|exfalso|done..].
    2: { destruct Hbest as [_ Hz]. destruct (hs_iter tips) as [|t l] eqn:El; [done|]. specialize (Hz t ltac:(left)).
         assert (t ∈ tips) as Ht by (apply Hin; left). specialize (Hcum t Ht). lia. }
    clear Hbest. apply (best_tip_ok storage v Hv) in Eb as [Hbin Hmax]; [|apply list.Forall_forall; intros t Ht; by apply Hst, Hin|done].
    cbn [mbind res_bind]. destruct (select_fold fuel self best (hs_iter tips) []) as (kept & -> & Hs & Hbk & Hkept).
    + intros t Ht. destruct (Hk fuel t Hf Ht) as (d & Hd & Ho & Hu).
      apply (tip_selected_run self fuel best t d); try done; [by apply Hst, Hin|by apply Hst, Hin|by apply Hdiff, Hin].
    + cbn [mbind res_bind app]. specialize (Hbk Hbin). exists kept, best. split; [by destruct kept; [apply not_elem_of_nil in Hbk|]|].
      split_and!; [done|done| |done]. intros t Ht. by apply Hmax, Hin.
  - destruct (hs_iter tips) as [|best [|]] eqn:El; [done| |cbn in Hlen; lia]. exists [best], best. split; [done|].
    split; [done|]. split; [left|]. split.
    + intros t Ht. apply Hin, list_elem_of_singleton in Ht as ->. lia.
    + by intros t ->%list_elem_of_singleton.
Qed.

Lemma header_tips_run : exists k, forall fuel, (k <= fuel)%nat -> exists kept sorted,
  template_tips fuel self storage (hs_iter tips) = Ok kept /\ sort_tips storage kept = Ok sorted /\
  template_tips_ok self tips (take TIPS_LIMIT (iset_list sorted)).
Proof using Hv DL Hne Hst Hh Hcum Hdiff.
  destruct template_tips_run as [k Hk]. destruct (tips_list tips Hne) as (Hnd & Hin & _). exists k. intros fuel Hf.
  destruct (Hk fuel Hf) as (kept & best & Hkept & Hs & Hbest & Hmax & Hok). exists kept.
  assert (forall t, t ∈ kept -> t ∈ tips) as Hsub by (intros t Ht; apply Hin; by eapply sublist_subseteq).
  destruct (sort_tips_sorted storage kept (v_cumulative v)) as (sorted & Hsort & Hp & Hss & _).
  { intros h Hh'. by apply (view_cumulative _ _ Hv), Hst, Hsub. }
  { intros ->. by apply not_elem_of_nil in Hbest. }
  { by eapply sublist_NoDup. }
  exists sorted. split; [done|]. split; [done|].
  assert (forall t, t ∈ take TIPS_LIMIT (iset_list sorted) -> t ∈ kept) as Htake.
  { intros t Ht. rewrite <- Hp, <- (take_drop TIPS_LIMIT (iset_list sorted)). apply list.elem_of_app. by left. }
  assert (exists x l, iset_list sorted = x :: l) as (x & l & El).
  { destruct (iset_list sorted) as [|x l]; [|eauto]. rewrite <- Hp in Hbest. by apply not_elem_of_nil in Hbest. }
  split.
  - rewrite El. done.
  - rewrite length_take. lia.
  - intros t Ht. by apply Hsub, Htake.
  - rewrite <- (take_drop TIPS_LIMIT (iset_list sorted)) in Hss. by eapply StronglySorted_app_1_l.
  - exists best. split; [by apply Hsub|]. split; [done|]. split; [intros t Ht; by apply Hok, Htake|].
    intros Hstrict. rewrite El in Hss, Hp |- *. cbn. f_equal. apply StronglySorted_inv in Hss as [_ Hx].
    rewrite <- Hp in Hbest. apply list.elem_of_cons in Hbest as [->|Hbl]; [done|]. rewrite list.Forall_forall in Hx.
    specialize (Hx best Hbl). unfold tip_before in Hx. rewrite before_iff in Hx. cbn in Hx.
    destruct (decide (x = best)) as [|Hnx]; [done|]. assert (x ∈ tips) as Hxt by (apply Hsub; rewrite <- Hp; left).
    specialize (Hstrict x Hxt Hnx). lia.
Qed.
End Given.

(** C17: a header template obeys the rules of the consensus.  From the tips of
    the storage, at least one and all of them known, with difficulties that are
    positive and do not overflow, [get_block_header_template_for_storage]
    succeeds, with enough fuel known beforehand: the header has the version of
    its height and no transactions; it has between one and three of the tips,
    sorted, and the height they give, above all of them; compared to the best
    tip of the storage each other tip it takes has more than 91 percent of its
    difficulty and is close to the main chain; the best tip comes first when it
    is strictly the heaviest. *)
Theorem header_template_valid (self : Blockchain) (tips : gset Hash) (address : CompressedPublicKey) (now : Z) (extra : vec byte 32) :
  get_tips storage = Ok tips -> tips <> ∅ -> (forall t, t ∈ tips -> stored v t) -> in_u 64 self.(bc_height) ->
  (forall t, t ∈ tips -> 0 < VarUint.val (v.(v_cumulative) t)) ->
  (forall t, t ∈ tips -> VarUint.val (v.(v_difficulty) t) * 91 < 2 ^ 256) ->
  exists k, forall fuel, (k <= fuel)%nat -> exists h, get_block_header_template fuel self storage address now extra = Ok h /\
    h = mkHeader 0 h.(bh_tips) now h.(bh_height) 0 extra address iset_new /\
    template_tips_ok self tips (iset_list h.(bh_tips)) /\
    (forall t, t ∈ iset_list h.(bh_tips) -> v_height v t < h.(bh_height)) /\
    exists t, t ∈ iset_list h.(bh_tips) /\ h.(bh_height) = v_height v t + 1.
Proof using Hv DL.
  intros Htips Hne Hst Hh Hcum Hdiff. destruct (header_tips_run self tips Hne Hst Hh Hcum Hdiff) as [k Hk]. exists k. intros fuel Hf.
  destruct (Hk fuel Hf) as (kept & sorted & Hkept & Hsort & Hok). unfold get_block_header_template.
  rewrite Htips. cbn [mbind res_bind]. rewrite Hkept. cbn [mbind res_bind]. rewrite Hsort. cbn [mbind res_bind].
  set (taken := if (TIPS_LIMIT <? iset_len sorted)%nat then _ else _).
  assert (iset_list taken = take TIPS_LIMIT (iset_list sorted)) as Et.
  { unfold taken, iset_len. destruct (Nat.ltb_spec TIPS_LIMIT (length (iset_list sorted))).
    - apply iset_of_list. eapply sublist_NoDup; [|apply sublist_take]. apply iset_NoDup.
    - by rewrite take_ge. }
  rewrite <- Et in Hok. pose proof (tt_tips _ _ _ Hok) as Hin.
  destruct (height_above_tips storage (iset_list taken) (v_height v)) as (n & -> & Hn & Hor).
  { intros t Ht. by apply (stored_height storage v Hv), Hst, Hin. }
  { intros t Ht. pose proof (view_range _ (view_is_wf _ _ Hv) t (Hst t (Hin t Ht))) as Hr. unfold in_u in Hr. lia. }
  cbn [mbind res_bind]. eexists. split; [done|]. cbn [header_new bh_tips bh_height]. split; [done|]. split; [done|]. split; [done|].
  destruct Hor as [[E _]|?]; [|done]. by destruct (tt_nonempty _ _ _ Hok).
Qed.
End Tips.

(** ** Witness: the chain of [BlockProviders], with one tip *)

#[local] Existing Instances u256_model iset_model hash_map_model curve_model merlin_model range_proof_model
  b_difficulties b_heights b_pruned b_blocks b_laws b_nonces b_balances b_accounts b_storage.
#[local] Instance b_tips : TipsProvider unit := {|
  get_tips _ := Ok {[g_hash 4]};
  store_tips _ := mret tt;
  set_top_topoheight _ := mret tt;
  set_top_height _ := mret tt;
|}.

Lemma header_template_valid_witness :
  exists k, forall fuel, (k <= fuel)%nat -> exists h,
    get_block_header_template fuel b_self tt b_block.(header).(bh_miner) 10 (vreplicate 32 x00) = Ok h /\
    template_tips_ok tt b_view b_self {[g_hash 4]} (iset_list h.(bh_tips)).
Proof.
  destruct (header_template_valid (SP:=b_storage) (BH:=b_heights) (PR:=b_pruned) (TP:=b_tips) tt b_view b_view_of b_self {[g_hash 4]} b_block.(header).(bh_miner) 10 (vreplicate 32 x00)
    eq_refl) as [k Hk].
  - apply non_empty_singleton_L.
  - intros t ->%elem_of_singleton. apply (bool_decide_unpack _). vm_cast_no_check I.
  - split; [discriminate|reflexivity].
  - intros t ->%elem_of_singleton. apply Z.ltb_lt. vm_cast_no_check (eq_refl true).
  - intros t ->%elem_of_singleton. apply Z.ltb_lt. vm_cast_no_check (eq_refl true).
  - exists k. intros fuel Hf. destruct (Hk fuel Hf) as (h & Eh & _ & Ht & _). exists h. split; [exact Eh|exact Ht].
Defined.
