(* ===== verification/BlockPool.v ===== *)
(** A new block, from its reception to the pool: the whole of
    [add_new_block_for_storage] of [core/blockchain.rs], with the cleaning of
    the pool and the transactions of orphaned blocks that enter it again. *)

From S2P Require Import Prelude External ExternalModel ExternalCrypto Serializer Hash VarUint Defaults Elgamal Proofs Transaction Verify Block Errors Account Versions Storage VersionedTree StorageFacts ClientProtocol BlockStorage Dag Providers DagOrder DagWalks BlockProviders DagBase NonceChecker Emission StorageLaws Rewind ChainProviders Reference ChainState BlockCheck Execution Reorder TxSelector Mempool MempoolFacts MempoolClean Template.

Section BlockPool.
Context {UL : U256Lib} {IS : IndexSetLib Hash} {B3 : Blake3} {XH : XelisHashLib}.
Context {CV : Curve} {ML : Merlin} {RP : RangeProofLib} {HM : HashMapIter} {IM : IndexMapLib Z Z}.
Context {S : Type} {SP : Storage S} {DP : DifficultyProvider S} {CP : ClientProtocolProvider S}.
Context {BH : BlocksAtHeightProvider S} {PR : PrunedTopoheightProvider S} {BD : BlockDagProvider S} {BP : BlockProvider S}.
Context {TP : TipsProvider S} {RW : RewindProvider S} {TXP : TransactionProvider S}.
Context {LB : LruLib (Hash * Z) (Hash * Z)} {LW : LruLib (Hash * Hash * Z) (gset Hash * VarUint.t)}.
Context {LO : LruLib (Hash * Hash * Z) (iset Hash)}.
Context (DEV_PUBLIC_KEY : CompressedPublicKey).

(** The randomness of the proofs and the clock: for the batch of the block, its
    execution, the cleaning of the pool and the transactions that enter again. *)
Record Draws := mkDraws {
  dr_block : nat -> scalar;
  dr_execution : Hash -> nat -> scalar;
  dr_cleaning : CompressedPublicKey -> nat -> scalar;
  dr_entry : Hash -> nat -> scalar;
  dr_now : Z;
}.
Context (draws : Draws).

(** Deleted transactions need not enter again, when they are reported. *)
Definition forget_deleted (storage : S) (tracked : bool) (deleted : list (Hash * SortedTx)) (orphaned : gset Hash) : bres (gset Hash) :=
  if tracked then
    foldM (fun (orphaned : gset Hash) '(tx_hash, _) =>
      _ ← is_tx_executed_in_a_block storage tx_hash;
      Ok (orphaned ∖ {[tx_hash]})) orphaned deleted
  else Ok orphaned.

(** An error of the entry is only reported. *)
Definition try_entry {A} (f : stm Mempool blockchain_error A) : stm Mempool blockchain_error () := fun m =>
  match f m with
  | (Ok _, m') => (Ok tt, m')
  | (Err _, m') => (Ok tt, m')
  | (Panic, m') => (Panic, m')
  | (Diverge, m') => (Diverge, m')
  end.
Definition add_back (storage : S) (topoheight : Z) (tx_hash : Hash) : stm Mempool blockchain_error () :=
  executed ← lift_res (is_tx_executed_in_a_block storage tx_hash);
  if negb executed then
    match get_transaction storage tx_hash with
    | Ok tx => try_entry (add_tx_to_mempool (draws.(dr_entry) tx_hash) draws.(dr_now) storage topoheight tx tx_hash)
    | Err _ => mret tt
    | Panic => lift_res Panic
    | Diverge => lift_res Diverge
    end
  else mret tt.

Definition update_mempool (storage : S) (tracked : bool) (topoheight highest_topo : Z) (orphaned : gset Hash)
  : stm Mempool blockchain_error () :=
  deleted ← (if topoheight <=? highest_topo then clean_up draws.(dr_cleaning) storage highest_topo else mret []);
  orphaned ← lift_res (forget_deleted storage tracked deleted orphaned);
  foldMs (fun _ tx_hash => add_back storage topoheight tx_hash) tt (hs_iter orphaned).

(** The node and its pool. *)
Record ChainPool := mkChainPool { cp_node : Node (S:=S); cp_pool : Mempool }.
Definition on_chain_node {A} (f : stm (Node (S:=S)) blockchain_error A) : stm ChainPool blockchain_error A := fun c =>
  let '(r, n) := f c.(cp_node) in (r, mkChainPool n c.(cp_pool)).
Definition on_pool {A} (f : Node (S:=S) -> stm Mempool blockchain_error A) : stm ChainPool blockchain_error A := fun c =>
  let '(r, m) := f c.(cp_node) c.(cp_pool) in (r, mkChainPool c.(cp_node) m).

Definition add_new_block (fuel : nat) (tracked : bool) (block : Block) : stm ChainPool blockchain_error () :=
  let block_hash := header_hash block.(header) in
  c ← st_get;
  '(difficulty, p) ← lift_res (check_block fuel c.(cp_node).(n_chain) c.(cp_node).(n_storage) block draws.(dr_now) draws.(dr_block));
  '(highest_topo, orphaned) ← on_chain_node (add_checked_block DEV_PUBLIC_KEY draws.(dr_execution) fuel block_hash block difficulty p);
  on_pool (fun n => update_mempool n.(n_storage) tracked n.(n_chain).(bc_topoheight) highest_topo orphaned).

(** ** The pool stays consistent *)

(** The size limits are numbers too large to unfold. *)
#[local] Opaque add_tx_to_mempool MAX_TRANSACTION_SIZE.

Definition preserves {St A} (P : St -> Prop) (f : stm St blockchain_error A) : Prop :=
  forall s r s', P s -> f s = (r, s') -> match r with Panic | Diverge => True | _ => P s' end.

Lemma preserves_bind {St A B} (P : St -> Prop) (f : stm St blockchain_error A) (g : A -> stm St blockchain_error B) :
  preserves P f -> (forall a, preserves P (g a)) -> preserves P (f ≫= g).
Proof.
  intros Hf Hg s r s' Hs Hr. unfold mbind, stm_bind in Hr. destruct (f s) as [[a|err| |] s1] eqn:Ef.
  - pose proof (Hf _ _ _ Hs Ef) as H1. by apply (Hg a s1 r s').
  - injection Hr as <- <-. exact (Hf _ _ _ Hs Ef).
  - by injection Hr as <- <-.
  - by injection Hr as <- <-.
Qed.
Lemma preserves_lift {St A} (P : St -> Prop) (r : bres A) : preserves P (lift_res r : stm St blockchain_error A).
Proof. intros s r' s' Hs [= <- <-]. by destruct r. Qed.
Lemma preserves_known {St A B} (P : St -> Prop) (r : bres A) (g : A -> stm St blockchain_error B) :
  (forall a, r = Ok a -> preserves P (g a)) -> preserves P (lift_res r ≫= g).
Proof.
  intros Hg s r' s' Hs Hr. destruct r as [a| | |]; [exact (Hg a eq_refl s r' s' Hs Hr)|by injection Hr as <- <-..].
Qed.
Lemma preserves_ret {St A} (P : St -> Prop) (a : A) : preserves P (mret a : stm St blockchain_error A).
Proof. by intros s r' s' Hs [= <- <-]. Qed.
Lemma preserves_fold_in {St A B} (P : St -> Prop) (f : B -> A -> stm St blockchain_error B) l :
  (forall b a, a ∈ l -> preserves P (f b a)) -> forall b, preserves P (foldMs f b l).
Proof.
  induction l as [|a l IH]; intros Hf b; cbn [foldMs]; [apply preserves_ret|].
  apply preserves_bind; [apply Hf; left|]. intros b'. apply IH. intros b1 a1 Hin. apply Hf. by right.
Qed.

Section Storage.
Context (storage : S) (Hnonces : forall h tx, get_transaction storage h = Ok tx -> 0 <= tx.(nonce) < 2 ^ 64 - 1).

(** Consistent, and each transaction was there before or is one of [orphaned]
    that the storage has and no block executed. *)
Definition pool_from (orphaned : gset Hash) (before m : Mempool) : Prop := mempool_wf m /\
  forall h tx, m.(mp_txs) !! h = Some tx -> before.(mp_txs) !! h = Some tx \/
    h ∈ orphaned /\ get_transaction storage h = Ok tx.(st_tx) /\ is_tx_executed_in_a_block storage h = Ok false.

(** [pool_from] and the transactions of [before] are still there. *)
Definition pool_grown (orphaned : gset Hash) (before m : Mempool) : Prop :=
  pool_from orphaned before m /\ before.(mp_txs) ⊆ m.(mp_txs).

(** The transaction is in the pool, or was refused by a pool on the way to it. *)
Definition entered_or_refused (topoheight : Z) (before after : Mempool) (hash : Hash) (tx : Transaction) : Prop :=
  is_Some (after.(mp_txs) !! hash) \/
  exists m e, mempool_wf m /\ before.(mp_txs) ⊆ m.(mp_txs) /\ m.(mp_txs) ⊆ after.(mp_txs) /\
    add_tx_to_mempool (draws.(dr_entry) hash) draws.(dr_now) storage topoheight tx hash m = (Err e, m).

Lemma add_back_spec topoheight hash s s' :
  mempool_wf s -> add_back storage topoheight hash s = (Ok tt, s') ->
  pool_grown {[hash]} s s' /\
  forall tx, get_transaction storage hash = Ok tx -> is_tx_executed_in_a_block storage hash = Ok false ->
    entered_or_refused topoheight s s' hash tx.
Proof using Hnonces.
  intros Hw Hr. assert (pool_grown {[hash]} s s) as Hself by (split; [split; [done|]; by left|done]).
  unfold add_back in Hr. destruct (is_tx_executed_in_a_block storage hash) as [[]| | |] eqn:He; [..|done|done|done];
    rewrite lift_res_bind in Hr; cbn [negb] in Hr.
  { injection Hr as <-. split; [done|]. by intros. }
  destruct (get_transaction storage hash) as [tx| | |] eqn:Ht; [|by injection Hr as <-|done..].
  unfold try_entry in Hr. destruct (add_tx_to_mempool _ _ storage topoheight tx hash s) as [re s1] eqn:Ee.
  destruct (entry_run _ _ storage topoheight tx hash s re s1 Hw (Hnonces _ _ Ht) Ee) as [Hw' Hcase].
  destruct re as [[]|e| |]; [|injection Hr as <-; subst s1|done..].
  - injection Hr as <-. destruct Hcase as (Etxs & Hnew & _). apply bool_decide_eq_false in Hnew.
    assert (mp_txs s !! hash = None) as Hnone by (apply eq_None_not_Some; exact Hnew).
    split; [split|].
    + split; [exact Hw'|]. intros h tx'. rewrite Etxs. intros [[<- <-]|[_ Hh]]%lookup_insert_Some; [right|by left].
      split_and!; [set_solver|exact Ht|exact He].
    + rewrite Etxs. by apply insert_subseteq.
    + intros tx' [= <-] _. left. rewrite Etxs, lookup_insert_eq. eauto.
  - split; [exact Hself|]. intros tx' [= <-] _. right. exists s, e. by split_and!.
Qed.

(** The transactions are tried one after the other. *)
Lemma add_all_spec topoheight l s s' :
  mempool_wf s -> foldMs (fun _ hash => add_back storage topoheight hash) tt l s = (Ok tt, s') ->
  pool_grown (list_to_set l) s s' /\
  forall hash tx, hash ∈ l -> get_transaction storage hash = Ok tx -> is_tx_executed_in_a_block storage hash = Ok false ->
    entered_or_refused topoheight s s' hash tx.
Proof using Hnonces.
  revert s. induction l as [|hash l IH]; intros s Hw Hr; cbn [foldMs] in Hr.
  { injection Hr as <-. split; [split; [split; [done|]; by left|done]|by intros h tx ?%not_elem_of_nil]. }
  apply stm_bind_ok in Hr as ([] & s1 & H1 & Hr). apply add_back_spec in H1 as [[[Hw1 Hf1] Hs1] He1]; [|done].
  apply IH in Hr as [[[Hw2 Hf2] Hs2] He2]; [|done]. split; [split; [split; [done|]|by etrans]|].
  - intros h tx [Hh|(Hin & ? & ?)]%Hf2; [apply Hf1 in Hh as [?|(Hin & ? & ?)]; [by left|]|]; right; split_and!; set_solver.
  - intros h tx [->|Hin]%list.elem_of_cons Ht He.
    + destruct (He1 tx Ht He) as [[x Hx]|(m & e & Hm & M1 & M2 & Hadd)].
      * left. exists x. by eapply lookup_weaken.
      * right. exists m, e. split_and!; [done..|by etrans|done].
    + destruct (He2 h tx Hin Ht He) as [?|(m & e & Hm & M1 & M2 & Hadd)]; [by left|].
      right. exists m, e. split_and!; [done|by etrans|done..].
Qed.

Lemma add_back_preserves orphaned before topoheight hash :
  hash ∈ orphaned -> preserves (pool_from orphaned before) (add_back storage topoheight hash).
Proof using Hnonces.
  intros Hin. apply preserves_known. intros [] He; [apply preserves_ret|]. cbn [negb]. intros s r s' Hs Hr.
  destruct (get_transaction storage hash) as [tx| | |] eqn:Ht; [|by injection Hr as <- <-..].
  unfold try_entry in Hr. destruct (add_tx_to_mempool _ _ storage topoheight tx hash s) as [re s1] eqn:Ee.
  destruct Hs as [Hw Hfrom].
  destruct (entry_settled _ _ storage topoheight tx hash s re s1 Hw (Hnonces _ _ Ht) Ee) as [Hw' Hcase]. clear Ee.
  assert (pool_from orphaned before s1) as Hs1.
  { split; [exact Hw'|]. destruct Hcase as [->|Etxs]; [exact Hfrom|]. intros h tx'. rewrite Etxs.
    intros [[<- <-]|[_ Hh]]%lookup_insert_Some; [by right|by apply Hfrom]. }
  by destruct re; injection Hr as <- <-.
Qed.

(** The transactions that need not enter again. *)
Lemma forget_deleted_spec tracked deleted orphaned orphaned' :
  forget_deleted storage tracked deleted orphaned = Ok orphaned' ->
  orphaned' = if tracked then orphaned ∖ list_to_set deleted.*1 else orphaned.
Proof.
  unfold forget_deleted. destruct tracked; [|by intros [= <-]]. revert orphaned.
  induction deleted as [|[h tx] deleted IH]; intros orphaned; cbn [foldM].
  { intros [= <-]. apply leibniz_equiv. set_solver. }
  intros (o & (e & _ & [= <-])%res_bind_ok & ->%IH)%res_bind_ok. apply leibniz_equiv. set_solver.
Qed.

(** What the update does: the cleaning leaves [mid], where the first transaction
    of each sender has the nonce of its account; then each orphaned transaction
    that is stored and not executed is in the pool or was refused by it. *)
Definition pool_updated (tracked : bool) (topoheight highest : Z) (orphaned : gset Hash) (before after : Mempool) : Prop :=
  exists deleted mid orphaned',
    (if topoheight <=? highest
     then clean_up draws.(dr_cleaning) storage highest before = (Ok deleted, mid) /\
       forall key c, mid.(mp_caches) !! key = Some c -> exists t v, get_last_nonce storage key = Ok (t, v) /\ c.(ac_min) = v.(vn_nonce)
     else deleted = [] /\ mid = before) /\
    orphaned' = (if tracked then orphaned ∖ list_to_set deleted.*1 else orphaned) /\
    pool_grown orphaned' mid after /\
    forall hash tx, hash ∈ orphaned' -> get_transaction storage hash = Ok tx -> is_tx_executed_in_a_block storage hash = Ok false ->
      entered_or_refused topoheight mid after hash tx.

Lemma update_mempool_spec tracked topoheight highest orphaned before after :
  mempool_wf before -> update_mempool storage tracked topoheight highest orphaned before = (Ok tt, after) ->
  pool_updated tracked topoheight highest orphaned before after.
Proof using Hnonces.
  intros Hw Hr. unfold update_mempool in Hr. apply stm_bind_ok in Hr as (deleted & mid & Hclean & Hr).
  apply stm_bind_ok in Hr as (orphaned' & m & [= Hf <-] & Hr).
  assert (mempool_wf mid) as Hmid.
  { destruct (topoheight <=? highest); [by apply clean_up_run in Hclean as [? _]|by injection Hclean as _ <-]. }
  apply add_all_spec in Hr as [Hg He]; [|done].
  exists deleted, mid, orphaned'. split; [|split; [by apply forget_deleted_spec|split]].
  - destruct (topoheight <=? highest); [|by injection Hclean as <- <-]. split; [done|]. by apply clean_up_run in Hclean as (_ & ? & _).
  - destruct Hg as [[Hw' Hfrom] Hsub]. split; [split; [done|]|done]. intros h tx [?|(Hin & ?)]%Hfrom; [by left|right].
    split; [|done]. apply elem_of_list_to_set in Hin. by apply hs_iter_elem.
  - intros hash tx Hin. apply He. by apply hs_iter_elem.
Qed.

Lemma update_mempool_preserves before tracked topoheight highest orphaned :
  preserves (pool_from orphaned before) (update_mempool storage tracked topoheight highest orphaned).
Proof using Hnonces.
  apply preserves_bind.
  - destruct (topoheight <=? highest); [|apply preserves_ret]. intros s r s' [Hw Hfrom] Hr. destruct r as [d|e| |]; [| |done..].
    + apply clean_up_run in Hr as (Hw' & _ & Hsub & _); [|done]. split; [done|]. intros h tx Hh.
      destruct (Hsub h) as [E|E]; rewrite E in Hh; [done|by apply Hfrom].
    + by apply clean_up_no_error in Hr.
  - intros deleted. apply preserves_known. intros o Ho. apply preserves_fold_in. intros _ h Hin.
    apply add_back_preserves. apply forget_deleted_spec in Ho as ->. apply hs_iter_elem in Hin. destruct tracked; set_solver.
Qed.
End Storage.

(** C13: the pool follows the chain.  Whatever block [add_new_block_for_storage]
    receives: refused at its checks, it changes neither the chain nor the pool;
    when the chain fails later, the pool is as before.  When the chain is
    updated, the pool is cleaned, if the order of the DAG reached the topoheight
    of the chain: the first transaction left of each sender then has the nonce
    of the sender's account in the new storage.  After that, each transaction
    that the change of the order left without a block, that is still stored and
    executed in no block, is in the pool or was refused by it; those the
    cleaning deleted are not tried again when they are reported.  What was left
    stays, nothing else enters, and the pool is consistent if it was.  An error
    of the update leaves a consistent pool too, with no other transactions than
    these; nothing is said of a pool after a panic. *)
Theorem pool_follows_block fuel tracked block c r c' :
  mempool_wf c.(cp_pool) ->
  (forall h tx, get_transaction c'.(cp_node).(n_storage) h = Ok tx -> 0 <= tx.(nonce) < 2 ^ 64 - 1) ->
  add_new_block fuel tracked block c = (r, c') ->
  match check_block fuel c.(cp_node).(n_chain) c.(cp_node).(n_storage) block draws.(dr_now) draws.(dr_block) with
  | Ok (difficulty, p) =>
      match add_checked_block DEV_PUBLIC_KEY draws.(dr_execution) fuel (header_hash block.(header)) block difficulty p c.(cp_node) with
      | (Ok (highest, orphaned), n) =>
          c'.(cp_node) = n /\
          match r with
          | Ok _ => pool_updated n.(n_storage) tracked n.(n_chain).(bc_topoheight) highest orphaned c.(cp_pool) c'.(cp_pool)
          | Err _ => pool_from n.(n_storage) orphaned c.(cp_pool) c'.(cp_pool)
          | Panic | Diverge => True
          end
      | (_, n) => is_ok r = false /\ c' = mkChainPool n c.(cp_pool)
      end
  | _ => is_ok r = false /\ c' = c
  end.
Proof.
  intros Hw Hn Hr. unfold add_new_block in Hr.
  assert (forall st o, pool_from st o c.(cp_pool) c.(cp_pool)) as Hself by (intros st o; split; [done|]; intros h tx Hh; by left).
  rewrite (stm_bind_run _ _ _ _ _ (eq_refl : st_get c = (Ok c, c))) in Hr.
  destruct (check_block _ _ _ _ _ _) as [[difficulty p]| | |]; [|by injection Hr as <- <-..].
  rewrite lift_res_bind in Hr. unfold mbind, stm_bind, on_chain_node in Hr.
  destruct (add_checked_block _ _ _ _ _ _ _ _) as [[[highest orphaned]|e| |] n]; [|by injection Hr as <- <-..].
  unfold on_pool in Hr. cbn [cp_node cp_pool] in Hr.
  destruct (update_mempool _ _ _ _ _ _) as [r1 m1] eqn:Eu. injection Hr as <- <-. cbn [cp_node cp_pool] in *.
  split; [done|]. pose proof (update_mempool_preserves _ Hn _ _ _ _ _ _ _ _ (Hself _ _) Eu) as Hk.
  destruct r1 as [[]|e| |]; [|exact Hk|done..]. by apply update_mempool_spec.
Qed.
End BlockPool.
