(* ===== verification/BlockPoolModel.v ===== *)
(** The pool on a concrete storage: a transaction enters the empty pool and
    stays when the pool is cleaned; a template is made from this pool.  Then a
    block reaches a chain whose cleaning deletes the transaction, and one
    reaches a chain whose order changes, so that a transaction enters again. *)

From S2P Require Import Prelude External ExternalModel ExternalCrypto Serializer Hash VarUint Defaults Elgamal Proofs Transaction Verify VerifyFacts VerifyModel Block Errors Account Versions Storage VersionedTree StorageFacts ClientProtocol BlockStorage Dag Providers DagOrder DagWalks BlockProviders BlockStorageFacts DagBase NonceChecker Emission StorageLaws Rewind ChainProviders Reference ChainState BlockCheck Execution Reorder ExecutionModel TxSelector Mempool MempoolFacts MempoolClean Template TemplateFacts TemplateTips BlockPool.

#[local] Existing Instances curve_model merlin_model range_proof_model sled_model hash_map_model iset_model.

(** The transaction of [VerifyModel] with the fee that is asked for. *)
Definition p_fee : Z := 10000.
Definition p_balance : Ciphertext := Key.encrypt_with_opening w_key (s_from_u64 (100 + p_fee)) (mkOpening (fs 9)).
Definition p_transcript : transcript :=
  let t := prepare_transcript 0 v_key p_fee 7 in
  let t := Transcript.new_commitment_eq_proof_domain_separator t in
  let t := Transcript.append_hash (lit "new_source_commitment_asset") XELIS_ASSET t in
  Transcript.append_commitment (lit "new_source_commitment") (pedersen_compress v_commitment) t.
Definition p_unsigned (sig : Signature) : Transaction :=
  let left := ct_sub_u64 p_balance (12 + p_fee) in
  let p := eq_proof_new w_pair left v_opening 88 (fs 2) (fs 3) (fs 6) p_transcript in
  transaction_new v_key (Burn (mkBurn XELIS_ASSET 12)) p_fee 7
    [mkSourceCommitment (pedersen_compress v_commitment) p.1 XELIS_ASSET]
    w_range (mkReference HashOps.max 55) sig.
Definition p_tx : Transaction :=
  let bytes := to_bytes (p_unsigned (mkSignature (fs 0) (fs 0))) in
  p_unsigned (Key.sign w_pair (fs 11) (take (length bytes - SIGNATURE_SIZE) bytes)).

Definition p_storage : SledStorage :=
  Storage.set_last_nonce_to v_key 3 (mkVNonce 7 None)
    (Storage.set_last_balance_to v_key XELIS_ASSET 3 (balance_new (Decompressed p_balance) None) s_assets).

Definition p_empty : Mempool := mempool_new true.
#[local] Abbreviation p_entered := (add_tx_to_mempool v_rnd 1000 p_storage 60 p_tx HashOps.max p_empty).
Lemma p_entered_done : is_done p_entered = true.
Proof. vm_cast_no_check (eq_refl true). Qed.
Lemma p_entered_run : p_entered = (Ok tt, p_entered.2).
Proof. exact (is_done_ok p_entered p_entered_done). Qed.
Lemma p_nonce : 0 <= nonce p_tx < 2 ^ 64 - 1.
Proof. split; [apply Z.leb_le|apply Z.ltb_lt]; vm_cast_no_check (eq_refl true). Qed.
Lemma p_entered_wf : mempool_wf p_entered.2.
Proof.
  pose proof p_entered_run as E. apply MempoolFacts.entry_ok in E as (_ & _ & _ & E).
  exact (proj1 (add_tx_run v_rnd 1000 p_storage 60 _ p_tx _ p_empty _ (mempool_new_wf true) (lookup_empty _) p_nonce E)).
Qed.

Lemma entry_keeps_pool_witness :
  mempool_wf p_empty /\ mempool_wf p_entered.2 /\ p_entered.2.(mp_txs) = <[HashOps.max := mkSortedTx p_tx 1000 (size p_tx)]> ∅.
Proof.
  split; [apply mempool_new_wf|].
  destruct (entry_keeps_pool v_rnd 1000 p_storage 60 p_tx HashOps.max p_empty (Ok tt) p_entered.2 (mempool_new_wf true)
    p_nonce p_entered_run) as (Hw & Ht & _).
  exact (conj Hw Ht).
Defined.

Lemma nonce_used_exact_witness : exists b, is_nonce_used v_key 7 p_entered.2 = Ok b /\
  (b = true <-> exists h tx, p_entered.2.(mp_txs) !! h = Some tx /\ tx.(st_tx).(source) = v_key /\ tx.(st_tx).(nonce) = 7).
Proof.
  exact (nonce_used_exact p_entered.2 v_key 7 p_entered_wf
    (conj (Zle_bool_imp_le 0 7 eq_refl) (proj1 (Z.ltb_lt 7 (2 ^ 64)) eq_refl))).
Defined.

#[local] Abbreviation p_cleaned := (clean_up (fun _ => v_rnd) p_storage 60 p_entered.2).
Lemma p_cleaned_done : match p_cleaned with (Ok [], m) => contains_tx HashOps.max m | _ => false end = true.
Proof. vm_cast_no_check (eq_refl true). Qed.
Lemma p_cleaned_run : p_cleaned = (Ok [], p_cleaned.2).
Proof. pose proof p_cleaned_done as E. by destruct p_cleaned as [[[|]| | |] m]. Qed.

Lemma clean_up_keeps_pool_witness : mempool_wf p_entered.2 /\ mempool_wf p_cleaned.2.
Proof.
  split; [exact p_entered_wf|].
  exact (proj1 (proj2 (clean_up_keeps_pool (fun _ => v_rnd) p_storage 60 p_entered.2 (Ok []) p_cleaned.2 p_entered_wf p_cleaned_run) [] eq_refl)).
Defined.

(** ** A template, and a block that arrives *)

#[local] Existing Instances u256_model blake3_model xelis_hash_model transactions_heap lru_model.
#[local] Instance imap_Z : IndexMapLib Z Z := imap_model Z Z.

Definition p_header : BlockHeader := header_new 0 0 1000 iset_new (vreplicate 32 x00) s_key iset_new.
Definition p_self : Blockchain := mkBlockchain 60 60 50 Testnet true true.
#[local] Abbreviation p_filled := (fill_block (fun _ => v_rnd) p_self p_storage p_entered.2 p_header).
Lemma p_entered_txs : p_entered.2.(mp_txs) = <[HashOps.max := mkSortedTx p_tx 1000 (size p_tx)]> ∅.
Proof.
  destruct (entry_run v_rnd 1000 p_storage 60 p_tx HashOps.max p_empty (Ok tt) p_entered.2 (mempool_new_wf true)
    p_nonce p_entered_run) as (_ & Ht & _). exact Ht.
Qed.
(** The sizes of a pool with one transaction. *)
Lemma single_size (txs : gmap Hash SortedTx) hash tx now :
  txs = <[hash := mkSortedTx tx now (size tx)]> ∅ -> forall h t, txs !! h = Some t -> t.(st_size) = size t.(st_tx).
Proof. intros -> h t [[_ <-]|[_ Hh]]%lookup_insert_Some; [done|]. by rewrite lookup_empty in Hh. Qed.

Lemma ok_of {A} (r : bres A) (P : A -> bool) : match r with Ok h => P h | _ => false end = true -> exists h, r = Ok h.
Proof. destruct r; [eauto|done..]. Qed.

Lemma p_filled_run : exists h, p_filled = Ok h.
Proof. apply (ok_of p_filled (fun h => (iset_len h.(bh_txs_hashes) =? 1)%nat)). vm_cast_no_check (eq_refl true). Qed.
Lemma case_of {A} (r : bres A) (P : A -> Prop) (Q R : Prop) :
  match r with Ok h => P h | Err _ => False | Panic => Q | Diverge => R end -> (exists h, r = Ok h) -> exists h, r = Ok h /\ P h.
Proof. intros Hr [h E]. subst r. eauto. Qed.

Lemma template_block_witness : exists h b,
  p_filled = Ok h /\ build_block_from_header p_storage p_entered.2 h = Ok b /\ (size b < MAX_BLOCK_SIZE + HASH_SIZE)%nat.
Proof.
  destruct (case_of p_filled _ _ _ (template_block (fun _ => v_rnd) p_self p_storage p_entered.2 p_header p_entered_wf
    (single_size _ _ _ _ p_entered_txs) eq_refl (Nat.le_0_l _)) p_filled_run)
    as (h & Eh & b & Hb & _ & _ & Hs & _).
  exists h, b. split; [exact Eh|]. split; [exact Hb|exact Hs].
Defined.

(** ** A block reaches the chain *)

(** A chain of four blocks, where the nonce of the sender is 8 from the last one
    on: the transaction of the pool, with the nonce 7, can no longer be
    executed.  The block that arrives has no transaction. *)
Definition c_fill (n : Z) : stm SledStorage blockchain_error () :=
  _ ← BlockStorage.save_block (r_header n iset_new) [] VarUint.one VarUint.one (r_past n);
  _ ← set_cumulative_difficulty_for_block_hash (r_past n) VarUint.one;
  st_modify (Storage.set_topo_height_for_block (r_past n) n).
Definition c_save : stm SledStorage blockchain_error () :=
  _ ← c_fill 1;
  _ ← c_fill 2;
  _ ← c_fill 3;
  _ ← BlockStorage.save_block (r_header 4 iset_new) [] VarUint.one VarUint.one r_base;
  _ ← set_cumulative_difficulty_for_block_hash r_base VarUint.one;
  _ ← st_modify (Storage.set_topo_height_for_block r_base 4);
  _ ← st_modify (BlockStorage.set_supply_at_topo_height 4 1000);
  _ ← store_tips {[r_base]};
  st_modify (Storage.set_last_nonce_to v_key 4 (mkVNonce 8 (Some 3))).
Definition c_storage : SledStorage := (c_save p_storage).2.
Definition c_self : Blockchain := mkBlockchain 4 4 4 Testnet true true.
Definition c_block : Block := mkBlock (mkHeader 0 r_tips 1001 5 0 (vreplicate 32 x00) s_key iset_new) [].
Definition c_draws : Draws := mkDraws (fun _ => s0) (fun _ _ => s0) (fun _ => v_rnd) (fun _ => v_rnd) 2000.

#[local] Instance c_lru1 : LruLib (Hash * Z) (Hash * Z) := lru_model _ _.
#[local] Instance c_lru2 : LruLib (Hash * Hash * Z) (gset Hash * VarUint.t) := lru_model _ _.
#[local] Instance c_lru3 : LruLib (Hash * Hash * Z) (iset Hash) := lru_model _ _.
Definition c_chain : ChainPool (S:=SledStorage) :=
  mkChainPool (mkNode c_storage (lru_new 4) (lru_new 4) (lru_new 4) c_self 4 VarUint.zero) p_entered.2.
#[local] Abbreviation c_added := (add_new_block s_key c_draws 20 true c_block c_chain).


(** A chain where the last block executed the transaction: it leaves the order
    when a block of a greater difficulty arrives on the same parent, and its
    transaction enters the empty pool. *)
Definition d_fill (n : Z) : stm SledStorage blockchain_error () :=
  _ ← BlockStorage.save_block (r_header n iset_new) [] VarUint.one VarUint.one (r_past (100 + n));
  _ ← set_cumulative_difficulty_for_block_hash (r_past (100 + n)) VarUint.one;
  st_modify (Storage.set_topo_height_for_block (r_past (100 + n)) (50 + n)).
Definition d_tx_hash : Hash := r_past 200.
Definition d_old_header : BlockHeader := mkHeader 0 r_tips 1000 11 0 (vreplicate 32 x00) s_key (iset_extend iset_new [d_tx_hash]).
Definition d_save : stm SledStorage blockchain_error () :=
  _ ← foldMs (fun _ n => d_fill n) tt (seqZ 1 9);
  _ ← BlockStorage.save_block (r_header 10 iset_new) [] VarUint.one VarUint.one r_base;
  _ ← set_cumulative_difficulty_for_block_hash r_base VarUint.one;
  _ ← st_modify (Storage.set_topo_height_for_block r_base 60);
  _ ← st_modify (BlockStorage.set_supply_at_topo_height 60 1000);
  _ ← BlockStorage.save_block d_old_header [p_tx] VarUint.one VarUint.one r_old;
  _ ← set_cumulative_difficulty_for_block_hash r_old VarUint.one;
  _ ← st_modify (Storage.set_topo_height_for_block r_old 61);
  _ ← st_modify (BlockStorage.set_supply_at_topo_height 61 2000);
  _ ← set_tx_executed_in_block d_tx_hash r_old;
  _ ← store_tips {[r_old]};
  st_modify (Storage.set_last_nonce_to v_key 61 (mkVNonce 8 (Some 3))).
Definition d_storage : SledStorage := (d_save p_storage).2.
Definition d_self : Blockchain := mkBlockchain 11 61 10 Testnet true true.
Definition d_block : Block := mkBlock (mkHeader 0 r_tips 1001 11 0 (vreplicate 32 x00) s_key iset_new) [].
Definition d_chain : ChainPool (S:=SledStorage) :=
  mkChainPool (mkNode d_storage (lru_new 4) (lru_new 4) (lru_new 4) d_self 60 VarUint.zero) p_empty.
#[local] Abbreviation d_added := (add_new_block s_key c_draws 20 true d_block d_chain).


Lemma c_added_done : is_done c_added && negb (contains_tx HashOps.max c_added.2.(cp_pool)) = true.
Proof. vm_cast_no_check (eq_refl true). Qed.
Lemma d_added_done : is_done d_added && contains_tx d_tx_hash d_added.2.(cp_pool) = true.
Proof. vm_cast_no_check (eq_refl true). Qed.
Lemma done_and {A} (r : bres () * A) b : is_done r && b = true -> r = (Ok tt, r.2) /\ b = true.
Proof. intros [E ->]%andb_true_iff. split; [by apply is_done_ok|done]. Qed.

(** The transactions that a storage holds have a nonce below the last one. *)
Definition small_nonces (st : SledStorage) : bool :=
  forallb (fun p => match from_bytes (A:=Transaction) p.2 with Ok tx => (0 <=? tx.(nonce)) && (tx.(nonce) <? 2 ^ 64 - 1) | _ => true end)
    (map_to_list (M:=gmap (list byte) (list byte)) (t_transactions (block_trees st))).
Lemma small_nonces_ok st : small_nonces st = true ->
  forall h tx, get_transaction st h = Ok tx -> 0 <= tx.(nonce) < 2 ^ 64 - 1.
Proof.
  intros Hs h tx. cbn [get_transaction sled_transactions]. unfold BlockStorage.get_transaction, load_from_disk.
  destruct (tree_get (hash_bytes h) (t_transactions (block_trees st))) as [bytes|] eqn:Hg; [|done]. intros Htx.
  apply map_err_ok in Htx. assert ((hash_bytes h, bytes) ∈ map_to_list (M:=gmap (list byte) (list byte)) (t_transactions (block_trees st))) as Hin
    by by apply elem_of_map_to_list.
  apply list_elem_of_In in Hin. pose proof (proj1 (forallb_forall _ _) Hs _ Hin) as Hp. cbn [snd] in Hp. rewrite Htx in Hp.
  by apply andb_true_iff in Hp as [?%Z.leb_le ?%Z.ltb_lt].
Qed.
Lemma c_nonces : small_nonces c_added.2.(cp_node).(n_storage) = true.
Proof. vm_cast_no_check (eq_refl true). Qed.
Lemma d_nonces : small_nonces d_added.2.(cp_node).(n_storage) = true.
Proof. vm_cast_no_check (eq_refl true). Qed.

#[local] Abbreviation updated c before := (exists highest orphaned,
  pool_updated c_draws c.(cp_node).(n_storage) true c.(cp_node).(n_chain).(bc_topoheight) highest orphaned before c.(cp_pool)).

(** Of the cases of the theorem, the chain that is updated. *)
Ltac updated_case :=
  match goal with |- context [check_block ?a ?b ?c ?d ?e ?f] => generalize (check_block a b c d e f) end;
  intros [[difficulty p]|e| |]; [|intros [? _]; discriminate..];
  match goal with |- context [add_checked_block ?a ?b ?c ?d ?e ?f ?g ?h] => generalize (add_checked_block a b c d e f g h) end;
  intros [[[highest orphaned]|e| |] n]; [|intros [? _]; discriminate..];
  intros [E H]; rewrite <- E in H; exists highest, orphaned; exact H.

Lemma pool_follows_block_witness :
  (updated c_added.2 p_entered.2 /\ negb (contains_tx HashOps.max c_added.2.(cp_pool)) = true) /\
  updated d_added.2 p_empty /\ contains_tx d_tx_hash d_added.2.(cp_pool) = true.
Proof.
  destruct (done_and _ _ c_added_done) as [Ec Hc], (done_and _ _ d_added_done) as [Ed Hd]. split; split; [|exact Hc| |exact Hd].
  - pose proof (pool_follows_block s_key c_draws 20 true c_block c_chain (Ok tt) c_added.2
      p_entered_wf (small_nonces_ok _ c_nonces) Ec) as H. revert H. updated_case.
  - pose proof (pool_follows_block s_key c_draws 20 true d_block d_chain (Ok tt) d_added.2
      (mempool_new_wf true) (small_nonces_ok _ d_nonces) Ed) as H. revert H. updated_case.
Defined.
