(* ===== verification/Packets.v ===== *)
(** The packets of the peer-to-peer protocol ([p2p/packet/] of the daemon) and
    their encoding.

    Each packet is shown to be a codec in the sense of [Serializer]: reading
    inverts writing at any position, never panics, and accepts no other
    encoding.  [Packet] puts them together behind an identifier. *)

From S2P Require Import Prelude External ExternalModel ExternalCrypto Serializer Hash Defaults VarUint Difficulty Elgamal Proofs Transaction Block Account BlockCheck.

Definition CHAIN_SYNC_REQUEST_MAX_BLOCKS : Z := 64.
Definition CHAIN_SYNC_RESPONSE_MIN_BLOCKS : Z := 512.
Definition CHAIN_SYNC_RESPONSE_MAX_BLOCKS : Z := 16384.
Definition CHAIN_SYNC_TOP_BLOCKS : Z := 10.
Definition P2P_PING_PEER_LIST_LIMIT : nat := 16.
Definition NOTIFY_MAX_LEN : Z := 16384.

(** ** What a packet promises of its reader *)

(** Some fields have more than one accepted encoding (a [VarUint] may be sent
    with bytes to trim), so a packet is not a canonical codec: what its reader
    promises beyond [Codec] is that whatever it accepts is well formed, hence
    read back from its own bytes. *)
Class CodecSound (A : Type) (enc : A -> list byte) (dec : rd A) (wf : A -> Prop) : Prop := {
  sound_codec : Codec A enc dec wf;
  codec_wf pre post x r : dec (reader_at pre post) = Ok (x, r) -> wf x;
}.
#[export] Hint Mode CodecSound + - + - : typeclass_instances.
Abbreviation sound_of H := (@sound_codec _ _ _ _ H).
#[export] Instance canon_sound `{HC : CodecCanon A enc dec wf} : CodecSound A enc dec wf.
Proof. split; [apply HC|]. intros * Hr. by apply codec_sound in Hr as [? _]. Qed.

Class SerSound (A : Type) `{SerOk A} : Prop := {
  ser_sound :: CodecSound A to_bytes read ser_wf;
}.
#[export] Instance canon_ser_sound `{HC : SerCanon A} : SerSound A.
Proof. split. apply _. Qed.

Lemma mk_codec_sound {A} (enc : A -> list byte) (dec : rd A) (wf : A -> Prop) :
  (forall x pre post,
     wf x -> dec (reader_at pre (enc x ++ post)) = Ok (x, reader_at (pre ++ enc x) post)) ->
  (forall pre post, fwd pre post (dec (reader_at pre post))) ->
  (forall pre post x r, dec (reader_at pre post) = Ok (x, r) -> wf x) ->
  CodecSound A enc dec wf.
Proof. intros H1 H2 H3. split; [split|]; assumption. Qed.
Lemma mk_SerSound `{HO : SerOk A} (enc : A -> list byte) wf :
  (forall x, wf x -> ser_wf x) -> CodecSound A enc read wf -> SerSound A.
Proof.
  intros Hwf HC. split. split; [apply _|]. intros pre post x r Hr.
  apply Hwf, (@codec_wf _ _ _ _ HC pre post x r Hr).
Qed.

(** Inverting an accepted sequence of reads, forgetting the positions. *)
Lemma wf_bind `{HC : CodecSound A enc dec wf} {B} (f : A -> rd B) pre post y r :
  (dec ≫= f) (reader_at pre post) = Ok (y, r) ->
  exists x pre' post', wf x /\ f x (reader_at pre' post') = Ok (y, r).
Proof.
  unfold mbind, rd_bind. pose proof (@codec_safe _ _ _ _ (@sound_codec _ _ _ _ HC) pre post) as Hs.
  destruct (dec (reader_at pre post)) as [[x r']| | |] eqn:Hd; try done.
  destruct Hs as (c & post' & _ & ->). apply (@codec_wf _ _ _ _ HC) in Hd. eauto.
Qed.

(** A reader that accepts a value is inverted down to the facts of its reads. *)
Ltac inv_wf H :=
  unfold_read_in H;
  repeat lazymatch type of H with
  | (mbind ?f ?dec) (reader_at ?pre ?post) = Ok _ =>
      let x := fresh "x" in let a := fresh "pre" in let p := fresh "post" in let Hw := fresh "Hwf" in
      apply wf_bind in H as (x & a & p & Hw & H); cbn beta iota in H
  | (if ?c then rd_err _ else _) _ = Ok _ =>
      let E := fresh "Hcond" in destruct c eqn:E; [discriminate H|]
  | (mret _) _ = Ok _ => injection H as ? ?
  | rd_err _ _ = Ok _ => discriminate H
  end.

(** Reading a value behind its tag, and the tags a successful read can have. *)
Ltac run_tagged :=
  unfold_read; rewrite <- ?(assoc_L (++)); rd_step; [|done]; cbn [Z.eqb Pos.eqb];
  repeat (rd_step; [|try done; eauto]); rewrite <- ?(assoc_L (++)); try reflexivity.
Ltac read_tags H :=
  lazymatch type of H with
  | (if ?x =? ?k then _ else _) _ = _ => destruct (Z.eqb_spec x k) as [->|_]; [|read_tags H]
  | rd_err _ _ = _ => discriminate H
  end.

(** ** The loops *)

(** The loop that fills an [IndexSet] and refuses a duplicate or a value that
    is [bad]. *)
Fixpoint read_set_unless `{IndexSetLib A} (e : ReaderError) (bad : A -> bool) (dec : rd A) (n : nat)
    (s : iset A) : rd (iset A) :=
  match n with
  | O => mret s
  | S n =>
      x ← dec;
      if bad x then rd_err e
      else
        let '(fresh, s') := iset_insert x s in
        if fresh then read_set_unless e bad dec n s' else rd_err e
  end.

(** The loop that fills an [IndexSet] of a type whose [Hash] and [PartialEq]
    only look at one field, [key]: the set is the list of its elements, with
    distinct keys. *)
Fixpoint read_distinct {A K} `{EqDecision K} (e : ReaderError) (key : A -> K) (dec : rd A) (n : nat)
    (s : list A) : rd (list A) :=
  match n with
  | O => mret s
  | S n =>
      x ← dec;
      if decide (key x ∈ key <$> s) then rd_err e else read_distinct e key dec n (s ++ [x])
  end.

Section Loops.
Context `{HC : CodecSound A enc dec wf} (e : ReaderError).
#[local] Existing Instance sound_codec.

Lemma read_distinct_codec {K} `{EqDecision K} (key : A -> K) n :
  CodecSound (list A) (concat_bytes enc) (read_distinct e key dec n [])
    (fun l => length l = n /\ Forall wf l /\ NoDup (key <$> l)).
Proof.
  apply mk_codec_sound.
  - intros l pre post (Hl & Hwf & Hnd).
    assert (forall s pre, NoDup (key <$> (s ++ l)) ->
      read_distinct e key dec n s (reader_at pre (concat_bytes enc l ++ post))
        = Ok (s ++ l, reader_at (pre ++ concat_bytes enc l) post)) as Hrun; [|by apply (Hrun [])].
    clear Hnd pre. revert l Hl Hwf. induction n as [|n IH]; intros [|x l] Hl Hwf s pre Hnd; try done; cbn [read_distinct].
    { by rewrite !app_nil_r. }
    inversion_clear Hwf. rewrite concat_bytes_cons, <- (assoc_L (++)), run_bind by done.
    rewrite decide_False.
    2: { rewrite fmap_app in Hnd. apply list.NoDup_app in Hnd as (_ & Hd & _). intros Hx. apply (Hd _ Hx). left. }
    rewrite IH; [by rewrite <- !(assoc_L (++))|simpl in *; lia|done|by rewrite <- (assoc_L (++))].
  - generalize (@nil A) as s. induction n as [|n IH]; intros s pre post; cbn [read_distinct].
    { apply fwd_ret. }
    apply fwd_bind. intros x pre' post'. case_decide; [apply fwd_err|apply IH].
  - assert (forall s pre post l r, read_distinct e key dec n s (reader_at pre post) = Ok (l, r) ->
      NoDup (key <$> s) -> exists l', l = s ++ l' /\ length l' = n /\ Forall wf l' /\ NoDup (key <$> l)) as Hs.
    { induction n as [|n IH]; intros s pre post l r Hr Hnd; cbn [read_distinct] in Hr.
      { injection Hr as <- <-. exists []. by rewrite app_nil_r. }
      apply wf_bind in Hr as (x & pre' & post' & Hx & Hr). case_decide as Hk; [done|].
      apply IH in Hr as (l' & -> & Hl & Hf & Hnd').
      - exists (x :: l'). rewrite <- !(assoc_L (++)) in *. split_and!; [done|simpl; lia|by constructor|done].
      - rewrite fmap_app. apply list.NoDup_app. split_and!; [done| |apply NoDup_singleton].
        by intros ? Hin ->%list_elem_of_singleton. }
    intros pre post l r Hr. apply Hs in Hr as (l' & -> & Hl & Hf & Hnd); [done|constructor].
Qed.

Context `{HS : IndexSetLib A}.

Lemma read_set_unless_codec bad n :
  CodecSound (iset A) (fun s => concat_bytes enc (iset_list s)) (read_set_unless e bad dec n iset_new)
    (fun s => iset_len s = n /\ Forall wf (iset_list s) /\ Forall (fun x => bad x = false) (iset_list s)).
Proof.
  apply mk_codec_sound.
  - intros t pre post (Hl & Hwf & Hb).
    assert (forall n l s pre, length l = n -> Forall wf l -> Forall (fun x => bad x = false) l ->
      NoDup (iset_list s ++ l) ->
      read_set_unless e bad dec n s (reader_at pre (concat_bytes enc l ++ post))
        = Ok (iset_extend s l, reader_at (pre ++ concat_bytes enc l) post)) as Hrun.
    { clear t pre Hl Hwf Hb n. induction n as [|n IH]; intros [|x l] s pre Hl Hwf Hb Hnd; try done; cbn [read_set_unless].
      { by rewrite app_nil_r. }
      inversion_clear Hwf. inversion_clear Hb as [|?? Hx Hb'].
      rewrite concat_bytes_cons, <- (assoc_L (++)), run_bind, Hx by done.
      assert (x ∉ iset_list s) as Hn.
      { intros Hn. apply list.NoDup_app in Hnd as (_ & Hd & _). apply (Hd x Hn). left. }
      destruct (iset_insert_fresh x s Hn) as (s' & Hi & Hs'). rewrite Hi. cbn [iset_extend foldl]. rewrite Hi.
      rewrite IH; [by rewrite <- !(assoc_L (++))|simpl in *; lia|done|done|by rewrite Hs', <- (assoc_L (++))]. }
    rewrite Hrun; try done; rewrite ?iset_new_spec; [|apply iset_NoDup].
    repeat f_equal. apply iset_ext. rewrite iset_extend_list; rewrite iset_new_spec; [done|apply iset_NoDup].
  - generalize iset_new as s. induction n as [|n IH]; intros s pre post; cbn [read_set_unless].
    { apply fwd_ret. }
    apply fwd_bind. intros x pre' post'. destruct (bad x); [apply fwd_err|].
    destruct (iset_insert x s) as [[] s']; [apply IH|apply fwd_err].
  - assert (forall s pre post t r, read_set_unless e bad dec n s (reader_at pre post) = Ok (t, r) ->
      exists l, iset_list t = iset_list s ++ l /\ length l = n /\ Forall wf l /\ Forall (fun x => bad x = false) l) as Hs.
    { induction n as [|n IH]; intros s pre post t r Hr; cbn [read_set_unless] in Hr.
      { injection Hr as <- <-. exists []. by rewrite app_nil_r. }
      apply wf_bind in Hr as (x & pre' & post' & Hx & Hr). destruct (bad x) eqn:Hb; [done|].
      destruct (iset_insert x s) as [[] s'] eqn:Hi; [|done]. apply iset_insert_true in Hi as [_ Hs'].
      apply IH in Hr as (l & Hl & Hn & Hf & Hg). exists (x :: l).
      rewrite Hl, Hs', <- (assoc_L (++)). split_and!; [done|simpl; lia|by constructor|by constructor]. }
    intros pre post t r (l & Hl & Hn & Hf & Hg)%Hs. unfold iset_len. by rewrite Hl, iset_new_spec.
Qed.
End Loops.

(** *** [network.rs] *)
#[export] Instance Network_Serializer : Serializer Network := {|
  read :=
    id ← Reader.read_u8;
    if id =? 0 then mret Mainnet
    else if id =? 1 then mret Testnet
    else if id =? 2 then mret Dev
    else rd_err InvalidValue;
  write n w := Writer.write_u8 (match n with Mainnet => 0 | Testnet => 1 | Dev => 2 end) w;
  size _ := 1%nat;
|}.
Definition network_enc (n : Network) : list byte := u8_bytes (match n with Mainnet => 0 | Testnet => 1 | Dev => 2 end).
Lemma network_append n w : write n w = Writer.write_bytes (network_enc n) w.
Proof. by destruct n. Qed.
Lemma network_codec : CodecCanon Network network_enc read (fun _ => True).
Proof.
  apply mk_codec_canon; intros *.
  - intros _. destruct x; unfold network_enc; run_tagged.
  - safe_read.
  - intros Hr. inv_read Hr. read_tags Hr; inv_read Hr; subst; (split; [done|]); by exists post0.
Qed.
#[export] Instance Network_SerOk : SerOk Network := mk_SerOk network_enc (fun _ => True) network_append (codec_of network_codec).
#[export] Instance Network_SerCanon : SerCanon Network.
Proof. apply (mk_SerCanon network_enc (fun _ => True)); [apply network_append|done|apply network_codec]. Qed.

(** *** [object.rs] *)
Inductive ObjectRequest :=
  | OR_Block (h : Hash)
  | OR_BlockHeader (h : Hash)
  | OR_Transaction (h : Hash).
Definition or_get_hash (r : ObjectRequest) : Hash :=
  match r with OR_Block h | OR_BlockHeader h | OR_Transaction h => h end.

#[export] Instance ObjectRequest_Serializer : Serializer ObjectRequest := {|
  write r w :=
    match r with
    | OR_Block h => write_hash h (Writer.write_u8 0 w)
    | OR_BlockHeader h => write_hash h (Writer.write_u8 1 w)
    | OR_Transaction h => write_hash h (Writer.write_u8 2 w)
    end;
  read :=
    id ← Reader.read_u8;
    if id =? 0 then h ← read_hash; mret (OR_Block h)
    else if id =? 1 then h ← read_hash; mret (OR_BlockHeader h)
    else if id =? 2 then h ← read_hash; mret (OR_Transaction h)
    else rd_err InvalidValue;
  size _ := (1 + HASH_SIZE)%nat;
|}.
Definition object_request_enc (r : ObjectRequest) : list byte :=
  u8_bytes (match r with OR_Block _ => 0 | OR_BlockHeader _ => 1 | OR_Transaction _ => 2 end) ++ hash_bytes (or_get_hash r).
Lemma object_request_append r w : write r w = Writer.write_bytes (object_request_enc r) w.
Proof. destruct r; cbn [write ObjectRequest_Serializer]; unfold object_request_enc; by autorewrite with ser. Qed.
Lemma object_request_codec : CodecCanon ObjectRequest object_request_enc read (fun _ => True).
Proof.
  apply mk_codec_canon; intros *.
  - intros _. destruct x; unfold object_request_enc; cbn [or_get_hash]; run_tagged.
  - safe_read.
  - intros Hr. inv_read Hr. read_tags Hr; inv_read Hr; subst; (split; [done|]); exists post1; unfold object_request_enc; by rewrite <- !(assoc_L (++)).
Qed.
#[export] Instance ObjectRequest_SerOk : SerOk ObjectRequest :=
  mk_SerOk object_request_enc (fun _ => True) object_request_append (codec_of object_request_codec).
#[export] Instance ObjectRequest_SerCanon : SerCanon ObjectRequest.
Proof. apply (mk_SerCanon object_request_enc (fun _ => True)); [apply object_request_append|done|apply object_request_codec]. Qed.

#[export] Hint Extern 1 (CodecSound _ _ (read_distinct _ _ _ _ []) _) => apply read_distinct_codec : typeclass_instances.
#[export] Hint Extern 1 (CodecSound _ _ (read_set_unless _ _ _ _ iset_new) _) => apply read_set_unless_codec : typeclass_instances.
#[export] Hint Extern 1 (Codec _ _ (read_distinct _ _ _ _ []) _) => apply sound_codec : typeclass_instances.
#[export] Hint Extern 1 (Codec _ _ (read_set_unless _ _ _ _ iset_new) _) => apply sound_codec : typeclass_instances.

Section Objects.
Context {IS : IndexSetLib Hash} {B3 : Blake3} {CV : Curve} {ML : Merlin} {RP : RangeProofLib}.

Inductive ObjectResponse :=
  | OResp_Block (b : Block)
  | OResp_BlockHeader (h : BlockHeader)
  | OResp_Transaction (tx : Transaction)
  | OResp_NotFound (r : ObjectRequest).

Definition oresp_get_request (r : ObjectResponse) : ObjectRequest :=
  match r with
  | OResp_Block block => OR_Block (block_hash block)
  | OResp_BlockHeader header => OR_BlockHeader (header_hash header)
  | OResp_Transaction tx => OR_Transaction (tx_hash tx)
  | OResp_NotFound request => request
  end.

Inductive OwnedObjectResponse :=
  | Owned_Block (b : Block) (h : Hash)
  | Owned_BlockHeader (b : BlockHeader) (h : Hash)
  | Owned_Transaction (tx : Transaction) (h : Hash)
  | Owned_NotFound (r : ObjectRequest).

Definition oresp_to_owned (r : ObjectResponse) : OwnedObjectResponse :=
  match r with
  | OResp_Block block => Owned_Block block (block_hash block)
  | OResp_BlockHeader header => Owned_BlockHeader header (header_hash header)
  | OResp_Transaction tx => Owned_Transaction tx (tx_hash tx)
  | OResp_NotFound request => Owned_NotFound request
  end.
Definition owned_get_hash (r : OwnedObjectResponse) : Hash :=
  match r with
  | Owned_Block _ hash | Owned_BlockHeader _ hash | Owned_Transaction _ hash => hash
  | Owned_NotFound request => or_get_hash request
  end.
Definition owned_get_request (r : OwnedObjectResponse) : ObjectRequest :=
  match r with
  | Owned_Block _ hash => OR_Block hash
  | Owned_BlockHeader _ hash => OR_BlockHeader hash
  | Owned_Transaction _ hash => OR_Transaction hash
  | Owned_NotFound request => request
  end.

#[export] Instance ObjectResponse_Serializer : Serializer ObjectResponse := {|
  write r w :=
    match r with
    | OResp_Block block => write block (Writer.write_u8 0 w)
    | OResp_BlockHeader header => write header (Writer.write_u8 1 w)
    | OResp_Transaction transaction => write transaction (Writer.write_u8 2 w)
    | OResp_NotFound obj => write obj (Writer.write_u8 3 w)
    end;
  read :=
    id ← Reader.read_u8;
    if id =? 0 then b ← read (A:=Block); mret (OResp_Block b)
    else if id =? 1 then h ← read (A:=BlockHeader); mret (OResp_BlockHeader h)
    else if id =? 2 then tx ← read (A:=Transaction); mret (OResp_Transaction tx)
    else if id =? 3 then r ← read (A:=ObjectRequest); mret (OResp_NotFound r)
    else rd_err InvalidValue;
  size r :=
    (1 + match r with
         | OResp_Block block => size block
         | OResp_BlockHeader header => size header
         | OResp_Transaction transaction => size transaction
         | OResp_NotFound obj => size obj
         end)%nat;
|}.
Definition object_response_enc (r : ObjectResponse) : list byte :=
  match r with
  | OResp_Block b => u8_bytes 0 ++ to_bytes b
  | OResp_BlockHeader h => u8_bytes 1 ++ to_bytes h
  | OResp_Transaction tx => u8_bytes 2 ++ to_bytes tx
  | OResp_NotFound o => u8_bytes 3 ++ to_bytes o
  end.
Definition object_response_wf (r : ObjectResponse) : Prop :=
  match r with
  | OResp_Block b => ser_wf b
  | OResp_BlockHeader h => ser_wf h
  | OResp_Transaction tx => ser_wf tx
  | OResp_NotFound _ => True
  end.
Lemma object_response_append r w : write r w = Writer.write_bytes (object_response_enc r) w.
Proof. destruct r; cbn [write ObjectResponse_Serializer]; unfold object_response_enc; by autorewrite with ser. Qed.
Lemma object_response_codec : CodecSound ObjectResponse object_response_enc read object_response_wf.
Proof.
  apply mk_codec_sound; intros *.
  - intros Hwf. destruct x; cbn [object_response_wf object_response_enc] in *; run_tagged.
  - safe_read.
  - intros Hr. inv_wf Hr. read_tags Hr; inv_wf Hr; subst; done.
Qed.
#[export] Instance ObjectResponse_SerOk : SerOk ObjectResponse :=
  mk_SerOk object_response_enc object_response_wf object_response_append (sound_of object_response_codec).
#[export] Instance ObjectResponse_SerSound : SerSound ObjectResponse := mk_SerSound _ _ (fun _ H => H) object_response_codec.
End Objects.

(** *** [inventory.rs] *)
Record NotifyInventoryRequest := mkInvRequest { inv_page : option Z }.

#[export] Instance NotifyInventoryRequest_Serializer : Serializer NotifyInventoryRequest := {|
  read := page ← Reader.read_optional_non_zero_u8; mret (mkInvRequest page);
  write r w := Writer.write_optional_non_zero_u8 r.(inv_page) w;
  size _ := 1%nat;
|}.

(** A page is never zero: zero is the encoding of no page. *)
Definition page_wf (p : option Z) : Prop := from_option (fun p => 0 < p < 256) True p.
Definition page_enc (p : option Z) : list byte := u8_bytes (default 0 p).
Lemma page_append p w : Writer.write_optional_non_zero_u8 p w = Writer.write_bytes (page_enc p) w.
Proof. destruct p as [p|]; [|done]. unfold Writer.write_optional_non_zero_u8. destruct (Z.eqb_spec p 0) as [E|]; [by rewrite E|done]. Qed.
#[export] Instance page_codec : CodecCanon (option Z) page_enc Reader.read_optional_non_zero_u8 page_wf.
Proof.
  unfold Reader.read_optional_non_zero_u8. apply mk_codec_canon; intros *.
  - intros Hp. unfold page_enc. destruct x as [p|]; cbn [page_wf from_option default] in *.
    + rd_step; [|unfold in_u, id; lia]. unfold id. by rewrite (proj2 (Z.eqb_neq p 0)) by lia.
    + by rd_step.
  - safe_read.
  - intros Hr. inv_read Hr. unfold in_u in Hwf. destruct (Z.eqb_spec x0 0) as [->|]; injection Hr as <- <-.
    + split; [done|]. by exists post0.
    + split; [simpl; lia|]. by exists post0.
Qed.
#[export] Hint Rewrite page_append : ser.

Lemma inv_request_append r w : write r w = Writer.write_bytes (page_enc r.(inv_page)) w.
Proof. apply page_append. Qed.
Lemma inv_request_codec :
  CodecSound NotifyInventoryRequest (fun r => page_enc r.(inv_page)) read (fun r => page_wf r.(inv_page)).
Proof.
  apply mk_codec_sound; intros *.
  - intros Hp. destruct x as [p]. cbn [inv_page] in *. by run_read.
  - safe_read.
  - intros Hr. inv_wf Hr. by subst.
Qed.
#[export] Instance NotifyInventoryRequest_SerOk : SerOk NotifyInventoryRequest :=
  mk_SerOk _ _ inv_request_append (sound_of inv_request_codec).
#[export] Instance NotifyInventoryRequest_SerSound : SerSound NotifyInventoryRequest := mk_SerSound _ _ (fun _ H => H) inv_request_codec.

Section Inventory.
Context {IS : IndexSetLib Hash}.

Record NotifyInventoryResponse := mkInvResponse { inv_next : option Z; inv_txs : iset Hash }.

#[export] Instance NotifyInventoryResponse_Serializer : Serializer NotifyInventoryResponse := {|
  read :=
    next ← Reader.read_optional_non_zero_u8;
    count ← Reader.read_u16;
    if NOTIFY_MAX_LEN <? count then rd_err InvalidSize
    else
      txs ← read_set InvalidValue read_hash (Z.to_nat count) iset_new;
      mret (mkInvResponse next txs);
  write r w :=
    let w := Writer.write_optional_non_zero_u8 r.(inv_next) w in
    let w := Writer.write_u16 (wrap 16 (Z.of_nat (iset_len r.(inv_txs)))) w in
    foldl (fun w tx => write_hash tx w) w (iset_list r.(inv_txs));
  size r := (1 + 2 + iset_len r.(inv_txs) * HASH_SIZE)%nat;
|}.
Definition inv_response_enc (r : NotifyInventoryResponse) : list byte :=
  page_enc r.(inv_next) ++ be_bytes 2 (wrap 16 (Z.of_nat (iset_len r.(inv_txs)))) ++ concat_bytes hash_bytes (iset_list r.(inv_txs)).
Definition inv_response_wf (r : NotifyInventoryResponse) : Prop :=
  page_wf r.(inv_next) /\ Z.of_nat (iset_len r.(inv_txs)) <= NOTIFY_MAX_LEN.
Lemma inv_response_append r w : write r w = Writer.write_bytes (inv_response_enc r) w.
Proof. cbn [write NotifyInventoryResponse_Serializer]. unfold inv_response_enc. rewrite fold_write_hash. by autorewrite with ser. Qed.
Lemma inv_response_codec : CodecSound NotifyInventoryResponse inv_response_enc read inv_response_wf.
Proof.
  apply mk_codec_sound; intros *.
  - intros [Hp Hl]. unfold NOTIFY_MAX_LEN in *. destruct x as [p s]. unfold inv_response_enc. cbn [inv_next inv_txs] in *.
    rewrite wrap_small by (unfold in_u; lia). run_read; [|unfold in_u; lia].
    destruct (Z.ltb_spec NOTIFY_MAX_LEN (Z.of_nat (iset_len s))); [unfold NOTIFY_MAX_LEN in *; lia|].
    rewrite Nat2Z.id. rd_step; [|split; [done|by apply list.Forall_true]]. by rewrite <- !(assoc_L (++)).
  - safe_read.
  - intros Hr. inv_wf Hr. subst. unfold in_u in *. destruct Hwf1 as [Hl _].
    split; [done|]. cbn [inv_txs]. rewrite Hl. unfold NOTIFY_MAX_LEN in *. lia.
Qed.
#[export] Instance NotifyInventoryResponse_SerOk : SerOk NotifyInventoryResponse :=
  mk_SerOk _ _ inv_response_append (sound_of inv_response_codec).
#[export] Instance NotifyInventoryResponse_SerSound : SerSound NotifyInventoryResponse := mk_SerSound _ _ (fun _ H => H) inv_response_codec.
End Inventory.

(** *** [chain.rs] *)
#[local] Existing Instance u64_Serializer.
#[local] Existing Instance u64_SerOk.
#[export] Instance u64_SerCanon : @SerCanon Z u64_Serializer u64_SerOk.
Proof. by apply (mk_SerCanon (be_bytes 8) (in_u 64)), read_u64_codec. Qed.

(** An optional number that was sent is not zero: a pruned topoheight, a page. *)
Definition nonzero_wf (o : option Z) : Prop := from_option (fun t => in_u 64 t /\ t <> 0) True o.
Definition sent_zero (o : option Z) : bool := match o with Some t => t =? 0 | None => false end.
Lemma nonzero_wf_spec o : nonzero_wf o <-> ser_wf o /\ sent_zero o = false.
Proof.
  destruct o as [t|]; cbn [nonzero_wf from_option sent_zero]; [|done].
  change (ser_wf (Some t)) with (in_u 64 t). by rewrite Z.eqb_neq.
Qed.

(** [Hash] and [PartialEq] of a [BlockId] only look at its hash. *)
Record BlockId := mkBlockId { bid_hash : Hash; bid_topoheight : Z }.

#[export] Instance BlockId_Serializer : Serializer BlockId := {|
  write b w := Writer.write_u64 b.(bid_topoheight) (write_hash b.(bid_hash) w);
  read := hash ← read_hash; topoheight ← Reader.read_u64; mret (mkBlockId hash topoheight);
  size b := (size b.(bid_hash) + 8)%nat;
|}.
Definition block_id_enc (b : BlockId) : list byte := hash_bytes b.(bid_hash) ++ be_bytes 8 b.(bid_topoheight).
Definition block_id_wf (b : BlockId) : Prop := in_u 64 b.(bid_topoheight).
Lemma block_id_append b w : write b w = Writer.write_bytes (block_id_enc b) w.
Proof. cbn [write BlockId_Serializer]. by autorewrite with ser. Qed.
Lemma block_id_codec : CodecCanon BlockId block_id_enc read block_id_wf.
Proof. record_codec block_id_enc ltac:(unfold block_id_wf in *). Qed.
#[export] Instance BlockId_SerOk : SerOk BlockId := mk_SerOk block_id_enc block_id_wf block_id_append (codec_of block_id_codec).
#[export] Instance BlockId_SerCanon : SerCanon BlockId.
Proof. apply (mk_SerCanon block_id_enc block_id_wf); [apply block_id_append|done|apply block_id_codec]. Qed.

(** [IndexSet<BlockId>] behind a byte of length, as [ChainRequest] and
    [StepRequest::ChainInfo] send it. *)
Definition write_block_ids (l : list BlockId) (w : Writer) : Writer :=
  foldl (fun w b => write b w) (Writer.write_u8 (wrap 8 (Z.of_nat (length l))) w) l.
Definition read_block_ids : rd (list BlockId) :=
  len ← Reader.read_u8;
  if (len =? 0) || (CHAIN_SYNC_REQUEST_MAX_BLOCKS <? len) then rd_err InvalidValue
  else read_distinct InvalidValue bid_hash read (Z.to_nat len) [].
Definition block_ids_enc (l : list BlockId) : list byte :=
  u8_bytes (wrap 8 (Z.of_nat (length l))) ++ concat_bytes to_bytes l.
Definition block_ids_wf (l : list BlockId) : Prop :=
  0 < Z.of_nat (length l) <= CHAIN_SYNC_REQUEST_MAX_BLOCKS /\ Forall block_id_wf l /\ NoDup (bid_hash <$> l).
Lemma block_ids_append l w : write_block_ids l w = Writer.write_bytes (block_ids_enc l) w.
Proof. unfold write_block_ids, block_ids_enc. by autorewrite with ser. Qed.
#[export] Hint Rewrite block_ids_append : ser.
#[export] Instance block_ids_codec : CodecSound (list BlockId) block_ids_enc read_block_ids block_ids_wf.
Proof.
  unfold read_block_ids. apply mk_codec_sound; intros *.
  - intros (Hl & Hf & Hnd). unfold CHAIN_SYNC_REQUEST_MAX_BLOCKS in Hl. unfold block_ids_enc.
    rewrite wrap_small by (unfold in_u; lia). rewrite <- !(assoc_L (++)). rd_step; [|unfold in_u; lia].
    rewrite (proj2 (Z.eqb_neq _ 0)) by lia.
    rewrite (proj2 (Z.ltb_ge _ _)) by (unfold CHAIN_SYNC_REQUEST_MAX_BLOCKS; lia). cbn [orb].
    rewrite Nat2Z.id, codec_rt by done. by rewrite <- !(assoc_L (++)).
  - apply fwd_bind. intros len pre' post'. destruct (_ || _); [apply fwd_err|]. apply fwd_codec.
  - intros Hr. inv_wf Hr. apply orb_false_iff in Hcond as [Hz Hm]. apply Z.eqb_neq in Hz. apply Z.ltb_ge in Hm.
    unfold in_u in *. apply codec_wf in Hr as (Hl & Hf & Hnd). split_and!; [lia|lia|done|done].
Qed.
#[export] Instance block_ids_rt : Codec (list BlockId) block_ids_enc read_block_ids block_ids_wf := sound_of block_ids_codec.

Record ChainRequest := mkChainRequest { creq_blocks : list BlockId; accepted_response_size : Z }.

#[export] Instance ChainRequest_Serializer : Serializer ChainRequest := {|
  write r w := Writer.write_u16 r.(accepted_response_size) (write_block_ids r.(creq_blocks) w);
  read :=
    blocks ← read_block_ids;
    accepted_response_size ← Reader.read_u16;
    if (accepted_response_size <? CHAIN_SYNC_RESPONSE_MIN_BLOCKS)
       || (CHAIN_SYNC_RESPONSE_MAX_BLOCKS <? accepted_response_size)
    then rd_err InvalidValue
    else mret (mkChainRequest blocks accepted_response_size);
  size r := (1 + length r.(creq_blocks) + 2)%nat;
|}.
Definition chain_request_enc (r : ChainRequest) : list byte :=
  block_ids_enc r.(creq_blocks) ++ be_bytes 2 r.(accepted_response_size).
Definition chain_request_wf (r : ChainRequest) : Prop :=
  block_ids_wf r.(creq_blocks) /\
  CHAIN_SYNC_RESPONSE_MIN_BLOCKS <= r.(accepted_response_size) <= CHAIN_SYNC_RESPONSE_MAX_BLOCKS.
Lemma chain_request_append r w : write r w = Writer.write_bytes (chain_request_enc r) w.
Proof. cbn [write ChainRequest_Serializer]. unfold chain_request_enc. by autorewrite with ser. Qed.
Lemma chain_request_codec : CodecSound ChainRequest chain_request_enc read chain_request_wf.
Proof.
  apply mk_codec_sound; intros *.
  - intros [Hb Ha]. unfold CHAIN_SYNC_RESPONSE_MIN_BLOCKS, CHAIN_SYNC_RESPONSE_MAX_BLOCKS in Ha.
    destruct x as [l a]. unfold chain_request_enc. cbn [creq_blocks accepted_response_size] in *.
    run_read; [|unfold in_u; lia].
    rewrite (proj2 (Z.ltb_ge _ _)) by (unfold CHAIN_SYNC_RESPONSE_MIN_BLOCKS; lia).
    by rewrite (proj2 (Z.ltb_ge _ _)) by (unfold CHAIN_SYNC_RESPONSE_MAX_BLOCKS; lia).
  - safe_read.
  - intros Hr. inv_wf Hr. subst. apply orb_false_iff in Hcond as [Hz Hm]. apply Z.ltb_ge in Hz, Hm. done.
Qed.
#[export] Instance ChainRequest_SerOk : SerOk ChainRequest := mk_SerOk _ _ chain_request_append (sound_of chain_request_codec).
#[export] Instance ChainRequest_SerSound : SerSound ChainRequest := mk_SerSound _ _ (fun _ H => H) chain_request_codec.

Record CommonPoint := mkCommonPoint { cp_hash : Hash; cp_topoheight : Z }.

#[export] Instance CommonPoint_Serializer : Serializer CommonPoint := {|
  write b w := Writer.write_u64 b.(cp_topoheight) (write_hash b.(cp_hash) w);
  read := hash ← read_hash; topoheight ← Reader.read_u64; mret (mkCommonPoint hash topoheight);
  size b := (size b.(cp_hash) + 8)%nat;
|}.
Definition common_point_enc (b : CommonPoint) : list byte := hash_bytes b.(cp_hash) ++ be_bytes 8 b.(cp_topoheight).
Definition common_point_wf (b : CommonPoint) : Prop := in_u 64 b.(cp_topoheight).
Lemma common_point_append b w : write b w = Writer.write_bytes (common_point_enc b) w.
Proof. cbn [write CommonPoint_Serializer]. by autorewrite with ser. Qed.
Lemma common_point_codec : CodecCanon CommonPoint common_point_enc read common_point_wf.
Proof. record_codec common_point_enc ltac:(unfold common_point_wf in *). Qed.
#[export] Instance CommonPoint_SerOk : SerOk CommonPoint := mk_SerOk common_point_enc common_point_wf common_point_append (codec_of common_point_codec).
#[export] Instance CommonPoint_SerCanon : SerCanon CommonPoint.
Proof. apply (mk_SerCanon common_point_enc common_point_wf); [apply common_point_append|done|apply common_point_codec]. Qed.

Section ChainResponse.
Context {IS : IndexSetLib Hash}.

Record ChainResponse := mkChainResponse {
  cresp_common_point : option CommonPoint;
  cresp_lowest_height : option Z;
  cresp_blocks : iset Hash;
  cresp_top_blocks : iset Hash;
}.

#[export] Instance ChainResponse_Serializer : Serializer ChainResponse := {|
  write r w :=
    let w := write r.(cresp_common_point) w in
    match r.(cresp_common_point) with
    | None => w
    | Some _ =>
        let w := match r.(cresp_lowest_height) with Some h => Writer.write_u64 h w | None => w end in
        let w := Writer.write_u16 (wrap 16 (Z.of_nat (iset_len r.(cresp_blocks)))) w in
        let w := foldl (fun w hash => write_hash hash w) w (iset_list r.(cresp_blocks)) in
        let w := Writer.write_u8 (wrap 8 (Z.of_nat (iset_len r.(cresp_top_blocks)))) w in
        foldl (fun w hash => write_hash hash w) w (iset_list r.(cresp_top_blocks))
    end;
  read :=
    common_point ← read (A:=option CommonPoint);
    match common_point with
    | None => mret (mkChainResponse None None iset_new iset_new)
    | Some _ =>
        lowest_height ← Reader.read_u64;
        len ← Reader.read_u16;
        if CHAIN_SYNC_RESPONSE_MAX_BLOCKS <? len then rd_err InvalidValue
        else
          blocks ← read_set InvalidValue read_hash (Z.to_nat len) iset_new;
          len ← Reader.read_u8;
          if wrap 8 (CHAIN_SYNC_TOP_BLOCKS * Z.of_nat TIPS_LIMIT) <? len then rd_err InvalidValue
          else
            top_blocks ← read_set_unless InvalidValue (fun hash => iset_contains hash blocks) read_hash (Z.to_nat len) iset_new;
            mret (mkChainResponse common_point (Some lowest_height) blocks top_blocks)
    end;
  size r :=
    match r.(cresp_common_point) with
    | None => size r.(cresp_common_point)
    | Some _ =>
        (match r.(cresp_lowest_height) with Some _ => 8 | None => 0 end
         + 2 + iset_len r.(cresp_blocks) + 1 + iset_len r.(cresp_top_blocks))%nat
    end;
|}.
Definition hashes_bytes (s : iset Hash) : list byte := concat_bytes hash_bytes (iset_list s).
Definition chain_response_enc (r : ChainResponse) : list byte :=
  to_bytes r.(cresp_common_point) ++
  match r.(cresp_common_point) with
  | None => []
  | Some _ =>
      from_option (be_bytes 8) [] r.(cresp_lowest_height) ++
      be_bytes 2 (wrap 16 (Z.of_nat (iset_len r.(cresp_blocks)))) ++ hashes_bytes r.(cresp_blocks) ++
      u8_bytes (wrap 8 (Z.of_nat (iset_len r.(cresp_top_blocks)))) ++ hashes_bytes r.(cresp_top_blocks)
  end.
(** The response is empty when there is no common point; otherwise its two
    sets are disjoint and within the limits of the protocol. *)
Definition chain_response_wf (r : ChainResponse) : Prop :=
  match r.(cresp_common_point), r.(cresp_lowest_height) with
  | None, None => r.(cresp_blocks) = iset_new /\ r.(cresp_top_blocks) = iset_new
  | Some point, Some height =>
      common_point_wf point /\ in_u 64 height /\
      Z.of_nat (iset_len r.(cresp_blocks)) <= CHAIN_SYNC_RESPONSE_MAX_BLOCKS /\
      Z.of_nat (iset_len r.(cresp_top_blocks)) <= CHAIN_SYNC_TOP_BLOCKS * Z.of_nat TIPS_LIMIT /\
      Forall (fun hash => hash ∉ iset_list r.(cresp_blocks)) (iset_list r.(cresp_top_blocks))
  | _, _ => False
  end.
Lemma chain_response_append r w : write r w = Writer.write_bytes (chain_response_enc r) w.
Proof.
  cbn [write ChainResponse_Serializer]. unfold chain_response_enc, hashes_bytes.
  rewrite (ser_append (cresp_common_point r)). destruct (cresp_common_point r); [|by rewrite app_nil_r].
  rewrite !fold_write_hash. destruct (cresp_lowest_height r); autorewrite with ser; cbn [from_option app];
    by rewrite <- ?(assoc_L (++)).
Qed.

Lemma not_contains (s : iset Hash) l :
  Forall (fun hash => hash ∉ iset_list s) l <-> Forall (fun hash => iset_contains hash s = false) l.
Proof. apply list.Forall_iff. intros h. unfold iset_contains. by rewrite bool_decide_eq_false. Qed.

Lemma chain_response_codec : CodecSound ChainResponse chain_response_enc read chain_response_wf.
Proof.
  apply mk_codec_sound; intros *.
  - destruct x as [[point|] [height|] blocks top]; unfold chain_response_wf, chain_response_enc;
      cbn [cresp_common_point cresp_lowest_height cresp_blocks cresp_top_blocks from_option]; try done.
    2: { intros [-> ->]. rewrite app_nil_r. by run_read. }
    intros (Hp & Hh & Hb & Ht & Hd). apply not_contains in Hd.
    unfold CHAIN_SYNC_RESPONSE_MAX_BLOCKS, CHAIN_SYNC_TOP_BLOCKS, TIPS_LIMIT, hashes_bytes in *.
    rewrite !wrap_small by (unfold in_u; lia). run_read; try (unfold in_u; lia).
    rewrite (proj2 (Z.ltb_ge _ _)) by (unfold CHAIN_SYNC_RESPONSE_MAX_BLOCKS; lia).
    rewrite Nat2Z.id. rd_step; [|split; [done|by apply list.Forall_true]]. rd_step; [|unfold in_u; lia].
    change (wrap 8 (CHAIN_SYNC_TOP_BLOCKS * Z.of_nat TIPS_LIMIT)) with 30.
    rewrite (proj2 (Z.ltb_ge _ _)) by lia.
    rewrite Nat2Z.id. rd_step; [|split_and!; [done|by apply list.Forall_true|done]].
    by rewrite <- !(assoc_L (++)).
  - safe_read.
  - intros Hr. inv_wf Hr. destruct x0 as [point|]; inv_wf Hr; subst; [|done].
    unfold chain_response_wf. unfold in_u in Hwf1, Hwf3. cbn [cresp_common_point cresp_lowest_height cresp_blocks cresp_top_blocks].
    destruct Hwf2 as [Hb _], Hwf4 as (Ht & _ & Hd). apply not_contains in Hd. cbv beta in *.
    apply Z.ltb_ge in Hcond, Hcond0. change (wrap 8 (CHAIN_SYNC_TOP_BLOCKS * Z.of_nat TIPS_LIMIT)) with 30 in Hcond0.
    split; [done|]. split; [done|]. unfold CHAIN_SYNC_TOP_BLOCKS, TIPS_LIMIT. split_and!; [lia|lia|done].
Qed.
(** With more top blocks than the reader accepts. *)
Lemma chain_response_refused point height blocks top pre post :
  common_point_wf point -> in_u 64 height -> Z.of_nat (iset_len blocks) <= CHAIN_SYNC_RESPONSE_MAX_BLOCKS ->
  (30 < iset_len top < 256)%nat ->
  read (A:=ChainResponse) (reader_at pre (chain_response_enc (mkChainResponse (Some point) (Some height) blocks top) ++ post)) =
    Err InvalidValue.
Proof.
  intros Hp Hh Hb Ht. unfold chain_response_enc, CHAIN_SYNC_RESPONSE_MAX_BLOCKS, hashes_bytes in *.
  cbn [cresp_common_point cresp_lowest_height cresp_blocks cresp_top_blocks from_option].
  rewrite !wrap_small by (unfold in_u; lia). run_read; try (unfold in_u; lia).
  rewrite (proj2 (Z.ltb_ge _ _)) by (unfold CHAIN_SYNC_RESPONSE_MAX_BLOCKS; lia).
  rewrite Nat2Z.id. rd_step; [|split; [done|by apply list.Forall_true]]. rd_step; [|unfold in_u; lia].
  change (wrap 8 (CHAIN_SYNC_TOP_BLOCKS * Z.of_nat TIPS_LIMIT)) with 30.
  by rewrite (proj2 (Z.ltb_lt _ _)) by lia.
Qed.
#[export] Instance ChainResponse_SerOk : SerOk ChainResponse := mk_SerOk _ _ chain_response_append (sound_of chain_response_codec).
#[export] Instance ChainResponse_SerSound : SerSound ChainResponse := mk_SerSound _ _ (fun _ H => H) chain_response_codec.
End ChainResponse.
