(* ===== verification/PacketPeer.v ===== *)
(** The packets that describe a peer: [Ping], [Handshake] and
    [PacketPeerDisconnected] ([p2p/packet/ping.rs], [handshake.rs] and
    [peer_disconnected.rs] of the daemon). *)

From S2P Require Import Prelude External ExternalModel ExternalCrypto Serializer Hash Defaults VarUint Elgamal Transaction Block BlockCheck Packets.

#[local] Existing Instance u64_Serializer.
#[local] Existing Instance u64_SerOk.

#[export] Instance IpAddr_eq_dec : EqDecision IpAddr.
Proof. solve_decision. Defined.
#[export] Instance SocketAddr_eq_dec : EqDecision SocketAddr.
Proof. solve_decision. Defined.

(** ** peer_disconnected.rs *)
Record PacketPeerDisconnected := mkPeerDisconnected { pd_addr : SocketAddr }.

#[export] Instance PeerDisconnected_Serializer : Serializer PacketPeerDisconnected := {|
  read := addr ← read (A:=SocketAddr); mret (mkPeerDisconnected addr);
  write p w := write p.(pd_addr) w;
  size p := size p.(pd_addr);
|}.
Lemma peer_disconnected_append p w : write p w = Writer.write_bytes (to_bytes p.(pd_addr)) w.
Proof. exact (ser_append p.(pd_addr) w). Qed.
Lemma peer_disconnected_codec :
  CodecSound PacketPeerDisconnected (fun p => to_bytes p.(pd_addr)) read (fun p => socket_wf p.(pd_addr)).
Proof.
  apply mk_codec_sound; intros *.
  - destruct x as [a]. cbn [pd_addr]. intros Ha. by run_read.
  - safe_read.
  - intros Hr. inv_wf Hr. by subst.
Qed.
#[export] Instance PeerDisconnected_SerOk : SerOk PacketPeerDisconnected :=
  mk_SerOk _ _ peer_disconnected_append (sound_of peer_disconnected_codec).
#[export] Instance PeerDisconnected_SerSound : SerSound PacketPeerDisconnected := mk_SerSound _ _ (fun _ H => H) peer_disconnected_codec.

(** ** ping.rs *)
Section Peer.
Context {UL : U256Lib} {IA : IndexSetLib SocketAddr}.

(** A [VarUint] has several encodings, all of a number of 256 bits. *)
#[export] Instance VarUint_SerSound : SerSound VarUint.t.
Proof. split. split; [apply _|]. done. Qed.

Record Ping := mkPing {
  ping_top_hash : Hash;
  ping_topoheight : Z;
  ping_height : Z;
  ping_pruned_topoheight : option Z;
  ping_cumulative_difficulty : VarUint.t;
  ping_peer_list : iset SocketAddr;
}.

#[export] Instance Ping_Serializer : Serializer Ping := {|
  write p w :=
    let w := write_hash p.(ping_top_hash) w in
    let w := Writer.write_u64 p.(ping_topoheight) w in
    let w := Writer.write_u64 p.(ping_height) w in
    let w := write p.(ping_pruned_topoheight) w in
    let w := write p.(ping_cumulative_difficulty) w in
    let w := Writer.write_u8 (wrap 8 (Z.of_nat (iset_len p.(ping_peer_list)))) w in
    foldl (fun w peer => write peer w) w (iset_list p.(ping_peer_list));
  read :=
    top_hash ← read_hash;
    topoheight ← Reader.read_u64;
    height ← Reader.read_u64;
    pruned_topoheight ← read (A:=option Z);
    if sent_zero pruned_topoheight then rd_err InvalidValue
    else
      cumulative_difficulty ← read (A:=VarUint.t);
      peers_len ← Reader.read_u8;
      if (P2P_PING_PEER_LIST_LIMIT <? Z.to_nat peers_len)%nat then rd_err InvalidValue
      else
        peer_list ← read_set InvalidValue (read (A:=SocketAddr)) (Z.to_nat peers_len) iset_new;
        mret (mkPing top_hash topoheight height pruned_topoheight cumulative_difficulty peer_list);
  size p :=
    (size p.(ping_top_hash) + 8 + 8 + size p.(ping_pruned_topoheight) + size p.(ping_cumulative_difficulty) + 1
     + foldl (fun acc peer => acc + size peer) 0 (iset_list p.(ping_peer_list)))%nat;
|}.
Definition ping_enc (p : Ping) : list byte :=
  hash_bytes p.(ping_top_hash) ++ be_bytes 8 p.(ping_topoheight) ++ be_bytes 8 p.(ping_height) ++
  to_bytes p.(ping_pruned_topoheight) ++ to_bytes p.(ping_cumulative_difficulty) ++
  u8_bytes (wrap 8 (Z.of_nat (iset_len p.(ping_peer_list)))) ++ concat_bytes to_bytes (iset_list p.(ping_peer_list)).
Definition ping_wf (p : Ping) : Prop :=
  in_u 64 p.(ping_topoheight) /\ in_u 64 p.(ping_height) /\ nonzero_wf p.(ping_pruned_topoheight) /\
  (iset_len p.(ping_peer_list) <= P2P_PING_PEER_LIST_LIMIT)%nat /\ Forall socket_wf (iset_list p.(ping_peer_list)).
Lemma ping_append p w : write p w = Writer.write_bytes (ping_enc p) w.
Proof.
  cbn [write Ping_Serializer]. unfold ping_enc. rewrite (foldl_write (T:=SocketAddr)).
  rewrite (ser_append (ping_pruned_topoheight p)), (ser_append (ping_cumulative_difficulty p)). autorewrite with ser.
  by rewrite <- ?(assoc_L (++)).
Qed.
Lemma ping_codec : CodecSound Ping ping_enc read ping_wf.
Proof.
  apply mk_codec_sound; intros *.
  - intros (Ht & Hh & [Hp Hz]%nonzero_wf_spec & Hl & Hf). unfold P2P_PING_PEER_LIST_LIMIT in Hl.
    destruct x as [h t n p d l]; unfold ping_enc;
      cbn [ping_top_hash ping_topoheight ping_height ping_pruned_topoheight ping_cumulative_difficulty ping_peer_list] in *.
    rewrite wrap_small by (unfold in_u; lia). run_read. rewrite Hz.
    rd_step; [|done]. rd_step; [|unfold in_u; lia]. rewrite Nat2Z.id.
    rewrite (proj2 (Nat.ltb_ge _ _)) by (unfold P2P_PING_PEER_LIST_LIMIT; lia).
    rd_step; [|done]. by rewrite <- !(assoc_L (++)).
  - safe_read.
  - intros Hr. inv_wf Hr. subst. apply Nat.ltb_ge in Hcond0. destruct Hwf5 as [Hl Hf].
    split; [done|]. split; [done|]. split; [by apply nonzero_wf_spec|].
    split; [|done]. cbn [ping_peer_list]. by rewrite Hl.
Qed.
#[export] Instance Ping_SerOk : SerOk Ping := mk_SerOk _ _ ping_append (sound_of ping_codec).
#[export] Instance Ping_SerSound : SerSound Ping := mk_SerSound _ _ (fun _ H => H) ping_codec.

(** ** handshake.rs *)
Record Handshake := mkHandshake {
  hs_version : RString;
  hs_network : Network;
  hs_node_tag : option RString;
  hs_network_id : vec byte 16;
  hs_peer_id : Z;
  hs_local_port : Z;
  hs_utc_time : Z;
  hs_topoheight : Z;
  hs_height : Z;
  hs_pruned_topoheight : option Z;
  hs_top_hash : Hash;
  hs_genesis_hash : Hash;
  hs_cumulative_difficulty : VarUint.t;
  hs_can_be_shared : bool;
}.

Definition HANDSHAKE_MAX_LEN : nat := 16.
Definition tag_too_long (tag : option RString) : bool :=
  match tag with Some tag => (HANDSHAKE_MAX_LEN <? str_len tag)%nat | None => false end.

#[export] Instance Handshake_Serializer : Serializer Handshake := {|
  write h w :=
    let w := write_string h.(hs_version) w in
    let w := write h.(hs_network) w in
    let w := write_optional_string h.(hs_node_tag) w in
    let w := Writer.write_bytes (vec_to_list h.(hs_network_id)) w in
    let w := Writer.write_u64 h.(hs_peer_id) w in
    let w := Writer.write_u16 h.(hs_local_port) w in
    let w := Writer.write_u64 h.(hs_utc_time) w in
    let w := Writer.write_u64 h.(hs_topoheight) w in
    let w := Writer.write_u64 h.(hs_height) w in
    let w := write h.(hs_pruned_topoheight) w in
    let w := write_hash h.(hs_top_hash) w in
    let w := write_hash h.(hs_genesis_hash) w in
    let w := write h.(hs_cumulative_difficulty) w in
    Writer.write_bool h.(hs_can_be_shared) w;
  read :=
    version ← read_string;
    if (str_len version =? 0)%nat || (HANDSHAKE_MAX_LEN <? str_len version)%nat then rd_err InvalidSize
    else
      network ← read (A:=Network);
      node_tag ← read_optional_string;
      if tag_too_long node_tag then rd_err InvalidSize
      else
        network_id ← Reader.read_array 16;
        peer_id ← Reader.read_u64;
        local_port ← Reader.read_u16;
        utc_time ← Reader.read_u64;
        topoheight ← Reader.read_u64;
        height ← Reader.read_u64;
        pruned_topoheight ← read (A:=option Z);
        if sent_zero pruned_topoheight then rd_err InvalidValue
        else
          top_hash ← read_hash;
          genesis_hash ← read_hash;
          cumulative_difficulty ← read (A:=VarUint.t);
          can_be_shared ← Reader.read_bool;
          mret (mkHandshake version network node_tag network_id peer_id local_port utc_time topoheight height
                  pruned_topoheight top_hash genesis_hash cumulative_difficulty can_be_shared);
  size h :=
    (size h.(hs_version) + size h.(hs_network) + size h.(hs_node_tag) + 16 + 8 + 2 + 8 + 8 + 8
     + size h.(hs_pruned_topoheight) + size h.(hs_top_hash) + size h.(hs_genesis_hash)
     + size h.(hs_cumulative_difficulty) + 1)%nat;
|}.
Definition handshake_enc (h : Handshake) : list byte :=
  string_bytes h.(hs_version) ++ to_bytes h.(hs_network) ++ optional_string_bytes h.(hs_node_tag) ++
  arr_bytes h.(hs_network_id) ++ be_bytes 8 h.(hs_peer_id) ++ be_bytes 2 h.(hs_local_port) ++
  be_bytes 8 h.(hs_utc_time) ++ be_bytes 8 h.(hs_topoheight) ++ be_bytes 8 h.(hs_height) ++
  to_bytes h.(hs_pruned_topoheight) ++ hash_bytes h.(hs_top_hash) ++ hash_bytes h.(hs_genesis_hash) ++
  to_bytes h.(hs_cumulative_difficulty) ++ bool_bytes h.(hs_can_be_shared).
Definition handshake_wf (h : Handshake) : Prop :=
  (0 < str_len h.(hs_version) <= HANDSHAKE_MAX_LEN)%nat /\
  from_option (fun tag => (0 < str_len tag <= HANDSHAKE_MAX_LEN)%nat) True h.(hs_node_tag) /\
  in_u 64 h.(hs_peer_id) /\ in_u 16 h.(hs_local_port) /\ in_u 64 h.(hs_utc_time) /\
  in_u 64 h.(hs_topoheight) /\ in_u 64 h.(hs_height) /\ nonzero_wf h.(hs_pruned_topoheight).
Lemma write_optional_string_append o w :
  write_optional_string o w = Writer.write_bytes (optional_string_bytes o) w.
Proof. destruct o; [apply write_string_append|done]. Qed.
#[local] Hint Rewrite write_optional_string_append : ser.
Lemma handshake_append h w : write h w = Writer.write_bytes (handshake_enc h) w.
Proof.
  cbn [write Handshake_Serializer]. unfold handshake_enc, arr_bytes.
  rewrite (ser_append (hs_pruned_topoheight h)), (ser_append (hs_cumulative_difficulty h)), (ser_append (hs_network h)).
  autorewrite with ser. by rewrite <- ?(assoc_L (++)).
Qed.
Lemma handshake_codec : CodecSound Handshake handshake_enc read handshake_wf.
Proof.
  apply mk_codec_sound; intros *.
  - destruct x; unfold handshake_wf, handshake_enc;
      cbn [hs_version hs_network hs_node_tag hs_network_id hs_peer_id hs_local_port hs_utc_time hs_topoheight hs_height
           hs_pruned_topoheight hs_top_hash hs_genesis_hash hs_cumulative_difficulty hs_can_be_shared].
    intros (Hv & Ht & Hi & Hl & Hu & Hto & Hh & [Hp Hz]%nonzero_wf_spec). unfold HANDSHAKE_MAX_LEN in *.
    unfold_read. rewrite <- !(assoc_L (++)). rd_step; [|lia].
    rewrite (proj2 (Nat.eqb_neq _ _)), (proj2 (Nat.ltb_ge _ _)) by (unfold HANDSHAKE_MAX_LEN; lia). cbn [orb].
    rd_step; [|done]. rd_step; [|destruct hs_node_tag0; simpl in *; [lia|done]].
    assert (tag_too_long hs_node_tag0 = false) as ->.
    { destruct hs_node_tag0; [|done]. apply Nat.ltb_ge, Ht. }
    do 7 (rd_step; [|done]). rewrite Hz. do 4 (rd_step; [|done]). by rewrite <- !(assoc_L (++)).
  - safe_read.
  - intros Hr. inv_wf Hr. subst. apply orb_false_iff in Hcond as [Hz%Nat.eqb_neq Hm%Nat.ltb_ge].
    unfold handshake_wf; cbn [hs_version hs_node_tag hs_peer_id hs_local_port hs_utc_time hs_topoheight hs_height hs_pruned_topoheight].
    split; [lia|]. split; [destruct x2 as [tag|]; [|done]; apply Nat.ltb_ge in Hcond0; simpl in *; lia|].
    repeat (split; [done|]). by apply nonzero_wf_spec.
Qed.
#[export] Instance Handshake_SerOk : SerOk Handshake := mk_SerOk _ _ handshake_append (sound_of handshake_codec).
#[export] Instance Handshake_SerSound : SerSound Handshake := mk_SerSound _ _ (fun _ H => H) handshake_codec.
End Peer.
