(* ===== verification/Bootstrap.v ===== *)
(** The packets of the fast synchronisation
    ([p2p/packet/bootstrap_chain.rs] of the daemon). *)

From S2P Require Import Prelude External ExternalModel ExternalCrypto Serializer Hash Defaults VarUint Elgamal Transaction Account Packets PacketPeer.

#[local] Existing Instance u64_Serializer.
#[local] Existing Instance u64_SerOk.
#[local] Existing Instance triple_Serializer | 0.

(** ** The elements of the answers *)

Section Elements.
Context {CV : Curve}.

Definition sent (k : CiphertextCache) : Prop := k = Compressed (cc_compress k).
Lemma cache_append k w : write k w = Writer.write_bytes (cache_bytes k) w.
Proof. exact (ser_append (cc_compress k) w). Qed.
Lemma cache_canon : CodecCanon CiphertextCache cache_bytes read sent.
Proof.
  apply mk_codec_canon; intros *.
  - intros ->. unfold cache_bytes. cbn [cc_compress]. by run_read.
  - safe_read.
  - intros Hr. inv_read Hr. subst. split; [done|]. by exists post0.
Qed.
#[export] Instance CiphertextCache_SerOk : SerOk CiphertextCache := mk_SerOk cache_bytes sent cache_append (codec_of cache_canon).
#[export] Instance CiphertextCache_SerCanon : SerCanon CiphertextCache.
Proof. apply (mk_SerCanon cache_bytes sent); [apply cache_append|done|apply cache_canon]. Qed.

Lemma balance_type_append t w : write t w = Writer.write_bytes (type_byte t) w.
Proof. done. Qed.
#[export] Instance BalanceType_SerOk : SerOk BalanceType := mk_SerOk type_byte (fun _ => True) balance_type_append (codec_of type_codec).
#[export] Instance BalanceType_SerCanon : SerCanon BalanceType.
Proof. apply (mk_SerCanon type_byte (fun _ => True)); [apply balance_type_append|done|apply type_codec]. Qed.
End Elements.

Section Triple.
Context `{SerCanon A, SerCanon B, SerCanon C}.

Definition triple_enc (p : A * B * C) : list byte := to_bytes p.1.1 ++ to_bytes p.1.2 ++ to_bytes p.2.
Definition triple_wf (p : A * B * C) : Prop := ser_wf p.1.1 /\ ser_wf p.1.2 /\ ser_wf p.2.
Lemma triple_append p w : write (Serializer:=triple_Serializer) p w = Writer.write_bytes (triple_enc p) w.
Proof. cbn [write triple_Serializer]. unfold triple_enc. by autorewrite with ser. Qed.
Lemma triple_codec : CodecCanon (A * B * C) triple_enc (read (Serializer:=triple_Serializer)) triple_wf.
Proof.
  apply mk_codec_canon; intros *.
  - destruct x as [[a b] c]. intros (Ha & Hb & Hc). unfold triple_enc; simpl in *. by run_read.
  - safe_read.
  - intros Hr. inv_read Hr. subst. split; [done|]. exists post2. unfold triple_enc; simpl. by rewrite <- !(assoc_L (++)).
Qed.
#[export] Instance triple_SerOk : SerOk (H:=triple_Serializer) (A * B * C) :=
  mk_SerOk (HS:=triple_Serializer) triple_enc triple_wf triple_append (codec_of triple_codec).
#[export] Instance triple_SerCanon : SerCanon (H:=triple_Serializer) (A * B * C).
Proof. apply (mk_SerCanon triple_enc triple_wf); [apply triple_append|done|apply triple_codec]. Qed.
End Triple.

(** [IndexSet<T>] for a type that is compared by one field. *)
Section Keyed.
Context `{SerSound A} `{EqDecision K} (key : A -> K).

Definition read_keyed_set : rd (list A) :=
  count ← Reader.read_u16;
  if MAX_ITEMS <? count then rd_err InvalidSize
  else set ← read_distinct InvalidSize key read (Z.to_nat count) []; mret set.
Definition write_keyed_set (l : list A) (w : Writer) : Writer :=
  foldl (fun w el => write el w) (Writer.write_u16 (wrap 16 (Z.of_nat (length l))) w) l.
Definition keyed_enc (l : list A) : list byte :=
  be_bytes 2 (wrap 16 (Z.of_nat (length l))) ++ concat_bytes to_bytes l.
Definition keyed_wf (l : list A) : Prop := (length l <= 1024)%nat /\ Forall ser_wf l /\ NoDup (key <$> l).
Lemma keyed_append l w : write_keyed_set l w = Writer.write_bytes (keyed_enc l) w.
Proof. unfold write_keyed_set, keyed_enc. by autorewrite with ser. Qed.
Lemma keyed_codec : CodecSound (list A) keyed_enc read_keyed_set keyed_wf.
Proof.
  unfold read_keyed_set. apply mk_codec_sound; intros *.
  - intros (Hl & Hf & Hnd). unfold keyed_enc. rewrite wrap_small by (unfold in_u; lia).
    rewrite <- !(assoc_L (++)). rd_step; [|unfold in_u; lia].
    rewrite (proj2 (Z.ltb_ge _ _)) by (unfold MAX_ITEMS; lia). rewrite Nat2Z.id.
    rd_step; [|done]. by rewrite <- !(assoc_L (++)).
  - apply fwd_bind. intros len pre' post'. destruct (_ <? _); [apply fwd_err|].
    apply fwd_bind. intros *. apply fwd_ret.
  - intros Hr. inv_wf Hr. subst. apply Z.ltb_ge in Hcond. unfold in_u in Hwf. destruct Hwf0 as (Hl & Hf & Hnd).
    split; [|done]. unfold MAX_ITEMS in *. lia.
Qed.
End Keyed.
#[export] Hint Extern 1 (CodecSound _ _ (read_keyed_set _) _) => apply keyed_codec : typeclass_instances.
#[export] Hint Extern 1 (Codec _ _ (read_keyed_set _) _) => apply sound_codec : typeclass_instances.
#[local] Hint Rewrite @keyed_append using typeclasses eauto : ser.

(** ** Block metadata *)
Section Metadata.
Context {UL : U256Lib}.

(** [Hash] and [PartialEq] only look at the hash. *)
Record BlockMetadata := mkBlockMetadata {
  bm_hash : Hash;
  bm_supply : Z;
  bm_reward : Z;
  bm_difficulty : VarUint.t;
  bm_cumulative_difficulty : VarUint.t;
  bm_p : VarUint.t;
}.

#[export] Instance BlockMetadata_Serializer : Serializer BlockMetadata := {|
  read :=
    hash ← read_hash;
    supply ← Reader.read_u64;
    reward ← Reader.read_u64;
    difficulty ← read (A:=VarUint.t);
    cumulative_difficulty ← read (A:=VarUint.t);
    p ← read (A:=VarUint.t);
    mret (mkBlockMetadata hash supply reward difficulty cumulative_difficulty p);
  write m w :=
    let w := write_hash m.(bm_hash) w in
    let w := Writer.write_u64 m.(bm_supply) w in
    let w := Writer.write_u64 m.(bm_reward) w in
    let w := write m.(bm_difficulty) w in
    let w := write m.(bm_cumulative_difficulty) w in
    write m.(bm_p) w;
  size m :=
    (size m.(bm_hash) + 8 + 8 + size m.(bm_difficulty) + size m.(bm_cumulative_difficulty) + size m.(bm_p))%nat;
|}.
Definition metadata_enc (m : BlockMetadata) : list byte :=
  hash_bytes m.(bm_hash) ++ be_bytes 8 m.(bm_supply) ++ be_bytes 8 m.(bm_reward) ++ to_bytes m.(bm_difficulty) ++
  to_bytes m.(bm_cumulative_difficulty) ++ to_bytes m.(bm_p).
Definition metadata_wf (m : BlockMetadata) : Prop := in_u 64 m.(bm_supply) /\ in_u 64 m.(bm_reward).
Lemma metadata_append m w : write m w = Writer.write_bytes (metadata_enc m) w.
Proof.
  cbn [write BlockMetadata_Serializer]. unfold metadata_enc.
  rewrite (ser_append (bm_difficulty m)), (ser_append (bm_cumulative_difficulty m)), (ser_append (bm_p m)).
  autorewrite with ser. by rewrite <- ?(assoc_L (++)).
Qed.
Lemma metadata_codec : CodecSound BlockMetadata metadata_enc read metadata_wf.
Proof.
  apply mk_codec_sound; intros *.
  - destruct x. intros [Hs Hr]. unfold metadata_enc.
    cbn [bm_hash bm_supply bm_reward bm_difficulty bm_cumulative_difficulty bm_p] in *. by run_read.
  - safe_read.
  - intros Hr. inv_wf Hr. by subst.
Qed.
#[export] Instance BlockMetadata_SerOk : SerOk BlockMetadata := mk_SerOk _ _ metadata_append (sound_of metadata_codec).
#[export] Instance BlockMetadata_SerSound : SerSound BlockMetadata := mk_SerSound _ _ (fun _ H => H) metadata_codec.
End Metadata.

(** ** The steps *)
Inductive StepKind := SK_ChainInfo | SK_Assets | SK_Keys | SK_Balances | SK_Nonces | SK_BlocksMetadata.

Definition step_next (k : StepKind) : option StepKind :=
  match k with
  | SK_ChainInfo => Some SK_Assets
  | SK_Assets => Some SK_Keys
  | SK_Keys => Some SK_Balances
  | SK_Balances => Some SK_Nonces
  | SK_Nonces => Some SK_BlocksMetadata
  | SK_BlocksMetadata => None
  end.

Section Steps.
Context {UL : U256Lib} {CV : Curve} {IK : IndexSetLib PublicKey}.

Inductive StepRequest :=
  | Req_ChainInfo (blocks : list BlockId)
  | Req_Assets (min max : Z) (page : option Z)
  | Req_Keys (min max : Z) (page : option Z)
  | Req_Balances (topoheight : Z) (asset : Hash) (accounts : iset PublicKey)
  | Req_Nonces (topoheight : Z) (accounts : iset PublicKey)
  | Req_BlocksMetadata (topoheight : Z).

Definition req_kind (r : StepRequest) : StepKind :=
  match r with
  | Req_ChainInfo _ => SK_ChainInfo
  | Req_Assets _ _ _ => SK_Assets
  | Req_Keys _ _ _ => SK_Keys
  | Req_Balances _ _ _ => SK_Balances
  | Req_Nonces _ _ => SK_Nonces
  | Req_BlocksMetadata _ => SK_BlocksMetadata
  end.
Definition get_requested_topoheight (r : StepRequest) : option Z :=
  match r with
  | Req_ChainInfo _ => None
  | Req_Assets _ topo _ => Some topo
  | Req_Keys _ topo _ => Some topo
  | Req_Balances topo _ _ => Some topo
  | Req_Nonces topo _ => Some topo
  | Req_BlocksMetadata topo => Some topo
  end.

(** A range of topoheights and a page: the same text for assets and for keys. *)
Definition read_range (f : Z -> Z -> option Z -> StepRequest) : rd StepRequest :=
  min ← Reader.read_u64;
  max ← Reader.read_u64;
  if max <? min then rd_err InvalidValue
  else
    page ← read (A:=option Z);
    if sent_zero page then rd_err InvalidValue else mret (f min max page).

#[export] Instance StepRequest_Serializer : Serializer StepRequest := {|
  read :=
    id ← Reader.read_u8;
    if id =? 0 then blocks ← read_block_ids; mret (Req_ChainInfo blocks)
    else if id =? 1 then read_range Req_Assets
    else if id =? 2 then read_range Req_Keys
    else if id =? 3 then
      topoheight ← Reader.read_u64; hash ← read_hash; keys ← read (A:=iset PublicKey);
      mret (Req_Balances topoheight hash keys)
    else if id =? 4 then
      topoheight ← Reader.read_u64; keys ← read (A:=iset PublicKey); mret (Req_Nonces topoheight keys)
    else if id =? 5 then topoheight ← Reader.read_u64; mret (Req_BlocksMetadata topoheight)
    else rd_err InvalidValue;
  write r w :=
    match r with
    | Req_ChainInfo blocks => write_block_ids blocks (Writer.write_u8 0 w)
    | Req_Assets min max page => write page (Writer.write_u64 max (Writer.write_u64 min (Writer.write_u8 1 w)))
    | Req_Keys min max page => write page (Writer.write_u64 max (Writer.write_u64 min (Writer.write_u8 2 w)))
    | Req_Balances topoheight asset accounts =>
        write accounts (write_hash asset (Writer.write_u64 topoheight (Writer.write_u8 3 w)))
    | Req_Nonces topoheight nonces => write nonces (Writer.write_u64 topoheight (Writer.write_u8 4 w))
    | Req_BlocksMetadata topoheight => Writer.write_u64 topoheight (Writer.write_u8 5 w)
    end;
  size r :=
    (match r with
     | Req_ChainInfo blocks => 1 + match blocks with first :: _ => 2 + length blocks * size first | [] => 2 end
     | Req_Assets _ _ page => 8 + 8 + size page
     | Req_Keys _ _ page => 8 + 8 + size page
     | Req_Balances _ asset accounts => 8 + size asset + size accounts
     | Req_Nonces _ nonces => 8 + size nonces
     | Req_BlocksMetadata _ => 8
     end + 1)%nat;
|}.
Definition step_request_enc (r : StepRequest) : list byte :=
  match r with
  | Req_ChainInfo blocks => u8_bytes 0 ++ block_ids_enc blocks
  | Req_Assets min max page => u8_bytes 1 ++ be_bytes 8 min ++ be_bytes 8 max ++ to_bytes page
  | Req_Keys min max page => u8_bytes 2 ++ be_bytes 8 min ++ be_bytes 8 max ++ to_bytes page
  | Req_Balances topoheight asset accounts =>
      u8_bytes 3 ++ be_bytes 8 topoheight ++ hash_bytes asset ++ to_bytes accounts
  | Req_Nonces topoheight accounts => u8_bytes 4 ++ be_bytes 8 topoheight ++ to_bytes accounts
  | Req_BlocksMetadata topoheight => u8_bytes 5 ++ be_bytes 8 topoheight
  end.
Definition range_wf (min max : Z) (page : option Z) : Prop :=
  in_u 64 min /\ in_u 64 max /\ min <= max /\ nonzero_wf page.
Definition step_request_wf (r : StepRequest) : Prop :=
  match r with
  | Req_ChainInfo blocks => block_ids_wf blocks
  | Req_Assets min max page | Req_Keys min max page => range_wf min max page
  | Req_Balances topoheight _ accounts | Req_Nonces topoheight accounts => in_u 64 topoheight /\ (iset_len accounts <= 1024)%nat
  | Req_BlocksMetadata topoheight => in_u 64 topoheight
  end.
Lemma step_request_append r w : write r w = Writer.write_bytes (step_request_enc r) w.
Proof.
  destruct r; cbn [write StepRequest_Serializer step_request_enc]; autorewrite with ser; try reflexivity.
Qed.

Lemma keys_wf (s : iset PublicKey) : (ser_wf s : Prop) <-> (iset_len s <= 1024)%nat.
Proof. split; [by intros []|]. split; [done|by apply list.Forall_true]. Qed.

Lemma range_run f min max page pre post :
  range_wf min max page ->
  read_range f (reader_at pre ((be_bytes 8 min ++ be_bytes 8 max ++ to_bytes page) ++ post))
    = Ok (f min max page, reader_at (pre ++ be_bytes 8 min ++ be_bytes 8 max ++ to_bytes page) post).
Proof.
  intros (Hm & Hx & Hle & [Hp Hz]%nonzero_wf_spec). unfold read_range. rewrite <- !(assoc_L (++)).
  rd_step; [|done]. rd_step; [|done]. rewrite (proj2 (Z.ltb_ge _ _)) by lia.
  rd_step; [|done]. rewrite Hz. by rewrite <- !(assoc_L (++)).
Qed.
Lemma range_sound f pre post x r :
  read_range f (reader_at pre post) = Ok (x, r) -> exists min max page, x = f min max page /\ range_wf min max page.
Proof.
  unfold read_range. intros Hr. inv_wf Hr. subst. apply Z.ltb_ge in Hcond. do 3 eexists. split; [done|].
  split_and!; [done..|]. by apply nonzero_wf_spec.
Qed.

Lemma step_request_codec : CodecSound StepRequest step_request_enc read step_request_wf.
Proof.
  apply mk_codec_sound; intros *.
  - destruct x; cbn [step_request_wf step_request_enc]; intros Hwf;
      try (destruct Hwf as [Ht Hk]; apply keys_wf in Hk);
      try (run_tagged; done);
      unfold_read; rewrite <- (assoc_L (++)); (rd_step; [|done]); cbn [Z.eqb Pos.eqb];
      rewrite range_run by done; by rewrite <- ?(assoc_L (++)).
  - unfold_read. unfold read_range. safe_read.
  - intros Hr. inv_wf Hr. read_tags Hr; inv_wf Hr; subst; cbn [step_request_wf];
      rewrite <- ?keys_wf; try done; by apply range_sound in Hr as (min & max & page & -> & Hw).
Qed.
#[export] Instance StepRequest_SerOk : SerOk StepRequest := mk_SerOk _ _ step_request_append (sound_of step_request_codec).
#[export] Instance StepRequest_SerSound : SerSound StepRequest := mk_SerSound _ _ (fun _ H => H) step_request_codec.

Inductive StepResponse :=
  | Resp_ChainInfo (common_point : option CommonPoint) (topoheight stable_height : Z) (hash : Hash)
  | Resp_Assets (assets : list AssetWithData) (page : option Z)
  | Resp_Keys (keys : iset PublicKey) (page : option Z)
  | Resp_Balances (balances : list (option (CiphertextCache * option CiphertextCache * BalanceType)))
  | Resp_Nonces (nonces : list Z)
  | Resp_BlocksMetadata (blocks : list BlockMetadata).

Definition resp_kind (r : StepResponse) : StepKind :=
  match r with
  | Resp_ChainInfo _ _ _ _ => SK_ChainInfo
  | Resp_Assets _ _ => SK_Assets
  | Resp_Keys _ _ => SK_Keys
  | Resp_Balances _ => SK_Balances
  | Resp_Nonces _ => SK_Nonces
  | Resp_BlocksMetadata _ => SK_BlocksMetadata
  end.

#[export] Instance StepResponse_Serializer : Serializer StepResponse := {|
  read :=
    id ← Reader.read_u8;
    if id =? 0 then
      common_point ← read (A:=option CommonPoint);
      topoheight ← Reader.read_u64;
      stable_height ← Reader.read_u64;
      hash ← read_hash;
      mret (Resp_ChainInfo common_point topoheight stable_height hash)
    else if id =? 1 then
      assets ← read_keyed_set awd_asset;
      page ← read (A:=option Z);
      if sent_zero page then rd_err InvalidValue else mret (Resp_Assets assets page)
    else if id =? 2 then
      keys ← read (A:=iset PublicKey);
      page ← read (A:=option Z);
      if sent_zero page then rd_err InvalidValue else mret (Resp_Keys keys page)
    else if id =? 3 then
      balances ← read (A:=list (option (CiphertextCache * option CiphertextCache * BalanceType)));
      mret (Resp_Balances balances)
    else if id =? 4 then nonces ← read (A:=list Z); mret (Resp_Nonces nonces)
    else if id =? 5 then blocks ← read_keyed_set bm_hash; mret (Resp_BlocksMetadata blocks)
    else rd_err InvalidValue;
  write r w :=
    match r with
    | Resp_ChainInfo common_point topoheight stable_height hash =>
        let w := write common_point (Writer.write_u8 0 w) in
        write_hash hash (Writer.write_u64 stable_height (Writer.write_u64 topoheight w))
    | Resp_Assets assets page => write page (write_keyed_set assets (Writer.write_u8 1 w))
    | Resp_Keys keys page => write page (write keys (Writer.write_u8 2 w))
    | Resp_Balances balances => write balances (Writer.write_u8 3 w)
    | Resp_Nonces nonces => write nonces (Writer.write_u8 4 w)
    | Resp_BlocksMetadata blocks => write_keyed_set blocks (Writer.write_u8 5 w)
    end;
  size r :=
    (match r with
     | Resp_ChainInfo common_point _ _ hash => size common_point + 8 + 8 + size hash
     | Resp_Assets assets page => size assets + size page
     | Resp_Keys keys page => size keys + size page
     | Resp_Balances balances => size balances
     | Resp_Nonces nonces => size nonces
     | Resp_BlocksMetadata blocks => size blocks
     end + 1)%nat;
|}.
Definition step_response_enc (r : StepResponse) : list byte :=
  match r with
  | Resp_ChainInfo common_point topoheight stable_height hash =>
      u8_bytes 0 ++ to_bytes common_point ++ be_bytes 8 topoheight ++ be_bytes 8 stable_height ++ hash_bytes hash
  | Resp_Assets assets page => u8_bytes 1 ++ keyed_enc assets ++ to_bytes page
  | Resp_Keys keys page => u8_bytes 2 ++ to_bytes keys ++ to_bytes page
  | Resp_Balances balances => u8_bytes 3 ++ to_bytes balances
  | Resp_Nonces nonces => u8_bytes 4 ++ to_bytes nonces
  | Resp_BlocksMetadata blocks => u8_bytes 5 ++ keyed_enc blocks
  end.
Definition step_response_wf (r : StepResponse) : Prop :=
  match r with
  | Resp_ChainInfo common_point topoheight stable_height _ =>
      from_option common_point_wf True common_point /\ in_u 64 topoheight /\ in_u 64 stable_height
  | Resp_Assets assets page => keyed_wf awd_asset assets /\ nonzero_wf page
  | Resp_Keys keys page => (iset_len keys <= 1024)%nat /\ nonzero_wf page
  | Resp_Balances balances =>
      (length balances <= 1024)%nat /\
      Forall (from_option (fun '(balance, output, _) => sent balance /\ from_option sent True output) True) balances
  | Resp_Nonces nonces => (length nonces <= 1024)%nat /\ Forall (in_u 64) nonces
  | Resp_BlocksMetadata blocks => keyed_wf bm_hash blocks
  end.
Lemma step_response_append r w : write r w = Writer.write_bytes (step_response_enc r) w.
Proof.
  destruct r; cbn [write StepResponse_Serializer step_response_enc]; autorewrite with ser; by rewrite <- ?(assoc_L (++)).
Qed.

Lemma balances_wf (l : list (option (CiphertextCache * option CiphertextCache * BalanceType))) :
  ser_wf l <-> step_response_wf (Resp_Balances l).
Proof.
  cbn [step_response_wf]. change (ser_wf l) with ((length l <= 1024)%nat /\ Forall ser_wf l).
  apply and_iff_compat_l. apply list.Forall_iff. intros [[[b o] t]|]; [|done].
  change (ser_wf (Some (b, o, t))) with (sent b /\ from_option sent True o /\ True). cbn [from_option]. tauto.
Qed.

Lemma step_response_codec : CodecSound StepResponse step_response_enc read step_response_wf.
Proof.
  apply mk_codec_sound; intros *.
  - destruct x; intros Hwf; [..|apply balances_wf in Hwf| |]; cbn [step_response_wf step_response_enc] in *;
      try destruct Hwf as (Hl & Hp); try (apply nonzero_wf_spec in Hp as [Hp Hz]); try apply keys_wf in Hl;
      [destruct Hp|..];
      unfold_read; rewrite <- ?(assoc_L (++)); (rd_step; [|done]); cbn [Z.eqb Pos.eqb];
      repeat (rd_step; [|done]); rewrite ?Hz; rewrite <- ?(assoc_L (++)); try done.
  - safe_read.
  - intros Hr. inv_wf Hr. read_tags Hr; inv_wf Hr; subst; [..|by apply balances_wf| |]; cbn [step_response_wf];
      rewrite ?nonzero_wf_spec; rewrite <- ?keys_wf; done.
Qed.
#[export] Instance StepResponse_SerOk : SerOk StepResponse := mk_SerOk _ _ step_response_append (sound_of step_response_codec).
#[export] Instance StepResponse_SerSound : SerSound StepResponse := mk_SerSound _ _ (fun _ H => H) step_response_codec.
End Steps.
