(* ===== verification/Packet.v ===== *)
(** The packets exchanged by peers ([p2p/packet/mod.rs] of the daemon): a byte
    of identifier and the packet it announces. *)

From S2P Require Import Prelude External ExternalModel ExternalCrypto Serializer Hash Defaults VarUint Elgamal Proofs Transaction Block BlockCheck Packets PacketPeer Bootstrap.

#[export] Instance array_SerOk n : SerOk (vec byte n).
Proof.
  refine (mk_SerOk (HS:=array_Serializer n) arr_bytes (fun _ => True) (fun _ _ => eq_refl) _).
  split; intros *; [intros _; by run_read|safe_read].
Defined.
#[export] Instance array_SerSound n : SerSound (vec byte n).
Proof. split. split; [apply _|]. done. Qed.

(** A newtype is encoded as what it wraps. *)
Section Newtype.
Context `{SerSound A} {B : Type} (mk : A -> B) (un : B -> A) (mk_un : forall b, mk (un b) = b) (un_mk : forall a, un (mk a) = a).

Definition newtype_Serializer : Serializer B := {|
  read := x ← read (A:=A); mret (mk x);
  write b w := write (un b) w;
  size b := size (un b);
|}.
Lemma newtype_append b w : write (Serializer:=newtype_Serializer) b w = Writer.write_bytes (to_bytes (un b)) w.
Proof. exact (ser_append (un b) w). Qed.
Lemma newtype_codec :
  CodecSound B (fun b => to_bytes (un b)) (read (Serializer:=newtype_Serializer)) (fun b => ser_wf (un b)).
Proof.
  apply mk_codec_sound; intros *.
  - intros Hx. unfold_read. rd_step; [|done]. unfold mret, rd_ret. by rewrite mk_un.
  - safe_read.
  - intros Hr. inv_wf Hr. subst. by rewrite un_mk.
Qed.
End Newtype.

(** [PacketWrapper]: any packet with a [Ping] behind it. *)
Section Wrapper.
Context {UL : U256Lib} {IA : IndexSetLib SocketAddr}.

Record PacketWrapper (T : Type) := mkWrapper { wrapped : T; wrapper_ping : Ping }.
#[local] Arguments mkWrapper {T}.
#[local] Arguments wrapped {T}.
#[local] Arguments wrapper_ping {T}.

#[export] Instance PacketWrapper_Serializer `{Serializer T} : Serializer (PacketWrapper T) := {|
  read := packet ← read (A:=T); ping ← read (A:=Ping); mret (mkWrapper packet ping);
  write p w := write p.(wrapper_ping) (write p.(wrapped) w);
  size p := (size p.(wrapped) + size p.(wrapper_ping))%nat;
|}.

Context `{SerSound T}.
Definition wrapper_enc (p : PacketWrapper T) : list byte := to_bytes p.(wrapped) ++ to_bytes p.(wrapper_ping).
Definition wrapper_wf (p : PacketWrapper T) : Prop := ser_wf p.(wrapped) /\ ping_wf p.(wrapper_ping).
Lemma wrapper_append p w : write p w = Writer.write_bytes (wrapper_enc p) w.
Proof. cbn [write PacketWrapper_Serializer]. unfold wrapper_enc. by autorewrite with ser. Qed.
Lemma wrapper_codec : CodecSound (PacketWrapper T) wrapper_enc read wrapper_wf.
Proof.
  apply mk_codec_sound; intros *.
  - destruct x as [a p]. intros [Ha Hp]. unfold wrapper_enc. cbn [wrapped wrapper_ping] in *. by run_read.
  - safe_read.
  - intros Hr. inv_wf Hr. by subst.
Qed.
#[export] Instance PacketWrapper_SerOk : SerOk (PacketWrapper T) := mk_SerOk _ _ wrapper_append (sound_of wrapper_codec).
#[export] Instance PacketWrapper_SerSound : SerSound (PacketWrapper T) := mk_SerSound wrapper_enc wrapper_wf (fun _ H => H) wrapper_codec.
End Wrapper.
Arguments mkWrapper {UL IA T}.
Arguments wrapped {UL IA T}.
Arguments wrapper_ping {UL IA T}.

Definition KEY_EXCHANGE_ID : Z := 0.
Definition HANDSHAKE_ID : Z := 1.
Definition TX_PROPAGATION_ID : Z := 2.
Definition BLOCK_PROPAGATION_ID : Z := 3.
Definition CHAIN_REQUEST_ID : Z := 4.
Definition CHAIN_RESPONSE_ID : Z := 5.
Definition PING_ID : Z := 6.
Definition OBJECT_REQUEST_ID : Z := 7.
Definition OBJECT_RESPONSE_ID : Z := 8.
Definition NOTIFY_INV_REQUEST_ID : Z := 9.
Definition NOTIFY_INV_RESPONSE_ID : Z := 10.
Definition BOOTSTRAP_CHAIN_REQUEST_ID : Z := 11.
Definition BOOTSTRAP_CHAIN_RESPONSE_ID : Z := 12.
Definition PEER_DISCONNECTED_ID : Z := 13.

Definition EncryptionKey : Type := vec byte 32.

Section Packet.
Context {UL : U256Lib} {CV : Curve} {ML : Merlin} {RP : RangeProofLib} {B3 : Blake3}.
Context {IS : IndexSetLib Hash} {IA : IndexSetLib SocketAddr} {IK : IndexSetLib PublicKey}.

Record BootstrapChainRequest := mkBootstrapRequest { bootstrap_step : StepRequest }.
#[export] Instance BootstrapChainRequest_Serializer : Serializer BootstrapChainRequest := newtype_Serializer mkBootstrapRequest bootstrap_step.
Lemma bootstrap_step_codec : CodecSound BootstrapChainRequest (fun b => to_bytes b.(bootstrap_step)) read (fun b => ser_wf b.(bootstrap_step)).
Proof. exact (newtype_codec mkBootstrapRequest bootstrap_step (fun '(mkBootstrapRequest _) => eq_refl) (fun _ => eq_refl)). Qed.
#[export] Instance BootstrapChainRequest_SerOk : SerOk BootstrapChainRequest := mk_SerOk _ _ (newtype_append mkBootstrapRequest bootstrap_step) (sound_of bootstrap_step_codec).
#[export] Instance BootstrapChainRequest_SerSound : SerSound BootstrapChainRequest := mk_SerSound _ _ (fun _ H => H) bootstrap_step_codec.

Record BootstrapChainResponse := mkBootstrapResponse { bootstrap_response : StepResponse }.
#[export] Instance BootstrapChainResponse_Serializer : Serializer BootstrapChainResponse := newtype_Serializer mkBootstrapResponse bootstrap_response.
Lemma bootstrap_response_codec : CodecSound BootstrapChainResponse (fun b => to_bytes b.(bootstrap_response)) read (fun b => ser_wf b.(bootstrap_response)).
Proof. exact (newtype_codec mkBootstrapResponse bootstrap_response (fun '(mkBootstrapResponse _) => eq_refl) (fun _ => eq_refl)). Qed.
#[export] Instance BootstrapChainResponse_SerOk : SerOk BootstrapChainResponse := mk_SerOk _ _ (newtype_append mkBootstrapResponse bootstrap_response) (sound_of bootstrap_response_codec).
#[export] Instance BootstrapChainResponse_SerSound : SerSound BootstrapChainResponse := mk_SerSound _ _ (fun _ H => H) bootstrap_response_codec.

Inductive Packet :=
  | P_Handshake (h : Handshake)
  | P_TransactionPropagation (tx : PacketWrapper Hash)
  | P_BlockPropagation (b : PacketWrapper BlockHeader)
  | P_ChainRequest (r : PacketWrapper ChainRequest)
  | P_ChainResponse (r : ChainResponse)
  | P_Ping (p : Ping)
  | P_ObjectRequest (r : ObjectRequest)
  | P_ObjectResponse (r : ObjectResponse)
  | P_NotifyInventoryRequest (r : PacketWrapper NotifyInventoryRequest)
  | P_NotifyInventoryResponse (r : NotifyInventoryResponse)
  | P_BootstrapChainRequest (r : BootstrapChainRequest)
  | P_BootstrapChainResponse (r : BootstrapChainResponse)
  | P_PeerDisconnected (d : PacketPeerDisconnected)
  | P_KeyExchange (k : EncryptionKey).

Definition get_id (p : Packet) : Z :=
  match p with
  | P_Handshake _ => HANDSHAKE_ID
  | P_TransactionPropagation _ => TX_PROPAGATION_ID
  | P_BlockPropagation _ => BLOCK_PROPAGATION_ID
  | P_ChainRequest _ => CHAIN_REQUEST_ID
  | P_ChainResponse _ => CHAIN_RESPONSE_ID
  | P_Ping _ => PING_ID
  | P_ObjectRequest _ => OBJECT_REQUEST_ID
  | P_ObjectResponse _ => OBJECT_RESPONSE_ID
  | P_NotifyInventoryRequest _ => NOTIFY_INV_REQUEST_ID
  | P_NotifyInventoryResponse _ => NOTIFY_INV_RESPONSE_ID
  | P_BootstrapChainRequest _ => BOOTSTRAP_CHAIN_REQUEST_ID
  | P_BootstrapChainResponse _ => BOOTSTRAP_CHAIN_RESPONSE_ID
  | P_PeerDisconnected _ => PEER_DISCONNECTED_ID
  | P_KeyExchange _ => KEY_EXCHANGE_ID
  end.

(** The identifier a packet is written behind, and its own bytes. *)
Definition packet_parts (p : Packet) : Z * list byte :=
  match p with
  | P_KeyExchange key => (KEY_EXCHANGE_ID, to_bytes key)
  | P_Handshake handshake => (HANDSHAKE_ID, to_bytes handshake)
  | P_TransactionPropagation tx => (TX_PROPAGATION_ID, to_bytes tx)
  | P_BlockPropagation block => (BLOCK_PROPAGATION_ID, to_bytes block)
  | P_ChainRequest request => (CHAIN_REQUEST_ID, to_bytes request)
  | P_ChainResponse response => (CHAIN_RESPONSE_ID, to_bytes response)
  | P_Ping ping => (PING_ID, to_bytes ping)
  | P_ObjectRequest request => (OBJECT_REQUEST_ID, to_bytes request)
  | P_ObjectResponse response => (OBJECT_RESPONSE_ID, to_bytes response)
  | P_NotifyInventoryRequest request => (NOTIFY_INV_REQUEST_ID, to_bytes request)
  | P_NotifyInventoryResponse inventory => (NOTIFY_INV_RESPONSE_ID, to_bytes inventory)
  | P_BootstrapChainRequest request => (BOOTSTRAP_CHAIN_REQUEST_ID, to_bytes request)
  | P_BootstrapChainResponse response => (BOOTSTRAP_CHAIN_RESPONSE_ID, to_bytes response)
  | P_PeerDisconnected disconnected => (PEER_DISCONNECTED_ID, to_bytes disconnected)
  end.

(** [size] is the default of the trait. *)
Definition packet_write (p : Packet) (w : Writer) : Writer :=
  let '(id, packet) := packet_parts p in Writer.write_bytes packet (Writer.write_u8 id w).
#[export] Instance Packet_Serializer : Serializer Packet := {|
  read :=
    id ← Reader.read_u8;
    if id =? KEY_EXCHANGE_ID then key ← read (A:=EncryptionKey); mret (P_KeyExchange key)
    else if id =? HANDSHAKE_ID then h ← read (A:=Handshake); mret (P_Handshake h)
    else if id =? TX_PROPAGATION_ID then tx ← read (A:=PacketWrapper Hash); mret (P_TransactionPropagation tx)
    else if id =? BLOCK_PROPAGATION_ID then b ← read (A:=PacketWrapper BlockHeader); mret (P_BlockPropagation b)
    else if id =? CHAIN_REQUEST_ID then r ← read (A:=PacketWrapper ChainRequest); mret (P_ChainRequest r)
    else if id =? CHAIN_RESPONSE_ID then r ← read (A:=ChainResponse); mret (P_ChainResponse r)
    else if id =? PING_ID then p ← read (A:=Ping); mret (P_Ping p)
    else if id =? OBJECT_REQUEST_ID then r ← read (A:=ObjectRequest); mret (P_ObjectRequest r)
    else if id =? OBJECT_RESPONSE_ID then r ← read (A:=ObjectResponse); mret (P_ObjectResponse r)
    else if id =? NOTIFY_INV_REQUEST_ID then
      r ← read (A:=PacketWrapper NotifyInventoryRequest); mret (P_NotifyInventoryRequest r)
    else if id =? NOTIFY_INV_RESPONSE_ID then r ← read (A:=NotifyInventoryResponse); mret (P_NotifyInventoryResponse r)
    else if id =? BOOTSTRAP_CHAIN_REQUEST_ID then r ← read (A:=BootstrapChainRequest); mret (P_BootstrapChainRequest r)
    else if id =? BOOTSTRAP_CHAIN_RESPONSE_ID then r ← read (A:=BootstrapChainResponse); mret (P_BootstrapChainResponse r)
    else if id =? PEER_DISCONNECTED_ID then d ← read (A:=PacketPeerDisconnected); mret (P_PeerDisconnected d)
    else rd_err InvalidValue;
  write := packet_write;
  size := default_size packet_write;
|}.

(** ** What a packet can be: the limits of the protocol *)
Definition packet_wf (p : Packet) : Prop :=
  match p with
  | P_Handshake h => handshake_wf h
  | P_TransactionPropagation tx => ping_wf tx.(wrapper_ping)
  | P_BlockPropagation b => header_wf b.(wrapped) /\ ping_wf b.(wrapper_ping)
  | P_ChainRequest r => chain_request_wf r.(wrapped) /\ ping_wf r.(wrapper_ping)
  | P_ChainResponse r => chain_response_wf r
  | P_Ping p => ping_wf p
  | P_ObjectRequest _ => True
  | P_ObjectResponse r => object_response_wf r
  | P_NotifyInventoryRequest r => page_wf r.(wrapped).(inv_page) /\ ping_wf r.(wrapper_ping)
  | P_NotifyInventoryResponse r => inv_response_wf r
  | P_BootstrapChainRequest r => step_request_wf r.(bootstrap_step)
  | P_BootstrapChainResponse r => step_response_wf r.(bootstrap_response)
  | P_PeerDisconnected d => socket_wf d.(pd_addr)
  | P_KeyExchange _ => True
  end.

Definition packet_enc (p : Packet) : list byte := u8_bytes (packet_parts p).1 ++ (packet_parts p).2.
Lemma packet_append p w : write p w = Writer.write_bytes (packet_enc p) w.
Proof.
  cbn [write Packet_Serializer]. unfold packet_write, packet_enc. destruct (packet_parts p).
  by autorewrite with ser.
Qed.
Lemma get_id_parts p : get_id p = (packet_parts p).1.
Proof. by destruct p. Qed.

(** The tests of a known identifier. *)
Ltac run_ids :=
  repeat match goal with
  | |- context [?a =? ?b] => let c := eval vm_compute in (a =? b) in change (a =? b) with c; cbv iota
  end.
Lemma packet_codec : CodecSound Packet packet_enc read packet_wf.
Proof.
  apply mk_codec_sound; intros *.
  - destruct x; cbn [packet_wf]; unfold packet_enc; cbn [packet_parts fst snd]; intros Hwf;
      unfold_read; rewrite <- (assoc_L (++)); (rd_step; [|done]); run_ids;
      (rd_step; [|done]); by rewrite <- ?(assoc_L (++)).
  - safe_read.
  - intros Hr. inv_wf Hr.
    read_tags Hr; inv_wf Hr; subst; try done; by destruct Hwf0.
Qed.

#[export] Instance Packet_SerOk : SerOk Packet := mk_SerOk packet_enc packet_wf packet_append (sound_of packet_codec).
#[export] Instance Packet_SerSound : SerSound Packet := mk_SerSound packet_enc packet_wf (fun _ H => H) packet_codec.
Lemma packet_bytes p : to_bytes p = packet_enc p.
Proof. apply to_bytes_enc, packet_append. Qed.
End Packet.

(** ** The properties *)
Section Properties.
Context {UL : U256Lib} {CV : Curve} {ML : Merlin} {RP : RangeProofLib} {B3 : Blake3}.
Context {IS : IndexSetLib Hash} {IA : IndexSetLib SocketAddr} {IK : IndexSetLib PublicKey}.

(** C31: a packet within the limits of the protocol is announced by its
    identifier and read back as it was sent, at any position of any buffer, the
    reader stopping right after its last byte. *)
Theorem packet_roundtrip (p : Packet) (pre post : list byte) :
  packet_wf p ->
  to_bytes p !! 0%nat = Some (to_byte (get_id p)) /\
  read (reader_at pre (to_bytes p ++ post)) = Ok (p, reader_at (pre ++ to_bytes p) post).
Proof.
  intros Hp. rewrite packet_bytes, get_id_parts. split; [done|].
  by apply (@codec_rt _ _ _ _ (sound_of packet_codec)).
Qed.

(** C32: whatever bytes a peer sends, reading a packet from them does not panic;
    it is an error or a packet within the limits of the protocol, which is read
    back from its own bytes. *)
Theorem packet_reader_safe (bytes : list byte) :
  match from_bytes (A:=Packet) bytes with
  | Ok p => packet_wf p /\ from_bytes (to_bytes p) = Ok p
  | Err _ => True
  | Panic | Diverge => False
  end.
Proof.
  unfold from_bytes at 1. rewrite reader_new_at.
  pose proof (codec_safe (dec:=read (A:=Packet)) [] bytes) as Hs.
  destruct (read (reader_at [] bytes)) as [[p r]| | |] eqn:Hr; cbn [mbind]; try done.
  apply (@codec_wf _ _ _ _ packet_codec) in Hr. split; [done|]. by apply from_bytes_to_bytes.
Qed.
End Properties.

(** ** A concrete packet *)
Section Witness.
#[local] Existing Instance u256_model.
#[local] Existing Instance curve_model.
#[local] Existing Instance merlin_model.
#[local] Existing Instance range_proof_model.
#[local] Existing Instance blake3_model.
#[local] Existing Instance iset_model.

Definition p_peer : SocketAddr := mkSocketAddr (V4 [# x01; x02; x03; x04]) 2125.
Definition p_ping : Ping :=
  mkPing HashOps.zero 5 4 (Some 2) VarUint.one (iset_insert p_peer iset_new).2.
Definition p_request : Packet :=
  P_ChainRequest (mkWrapper (mkChainRequest [mkBlockId HashOps.zero 5; mkBlockId HashOps.max 4] 512) p_ping).
Lemma p_request_wf : packet_wf p_request.
Proof.
  split; [split|]; cbn [wrapped wrapper_ping creq_blocks accepted_response_size].
  - split; [cbn; unfold CHAIN_SYNC_REQUEST_MAX_BLOCKS; lia|]. split.
    + repeat (constructor; [by unfold block_id_wf, in_u; cbn; lia|]). constructor.
    + cbn. apply list.NoDup_cons. split; [by rewrite list_elem_of_singleton|apply NoDup_singleton].
  - unfold CHAIN_SYNC_RESPONSE_MIN_BLOCKS, CHAIN_SYNC_RESPONSE_MAX_BLOCKS. lia.
  - assert (iset_list (ping_peer_list p_ping) = [p_peer]) as Hl by reflexivity.
    unfold ping_wf, iset_len. rewrite Hl. unfold P2P_PING_PEER_LIST_LIMIT.
    split; [unfold in_u; cbn; lia|]. split; [unfold in_u; cbn; lia|]. split; [split; [unfold in_u; lia|done]|].
    split; [cbn; lia|]. apply list.Forall_singleton. split; [exact I|]. unfold in_u; cbn; lia.
Qed.
Lemma packet_roundtrip_witness :
  packet_wf p_request /\
  to_bytes p_request !! 0%nat = Some (to_byte 4) /\
  read (reader_at [] (to_bytes p_request ++ [])) = Ok (p_request, reader_at ([] ++ to_bytes p_request) []).
Proof. split; [exact p_request_wf|]. exact (packet_roundtrip p_request [] [] p_request_wf). Defined.
End Witness.
