(* ===== verification/PeerState.v ===== *)
(** What a node keeps about a peer, and what the packets of the peer do to it:
    the checks of a handshake ([verify_handshake] of [p2p/mod.rs]) and the
    update by a ping ([Ping::update_peer] of [p2p/packet/ping.rs]). *)

From S2P Require Import Prelude External ExternalModel ExternalCrypto Serializer Hash Defaults VarUint Elgamal BlockCheck Packets PacketPeer.

(** ** The direction of a shared peer ([api/daemon.rs]) *)
Inductive Direction := DirIn | DirOut | DirBoth.
#[export] Instance Direction_eq_dec : EqDecision Direction.
Proof. solve_decision. Defined.

(** [update] says whether the direction changed. *)
Definition direction_update (direction : Direction) (self : Direction) : bool * Direction :=
  match self, direction with
  | DirOut, DirIn => (true, DirBoth)
  | DirIn, DirOut => (true, DirBoth)
  | _, _ => (false, self)
  end.

#[export] Instance Network_eq_dec : EqDecision Network.
Proof. solve_decision. Defined.

(** ** Local addresses *)
Definition octet (o : vec byte 4) (i : nat) : Z := default 0 (byte_val <$> (vec_to_list o !! i)).
(** [Ipv4Addr::is_loopback], [is_private], [is_link_local]; [Ipv6Addr::is_loopback] *)
Definition v4_is_loopback (o : vec byte 4) : bool := octet o 0 =? 127.
Definition v4_is_private (o : vec byte 4) : bool :=
  (octet o 0 =? 10) || ((octet o 0 =? 172) && (16 <=? octet o 1) && (octet o 1 <=? 31))
  || ((octet o 0 =? 192) && (octet o 1 =? 168)).
Definition v4_is_link_local (o : vec byte 4) : bool := (octet o 0 =? 169) && (octet o 1 =? 254).
Definition v6_is_loopback (segments : list Z) : bool := bool_decide (segments = [0; 0; 0; 0; 0; 0; 0; 1]).
Definition is_local_address (a : SocketAddr) : bool :=
  match a.(ip) with
  | V4 o => v4_is_loopback o || v4_is_private o || v4_is_link_local o
  | V6 segments => v6_is_loopback segments
  end.

#[export] Instance IpAddr_countable : Countable IpAddr :=
  inj_countable' (fun a => match a with V4 o => inl o | V6 l => inr l end) (fun s => match s with inl o => V4 o | inr l => V6 l end)
    (fun a => match a with V4 _ => eq_refl | V6 _ => eq_refl end).
#[export] Instance SocketAddr_countable : Countable SocketAddr :=
  inj_countable' (fun a => (a.(ip), a.(port))) (fun p => mkSocketAddr p.1 p.2) (fun '(mkSocketAddr _ _) => eq_refl).

Section Peer.
Context {UL : U256Lib} {IA : IndexSetLib SocketAddr}.

(** The errors of [p2p/error.rs] raised here. *)
Inductive PeerError :=
  | InvalidPrunedTopoHeightChange
  | InvalidPrunedTopoHeight (pruned height : Z)
  | InvalidNewPrunedTopoHeight (pruned old : Z)
  | OwnSocketAddress (a : SocketAddr)
  | LocalSocketAddress (a : SocketAddr)
  | DuplicatedPeer (a peer : SocketAddr) (d : Direction)
  | InvalidNetwork
  | InvalidNetworkID
  | PeerIdAlreadyUsed (id : Z)
  | InvalidHandshake.

(** ** The state of a peer *)
Record Peer := mkPeer {
  peer_address : SocketAddr;
  peer_outgoing_address : SocketAddr;
  peer_top_hash : Hash;
  peer_topoheight : Z;
  peer_height : Z;
  peer_is_pruned : bool;
  peer_pruned_topoheight : Z;
  peer_cumulative_difficulty : VarUint.t;
  peer_peers : gmap SocketAddr Direction;
}.

Definition peer_get_pruned_topoheight (p : Peer) : option Z :=
  if p.(peer_is_pruned) then Some p.(peer_pruned_topoheight) else None.
Definition set_top (hash : Hash) (topoheight height : Z) (p : Peer) : Peer :=
  mkPeer p.(peer_address) p.(peer_outgoing_address) hash topoheight height p.(peer_is_pruned) p.(peer_pruned_topoheight)
    p.(peer_cumulative_difficulty) p.(peer_peers).
Definition peer_set_pruned_topoheight (pruned : option Z) (p : Peer) : Peer :=
  mkPeer p.(peer_address) p.(peer_outgoing_address) p.(peer_top_hash) p.(peer_topoheight) p.(peer_height)
    (match pruned with Some _ => true | None => false end) (default p.(peer_pruned_topoheight) pruned)
    p.(peer_cumulative_difficulty) p.(peer_peers).
Definition set_cumulative_difficulty (difficulty : VarUint.t) (p : Peer) : Peer :=
  mkPeer p.(peer_address) p.(peer_outgoing_address) p.(peer_top_hash) p.(peer_topoheight) p.(peer_height)
    p.(peer_is_pruned) p.(peer_pruned_topoheight) difficulty p.(peer_peers).
Definition set_peers (peers : gmap SocketAddr Direction) (p : Peer) : Peer :=
  mkPeer p.(peer_address) p.(peer_outgoing_address) p.(peer_top_hash) p.(peer_topoheight) p.(peer_height)
    p.(peer_is_pruned) p.(peer_pruned_topoheight) p.(peer_cumulative_difficulty) peers.

(** ** [Ping::update_peer] *)

Definition check_pruned (ping : Ping) : stm Peer PeerError () :=
  p ← st_get;
  if p.(peer_is_pruned) && bool_decide (ping.(ping_pruned_topoheight) = None) then st_err InvalidPrunedTopoHeightChange
  else
    match ping.(ping_pruned_topoheight) with
    | None => mret tt
    | Some pruned_topoheight =>
        if ping.(ping_topoheight) <? pruned_topoheight
        then st_err (InvalidPrunedTopoHeight pruned_topoheight ping.(ping_height))
        else
          match peer_get_pruned_topoheight p with
          | Some old_pruned_topoheight =>
              if pruned_topoheight <? old_pruned_topoheight
              then st_err (InvalidNewPrunedTopoHeight pruned_topoheight old_pruned_topoheight)
              else mret tt
          | None => mret tt
          end
    end.

Definition add_shared_peer (addr : SocketAddr) : stm Peer PeerError () :=
  p ← st_get;
  if decide (p.(peer_address) = addr) then st_err (OwnSocketAddress addr)
  else if is_local_address addr then st_err (LocalSocketAddress addr)
  else
    match p.(peer_peers) !! addr with
    | Some direction =>
        let '(updated, direction) := direction_update DirIn direction in
        if (updated : bool) then st_modify (fun p => set_peers (<[addr := direction]> p.(peer_peers)) p)
        else st_err (DuplicatedPeer addr p.(peer_outgoing_address) direction)
    | None => st_modify (fun p => set_peers (<[addr := DirIn]> p.(peer_peers)) p)
    end.

Definition update_peer (ping : Ping) : stm Peer PeerError () :=
  _ ← st_modify (set_top ping.(ping_top_hash) ping.(ping_topoheight) ping.(ping_height));
  _ ← check_pruned ping;
  _ ← st_modify (peer_set_pruned_topoheight ping.(ping_pruned_topoheight));
  _ ← st_modify (set_cumulative_difficulty ping.(ping_cumulative_difficulty));
  foldMs (fun (_ : ()) addr => add_shared_peer addr) tt (iset_list ping.(ping_peer_list)).

(** ** [verify_handshake] *)
Definition verify_handshake (network : Network) (network_id : vec byte 16) (genesis_hash : Hash) (has_peer_id_used : Z -> bool)
    (handshake : Handshake) : res PeerError () :=
  if bool_decide (handshake.(hs_network) <> network) then Err InvalidNetwork
  else if bool_decide (handshake.(hs_network_id) <> network_id) then Err InvalidNetworkID
  else if has_peer_id_used handshake.(hs_peer_id) then Err (PeerIdAlreadyUsed handshake.(hs_peer_id))
  else if bool_decide (handshake.(hs_genesis_hash) <> genesis_hash) then Err InvalidHandshake
  else
    match handshake.(hs_pruned_topoheight) with
    | Some pruned_topoheight => if handshake.(hs_topoheight) <? pruned_topoheight then Err InvalidHandshake else Ok tt
    | None => Ok tt
    end.
End Peer.

(** ** What a ping can change *)
Section Facts.
Context {UL : U256Lib} {IA : IndexSetLib SocketAddr}.

(** The addresses shared with a peer are neither its own nor local. *)
Definition shared_ok (p : Peer) : Prop :=
  forall a d, p.(peer_peers) !! a = Some d -> a <> p.(peer_address) /\ is_local_address a = false.

(** The address a peer shared, and what was known of it. *)
Definition shared_by (d : option Direction) : option Direction :=
  match d with None => Some DirIn | Some DirOut => Some DirBoth | d => d end.
Definition can_share (p : Peer) (a : SocketAddr) : Prop :=
  a <> p.(peer_address) /\ is_local_address a = false /\ (p.(peer_peers) !! a = None \/ p.(peer_peers) !! a = Some DirOut).

Lemma add_shared_peer_spec a p :
  (can_share p a /\ add_shared_peer a p = (Ok tt, set_peers (<[a := default DirIn (shared_by (p.(peer_peers) !! a))]> p.(peer_peers)) p)) \/
  (exists e, add_shared_peer a p = (Err e, p)).
Proof.
  unfold add_shared_peer, can_share. erewrite stm_bind_run by reflexivity.
  destruct (decide (peer_address p = a)) as [->|Hne]; [right; eauto|].
  destruct (is_local_address a) eqn:Hl; [right; eauto|].
  destruct (peer_peers p !! a) as [[]|] eqn:E; cbn; eauto; left; (split; [|done]); (split_and!; [congruence|done|tauto]).
Qed.

Lemma add_shared_peers_spec l p r p' :
  NoDup l -> foldMs (fun (_ : ()) addr => add_shared_peer addr) tt l p = (r, p') ->
  (exists peers, p' = set_peers peers p) /\ (shared_ok p -> shared_ok p') /\
  (forall a d, p.(peer_peers) !! a = Some d -> p'.(peer_peers) !! a = Some d \/ d = DirOut /\ p'.(peer_peers) !! a = Some DirBoth) /\
  (r = Ok tt -> Forall (can_share p) l /\
    forall a, p'.(peer_peers) !! a = if decide (a ∈ l) then shared_by (p.(peer_peers) !! a) else p.(peer_peers) !! a).
Proof.
  revert p. induction l as [|a l IH]; intros p Hnd Hr.
  { injection Hr as <- <-. split; [exists p.(peer_peers); by destruct p|]. split; [done|]. split; [by left|].
    intros _. split; [done|]. intros a. rewrite decide_False; [done|apply not_elem_of_nil]. }
  apply list.NoDup_cons in Hnd as [Ha Hnd]. cbn [foldMs] in Hr.
  destruct (add_shared_peer_spec a p) as [[Hcan E]|[e E]].
  2: { unfold mbind, stm_bind in Hr. rewrite E in Hr. injection Hr as <- <-.
       split; [exists p.(peer_peers); by destruct p|]. split; [done|]. split; [by left|done]. }
  rewrite (stm_bind_run _ _ _ _ _ E) in Hr. cbv beta in Hr.
  set (p1 := set_peers _ p) in Hr. destruct (IH p1 Hnd Hr) as ((peers & ->) & Hok & Hgrow & Hdone).
  destruct Hcan as (Hown & Hlocal & Hknown).
  split; [by exists peers|]. split; [|split].
  - intros Hp. apply Hok. intros b d. cbn. destruct (decide (b = a)) as [->|Hb].
    + intros _. done.
    + rewrite lookup_insert_ne by done. apply Hp.
  - intros b d Hb. cbn in Hb |- *. destruct (decide (b = a)) as [->|Hba].
    + destruct Hknown as [Hk|Hk]; rewrite Hk in Hb; [done|]. injection Hb as <-. right. split; [done|].
      destruct (Hgrow a DirBoth) as [?|[? _]]; [|done|done].
      cbn. by rewrite lookup_insert_eq, Hk.
    + apply Hgrow. cbn. by rewrite lookup_insert_ne by done.
  - intros Hok'. destruct (Hdone Hok') as [Hf Hl]. split.
    + constructor; [done|]. apply list.Forall_forall. intros b Hb. rewrite list.Forall_forall in Hf.
      destruct (Hf b Hb) as (H1 & H2 & H3). split_and!; [done|done|]. cbn in H3.
      rewrite lookup_insert_ne in H3 by (intros ->; done). done.
    + intros b. rewrite Hl. cbn. destruct (decide (b = a)) as [->|Hba].
      * rewrite decide_False, decide_True, lookup_insert_eq by (done || left). by destruct Hknown as [->| ->].
      * rewrite lookup_insert_ne by done. destruct (decide (b ∈ l)); [rewrite decide_True by by right|rewrite decide_False by (intros [?|?]%list.elem_of_cons; done)]; done.
Qed.

Lemma check_pruned_spec ping p r p' :
  check_pruned ping p = (r, p') ->
  p' = p /\ (r = Ok tt ->
    (forall old, peer_get_pruned_topoheight p = Some old -> exists new, ping.(ping_pruned_topoheight) = Some new /\ old <= new) /\
    (forall new, ping.(ping_pruned_topoheight) = Some new -> new <= ping.(ping_topoheight))).
Proof.
  unfold check_pruned, peer_get_pruned_topoheight. erewrite stm_bind_run by reflexivity.
  destruct (peer_is_pruned p), (ping_pruned_topoheight ping) as [new|]; cbn [andb]; rewrite ?bool_decide_true, ?bool_decide_false by done.
  - destruct (Z.ltb_spec (ping_topoheight ping) new); [intros [= <- <-]; by split|].
    destruct (Z.ltb_spec new (peer_pruned_topoheight p)); intros [= <- <-]; (split; [done|]); [done|]. intros _. split.
    + intros old [= <-]. eauto.
    + by intros ? [= <-].
  - intros [= <- <-]. by split.
  - destruct (Z.ltb_spec (ping_topoheight ping) new); intros [= <- <-]; (split; [done|]); [done|]. intros _. split; [done|].
    by intros ? [= <-].
  - intros [= <- <-]. by split.
Qed.

(** What a ping does to the state of a peer.  Accepted or not, the pruned
    topoheight of the peer only goes up, and the addresses shared with it only
    grow, by addresses that are neither local nor its own.  An accepted ping
    sets the top of the peer and its pruned topoheight, at most its topoheight,
    and shares exactly its addresses, none of which it had shared before. *)
Theorem ping_updates_peer (ping : Ping) (p p' : Peer) (r : res PeerError ()) :
  update_peer ping p = (r, p') ->
  (shared_ok p -> shared_ok p') /\
  (forall a d, p.(peer_peers) !! a = Some d ->
    p'.(peer_peers) !! a = Some d \/ d = DirOut /\ p'.(peer_peers) !! a = Some DirBoth) /\
  (forall old, peer_get_pruned_topoheight p = Some old ->
    exists new, peer_get_pruned_topoheight p' = Some new /\ old <= new) /\
  (r = Ok tt ->
    p'.(peer_top_hash) = ping.(ping_top_hash) /\ p'.(peer_topoheight) = ping.(ping_topoheight) /\
    p'.(peer_height) = ping.(ping_height) /\ p'.(peer_cumulative_difficulty) = ping.(ping_cumulative_difficulty) /\
    peer_get_pruned_topoheight p' = ping.(ping_pruned_topoheight) /\
    from_option (fun pruned => pruned <= p'.(peer_topoheight)) True (peer_get_pruned_topoheight p') /\
    Forall (can_share p) (iset_list ping.(ping_peer_list)) /\
    forall a, p'.(peer_peers) !! a =
      if decide (a ∈ iset_list ping.(ping_peer_list)) then shared_by (p.(peer_peers) !! a) else p.(peer_peers) !! a).
Proof.
  unfold update_peer. erewrite stm_bind_run by reflexivity. set (p1 := set_top _ _ _ p).
  destruct (check_pruned ping p1) as [rc p2] eqn:Hc. destruct (check_pruned_spec _ _ _ _ Hc) as [-> Hok].
  unfold mbind at 1, stm_bind at 1. rewrite Hc. destruct rc as [[]|e| |];
    try (intros [= <- <-]; split; [done|]; split; [by left|]; split; [intros old Ho; exists old; split; [done|lia]|done]).
  destruct (Hok eq_refl) as [Hold Hnew]. do 2 (erewrite stm_bind_run by reflexivity).
  set (p3 := set_cumulative_difficulty _ _). intros Hr.
  destruct (add_shared_peers_spec _ p3 _ _ (iset_NoDup _) Hr) as ((peers & ->) & Hs & Hg & Hd).
  assert (peer_get_pruned_topoheight (set_peers peers p3) = ping_pruned_topoheight ping) as Hp.
  { unfold peer_get_pruned_topoheight. cbn. by destruct (ping_pruned_topoheight ping). }
  split; [exact Hs|]. split; [exact Hg|]. split.
  - intros old Ho. destruct (Hold old Ho) as (new & Hn & Hle). exists new. by rewrite Hp.
  - intros E. destruct (Hd E) as [Hf Hl]. rewrite Hp. split_and!; try done.
    destruct (ping_pruned_topoheight ping) as [new|] eqn:En; [|done]. cbn. by apply Hnew.
Qed.
End Facts.

(** ** A concrete ping *)
Section Witness.
#[local] Existing Instances u256_model iset_model.
Definition q_shared : SocketAddr := mkSocketAddr (V4 [# x01; x02; x03; x04]) 2125.
Definition q_peer : Peer :=
  mkPeer (mkSocketAddr (V4 [# x05; x06; x07; x08]) 2125) (mkSocketAddr (V4 [# x05; x06; x07; x08]) 2125)
    HashOps.zero 7 7 true 2 VarUint.one ∅.
Definition q_ping : Ping := mkPing HashOps.max 9 8 (Some 3) VarUint.one (iset_insert q_shared iset_new).2.
Lemma q_list : iset_list q_ping.(ping_peer_list) = [q_shared].
Proof. reflexivity. Qed.
Lemma add_first_peer a p :
  p.(peer_address) <> a -> is_local_address a = false -> p.(peer_peers) = ∅ ->
  add_shared_peer a p = (Ok tt, set_peers {[a := DirIn]} p).
Proof.
  intros Ha Hl Hp. unfold add_shared_peer. erewrite stm_bind_run by reflexivity.
  rewrite decide_False, Hl, Hp by done. rewrite lookup_empty. unfold st_modify. by rewrite Hp.
Qed.
Lemma q_run : exists p', update_peer q_ping q_peer = (Ok tt, p').
Proof.
  unfold update_peer. rewrite q_list. do 4 (erewrite stm_bind_run by reflexivity). cbn [foldMs].
  erewrite stm_bind_run; [by eexists|]. apply add_first_peer; [discriminate|reflexivity|reflexivity].
Qed.

Lemma ping_updates_peer_witness :
  exists p', update_peer q_ping q_peer = (Ok tt, p') /\
    (forall old, peer_get_pruned_topoheight q_peer = Some old -> exists new, peer_get_pruned_topoheight p' = Some new /\ old <= new) /\
    p'.(peer_topoheight) = 9 /\ peer_get_pruned_topoheight p' = Some 3.
Proof.
  destruct q_run as [p' Hrun]. exists p'.
  destruct (ping_updates_peer q_ping q_peer p' (Ok tt) Hrun) as (_ & _ & Hold & Hdone).
  destruct (Hdone eq_refl) as (_ & Ht & _ & _ & Hp & _). split; [exact Hrun|]. split; [exact Hold|]. split; [exact Ht|exact Hp].
Defined.
End Witness.
