(* ===== verification/ChainSync.v ===== *)
(** The chain synchronisation between two peers ([p2p/mod.rs] of the daemon):
    the list of block ids a node sends ([build_list_of_blocks_id]), the common
    point the other node finds in it ([find_common_point]), the blocks it
    answers with ([handle_chain_request]) and what the first node decides to do
    with the answer (the first part of [handle_chain_response]).

    The sending and the receiving of the packets are not part of it. *)

From S2P Require Import Prelude External ExternalModel ExternalCrypto Serializer Hash Defaults VarUint Elgamal Proofs Transaction Block Errors Account Providers Dag DagOrder DagWalks BlockProviders BlockCheck Reorder Packets PacketPeer Bootstrap Packet.

Definition CHAIN_SYNC_REQUEST_EXPONENTIAL_INDEX_START : nat := 30.

(** The errors of [p2p/error.rs] these functions raise; an error of the storage
    keeps its own type inside. *)
Inductive P2pError :=
  | InvalidBlockIdList
  | InvalidPacket
  | InvalidCommonPoint (topoheight : Z)
  | InvalidPopCount (pop_count blocks : Z)
  | OnBlockchain (e : blockchain_error).
Abbreviation p2p_res := (res P2pError).
Definition of_chain {A} (m : bres A) : p2p_res A := map_err OnBlockchain m.

Section Traits.
Class BlockExecutionOrderProvider (S : Type) := {
  get_block_position_in_order : S -> Hash -> bres Z;
  has_block_position_in_order : S -> Hash -> bres bool;
}.
End Traits.

Section Sync.
Context {UL : U256Lib} {IS : IndexSetLib Hash} {CV : Curve}.
Context {S : Type} {SP : Storage S} {DP : DifficultyProvider S} {BP : BlockProvider S}.
Context {BH : BlocksAtHeightProvider S} {PR : PrunedTopoheightProvider S} {EO : BlockExecutionOrderProvider S}.

(** ** The list of block ids *)

(** [IndexSet::insert]: a block id is its hash. *)
Definition insert_block_id (b : BlockId) (blocks : list BlockId) : list BlockId :=
  if decide (b.(bid_hash) ∈ bid_hash <$> blocks) then blocks else blocks ++ [b].

Fixpoint block_ids_loop (fuel : nat) (storage : S) (topoheight pruned_topoheight i : Z) (blocks : list BlockId)
  : bres (list BlockId) :=
  if (i <? topoheight) && (pruned_topoheight <? u64_sub topoheight i)
     && (Z.of_nat (length blocks) + 1 <? CHAIN_SYNC_REQUEST_MAX_BLOCKS)
  then
    match fuel with
    | O => Diverge
    | Datatypes.S fuel =>
        let current_topo := u64_sub topoheight i in
        hash ← get_hash_at_topo_height storage current_topo;
        let blocks := insert_block_id (mkBlockId hash current_topo) blocks in
        let i := if (length blocks <? CHAIN_SYNC_REQUEST_EXPONENTIAL_INDEX_START)%nat then u64_add i 1 else u64_mul i 2 in
        block_ids_loop fuel storage topoheight pruned_topoheight i blocks
    end
  else Ok blocks.

Definition build_list_of_blocks_id (fuel : nat) (self : Blockchain) (storage : S) : bres (list BlockId) :=
  let topoheight := self.(bc_topoheight) in
  pruned ← get_pruned_topoheight storage;
  let pruned_topoheight := default 0 pruned in
  blocks ← block_ids_loop fuel storage topoheight pruned_topoheight 0 [];
  genesis_block ← get_hash_at_topo_height storage 0;
  Ok (insert_block_id (mkBlockId genesis_block 0) blocks).

(** ** The common point *)

Fixpoint search_common_point (storage : S) (expected_topoheight : Z) (i : nat) (blocks : list BlockId)
  : p2p_res (option CommonPoint) :=
  match blocks with
  | [] => Ok None
  | block_id :: blocks =>
      if (expected_topoheight =? 0)
         || ((i <? CHAIN_SYNC_REQUEST_EXPONENTIAL_INDEX_START)%nat
             && negb (u64_sub expected_topoheight 1 =? block_id.(bid_topoheight)))
      then Err InvalidBlockIdList
      else
        let expected_topoheight := u64_sub expected_topoheight 1 in
        has_block ← of_chain (has_block_with_hash storage block_id.(bid_hash));
        common ←
          (if (has_block : bool) then
             ordered ← of_chain (is_block_topological_ordered storage block_id.(bid_hash));
             if (ordered : bool) then
               topoheight ← of_chain (get_topo_height_for_hash storage block_id.(bid_hash));
               Ok (topoheight =? block_id.(bid_topoheight))
             else Ok false
           else Ok false);
        if (common : bool) then Ok (Some (mkCommonPoint block_id.(bid_hash) block_id.(bid_topoheight)))
        else search_common_point storage expected_topoheight (Datatypes.S i) blocks
  end.

Definition find_common_point (storage : S) (blocks : list BlockId) : p2p_res (option CommonPoint) :=
  match head blocks, list.last blocks with
  | Some first, Some genesis_id =>
      let start_topoheight := u64_add first.(bid_topoheight) 1 in
      our_genesis_hash ← of_chain (get_hash_at_topo_height storage 0);
      if bool_decide (genesis_id.(bid_hash) <> our_genesis_hash) || (start_topoheight <? genesis_id.(bid_topoheight))
      then Err InvalidBlockIdList
      else search_common_point storage start_topoheight 0 blocks
  | _, _ => Err InvalidBlockIdList
  end.

(** ** The answer *)

(** A side block that was executed before the block in front of it is sent
    before it. *)
Definition swaps (storage : S) (top_topoheight : Z) (hash : Hash) (previous : option Hash) : bres bool :=
  match previous with
  | None => Ok false
  | Some previous_hash =>
      has ← has_block_position_in_order storage hash;
      has ← (if (has : bool) then has_block_position_in_order storage previous_hash else Ok false);
      if (has : bool) then
        side ← is_side_block_internal storage hash top_topoheight;
        if (side : bool) then
          position ← get_block_position_in_order storage hash;
          previous_position ← get_block_position_in_order storage previous_hash;
          Ok (position <? previous_position)
        else Ok false
      else Ok false
  end.

Definition add_response_block (swap : bool) (hash : Hash) (response_blocks : iset Hash) : iset Hash :=
  if swap then
    match iset_pop response_blocks with
    | Some (previous, response_blocks) => (iset_insert previous (iset_insert hash response_blocks).2).2
    | None => (iset_insert hash response_blocks).2
    end
  else (iset_insert hash response_blocks).2.

(** The blocks from the common point up, and the lowest of their heights. *)
Fixpoint response_loop (fuel : nat) (storage : S) (accepted_response_size : nat) (top_topoheight topoheight lowest_height : Z)
    (response_blocks : iset Hash) : bres (Z * iset Hash) :=
  if (iset_len response_blocks <? accepted_response_size)%nat && (topoheight <=? top_topoheight) then
    match fuel with
    | O => Diverge
    | Datatypes.S fuel =>
        hash ← get_hash_at_topo_height storage topoheight;
        height ← get_height_for_block_hash storage hash;
        let lowest_height := if height <? lowest_height then height else lowest_height in
        swap ← swaps storage top_topoheight hash (list.last (iset_list response_blocks));
        response_loop fuel storage accepted_response_size top_topoheight (u64_add topoheight 1) lowest_height
          (add_response_block swap hash response_blocks)
    end
  else Ok (lowest_height, response_blocks).

(** The blocks of the heights above the stable height that are not sent yet. *)
Definition add_top_blocks (response_blocks top_blocks : iset Hash) (hashes : list Hash) : iset Hash :=
  foldl (fun top_blocks hash =>
    if iset_contains hash response_blocks then top_blocks else (iset_insert hash top_blocks).2) top_blocks hashes.
Fixpoint top_loop (fuel : nat) (storage : S) (top_height height : Z) (response_blocks top_blocks : iset Hash) : bres (iset Hash) :=
  if (height <=? top_height) && (Z.of_nat (iset_len top_blocks) <? CHAIN_SYNC_TOP_BLOCKS) then
    match fuel with
    | O => Diverge
    | Datatypes.S fuel =>
        hashes ← get_blocks_at_height storage height;
        top_loop fuel storage top_height (u64_add height 1) response_blocks
          (add_top_blocks response_blocks top_blocks (iset_list hashes))
    end
  else Ok top_blocks.

(** The packet sent back. *)
Definition handle_chain_request (fuel : nat) (self : Blockchain) (storage : S) (blocks : list BlockId)
    (accepted_response_size : nat) : p2p_res ChainResponse :=
  common_point ← find_common_point storage blocks;
  match common_point with
  | None => Ok (mkChainResponse None None iset_new iset_new)
  | Some point =>
      let topoheight := point.(cp_topoheight) in
      let top_topoheight := self.(bc_topoheight) in
      let should_search_alt_tips := u64_sub top_topoheight topoheight <? Z.of_nat accepted_response_size in
      let unstable_height := if should_search_alt_tips then Some (u64_add self.(bc_stable_height) 1) else None in
      '(lowest_height, response_blocks) ←
        of_chain (response_loop fuel storage accepted_response_size top_topoheight topoheight self.(bc_height) iset_new);
      top_blocks ←
        match unstable_height with
        | Some height => of_chain (top_loop fuel storage self.(bc_height) height response_blocks iset_new)
        | None => Ok iset_new
        end;
      Ok (mkChainResponse (Some point) (Some lowest_height) response_blocks top_blocks)
  end.

(** ** What the answer makes the node do *)

(** How many blocks the answer asks to rewind. *)
Definition pop_count (self : Blockchain) (storage : S) (is_priority : bool) (common_point : CommonPoint) (lowest_height : Z)
  : p2p_res Z :=
  topoheight ← of_chain (get_topo_height_for_hash storage common_point.(cp_hash));
  if negb (topoheight =? common_point.(cp_topoheight)) then Err (InvalidCommonPoint common_point.(cp_topoheight))
  else
    _ ← of_chain (get_height_for_block_hash storage common_point.(cp_hash));
    let our_topoheight := self.(bc_topoheight) in
    let count :=
      if lowest_height <=? self.(bc_stable_height) then
        if topoheight <? our_topoheight then u64_sub our_topoheight topoheight else u64_sub topoheight our_topoheight
      else 0 in
    pruned ← of_chain (get_pruned_topoheight storage);
    match pruned with
    | Some pruned_topo =>
        let available_diff := u64_sub our_topoheight pruned_topo in
        Ok (if (available_diff <? count) && negb ((available_diff =? 0) && is_priority) then available_diff else count)
    | None => Ok count
    end.

(** The state of the peer the decision looks at. *)
Record PeerView := mkPeerView { peer_topoheight : Z; peer_height : Z; peer_is_priority : bool }.

Inductive SyncPlan :=
  (** no common point: nothing to do *)
  | NothingToSync
  (** rewind without checking: the peer is trusted by the user *)
  | RewindTrusted (pop_count : Z)
  (** check the chain of headers of these blocks, then rewind and add them *)
  | ValidateThenRewind (pop_count starting_topoheight : Z) (blocks : iset Hash)
  (** request and add these blocks *)
  | AddBlocks (blocks : iset Hash).

Definition plan_chain_response (self : Blockchain) (storage : S) (peer : PeerView) (synced_priority_node : bool)
    (response : ChainResponse) : p2p_res SyncPlan :=
  match response.(cresp_common_point), response.(cresp_lowest_height) with
  | Some common_point, Some lowest_height =>
      pop_count ← pop_count self storage peer.(peer_is_priority) common_point lowest_height;
      let blocks_len := Z.of_nat (iset_len response.(cresp_blocks)) in
      let blocks := iset_extend response.(cresp_blocks) (iset_list response.(cresp_top_blocks)) in
      if (0 <? pop_count) && (self.(bc_topoheight) <? peer.(peer_topoheight)) && (self.(bc_height) <=? peer.(peer_height))
         && (peer.(peer_is_priority) || negb synced_priority_node)
      then
        if peer.(peer_is_priority) then Ok (RewindTrusted pop_count)
        else if blocks_len <? pop_count then Err (InvalidPopCount pop_count blocks_len)
        else Ok (ValidateThenRewind pop_count (u64_add common_point.(cp_topoheight) 1) blocks)
      else Ok (AddBlocks blocks)
  | _, _ =>
      if (0 <? iset_len response.(cresp_blocks))%nat then Err InvalidPacket else Ok NothingToSync
  end.
End Sync.

(** ** The list a node builds *)
Section List.
Context {UL : U256Lib} {IS : IndexSetLib Hash} {CV : Curve}.
Context {S : Type} {SP : Storage S} {DP : DifficultyProvider S} {BP : BlockProvider S}.
Context {BH : BlocksAtHeightProvider S} {PR : PrunedTopoheightProvider S} {EO : BlockExecutionOrderProvider S}.

(** What a storage says of the order of its blocks. *)
Record order_view (storage : S) (topo : Hash -> option Z) : Prop := {
  ov_block h : exists b, has_block_with_hash storage h = Ok b /\ (is_Some (topo h) -> b = true);
  ov_ordered h : is_block_topological_ordered storage h = Ok (bool_decide (is_Some (topo h)));
  ov_topo h t : topo h = Some t -> get_topo_height_for_hash storage h = Ok t;
  ov_hash h t : topo h = Some t -> get_hash_at_topo_height storage t = Ok h;
}.

(** The topoheights of a list: the first thirty follow each other, the others
    go down, the last is the genesis. *)
Record descending (T : Z) (topos : list Z) : Prop := {
  desc_at k t : topos !! k = Some t -> 0 <= t <= T - Z.of_nat k;
  desc_first k t : topos !! k = Some t -> (k < CHAIN_SYNC_REQUEST_EXPONENTIAL_INDEX_START)%nat -> t = T - Z.of_nat k;
  desc_sorted : StronglySorted Z.gt topos;
}.

Section Build.
Context (storage : S) (topo : Hash -> option Z) (Hov : order_view storage topo).
Context (T pruned : Z) (HT : in_u 63 T) (Hpruned : 0 <= pruned).
Context (Hall : forall t, t = 0 \/ pruned < t <= T -> exists h, topo h = Some t).

Definition hash_at (t : Z) : Hash := match get_hash_at_topo_height storage t with Ok h => h | _ => HashOps.zero end.
Definition id_at (t : Z) : BlockId := mkBlockId (hash_at t) t.

Lemma hash_at_spec t : t = 0 \/ pruned < t <= T -> get_hash_at_topo_height storage t = Ok (hash_at t) /\ topo (hash_at t) = Some t.
Proof using Hov Hall.
  intros Ht. destruct (Hall t Ht) as [h Hh]. pose proof (ov_hash _ _ Hov h t Hh) as E.
  unfold hash_at. by rewrite E.
Qed.

Definition in_order (t : Z) : Prop := t = 0 \/ pruned < t <= T.
Lemma insert_id t topos :
  in_order t -> Forall in_order topos -> t ∉ topos -> insert_block_id (id_at t) (id_at <$> topos) = id_at <$> (topos ++ [t]).
Proof using Hov Hall.
  intros Ht Hts Hn. unfold insert_block_id. rewrite decide_False; [by rewrite fmap_app|].
  rewrite <- list_fmap_compose, list_elem_of_fmap. intros (t' & E & Hin). cbn in E.
  rewrite list.Forall_forall in Hts. destruct (hash_at_spec t Ht) as [_ H1]. destruct (hash_at_spec t' (Hts t' Hin)) as [_ H2].
  rewrite <- E, H1 in H2. injection H2 as ->. done.
Qed.

Record build_inv (i : Z) (topos : list Z) : Prop := {
  bi_desc : descending T topos;
  bi_above t : t ∈ topos -> pruned < t /\ T - i < t <= T;
  bi_few : (length topos < CHAIN_SYNC_REQUEST_EXPONENTIAL_INDEX_START)%nat -> i = Z.of_nat (length topos);
  bi_many : (CHAIN_SYNC_REQUEST_EXPONENTIAL_INDEX_START <= length topos)%nat -> Z.of_nat (length topos) <= i;
  bi_len : (length topos <= 63)%nat;
}.

Lemma sorted_snoc (l : list Z) t : StronglySorted Z.gt l -> (forall u, u ∈ l -> t < u) -> StronglySorted Z.gt (l ++ [t]).
Proof.
  intros Hl Ht. induction Hl as [|u l Hl IH Hu]; simpl; [by repeat constructor|].
  constructor; [apply IH; intros v Hv; apply Ht; by right|].
  apply list.Forall_app. split; [done|]. constructor; [|done]. apply Z.lt_gt, Ht. left.
Qed.

Lemma descending_snoc topos t :
  descending T topos -> 0 <= t <= T - Z.of_nat (length topos) ->
  ((length topos < CHAIN_SYNC_REQUEST_EXPONENTIAL_INDEX_START)%nat -> t = T - Z.of_nat (length topos)) ->
  (forall u, u ∈ topos -> t < u) -> descending T (topos ++ [t]).
Proof.
  intros Hd Ht Hf Hl. split; [intros k u Hk|intros k u Hk Hlt|by apply sorted_snoc; [apply desc_sorted with T|]];
    apply lookup_app_Some in Hk as [Hk|[Hge Hk]].
  - by apply (desc_at _ _ Hd).
  - apply list_lookup_singleton_Some in Hk as [Hk ->]. replace k with (length topos) by lia. done.
  - by apply (desc_first _ _ Hd).
  - apply list_lookup_singleton_Some in Hk as [Hk ->]. replace k with (length topos) in * by lia. auto.
Qed.

Lemma block_ids_loop_spec fuel i topos :
  build_inv i topos -> (63 <= length topos + fuel)%nat -> 0 <= i < 2 ^ 64 ->
  (forall t, t ∈ topos -> in_order t) ->
  exists topos' i', block_ids_loop fuel storage T pruned i (id_at <$> topos) = Ok (id_at <$> topos') /\
    build_inv i' topos' /\ (T <= i' \/ T - i' <= pruned \/ length topos' = 63%nat).
Proof using Hov Hall HT Hpruned.
  revert i topos. induction fuel as [|fuel IH]; intros i topos Hi Hf Hr Hin; cbn [block_ids_loop];
    rewrite length_fmap; unfold CHAIN_SYNC_REQUEST_MAX_BLOCKS, in_u in *; pose proof (bi_len _ _ Hi) as Hlen.
  { rewrite (proj2 (Z.ltb_ge (Z.of_nat (length topos) + 1) 64)) by lia. rewrite andb_false_r.
    exists topos, i. split_and!; [done..|lia]. }
  destruct (Z.ltb_spec i T) as [HiT|?]; [|exists topos, i; split_and!; [done..|lia]].
  rewrite u64_sub_small by (unfold in_u; lia).
  destruct (Z.ltb_spec pruned (T - i)) as [Hp|?]; [|exists topos, i; split_and!; [done..|lia]].
  destruct (Z.ltb_spec (Z.of_nat (length topos) + 1) 64) as [Hl|?]; [|exists topos, i; split_and!; [done..|lia]].
  cbn [andb]. assert (in_order (T - i)) as Hio by (right; lia).
  destruct (hash_at_spec (T - i) Hio) as [Hg _]. rewrite Hg. cbn [mbind res_bind].
  assert (forall u, u ∈ topos -> T - i < u) as Hbelow by (intros u Hu; by apply (bi_above _ _ Hi)).
  change (mkBlockId (hash_at (T - i)) (T - i)) with (id_at (T - i)).
  rewrite insert_id; [|done|by apply list.Forall_forall|intros Hn; specialize (Hbelow _ Hn); lia].
  rewrite length_fmap, length_app. cbn [length].
  assert (Z.of_nat (length topos) <= i) as Hki.
  { destruct (Nat.lt_ge_cases (length topos) CHAIN_SYNC_REQUEST_EXPONENTIAL_INDEX_START) as [H|H];
      [rewrite (bi_few _ _ Hi H); lia|by apply (bi_many _ _ Hi)]. }
  set (i' := if (length topos + 1 <? CHAIN_SYNC_REQUEST_EXPONENTIAL_INDEX_START)%nat then u64_add i 1 else u64_mul i 2).
  assert (0 <= i' < 2 ^ 64 /\ i < i' /\ Z.of_nat (length topos + 1) <= i' /\
    ((length topos + 1 < CHAIN_SYNC_REQUEST_EXPONENTIAL_INDEX_START)%nat -> i' = Z.of_nat (length topos + 1))) as (Hr' & Hlt & Hge & Hfew).
  { unfold i', CHAIN_SYNC_REQUEST_EXPONENTIAL_INDEX_START in *. destruct (Nat.ltb_spec (length topos + 1) 30) as [H|H].
    - rewrite u64_add_small by (unfold in_u; lia). rewrite (bi_few _ _ Hi) by (unfold CHAIN_SYNC_REQUEST_EXPONENTIAL_INDEX_START; lia). lia.
    - rewrite u64_mul_small by (unfold in_u; lia). lia. }
  apply (IH i' (topos ++ [T - i])); rewrite ?length_app; cbn [length]; [|lia|done|].
  2: { intros t [Ht|Ht%list_elem_of_singleton]%list.elem_of_app; [auto|by subst]. }
  split.
  - apply descending_snoc; [apply (bi_desc _ _ Hi)|lia| |done].
    intros H. by rewrite (bi_few _ _ Hi H).
  - intros t [Ht|Ht%list_elem_of_singleton]%list.elem_of_app; [|lia].
    destruct (bi_above _ _ Hi t Ht). lia.
  - rewrite length_app. exact Hfew.
  - rewrite length_app. intros _. exact Hge.
  - rewrite length_app. cbn [length]. lia.
Qed.

Lemma build_list_spec fuel self pruned_topo :
  self.(bc_topoheight) = T -> get_pruned_topoheight storage = Ok pruned_topo -> default 0 pruned_topo = pruned ->
  pruned = 0 \/ Z.of_nat CHAIN_SYNC_REQUEST_EXPONENTIAL_INDEX_START <= T - pruned -> (63 <= fuel)%nat ->
  exists topos, build_list_of_blocks_id fuel self storage = Ok (id_at <$> topos) /\ descending T topos /\
    (length topos <= 64)%nat /\ list.last topos = Some 0 /\ Forall in_order topos.
Proof using Hov Hall HT Hpruned.
  intros Hself Hp Hd Hfar Hfuel. unfold build_list_of_blocks_id. rewrite Hself, Hp. cbn [mbind res_bind]. rewrite Hd.
  destruct (block_ids_loop_spec fuel 0 []) as (topos & i & Hrun & Hi & Hend).
  - split; [split; [done|done|constructor]|set_solver|done|cbn; lia|cbn; lia].
  - cbn; lia.
  - lia.
  - set_solver.
  - change (id_at <$> []) with (@nil BlockId) in Hrun. rewrite Hrun. cbn [mbind res_bind].
    assert (in_order 0) as H0 by (by left). destruct (hash_at_spec 0 H0) as [Hg _]. rewrite Hg. cbn [mbind res_bind].
    assert (Forall in_order topos) as Hin.
    { apply list.Forall_forall. intros t Ht. right. destruct (bi_above _ _ Hi t Ht). lia. }
    change (mkBlockId (hash_at 0) 0) with (id_at 0).
    rewrite insert_id; [|done..|]. 2: { intros Hn. destruct (bi_above _ _ Hi 0 Hn). lia. }
    exists (topos ++ [0]). split; [done|]. split; [|split_and!].
    + pose proof (bi_len _ _ Hi) as Hlen. unfold in_u in *.
      apply descending_snoc; [apply (bi_desc _ _ Hi)| | |intros u Hu; destruct (bi_above _ _ Hi u Hu); lia].
      * destruct (list.last topos) as [u|] eqn:Hl; [|apply last_None in Hl as ->; cbn; lia].
        rewrite last_lookup in Hl. pose proof (desc_at _ _ (bi_desc _ _ Hi) _ _ Hl) as Hu.
        pose proof (bi_above _ _ Hi u ltac:(by eapply list_elem_of_lookup_2)) as [? _].
        assert (length topos <> 0%nat) by (destruct topos; [done|cbn; lia]). lia.
      * intros Hlt. pose proof (bi_few _ _ Hi Hlt) as ->. unfold CHAIN_SYNC_REQUEST_EXPONENTIAL_INDEX_START in *.
        destruct Hend as [Hend|[Hend|Hend]]; [|destruct Hfar as [->|Hfar]; [|lia]|lia].
        all: destruct (list.last topos) as [u|] eqn:Hl; [|apply last_None in Hl as ->; cbn in *; lia].
        all: rewrite last_lookup in Hl; pose proof (desc_at _ _ (bi_desc _ _ Hi) _ _ Hl) as Hu;
          pose proof (bi_above _ _ Hi u ltac:(by eapply list_elem_of_lookup_2)) as [? _];
          assert (length topos <> 0%nat) by (destruct topos; [done|cbn; lia]); lia.
    + rewrite length_app. cbn [length]. pose proof (bi_len _ _ Hi). lia.
    + apply last_snoc.
    + apply list.Forall_app. split; [done|]. by constructor.
Qed.

(** ** The search of the other node *)
Context (other : S) (topo_other : Hash -> option Z) (Hother : order_view other topo_other).

Lemma search_spec topos k :
  (forall j t, topos !! j = Some t -> 0 <= t <= T - Z.of_nat (k + j)) ->
  (forall j t, topos !! j = Some t -> (k + j < CHAIN_SYNC_REQUEST_EXPONENTIAL_INDEX_START)%nat -> t = T - Z.of_nat (k + j)) ->
  list.last topos = Some 0 -> topo_other (hash_at 0) = Some 0 ->
  exists pre t post, topos = pre ++ t :: post /\
    search_common_point other (T + 1 - Z.of_nat k) k (id_at <$> topos) = Ok (Some (mkCommonPoint (hash_at t) t)) /\
    topo_other (hash_at t) = Some t /\ Forall (fun u => topo_other (hash_at u) <> Some u) pre.
Proof using HT Hother.
  intros Hat Hfirst Hlast H0. revert k Hat Hfirst. induction topos as [|t topos IH]; intros k Hat Hfirst; [done|].
  pose proof (Hat 0%nat t eq_refl) as Ht. pose proof (Hfirst 0%nat t eq_refl) as Hf. rewrite Nat.add_0_r in Ht, Hf.
  unfold in_u in HT. cbn [search_common_point fmap list_fmap id_at bid_hash bid_topoheight].
  rewrite (proj2 (Z.eqb_neq (T + 1 - Z.of_nat k) 0)) by lia. rewrite u64_sub_small by (unfold in_u; lia).
  assert (((k <? CHAIN_SYNC_REQUEST_EXPONENTIAL_INDEX_START)%nat && negb (T + 1 - Z.of_nat k - 1 =? t)) = false) as ->.
  { destruct (Nat.ltb_spec k CHAIN_SYNC_REQUEST_EXPONENTIAL_INDEX_START) as [Hk|]; [|done].
    rewrite (proj2 (Z.eqb_eq _ _)); [done|]. rewrite (Hf Hk). lia. }
  cbn [orb].
  destruct (ov_block _ _ Hother (hash_at t)) as (has & Hhas & Hsome). rewrite Hhas, (ov_ordered _ _ Hother (hash_at t)).
  cbn [of_chain map_err mbind res_bind].
  destruct (decide (topo_other (hash_at t) = Some t)) as [E|E].
  - exists [], t, topos. rewrite (Hsome ltac:(by rewrite E)), bool_decide_true, (ov_topo _ _ Hother _ _ E) by (by rewrite E).
    cbn [of_chain map_err mbind res_bind]. by rewrite Z.eqb_refl.
  - assert ((if has then
        if bool_decide (is_Some (topo_other (hash_at t))) then topoheight ← of_chain (get_topo_height_for_hash other (hash_at t)); Ok (topoheight =? t) else Ok false
      else Ok false) = Ok false) as Hno.
    { destruct has; [|done]. destruct (topo_other (hash_at t)) as [u|] eqn:Eu; [|done].
      rewrite bool_decide_true by eauto. rewrite (ov_topo _ _ Hother _ _ Eu). cbn [of_chain map_err mbind res_bind].
      rewrite (proj2 (Z.eqb_neq u t)); [done|]. congruence. }
    rewrite Hno. cbn [mbind res_bind].
    destruct topos as [|t' topos].
    { exfalso. injection Hlast as ->. done. }
    destruct (IH Hlast (Datatypes.S k)) as (pre & u & post & -> & Hrun & Hu & Hpre).
    + intros j v Hj. specialize (Hat (Datatypes.S j) v Hj). lia.
    + intros j v Hj Hlt. rewrite (Hfirst (Datatypes.S j) v Hj) by lia. lia.
    + exists (t :: pre), u, post. split_and!; [done| |done|by constructor].
      replace (T + 1 - Z.of_nat k - 1) with (T + 1 - Z.of_nat (Datatypes.S k)) by lia. exact Hrun.
Qed.

Lemma list_search topos :
  descending T topos -> list.last topos = Some 0 -> topo_other (hash_at 0) = Some 0 ->
  exists pre t post, topos = pre ++ t :: post /\
    find_common_point other (id_at <$> topos) = Ok (Some (mkCommonPoint (hash_at t) t)) /\
    topo_other (hash_at t) = Some t /\ Forall (fun u => topo_other (hash_at u) <> Some u) pre.
Proof using HT Hother.
  intros Hd Hlast H0. destruct (search_spec topos 0) as (pre & t & post & E & Hrun & Ht & Hpre); [..|done|done|].
  - intros j t Hj. by apply (desc_at _ _ Hd).
  - intros j t Hj. by apply (desc_first _ _ Hd).
  - exists pre, t, post. split; [done|]. split; [|done]. unfold find_common_point.
    rewrite fmap_last, Hlast. unfold in_u in HT.
    destruct topos as [|u topos]; [done|]. cbn [head fmap list_fmap option_fmap option_map id_at bid_topoheight bid_hash].
    rewrite (desc_first _ _ Hd 0%nat u eq_refl) by (unfold CHAIN_SYNC_REQUEST_EXPONENTIAL_INDEX_START; lia).
    rewrite u64_add_small by (unfold in_u; lia). rewrite (ov_hash _ _ Hother _ _ H0). cbn [of_chain map_err mbind res_bind].
    rewrite bool_decide_false by tauto. rewrite (proj2 (Z.ltb_ge _ _)) by lia. cbn [orb].
    rewrite (desc_first _ _ Hd 0%nat u eq_refl) in Hrun by (unfold CHAIN_SYNC_REQUEST_EXPONENTIAL_INDEX_START; lia).
    replace (T - Z.of_nat 0 + 1) with (T + 1 - Z.of_nat 0) by lia. exact Hrun.
Qed.

Lemma sorted_from pre t post : StronglySorted Z.gt (pre ++ t :: post) -> Forall (Z.gt t) post.
Proof. induction pre as [|u pre IH]; cbn [app]; intros Hs; apply StronglySorted_inv in Hs as [? ?]; auto. Qed.

Lemma list_wf topos :
  descending T topos -> (length topos <= 64)%nat -> list.last topos = Some 0 -> Forall in_order topos ->
  block_ids_wf (id_at <$> topos).
Proof using Hov Hall HT.
  intros Hd Hlen Hlast Hin. unfold in_u in HT. rewrite list.Forall_forall in Hin. split; [|split].
  - rewrite length_fmap. unfold CHAIN_SYNC_REQUEST_MAX_BLOCKS. destruct topos; [done|]. cbn [length] in *. lia.
  - apply list.Forall_fmap, list.Forall_forall. intros t (k & Hk)%list_elem_of_lookup_1.
    pose proof (desc_at _ _ Hd _ _ Hk). unfold compose, block_id_wf, in_u. cbn. lia.
  - rewrite <- list_fmap_compose. apply NoDup_fmap_2_strong.
    + intros t u Ht Hu E. cbn in E. destruct (hash_at_spec t (Hin t Ht)) as [_ H1]. destruct (hash_at_spec u (Hin u Hu)) as [_ H2].
      rewrite E in H1. congruence.
    + pose proof (desc_sorted _ _ Hd) as Hs. clear -Hs. induction Hs as [|t l Hs IH Ht]; [constructor|].
      apply list.NoDup_cons. split; [|done]. rewrite list.Forall_forall in Ht. intros Hn. specialize (Ht t Hn). lia.
Qed.
End Build.

(** ** The answer *)
Lemma iset_pop_last (s : iset Hash) prev s' : iset_pop s = Some (prev, s') -> iset_list s = iset_list s' ++ [prev].
Proof. intros E. pose proof (iset_pop_spec s) as H. by rewrite E in H. Qed.

Lemma add_response_block_spec swap hash (s : iset Hash) :
  hash ∉ iset_list s -> iset_list (add_response_block swap hash s) ≡ₚ iset_list s ++ [hash].
Proof.
  intros Hn. unfold add_response_block.
  destruct (iset_insert_fresh hash s Hn) as (s1 & Hi & Hs1).
  destruct swap; [|by rewrite Hi; cbn [snd]; rewrite Hs1].
  destruct (iset_pop s) as [[prev s']|] eqn:E; [|by rewrite Hi; cbn [snd]; rewrite Hs1].
  apply iset_pop_last in E. rewrite E in Hn. pose proof (iset_NoDup s) as Hnd. rewrite E in Hnd |- *.
  apply list.NoDup_app in Hnd as (_ & Hd & _).
  assert (hash ∉ iset_list s') as Hn' by (intros H; apply Hn, list.elem_of_app; by left).
  destruct (iset_insert_fresh hash s' Hn') as (s2 & Hi2 & Hs2). rewrite Hi2. cbn [snd].
  assert (prev ∉ iset_list s2) as Hp.
  { rewrite Hs2. intros [Hp|Hp%list_elem_of_singleton]%list.elem_of_app.
    - apply (Hd prev Hp). left.
    - subst. apply Hn, list.elem_of_app. right. left. }
  destruct (iset_insert_fresh prev s2 Hp) as (s3 & Hi3 & Hs3). rewrite Hi3. cbn [snd]. rewrite Hs3, Hs2.
  rewrite <- !(assoc_L (++)). apply Permutation_app_head, Permutation_swap.
Qed.

Section Answer.
Context (storage : S) (topo : Hash -> option Z) (Hov : order_view storage topo).
Context (T : Z) (HT : in_u 63 T) (Hall : forall t, 0 <= t <= T -> exists h, topo h = Some t).
(** The ordered blocks have heights, and their positions can be read. *)
Context (height : Hash -> Z) (Hheight : forall h t, topo h = Some t -> get_height_for_block_hash storage h = Ok (height h)).
Context (Hrange : forall h, in_u 64 (height h)).
Context (Hposition : forall h, exists b, has_block_position_in_order storage h = Ok b /\
  (b = true -> exists z, get_block_position_in_order storage h = Ok z)).

Lemma side_loop_ok n z i : i <= T -> exists b, side_loop n storage z i = Ok b.
Proof using Hall Hheight Hov.
  revert i. induction n as [|n IH]; intros i Hi; cbn [side_loop]; [eauto|].
  destruct (Z.ltb_spec 0 i); [|eauto]. destruct (Hall i ltac:(lia)) as [h Hh].
  rewrite (ov_hash _ _ Hov _ _ Hh). cbn [mbind res_bind]. rewrite (Hheight _ _ Hh). cbn [mbind res_bind].
  destruct (_ <=? _); [eauto|]. apply IH. lia.
Qed.
Lemma side_block_ok h : exists b, is_side_block_internal storage h T = Ok b.
Proof using Hall Hheight Hov.
  unfold is_side_block_internal. rewrite (ov_ordered _ _ Hov). cbn [mbind res_bind].
  destruct (topo h) as [t|] eqn:E; [|eauto]. rewrite bool_decide_true by eauto. cbn [negb].
  rewrite (ov_topo _ _ Hov _ _ E). cbn [mbind res_bind].
  destruct ((t =? 0) || (T <? t)) eqn:Hc; [eauto|]. apply orb_false_iff in Hc as [_ Hc%Z.ltb_ge].
  rewrite (Hheight _ _ E). cbn [mbind res_bind]. apply side_loop_ok. lia.
Qed.
Lemma swaps_ok h prev : exists b, swaps storage T h prev = Ok b.
Proof using Hall Hheight Hov Hposition.
  unfold swaps. destruct prev as [prev|]; [|eauto].
  destruct (Hposition h) as (b & Hb & Hp). rewrite Hb. cbn [mbind res_bind].
  destruct (Hposition prev) as (b' & Hb' & Hp'). destruct b; [rewrite Hb'|]; cbn [mbind res_bind]; [|eauto].
  destruct b'; [|eauto]. destruct (side_block_ok h) as [[] Hs]; rewrite Hs; cbn [mbind res_bind]; [|eauto].
  destruct (Hp eq_refl) as [z Hz], (Hp' eq_refl) as [z' Hz']. rewrite Hz. cbn [mbind res_bind]. rewrite Hz'. eauto.
Qed.

(** What the loop has sent when it reaches [topoheight]. *)
Record sent_from (start topoheight lowest : Z) (blocks : iset Hash) : Prop := {
  sf_blocks h : h ∈ iset_list blocks <-> exists t, topo h = Some t /\ start <= t < topoheight;
  sf_len : Z.of_nat (iset_len blocks) = topoheight - start;
  sf_lowest h : h ∈ iset_list blocks -> lowest <= height h;
  sf_range : in_u 64 lowest;
}.

Lemma response_loop_spec fuel accepted start topoheight lowest blocks :
  sent_from start topoheight lowest blocks -> 0 <= start <= topoheight -> topoheight <= T + 1 ->
  (accepted < iset_len blocks + fuel)%nat -> (iset_len blocks <= accepted)%nat ->
  exists lowest' blocks' stop,
    response_loop fuel storage accepted T topoheight lowest blocks = Ok (lowest', blocks') /\
    sent_from start stop lowest' blocks' /\ (iset_len blocks' <= accepted)%nat /\ stop <= T + 1 /\
    (stop = T + 1 \/ iset_len blocks' = accepted).
Proof using Hall Hheight Hov Hposition HT Hrange.
  revert topoheight lowest blocks. induction fuel as [|fuel IH]; intros topoheight lowest blocks Hs Hr Ht Hf Hle; [lia|].
  cbn [response_loop].
  destruct (Nat.ltb_spec (iset_len blocks) accepted) as [Hlt|]; [|exists lowest, blocks, topoheight; split_and!; [done..|right; lia]].
  destruct (Z.leb_spec topoheight T) as [Hto|]; [|exists lowest, blocks, topoheight; split_and!; [done..|left; lia]].
  cbn [andb]. destruct (Hall topoheight ltac:(lia)) as [h Hh].
  rewrite (ov_hash _ _ Hov _ _ Hh). cbn [mbind res_bind]. rewrite (Hheight _ _ Hh). cbn [mbind res_bind].
  destruct (swaps_ok h (list.last (iset_list blocks))) as [swap Hsw]. rewrite Hsw. cbn [mbind res_bind].
  unfold in_u in HT. rewrite u64_add_small by (unfold in_u; lia).
  assert (h ∉ iset_list blocks) as Hfresh.
  { intros Hin. apply (sf_blocks _ _ _ _ Hs) in Hin as (t & Et & Hrt). rewrite Hh in Et. injection Et as <-. lia. }
  pose proof (add_response_block_spec swap h blocks Hfresh) as Hp.
  assert (iset_len (add_response_block swap h blocks) = (iset_len blocks + 1)%nat) as Hlen.
  { unfold iset_len. rewrite Hp, length_app. done. }
  apply IH; [|lia|lia|lia|lia]. pose proof (sf_len _ _ _ _ Hs) as Hl. split.
  - intros x. rewrite Hp, list.elem_of_app, list_elem_of_singleton, (sf_blocks _ _ _ _ Hs). split.
    + intros [(t & Et & Hrt)| ->]; [exists t|exists topoheight]; (split; [done|lia]).
    + intros (t & Et & Hrt). destruct (decide (t = topoheight)) as [->|]; [right|left; exists t; split; [done|lia]].
      pose proof (ov_hash _ _ Hov _ _ Et) as E1. rewrite (ov_hash _ _ Hov _ _ Hh) in E1. congruence.
  - lia.
  - intros x. rewrite Hp, list.elem_of_app, list_elem_of_singleton. intros [Hx| ->].
    + pose proof (sf_lowest _ _ _ _ Hs x Hx). destruct (Z.ltb_spec (height h) lowest); lia.
    + destruct (Z.ltb_spec (height h) lowest); lia.
  - destruct (_ <? _); [apply Hrange|apply (sf_range _ _ _ _ Hs)].
Qed.

Lemma add_top_blocks_spec (sent top : iset Hash) l :
  (forall h, h ∈ iset_list (add_top_blocks sent top l) <-> h ∈ iset_list top \/ h ∈ l /\ h ∉ iset_list sent) /\
  (iset_len (add_top_blocks sent top l) <= iset_len top + length l)%nat.
Proof.
  unfold add_top_blocks. revert top. induction l as [|h l IH]; intros top; cbn [foldl length].
  { split; [|lia]. intros h. split; [by left|by intros [|[?%not_elem_of_nil _]]]. }
  destruct (iset_contains h sent) eqn:Hc.
  - apply bool_decide_eq_true in Hc. destruct (IH top) as [Hi Hl]. split; [|lia]. intros x. rewrite Hi, list.elem_of_cons. naive_solver.
  - apply bool_decide_eq_false in Hc. destruct (IH (iset_insert h top).2) as [Hi Hl].
    destruct (iset_insert_spec h top) as [_ Hin]. split.
    + intros x. rewrite Hi, Hin, list.elem_of_cons. case_decide as Hd; [|rewrite list.elem_of_app, list_elem_of_singleton]; naive_solver.
    + assert (iset_len (iset_insert h top).2 <= iset_len top + 1)%nat; [|lia].
      unfold iset_len. rewrite Hin. case_decide; [lia|]. rewrite length_app. cbn [length]. lia.
Qed.

Context (top_height stable_height : Z) (Htop : in_u 63 top_height) (Hstable : in_u 63 stable_height).
Context (at_height : Z -> iset Hash).
Context (Hat : forall z, stable_height < z <= top_height -> get_blocks_at_height storage z = Ok (at_height z)).

(** The last height scanned may start with nine blocks taken, and thirty are
    accepted. *)
Definition TOP_BLOCKS_PER_HEIGHT : nat := 21.
Definition few_top_blocks : Prop := forall z, stable_height < z <= top_height -> (iset_len (at_height z) <= TOP_BLOCKS_PER_HEIGHT)%nat.
(** The blocks of the heights above the stable one and below [z] that are not sent. *)
Definition top_below (sent : iset Hash) (z : Z) (top : iset Hash) : Prop := forall h,
  h ∈ iset_list top <-> (h ∉ iset_list sent) /\ exists z', stable_height < z' < z /\ h ∈ iset_list (at_height z').

Lemma top_loop_spec fuel z sent top :
  stable_height < z <= top_height + 1 -> top_height - z < Z.of_nat fuel -> top_below sent z top ->
  exists top' stop, top_loop fuel storage top_height z sent top = Ok top' /\ stop <= top_height + 1 /\ top_below sent stop top' /\
    (stop = top_height + 1 \/ CHAIN_SYNC_TOP_BLOCKS <= Z.of_nat (iset_len top')) /\
    (few_top_blocks -> (iset_len top <= 30)%nat -> (iset_len top' <= 30)%nat).
Proof using Hat Htop Hstable.
  unfold in_u in *. revert z top. induction fuel as [|fuel IH]; intros z top Hz Hf Ht; cbn [top_loop].
  { rewrite (proj2 (Z.leb_gt z top_height)) by lia. exists top, z. split_and!; [done|lia|done|left; lia|done]. }
  destruct (Z.leb_spec z top_height) as [Hzt|]; [|exists top, z; split_and!; [done|lia|done|left; lia|done]].
  destruct (Z.ltb_spec (Z.of_nat (iset_len top)) CHAIN_SYNC_TOP_BLOCKS) as [Hlt|]; [|exists top, z; split_and!; [done|lia|done|by right|done]].
  cbn [andb]. rewrite Hat by lia. cbn [mbind res_bind]. rewrite u64_add_small by (unfold in_u; lia).
  destruct (add_top_blocks_spec sent top (iset_list (at_height z))) as [Hi Hl].
  destruct (IH (z + 1) (add_top_blocks sent top (iset_list (at_height z)))) as (top' & stop & H1 & H2 & H3 & H4 & H5); [lia|lia| |].
  - intros h. rewrite Hi, (Ht h). split.
    + intros [[Hn (z' & Hz' & Hin)]|[Hin Hn]]; (split; [done|]); [exists z'|exists z]; (split; [lia|done]).
    + intros [Hn (z' & Hz' & Hin)]. destruct (decide (z' = z)) as [->|]; [by right|]. left. split; [done|]. exists z'. split; [lia|done].
  - exists top', stop. split_and!; [done..|]. intros Hfew _. apply H5; [done|].
    specialize (Hfew z ltac:(lia)). unfold CHAIN_SYNC_TOP_BLOCKS, TOP_BLOCKS_PER_HEIGHT, iset_len in *. lia.
Qed.

(** The whole answer, once the common point is found. *)
Lemma handle_chain_request_spec fuel self blocks accepted point :
  self.(bc_topoheight) = T -> self.(bc_height) = top_height -> self.(bc_stable_height) = stable_height ->
  stable_height <= top_height ->
  find_common_point storage blocks = Ok (Some point) -> topo point.(cp_hash) = Some point.(cp_topoheight) ->
  0 <= point.(cp_topoheight) <= T -> (0 < accepted)%nat ->
  (accepted < fuel)%nat -> top_height - stable_height <= Z.of_nat fuel ->
  exists lowest sent top, handle_chain_request fuel self storage blocks accepted =
      Ok (mkChainResponse (Some point) (Some lowest) sent top) /\
    in_u 64 lowest /\ (iset_len sent <= accepted)%nat /\ (forall h, h ∈ iset_list sent -> lowest <= height h) /\
    (forall h, h ∈ iset_list sent <-> exists t, topo h = Some t /\
      point.(cp_topoheight) <= t <= T /\ t < point.(cp_topoheight) + Z.of_nat accepted) /\
    (if T - point.(cp_topoheight) <? Z.of_nat accepted
     then exists stop, stop <= top_height + 1 /\ top_below sent stop top /\
       (stop = top_height + 1 \/ CHAIN_SYNC_TOP_BLOCKS <= Z.of_nat (iset_len top))
     else top = iset_new) /\
    (few_top_blocks -> (iset_len top <= 30)%nat).
Proof using All.
  intros HsT Hsh Hss Hst Hfind Hpoint Hrp Ha Hfuel Hfuel'. unfold handle_chain_request. rewrite Hfind. cbn [mbind res_bind].
  rewrite HsT, Hsh, Hss. unfold in_u in *. rewrite u64_sub_small, u64_add_small by (unfold in_u; lia).
  destruct (response_loop_spec fuel accepted point.(cp_topoheight) point.(cp_topoheight) top_height iset_new)
    as (lowest & sent & stop & Hrun & Hsf & Hle & Hstop & Hend).
  - split.
    + intros h. rewrite iset_new_spec. split; [by intros ?%not_elem_of_nil|]. intros (t & _ & ?). lia.
    + unfold iset_len. rewrite iset_new_spec. cbn. lia.
    + intros h. rewrite iset_new_spec. by intros ?%not_elem_of_nil.
    + unfold in_u. lia.
  - lia.
  - lia.
  - lia.
  - unfold iset_len. rewrite iset_new_spec. cbn. lia.
  - rewrite Hrun. cbn [of_chain map_err mbind res_bind].
    assert (exists top, match (if T - cp_topoheight point <? Z.of_nat accepted then Some (stable_height + 1) else None) with
      | Some z => of_chain (top_loop fuel storage top_height z sent iset_new)
      | None => Ok iset_new end = Ok top /\
      (if T - cp_topoheight point <? Z.of_nat accepted
       then exists stop, stop <= top_height + 1 /\ top_below sent stop top /\
         (stop = top_height + 1 \/ CHAIN_SYNC_TOP_BLOCKS <= Z.of_nat (iset_len top))
       else top = iset_new) /\ (few_top_blocks -> (iset_len top <= 30)%nat)) as (top & Htops & Hshape & Hlen).
    { assert (iset_len (iset_new (A:=Hash)) <= 30)%nat as H0 by (unfold iset_len; rewrite iset_new_spec; cbn; lia).
      destruct (_ <? _); [|by exists iset_new].
      destruct (top_loop_spec fuel (stable_height + 1) sent iset_new) as (top & stop' & Hrun' & H1 & H2 & H3 & H4); [lia|lia| |].
      - intros h. rewrite iset_new_spec. split; [by intros ?%not_elem_of_nil|]. intros [_ (z & Hz & _)]. lia.
      - exists top. rewrite Hrun'. split; [done|]. split; [by exists stop'|]. auto. }
    rewrite Htops. cbn [mbind res_bind]. exists lowest, sent, top. split; [done|]. split; [apply (sf_range _ _ _ _ Hsf)|].
    split; [done|]. split; [by apply (sf_lowest _ _ _ _ Hsf)|]. split; [|done].
    intros h. rewrite (sf_blocks _ _ _ _ Hsf). pose proof (sf_len _ _ _ _ Hsf) as Hl.
    assert (stop <= T + 1 /\ (stop = T + 1 \/ stop = point.(cp_topoheight) + Z.of_nat accepted)) as [_ Hcase].
    { split; [lia|]. destruct Hend as [->|He]; [by left|right; lia]. }
    split; intros (t & Et & Ht); exists t; (split; [done|]); lia.
Qed.
End Answer.

(** ** The decision *)

Lemma of_chain_ok {A} (m : bres A) x : of_chain m = Ok x -> m = Ok x.
Proof. by destruct m; intros [= ->] || intros [=]. Qed.

(** What a rewind asked by a peer is worth. *)
Lemma pop_count_spec self storage topo priority point lowest n pruned :
  order_view storage topo -> (forall h t, topo h = Some t -> 0 <= t <= self.(bc_topoheight)) ->
  in_u 63 self.(bc_topoheight) -> get_pruned_topoheight storage = Ok pruned ->
  from_option (fun p => 0 <= p <= self.(bc_topoheight)) True pruned ->
  (get_topo_height_for_hash storage point.(cp_hash) = Ok point.(cp_topoheight) -> topo point.(cp_hash) = Some point.(cp_topoheight)) ->
  pop_count self storage priority point lowest = Ok n ->
  topo point.(cp_hash) = Some point.(cp_topoheight) /\ 0 <= n <= self.(bc_topoheight) - point.(cp_topoheight) /\
  (0 < n -> lowest <= self.(bc_stable_height)) /\
  (priority = false -> from_option (fun p => n <= self.(bc_topoheight) - p) True pruned).
Proof.
  intros Hov Hr HT Hp Hpr Hread. unfold pop_count, in_u in *.
  intros (t & Ht%of_chain_ok & Hn)%res_bind_ok.
  destruct (Z.eqb_spec t (cp_topoheight point)) as [->|]; [|done]. cbn [negb] in Hn. specialize (Hread Ht).
  apply res_bind_ok in Hn as (z & _ & Hn). rewrite Hp in Hn. cbn [of_chain map_err mbind res_bind] in Hn.
  pose proof (Hr _ _ Hread) as Hrt.
  set (count := if lowest <=? bc_stable_height self then _ else 0) in Hn.
  assert (0 <= count <= bc_topoheight self - cp_topoheight point /\ (0 < count -> lowest <= bc_stable_height self)) as [Hc Hs].
  { subst count. destruct (Z.leb_spec lowest (bc_stable_height self)); [|lia].
    destruct (Z.ltb_spec (cp_topoheight point) (bc_topoheight self));
      (rewrite u64_sub_small by (unfold in_u; lia); lia). }
  clearbody count. destruct pruned as [p|]; cbn [from_option] in *.
  - rewrite u64_sub_small in Hn by (unfold in_u; lia).
    destruct (Z.ltb_spec (bc_topoheight self - p) count); cbn [andb] in Hn; [|injection Hn as <-; split_and!; auto; lia].
    destruct (Z.eqb_spec (bc_topoheight self - p) 0), priority; cbn [negb andb] in Hn; injection Hn as <-;
      (split; [done|]; split; [lia|]; split; [intros; apply Hs; lia|intros; (done || lia)]).
  - injection Hn as <-. split; [done|]. split; [lia|]. by split.
Qed.
End List.

(** ** The properties *)
Section Properties.
Context {UL : U256Lib} {IS : IndexSetLib Hash} {CV : Curve}.
Context {S : Type} {SP : Storage S} {DP : DifficultyProvider S} {BP : BlockProvider S}.
Context {BH : BlocksAtHeightProvider S} {PR : PrunedTopoheightProvider S} {EO : BlockExecutionOrderProvider S}.

(** C25: two nodes of one genesis find a common point.  The list a node builds
    is within the limits of the protocol, and the other node finds in it a
    block both order at the same topoheight, the highest of the list.  This
    asks that the list does not meet the pruned topoheight in its first thirty
    blocks, where the other node checks that the topoheights follow. *)
Theorem common_point_found (fuel : nat) (self : Blockchain) (a b : S) (topo_a topo_b : Hash -> option Z)
    (pruned : option Z) (genesis : Hash) :
  order_view a topo_a -> order_view b topo_b ->
  in_u 63 self.(bc_topoheight) -> get_pruned_topoheight a = Ok pruned -> 0 <= default 0 pruned ->
  (forall t, t = 0 \/ default 0 pruned < t <= self.(bc_topoheight) -> exists h, topo_a h = Some t) ->
  default 0 pruned = 0 \/
    Z.of_nat CHAIN_SYNC_REQUEST_EXPONENTIAL_INDEX_START <= self.(bc_topoheight) - default 0 pruned ->
  topo_a genesis = Some 0 -> topo_b genesis = Some 0 -> (63 <= fuel)%nat ->
  exists blocks point,
    build_list_of_blocks_id fuel self a = Ok blocks /\ block_ids_wf blocks /\
    find_common_point b blocks = Ok (Some point) /\
    topo_a point.(cp_hash) = Some point.(cp_topoheight) /\ topo_b point.(cp_hash) = Some point.(cp_topoheight) /\
    (forall id, id ∈ blocks -> topo_b id.(bid_hash) = Some id.(bid_topoheight) -> id.(bid_topoheight) <= point.(cp_topoheight)).
Proof.
  intros Ha Hb HT Hp Hp0 Hall Hfar Hga Hgb Hfuel.
  destruct (build_list_spec a topo_a Ha _ _ HT Hp0 Hall fuel self pruned eq_refl Hp eq_refl Hfar Hfuel)
    as (topos & Hrun & Hd & Hlen & Hlast & Hin).
  assert (hash_at a 0 = genesis) as Hg.
  { unfold hash_at. by rewrite (ov_hash _ _ Ha _ _ Hga). }
  destruct (list_search a _ HT b topo_b Hb topos Hd Hlast) as (pre & t & post & Hsplit & Hfind & Ht & Hpre); [by rewrite Hg|].
  assert (t ∈ topos) as Htin by (rewrite Hsplit; set_solver).
  pose proof (proj1 (list.Forall_forall _ _) Hin t Htin) as Hio.
  destruct (hash_at_spec a topo_a Ha _ _ Hall t Hio) as [_ Hta].
  exists (id_at a <$> topos), (mkCommonPoint (hash_at a t) t). split; [done|].
  split; [by apply (list_wf a topo_a Ha _ _ HT Hall)|]. split; [done|]. split; [done|]. split; [done|].
  - intros id (u & -> & Hu)%list_elem_of_fmap Hub. cbn [bid_hash bid_topoheight cp_topoheight id_at] in *.
    rewrite Hsplit in Hu. apply list.elem_of_app in Hu as [Hu|Hu].
    + by apply (proj1 (list.Forall_forall _ _) Hpre u Hu) in Hub.
    + pose proof (desc_sorted _ _ Hd) as Hs. rewrite Hsplit in Hs. apply sorted_from in Hs.
      apply list.elem_of_cons in Hu as [->|Hu]; [lia|]. apply (proj1 (list.Forall_forall _ _) Hs) in Hu. lia.
Qed.

(** What a node that answers can read of its own chain, from which nothing is
    missing. *)
Record answers (self : Blockchain) (storage : S) (topo : Hash -> option Z) (height : Hash -> Z) (at_height : Z -> iset Hash) : Prop := {
  an_order : order_view storage topo;
  an_top : in_u 63 self.(bc_topoheight);
  an_top_height : in_u 63 self.(bc_height);
  an_stable_height : 0 <= self.(bc_stable_height) <= self.(bc_height);
  an_all t : 0 <= t <= self.(bc_topoheight) -> exists h, topo h = Some t;
  an_topo h t : topo h = Some t -> 0 <= t <= self.(bc_topoheight);
  an_height h t : topo h = Some t -> get_height_for_block_hash storage h = Ok (height h);
  an_range h : in_u 64 (height h);
  an_position h : exists b, has_block_position_in_order storage h = Ok b /\
    (b = true -> exists z, get_block_position_in_order storage h = Ok z);
  an_at z : self.(bc_stable_height) < z <= self.(bc_height) -> get_blocks_at_height storage z = Ok (at_height z);
}.

(** C26: once a common point is found, a node whose topoheights are all ordered
    answers.  The response holds exactly the blocks ordered from the common
    point on, as many as were asked, with a lower bound of their heights.  When
    they reach the top of the chain it also has the other blocks of the heights
    above the stable one, from the lowest height up: all of them, or those of
    the heights up to one where ten are reached; and otherwise none.  The node
    that asked reads what was sent when these other blocks are at most 30,
    which is so when no height has more than 21 blocks; with 31 to 255 of them,
    which the code does not prevent, it refuses the response. *)
Theorem chain_request_answered (fuel : nat) (self : Blockchain) (storage : S) (topo : Hash -> option Z) (height : Hash -> Z)
    (at_height : Z -> iset Hash) (blocks : list BlockId) (point : CommonPoint) (accepted : nat) (pre post : list byte) :
  answers self storage topo height at_height ->
  find_common_point storage blocks = Ok (Some point) -> topo point.(cp_hash) = Some point.(cp_topoheight) ->
  CHAIN_SYNC_RESPONSE_MIN_BLOCKS <= Z.of_nat accepted <= CHAIN_SYNC_RESPONSE_MAX_BLOCKS ->
  (accepted < fuel)%nat -> self.(bc_height) <= Z.of_nat fuel ->
  exists lowest sent top, let response := mkChainResponse (Some point) (Some lowest) sent top in
    handle_chain_request fuel self storage blocks accepted = Ok response /\
    (forall h, h ∈ iset_list sent -> lowest <= height h) /\
    (forall h, h ∈ iset_list sent <-> exists t, topo h = Some t /\
      point.(cp_topoheight) <= t < point.(cp_topoheight) + Z.of_nat accepted) /\
    (if self.(bc_topoheight) - point.(cp_topoheight) <? Z.of_nat accepted
     then exists stop, stop <= self.(bc_height) + 1 /\ top_below self.(bc_stable_height) at_height sent stop top /\
       (stop = self.(bc_height) + 1 \/ CHAIN_SYNC_TOP_BLOCKS <= Z.of_nat (iset_len top))
     else top = iset_new) /\
    (few_top_blocks self.(bc_height) self.(bc_stable_height) at_height -> (iset_len top <= 30)%nat) /\
    ((iset_len top <= 30)%nat -> read (reader_at pre (to_bytes response ++ post)) = Ok (response, reader_at (pre ++ to_bytes response) post)) /\
    ((30 < iset_len top < 256)%nat -> read (A:=ChainResponse) (reader_at pre (to_bytes response ++ post)) = Err InvalidValue).
Proof.
  intros Han Hfind Hpoint Ha Hf Hf'. unfold CHAIN_SYNC_RESPONSE_MIN_BLOCKS in Ha. destruct Han.
  assert (in_u 63 self.(bc_stable_height)) as Hst by (unfold in_u in *; lia).
  pose proof (an_topo0 _ _ Hpoint) as Hpr.
  destruct (handle_chain_request_spec storage topo an_order0 _ an_top0 an_all0 height an_height0 an_range0 an_position0
    _ _ an_top_height0 Hst at_height an_at0 fuel self blocks accepted point)
    as (lowest & sent & top & Hrun & Hu & Hlen & Hlow & Hsent & Htop & Hfew); try done; [lia..|].
  exists lowest, sent, top. split; [done|]. split; [done|]. split.
  { intros h. rewrite Hsent. split; intros (t & Et & Ht); exists t; (split; [done|]); [lia|]. pose proof (an_topo0 h t Et). lia. }
  split; [done|]. split; [done|].
  assert (Forall (fun h => h ∉ iset_list sent) (iset_list top)) as Hnot.
  { apply list.Forall_forall. intros h Hh. destruct (_ <? _); [|subst top; rewrite iset_new_spec in Hh; by apply not_elem_of_nil in Hh].
    destruct Htop as (stop & _ & Hb & _). by apply Hb in Hh as [? _]. }
  assert (common_point_wf point) as Hwf by (unfold common_point_wf, in_u in *; lia).
  rewrite (to_bytes_enc chain_response_enc) by apply chain_response_append. split; intros Hl.
  - apply (@codec_rt _ _ _ _ (sound_of chain_response_codec)).
    unfold chain_response_wf. cbn [cresp_common_point cresp_lowest_height cresp_blocks cresp_top_blocks].
    unfold CHAIN_SYNC_RESPONSE_MAX_BLOCKS, CHAIN_SYNC_TOP_BLOCKS, TIPS_LIMIT in *. split_and!; [done|done|lia|lia|done].
  - apply chain_response_refused; [done|done|lia|lia].
Qed.

(** C27: what a response can make a node do.  A node only rewinds when the
    common point is in its own order at the topoheight that was sent, never
    further than that point, and only if blocks at or below its stable height
    are concerned and the peer is ahead of it.  A peer that is not trusted
    cannot make it rewind more blocks than the response has, nor below the
    pruned topoheight, and its chain of headers is checked first; but the
    stable height is no limit, for such a peer either
    ([untrusted_below_stable]). *)
Theorem rewind_bounded (self : Blockchain) (storage : S) (topo : Hash -> option Z) (pruned : option Z) (peer : PeerView)
    (synced_priority_node : bool) (response : ChainResponse) (plan : SyncPlan) :
  order_view storage topo ->
  (forall h t, get_topo_height_for_hash storage h = Ok t -> topo h = Some t /\ 0 <= t <= self.(bc_topoheight)) ->
  in_u 63 self.(bc_topoheight) -> get_pruned_topoheight storage = Ok pruned ->
  from_option (fun p => 0 <= p <= self.(bc_topoheight)) True pruned ->
  plan_chain_response self storage peer synced_priority_node response = Ok plan ->
  match plan with
  | NothingToSync => iset_len response.(cresp_blocks) = 0%nat
  | RewindTrusted n | ValidateThenRewind n _ _ =>
      (exists point, response.(cresp_common_point) = Some point /\ topo point.(cp_hash) = Some point.(cp_topoheight) /\
        0 < n <= self.(bc_topoheight) - point.(cp_topoheight) /\
        match plan with
        | ValidateThenRewind _ start _ => start = point.(cp_topoheight) + 1
        | _ => peer.(peer_is_priority) = true
        end) /\
      (exists lowest, response.(cresp_lowest_height) = Some lowest /\ lowest <= self.(bc_stable_height)) /\
      self.(bc_topoheight) < peer.(peer_topoheight) /\ self.(bc_height) <= peer.(peer_height) /\
      (peer.(peer_is_priority) = false ->
        n <= Z.of_nat (iset_len response.(cresp_blocks)) /\ synced_priority_node = false /\
        from_option (fun p => n <= self.(bc_topoheight) - p) True pruned)
  | AddBlocks blocks => iset_list blocks = iset_list (iset_extend response.(cresp_blocks) (iset_list response.(cresp_top_blocks)))
  end.
Proof.
  intros Hov Htopo HT Hp Hpr. unfold plan_chain_response.
  destruct (cresp_common_point response) as [point|], (cresp_lowest_height response) as [lowest|];
    try (destruct (Nat.ltb_spec 0 (iset_len (cresp_blocks response))); intros [= <-]; lia).
  intros (n & Hn & Hplan)%res_bind_ok.
  destruct (pop_count_spec self storage topo peer.(peer_is_priority) point lowest n pruned) as (Hc & Hr & Hs & Hpn); try done.
  { intros h t Ht. by apply (Htopo h t), (ov_topo _ _ Hov). }
  { intros Ht. by apply Htopo in Ht as [? _]. }
  destruct (_ && _) eqn:Hcond in Hplan; [|by injection Hplan as <-].
  apply andb_true_iff in Hcond as [[[Hn0%Z.ltb_lt Hpt%Z.ltb_lt]%andb_true_iff Hph%Z.leb_le]%andb_true_iff Hprio].
  pose proof (Htopo _ _ (ov_topo _ _ Hov _ _ Hc)) as [_ Hrt]. unfold in_u in HT.
  destruct (peer_is_priority peer) eqn:Hpp.
  - injection Hplan as <-. split; [by exists point; split_and!; try lia|]. split; [exists lowest; split; [done|by apply Hs]|].
    by split_and!.
  - cbn [orb] in Hprio. apply negb_true_iff in Hprio.
    destruct (Z.ltb_spec (Z.of_nat (iset_len (cresp_blocks response))) n) as [|Hle]; [done|]. injection Hplan as <-.
    split; [exists point; rewrite u64_add_small by (unfold in_u; lia); split_and!; try done; lia|].
    split; [exists lowest; split; [done|by apply Hs]|]. split_and!; auto.
Qed.
End Properties.

(** ** Two concrete nodes: a storage that is the list of its ordered blocks *)
Section Witness.
#[local] Existing Instances u256_model curve_model iset_model.
#[local] Opaque g_hash.

Definition l_topo (st : list Hash) (h : Hash) : option Z := (fun p => Z.of_nat p.1) <$> list_find (fun x => x = h) st.
Definition l_read {A} (o : option A) : bres A := ok_or o BlockchainError.Unknown.

#[local] Instance l_order : DagOrderProvider (list Hash) := {|
  get_topo_height_for_hash st h := l_read (l_topo st h);
  get_hash_at_topo_height st t := l_read (st !! Z.to_nat t);
  is_block_topological_ordered st h := Ok (bool_decide (is_Some (l_topo st h)));
  set_topo_height_for_block _ _ := mret tt;
|}.
#[local] Instance l_nonces : NonceProvider (list Hash) := {|
  has_nonce _ _ := Ok false;
  get_last_nonce _ _ := Err BlockchainError.Unknown;
  get_nonce_at_maximum_topoheight _ _ _ := Ok None;
  set_last_nonce_to _ _ _ := mret tt;
|}.
#[local] Instance l_balances : BalanceProvider (list Hash) := {|
  get_balance_at_maximum_topoheight _ _ _ _ := Ok None;
  get_output_balance_at_maximum_topoheight _ _ _ _ := Ok None;
  get_new_versioned_balance _ _ _ _ := Ok balance_zero;
  set_last_balance_to _ _ _ _ := mret tt;
|}.
#[local] Instance l_accounts : AccountProvider (list Hash) := {|
  is_account_registered_below_topoheight _ _ _ := Ok false;
  set_account_registration_topoheight _ _ := mret tt;
|}.
#[local] Instance l_storage : Storage (list Hash) := {|
  is_mainnet _ := false;
  storage_nonces := l_nonces;
  storage_balances := l_balances;
  storage_accounts := l_accounts;
  storage_order := l_order;
|}.
#[local] Instance l_difficulties : DifficultyProvider (list Hash) := {|
  get_height_for_block_hash st h := l_read (l_topo st h);
  get_timestamp_for_block_hash _ _ := Ok 0;
  get_difficulty_for_block_hash _ _ := Ok VarUint.one;
  get_cumulative_difficulty_for_block_hash _ _ := Ok VarUint.one;
  get_past_blocks_for_block_hash _ _ := Ok iset_new;
  get_block_header_by_hash _ _ := Err BlockchainError.Unknown;
  get_estimated_covariance_for_block_hash _ _ := Ok VarUint.one;
  set_cumulative_difficulty_for_block_hash _ _ := mret tt;
|}.
#[local] Instance l_blocks : BlockProvider (list Hash) := {| has_block_with_hash st h := Ok (bool_decide (is_Some (l_topo st h))) |}.
#[local] Instance l_heights : BlocksAtHeightProvider (list Hash) := {|
  get_blocks_at_height st z := Ok (match st !! Z.to_nat z with Some h => (iset_insert h iset_new).2 | None => iset_new end);
|}.
#[local] Instance l_pruned : PrunedTopoheightProvider (list Hash) := {| get_pruned_topoheight _ := Ok None |}.
#[local] Instance l_positions : BlockExecutionOrderProvider (list Hash) := {|
  get_block_position_in_order st h := l_read (l_topo st h);
  has_block_position_in_order st h := Ok (bool_decide (is_Some (l_topo st h)));
|}.

Lemma l_topo_spec st h t : l_topo st h = Some t -> 0 <= t < Z.of_nat (length st) /\ st !! Z.to_nat t = Some h.
Proof.
  unfold l_topo. intros ([i x] & Hf & ->)%fmap_Some. apply list_find_Some in Hf as (Hi & -> & _).
  cbn [fst]. rewrite Nat2Z.id. split; [|done]. apply lookup_lt_Some in Hi. lia.
Qed.
Lemma l_topo_lookup st i h : NoDup st -> st !! i = Some h -> l_topo st h = Some (Z.of_nat i).
Proof.
  intros Hnd Hi. unfold l_topo. rewrite (proj2 (list_find_Some _ st i h)); [done|].
  split_and!; [done|done|]. intros j y Hj Hlt ->. pose proof (NoDup_lookup _ _ _ _ Hnd Hi Hj). lia.
Qed.
Lemma l_read_ok {A} (o : option A) x : l_read o = Ok x -> o = Some x.
Proof. by destruct o; intros [= ->]. Qed.
Lemma l_view st : order_view st (l_topo st).
Proof.
  split; intros h.
  - eexists. split; [reflexivity|]. intros Hh. by apply bool_decide_eq_true.
  - done.
  - intros t E. cbn. by rewrite E.
  - intros t [_ E]%l_topo_spec. cbn. by rewrite E.
Qed.
Lemma l_all st t : NoDup st -> 0 <= t < Z.of_nat (length st) -> exists h, l_topo st h = Some t.
Proof.
  intros Hnd Ht. destruct (lookup_lt_is_Some_2 st (Z.to_nat t)) as [h Hh]; [lia|].
  exists h. rewrite (l_topo_lookup st _ _ Hnd Hh). f_equal. lia.
Qed.

Definition l_ours : list Hash := [g_hash 1; g_hash 2; g_hash 3].
Definition l_theirs : list Hash := [g_hash 1; g_hash 2; g_hash 4].
Definition l_self : Blockchain := mkBlockchain 2 2 1 Testnet false false.
Lemma l_ours_distinct : NoDup l_ours.
Proof. apply (bool_decide_unpack _). vm_compute. exact I. Qed.
Lemma l_theirs_distinct : NoDup l_theirs.
Proof. apply (bool_decide_unpack _). vm_compute. exact I. Qed.

Lemma common_point_found_witness :
  exists blocks point,
    build_list_of_blocks_id 64 l_self l_ours = Ok blocks /\ block_ids_wf blocks /\
    find_common_point l_theirs blocks = Ok (Some point) /\
    l_topo l_ours point.(cp_hash) = Some point.(cp_topoheight) /\ l_topo l_theirs point.(cp_hash) = Some point.(cp_topoheight) /\
    (forall id, id ∈ blocks -> l_topo l_theirs id.(bid_hash) = Some id.(bid_topoheight) -> id.(bid_topoheight) <= point.(cp_topoheight)).
Proof.
  apply (common_point_found 64 l_self l_ours l_theirs (l_topo l_ours) (l_topo l_theirs) None (g_hash 1)).
  - apply l_view.
  - apply l_view.
  - split; reflexivity || discriminate.
  - reflexivity.
  - apply Z.le_refl.
  - intros t Ht. apply (l_all l_ours t l_ours_distinct). cbn in *. lia.
  - by left.
  - exact (l_topo_lookup l_ours 0%nat _ l_ours_distinct eq_refl).
  - exact (l_topo_lookup l_theirs 0%nat _ l_theirs_distinct eq_refl).
  - lia.
Defined.

Definition l_at (st : list Hash) (z : Z) : iset Hash :=
  match st !! Z.to_nat z with Some h => (iset_insert h iset_new).2 | None => iset_new end.
Lemma l_answers : answers l_self l_theirs (l_topo l_theirs) (fun h => default 0 (l_topo l_theirs h)) (l_at l_theirs).
Proof.
  split.
  - apply l_view.
  - split; reflexivity || discriminate.
  - split; reflexivity || discriminate.
  - split; discriminate.
  - intros t Ht. apply (l_all l_theirs t l_theirs_distinct). cbn in *. lia.
  - intros h t [Ht _]%l_topo_spec. cbn in *. lia.
  - intros h t E. change (l_read (l_topo l_theirs h) = Ok (default 0 (l_topo l_theirs h))). by rewrite E.
  - intros h. unfold in_u. destruct (l_topo l_theirs h) as [t|] eqn:E; cbn; [|lia].
    apply l_topo_spec in E as [E _]. cbn in E. lia.
  - intros h. eexists. split; [reflexivity|]. intros Hb%bool_decide_eq_true. destruct Hb as [z Hz]. exists z.
    change (l_read (l_topo l_theirs h) = Ok z). by rewrite Hz.
  - done.
Qed.

Definition l_point : CommonPoint := mkCommonPoint (g_hash 2) 1.
Definition l_request : list BlockId := [mkBlockId (g_hash 3) 2; mkBlockId (g_hash 2) 1; mkBlockId (g_hash 1) 0].
Lemma l_find : find_common_point l_theirs l_request = Ok (Some l_point).
Proof. vm_compute. reflexivity. Qed.

Lemma chain_request_answered_witness :
  exists lowest sent top, let response := mkChainResponse (Some l_point) (Some lowest) sent top in
    handle_chain_request 600 l_self l_theirs l_request 512 = Ok response /\
    (forall h, h ∈ iset_list sent <-> exists t, l_topo l_theirs h = Some t /\ 1 <= t < 1 + 512) /\
    read (reader_at [] (to_bytes response ++ [])) = Ok (response, reader_at ([] ++ to_bytes response) []).
Proof.
  destruct (chain_request_answered 600 l_self l_theirs (l_topo l_theirs) (fun h => default 0 (l_topo l_theirs h)) (l_at l_theirs)
    l_request l_point 512 [] [] l_answers l_find (l_topo_lookup l_theirs 1%nat _ l_theirs_distinct eq_refl)
    ltac:(split; discriminate) ltac:(lia) ltac:(cbn; lia)) as (lowest & sent & top & H1 & _ & H3 & _ & Hfew & Hr & _).
  exists lowest, sent, top. split; [exact H1|]. split; [exact H3|]. apply Hr, Hfew. intros z _.
  unfold l_at, TOP_BLOCKS_PER_HEIGHT. destruct (l_theirs !! Z.to_nat z) as [h|].
  - destruct (iset_insert_spec h iset_new) as [_ Hi]. unfold iset_len. rewrite Hi. case_decide; rewrite iset_new_spec; cbn [app length]; lia.
  - unfold iset_len. rewrite iset_new_spec. cbn [length]. lia.
Defined.

(** The peer is ahead and answers with a chain that leaves ours at the genesis. *)
Definition l_response : ChainResponse :=
  mkChainResponse (Some (mkCommonPoint (g_hash 1) 0)) (Some 0) (iset_extend iset_new [g_hash 1; g_hash 2; g_hash 4]) iset_new.
Definition l_peer : PeerView := mkPeerView 9 9 false.
Lemma l_pops : pop_count l_self l_ours l_peer.(peer_is_priority) (mkCommonPoint (g_hash 1) 0) 0 = Ok 2.
Proof. vm_compute. reflexivity. Qed.
Lemma l_planned : exists blocks, plan_chain_response l_self l_ours l_peer false l_response = Ok (ValidateThenRewind 2 1 blocks).
Proof.
  unfold plan_chain_response, l_response. cbn [cresp_common_point cresp_lowest_height cresp_blocks cresp_top_blocks].
  rewrite l_pops. cbn [mbind res_bind]. eexists. exact eq_refl.
Qed.

(** A note on [handle_chain_response] says that only a priority node can rewind
    below the stable height.  Here a peer that is not one asks to rewind to a
    block of height 0, below the stable height 1. *)
Lemma untrusted_below_stable :
  l_peer.(peer_is_priority) = false /\
  (exists blocks, plan_chain_response l_self l_ours l_peer false l_response = Ok (ValidateThenRewind 2 1 blocks)) /\
  get_hash_at_topo_height l_ours (l_self.(bc_topoheight) - 2) = Ok (g_hash 1) /\
  get_height_for_block_hash l_ours (g_hash 1) = Ok 0 /\ 0 < l_self.(bc_stable_height).
Proof. split; [done|]. split; [exact l_planned|]. by vm_compute. Qed.

Lemma rewind_bounded_witness :
  exists blocks, plan_chain_response l_self l_ours l_peer false l_response = Ok (ValidateThenRewind 2 1 blocks) /\
    (exists point, l_response.(cresp_common_point) = Some point /\ l_topo l_ours point.(cp_hash) = Some point.(cp_topoheight) /\
      0 < 2 <= 2 - point.(cp_topoheight) /\ 1 = point.(cp_topoheight) + 1) /\
    (exists lowest, l_response.(cresp_lowest_height) = Some lowest /\ lowest <= 1) /\
    2 < 9 /\ 2 <= 9 /\ (false = false -> 2 <= Z.of_nat (iset_len l_response.(cresp_blocks)) /\ false = false /\ True).
Proof.
  destruct l_planned as [blocks Hb]. exists blocks. split; [exact Hb|].
  refine (rewind_bounded l_self l_ours (l_topo l_ours) None l_peer false l_response _ (l_view _) _ _ eq_refl I Hb).
  - intros h t Ht. apply l_read_ok in Ht. split; [done|]. apply l_topo_spec in Ht as [Ht _]. cbn in *. lia.
  - split; reflexivity || discriminate.
Defined.
End Witness.
