(* ===== verification/ChainValidator.v ===== *)
(** The validator of a chain of headers ([p2p/chain_validator.rs] of the
    daemon): the headers a peer sends are put, one after the other, in front of
    the storage of the chain, which is left as it is.

    [ChainValidator] implements the traits of the storage the DAG algorithms
    are written against, so these run on it unchanged.  [validate_chain] is the
    use [handle_chain_response] makes of it. *)

From S2P Require Import Prelude External ExternalModel ExternalCrypto Serializer Hash Defaults VarUint Difficulty Elgamal Proofs Transaction Block Errors Account Dag Providers DagOrder DagWalks BlockProviders DagBase BlockCheck.

Section Data.
Context {UL : U256Lib} {IS : IndexSetLib Hash}.
Record BlockData := mkBlockData {
  bd_header : BlockHeader;
  bd_difficulty : VarUint.t;
  bd_cumulative_difficulty : VarUint.t;
  bd_p : VarUint.t;
}.
End Data.

Section Validator.
Context {UL : U256Lib} {IS : IndexSetLib Hash} {HM : HashMapIter} {B3 : Blake3} {XH : XelisHashLib} {CV : Curve}.
Context {IMB : IndexMapLib Hash BlockData} {IMH : IndexMapLib Z (iset Hash)}.
Context {S : Type} {DP : DifficultyProvider S} {DO : DagOrderProvider S}.
Context {BH : BlocksAtHeightProvider S} {PR : PrunedTopoheightProvider S} {BP : BlockProvider S}.

Record ChainValidator := mkValidator {
  cv_blocks : imap Hash BlockData;
  cv_blocks_at_height : imap Z (iset Hash);
  cv_storage : S;
  cv_starting_topoheight : Z;
}.
Definition validator_new (storage : S) (starting_topoheight : Z) : ChainValidator :=
  mkValidator imap_new imap_new storage starting_topoheight.

(** [IndexMap::get_index_of], [IndexMap::get_index] *)
Definition get_index_of (hash : Hash) (v : ChainValidator) : option nat :=
  fst <$> list_find (fun h => h = hash) (imap_list v.(cv_blocks)).*1.
Definition get_index (index : nat) (v : ChainValidator) : option Hash := (imap_list v.(cv_blocks)).*1 !! index.

(** ** The traits of the storage *)

Definition of_block {A} (v : ChainValidator) (hash : Hash) (f : BlockData -> A) (other : bres A) : bres A :=
  match imap_get hash v.(cv_blocks) with Some data => Ok (f data) | None => other end.

#[export] Instance validator_difficulties : DifficultyProvider ChainValidator := {|
  get_height_for_block_hash v hash :=
    of_block v hash (fun data => data.(bd_header).(bh_height)) (get_height_for_block_hash v.(cv_storage) hash);
  get_timestamp_for_block_hash v hash :=
    of_block v hash (fun data => data.(bd_header).(bh_timestamp)) (get_timestamp_for_block_hash v.(cv_storage) hash);
  get_difficulty_for_block_hash v hash :=
    of_block v hash bd_difficulty (get_difficulty_for_block_hash v.(cv_storage) hash);
  get_cumulative_difficulty_for_block_hash v hash :=
    of_block v hash bd_cumulative_difficulty (get_cumulative_difficulty_for_block_hash v.(cv_storage) hash);
  get_past_blocks_for_block_hash v hash :=
    of_block v hash (fun data => data.(bd_header).(bh_tips)) (get_past_blocks_for_block_hash v.(cv_storage) hash);
  get_block_header_by_hash v hash :=
    of_block v hash bd_header (get_block_header_by_hash v.(cv_storage) hash);
  get_estimated_covariance_for_block_hash v hash :=
    of_block v hash bd_p (get_estimated_covariance_for_block_hash v.(cv_storage) hash);
  set_cumulative_difficulty_for_block_hash _ _ := st_err BlockchainError.UnsupportedOperation;
|}.

#[export] Instance validator_order : DagOrderProvider ChainValidator := {|
  get_topo_height_for_hash v hash :=
    match get_index_of hash v with
    | Some index => Ok (u64_add v.(cv_starting_topoheight) (Z.of_nat index))
    | None => get_topo_height_for_hash v.(cv_storage) hash
    end;
  get_hash_at_topo_height v topoheight :=
    if v.(cv_starting_topoheight) <=? topoheight then
      ok_or (get_index (Z.to_nat (topoheight - v.(cv_starting_topoheight))) v) BlockchainError.BlockNotOrdered
    else get_hash_at_topo_height v.(cv_storage) topoheight;
  is_block_topological_ordered v hash :=
    if imap_contains_key hash v.(cv_blocks) then Ok true else is_block_topological_ordered v.(cv_storage) hash;
  set_topo_height_for_block _ _ := st_err BlockchainError.UnsupportedOperation;
|}.

#[export] Instance validator_heights : BlocksAtHeightProvider ChainValidator := {|
  get_blocks_at_height v height :=
    match imap_get height v.(cv_blocks_at_height) with
    | Some tips => Ok tips
    | None => get_blocks_at_height v.(cv_storage) height
    end;
|}.

#[export] Instance validator_pruned : PrunedTopoheightProvider ChainValidator := {|
  get_pruned_topoheight v := get_pruned_topoheight v.(cv_storage);
|}.

(** ** The insertion of a header *)
Context {LB : LruLib (Hash * Z) (Hash * Z)} {LW : LruLib (Hash * Hash * Z) (gset Hash * VarUint.t)}.

(** The validator and the caches of the chain the algorithms use. *)
Record ValidatorState := mkValidatorState {
  vs_validator : ChainValidator;
  vs_base_cache : lru (Hash * Z) (Hash * Z);
  vs_work_cache : lru (Hash * Hash * Z) (gset Hash * VarUint.t);
}.
Definition on_base_cache {A} (m : stm (lru (Hash * Z) (Hash * Z)) blockchain_error A) : stm ValidatorState blockchain_error A := fun s =>
  let '(r, cache) := m s.(vs_base_cache) in (r, mkValidatorState s.(vs_validator) cache s.(vs_work_cache)).
Definition on_work_cache {A} (m : stm (lru (Hash * Hash * Z) (gset Hash * VarUint.t)) blockchain_error A) : stm ValidatorState blockchain_error A := fun s =>
  let '(r, cache) := m s.(vs_work_cache) in (r, mkValidatorState s.(vs_validator) s.(vs_base_cache) cache).

(** The checks of the header that read the validator only. *)
Definition check_header (self : Blockchain) (v : ChainValidator) (hash : Hash) (header : BlockHeader)
  : bres (VarUint.t * VarUint.t) :=
  _ ← reject_if (imap_contains_key hash v.(cv_blocks)) BlockchainError.AlreadyInChain;
  has_block ← has_block_with_hash v.(cv_storage) hash;
  _ ← reject_if has_block BlockchainError.AlreadyInChain;
  let tips := iset_list header.(bh_tips) in
  let tips_count := length tips in
  _ ← reject_if ((tips_count =? 0)%nat || (TIPS_LIMIT <? tips_count)%nat)
        (BlockchainError.InvalidTipsCount hash (Z.of_nat tips_count));
  _ ← foldM (fun (_ : ()) tip =>
        if imap_contains_key tip v.(cv_blocks) then Ok tt
        else
          known ← has_block_with_hash v.(cv_storage) tip;
          reject_if (negb known) (BlockchainError.InvalidTipsNotFound hash tip)) tt tips;
  height_by_tips ← calculate_height_at_tips v tips;
  _ ← reject_if (negb (height_by_tips =? header.(bh_height))) (BlockchainError.InvalidBlockHeight height_by_tips header.(bh_height));
  pow_hash ← map_err (fun _ => BlockchainError.POWHashError) (get_pow_hash header);
  verify_proof_of_work self v pow_hash tips.

Definition store_header (hash : Hash) (header : BlockHeader) (difficulty cumulative_difficulty p : VarUint.t) (v : ChainValidator)
  : ChainValidator :=
  let at_height := default iset_new (imap_get header.(bh_height) v.(cv_blocks_at_height)) in
  mkValidator
    (imap_insert hash (mkBlockData header difficulty cumulative_difficulty p) v.(cv_blocks))
    (imap_insert header.(bh_height) (iset_insert hash at_height).2 v.(cv_blocks_at_height))
    v.(cv_storage) v.(cv_starting_topoheight).

Definition insert_block (fuel : nat) (self : Blockchain) (hash : Hash) (header : BlockHeader) : stm ValidatorState blockchain_error () :=
  s ← st_get;
  let v := s.(vs_validator) in
  '(difficulty, p) ← lift_res (check_header self v hash header);
  '(base, base_height) ← on_base_cache (find_common_base fuel v (iset_list header.(bh_tips)));
  '(_, cumulative_difficulty) ← on_work_cache (find_tip_work_score fuel v hash base base_height);
  st_modify (fun s =>
    mkValidatorState (store_header hash header difficulty cumulative_difficulty p s.(vs_validator)) s.(vs_base_cache) s.(vs_work_cache)).

(** ** The decision *)

Definition get_chain_cumulative_difficulty (v : ChainValidator) : option VarUint.t :=
  (fun p => p.2.(bd_cumulative_difficulty)) <$> imap_last v.(cv_blocks).

Definition has_higher_cumulative_difficulty (self : Blockchain) (v : ChainValidator) : bres bool :=
  new_cumulative_difficulty ← ok_or (get_chain_cumulative_difficulty v) BlockchainError.NotEnoughBlocks;
  top_block_hash ← get_hash_at_topo_height v.(cv_storage) self.(bc_topoheight);
  current_cumulative_difficulty ← get_cumulative_difficulty_for_block_hash v.(cv_storage) top_block_hash;
  Ok (VarUint.ltb current_cumulative_difficulty new_cumulative_difficulty).

(** The loop of [handle_chain_response]: [headers] are the answers of the peer
    for the hashes it sent. *)
Fixpoint insert_headers (fuel : nat) (self : Blockchain) (headers : list (Hash * BlockHeader)) : stm ValidatorState blockchain_error () :=
  match headers with
  | [] => mret tt
  | (hash, header) :: headers =>
      s ← st_get;
      has_block ← lift_res (has_block_with_hash s.(vs_validator).(cv_storage) hash);
      _ ← (if (has_block : bool) then mret tt else insert_block fuel self hash header);
      insert_headers fuel self headers
  end.
Definition validate_chain (fuel : nat) (self : Blockchain) (headers : list (Hash * BlockHeader)) : stm ValidatorState blockchain_error () :=
  _ ← insert_headers fuel self headers;
  s ← st_get;
  higher ← lift_res (has_higher_cumulative_difficulty self s.(vs_validator));
  if (higher : bool) then mret tt else st_err BlockchainError.LowerCumulativeDifficulty.
End Validator.

(** ** The traits keep their laws *)
Section Facts.
Context {UL : U256Lib} {IS : IndexSetLib Hash} {HM : HashMapIter} {B3 : Blake3} {XH : XelisHashLib} {CV : Curve}.
Context {IMB : IndexMapLib Hash BlockData} {IMH : IndexMapLib Z (iset Hash)}.
Context {S : Type} {DP : DifficultyProvider S} {DO : DagOrderProvider S}.
Context {BH : BlocksAtHeightProvider S} {PR : PrunedTopoheightProvider S} {BP : BlockProvider S}.
Context {LB : LruLib (Hash * Z) (Hash * Z)} {LW : LruLib (Hash * Hash * Z) (gset Hash * VarUint.t)}.

#[export] Instance validator_laws {DL : DifficultyProviderLaws S} : DifficultyProviderLaws (ChainValidator (S:=S)).
Proof.
  split; intros v h; cbn [get_height_for_block_hash get_timestamp_for_block_hash get_past_blocks_for_block_hash
    get_block_header_by_hash validator_difficulties]; unfold of_block; destruct (imap_get h _); try done.
  - apply height_of_header.
  - apply timestamp_of_header.
  - apply tips_of_header.
Qed.

(** A block that is in no cache and not in the validator has no work score: its
    header is looked for and not found. *)
Lemma imap_get_contains (h : Hash) (m : imap Hash BlockData) : imap_contains_key h m = false -> imap_get h m = None.
Proof.
  unfold imap_contains_key, imap_get. intros Hn%bool_decide_eq_false.
  destruct (alist_lookup h (imap_list m)) as [d|] eqn:E; [|done]. exfalso. apply Hn. revert E. clear Hn.
  induction (imap_list m) as [|[k v] l IH]; [done|]. cbn. case_decide as Hk; [subst; intros; left|intros E; right; auto].
Qed.

Definition unseen (hash : Hash) (cache : lru (Hash * Hash * Z) (gset Hash * VarUint.t)) : Prop :=
  forall base height value, ~ lru_holds cache (hash, base, height) value.

Lemma tip_work_fails fuel v hash base :
  imap_contains_key hash v.(cv_blocks) = false -> is_ok (get_block_header_by_hash v.(cv_storage) hash) = false ->
  is_ok (tip_work fuel v hash base) = false /\
  (forall e, get_block_header_by_hash v.(cv_storage) hash = Err e -> tip_work fuel v hash base = Err e).
Proof.
  intros Hn Hh. unfold tip_work. cbn [get_block_header_by_hash validator_difficulties]. unfold of_block.
  rewrite imap_get_contains by done. destruct (get_block_header_by_hash (cv_storage v) hash) as [h|e| |]; try done.
  split; [done|]. by intros ? [= ->].
Qed.

Lemma work_score_fails fuel v hash base height cache :
  imap_contains_key hash v.(cv_blocks) = false -> unseen hash cache ->
  is_ok (get_block_header_by_hash v.(cv_storage) hash) = false ->
  is_ok (find_tip_work_score fuel v hash base height cache).1 = false /\
  (forall e, get_block_header_by_hash v.(cv_storage) hash = Err e ->
    (find_tip_work_score fuel v hash base height cache).1 = Err e).
Proof.
  intros Hn Hu Hh. destruct (tip_work_fails fuel v hash base Hn Hh) as [Hf He].
  assert (exists cache', work_cache_get (hash, base, height) cache = (Ok None, cache')) as [cache' Hc].
  { unfold work_cache_get. destruct (lru_get (hash, base, height) cache) as [[value|] cache'] eqn:E; [|eauto].
    exfalso. apply (Hu base height value), lru_get_some. by rewrite E. }
  unfold find_tip_work_score. rewrite (stm_bind_run _ _ _ _ _ Hc). cbv beta iota.
  unfold mbind, stm_bind, lift_res. destruct (tip_work fuel v hash base) as [w|e| |]; [done|..]; (split; [done|]);
    intros e' Hg; exact (He e' Hg).
Qed.

Lemma check_header_new self v hash header r :
  check_header self v hash header = Ok r ->
  imap_contains_key hash v.(cv_blocks) = false /\ has_block_with_hash v.(cv_storage) hash = Ok false.
Proof.
  unfold check_header. intros (u & Hc & Hr)%res_bind_ok. apply res_bind_ok in Hr as (has & Hhas & Hr).
  apply res_bind_ok in Hr as (u' & Hc' & _). unfold reject_if in *.
  destruct (imap_contains_key hash (cv_blocks v)); [done|]. by destruct has.
Qed.

(** What comes out of the insertion of a header that is not found: the result of
    the first check that fails, or the error of the storage. *)
Definition refusal (fuel : nat) (self : Blockchain) (hash : Hash) (header : BlockHeader) (e : blockchain_error) (s : ValidatorState) : bres () :=
  _ ← check_header self s.(vs_validator) hash header;
  _ ← (find_common_base fuel s.(vs_validator) (iset_list header.(bh_tips)) s.(vs_base_cache)).1;
  Err e.

Lemma insert_block_refuses fuel self hash header e s :
  unseen hash s.(vs_work_cache) -> get_block_header_by_hash s.(vs_validator).(cv_storage) hash = Err e ->
  (insert_block fuel self hash header s).1 = refusal fuel self hash header e s /\
  (insert_block fuel self hash header s).2.(vs_validator) = s.(vs_validator).
Proof.
  intros Hun He. unfold insert_block, refusal. erewrite stm_bind_run by reflexivity.
  destruct (check_header self (vs_validator s) hash header) as [[difficulty p]|err| |] eqn:Hc; try done.
  destruct (check_header_new _ _ _ _ _ Hc) as [Hnew _]. erewrite stm_bind_run by reflexivity. cbv beta iota.
  cbn [mbind res_bind]. unfold mbind, stm_bind, on_base_cache.
  destruct (find_common_base fuel (vs_validator s) (iset_list (bh_tips header)) (vs_base_cache s)) as [rb cache].
  cbn [fst]. destruct rb as [[base base_height]|err| |]; try done. unfold on_work_cache. cbn [vs_work_cache vs_validator].
  destruct (work_score_fails fuel (vs_validator s) hash base base_height (vs_work_cache s) Hnew Hun) as [_ Hf];
    [by rewrite He|]. specialize (Hf e He).
  destruct (find_tip_work_score fuel (vs_validator s) hash base base_height (vs_work_cache s)) as [rw cache'].
  cbn [fst] in Hf. by subst rw.
Qed.
End Facts.

(** ** The property *)
Section Properties.
Context {UL : U256Lib} {IS : IndexSetLib Hash} {HM : HashMapIter} {B3 : Blake3} {XH : XelisHashLib} {CV : Curve}.
Context {IMB : IndexMapLib Hash BlockData} {IMH : IndexMapLib Z (iset Hash)}.
Context {S : Type} {DP : DifficultyProvider S} {DO : DagOrderProvider S}.
Context {BH : BlocksAtHeightProvider S} {PR : PrunedTopoheightProvider S} {BP : BlockProvider S}.
Context {LB : LruLib (Hash * Z) (Hash * Z)} {LW : LruLib (Hash * Hash * Z) (gset Hash * VarUint.t)}.

(** The headers the chain has are skipped. *)
Lemma insert_known fuel self storage known rest s :
  s.(vs_validator).(cv_storage) = storage -> Forall (fun h : Hash * BlockHeader => has_block_with_hash storage h.1 = Ok true) known ->
  insert_headers fuel self (known ++ rest) s = insert_headers fuel self rest s.
Proof.
  intros Hs. induction 1 as [|[hash header] known Hh _ IH]; [done|]. cbn [fst] in Hh. cbn [app insert_headers].
  erewrite stm_bind_run by reflexivity. rewrite Hs, Hh, lift_res_bind. erewrite stm_bind_run by reflexivity. exact IH.
Qed.

(** C28: a chain of headers is refused at its first new header.  The work of a
    header is computed before the header is in the validator, and looks it up:
    it is not found, neither in the validator nor in the storage, so that the
    first header the chain does not have ends the validation even when it
    passes every check, with the error of the storage, and nothing is inserted.
    A chain of headers that are all known is refused too, as no header is in
    the validator to compare.  This asks that the work of the new header is not
    still in the cache, where the chain may have left it if it had the block
    before a rewind. *)
Theorem chain_refused_at_first_header (fuel : nat) (self : Blockchain) (storage : S) (starting_topoheight : Z)
    (known rest : list (Hash * BlockHeader)) (e : blockchain_error) (s : ValidatorState) :
  s.(vs_validator) = validator_new storage starting_topoheight ->
  Forall (fun h => has_block_with_hash storage h.1 = Ok true) known ->
  match rest with
  | [] => True
  | (hash, _) :: _ => has_block_with_hash storage hash = Ok false /\ get_block_header_by_hash storage hash = Err e /\
      unseen hash s.(vs_work_cache)
  end ->
  (validate_chain fuel self (known ++ rest) s).1 =
    match rest with
    | [] => Err BlockchainError.NotEnoughBlocks
    | (hash, header) :: _ => refusal fuel self hash header e s
    end /\
  (validate_chain fuel self (known ++ rest) s).2.(vs_validator) = s.(vs_validator).
Proof.
  intros Hv Hknown Hrest. assert (cv_storage (vs_validator s) = storage) as Hcs by by rewrite Hv.
  assert (validate_chain fuel self (known ++ rest) s = validate_chain fuel self rest s) as ->
    by (unfold validate_chain, mbind, stm_bind; by rewrite (insert_known fuel self storage)).
  unfold validate_chain. destruct rest as [|[hash header] rest].
  - unfold insert_headers, mbind, stm_bind, mret, stm_ret, st_get, lift_res. rewrite Hv.
    unfold has_higher_cumulative_difficulty, get_chain_cumulative_difficulty, imap_last. cbn [cv_blocks validator_new vs_validator].
    by rewrite imap_new_spec.
  - destruct Hrest as (Hh & He & Hun). rewrite <- Hcs in Hh, He.
    destruct (insert_block_refuses fuel self hash header e s Hun He) as [Hr Hs'].
    assert (is_ok (refusal fuel self hash header e s) = false) as Hno.
    { unfold refusal. destruct (check_header _ _ _ _) as [x| | |]; try done. cbn [mbind res_bind].
      by destruct (find_common_base _ _ _ _) as [[y| | |] c]. }
    assert (insert_headers fuel self ((hash, header) :: rest) s =
      (refusal fuel self hash header e s, (insert_block fuel self hash header s).2)) as Hrun.
    { cbn [insert_headers]. erewrite stm_bind_run by reflexivity. rewrite Hh, lift_res_bind. cbv beta iota.
      unfold mbind, stm_bind. destruct (insert_block fuel self hash header s) as [r s']. cbn [fst snd] in *. subst r.
      by destruct (refusal fuel self hash header e s). }
    unfold mbind, stm_bind. rewrite Hrun. by destruct (refusal fuel self hash header e s).
Qed.
End Properties.

(** ** A header on top of a concrete chain *)
Section Witness.
#[local] Existing Instances u256_model curve_model blake3_model xelis_hash_model iset_model imap_model hash_map_model.
#[local] Existing Instances b_difficulties b_order b_heights b_pruned b_blocks.
#[local] Instance c_bases : LruLib (Hash * Z) (Hash * Z) := lru_model _ _.
#[local] Instance c_works : LruLib (Hash * Hash * Z) (gset Hash * VarUint.t) := lru_model _ _.

Definition c_header : BlockHeader :=
  mkHeader 0 (iset_extend iset_new [g_hash 4]) 7 3 0 (vreplicate 32 x00) (mkPublicKey (mkRistretto (vreplicate 32 x00))) iset_new.
Definition c_state : ValidatorState (S:=unit) := mkValidatorState (validator_new tt 1) (lru_new 8) (lru_new 8).
Lemma c_unseen hash : unseen hash (vs_work_cache c_state).
Proof. intros base height value. apply lru_new_spec. Qed.

(** The header passes the checks; the block before it is known. *)
#[local] Abbreviation c_known := [(g_hash 4, c_header)].
#[local] Abbreviation c_run := (validate_chain 20 b_self (c_known ++ [(g_hash 9, c_header)]) c_state).
Definition is_unknown {A} (r : bres A) : bool := match r with Err BlockchainError.Unknown => true | _ => false end.
Lemma is_unknown_ok {A} (r : bres A) : is_unknown r = true -> r = Err BlockchainError.Unknown.
Proof. by destruct r as [|[]| |]. Qed.
Lemma c_has : has_block_with_hash tt (g_hash 4) = Ok true /\ has_block_with_hash tt (g_hash 9) = Ok false.
Proof. by vm_compute. Qed.
Lemma c_missing : is_unknown (get_block_header_by_hash tt (g_hash 9)) = true.
Proof. vm_cast_no_check (eq_refl true). Qed.
Lemma c_passes : is_ok (check_header b_self (validator_new tt 1) (g_hash 9) c_header) = true.
Proof. vm_cast_no_check (eq_refl true). Qed.
Lemma c_refused : is_unknown (refusal 20 b_self (g_hash 9) c_header BlockchainError.Unknown c_state) = true.
Proof. vm_cast_no_check (eq_refl true). Qed.
Lemma c_all_known : Forall (fun h : Hash * BlockHeader => has_block_with_hash tt h.1 = Ok true) c_known.
Proof. exact (Forall_cons_2 _ (g_hash 4, c_header) _ (proj1 c_has) (Forall_nil_2 _)). Qed.

Lemma chain_refused_at_first_header_witness :
  c_run.1 = Err BlockchainError.Unknown /\ c_run.2.(vs_validator) = c_state.(vs_validator) /\
  is_ok (check_header b_self (validator_new tt 1) (g_hash 9) c_header) = true.
Proof.
  destruct (chain_refused_at_first_header 20 b_self tt 1 c_known [(g_hash 9, c_header)] BlockchainError.Unknown c_state
    eq_refl c_all_known (conj (proj2 c_has) (conj (is_unknown_ok _ c_missing) (c_unseen _)))) as [Hr Hs].
  split; [exact (eq_trans Hr (is_unknown_ok _ c_refused))|]. split; [exact Hs|exact c_passes].
Defined.
End Witness.
