(* ===== verification/PopBlocks.v ===== *)
(** Rewinding the chain ([storage/sled.rs]).

    [pop_blocks] removes the blocks from the top of the order down to a lower
    topoheight, and what was written above that topoheight: the assets, the
    pointers and versions of the nonces and of the balances, the
    registrations.  [PopBlocksFacts] shows what it leaves. *)

From S2P Require Import Prelude External ExternalModel ExternalCrypto Serializer Hash VarUint Defaults Elgamal Proofs Transaction Block Errors Account Versions Storage ClientProtocol BlockStorage.

(** [config.rs] *)
Definition PRUNE_SAFETY_LIMIT : Z := 8 * 10.

(** The loops [while let Some(previous) = version.get_previous_topoheight()]:
    the first topoheight at or below the new top. *)
Section Search.
Context {V : Type} (prev : V -> option Z) (get : Z -> bres V).

Fixpoint search_below (fuel : nat) (topoheight : Z) (version : V) : bres (option Z) :=
  match prev version with
  | None => Ok None
  | Some previous_topoheight =>
      match fuel with
      | O => Diverge
      | S fuel =>
          if previous_topoheight <=? topoheight then Ok (Some previous_topoheight)
          else
            version ← get previous_topoheight;
            search_below fuel topoheight version
      end
  end.
End Search.

Section Pop.
Context {CV : Curve} {ML : Merlin} {RP : RangeProofLib} {SL : SledLib} {HM : HashMapIter} {UL : U256Lib} {IS : IndexSetLib Hash}.

Definition parse {T} {SZ : Serializer T} (bytes : list byte) : bres T :=
  map_err BlockchainError.ErrorOnReader (from_bytes bytes).

(** ** The blocks *)

(** The orphaned tips go. *)
Definition drop_orphaned_tip (tips : gset Hash) (tip : Hash) : stm SledStorage blockchain_error (gset Hash) :=
  st ← st_get;
  ordered ← lift_res (is_block_topological_ordered tip st);
  mret (if (ordered : bool) then tips else tips ∖ {[tip]}).

Record Popped := mkPopped {
  pop_height : Z;
  pop_topoheight : Z;
  pop_tips : gset Hash;
  pop_txs : list (Hash * Transaction);
  pop_done : Z;
}.

(** The pruned data is reached: back to the genesis. *)
Definition restart_from_genesis (txs : list (Hash * Transaction)) (done : Z) : stm SledStorage blockchain_error Popped :=
  st ← st_get;
  genesis ← lift_res (get_hash_at_topo_height 0 st);
  _ ← st_modify (fun st => on_trees (put_pruned_topoheight None) (with_extra (tree_remove PRUNED_TOPOHEIGHT st.(extra)).2 st));
  mret (mkPopped 0 0 {[genesis]} txs done).

Fixpoint pop_loop (fuel : nat) (pruned_topoheight lowest_topo stable_topo_height : Z) (p : Popped)
  : stm SledStorage blockchain_error Popped :=
  if (p.(pop_topoheight) <=? lowest_topo) || (p.(pop_topoheight) <=? stable_topo_height) || (p.(pop_height) =? 0) then mret p
  else
    match fuel with
    | O => lift_res Diverge
    | S fuel =>
        '(hash, block, block_txs) ← delete_block_at_topoheight p.(pop_topoheight);
        let txs := p.(pop_txs) ++ block_txs in
        let tips := p.(pop_tips) ∖ {[hash]} ∪ list_to_set (iset_list block.(bh_tips)) in
        if p.(pop_topoheight) <=? pruned_topoheight then restart_from_genesis txs p.(pop_done)
        else
          let height := if block.(bh_height) <? p.(pop_height) then block.(bh_height) else p.(pop_height) in
          pop_loop fuel pruned_topoheight lowest_topo stable_topo_height
            (mkPopped height (u64_sub p.(pop_topoheight) 1) tips txs (u64_add p.(pop_done) 1))
    end.

(** ** What was written above the new top *)

(** [db.drop_tree] drops a tree named after the asset, which nothing creates. *)
Definition clean_asset (topoheight : Z) (deleted_assets : gset Hash) (el : list byte * list byte)
  : stm SledStorage blockchain_error (gset Hash) :=
  asset ← lift_res (parse (T:=Hash) el.1);
  registration_topoheight ← lift_res (parse (SZ:=u64_Serializer) el.2);
  if topoheight <? registration_topoheight then
    _ ← st_modify (fun st => with_assets (tree_remove el.1 st.(assets)).2 st);
    mret ({[asset]} ∪ deleted_assets)
  else mret deleted_assets.

Definition put_nonce_pointer (key : list byte) (topoheight : Z) (st : SledStorage) : SledStorage :=
  let '(old, t) := tree_insert key (be_bytes 8 topoheight) st.(nonces) in
  let st := with_nonces t st in
  match old with
  | None => store_accounts_count (u64_add (count_accounts st) 1) st
  | Some _ => st
  end.
Definition drop_nonce_pointer (key : list byte) (st : SledStorage) : SledStorage :=
  let '(old, t) := tree_remove key st.(nonces) in
  let st := with_nonces t st in
  match old with
  | Some _ => store_accounts_count (u64_sub (count_accounts st) 1) st
  | None => st
  end.
Definition clean_nonce (pruned_topoheight topoheight : Z) (el : list byte * list byte) : stm SledStorage blockchain_error () :=
  highest_topoheight ← lift_res (parse (SZ:=u64_Serializer) el.2);
  if highest_topoheight <? pruned_topoheight then
    st_modify (fun st => with_nonces (tree_remove el.1 st.(nonces)).2 st)
  else if topoheight <? highest_topoheight then
    _ ← st_modify (drop_nonce_pointer el.1);
    pkey ← lift_res (parse (T:=CompressedPublicKey) el.1);
    st ← st_get;
    version ← lift_res (get_nonce_at_exact_topoheight pkey highest_topoheight st);
    found ← lift_res (search_below vn_previous_topoheight (fun t => get_nonce_at_exact_topoheight pkey t st)
                        (nonce_fuel st) topoheight version);
    match found with
    | Some previous_topoheight => st_modify (put_nonce_pointer el.1 previous_topoheight)
    | None => mret tt
    end
  else mret tt.

Definition clean_balance (pruned_topoheight topoheight : Z) (deleted_assets : gset Hash) (el : list byte * list byte)
  : stm SledStorage blockchain_error () :=
  asset ← lift_res (parse_slice (T:=Hash) 32 64 el.1);
  delete ←
    (if bool_decide (asset ∈ deleted_assets) then mret true
     else
       highest_topoheight ← lift_res (parse (SZ:=u64_Serializer) el.2);
       if (topoheight <? highest_topoheight) && (pruned_topoheight <=? highest_topoheight) then
         pkey ← lift_res (parse_slice (T:=CompressedPublicKey) 0 32 el.1);
         st ← st_get;
         version ← lift_res (get_balance_at_exact_topoheight pkey asset highest_topoheight st);
         found ← lift_res (search_below previous_topoheight (fun t => get_balance_at_exact_topoheight pkey asset t st)
                             (balance_fuel st) topoheight version);
         match found with
         | Some previous =>
             _ ← st_modify (fun st => with_balances (tree_insert el.1 (be_bytes 8 previous) st.(balances)).2 st);
             mret false
         | None => mret true
         end
       else mret false);
  if (delete : bool) then st_modify (fun st => with_balances (tree_remove el.1 st.(balances)).2 st) else mret tt.

(** [delete_registrations_above_topoheight] *)
Definition delete_registration_above (topoheight : Z) (el : list byte * list byte) : stm SledStorage blockchain_error () :=
  topo ← lift_res (parse_slice (SZ:=u64_Serializer) 0 8 el.1);
  if topoheight <? topo then
    _ ← st_modify (fun st => with_registrations st.(registrations) (tree_remove el.1 st.(registrations_prefixed)).2 st);
    pkey ← lift_res (slice 8 40 el.1);
    st_modify (fun st => with_registrations (tree_remove pkey st.(registrations)).2 st.(registrations_prefixed) st)
  else mret tt.
Definition delete_registrations_above_topoheight (topoheight : Z) : stm SledStorage blockchain_error () :=
  st ← st_get;
  foldMs (fun _ el => delete_registration_above topoheight el) tt (tree_iter st.(registrations_prefixed)).

Definition clean_above (pruned_topoheight topoheight : Z) : stm SledStorage blockchain_error () :=
  st ← st_get;
  deleted_assets ← foldMs (clean_asset topoheight) ∅ (tree_iter st.(assets));
  st ← st_get;
  _ ← foldMs (fun _ el => clean_nonce pruned_topoheight topoheight el) tt (tree_iter st.(nonces));
  st ← st_get;
  _ ← foldMs (fun _ el => clean_balance pruned_topoheight topoheight deleted_assets el) tt (tree_iter st.(balances));
  _ ← delete_versioned_balances_above_topoheight topoheight;
  _ ← delete_versioned_nonces_above_topoheight topoheight;
  delete_registrations_above_topoheight topoheight.

(** ** [pop_blocks] *)

Definition pop_limit (pruned_topoheight topoheight count stable_topo_height : Z) : Z :=
  let lowest_topo := u64_sub topoheight count in
  let safety_pruned_topoheight := u64_add pruned_topoheight PRUNE_SAFETY_LIMIT in
  if negb (pruned_topoheight =? 0) && (lowest_topo <=? safety_pruned_topoheight) && negb (stable_topo_height =? 0)
  then safety_pruned_topoheight else lowest_topo.

Definition pop_blocks (fuel : nat) (height topoheight count stable_topo_height : Z)
  : stm SledStorage blockchain_error (Z * Z * list (Hash * Transaction)) :=
  if topoheight <? count then st_err BlockchainError.NotEnoughBlocks
  else
    st ← st_get;
    pruned ← lift_res (get_pruned_topoheight st);
    let pruned_topoheight := default 0 pruned in
    tips ← lift_res (get_tips st);
    tips ← foldMs drop_orphaned_tip tips (hs_iter tips);
    p ← pop_loop fuel pruned_topoheight (pop_limit pruned_topoheight topoheight count stable_topo_height) stable_topo_height
          (mkPopped height topoheight tips [] 0);
    _ ← clean_above pruned_topoheight p.(pop_topoheight);
    _ ← st_modify (store_tips p.(pop_tips));
    _ ← st_modify (set_top_topoheight p.(pop_topoheight));
    _ ← st_modify (set_top_height p.(pop_height));
    _ ← st_modify (fun st => insert_extra BLOCKS_COUNT (be_bytes 8 (u64_sub (count_blocks st) p.(pop_done))) st);
    mret (p.(pop_height), p.(pop_topoheight), p.(pop_txs)).
End Pop.
