(* ===== verification/PopBlocksFacts.v ===== *)
(** What rewinding the chain leaves in the storage.

    [pop_blocks] goes through whole trees and deletes entries of the tree it
    reads: [each_entry] is the common shape of these loops.  The second half is
    about the blocks that are removed and the whole of [pop_blocks].  The
    theorem of [PopBlocksModel] puts them together. *)

From S2P Require Import Prelude External ExternalModel ExternalCrypto Serializer Hash VarUint Defaults Elgamal Proofs Transaction Block Errors Account Versions Storage ClientProtocol VersionedTree StorageFacts StorageLaws Rewind BlockStorage Dag Providers DagOrder DagWalks BlockProviders BlockStorageFacts PopBlocks.

(** ** The walk *)

Lemma search_below_chain {V} (prev : V -> option Z) get fuel m version h :
  chain prev get (prev version) h -> (length h <= fuel)%nat ->
  search_below prev get fuel m version = Ok (top (upto m h)).
Proof.
  revert version h. induction fuel as [|fuel IH]; intros version h Hc Hl;
    inversion Hc as [E1 E2|t v h' Hg Hu Hp Hc' E1 E2]; subst; cbn [search_below]; rewrite <- E1; try done; simpl in Hl; [lia|].
  unfold upto. destruct (Z.leb_spec t m).
  - by rewrite filter_cons_True.
  - rewrite filter_cons_False by (simpl; lia). rewrite Hg. cbn [mbind res_bind]. apply IH; [done|lia].
Qed.

(** ** Loops over a tree *)
Section Loops.
Context {SL : SledLib}.

Lemma tree_iter_elem k x t : (k, x) ∈ tree_iter t <-> tree_get k t = Some x.
Proof. by rewrite tree_iter_spec, elem_of_map_to_list, tree_get_spec. Qed.
Lemma tree_iter_NoDup t : NoDup (tree_iter t).*1.
Proof. rewrite tree_iter_spec. apply NoDup_fst_map_to_list. Qed.

(** A loop over the entries of a tree that changes only the entry it is at. *)
Section Each.
Context {S E B : Type} (get : S -> tree) (f : B -> list byte * list byte -> stm S E B).
Context (inv : list (list byte) -> B -> S -> Prop) (W : list byte -> list byte -> option (list byte) -> Prop) (st : S).
Context (Hstep : forall done b x acc s,
  tree_get b (get st) = Some x -> tree_get b (get s) = Some x -> inv done acc s ->
  exists acc' s', f acc (b, x) s = (Ok acc', s') /\ inv (done ++ [b]) acc' s' /\ W b x (tree_get b (get s')) /\
    forall b', b' <> b -> tree_get b' (get s') = tree_get b' (get s)).

Lemma each_loop l done acc s :
  NoDup (done ++ l.*1) -> (forall b x, (b, x) ∈ l -> tree_get b (get st) = Some x) ->
  (forall b, b ∉ done -> tree_get b (get s) = tree_get b (get st)) ->
  (forall b x, b ∈ done -> tree_get b (get st) = Some x -> W b x (tree_get b (get s))) -> inv done acc s ->
  exists acc' s', foldMs f acc l s = (Ok acc', s') /\ inv (done ++ l.*1) acc' s' /\
    (forall b, b ∉ done ++ l.*1 -> tree_get b (get s') = tree_get b (get st)) /\
    (forall b x, b ∈ done ++ l.*1 -> tree_get b (get st) = Some x -> W b x (tree_get b (get s'))).
Proof using Hstep.
  revert done acc s. induction l as [|[b x] l IH]; intros done acc s Hnd Hl Hn Hd Hi; cbn [foldMs].
  { exists acc, s. cbn. rewrite app_nil_r. done. }
  assert (b ∉ done) as Hb.
  { apply list.NoDup_app in Hnd as (_ & Hnd & _). intros Hin. apply (Hnd b Hin). left. }
  pose proof (Hl b x ltac:(left)) as Hx.
  destruct (Hstep done b x acc s) as (acc1 & s1 & Hrun & Hi1 & HW & Ho); [done|by rewrite Hn|done|].
  assert ((done ++ [b]) ++ l.*1 = done ++ ((b, x) :: l).*1) as Eapp by by rewrite <- (assoc_L (++)).
  destruct (IH (done ++ [b]) acc1 s1) as (acc' & s' & Hr & H1 & H2 & H3).
  - by rewrite Eapp.
  - intros b' x' Hin. apply Hl. by right.
  - intros b' Hb'. rewrite Ho, Hn; [done|set_solver..].
  - intros b' x' [Hin| ->%list_elem_of_singleton]%list.elem_of_app Hx'.
    + rewrite Ho by (by intros ->). by apply Hd.
    + assert (x' = x) as -> by congruence. done.
  - done.
  - exists acc', s'. rewrite <- Eapp. by erewrite stm_bind_run by exact Hrun.
Qed.

Lemma each_entry acc :
  inv [] acc st ->
  exists acc' s', foldMs f acc (tree_iter (get st)) st = (Ok acc', s') /\ inv (tree_iter (get st)).*1 acc' s' /\
    (forall b, tree_get b (get st) = None -> tree_get b (get s') = None) /\
    (forall b x, tree_get b (get st) = Some x -> W b x (tree_get b (get s'))).
Proof using Hstep.
  intros Hi. destruct (each_loop (tree_iter (get st)) [] acc st) as (acc' & s' & Hr & H1 & H2 & H3); [..|done|].
  - apply tree_iter_NoDup.
  - intros b x. by rewrite tree_iter_elem.
  - done.
  - by intros b x ?%not_elem_of_nil.
  - cbn [app] in *. exists acc', s'. split; [done|]. split; [done|].
    assert (forall b, b ∈ (tree_iter (get st)).*1 <-> is_Some (tree_get b (get st))) as Hin.
    { intros b. rewrite list_elem_of_fmap. split.
      - intros ([b' x] & -> & Hx%tree_iter_elem). by exists x.
      - intros [x Hx]. exists (b, x). by rewrite tree_iter_elem. }
    split.
    + intros b Hb. rewrite H2; [done|]. rewrite Hin, Hb. by intros [? ?].
    + intros b x Hx. apply H3; [|done]. rewrite Hin. by exists x.
Qed.
End Each.

(** *** Trees whose keys start with a topoheight *)

Definition topo_keys (t : tree) : Prop :=
  forall b x, tree_get b t = Some x -> exists z rest, in_u 64 z /\ b = be_bytes 8 z ++ rest.

Lemma parse_topo z rest : in_u 64 z -> parse_slice (SZ:=u64_Serializer) 0 8 (be_bytes 8 z ++ rest) = Ok z.
Proof.
  intros Hz. unfold parse_slice, slice. pose proof (slice_at [] (be_bytes 8 z) rest 8 (length_be_bytes 8 z)) as E.
  cbn [app length] in E. change (0 + 8)%nat with 8%nat in E. rewrite E. cbn [map_err mbind res_bind].
  by rewrite from_bytes_u64.
Qed.

Lemma topo_key_inj z z' rest rest' :
  in_u 64 z -> in_u 64 z' -> be_bytes 8 z ++ rest = be_bytes 8 z' ++ rest' -> z = z'.
Proof. intros Hz Hz' [E _]%app_inj_1; [by apply be8_inj in E|by rewrite !length_be_bytes]. Qed.

Lemma delete_versioned_tree_run drop t :
  topo_keys t -> exists t', delete_versioned_tree drop t = (Ok tt, t') /\
    (forall z rest, in_u 64 z ->
      tree_get (be_bytes 8 z ++ rest) t' = if drop z then None else tree_get (be_bytes 8 z ++ rest) t) /\
    forall b x, tree_get b t' = Some x -> tree_get b t = Some x.
Proof.
  intros Hk. destruct (each_entry (fun t => t) (E:=blockchain_error) (fun (_ : ()) kv =>
    topo ← lift_res (bytes ← slice 0 8 kv.1; map_err BlockchainError.ErrorOnReader (from_bytes (H:=u64_Serializer) bytes));
    if drop topo then st_modify (fun t => (tree_remove kv.1 t).2) else mret tt) (fun _ _ _ => True)
    (fun b x r => forall z rest, in_u 64 z -> b = be_bytes 8 z ++ rest -> r = if drop z then None else Some x) t)
    with (acc := tt) as ([] & t' & Hr & _ & Hn & Hw); [|done|].
  - intros _ b x [] s Hb Hs _. destruct (Hk b x Hb) as (z & rest & Hz & ->).
    erewrite stm_bind_run; [|unfold lift_res; cbn [fst]; pose proof (parse_topo z rest Hz) as Hp; unfold parse_slice in Hp; by rewrite Hp].
    destruct (drop z) eqn:Hd; (exists tt; eexists; split; [reflexivity|]; split; [done|]; split).
    + intros z' rest' Hz' E. assert (z' = z) as -> by by eapply topo_key_inj. rewrite Hd. apply tree_get_remove.
    + intros b' Hne. by apply tree_get_remove_ne.
    + intros z' rest' Hz' E. assert (z' = z) as -> by by eapply topo_key_inj. by rewrite Hd.
    + done.
  - exists t'. split; [exact Hr|]. split.
    + intros z rest Hz. destruct (tree_get (be_bytes 8 z ++ rest) t) as [x|] eqn:E; [by eapply Hw|].
      rewrite Hn by done. by destruct (drop z).
    + intros b x Hb. destruct (tree_get b t) as [y|] eqn:E; [|by rewrite Hn in Hb].
      destruct (Hk b y E) as (z & rest & Hz & ->). rewrite (Hw _ _ E z rest Hz eq_refl) in Hb. by destruct (drop z).
Qed.
End Loops.

(** ** Histories cut at a topoheight *)
Section Cut.
Context {SL : SledLib} {K : Type} {V : Type} {SZ : Serializer V}.
Context (kb : K -> list byte) (prev : V -> option Z) (ctx : DiskContext.t).

Lemma trees_refine_upto m hist ptr ver ptr' ver' :
  trees_refine kb prev ctx hist ptr ver ->
  (forall k, tree_get (kb k) ptr' = be_bytes 8 <$> top (upto m (hist k))) ->
  (forall z rest, in_u 64 z ->
    tree_get (be_bytes 8 z ++ rest) ver' = if m <? z then None else tree_get (be_bytes 8 z ++ rest) ver) ->
  (forall b x, tree_get b ver' = Some x -> tree_get b ver = Some x) ->
  trees_refine kb prev ctx (fun k => upto m (hist k)) ptr' ver'.
Proof.
  intros Hr Hp Hv Hs. split.
  - intros k. destruct (tr_history _ _ _ _ _ _ Hr k) as [_ Hch]. split; [done|].
    apply (chain_ext _ (look kb ctx ver k)); [by eapply chain_upto|].
    intros t v [Hle Hin]%elem_of_upto. unfold look, load_from_disk, version_key.
    rewrite Hv by by eapply trees_refine_range. by destruct (Z.ltb_spec m t); [lia|].
  - intros b x Hb. destruct (tr_stored _ _ _ _ _ _ Hr b x (Hs _ _ Hb)) as (k & t & v & Hin & ->).
    exists k, t, v. split; [|done]. apply elem_of_upto. split; [|done]. unfold version_key in Hb.
    rewrite Hv in Hb by by eapply trees_refine_range. by destruct (Z.ltb_spec m t).
Qed.

Lemma versions_topo_keys hist ptr ver : trees_refine kb prev ctx hist ptr ver -> topo_keys ver.
Proof.
  intros Hr b x Hb. destruct (tr_stored _ _ _ _ _ _ Hr b x Hb) as (k & t & v & Hin & ->).
  exists t, (kb k). split; [by eapply trees_refine_range|done].
Qed.

(** The pointer of an account that has one. *)
Lemma pointer_entry hist ptr ver k x :
  trees_refine kb prev ctx hist ptr ver -> tree_get (kb k) ptr = Some x ->
  exists t v h, hist k = (t, v) :: h /\ x = be_bytes 8 t /\ in_u 64 t /\ look kb ctx ver k t = Ok v /\
    chain prev (look kb ctx ver k) (prev v) h.
Proof.
  intros Hr Hx. pose proof (tr_history _ _ _ _ _ _ Hr k) as [Hp Hch]. rewrite Hx in Hp.
  destruct (hist k) as [|[t v] h] eqn:E; [done|]. injection Hp as ->. inversion Hch; subst. by exists t, v, h.
Qed.

(** The pointers after the loop. *)
Lemma pointers_upto m hist ptr ver ptr' :
  trees_refine kb prev ctx hist ptr ver ->
  (forall b, tree_get b ptr = None -> tree_get b ptr' = None) ->
  (forall k x, tree_get (kb k) ptr = Some x -> tree_get (kb k) ptr' = be_bytes 8 <$> top (upto m (hist k))) ->
  forall k, tree_get (kb k) ptr' = be_bytes 8 <$> top (upto m (hist k)).
Proof.
  intros Hr Hn Hw k. destruct (tree_get (kb k) ptr) as [x|] eqn:E; [by eapply Hw|].
  pose proof (tr_history _ _ _ _ _ _ Hr k) as [Hp _]. rewrite E in Hp. rewrite Hn by done.
  by destruct (hist k).
Qed.
End Cut.

(** ** What was written above the new top *)
Section Clean.
Context {CV : Curve} {ML : Merlin} {RP : RangeProofLib} {SL : SledLib} {HM : HashMapIter} {UL : U256Lib} {IS : IndexSetLib Hash}.
#[local] Existing Instance hash_set_Serializer.

(** The keys of the pointers are those of accounts. *)
Definition keyed {K} (kb : K -> list byte) (t : tree) : Prop := forall b x, tree_get b t = Some x -> exists k, b = kb k.

Lemma parse_u64 z : in_u 64 z -> parse (SZ:=u64_Serializer) (be_bytes 8 z) = Ok z.
Proof. intros Hz. unfold parse. by rewrite from_bytes_u64. Qed.
Lemma parse_account k : parse (T:=CompressedPublicKey) (as_bytes k) = Ok k.
Proof. unfold parse. change (as_bytes k) with (to_bytes k). by rewrite (from_bytes_to_bytes k). Qed.
Lemma parse_hash h : parse (T:=Hash) (hash_bytes h) = Ok h.
Proof. unfold parse. change (hash_bytes h) with (to_bytes h). by rewrite (from_bytes_to_bytes h). Qed.

(** *** Nonces *)

Lemma nonce_pointer_trees key t st :
  accounts_counted st -> is_Some (tree_get (as_bytes key) st.(nonces)) ->
  let st1 := drop_nonce_pointer (as_bytes key) st in
  let st2 := put_nonce_pointer (as_bytes key) t st1 in
  nonce_inv st st1 /\ st1.(versioned_nonces) = st.(versioned_nonces) /\ tree_get (as_bytes key) st1.(nonces) = None /\
  (forall b, b <> as_bytes key -> tree_get b st1.(nonces) = tree_get b st.(nonces)) /\
  nonce_inv st st2 /\ st2.(versioned_nonces) = st.(versioned_nonces) /\
  tree_get (as_bytes key) st2.(nonces) = Some (be_bytes 8 t) /\
  (forall b, b <> as_bytes key -> tree_get b st2.(nonces) = tree_get b st.(nonces)).
Proof.
  intros Hc Hs.
  assert (drop_nonce_pointer (as_bytes key) st = pointer_back key None st) as Ed by done.
  destruct (pointer_back_trees key None st Hs Hc) as (C1 & V1 & G1 & N1).
  destruct (pointer_back_frame key None st) as (F1 & R1 & B1). rewrite <- Ed in *. cbn zeta.
  set (st1 := drop_nonce_pointer (as_bytes key) st) in *. clearbody st1.
  split; [done|]. split; [done|]. split; [done|]. split; [auto|].
  unfold put_nonce_pointer. pose proof (tree_insert_old (as_bytes key) (be_bytes 8 t) st1.(nonces)) as Ho.
  pose proof (tree_get_insert (as_bytes key) (be_bytes 8 t) st1.(nonces)) as Hg.
  pose proof (fun b => tree_get_insert_ne (as_bytes key) b (be_bytes 8 t) st1.(nonces)) as Hn.
  pose proof (tree_len_insert (as_bytes key) (be_bytes 8 t) st1.(nonces)) as Hl. rewrite G1 in Ho, Hl.
  destruct (tree_insert _ _ (nonces st1)) as [o n]. cbn [fst snd fmap option_fmap option_map] in *. subst o.
  split; [|split; [done|split; [done|]]].
  - split; [|done]. unfold accounts_counted, count_accounts in *. cbn. rewrite C1, Hl. unfold u64_add, wrap.
    rewrite Zplus_mod_idemp_l. f_equal. lia.
  - intros b Hb. cbn. rewrite Hn by auto. by apply N1.
Qed.

Lemma clean_nonces_run p m nh st :
  nonces_refine nh st -> keyed as_bytes st.(nonces) -> (forall k t, top (nh k) = Some t -> p <= t) ->
  exists st', foldMs (fun _ el => clean_nonce p m el) tt (tree_iter st.(nonces)) st = (Ok tt, st') /\
    nonce_inv st st' /\ st'.(versioned_nonces) = st.(versioned_nonces) /\
    (forall b, tree_get b st.(nonces) = None -> tree_get b st'.(nonces) = None) /\
    forall k, tree_get (as_bytes k) st'.(nonces) = be_bytes 8 <$> top (upto m (nh k)).
Proof.
  intros [Hr Hc] Hk Hp.
  destruct (each_entry nonces (fun (_ : ()) el => clean_nonce p m el)
    (fun _ _ s => nonce_inv st s /\ s.(versioned_nonces) = st.(versioned_nonces))
    (fun b x r => forall k, b = as_bytes k -> r = be_bytes 8 <$> top (upto m (nh k))) st) with (acc := tt)
    as ([] & st' & Hrun & [Hi Hv] & Hn & Hw).
  - intros _ b x [] s Hb Hs ((Hcs & F1 & F2 & F3) & Hvs). destruct (Hk b x Hb) as [key ->].
    destruct (pointer_entry _ _ _ _ _ _ _ _ Hr Hb) as (t & v & h & Eh & -> & Hu & Hl & Hch).
    assert (p <= t) as Hpt by (apply (Hp key); by rewrite Eh).
    assert (forall r, (forall r', r' = r -> r' = be_bytes 8 <$> top (upto m (nh key))) ->
      forall k, as_bytes key = as_bytes k -> r = be_bytes 8 <$> top (upto m (nh k))) as HW.
    { intros r Hr' k ->%as_bytes_inj. by apply Hr'. }
    unfold clean_nonce. cbn [fst snd]. rewrite (parse_u64 t Hu). erewrite stm_bind_run by reflexivity.
    destruct (Z.ltb_spec t p); [lia|]. destruct (Z.ltb_spec m t) as [Hmt|Hmt].
    + destruct (nonce_pointer_trees key 0 s Hcs ltac:(by eexists)) as (I1 & V1 & G1 & N1 & _).
      erewrite stm_bind_run by reflexivity. set (s1 := drop_nonce_pointer (as_bytes key) s) in *.
      erewrite stm_bind_run.
      2: { by rewrite parse_account. }
      erewrite stm_bind_run by reflexivity.
      assert (forall t', get_nonce_at_exact_topoheight key t' s1 = look as_bytes DiskContext.NonceAtTopoHeight st.(versioned_nonces) key t') as Hg.
      { intros t'. by rewrite <- Hvs, <- V1. }
      erewrite stm_bind_run by (unfold lift_res; by rewrite Hg, Hl).
      assert (search_below vn_previous_topoheight (fun t => get_nonce_at_exact_topoheight key t s1) (nonce_fuel s1) m v =
        Ok (top (upto m h))) as Hsb.
      { apply search_below_chain; [eapply chain_ext; [exact Hch|intros t' v' _; by rewrite Hg]|].
        pose proof (history_bound _ _ _ as_bytes_inj vn_from_bytes_range _ _ _ _ (tr_history _ _ _ _ _ _ Hr key)) as Hlen.
        rewrite Eh in Hlen. unfold nonce_fuel. rewrite V1, Hvs. simpl in Hlen. lia. }
      erewrite stm_bind_run by (unfold lift_res; by rewrite Hsb).
      assert (upto m (nh key) = upto m h) as Eu.
      { rewrite Eh. unfold upto. by rewrite filter_cons_False by (simpl; lia). }
      destruct (top (upto m h)) as [q|] eqn:Eq.
      * destruct (nonce_pointer_trees key q s Hcs ltac:(by eexists)) as (_ & _ & _ & _ & (C2 & O2 & R2 & B2) & V2 & G2 & N2).
        exists tt. eexists. split; [reflexivity|]. split; [|split; [|exact N2]].
        -- split; [|by etrans; [exact V2|]]. split; [exact C2|].
           split; [by etrans; [exact O2|]|]. split; [by etrans; [exact R2|]|by etrans; [exact B2|]].
        -- apply HW. intros r' ->. rewrite Eu, Eq. exact G2.
      * exists tt, s1. split; [done|]. destruct I1 as (C1 & O1 & R1 & B1). split; [|split; [|exact N1]].
        -- split; [|by rewrite V1]. split; [done|]. split; [by rewrite O1|]. split; [by rewrite R1|by rewrite B1].
        -- apply HW. intros r' ->. rewrite Eu, Eq. exact G1.
    + exists tt, s. split; [done|]. split; [by split|]. split; [|done]. apply HW. intros r' ->. rewrite Hs, Eh.
      unfold upto. by rewrite filter_cons_True by (simpl; lia).
  - split; [by split|done].
  - exists st'. split; [exact Hrun|]. split; [done|]. split; [done|]. split; [done|].
    eapply pointers_upto; [exact Hr|exact Hn|]. intros k x Hx. by eapply Hw.
Qed.

Lemma nonces_above_refine m nh st st' :
  nonces_refine nh st -> accounts_counted st' -> st'.(versioned_nonces) = st.(versioned_nonces) ->
  (forall k, tree_get (as_bytes k) st'.(nonces) = be_bytes 8 <$> top (upto m (nh k))) ->
  exists t, let st2 := with_versioned_nonces t st' in
    delete_versioned_nonces_above_topoheight m st' = (Ok tt, st2) /\ nonces_refine (fun k => upto m (nh k)) st2.
Proof.
  intros [Hr Hc] Hc' Hv Hp. unfold delete_versioned_nonces_above_topoheight, delete_versioned_tree_above_topoheight. rewrite Hv.
  destruct (delete_versioned_tree_run (fun topo => m <? topo) st.(versioned_nonces)) as (t' & -> & Hz & Hs).
  { exact (versions_topo_keys _ _ _ _ _ _ Hr). }
  exists t'. split; [done|]. split; [|done]. exact (trees_refine_upto _ _ _ m _ _ _ _ _ Hr Hp Hz Hs).
Qed.

(** *** Assets *)

Definition Assets : Type := Hash -> option AssetData.
Record assets_refine (am : Assets) (st : SledStorage) : Prop := {
  as_get h : tree_get (hash_bytes h) st.(assets) = to_bytes <$> am h;
  as_keyed : keyed hash_bytes st.(assets);
  as_wf h d : am h = Some d -> asset_data_wf d;
}.
Definition assets_upto (m : Z) (am : Assets) : Assets := fun h =>
  match am h with Some d => if m <? d.(asset_topoheight) then None else Some d | None => None end.

Lemma parse_asset_topo d : asset_data_wf d -> parse (SZ:=u64_Serializer) (to_bytes d) = Ok d.(asset_topoheight).
Proof.
  intros [Hu _]. unfold parse, from_bytes. rewrite (to_bytes_enc asset_data_enc) by apply asset_data_append.
  unfold asset_data_enc. rewrite reader_new_at. cbn [read u64_Serializer].
  by rewrite (codec_rt (dec:=Reader.read_u64)).
Qed.

Lemma clean_assets_run m am st :
  assets_refine am st -> exists deleted t, let st' := with_assets t st in
    foldMs (clean_asset m) ∅ (tree_iter st.(assets)) st = (Ok deleted, st') /\ assets_refine (assets_upto m am) st' /\
    forall h, h ∈ deleted <-> exists d, am h = Some d /\ m < d.(asset_topoheight).
Proof.
  intros [Hg Hk Hwf].
  destruct (each_entry assets (clean_asset m)
    (fun done acc s => (exists t, s = with_assets t st) /\
      forall h, h ∈ acc <-> hash_bytes h ∈ done /\ exists d, am h = Some d /\ m < d.(asset_topoheight))
    (fun b x r => forall h, b = hash_bytes h -> r = to_bytes <$> assets_upto m am h) st) with (acc := ∅ : gset Hash)
    as (deleted & st' & Hrun & [[t ->] Hd] & Hn & Hw).
  - intros done b x acc s Hb Hs [[t ->] Hacc]. destruct (Hk b x Hb) as [h ->].
    pose proof (Hg h) as E. rewrite Hb in E. destruct (am h) as [d|] eqn:Ed; [|done]. injection E as ->.
    unfold clean_asset. cbn [fst snd]. rewrite parse_hash, parse_asset_topo by by eapply Hwf.
    do 2 (erewrite stm_bind_run by reflexivity).
    assert (forall h', hash_bytes h = hash_bytes h' -> to_bytes <$> assets_upto m am h' =
      if m <? d.(asset_topoheight) then None else Some (to_bytes d)) as HW.
    { intros h' <-%hash_bytes_inj. unfold assets_upto. rewrite Ed. by destruct (m <? _). }
    destruct (Z.ltb_spec m d.(asset_topoheight)) as [Hm|Hm].
    + erewrite stm_bind_run by reflexivity. eexists _, _. split; [reflexivity|]. split; [|split].
      * split; [by eexists|]. intros h'. rewrite list.elem_of_app, list_elem_of_singleton, elem_of_union, elem_of_singleton, Hacc.
        split; [intros [->|[? ?]]; [split; [by right|by exists d]|split; [by left|done]]|].
        intros [[?|E] ?]; [right; by split|left; by apply hash_bytes_inj].
      * intros h' E. rewrite (HW h' E). apply tree_get_remove.
      * intros b' Hne. by apply tree_get_remove_ne.
    + eexists _, _. split; [reflexivity|]. split; [|split; [|done]].
      * split; [by eexists|]. intros h'. rewrite list.elem_of_app, list_elem_of_singleton, Hacc.
        split; [intros [? ?]; split; [by left|done]|]. intros [[?|E] (d' & Ed' & ?)]; [split; [done|by exists d']|].
        apply hash_bytes_inj in E. subst h'. rewrite Ed in Ed'. injection Ed' as ->. lia.
      * intros h' E. by rewrite (HW h' E).
  - split; [exists st.(assets); by destruct st|]. intros h. split; [by intros ?%elem_of_empty|by intros [?%not_elem_of_nil _]].
  - exists deleted, t. split; [exact Hrun|]. split.
    + split.
      * intros h. destruct (tree_get (hash_bytes h) st.(assets)) as [x|] eqn:E; [by eapply Hw|].
        rewrite Hn by done. pose proof (Hg h) as E'. rewrite E in E'. unfold assets_upto. by destruct (am h).
      * intros b x Hb. destruct (tree_get b st.(assets)) as [y|] eqn:E; [by eapply Hk|]. by rewrite Hn in Hb.
      * intros h d. unfold assets_upto. destruct (am h) as [d'|] eqn:E; [|done].
        destruct (m <? _); [done|]. intros [= ->]. by eapply Hwf.
    + intros h. rewrite Hd. split; [by intros [_ ?]|]. intros (d & Ed & Hm). split; [|by exists d].
      rewrite list_elem_of_fmap. exists (hash_bytes h, to_bytes d). split; [done|]. apply tree_iter_elem. by rewrite Hg, Ed.
Qed.

(** *** Balances *)

Lemma parse_balance_key k a :
  parse_slice (T:=Hash) 32 64 (balance_key (k, a)) = Ok a /\ parse_slice (T:=CompressedPublicKey) 0 32 (balance_key (k, a)) = Ok k.
Proof.
  unfold parse_slice, slice, balance_key, get_balance_key_for. cbn [fst snd]. split.
  - pose proof (slice_at (as_bytes k) (hash_bytes a) [] 32 (length_hash_bytes a)) as E.
    rewrite length_as_bytes, app_nil_r in E. change 64%nat with (32 + 32)%nat. rewrite E. cbn [map_err mbind res_bind].
    change (hash_bytes a) with (to_bytes a). by rewrite (from_bytes_to_bytes a).
  - pose proof (slice_at [] (as_bytes k) (hash_bytes a) 32 (length_as_bytes k)) as E. cbn [app length] in E.
    change (0 + 32)%nat with 32%nat in E. rewrite E. cbn [map_err mbind res_bind].
    change (as_bytes k) with (to_bytes k). by rewrite (from_bytes_to_bytes k).
Qed.

Lemma clean_balances_run (p m : Z) (bh : BalanceHistories) (deleted : gset Hash) (st : SledStorage) :
  balances_refine bh st -> keyed balance_key st.(balances) -> p <= m ->
  (forall k a, bh (k, a) <> [] -> if decide (a ∈ deleted) then upto m (bh (k, a)) = [] else registered a st) ->
  exists t, let st' := with_balances t st in
    foldMs (fun _ el => clean_balance p m deleted el) tt (tree_iter st.(balances)) st = (Ok tt, st') /\
    (forall b, tree_get b st.(balances) = None -> tree_get b st'.(balances) = None) /\
    forall ka, tree_get (balance_key ka) st'.(balances) = be_bytes 8 <$> top (upto m (bh ka)).
Proof.
  intros Hr Hk Hp Hreg.
  destruct (each_entry balances (fun (_ : ()) el => clean_balance p m deleted el) (fun _ _ s => exists t, s = with_balances t st)
    (fun b x r => forall ka, b = balance_key ka -> r = be_bytes 8 <$> top (upto m (bh ka))) st) with (acc := tt)
    as ([] & st' & Hrun & [t ->] & Hn & Hw).
  - intros _ b x [] s Hb Hs [tb ->]. destruct (Hk b x Hb) as [[k a] ->].
    destruct (pointer_entry _ _ _ _ _ _ _ _ Hr Hb) as (t & v & h & Eh & -> & Hu & Hl & Hch).
    specialize (Hreg k a ltac:(by rewrite Eh)).
    assert (forall r, r = be_bytes 8 <$> top (upto m (bh (k, a))) ->
      forall ka, balance_key (k, a) = balance_key ka -> r = be_bytes 8 <$> top (upto m (bh ka))) as HW.
    { intros r Hr' ka <-%balance_key_inj. done. }
    destruct (parse_balance_key k a) as [Pa Pk]. unfold clean_balance. cbn [fst snd]. rewrite Pa.
    erewrite stm_bind_run by reflexivity. destruct (decide (a ∈ deleted)) as [Hin|Hout].
    { rewrite bool_decide_eq_true_2 by done. erewrite stm_bind_run by reflexivity. exists tt. eexists. split; [reflexivity|].
      split; [by eexists|]. split; [apply HW; rewrite Hreg; apply tree_get_remove|].
      intros b' Hne. by apply tree_get_remove_ne. }
    rewrite bool_decide_eq_false_2 by done. rewrite (parse_u64 t Hu), Pk.
    destruct (Z.ltb_spec m t) as [Hmt|Hmt].
    + assert (upto m (bh (k, a)) = upto m h) as Eu.
      { rewrite Eh. unfold upto. by rewrite filter_cons_False by (simpl; lia). }
      set (s := with_balances tb st) in *.
      assert ((m <? t) && (p <=? t) = true) as Hguard by (apply andb_true_iff; lia).
      assert (registered a s) as Ha by exact Hreg.
      assert (tree_contains (balance_key (k, a)) s.(balances) = true) as Hcont by (apply tree_contains_get; by eexists).
      assert (get_balance_at_exact_topoheight k a t s = Ok v) as Hg by by apply balance_exact_look.
      assert (search_below previous_topoheight (fun t => get_balance_at_exact_topoheight k a t s) (balance_fuel s) m v =
        Ok (top (upto m h))) as Hsb.
      { apply search_below_chain.
        - eapply chain_ext; [exact Hch|]. intros t' v' Hin. destruct (chain_get _ _ _ _ _ _ Hch Hin) as [Hl' _].
          rewrite Hl'. by apply balance_exact_look.
        - pose proof (history_bound _ _ _ balance_key_inj vb_from_bytes_range _ _ _ _ (tr_history _ _ _ _ _ _ Hr (k, a))) as Hlen.
          rewrite Eh in Hlen. unfold balance_fuel. simpl in Hlen |- *. lia. }
      destruct (top (upto m h)) as [q|] eqn:Eq.
      * exists tt. eexists. split; [|split; [by eexists|split]].
        -- unfold mbind, stm_bind, lift_res, st_get, st_modify. rewrite Hguard. cbv beta iota.
           rewrite Hg, Hsb. reflexivity.
        -- apply HW. rewrite Eu, Eq. apply tree_get_insert.
        -- intros b' Hne. by apply tree_get_insert_ne.
      * exists tt. eexists. split; [|split; [by eexists|split]].
        -- unfold mbind, stm_bind, lift_res, st_get, st_modify. rewrite Hguard. cbv beta iota.
           rewrite Hg, Hsb. reflexivity.
        -- apply HW. rewrite Eu, Eq. apply tree_get_remove.
        -- intros b' Hne. by apply tree_get_remove_ne.
    + assert ((m <? t) && (p <=? t) = false) as Hguard by (apply andb_false_iff; lia).
      exists tt. eexists. split; [unfold mbind, stm_bind, lift_res; rewrite Hguard; reflexivity|].
      split; [by eexists|]. split; [|done]. apply HW. rewrite Hs, Eh.
      unfold upto. by rewrite filter_cons_True by (simpl; lia).
  - exists st.(balances). by destruct st.
  - exists t. split; [exact Hrun|]. split; [exact Hn|]. eapply pointers_upto; [exact Hr|exact Hn|]. intros k x Hx. by eapply Hw.
Qed.

Lemma balances_above_refine m bh st st' :
  balances_refine bh st -> st'.(versioned_balances) = st.(versioned_balances) ->
  (forall ka, tree_get (balance_key ka) st'.(balances) = be_bytes 8 <$> top (upto m (bh ka))) ->
  exists t, let st2 := with_versioned_balances t st' in
    delete_versioned_balances_above_topoheight m st' = (Ok tt, st2) /\ balances_refine (fun ka => upto m (bh ka)) st2.
Proof.
  intros Hr Hv Hp. unfold delete_versioned_balances_above_topoheight, delete_versioned_tree_above_topoheight. rewrite Hv.
  destruct (delete_versioned_tree_run (fun topo => m <? topo) st.(versioned_balances)) as (t' & -> & Hz & Hs).
  { exact (versions_topo_keys _ _ _ _ _ _ Hr). }
  exists t'. split; [done|]. exact (trees_refine_upto _ _ _ m _ _ _ _ _ Hr Hp Hz Hs).
Qed.

(** *** Registrations *)

Definition Registrations : Type := CompressedPublicKey -> option Z.
Record registrations_refine (reg : Registrations) (st : SledStorage) : Prop := {
  rr_topo k : tree_get (as_bytes k) st.(registrations) = be_bytes 8 <$> reg k;
  rr_prefixed k t : reg k = Some t -> in_u 64 t /\ is_Some (tree_get (prefixed_db_key t k) st.(registrations_prefixed));
  rr_stored b x : tree_get b st.(registrations_prefixed) = Some x -> exists k t, reg k = Some t /\ b = prefixed_db_key t k;
}.
Definition registered_upto (m : Z) (reg : Registrations) : Registrations := fun k =>
  match reg k with Some t => if m <? t then None else Some t | None => None end.

Lemma slice_prefixed t k : slice 8 40 (prefixed_db_key t k) = Ok (as_bytes k).
Proof.
  unfold slice, prefixed_db_key. pose proof (slice_at (be_bytes 8 t) (as_bytes k) [] 32 (length_as_bytes k)) as E.
  rewrite length_be_bytes, app_nil_r in E. change 40%nat with (8 + 32)%nat. by rewrite E.
Qed.

Lemma prefixed_inj t k t' k' :
  in_u 64 t -> in_u 64 t' -> prefixed_db_key t k = prefixed_db_key t' k' -> t = t' /\ k = k'.
Proof.
  intros Ht Ht' [E1 E2]%app_inj_1; [|by rewrite !length_be_bytes]. split; [by apply be8_inj|by apply as_bytes_inj].
Qed.

Lemma in_snoc_other {A} `{EqDecision A} (x y : A) l : y <> x -> bool_decide (x ∈ l) = bool_decide (x ∈ l ++ [y]).
Proof. intros Hn. apply bool_decide_ext. rewrite list.elem_of_app, list_elem_of_singleton. naive_solver. Qed.

Lemma registrations_above_refine m reg st :
  registrations_refine reg st -> exists t p, let st' := with_registrations t p st in
    delete_registrations_above_topoheight m st = (Ok tt, st') /\ registrations_refine (registered_upto m reg) st'.
Proof.
  intros [Ht Hp Hs]. unfold delete_registrations_above_topoheight. erewrite stm_bind_run by reflexivity.
  destruct (each_entry registrations_prefixed (fun (_ : ()) el => delete_registration_above m el)
    (fun done _ s => (exists t p, s = with_registrations t p st) /\
      forall k, tree_get (as_bytes k) s.(registrations) =
        match reg k with
        | Some t => if (m <? t) && bool_decide (prefixed_db_key t k ∈ done) then None else Some (be_bytes 8 t)
        | None => None
        end)
    (fun b x r => forall k t, reg k = Some t -> b = prefixed_db_key t k -> r = if m <? t then None else Some x) st)
    with (acc := tt) as ([] & st' & Hrun & [(t & p & ->) Hd] & Hn & Hw).
  - intros done b x [] s Hb Hst [(tr & tp & ->) Hr]. destruct (Hs b x Hb) as (k & t & Ek & ->).
    destruct (Hp k t Ek) as [Hu _].
    assert (forall t' k', prefixed_db_key t k = prefixed_db_key t' k' -> reg k' = Some t' -> k' = k /\ t' = t) as Hinj.
    { intros t' k' E Ek'. destruct (Hp k' t' Ek') as [Hu' _]. by destruct (prefixed_inj t k t' k' Hu Hu' E). }
    unfold delete_registration_above. cbn [fst]. pose proof (parse_topo t (as_bytes k) Hu) as Hpt.
    change (be_bytes 8 t ++ as_bytes k) with (prefixed_db_key t k) in Hpt. rewrite Hpt, slice_prefixed.
    erewrite stm_bind_run by reflexivity. destruct (Z.ltb_spec m t) as [Hm|Hm].
    + do 2 (erewrite stm_bind_run by reflexivity). exists tt. eexists. split; [reflexivity|]. split; [|split].
      * split; [by eexists _, _|]. intros k'. cbn. destruct (decide (k' = k)) as [->|Hne].
        -- rewrite tree_get_remove, Ek, bool_decide_eq_true_2 by (apply list.elem_of_app; right; left).
           by destruct (Z.ltb_spec m t); [|lia].
        -- rewrite tree_get_remove_ne by (by intros ?%as_bytes_inj). etrans; [exact (Hr k')|].
           destruct (reg k') as [t'|] eqn:Ek'; [|done]. rewrite <- in_snoc_other; [done|].
           intros E. by destruct (Hinj t' k' E Ek') as [? _].
      * intros k' t' Ek' E. destruct (Hinj t' k' E Ek') as [-> ->]. rewrite (proj2 (Z.ltb_lt m t)) by done.
        apply tree_get_remove.
      * intros b' Hne. by apply tree_get_remove_ne.
    + exists tt. eexists. split; [reflexivity|]. split; [|split; [|done]].
      * split; [by eexists _, _|]. intros k'. etrans; [exact (Hr k')|]. destruct (reg k') as [t'|] eqn:Ek'; [|done].
        destruct (Z.ltb_spec m t'); [|done]. rewrite <- in_snoc_other; [done|].
        intros E. destruct (Hinj t' k' E Ek') as [_ ->]. lia.
      * intros k' t' Ek' E. destruct (Hinj t' k' E Ek') as [-> ->]. by rewrite (proj2 (Z.ltb_ge m t)).
  - split; [by exists st.(registrations), st.(registrations_prefixed); destruct st|]. intros k. rewrite Ht.
    destruct (reg k) as [t|]; [|done]. rewrite bool_decide_eq_false_2 by apply not_elem_of_nil. by rewrite andb_false_r.
  - exists t, p. split; [exact Hrun|].
    assert (forall k t', reg k = Some t' -> exists x, tree_get (prefixed_db_key t' k) st.(registrations_prefixed) = Some x) as Hin.
    { intros k t' Ek. destruct (Hp k t' Ek) as [_ [x Hx]]. by exists x. }
    split.
    + intros k. rewrite Hd. unfold registered_upto. destruct (reg k) as [t'|] eqn:Ek; [|done].
      destruct (Hin k t' Ek) as [x Hx]. rewrite bool_decide_eq_true_2; [by rewrite andb_true_r; destruct (m <? t')|].
      apply list_elem_of_fmap. exists (prefixed_db_key t' k, x). split; [done|]. by apply tree_iter_elem.
    + intros k t' Ek. unfold registered_upto in Ek. destruct (reg k) as [t0|] eqn:E0; [|done].
      destruct (m <? t0) eqn:Em; [done|]. injection Ek as ->. destruct (Hp k t' E0) as [Hu _]. split; [done|].
      destruct (Hin k t' E0) as [x Hx]. rewrite (Hw _ x Hx k t' E0 eq_refl), Em. by exists x.
    + intros b x Hb. destruct (tree_get b st.(registrations_prefixed)) as [y|] eqn:E; [|by rewrite Hn in Hb].
      destruct (Hs b y E) as (k & t' & Ek & ->). exists k, t'. split; [|done].
      rewrite (Hw _ y E k t' Ek eq_refl) in Hb. unfold registered_upto. rewrite Ek. by destruct (m <? t').
Qed.

(** *** All of it *)

(** The accounts, assets and registrations of the storage.  No version is older
    than the asset it is a balance of. *)
Record accounts_hold (nh : NonceHistories) (bh : BalanceHistories) (am : Assets) (reg : Registrations) (st : SledStorage) : Prop := {
  ah_nonces : nonces_refine nh st;
  ah_balances : balances_refine bh st;
  ah_assets : assets_refine am st;
  ah_registrations : registrations_refine reg st;
  ah_nonce_keys : keyed as_bytes st.(nonces);
  ah_balance_keys : keyed balance_key st.(balances);
  ah_registered k a t v : (t, v) ∈ bh (k, a) -> exists d, am a = Some d /\ d.(asset_topoheight) <= t;
}.

(** What they do not contain. *)
Definition chain_part (st : SledStorage) :=
  (st.(mainnet), st.(topo_by_hash), st.(hash_at_topo), st.(txs_executed), st.(tx_blocks), st.(assets_count), st.(block_trees)).

Lemma keyed_less {K} (kb : K -> list byte) t t' :
  keyed kb t -> (forall b, tree_get b t = None -> tree_get b t' = None) -> keyed kb t'.
Proof. intros Hk Hn b x Hb. destruct (tree_get b t) as [y|] eqn:E; [by eapply Hk|]. by rewrite Hn in Hb. Qed.

Lemma assets_frame am st st' : st'.(assets) = st.(assets) -> assets_refine am st -> assets_refine am st'.
Proof. intros E [A1 A2 A3]. split; [by rewrite E|by rewrite E|exact A3]. Qed.
Lemma registrations_frame reg st st' :
  registration_part st' = registration_part st -> registrations_refine reg st -> registrations_refine reg st'.
Proof. intros E [R1 R2 R3]. injection E as Eg Ep. split; [by rewrite Eg|by rewrite Ep|by rewrite Ep]. Qed.

Lemma clean_above_run p m nh bh am reg st :
  accounts_hold nh bh am reg st -> p <= m -> (forall k t, top (nh k) = Some t -> p <= t) ->
  exists st', clean_above p m st = (Ok tt, st') /\
    accounts_hold (fun k => upto m (nh k)) (fun ka => upto m (bh ka)) (assets_upto m am) (registered_upto m reg) st' /\
    chain_part st' = chain_part st.
Proof.
  intros [Hn Hb Ha Hr Hnk Hbk Hreg] Hpm Hp.
  destruct (clean_assets_run m am st Ha) as (deleted & ta & Ra & Ha1 & Hdel). set (st1 := with_assets ta st) in *.
  destruct (clean_nonces_run p m nh st1 Hn Hnk Hp) as (st2 & Rn & (C2 & O2 & G2 & B2) & V2 & N2 & P2).
  assert (balances_refine bh st2 /\ st2.(balances) = st.(balances)) as [Hb2 Eb2].
  { unfold balances_refine. injection B2 as -> ->. done. }
  assert (assets_refine (assets_upto m am) st2) as Ha2.
  { injection O2 as _ _ _ _ _ Ea _ _. exact (assets_frame _ st1 st2 Ea Ha1). }
  assert (registrations_refine reg st2) as Hr2.
  { apply (registrations_frame reg st1 st2 G2). exact (registrations_frame reg st st1 eq_refl Hr). }
  assert (forall k a, bh (k, a) <> [] ->
    if decide (a ∈ deleted) then upto m (bh (k, a)) = [] else registered a st2) as Hcase.
  { intros k a Hne. case_decide as Hin.
    - apply Hdel in Hin as (d & Ed & Hm). apply upto_none. intros t v Htv. destruct (Hreg k a t v Htv) as (d' & Ed' & ?).
      rewrite Ed in Ed'. injection Ed' as ->. lia.
    - destruct (bh (k, a)) as [|[t v] h] eqn:E; [done|]. destruct (Hreg k a t v) as (d & Ed & _); [rewrite E; left|].
      apply tree_contains_get. rewrite (as_get _ _ Ha2). unfold assets_upto. rewrite Ed.
      destruct (Z.ltb_spec m d.(asset_topoheight)); [|by eexists]. destruct Hin. apply Hdel. by exists d. }
  rewrite <- Eb2 in Hbk.
  destruct (clean_balances_run p m bh deleted st2 Hb2 Hbk Hpm Hcase) as (tb & Rb & N3 & P3). set (st3 := with_balances tb st2) in *.
  destruct (balances_above_refine m bh st2 st3 Hb2 eq_refl P3) as (tv & Rv & Hb4).
  set (st4 := with_versioned_balances tv st3) in *.
  destruct (nonces_above_refine m nh st1 st4 Hn C2 V2 P2) as (tn & Rw & Hn5). set (st5 := with_versioned_nonces tn st4) in *.
  destruct (registrations_above_refine m reg st5 (registrations_frame reg st2 st5 eq_refl Hr2)) as (tr & tp & Rr & Hr6). set (st6 := with_registrations tr tp st5) in *.
  exists st6. split; [|split].
  - unfold clean_above. erewrite stm_bind_run by reflexivity. erewrite stm_bind_run by exact Ra.
    erewrite stm_bind_run by reflexivity. erewrite stm_bind_run by exact Rn.
    erewrite stm_bind_run by reflexivity. erewrite stm_bind_run by exact Rb.
    erewrite stm_bind_run by exact Rv. erewrite stm_bind_run by exact Rw. exact Rr.
  - split; [exact Hn5|exact Hb4|exact (assets_frame _ st2 st6 eq_refl Ha2)|exact Hr6|by eapply keyed_less|by eapply keyed_less|].
    intros k a t v [Hle Hin]%elem_of_upto. destruct (Hreg k a t v Hin) as (d & Ed & Hd). exists d. split; [|done].
    unfold assets_upto. rewrite Ed. by destruct (Z.ltb_spec m d.(asset_topoheight)); [lia|].
  - injection O2 as E1 E2 E3 E4 E5 _ E7 E8. unfold chain_part. cbn.
    by rewrite E1, E2, E3, E4, E5, E7, E8.
Qed.
End Clean.

(** ** Deleting a block, what it keeps *)
Section Keep.
Context {CV : Curve} {ML : Merlin} {RP : RangeProofLib} {SL : SledLib} {HM : HashMapIter} {UL : U256Lib} {IS : IndexSetLib Hash}.
#[local] Existing Instance hash_set_Serializer.

Lemma hash_set_readable (s : gset Hash) : from_bytes (to_bytes s) = Ok s.
Proof.
  assert (to_bytes s = concat_bytes hash_bytes (hs_iter s)) as ->.
  { unfold to_bytes. cbn [write hash_set_Serializer]. by rewrite hashset_write_append. }
  unfold from_bytes. rewrite reader_new_at. cbn [read hash_set_Serializer]. unfold hashset_read.
  assert (length (concat_bytes hash_bytes (hs_iter s)) = (length (hs_iter s) * HASH_SIZE)%nat) as El.
  { induction (hs_iter s) as [|h l IH]; [done|]. rewrite concat_bytes_cons, length_app, IH, length_hash_bytes. cbn [length]. unfold HASH_SIZE. lia. }
  assert (Reader.total_size (reader_at [] (concat_bytes hash_bytes (hs_iter s))) = (length (hs_iter s) * HASH_SIZE)%nat) as ->.
  { unfold Reader.total_size. cbn. by rewrite El. }
  rewrite Nat.Div0.mod_mul, Nat.div_mul by done. rewrite bool_decide_eq_false_2 by lia.
  pose proof (read_hash_set_run hs_iter (hs_iter s) ∅ [] []) as Hr. rewrite app_nil_r in Hr.
  unfold mbind at 2, rd_bind. rewrite Hr. cbn [res_bind mbind].
  assert (list_to_set (hs_iter s) ∪ ∅ = s) as ->.
  { apply set_eq. intros x. rewrite elem_of_union, elem_of_list_to_set, hs_iter_spec, elem_of_elements. set_solver. }
  rewrite bool_decide_eq_false_2; [done|]. intros Hn. apply Hn. by rewrite hs_iter_spec.
Qed.

Definition all_links_readable (st : SledStorage) : Prop :=
  forall h b, tree_get (hash_bytes h) st.(tx_blocks) = Some b -> exists s : gset Hash, from_bytes b = Ok s.

(** What a deleted block does not touch. *)
Definition kept_part (st : SledStorage) :=
  (st.(mainnet), st.(extra), st.(assets), st.(assets_count), registration_part st, nonce_part st, balance_part st,
   st.(block_trees).(blocks_count), st.(block_trees).(tips_cache)).
Definition kept (st0 st : SledStorage) : Prop := kept_part st = kept_part st0 /\ all_links_readable st.

Lemma on_tree_kept {A} get put (m : stm tree blockchain_error A) st0 :
  (forall t st, kept_part (put t st) = kept_part st) -> (forall t st, (put t st).(tx_blocks) = st.(tx_blocks)) ->
  always (kept st0) (on_tree get put m).
Proof.
  intros Hk Hl st [H1 H2]. unfold on_tree. destruct (m (get st)) as [r t]. split; [by rewrite <- H1, <- (Hk t st)|].
  intros h b. cbn [snd]. rewrite Hl. apply H2.
Qed.

Lemma modify_kept (f : SledStorage -> SledStorage) st0 :
  (forall st, kept_part (f st) = kept_part st) -> (forall st, (f st).(tx_blocks) = st.(tx_blocks)) ->
  always (kept st0) (st_modify f : stm SledStorage blockchain_error ()).
Proof.
  intros Hk Hl st [H1 H2]. split; [by rewrite <- H1, <- (Hk st)|]. intros h b. cbn [snd st_modify]. rewrite Hl. apply H2.
Qed.

Lemma unlink_kept hash h st0 : always (kept st0) (unlink_tx hash h).
Proof.
  unfold unlink_tx. intros st [H1 H2]. unfold has_tx_blocks, mbind, stm_bind, st_get, lift_res, tree_contains.
  destruct (tree_get (hash_bytes h) (tx_blocks st)) as [b|]; [|by split].
  unfold on_tx_blocks, on_tree, delete_cacheable_data. pose proof (fun k => tree_get_remove_ne (hash_bytes h) k st.(tx_blocks)) as Hn.
  pose proof (tree_get_remove (hash_bytes h) st.(tx_blocks)) as Hg.
  destruct (tree_remove (hash_bytes h) (tx_blocks st)) as [[o|] t]; cbn [snd] in *.
  - assert (all_links_readable (with_tx_blocks t st)) as Ht.
    { intros h' b'. cbn. destruct (decide (h' = h)) as [->|Hne]; [by rewrite Hg|].
      rewrite Hn by by intros ?%hash_bytes_inj. apply H2. }
    destruct (map_err BlockchainError.ErrorOnReader (from_bytes o)) as [s| | |]; cbn [snd st_modify]; try by split.
    split; [done|]. intros h' b'. cbn -[to_bytes]. destruct (decide (h' = h)) as [->|Hne].
    + rewrite tree_get_insert. intros [= <-]. eexists. apply hash_set_readable.
    + rewrite tree_get_insert_ne by by intros ?%hash_bytes_inj. apply Ht.
  - split; [done|]. intros h' b'. cbn. destruct (decide (h' = h)) as [->|Hne]; [by rewrite Hg|].
    rewrite Hn by by intros ?%hash_bytes_inj. apply H2.
Qed.

Lemma delete_block_kept topo st0 : always (kept st0) (delete_block_at_topoheight topo).
Proof.
  unfold delete_block_at_topoheight.
  do 7 (apply always_bind; [by apply on_tree_kept|intros ?]).
  apply always_bind.
  { apply always_foldMs. intros acc h _. unfold delete_block_tx.
    apply always_bind; [apply unlink_kept|intros _]. apply always_bind.
    { unfold unexecute_tx. apply always_bind; [by intros st|intros s1]. apply always_bind; [apply always_lift|intros [|]]; [|by intros st].
      by apply modify_kept. }
    intros _. apply always_bind; [by intros st|intros s1]. apply always_bind; [apply always_lift|intros [|]]; [|by intros st].
    apply always_bind; [by apply on_tree_kept|by intros tx st]. }
  intros txs. apply always_bind; [by intros st|intros s1]. apply always_bind; [apply always_lift|intros b].
  apply always_bind; [|by intros ? st]. destruct b; [|by intros st].
  unfold remove_block_hash_at_height. apply always_bind; [by intros st|intros s2]. apply always_bind; [apply always_lift|intros tips].
  cbn zeta. destruct (iset_is_empty _); by apply modify_kept.
Qed.
End Keep.

(** ** The loop *)
Section Loop.
Context {CV : Curve} {ML : Merlin} {RP : RangeProofLib} {SL : SledLib} {HM : HashMapIter} {UL : U256Lib} {IS : IndexSetLib Hash}.
#[local] Existing Instance hash_set_Serializer.

Abbreviation hashes b := (iset_list b.(bh_txs_hashes)).

(** The content without the blocks of [l], which go in this order. *)
Definition rewound_view (v : DagView) (l : list (Hash * BlockHeader)) : DagView := foldl (fun v hb => remove_block hb.1 v) v l.
Definition rewound_txs (txs : tx_store) (l : list (Hash * BlockHeader)) : tx_store :=
  foldl (fun txs hb => foldl remove_tx txs (hashes hb.2)) txs l.
Fixpoint removed_txs (txs : tx_store) (l : list (Hash * BlockHeader)) : list (Hash * Transaction) :=
  match l with
  | [] => []
  | hb :: l => stored_txs txs (hashes hb.2) ++ removed_txs (foldl remove_tx txs (hashes hb.2)) l
  end.
Definition rewound_tips (tips : gset Hash) (l : list (Hash * BlockHeader)) : gset Hash :=
  foldl (fun tips hb => tips ∖ {[hb.1]} ∪ list_to_set (iset_list hb.2.(bh_tips))) tips l.
Definition rewound_height (height : Z) (l : list (Hash * BlockHeader)) : Z :=
  foldl (fun height hb => if hb.2.(bh_height) <? height then hb.2.(bh_height) else height) height l.

(** The blocks above [m], up to the top [c], can be removed. *)
Record rewindable (v : DagView) (m c : Z) (st : SledStorage) : Prop := {
  rw_ordered t : m < t <= c -> exists h supply reward, v.(v_topo) h = Some t /\
    get_supply_at_topo_height t st = Ok supply /\ get_block_reward_at_topo_height t st = Ok reward;
  rw_top h t : v.(v_topo) h = Some t -> t <= c;
  rw_child h t x : v.(v_topo) h = Some t -> m < t -> stored v x -> h ∈ v_tips v x ->
    exists t', v.(v_topo) x = Some t' /\ t < t';
  rw_height h t : v.(v_topo) h = Some t -> m < t -> 0 < v_height v h;
  rw_links : all_links_readable st;
}.

Lemma pop_step v txs m c st :
  blocks_hold v txs st -> rewindable v m c st -> m < c ->
  exists h b st', v.(v_topo) h = Some c /\ v.(v_header) h = Some b /\
    delete_block_at_topoheight c st = (Ok (h, b, stored_txs txs (hashes b)), st') /\
    blocks_hold (remove_block h v) (foldl remove_tx txs (hashes b)) st' /\
    rewindable (remove_block h v) m (c - 1) st' /\ kept_part st' = kept_part st.
Proof.
  intros Hst [Ho Ht Hc Hh Hl] Hm. destruct (Ho c) as (h & supply & reward & Eh & Es & Er); [lia|].
  pose proof (hold_wf _ _ _ Hst) as Hwf. destruct (view_topo_stored _ Hwf h c Eh) as [[b Hb] Hu].
  assert (forall x, stored v x -> h ∉ v_tips v x) as Hleaf.
  { intros x Hx Hin. destruct (Hc h c x Eh Hm Hx Hin) as (t' & Et & ?). specialize (Ht x t' Et). lia. }
  assert (links_readable (hashes b) st) as Hlb by (intros h' b' _; apply Hl).
  destruct (delete_block_run v txs st Hst h b c supply reward Hb Eh Es Er Hlb)
    as (st' & t & tx & s & Hrun & Htx & Hin & Et & Eo & Eb & Etop & Eat).
  exists h, b, st'. split; [done|]. split; [done|]. split; [done|].
  split; [by eapply delete_block_hold|].
  assert (kept st st') as [Hk Hl'].
  { pose proof (delete_block_kept c st st (conj eq_refl Hl)) as H. by rewrite Hrun in H. }
  split; [|done].
  assert (forall h' t', h' <> h -> v.(v_topo) h' = Some t' -> t' <> c) as Hother.
  { intros h' t' Hne E. by eapply other_place. }
  split.
  - intros t' Ht'. destruct (Ho t') as (h' & s' & r' & E' & Es' & Er'); [lia|].
    assert (h' <> h) as Hne by (intros ->; rewrite Eh in E'; injection E'; lia).
    exists h', s', r'. split; [by cbn; rewrite fn_upd_ne|].
    destruct (view_topo_stored _ Hwf h' t' E') as [_ Hu'].
    unfold get_supply_at_topo_height, get_block_reward_at_topo_height, load_from_disk in *. rewrite Eb.
    cbn [without_block on_trees with_block_trees block_trees put_blocks_at_height put_transactions put_cumulative_difficulty
      put_difficulty put_rewards put_supply put_blocks with_order t_supply t_rewards].
    assert (be_bytes 8 c <> be_bytes 8 t') by (intros ?%be8_inj; [lia|done..]). by rewrite !tree_get_remove_ne.
  - intros h' t'. cbn. destruct (decide (h' = h)) as [->|Hne]; [by rewrite fn_upd_eq|]. rewrite fn_upd_ne by done.
    intros E. pose proof (Ht h' t' E). pose proof (Hother h' t' Hne E). lia.
  - intros h' t' x. cbn [v_topo remove_block]. destruct (decide (h' = h)) as [->|Hne]; [by rewrite fn_upd_eq|]. rewrite fn_upd_ne by done.
    intros E Hmt [Hxn Hx]%remove_stored. rewrite remove_tips by done. intros Hin'. rewrite fn_upd_ne by done. by eapply Hc.
  - intros h' t'. cbn [v_topo remove_block]. destruct (decide (h' = h)) as [->|Hne]; [by rewrite fn_upd_eq|]. rewrite fn_upd_ne by done.
    rewrite remove_height by done. apply Hh.
  - exact Hl'.
Qed.

Lemma pop_loop_run fuel pruned lowest stable m n v txs st p :
  blocks_hold v txs st -> rewindable v m (m + Z.of_nat n) st -> (n <= fuel)%nat ->
  pruned <= m -> 0 <= m -> in_u 64 (m + Z.of_nat n) -> in_u 64 (p.(pop_done) + Z.of_nat n) -> 0 <= p.(pop_done) ->
  m <= lowest \/ m <= stable -> ((0 < n)%nat -> lowest <= m /\ stable <= m /\ 0 < p.(pop_height)) ->
  p.(pop_topoheight) = m + Z.of_nat n ->
  exists l st', pop_loop fuel pruned lowest stable p st =
      (Ok (mkPopped (rewound_height p.(pop_height) l) m (rewound_tips p.(pop_tips) l) (p.(pop_txs) ++ removed_txs txs l)
             (p.(pop_done) + Z.of_nat n)), st') /\
    length l = n /\
    (forall i hb, l !! i = Some hb -> v.(v_topo) hb.1 = Some (m + Z.of_nat n - Z.of_nat i) /\ v.(v_header) hb.1 = Some hb.2) /\
    blocks_hold (rewound_view v l) (rewound_txs txs l) st' /\ kept_part st' = kept_part st /\ all_links_readable st'.
Proof.
  intros Hst Hrw Hf Hpr Hm Hu Hud Hd Hstop. revert fuel v txs st p Hst Hrw Hf Hu Hud Hd.
  induction n as [|n IH]; intros fuel v txs st p Hst Hrw Hf Hu Hud Hd Hgo Hp.
  - rewrite Z.add_0_r in Hp. exists [], st. split.
    + destruct p as [ph pt ptips ptxs pd]. cbn [pop_topoheight] in Hp. subst pt.
      assert ((m <=? lowest) || (m <=? stable) || (ph =? 0) = true) as Hs.
      { apply orb_true_iff. left. apply orb_true_iff. destruct Hstop; [left|right]; by apply Z.leb_le. }
      destruct fuel; cbn [pop_loop pop_topoheight pop_height]; rewrite Hs; cbn; by rewrite app_nil_r, Z.add_0_r.
    + split_and!; [done| |done|done|apply Hrw]. by intros i hb.
  - destruct fuel as [|fuel]; [lia|]. destruct (Hgo ltac:(lia)) as (Hlo & Hsta & Hph).
    destruct (pop_step v txs m _ st Hst Hrw ltac:(lia)) as (h & b & st1 & Eh & Eb & Hrun & Hst1 & Hrw1 & Hk1).
    replace (m + Z.of_nat (Datatypes.S n) - 1) with (m + Z.of_nat n) in Hrw1 by lia.
    assert (0 < bh_height b) as Hbh.
    { pose proof (rw_height _ _ _ _ Hrw h _ Eh ltac:(lia)) as Hpos. unfold v_height in Hpos. by rewrite Eb in Hpos. }
    set (height := if b.(bh_height) <? p.(pop_height) then b.(bh_height) else p.(pop_height)).
    destruct (IH fuel (remove_block h v) (foldl remove_tx txs (hashes b)) st1 (mkPopped height (m + Z.of_nat n) (p.(pop_tips) ∖ {[h]} ∪ list_to_set (iset_list b.(bh_tips)))
      (p.(pop_txs) ++ stored_txs txs (hashes b)) (p.(pop_done) + 1))) as (l & st' & Hr & Hlen & Hin & Hst' & Hk' & Hl');
      cbn [pop_height pop_topoheight pop_tips pop_txs pop_done]; [done|done|lia|unfold in_u in *; lia|unfold in_u in *; lia|lia| |done|].
    { intros _. split_and!; [done|done|]. unfold height. destruct (Z.ltb_spec b.(bh_height) p.(pop_height)); lia. }
    exists ((h, b) :: l), st'. split; [|split_and!; [by rewrite <- Hlen| |done|by rewrite Hk'|done]].
    + cbn [pop_loop]. rewrite Hp.
      assert ((m + Z.of_nat (Datatypes.S n) <=? lowest) || (m + Z.of_nat (Datatypes.S n) <=? stable) || (p.(pop_height) =? 0) = false) as ->.
      { rewrite !orb_false_iff, !Z.leb_gt, Z.eqb_neq. lia. }
      erewrite stm_bind_run by exact Hrun. destruct (Z.leb_spec (m + Z.of_nat (Datatypes.S n)) pruned); [lia|].
      unfold u64_sub. rewrite (wrap_small 64) by (unfold in_u in *; lia).
      unfold u64_add. rewrite (wrap_small 64) by (unfold in_u in *; lia).
      replace (m + Z.of_nat (Datatypes.S n) - 1) with (m + Z.of_nat n) by lia.
      etrans; [exact Hr|].
      cbn [pop_height pop_topoheight pop_tips pop_txs pop_done]. do 2 f_equal.
      unfold rewound_height, rewound_tips. cbn [foldl removed_txs fst snd]. rewrite <- (assoc_L (++)). f_equal. lia.
    + intros [|i] hb.
      * intros [= <-]. cbn [fst snd]. split; [by rewrite Z.sub_0_r|done].
      * intros Hi. destruct (Hin i hb Hi) as [E1 E2]. cbn [v_topo v_header remove_block] in E1, E2.
        destruct (decide (hb.1 = h)) as [E|Hne]; [by rewrite E, fn_upd_eq in E2|]. rewrite fn_upd_ne in E1 by done. rewrite fn_upd_ne in E2 by done.
        split; [|done]. rewrite E1. f_equal. lia.
Qed.
End Loop.

(** ** What the loop removed *)
Section Removed.
Context {CV : Curve} {ML : Merlin} {RP : RangeProofLib} {SL : SledLib} {HM : HashMapIter} {UL : U256Lib} {IS : IndexSetLib Hash}.
#[local] Existing Instance hash_set_Serializer.

Abbreviation hashes b := (iset_list b.(bh_txs_hashes)).

(** The transactions of some blocks. *)
Definition txs_in (l : list (Hash * BlockHeader)) : list Hash := l ≫= (fun hb => hashes hb.2).

Lemma rewound_view_lookup v l :
  (forall h, v_header (rewound_view v l) h = if decide (h ∈ l.*1) then None else v.(v_header) h) /\
  (forall h, v_topo (rewound_view v l) h = if decide (h ∈ l.*1) then None else v.(v_topo) h) /\
  v_difficulty (rewound_view v l) = v.(v_difficulty) /\ v_cumulative (rewound_view v l) = v.(v_cumulative) /\
  v_pruned (rewound_view v l) = v.(v_pruned).
Proof.
  revert v. induction l as [|[h0 b] l IH]; intros v; [by split_and!|].
  destruct (IH (remove_block h0 v)) as (E1 & E2 & E3). unfold rewound_view in *. cbn [foldl fst] in *.
  assert (forall {A} (f : Hash -> option A) h, (if decide (h ∈ l.*1) then None else fn_upd h0 None f h) =
    if decide (h ∈ ((h0, b) :: l).*1) then None else f h) as Hup.
  { intros A f h. csimpl. destruct (decide (h = h0)) as [->|Hne].
    - rewrite fn_upd_eq, (decide_True (P:=h0 ∈ h0 :: _)) by left. by case_decide.
    - rewrite fn_upd_ne by done. apply decide_ext. rewrite list.elem_of_cons. naive_solver. }
  split; [intros h; by rewrite E1, <- Hup|]. split; [intros h; by rewrite E2, <- Hup|exact E3].
Qed.

Lemma remove_txs_lookup txs l h : foldl remove_tx txs l h = if decide (h ∈ l) then None else txs h.
Proof.
  revert txs. induction l as [|x l IH]; intros txs; [done|]. cbn [foldl]. rewrite IH. unfold remove_tx.
  destruct (decide (h = x)) as [->|Hne].
  - rewrite fn_upd_eq, (decide_True (P:=x ∈ x :: l)) by left. by case_decide.
  - rewrite fn_upd_ne by done. apply decide_ext. rewrite list.elem_of_cons. naive_solver.
Qed.

Lemma rewound_txs_lookup txs l h : rewound_txs txs l h = if decide (h ∈ txs_in l) then None else txs h.
Proof.
  revert txs. induction l as [|hb l IH]; intros txs; [done|]. unfold rewound_txs in *. cbn [foldl]. rewrite IH, remove_txs_lookup.
  unfold txs_in. cbn [mbind list_bind]. repeat case_decide; set_solver.
Qed.

Lemma stored_txs_elem txs l h tx : (h, tx) ∈ stored_txs txs l <-> h ∈ l /\ txs h = Some tx.
Proof.
  unfold stored_txs. rewrite list_elem_of_omap. split.
  - intros (h' & Hin & E). destruct (txs h') as [tx'|] eqn:Et; [|done]. by injection E as -> ->.
  - intros [Hin E]. exists h. by rewrite E.
Qed.

Lemma removed_txs_elem txs l h tx : (h, tx) ∈ removed_txs txs l <-> h ∈ txs_in l /\ txs h = Some tx.
Proof.
  revert txs. induction l as [|hb l IH]; intros txs; cbn [removed_txs].
  - split; [by intros ?%not_elem_of_nil|by intros [?%not_elem_of_nil _]].
  - unfold txs_in. cbn [mbind list_bind]. rewrite !list.elem_of_app, IH, stored_txs_elem, remove_txs_lookup. fold (txs_in l).
    case_decide; naive_solver.
Qed.

Lemma stored_txs_NoDup txs l : NoDup l -> NoDup (stored_txs txs l).*1.
Proof.
  intros Hnd. eapply sublist_NoDup; [exact Hnd|]. clear. unfold stored_txs. induction l as [|h l IH]; [done|].
  cbn [omap list_omap]. destruct (txs h); csimpl; by constructor.
Qed.
Lemma removed_txs_NoDup txs l : NoDup (removed_txs txs l).*1.
Proof.
  revert txs. induction l as [|hb l IH]; intros txs; cbn [removed_txs]; [constructor|].
  rewrite fmap_app. apply list.NoDup_app. split; [apply stored_txs_NoDup, iset_NoDup|]. split; [|apply IH].
  intros h H1 H2. apply list_elem_of_fmap in H1 as ([h1 tx1] & -> & H1). apply stored_txs_elem in H1 as [Hin _].
  apply list_elem_of_fmap in H2 as ([h2 tx2] & Eh & H2). apply removed_txs_elem in H2 as [_ E]. cbn [fst] in *. subst h2. by rewrite remove_txs_lookup, decide_True in E.
Qed.

(** A block goes before those it has as tips. *)
Definition parents_later (l : list (Hash * BlockHeader)) : Prop :=
  forall i j hb hb', l !! i = Some hb -> l !! j = Some hb' -> hb'.1 ∈ iset_list hb.2.(bh_tips) -> (i < j)%nat.
Lemma rewound_tips_elem tips l h :
  parents_later l ->
  h ∈ rewound_tips tips l <-> (h ∉ l.*1) /\ (h ∈ tips \/ exists hb, hb ∈ l /\ h ∈ iset_list hb.2.(bh_tips)).
Proof.
  revert tips. induction l as [|[h0 b] l IH]; intros tips Hl.
  - split; [intros Hin; split; [apply not_elem_of_nil|by left]|].
    intros [_ [Hin|(hb & ?%not_elem_of_nil & _)]]; done.
  - unfold rewound_tips in *. cbn [foldl fst snd]. rewrite IH.
    2: { intros i j hb hb' Hi Hj Hin. specialize (Hl (Datatypes.S i) (Datatypes.S j) hb hb' Hi Hj Hin). lia. }
    assert (h0 ∉ iset_list b.(bh_tips)) as H0.
    { intros Hin. specialize (Hl 0%nat 0%nat (h0, b) (h0, b) eq_refl eq_refl Hin). lia. }
    assert (forall hb, hb ∈ l -> h0 ∉ iset_list hb.2.(bh_tips)) as H1.
    { intros hb [j Hj]%list_elem_of_lookup_1 Hin. specialize (Hl (Datatypes.S j) 0%nat hb (h0, b) Hj eq_refl Hin). lia. }
    csimpl. rewrite elem_of_union, elem_of_difference, elem_of_singleton, elem_of_list_to_set, list.elem_of_cons.
    split.
    + intros (Hn & [[[Ht Hne]|Hb]|(hb & Hhb & Hin)]).
      * split; [tauto|by left].
      * split; [intros [->|?]; done|]. right. exists (h0, b). split; [left|done].
      * split; [intros [->|?]; [by eapply H1|done]|]. right. exists hb. split; [by right|done].
    + intros (Hn & [Ht|(hb & Hhb & Hin)]); [|apply list.elem_of_cons in Hhb as [->|Hhb]].
      * split; [tauto|]. left. left. tauto.
      * split; [tauto|]. left. by right.
      * split; [tauto|]. right. by exists hb.
Qed.

Lemma rewound_height_spec height l :
  let h' := rewound_height height l in
  h' <= height /\ (forall hb, hb ∈ l -> h' <= hb.2.(bh_height)) /\
  (h' = height \/ exists hb, hb ∈ l /\ h' = hb.2.(bh_height)).
Proof.
  cbn zeta. revert height. induction l as [|hb l IH]; intros height.
  - split; [done|]. split; [by intros hb ?%not_elem_of_nil|by left].
  - unfold rewound_height in *. cbn [foldl]. set (n := if hb.2.(bh_height) <? height then hb.2.(bh_height) else height).
    assert (n <= height /\ n <= hb.2.(bh_height) /\ (n = height \/ n = hb.2.(bh_height))) as (H1 & H2 & H3).
    { unfold n. destruct (Z.ltb_spec hb.2.(bh_height) height); lia. }
    destruct (IH n) as (H4 & H5 & H6). split; [lia|]. split.
    + intros hb' [->|Hin]%list.elem_of_cons; [lia|by apply H5].
    + destruct H6 as [E|(hb' & Hin & E)]; [|right; exists hb'; split; [by right|done]].
      destruct H3 as [E3|E3]; [left; lia|]. right. exists hb. split; [left|lia].
Qed.

Lemma drop_orphaned_run v txs st tips l :
  blocks_hold v txs st ->
  exists tips', foldMs drop_orphaned_tip tips l st = (Ok tips', st) /\
    forall h, h ∈ tips' <-> h ∈ tips /\ (h ∈ l -> is_Some (v.(v_topo) h)).
Proof.
  intros Hst. revert tips. induction l as [|x l IH]; intros tips; cbn [foldMs].
  { exists tips. split; [done|]. intros h. split; [intros ?; split; [done|by intros ?%not_elem_of_nil]|by intros [? _]]. }
  assert (Storage.is_block_topological_ordered x st = Ok (bool_decide (is_Some (v.(v_topo) x)))) as Hx.
  { destruct (v.(v_topo) x) as [t|] eqn:E.
    - destruct (hold_topo_read v txs st Hst x t E) as [_ Ho]. cbn in Ho. by rewrite Ho, bool_decide_eq_true_2 by by eexists.
    - pose proof (hold_unordered _ _ _ Hst x E) as Ho. cbn in Ho. by rewrite Ho, bool_decide_eq_false_2 by by intros [? ?]. }
  destruct (IH (if bool_decide (is_Some (v.(v_topo) x)) then tips else tips ∖ {[x]})) as (tips' & Hr & Hin).
  exists tips'. split.
  - erewrite stm_bind_run; [exact Hr|]. unfold drop_orphaned_tip, mbind, stm_bind, st_get, lift_res. by rewrite Hx.
  - intros h. rewrite Hin, list.elem_of_cons. case_bool_decide as Hs; [|rewrite elem_of_difference, elem_of_singleton].
    + split; [|naive_solver]. intros [H1 H2]. split; [done|]. intros [->|?]; [done|auto].
    + split; [|intros [H1 H2]; split; [split; [done|intros ->; apply Hs, H2; by left]|auto]].
      intros [[H1 Hne] H2]. split; [done|]. intros [->|?]; [done|auto].
Qed.
End Removed.

(** ** The whole of [pop_blocks] *)
Section Rewound.
Context {CV : Curve} {ML : Merlin} {RP : RangeProofLib} {SL : SledLib} {HM : HashMapIter} {UL : U256Lib} {IS : IndexSetLib Hash}.
#[local] Existing Instance hash_set_Serializer.

(** The blocks that go, and what is left of the blocks. *)
Definition popped (v : DagView) (m : Z) (h : Hash) : bool := match v.(v_topo) h with Some t => m <? t | None => false end.
Definition in_popped (v : DagView) (m : Z) (h : Hash) : Prop :=
  exists x b, popped v m x = true /\ v.(v_header) x = Some b /\ h ∈ iset_list b.(bh_txs_hashes).
Definition view_upto (m : Z) (v : DagView) : DagView :=
  mkView (fun h => if popped v m h then None else v.(v_header) h) (fun h => if popped v m h then None else v.(v_topo) h)
    v.(v_difficulty) v.(v_cumulative) v.(v_pruned).

(** What a rewind to the topoheight [m] leaves of the storage [st]. *)
Record rewound (v : DagView) (txs : tx_store) (nh : NonceHistories) (bh : BalanceHistories) (am : Assets) (reg : Registrations)
    (m count height : Z) (removed : list (Hash * Transaction)) (st st' : SledStorage) : Prop := {
  rd_blocks : exists txs', blocks_hold (view_upto m v) txs' st' /\
    forall h, (in_popped v m h /\ txs' h = None) \/ (~ in_popped v m h /\ txs' h = txs h);
  rd_removed h tx : (h, tx) ∈ removed <-> in_popped v m h /\ txs h = Some tx;
  rd_once : NoDup removed.*1;
  rd_accounts : accounts_hold (fun k => upto m (nh k)) (fun ka => upto m (bh ka)) (assets_upto m am) (registered_upto m reg) st';
  rd_tips h : h ∈ st'.(block_trees).(tips_cache) <-> popped v m h = false /\
    (h ∈ st.(block_trees).(tips_cache) /\ is_Some (v.(v_topo) h) \/ exists x, popped v m x = true /\ h ∈ v_tips v x);
  rd_tops : get_top_topoheight st' = Ok m /\ get_top_height st' = Ok height;
  rd_count : tree_get BLOCKS_COUNT st'.(extra) = Some (be_bytes 8 (u64_sub (count_blocks st) count)) /\
    count_blocks st' = count_blocks st;
}.

(** The top height after the rewind: the least of the heights of the removed
    blocks. *)
Definition popped_height (v : DagView) (m height height' : Z) : Prop :=
  height' <= height /\ (forall x, popped v m x = true -> height' <= v_height v x) /\
  (height' = height \/ exists x, popped v m x = true /\ height' = v_height v x).

Lemma view_ext v v' txs st :
  (forall h, v'.(v_header) h = v.(v_header) h) -> (forall h, v'.(v_topo) h = v.(v_topo) h) ->
  v'.(v_difficulty) = v.(v_difficulty) -> v'.(v_cumulative) = v.(v_cumulative) -> v'.(v_pruned) = v.(v_pruned) ->
  blocks_hold v txs st -> blocks_hold v' txs st.
Proof.
  intros Eh Et Ed Ec Ep Hst.
  assert (forall h, stored v' h <-> stored v h) as Hs by (intros h; unfold stored; by rewrite Eh).
  assert (forall h, v_height v' h = v_height v h) as Hh by (intros h; unfold v_height; by rewrite Eh).
  assert (forall h, v_tips v' h = v_tips v h) as Ht by (intros h; unfold v_tips; by rewrite Eh).
  pose proof (hold_wf _ _ _ Hst) as [W1 W2 W3 W4 W5]. split.
  - split.
    + intros h ?%Hs. rewrite Hh. by apply W1.
    + intros h t ?%Hs. rewrite Ht. intros ?. apply Hs. by eapply W2.
    + intros h t ?%Hs. rewrite Ht, !Hh. by apply W3.
    + intros h ?%Hs. rewrite Hh, Ht. intros Hz. destruct (W4 h) as (t & ? & ?); [done..|]. exists t. by rewrite Hh.
    + intros h t. rewrite Et, Hs. apply W5.
  - intros h. rewrite Eh. apply Hst.
  - intros h b. rewrite Eh. by eapply hold_header_wf.
  - apply Hst.
  - by eapply hold_tx_wf.
  - intros h ?%Hs. rewrite Ed. by eapply hold_difficulty.
  - intros h ?%Hs. rewrite Ec. by eapply hold_cumulative.
  - intros z Hz. destruct (hold_at_height _ _ _ Hst z Hz) as (s & E & Hin). exists s. split; [done|].
    intros h. by rewrite Hin, Hs, Hh.
  - intros h t. rewrite Et. apply Hst.
  - intros h. rewrite Et. by eapply hold_unordered.
  - rewrite Ep. apply Hst.
Qed.

Lemma hold_chain_part v txs st st' : chain_part st' = chain_part st -> blocks_hold v txs st -> blocks_hold v txs st'.
Proof.
  intros E []. injection E as _ Et Eh _ _ _ Eb.
  split; cbn [is_block_topological_ordered sled_order] in *; unfold Storage.is_block_topological_ordered,
    Storage.get_topo_height_for_hash, Storage.get_hash_at_topo_height in *; by rewrite ?Eb, ?Et, ?Eh.
Qed.

Section Popped.
Context (v : DagView) (txs : tx_store) (st : SledStorage) (Hst : blocks_hold v txs st).
Context (m T : Z) (n : nat) (HT : T = m + Z.of_nat n) (Hrw : rewindable v m T st).
Context (l : list (Hash * BlockHeader)) (Hlen : length l = n).
Context (Hl : forall i hb, l !! i = Some hb -> v.(v_topo) hb.1 = Some (T - Z.of_nat i) /\ v.(v_header) hb.1 = Some hb.2).

(** Two blocks do not have one place. *)
Lemma place_inj h h' t : v.(v_topo) h = Some t -> v.(v_topo) h' = Some t -> h = h'.
Proof using Hst.
  intros E E'. destruct (hold_topo _ _ _ Hst h t E) as [_ G]. destruct (hold_topo _ _ _ Hst h' t E') as [_ G'].
  rewrite G in G'. injection G' as G'. by apply hash_bytes_inj in G'.
Qed.

Lemma popped_elem h b : (h, b) ∈ l <-> popped v m h = true /\ v.(v_header) h = Some b.
Proof using Hst HT Hrw Hlen Hl.
  unfold popped. split.
  - intros [i Hi]%list_elem_of_lookup_1. destruct (Hl i _ Hi) as [E1 E2]. cbn [fst snd] in *. rewrite E1. split; [|done].
    apply lookup_lt_Some in Hi. apply Z.ltb_lt. lia.
  - intros [Hp Hb]. destruct (v.(v_topo) h) as [t|] eqn:Et; [|done]. apply Z.ltb_lt in Hp.
    pose proof (rw_top _ _ _ _ Hrw h t Et) as Hle. destruct (lookup_lt_is_Some_2 l (Z.to_nat (T - t))) as [[h' b'] Hi]; [lia|].
    destruct (Hl _ _ Hi) as [E1 E2]. cbn [fst snd] in *. rewrite Z2Nat.id in E1 by lia.
    replace (T - (T - t)) with t in E1 by lia. assert (h' = h) as -> by by eapply place_inj.
    assert (b' = b) as -> by congruence. by eapply list_elem_of_lookup_2.
Qed.

Lemma popped_hashes h : h ∈ l.*1 <-> popped v m h = true.
Proof using Hst HT Hrw Hlen Hl.
  rewrite list_elem_of_fmap. split.
  - intros ([h' b] & -> & [Hp _]%popped_elem). done.
  - intros Hp. assert (exists t, v.(v_topo) h = Some t) as [t Et].
    { unfold popped in Hp. destruct (v.(v_topo) h) as [t|]; [by exists t|done]. }
    destruct (view_topo_stored _ (hold_wf _ _ _ Hst) h t Et) as [[b Hb] _]. exists (h, b). split; [done|]. by apply popped_elem.
Qed.

Lemma popped_txs h : h ∈ txs_in l <-> in_popped v m h.
Proof using Hst HT Hrw Hlen Hl.
  unfold txs_in, in_popped. rewrite list_elem_of_bind. split.
  - intros ([x b] & Hin & [Hp Hb]%popped_elem). by exists x, b.
  - intros (x & b & Hp & Hb & Hin). exists (x, b). split; [done|]. by apply popped_elem.
Qed.

Lemma popped_parents : parents_later l.
Proof using Hst HT Hrw Hlen Hl.
  intros i j hb hb' Hi Hj Hin. destruct (Hl i hb Hi) as [Ei Eb]. destruct (Hl j hb' Hj) as [Ej Eb'].
  apply lookup_lt_Some in Hj. destruct (rw_child _ _ _ _ Hrw hb'.1 _ hb.1 Ej) as (t & Et & Hlt); [lia|by eexists| |].
  - unfold v_tips. by rewrite Eb.
  - rewrite Ei in Et. injection Et as <-. lia.
Qed.

Lemma popped_view st' : blocks_hold (rewound_view v l) (rewound_txs txs l) st' ->
  exists txs', blocks_hold (view_upto m v) txs' st' /\
    forall h, (in_popped v m h /\ txs' h = None) \/ (~ in_popped v m h /\ txs' h = txs h).
Proof using Hst HT Hrw Hlen Hl.
  intros Hst'. destruct (rewound_view_lookup v l) as (E1 & E2 & E3 & E4 & E5). exists (rewound_txs txs l). split.
  - assert (forall {A} h (x : option A), (if popped v m h then None else x) = if decide (h ∈ l.*1) then None else x) as Hp.
    { intros A h x. pose proof (popped_hashes h) as Hh. case_decide as Hd; [by rewrite (proj1 Hh Hd)|].
      destruct (popped v m h); [|done]. by destruct (Hd (proj2 Hh eq_refl)). }
    apply (view_ext (rewound_view v l)); [intros h; cbn; by rewrite E1, Hp|intros h; cbn; by rewrite E2, Hp|by rewrite E3|
      by rewrite E4|by rewrite E5|done].
  - intros h. rewrite rewound_txs_lookup. case_decide as Hd; [left|right]; by rewrite <- popped_txs.
Qed.

Lemma popped_height_spec height : popped_height v m height (rewound_height height l).
Proof using Hst HT Hrw Hlen Hl.
  destruct (rewound_height_spec height l) as (H1 & H2 & H3). split; [done|].
  assert (forall x b, v.(v_header) x = Some b -> v_height v x = b.(bh_height)) as Hh by (intros x b E; unfold v_height; by rewrite E).
  split.
  - intros x Hx. pose proof (proj2 (popped_hashes x) Hx) as ([x' b] & -> & Hin)%list_elem_of_fmap.
    cbn [fst]. rewrite (Hh x' b) by apply (popped_elem x' b), Hin. by apply (H2 (x', b)).
  - destruct H3 as [?|([x b] & Hin & E)]; [by left|right]. exists x. apply popped_elem in Hin as [Hp Hb].
    split; [done|]. by rewrite (Hh x b).
Qed.
End Popped.
End Rewound.
