(* ===== verification/PopBlocksModel.v ===== *)
(** Rewinding the chain: the theorem on [pop_blocks] and a witness of it. *)

From S2P Require Import Prelude External ExternalModel ExternalCrypto Serializer Hash VarUint Defaults Elgamal Proofs Transaction Block Errors Account Versions Storage ClientProtocol VersionedTree StorageFacts StorageLaws Rewind BlockStorage Dag Providers DagOrder DagWalks BlockProviders BlockStorageFacts PopBlocks PopBlocksFacts.

Section Pop.
Context {CV : Curve} {ML : Merlin} {RP : RangeProofLib} {SL : SledLib} {HM : HashMapIter} {UL : U256Lib} {IS : IndexSetLib Hash}.
#[local] Existing Instance hash_set_Serializer.

Definition accounts_part (st : SledStorage) := (st.(assets), registration_part st, nonce_part st, balance_part st).
Lemma accounts_frame nh bh am reg st st' :
  accounts_part st' = accounts_part st -> accounts_hold nh bh am reg st -> accounts_hold nh bh am reg st'.
Proof.
  intros E [Hn Hb Ha Hr Hnk Hbk Hreg]. unfold accounts_part in E. injection E as Ea Eg1 Eg2 En1 En2 En3 Eb1 Eb2. split.
  - unfold nonces_refine, accounts_counted in *. by rewrite En1, En2, En3.
  - unfold balances_refine in *. by rewrite Eb1, Eb2.
  - exact (assets_frame am st st' Ea Ha).
  - apply (registrations_frame reg st st'); [|done]. unfold registration_part. by rewrite Eg1, Eg2.
  - by rewrite En1.
  - by rewrite Eb1.
  - done.
Qed.

(** The last writes. *)
Definition close_rewind (p : Popped) (st : SledStorage) : SledStorage :=
  let st := set_top_height p.(pop_height) (set_top_topoheight p.(pop_topoheight) (store_tips p.(pop_tips) st)) in
  insert_extra BLOCKS_COUNT (be_bytes 8 (u64_sub (count_blocks st) p.(pop_done))) st.

Lemma close_rewind_spec p st :
  in_u 64 p.(pop_topoheight) -> in_u 64 p.(pop_height) -> let st' := close_rewind p st in
  accounts_part st' = accounts_part st /\ (forall v txs, blocks_hold v txs st -> blocks_hold v txs st') /\
  st'.(block_trees).(tips_cache) = p.(pop_tips) /\ get_top_topoheight st' = Ok p.(pop_topoheight) /\
  get_top_height st' = Ok p.(pop_height) /\ count_blocks st' = count_blocks st /\
  tree_get BLOCKS_COUNT st'.(extra) = Some (be_bytes 8 (u64_sub (count_blocks st) p.(pop_done))).
Proof.
  intros Ht Hh. cbn zeta. split; [done|]. split; [by intros v txs []; split|]. split; [done|].
  split; [|split; [|split; [done|apply tree_get_insert]]]; apply load_u64; try done; cbn [close_rewind insert_extra with_extra extra].
  - rewrite tree_get_insert_ne by done. cbn [set_top_height insert_extra with_extra extra].
    rewrite tree_get_insert_ne by done. apply tree_get_insert.
  - rewrite tree_get_insert_ne by done. apply tree_get_insert.
Qed.

(** The storage once the blocks of [l] and what is above [m] are gone. *)
Lemma rewound_closed v txs nh bh am reg st m n l tips st1 st2 height :
  blocks_hold v txs st -> rewindable v m (m + Z.of_nat n) st -> length l = n ->
  (forall i hb, l !! i = Some hb -> v.(v_topo) hb.1 = Some (m + Z.of_nat n - Z.of_nat i) /\ v.(v_header) hb.1 = Some hb.2) ->
  (forall h, h ∈ tips <-> h ∈ st.(block_trees).(tips_cache) /\
     (h ∈ hs_iter st.(block_trees).(tips_cache) -> is_Some (v.(v_topo) h))) ->
  blocks_hold (rewound_view v l) (rewound_txs txs l) st1 -> kept_part st1 = kept_part st -> chain_part st2 = chain_part st1 ->
  accounts_hold (fun k => upto m (nh k)) (fun ka => upto m (bh ka)) (assets_upto m am) (registered_upto m reg) st2 ->
  in_u 64 m -> in_u 64 height ->
  rewound v txs nh bh am reg m (Z.of_nat n) height (removed_txs txs l) st
    (close_rewind (mkPopped height m (rewound_tips tips l) (removed_txs txs l) (Z.of_nat n)) st2).
Proof.
  intros Hst Hrw Hlen Hl Htips Hst1 Hk Hc Hacc Hm Hh. set (p := mkPopped _ _ _ _ _).
  destruct (close_rewind_spec p st2 Hm Hh) as (Ca & Cb & Ct & Ctop & Ch & Cc & Cd).
  assert (count_blocks st2 = count_blocks st) as Ecount.
  { unfold count_blocks. injection Hc as _ _ _ _ _ _ ->. unfold kept_part in Hk. by injection Hk as _ _ _ _ _ _ _ _ _ _ _ -> _. }
  pose proof (popped_hashes v txs st Hst m _ n eq_refl Hrw l Hlen Hl) as Hp.
  pose proof (popped_txs v txs st Hst m _ n eq_refl Hrw l Hlen Hl) as Ht.
  split.
  - apply (popped_view v txs st Hst m _ n eq_refl Hrw l Hlen Hl). apply Cb. by eapply hold_chain_part.
  - intros h tx. by rewrite removed_txs_elem, Ht.
  - apply removed_txs_NoDup.
  - by eapply accounts_frame.
  - intros h. rewrite Ct. cbn [p pop_tips]. rewrite rewound_tips_elem by exact (popped_parents v txs st Hst m _ n eq_refl Hrw l Hlen Hl).
    rewrite Hp, Htips, not_true_iff_false, hs_iter_spec, elem_of_elements. apply and_iff_compat_l. split.
    + intros [[H1 H2]|([x b] & Hin & Hb)]; [left; split; [done|by apply H2]|right]. exists x.
      apply (popped_elem v txs st Hst m _ n eq_refl Hrw l Hlen Hl) in Hin as [Hx Ex]. split; [done|]. unfold v_tips. by rewrite Ex.
    + intros [[H1 H2]|(x & Hx & Hin)]; [by left|right].
      pose proof (proj2 (Hp x) Hx) as ([x' b] & -> & Hxb)%list_elem_of_fmap. exists (x', b). split; [done|].
      apply (popped_elem v txs st Hst m _ n eq_refl Hrw l Hlen Hl) in Hxb as [_ Ex]. unfold v_tips in Hin. cbn [fst snd] in *.
      by rewrite Ex in Hin.
  - by split.
  - split; [by rewrite <- Ecount|by rewrite Cc].
Qed.

(** C11: rewinding the chain by [count] blocks.  The new top is [count] below the
    old one, but not below the stable topoheight nor, in a pruned chain with a
    stable part, below what was pruned and its margin.  Exactly the blocks above
    the new top go, with their transactions, each returned once; every account
    keeps exactly its versions at or below the new top, in its nonces and in its
    balances, and so do the assets and the registrations; the tips are the
    ordered tips and the tips of the removed blocks that remain.  The top height
    is the least height of the removed blocks, and the number of blocks is
    written without them on disk but not in memory. *)
Theorem pop_blocks_rewinds (fuel : nat) (v : DagView) (txs : tx_store) (nh : NonceHistories) (bh : BalanceHistories)
    (am : Assets) (reg : Registrations) (st : SledStorage) (height topoheight count stable : Z) :
  let pruned := default 0 v.(v_pruned) in
  let m := Z.min topoheight (Z.max (pop_limit pruned topoheight count stable) stable) in
  blocks_hold v txs st -> accounts_hold nh bh am reg st -> rewindable v m topoheight st ->
  in_u 64 topoheight -> 0 <= count <= topoheight -> 0 <= stable -> in_u 64 height -> (0 < topoheight -> 0 < height) ->
  pruned <= m -> (forall k t, top (nh k) = Some t -> pruned <= t) -> topoheight - m <= Z.of_nat fuel ->
  exists st' height' removed, pop_blocks fuel height topoheight count stable st = (Ok (height', m, removed), st') /\
    popped_height v m height height' /\ rewound v txs nh bh am reg m (topoheight - m) height' removed st st'.
Proof.
  intros pruned m Hst Hacc Hrw HT Hcount Hstable HH Hpos Hpr Htops Hfuel.
  assert (0 <= m <= topoheight) as Hm by (unfold m; lia).
  set (n := Z.to_nat (topoheight - m)). assert (topoheight = m + Z.of_nat n) as ET by (unfold n; lia).
  destruct (drop_orphaned_run v txs st st.(block_trees).(tips_cache) (hs_iter st.(block_trees).(tips_cache)) Hst)
    as (tips & Rd & Htips).
  set (p0 := mkPopped height topoheight tips [] 0). rewrite ET in Hrw.
  destruct (pop_loop_run fuel pruned (pop_limit pruned topoheight count stable) stable m n v txs st p0)
    as (l & st1 & Rl & Hlen & Hl & Hst1 & Hk1 & _); [done|done|lia|done|lia|by rewrite <- ET|unfold in_u in *; cbn; lia|done|lia| |done|].
  { intros Hn. split_and!; [lia|lia|]. apply Hpos. lia. }
  assert (accounts_hold nh bh am reg st1) as Hacc1.
  { apply (accounts_frame _ _ _ _ st); [|done]. unfold kept_part in Hk1. injection Hk1 as _ _ Ea _ G1 G2 N1 N2 N3 B1 B2 _ _.
    unfold accounts_part, registration_part, nonce_part, balance_part. congruence. }
  destruct (clean_above_run pruned m nh bh am reg st1 Hacc1 Hpr Htops) as (st2 & Rc & Hacc2 & Hc2).
  set (p := mkPopped (rewound_height height l) m (rewound_tips tips l) (removed_txs txs l) (Z.of_nat n)) in *.
  assert (popped_height v m height (rewound_height height l)) as Hheight.
  { rewrite <- ET in Hl. exact (popped_height_spec v txs st Hst m topoheight n ET ltac:(by rewrite ET) l Hlen Hl height). }
  assert (in_u 64 (rewound_height height l)) as Hhr.
  { destruct Hheight as (H1 & _ & [->|(x & Hx & E)]); [done|]. unfold in_u in *. split; [|lia]. rewrite E.
    unfold popped in Hx. destruct (v.(v_topo) x) as [t|] eqn:Et; [|done].
    destruct (view_topo_stored _ (hold_wf _ _ _ Hst) x t Et) as [Hs _].
    pose proof (view_range _ (hold_wf _ _ _ Hst) x Hs) as Hr. unfold in_u in Hr. lia. }
  exists (close_rewind p st2), (rewound_height height l), (removed_txs txs l).
  split; [|split; [done|]].
  - unfold pop_blocks. destruct (Z.ltb_spec topoheight count); [lia|]. erewrite stm_bind_run by reflexivity.
    erewrite stm_bind_run by (unfold lift_res, BlockStorage.get_pruned_topoheight; by rewrite (hold_pruned _ _ _ Hst)).
    erewrite stm_bind_run by reflexivity. erewrite stm_bind_run by exact Rd. fold pruned p0.
    erewrite stm_bind_run by exact Rl. erewrite stm_bind_run by exact Rc. reflexivity.
  - replace (topoheight - m) with (Z.of_nat n) by lia.
    by apply (rewound_closed v txs nh bh am reg st m n l tips st1 st2); [done..|unfold in_u in *; lia|].
Qed.

(** ** Building such a storage *)

Lemma save_step v txs st hash block body d p c :
  blocks_hold v txs st -> v.(v_header) hash = None -> attachable v block -> Forall transaction_wf body ->
  exists st', (save_block block body d p hash ≫= fun _ => st_modify (BlockStorage.set_cumulative_difficulty_for_block_hash hash c)) st =
      (Ok tt, st') /\
    blocks_hold (add_block hash block d c v) (foldl add_tx txs (zip (iset_list block.(bh_txs_hashes)) body)) st' /\
    accounts_part st' = accounts_part st /\ st'.(tx_blocks) = st.(tx_blocks).
Proof.
  intros Hst Hnew Hat Hbody. destruct (save_block_run v txs st Hst hash block body d p c Hat) as (st' & n & t & s & Hr & Ht & _ & Hs & Est).
  destruct (save_block_effect v txs st Hst hash block d p c Hnew st' n t s Est) as (Eb & Etx & Ed & Ec & _ & Eh & E1 & E2 & Epr & _).
  exists st'. split; [done|]. split; [by eapply save_block_hold|]. clear -Est. subst st'.
  unfold store_header. destruct (tree_insert (hash_bytes hash) (to_bytes block) _) as [[o|] b]; by destruct (0 <? n).
Qed.

Lemma keyed_insert {K} (kb : K -> list byte) k x t : keyed kb t -> keyed kb (tree_insert (kb k) x t).2.
Proof.
  intros Hk b y. destruct (decide (b = kb k)) as [->|Hne]; [by exists k|]. rewrite tree_get_insert_ne by done. apply Hk.
Qed.

Lemma accounts_assets m a d :
  asset_data_wf d -> accounts_hold (fun _ => []) (fun _ => []) (fn_upd a (Some d) (fun _ => None)) (fun _ => None)
    (with_assets (tree_insert (hash_bytes a) (to_bytes d) tree_empty).2 (empty_storage m)).
Proof.
  intros Hd. split.
  - exact (empty_nonces_refine m).
  - exact (empty_balances_refine m).
  - split.
    + intros h. cbn -[to_bytes]. destruct (decide (h = a)) as [->|Hne]; [by rewrite tree_get_insert, fn_upd_eq|].
      rewrite tree_get_insert_ne by by intros ?%hash_bytes_inj. rewrite fn_upd_ne by done. apply tree_get_empty.
    + apply keyed_insert. intros b x. by rewrite tree_get_empty.
    + intros h d'. destruct (decide (h = a)) as [->|Hne]; [by rewrite fn_upd_eq; intros [= <-]|by rewrite fn_upd_ne].
  - split; [intros k; apply tree_get_empty|done|intros b x; cbn; by rewrite tree_get_empty].
  - intros b x. cbn. by rewrite tree_get_empty.
  - intros b x. cbn. by rewrite tree_get_empty.
  - by intros k a' t v ?%not_elem_of_nil.
Qed.

Lemma accounts_nonce nh bh am reg st key t v :
  accounts_hold nh bh am reg st -> in_u 64 t -> in_u 64 v.(vn_nonce) ->
  v.(vn_previous_topoheight) = top (nh key) -> (forall p, top (nh key) = Some p -> p < t) ->
  accounts_hold (fn_upd key ((t, v) :: nh key) nh) bh am reg (Storage.set_last_nonce_to key t v st).
Proof.
  intros [Hn Hb Ha Hr Hnk Hbk Hreg] Hu Hv Hp Hlt. destruct (set_last_nonce_frame key t v st) as (E1 & E2 & E3 & _ & E4 & E5).
  split; [by apply set_last_nonce_refine|by unfold balances_refine; rewrite E1, E2|by eapply assets_frame| | |by rewrite E1|done].
  - apply (registrations_frame reg st); [|done]. unfold registration_part. by rewrite E4, E5.
  - assert (nonces (Storage.set_last_nonce_to key t v st) = (tree_insert (as_bytes key) (be_bytes 8 t) st.(nonces)).2) as ->.
    { unfold Storage.set_last_nonce_to, set_last_topoheight_for_nonce. cbn [nonces Storage.set_nonce_at_topoheight with_versioned_nonces].
      by destruct (tree_insert _ _ _) as [[o|] n]. }
    by apply keyed_insert.
Qed.

Lemma accounts_balance nh bh am reg st k a t v d :
  accounts_hold nh bh am reg st -> in_u 64 t -> balance_wf v -> am a = Some d -> d.(asset_topoheight) <= t ->
  v.(previous_topoheight) = top (bh (k, a)) -> (forall p, top (bh (k, a)) = Some p -> p < t) ->
  accounts_hold nh (fn_upd (k, a) ((t, Account.stored v) :: bh (k, a)) bh) am reg (Storage.set_last_balance_to k a t v st).
Proof.
  intros [Hn Hb Ha Hr Hnk Hbk Hreg] Hu Hv Hd Hle Hp Hlt.
  split; [exact Hn|by apply set_last_balance_refine|by apply (assets_frame am st)|by apply (registrations_frame reg st)|exact Hnk|exact (keyed_insert balance_key (k, a) _ _ Hbk)|].
  intros k' a' t' v'. destruct (decide ((k', a') = (k, a))) as [E|Hne]; [|rewrite fn_upd_ne by done; apply Hreg].
  rewrite E, fn_upd_eq. injection E as -> ->. intros [[= -> ->]|Hin]%list.elem_of_cons; [by exists d|by eapply Hreg].
Qed.

(** A block of height 0 at topoheight 4, one that follows it at 5, put on any
    storage without blocks. *)
Section Built.
Context (g h1 : Hash) (genesis next : BlockHeader) (tx : Transaction) (d : VarUint.t).
Context (Hne : h1 <> g) (Hg : header_wf genesis) (Hn : header_wf next) (Htx : transaction_wf tx).
Context (Hg0 : genesis.(bh_height) = 0) (Hn1 : next.(bh_height) = 1).
Context (Hgt : iset_list genesis.(bh_tips) = []) (Hnt : iset_list next.(bh_tips) = [g]).
Context (v0 : DagView) (Hv0 : forall h, v0.(v_header) h = None) (Hv0t : forall h, v0.(v_topo) h = None).

Definition built_view : DagView :=
  order_block h1 5 (add_block h1 next d d (order_block g 4 (add_block g genesis d d v0))).

Lemma built_topo h : built_view.(v_topo) h = if decide (h = h1) then Some 5 else if decide (h = g) then Some 4 else None.
Proof using Hv0t.
  cbn. destruct (decide (h = h1)); [done|]. rewrite Hv0t, (decide_False (P:=None = Some 4)) by done.
  by repeat case_decide.
Qed.
Lemma built_header h : built_view.(v_header) h = if decide (h = h1) then Some next else if decide (h = g) then Some genesis else None.
Proof using Hne Hv0. cbn. unfold fn_upd. rewrite Hv0. repeat case_decide; congruence. Qed.

Lemma built_run st0 txs :
  blocks_hold v0 txs st0 -> all_links_readable st0 -> exists txs' st, blocks_hold built_view txs' st /\
    rewindable built_view 4 5 st /\ accounts_part st = accounts_part st0.
Proof using Hne Hg Hn Htx Hg0 Hn1 Hgt Hnt Hv0 Hv0t.
  intros H0 Hl.
  destruct (save_step v0 txs st0 g genesis [] d d d H0) as (st1 & _ & H1 & A1 & L1); [done| |constructor|].
  { split; [done|by rewrite Hg0|by rewrite Hgt; intros t ?%not_elem_of_nil|done]. }
  set (v1 := add_block g genesis d d v0) in *.
  assert (stored v1 g) as Hs1 by (eexists; cbn; apply fn_upd_eq).
  pose proof (order_block_hold v1 _ st1 g 4 H1 Hs1 ltac:(done)) as H2. set (v2 := order_block g 4 v1) in *.
  destruct (save_step v2 _ _ h1 next [tx] d d d H2) as (st3 & _ & H3 & A3 & L3); [| |constructor; [exact Htx|constructor]|].
  { cbn. by rewrite fn_upd_ne. }
  { split; [done|by rewrite Hn1|rewrite Hnt, Hn1|].
    - intros t ->%list_elem_of_singleton. split; [exact Hs1|]. unfold v_height. cbn. by rewrite fn_upd_eq, Hg0.
    - intros _. exists g. rewrite Hnt, Hn1. split; [left|]. unfold v_height. cbn. by rewrite fn_upd_eq, Hg0. }
  assert (stored (add_block h1 next d d v2) h1) as Hs3 by (eexists; cbn; apply fn_upd_eq).
  pose proof (order_block_hold _ _ st3 h1 5 H3 Hs3 ltac:(done)) as H4.
  pose proof (supply_reward_hold _ _ _ 5 7 7 H4) as H5. eexists _, _. split; [exact H5|]. split.
  - split.
    + intros t Ht. assert (t = 5) as -> by lia. exists h1, 7, 7. rewrite built_topo, decide_True by done.
      split; [done|]. split; apply load_u64; try done; apply tree_get_insert.
    + intros h t. rewrite built_topo. repeat case_decide; [intros [= <-]; lia|intros [= <-]; lia|done].
    + intros h t x. rewrite built_topo. case_decide as E; [|case_decide; [intros [= <-]; lia|done]]. subst h. intros _ _ _.
      unfold v_tips. rewrite built_header. repeat case_decide; [rewrite Hnt|rewrite Hgt|by intros ?%not_elem_of_nil].
      * by intros ?%list_elem_of_singleton.
      * by intros ?%not_elem_of_nil.
    + intros h t. rewrite built_topo. case_decide as E; [|case_decide; [intros [= <-]; lia|done]]. subst h. intros _ _.
      unfold v_height. rewrite built_header, decide_True by done. by rewrite Hn1.
    + intros h b. cbn. rewrite L3. cbn. rewrite L1. apply Hl.
  - etrans; [exact A3|exact A1].
Qed.
End Built.
End Pop.

(** ** A witness: an account used at 3 and at 5, one block taken off *)

#[local] Existing Instances curve_model merlin_model range_proof_model sled_model hash_map_model u256_model iset_model.
#[local] Existing Instance hash_set_Serializer.

Definition k_genesis : BlockHeader :=
  mkHeader 0 iset_new 1000 0 0 (vreplicate 32 x00) (mkPublicKey w_point) iset_new.
Definition k_next : BlockHeader :=
  mkHeader 0 (iset_insert HashOps.zero iset_new).2 2000 1 0 (vreplicate 32 x00) (mkPublicKey w_point) (iset_insert HashOps.max iset_new).2.
Definition k_data : AssetData := mkAssetData 0 8.
Definition k_assets : SledStorage :=
  with_assets (tree_insert (hash_bytes s_asset) (to_bytes k_data) tree_empty).2 (empty_storage true).
Definition k_funded : SledStorage :=
  Storage.set_last_balance_to s_key s_asset 5 (prepare_new (Some 3) balance_zero) (Storage.set_last_balance_to s_key s_asset 3 balance_zero k_assets).
Definition k_storage : SledStorage :=
  Storage.set_last_nonce_to s_key 5 (mkVNonce 1 (Some 3)) (Storage.set_last_nonce_to s_key 3 (mkVNonce 0 None) k_funded).
Definition k_nonces : NonceHistories := fn_upd s_key ((5, mkVNonce 1 (Some 3)) :: s_nonces s_key) s_nonces.
Definition k_balances : BalanceHistories :=
  fn_upd (s_key, s_asset) ((5, Account.stored (prepare_new (Some 3) balance_zero)) :: s_balances (s_key, s_asset)) s_balances.
Definition k_registered : Assets := fn_upd s_asset (Some k_data) (fun _ => None).

Lemma k_accounts : accounts_hold k_nonces k_balances k_registered (fun _ => None) k_storage.
Proof.
  assert (top (s_nonces s_key) = Some 3 /\ top (s_balances (s_key, s_asset)) = Some 3) as [E1 E2].
  { unfold s_nonces, s_balances. by rewrite !fn_upd_eq. }
  assert (k_registered s_asset = Some k_data) as Ea by apply fn_upd_eq.
  apply accounts_nonce; [|done|done|by rewrite E1|rewrite E1; by intros p [= <-]].
  apply (accounts_nonce (fun _ => [])); [|done..].
  eapply accounts_balance; [|done|done|exact Ea|done|by rewrite E2|rewrite E2; by intros p [= <-]].
  eapply (accounts_balance _ (fun _ => [])); [|done|done|exact Ea|done..].
  by apply accounts_assets.
Qed.

Lemma nonce_chain_part key t v st : chain_part (Storage.set_last_nonce_to key t v st) = chain_part st.
Proof. unfold Storage.set_last_nonce_to, set_last_topoheight_for_nonce. by destruct (tree_insert _ _ _) as [[o|] n]. Qed.

Lemma k_chain : chain_part k_storage = chain_part (empty_storage true).
Proof. unfold k_storage. by rewrite !nonce_chain_part. Qed.

Lemma k_links : all_links_readable k_storage.
Proof.
  intros h b. assert (k_storage.(tx_blocks) = tree_empty) as -> by exact (f_equal (fun x => x.1.1.2) k_chain). by rewrite tree_get_empty.
Qed.

Definition k_view : DagView := built_view HashOps.zero HashOps.max k_genesis k_next VarUint.one s_view.

Lemma k_built : exists txs st, blocks_hold k_view txs st /\ rewindable k_view 4 5 st /\
  accounts_hold k_nonces k_balances k_registered (fun _ => None) st.
Proof.
  destruct (built_run HashOps.zero HashOps.max k_genesis k_next w_tx VarUint.one) with (v0 := s_view) (st0 := k_storage) (txs := fun _ : Hash => @None Transaction)
    as (txs & st & Hst & Hrw & Ha).
  1: apply (bool_decide_unpack _); vm_compute; exact I.
  1-2: unfold header_wf; split_and!; apply (bool_decide_unpack _); vm_compute; exact I.
  1: exact s_tx_wf.
  1-6: done.
  - by apply (hold_chain_part _ _ (empty_storage true)); [apply k_chain|apply s_empty_hold].
  - exact k_links.
  - exists txs, st. split; [done|]. split; [done|]. by eapply accounts_frame; [|apply k_accounts].
Qed.

Lemma k_popped x : popped k_view 4 x = true <-> x = HashOps.max.
Proof.
  unfold popped, k_view. rewrite built_topo by done. case_decide; [done|]. by case_decide.
Qed.
Lemma k_header : k_view.(v_header) HashOps.max = Some k_next.
Proof. unfold k_view. rewrite built_header by (done || (apply (bool_decide_unpack _); vm_compute; exact I)). by rewrite decide_True. Qed.
Lemma k_next_height : v_height k_view HashOps.max = 1.
Proof. unfold v_height. by rewrite k_header. Qed.

Lemma k_tops st : accounts_hold k_nonces k_balances k_registered (fun _ => None) st ->
  forall k t, top (k_nonces k) = Some t -> 0 <= t.
Proof.
  intros [[Hn _] _ _ _ _ _ _] k t Ht. pose proof (tr_history _ _ _ _ _ _ Hn k) as [_ Hc]. rewrite Ht in Hc.
  inversion Hc as [|? ? ? _ Hu]; subst. apply Hu.
Qed.
Lemma k_height height : popped_height k_view 4 1 height -> height = 1.
Proof.
  intros (_ & _ & [?|(x & ->%k_popped & ->)]); [done|apply k_next_height].
Qed.
Lemma hold_has_block v txs st h : blocks_hold v txs st ->
  BlockStorage.has_block_with_hash h st = Ok (match v.(v_header) h with Some _ => true | None => false end).
Proof.
  intros Hst. unfold BlockStorage.has_block_with_hash, contains_data, tree_contains. rewrite (hold_header _ _ _ Hst).
  by destruct (v.(v_header) h).
Qed.
Lemma k_upto : upto 4 (k_nonces s_key) = [(3, mkVNonce 0 None)].
Proof. unfold k_nonces, s_nonces. by rewrite !fn_upd_eq. Qed.

Lemma pop_blocks_rewinds_witness : exists st st' height removed,
  pop_blocks 1 1 5 1 0 st = (Ok (height, 4, removed), st') /\ height = 1 /\
  has_block_with_hash st HashOps.max = Ok true /\ has_block_with_hash st' HashOps.max = Ok false /\
  nonces_refine (fun key => upto 4 (k_nonces key)) st' /\ upto 4 (k_nonces s_key) = [(3, mkVNonce 0 None)].
Proof.
  destruct k_built as (txs & st & Hst & Hrw & Ha).
  destruct (pop_blocks_rewinds 1 k_view txs k_nonces k_balances k_registered (fun _ => None) st 1 5 1 0)
    as (st' & height & removed & Hrun & Hh & Hr); [exact Hst|exact Ha|exact Hrw|done|done|done|done|done|done| |done|].
  - exact (k_tops st Ha).
  - exists st, st', height, removed. split; [exact Hrun|].
    split; [by apply k_height|]. split; [|split; [|split; [exact (ah_nonces _ _ _ _ _ (rd_accounts _ _ _ _ _ _ _ _ _ _ _ _ Hr))|exact k_upto]]].
    + etrans; [exact (hold_has_block _ _ _ _ Hst)|]. by rewrite k_header.
    + destruct (rd_blocks _ _ _ _ _ _ _ _ _ _ _ _ Hr) as (txs' & Hst' & _). etrans; [exact (hold_has_block _ _ _ _ Hst')|].
      match goal with |- context [view_upto ?m _] => change m with 4 end. cbn [v_header view_upto]. by rewrite (proj2 (k_popped _) eq_refl).
Defined.
