(* ===== verification/ExtraData.v ===== *)
(** [xelis_common::transaction::extra_data]: the data a transfer carries for
    its receiver, encrypted for the receiver and the sender.

    [CipherLib] stands for the crates [sha3], [chacha20] and
    [chacha20poly1305].  The scalar drawn from [OsRng] is an argument. *)

From S2P Require Import Prelude External ExternalCrypto Serializer Hash Defaults Elgamal Proofs Transaction Data.

(** ** The crates

    Applying the key stream twice gives the data back; the tag of the
    authenticated cipher is checked when it is decrypted. *)
Class CipherLib := {
  sha3_256 : list byte -> vec byte 32;
  apply_keystream : vec byte 32 -> list byte -> list byte -> list byte;
  apply_keystream_length k n l : length (apply_keystream k n l) = length l;
  apply_keystream_twice k n l : apply_keystream k n (apply_keystream k n l) = l;
  aead_encrypt : vec byte 32 -> list byte -> list byte -> list byte;
  aead_decrypt : vec byte 32 -> list byte -> list byte -> option (list byte);
  aead_decrypt_encrypt k n l : aead_decrypt k n (aead_encrypt k n l) = Some l;
}.

Section ExtraData.
Context {CV : Curve} {CL : CipherLib}.

Definition SharedKey : Type := vec byte 32.

Inductive CipherFormatError := MalformedCiphertext.

Definition NONCE : list byte := lit "xelis-crypto".

Record AEADCipher := mkAEADCipher { aead_bytes : list byte }.
Record Cipher := mkCipher { cipher_bytes : list byte }.
Record PlaintextData := mkPlaintext { plain_bytes : list byte }.

(** ** The shared key *)

Definition derive_shared_key (p : CompressedRistretto) : SharedKey := sha3_256 (vec_to_list p.(cr_bytes)).
Definition derive_shared_key_from_opening (opening : PedersenOpening) : SharedKey :=
  derive_shared_key (mkRistretto (compress (pmul opening.(opening_scalar) H))).
Definition derive_shared_key_from_handle (sk : Key.PrivateKey) (handle : DecryptHandle) : SharedKey :=
  derive_shared_key (mkRistretto (compress (pmul sk.(Key.sk_scalar) handle.(handle_pt)))).
Definition derive_shared_key_from_ct (sk : Key.PrivateKey) (ciphertext : Ciphertext) : SharedKey :=
  derive_shared_key_from_handle sk ciphertext.(ct_handle).

(** ** The ciphers *)

Definition encrypt_in_place_with_aead (data : PlaintextData) (key : SharedKey) : AEADCipher :=
  mkAEADCipher (aead_encrypt key NONCE data.(plain_bytes)).
Definition encrypt_in_place (data : PlaintextData) (key : SharedKey) : Cipher :=
  mkCipher (apply_keystream key NONCE data.(plain_bytes)).
Definition aead_cipher_decrypt (cipher : AEADCipher) (key : SharedKey) : res CipherFormatError PlaintextData :=
  ok_or (mkPlaintext <$> aead_decrypt key NONCE cipher.(aead_bytes)) MalformedCiphertext.
Definition cipher_decrypt (cipher : Cipher) (key : SharedKey) : res CipherFormatError PlaintextData :=
  Ok (mkPlaintext (apply_keystream key NONCE cipher.(cipher_bytes))).

#[export] Instance Cipher_Serializer : Serializer Cipher := {|
  write x w := write x.(cipher_bytes) w;
  read := l ← read (A:=list byte); mret (mkCipher l);
  size := default_size (fun x w => write x.(cipher_bytes) w);
|}.
#[export] Instance AEADCipher_Serializer : Serializer AEADCipher := {|
  write x w := write x.(aead_bytes) w;
  read := l ← read (A:=list byte); mret (mkAEADCipher l);
  size := default_size (fun x w => write x.(aead_bytes) w);
|}.

(** ** [ExtraData] *)

Record ExtraData := mkExtra {
  ed_cipher : Cipher;
  ed_sender_handle : CompressedHandle;
  ed_receiver_handle : CompressedHandle;
}.

Definition extra_new (opening : PedersenOpening) (data : PlaintextData) (sender receiver : Key.PublicKey) : ExtraData :=
  let k := derive_shared_key_from_opening opening in
  mkExtra (encrypt_in_place data k)
    (handle_compress (Key.decrypt_handle sender opening))
    (handle_compress (Key.decrypt_handle receiver opening)).

Definition get_handle (e : ExtraData) (role : Role) : CompressedHandle :=
  match role with Sender => e.(ed_sender_handle) | Receiver => e.(ed_receiver_handle) end.

Definition extra_decrypt (e : ExtraData) (private_key : Key.PrivateKey) (role : Role)
  : res CipherFormatError PlaintextData :=
  handle ← map_err (fun _ => MalformedCiphertext) (handle_decompress (get_handle e role));
  let key := derive_shared_key_from_handle private_key handle in
  cipher_decrypt e.(ed_cipher) key.

#[export] Instance Extra_Serializer : Serializer ExtraData := {|
  write x w :=
    let w := write x.(ed_sender_handle) w in
    let w := write x.(ed_receiver_handle) w in
    write x.(ed_cipher) w;
  read :=
    sender_handle ← read (A:=CompressedHandle);
    receiver_handle ← read (A:=CompressedHandle);
    cipher ← read (A:=Cipher);
    mret (mkExtra cipher sender_handle receiver_handle);
  size x := (size x.(ed_cipher) + size x.(ed_sender_handle) + size x.(ed_receiver_handle))%nat;
|}.

(** ** [UnknownExtraDataFormat] *)

Definition from_aead_cipher (c : AEADCipher) : UnknownExtraDataFormat := mkExtraData c.(aead_bytes).
Definition from_cipher (c : Cipher) : UnknownExtraDataFormat := mkExtraData c.(cipher_bytes).
Definition from_extra_data (e : ExtraData) : UnknownExtraDataFormat := mkExtraData (to_bytes e).

Context {HO : HashOrder}.

Definition parse_plain (plaintext : PlaintextData) : res CipherFormatError DataElement :=
  map_err (fun _ => MalformedCiphertext) (from_bytes (A:=DataElement) plaintext.(plain_bytes)).

Definition decrypt_v2 (u : UnknownExtraDataFormat) (private_key : Key.PrivateKey) (role : Role)
  : res CipherFormatError DataElement :=
  e ← map_err (fun _ => MalformedCiphertext) (from_bytes (A:=ExtraData) u.(extra_bytes));
  plaintext ← extra_decrypt e private_key role;
  parse_plain plaintext.

Definition decrypt_v1 (u : UnknownExtraDataFormat) (private_key : Key.PrivateKey) (handle : DecryptHandle)
  : res CipherFormatError DataElement :=
  let key := derive_shared_key_from_handle private_key handle in
  plaintext ← aead_cipher_decrypt (mkAEADCipher u.(extra_bytes)) key;
  parse_plain plaintext.

(** A panic while reading the new format is not caught. *)
Definition decrypt (u : UnknownExtraDataFormat) (private_key : Key.PrivateKey) (handle : DecryptHandle) (role : Role)
  : res CipherFormatError DataElement :=
  if (RISTRETTO_COMPRESSED_SIZE * 2 + 2 <=? length u.(extra_bytes))%nat then
    match decrypt_v2 u private_key role with
    | Err _ => decrypt_v1 u private_key handle
    | r => r
    end
  else decrypt_v1 u private_key handle.
End ExtraData.

(** ** Facts *)

Section Facts.
Context {CV : Curve} {CL : CipherLib}.

Lemma cipher_append (x : Cipher) w : write x w = Writer.write_bytes (to_bytes x.(cipher_bytes)) w.
Proof. cbn [write Cipher_Serializer]. by autorewrite with ser. Qed.
Lemma cipher_codec : CodecCanon Cipher (fun x => to_bytes x.(cipher_bytes)) read (fun x => ser_wf x.(cipher_bytes)).
Proof.
  apply mk_codec_canon; intros *.
  - intros Hx. run_read; try done. by destruct x.
  - safe_read.
  - intros Hr. inv_read Hr. subst. split; [done|]. by eexists.
Qed.
#[export] Instance Cipher_SerOk : SerOk Cipher :=
  mk_SerOk (fun x => to_bytes x.(cipher_bytes)) _ cipher_append (codec_of cipher_codec).
#[export] Instance Cipher_SerCanon : SerCanon Cipher.
Proof. by eapply (mk_SerCanon (fun x : Cipher => to_bytes x.(cipher_bytes))), cipher_codec; [apply cipher_append|]. Qed.
#[export] Instance Cipher_SerSize : SerSize Cipher.
Proof. constructor. by intros x _. Qed.

Definition extra_data_enc (x : ExtraData) : list byte :=
  to_bytes x.(ed_sender_handle) ++ to_bytes x.(ed_receiver_handle) ++ to_bytes x.(ed_cipher).
Lemma extra_data_append x w : write x w = Writer.write_bytes (extra_data_enc x) w.
Proof. cbn [write Extra_Serializer]. by autorewrite with ser. Qed.
Lemma extra_data_codec : CodecCanon ExtraData extra_data_enc read (fun x => ser_wf x.(ed_cipher)).
Proof.
  apply mk_codec_canon; intros *.
  - intros Hx. unfold extra_data_enc. run_read; try done. by destruct x.
  - safe_read.
  - intros Hr. inv_read Hr. subst. split; [done|]. unfold extra_data_enc. simpl.
    eexists. rewrite <- !(assoc_L (++)). eauto.
Qed.
#[export] Instance Extra_SerOk : SerOk ExtraData :=
  mk_SerOk extra_data_enc _ extra_data_append (codec_of extra_data_codec).
End Facts.

(** ** The receiver and the sender read the data *)

Section Decryption.
Context {CV : Curve} {CL : CipherLib} {HO : HashOrder}.
Add Ring ScalarRing' : scalar_ring.

(** The handle for a key gives its owner the point the sender started from. *)
Lemma shared_key_agrees s opening :
  s <> s0 ->
  derive_shared_key_from_handle (Key.mkPrivateKey s)
    (Key.decrypt_handle (Key.mkPublicKey (pmul (sinv s) H)) opening) =
  derive_shared_key_from_opening opening.
Proof.
  intros Hs. unfold derive_shared_key_from_handle, derive_shared_key_from_opening, Key.decrypt_handle. simpl.
  do 3 f_equal. rewrite !pmul_mul. f_equal.
  transitivity (smul (opening_scalar opening) (smul (sinv s) s)); [ring|]. rewrite sinv_l by done. ring.
Qed.

Lemma handle_roundtrip h : handle_decompress (handle_compress h) = Ok h.
Proof. unfold handle_decompress; simpl. rewrite decompress_compress. by destruct h. Qed.

Lemma extra_decrypt_own s pk data opening role sender receiver :
  s <> s0 -> pk = Key.mkPublicKey (pmul (sinv s) H) ->
  match role with Sender => sender | Receiver => receiver end = pk ->
  extra_decrypt (extra_new opening data sender receiver) (Key.mkPrivateKey s) role = Ok data.
Proof.
  intros Hs -> Hk. unfold extra_decrypt.
  assert (get_handle (extra_new opening data sender receiver) role =
    handle_compress (Key.decrypt_handle (Key.mkPublicKey (pmul (sinv s) H)) opening)) as -> by (destruct role; by rewrite <- Hk).
  rewrite handle_roundtrip. cbn [map_err mbind res_bind]. rewrite shared_key_agrees by done.
  unfold cipher_decrypt, extra_new, encrypt_in_place. simpl. rewrite apply_keystream_twice. by destruct data.
Qed.

Lemma element_bytes (e : DataElement) : to_bytes e = element_enc e.
Proof. unfold to_bytes. cbn [write DataElement.serializer]. by rewrite write_element_append. Qed.
Lemma element_size (e : DataElement) : size e = length (to_bytes e).
Proof. rewrite element_bytes. apply size_element_spec. Qed.

Lemma element_from_bytes (e : DataElement) :
  element_wf e -> exists e', e ≡ e' /\ from_bytes (to_bytes e) = Ok e'.
Proof.
  intros He. rewrite element_bytes. unfold from_bytes. rewrite reader_new_at.
  cbn [read DataElement.serializer].
  destruct (read_element_run e (Datatypes.S (length (element_enc e))) [] [] He) as (y & Hy & Hr); [lia|].
  exists y. split; [done|]. rewrite app_nil_r in Hr.
  replace (Reader.size (reader_at [] (element_enc e))) with (length (element_enc e)) by (unfold Reader.size; simpl; lia).
  by rewrite Hr.
Qed.

Lemma bytes_length (l : list byte) : length (to_bytes l) = (2 + length l)%nat.
Proof.
  rewrite (to_bytes_enc vec_enc) by apply write_vec_append.
  unfold vec_enc. rewrite length_app, length_be_bytes, (length_concat_bytes _ 1); [lia|done].
Qed.

Lemma extra_new_size opening data sender receiver :
  size (extra_new opening data sender receiver) = (66 + length data.(plain_bytes))%nat /\
  length (to_bytes (extra_new opening data sender receiver)) = (66 + length data.(plain_bytes))%nat.
Proof.
  assert (forall c : Cipher, length (to_bytes c) = (2 + length c.(cipher_bytes))%nat) as Hc.
  { intros c. rewrite (to_bytes_enc (fun x => to_bytes x.(cipher_bytes))) by apply cipher_append. apply bytes_length. }
  assert (forall x : ExtraData, length (to_bytes x) = (66 + length x.(ed_cipher).(cipher_bytes))%nat) as He.
  { intros x. rewrite (to_bytes_enc extra_data_enc) by apply extra_data_append.
    unfold extra_data_enc. rewrite !length_app, Hc, !length_point_bytes. reflexivity. }
  assert (length (cipher_bytes (ed_cipher (extra_new opening data sender receiver))) = length data.(plain_bytes)) as Hl
    by apply apply_keystream_length.
  rewrite He, Hl. split; [|done].
  cbn [size Extra_Serializer]. change (size (ed_cipher ?e)) with (length (to_bytes (ed_cipher e))).
  rewrite Hc, Hl. change (size (ed_sender_handle _)) with 32%nat. change (size (ed_receiver_handle _)) with 32%nat. lia.
Qed.

(** C34: what the sender encrypts for a transfer is read back by the sender and
    by the receiver from the bytes of the transaction, each with their own
    private key and whatever the handle of the amount, and the bytes are 66
    more than the data. *)
Theorem extra_data_decrypted (e : DataElement) (opening : PedersenOpening) (sk sk' : scalar)
    (role : Role) (handle : DecryptHandle)
    (Hs : sk <> s0) (Hs' : sk' <> s0) (He : element_wf e) (Hl : (size e <= 1024)%nat) :
  let key_of s := Key.mkPublicKey (pmul (sinv s) H) in
  let u := from_extra_data (extra_new opening (mkPlaintext (to_bytes e)) (key_of sk) (key_of sk')) in
  let own := Key.mkPrivateKey match role with Sender => sk | Receiver => sk' end in
  length u.(extra_bytes) = (66 + size e)%nat /\
  exists e', e ≡ e' /\ decrypt u own handle role = Ok e'.
Proof.
  intros key_of u own. destruct (extra_new_size opening (mkPlaintext (to_bytes e)) (key_of sk) (key_of sk')) as [_ Hlen].
  cbn [plain_bytes] in Hlen. rewrite <- element_size in Hlen. split; [exact Hlen|].
  destruct (element_from_bytes e He) as (e' & Heq & Hp). exists e'. split; [done|].
  assert (decrypt_v2 u own role = Ok e') as Hd.
  { unfold decrypt_v2, u, from_extra_data. cbn [extra_bytes]. rewrite from_bytes_to_bytes.
    - cbn [map_err mbind res_bind].
      rewrite (extra_decrypt_own (match role with Sender => sk | Receiver => sk' end) (key_of match role with Sender => sk | Receiver => sk' end));
        [|by destruct role|done|by destruct role].
      cbn [mbind res_bind]. unfold parse_plain. cbn [plain_bytes]. by rewrite Hp.
    - split; [|by apply list.Forall_forall].
      unfold extra_new, encrypt_in_place. cbn [ed_cipher cipher_bytes plain_bytes].
      rewrite apply_keystream_length, <- element_size. done. }
  unfold decrypt. unfold u at 1, from_extra_data at 1. cbn [extra_bytes].
  rewrite (proj2 (Nat.leb_le _ _)) by (rewrite Hlen; unfold RISTRETTO_COMPRESSED_SIZE; lia).
  by rewrite Hd.
Qed.
End Decryption.

(** ** A model of the crates, and the theorem on it *)

(** Each byte is subtracted from one of the key; the tag is a sum of the bytes. *)
Definition stream_byte (k b : byte) : byte := to_byte (byte_val k - byte_val b).
Definition key_byte (k : vec byte 32) : byte := checksum 5 (vec_to_list k).
Definition stream_model (k : vec byte 32) (n l : list byte) : list byte := stream_byte (key_byte k) <$> l.
Definition tag_model (k : vec byte 32) (l : list byte) : list byte := replicate 16 (checksum (byte_val (key_byte k)) l).

Lemma stream_byte_twice k b : stream_byte k (stream_byte k b) = b.
Proof.
  unfold stream_byte. apply byte_val_inj. rewrite !byte_val_to_byte.
  rewrite Zminus_mod_idemp_r. replace (byte_val k - (byte_val k - byte_val b)) with (byte_val b) by ring.
  apply Z.mod_small, byte_val_range.
Qed.
Lemma stream_model_twice k n l : stream_model k n (stream_model k n l) = l.
Proof.
  unfold stream_model. rewrite <- list_fmap_compose. rewrite <- (list_fmap_id l) at 2.
  apply list_fmap_ext. intros i b _. apply stream_byte_twice.
Qed.

Program Definition cipher_model : CipherLib := {|
  sha3_256 l := vreplicate 32 (checksum 1 l);
  apply_keystream := stream_model;
  apply_keystream_twice := stream_model_twice;
  aead_encrypt k n l := tag_model k l ++ stream_model k n l;
  aead_decrypt k n l :=
    let data := stream_model k n (drop 16 l) in
    if decide (take 16 l = tag_model k data) then Some data else None;
|}.
Next Obligation. intros. apply length_fmap. Qed.
Next Obligation.
  intros k n l. cbv zeta beta.
  assert (length (tag_model k l) = 16%nat) as Hl by apply length_replicate.
  rewrite drop_app_length', take_app_length', stream_model_twice by done. by rewrite decide_True.
Qed.

#[local] Existing Instances curve_model cipher_model.
#[local] Instance x_order : HashOrder := {| hash_order A l := l; hash_order_perm A l := reflexivity l |}.

Definition x_data : DataElement := DataElement.Array [DataElement.Value (DataValue.U8 7); DataElement.Value (DataValue.Bool true)].
Lemma x_data_wf : element_wf x_data.
Proof. repeat constructor; simpl; try lia; by vm_compute. Qed.

Lemma extra_data_decrypted_witness :
  let key_of s := Key.mkPublicKey (pmul (sinv s) H) in
  let u := from_extra_data (extra_new (mkOpening (fs 9)) (mkPlaintext (to_bytes x_data)) (key_of (fs 5)) (key_of (fs 8))) in
  length u.(extra_bytes) = (66 + size x_data)%nat /\
  exists e', x_data ≡ e' /\ decrypt u (Key.mkPrivateKey (fs 8)) (mkDecryptHandle pid) Receiver = Ok e'.
Proof.
  apply (extra_data_decrypted x_data (mkOpening (fs 9)) (fs 5) (fs 8) Receiver (mkDecryptHandle pid)).
  - by vm_compute.
  - by vm_compute.
  - exact x_data_wf.
  - vm_compute. lia.
Defined.
