(* ===== verification/Builder.v ===== *)
(** [xelis_common::transaction::builder]: how a wallet makes a transaction, and
    [xelis_wallet::transaction_builder]: the state it makes it from.

    The traits [FeeHelper] and [AccountState] are classes over the type of
    states.  [RangeProver] stands for the prover of the crate [bulletproofs],
    over the interface of its verifier in [ExternalCrypto]: with openings of
    the same number as the values, a power of two within the capacity of the
    generators, it proves values of 64 bits, the proof is accepted for the
    commitments to the values, and its length is the documented one.  The
    scalars drawn from [OsRng] are the fields of a record, by their use. *)

From Stdlib Require Import SpecFloat.
From S2P Require Import Prelude External ExternalCrypto Serializer Hash Defaults Elgamal Proofs Transaction Verify Data Address ExtraData Account Emission.

(** ** [f64]: binary64, with the conversions of [as] *)

Definition f64 : Type := spec_float.
Definition f64_of_u64 (z : Z) : f64 := binary_normalize 53 1024 z 0 false.
Definition f64_mul (x y : f64) : f64 := SFmul 53 1024 x y.
(** Towards zero, and saturating. *)
Definition f64_to_u64 (x : f64) : Z :=
  match x with
  | S754_finite false m e => Z.min (Z.shiftl (Zpos m) e) u64_max
  | S754_infinity false => u64_max
  | _ => 0
  end.

Definition trailing_zeros (z : Z) : Z := if z =? 0 then 64 else Z.log2 (Z.land z (- z)).

(** ** The errors *)

Module ProofGenerationError.
Inductive ProofGenerationError :=
  | Decompression (e : DecompressionError)
  | InsufficientFunds
  | RangeProof (e : ProofError)
  | Format.
End ProofGenerationError.
Abbreviation ProofGenerationError := ProofGenerationError.ProofGenerationError.

Module GenerationError.
Inductive GenerationError (T : Type) :=
  | State (e : T)
  | EmptyTransfers
  | MaxTransferCountReached
  | SenderIsReceiver
  | ExtraDataTooLarge
  | EncryptedExtraDataTooLarge
  | InvalidNetwork
  | ExtraDataAndIntegratedAddress
  | Proof (e : ProofGenerationError).
Arguments State {T} e.
Arguments EmptyTransfers {T}.
Arguments MaxTransferCountReached {T}.
Arguments SenderIsReceiver {T}.
Arguments ExtraDataTooLarge {T}.
Arguments EncryptedExtraDataTooLarge {T}.
Arguments InvalidNetwork {T}.
Arguments ExtraDataAndIntegratedAddress {T}.
Arguments Proof {T} e.
End GenerationError.
Abbreviation GenerationError := GenerationError.GenerationError.

(** ** The traits *)

Section Traits.
Context {CV : Curve}.

Class FeeHelper (St E : Type) := {
  account_exists : CompressedPublicKey -> St -> res E bool;
}.
Class AccountState (St E : Type) := {
  account_fee_helper :: FeeHelper St E;
  is_mainnet : St -> bool;
  get_account_balance : Hash -> St -> res E Z;
  get_reference : St -> Reference;
  get_account_ciphertext : Hash -> St -> res E CiphertextCache;
  update_account_balance : Hash -> Z -> Ciphertext -> stm St E ();
  get_nonce : St -> res E Z;
  update_nonce : Z -> stm St E ();
}.
End Traits.

(** ** The prover of range proofs *)

Section Prover.
Context {CV : Curve} {ML : Merlin} {RP : RangeProofLib}.

(** The capacity of [BP_GENS] *)
Definition max_parties : nat := MAX_TRANSFER_COUNT * 2 + 2.

Definition value_commitment (v : Z) (r : scalar) : point * vec byte 32 :=
  let c := padd (pmul (s_from_u64 v) G) (pmul r H) in (c, ExternalCrypto.compress c).

Class RangeProver := {
  rp_rng : Type;
  rp_prove_multiple : rp_rng -> transcript -> list Z -> list scalar -> nat -> res ProofError range_proof;
  rp_prove_complete rng t values openings k :
    length values = length openings -> length values = (2 ^ k)%nat -> (length values <= max_parties)%nat ->
    Forall (in_u 64) values ->
    exists p, rp_prove_multiple rng t values openings BULLET_PROOF_SIZE = Ok p /\
      rp_verify_multiple p t (zip_with value_commitment values openings) BULLET_PROOF_SIZE = Ok tt /\
      length (rp_to_bytes p) = (32 * (9 + 2 * (6 + k)))%nat;
}.
End Prover.

(** ** What the builder is given *)

Inductive FeeBuilder := Multiplier (multiplier : f64) | FeeValue (value : Z).
Definition fee_builder_default : FeeBuilder := Multiplier (f64_of_u64 1).

Record TransferBuilder := mkTransferBuilder {
  tb_asset : Hash;
  tb_amount : Z;
  tb_destination : Address;
  tb_extra_data : option DataElement;
}.

Module TypeBuilder.
Inductive TransactionTypeBuilder := Transfers (transfers : list TransferBuilder) | Burn (payload : BurnPayload).

(** The set of the assets, the native one always being used for the fees. *)
Definition used_assets (data : TransactionTypeBuilder) : gset Hash :=
  match data with
  | Transfers transfers => foldl (fun consumed transfer => {[transfer.(tb_asset)]} ∪ consumed) {[XELIS_ASSET]} transfers
  | Burn payload => {[payload.(burn_asset)]} ∪ {[XELIS_ASSET]}
  end.
Definition used_keys (data : TransactionTypeBuilder) : list CompressedPublicKey :=
  match data with
  | Transfers transfers => (fun transfer => transfer.(tb_destination).(Address.key)) <$> transfers
  | Burn _ => []
  end.
End TypeBuilder.
Abbreviation TransactionTypeBuilder := TypeBuilder.TransactionTypeBuilder.

Record TransactionBuilder := mkBuilder {
  b_version : Z;
  b_source : CompressedPublicKey;
  b_data : TransactionTypeBuilder;
  b_fee_builder : FeeBuilder;
}.
Definition with_data (data : TransactionTypeBuilder) (b : TransactionBuilder) : TransactionBuilder :=
  mkBuilder b.(b_version) b.(b_source) data b.(b_fee_builder).

(** ** Sizes, fees and costs *)

Section Costs.
Context {CV : Curve} {HO : HashOrder}.

(** The size of the range proof depends on the number of bits it is about. *)
Definition range_proof_estimate (transfers_count assets_used : nat) : nat :=
  let lg_n := Z.to_nat (trailing_zeros (next_power_of_two (Z.of_nat (BULLET_PROOF_SIZE * (transfers_count + assets_used))))) in
  (RISTRETTO_COMPRESSED_SIZE * 4 + SCALAR_SIZE * 3 + 2 + SCALAR_SIZE * 2 + 2 * RISTRETTO_COMPRESSED_SIZE * lg_n)%nat.

Definition transfer_estimate (transfer : TransferBuilder) : nat :=
  (size transfer.(tb_asset) + size transfer.(tb_destination).(Address.key)
   + RISTRETTO_COMPRESSED_SIZE * 3
   + (RISTRETTO_COMPRESSED_SIZE * 2 + SCALAR_SIZE * 2)
   + 1
   + match (match transfer.(tb_extra_data) with
            | Some extra_data => Some extra_data
            | None => Address.get_extra_data transfer.(tb_destination)
            end) with
     | Some extra_data => 2 + 2 + RISTRETTO_COMPRESSED_SIZE * 2 + size extra_data
     | None => 0
     end)%nat.

Definition estimate_size (b : TransactionBuilder) : nat :=
  let assets_used := stdpp.base.size (TypeBuilder.used_assets b.(b_data)) in
  let sz := (1 + size b.(b_source) + 1 + 8 + 8 + (HASH_SIZE + 8) + 1
    + assets_used * (RISTRETTO_COMPRESSED_SIZE + HASH_SIZE + (RISTRETTO_COMPRESSED_SIZE * 3 + SCALAR_SIZE * 3))
    + SIGNATURE_SIZE)%nat in
  let '(sz, transfers_count) :=
    match b.(b_data) with
    | TypeBuilder.Transfers transfers =>
        (foldl (fun sz transfer => sz + transfer_estimate transfer) (sz + 1) transfers, length transfers)
    | TypeBuilder.Burn payload => (sz + size payload, 0)
    end%nat in
  (sz + range_proof_estimate transfers_count assets_used)%nat.

Definition estimate_fees {St E} {FH : FeeHelper St E} (b : TransactionBuilder) (state : St) : res (GenerationError E) Z :=
  match b.(b_fee_builder) with
  | Multiplier multiplier =>
      let sz := estimate_size b in
      '(transfers, new_addresses) ←
        match b.(b_data) with
        | TypeBuilder.Transfers transfers =>
            new_addresses ← foldM (fun new_addresses transfer =>
              exists_ ← map_err GenerationError.State (account_exists transfer.(tb_destination).(Address.key) state);
              Ok (if negb exists_ then new_addresses + 1 else new_addresses)) 0 transfers;
            Ok (Z.of_nat (length transfers), new_addresses)
        | TypeBuilder.Burn _ => Ok (0, 0)
        end;
      let expected_fee := calculate_tx_fee (Z.of_nat sz) transfers new_addresses in
      Ok (f64_to_u64 (f64_mul (f64_of_u64 expected_fee) multiplier))
  | FeeValue value => Ok value
  end.

Definition get_transaction_cost (b : TransactionBuilder) (fee : Z) (asset : Hash) : Z :=
  let cost := if decide (asset = XELIS_ASSET) then u64_add 0 fee else 0 in
  match b.(b_data) with
  | TypeBuilder.Transfers transfers =>
      foldl (fun cost transfer =>
        if decide (transfer.(tb_asset) = asset) then u64_add cost transfer.(tb_amount) else cost) cost transfers
  | TypeBuilder.Burn payload =>
      if decide (asset = payload.(burn_asset)) then u64_add cost payload.(amount) else cost
  end.

Record TransferWithCommitment := mkTransferWithCommitment {
  twc_inner : TransferBuilder;
  twc_commitment : PedersenCommitment;
  twc_sender_handle : DecryptHandle;
  twc_receiver_handle : DecryptHandle;
  twc_destination : Key.PublicKey;
  twc_amount_opening : PedersenOpening;
}.
Definition twc_get_ciphertext (t : TransferWithCommitment) (role : Role) : Ciphertext :=
  let handle := match role with Receiver => t.(twc_receiver_handle) | Sender => t.(twc_sender_handle) end in
  mkCiphertext t.(twc_commitment) handle.

Definition get_new_source_ct (b : TransactionBuilder) (ct : Ciphertext) (fee : Z) (asset : Hash)
    (transfers : list TransferWithCommitment) : Ciphertext :=
  let ct := if decide (asset = XELIS_ASSET) then ct_sub_scalar ct (s_from_u64 fee) else ct in
  match b.(b_data) with
  | TypeBuilder.Transfers _ =>
      foldl (fun ct transfer =>
        if decide (transfer.(twc_inner).(tb_asset) = asset) then ct_sub ct (twc_get_ciphertext transfer Sender) else ct)
        ct transfers
  | TypeBuilder.Burn payload =>
      if decide (asset = payload.(burn_asset)) then ct_sub_scalar ct (s_from_u64 payload.(amount)) else ct
  end.
End Costs.

(** ** [build] *)

(** What [OsRng] gives, by its use. *)
Record Draws {CV : Curve} {ML : Merlin} {RP : RangeProofLib} {PR : RangeProver} := mkDraws {
  amount_openings : nat -> scalar;
  source_openings : nat -> scalar;
  eq_masks : nat -> scalar * scalar * scalar;
  validity_masks : nat -> scalar * scalar;
  extra_openings : nat -> scalar;
  range_rng : rp_rng;
  signature_nonce : scalar;
}.

Section Build.
Context {CV : Curve} {ML : Merlin} {RP : RangeProofLib} {PR : RangeProver} {CL : CipherLib}.
Context {HO : HashOrder} {HM : HashMapIter}.
Context {St E : Type} {AS : AccountState St E}.

(** [TransactionSigner]: a transaction without its signature. *)
Record TransactionSigner := mkSigner {
  s_version : Z;
  s_source : CompressedPublicKey;
  s_data : TransactionType;
  s_fee : Z;
  s_nonce : Z;
  s_source_commitments : list SourceCommitment;
  s_reference : Reference;
  s_range_proof : range_proof;
}.

#[export] Instance TransactionSigner_Serializer : Serializer TransactionSigner := {|
  write x w :=
    let w := Writer.write_u8 x.(s_version) w in
    let w := write x.(s_source) w in
    let w := write x.(s_data) w in
    let w := Writer.write_u64 x.(s_fee) w in
    let w := Writer.write_u64 x.(s_nonce) w in
    let w := Writer.write_u8 (wrap 8 (Z.of_nat (length x.(s_source_commitments)))) w in
    let w := foldl (fun w commitment => write commitment w) w x.(s_source_commitments) in
    let w := write x.(s_range_proof) w in
    write x.(s_reference) w;
  read := rd_err Serializer.InvalidValue;
  size _ := 0%nat;
|}.

Definition sign (x : TransactionSigner) (keypair : Key.KeyPair) (k : scalar) : Transaction :=
  let bytes := to_bytes x in
  let signature := Key.sign keypair k bytes in
  mkTransaction x.(s_version) x.(s_source) x.(s_data) x.(s_fee) x.(s_nonce) x.(s_source_commitments)
    x.(s_range_proof) x.(s_reference) signature.

Local Abbreviation GE := (GenerationError E).
Definition gen_state {A} (m : res E A) : res GE A := map_err GenerationError.State m.
Definition gen_proof {A} (m : res ProofGenerationError A) : res GE A := map_err GenerationError.Proof m.

(** One turn of the loop that checks the transfers and takes the data of an
    integrated address. *)
Definition check_transfer (mainnet : bool) (pk : CompressedPublicKey)
    (acc : nat * list TransferBuilder) (transfer : TransferBuilder) : res GE (nat * list TransferBuilder) :=
  let '(extra_data_size, checked) := acc in
  let destination := transfer.(tb_destination) in
  if decide (destination.(Address.key) = pk) then Err GenerationError.SenderIsReceiver
  else if negb (Bool.eqb mainnet destination.(Address.mainnet)) then Err GenerationError.InvalidNetwork
  else if bool_decide (is_Some transfer.(tb_extra_data)) && negb (Address.is_normal destination)
  then Err GenerationError.ExtraDataAndIntegratedAddress
  else
    let '(extracted, destination) := Address.extract_data_only destination in
    let extra_data := match extracted with Some extra_data => Some extra_data | None => transfer.(tb_extra_data) end in
    let transfer := mkTransferBuilder transfer.(tb_asset) transfer.(tb_amount) destination extra_data in
    let extra_data_size :=
      match extra_data with Some extra_data => extra_data_size + size extra_data | None => extra_data_size end%nat in
    Ok (extra_data_size, checked ++ [transfer]).

Definition check_transfers (mainnet : bool) (pk : CompressedPublicKey) (transfers : list TransferBuilder)
  : res GE (list TransferBuilder) :=
  if (length transfers =? 0)%nat then Err GenerationError.EmptyTransfers
  else if (MAX_TRANSFER_COUNT <? length transfers)%nat then Err GenerationError.MaxTransferCountReached
  else
    '(extra_data_size, transfers) ← foldM (check_transfer mainnet pk) (0%nat, []) transfers;
    if (EXTRA_DATA_LIMIT_SIZE <? extra_data_size)%nat then Err GenerationError.ExtraDataTooLarge
    else Ok transfers.

Definition commit_transfer (source_keypair : Key.KeyPair) (p : scalar * TransferBuilder) : res GE TransferWithCommitment :=
  let '(opening, transfer) := p in
  destination ← gen_proof (map_err ProofGenerationError.Decompression
                             (Key.decompress transfer.(tb_destination).(Address.key)));
  let amount_opening := mkOpening opening in
  let commitment := pedersen_with_opening (s_from_u64 transfer.(tb_amount)) amount_opening in
  let sender_handle := Key.decrypt_handle source_keypair.(Key.public_key) amount_opening in
  let receiver_handle := Key.decrypt_handle destination amount_opening in
  Ok (mkTransferWithCommitment transfer commitment sender_handle receiver_handle destination amount_opening).

(** The transfers once checked, and committed to. *)
Definition prepare_transfers (mainnet : bool) (source_keypair : Key.KeyPair) (rng : Draws) (data : TransactionTypeBuilder)
  : res GE (TransactionTypeBuilder * list TransferWithCommitment) :=
  match data with
  | TypeBuilder.Transfers transfers =>
      let pk := Key.compress source_keypair.(Key.public_key) in
      transfers ← check_transfers mainnet pk transfers;
      commitments ← mapMr (commit_transfer source_keypair)
                      (zip (rng.(amount_openings) <$> seq 0 (length transfers)) transfers);
      Ok (TypeBuilder.Transfers transfers, commitments)
  | TypeBuilder.Burn payload => Ok (data, [])
  end.

Definition checked_sub (a b : Z) : option Z := if b <=? a then Some (a - b) else None.

Definition source_new_balance (b : TransactionBuilder) (fee : Z) (state : St) (asset : Hash) : res GE Z :=
  let cost := get_transaction_cost b fee asset in
  balance ← gen_state (get_account_balance asset state);
  gen_proof (ok_or (checked_sub balance cost) ProofGenerationError.InsufficientFunds).

(** The proof that the commitment is to what is left to the source. *)
Definition prove_source (source_keypair : Key.KeyPair) (masks : scalar * scalar * scalar) (asset : Hash)
    (opening : scalar) (value : Z) (new_source_ciphertext : Ciphertext) (t : transcript) : SourceCommitment * transcript :=
  let '(y_s, y_x, y_r) := masks in
  let new_source_opening := mkOpening opening in
  let commitment := pedersen_compress (pedersen_with_opening (s_from_u64 value) new_source_opening) in
  let t := Transcript.new_commitment_eq_proof_domain_separator t in
  let t := Transcript.append_hash (lit "new_source_commitment_asset") asset t in
  let t := Transcript.append_commitment (lit "new_source_commitment") commitment t in
  let '(proof, t) := eq_proof_new source_keypair new_source_ciphertext new_source_opening value y_s y_x y_r t in
  (mkSourceCommitment commitment proof asset, t).

(** One turn of the loop over the assets. *)
Definition commit_source (b : TransactionBuilder) (source_keypair : Key.KeyPair) (rng : Draws) (fee : Z)
    (transfers : list TransferWithCommitment) (acc : transcript * list SourceCommitment)
    (p : Hash * scalar * Z) : stm St GE (transcript * list SourceCommitment) :=
  let '(t, commitments) := acc in
  let '(asset, opening, value) := p in
  state ← st_get;
  cache ← lift_res (gen_state (get_account_ciphertext asset state));
  source_current_ciphertext ←
    lift_res (gen_proof (map_err ProofGenerationError.Decompression (take_ciphertext cache)));
  let new_source_ciphertext := get_new_source_ct b source_current_ciphertext fee asset transfers in
  let '(commitment, t) :=
    prove_source source_keypair (rng.(eq_masks) (length commitments)) asset opening value new_source_ciphertext t in
  _ ← st_map_err GenerationError.State (update_account_balance asset value new_source_ciphertext);
  mret (t, commitments ++ [commitment]).

(** The proof that the receiver can read the amount. *)
Definition prove_transfer (masks : scalar * scalar) (transfer : TransferWithCommitment) (t : transcript)
  : CiphertextValidityProof * transcript :=
  let '(y_r, y_x) := masks in
  let t := Transcript.transfer_proof_domain_separator t in
  let t := Transcript.append_public_key (lit "dest_pubkey") transfer.(twc_inner).(tb_destination).(Address.key) t in
  let t := Transcript.append_commitment (lit "amount_commitment") (pedersen_compress transfer.(twc_commitment)) t in
  let t := Transcript.append_handle (lit "amount_sender_handle") (handle_compress transfer.(twc_sender_handle)) t in
  let t := Transcript.append_handle (lit "amount_receiver_handle") (handle_compress transfer.(twc_receiver_handle)) t in
  validity_proof_new transfer.(twc_destination) transfer.(twc_inner).(tb_amount) transfer.(twc_amount_opening) y_r y_x t.

(** The values and the openings the range proof is made for grow with the
    payloads. *)
Record Proving := mkProving {
  pv_transcript : transcript;
  pv_values : list Z;
  pv_openings : list scalar;
  pv_cipher_size : nat;
  pv_payloads : list TransferPayload;
}.

Definition encrypt_extra_data (source_keypair : Key.KeyPair) (opening : scalar) (transfer : TransferWithCommitment)
    (total_cipher_size : nat) : res GE (option UnknownExtraDataFormat * nat) :=
  match transfer.(twc_inner).(tb_extra_data) with
  | Some extra_data =>
      let bytes := to_bytes extra_data in
      let cipher := extra_new (mkOpening opening) (mkPlaintext bytes) source_keypair.(Key.public_key) transfer.(twc_destination) in
      let cipher_size := size cipher in
      if (EXTRA_DATA_LIMIT_SIZE <? cipher_size)%nat then Err GenerationError.EncryptedExtraDataTooLarge
      else Ok (Some (from_extra_data cipher), (total_cipher_size + cipher_size)%nat)
  | None => Ok (None, total_cipher_size)
  end.

Definition build_transfer (source_keypair : Key.KeyPair) (rng : Draws) (p : Proving) (transfer : TransferWithCommitment)
  : res GE Proving :=
  let i := length p.(pv_payloads) in
  let '(ct_validity_proof, t) := prove_transfer (rng.(validity_masks) i) transfer p.(pv_transcript) in
  let values := p.(pv_values) ++ [transfer.(twc_inner).(tb_amount)] in
  let openings := p.(pv_openings) ++ [transfer.(twc_amount_opening).(opening_scalar)] in
  '(extra_data, total_cipher_size) ← encrypt_extra_data source_keypair (rng.(extra_openings) i) transfer p.(pv_cipher_size);
  let payload := mkTransfer transfer.(twc_inner).(tb_asset) transfer.(twc_inner).(tb_destination).(Address.key) extra_data
    (pedersen_compress transfer.(twc_commitment)) (handle_compress transfer.(twc_sender_handle))
    (handle_compress transfer.(twc_receiver_handle)) ct_validity_proof in
  Ok (mkProving t values openings total_cipher_size (p.(pv_payloads) ++ [payload])).

(** The transfers of the transaction, and what the range proof is made of. *)
Definition build_transfers (data : TransactionTypeBuilder) (source_keypair : Key.KeyPair) (rng : Draws)
    (transfers : list TransferWithCommitment) (p : Proving) : res GE Proving :=
  match data with
  | TypeBuilder.Transfers _ =>
      p ← foldM (build_transfer source_keypair rng) p transfers;
      if (EXTRA_DATA_LIMIT_SIZE <? p.(pv_cipher_size))%nat then Err GenerationError.EncryptedExtraDataTooLarge
      else Ok p
  | TypeBuilder.Burn _ => Ok p
  end.

(** The range proof, over a power of two of values. *)
Definition prove_range (rng : Draws) (p : Proving) : res GE range_proof :=
  let n_commitments := Z.of_nat (length p.(pv_values)) in
  n_pow ← gen_proof (ok_or (checked_next_power_of_two n_commitments) ProofGenerationError.Format);
  let n_dud_commitments := Z.to_nat (n_pow - n_commitments) in
  gen_proof (map_err ProofGenerationError.RangeProof
    (rp_prove_multiple rng.(range_rng) p.(pv_transcript) (p.(pv_values) ++ replicate n_dud_commitments 0)
       (p.(pv_openings) ++ replicate n_dud_commitments s0) BULLET_PROOF_SIZE)).

Definition build (b : TransactionBuilder) (source_keypair : Key.KeyPair) (rng : Draws) : stm St GE Transaction :=
  state ← st_get;
  fee ← lift_res (estimate_fees b state);
  nonce ← lift_res (gen_state (get_nonce state));
  _ ← st_map_err GenerationError.State (update_nonce (u64_add nonce 1));
  let used_assets := hs_iter (TypeBuilder.used_assets b.(b_data)) in
  state ← st_get;
  '(data, transfers) ← lift_res (prepare_transfers (is_mainnet state) source_keypair rng b.(b_data));
  let b := with_data data b in
  let reference := get_reference state in
  let t := prepare_transcript b.(b_version) b.(b_source) fee nonce in
  let range_proof_openings := rng.(source_openings) <$> seq 0 (length used_assets) in
  range_proof_values ← lift_res (mapMr (source_new_balance b fee state) used_assets);
  '(t, source_commitments) ← foldMs (commit_source b source_keypair rng fee transfers) (t, [])
    (zip (zip used_assets range_proof_openings) range_proof_values);
  p ← lift_res (build_transfers data source_keypair rng transfers
                  (mkProving t range_proof_values range_proof_openings 0 []));
  range_proof ← lift_res (prove_range rng p);
  let data := match data with
              | TypeBuilder.Transfers _ => Transfers p.(pv_payloads)
              | TypeBuilder.Burn payload => Burn payload
              end in
  mret (sign (mkSigner b.(b_version) b.(b_source) data fee nonce source_commitments reference range_proof)
          source_keypair rng.(signature_nonce)).
End Build.
