(* ===== verification/WalletState.v ===== *)
(** [xelis_wallet::transaction_builder]: the state a wallet builds its
    transactions from, an implementation of [AccountState].

    Of [WalletError] only the variants this file returns are listed.  Writing
    the state back to the encrypted storage is not modelled. *)

From S2P Require Import Prelude External ExternalCrypto Serializer Hash Defaults Elgamal Transaction Data Address Account Builder.

Section WalletState.
Context {CV : Curve}.

Inductive WalletError := BalanceNotFound (asset : Hash) | TxNotBuilt.

(** [storage.rs] *)
Record Balance := mkBalance { b_amount : Z; b_ciphertext : CiphertextCache }.

Record EstimateFeesState := mkEstimate { registered_keys : gset PublicKey }.
Definition estimate_new : EstimateFeesState := mkEstimate ∅.
Definition estimate_set_registered_keys (keys : gset PublicKey) (s : EstimateFeesState) : EstimateFeesState := mkEstimate keys.
Definition estimate_add_registered_key (key : PublicKey) (s : EstimateFeesState) : EstimateFeesState :=
  mkEstimate ({[key]} ∪ s.(registered_keys)).

#[export] Instance estimate_fee_helper : FeeHelper EstimateFeesState WalletError := {|
  account_exists key s := Ok (bool_decide ((key : PublicKey) ∈ s.(registered_keys)));
|}.

Record TransactionBuilderState := mkState {
  ts_inner : EstimateFeesState;
  ts_mainnet : bool;
  ts_balances : gmap Hash Balance;
  ts_reference : Reference;
  ts_nonce : Z;
  ts_tx_hash_built : option Hash;
}.

Definition state_new (mainnet : bool) (reference : Reference) (nonce : Z) : TransactionBuilderState :=
  mkState estimate_new mainnet ∅ reference nonce None.
Definition set_balances (balances : gmap Hash Balance) (s : TransactionBuilderState) : TransactionBuilderState :=
  mkState s.(ts_inner) s.(ts_mainnet) balances s.(ts_reference) s.(ts_nonce) s.(ts_tx_hash_built).
Definition add_balance (asset : Hash) (balance : Balance) (s : TransactionBuilderState) : TransactionBuilderState :=
  set_balances (<[asset := balance]> s.(ts_balances)) s.
Definition with_inner (inner : EstimateFeesState) (s : TransactionBuilderState) : TransactionBuilderState :=
  mkState inner s.(ts_mainnet) s.(ts_balances) s.(ts_reference) s.(ts_nonce) s.(ts_tx_hash_built).
Definition set_registered_keys (keys : gset PublicKey) (s : TransactionBuilderState) : TransactionBuilderState :=
  with_inner (estimate_set_registered_keys keys s.(ts_inner)) s.
Definition add_registered_key (key : PublicKey) (s : TransactionBuilderState) : TransactionBuilderState :=
  with_inner (estimate_add_registered_key key s.(ts_inner)) s.
Definition set_tx_hash_built (tx_hash : Hash) (s : TransactionBuilderState) : TransactionBuilderState :=
  mkState s.(ts_inner) s.(ts_mainnet) s.(ts_balances) s.(ts_reference) s.(ts_nonce) (Some tx_hash).
Definition write_nonce (nonce : Z) (s : TransactionBuilderState) : TransactionBuilderState :=
  mkState s.(ts_inner) s.(ts_mainnet) s.(ts_balances) s.(ts_reference) nonce s.(ts_tx_hash_built).

Definition find_balance (asset : Hash) (s : TransactionBuilderState) : res WalletError Balance :=
  ok_or (s.(ts_balances) !! asset) (BalanceNotFound asset).

#[export] Instance state_fee_helper : FeeHelper TransactionBuilderState WalletError := {|
  account_exists key s := account_exists key s.(ts_inner);
|}.
#[export] Instance state_account : AccountState TransactionBuilderState WalletError := {|
  is_mainnet := ts_mainnet;
  get_reference := ts_reference;
  get_account_balance asset s := b ← find_balance asset s; Ok b.(b_amount);
  get_account_ciphertext asset s := b ← find_balance asset s; Ok b.(b_ciphertext);
  update_account_balance asset new_balance ciphertext :=
    st_modify (add_balance asset (mkBalance new_balance (Decompressed ciphertext)));
  get_nonce s := Ok s.(ts_nonce);
  update_nonce new_nonce := st_modify (write_nonce new_nonce);
|}.
End WalletState.
