(* ===== verification/BuilderFacts.v ===== *)
(** What [build] does with the state of the wallet, and what a transaction it
    returns is made of.

    Then how [verify] goes on such a transaction: the ciphertexts of the two
    sides are the same, each proof is accepted where it was made, and the two
    transcripts stay equal. *)

From S2P Require Import Prelude External ExternalCrypto Serializer Hash Defaults Elgamal Proofs Transaction Verify Data Address ExtraData Account Emission Builder VerifyFacts.

(** ** The state of a wallet *)

Section Laws.
Context {CV : Curve} {St E : Type} {AS : AccountState St E}.

(** What an implementation promises: a balance and its ciphertext are two
    parts of one entry, and a write changes one entry or the nonce. *)
Class AccountLaws := {
  acc_view : St -> Hash -> option (Z * CiphertextCache);
  acc_nonce : St -> Z;
  law_balance a s v : get_account_balance a s = Ok v -> exists k, acc_view s a = Some (v, k);
  law_ciphertext a s k : get_account_ciphertext a s = Ok k -> exists v, acc_view s a = Some (v, k);
  law_update_balance a v c s s' :
    update_account_balance a v c s = (Ok tt, s') ->
    (exists k, take_ciphertext k = Ok c /\ forall b, acc_view s' b = fn_upd a (Some (v, k)) (acc_view s) b) /\
    acc_nonce s' = acc_nonce s /\ get_reference s' = get_reference s;
  law_nonce s n : get_nonce s = Ok n -> acc_nonce s = n;
  law_write_nonce n s s' :
    update_nonce n s = (Ok tt, s') ->
    acc_nonce s' = n /\ (forall b, acc_view s' b = acc_view s b) /\ get_reference s' = get_reference s;
}.
End Laws.

(** ** Results of the functions that may fail *)

Section Results.
Context {CV : Curve} {ML : Merlin} {RP : RangeProofLib} {PR : RangeProver} {CL : CipherLib}.
Context {HO : HashOrder} {HM : HashMapIter}.
Context {St E : Type} {AS : AccountState St E}.

Lemma lift_res_ok {S F A} (m : res F A) (s : S) a s' : lift_res m s = (Ok a, s') <-> m = Ok a /\ s' = s.
Proof. unfold lift_res. split; [by intros [= -> ->]|by intros [-> ->]]. Qed.
Lemma st_map_err_inv {S F F' A} (f : F -> F') (m : stm S F A) s a s' :
  st_map_err f m s = (Ok a, s') <-> m s = (Ok a, s').
Proof. unfold st_map_err. destruct (m s) as [[?| | |] ?]; simpl; split; naive_solver. Qed.
Lemma gen_state_ok {A} (m : res E A) a : gen_state m = Ok a -> m = Ok a.
Proof. apply map_err_ok. Qed.
Lemma gen_proof_ok {A} (m : res ProofGenerationError A) a : gen_proof (E:=E) m = Ok a -> m = Ok a.
Proof. apply map_err_ok. Qed.
Lemma ok_or_ok {A F} (m : option A) (e : F) a : ok_or m e = Ok a <-> m = Some a.
Proof. destruct m; simpl; naive_solver. Qed.
Lemma foldM_cons_ok {F A B} (f : B -> A -> res F B) b a l b' :
  foldM f b (a :: l) = Ok b' <-> exists b1, f b a = Ok b1 /\ foldM f b1 l = Ok b'.
Proof. simpl. apply res_bind_ok. Qed.

(** ** The transfers, once checked *)

(** What is kept of a transfer: its asset, amount and key, and its own data or
    that of its address. *)
Definition checked_of (t : TransferBuilder) : TransferBuilder :=
  mkTransferBuilder t.(tb_asset) t.(tb_amount) (Address.extract_data_only t.(tb_destination)).2
    match (Address.extract_data_only t.(tb_destination)).1 with
    | Some e => Some e
    | None => t.(tb_extra_data)
    end.

Lemma check_transfer_ok m pk acc t acc' :
  check_transfer (E:=E) m pk acc t = Ok acc' ->
  t.(tb_destination).(Address.key) <> pk /\ acc'.2 = acc.2 ++ [checked_of t] /\
  (t.(tb_extra_data) = None \/ Address.get_extra_data t.(tb_destination) = None).
Proof.
  unfold check_transfer. destruct acc as [n l]. case_decide as Hk; [done|].
  destruct (negb (Bool.eqb _ _)); [done|].
  destruct (bool_decide (is_Some _) && _) eqn:Hb; [done|]. unfold checked_of.
  assert (tb_extra_data t = None \/ Address.get_extra_data (tb_destination t) = None) as He.
  { destruct (tb_extra_data t); [right|by left]. simpl in Hb. apply negb_false_iff in Hb.
    unfold Address.is_normal, Address.get_extra_data in *. by destruct (addr_type (tb_destination t)). }
  destruct (extract_data_only (tb_destination t)) as [x d]. intros [= <-]. done.
Qed.

Lemma check_loop_ok m pk l acc acc' :
  foldM (check_transfer (E:=E) m pk) acc l = Ok acc' ->
  Forall (fun t => t.(tb_destination).(Address.key) <> pk) l /\ acc'.2 = acc.2 ++ (checked_of <$> l) /\
  Forall (fun t => t.(tb_extra_data) = None \/ Address.get_extra_data t.(tb_destination) = None) l.
Proof.
  revert acc. induction l as [|t l IH]; intros acc; [intros [= <-]; by rewrite app_nil_r|].
  intros (acc1 & (Hk & Hc & He)%check_transfer_ok & (Hks & Hcs & Hes)%IH)%foldM_cons_ok.
  split; [by constructor|]. split; [|by constructor]. rewrite Hcs, Hc, <- (assoc_L (++)). done.
Qed.

Lemma check_transfers_spec m pk l l' :
  check_transfers (E:=E) m pk l = Ok l' ->
  l' = checked_of <$> l /\ (1 <= length l <= MAX_TRANSFER_COUNT)%nat /\
  Forall (fun t => t.(tb_destination).(Address.key) <> pk) l /\
  Forall (fun t => t.(tb_extra_data) = None \/ Address.get_extra_data t.(tb_destination) = None) l.
Proof.
  unfold check_transfers. destruct (Nat.eqb_spec (length l) 0) as [|Hn]; [done|].
  destruct (Nat.ltb_spec MAX_TRANSFER_COUNT (length l)) as [|Hm]; [done|].
  intros ([n l1] & (Hk & Hc & He)%check_loop_ok & Hr)%res_bind_ok.
  destruct (_ <? _)%nat; [done|]. injection Hr as <-. simpl in Hc. split; [done|]. split; [lia|done].
Qed.

(** *** The commitments to the amounts *)

Definition twc_of (pair : Key.KeyPair) (opening : scalar) (t : TransferBuilder) (dest : Key.PublicKey) : TransferWithCommitment :=
  mkTransferWithCommitment t (pedersen_with_opening (s_from_u64 t.(tb_amount)) (mkOpening opening))
    (Key.decrypt_handle pair.(Key.public_key) (mkOpening opening)) (Key.decrypt_handle dest (mkOpening opening))
    dest (mkOpening opening).

Definition committed (pair : Key.KeyPair) (t : TransferBuilder) (tw : TransferWithCommitment) : Prop :=
  exists opening dest, Key.decompress t.(tb_destination).(Address.key) = Ok dest /\ tw = twc_of pair opening t dest.

Lemma commit_transfer_ok pair o t tw :
  commit_transfer (E:=E) pair (o, t) = Ok tw -> committed pair t tw.
Proof.
  intros (dest & Hd%gen_proof_ok%map_err_ok & [= <-])%res_bind_ok. by exists o, dest.
Qed.

Lemma prepare_transfers_ok m pair rng data data' ts :
  prepare_transfers (E:=E) m pair rng data = Ok (data', ts) ->
  match data with
  | TypeBuilder.Burn p => data' = data /\ ts = []
  | TypeBuilder.Transfers l =>
      data' = TypeBuilder.Transfers (checked_of <$> l) /\ Forall2 (committed pair) (checked_of <$> l) ts /\
      (1 <= length l <= MAX_TRANSFER_COUNT)%nat /\
      Forall (fun t => t.(tb_destination).(Address.key) <> Key.compress pair.(Key.public_key)) l /\
      Forall (fun t => t.(tb_extra_data) = None \/ Address.get_extra_data t.(tb_destination) = None) l
  end.
Proof.
  unfold prepare_transfers. destruct data as [l|p]; [|by intros [= <- <-]].
  intros (l1 & Hc%check_transfers_spec & (tws & Hm%mapMr_Forall2 & [= <- <-])%res_bind_ok)%res_bind_ok.
  destruct Hc as (-> & Hn & Hk & He). split; [done|]. split; [|done]. clear -Hm.
  remember (checked_of <$> l) as l1 eqn:E1. clear E1.
  assert (forall os, length os = length l1 -> Forall2 (fun a b => commit_transfer (E:=E) pair a = Ok b) (zip os l1) tws ->
    Forall2 (committed pair) l1 tws) as Hz.
  { clear Hm. revert tws. induction l1 as [|t l1 IH]; intros tws [|o os] Hl Hf; try done; simpl in *.
    - by inversion Hf.
    - inversion Hf as [|? tw ? tws' Ht Hts]; subst. constructor; [by eapply commit_transfer_ok|].
      apply (IH _ os); [lia|done]. }
  eapply Hz; [|exact Hm]. by rewrite length_fmap, length_seq.
Qed.
End Results.

(** ** The commitments to what is left to the source *)

Section Sources.
Context {CV : Curve} {ML : Merlin} {RP : RangeProofLib} {PR : RangeProver} {CL : CipherLib}.
Context {HO : HashOrder} {HM : HashMapIter}.
Context {St E : Type} {AS : AccountState St E} {AL : AccountLaws}.

(** An asset, the opening and the value of its commitment, and the ciphertext
    that is left. *)
Record Item := mkItem { it_asset : Hash; it_opening : scalar; it_value : Z; it_ct : Ciphertext }.

(** The proofs of the items one after the other, from one transcript to the other. *)
Inductive proved (pair : Key.KeyPair) : transcript -> list Item -> list SourceCommitment -> transcript -> Prop :=
  | proved_nil t : proved pair t [] [] t
  | proved_cons t x xs masks sc t1 scs t2 :
      prove_source pair masks x.(it_asset) x.(it_opening) x.(it_value) x.(it_ct) t = (sc, t1) ->
      proved pair t1 xs scs t2 -> proved pair t (x :: xs) (sc :: scs) t2.

(** An entry of a wallet before and after. *)
Definition item_read (b : TransactionBuilder) (fee : Z) (ts : list TransferWithCommitment) (s : St) (x : Item) : Prop :=
  exists v k c, acc_view s x.(it_asset) = Some (v, k) /\ take_ciphertext k = Ok c /\
    x.(it_ct) = get_new_source_ct b c fee x.(it_asset) ts.
Definition item_written (s : St) (x : Item) : Prop :=
  exists k, acc_view s x.(it_asset) = Some (x.(it_value), k) /\ take_ciphertext k = Ok x.(it_ct).

Definition item_key (x : Item) : Hash * scalar * Z := (x.(it_asset), x.(it_opening), x.(it_value)).

Lemma commit_source_ok b pair rng fee ts t scs p s t' scs' s' :
  commit_source b pair rng fee ts (t, scs) p s = (Ok (t', scs'), s') ->
  exists x sc masks, item_key x = p /\ scs' = scs ++ [sc] /\
    prove_source pair masks x.(it_asset) x.(it_opening) x.(it_value) x.(it_ct) t = (sc, t') /\
    item_read b fee ts s x /\ item_written s' x /\
    (forall a, a <> x.(it_asset) -> acc_view s' a = acc_view s a) /\
    acc_nonce s' = acc_nonce s /\ get_reference s' = get_reference s.
Proof.
  unfold commit_source. destruct p as [[asset opening] value]. intros Hr.
  apply stm_bind_ok in Hr as (st & s1 & [= <- <-] & Hr).
  apply stm_bind_ok in Hr as (cache & s1 & [Hc%gen_state_ok ->]%lift_res_ok & Hr).
  apply stm_bind_ok in Hr as (c & s1 & [Ht%gen_proof_ok%map_err_ok ->]%lift_res_ok & Hr).
  destruct (prove_source _ _ _ _ _ _ _) as [sc t1] eqn:Hp.
  apply stm_bind_ok in Hr as ([] & s1 & Hu%st_map_err_inv & Hr). apply mret_ok in Hr as [[= <- <-] ->].
  apply law_update_balance in Hu as ((k & Hk & Hv) & Hn & Href).
  apply law_ciphertext in Hc as [v Hc].
  exists (mkItem asset opening value (get_new_source_ct b c fee asset ts)), sc, (rng.(eq_masks) (length scs)).
  split; [done|]. split; [done|]. split; [exact Hp|]. split; [by exists v, cache, c|]. split.
  { exists k. by rewrite Hv, fn_upd_eq. }
  split; [|done]. intros a Ha. by rewrite Hv, fn_upd_ne.
Qed.

Lemma commit_sources_ok b pair rng fee ts l t scs s t' scs' s' :
  NoDup l.*1.*1 ->
  foldMs (commit_source b pair rng fee ts) (t, scs) l s = (Ok (t', scs'), s') ->
  exists items new, item_key <$> items = l /\ scs' = scs ++ new /\ proved pair t items new t' /\
    Forall (item_read b fee ts s) items /\ Forall (item_written s') items /\
    (forall a, a ∉ l.*1.*1 -> acc_view s' a = acc_view s a) /\
    acc_nonce s' = acc_nonce s /\ get_reference s' = get_reference s.
Proof.
  revert t scs s. induction l as [|p l IH]; intros t scs s Hnd Hr.
  { apply mret_ok in Hr as [[= <- <-] ->]. exists [], []. rewrite app_nil_r. repeat split; constructor. }
  csimpl in Hnd. apply list.NoDup_cons in Hnd as [Hp Hnd].
  apply stm_bind_ok in Hr as ([t1 scs1] & s1 & Hc%commit_source_ok & Hr).
  destruct Hc as (x & sc & m & <- & -> & Hpr & Hread & (k & Hw1 & Hw2) & Hoth & Hn & Href).
  apply IH in Hr as (items & new & <- & -> & Hps & Hreads & Hws & Hoths & Hn' & Href'); [|done].
  assert (forall y, y ∈ items -> y.(it_asset) <> x.(it_asset)) as Hne.
  { intros y Hy E0. apply Hp. simpl. rewrite <- E0, <- !list_fmap_compose. apply list_elem_of_fmap.
    by exists y. }
  exists (x :: items), (sc :: new). split; [done|]. split; [by rewrite <- (assoc_L (++))|].
  split; [by econstructor|]. split.
  { constructor; [done|]. apply list.Forall_forall. intros y Hy. rewrite list.Forall_forall in Hreads.
    destruct (Hreads y Hy) as (v & k' & c & Hv & Hrest). exists v, k', c. by rewrite <- Hoth by auto. }
  split.
  { constructor; [|done]. exists k. split; [|done]. by rewrite Hoths. }
  split; [|split; congruence]. intros a Ha. csimpl in Ha. apply not_elem_of_cons in Ha as [Ha1 Ha2].
  by rewrite Hoths, Hoth.
Qed.

Lemma proved_assets pair t items scs t' :
  proved pair t items scs t' -> sc_asset <$> scs = it_asset <$> items.
Proof.
  induction 1 as [|t x xs masks sc t1 scs t2 Hp _ IH]; [done|]. csimpl. rewrite IH. f_equal.
  unfold prove_source in Hp. destruct masks as [[y_s y_x] y_r].
  destruct (eq_proof_new _ _ _ _ _ _ _ _) as [p t0]. by injection Hp as <- _.
Qed.
End Sources.

(** ** The transfers of the transaction *)

Section Payloads.
Context {CV : Curve} {ML : Merlin} {RP : RangeProofLib} {PR : RangeProver} {CL : CipherLib}.
Context {HO : HashOrder} {HM : HashMapIter}.
Context {E : Type}.

Definition payload_of (tw : TransferWithCommitment) (extra : option UnknownExtraDataFormat)
    (proof : CiphertextValidityProof) : TransferPayload :=
  mkTransfer tw.(twc_inner).(tb_asset) tw.(twc_inner).(tb_destination).(Address.key) extra
    (pedersen_compress tw.(twc_commitment)) (handle_compress tw.(twc_sender_handle))
    (handle_compress tw.(twc_receiver_handle)) proof.

(** The data of a transfer is encrypted for its two ends. *)
Definition encrypted (pair : Key.KeyPair) (tw : TransferWithCommitment) (extra : option UnknownExtraDataFormat) : Prop :=
  match tw.(twc_inner).(tb_extra_data) with
  | Some e => exists opening, extra = Some (from_extra_data
      (extra_new opening (mkPlaintext (to_bytes e)) pair.(Key.public_key) tw.(twc_destination)))
  | None => extra = None
  end.

Inductive transfers_proved (pair : Key.KeyPair) :
    transcript -> list TransferWithCommitment -> list TransferPayload -> transcript -> Prop :=
  | transfers_proved_nil t : transfers_proved pair t [] [] t
  | transfers_proved_cons t tw tws masks extra proof t1 ps t2 :
      prove_transfer masks tw t = (proof, t1) -> encrypted pair tw extra ->
      transfers_proved pair t1 tws ps t2 ->
      transfers_proved pair t (tw :: tws) (payload_of tw extra proof :: ps) t2.

Lemma encrypt_extra_data_ok pair o tw n extra n' :
  encrypt_extra_data (E:=E) pair o tw n = Ok (extra, n') -> encrypted pair tw extra.
Proof.
  unfold encrypt_extra_data, encrypted. destruct (tb_extra_data _) as [e|]; [|by intros [= <- _]].
  destruct (_ <? _)%nat; [done|]. intros [= <- _]. by eexists.
Qed.

Lemma build_loop_ok pair rng tws p p' :
  foldM (build_transfer (E:=E) pair rng) p tws = Ok p' ->
  exists ps, p'.(pv_payloads) = p.(pv_payloads) ++ ps /\
    transfers_proved pair p.(pv_transcript) tws ps p'.(pv_transcript) /\
    p'.(pv_values) = p.(pv_values) ++ ((fun tw => tw.(twc_inner).(tb_amount)) <$> tws) /\
    p'.(pv_openings) = p.(pv_openings) ++ ((fun tw => tw.(twc_amount_opening).(opening_scalar)) <$> tws).
Proof.
  revert p. induction tws as [|tw tws IH]; intros p.
  { intros [= <-]. exists []. rewrite !app_nil_r. repeat split. constructor. }
  intros (p1 & Hb & Hr)%foldM_cons_ok. unfold build_transfer in Hb.
  destruct (prove_transfer _ tw _) as [proof t1] eqn:Hp.
  apply res_bind_ok in Hb as ([extra n] & He%encrypt_extra_data_ok & Hb). injection Hb as <-.
  apply IH in Hr as (ps & Hps & Ht & Hv & Ho). cbn [pv_payloads pv_transcript pv_values pv_openings] in *.
  exists (payload_of tw extra proof :: ps). rewrite Hps, Hv, Ho, <- !(assoc_L (++)).
  split; [done|]. split; [|done]. by econstructor.
Qed.

Lemma build_transfers_ok data pair rng tws p p' :
  match data with TypeBuilder.Transfers _ => True | TypeBuilder.Burn _ => tws = [] end ->
  build_transfers (E:=E) data pair rng tws p = Ok p' ->
  exists ps, p'.(pv_payloads) = p.(pv_payloads) ++ ps /\
    transfers_proved pair p.(pv_transcript) tws ps p'.(pv_transcript) /\
    p'.(pv_values) = p.(pv_values) ++ ((fun tw => tw.(twc_inner).(tb_amount)) <$> tws) /\
    p'.(pv_openings) = p.(pv_openings) ++ ((fun tw => tw.(twc_amount_opening).(opening_scalar)) <$> tws).
Proof.
  unfold build_transfers. destruct data as [l|q].
  - intros _ (p1 & Hl%build_loop_ok & Hr)%res_bind_ok. destruct (_ <? _)%nat; [done|]. by injection Hr as <-.
  - intros -> [= <-]. exists []. rewrite !app_nil_r. repeat split. constructor.
Qed.

Lemma transfers_proved_length pair t tws ps t' :
  transfers_proved pair t tws ps t' -> length ps = length tws.
Proof. by induction 1; simpl; f_equal. Qed.

(** ** The range proof *)

Lemma log2_up_pow (n : nat) : (1 <= n)%nat -> exists k, next_power_of_two (Z.of_nat n) = Z.of_nat (2 ^ k) /\ (n <= 2 ^ k)%nat /\
  forall j, (n <= 2 ^ j)%nat -> (2 ^ k <= 2 ^ j)%nat.
Proof.
  intros Hn. exists (Z.to_nat (Z.log2_up (Z.of_nat n))). unfold next_power_of_two.
  pose proof (Z.log2_up_nonneg (Z.of_nat n)) as Hnn.
  assert (Z.of_nat (2 ^ Z.to_nat (Z.log2_up (Z.of_nat n))) = 2 ^ Z.log2_up (Z.of_nat n)) as E0.
  { rewrite Nat2Z.inj_pow, Z2Nat.id by done. done. }
  split; [done|]. split.
  - apply Nat2Z.inj_le. rewrite E0. destruct (decide (n = 1)%nat) as [->|Hne]; [done|].
    apply Z.log2_up_spec. lia.
  - intros j Hj. apply Nat.pow_le_mono_r; [done|]. apply Nat2Z.inj_le. rewrite Z2Nat.id by done.
    apply Nat2Z.inj_le in Hj. rewrite Nat2Z.inj_pow in Hj.
    rewrite <- (Z.log2_up_pow2 (Z.of_nat j)) by lia. by apply Z.log2_up_le_mono.
Qed.

(** The values and openings of a proof, duds included. *)
Definition duds (n : nat) : nat := Z.to_nat (next_power_of_two (Z.of_nat n) - Z.of_nat n).

Lemma prove_range_ok rng p rp :
  prove_range (E:=E) rng p = Ok rp -> length p.(pv_values) = length p.(pv_openings) ->
  (1 <= length p.(pv_values) <= max_parties)%nat -> Forall (in_u 64) p.(pv_values) ->
  let n := duds (length p.(pv_values)) in
  checked_next_power_of_two (Z.of_nat (length p.(pv_values))) = Some (next_power_of_two (Z.of_nat (length p.(pv_values)))) /\
  rp_verify_multiple rp p.(pv_transcript)
    (zip_with value_commitment (p.(pv_values) ++ replicate n 0) (p.(pv_openings) ++ replicate n s0)) BULLET_PROOF_SIZE = Ok tt /\
  exists k, next_power_of_two (Z.of_nat (length p.(pv_values))) = Z.of_nat (2 ^ k) /\
    length (rp_to_bytes rp) = (32 * (9 + 2 * (6 + k)))%nat.
Proof.
  intros Hr Hl [Hn1 Hn2] Hu n.
  destruct (log2_up_pow (length (pv_values p)) Hn1) as (k & Hk & Hle & Hmin).
  assert (2 ^ k <= 512)%nat as Hk512 by (apply (Hmin 9%nat); unfold max_parties in Hn2; simpl in Hn2 |- *; lia).
  assert (checked_next_power_of_two (Z.of_nat (length (pv_values p))) = Some (next_power_of_two (Z.of_nat (length (pv_values p))))) as Hc.
  { unfold checked_next_power_of_two. rewrite Hk. destruct (Z.ltb_spec (Z.of_nat (2 ^ k)) (2 ^ 64)); [done|lia]. }
  split; [done|]. unfold prove_range in Hr. rewrite Hc in Hr. cbn [ok_or gen_proof map_err mbind res_bind] in Hr.
  fold (duds (length (pv_values p))) in Hr. fold n in Hr.
  assert (length (pv_values p ++ replicate n 0%Z) = 2 ^ k)%nat as Hlen.
  { rewrite length_app, length_replicate. unfold n, duds. rewrite Hk. lia. }
  destruct (rp_prove_complete rng.(range_rng) p.(pv_transcript) (p.(pv_values) ++ replicate n 0%Z)
    (p.(pv_openings) ++ replicate n s0) k) as (rp' & Hp & Hv & Hbytes).
  - rewrite !length_app, !length_replicate. lia.
  - done.
  - rewrite Hlen. unfold max_parties. simpl. lia.
  - apply Forall_app. split; [done|]. apply Forall_replicate. by unfold in_u.
  - rewrite Hp in Hr. injection Hr as <-. split; [done|]. by exists k.
Qed.
End Payloads.

(** ** Amounts *)

Section Amounts.
Context {CV : Curve}.

(** What leaves the account, without wrapping. *)
Definition spent_by (asset : Hash) (l : list TransferBuilder) : Z :=
  foldr (fun t n => (if decide (t.(tb_asset) = asset) then t.(tb_amount) else 0) + n) 0 l.
Definition total_cost (data : TransactionTypeBuilder) (fee : Z) (asset : Hash) : Z :=
  (if decide (asset = XELIS_ASSET) then fee else 0) +
  match data with
  | TypeBuilder.Transfers l => spent_by asset l
  | TypeBuilder.Burn p => if decide (asset = p.(burn_asset)) then p.(amount) else 0
  end.

Definition amounts_ok (data : TransactionTypeBuilder) : Prop :=
  match data with
  | TypeBuilder.Transfers l => Forall (fun t => in_u 64 t.(tb_amount)) l
  | TypeBuilder.Burn p => in_u 64 p.(amount)
  end.

Lemma spent_by_nonneg a l : Forall (fun t => in_u 64 t.(tb_amount)) l -> 0 <= spent_by a l.
Proof. unfold in_u. induction 1; simpl; [done|]. case_decide; lia. Qed.

Lemma cost_loop a l c :
  Forall (fun t => in_u 64 t.(tb_amount)) l -> 0 <= c -> c + spent_by a l < 2 ^ 64 ->
  foldl (fun cost t => if decide (t.(tb_asset) = a) then u64_add cost t.(tb_amount) else cost) c l = c + spent_by a l.
Proof.
  intros Hl. revert c. induction Hl as [|t l Ht Hl IH]; intros c Hc Hs; simpl in *; [lia|].
  pose proof (spent_by_nonneg a l Hl). unfold in_u in Ht. case_decide.
  - rewrite u64_add_small by (unfold in_u; lia). rewrite IH; lia.
  - rewrite IH; lia.
Qed.

Lemma transaction_cost_total b fee a :
  amounts_ok b.(b_data) -> in_u 64 fee -> total_cost b.(b_data) fee a < 2 ^ 64 ->
  get_transaction_cost b fee a = total_cost b.(b_data) fee a /\ 0 <= total_cost b.(b_data) fee a.
Proof.
  unfold get_transaction_cost, total_cost, amounts_ok. intros Ha Hf. unfold in_u in Hf.
  assert ((if decide (a = XELIS_ASSET) then u64_add 0 fee else 0) = (if decide (a = XELIS_ASSET) then fee else 0)) as ->
    by (case_decide; [apply u64_add_small; unfold in_u; lia|done]).
  destruct (b_data b) as [l|p]; intros Hs.
  - pose proof (spent_by_nonneg a l Ha). rewrite cost_loop; [|done|by case_decide; lia..]. case_decide; lia.
  - unfold in_u in Ha. destruct (decide (a = burn_asset p)); [|case_decide; lia].
    rewrite u64_add_small by (unfold in_u; case_decide; lia). case_decide; lia.
Qed.

Lemma total_cost_checked l fee a :
  total_cost (TypeBuilder.Transfers (checked_of <$> l)) fee a = total_cost (TypeBuilder.Transfers l) fee a.
Proof. unfold total_cost. f_equal. induction l as [|t l IH]; [done|]. csimpl. by rewrite IH. Qed.
Lemma amounts_ok_checked l :
  amounts_ok (TypeBuilder.Transfers l) -> amounts_ok (TypeBuilder.Transfers (checked_of <$> l)).
Proof. simpl. intros Hl. apply Forall_fmap. exact Hl. Qed.
End Amounts.

(** ** Ciphertexts *)

Section Ciphertexts.
Context {CV : Curve} {ML : Merlin} {RP : RangeProofLib}.
Add Ring IdealRing : ideal_ring.

Lemma ct_sub_sub a b c : ct_sub (ct_sub a b) c = ct_sub a (ct_add b c).
Proof. apply ct_eq; unfold ct_sub, ct_add; simpl; point_ring. Qed.
Lemma ct_sub_nothing a : ct_sub a ct_zero = a.
Proof. apply ct_eq; unfold ct_sub, ct_zero; simpl; point_ring. Qed.
Lemma ct_sub_sub_scalar a b x : ct_sub_scalar (ct_sub a b) x = ct_sub a (ct_add_scalar b x).
Proof. apply ct_eq; unfold ct_sub_scalar, ct_sub, ct_add_scalar; simpl; point_ring. Qed.

(** What the verifier decompresses of a payload. *)
Definition opened (tw : TransferWithCommitment) : DecompressedTransferCt :=
  mkDecompressed tw.(twc_commitment) tw.(twc_sender_handle) tw.(twc_receiver_handle).

Lemma commitment_decompress_compress c : commitment_decompress (pedersen_compress c) = Ok c.
Proof. unfold commitment_decompress. simpl. rewrite decompress_compress. by destruct c. Qed.

Lemma decompress_payload tw extra proof : decompress_transfer (payload_of tw extra proof) = Ok (opened tw).
Proof.
  unfold decompress_transfer, payload_of. cbn [tr_commitment sender_handle receiver_handle].
  rewrite commitment_decompress_compress, !handle_roundtrip. done.
Qed.

(** The payloads, next to what they were made of. *)
Definition payload_like (p : TransferPayload) (tw : TransferWithCommitment) : Prop :=
  exists extra proof, p = payload_of tw extra proof.

Lemma decompress_payloads ps tws :
  Forall2 payload_like ps tws -> mapMr decompress_transfer ps = Ok (opened <$> tws).
Proof.
  intros Hf. apply mapMr_Forall2. apply Forall2_fmap_r. eapply list.Forall2_impl; [exact Hf|].
  intros p tw (extra & proof & ->). apply decompress_payload.
Qed.

Lemma output_loop a ps tws bal o :
  Forall2 payload_like ps tws ->
  foldl (fun ct tw => if decide (tw.(twc_inner).(tb_asset) = a) then ct_sub ct (twc_get_ciphertext tw Sender) else ct)
    (ct_sub bal o) tws =
  ct_sub bal (foldl (fun output '(transfer, d) =>
    if decide (a = transfer.(tr_asset)) then ct_add output (d_get_ciphertext d Sender) else output) o (zip ps (opened <$> tws))).
Proof.
  intros Hf. revert o. induction Hf as [|p tw ps tws (extra & proof & ->) Hf IH]; intros o; [done|]. csimpl.
  rewrite <- IH. f_equal. repeat case_decide; try congruence. apply ct_sub_sub.
Qed.

(** The data of the transaction and of the builder. *)
Definition data_like (data : TransactionType) (bdata : TransactionTypeBuilder) (tws : list TransferWithCommitment) : Prop :=
  match data, bdata with
  | Transfers ps, TypeBuilder.Transfers l => Forall2 payload_like ps tws /\ l = twc_inner <$> tws
  | Burn p, TypeBuilder.Burn q => p = q /\ tws = []
  | _, _ => False
  end.

(** The two sides subtract the same ciphertext. *)
Lemma new_source_ct_output b tx tws bal a :
  data_like tx.(data) b.(b_data) tws ->
  get_new_source_ct b bal tx.(fee) a tws = ct_sub bal (output_of tx a (opened <$> tws)).
Proof.
  unfold data_like, get_new_source_ct, output_of, get_sender_output_ct.
  assert ((if decide (a = XELIS_ASSET) then ct_sub_scalar bal (s_from_u64 tx.(fee)) else bal) =
    ct_sub bal (if decide (a = XELIS_ASSET) then ct_add_scalar ct_zero (s_from_u64 tx.(fee)) else ct_zero)) as ->.
  { case_decide; [|by rewrite ct_sub_nothing]. by rewrite <- ct_sub_sub_scalar, ct_sub_nothing. }
  destruct (data tx) as [ps|p], (b_data b) as [l|q]; try done.
  - intros [Hf _]. by apply output_loop.
  - intros [-> ->]. case_decide; [|done]. apply ct_sub_sub_scalar.
Qed.

(** *** What the ciphertexts contain *)

Definition own_key (sk : scalar) : Key.PublicKey := Key.mkPublicKey (pmul (sinv sk) H).
Definition own_pair (sk : scalar) : Key.KeyPair := Key.mkKeyPair (own_key sk) (Key.mkPrivateKey sk).
Definition holds (sk : scalar) (c : Ciphertext) (v : Z) : Prop :=
  Key.decrypt_to_point (Key.mkPrivateKey sk) c = pmul (s_from_u64 v) G.

Lemma holds_add sk c d v w :
  0 <= v -> 0 <= w -> v + w < 2 ^ 64 -> holds sk c v -> holds sk d w -> holds sk (ct_add c d) (v + w).
Proof.
  unfold holds. intros ??? Hc Hd. by rewrite decrypt_add, Hc, Hd, s_from_u64_add, pmul_add_l.
Qed.
Lemma holds_sub sk c d v w :
  0 <= w <= v -> v < 2 ^ 64 -> holds sk c v -> holds sk d w -> holds sk (ct_sub c d) (v - w).
Proof.
  unfold holds. intros ?? Hc Hd. rewrite decrypt_sub, Hc, Hd.
  replace v with ((v - w) + w) at 1 by ring. rewrite s_from_u64_add, pmul_add_l by lia. point_ring.
Qed.
Lemma holds_add_scalar sk c v w :
  0 <= v -> 0 <= w -> v + w < 2 ^ 64 -> holds sk c v -> holds sk (ct_add_scalar c (s_from_u64 w)) (v + w).
Proof.
  unfold holds. intros ??? Hc. by rewrite decrypt_add_scalar, Hc, s_from_u64_add, pmul_add_l.
Qed.
Lemma holds_zero sk : holds sk ct_zero 0.
Proof. unfold holds. by rewrite decrypt_zero, s_from_u64_0, pmul_0. Qed.

Lemma committed_holds sk t tw :
  sk <> s0 -> committed (own_pair sk) t tw -> twc_inner tw = t /\ holds sk (twc_get_ciphertext tw Sender) t.(tb_amount).
Proof.
  intros Hs (o & dest & Hd & ->). split; [done|]. unfold holds.
  exact (decrypt_encrypt sk (s_from_u64 t.(tb_amount)) (mkOpening o) Hs).
Qed.

Lemma output_holds_loop sk a ps tws l o c :
  sk <> s0 -> Forall2 payload_like ps tws -> Forall2 (committed (own_pair sk)) l tws ->
  Forall (fun t => in_u 64 t.(tb_amount)) l -> 0 <= c -> c + spent_by a l < 2 ^ 64 -> holds sk o c ->
  holds sk (foldl (fun output '(transfer, d) =>
    if decide (a = transfer.(tr_asset)) then ct_add output (d_get_ciphertext d Sender) else output) o (zip ps (opened <$> tws)))
    (c + spent_by a l).
Proof.
  intros Hs Hf. revert l o c. induction Hf as [|p tw ps tws (extra & proof & ->) Hf IH]; intros l o c Hc Hu Hc0 Hlt Ho;
    inversion Hc as [|t ? l' ? Ht Hl]; subst; csimpl.
  { simpl. by rewrite Z.add_0_r. }
  apply list.Forall_cons in Hu as [Hu1 Hu]. pose proof (spent_by_nonneg a l' Hu).
  apply committed_holds in Ht as [<- Hh]; [|done]. unfold in_u in Hu1. simpl in Hlt.
  destruct (decide (a = tb_asset (twc_inner tw))) as [->|Hne].
  - rewrite decide_True in Hlt |- * by done. rewrite Z.add_assoc. apply IH; [done..|lia|lia|].
    apply holds_add; [done|lia|lia|done|exact Hh].
  - rewrite decide_False in Hlt |- * by congruence. rewrite Z.add_0_l. apply IH; [done..|lia|done].
Qed.

Lemma output_holds sk b tx tws a l :
  sk <> s0 -> data_like tx.(data) b.(b_data) tws -> amounts_ok b.(b_data) -> in_u 64 tx.(fee) ->
  total_cost b.(b_data) tx.(fee) a < 2 ^ 64 ->
  Forall2 (committed (own_pair sk)) l tws ->
  holds sk (output_of tx a (opened <$> tws)) (total_cost b.(b_data) tx.(fee) a).
Proof.
  intros Hs Hd Ha Hf Hlt Hl. unfold output_of, get_sender_output_ct, total_cost in *. unfold in_u in Hf.
  assert (holds sk (if decide (a = XELIS_ASSET) then ct_add_scalar ct_zero (s_from_u64 tx.(fee)) else ct_zero)
    (if decide (a = XELIS_ASSET) then tx.(fee) else 0)) as Hz.
  { case_decide; [|apply holds_zero]. rewrite <- (Z.add_0_l (fee tx)) at 2. apply holds_add_scalar; [lia..|apply holds_zero]. }
  unfold data_like, amounts_ok in *. destruct (data tx) as [ps|p], (b_data b) as [bl|q]; try done.
  - destruct Hd as [Hp ->].
    assert (l = twc_inner <$> tws) as ->.
    { clear -Hl Hs. induction Hl as [|t tw l tws Ht _ IH]; [done|]. csimpl. f_equal; [|done].
      symmetry. by apply (committed_holds sk). }
    apply output_holds_loop; try done. case_decide; lia.
  - destruct Hd as [-> ->]. unfold in_u in Ha. destruct (decide (a = burn_asset q)); [|by rewrite Z.add_0_r].
    apply holds_add_scalar; try done; try lia. case_decide; lia.
Qed.
End Ciphertexts.

(** ** The loops of the verifier *)

Section Loops.
Context {CV : Curve} {ML : Merlin} {RP : RangeProofLib} {CL : CipherLib} {HO : HashOrder}.
Context {St E : Type} {BS : BlockchainVerificationState St E} {SL : StateLaws}.

(** A node that knows the accounts of a transaction answers its calls; it may
    refuse the transaction in [pre_verify_tx], the check of its own. *)
Record Serves (tx : Transaction) (live : St -> Prop) : Prop := {
  sv_inv s : live s -> inv s;
  sv_pre_verify s s1 : live s -> pre_verify_tx tx s = (Ok tt, s1) -> live s1;
  sv_get_nonce s : live s -> exists n s1, get_account_nonce tx.(source) s = (Ok n, s1) /\ live s1;
  sv_update_nonce n s : live s -> exists s1, update_account_nonce tx.(source) n s = (Ok tt, s1) /\ live s1;
  sv_sender a s :
    a ∈ assets_of tx -> live s ->
    exists c s1, get_sender_balance tx.(source) a tx.(reference) s = (Ok c, s1) /\
      forall c', live (set_sender_balance tx.(source) a c' s1);
  sv_output a c s :
    a ∈ assets_of tx -> live s -> exists s1, add_sender_output tx.(source) a c s = (Ok tt, s1) /\ live s1;
  sv_receiver k a s :
    live s -> exists c s1, get_receiver_balance k a s = (Ok c, s1) /\ forall c', live (set_receiver_balance k a c' s1);
}.

(** No point of a proof is the identity, which the verifier refuses. *)
Definition shown (p : CompressedRistretto) : Prop := Transcript.is_identity p = false.
Definition eq_points_ok (p : CommitmentEqProof) : Prop := shown p.(eq_Y_0) /\ shown p.(eq_Y_1) /\ shown p.(eq_Y_2).
Definition validity_points_ok (p : CiphertextValidityProof) : Prop := shown p.(va_Y_0) /\ shown p.(va_Y_1).
Definition points_ok (tx : Transaction) : Prop :=
  Forall (fun c => eq_points_ok c.(sc_proof)) tx.(source_commitments) /\
  Forall (fun t => validity_points_ok t.(ct_validity_proof)) (transfers_of tx).

Lemma shown_compress p : shown (mkRistretto (ExternalCrypto.compress p)) -> p <> pid.
Proof. unfold shown. rewrite is_identity_compress. apply bool_decide_eq_false. Qed.

Lemma state_run {A} (m : stm St E A) s a s' : m s = (Ok a, s') -> state m s = (Ok a, s').
Proof. by rewrite state_ok. Qed.
Lemma proof_run {A} (m : res ProofVerificationError A) a (s : St) : m = Ok a -> proof (E:=E) m s = (Ok a, s).
Proof. by intros ->. Qed.

Definition item_commitment (x : Item) : PedersenCommitment :=
  pedersen_with_opening (s_from_u64 x.(it_value)) (mkOpening x.(it_opening)).

(** The proof of an item, made and checked in the same place. *)
Lemma source_proof_accepted sk masks x sc t t1 f b :
  sk <> s0 -> collector_wf b ->
  prove_source (own_pair sk) masks x.(it_asset) x.(it_opening) x.(it_value) x.(it_ct) t = (sc, t1) ->
  eq_points_ok sc.(sc_proof) -> holds sk x.(it_ct) x.(it_value) ->
  sc.(sc_asset) = x.(it_asset) /\ sc.(sc_commitment) = pedersen_compress (item_commitment x) /\
  exists b',
    eq_proof_pre_verify sc.(sc_proof) (own_key sk) x.(it_ct) (item_commitment x) f
      (Transcript.append_commitment (lit "new_source_commitment") sc.(sc_commitment)
        (Transcript.append_hash (lit "new_source_commitment_asset") sc.(sc_asset)
          (Transcript.new_commitment_eq_proof_domain_separator t))) b = Ok (t1, b') /\
    collector_wf b' /\ collector_verify b' = collector_verify b.
Proof.
  intros Hs Hb Hp Hi Hh. unfold prove_source in Hp. destruct masks as [[y_s y_x] y_r].
  fold (item_commitment x) in Hp.
  destruct (eq_proof_new _ _ _ _ _ _ _ _) as [p t2] eqn:Hnew. injection Hp as <- <-.
  cbn [sc_asset sc_commitment sc_proof] in *. split; [done|]. split; [done|].
  assert (p = (eq_proof_new (own_pair sk) x.(it_ct) (mkOpening x.(it_opening)) x.(it_value) y_s y_x y_r
    (Transcript.append_commitment (lit "new_source_commitment") (pedersen_compress (item_commitment x))
      (Transcript.append_hash (lit "new_source_commitment_asset") x.(it_asset)
        (Transcript.new_commitment_eq_proof_domain_separator t)))).1) as Ep by by rewrite Hnew.
  destruct Hi as (H0 & H1 & H2). rewrite Ep in H0, H1, H2. unfold eq_proof_new in H0, H1, H2. cbv zeta in H0, H1, H2.
  destruct (Transcript.challenge_scalar (lit "c") _) as [c u1].
  destruct (Transcript.challenge_scalar (lit "w") _) as [w u2]. clear Ep.
  cbn [fst eq_Y_0 eq_Y_1 eq_Y_2] in H0, H1, H2. rewrite msm2 in H1, H2.
  pose proof (eq_proof_complete sk x.(it_ct) (mkOpening x.(it_opening)) x.(it_value) y_s y_x y_r f
    (Transcript.append_commitment (lit "new_source_commitment") (pedersen_compress (item_commitment x))
      (Transcript.append_hash (lit "new_source_commitment_asset") x.(it_asset)
        (Transcript.new_commitment_eq_proof_domain_separator t))) b Hs Hb Hh
    (shown_compress _ H0) (shown_compress _ H1) (shown_compress _ H2)) as Hc.
  cbv zeta in Hc. change (Key.mkKeyPair _ _) with (own_pair sk) in Hc. rewrite Hnew in Hc. exact Hc.
Qed.

Lemma verify_source_run tx sk ds rnd t b d x masks sc t1 live s :
  sk <> s0 -> Serves tx live -> live s -> x.(it_asset) ∈ assets_of tx -> collector_wf b ->
  prove_source (own_pair sk) masks x.(it_asset) x.(it_opening) x.(it_value) x.(it_ct) t = (sc, t1) ->
  eq_points_ok sc.(sc_proof) -> holds sk x.(it_ct) x.(it_value) ->
  x.(it_ct) = ct_sub (l_send (obs s) tx.(source) x.(it_asset) tx.(reference)) (output_of tx x.(it_asset) ds) ->
  exists b' s1, verify_commitment tx (own_key sk) ds rnd (t, b, d) (sc, item_commitment x) s = (Ok (t1, b', S d), s1) /\
    live s1 /\ collector_wf b' /\ collector_verify b' = collector_verify b /\
    obs s1 ≡ commit_step tx ds (obs s) x.(it_asset).
Proof.
  intros Hs Hsv Hl Ha Hb Hp Hi Hh Hct.
  destruct (source_proof_accepted sk masks x sc t t1 (rnd d) b) as (Easset & Ecom & b' & Hv & Hb' & Hsame); [done..|].
  destruct (sv_sender _ _ Hsv _ s Ha Hl) as (c & s1 & Hg & Hset).
  destruct (sv_output _ _ Hsv _ (output_of tx x.(it_asset) ds) _ Ha (Hset x.(it_ct))) as (s2 & Ho & Hl2).
  assert (l_send (obs s) tx.(source) x.(it_asset) tx.(reference) = c) as Hc
    by (apply (law_get_sender _ _ _ _ _ _ (sv_inv _ _ Hsv _ Hl) Hg)).
  assert (verify_commitment tx (own_key sk) ds rnd (t, b, d) (sc, item_commitment x) s = (Ok (t1, b', S d), s2)) as Hrun.
  { unfold verify_commitment. rewrite Easset, output_of_ok.
    rewrite (stm_bind_run (proof (map_err Decompression (Ok (output_of tx x.(it_asset) ds)))) _ s _ s eq_refl).
    rewrite (stm_bind_run _ _ _ _ _ (state_run _ _ _ _ Hg)).
    rewrite <- Hc, <- Hct. rewrite (stm_bind_run _ _ _ _ _ (eq_refl : st_modify _ s1 = (Ok tt, _))).
    rewrite Easset in Hv. rewrite (stm_bind_run _ _ _ _ _ (proof_run _ _ _ Hv)). cbv beta iota.
    by rewrite (stm_bind_run _ _ _ _ _ (state_run _ _ _ _ Ho)). }
  exists b', s2. split; [done|]. do 3 (split; [done|]).
  apply verify_commitment_obs in Hrun as [_ Hobs]; [|by apply (sv_inv _ _ Hsv)]. by rewrite <- Easset.
Qed.

Lemma verify_sources_run tx sk ds rnd live t items scs t1 :
  sk <> s0 -> Serves tx live -> proved (own_pair sk) t items scs t1 ->
  NoDup (it_asset <$> items) -> (forall x, x ∈ items -> x.(it_asset) ∈ assets_of tx) ->
  Forall (fun c => eq_points_ok c.(sc_proof)) scs ->
  forall b d s, live s -> collector_wf b ->
  Forall (fun x => holds sk x.(it_ct) x.(it_value) /\
    x.(it_ct) = ct_sub (l_send (obs s) tx.(source) x.(it_asset) tx.(reference)) (output_of tx x.(it_asset) ds)) items ->
  exists b' d' s1, foldMs (verify_commitment tx (own_key sk) ds rnd) (t, b, d) (zip scs (item_commitment <$> items)) s = (Ok (t1, b', d'), s1) /\
    live s1 /\ collector_wf b' /\ collector_verify b' = collector_verify b.
Proof.
  intros Hs Hsv Hp. induction Hp as [t|t x xs masks sc t1 scs t2 Hx Hp IH]; intros Hnd Hin Hpts b d s Hl Hb Hit.
  { by exists b, d, s. }
  csimpl in Hnd. apply list.NoDup_cons in Hnd as [Hnx Hnd]. apply list.Forall_cons in Hpts as [Hpt Hpts].
  apply list.Forall_cons in Hit as [[Hh Hct] Hit].
  destruct (verify_source_run tx sk ds rnd t b d x masks sc t1 live s) as (b1 & s1 & Hr & Hl1 & Hb1 & Hsame & Hobs);
    try done; [apply Hin; left|].
  destruct (IH Hnd (fun y Hy => Hin y (list_elem_of_further y x xs Hy)) Hpts b1 (S d) s1 Hl1 Hb1) as (b2 & d2 & s2 & Hr2 & Hl2 & Hb2 & Hs2).
  { apply list.Forall_forall. intros y Hy. rewrite list.Forall_forall in Hit. destruct (Hit y Hy) as [Hyh Hyc].
    split; [done|]. rewrite Hyc. f_equal. destruct Hobs as (_ & _ & Hsend & _). rewrite Hsend.
    unfold commit_step, upd_send, upd_out. cbn [l_send]. rewrite fn_upd_eq, fn_upd_ne; [done|].
    intros E0. apply Hnx. rewrite <- E0. by apply list_elem_of_fmap_2. }
  exists b2, d2, s2. csimpl. rewrite (stm_bind_run _ _ _ _ _ Hr). split; [exact Hr2|]. split; [done|]. split; [done|]. congruence.
Qed.
End Loops.

Section Transfers.
Context {CV : Curve} {ML : Merlin} {RP : RangeProofLib} {CL : CipherLib} {HO : HashOrder}.
Context {St E : Type} {BS : BlockchainVerificationState St E} {SL : StateLaws}.

Definition transfer_transcript (p : TransferPayload) (t : transcript) : transcript :=
  let t := Transcript.transfer_proof_domain_separator t in
  let t := Transcript.append_public_key (lit "dest_pubkey") p.(destination) t in
  let t := Transcript.append_commitment (lit "amount_commitment") p.(tr_commitment) t in
  let t := Transcript.append_handle (lit "amount_sender_handle") p.(sender_handle) t in
  Transcript.append_handle (lit "amount_receiver_handle") p.(receiver_handle) t.

Lemma transfer_proof_accepted pair tb tw masks extra proof t t1 f b :
  committed pair tb tw -> collector_wf b -> prove_transfer masks tw t = (proof, t1) -> validity_points_ok proof ->
  let p := payload_of tw extra proof in
  Key.decompress p.(destination) = Ok tw.(twc_destination) /\
  exists b', validity_proof_pre_verify p.(ct_validity_proof) (opened tw).(d_commitment) tw.(twc_destination)
      (opened tw).(d_receiver_handle) f (transfer_transcript p t) b = Ok (t1, b') /\
    collector_wf b' /\ collector_verify b' = collector_verify b.
Proof.
  intros (o & dest & Hd & ->) Hb Hp Hi p. split; [exact Hd|]. unfold prove_transfer in Hp. destruct masks as [y_r y_x].
  cbn [twc_destination twc_inner twc_of twc_amount_opening] in Hp. change (validity_proof_new dest (tb_amount tb) (mkOpening o) y_r y_x (transfer_transcript p t) = (proof, t1)) in Hp.
  assert (proof = (validity_proof_new dest (tb_amount tb) (mkOpening o) y_r y_x (transfer_transcript p t)).1) as Ep by by rewrite Hp.
  destruct Hi as [H0 H1]. rewrite Ep in H0, H1. unfold validity_proof_new in H0, H1. cbv zeta in H0, H1.
  destruct (Transcript.challenge_scalar (lit "c") _) as [c u1].
  destruct (Transcript.challenge_scalar (lit "w") _) as [w u2]. clear Ep.
  cbn [fst va_Y_0 va_Y_1] in H0, H1. rewrite msm2 in H0.
  pose proof (validity_proof_complete dest (mkOpening o) (tb_amount tb) y_r y_x f (transfer_transcript p t) b Hb
    (shown_compress _ H0) (shown_compress _ H1)) as Hc. cbv zeta in Hc. rewrite Hp in Hc. exact Hc.
Qed.

Lemma verify_transfer_run tx live rnd pair tb tw masks extra pf t t1 b d s :
  Serves tx live -> live s -> committed pair tb tw -> collector_wf b ->
  prove_transfer masks tw t = (pf, t1) -> validity_points_ok pf ->
  exists b' s1, verify_transfer rnd (t, b, d) (payload_of tw extra pf, opened tw) s = (Ok (t1, b', S d), s1) /\
    live s1 /\ collector_wf b' /\ collector_verify b' = collector_verify b.
Proof.
  intros Hsv Hl Hc Hb Hp Hi.
  destruct (transfer_proof_accepted pair tb tw masks extra pf t t1 (rnd d) b) as (Hd & b' & Hv & Hb' & Hsame); [done..|].
  destruct (sv_receiver _ _ Hsv (payload_of tw extra pf).(destination) (payload_of tw extra pf).(tr_asset) s Hl)
    as (c & s1 & Hg & Hset).
  exists b', (set_receiver_balance (payload_of tw extra pf).(destination) (payload_of tw extra pf).(tr_asset)
    (ct_add c (d_get_ciphertext (opened tw) Receiver)) s1).
  split; [|auto]. unfold verify_transfer.
  rewrite Hd. rewrite (stm_bind_run (proof (map_err Decompression (Ok (twc_destination tw)))) _ s _ s eq_refl).
  rewrite (stm_bind_run _ _ _ _ _ (state_run _ _ _ _ Hg)).
  rewrite (stm_bind_run _ _ _ _ _ (eq_refl : st_modify _ s1 = (Ok tt, _))).
  unfold transfer_transcript in Hv. cbv zeta in Hv. rewrite (stm_bind_run _ _ _ _ _ (proof_run _ _ _ Hv)). done.
Qed.

Lemma verify_transfers_run tx live rnd pair t tws ps t1 l :
  Serves tx live -> transfers_proved pair t tws ps t1 -> Forall2 (committed pair) l tws ->
  Forall (fun p => validity_points_ok p.(ct_validity_proof)) ps ->
  forall b d s, live s -> collector_wf b ->
  exists b' d' s1, foldMs (verify_transfer rnd) (t, b, d) (zip ps (opened <$> tws)) s = (Ok (t1, b', d'), s1) /\
    live s1 /\ collector_wf b' /\ collector_verify b' = collector_verify b.
Proof.
  intros Hsv Hp. revert l. induction Hp as [t|t tw tws masks extra proof t1 ps t2 Hx He Hp IH]; intros l Hc Hpts b d s Hl Hb.
  { by exists b, d, s. }
  inversion Hc as [|tb ? l' ? Htb Hl']; subst. apply list.Forall_cons in Hpts as [Hpt Hpts].
  destruct (verify_transfer_run tx live rnd pair tb tw masks extra proof t t1 b d s) as (b1 & s1 & Hr & Hl1 & Hb1 & Hs1); [done..|].
  destruct (IH l' Hl' Hpts b1 (S d) s1 Hl1 Hb1) as (b2 & d2 & s2 & Hr2 & Hl2 & Hb2 & Hs2).
  exists b2, d2, s2. csimpl. rewrite (stm_bind_run _ _ _ _ _ Hr). split; [exact Hr2|]. split; [done|]. split; [done|]. congruence.
Qed.

Lemma transfers_proved_like pair t tws ps t1 : transfers_proved pair t tws ps t1 -> Forall2 payload_like ps tws.
Proof. induction 1; constructor; [|done]. by eexists _, _. Qed.

(** *** The checks before the proofs *)

Definition extra_sizes (ps : list TransferPayload) : nat :=
  foldr (fun p n => (match p.(extra_data) with Some e => size e | None => 0 end + n)%nat) 0%nat ps.

Lemma check_loop_run src ps n (s : St) :
  Forall (fun p => p.(destination) <> src) ps ->
  foldMs (fun extra_data_size transfer =>
    if decide (transfer.(destination) = src) then st_err SenderIsReceiver
    else match transfer.(extra_data) with
         | Some extra_data => mret (extra_data_size + size extra_data)%nat
         | None => mret extra_data_size
         end) n ps s = ((Ok (n + extra_sizes ps)%nat : res (VerificationError E) nat), s).
Proof.
  intros Hf. revert n. induction Hf as [|p ps Hp Hf IH]; intros n; [by rewrite Nat.add_0_r|].
  unfold extra_sizes; cbn [foldMs foldr]; fold (extra_sizes ps). rewrite decide_False by done. destruct (extra_data p) as [e|].
  - etransitivity; [exact (IH (n + size e)%nat)|]. do 2 f_equal. lia.
  - exact (IH n).
Qed.

(** The transfers pass exactly when the verifier's limit on the data holds. *)
Lemma check_transfers_run tx tws (s : St) :
  match tx.(data) with
  | Transfers ps => (1 <= length ps <= MAX_TRANSFER_COUNT)%nat /\ Forall2 payload_like ps tws /\
      Forall (fun p => p.(destination) <> tx.(source)) ps
  | Burn _ => tws = []
  end ->
  Verify.check_transfers (E:=E) tx s =
    (if (extra_sizes (transfers_of tx) <=? EXTRA_DATA_LIMIT_SIZE)%nat then Ok (opened <$> tws) else Err (Proof Format), s).
Proof.
  unfold Verify.check_transfers, transfers_of. destruct (data tx) as [ps|p]; [|by intros ->].
  intros (Hn & Hf & Hsrc).
  destruct (Nat.ltb_spec MAX_TRANSFER_COUNT (length ps)); [lia|].
  destruct (Nat.eqb_spec (length ps) 0); [lia|]. cbn [orb].
  rewrite (stm_bind_run _ _ _ _ _ (check_loop_run tx.(source) ps 0 s Hsrc)). rewrite Nat.add_0_l.
  destruct (Nat.ltb_spec EXTRA_DATA_LIMIT_SIZE (extra_sizes ps)), (Nat.leb_spec (extra_sizes ps) EXTRA_DATA_LIMIT_SIZE); try lia; [done|].
  by rewrite (decompress_payloads ps tws Hf).
Qed.
End Transfers.
