(* ===== verification/BuilderRun.v ===== *)
(** From a transaction that [build] returned to the run of [verify] on it, to the
    agreement of the wallet and the node after it, and to its size.  The
    theorems are in [BuilderModel]. *)

From S2P Require Import Prelude External ExternalModel ExternalCrypto Serializer Hash Defaults Elgamal Proofs Transaction Verify Data Address ExtraData Account Emission Builder VerifyFacts BuilderFacts.

(** ** What [build] returns *)

Section Built.
Context {CV : Curve} {ML : Merlin} {RP : RangeProofLib} {PR : RangeProver} {CL : CipherLib}.
Context {HO : HashOrder} {HM : HashMapIter}.
Context {WS WE : Type} {AS : AccountState WS WE} {AL : AccountLaws}.

(** The builder once its transfers are checked. *)
Definition checked_data (data : TransactionTypeBuilder) : TransactionTypeBuilder :=
  match data with
  | TypeBuilder.Transfers l => TypeBuilder.Transfers (checked_of <$> l)
  | TypeBuilder.Burn _ => data
  end.
Definition transfers_in (data : TransactionTypeBuilder) : list TransferBuilder :=
  match data with TypeBuilder.Transfers l => l | TypeBuilder.Burn _ => [] end.

(** A transaction, next to the commitments, items and proofs it was made of. *)
Record Built (b : TransactionBuilder) (pair : Key.KeyPair) (rng : Draws) (s s' : WS) (tx : Transaction)
    (tws : list TransferWithCommitment) (items : list Item) (t1 t2 : transcript) : Prop := {
  bt_header : tx.(version) = b.(b_version) /\ tx.(source) = b.(b_source) /\ tx.(reference) = get_reference s /\
    tx.(nonce) = acc_nonce s;
  bt_fee : estimate_fees b s = Ok tx.(fee);
  bt_data : data_like tx.(data) (checked_data b.(b_data)) tws;
  bt_committed : Forall2 (committed pair) (transfers_in (checked_data b.(b_data))) tws;
  bt_transfers : match b.(b_data) with
    | TypeBuilder.Transfers l => (1 <= length l <= MAX_TRANSFER_COUNT)%nat /\
        Forall (fun t => t.(tb_destination).(Address.key) <> Key.compress pair.(Key.public_key)) l /\
        Forall (fun t => t.(tb_extra_data) = None \/ Address.get_extra_data t.(tb_destination) = None) l
    | TypeBuilder.Burn _ => True
    end;
  bt_assets : it_asset <$> items = hs_iter (TypeBuilder.used_assets b.(b_data));
  bt_sources : proved pair (prepare_transcript tx.(version) tx.(source) tx.(fee) tx.(nonce)) items tx.(source_commitments) t1;
  bt_proofs : transfers_proved pair t1 tws (transfers_of tx) t2;
  bt_items : Forall (fun x => item_read (with_data (checked_data b.(b_data)) b) tx.(fee) tws s x /\ item_written s' x /\
    exists v k, acc_view s x.(it_asset) = Some (v, k) /\
      checked_sub v (get_transaction_cost (with_data (checked_data b.(b_data)) b) tx.(fee) x.(it_asset)) = Some x.(it_value)) items;
  bt_rest : (forall a, a ∉ it_asset <$> items -> acc_view s' a = acc_view s a) /\
    acc_nonce s' = u64_add (acc_nonce s) 1 /\ get_reference s' = get_reference s;
  bt_range : exists p, p.(pv_transcript) = t2 /\ prove_range (E:=WE) rng p = Ok tx.(tx_range_proof) /\
    p.(pv_values) = (it_value <$> items) ++ ((fun tw => tw.(twc_inner).(tb_amount)) <$> tws) /\
    p.(pv_openings) = (it_opening <$> items) ++ ((fun tw => tw.(twc_amount_opening).(opening_scalar)) <$> tws);
  bt_signed : exists x k, tx = sign x pair k;
}.

Lemma set_iter_NoDup `{Countable A} (X : gset A) : NoDup (hs_iter X).
Proof. rewrite hs_iter_spec. apply NoDup_elements. Qed.
Lemma set_iter_elem `{Countable A} (X : gset A) a : a ∈ hs_iter X <-> a ∈ X.
Proof. rewrite hs_iter_spec. apply elem_of_elements. Qed.

Lemma zip3_fst (l : list Hash) (os : list scalar) (vs : list Z) :
  length os = length l -> length vs = length l -> (zip (zip l os) vs).*1.*1 = l.
Proof. intros Ho Hv. rewrite fst_zip by (rewrite length_zip_with; lia). by rewrite fst_zip by lia. Qed.

(** The items are the assets with their openings and values. *)
Lemma items_parts items (l : list Hash) (os : list scalar) (vs : list Z) :
  item_key <$> items = zip (zip l os) vs -> length os = length l -> length vs = length l ->
  it_asset <$> items = l /\ it_opening <$> items = os /\ it_value <$> items = vs.
Proof.
  intros Hi Ho Hv.
  assert (it_asset <$> items = (zip (zip l os) vs).*1.*1) as -> by (rewrite <- Hi, <- !list_fmap_compose; done).
  assert (it_opening <$> items = (zip (zip l os) vs).*1.*2) as -> by (rewrite <- Hi, <- !list_fmap_compose; done).
  assert (it_value <$> items = (zip (zip l os) vs).*2) as -> by (rewrite <- Hi, <- !list_fmap_compose; done).
  rewrite snd_zip by (rewrite length_zip_with; lia). rewrite fst_zip by (rewrite length_zip_with; lia).
  by rewrite fst_zip, snd_zip by lia.
Qed.

Lemma source_values_ok b fee s l vs :
  mapMr (source_new_balance (E:=WE) b fee s) l = Ok vs ->
  Forall2 (fun a v => exists w k, acc_view s a = Some (w, k) /\ checked_sub w (get_transaction_cost b fee a) = Some v) l vs.
Proof.
  intros Hm%mapMr_Forall2. eapply list.Forall2_impl; [exact Hm|]. intros a v Hv.
  unfold source_new_balance in Hv. apply res_bind_ok in Hv as (w & Hw%gen_state_ok & Hv%gen_proof_ok).
  apply law_balance in Hw as [k Hk]. exists w, k. split; [done|]. by destruct (checked_sub _ _); simplify_eq/=.
Qed.

Lemma Forall2_self {A} (Q : A -> A -> Prop) l : Forall2 Q l l -> Forall (fun x => Q x x) l.
Proof. induction l as [|x l IH]; [constructor|]. intros Hf. inversion Hf; subst. constructor; auto. Qed.

Lemma committed_inner pair l tws : Forall2 (committed pair) l tws -> l = twc_inner <$> tws.
Proof. induction 1 as [|t tw l tws (o & d & _ & ->) _ IH]; [done|]. csimpl. by rewrite <- IH. Qed.

Lemma prepared pair data data' tws :
  match data with
  | TypeBuilder.Transfers l => data' = TypeBuilder.Transfers (checked_of <$> l) /\ Forall2 (committed pair) (checked_of <$> l) tws
  | TypeBuilder.Burn _ => data' = data /\ tws = []
  end ->
  data' = checked_data data /\ Forall2 (committed pair) (transfers_in (checked_data data)) tws /\
  forall ps, Forall2 payload_like ps tws ->
    data_like match data' with TypeBuilder.Transfers _ => Transfers ps | TypeBuilder.Burn payload => Burn payload end data' tws.
Proof.
  destruct data as [l|q]; [intros [-> Hc]|intros [-> ->]]; (split; [done|]).
  - split; [done|]. intros ps Hps. split; [done|]. by eapply committed_inner.
  - split; [constructor|]. done.
Qed.

Lemma build_ok b pair rng s tx s' :
  build b pair rng s = (Ok tx, s') -> exists tws items t1 t2, Built b pair rng s s' tx tws items t1 t2.
Proof.
  unfold build. intros Hr.
  apply stm_bind_ok in Hr as (st & s1 & [= <- <-] & Hr).
  apply stm_bind_ok in Hr as (fee & s1 & [Hfee ->]%lift_res_ok & Hr).
  apply stm_bind_ok in Hr as (n & s1 & [Hn%gen_state_ok ->]%lift_res_ok & Hr). apply law_nonce in Hn.
  apply stm_bind_ok in Hr as ([] & s1 & Hu%st_map_err_inv & Hr). apply law_write_nonce in Hu as (Hn1 & Hv1 & Href1).
  apply stm_bind_ok in Hr as (st & s2 & [= <- <-] & Hr).
  apply stm_bind_ok in Hr as ([data tws] & s2 & [Hp%prepare_transfers_ok ->]%lift_res_ok & Hr).
  apply stm_bind_ok in Hr as (vs & s2 & [Hvs ->]%lift_res_ok & Hr).
  apply source_values_ok in Hvs. pose proof (list.Forall2_length _ _ _ Hvs) as Hlen.
  apply stm_bind_ok in Hr as ([t1 scs] & s2 & Hs & Hr).
  apply commit_sources_ok in Hs as (items & new & Hi & -> & Hproved & Hread & Hw & Hoth & Hn2 & Href2);
    [|rewrite zip3_fst by (rewrite ?length_fmap, ?length_seq; done); apply set_iter_NoDup].
  apply items_parts in Hi as (Ha & Ho & Hv); [|by rewrite length_fmap, length_seq|done].
  apply stm_bind_ok in Hr as (p & s3 & [Hb ->]%lift_res_ok & Hr).
  apply build_transfers_ok in Hb as (ps & Hps & Hproofs & Hvals & Hopen); [|by destruct (b_data b), data; naive_solver].
  cbn [pv_payloads pv_transcript pv_values pv_openings] in *.
  apply stm_bind_ok in Hr as (rp & s4 & [Hrp ->]%lift_res_ok & Hr). apply mret_ok in Hr as [<- ->].
  destruct (prepared pair (b_data b) data tws) as (-> & Hcom & Hlike); [destruct (b_data b); naive_solver|].
  pose proof (transfers_proved_like _ _ _ _ _ Hproofs) as Hps'. specialize (Hlike _ Hps').
  rewrite app_nil_l in Hps. rewrite <- Hps in Hlike.
  exists tws, items, t1, (pv_transcript p). constructor.
  - cbn. by rewrite Hn, Href1.
  - done.
  - exact Hlike.
  - done.
  - destruct (b_data b); [|done]. by destruct Hp as (_ & _ & Hp).
  - done.
  - done.
  - unfold transfers_of. cbn [sign data s_data]. clear -Hproofs Hps Hcom Hps'.
    destruct (b_data b) as [l|q]; simpl in *; [by rewrite Hps|]. inversion Hcom; subst. apply list.Forall2_nil_inv_r in Hps'. by rewrite Hps' in Hproofs.
  - assert (Forall2 (fun x y => exists v k, acc_view s1 x.(it_asset) = Some (v, k) /\
      checked_sub v (get_transaction_cost (with_data (checked_data (b_data b)) b) fee x.(it_asset)) = Some y.(it_value)) items items) as Hval.
    { rewrite <- Ha, <- Hv in Hvs. by apply Forall2_fmap in Hvs. }
    apply Forall2_self in Hval. rewrite list.Forall_forall in *. intros x Hx.
    destruct (Hread x Hx) as (v & k & c & Hk & Hrest). destruct (Hval x Hx) as (w & k' & Hk' & Hsub).
    rewrite Hv1 in Hk, Hk'. split; [by exists v, k, c|]. split; [by apply Hw|]. by exists w, k'.
  - split; [|split; [by rewrite Hn2, Hn1, Hn|congruence]]. intros a Hna. rewrite Hoth, Hv1; [done|].
    rewrite zip3_fst by (rewrite ?length_fmap, ?length_seq; done). by rewrite <- Ha.
  - exists p. cbn. rewrite Hvals, Hopen, Ho, Hv. done.
  - by eexists _, _.
Qed.
End Built.

(** ** The pieces of the verification *)

Section Pieces.
Context {CV : Curve} {ML : Merlin} {RP : RangeProofLib} {CL : CipherLib} {HO : HashOrder}.

Lemma proved_commitments pair t items scs t' :
  proved pair t items scs t' -> Forall2 (fun sc x => sc.(sc_commitment) = pedersen_compress (item_commitment x)) scs items.
Proof.
  induction 1 as [|t x xs masks sc t1 scs t2 Hp _ IH]; constructor; [|done].
  unfold prove_source in Hp. destruct masks as [[y_s y_x] y_r].
  destruct (eq_proof_new _ _ _ _ _ _ _ _) as [p t0]. by injection Hp as <- _.
Qed.

Lemma source_commitments_decompress scs items :
  Forall2 (fun sc x => sc.(sc_commitment) = pedersen_compress (item_commitment x)) scs items ->
  mapMr (fun c => commitment_decompress c.(sc_commitment)) scs = Ok (item_commitment <$> items).
Proof.
  intros Hf. apply mapMr_Forall2, Forall2_fmap_r. eapply list.Forall2_impl; [exact Hf|].
  intros sc x E0. cbn. rewrite E0. apply commitment_decompress_compress.
Qed.

Lemma own_key_decompress sk : Key.decompress (Key.compress (own_key sk)) = Ok (own_key sk).
Proof. unfold Key.decompress, Key.compress. simpl. by rewrite decompress_compress. Qed.

(** *** The signature *)

Lemma signer_bytes (x : TransactionSigner) :
  to_bytes x = u8_bytes x.(s_version) ++ to_bytes x.(s_source) ++ to_bytes x.(s_data) ++
    be_bytes 8 x.(s_fee) ++ be_bytes 8 x.(s_nonce) ++
    u8_bytes (wrap 8 (Z.of_nat (length x.(s_source_commitments)))) ++
    concat_bytes to_bytes x.(s_source_commitments) ++ to_bytes x.(s_range_proof) ++ to_bytes x.(s_reference).
Proof.
  unfold to_bytes at 1. cbn [write TransactionSigner_Serializer]. rewrite (ser_append (s_range_proof x)).
  autorewrite with ser. by rewrite <- !(assoc_L (++)).
Qed.

Lemma signed_bytes x pair k :
  to_bytes (sign x pair k) = to_bytes x ++ to_bytes (Key.sign pair k (to_bytes x)).
Proof.
  rewrite transaction_bytes, signer_bytes at 1. unfold transaction_enc, sign.
  cbn [version source data fee nonce source_commitments tx_range_proof reference signature].
  by rewrite <- !(assoc_L (++)).
Qed.

Lemma signature_accepted x sk k :
  sk <> s0 ->
  let tx := sign x (own_pair sk) k in
  Key.verify tx.(signature) (take (length (to_bytes tx) - SIGNATURE_SIZE) (to_bytes tx)) (own_key sk) = true.
Proof.
  intros Hs tx. unfold tx. rewrite signed_bytes.
  rewrite <- (ser_size (Key.sign (own_pair sk) k (to_bytes x)) I) || idtac.
  assert (length (to_bytes (Key.sign (own_pair sk) k (to_bytes x))) = SIGNATURE_SIZE) as Hl by by rewrite <- ser_size.
  rewrite length_app, Hl. rewrite take_app_length' by lia. cbn [signature sign].
  destruct (sign_verify (E:=unit) sk k (to_bytes x) Hs) as (sk' & pair & Hk & Hp & Hv).
  unfold Key.from_scalar in Hk. rewrite decide_False in Hk by done. injection Hk as <-.
  rewrite key_inverse_pair in Hp by done. injection Hp as <-. exact Hv.
Qed.

(** *** The values of the range proof *)

Lemma item_value x : ((item_commitment x).(commitment_pt), (pedersen_compress (item_commitment x)).(commitment_point).(cr_bytes)) =
  value_commitment x.(it_value) x.(it_opening).
Proof. unfold item_commitment, value_commitment, pedersen_with_opening. simpl. by rewrite msm2. Qed.

Lemma dud_value : value_commitment 0 s0 = (pid, vreplicate 32 x00).
Proof. unfold value_commitment. by rewrite s_from_u64_0, !pmul_0, padd_id_l, compress_id. Qed.

Lemma source_values scs items :
  Forall2 (fun sc x => sc.(sc_commitment) = pedersen_compress (item_commitment x)) scs items ->
  value_view (zip_with (fun c n => (n.(commitment_pt), c.(sc_commitment).(commitment_point))) scs (item_commitment <$> items)) =
  zip_with value_commitment (it_value <$> items) (it_opening <$> items).
Proof.
  induction 1 as [|sc x scs items E0 _ IH]; [done|]. unfold value_view in *. csimpl. rewrite IH, E0. f_equal. apply item_value.
Qed.

Lemma transfer_values pair l tws ps :
  Forall2 payload_like ps tws -> Forall2 (committed pair) l tws ->
  value_view (zip_with (fun p d => (d.(d_commitment).(commitment_pt), p.(tr_commitment).(commitment_point))) ps (opened <$> tws)) =
  zip_with value_commitment ((fun tw => tw.(twc_inner).(tb_amount)) <$> tws) ((fun tw => tw.(twc_amount_opening).(opening_scalar)) <$> tws).
Proof.
  intros Hf. revert l. induction Hf as [|p tw ps tws (extra & proof & ->) _ IH]; intros l Hc; [done|].
  inversion Hc as [|t ? l' ? (o & d & _ & ->) Hl]; subst. unfold value_view in *. csimpl. rewrite (IH _ Hl). f_equal.
  unfold value_commitment, pedersen_with_opening. simpl. by rewrite msm2.
Qed.

Lemma dud_values n : value_view (replicate n (pid, mkRistretto (vreplicate 32 x00))) =
  zip_with value_commitment (replicate n 0%Z) (replicate n s0).
Proof.
  unfold value_view. rewrite fmap_replicate. cbn [cr_bytes].
  induction n as [|n IH]; [done|]. cbn [replicate zip_with]. by rewrite IH, dud_value.
Qed.

(** *** The assets *)

Lemma used_assets_elem data a :
  a ∈ TypeBuilder.used_assets data <->
    a = XELIS_ASSET \/ match data with
                       | TypeBuilder.Transfers l => a ∈ tb_asset <$> l
                       | TypeBuilder.Burn p => a = p.(burn_asset)
                       end.
Proof.
  destruct data as [l|p]; [|set_solver]. unfold TypeBuilder.used_assets.
  assert (forall X : gset Hash, a ∈ foldl (fun consumed t => {[tb_asset t]} ∪ consumed) X l <-> a ∈ X \/ a ∈ tb_asset <$> l) as ->.
  { induction l as [|t l IH]; intros X; simpl; [set_solver|]. rewrite IH, list.elem_of_cons. set_solver. }
  by rewrite elem_of_singleton.
Qed.

Lemma spent_used tx b tws :
  data_like tx.(data) (checked_data b.(b_data)) tws -> forall a, a ∈ spent_assets tx -> a ∈ TypeBuilder.used_assets b.(b_data).
Proof.
  unfold data_like, spent_assets. intros Hd a Ha. apply used_assets_elem. right.
  destruct (data tx) as [ps|p], (b_data b) as [l|q]; simpl in Hd; try done.
  - destruct Hd as [Hp Hl]. assert (tb_asset <$> l = tr_asset <$> ps) as ->; [|done].
    transitivity (tb_asset <$> (checked_of <$> l)); [by rewrite <- list_fmap_compose|]. rewrite Hl. clear -Hp.
    induction Hp as [|p tw ps tws (extra & proof & ->) _ IH]; [done|]. csimpl. by rewrite IH.
  - destruct Hd as [-> _]. by apply list_elem_of_singleton in Ha.
Qed.

Lemma used_assets_size data : (1 <= stdpp.base.size (TypeBuilder.used_assets data) <= 1 + length (transfers_in data) + 1)%nat.
Proof.
  assert (forall (a : Hash) (X : gset Hash), stdpp.base.size ({[a]} ∪ X) <= S (stdpp.base.size X))%nat as Hadd.
  { intros a X. destruct (decide (a ∈ X)) as [Hin|Hin].
    - rewrite subseteq_union_1_L by set_solver. lia.
    - rewrite size_union, size_singleton by set_solver. lia. }
  split.
  - rewrite <- (size_singleton (C:=gset Hash) XELIS_ASSET). apply subseteq_size.
    intros a ->%elem_of_singleton. apply used_assets_elem. by left.
  - pose proof (size_singleton (C:=gset Hash) XELIS_ASSET) as H1.
    destruct data as [l|p]; cbn [TypeBuilder.used_assets transfers_in length].
    2: { pose proof (Hadd p.(burn_asset) {[XELIS_ASSET]}). lia. }
    assert (forall X : gset Hash, stdpp.base.size (foldl (fun consumed t => {[tb_asset t]} ∪ consumed) X l) <= stdpp.base.size X + length l)%nat as Hl.
    { induction l as [|t l IH]; intros X; cbn [foldl length]; [lia|].
      pose proof (IH ({[tb_asset t]} ∪ X)). pose proof (Hadd (tb_asset t) X). lia. }
    pose proof (Hl {[XELIS_ASSET]}). lia.
Qed.
End Pieces.

(** ** A wallet and a node *)

Section Agreement.
Context {CV : Curve} {ML : Merlin} {RP : RangeProofLib} {PR : RangeProver} {CL : CipherLib}.
Context {HO : HashOrder} {HM : HashMapIter}.
Context {WS WE : Type} {AS : AccountState WS WE} {AL : AccountLaws}.
Context {St E : Type} {BS : BlockchainVerificationState St E} {SL : StateLaws}.

(** The wallet has the nonce of its account, and for each asset it knows the
    ciphertext the node verifies it against, with its content. *)
Definition wallet_agrees (sk : scalar) (ws : WS) (l : Ledger) : Prop :=
  let src := Key.compress (own_key sk) in
  acc_nonce ws = l_nonce l src /\
  forall a v k, acc_view ws a = Some (v, k) ->
    in_u 64 v /\ exists c, take_ciphertext k = Ok c /\ holds sk c v /\ l_send l src a (get_reference ws) = c.

Definition fee_value_ok (b : TransactionBuilder) : Prop :=
  match b.(b_fee_builder) with FeeValue v => in_u 64 v | Multiplier _ => True end.

Lemma f64_to_u64_range x : in_u 64 (f64_to_u64 x).
Proof.
  unfold in_u, f64_to_u64. destruct x as [| [] | |[] m e]; try done.
  pose proof (proj2 (Z.shiftl_nonneg (Zpos m) e)). change u64_max with (2 ^ 64 - 1). lia.
Qed.

Lemma fee_range b ws fee : fee_value_ok b -> estimate_fees b ws = Ok fee -> in_u 64 fee.
Proof.
  unfold fee_value_ok, estimate_fees. destruct (b_fee_builder b) as [m|v]; [|by intros ? [= <-]].
  intros _ ([ts n] & _ & [= <-])%res_bind_ok. apply f64_to_u64_range.
Qed.

(** What is left of each asset: its ciphertext is the node's, and its content
    the balance without what was spent. *)
Lemma items_left b sk rng ws ws' tx tws items t1 t2 l :
  sk <> s0 -> b.(b_source) = Key.compress (own_key sk) -> amounts_ok b.(b_data) -> fee_value_ok b ->
  (forall a, a ∈ TypeBuilder.used_assets b.(b_data) -> total_cost b.(b_data) tx.(fee) a < 2 ^ 64) ->
  Built b (own_pair sk) rng ws ws' tx tws items t1 t2 -> wallet_agrees sk ws l ->
  Forall (fun x => holds sk x.(it_ct) x.(it_value) /\ in_u 64 x.(it_value) /\
    x.(it_ct) = ct_sub (l_send l tx.(source) x.(it_asset) tx.(reference)) (output_of tx x.(it_asset) (opened <$> tws))) items.
Proof.
  intros Hs Hsrc Hu Hfv Hcost Hbt [_ Hw]. destruct Hbt. destruct bt_header0 as (_ & Etx & Href & _).
  pose proof (fee_range _ _ _ Hfv bt_fee0) as Hf.
  assert (amounts_ok (checked_data b.(b_data))) as Hu'
    by (destruct (b_data b); [by apply amounts_ok_checked|done]).
  rewrite list.Forall_forall in bt_items0 |- *. intros x Hx.
  destruct (bt_items0 x Hx) as ((v & k & c & Hk & Hc & Hct) & _ & (v' & k' & Hk' & Hsub)).
  rewrite Hk in Hk'. injection Hk' as <- <-.
  destruct (Hw _ _ _ Hk) as (Hv & c' & Hc' & Hh & Hsend). rewrite Hc in Hc'. injection Hc' as <-.
  rewrite Etx, Hsrc, Href, Hsend, Hct.
  assert (x.(it_asset) ∈ TypeBuilder.used_assets b.(b_data)) as Ha.
  { rewrite <- set_iter_elem, <- bt_assets0. by apply list_elem_of_fmap_2. }
  assert (total_cost (checked_data b.(b_data)) tx.(fee) x.(it_asset) < 2 ^ 64) as Hlt.
  { specialize (Hcost _ Ha). destruct (b_data b); [cbn [checked_data]; by rewrite total_cost_checked|done]. }
  destruct (transaction_cost_total (with_data (checked_data b.(b_data)) b) tx.(fee) x.(it_asset) Hu' Hf Hlt) as [Ecost Hpos].
  cbn [b_data with_data] in Ecost, Hpos. rewrite Ecost in Hsub. unfold checked_sub in Hsub.
  destruct (Z.leb_spec (total_cost (checked_data b.(b_data)) tx.(fee) x.(it_asset)) v) as [Hle|]; [|done]. injection Hsub as <-.
  rewrite new_source_ct_output by exact bt_data0. split; [|split; [unfold in_u in *; lia|done]].
  apply holds_sub; [lia|unfold in_u in Hv; lia|done|].
  exact (output_holds sk (with_data (checked_data b.(b_data)) b) tx tws x.(it_asset) _ Hs bt_data0 Hu' Hf Hlt bt_committed0).
Qed.

(** *** What the verification leaves on the node *)

Lemma fold_transfer_send zs l : l_send (foldl transfer_step l zs) = l_send l.
Proof. revert l. induction zs as [|p zs IH]; intros l; simpl; [done|]. by rewrite IH. Qed.

Lemma fold_commit_send tx ds assets l a r :
  NoDup assets ->
  l_send (foldl (commit_step tx ds) l assets) tx.(source) a r =
    if decide (a ∈ assets) then ct_sub (l_send l tx.(source) a tx.(reference)) (output_of tx a ds)
    else l_send l tx.(source) a r.
Proof.
  intros Hnd. revert l. induction Hnd as [|b assets Hb _ IH]; intros l; simpl.
  - destruct (decide (a ∈ [])); [set_solver|done].
  - rewrite IH. unfold commit_step; simpl. rewrite fn_upd_eq. destruct (decide (a = b)) as [->|Hne].
    + destruct (decide (b ∈ assets)); [done|]. destruct (decide (b ∈ b :: assets)); [by rewrite fn_upd_eq|set_solver].
    + rewrite fn_upd_ne by done. destruct (decide (a ∈ assets)), (decide (a ∈ b :: assets)); set_solver.
Qed.

Lemma agreement_kept b sk rng ws ws' tx tws items t1 t2 l l' :
  sk <> s0 -> b.(b_source) = Key.compress (own_key sk) -> amounts_ok b.(b_data) -> fee_value_ok b ->
  (forall a, a ∈ TypeBuilder.used_assets b.(b_data) -> total_cost b.(b_data) tx.(fee) a < 2 ^ 64) ->
  Built b (own_pair sk) rng ws ws' tx tws items t1 t2 -> wallet_agrees sk ws l ->
  l' ≡ ledger_apply tx (opened <$> tws) l -> wallet_agrees sk ws' l'.
Proof.
  intros Hs Hsrc Hu Hfv Hcost Hbt Hag (En & _ & Es & _).
  pose proof (items_left _ _ _ _ _ _ _ _ _ _ _ Hs Hsrc Hu Hfv Hcost Hbt Hag) as Hleft.
  destruct Hag as [Hn Hw], Hbt. destruct bt_header0 as (_ & Etx & Href & Hnonce), bt_rest0 as (Hrest & Hn' & Href').
  assert (assets_of tx = it_asset <$> items) as Eas by by eapply proved_assets.
  assert (NoDup (assets_of tx)) as Hnd by (rewrite Eas, bt_assets0; apply set_iter_NoDup).
  assert (Key.compress (own_key sk) = tx.(source)) as Esrc by congruence.
  unfold wallet_agrees. rewrite Esrc in *. split.
  - rewrite En. unfold ledger_apply. rewrite fold_transfer_nonce, fold_commit_nonce. cbn [l_nonce upd_nonce].
    by rewrite fn_upd_eq, Hn', Hnonce.
  - intros a v k Hk. rewrite Es. unfold ledger_apply. rewrite fold_transfer_send, fold_commit_send by done.
    cbn [l_send upd_nonce]. destruct (decide (a ∈ assets_of tx)) as [Hin|Hnot].
    + rewrite Eas in Hin. apply list_elem_of_fmap in Hin as (x & -> & Hx). rewrite list.Forall_forall in bt_items0, Hleft.
      destruct (bt_items0 x Hx) as (_ & (k' & Hk' & Hc') & _). destruct (Hleft x Hx) as (Hh & Hr & Ect).
      rewrite Hk in Hk'. injection Hk' as -> ->. split; [done|]. exists x.(it_ct). done.
    + rewrite Hrest in Hk by by rewrite <- Eas. rewrite Href'. by apply Hw.
Qed.
(** ** The run of the verifier *)

(** The first calls on the state. *)
Lemma nonce_calls tx live node s1 n :
  Serves (E:=E) tx live -> live node -> pre_verify_tx tx node = (Ok tt, s1) -> l_nonce (obs node) tx.(source) = n ->
  exists s2 s3, get_account_nonce tx.(source) s1 = (Ok n, s2) /\
    update_account_nonce tx.(source) (u64_add n 1) s2 = (Ok tt, s3) /\ live s3 /\
    obs s3 ≡ upd_nonce tx.(source) (u64_add n 1) (obs node).
Proof.
  intros Hsv Hl H1 Hn. pose proof (sv_pre_verify _ _ Hsv node s1 Hl H1) as Hl1.
  destruct (sv_get_nonce _ _ Hsv s1 Hl1) as (m & s2 & H2 & Hl2).
  destruct (sv_update_nonce _ _ Hsv (u64_add n 1) s2 Hl2) as (s3 & H3 & Hl3).
  destruct (law_pre_verify _ _ _ (sv_inv _ _ Hsv _ Hl) H1) as [_ O1].
  destruct (law_get_nonce _ _ _ _ (sv_inv _ _ Hsv _ Hl1) H2) as (_ & O2 & Em).
  destruct (law_update_nonce _ _ _ _ (sv_inv _ _ Hsv _ Hl2) H3) as (_ & O3).
  assert (m = n) as -> by (rewrite <- Em, <- Hn; by destruct O1 as [-> _]).
  exists s2, s3. repeat (split; [done|]). by rewrite O3, O2, O1.
Qed.

Lemma collector_default_ok : collector_verify collector_default = Ok tt.
Proof. rewrite collector_verify_spec by done. by rewrite collector_default_val, decide_True. Qed.

Lemma built_assets b sk rng ws ws' tx tws items t1 t2 :
  Built b (own_pair sk) rng ws ws' tx tws items t1 t2 -> verify_commitment_assets tx = true.
Proof.
  intros []. apply verify_commitment_assets_iff.
  assert (assets_of tx = hs_iter (TypeBuilder.used_assets b.(b_data))) as -> by (rewrite <- bt_assets0; by eapply proved_assets).
  setoid_rewrite set_iter_elem. split; [apply used_assets_elem; by left|]. split; [apply set_iter_NoDup|].
  by eapply spent_used.
Qed.

Lemma built_transfers b sk rng ws ws' tx tws items t1 t2 :
  b.(b_source) = Key.compress (own_key sk) -> Built b (own_pair sk) rng ws ws' tx tws items t1 t2 ->
  match tx.(data) with
  | Transfers ps => (1 <= length ps <= MAX_TRANSFER_COUNT)%nat /\ Forall2 payload_like ps tws /\
      Forall (fun p => p.(destination) <> tx.(source)) ps
  | Burn _ => tws = []
  end.
Proof.
  intros Hsrc []. destruct bt_header0 as (_ & Etx & _). rewrite Etx, Hsrc. unfold data_like in *.
  destruct (data tx) as [ps|p], (b_data b) as [l|q]; simpl in bt_data0; try done; [|naive_solver].
  destruct bt_data0 as [Hp Hi], bt_transfers0 as (Hn & Hk & _).
  assert (length ps = length l) as Elen.
  { rewrite (list.Forall2_length _ _ _ Hp), <- (length_fmap twc_inner), <- Hi. apply length_fmap. }
  split; [by rewrite Elen|]. split; [done|].
  assert (Forall (fun t => t.(tb_destination).(Address.key) <> Key.compress (own_key sk)) (twc_inner <$> tws)) as Hk'.
  { rewrite <- Hi. apply Forall_fmap. eapply list.Forall_impl; [exact Hk|]. intros t Ht. unfold compose, checked_of. cbn.
    unfold Address.extract_data_only. by destruct (addr_type _). }
  clear -Hp Hk'. induction Hp as [|p tw ps tws (extra & proof & ->) _ IH]; [constructor|]. csimpl in Hk'.
  apply list.Forall_cons in Hk' as [? ?]. constructor; [done|auto].
Qed.

(** The range proof is accepted for the commitments the verifier collects. *)
Lemma built_range b pair rng ws ws' tx tws items t1 t2 :
  Built b pair rng ws ws' tx tws items t1 t2 ->
  amounts_ok b.(b_data) -> Forall (fun x => in_u 64 x.(it_value)) items ->
  let n := (length tx.(source_commitments) + length (transfers_of tx))%nat in
  checked_next_power_of_two (Z.of_nat n) = Some (next_power_of_two (Z.of_nat n)) /\
  rp_verify_multiple tx.(tx_range_proof) t2
    (value_view (zip_with (fun c n => (n.(commitment_pt), c.(sc_commitment).(commitment_point)))
       tx.(source_commitments) (item_commitment <$> items)
     ++ zip_with (fun p d => (d.(d_commitment).(commitment_pt), p.(tr_commitment).(commitment_point)))
          (transfers_of tx) (opened <$> tws)
     ++ replicate (duds n) (pid, mkRistretto (vreplicate 32 x00)))) BULLET_PROOF_SIZE = Ok tt /\
  n = (stdpp.base.size (TypeBuilder.used_assets b.(b_data)) + length (transfers_in b.(b_data)))%nat /\
  exists k, next_power_of_two (Z.of_nat n) = Z.of_nat (2 ^ k) /\
    length (rp_to_bytes tx.(tx_range_proof)) = (32 * (9 + 2 * (6 + k)))%nat.
Proof.
  intros [] Hu Hit n. destruct bt_range0 as (p & <- & Hrp & Hvals & Hopens).
  pose proof (proved_commitments _ _ _ _ _ bt_sources0) as Hcs.
  pose proof (transfers_proved_like _ _ _ _ _ bt_proofs0) as Hps.
  assert (length (pv_values p) = n) as Hn.
  { unfold n. rewrite Hvals, length_app, !length_fmap, (list.Forall2_length _ _ _ Hcs), (list.Forall2_length _ _ _ Hps). done. }
  assert (n = stdpp.base.size (TypeBuilder.used_assets b.(b_data)) + length (transfers_in b.(b_data)))%nat as Hsize.
  { rewrite <- Hn, Hvals, length_app, !length_fmap. f_equal.
    - rewrite <- (length_fmap it_asset), bt_assets0, hs_iter_spec. done.
    - rewrite <- (list.Forall2_length _ _ _ bt_committed0). destruct (b_data b); [apply length_fmap|done]. }
  destruct (prove_range_ok rng p tx.(tx_range_proof) Hrp) as (Hpow & Hver & Hlen).
  - by rewrite Hvals, Hopens, !length_app, !length_fmap.
  - rewrite Hn, Hsize. pose proof (used_assets_size b.(b_data)).
    assert (length (transfers_in b.(b_data)) <= MAX_TRANSFER_COUNT)%nat by (destruct (b_data b); simpl in *; [naive_solver|unfold MAX_TRANSFER_COUNT; lia]).
    unfold max_parties, MAX_TRANSFER_COUNT in *. lia.
  - rewrite Hvals. apply Forall_app. split; [by apply Forall_fmap|].
    assert (Forall (in_u 64) (tb_amount <$> (twc_inner <$> tws))) as Ha; [|by rewrite <- list_fmap_compose in Ha].
    rewrite <- (committed_inner _ _ _ bt_committed0). apply Forall_fmap. destruct (b_data b) as [l|q]; simpl; [|constructor].
    exact (amounts_ok_checked l Hu).
  - rewrite Hn in Hpow, Hver, Hlen. split; [done|]. split; [|done]. rewrite <- Hver. f_equal.
    unfold value_view. rewrite !fmap_app. fold (value_view).
    change (fmap (fun '(p0, c) => (p0, cr_bytes c)) ?l) with (value_view l).
    rewrite (source_values _ _ Hcs), (transfer_values _ _ _ _ Hps bt_committed0), dud_values.
    rewrite Hvals, Hopens, <- !(assoc_L (++)).
    rewrite !zip_with_app by (rewrite !length_fmap; done). done.
Qed.

(** The verifier up to the checks on the transfers. *)
Lemma pre_verify_start tx (node s1 s2 s3 : St) :
  pre_verify_tx tx node = (Ok tt, s1) -> get_account_nonce tx.(source) s1 = (Ok tx.(nonce), s2) ->
  update_account_nonce tx.(source) (u64_add tx.(nonce) 1) s2 = (Ok tt, s3) -> verify_commitment_assets tx = true ->
  forall A (k : list DecompressedTransferCt -> stm St (VerificationError E) A) r,
    (transfers_decompressed ← Verify.check_transfers tx; k transfers_decompressed) s3 = r ->
    (_ ← state (pre_verify_tx tx); account_nonce ← state (get_account_nonce tx.(source));
     if negb (account_nonce =? tx.(nonce)) then st_err (InvalidNonce account_nonce tx.(nonce))
     else _ ← state (update_account_nonce tx.(source) (u64_add tx.(nonce) 1));
          if negb (verify_commitment_assets tx) then st_err (Proof Format)
          else transfers_decompressed ← Verify.check_transfers tx; k transfers_decompressed) node = r.
Proof.
  intros R1 R2 R3 Hva A k r Hr.
  rewrite (stm_bind_run _ _ _ _ _ (state_run _ _ _ _ R1)), (stm_bind_run _ _ _ _ _ (state_run _ _ _ _ R2)).
  rewrite Z.eqb_refl. cbn [negb]. rewrite (stm_bind_run _ _ _ _ _ (state_run _ _ _ _ R3)), Hva. exact Hr.
Qed.

(** A node that refuses the transaction in [pre_verify_tx] refuses it in [verify]. *)
Lemma verify_refused tx rnd (node : St) : is_ok (pre_verify_tx tx node).1 = false ->
  (verify (E:=E) tx rnd node).1 = match (pre_verify_tx tx node).1 with
                                  | Ok _ => Diverge | Err e => Err (State e) | Panic => Panic | Diverge => Diverge
                                  end.
Proof.
  intros Hp. unfold verify, pre_verify. unfold mbind, stm_bind, state, st_map_err.
  by destruct (pre_verify_tx tx node) as [[?| | |] s].
Qed.

Lemma built_verifies b sk rng ws ws' tx tws items t1 t2 live node node1 rnd :
  sk <> s0 -> b.(b_source) = Key.compress (own_key sk) -> amounts_ok b.(b_data) -> fee_value_ok b ->
  (forall a, a ∈ TypeBuilder.used_assets b.(b_data) -> total_cost b.(b_data) tx.(fee) a < 2 ^ 64) ->
  Built b (own_pair sk) rng ws ws' tx tws items t1 t2 -> wallet_agrees sk ws (obs node) ->
  points_ok tx -> Serves (E:=E) tx live -> live node -> pre_verify_tx tx node = (Ok tt, node1) ->
  if (extra_sizes (transfers_of tx) <=? EXTRA_DATA_LIMIT_SIZE)%nat
  then exists node', verify tx rnd node = (Ok tt, node') /\ live node'
  else (verify tx rnd node).1 = Err (Proof Format).
Proof.
  intros Hs Hsrc Hu Hfv Hcost Hbt Hag [Hpts1 Hpts2] Hsv Hl R1.
  pose proof (items_left _ _ _ _ _ _ _ _ _ _ _ Hs Hsrc Hu Hfv Hcost Hbt Hag) as Hleft.
  pose proof (built_assets _ _ _ _ _ _ _ _ _ _ Hbt) as Hva.
  pose proof (built_transfers _ _ _ _ _ _ _ _ _ _ Hsrc Hbt) as Htr.
  destruct Hag as [Hn _]. pose proof Hbt as []. destruct bt_header0 as (_ & Etx & _ & Hnonce).
  assert (l_nonce (obs node) tx.(source) = tx.(nonce)) as Hln by congruence.
  destruct (nonce_calls tx live node node1 tx.(nonce) Hsv Hl R1 Hln) as (s2 & s3 & R2 & R3 & Hl3 & O3).
  assert (assets_of tx = it_asset <$> items) as Eas by by eapply proved_assets.
  pose proof (proved_commitments _ _ _ _ _ bt_sources0) as Hcs.
  pose proof (check_transfers_run (E:=E) tx tws s3 Htr) as Hct.
  pose proof (pre_verify_start tx node node1 s2 s3 R1 R2 R3 Hva) as Hstart.
  destruct (Nat.leb_spec (extra_sizes (transfers_of tx)) EXTRA_DATA_LIMIT_SIZE) as [Hle|Hgt].
  2: { unfold verify. assert ((pre_verify tx rnd collector_default 0 node) = (Err (Proof Format), s3)) as Hp.
       { apply Hstart. unfold mbind, stm_bind. by rewrite Hct. }
       unfold mbind, stm_bind. by rewrite Hp. }
  destruct (built_range b (own_pair sk) rng ws ws' tx tws items t1 t2) as (Hpow & Hrange & _);
    [exact Hbt|exact Hu|eapply list.Forall_impl; [exact Hleft|]; naive_solver|].
  destruct (verify_sources_run tx sk (opened <$> tws) rnd live _ items tx.(source_commitments) t1 Hs Hsv bt_sources0)
    with (b := collector_default) (d := 0%nat) (s := s3) as (b1 & d1 & s4 & L1 & Hl4 & Hb1 & E1); try done.
  { rewrite bt_assets0. apply set_iter_NoDup. }
  { intros x Hx. rewrite Eas. by apply list_elem_of_fmap_2. }
  { eapply list.Forall_impl; [exact Hleft|]. intros x (Hh & _ & Ect). split; [done|]. rewrite Ect. f_equal.
    by destruct O3 as (_ & _ & -> & _). }
  destruct (verify_transfers_run tx live rnd _ t1 tws (transfers_of tx) t2 _ Hsv bt_proofs0 bt_committed0 Hpts2 b1 d1 s4 Hl4 Hb1)
    as (b2 & d2 & s5 & L2 & Hl5 & Hb2 & E2).
  exists s5. split; [|done].
  assert (Key.decompress tx.(source) = Ok (own_key sk)) as Hown by (rewrite Etx, Hsrc; apply own_key_decompress).
  assert (Key.verify tx.(signature) (take (length (to_bytes tx) - SIGNATURE_SIZE) (to_bytes tx)) (own_key sk) = true) as Hsig
    by (destruct bt_signed0 as (x & k & ->); by apply signature_accepted).
  pose proof (source_commitments_decompress _ _ Hcs) as Hdec.
  match type of Hrange with rp_verify_multiple _ _ (value_view ?l) _ = _ =>
    assert (pre_verify tx rnd collector_default 0 node = (Ok (t2, l, b2, d2), s5)) as Hpre end.
  { apply Hstart. rewrite (stm_bind_run _ _ _ _ _ Hct).
    rewrite (stm_bind_run _ _ _ _ _ (proof_run _ _ s3 (f_equal (map_err Decompression) Hdec))).
    rewrite (stm_bind_run _ _ _ _ _ (proof_run _ _ s3 (f_equal (map_err Decompression) Hown))).
    cbv zeta. rewrite Hsig. cbn [negb].
    rewrite (stm_bind_run _ _ _ _ _ L1). cbv beta iota. rewrite (stm_bind_run _ _ _ _ _ L2). cbv beta iota.
    rewrite (stm_bind_run _ _ _ _ _ (proof_run _ _ s5 (f_equal (fun o => ok_or o Format) Hpow))). done. }
  unfold verify. rewrite (stm_bind_run _ _ _ _ _ Hpre). cbv beta iota.
  assert (collector_verify b2 = Ok tt) as Hb2ok by (rewrite E2, E1; apply collector_default_ok).
  rewrite (stm_bind_run _ _ _ _ _ (proof_run _ _ s5 (f_equal (map_err (fun _ => GenericProof)) Hb2ok))).
  apply proof_run. exact (f_equal (map_err RangeProofError) Hrange).
Qed.
End Agreement.

(** ** The size *)

Section Size.
Context {CV : Curve} {ML : Merlin} {RP : RangeProofLib} {PR : RangeProver} {CL : CipherLib}.
Context {HO : HashOrder} {HM : HashMapIter}.

Lemma trailing_zeros_pow (k : nat) : trailing_zeros (2 ^ Z.of_nat k) = Z.of_nat k.
Proof.
  unfold trailing_zeros. assert (0 < 2 ^ Z.of_nat k) as Hp by (apply Z.pow_pos_nonneg; lia).
  destruct (Z.eqb_spec (2 ^ Z.of_nat k) 0) as [|_]; [lia|].
  replace (- 2 ^ Z.of_nat k) with (Z.lnot (Z.ones (Z.of_nat k))) by (rewrite Z.ones_equiv; unfold Z.lnot; lia).
  rewrite <- Z.ldiff_land, Z.ldiff_ones_r, Z.shiftr_div_pow2, Z.div_same, Z.shiftl_mul_pow2, Z.mul_1_l by lia.
  apply Z.log2_pow2. lia.
Qed.

Lemma log_of_bits (n k : nat) :
  (1 <= n)%nat -> next_power_of_two (Z.of_nat n) = Z.of_nat (2 ^ k) ->
  Z.to_nat (trailing_zeros (next_power_of_two (Z.of_nat (BULLET_PROOF_SIZE * n)))) = (6 + k)%nat.
Proof.
  intros Hn Hk. assert (Z.log2_up (Z.of_nat n) = Z.of_nat k) as Hl.
  { unfold next_power_of_two in Hk. rewrite Nat2Z.inj_pow in Hk. apply Z.pow_inj_r in Hk; [done|lia|apply Z.log2_up_nonneg|lia]. }
  unfold next_power_of_two. replace (Z.of_nat (BULLET_PROOF_SIZE * n)) with (Z.of_nat n * 2 ^ 6)
    by (unfold BULLET_PROOF_SIZE; rewrite Nat2Z.inj_mul; lia).
  rewrite Z.log2_up_mul_pow2, Hl by lia. replace (6 + Z.of_nat k) with (Z.of_nat (6 + k)) by lia.
  by rewrite trailing_zeros_pow, Nat2Z.id.
Qed.

(** What the data of a transfer adds to it. *)
Lemma extra_length pair t tw extra :
  twc_inner tw = checked_of t -> (tb_extra_data t = None \/ Address.get_extra_data (tb_destination t) = None) ->
  encrypted pair tw extra ->
  length (to_bytes extra) =
    (1 + match (match tb_extra_data t with Some e => Some e | None => Address.get_extra_data (tb_destination t) end) with
         | Some e => 2 + 2 + RISTRETTO_COMPRESSED_SIZE * 2 + size e
         | None => 0
         end)%nat.
Proof.
  intros Hi He Henc. rewrite (to_bytes_enc option_enc) by apply write_option_append.
  assert ((twc_inner tw).(tb_extra_data) =
    match tb_extra_data t with Some e => Some e | None => Address.get_extra_data (tb_destination t) end) as Ee.
  { rewrite Hi. unfold checked_of, Address.extract_data_only, Address.get_extra_data in *. cbn.
    destruct (addr_type (tb_destination t)), (tb_extra_data t); naive_solver. }
  unfold encrypted in Henc. rewrite Ee in Henc.
  destruct (match tb_extra_data t with Some e => Some e | None => Address.get_extra_data (tb_destination t) end) as [e|];
    [|by subst extra].
  destruct Henc as [opening ->]. cbn [option_enc]. rewrite length_app.
  rewrite (to_bytes_enc extra_enc) by apply extra_append. unfold extra_enc, from_extra_data. cbn [extra_bytes].
  rewrite bytes_length, (proj2 (extra_new_size _ _ _ _)), element_size. cbn [plain_bytes].
  unfold RISTRETTO_COMPRESSED_SIZE. change (length (bool_bytes true)) with 1%nat. lia.
Qed.

Lemma payload_length pair t tw extra proof :
  twc_inner tw = checked_of t -> (tb_extra_data t = None \/ Address.get_extra_data (tb_destination t) = None) ->
  encrypted pair tw extra -> length (to_bytes (payload_of tw extra proof)) = transfer_estimate t.
Proof.
  intros Hi He Henc. rewrite (to_bytes_enc transfer_enc) by apply transfer_append.
  unfold transfer_enc, payload_of.
  cbn [tr_asset destination extra_data tr_commitment sender_handle receiver_handle ct_validity_proof].
  rewrite !length_app, !length_point_bytes, (extra_length pair t tw) by done.
  rewrite <- (ser_size proof), <- (ser_size (tb_asset _)) by done. unfold transfer_estimate.
  change (size (tb_asset ?a)) with HASH_SIZE. change (size (key ?a)) with RISTRETTO_COMPRESSED_SIZE.
  change (size proof) with (RISTRETTO_COMPRESSED_SIZE * 2 + SCALAR_SIZE * 2)%nat.
  unfold HASH_SIZE, RISTRETTO_COMPRESSED_SIZE, SCALAR_SIZE. lia.
Qed.

Lemma payloads_length pair l t tws ps t' :
  transfers_proved pair t tws ps t' -> (checked_of <$> l) = twc_inner <$> tws ->
  Forall (fun t => t.(tb_extra_data) = None \/ Address.get_extra_data t.(tb_destination) = None) l ->
  forall n, (n + length (concat_bytes to_bytes ps))%nat = foldl (fun sz transfer => sz + transfer_estimate transfer)%nat n l.
Proof.
  intros Hp. revert l. induction Hp as [t|t tw tws masks extra proof t1 ps t2 _ He _ IH]; intros [|b l] Hl Hf n; try done; [].
  csimpl in Hl. injection Hl as Hb Hl. apply list.Forall_cons in Hf as [Hx Hf].
  rewrite concat_bytes_cons, length_app, (payload_length pair b) by done. cbn [foldl]. rewrite <- (IH l Hl Hf). lia.
Qed.

Lemma sc_length (l : list SourceCommitment) :
  length (concat_bytes to_bytes l) = (length l * (RISTRETTO_COMPRESSED_SIZE + HASH_SIZE + (RISTRETTO_COMPRESSED_SIZE * 3 + SCALAR_SIZE * 3)))%nat.
Proof.
  apply length_concat_bytes. intros c _. rewrite <- ser_size by done. cbn [size SourceCommitment_Serializer].
  change (size (sc_commitment c)) with RISTRETTO_COMPRESSED_SIZE. change (size (sc_asset c)) with HASH_SIZE.
  change (size (sc_proof c)) with (RISTRETTO_COMPRESSED_SIZE * 3 + SCALAR_SIZE * 3)%nat. lia.
Qed.

Context {WS WE : Type} {AS : AccountState WS WE} {AL : AccountLaws}.

Lemma cost_nonneg b fee a : amounts_ok b.(b_data) -> 0 <= get_transaction_cost b fee a.
Proof.
  unfold get_transaction_cost, amounts_ok. assert (forall x y, 0 <= u64_add x y) as Hu
    by (intros; apply wrap_range; lia).
  destruct (b_data b) as [l|p]; intros Ha; [|repeat case_decide; auto; lia].
  assert (0 <= (if decide (a = XELIS_ASSET) then u64_add 0 fee else 0)) as H0 by (case_decide; auto; lia).
  revert H0. generalize (if decide (a = XELIS_ASSET) then u64_add 0 fee else 0).
  clear Ha. induction l as [|t l IH]; intros c Hc; simpl; [done|]. apply IH. case_decide; auto.
Qed.

Lemma items_range b pair rng ws ws' tx tws items t1 t2 :
  amounts_ok b.(b_data) -> (forall a v k, acc_view ws a = Some (v, k) -> in_u 64 v) ->
  Built b pair rng ws ws' tx tws items t1 t2 -> Forall (fun x => in_u 64 x.(it_value)) items.
Proof.
  intros Hu Hw []. rewrite list.Forall_forall in *. intros x Hx. destruct (bt_items0 x Hx) as (_ & _ & v & k & Hk & Hsub).
  unfold checked_sub in Hsub. destruct (Z.leb_spec (get_transaction_cost (with_data (checked_data b.(b_data)) b) tx.(fee) x.(it_asset)) v); [|done].
  injection Hsub as <-. specialize (Hw _ _ _ Hk).
  assert (amounts_ok (checked_data b.(b_data))) as Hu' by (destruct (b_data b); [by apply amounts_ok_checked|done]).
  pose proof (cost_nonneg (with_data (checked_data b.(b_data)) b) tx.(fee) x.(it_asset) Hu'). unfold in_u in *. lia.
Qed.

Lemma built_length b pair rng ws ws' tx tws items t1 t2 :
  amounts_ok b.(b_data) -> (forall a v k, acc_view ws a = Some (v, k) -> in_u 64 v) ->
  Built b pair rng ws ws' tx tws items t1 t2 -> length (to_bytes tx) = estimate_size b.
Proof.
  intros Hu Hw Hbt.
  destruct (built_range _ _ _ _ _ _ _ _ _ _ Hbt Hu (items_range _ _ _ _ _ _ _ _ _ _ Hu Hw Hbt)) as (_ & _ & Hn & k & Hk & Hrp).
  set (n := (length tx.(source_commitments) + length (transfers_of tx))%nat) in *.
  destruct Hbt. rewrite transaction_bytes. unfold transaction_enc, estimate_size.
  assert (length tx.(source_commitments) = stdpp.base.size (TypeBuilder.used_assets b.(b_data))) as Hsc.
  { rewrite (list.Forall2_length _ _ _ (proved_commitments _ _ _ _ _ bt_sources0)), <- (length_fmap it_asset), bt_assets0, hs_iter_spec. done. }
  assert (length (to_bytes tx.(tx_range_proof)) = 2 + 32 * (9 + 2 * (6 + k)))%nat as Hr.
  { rewrite (to_bytes_enc range_enc) by apply range_append. unfold range_enc. by rewrite length_app, length_be_bytes, Hrp. }
  assert (length (to_bytes tx.(reference)) = HASH_SIZE + 8)%nat as Href.
  { rewrite (to_bytes_enc reference_enc) by apply reference_append. unfold reference_enc.
    by rewrite length_app, <- ser_size, length_be_bytes. }
  assert (forall m, n = (stdpp.base.size (TypeBuilder.used_assets b.(b_data)) + m)%nat ->
    range_proof_estimate m (stdpp.base.size (TypeBuilder.used_assets b.(b_data))) = (2 + 32 * (9 + 2 * (6 + k)))%nat) as Hest.
  { intros m Hm. unfold range_proof_estimate. rewrite (Nat.add_comm m), <- Hm, (log_of_bits n k) by (done || (pose proof (used_assets_size b.(b_data)); lia)).
    unfold RISTRETTO_COMPRESSED_SIZE, SCALAR_SIZE. lia. }
  rewrite !length_app, !length_be_bytes, sc_length, Hsc, !length_point_bytes, Hr, Href.
  rewrite <- (ser_size tx.(signature)) by done. change (size tx.(signature)) with SIGNATURE_SIZE.
  change (size b.(b_source)) with 32%nat.
  rewrite (to_bytes_enc Transaction.type_enc) by apply Transaction.type_append. unfold data_like, transfers_of in *.
  destruct (data tx) as [ps|p], (b_data b) as [l|q]; simpl in bt_data0; try done; cbn [transfers_in] in Hn.
  - destruct bt_data0 as [_ Hl], bt_transfers0 as (_ & _ & Hf). cbn [Transaction.type_enc].
    rewrite (Hest _ Hn), <- (payloads_length _ _ _ _ _ _ bt_proofs0 Hl Hf).
    rewrite !length_app. change (length (u8_bytes ?z)) with 1%nat. lia.
  - destruct bt_data0 as [-> _]. cbn [Transaction.type_enc]. rewrite (Hest 0%nat Hn), length_app. change (length (u8_bytes ?z)) with 1%nat.
    rewrite (to_bytes_enc burn_enc) by apply burn_append. unfold burn_enc.
    rewrite length_app, length_be_bytes, <- ser_size by done. change (size (burn_asset q)) with HASH_SIZE.
    change (size q) with (HASH_SIZE + 8)%nat. lia.
Qed.
End Size.
