(* ===== verification/BuilderModel.v ===== *)
(** The theorems of the builder, and a wallet on a concrete curve that builds a
    transaction for a node. *)

From S2P Require Import Prelude External ExternalModel ExternalCrypto Serializer Hash Defaults Elgamal Proofs Transaction Verify Data Address ExtraData Account Emission Builder VerifyFacts VerifyModel BuilderFacts BuilderRun WalletState.

(** ** The state of the wallet keeps its promises *)

Section WalletLaws.
Context {CV : Curve}.

Definition balance_view (b : Balance) : Z * CiphertextCache := (b.(b_amount), b.(b_ciphertext)).

Lemma find_balance_ok {A} (f : Balance -> A) a s x :
  (b ← find_balance a s; Ok (f b)) = Ok x -> exists b, s.(ts_balances) !! a = Some b /\ x = f b.
Proof. intros (b & Hb%ok_or_ok & [= <-])%res_bind_ok. by exists b. Qed.

Definition state_laws : AccountLaws (St:=TransactionBuilderState) (E:=WalletError).
Proof.
  refine {| acc_view s a := balance_view <$> s.(ts_balances) !! a; acc_nonce := ts_nonce |}.
  - intros a s v (b & -> & ->)%find_balance_ok. by eexists.
  - intros a s k (b & -> & ->)%find_balance_ok. by eexists.
  - intros a v c s s' [= <-]. split; [|done]. exists (Decompressed c). split; [done|]. intros b. cbn.
    unfold fn_upd. case_decide as Hd; [subst b; by rewrite lookup_insert_eq|by rewrite lookup_insert_ne].
  - by intros s n [= <-].
  - by intros n s s' [= <-].
Defined.
End WalletLaws.

(** ** The theorems *)

Section Theorems.
Context {CV : Curve} {ML : Merlin} {RP : RangeProofLib} {PR : RangeProver} {CL : CipherLib}.
Context {HO : HashOrder} {HM : HashMapIter}.
Context {WS WE : Type} {AS : AccountState WS WE} {AL : AccountLaws}.

(** C5: what [verify] does on a transaction that a wallet built, on a node the
    wallet agrees with.  The checks the node makes of its own in
    [pre_verify_tx], of the version, the fee and the reference, decide: when it
    refuses there, the error is that of [verify].  When it does not, the
    transaction is accepted and the node is then left in agreement with the
    wallet, ready for the next transaction; unless the encrypted data of its
    transfers, whose sizes the two sides do not count in the same way, is over
    the limit of the verifier, which then refuses it.  The wallet agrees with a
    node when it has the nonce of its account and knows each ciphertext the
    node has for it, with its content.  What is spent of each asset is assumed
    to be below [2 ^ 64], which the builder does not check (its sum of the
    amounts may wrap around); no point of a proof is the identity, and the node
    answers the other calls. *)
Theorem built_transaction_verifies {St E : Type} {BS : BlockchainVerificationState St E} {SL : StateLaws}
    (b : TransactionBuilder) (sk : scalar) (rng : Draws) (ws ws' : WS) (tx : Transaction)
    (live : St -> Prop) (node : St) (rnd : nat -> scalar)
    (Hsk : sk <> s0) (Hsrc : b.(b_source) = Key.compress (own_key sk))
    (Hamounts : amounts_ok b.(b_data)) (Hfee : fee_value_ok b)
    (Hb : build b (own_pair sk) rng ws = (Ok tx, ws'))
    (Hcost : forall a, a ∈ TypeBuilder.used_assets b.(b_data) -> total_cost b.(b_data) tx.(fee) a < 2 ^ 64)
    (Hagree : wallet_agrees sk ws (obs node)) (Hpoints : points_ok tx)
    (Hserves : Serves (E:=E) tx live) (Hlive : live node) :
  match (pre_verify_tx tx node).1 with
  | Ok _ =>
      if (extra_sizes (transfers_of tx) <=? EXTRA_DATA_LIMIT_SIZE)%nat
      then exists node', verify tx rnd node = (Ok tt, node') /\ live node' /\ wallet_agrees sk ws' (obs node')
      else (verify tx rnd node).1 = Err (Proof Format)
  | Err e => (verify tx rnd node).1 = Err (State e)
  | Panic => (verify (E:=E) tx rnd node).1 = Panic
  | Diverge => (verify (E:=E) tx rnd node).1 = Diverge
  end.
Proof.
  pose proof (verify_refused tx rnd node) as Hno.
  destruct (pre_verify_tx tx node) as [[[]|e| |] node1] eqn:Hp1; cbn [fst] in *; [|by apply Hno..]. clear Hno.
  destruct (build_ok _ _ _ _ _ _ Hb) as (tws & items & t1 & t2 & Hbt).
  pose proof (built_verifies _ _ _ _ _ _ _ _ _ _ _ _ _ rnd Hsk Hsrc Hamounts Hfee Hcost Hbt Hagree Hpoints Hserves Hlive Hp1) as Hv.
  destruct (_ <=? _)%nat; [|exact Hv]. destruct Hv as (node' & Hv & Hl). exists node'. split; [done|]. split; [done|].
  pose proof Hv as Hpre. unfold verify in Hpre. apply stm_bind_ok in Hpre as ([[[t cs] bt] d] & s1 & Hp & Hpre).
  apply stm_bind_ok in Hpre as ([] & s2 & [_ ->]%proof_ok & [_ ->]%proof_ok).
  apply pre_verify_inv in Hp as (ds & owner & Hds & _ & _ & _ & _ & _ & _ & Hobs); [|by apply (sv_inv _ _ Hserves)].
  assert (ds = opened <$> tws) as ->.
  { destruct Hbt. rewrite (decompress_payloads _ tws) in Hds by by eapply transfers_proved_like. by injection Hds as <-. }
  by eapply agreement_kept.
Qed.

(** C33: the transaction built takes exactly the number of bytes that the
    builder estimated, and computed the fee from, before making it. *)
Theorem estimated_size_exact (b : TransactionBuilder) (pair : Key.KeyPair) (rng : Draws) (ws ws' : WS) (tx : Transaction)
    (Hamounts : amounts_ok b.(b_data))
    (Hbalances : forall a v k, acc_view ws a = Some (v, k) -> in_u 64 v)
    (Hb : build b pair rng ws = (Ok tx, ws')) :
  length (to_bytes tx) = estimate_size b.
Proof. destruct (build_ok _ _ _ _ _ _ Hb) as (tws & items & t1 & t2 & Hbt). by eapply built_length. Qed.
End Theorems.

(** ** A wallet of 200 pays 12 with a fee of 100 *)

#[local] Existing Instances curve_model merlin_model range_proof_model cipher_model hash_map_model order_model.
#[local] Existing Instances ledger_state ledger_laws state_laws.

(** A proof of the documented length, whatever the values. *)
Definition range_bytes (n : nat) : list byte := replicate (32 * (9 + 2 * (6 + Nat.log2 n))) x00.

Lemma range_bytes_ok n : rp_ok (range_bytes n).
Proof.
  unfold rp_ok, range_bytes. rewrite length_replicate. split; [|lia].
  replace (32 * (9 + 2 * (6 + Nat.log2 n)))%nat with (32 + (10 + Nat.log2 n) * 64)%nat by lia.
  by rewrite Nat.Div0.mod_add.
Qed.

#[local] Instance range_prover_model : RangeProver.
Proof.
  refine {| rp_rng := (); rp_prove_multiple _ _ values _ _ :=
    Ok (dexist (P:=rp_ok) (range_bytes (length values)) (range_bytes_ok (length values)) : range_proof) |}.
  intros _ t values openings k Hl Hk _ _. eexists. split; [done|]. split; [done|].
  cbn. unfold range_bytes. by rewrite length_replicate, Hk, Nat.log2_pow2 by lia.
Defined.

Definition m_receiver : Address := mkAddress false AddressType.Normal (Key.compress (own_key (fs 8))).
Definition m_builder (extra : option DataElement) : TransactionBuilder :=
  mkBuilder 0 v_key (TypeBuilder.Transfers [mkTransferBuilder XELIS_ASSET 12 m_receiver extra]) (FeeValue 100).
Definition m_draws : Draws := {|
  amount_openings _ := fs 21; source_openings _ := fs 4; eq_masks _ := (fs 2, fs 3, fs 6); validity_masks _ := (fs 7, fs 5);
  extra_openings _ := fs 31; range_rng := (); signature_nonce := fs 11;
|}.
Definition m_wallet : TransactionBuilderState :=
  add_balance XELIS_ASSET (mkBalance 200 (Decompressed v_balance)) (state_new false (mkReference HashOps.max 55) 7).

#[local] Abbreviation m_built extra := (build (m_builder extra) w_pair m_draws m_wallet).
Definition m_tx (extra : option DataElement) : Transaction := match (m_built extra).1 with Ok tx => tx | _ => v_tx end.
Definition m_after (extra : option DataElement) : TransactionBuilderState := (m_built extra).2.

Lemma m_built_ok extra : is_ok (m_built extra).1 = true -> m_built extra = (Ok (m_tx extra), m_after extra).
Proof. unfold m_tx, m_after. by destruct (m_built extra) as [[tx| | |] s]. Qed.
Lemma m_done : is_ok (m_built (Some x_data)).1 = true.
Proof. vm_cast_no_check (eq_refl true). Qed.

Lemma m_agrees : wallet_agrees (fs 5) m_wallet (obs v_ledger).
Proof.
  split; [done|]. intros a v k Hk. cbn [acc_view state_laws m_wallet add_balance set_balances ts_balances state_new] in Hk.
  destruct (decide (a = XELIS_ASSET)) as [->|Hne].
  - rewrite lookup_insert_eq in Hk. injection Hk as <- <-. split; [done|]. exists v_balance. split; [done|].
    split; [|done]. exact (decrypt_encrypt (fs 5) (s_from_u64 200) (mkOpening (fs 9)) ltac:(by vm_compute)).
  - rewrite lookup_insert_ne in Hk by congruence. done.
Qed.

Lemma m_amounts extra : amounts_ok (m_builder extra).(b_data).
Proof. by repeat constructor. Qed.

Lemma m_fee extra : fee_value_ok (m_builder extra).
Proof. done. Qed.
Lemma m_secret : fs 5 <> s0.
Proof. by vm_compute. Qed.

Lemma m_cost a : a ∈ TypeBuilder.used_assets (m_builder (Some x_data)).(b_data) ->
  total_cost (m_builder (Some x_data)).(b_data) (m_tx (Some x_data)).(fee) a < 2 ^ 64.
Proof.
  intros [->|Ha]%used_assets_elem; [|apply list_elem_of_singleton in Ha as ->].
  all: vm_cast_no_check (eq_refl Lt).
Qed.

#[local] Instance shown_dec p : Decision (shown p).
Proof. unfold shown. apply _. Defined.
#[local] Instance points_ok_dec tx : Decision (points_ok tx).
Proof. unfold points_ok, eq_points_ok, validity_points_ok. apply _. Defined.

Lemma m_points : points_ok (m_tx (Some x_data)).
Proof. apply (bool_decide_unpack _). vm_cast_no_check I. Qed.

(** Every call on a ledger succeeds. *)
Lemma ledger_serves tx : Serves (E:=()) tx (fun _ : Ledger => True).
Proof. split; try done; intros; by repeat eexists. Qed.

Lemma built_transaction_verifies_witness :
  if (extra_sizes (transfers_of (m_tx (Some x_data))) <=? EXTRA_DATA_LIMIT_SIZE)%nat
  then exists node', verify (E:=()) (m_tx (Some x_data)) v_rnd v_ledger = (Ok tt, node') /\ True /\
    wallet_agrees (fs 5) (m_after (Some x_data)) (obs node')
  else (verify (E:=()) (m_tx (Some x_data)) v_rnd v_ledger).1 = Err (Proof Format).
Proof.
  exact (built_transaction_verifies (m_builder (Some x_data)) (fs 5) m_draws m_wallet (m_after (Some x_data)) (m_tx (Some x_data))
    (fun _ => True) v_ledger v_rnd m_secret eq_refl (m_amounts _)
    (m_fee _) (m_built_ok _ m_done) m_cost m_agrees m_points (ledger_serves _) I).
Defined.

Lemma estimated_size_exact_witness :
  length (to_bytes (m_tx (Some x_data))) = estimate_size (m_builder (Some x_data)).
Proof.
  apply (estimated_size_exact (m_builder (Some x_data)) w_pair m_draws m_wallet (m_after (Some x_data)) (m_tx (Some x_data))).
  - apply m_amounts.
  - intros a v k Hk. by destruct (proj2 m_agrees a v k Hk).
  - exact (m_built_ok _ m_done).
Defined.

(** 958 bytes of data make a cipher of 1024 bytes, which the builder accepts and
    the verifier counts as 1026. *)
Definition m_large : DataElement :=
  DataElement.Array (replicate 28 (DataElement.Value (DataValue.Hash HashOps.zero)) ++ [DataElement.Value (DataValue.U16 7)]).
Definition is_format_error {E} (r : res (VerificationError E) ()) : bool :=
  match r with Err (Proof Format) => true | _ => false end.
Lemma large_data_refused :
  size m_large = 958%nat /\ is_ok (m_built (Some m_large)).1 = true /\
  is_format_error (verify (E:=()) (m_tx (Some m_large)) v_rnd v_ledger).1 = true.
Proof. split; [done|]. split; vm_cast_no_check (eq_refl true). Qed.
